(* ===== verification/_CoqProject ===== *)
-Q . S2P
Prelude.v
Time.v
RbTree.v
RbShape.v
RbInsert.v
RbRemove.v
RbMap.v
Clock.v
HrTimer.v
FatTable.v
Utf8.v
FatEntry.v
FatDisk.v
FatNames.v
Float.v
FatDir.v
FatFile.v
Circular.v
ReceiveBuffer.v
TcpTypes.v
TcpOptions.v
TcpChecksum.v
TcpSack.v
TcpReassembly.v
TcpCc.v
TcpTimestamp.v
TcpRecovery.v
TcpPacing.v
TcpEcn.v
TcpWindow.v
NetWorld.v
TcpOutOptions.v
TcpWire.v
TcpSend.v
TcpRetransmit.v
SocketTable.v
TcpRecv.v
TcpAck.v
TcpTimer.v
TcpConnect.v
TcpSocket.v
Bits.v
Frames.v
PageTable.v
PageWalk.v
PageMap.v
PageAddr.v
PageSpace.v
PageAny.v
PageRun.v
FloatRound.v
Heap.v
NetTables.v
NetHdr.v
UdpSockets.v
NetHost.v
NetDeliver.v
NetArp.v
NetEcho.v
RxThread.v
Dns.v
DnsProofs.v
Dhcp.v
DhcpProofs.v
VmBus.v
VmBusQueue.v
GuestPic.v
GuestApic.v
GuestLapic.v
GuestTimers.v
GuestSerial.v
GuestBus.v
GuestMachine.v
GuestMemory.v
