(* ===== verification/Prelude.v ===== *)
(** * A verification of the moose kernel

    The program is an x86-64 kernel in Rust: a library of data structures
    ([src/common]), a FAT32 file system ([src/fs]) and the kernel proper
    ([src/kernel]) with its memory manager, clocks, network stack, drivers
    and virtual machine monitor.  This library is a shallow embedding of the
    parts listed below: each function of the source is a definition that
    computes the same result from the same state, and the theorems are about
    these definitions.

    ** How code is modelled

    A computation that can stop the machine has type [res]: it returns
    ([Ret]) or ends in a [fault].  Integers are [Z] with the wrap-around,
    saturation or overflow check of the source written out.  State is passed
    explicitly, in a monad of the component where many calls thread it.
    Loops run under [while_loop] with a bound; where the bound depends on the
    data it is computed from it, and the theorems prove that it is enough, so
    that no result is [OutOfFuel].  Bytes are numbers below 256, strings the
    list of their UTF-8 bytes.  Readings of the clock, registers and random
    numbers are arguments or streams in the state.  Library code that is not
    part of the repository is a parameter or a type class whose laws are what
    it documents (generational_arena, ucs2, chrono, libm,
    linked_list_allocator), and every theorem that uses such laws has an
    instance.

    ** The files

    - Vocabulary: [Prelude] (outcomes, loops, lists of bytes, record update),
      [Bits], [Circular], [Float], [FloatRound], [Utf8], and [Time]
      ([subsystem/clock/time.rs]).
    - [RbTree], [RbShape], [RbInsert], [RbRemove], [RbMap]:
      [common/src/rb_tree.rs].  Operations on an arena of nodes; that they
      behave as an ordered map with stable handles.
    - [Clock], [HrTimer]: [subsystem/clock/system_clock.rs], [timer.rs],
      [common/src/statistics.rs] and the timer interrupt of
      [driver/apic/local_apic.rs].  Calendar arithmetic, calibration, and the
      queue of timers on top of the tree: which timers an interrupt fires.
    - [FatTable], [FatEntry], [FatDisk], [FatNames], [FatDir], [FatFile]:
      [fs/src].  From the allocation table up to files and directories: chains
      that grow and are released never share clusters, names and entries survive the disk, and reading,
      writing, creating, renaming and deleting do what they say and nothing
      else.
    - [Frames], [PageTable], [PageWalk], [PageMap], [PageAddr], [PageSpace],
      [PageAny], [PageRun], [Heap]: [subsystem/memory.rs] and
      [allocator.rs].  Four-level tables as words in memory; that an address
      space is a map from pages to frames; mapping at free addresses, runs of
      frames, and the growth of the heap.
    - [ReceiveBuffer], [TcpTypes], [TcpOptions], [TcpChecksum], [TcpSack],
      [TcpReassembly], [TcpCc], [TcpTimestamp], [TcpRecovery], [TcpPacing],
      [TcpEcn], [TcpWindow]: the control block of
      [driver/net/proto/tcp] and the operations on it.
    - [NetWorld], [TcpOutOptions], [TcpWire], [TcpSend], [TcpRetransmit],
      [TcpRecv], [TcpAck], [TcpTimer], [TcpConnect], [SocketTable],
      [TcpSocket]: the TCP driver, its locks, and the socket interface
      ([tcp_socket.rs]).  The receiver reads a prefix of the peer's stream,
      the sender sends consecutive segments within the windows, and the
      control block's invariants survive every event modelled.
    - [NetTables], [NetHdr], [UdpSockets], [NetHost], [NetDeliver], [NetArp],
      [NetEcho]: [driver/net/mod.rs] and [ethernet.rs], [arp.rs], [ip.rs],
      [icmp.rs], [udp.rs] of [driver/net/proto].  Routes and caches against
      their abstract maps; a datagram from the sender's call to the receiver's
      read; an address resolved between two hosts; an echo answered.
    - [RxThread]: [driver/net/rx_process_thread.rs] with the gate and event of
      [subsystem/scheduler.rs], as interleaved steps.
    - [Dns], [DnsProofs]: [driver/net/proto/dns.rs].  A lookup returns the
      addresses of the response to its query, and only such responses change
      the cache.
    - [Dhcp], [DhcpProofs]: [driver/net/proto/dhcp.rs].  An exchange with a
      server configures interface, routes and resolver; nothing else does.
    - [VmBus], [VmBusQueue]: [driver/hv/hyperv/ring_buffer.rs] and
      [channel.rs].  The ring between two ends of a channel is a queue of
      packets; buffers handed over by address are described correctly.
    - [GuestPic], [GuestApic], [GuestLapic], [GuestTimers], [GuestSerial],
      [GuestBus], [GuestMachine], [GuestMemory]: [driver/hv/reindeer], the
      machine emulated for a guest.  Its interrupt controllers as sets of
      vectors, its timers, serial port and bus; an interrupt from the pin of a
      device to the entry that injects it; and the tables that take guest pages
      to frames, built from frames of the kernel's memory manager.

    ** How the parts meet

    The timer queue is proved against the interface of the tree; files use
    directories, directories use clusters and names, both use the table; the
    heap uses mapping, and mapping the frame allocator.  TCP hands packets to
    a list of packets sent and gets segments as arguments; the hosts of
    [NetHost] hand TCP packets up in the same way.  A thread that blocks on a
    gate leaves the processor to the thread that can open it, which is a
    parameter of the network operations: the receive worker for an
    application, nobody for the worker itself.

    ** Bounds

    Loops over data take their bound from it (the number of entries, clusters,
    segments or bytes).  The loops of the timer interrupt and of the blocking
    calls take a bound from the clock, and the theorems show that it suffices
    when the clock advances.  Sizes of tables and buffers are those of the
    source.

    ** Not modelled

    - Locks are modelled where the code can take one twice (the TCP driver)
      and interleavings where code depends on them (the receive worker); other
      critical sections are single steps, and the scheduler's own queues,
      context switches and interrupts are left out: they are assembly and
      processor state.
    - Access to devices: ports, registers and DMA rings of the cards, disks,
      serial line, screen, interrupt controllers and PCI; ACPI tables, which
      are walked by the ACPICA library; hypercalls and VT-x instructions.
      What these do is a property of hardware the sources do not describe.
    - Of the machine emulated for a guest: the exits for CPUID, model-specific
      and control registers and BIOS calls, the ACPI tables and images it is
      started with, and its PCI bridge: [main.rs] puts it on the bus beside
      the serial port and the real-time clock, with which the bus is proved.
    - Start-up, logging, formatted output, and the data of the console font.
*)

From Stdlib Require Export ZArith Lia Bool.
From stdpp Require Export base tactics option list gmap.

#[global] Open Scope Z_scope.

(** ** Outcomes

    The kernel is built with [panic = "abort"] and, in the development
    profile, with overflow checks; a computation therefore either returns or
    stops the machine in one of the ways below. *)

Inductive fault :=
| Panic        (** an explicit panic: overflow check, bounds check, assert, unwrap *)
| OutOfBounds  (** a raw pointer copy that leaves its allocation *)
| Deadlock     (** a spin lock taken again by its own holder, or a wait for what only the waiting thread would do *)
| OutOfFuel.   (** the loop bound of the model was not enough *)

Inductive res (A : Type) :=
| Ret (a : A)
| Crash (f : fault).
Arguments Ret {A} a.
Arguments Crash {A} f.

#[global] Instance fault_eq_dec : EqDecision fault.
Proof. solve_decision. Defined.

#[global] Instance res_ret : MRet res := λ A, Ret.
#[global] Instance res_bind : MBind res := λ A B f m,
  match m with Ret a => f a | Crash e => Crash e end.

Lemma bind_ret_inv {A B} (m : res A) (f : A → res B) b :
  (m ≫= f) = Ret b → ∃ a, m = Ret a ∧ f a = Ret b.
Proof. destruct m as [a|e]; simpl; [eauto|discriminate]. Qed.

Lemma ret_bind {A B} (a : A) (f : A → res B) : (Ret a ≫= f) = f a.
Proof. reflexivity. Qed.

Lemma bind_assoc {A B C} (m : res A) (f : A → res B) (g : B → res C) :
  ((m ≫= f) ≫= g) = (m ≫= λ x, f x ≫= g).
Proof. destruct m; reflexivity. Qed.

(** [m] returns, and its result satisfies [P]: total correctness. *)
Definition returns {A} (m : res A) (P : A → Prop) : Prop :=
  ∃ a, m = Ret a ∧ P a.

Lemma returns_ret {A} (a : A) (P : A → Prop) : P a → returns (Ret a) P.
Proof. intros; exists a; auto. Qed.

Lemma returns_bind {A B} (m : res A) (f : A → res B) (P : A → Prop) (Q : B → Prop) :
  returns m P → (∀ a, P a → returns (f a) Q) → returns (m ≫= f) Q.
Proof. intros (a & -> & Ha) Hf. apply Hf, Ha. Qed.

Lemma returns_mono {A} (m : res A) (P Q : A → Prop) :
  returns m P → (∀ a, P a → Q a) → returns m Q.
Proof. intros (a & -> & Ha) H. exists a; auto. Qed.

(** An [assert!] or an index check. *)
Definition rassert (b : bool) : res unit := if b then Ret tt else Crash Panic.

(** ** Machine integers

    A [uN] is a [Z] in [0, 2^N); the operations below write out what the
    Rust operators of the same name do at the boundary. *)

Abbreviation U8 := 256.
Abbreviation U16 := 65536.
Abbreviation I32 := 2147483648.
Abbreviation U32 := 4294967296.
Abbreviation U64 := 18446744073709551616.

Definition u8 (x : Z) : Prop := 0 ≤ x < U8.
Definition u16 (x : Z) : Prop := 0 ≤ x < U16.
Definition u32 (x : Z) : Prop := 0 ≤ x < U32.
Definition u64 (x : Z) : Prop := 0 ≤ x < U64.

(** [wrapping_add], [wrapping_sub] at 32 bits. *)
Definition wadd (a b : Z) : Z := (a + b) mod U32.
Definition wsub (a b : Z) : Z := (a - b) mod U32.

(** The cast [x as i32] of a [u32]. *)
Definition as_i32 (x : Z) : Z := if x <? I32 then x else x - U32.

(** The idiom [(a.wrapping_sub(b) as i32)] of the sequence comparisons. *)
Definition sdiff (a b : Z) : Z := as_i32 (wsub a b).

(** [saturating_*] at modulus [m]. *)
Definition sat_add (m a b : Z) : Z := Z.min (a + b) (m - 1).
Definition sat_mul (m a b : Z) : Z := Z.min (a * b) (m - 1).
Definition sat_sub (a b : Z) : Z := Z.max (a - b) 0.

(** The plain operators, which panic on overflow. *)
Definition chk (m x : Z) : res Z := if (0 <=? x) && (x <? m) then Ret x else Crash Panic.
Definition add_chk (m a b : Z) : res Z := chk m (a + b).
Definition sub_chk (m a b : Z) : res Z := chk m (a - b).
Definition mul_chk (m a b : Z) : res Z := chk m (a * b).

(** [a % b], which panics on a zero divisor. *)
Definition rem_chk (a b : Z) : res Z := if b =? 0 then Crash Panic else Ret (a mod b).

Ltac ints := unfold u8, u16, u32, u64 in *.
Ltac mlia := ints; zify; Z.to_euclidean_division_equations; lia.

Lemma chk_ret m x : 0 ≤ x < m → chk m x = Ret x.
Proof.
  intros. unfold chk.
  destruct (Z.leb_spec 0 x); [|lia]. destruct (Z.ltb_spec x m); [reflexivity|lia].
Qed.

Lemma chk_inv m x y : chk m x = Ret y → y = x ∧ 0 ≤ x < m.
Proof.
  unfold chk. destruct (Z.leb_spec 0 x), (Z.ltb_spec x m); simpl; intros; simplify_eq; lia.
Qed.

Lemma chk_panic m x : x < 0 ∨ m ≤ x → chk m x = Crash Panic.
Proof.
  intros. unfold chk.
  destruct (Z.leb_spec 0 x), (Z.ltb_spec x m); simpl; try reflexivity; lia.
Qed.

Lemma add_chk_ret m a b : 0 ≤ a + b < m → add_chk m a b = Ret (a + b).
Proof. apply chk_ret. Qed.
Lemma sub_chk_ret m a b : 0 ≤ a - b < m → sub_chk m a b = Ret (a - b).
Proof. apply chk_ret. Qed.
Lemma mul_chk_ret m a b : 0 ≤ a * b < m → mul_chk m a b = Ret (a * b).
Proof. apply chk_ret. Qed.
Lemma rem_chk_ret a b : b ≠ 0 → rem_chk a b = Ret (a mod b).
Proof. intros. unfold rem_chk. destruct (Z.eqb_spec b 0); [lia|reflexivity]. Qed.

Lemma wadd_u32 a b : u32 (wadd a b).
Proof. unfold wadd; mlia. Qed.
Lemma wsub_u32 a b : u32 (wsub a b).
Proof. unfold wsub; mlia. Qed.

Lemma wadd_0 a : u32 a → wadd a 0 = a.
Proof. unfold wadd; mlia. Qed.
Lemma wsub_self a : wsub a a = 0.
Proof. unfold wsub; mlia. Qed.
Lemma wsub_wadd a b : u32 b → wsub (wadd a b) a = b.
Proof. unfold wsub, wadd; mlia. Qed.
Lemma wadd_wsub a b : u32 b → wadd a (wsub b a) = b.
Proof. unfold wsub, wadd; mlia. Qed.
Lemma wadd_assoc a b c : wadd (wadd a b) c = wadd a (b + c).
Proof. unfold wadd. rewrite Zplus_mod_idemp_l. f_equal; lia. Qed.
Lemma wadd_wadd_r a b c : wadd a (wadd b c) = wadd a (b + c).
Proof. unfold wadd. rewrite Zplus_mod_idemp_r. reflexivity. Qed.
Lemma wsub_eq_0 a b : u32 a → u32 b → wsub a b = 0 ↔ a = b.
Proof. unfold wsub; split; mlia. Qed.

Lemma as_i32_range x : u32 x → - I32 ≤ as_i32 x < I32.
Proof. unfold as_i32; ints; intros; destruct (Z.ltb_spec x I32); lia. Qed.
Lemma as_i32_mod x : u32 x → as_i32 x mod U32 = x.
Proof. unfold as_i32; intros; destruct (Z.ltb_spec x I32); mlia. Qed.

(** A sequence comparison is the signed difference when the two numbers are
    less than half the sequence space apart. *)
Lemma sdiff_small base i j :
  - I32 ≤ i - j < I32 → sdiff (wadd base i) (wadd base j) = i - j.
Proof.
  intros. unfold sdiff, wsub, wadd.
  rewrite <- Zminus_mod. replace (base + i - (base + j)) with (i - j) by lia.
  unfold as_i32. destruct (Z.ltb_spec ((i - j) mod U32) I32); mlia.
Qed.

Lemma sdiff_self a : sdiff a a = 0.
Proof. unfold sdiff. rewrite wsub_self. reflexivity. Qed.

Lemma sat_add_range m a b : 0 < m → 0 ≤ a → 0 ≤ b → 0 ≤ sat_add m a b < m.
Proof. unfold sat_add; lia. Qed.
Lemma sat_sub_nonneg a b : 0 ≤ sat_sub a b.
Proof. unfold sat_sub; lia. Qed.

(** ** Loops

    [iterate p body s] runs [body] up to [2^k] times, [p] in binary, and
    stops at the first [inr]; [while_loop] is a [loop] or [while] of the
    source with that bound.  A measure that every round decreases and that
    [p] exceeds makes the bound sufficient ([while_loop_total]). *)

Section Loops.
Context {S R : Type} (body : S → res (S + R)).

Fixpoint iterate (p : positive) (s : S) : res (S + R) :=
  let again q r :=
    match r with
    | Ret (inl s') => iterate q s'
    | _ => r
    end in
  match p with
  | xH => body s
  | xO q => again q (iterate q s)
  | xI q => again q (again q (body s))
  end.

Definition while_loop (p : positive) (s : S) : res R :=
  match iterate p s with
  | Ret (inr r) => Ret r
  | Ret (inl _) => Crash OutOfFuel
  | Crash e => Crash e
  end.

(** [I n s]: the state [s] is good and at most [n] rounds are left. *)
Lemma iterate_variant (I : Z → S → Prop) (P : R → Prop) :
  (∀ n s, I n s → 0 ≤ n →
     returns (body s) (λ r, match r with
                            | inl s' => ∃ n', I n' s' ∧ 0 ≤ n' < n
                            | inr r => P r
                            end)) →
  ∀ p n s, I n s → 0 ≤ n →
  returns (iterate p s) (λ r, match r with
                              | inl s' => ∃ n', I n' s' ∧ 0 ≤ n' ≤ n - Z.pos p
                              | inr r => P r
                              end).
Proof.
  intros step p. induction p as [p IH|p IH|]; intros n s Hi Hm; simpl.
  - destruct (step n s Hi Hm) as ([s1|r1] & -> & H1); [|exists (inr r1); auto]. destruct H1 as (n1 & H1 & ?).
    destruct (IH n1 s1) as ([s2|r2] & E2 & H2); [auto|lia| |rewrite E2; eexists; split; [reflexivity|auto]].
    destruct H2 as (n2 & H2 & ?). rewrite E2.
    destruct (IH n2 s2) as ([s3|r3] & E3 & H3); [auto|lia| |]; rewrite E3; eexists; (split; [reflexivity|]); [|auto].
    destruct H3 as (n3 & ? & ?). exists n3. split; [auto|lia].
  - destruct (IH n s Hi Hm) as ([s2|r2] & E2 & H2); [|rewrite E2; eexists; split; [reflexivity|auto]].
    destruct H2 as (n2 & H2 & ?). rewrite E2.
    destruct (IH n2 s2) as ([s3|r3] & E3 & H3); [auto|lia| |]; rewrite E3; eexists; (split; [reflexivity|]); [|auto].
    destruct H3 as (n3 & ? & ?). exists n3. split; [auto|lia].
  - destruct (step n s Hi Hm) as (r & -> & Hr). eexists; split; [reflexivity|].
    destruct r; [|auto]. destruct Hr as (n' & ? & ?). exists n'. split; [auto|lia].
Qed.

Lemma while_loop_variant (I : Z → S → Prop) (P : R → Prop) :
  (∀ n s, I n s → 0 ≤ n →
     returns (body s) (λ r, match r with
                            | inl s' => ∃ n', I n' s' ∧ 0 ≤ n' < n
                            | inr r => P r
                            end)) →
  ∀ p n s, I n s → 0 ≤ n < Z.pos p → returns (while_loop p s) P.
Proof.
  intros step p n s Hi Hm. unfold while_loop.
  destruct (iterate_variant I P step p n s Hi) as ([s'|r] & -> & H'); [lia| |eexists; eauto].
  destruct H' as (n' & _ & ?). lia.
Qed.

(** The same, with a measure of the state. *)
Lemma while_loop_total (I : S → Prop) (m : S → Z) (P : R → Prop) :
  (∀ s, I s → 0 ≤ m s →
     returns (body s) (λ r, match r with
                            | inl s' => I s' ∧ 0 ≤ m s' < m s
                            | inr r => P r
                            end)) →
  ∀ p s, I s → 0 ≤ m s < Z.pos p → returns (while_loop p s) P.
Proof.
  intros step p s Hi Hm. apply (while_loop_variant (λ n s, I s ∧ n = m s) P) with (m s); [|auto|assumption].
  intros n s' [Hi' ->] Hn. eapply returns_mono; [apply (step s' Hi' Hn)|].
  intros [s''|r]; [|auto]. intros [? ?]. exists (m s''). auto.
Qed.

(** A loop whose rounds may also stop with a fault: it does not run out of
    rounds. *)
Lemma while_loop_stops (I : S → Prop) (m : S → Z) (Q : fault → Prop) :
  (∀ s, I s → 0 ≤ m s → match body s with
                         | Ret (inl s') => I s' ∧ 0 ≤ m s' < m s
                         | Ret (inr _) => True
                         | Crash e => Q e
                         end) →
  ∀ p s, I s → 0 ≤ m s < Z.pos p → match while_loop p s with Ret _ => True | Crash e => Q e end.
Proof.
  intros step. assert (Hit : ∀ p s, I s → 0 ≤ m s → match iterate p s with
    | Ret (inl s') => I s' ∧ 0 ≤ m s' ≤ m s - Z.pos p | Ret (inr _) => True | Crash e => Q e end).
  { induction p as [p IH|p IH|]; intros s Hi Hm; simpl.
    - specialize (step s Hi Hm). destruct (body s) as [[s1|r1]|]; [|done..]. destruct step as [H1 ?].
      specialize (IH s1 H1 ltac:(lia)) as IH1. destruct (iterate p s1) as [[s2|r2]|]; [|done..]. destruct IH1 as [H2 ?].
      specialize (IH s2 H2 ltac:(lia)). destruct (iterate p s2) as [[s3|r3]|]; [|done..]. destruct IH. split; [done|lia].
    - specialize (IH s Hi Hm) as IH1. destruct (iterate p s) as [[s2|r2]|]; [|done..]. destruct IH1 as [H2 ?].
      specialize (IH s2 H2 ltac:(lia)). destruct (iterate p s2) as [[s3|r3]|]; [|done..]. destruct IH. split; [done|lia].
    - specialize (step s Hi Hm). destruct (body s) as [[s1|r1]|]; [|done..]. destruct step. split; [done|lia]. }
  intros p s Hi Hm. unfold while_loop. specialize (Hit p s Hi ltac:(lia)). destruct (iterate p s) as [[s'|r]|]; [|done..]. lia.
Qed.
End Loops.

(** The rounds a loop takes, without a bound. *)
Section LoopRuns.
Context {S R : Type} (body : S → res (S + R)).

Inductive loop_runs : S → R → Prop :=
| loop_exit s r : body s = Ret (inr r) → loop_runs s r
| loop_round s s' r : body s = Ret (inl s') → loop_runs s' r → loop_runs s r.

Lemma loop_runs_det s r1 r2 : loop_runs s r1 → loop_runs s r2 → r1 = r2.
Proof.
  intros H. revert r2. induction H as [s r E|s s' r E H IH]; intros r2 H2;
    destruct H2 as [s r2 E2|s s2 r2 E2 H2]; rewrite E in E2; simplify_eq; auto.
Qed.

Lemma iterate_runs p s x : iterate body p s = Ret x →
  ∀ r, match x with inr r' => r' = r | inl s' => loop_runs s' r end → loop_runs s r.
Proof.
  revert s x. induction p as [p IH|p IH|]; simpl; intros s x E r Hr.
  - destruct (body s) as [[s1|r1]|] eqn:E1; simplify_eq; [|subst; by constructor].
    apply loop_round with s1; [assumption|].
    destruct (iterate body p s1) as [[s2|r2]|] eqn:E2; simplify_eq.
    + eapply IH; [apply E2|]. eapply IH; [apply E|]. assumption.
    + eapply IH; [apply E2|]. done.
  - destruct (iterate body p s) as [[s2|r2]|] eqn:E2; simplify_eq.
    + eapply IH; [apply E2|]. eapply IH; [apply E|]. assumption.
    + eapply IH; [apply E2|]. done.
  - destruct x; [by apply loop_round with s0|subst; by constructor].
Qed.

Lemma while_loop_runs p s r : while_loop body p s = Ret r → loop_runs s r.
Proof.
  unfold while_loop. intros E.
  destruct (iterate body p s) as [[s'|r']|] eqn:Ei; simplify_eq.
  eapply iterate_runs; [apply Ei|reflexivity].
Qed.

(** With enough fuel, a loop returns what its rounds compute. *)
Lemma while_loop_eval p s r P :
  returns (while_loop body p s) P → loop_runs s r → while_loop body p s = Ret r.
Proof.
  intros (r' & E & _) Hr. rewrite E. f_equal.
  eapply loop_runs_det; [eapply while_loop_runs, E|assumption].
Qed.
End LoopRuns.

(** ** Permutations

    [solve_perm] proves that two lists built from the same parts with [::] and
    [++] are permutations of each other. *)

Lemma perm_use_cons {A} (x : A) L R R' : R ≡ₚ x :: R' → L ≡ₚ R' → x :: L ≡ₚ R.
Proof. intros -> ->. reflexivity. Qed.
Lemma perm_use_app {A} (l : list A) L R R' : R ≡ₚ l ++ R' → L ≡ₚ R' → l ++ L ≡ₚ R.
Proof. intros -> ->. reflexivity. Qed.
Lemma perm_via_cons {A} (x y : A) R R' : R ≡ₚ x :: R' → y :: R ≡ₚ x :: y :: R'.
Proof. intros ->. apply perm_swap. Qed.
Lemma perm_via_cons_app {A} (l : list A) y R R' : R ≡ₚ l ++ R' → y :: R ≡ₚ l ++ y :: R'.
Proof. intros ->. apply Permutation_middle. Qed.
Lemma perm_via_app {A} (x : A) l R R' : R ≡ₚ x :: R' → l ++ R ≡ₚ x :: l ++ R'.
Proof. intros ->. symmetry. apply Permutation_middle. Qed.
Lemma perm_via_app_app {A} (l m : list A) R R' : R ≡ₚ l ++ R' → m ++ R ≡ₚ l ++ m ++ R'.
Proof. intros ->. apply Permutation_app_swap_app. Qed.
Lemma perm_nil_ends {A} (l m : list A) : l ++ [] ≡ₚ m ++ [] → l ≡ₚ m.
Proof. by rewrite !app_nil_r. Qed.

Ltac pull_cons x :=
  lazymatch goal with
  | |- x :: _ ≡ₚ _ => reflexivity
  | |- _ :: _ ≡ₚ _ => apply perm_via_cons; pull_cons x
  | |- _ ++ _ ≡ₚ _ => apply perm_via_app; pull_cons x
  end.
Ltac pull_app l :=
  lazymatch goal with
  | |- l ++ _ ≡ₚ _ => reflexivity
  | |- _ :: _ ≡ₚ _ => apply perm_via_cons_app; pull_app l
  | |- _ ++ _ ≡ₚ _ => apply perm_via_app_app; pull_app l
  end.
Ltac solve_perm :=
  apply perm_nil_ends; repeat (rewrite <- app_assoc || rewrite <- app_comm_cons || rewrite app_nil_l);
  repeat lazymatch goal with
  | |- [] ≡ₚ [] => reflexivity
  | |- ?x :: _ ≡ₚ _ => eapply perm_use_cons; [pull_cons x|]
  | |- ?l ++ _ ≡ₚ _ => eapply perm_use_app; [pull_app l|]
  end.

(** Membership of an element that is written out or known to be in a part. *)
Ltac in_list :=
  lazymatch goal with
  | |- _ ∈ _ ++ _ => apply elem_of_app; first [left; in_list | right; in_list]
  | |- _ ∈ _ :: _ => apply elem_of_cons; first [left; reflexivity | right; in_list]
  | |- _ => assumption
  end.

(** ** Record update

    [r <| f := v |>] is the assignment [r.f = v]; nested fields are separated
    by semicolons.  A record type declares its eta expansion once. *)

Class Eta (R : Type) := eta : R → R.
Class Update {R E : Type} (proj : R → E) := update : (E → E) → R → R.
Arguments update {R E} proj {_} _ _ : simpl never.

Ltac derive_update :=
  match goal with
  | |- @Update ?R ?E ?proj =>
    let e := constr:(_ : Eta R) in
    let e := eval hnf in e in
    exact (λ (g : E → E) (r : R),
      ltac:(let b := eval cbv beta in (e r) in
            let b := eval pattern (proj r) in b in
            match b with
            | ?h _ => let c := eval cbv beta in (h (g (proj r))) in exact c
            end))
  end.
#[global] Hint Extern 1 (Update _) => derive_update : typeclass_instances.

Declare Scope moose_scope.
Delimit Scope moose_scope with moose.
Notation "r <| f := v |>" := (update f (λ _, v) r)
  (at level 1, f at next level, left associativity, format "r  <| f  :=  v |>") : moose_scope.
Notation "r <| f ; g := v |>" := (update f (update g (λ _, v)) r)
  (at level 1, f at next level, g at next level, left associativity,
   format "r  <| f ;  g  :=  v |>") : moose_scope.
#[global] Open Scope moose_scope.

(** Projections of an updated record.  The equation is proved once for an
    arbitrary record: conversion on the nested updates themselves is slow. *)
Ltac update_eqn p R E q i k :=
  tryif constr_eq p q
  then (let H := fresh in
        assert (H : ∀ (g : E → E) (r : R), p (@update R E q i g r) = g (p r))
          by (intros; reflexivity); k H; clear H)
  else (let H := fresh in
        assert (H : ∀ (g : E → E) (r : R), p (@update R E q i g r) = p r)
          by (intros; reflexivity); k H; clear H).
Ltac rsimp_goal :=
  match goal with
  | |- context [?p (@update ?R ?E ?q ?i ?g ?r)] =>
    update_eqn p R E q i ltac:(fun H => rewrite (H g r))
  end; cbv beta.
Ltac rsimp_hyp :=
  match goal with
  | Hyp : context [?p (@update ?R ?E ?q ?i ?g ?r)] |- _ =>
    update_eqn p R E q i ltac:(fun H => rewrite (H g r) in Hyp); cbv beta in Hyp
  end.
Ltac rsimp := repeat rsimp_goal.
Ltac rsimp_all := repeat (rsimp_goal || rsimp_hyp).

(** ** Byte slices

    Slices are lists indexed by [Z]; an index of the source is a [usize]. *)

Definition zlen {A} (l : list A) : Z := Z.of_nat (length l).
Definition ztake {A} (n : Z) (l : list A) : list A := take (Z.to_nat n) l.
Definition zdrop {A} (n : Z) (l : list A) : list A := drop (Z.to_nat n) l.
Definition byte_at (l : list Z) (i : Z) : Z := default 0 (l !! Z.to_nat i).
Definition zeros (n : Z) : list Z := replicate (Z.to_nat n) 0.
Definition bytes (l : list Z) : Prop := Forall u8 l.

(** [l[i]], checked. *)
Definition index {A} (l : list A) (i : Z) : res A :=
  if i <? 0 then Crash Panic
  else match l !! Z.to_nat i with Some x => Ret x | None => Crash Panic end.

(** [&l[i..j]], checked. *)
Definition slice {A} (l : list A) (i j : Z) : res (list A) :=
  if (0 <=? i) && (i <=? j) && (j <=? zlen l) then Ret (ztake (j - i) (zdrop i l))
  else Crash Panic.

(** [l] with [src] written over positions [i ..]. *)
Definition splice {A} (l : list A) (i : Z) (src : list A) : list A :=
  ztake i l ++ src ++ zdrop (i + zlen src) l.

(** [l[i] = x], checked. *)
Definition store {A} (l : list A) (i : Z) (x : A) : res (list A) :=
  if (0 <=? i) && (i <? zlen l) then Ret (splice l i [x]) else Crash Panic.

(** [l[i .. i + src.len()].copy_from_slice(src)], checked. *)
Definition store_slice {A} (l : list A) (i : Z) (src : list A) : res (list A) :=
  if (0 <=? i) && (i + zlen src <=? zlen l) then Ret (splice l i src) else Crash Panic.

(** [ptr::copy_nonoverlapping(src, l.as_mut_ptr().add(i), src.len())]. *)
Definition copy_raw {A} (l : list A) (i : Z) (src : list A) : res (list A) :=
  if (0 <=? i) && (i + zlen src <=? zlen l) then Ret (splice l i src) else Crash OutOfBounds.

Section Slices.
Context {A : Type}.
Implicit Types l : list A.

Lemma zlen_nonneg l : 0 ≤ zlen l.
Proof. unfold zlen; lia. Qed.
Lemma zlen_app l1 l2 : zlen (l1 ++ l2) = zlen l1 + zlen l2.
Proof. unfold zlen; rewrite length_app; lia. Qed.
Lemma zlen_cons x l : zlen (x :: l) = 1 + zlen l.
Proof. unfold zlen; simpl; lia. Qed.
Lemma zlen_nil : zlen (@nil A) = 0.
Proof. reflexivity. Qed.
Lemma zlen_zero_inv l : zlen l = 0 → l = [].
Proof. destruct l; [reflexivity|unfold zlen; simpl; lia]. Qed.
Lemma zlen_ztake n l : 0 ≤ n ≤ zlen l → zlen (ztake n l) = n.
Proof. unfold zlen, ztake; rewrite length_take; lia. Qed.
Lemma zlen_zdrop n l : 0 ≤ n ≤ zlen l → zlen (zdrop n l) = zlen l - n.
Proof. unfold zlen, zdrop; rewrite length_drop; lia. Qed.
Lemma ztake_all n l : zlen l ≤ n → ztake n l = l.
Proof. unfold zlen, ztake; intros; apply take_ge; lia. Qed.
Lemma ztake_0 l : ztake 0 l = [].
Proof. reflexivity. Qed.
Lemma zdrop_0 l : zdrop 0 l = l.
Proof. reflexivity. Qed.
Lemma ztake_zdrop n l : ztake n l ++ zdrop n l = l.
Proof. apply take_drop. Qed.
Lemma zlen_splice l i src : 0 ≤ i → i + zlen src ≤ zlen l → zlen (splice l i src) = zlen l.
Proof.
  intros. pose proof (zlen_nonneg src). unfold splice.
  rewrite !zlen_app, zlen_ztake, zlen_zdrop; lia.
Qed.
Lemma lookup_splice l i src k : 0 ≤ i → i + zlen src ≤ zlen l → 0 ≤ k →
  splice l i src !! Z.to_nat k =
  if (i <=? k) && (k <? i + zlen src) then src !! Z.to_nat (k - i) else l !! Z.to_nat k.
Proof.
  intros Hi Hl Hk. unfold splice, ztake, zdrop, zlen in *.
  destruct (Z.leb_spec i k); simpl.
  - rewrite lookup_app_r by (rewrite length_take; lia).
    rewrite length_take_le by lia.
    destruct (Z.ltb_spec k (i + Z.of_nat (length src))).
    + rewrite lookup_app_l by lia. f_equal; lia.
    + rewrite lookup_app_r by lia. rewrite lookup_drop. f_equal; lia.
  - rewrite lookup_app_l by (rewrite length_take; lia).
    rewrite lookup_take. case_decide; [reflexivity|lia].
Qed.
End Slices.

Lemma byte_at_splice l i src k : 0 ≤ i → i + zlen src ≤ zlen l → 0 ≤ k →
  byte_at (splice l i src) k =
  if (i <=? k) && (k <? i + zlen src) then byte_at src (k - i) else byte_at l k.
Proof.
  intros. unfold byte_at. rewrite lookup_splice by assumption.
  destruct (_ && _); reflexivity.
Qed.

Lemma byte_at_ztake l n k : 0 ≤ k < n → byte_at (ztake n l) k = byte_at l k.
Proof.
  intros. unfold byte_at, ztake. rewrite lookup_take.
  case_decide; [reflexivity|lia].
Qed.

Lemma byte_at_zdrop l n k : 0 ≤ n → 0 ≤ k → byte_at (zdrop n l) k = byte_at l (n + k).
Proof. intros. unfold byte_at, zdrop. rewrite lookup_drop. do 2 f_equal; lia. Qed.

Lemma byte_at_app l1 l2 k : 0 ≤ k →
  byte_at (l1 ++ l2) k = if k <? zlen l1 then byte_at l1 k else byte_at l2 (k - zlen l1).
Proof.
  intros. unfold byte_at, zlen. destruct (Z.ltb_spec k (Z.of_nat (length l1))).
  - rewrite lookup_app_l by lia. reflexivity.
  - rewrite lookup_app_r by lia. do 2 f_equal; lia.
Qed.

(** Two byte slices of equal length with equal bytes are equal. *)
Lemma byte_list_eq l1 l2 :
  zlen l1 = zlen l2 → (∀ k, 0 ≤ k < zlen l1 → byte_at l1 k = byte_at l2 k) → l1 = l2.
Proof.
  unfold zlen. intros Hl Hk. apply list_eq. intros i.
  destruct (decide (i < length l1)%nat) as [Hi|Hi].
  - specialize (Hk (Z.of_nat i) ltac:(lia)). unfold byte_at in Hk.
    rewrite Nat2Z.id in Hk.
    destruct (lookup_lt_is_Some_2 l1 i) as [x Hx]; [lia|].
    destruct (lookup_lt_is_Some_2 l2 i) as [y Hy]; [lia|].
    rewrite Hx, Hy in *. simpl in Hk. congruence.
  - rewrite !lookup_ge_None_2; [reflexivity|lia|lia].
Qed.

Lemma in_bounds_true i n m : 0 ≤ i → i + n ≤ m → (0 <=? i) && (i + n <=? m) = true.
Proof. intros. apply andb_true_intro. split; lia. Qed.

Lemma copy_raw_ret {A} (l : list A) i src :
  0 ≤ i → i + zlen src ≤ zlen l → copy_raw l i src = Ret (splice l i src).
Proof. intros. unfold copy_raw. rewrite in_bounds_true by assumption. reflexivity. Qed.

Lemma store_slice_ret {A} (l : list A) i src :
  0 ≤ i → i + zlen src ≤ zlen l → store_slice l i src = Ret (splice l i src).
Proof. intros. unfold store_slice. rewrite in_bounds_true by assumption. reflexivity. Qed.

Lemma store_ret {A} (l : list A) i x :
  0 ≤ i < zlen l → store l i x = Ret (splice l i [x]).
Proof.
  intros. unfold store. destruct (Z.leb_spec 0 i), (Z.ltb_spec i (zlen l)); reflexivity || lia.
Qed.

Lemma zlen_insert {A} (tbl : list A) i v : zlen (<[i := v]> tbl) = zlen tbl.
Proof. unfold zlen. by rewrite length_insert. Qed.

Lemma store_as_insert {A} (tbl : list A) c v : 0 ≤ c < zlen tbl → store tbl c v = Ret (<[Z.to_nat c := v]> tbl).
Proof.
  intros Hc. rewrite store_ret by done. f_equal. apply list_eq. intros i.
  rewrite <- (Nat2Z.id i), lookup_splice by (rewrite ?zlen_cons, ?zlen_nil; lia). rewrite zlen_cons, zlen_nil.
  destruct (decide (Z.of_nat i = c)) as [<-|Hne].
  - rewrite list_lookup_insert_eq by (unfold zlen in Hc; lia).
    destruct (Z.leb_spec (Z.of_nat i) (Z.of_nat i)), (Z.ltb_spec (Z.of_nat i) (Z.of_nat i + (1 + 0))); simpl; try lia.
    by rewrite Z.sub_diag.
  - rewrite list_lookup_insert_ne by lia. destruct (Z.leb_spec c (Z.of_nat i)), (Z.ltb_spec (Z.of_nat i) (c + (1 + 0)));
      simpl; done || lia.
Qed.

Lemma slice_ret {A} (l : list A) i j :
  0 ≤ i ≤ j → j ≤ zlen l → slice l i j = Ret (ztake (j - i) (zdrop i l)).
Proof.
  intros. unfold slice.
  destruct (Z.leb_spec 0 i), (Z.leb_spec i j), (Z.leb_spec j (zlen l)); reflexivity || lia.
Qed.

Lemma index_ret (l : list Z) i : 0 ≤ i < zlen l → index l i = Ret (byte_at l i).
Proof.
  unfold zlen. intros. unfold index, byte_at. destruct (Z.ltb_spec i 0); [lia|].
  destruct (lookup_lt_is_Some_2 l (Z.to_nat i)) as [x ->]; [lia|reflexivity].
Qed.

Lemma index_lookup {A} (l : list A) i x : 0 ≤ i → l !! Z.to_nat i = Some x → index l i = Ret x.
Proof. intros Hi Hx. unfold index. destruct (Z.ltb_spec i 0); [lia|]. rewrite Hx. reflexivity. Qed.

Lemma zlen_zeros n : 0 ≤ n → zlen (zeros n) = n.
Proof. intros. unfold zeros, zlen. rewrite length_replicate. lia. Qed.

(** Reading and writing in the middle of a list. *)
Lemma slice_app_mid {A} (a b c : list A) : slice (a ++ b ++ c) (zlen a) (zlen a + zlen b) = Ret b.
Proof.
  pose proof (zlen_nonneg a). pose proof (zlen_nonneg b). pose proof (zlen_nonneg c).
  rewrite slice_ret by (rewrite ?zlen_app; lia). f_equal. unfold ztake, zdrop, zlen. rewrite Nat2Z.id, drop_app_length, take_app_length'; [done|lia].
Qed.

Lemma index_app_mid {A} (a c : list A) x : index (a ++ x :: c) (zlen a) = Ret x.
Proof.
  unfold index. pose proof (zlen_nonneg a). rewrite (proj2 (Z.ltb_ge _ _)) by lia. unfold zlen. rewrite Nat2Z.id, lookup_app_r, Nat.sub_diag by lia. done.
Qed.

Lemma splice_app {A} (l1 l2 s : list A) i :
  i = zlen l1 → splice (l1 ++ l2) i s = l1 ++ s ++ zdrop (zlen s) l2.
Proof.
  intros ->. unfold splice, ztake, zdrop. pose proof (zlen_nonneg s).
  replace (Z.to_nat (zlen l1)) with (length l1) by (unfold zlen; lia).
  replace (Z.to_nat (zlen l1 + zlen s)) with (length l1 + Z.to_nat (zlen s))%nat by (unfold zlen; lia).
  rewrite take_app_length. do 2 f_equal. rewrite drop_app_add. reflexivity.
Qed.

Lemma store_mid {A} (pre : list A) x rest v : store (pre ++ x :: rest) (zlen pre) v = Ret (pre ++ v :: rest).
Proof.
  pose proof (zlen_nonneg pre). pose proof (zlen_nonneg rest). rewrite store_ret by (rewrite zlen_app, zlen_cons; lia).
  by rewrite splice_app by reflexivity.
Qed.
Lemma store_slice_mid (pre rest src : list Z) : zlen src ≤ zlen rest → store_slice (pre ++ rest) (zlen pre) src = Ret (pre ++ src ++ zdrop (zlen src) rest).
Proof. intros Hl. pose proof (zlen_nonneg pre). rewrite store_slice_ret by (rewrite ?zlen_app; lia). by rewrite splice_app by reflexivity. Qed.

(** Runs the checked operations at the head of a computation whose side
    conditions are linear arithmetic. *)
Ltac run_op m tac :=
  lazymatch m with
  | Ret _ => idtac
  | chk ?w ?a => rewrite (chk_ret w a) by tac
  | add_chk ?w ?a ?b => rewrite (add_chk_ret w a b) by tac
  | sub_chk ?w ?a ?b => rewrite (sub_chk_ret w a b) by tac
  | mul_chk ?w ?a ?b => rewrite (mul_chk_ret w a b) by tac
  | rem_chk ?a ?b => rewrite (rem_chk_ret a b) by tac
  | index ?l ?i => rewrite (index_ret l i) by tac
  | slice ?l ?i ?j => rewrite (slice_ret l i j) by tac
  | store_slice ?l ?i ?s => rewrite (store_slice_ret l i s) by tac
  end.
Ltac run_head tac :=
  lazymatch goal with
  | |- returns (mbind ?g (mbind ?f ?m)) _ => rewrite (bind_assoc m f g); cbv beta
  | |- mbind ?g (mbind ?f ?m) = _ => rewrite (bind_assoc m f g); cbv beta
  | |- returns (mbind _ ?m) _ => run_op m tac; rewrite ret_bind; cbv beta zeta
  | |- mbind _ ?m = _ => run_op m tac; rewrite ret_bind; cbv beta zeta
  end.
Tactic Notation "run" := repeat run_head ltac:(lia).
Tactic Notation "run" "by" tactic3(tac) := repeat run_head tac.

(** ** Big-endian integers: [to_be_bytes] and [from_be_bytes] *)

Definition be16 (x : Z) : list Z := [x / U8 mod U8; x mod U8].
Definition be32 (x : Z) : list Z :=
  [x / 16777216 mod U8; x / U16 mod U8; x / U8 mod U8; x mod U8].
Definition from_be16 (a b : Z) : Z := a * U8 + b.
Definition from_be32 (a b c d : Z) : Z := a * 16777216 + b * U16 + c * U8 + d.

Lemma from_to_be16 x : u16 x → from_be16 (x / U8 mod U8) (x mod U8) = x.
Proof. unfold from_be16. mlia. Qed.
Lemma from_to_be32 x : u32 x →
  from_be32 (x / 16777216 mod U8) (x / U16 mod U8) (x / U8 mod U8) (x mod U8) = x.
Proof. unfold from_be32. mlia. Qed.
Lemma be_of_from16 a b : u8 a → u8 b → be16 (from_be16 a b) = [a; b].
Proof. unfold be16, from_be16. intros. f_equal; [|f_equal]; mlia. Qed.
Lemma be_of_from32 a b c d : u8 a → u8 b → u8 c → u8 d → be32 (from_be32 a b c d) = [a; b; c; d].
Proof. unfold be32, from_be32. intros. repeat f_equal; mlia. Qed.
Lemma be16_bytes x : bytes (be16 x).
Proof. repeat constructor; unfold u8; mlia. Qed.
Lemma be32_bytes x : bytes (be32 x).
Proof. repeat constructor; unfold u8; mlia. Qed.

(** ** Little-endian integers *)

Definition le16 (x : Z) : list Z := [x mod U8; x / U8 mod U8].
Definition le32 (x : Z) : list Z := [x mod U8; x / U8 mod U8; x / U16 mod U8; x / 16777216 mod U8].
Definition le64 (x : Z) : list Z := le32 (x mod U32) ++ le32 (x / U32).
Definition from_le16 (l : list Z) : Z := byte_at l 0 + byte_at l 1 * U8.
Definition from_le32 (l : list Z) : Z :=
  byte_at l 0 + byte_at l 1 * U8 + byte_at l 2 * U16 + byte_at l 3 * 16777216.
Definition from_le64 (l : list Z) : Z := from_le32 l + from_le32 (zdrop 4 l) * U32.
(** The field of width [w] at offset [i]. *)
Definition field (l : list Z) (i w : Z) : list Z := ztake w (zdrop i l).

Lemma from_le16_le16 x r : u16 x → from_le16 (ztake 2 (x mod U8 :: x / U8 mod U8 :: r)) = x.
Proof. intros. unfold from_le16, byte_at, ztake. simpl. mlia. Qed.
Lemma from_le32_le32 x r : u32 x →
  from_le32 (ztake 4 (x mod U8 :: x / U8 mod U8 :: x / U16 mod U8 :: x / 16777216 mod U8 :: r)) = x.
Proof. intros. unfold from_le32, byte_at, ztake. simpl. mlia. Qed.

Lemma from_le16_lo a b : u8 a → u8 b → from_le16 [a; b] mod U8 = a.
Proof. intros. unfold from_le16, byte_at. simpl. mlia. Qed.
Lemma from_le16_hi a b : u8 a → u8 b → from_le16 [a; b] / U8 mod U8 = b.
Proof. intros. unfold from_le16, byte_at. simpl. mlia. Qed.
Lemma le32_from_le32 a b c d : u8 a → u8 b → u8 c → u8 d → le32 (from_le32 [a; b; c; d]) = [a; b; c; d].
Proof. intros. unfold le32, from_le32, byte_at. simpl. repeat f_equal; mlia. Qed.
