(* ===== verification/Time.v ===== *)
(** * Kernel time

    [kernel/src/subsystem/clock/time.rs]: durations and monotonic instants,
    both counted in nanoseconds on 64 bits.  The reading that
    [Instant::now()] takes is an argument of the operations that take it. *)

From S2P Require Import Prelude.

Abbreviation Duration := Z (only parsing).
Abbreviation Instant := Z (only parsing).

Definition from_nanos (nanos : Z) : Duration := nanos.
Definition from_millis (millis : Z) : res Duration := mul_chk U64 millis 1000000.
Definition from_secs (secs : Z) : res Duration := mul_chk U64 secs 1000000000.
Definition as_nanos (d : Duration) : Z := d.

(** The constants of the source, evaluated. *)
Definition ms (k : Z) : Duration := k * 1000000.
Definition secs (k : Z) : Duration := k * 1000000000.

(** [Instant + Duration], [Instant - Duration] and [Instant - Instant]. *)
Definition instant_add (t : Instant) (d : Duration) : Instant := sat_add U64 t d.
Definition instant_sub (t : Instant) (d : Duration) : Instant := sat_sub t d.
Definition elapsed (t u : Instant) : Duration := sat_sub t u.

(** The readings of a run of calls to [Instant::now()], in textual order. *)
Abbreviation clock := (nat → Z) (only parsing).

(** The kernel's clock never goes backwards. *)
Definition monotonic (c : clock) : Prop := ∀ i j, (i ≤ j)%nat → c i ≤ c j.

Lemma elapsed_bounds t u : 0 ≤ u ≤ t → elapsed t u = t - u.
Proof. unfold elapsed, sat_sub. lia. Qed.

Lemma elapsed_u64 t u : u64 t → 0 ≤ u → u64 (elapsed t u).
Proof. unfold elapsed, sat_sub. ints. lia. Qed.
