(* ===== verification/RbTree.v ===== *)
(** * The red-black tree: operations

    [common/src/rb_tree.rs].  Nodes live in an arena of the crate
    [generational_arena]; the arena is an interface here ([Arena], with the
    documented behaviour in [ArenaLaws]).  Indexing the arena with a handle
    that is not valid panics. *)

From S2P Require Import Prelude.

(** ** The interfaces the tree is generic in *)

(** [Arena<T>] with its indices. *)
Class Arena (I T A : Type) := {
  arena_new : A;
  get : A → I → option T;          (** [get], and the place [arena[i]] *)
  put : I → T → A → A;             (** a write through [get_mut] *)
  arena_insert : T → A → I * A;
  arena_remove : I → A → option T * A;
  retired : A → I → Prop           (** handles that were removed *)
}.

Class ArenaLaws (I T A : Type) `{Arena I T A} : Prop := {
  get_new i : get (arena_new : A) i = None;
  get_put_eq a i x y : get a i = Some x → get (put i y a) i = Some y;
  get_put_ne a i j y : i ≠ j → get (put i y a) j = get a j;
  get_insert_eq a x : get (arena_insert x a).2 (arena_insert x a).1 = Some x;
  get_insert_ne a x j : j ≠ (arena_insert x a).1 → get (arena_insert x a).2 j = get a j;
  insert_fresh a x : get a (arena_insert x a).1 = None;
  remove_get a i : (arena_remove i a).1 = get a i;
  get_remove_eq a i : get (arena_remove i a).2 i = None;
  get_remove_ne a i j : i ≠ j → get (arena_remove i a).2 j = get a j;
  retired_get a i : retired a i → get a i = None;
  retired_remove a i x : get a i = Some x → retired (arena_remove i a).2 i;
  retired_keep_remove a i j : retired a j → retired (arena_remove i a).2 j;
  retired_keep_insert a x j : retired a j → retired (arena_insert x a).2 j;
  retired_keep_put a i x y j : get a i = Some x → retired a j → retired (put i y a) j
}.

(** The trait [Ord]. *)
Class Ord (K : Type) := cmp : K → K → comparison.

Class OrdLaws (K : Type) `{Ord K} : Prop := {
  cmp_eq (a b : K) : cmp a b = Eq ↔ a = b;
  cmp_flip (a b : K) : cmp b a = CompOpp (cmp a b);
  cmp_trans (a b c : K) : cmp a b = Lt → cmp b c = Lt → cmp a c = Lt
}.

Inductive Color := Red | Black.
#[global] Instance Color_eq_dec : EqDecision Color.
Proof. solve_decision. Defined.

Inductive Branch := Left | Right.
#[global] Instance Branch_eq_dec : EqDecision Branch.
Proof. solve_decision. Defined.

Definition opposite (b : Branch) : Branch := match b with Left => Right | Right => Left end.

Record Node (K V I : Type) := mkNode {
  key : K; value : V; color : Color; parent : option I; left : option I; right : option I
}.
Arguments mkNode {K V I}.
Arguments key {K V I}. Arguments value {K V I}. Arguments color {K V I}.
Arguments parent {K V I}. Arguments left {K V I}. Arguments right {K V I}.
#[global] Instance Node_eta {K V I} : Eta (Node K V I) :=
  λ n, mkNode (key n) (value n) (color n) (parent n) (left n) (right n).

Record RedBlackTree (A I : Type) := mkTree { arena : A; root : option I; len : Z }.
Arguments mkTree {A I}.
Arguments arena {A I}. Arguments root {A I}. Arguments len {A I}.
#[global] Instance RedBlackTree_eta {A I} : Eta (RedBlackTree A I) :=
  λ s, mkTree (arena s) (root s) (len s).

Section Tree.
Context {K V I A : Type} `{Ord K} `{EqDecision I} `{Arena I (Node K V I) A}.
#[local] Abbreviation node := (Node K V I).
#[local] Abbreviation rbt := (RedBlackTree A I).
Implicit Types (s : rbt) (i x y z p : I).

Definition new : rbt := mkTree arena_new None 0.

(** [self.arena[i]], read and written. *)
Definition at_ s i : res node :=
  match get (arena s) i with Some n => Ret n | None => Crash Panic end.

Definition modify_at i (f : node → node) s : res rbt :=
  n ← at_ s i; Ret (s <| arena := put i (f n) (arena s) |>).

(** [expect] and [unwrap]. *)
Definition expect {B} (o : option B) : res B :=
  match o with Some b => Ret b | None => Crash Panic end.

(** Rounds that any walk along the tree may take. *)
Definition bound s : positive := Pos.of_succ_nat (Z.to_nat (2 * len s + 8)).

Definition find_node s (k : K) : res (option I) :=
  while_loop (λ current : option I,
    match current with
    | None => Ret (inr None)
    | Some idx =>
        n ← at_ s idx;
        Ret (match cmp k (key n) with
             | Eq => inr (Some idx)
             | Lt => inl (left n)
             | Gt => inl (right n)
             end)
    end) (bound s) (root s).

Definition contains s (k : K) : res bool := r ← find_node s k; Ret (bool_decide (is_Some r)).

(** [get]; [get_mut] hands out the same place. *)
Definition tree_get s (k : K) : res (option V) :=
  r ← find_node s k;
  match r with
  | None => Ret None
  | Some idx => n ← at_ s idx; Ret (Some (value n))
  end.

Definition subtree_min s (o : option I) : res (option I) :=
  while_loop (λ '(result, o),
    match o with
    | None => Ret (inr result)
    | Some idx => n ← at_ s idx; Ret (inl (Some idx, left n))
    end) (bound s) (o, o).

Definition subtree_max s (o : option I) : res (option I) :=
  while_loop (λ '(result, o),
    match o with
    | None => Ret (inr result)
    | Some idx => n ← at_ s idx; Ret (inl (Some idx, right n))
    end) (bound s) (o, o).

Definition key_at s (o : option I) : res (option K) :=
  match o with None => Ret None | Some idx => n ← at_ s idx; Ret (Some (key n)) end.

Definition tree_min s : res (option K) := o ← subtree_min s (root s); key_at s o.
Definition tree_max s : res (option K) := o ← subtree_max s (root s); key_at s o.

(** A mutable reference to the value of [k]: what the caller reads there, and
    the tree once it has stored [f] of it. *)
Definition get_mut (k : K) (f : V → V) s : res (option V * rbt) :=
  r ← find_node s k;
  match r with
  | None => Ret (None, s)
  | Some i => n ← at_ s i; s ← modify_at i (λ n, n <| value := f (value n) |>) s; Ret (Some (value n), s)
  end.

Definition arena_get s i : option node := get (arena s) i.

(** The calls of the closure, in order. *)
Fixpoint walk_in_order (fuel : nat) s (current : option I) : res (list (K * Color)) :=
  match current with
  | None => Ret []
  | Some idx =>
      match fuel with
      | O => Crash OutOfFuel
      | S fuel =>
          n ← at_ s idx;
          l ← walk_in_order fuel s (left n);
          r ← walk_in_order fuel s (right n);
          Ret (l ++ (key n, color n) :: r)
      end
  end.
Definition for_each_in_order s : res (list (K * Color)) :=
  walk_in_order (Pos.to_nat (bound s)) s (root s).

(** ** Links *)

Definition child_of (b : Branch) (n : node) : option I :=
  match b with Left => left n | Right => right n end.
Definition with_child (b : Branch) (o : option I) (n : node) : node :=
  match b with Left => n <| left := o |> | Right => n <| right := o |> end.

Definition link s i (b : Branch) : res (option I) := n ← at_ s i; Ret (child_of b n).
Definition set_child p (b : Branch) (child : option I) s : res rbt :=
  modify_at p (with_child b child) s.
Definition branch_of_child s p child : res Branch :=
  n ← at_ s p; Ret (if decide (left n = Some child) then Left else Right).
Definition color_of s (o : option I) : res Color :=
  match o with None => Ret Black | Some idx => n ← at_ s idx; Ret (color n) end.

Definition set_color i (c : Color) s : res rbt := modify_at i (λ n, n <| color := c |>) s.

(** [if let Some(v) = o { self.arena[v].parent = p }] *)
Definition set_parent_of (o p : option I) s : res rbt :=
  match o with None => Ret s | Some v => modify_at v (λ n, n <| parent := p |>) s end.
(** [if let Some(v) = o { self.arena[v].color = c }] *)
Definition set_color_of (o : option I) (c : Color) s : res rbt :=
  match o with None => Ret s | Some v => set_color v c s end.

(** What [xp], the parent of [x] or none, has in place of [x]. *)
Definition replace_child (xp : option I) x (o : option I) s : res rbt :=
  match xp with
  | None => Ret (s <| root := o |>)
  | Some p => b ← branch_of_child s p x; set_child p b o s
  end.

Definition transplant (u : I) (v : option I) s : res rbt :=
  n ← at_ s u;
  s ← replace_child (parent n) u v s;
  set_parent_of v (parent n) s.

Definition nephew_colors s (sibling : option I) (b : Branch) : res (Color * Color) :=
  match sibling with
  | None => Ret (Black, Black)
  | Some s_idx =>
      near ← link s s_idx b;
      far ← link s s_idx (opposite b);
      cn ← color_of s near; cf ← color_of s far;
      Ret (cn, cf)
  end.

(** ** Rotations *)

Definition left_rotate x s : res rbt :=
  nx ← at_ s x; y ← expect (right nx);
  ny ← at_ s y; s ← modify_at x (λ n, n <| right := left ny |>) s;
  ny ← at_ s y; s ← set_parent_of (left ny) (Some x) s;
  nx ← at_ s x; let xp := parent nx in
  s ← modify_at y (λ n, n <| parent := xp |>) s;
  s ← replace_child xp x (Some y) s;
  s ← modify_at y (λ n, n <| left := Some x |>) s;
  modify_at x (λ n, n <| parent := Some y |>) s.

Definition right_rotate x s : res rbt :=
  nx ← at_ s x; y ← expect (left nx);
  ny ← at_ s y; s ← modify_at x (λ n, n <| left := right ny |>) s;
  ny ← at_ s y; s ← set_parent_of (right ny) (Some x) s;
  nx ← at_ s x; let xp := parent nx in
  s ← modify_at y (λ n, n <| parent := xp |>) s;
  s ← replace_child xp x (Some y) s;
  s ← modify_at y (λ n, n <| right := Some x |>) s;
  modify_at x (λ n, n <| parent := Some y |>) s.

Definition rotate_in x (b : Branch) s : res rbt :=
  match b with Left => left_rotate x s | Right => right_rotate x s end.
Definition rotate_out x (b : Branch) s : res rbt :=
  match b with Left => right_rotate x s | Right => left_rotate x s end.

(** ** Insertion *)

(** Case 3: the red-red line. *)
Definition insert_fixup_line z (b : Branch) s : res (I * rbt) :=
  nz ← at_ s z; parent_ ← expect (parent nz);
  np ← at_ s parent_; grandparent ← expect (parent np);
  s ← set_color parent_ Black s;
  s ← set_color grandparent Red s;
  s ← rotate_out grandparent b s;
  Ret (z, s).

Definition insert_fixup_iteration (z parent_ grandparent : I) (b : Branch) s : res (I * rbt) :=
  uncle ← link s grandparent (opposite b);
  cu ← color_of s uncle;
  if decide (cu = Red) then
    s ← set_color parent_ Black s;
    s ← set_color_of uncle Black s;
    s ← set_color grandparent Red s;
    Ret (grandparent, s)
  else
    far ← link s parent_ (opposite b);
    '(z, s) ← (if decide (far = Some z) then s ← rotate_in parent_ b s; Ret (parent_, s)
               else Ret (z, s));
    insert_fixup_line z b s.

Definition insert_fixup z s : res rbt :=
  s ← while_loop (λ '(z, s),
    nz ← at_ s z;
    match parent nz with
    | None => Ret (inr s)
    | Some parent_ =>
        np ← at_ s parent_;
        if decide (color np = Red) then
          grandparent ← expect (parent np);
          ng ← at_ s grandparent;
          let b := if decide (left ng = Some parent_) then Left else Right in
          '(z, s) ← insert_fixup_iteration z parent_ grandparent b s;
          Ret (inl (z, s))
        else Ret (inr s)
    end) (bound s) (z, s);
  set_color_of (root s) Black s.

(** The descent: the node with the key, or the parent of the new node. *)
Definition insert_position s (k : K) : res (I + option I) :=
  while_loop (λ '(parent_, current),
    match current with
    | None => Ret (inr (inr parent_))
    | Some cur_idx =>
        n ← at_ s cur_idx;
        Ret (match cmp k (key n) with
             | Eq => inr (inl cur_idx)
             | Lt => inl (Some cur_idx, left n)
             | Gt => inl (Some cur_idx, right n)
             end)
    end) (bound s) (None, root s).

Definition insert_new (k : K) (v : V) (parent_ : option I) s : res (I * rbt) :=
  let '(new_idx, a) := arena_insert (mkNode k v Red None None None) (arena s) in
  l ← add_chk U64 (len s) 1;
  let s := s <| arena := a |> <| len := l |> in
  s ← modify_at new_idx (λ n, n <| parent := parent_ |>) s;
  s ← match parent_ with
      | None => Ret (s <| root := Some new_idx |>)
      | Some p =>
          nn ← at_ s new_idx; np ← at_ s p;
          let b := if decide (cmp (key nn) (key np) = Lt) then Left else Right in
          set_child p b (Some new_idx) s
      end;
  s ← insert_fixup new_idx s;
  Ret (new_idx, s).

Definition insert (k : K) (v : V) s : res (I * rbt) :=
  r ← insert_position s k;
  match r with
  | inl cur_idx => s ← modify_at cur_idx (λ n, n <| value := v |>) s; Ret (cur_idx, s)
  | inr parent_ => insert_new k v parent_ s
  end.

(** ** Removal *)

(** Case 4. *)
Definition delete_fixup_last (parent_ : I) (b : Branch) (sibling : option I) s : res (option I * rbt) :=
  let sibling_side := opposite b in
  np ← at_ s parent_;
  s ← set_color_of sibling (color np) s;
  s ← set_color parent_ Black s;
  s ← match sibling with
      | None => Ret s
      | Some w => far ← link s w (opposite sibling_side); set_color_of far Black s
      end;
  s ← rotate_in parent_ b s;
  Ret (root s, s).

(** Cases 2 to 4. *)
Definition delete_fixup_nephews (parent_ : I) (b : Branch) (sibling : option I) s : res (option I * rbt) :=
  let sibling_side := opposite b in
  '(near_color, far_color) ← nephew_colors s sibling sibling_side;
  if decide (near_color = Black ∧ far_color = Black) then
    s ← set_color_of sibling Red s; Ret (Some parent_, s)
  else
  '(sibling, s) ← (if decide (far_color = Black) then
      s ← match sibling with
          | None => Ret s
          | Some w =>
              near ← link s w sibling_side;
              s ← set_color_of near Black s;
              s ← set_color w Red s;
              rotate_out w sibling_side s
          end;
      sibling ← link s parent_ (opposite b);
      Ret (sibling, s)
    else Ret (sibling, s));
  delete_fixup_last parent_ b sibling s.

Definition delete_fixup_iteration (parent_ : I) (b : Branch) s : res (option I * rbt) :=
  sibling ← link s parent_ (opposite b);
  cs ← color_of s sibling;
  '(sibling, s) ← (if decide (cs = Red) then
      s ← set_color_of sibling Black s;
      s ← set_color parent_ Red s;
      s ← rotate_in parent_ b s;
      sibling ← link s parent_ (opposite b);
      Ret (sibling, s)
    else Ret (sibling, s));
  delete_fixup_nephews parent_ b sibling s.

Definition delete_fixup (extra_black : option I) s : res rbt :=
  '(extra_black, s) ← while_loop (λ '(extra_black, s),
    if decide (extra_black = root s) then Ret (inr (extra_black, s)) else
    ce ← color_of s extra_black;
    if decide (ce = Black) then
      match extra_black with
      | None => Ret (inr (extra_black, s))
      | Some x =>
          nx ← at_ s x;
          match parent nx with
          | None => Ret (inr (extra_black, s))
          | Some parent_ =>
              np ← at_ s parent_;
              let b := if decide (left np = extra_black) then Left else Right in
              r ← delete_fixup_iteration parent_ b s;
              Ret (inl r)
          end
      end
    else Ret (inr (extra_black, s))) (bound s) (extra_black, s);
  set_color_of extra_black Black s.

(** The second half of [detach_two_children]: the successor in place of [z]. *)
Definition adopt_successor z (successor : I) s : res rbt :=
  s ← transplant z (Some successor) s;
  nz ← at_ s z;
  s ← modify_at successor (λ n, n <| left := left nz |>) s;
  ns ← at_ s successor;
  s ← set_parent_of (left ns) (Some successor) s;
  nz ← at_ s z;
  set_color successor (color nz) s.

Definition detach_two_children z s : res (option I * Color * rbt) :=
  nz ← at_ s z; z_right ← expect (right nz);
  o ← subtree_min s (Some z_right); successor ← expect o;
  ns ← at_ s successor;
  let successor_color := color ns in
  let successor_right := right ns in
  s ← (if decide (parent ns = Some z) then set_parent_of successor_right (Some successor) s
       else
         s ← transplant successor successor_right s;
         s ← modify_at successor (λ n, n <| right := Some z_right |>) s;
         modify_at z_right (λ n, n <| parent := Some successor |>) s);
  s ← adopt_successor z successor s;
  Ret (successor_right, successor_color, s).

Definition detach_node z s : res rbt :=
  l ← sub_chk U64 (len s) 1;
  let s := s <| len := l |> in
  nz ← at_ s z;
  '(fixup_node, c, s) ←
    match left nz, right nz with
    | None, z_right => s ← transplant z z_right s; Ret (z_right, color nz, s)
    | z_left, None => s ← transplant z z_left s; Ret (z_left, color nz, s)
    | Some _, Some _ => detach_two_children z s
    end;
  if decide (c = Black) then delete_fixup fixup_node s else Ret s.

Definition remove (k : K) s : res (option V * rbt) :=
  r ← find_node s k;
  match r with
  | None => Ret (None, s)
  | Some idx =>
      s ← detach_node idx s;
      let '(o, a) := arena_remove idx (arena s) in
      n ← expect o;
      Ret (Some (value n), s <| arena := a |>)
  end.
End Tree.

(** ** A concrete arena

    Handles count up and are never used again. *)

Definition slab (T : Type) : Type := gmap positive T * positive.

#[global] Instance slab_arena {T} : Arena positive T (slab T) := {
  arena_new := (∅, 1%positive);
  get a i := if decide (i < a.2)%positive then a.1 !! i else None;
  put i x a := (<[i := x]> a.1, a.2);
  arena_insert x a := (a.2, (<[a.2 := x]> a.1, Pos.succ a.2));
  arena_remove i a := (if decide (i < a.2)%positive then a.1 !! i else None, (delete i a.1, a.2));
  retired a i := a.1 !! i = None ∧ (i < a.2)%positive
}.

#[global] Instance slab_laws {T} : ArenaLaws positive T (slab T).
Proof.
  split; simpl; intros; repeat case_decide; try lia; try done; try tauto;
    rewrite ?lookup_insert_ne, ?lookup_delete_ne, ?lookup_insert_eq, ?lookup_delete_eq by congruence;
    try done; try tauto; try (split; [|lia]);
    repeat match goal with H : _ ∧ _ |- _ => destruct H end; try done; try lia.
  - destruct (decide (i = j)) as [<-|]; [by rewrite lookup_delete_eq|]. by rewrite lookup_delete_ne.
  - destruct (decide (a.2 = j)) as [<-|]; [lia|]. by rewrite lookup_insert_ne.
  - destruct (decide (i = j)) as [<-|]; [congruence|]. by rewrite lookup_insert_ne.
Qed.
