(* ===== verification/RbShape.v ===== *)
(** * The red-black tree: what the arena represents

    Trees and contexts (the path from a node to the root), the arena entries
    that represent them, and the effect of the small steps of
    [common/src/rb_tree.rs] on them: links, colours, rotations, transplants.
    A list of entries is read as a heap: up to permutation, and with distinct
    handles. *)

From stdpp Require Import sorting.
From S2P Require Import Prelude RbTree.

Inductive tree (K V I : Type) :=
| E
| T (c : Color) (l : tree K V I) (i : I) (k : K) (v : V) (r : tree K V I).
Arguments E {K V I}.
Arguments T {K V I} c l i k v r.

(** One step of a path to the root: the side the path comes from, the node
    and its other subtree. *)
Record frame (K V I : Type) := Fr {
  f_side : Branch; f_color : Color; f_idx : I; f_key : K; f_value : V; f_other : tree K V I
}.
Arguments Fr {K V I}.
Arguments f_side {K V I}. Arguments f_color {K V I}. Arguments f_idx {K V I}.
Arguments f_key {K V I}. Arguments f_value {K V I}. Arguments f_other {K V I}.

(** ** Ordered lists

    What the tree is as a map: its entries in ascending order of the keys. *)

Section Ordered.
Context {K W : Type} `{OrdLaws K}.
Implicit Types (k : K) (w : W) (l : list (K * W)).

Definition sorted l : Prop := StronglySorted (λ a b, cmp a.1 b.1 = Lt) l.
Definition below k l : Prop := Forall (λ e, cmp e.1 k = Lt) l.
Definition above k l : Prop := Forall (λ e, cmp k e.1 = Lt) l.

Fixpoint lookup_key k l : option W :=
  match l with
  | [] => None
  | (k', w) :: l => match cmp k k' with Eq => Some w | _ => lookup_key k l end
  end.

(** The entry of [k] set to [w]. *)
Fixpoint ins k w l : list (K * W) :=
  match l with
  | [] => [(k, w)]
  | (k', w') :: l =>
      match cmp k k' with
      | Lt => (k, w) :: (k', w') :: l
      | Eq => (k', w) :: l
      | Gt => (k', w') :: ins k w l
      end
  end.

Fixpoint del k l : list (K * W) :=
  match l with
  | [] => []
  | (k', w') :: l => match cmp k k' with Eq => l | _ => (k', w') :: del k l end
  end.

Lemma cmp_refl k : cmp k k = Eq.
Proof. by apply cmp_eq. Qed.
Lemma cmp_gt k k' : cmp k' k = Lt → cmp k k' = Gt.
Proof. intros Hc. rewrite cmp_flip, Hc. reflexivity. Qed.

Lemma lookup_above k l : above k l → lookup_key k l = None.
Proof. induction 1 as [|[k' w] l Hk _ IH]; simpl in *; [done|]. by rewrite Hk. Qed.
Lemma lookup_below k l1 l2 : below k l1 → lookup_key k (l1 ++ l2) = lookup_key k l2.
Proof. induction 1 as [|[k' w] l Hk _ IH]; simpl in *; [done|]. by rewrite (cmp_gt _ _ Hk). Qed.
Lemma ins_above k w l : above k l → ins k w l = (k, w) :: l.
Proof. destruct 1 as [|[k' w'] l Hk _]; simpl in *; [done|]. by rewrite Hk. Qed.
Lemma ins_below k w l1 l2 : below k l1 → ins k w (l1 ++ l2) = l1 ++ ins k w l2.
Proof. induction 1 as [|[k' w'] l Hk _ IH]; simpl in *; [done|]. by rewrite (cmp_gt _ _ Hk), IH. Qed.
Lemma del_above k l : above k l → del k l = l.
Proof. induction 1 as [|[k' w'] l Hk _ IH]; simpl in *; [done|]. by rewrite Hk, IH. Qed.
Lemma del_below k l1 l2 : below k l1 → del k (l1 ++ l2) = l1 ++ del k l2.
Proof. induction 1 as [|[k' w'] l Hk _ IH]; simpl in *; [done|]. by rewrite (cmp_gt _ _ Hk), IH. Qed.

Lemma sorted_app l1 l2 :
  sorted (l1 ++ l2) ↔ sorted l1 ∧ sorted l2 ∧ ∀ a b, a ∈ l1 → b ∈ l2 → cmp a.1 b.1 = Lt.
Proof.
  unfold sorted. induction l1 as [|e l1 IH]; simpl.
  - split; [|tauto]. intros. split; [constructor|]. split; [done|]. intros a b Ha. by apply not_elem_of_nil in Ha.
  - split.
    + intros Hs. apply StronglySorted_inv in Hs as [Hs Hf]. apply Forall_app in Hf as [Hf1 Hf2].
      apply IH in Hs as (Hs1 & Hs2 & Hs3). split; [by constructor|]. split; [done|].
      intros a b [->|Ha]%elem_of_cons Hb; [by rewrite Forall_forall in Hf2; apply Hf2|by apply Hs3].
    + intros (Hs1 & Hs2 & Hs3). apply StronglySorted_inv in Hs1 as [Hs1 Hf]. constructor.
      * apply IH. split; [done|]. split; [done|]. intros; apply Hs3; [by right|done].
      * apply Forall_app. split; [done|]. apply Forall_forall. intros; apply Hs3; [by left|done].
Qed.

(** An element splits a sorted list. *)
Lemma sorted_mid k w l1 l2 : sorted (l1 ++ (k, w) :: l2) → below k l1 ∧ above k l2.
Proof.
  intros (_ & Hs & Hl)%sorted_app. apply StronglySorted_inv in Hs as [_ Ha]. split; [|exact Ha].
  apply Forall_forall. intros e He. apply (Hl e (k, w) He). left.
Qed.

Lemma below_trans k k' l : cmp k k' = Lt → below k l → below k' l.
Proof. intros Hk Hl. eapply Forall_impl; [exact Hl|]. intros e He. exact (cmp_trans _ _ _ He Hk). Qed.
Lemma above_trans k k' l : cmp k k' = Lt → above k' l → above k l.
Proof. intros Hk Hl. eapply Forall_impl; [exact Hl|]. intros e He. exact (cmp_trans _ _ _ Hk He). Qed.

Lemma sorted_ins k w l : sorted l → sorted (ins k w l).
Proof.
  induction 1 as [|[k' w'] l Hs IH Hf]; simpl; [repeat constructor|].
  destruct (cmp k k') eqn:E.
  - apply cmp_eq in E as ->. by constructor.
  - constructor; [by constructor|]. constructor; [done|]. by apply (above_trans k k').
  - assert (E' : cmp k' k = Lt) by (rewrite cmp_flip, E; reflexivity).
    constructor; [done|]. clear -Hf E'. induction l as [|[k2 w2] l IHl]; simpl; [by repeat constructor|].
    inversion Hf; subst. destruct (cmp k k2); repeat (constructor; auto).
Qed.

Lemma sorted_del k l : sorted l → sorted (del k l).
Proof.
  assert (Hd : ∀ P l, Forall P l → Forall P (del k l)).
  { intros P l'. induction 1 as [|[k' w'] l' ?]; simpl; [constructor|]. destruct (cmp k k'); auto. }
  induction 1 as [|[k' w'] l Hs IH Hf]; simpl; [constructor|].
  destruct (cmp k k'); [done|constructor; [done|by apply Hd]..].
Qed.
End Ordered.

Section Shape.
Context {K V I A : Type} `{Ord K} `{EqDecision I} `{ArenaLaws I (Node K V I) A}.
#[local] Abbreviation node := (Node K V I).
#[local] Abbreviation rbt := (RedBlackTree A I).
#[local] Abbreviation tree := (tree K V I).
#[local] Abbreviation ctx := (list (frame K V I)).
Implicit Types (s : rbt) (i x y z : I) (t : tree) (C : ctx) (b : Branch) (k : K) (v : V).

(** ** Trees *)

Definition top t : option I := match t with E => None | T _ _ i _ _ _ => Some i end.
Definition col t : Color := match t with E => Black | T c _ _ _ _ _ => c end.

Fixpoint size t : nat := match t with E => 0 | T _ l _ _ _ r => S (size l + size r) end.

(** Keys, handles and values in ascending position. *)
Fixpoint inorder t : list (K * (I * V)) :=
  match t with E => [] | T _ l i k v r => inorder l ++ (k, (i, v)) :: inorder r end.

(** A node with its subtree on side [b] first. *)
Definition mk b c near i k v far : tree :=
  match b with Left => T c near i k v far | Right => T c far i k v near end.

Definition zip (f : frame K V I) t : tree :=
  mk (f_side f) (f_color f) t (f_idx f) (f_key f) (f_value f) (f_other f).

Fixpoint plug C t : tree := match C with [] => t | f :: C => plug C (zip f t) end.

Definition cidx C : option I := match C with [] => None | f :: _ => Some (f_idx f) end.

(** The root of the whole tree when [o] is the root of the subtree. *)
Fixpoint croot C (o : option I) : option I :=
  match C with [] => o | f :: C => croot C (Some (f_idx f)) end.

Lemma plug_app C1 C2 t : plug (C1 ++ C2) t = plug C2 (plug C1 t).
Proof. revert t. induction C1 as [|f C1 IH]; intros t; simpl; [done|apply IH]. Qed.

Lemma mk_opposite b c near i k v far : mk (opposite b) c near i k v far = mk b c far i k v near.
Proof. by destruct b. Qed.

Lemma top_mk b c near i k v far : top (mk b c near i k v far) = Some i.
Proof. by destruct b. Qed.

Lemma col_mk b c near i k v far : col (mk b c near i k v far) = c.
Proof. by destruct b. Qed.

Lemma top_plug C t : top (plug C t) = croot C (top t).
Proof. revert t. induction C as [|f C IH]; intros t; [done|]. simpl. rewrite IH. unfold zip. by rewrite top_mk. Qed.

(** The entries to the left and to the right of the subtree. *)
Definition entry (f : frame K V I) : K * (I * V) := (f_key f, (f_idx f, f_value f)).
Fixpoint cleft C : list (K * (I * V)) :=
  match C with
  | [] => []
  | f :: C => cleft C ++ match f_side f with Left => [] | Right => inorder (f_other f) ++ [entry f] end
  end.
Fixpoint cright C : list (K * (I * V)) :=
  match C with
  | [] => []
  | f :: C => match f_side f with Left => entry f :: inorder (f_other f) | Right => [] end ++ cright C
  end.

Lemma inorder_plug C t : inorder (plug C t) = cleft C ++ inorder t ++ cright C.
Proof.
  revert t. induction C as [|f C IH]; intros t; simpl; [by rewrite app_nil_r|].
  rewrite IH. unfold zip, mk, entry. destruct (f_side f); simpl; rewrite <- !app_assoc; reflexivity.
Qed.

Lemma length_plug C t : (length C + size t ≤ size (plug C t))%nat.
Proof.
  revert t. induction C as [|f C IH]; intros t; simpl; [done|]. etrans; [|apply IH].
  unfold zip, mk. destruct (f_side f); simpl; lia.
Qed.

Lemma size_plug C t : (size t ≤ size (plug C t))%nat.
Proof.
  revert t. induction C as [|f C IH]; intros t; simpl; [done|]. etrans; [|apply IH].
  unfold zip, mk. destruct (f_side f); simpl; lia.
Qed.

(** The colour of the root of the whole tree. *)
Fixpoint ccol C (c : Color) : Color := match C with [] => c | f :: C => ccol C (f_color f) end.
Lemma col_plug C t : col (plug C t) = ccol C (col t).
Proof. revert t. induction C as [|f C IH]; intros t; simpl; [done|]. rewrite IH. unfold zip. by rewrite col_mk. Qed.

Lemma inorder_plug_eq C t t' : inorder t = inorder t' → inorder (plug C t) = inorder (plug C t').
Proof. intros Ht. by rewrite !inorder_plug, Ht. Qed.

Lemma size_inorder t : size t = length (inorder t).
Proof. induction t as [|c l IHl i k v r IHr]; simpl; [done|]. rewrite length_app. simpl. lia. Qed.

(** ** Balance

    [rb t h]: no red node has a red child, and every path from the root of
    [t] to a leaf has [h] black nodes; [crb C c h]: the tree around a subtree
    with root colour [c] and black height [h] is in that order. *)

Definition blk (c : Color) : nat := match c with Black => 1 | Red => 0 end.

Fixpoint rb t (h : nat) : Prop :=
  match t with
  | E => h = 0%nat
  | T c l _ _ _ r => ∃ m, h = (m + blk c)%nat ∧ rb l m ∧ rb r m ∧ (c = Red → col l = Black ∧ col r = Black)
  end.

Fixpoint crb C (c : Color) (h : nat) : Prop :=
  match C with
  | [] => True
  | f :: C => rb (f_other f) h ∧ (f_color f = Red → col (f_other f) = Black ∧ c = Black) ∧
              crb C (f_color f) (h + blk (f_color f))
  end.

Lemma rb_mk b c near i k v far h :
  rb (mk b c near i k v far) h ↔
  ∃ m, h = (m + blk c)%nat ∧ rb near m ∧ rb far m ∧ (c = Red → col near = Black ∧ col far = Black).
Proof. destruct b; simpl; split; intros (m & ? & ? & ? & ?); exists m; tauto. Qed.

Lemma rb_plug C t : (∃ N, rb (plug C t) N) ↔ ∃ h, rb t h ∧ crb C (col t) h.
Proof.
  revert t. induction C as [|f C IH]; intros t; simpl.
  - split; intros (h & Hh); exists h; tauto.
  - rewrite IH. unfold zip. setoid_rewrite rb_mk. rewrite col_mk. split.
    + intros (h & (m & -> & Hn & Hf & Hc) & Hcr). exists m. split; [done|]. split; [done|]. split; [tauto|done].
    + intros (m & Ht & Hf & Hc & Hcr). exists (m + blk (f_color f))%nat. split; [|done]. exists m. tauto.
Qed.

(** ** Entries of the arena *)

Fixpoint nodes (p : option I) t : list (I * node) :=
  match t with
  | E => []
  | T c l i k v r => (i, mkNode k v c p (top l) (top r)) :: nodes (Some i) l ++ nodes (Some i) r
  end.

(** The node with its link on side [b] first. *)
Definition bnode b k v c (p near far : option I) : node :=
  match b with Left => mkNode k v c p near far | Right => mkNode k v c p far near end.

Fixpoint ctx_nodes C (o : option I) : list (I * node) :=
  match C with
  | [] => []
  | f :: C =>
      (f_idx f, bnode (f_side f) (f_key f) (f_value f) (f_color f) (cidx C) o (top (f_other f)))
      :: nodes (Some (f_idx f)) (f_other f) ++ ctx_nodes C (Some (f_idx f))
  end.

Lemma nodes_mk p b c near i k v far :
  nodes p (mk b c near i k v far)
  ≡ₚ (i, bnode b k v c p (top near) (top far)) :: nodes (Some i) near ++ nodes (Some i) far.
Proof. destruct b; simpl; [done|]. by rewrite (comm app). Qed.

Lemma nodes_plug C t : nodes None (plug C t) ≡ₚ ctx_nodes C (top t) ++ nodes (cidx C) t.
Proof.
  revert t. induction C as [|f C IH]; intros t; [done|]. simpl. rewrite IH. unfold zip.
  rewrite top_mk, nodes_mk. solve_perm.
Qed.

(** ** Heaps

    [D] are handles known to be retired, [n] the count of the tree. *)

Definition holds (a : A) (L : list (I * node)) : Prop :=
  NoDup L.*1 ∧ ∀ i m, get a i = Some m ↔ (i, m) ∈ L.

Record st (D : I → Prop) (n : Z) (s : rbt) (r : option I) (L : list (I * node)) : Prop := {
  st_holds : holds (arena s) L;
  st_root : root s = r;
  st_len : len s = n;
  st_retired : ∀ j, D j → retired (arena s) j
}.

#[global] Instance holds_perm a : Proper ((≡ₚ) ==> iff) (holds a).
Proof.
  intros L L' HL. unfold holds. rewrite HL. split; intros [? Hx]; (split; [done|]); intros i m; rewrite Hx; by rewrite HL.
Qed.
#[global] Instance st_perm D n s r : Proper ((≡ₚ) ==> iff) (st D n s r).
Proof. intros L L' HL. split; intros []; split; try done; [by rewrite <- HL|by rewrite HL]. Qed.

(** ** Small steps *)

Lemma st_at D n s r L i m : st D n s r L → (i, m) ∈ L → at_ s i = Ret m.
Proof. intros [[_ Hg] _ _ _] Hi. unfold at_. apply Hg in Hi. by rewrite Hi. Qed.

Lemma st_distinct D n s r L1 L2 i m j m' :
  st D n s r (L1 ++ (i, m) :: L2) → (j, m') ∈ L1 ++ L2 → j ≠ i.
Proof.
  intros [[Hd _] _ _ _] Hj ->. assert (i ∈ (L1 ++ L2).*1) as Hi by (apply list_elem_of_fmap; by exists (i, m')).
  rewrite <- Permutation_middle in Hd. simpl in Hd. by apply NoDup_cons in Hd as [? _].
Qed.

Lemma st_modify D n s r L1 L2 i m (f : node → node) :
  st D n s r (L1 ++ (i, m) :: L2) →
  returns (modify_at i f s) (λ s', st D n s' r (L1 ++ (i, f m) :: L2)).
Proof.
  intros Hst. unfold modify_at.
  rewrite (st_at _ _ _ _ _ i m Hst) by (apply elem_of_app; right; constructor).
  apply returns_ret. pose proof (λ j m', st_distinct _ _ _ _ _ _ _ _ j m' Hst) as Hne.
  destruct Hst as [[Hd Hg] Hr Hl HD].
  assert (Hi : get (arena s) i = Some m) by (apply Hg, elem_of_app; right; constructor).
  split; [|by rsimp|by rsimp|intros j Hj; rsimp; eapply retired_keep_put; eauto].
  split; [rewrite fmap_app in *; exact Hd|]. intros j m'. rsimp.
  destruct (decide (i = j)) as [<-|Hij].
  - rewrite (get_put_eq _ _ _ (f m) Hi). rewrite <- Permutation_middle. split.
    + intros [= ->]. constructor.
    + intros [E|Hin]%elem_of_cons; [congruence|]. by apply Hne in Hin.
  - rewrite get_put_ne by done. rewrite Hg, <- !Permutation_middle, !elem_of_cons. split; intros [?|?]; [congruence|auto..|congruence|auto].
Qed.

(** A new entry, and one that goes. *)
Lemma holds_insert a L m :
  holds a L → holds (arena_insert m a).2 (((arena_insert m a).1, m) :: L).
Proof.
  intros [Hd Hg]. pose proof (insert_fresh a m) as Hf. split.
  - simpl. constructor; [|done]. intros ([j m'] & Ej & Hj)%list_elem_of_fmap. simpl in Ej. subst j.
    apply Hg in Hj. congruence.
  - intros j m'. destruct (decide (j = (arena_insert m a).1)) as [->|Hj].
    + rewrite get_insert_eq, elem_of_cons. split; [intros [= ->]; by left|].
      intros [E|Hin]; [congruence|]. apply Hg in Hin. congruence.
    + rewrite get_insert_ne, Hg, elem_of_cons by done. split; [by right|]. intros [E|]; [congruence|done].
Qed.

Lemma holds_remove a L i m : holds a ((i, m) :: L) →
  (arena_remove i a).1 = Some m ∧ holds (arena_remove i a).2 L.
Proof.
  intros [Hd Hg]. simpl in Hd. apply NoDup_cons in Hd as [Hi Hd].
  assert (Hm : get a i = Some m) by (apply Hg; left). split; [by rewrite remove_get|]. split; [done|].
  intros j m'. destruct (decide (i = j)) as [<-|Hj].
  - rewrite get_remove_eq. split; [done|]. intros Hin. destruct Hi. apply list_elem_of_fmap. by exists (i, m').
  - rewrite get_remove_ne, Hg, elem_of_cons by done. split; [|by right]. intros [E|]; [congruence|done].
Qed.

Lemma st_set_parent D n s r L1 L2 p p' t :
  st D n s r (L1 ++ nodes p t ++ L2) →
  returns (set_parent_of (top t) p' s) (λ s', st D n s' r (L1 ++ nodes p' t ++ L2)).
Proof.
  intros Hst. destruct t as [|c l i k v rt]; simpl; [by apply returns_ret|].
  simpl in Hst. eapply returns_mono; [apply st_modify, Hst|]. done.
Qed.

Lemma bnode_left b k v c p x near far : near = Some x → far ≠ Some x →
  (if decide (left (bnode b k v c p near far) = Some x) then Left else Right) = b.
Proof. intros -> ?. destruct b; simpl; case_decide; congruence. Qed.

Lemma child_bnode b k v c p near far : child_of b (bnode b k v c p near far) = near.
Proof. by destruct b. Qed.
Lemma child_bnode_opp b k v c p near far : child_of (opposite b) (bnode b k v c p near far) = far.
Proof. by destruct b. Qed.
Lemma with_bnode b k v c p near far o : with_child b o (bnode b k v c p near far) = bnode b k v c p o far.
Proof. by destruct b. Qed.
Lemma with_bnode_opp b k v c p near far o :
  with_child (opposite b) o (bnode b k v c p near far) = bnode b k v c p near o.
Proof. by destruct b. Qed.
Lemma parent_bnode b k v c p near far : parent (bnode b k v c p near far) = p.
Proof. by destruct b. Qed.
Lemma color_bnode b k v c p near far : color (bnode b k v c p near far) = c.
Proof. by destruct b. Qed.
Lemma key_bnode b k v c p near far : key (bnode b k v c p near far) = k.
Proof. by destruct b. Qed.
Lemma parented_bnode b k v c p near far p' :
  (bnode b k v c p near far) <| parent := p' |> = bnode b k v c p' near far.
Proof. by destruct b. Qed.
Lemma coloured_bnode b k v c p near far c' :
  (bnode b k v c p near far) <| color := c' |> = bnode b k v c' p near far.
Proof. by destruct b. Qed.

(** The root of a subtree is one of its entries. *)
Lemma top_nodes p t i : top t = Some i → ∃ m, (i, m) ∈ nodes p t.
Proof. destruct t; simpl; intros; simplify_eq. eexists. constructor. Qed.

Lemma st_replace_child D n s L1 L2 C x m o :
  st D n s (croot C (Some x)) (((x, m) :: L1) ++ ctx_nodes C (Some x) ++ L2) →
  returns (replace_child (cidx C) x o s)
    (λ s', st D n s' (croot C o) (((x, m) :: L1) ++ ctx_nodes C o ++ L2)).
Proof.
  intros Hst. destruct C as [|f C]; simpl.
  - apply returns_ret. destruct Hst. by split; rsimp.
  - assert (Hs : top (f_other f) ≠ Some x).
    { intros Ht. destruct (top_nodes (Some (f_idx f)) _ _ Ht) as (m' & Hm').
      apply (st_distinct _ _ _ _ [] (L1 ++ ctx_nodes (f :: C) (Some x) ++ L2) x m x m' Hst); [|done]. simpl. in_list. }
    unfold branch_of_child. simpl in Hst.
    erewrite st_at; [|exact Hst|in_list].
    rewrite !ret_bind, bnode_left by done. unfold set_child.
    eapply returns_mono; [exact (st_modify _ _ _ _ ((x, m) :: L1) _ _ _ _ Hst)|]. intros s'. by rewrite with_bnode.
Qed.

(** ** Trees in the arena

    [X] are entries the arena holds besides the tree. *)

Definition repr D X n s t : Prop := st D n s (top t) (X ++ nodes None t).

Lemma repr_plug D X n s C t :
  repr D X n s (plug C t) ↔ st D n s (croot C (top t)) (X ++ ctx_nodes C (top t) ++ nodes (cidx C) t).
Proof. unfold repr. by rewrite top_plug, nodes_plug. Qed.

(** The two rotations as one. *)
Definition rotate b x s : res rbt :=
  nx ← at_ s x; y ← expect (child_of (opposite b) nx);
  ny ← at_ s y; s ← modify_at x (with_child (opposite b) (child_of b ny)) s;
  ny ← at_ s y; s ← set_parent_of (child_of b ny) (Some x) s;
  nx ← at_ s x; let xp := parent nx in
  s ← modify_at y (λ n, n <| parent := xp |>) s;
  s ← replace_child xp x (Some y) s;
  s ← modify_at y (with_child b (Some x)) s;
  modify_at x (λ n, n <| parent := Some y |>) s.

Lemma rotate_in_rotate x b s : rotate_in x b s = rotate b x s.
Proof. by destruct b. Qed.
Lemma rotate_out_rotate x b s : rotate_out x b s = rotate (opposite b) x s.
Proof. by destruct b. Qed.

Lemma rotate_heap D n s C b x k v c y k' v' c' (ta tb tc : tree) X :
  st D n s (croot C (Some x))
    ([(x, bnode b k v c (cidx C) (top ta) (Some y)); (y, bnode b k' v' c' (Some x) (top tb) (top tc))]
     ++ ctx_nodes C (Some x) ++ nodes (Some y) tb ++ X) →
  returns (rotate b x s) (λ s', st D n s' (croot C (Some y))
    ([(x, bnode b k v c (Some y) (top ta) (top tb)); (y, bnode b k' v' c' (cidx C) (Some x) (top tc))]
     ++ ctx_nodes C (Some y) ++ nodes (Some x) tb ++ X)).
Proof.
  intros Hst. unfold rotate.
  erewrite (st_at _ _ _ _ _ x); [|exact Hst|in_list]. rewrite ret_bind, child_bnode_opp. simpl expect. rewrite ret_bind.
  erewrite (st_at _ _ _ _ _ y); [|exact Hst|in_list]. rewrite ret_bind, child_bnode.
  eapply returns_bind; [exact (st_modify _ _ _ _ [] _ _ _ _ Hst)|]. clear Hst. intros s1 Hst. rewrite with_bnode_opp in Hst.
  erewrite (st_at _ _ _ _ _ y); [|exact Hst|in_list]. rewrite ret_bind, child_bnode.
  eapply returns_bind; [eapply (st_set_parent _ _ _ _ ([_; _] ++ ctx_nodes C (Some x)) X); rewrite <- app_assoc; exact Hst|].
  clear Hst. intros s2 Hst. rewrite <- app_assoc in Hst.
  erewrite (st_at _ _ _ _ _ x); [|exact Hst|in_list]. rewrite ret_bind, parent_bnode. cbv zeta.
  eapply returns_bind; [exact (st_modify _ _ _ _ [_] _ _ _ _ Hst)|]. clear Hst. intros s3 Hst. rewrite parented_bnode in Hst.
  eapply returns_bind; [exact (st_replace_child _ _ _ [_] _ C x _ (Some y) Hst)|]. clear Hst. intros s4 Hst.
  eapply returns_bind; [exact (st_modify _ _ _ _ [_] _ _ _ _ Hst)|]. clear Hst. intros s5 Hst. rewrite with_bnode in Hst.
  eapply returns_mono; [exact (st_modify _ _ _ _ [] _ _ _ _ Hst)|]. intros s6. by rewrite parented_bnode.
Qed.

Lemma rotate_spec D X n s C b c (ta : tree) x k v c' (tb : tree) y k' v' (tc : tree) :
  repr D X n s (plug C (mk b c ta x k v (mk b c' tb y k' v' tc))) →
  returns (rotate b x s)
    (λ s', repr D X n s' (plug C (mk b c' (mk b c ta x k v tb) y k' v' tc))).
Proof.
  rewrite repr_plug, top_mk, !nodes_mk, !top_mk. intros Hst.
  eapply returns_mono; [apply (rotate_heap D n s C b x k v c y k' v' c' ta tb tc (nodes (Some x) ta ++ nodes (Some y) tc ++ X))|].
  - eapply st_perm; [|exact Hst]. solve_perm.
  - intros s' Hst'. rewrite repr_plug, top_mk, !nodes_mk, !top_mk. eapply st_perm; [|exact Hst']. solve_perm.
Qed.

Lemma set_color_spec D X n s C b c (ta : tree) x k v (tb : tree) c' :
  repr D X n s (plug C (mk b c ta x k v tb)) →
  returns (set_color x c' s) (λ s', repr D X n s' (plug C (mk b c' ta x k v tb))).
Proof.
  rewrite repr_plug, top_mk, !nodes_mk. intros Hst. rewrite app_assoc in Hst.
  eapply returns_mono; [exact (st_modify _ _ _ _ (X ++ ctx_nodes C (Some x)) _ _ _ _ Hst)|].
  intros s' Hst'. rewrite coloured_bnode, <- app_assoc in Hst'. rewrite repr_plug, top_mk, !nodes_mk. exact Hst'.
Qed.

(** Recolouring an optional node. *)
Definition paint (c : Color) t : tree := match t with E => E | T _ l i k v r => T c l i k v r end.

Lemma inorder_paint c t : inorder (paint c t) = inorder t.
Proof. by destruct t. Qed.

Lemma rb_paint t h : rb t h → ∃ h', rb (paint Black t) h'.
Proof.
  destruct t as [|c l i k v r]; simpl; [by exists h|]. intros (m & _ & Hl & Hr & _).
  exists (m + 1)%nat, m. done.
Qed.

Lemma set_color_of_spec D X n s C t c :
  repr D X n s (plug C t) → returns (set_color_of (top t) c s) (λ s', repr D X n s' (plug C (paint c t))).
Proof.
  destruct t as [|c0 l i k v r]; simpl; intros Hr; [by apply returns_ret|].
  exact (set_color_spec D X n s C Left c0 l i k v r c Hr).
Qed.

(** Reading a node of the tree. *)
Lemma repr_at D X n s C b c (ta : tree) x k v (tb : tree) :
  repr D X n s (plug C (mk b c ta x k v tb)) →
  at_ s x = Ret (bnode b k v c (cidx C) (top ta) (top tb)).
Proof.
  rewrite repr_plug, top_mk, !nodes_mk. intros Hst. eapply st_at; [exact Hst|].
  apply elem_of_app; right; in_list.
Qed.

End Shape.

(** Two shapes with the same entries in the same order. *)
Ltac inord := simpl; rewrite ?inorder_paint; repeat (rewrite <- app_assoc || rewrite <- app_comm_cons); reflexivity.
