(* ===== verification/RbInsert.v ===== *)
(** * The red-black tree: lookups and insertion

    Every read of [common/src/rb_tree.rs] finds what the ordered list of
    entries says; insertion adds the entry, and keeps a balanced tree
    balanced. *)

From stdpp Require Import sorting.
From S2P Require Import Prelude RbTree RbShape.

Section Insert.
Context {K V I A : Type} `{OrdLaws K} `{EqDecision I} `{ArenaLaws I (Node K V I) A}.
#[local] Abbreviation node := (Node K V I).
#[local] Abbreviation rbt := (RedBlackTree A I).
#[local] Abbreviation tree := (tree K V I).
#[local] Abbreviation ctx := (list (frame K V I)).
Implicit Types (s : rbt) (i x y z : I) (t : tree) (C : ctx) (b : Branch) (k : K) (v : V).

(** ** Reading *)

Lemma bound_pos s : 0 ≤ len s → Z.pos (bound s) = 2 * len s + 9.
Proof. unfold bound. lia. Qed.

Lemma repr_at_T D X n s C c (l : tree) x k v (r : tree) :
  repr D X n s (plug C (T c l x k v r)) → at_ s x = Ret (mkNode k v c (cidx C) (top l) (top r)).
Proof. exact (repr_at D X n s C Left c l x k v r). Qed.

Lemma color_of_spec D X n s C t : repr D X n s (plug C t) → color_of s (top t) = Ret (col t).
Proof. destruct t as [|c l i k v r]; intros Hr; simpl; [done|]. by rewrite (repr_at_T _ _ _ _ _ _ _ _ _ _ _ Hr). Qed.

(** Where the search for [k] ends. *)
Definition gap t k C : Prop := t = plug C E ∧ below k (cleft C) ∧ above k (cright C).
Definition spot t k C c (l : tree) i v (r : tree) : Prop := t = plug C (T c l i k v r).

(** A subtree the search is in. *)
Definition within t k C t' : Prop := t = plug C t' ∧ below k (cleft C) ∧ above k (cright C).

Lemma within_left t k C c l i k' v r : sorted (inorder t) → within t k C (T c l i k' v r) → cmp k k' = Lt →
  within t k (Fr Left c i k' v r :: C) l.
Proof.
  intros Hs (-> & Hb & Ha) Hc. rewrite inorder_plug in Hs. simpl in Hs.
  split; [done|]. simpl. rewrite app_nil_r. split; [done|]. constructor; [done|].
  apply Forall_app. split; [|done]. rewrite <- app_assoc in Hs. simpl in Hs. rewrite app_assoc in Hs.
  apply sorted_mid in Hs as [_ Hs]. apply (above_trans k k' _ Hc). apply Forall_app in Hs. tauto.
Qed.

Lemma within_right t k C c l i k' v r : sorted (inorder t) → within t k C (T c l i k' v r) → cmp k k' = Gt →
  within t k (Fr Right c i k' v l :: C) r.
Proof.
  intros Hs (-> & Hb & Ha) Hc. rewrite inorder_plug in Hs. simpl in Hs.
  assert (Hc' : cmp k' k = Lt) by (rewrite cmp_flip, Hc; done).
  split; [done|]. simpl. split; [|done]. apply Forall_app. split; [done|]. apply Forall_app. split; [|by repeat constructor].
  rewrite <- app_assoc in Hs. simpl in Hs. rewrite app_assoc in Hs.
  apply sorted_mid in Hs as [Hs _]. apply (below_trans k' k _ Hc'). apply Forall_app in Hs. tauto.
Qed.

Lemma find_node_spec D X n s t k :
  repr D X n s t → sorted (inorder t) → Z.of_nat (size t) ≤ 2 * n + 8 → 0 ≤ n →
  returns (find_node s k) (λ r, match r with
    | Some i => ∃ C c l v r, spot t k C c l i v r
    | None => ∃ C, gap t k C
    end).
Proof.
  intros Hr Hs Hb Hn. unfold find_node.
  apply (while_loop_variant _ (λ m cur, ∃ C t', within t k C t' ∧ cur = top t' ∧ m = Z.of_nat (size t')))
    with (Z.of_nat (size t)).
  - intros m cur (C & t' & Hw & -> & ->) Hm. destruct t' as [|c l i k' v r]; simpl.
    + apply returns_ret. exists C. exact Hw.
    + pose proof Hw as (-> & _). rewrite (repr_at_T _ _ _ _ _ _ _ _ _ _ _ Hr), ret_bind. apply returns_ret. simpl.
      destruct (cmp k k') eqn:Ec; simpl.
      * apply cmp_eq in Ec as <-. by exists C, c, l, v, r.
      * exists (Z.of_nat (size l)). split; [|lia]. do 2 eexists. split; [by eapply within_left|done].
      * exists (Z.of_nat (size r)). split; [|lia]. do 2 eexists. split; [by eapply within_right|done].
  - exists [], t. split; [repeat split; constructor|]. split; [by destruct Hr|done].
  - rewrite bound_pos; destruct Hr as [_ _ -> _]; lia.
Qed.

Lemma insert_position_spec D X n s t k :
  repr D X n s t → sorted (inorder t) → Z.of_nat (size t) ≤ 2 * n + 8 → 0 ≤ n →
  returns (insert_position s k) (λ r, match r with
    | inl i => ∃ C c l v r, spot t k C c l i v r
    | inr p => ∃ C, gap t k C ∧ p = cidx C
    end).
Proof.
  intros Hr Hs Hb Hn. unfold insert_position.
  apply (while_loop_variant _ (λ m '(p, cur), ∃ C t', within t k C t' ∧ p = cidx C ∧ cur = top t' ∧ m = Z.of_nat (size t')))
    with (Z.of_nat (size t)).
  - intros m [p cur] (C & t' & Hw & -> & -> & ->) Hm. destruct t' as [|c l i k' v r]; simpl.
    + apply returns_ret. exists C. split; [exact Hw|done].
    + pose proof Hw as (-> & _). rewrite (repr_at_T _ _ _ _ _ _ _ _ _ _ _ Hr), ret_bind. apply returns_ret. simpl.
      destruct (cmp k k') eqn:Ec; simpl.
      * apply cmp_eq in Ec as <-. by exists C, c, l, v, r.
      * exists (Z.of_nat (size l)). split; [|lia]. do 2 eexists. split; [by eapply within_left|done].
      * exists (Z.of_nat (size r)). split; [|lia]. do 2 eexists. split; [by eapply within_right|done].
  - exists [], t. split; [repeat split; constructor|]. split; [done|]. split; [by destruct Hr|done].
  - rewrite bound_pos; destruct Hr as [_ _ -> _]; lia.
Qed.

(** The two ends of a subtree: [subtree_min] and [subtree_max] as one. *)
Definition subtree_end b s (o : option I) : res (option I) :=
  while_loop (λ '(result, o),
    match o with
    | None => Ret (inr result)
    | Some idx => n ← at_ s idx; Ret (inl (Some idx, child_of b n))
    end) (bound s) (o, o).

Lemma subtree_end_spec b D X n s C t :
  repr D X n s (plug C t) → Z.of_nat (size t) ≤ 2 * n + 8 → 0 ≤ n →
  returns (subtree_end b s (top t)) (λ r, match r with
    | None => t = E
    | Some i => ∃ C' c k v far, t = plug C' (mk b c E i k v far) ∧ Forall (λ f, f_side f = b) C'
    end).
Proof.
  intros Hr Hb Hn. unfold subtree_end.
  apply (while_loop_variant _ (λ m '(res, cur), ∃ C' t', t = plug C' t' ∧ Forall (λ f, f_side f = b) C' ∧ cur = top t' ∧
    res = (match C' with [] => top t' | f :: _ => Some (f_idx f) end) ∧ m = Z.of_nat (size t'))) with (Z.of_nat (size t)).
  - intros m [rs cur] (C' & t' & -> & HC & -> & -> & ->) Hm. destruct t' as [|c l i k v r]; simpl.
    + apply returns_ret. destruct C' as [|f C']; [done|]. inversion HC as [|? ? Hf HC']; subst.
      by exists C', (f_color f), (f_key f), (f_value f), (f_other f).
    + rewrite <- plug_app in Hr. rewrite (repr_at_T _ _ _ _ _ _ _ _ _ _ _ Hr), ret_bind. apply returns_ret. simpl.
      exists (Z.of_nat (size (if b is Left then l else r))). split; [|destruct b; lia].
      exists (Fr b c i k v (if b is Left then r else l) :: C'), (if b is Left then l else r).
      split; [by destruct b|]. split; [by constructor|by destruct b].
  - exists [], t. done.
  - rewrite bound_pos; destruct Hr as [_ _ -> _]; lia.
Qed.

Lemma inorder_min C (c : Color) i k v (r : tree) : Forall (λ f, f_side f = Left) C →
  ∃ l, inorder (plug C (T c E i k v r)) = (k, (i, v)) :: l.
Proof.
  intros HC. rewrite inorder_plug. assert (cleft C = []) as ->.
  { induction HC as [|f C Hf _ IH]; simpl; [done|]. by rewrite IH, Hf. }
  by eexists.
Qed.

Lemma inorder_max C (c : Color) i k v (l : tree) : Forall (λ f, f_side f = Right) C →
  ∃ L, inorder (plug C (T c l i k v E)) = L ++ [(k, (i, v))].
Proof.
  intros HC. rewrite inorder_plug. assert (cright C = []) as ->.
  { induction HC as [|f C Hf _ IH]; simpl; [done|]. by rewrite IH, Hf. }
  rewrite app_nil_r. simpl. exists (cleft C ++ inorder l). by rewrite <- app_assoc.
Qed.

Lemma tree_min_spec D X n s t :
  repr D X n s t → Z.of_nat (size t) ≤ 2 * n + 8 → 0 ≤ n → tree_min s = Ret (head (inorder t).*1).
Proof.
  intros Hr Hb Hn. unfold tree_min. rewrite (st_root _ _ _ _ _ Hr).
  destruct (subtree_end_spec Left D X n s [] t Hr Hb Hn) as (r & Er & Hr').
  change (subtree_min s (top t)) with (subtree_end Left s (top t)). rewrite Er, ret_bind.
  destruct r as [i|]; simpl; [|by subst].
  destruct Hr' as (C & c & k & v & far & -> & HC). simpl in Hr.
  rewrite (repr_at_T _ _ _ _ _ _ _ _ _ _ _ Hr), ret_bind. simpl.
  destruct (inorder_min C c i k v far HC) as (l & ->). done.
Qed.

Lemma tree_max_spec D X n s t :
  repr D X n s t → Z.of_nat (size t) ≤ 2 * n + 8 → 0 ≤ n → tree_max s = Ret (last (inorder t).*1).
Proof.
  intros Hr Hb Hn. unfold tree_max. rewrite (st_root _ _ _ _ _ Hr).
  destruct (subtree_end_spec Right D X n s [] t Hr Hb Hn) as (r & Er & Hr').
  change (subtree_max s (top t)) with (subtree_end Right s (top t)). rewrite Er, ret_bind.
  destruct r as [i|]; simpl; [|by subst].
  destruct Hr' as (C & c & k & v & far & -> & HC). simpl in Hr.
  rewrite (repr_at_T _ _ _ _ _ _ _ _ _ _ _ Hr), ret_bind. simpl.
  destruct (inorder_max C c i k v far HC) as (l & ->). rewrite fmap_app. simpl. by rewrite last_snoc.
Qed.

(** The traversal visits the keys in order. *)
Lemma walk_spec D X n s C t fuel : repr D X n s (plug C t) → (size t ≤ fuel)%nat →
  returns (walk_in_order fuel s (top t)) (λ l, l.*1 = (inorder t).*1).
Proof.
  revert C fuel. induction t as [|c l IHl i k v r IHr]; intros C fuel Hr Hf; simpl in *.
  - destruct fuel; by apply returns_ret.
  - destruct fuel as [|fuel]; [lia|]. simpl. rewrite (repr_at_T _ _ _ _ _ _ _ _ _ _ _ Hr), ret_bind. simpl.
    eapply returns_bind; [apply (IHl (Fr Left c i k v r :: C)); [exact Hr|lia]|]. intros l1 Hl1.
    eapply returns_bind; [apply (IHr (Fr Right c i k v l :: C)); [exact Hr|lia]|]. intros l2 Hl2.
    apply returns_ret. rewrite !fmap_app, !fmap_cons, Hl1, Hl2. done.
Qed.

Lemma for_each_spec D X n s t :
  repr D X n s t → Z.of_nat (size t) ≤ 2 * n + 8 → 0 ≤ n →
  returns (for_each_in_order s) (λ l, l.*1 = (inorder t).*1).
Proof.
  intros Hr Hb Hn. unfold for_each_in_order. rewrite (st_root _ _ _ _ _ Hr).
  apply (walk_spec D X n s []); [exact Hr|]. pose proof (bound_pos s) as Hp.
  rewrite (st_len _ _ _ _ _ Hr) in Hp. lia.
Qed.

(** ** Moving the focus *)

Lemma focus_near C b c (near : tree) i k v (far : tree) :
  plug C (mk b c near i k v far) = plug (Fr b c i k v far :: C) near.
Proof. done. Qed.
Lemma focus_far C b c (near : tree) i k v (far : tree) :
  plug C (mk b c near i k v far) = plug (Fr (opposite b) c i k v near :: C) far.
Proof. simpl. unfold zip. simpl. by rewrite mk_opposite. Qed.

(** The two subtrees of a node have different roots. *)
Lemma other_ne D X n s f C t x :
  repr D X n s (plug (f :: C) t) → top t = Some x → top (f_other f) ≠ Some x.
Proof.
  intros Hr Ht Ho. rewrite repr_plug, app_assoc in Hr.
  destruct t as [|c l i k v r]; simpl in Ht; simplify_eq.
  destruct (top_nodes (Some (f_idx f)) _ _ Ho) as (m & Hm).
  eapply (st_distinct _ _ _ _ (X ++ ctx_nodes (f :: C) (Some x)) _ x _ x m Hr); [|done]. simpl. in_list.
Qed.

Lemma repr_link D X n s C b c (near : tree) x k v (far : tree) b' :
  repr D X n s (plug C (mk b c near x k v far)) →
  link s x b' = Ret (if decide (b' = b) then top near else top far).
Proof.
  intros Hr. unfold link. rewrite (repr_at _ _ _ _ _ _ _ _ _ _ _ _ Hr), ret_bind.
  case_decide; subst; [by rewrite child_bnode|]. destruct b, b'; done.
Qed.

(** ** One round of the insertion fixup *)

Lemma fixup_line_spec D X n s C b cg (tz ts tu : tree) z cq q kq vq g kg vg :
  repr D X n s (plug C (mk b cg (mk b cq tz q kq vq ts) g kg vg tu)) → top tz = Some z →
  returns (insert_fixup_line z b s) (λ '(z', s'), z' = z ∧
    repr D X n s' (plug C (mk b Black tz q kq vq (mk b Red ts g kg vg tu)))).
Proof.
  intros Hr Hz. unfold insert_fixup_line. destruct tz as [|c l z' k v r]; simpl in Hz; simplify_eq.
  pose proof (repr_at_T _ _ _ _ (Fr b cq q kq vq ts :: Fr b cg g kg vg tu :: C) _ _ _ _ _ _ Hr) as ->.
  rewrite ret_bind. simpl expect. rewrite ret_bind.
  pose proof (repr_at _ _ _ _ (Fr b cg g kg vg tu :: C) _ _ _ _ _ _ _ Hr) as ->. rewrite ret_bind, parent_bnode.
  simpl expect. rewrite ret_bind.
  eapply returns_bind; [exact (set_color_spec _ _ _ _ (Fr b cg g kg vg tu :: C) b _ _ _ _ _ _ Black Hr)|].
  clear Hr. intros s1 Hr. rewrite <- focus_near in Hr.
  eapply returns_bind; [exact (set_color_spec _ _ _ _ _ _ _ _ _ _ _ _ Red Hr)|]. clear Hr. intros s2 Hr.
  rewrite rotate_out_rotate. rewrite <- (mk_opposite b Red), <- (mk_opposite b Black) in Hr.
  eapply returns_bind; [exact (rotate_spec _ _ _ _ _ _ _ _ _ _ _ _ _ _ _ _ _ Hr)|]. clear Hr. intros s3 Hr.
  rewrite !mk_opposite in Hr. by apply returns_ret.
Qed.

(** The trees a round leaves in the place of the grandparent [g]: colours
    only, when the uncle [tu] is red; one rotation, when [z] is on the outer
    side; two, when it is on the inner side. *)
Lemma fixup_iteration_spec D X n s C b bz cz cg (zn zf ts tu : tree) z kz vz p kp vp g kg vg :
  repr D X n s (plug (Fr bz Red p kp vp ts :: Fr b cg g kg vg tu :: C) (mk b cz zn z kz vz zf)) →
  returns (insert_fixup_iteration z p g b s) (λ '(z', s'),
    (col tu = Red ∧ z' = g ∧
     repr D X n s' (plug C (mk b Red (mk bz Black (mk b cz zn z kz vz zf) p kp vp ts) g kg vg (paint Black tu)))) ∨
    (col tu = Black ∧ bz = b ∧ z' = z ∧
     repr D X n s' (plug C (mk b Black (mk b cz zn z kz vz zf) p kp vp (mk b Red ts g kg vg tu)))) ∨
    (col tu = Black ∧ bz = opposite b ∧ z' = p ∧
     repr D X n s' (plug C (mk b Black (mk b Red ts p kp vp zn) z kz vz (mk b Red zf g kg vg tu))))).
Proof.
  set (Z := mk b cz zn z kz vz zf). intros Hr. unfold insert_fixup_iteration.
  pose proof (other_ne _ _ _ _ _ _ Z z Hr (top_mk _ _ _ _ _ _ _)) as Hne. simpl in Hne.
  change (repr D X n s (plug C (mk b cg (mk bz Red Z p kp vp ts) g kg vg tu))) in Hr.
  rewrite (repr_link _ _ _ _ _ _ _ _ _ _ _ _ _ Hr), ret_bind, decide_False by (by destruct b).
  pose proof Hr as Hu. rewrite focus_far in Hu. rewrite (color_of_spec _ _ _ _ _ _ Hu), ret_bind. clear Hu.
  case_decide as Hcu.
  - eapply returns_bind; [exact (set_color_spec _ _ _ _ (Fr b cg g kg vg tu :: C) bz _ _ _ _ _ _ Black Hr)|].
    clear Hr. intros s1 Hr. rewrite <- focus_near, focus_far in Hr.
    eapply returns_bind; [exact (set_color_of_spec _ _ _ _ _ _ Black Hr)|]. clear Hr. intros s2 Hr.
    rewrite <- focus_far in Hr. eapply returns_bind; [exact (set_color_spec _ _ _ _ _ _ _ _ _ _ _ _ Red Hr)|].
    clear Hr. intros s3 Hr. apply returns_ret. left. done.
  - assert (Hc : col tu = Black) by (by destruct (col tu)). clear Hcu.
    pose proof Hr as Hp. rewrite focus_near in Hp. rewrite (repr_link _ _ _ _ _ _ _ _ _ _ _ _ _ Hp), ret_bind.
    destruct (decide (opposite b = bz)) as [<-|Hb].
    + rewrite decide_True by apply top_mk. rewrite rotate_in_rotate. rewrite mk_opposite in Hp.
      rewrite bind_assoc. eapply returns_bind; [exact (rotate_spec _ _ _ _ _ _ _ _ _ _ _ _ _ _ _ _ _ Hp)|].
      intros s1 Hr1. rewrite ret_bind. rewrite <- focus_near in Hr1.
      eapply returns_mono; [eapply fixup_line_spec; [exact Hr1|apply top_mk]|].
      intros [z' s2] [-> Hr2]. do 2 right. done.
    + rewrite decide_False by done. rewrite ret_bind. assert (bz = b) as -> by (by destruct b, bz).
      eapply returns_mono; [eapply fixup_line_spec; [exact Hr|apply top_mk]|].
      intros [z' s2] [-> Hr2]. right; left. done.
Qed.

(** ** The fixup *)

(** A tree with its subtree on side [b] first. *)
Lemma as_mk b c (l : tree) i k v (r : tree) : ∃ near far, T c l i k v r = mk b c near i k v far.
Proof. destruct b; [by exists l, r|by exists r, l]. Qed.

(** The state of the loop: [z] is the only node that may have a red parent.
    [B] says that the tree was balanced. *)
Definition fixing D X n (L : list (K * (I * V))) (B : Prop) (m : Z) (zs : I * rbt) : Prop :=
  ∃ C t, repr D X n zs.2 (plug C t) ∧ top t = Some zs.1 ∧ inorder (plug C t) = L ∧
    (C ≠ [] → ccol C Red = Black) ∧ (B → col t = Red ∧ ∃ h, rb t h ∧ crb C Black h) ∧ m = Z.of_nat (length C).

Definition fixed D X n (L : list (K * (I * V))) (B : Prop) s : Prop :=
  ∃ t, repr D X n s t ∧ inorder t = L ∧ (B → ∃ h, rb t h).

Lemma fixing_round D X n L (B : Prop) s C f g t z :
  repr D X n s (plug (f :: g :: C) t) → top t = Some z → inorder (plug (f :: g :: C) t) = L →
  f_color f = Red → ccol (f :: g :: C) Red = Black → (B → col t = Red ∧ ∃ h, rb t h ∧ crb (f :: g :: C) Black h) →
  returns (insert_fixup_iteration z (f_idx f) (f_idx g) (f_side g) s)
    (λ zs, ∃ m, fixing D X n L B m zs ∧ 0 ≤ m < Z.of_nat (length (f :: g :: C))).
Proof.
  destruct f as [bz cp p kp vp ts], g as [b cg g kg vg tu]. simpl f_color. simpl f_idx. simpl f_side.
  intros Hr Ht <- -> Hroot Hrb. destruct t as [|cz l z' kz vz r]; simpl in Ht; simplify_eq.
  destruct (as_mk b cz l z kz vz r) as (zn & zf & Ez). rewrite Ez in *. clear Ez.
  eapply returns_mono; [exact (fixup_iteration_spec _ _ _ _ _ _ _ _ _ _ _ _ _ _ _ _ _ _ _ _ _ _ Hr)|].
  simpl in Hroot.
  assert (Hb : B → cg = Black ∧ cz = Red ∧ ∃ h, rb (mk b cz zn z kz vz zf) h ∧ rb ts h ∧ col ts = Black ∧ rb tu h ∧ crb C Black (h + 1)).
  { intros HB. destruct (Hrb HB) as (Hcz & h & Hz & (Hs & Hsc & Hu & Huc & Hcr)). simpl in *.
    destruct cg; [by destruct Huc|]. rewrite Nat.add_0_r in Hu, Hcr. rewrite col_mk in Hcz. split; [done|]. split; [done|]. exists h. split; [done|].
    split; [done|]. split; [by apply Hsc|]. done. }
  intros [z' s'] [(Hc & -> & Hr')|[(Hc & -> & -> & Hr')|(Hc & -> & -> & Hr')]].
  - exists (Z.of_nat (length C)). split; [|simpl; lia]. do 2 eexists. split; [exact Hr'|]. split; [apply top_mk|].
    split; [rewrite <- !focus_near; apply inorder_plug_eq; destruct b, bz; inord|]. split; [|split; [|done]].
    { destruct C; [done|]. intros _. exact Hroot. }
    intros HB. destruct (Hb HB) as (-> & -> & h & Hz & Hs & Hsc & Hu & Hcr). rewrite col_mk. split; [done|].
    exists (h + 1)%nat. split; [|done]. apply rb_mk. exists (h + 1)%nat. split; [simpl; lia|]. rewrite col_mk.
    split; [apply rb_mk; exists h; done|]. destruct tu as [|cu ul ui uk uv ur]; simpl in *; [done|]. subst cu.
    destruct Hu as (m & -> & ? & ? & _). split; [|done]. exists m. rewrite Nat.add_0_r. done.
  - exists (Z.of_nat (length (Fr b Black p kp vp (mk b Red ts g kg vg tu) :: C))). split; [|simpl; lia].
    do 2 eexists. split; [rewrite focus_near in Hr'; exact Hr'|]. split; [apply top_mk|].
    split; [rewrite <- !focus_near; apply inorder_plug_eq; destruct b; inord|]. split; [|split; [|done]].
    { intros _. simpl. destruct C; [done|exact Hroot]. }
    intros HB. destruct (Hb HB) as (-> & -> & h & Hz & Hs & Hsc & Hu & Hcr). rewrite col_mk. split; [done|]. exists h. split; [done|]. simpl.
    split; [|done]. apply rb_mk. exists h. simpl. split; [lia|done].
  - exists (Z.of_nat (length (Fr b Black z kz vz (mk b Red zf g kg vg tu) :: C))). split; [|simpl; lia].
    do 2 eexists. split; [rewrite focus_near in Hr'; exact Hr'|]. split; [apply top_mk|].
    split; [rewrite <- !focus_near; apply inorder_plug_eq; destruct b; inord|]. split; [|split; [|done]].
    { intros _. simpl. destruct C; [done|exact Hroot]. }
    intros HB. destruct (Hb HB) as (-> & -> & h & Hz & Hs & Hsc & Hu & Hcr). rewrite col_mk. split; [done|].
    apply rb_mk in Hz as (m & Em & Hzn & Hzf & Hzc). simpl in Em. rewrite Nat.add_0_r in Em. subst h.
    destruct (Hzc eq_refl) as [Hc1 Hc2]. exists m. split; [apply rb_mk; exists m; simpl; split; [lia|done]|]. simpl.
    split; [|done]. apply rb_mk. exists m. simpl. split; [lia|done].
Qed.

Lemma insert_fixup_spec D X n s C t z (B : Prop) :
  repr D X n s (plug C t) → top t = Some z → (C ≠ [] → ccol C Red = Black) →
  (B → col t = Red ∧ ∃ h, rb t h ∧ crb C Black h) → Z.of_nat (size (plug C t)) ≤ 2 * n + 8 → 0 ≤ n →
  returns (insert_fixup z s) (λ s', ∃ t', repr D X n s' t' ∧ inorder t' = inorder (plug C t) ∧
    col t' = Black ∧ (B → ∃ h, rb t' h)).
Proof.
  intros Hr Ht Hroot Hrb Hb Hn. unfold insert_fixup. remember (inorder (plug C t)) as L eqn:EL.
  eapply returns_bind; [apply (while_loop_variant _ (fixing D X n L B) (fixed D X n L B)) with (Z.of_nat (length C))|].
  - clear Hr Ht Hroot Hrb Hb EL z s t C. intros m [z s] (C & t & Hr & Ht & HL & Hroot & Hrb & ->) _. simpl in Hr, Ht.
    destruct t as [|c l z' k v r]; [done|]. injection Ht as ->.
    rewrite (repr_at_T _ _ _ _ _ _ _ _ _ _ _ Hr), ret_bind. simpl.
    destruct C as [|f C]; simpl cidx; cbv iota.
    { apply returns_ret. exists (T c l z k v r). split; [done|]. split; [done|]. intros HB.
      destruct (Hrb HB) as (_ & h & ? & _). by exists h. }
    rewrite (repr_at _ _ _ _ C (f_side f) _ _ _ _ _ _ Hr), ret_bind, color_bnode, parent_bnode.
    case_decide as Hc; cycle 1.
    { apply returns_ret. eexists. split; [exact Hr|]. split; [done|]. intros HB.
      destruct (Hrb HB) as (_ & h & Hh & Hf & _ & Hcr). apply rb_plug. exists h. split; [done|]. simpl. tauto. }
    specialize (Hroot ltac:(done)). destruct C as [|g C]; simpl in Hroot; [congruence|].
    simpl cidx. simpl expect. rewrite ret_bind.
    rewrite (repr_at _ _ _ _ C (f_side g) _ _ _ _ _ _ Hr), ret_bind.
    rewrite bnode_left; [|apply top_mk|eapply (other_ne _ _ _ _ g C (zip f (T c l z k v r))); [exact Hr|apply top_mk]].
    eapply returns_bind; [eapply fixing_round; [exact Hr|done|exact HL|done|exact Hroot|exact Hrb]|].
    intros [z' s'] Hm. apply returns_ret. exact Hm.
  - exists C, t. done.
  - rewrite bound_pos; rewrite (st_len _ _ _ _ _ Hr); [|done]. pose proof (length_plug C t). lia.
  - intros s' (t' & Hr' & <- & Hrb'). rewrite (st_root _ _ _ _ _ Hr').
    eapply returns_mono; [exact (set_color_of_spec _ _ _ _ [] t' Black Hr')|]. intros s2 Hr2.
    exists (paint Black t'). split; [done|]. rewrite inorder_paint. split; [done|]. split; [by destruct t'|].
    intros HB. destruct (Hrb' HB) as (h & Hh). by eapply rb_paint.
Qed.

(** ** Insertion *)

Lemma gap_side t k f C : gap t k (f :: C) → (if decide (cmp k (f_key f) = Lt) then Left else Right) = f_side f.
Proof.
  intros (_ & Hb & Ha). simpl in Hb, Ha. destruct (f_side f).
  - inversion Ha; subst. by rewrite decide_True.
  - apply Forall_app in Hb as [_ Hb]. apply Forall_app in Hb as [_ Hb]. inversion Hb; subst. simpl in *.
    rewrite decide_False; [done|]. rewrite (cmp_gt _ (f_key f)); done.
Qed.

Lemma insert_new_spec D n s t k v C :
  repr D [] n s t → gap t k C → col t = Black → n = Z.of_nat (size t) → n + 1 < U64 →
  returns (insert_new k v (cidx C) s) (λ '(i, s'), ∃ t', repr D [] (n + 1) s' t' ∧ col t' = Black ∧
    inorder t' = cleft C ++ (k, (i, v)) :: cright C ∧ get (arena s) i = None ∧ ¬ D i ∧
    ((∃ h, rb t h) → ∃ h, rb t' h)).
Proof.
  intros Hr Hg Hc En Hn. pose proof Hg as (-> & Hbl & Hab). unfold insert_new.
  rewrite repr_plug in Hr. simpl in Hr. rewrite app_nil_r in Hr. destruct Hr as [Hh Hro Hl HD].
  pose proof (holds_insert _ _ (mkNode k v Red None None None) Hh) as Hh'.
  pose proof (insert_fresh (arena s) (mkNode k v Red None None None)) as Hfr.
  pose proof (λ j, retired_keep_insert (arena s) (mkNode k v Red None None None) j) as Hre.
  pose proof (get_insert_eq (arena s) (mkNode k v Red None None None)) as Hge.
  destruct (arena_insert (mkNode k v Red None None None) (arena s)) as [i a]. simpl in Hh', Hfr, Hre, Hge.
  rewrite Hl, add_chk_ret, ret_bind by lia. cbv zeta.
  assert (Hst : st D (n + 1) (s <| arena := a |> <| len := n + 1 |>) (croot C None)
                  ([] ++ (i, mkNode k v Red None None None) :: ctx_nodes C None)) by (split; rsimp; auto).
  assert (HDi : ¬ D i) by (intros Hi; apply HD, Hre, retired_get in Hi; congruence).
  eapply returns_bind; [exact (st_modify _ _ _ _ _ _ _ _ _ Hst)|]. clear Hst Hh Hh' Hro Hl HD Hre. intros s1 Hst.
  change (st D (n + 1) s1 (croot C None) ([] ++ (i, mkNode k v Red (cidx C) None None) :: ctx_nodes C None)) in Hst.
  assert (Hlink : returns (match cidx C with
      | None => Ret (s1 <| root := Some i |>)
      | Some p => nn ← at_ s1 i; np ← at_ s1 p;
          let b := if decide (cmp (key nn) (key np) = Lt) then Left else Right in set_child p b (Some i) s1
      end) (λ s2, repr D [] (n + 1) s2 (plug C (T Red E i k v E)))).
  { destruct C as [|f C]; simpl cidx.
    - apply returns_ret. destruct Hst. by split; rsimp.
    - erewrite (st_at _ _ _ _ _ i); [|exact Hst|in_list]. rewrite ret_bind.
      erewrite (st_at _ _ _ _ _ (f_idx f)); [|exact Hst|simpl; in_list]. rewrite ret_bind, key_bnode. simpl key.
      rewrite (gap_side _ _ _ _ Hg). unfold set_child.
      eapply returns_mono;
        [exact (st_modify _ _ _ _ [_] (nodes (Some (f_idx f)) (f_other f) ++ ctx_nodes C (Some (f_idx f))) _ _ _ Hst)|].
      intros s2 Hst2. rewrite with_bnode in Hst2. apply (repr_plug D [] (n + 1) s2 (f :: C)).
      eapply st_perm; [|exact Hst2]. simpl. solve_perm. }
  eapply returns_bind; [exact Hlink|]. clear Hst Hlink. intros s2 Hr2.
  pose proof (size_inorder (plug C E)) as Hsz. rewrite inorder_plug, !length_app in Hsz. simpl in Hsz.
  eapply returns_bind; [apply (insert_fixup_spec _ _ _ _ _ _ i (∃ h, rb (plug C E) h) Hr2)|].
  - done.
  - destruct C; [done|]. intros _. rewrite col_plug in Hc. exact Hc.
  - intros HB. split; [done|]. apply rb_plug in HB as (h & -> & Hcr). exists 0%nat. split; [|done]. by exists 0%nat.
  - rewrite size_inorder, inorder_plug, !length_app. simpl. lia.
  - lia.
  - intros s3 (t' & Hr3 & Hi3 & Hc3 & Hb3). apply returns_ret. exists t'. split; [done|]. split; [done|].
    rewrite inorder_plug in Hi3. simpl in Hi3. done.
Qed.

(** A search tree with its root black; [D] are the handles of removed nodes. *)
Record tree_ok (D : I → Prop) s t : Prop := {
  ok_repr : repr D [] (Z.of_nat (size t)) s t;
  ok_sorted : sorted (inorder t);
  ok_root : col t = Black
}.

Definition balanced t : Prop := ∃ h, rb t h.

Lemma insert_existing D n s C c (l : tree) i k v0 (r : tree) f :
  repr D [] n s (plug C (T c l i k v0 r)) →
  returns (modify_at i (λ m, m <| value := f (value m) |>) s) (λ s', repr D [] n s' (plug C (T c l i k (f v0) r))).
Proof.
  intros Hr. rewrite repr_plug, app_assoc in Hr.
  eapply returns_mono;
    [exact (st_modify _ _ _ _ ([] ++ ctx_nodes C (Some i)) (nodes (Some i) l ++ nodes (Some i) r) _ _ _ Hr)|].
  intros s' Hst. rewrite repr_plug, app_assoc. exact Hst.
Qed.

Lemma balanced_value C c (l : tree) i k v0 v (r : tree) :
  balanced (plug C (T c l i k v0 r)) → balanced (plug C (T c l i k v r)).
Proof. unfold balanced. rewrite !rb_plug. done. Qed.

Lemma spot_lookup t k C c l i v r : spot t k C c l i v r → sorted (inorder t) →
  lookup_key k (inorder t) = Some (i, v) ∧ ∀ v', ins k (i, v') (inorder t) = inorder (plug C (T c l i k v' r)).
Proof.
  unfold spot. intros -> Hs.
  assert (Hin : ∀ w, inorder (plug C (T c l i k w r)) = (cleft C ++ inorder l) ++ (k, (i, w)) :: inorder r ++ cright C).
  { intros w. rewrite inorder_plug. simpl. rewrite <- !app_assoc. done. }
  rewrite !Hin in *. pose proof (sorted_mid _ _ _ _ Hs) as [Hb _]. split.
  - rewrite lookup_below by done. simpl. by rewrite cmp_refl.
  - intros w. rewrite Hin, ins_below by done. simpl. by rewrite cmp_refl.
Qed.

Lemma overwrite_spec D s t k C c l i v r f : tree_ok D s t → spot t k C c l i v r →
  returns (modify_at i (λ m, m <| value := f (value m) |>) s) (λ s', ∃ t', tree_ok D s' t' ∧
    inorder t' = ins k (i, f v) (inorder t) ∧ (balanced t → balanced t')).
Proof.
  intros [Hr Hs Hc] Hsp. destruct (spot_lookup _ _ _ _ _ _ _ _ Hsp Hs) as [_ Hi]. specialize (Hi (f v)).
  unfold spot in Hsp. subst t. eapply returns_mono; [exact (insert_existing _ _ _ _ _ _ _ _ _ _ f Hr)|].
  intros s' Hr'. exists (plug C (T c l i k (f v) r)). split; [split|].
  - replace (size (plug C (T c l i k (f v) r))) with (size (plug C (T c l i k v r))); [done|].
    rewrite !size_inorder, !inorder_plug, !length_app. simpl. by rewrite !length_app.
  - rewrite <- Hi. by apply sorted_ins.
  - by rewrite col_plug in *.
  - split; [done|apply balanced_value].
Qed.

Lemma insert_spec D s t k v :
  tree_ok D s t → Z.of_nat (size t) + 1 < U64 →
  returns (insert k v s) (λ '(i, s'), ∃ t', tree_ok D s' t' ∧ inorder t' = ins k (i, v) (inorder t) ∧
    match lookup_key k (inorder t) with
    | Some (j, _) => i = j
    | None => get (arena s) i = None ∧ ¬ D i
    end ∧ (balanced t → balanced t')).
Proof.
  intros [Hr Hs Hc] Hn. unfold insert.
  eapply returns_bind; [apply (insert_position_spec _ _ _ _ _ k Hr Hs); lia|].
  intros [i|p].
  - intros (C & c & l & v0 & r & Hsp). destruct (spot_lookup _ _ _ _ _ _ _ _ Hsp Hs) as [-> _].
    eapply returns_bind; [exact (overwrite_spec D s t k C c l i v0 r (λ _, v) (Build_tree_ok _ _ _ Hr Hs Hc) Hsp)|].
    intros s' (t' & Hok' & Hi & Hb). apply returns_ret. by exists t'.
  - intros (C & Hg & ->). eapply returns_mono; [apply (insert_new_spec _ _ _ _ _ v C Hr Hg Hc eq_refl); lia|].
    intros [i s'] (t' & Hr' & Hc' & Hi' & Hfr & HD & Hb'). exists t'. pose proof Hg as (-> & Hb & Ha).
    assert (Hi : inorder t' = ins k (i, v) (inorder (plug C E))).
    { rewrite inorder_plug, Hi'. simpl. rewrite ins_below, ins_above by done. done. }
    split; [split|].
    + replace (Z.of_nat (size t')) with (Z.of_nat (size (plug C E)) + 1); [done|].
      rewrite !size_inorder, Hi', inorder_plug, !length_app. simpl. lia.
    + rewrite Hi. by apply sorted_ins.
    + done.
    + split; [done|]. split; [|exact Hb']. rewrite inorder_plug. simpl.
      by rewrite lookup_below, lookup_above by done.
Qed.

End Insert.
