(* ===== verification/RbRemove.v ===== *)
(** * The red-black tree: removal

    Detaching a node and the fixup after it keep the order of the other
    entries; the tree as a whole behaves as an ordered map whose handles stay
    with their entries. *)

From stdpp Require Import sorting.
From S2P Require Import Prelude RbTree RbShape RbInsert.

Section Remove.
Context {K V I A : Type} `{OrdLaws K} `{EqDecision I} `{ArenaLaws I (Node K V I) A}.
#[local] Abbreviation node := (Node K V I).
#[local] Abbreviation rbt := (RedBlackTree A I).
#[local] Abbreviation tree := (tree K V I).
#[local] Abbreviation ctx := (list (frame K V I)).
Implicit Types (s : rbt) (i x y z : I) (t : tree) (C : ctx) (b : Branch) (k : K) (v : V).

(** ** The fixup *)

Lemma opposite_twice b : opposite (opposite b) = b.
Proof. by destruct b. Qed.
Lemma opposite_ne b : opposite b ≠ b.
Proof. by destruct b. Qed.

Lemma ccol_cons f C c c' : ccol (f :: C) c = ccol (f :: C) c'.
Proof. done. Qed.

Lemma fixup_last_spec D X n s C b cp (w : tree) p kp vp cq (sn : tree) q kq vq (sf : tree) :
  repr D X n s (plug C (mk b cp w p kp vp (mk b cq sn q kq vq sf))) →
  returns (delete_fixup_last p b (Some q) s) (λ '(eb, s'), ∃ t', repr D X n s' (plug C t') ∧ eb = top (plug C t') ∧
    inorder t' = inorder (mk b cp w p kp vp (mk b cq sn q kq vq sf))).
Proof.
  intros Hr. unfold delete_fixup_last. rewrite (repr_at _ _ _ _ _ _ _ _ _ _ _ _ Hr), ret_bind, color_bnode.
  rewrite focus_far in Hr. eapply returns_bind; [exact (set_color_spec _ _ _ _ _ _ _ _ _ _ _ _ cp Hr)|].
  clear Hr. intros s1 Hr. rewrite <- focus_far in Hr.
  eapply returns_bind; [exact (set_color_spec _ _ _ _ _ _ _ _ _ _ _ _ Black Hr)|]. clear Hr. intros s2 Hr.
  eapply (returns_bind _ _ (λ s3, repr D X n s3 (plug C (mk b Black w p kp vp (mk b cp (paint Black sn) q kq vq sf))))).
  { pose proof Hr as Hq. rewrite focus_far in Hq. rewrite (repr_link _ _ _ _ _ _ _ _ _ _ _ _ _ Hq), ret_bind.
    rewrite opposite_twice, decide_True by done. rewrite focus_near in Hq.
    eapply returns_mono; [exact (set_color_of_spec _ _ _ _ _ _ Black Hq)|]. intros s3 H3'.
    rewrite <- focus_near, <- focus_far in H3'. exact H3'. }
  clear Hr. intros s3 Hr. rewrite rotate_in_rotate.
  eapply returns_bind; [exact (rotate_spec _ _ _ _ _ _ _ _ _ _ _ _ _ _ _ _ _ Hr)|]. clear Hr. intros s4 Hr.
  apply returns_ret. eexists. split; [exact Hr|]. split; [exact (st_root _ _ _ _ _ Hr)|]. destruct b; inord.
Qed.

(** What a round leaves: the extra black node [w'] in its place, closer to
    the root than the bound [m]. *)
Definition lifted D X n (L : list (K * (I * V))) (m : nat) (es : option I * rbt) : Prop :=
  ∃ C w, repr D X n es.2 (plug C w) ∧ es.1 = top w ∧ inorder (plug C w) = L ∧
    (C ≠ [] → ccol C Red = Black) ∧ (2 * length C + blk (col w) < m)%nat.

Lemma fixup_nephews_spec D X n s C b cp (w : tree) p kp vp (sib : tree) m :
  repr D X n s (plug C (mk b cp w p kp vp sib)) → (C ≠ [] → ccol C Red = Black) →
  (2 * length C + blk cp < m)%nat → (1 < m)%nat →
  returns (delete_fixup_nephews p b (top sib) s)
    (lifted D X n (inorder (plug C (mk b cp w p kp vp sib))) m).
Proof.
  intros Hr HC Hm Hm1. unfold delete_fixup_nephews.
  destruct sib as [|cq l q kq vq r].
  { simpl nephew_colors. rewrite ret_bind, decide_True by done. simpl. apply returns_ret.
    exists C, (mk b cp w p kp vp E). rewrite top_mk, col_mk. done. }
  destruct (as_mk b cq l q kq vq r) as (sn & sf & Es). rewrite Es in *. clear Es. rewrite top_mk.
  pose proof Hr as Hq. rewrite focus_far in Hq. unfold nephew_colors.
  rewrite !(repr_link _ _ _ _ _ _ _ _ _ _ _ _ _ Hq), !ret_bind.
  rewrite decide_False by apply opposite_ne. rewrite decide_True by apply opposite_twice.
  pose proof Hq as Hf. rewrite focus_far in Hf. rewrite (color_of_spec _ _ _ _ _ _ Hf), ret_bind. clear Hf.
  pose proof Hq as Hn. rewrite focus_near in Hn. rewrite (color_of_spec _ _ _ _ _ _ Hn), ret_bind. clear Hn.
  rewrite ret_bind. case_decide as Hc.
  { eapply returns_bind; [exact (set_color_spec _ _ _ _ _ _ _ _ _ _ _ _ Red Hq)|]. intros s1 H1'. apply returns_ret.
    rewrite <- focus_far in H1'. exists C. eexists. split; [exact H1'|]. split; [by rewrite top_mk|]. rewrite col_mk.
    split; [apply inorder_plug_eq; destruct b; inord|]. done. }
  case_decide as Hcf; cycle 1.
  { rewrite ret_bind. eapply returns_mono; [exact (fixup_last_spec _ _ _ _ _ _ _ _ _ _ _ _ _ _ _ _ _ Hr)|].
    intros [eb s'] (t' & Hr' & -> & Hi). exists [], (plug C t'). split; [done|]. split; [done|].
    split; [by apply (inorder_plug_eq C)|]. split; [done|]. destruct (col (plug C t')); simpl; lia. }
  assert (Hred : col sf = Red) by (destruct (col sf); tauto).
  destruct sf as [|cx fl x kx vx fr]; simpl in Hred; [done|]. subst cx.
  destruct (as_mk b Red fl x kx vx fr) as (fn & ff & Ef). rewrite Ef in *. clear Ef. cbv iota. rewrite !bind_assoc, top_mk.
  simpl set_color_of. rewrite focus_far in Hq.
  eapply returns_bind; [exact (set_color_spec _ _ _ _ _ _ _ _ _ _ _ _ Black Hq)|]. clear Hq Hr. intros s1 Hq.
  rewrite <- focus_far in Hq.
  rewrite bind_assoc. eapply returns_bind; [exact (set_color_spec _ _ _ _ _ _ _ _ _ _ _ _ Red Hq)|].
  clear Hq. intros s2 Hq. rewrite rotate_out_rotate, opposite_twice.
  eapply returns_bind; [exact (rotate_spec _ _ _ _ _ _ _ _ _ _ _ _ _ _ _ _ _ Hq)|]. clear Hq. intros s3 Hq.
  rewrite <- focus_far in Hq. rewrite (repr_link _ _ _ _ _ _ _ _ _ _ _ _ _ Hq), !ret_bind, decide_False by apply opposite_ne.
  rewrite top_mk. eapply returns_mono; [exact (fixup_last_spec _ _ _ _ _ _ _ _ _ _ _ _ _ _ _ _ _ Hq)|].
  intros [eb s'] (t' & Hr' & -> & Hi). exists [], (plug C t'). split; [done|]. split; [done|].
  split; [apply (inorder_plug_eq C); rewrite Hi; destruct b; inord|]. split; [done|].
  destruct (col (plug C t')); simpl; lia.
Qed.

Lemma fixup_iteration_delete_spec D X n s C b cp (w : tree) p kp vp (sib : tree) :
  repr D X n s (plug C (mk b cp w p kp vp sib)) → ccol C cp = Black →
  returns (delete_fixup_iteration p b s)
    (lifted D X n (inorder (plug C (mk b cp w p kp vp sib))) (2 * S (length C) + 1)).
Proof.
  intros Hr HC. unfold delete_fixup_iteration.
  rewrite (repr_link _ _ _ _ _ _ _ _ _ _ _ _ _ Hr), ret_bind, decide_False by apply opposite_ne.
  pose proof Hr as Hs. rewrite focus_far in Hs. rewrite (color_of_spec _ _ _ _ _ _ Hs), ret_bind.
  case_decide as Hc; cycle 1.
  { rewrite ret_bind. apply fixup_nephews_spec; [done| |destruct cp; simpl; lia|lia].
    by destruct C. }
  destruct sib as [|cq l q kq vq r]; simpl in Hc; [done|]. subst cq.
  destruct (as_mk b Red l q kq vq r) as (sn & sf & Es). rewrite Es in *. clear Es. rewrite top_mk. simpl set_color_of.
  rewrite bind_assoc. eapply returns_bind; [exact (set_color_spec _ _ _ _ _ _ _ _ _ _ _ _ Black Hs)|].
  clear Hr Hs. intros s1 Hr. rewrite <- focus_far in Hr.
  rewrite bind_assoc. eapply returns_bind; [exact (set_color_spec _ _ _ _ _ _ _ _ _ _ _ _ Red Hr)|].
  clear Hr. intros s2 Hr. rewrite rotate_in_rotate.
  rewrite bind_assoc. eapply returns_bind; [exact (rotate_spec _ _ _ _ _ _ _ _ _ _ _ _ _ _ _ _ _ Hr)|].
  clear Hr. intros s3 Hr. rewrite focus_near in Hr.
  rewrite bind_assoc, (repr_link _ _ _ _ _ _ _ _ _ _ _ _ _ Hr), !ret_bind, decide_False by apply opposite_ne.
  eapply returns_mono; [apply (fixup_nephews_spec _ _ _ _ _ _ _ _ _ _ _ _ (2 * S (length C) + 1)%nat Hr)|].
  - intros _. simpl. by destruct C.
  - simpl. lia.
  - lia.
  - intros [eb s'] (C' & w' & H1' & H2' & H3' & H4'). exists C', w'. split; [done|]. split; [done|]. split; [|done].
    rewrite H3', <- focus_near. apply inorder_plug_eq. destruct b; inord.
Qed.

Lemma delete_fixup_spec D X n s C (w : tree) :
  repr D X n s (plug C w) → (C ≠ [] → ccol C Red = Black) → Z.of_nat (length C) ≤ n → 0 ≤ n →
  returns (delete_fixup (top w) s) (λ s', ∃ t', repr D X n s' t' ∧ inorder t' = inorder (plug C w) ∧ col t' = Black).
Proof.
  intros Hr HC Hl Hn. unfold delete_fixup. remember (inorder (plug C w)) as L eqn:EL.
  eapply returns_bind; [apply (while_loop_variant _ (λ m es, lifted D X n L (Z.to_nat m) es)
                          (λ es, ∃ m, lifted D X n L m es)) with (2 * n + 2)|].
  - clear Hr HC Hl w C EL s. intros m [eb s] (C & w & Hr & He & HL & HC & Hm) Hm0. simpl in Hr, He. subst eb.
    case_decide as Hroot; [apply returns_ret; exists (Z.to_nat m), C, w; done|].
    rewrite (color_of_spec _ _ _ _ _ _ Hr), ret_bind. case_decide as Hcw; cycle 1.
    { apply returns_ret; exists (Z.to_nat m), C, w; done. }
    destruct w as [|c l x k v r]; simpl top; cbv iota.
    { apply returns_ret; exists (Z.to_nat m), C, E; done. }
    rewrite (repr_at_T _ _ _ _ _ _ _ _ _ _ _ Hr), ret_bind. simpl parent.
    destruct C as [|f C]; [by destruct Hr|]. simpl cidx. cbv iota.
    rewrite (repr_at _ _ _ _ C (f_side f) _ _ _ _ _ _ Hr), ret_bind.
    rewrite bnode_left; [|done|eapply (other_ne _ _ _ _ f C _ _ Hr); done].
    eapply returns_bind; [exact (fixup_iteration_delete_spec _ _ _ _ _ _ _ _ _ _ _ _ Hr (HC ltac:(done)))|].
    intros es Hes. apply returns_ret. simpl in Hcw, Hm. rewrite Hcw in Hm. simpl in Hm.
    destruct Hes as (C' & w' & H1' & H2' & H3' & H4' & H5'). exists (m - 1). split; [|lia].
    exists C', w'. split; [done|]. split; [done|]. split; [by rewrite H3'|]. split; [done|]. lia.
  - exists C, w. split; [done|]. split; [done|]. split; [done|]. split; [done|]. destruct (col w); simpl; lia.
  - rewrite bound_pos; rewrite (st_len _ _ _ _ _ Hr); lia.
  - intros [eb s'] (m & C' & w' & Hr' & He & HL & HC' & _). simpl in Hr', He. subst eb.
    eapply returns_mono; [exact (set_color_of_spec _ _ _ _ _ _ Black Hr')|]. intros s2 Hr2.
    eexists. split; [exact Hr2|]. split; [rewrite <- HL; apply inorder_plug_eq, inorder_paint|].
    rewrite col_plug. destruct C'; [by destruct w'|]. by apply HC'.
Qed.

(** ** Detaching *)

Lemma transplant_spec D X n s C b c u k v (w : tree) :
  repr D X n s (plug C (mk b c E u k v w)) →
  returns (transplant u (top w) s) (λ s', repr D ((u, bnode b k v c (cidx C) None (top w)) :: X) n s' (plug C w)).
Proof.
  intros Hr. unfold transplant. rewrite (repr_at _ _ _ _ _ _ _ _ _ _ _ _ Hr), ret_bind, parent_bnode.
  rewrite repr_plug, top_mk, nodes_mk in Hr. simpl top in Hr.
  assert (Hst : st D n s (croot C (Some u))
            (((u, bnode b k v c (cidx C) None (top w)) :: X) ++ ctx_nodes C (Some u) ++ nodes (Some u) w))
    by (eapply st_perm; [|exact Hr]; simpl; solve_perm). clear Hr.
  eapply returns_bind; [exact (st_replace_child _ _ _ _ _ C u _ (top w) Hst)|]. clear Hst. intros s1 Hst.
  rewrite app_assoc, <- (app_nil_r (nodes (Some u) w)) in Hst.
  eapply returns_mono; [exact (st_set_parent _ _ _ _ _ [] _ (cidx C) w Hst)|]. intros s2 Hst2.
  rewrite app_nil_r, <- app_assoc in Hst2. by apply repr_plug.
Qed.

Lemma adopt_spec D X n s C c (l R : tree) z nz y ky vy cy py :
  st D n s (croot C (Some z)) ([(z, nz); (y, mkNode ky vy cy py None (top R))] ++ ctx_nodes C (Some z) ++
    nodes (Some z) l ++ nodes (Some y) R ++ X) →
  parent nz = cidx C → left nz = top l → color nz = c →
  returns (adopt_successor z y s) (λ s', repr D ((z, nz) :: X) n s' (plug C (T c l y ky vy R))).
Proof.
  intros Hst Hp Hl Hc. unfold adopt_successor, transplant. rewrite !bind_assoc.
  erewrite (st_at _ _ _ _ _ z); [|exact Hst|in_list]. rewrite ret_bind, Hp. rewrite !bind_assoc.
  eapply returns_bind; [exact (st_replace_child _ _ _ [_] _ C z _ (Some y) Hst)|]. clear Hst. intros s1 Hst.
  eapply returns_bind; [exact (st_modify _ _ _ _ [_] _ _ _ _ Hst)|]. clear Hst. intros s2 Hst.
  erewrite (st_at _ _ _ _ _ z); [|exact Hst|in_list]. rewrite ret_bind, Hl.
  eapply returns_bind; [exact (st_modify _ _ _ _ [_] _ _ _ _ Hst)|]. clear Hst. intros s3 Hst.
  erewrite (st_at _ _ _ _ _ y); [|exact Hst|in_list]. rewrite ret_bind.
  change (st D n s3 (croot C (Some y)) ([(z, nz); (y, mkNode ky vy cy (cidx C) (top l) (top R))] ++ ctx_nodes C (Some y) ++
    nodes (Some z) l ++ nodes (Some y) R ++ X)) in Hst. simpl left.
  rewrite app_assoc in Hst. eapply returns_bind; [exact (st_set_parent _ _ _ _ _ _ _ (Some y) l Hst)|].
  clear Hst. intros s4 Hst. rewrite <- app_assoc in Hst.
  erewrite (st_at _ _ _ _ _ z); [|exact Hst|in_list]. rewrite ret_bind, Hc.
  eapply returns_mono; [exact (st_modify _ _ _ _ [_] _ _ _ _ Hst)|]. intros s5 Hst5.
  change (st D n s5 (croot C (Some y)) ([(z, nz); (y, mkNode ky vy c (cidx C) (top l) (top R))] ++ ctx_nodes C (Some y) ++
    nodes (Some y) l ++ nodes (Some y) R ++ X)) in Hst5.
  apply repr_plug. eapply st_perm; [|exact Hst5]. simpl. solve_perm.
Qed.

Lemma ctx_nodes_frame f C o : f ∈ C → ∃ m, (f_idx f, m) ∈ ctx_nodes C o.
Proof.
  revert o. induction C as [|g C IH]; intros o Hf; [by apply not_elem_of_nil in Hf|].
  simpl. apply elem_of_cons in Hf as [->|Hf]; [eexists; left|].
  destruct (IH (Some (f_idx g)) Hf) as (m & Hm). exists m. right. apply elem_of_app. by right.
Qed.

(** Two frames of a path are different nodes. *)
Lemma frames_ne D X n s f C t g : repr D X n s (plug (f :: C) t) → g ∈ C → f_idx g ≠ f_idx f.
Proof.
  rewrite repr_plug. intros Hst Hg. destruct (ctx_nodes_frame g C (Some (f_idx f)) Hg) as (m & Hm).
  eapply (st_distinct _ _ _ _ X ((nodes (Some (f_idx f)) (f_other f) ++ ctx_nodes C (Some (f_idx f))) ++
    nodes (Some (f_idx f)) t) (f_idx f) _ (f_idx g) m Hst). apply elem_of_app; right. in_list.
Qed.

Lemma detach_two_spec D X n s C c (l R : tree) z k v :
  repr D X n s (plug C (T c l z k v R)) → R ≠ E → Z.of_nat (size R) ≤ 2 * n + 8 → 0 ≤ n →
  returns (detach_two_children z s) (λ '(fx, cd, s'), ∃ Cy y ky vy yr nz,
    R = plug Cy (T cd E y ky vy yr) ∧ Forall (λ f, f_side f = Left) Cy ∧ fx = top yr ∧ value nz = v ∧
    repr D ((z, nz) :: X) n s' (plug (Cy ++ Fr Right c y ky vy l :: C) yr)).
Proof.
  intros Hr HR Hsz Hn. unfold detach_two_children. rewrite (repr_at_T _ _ _ _ _ _ _ _ _ _ _ Hr), ret_bind. simpl right.
  destruct (top R) as [zr|] eqn:Ezr; [|by destruct R]. simpl expect. rewrite ret_bind.
  pose proof (subtree_end_spec Left D X n s (Fr Right c z k v l :: C) R Hr Hsz Hn) as Hend. rewrite Ezr in Hend.
  eapply returns_bind; [exact Hend|]. clear Hend.
  intros [y|]; [|done]. intros (Cy & cy & ky & vy & yr & ER & HCy). simpl expect. rewrite ret_bind.
  assert (Hr2 : repr D X n s (plug (Cy ++ Fr Right c z k v l :: C) (mk Left cy E y ky vy yr))).
  { rewrite plug_app, <- ER. exact Hr. }
  rewrite (repr_at _ _ _ _ _ _ _ _ _ _ _ _ Hr2), ret_bind. simpl.
  eapply (returns_bind _ _ (λ s1, ∃ nz py, value nz = v ∧ parent nz = cidx C ∧ left nz = top l ∧ color nz = c ∧
    st D n s1 (croot C (Some z)) ([(z, nz); (y, mkNode ky vy cy py None (top (plug Cy yr)))] ++ ctx_nodes C (Some z) ++
      nodes (Some z) l ++ nodes (Some y) (plug Cy yr) ++ X))).
  { destruct Cy as [|f Cy]; simpl cidx.
    - rewrite decide_True by done. rewrite repr_plug in Hr. simpl in Hr. subst R. simpl in Hr.
      eapply returns_mono; [apply (st_set_parent D n s (croot C (Some z))
        (X ++ ctx_nodes C (Some z) ++ (z, mkNode k v c (cidx C) (top l) (Some y)) :: nodes (Some z) l ++
           [(y, mkNode ky vy cy (Some z) None (top yr))]) [] (Some y) (Some y) yr)|].
      + eapply st_perm; [|exact Hr]. simpl. rewrite app_nil_r. solve_perm.
      + intros s1 Hst. eexists (mkNode k v c (cidx C) (top l) (Some y)), (Some z). do 4 (split; [done|]).
        eapply st_perm; [|exact Hst]. simpl. rewrite app_nil_r. solve_perm.
    - rewrite decide_False; cycle 1.
      { intros [= Ef]. eapply (frames_ne D X n s f _ _ (Fr Right c z k v l)); [exact Hr2| |done].
        apply elem_of_app; right; left. }
      eapply returns_bind; [exact (transplant_spec _ _ _ _ _ _ _ _ _ _ _ Hr2)|]. intros s1 Hr3.
      rewrite plug_app in Hr3. set (R' := plug (f :: Cy) yr) in *.
      assert (Ezr' : top R' = Some zr).
      { unfold R'. rewrite <- Ezr, ER, !top_plug. done. }
      rewrite repr_plug, Ezr' in Hr3.
      assert (Hst : st D n s1 (croot C (Some z)) ([(z, mkNode k v c (cidx C) (top l) (Some zr));
        (y, mkNode ky vy cy (Some (f_idx f)) None (top yr))] ++ (ctx_nodes C (Some z) ++ nodes (Some z) l) ++ nodes (Some z) R' ++ X))
        by (eapply st_perm; [|exact Hr3]; simpl; solve_perm). clear Hr3.
      eapply returns_bind; [exact (st_modify _ _ _ _ [_] _ _ _ _ Hst)|]. clear Hst. intros s2 Hst.
      change (st D n s2 (croot C (Some z)) ([(z, mkNode k v c (cidx C) (top l) (Some zr));
        (y, mkNode ky vy cy (Some (f_idx f)) None (Some zr))] ++ (ctx_nodes C (Some z) ++ nodes (Some z) l) ++ nodes (Some z) R' ++ X)) in Hst.
      rewrite app_assoc in Hst. pose proof (st_set_parent _ _ _ _ _ _ _ (Some y) R' Hst) as Hsp. rewrite Ezr' in Hsp.
      eapply returns_mono; [exact Hsp|]. intros s3 Hst3.
      eexists (mkNode k v c (cidx C) (top l) (Some zr)), (Some (f_idx f)). do 4 (split; [done|]).
      rewrite Ezr'. eapply st_perm; [|exact Hst3]. solve_perm. }
  intros s1 (nz & py & Hv & Hp & Hl & Hc & Hst).
  eapply returns_bind; [exact (adopt_spec _ _ _ _ _ _ _ _ _ _ _ _ _ _ _ Hst Hp Hl Hc)|]. intros s2 Hr3.
  apply returns_ret. exists Cy, y, ky, vy, yr, nz. split; [exact ER|]. do 3 (split; [done|]).
  rewrite plug_app. exact Hr3.
Qed.

Lemma ccol_app C1 C2 c : ccol (C1 ++ C2) c = ccol C2 (ccol C1 c).
Proof. revert c. induction C1 as [|f C1 IH]; intros c; simpl; [done|apply IH]. Qed.

Lemma cleft_lefts C : Forall (λ f, f_side f = Left) C → cleft C = [].
Proof. induction 1 as [|f C Hf _ IH]; simpl; [done|]. by rewrite IH, Hf. Qed.

(** A tree that has lost the node [z] of colour [cd], with the place [w] that
    the node, or its successor, had. *)
Definition detached D n (L : list (K * (I * V))) z v (r : option I * Color * rbt) : Prop :=
  ∃ C w nz, r.1.1 = top w ∧ value nz = v ∧ repr D [(z, nz)] n r.2 (plug C w) ∧ inorder (plug C w) = L ∧
    (C ≠ [] → ccol C Red = Black) ∧ (r.1.2 = Red → C ≠ []).

Lemma detach_spec D n s C c (l r : tree) z k v :
  repr D [] n s (plug C (T c l z k v r)) → ccol C c = Black → Z.of_nat (size r) ≤ 2 * n + 8 → 0 ≤ n →
  returns (match top l, top r with
           | None, z_right => s ← transplant z z_right s; Ret (z_right, c, s)
           | z_left, None => s ← transplant z z_left s; Ret (z_left, c, s)
           | Some _, Some _ => detach_two_children z s
           end) (detached D n (cleft C ++ inorder l ++ inorder r ++ cright C) z v).
Proof.
  intros Hr Hc Hsz Hn. destruct l as [|cl ll li lk lv lr]; [|destruct r as [|cr rl ri rk rv rr]].
  - simpl top at 1. cbv iota.
    eapply returns_bind; [exact (transplant_spec _ _ _ _ _ Left _ _ _ _ _ Hr)|]. intros s1 Hr1. apply returns_ret.
    exists C, r. eexists. split; [done|]. split; [|split; [exact Hr1|]]; [done|]. rewrite inorder_plug. split; [done|].
    destruct C; simpl in *; [|done]. split; [done|]. congruence.
  - simpl top at 1 2. cbv iota.
    eapply returns_bind; [exact (transplant_spec _ _ _ _ _ Right _ _ _ _ (T cl ll li lk lv lr) Hr)|].
    intros s1 Hr1. apply returns_ret.
    exists C, (T cl ll li lk lv lr). eexists. split; [done|]. split; [|split; [exact Hr1|]]; [done|].
    rewrite inorder_plug. split; [done|]. destruct C; simpl in *; [|done]. split; [done|]. congruence.
  - set (l := T cl ll li lk lv lr) in *. set (r := T cr rl ri rk rv rr) in *. simpl top at 1 2. cbv iota.
    eapply returns_mono; [exact (detach_two_spec _ _ _ _ _ _ _ r _ _ _ Hr ltac:(done) Hsz Hn)|].
    intros [[fx cd] s1] (Cy & y & ky & vy & yr & nz & ER & HCy & -> & Hv & Hr1).
    exists (Cy ++ Fr Right c y ky vy l :: C), yr, nz. split; [done|]. split; [done|]. split; [exact Hr1|].
    split; [|split].
    + rewrite ER, plug_app, !inorder_plug, (cleft_lefts Cy HCy). simpl.
      rewrite <- !app_assoc. done.
    + intros _. rewrite ccol_app. exact Hc.
    + intros _. by destruct Cy.
Qed.

Lemma detach_node_spec D s C c (l r : tree) z k v n :
  repr D [] n s (plug C (T c l z k v r)) → ccol C c = Black → n = Z.of_nat (size (plug C (T c l z k v r))) → n < U64 →
  returns (detach_node z s) (λ s', ∃ t' nz, repr D [(z, nz)] (n - 1) s' t' ∧ value nz = v ∧
    inorder t' = cleft C ++ inorder l ++ inorder r ++ cright C ∧ col t' = Black).
Proof.
  intros Hr Hc En Hn. unfold detach_node.
  assert (Hszs : (size (plug C (T c l z k v r)) = length (cleft C ++ inorder l ++ inorder r ++ cright C) + 1)%nat).
  { rewrite size_inorder, inorder_plug. simpl. rewrite !length_app. simpl. lia. }
  pose proof (size_plug C (T c l z k v r)) as Hsz. simpl in Hsz.
  rewrite (st_len _ _ _ _ _ Hr), sub_chk_ret, ret_bind by lia. cbv zeta.
  assert (Hr1 : repr D [] (n - 1) (s <| len := n - 1 |>) (plug C (T c l z k v r)))
    by (destruct Hr; split; by rsimp). clear Hr.
  rewrite (repr_at_T _ _ _ _ _ _ _ _ _ _ _ Hr1), ret_bind. simpl left. simpl right. simpl color.
  eapply returns_bind; [apply (detach_spec D (n - 1) _ C c l r z k v Hr1 Hc); lia|].
  intros [[fx cd] s1] (C' & w & nz & Hf & Hv & Hr2 & Hi & HC' & Hcd). simpl in Hf, Hr2, Hcd. subst fx.
  case_decide as Hbl.
  - eapply returns_mono; [apply (delete_fixup_spec _ _ _ _ _ _ Hr2 HC')|].
    + pose proof (length_plug C' w) as Hlp. rewrite (size_inorder (plug C' w)), Hi in Hlp. lia.
    + lia.
    + intros s2 (t' & Hr3 & Hi3 & Hc3). exists t', nz. split; [done|]. split; [done|]. by rewrite Hi3.
  - apply returns_ret. exists (plug C' w), nz. split; [done|]. split; [done|]. split; [done|].
    rewrite col_plug. destruct cd; [|done]. specialize (Hcd eq_refl). destruct C'; [done|]. exact (HC' Hcd).
Qed.

(** ** Removal *)

Lemma remove_spec D s t k :
  tree_ok D s t → Z.of_nat (size t) < U64 →
  returns (remove k s) (λ '(o, s'), o = snd <$> lookup_key k (inorder t) ∧
    ∃ t', tree_ok (λ j, D j ∨ fst <$> lookup_key k (inorder t) = Some j) s' t' ∧ inorder t' = del k (inorder t)).
Proof.
  intros [Hr Hs Hc] Hn. unfold remove.
  eapply returns_bind; [apply (find_node_spec _ _ _ _ _ k Hr Hs); lia|]. intros [z|].
  - intros (C & c & l & v & r & Et). unfold spot in Et. subst t.
    rewrite col_plug in Hc. simpl in Hc.
    eapply returns_bind; [exact (detach_node_spec _ _ _ _ _ _ _ _ _ _ Hr Hc eq_refl Hn)|].
    intros s1 (t' & nz & Hr1 & Hv & Hi & Hc1).
    assert (Ein : inorder (plug C (T c l z k v r)) = (cleft C ++ inorder l) ++ (k, (z, v)) :: inorder r ++ cright C).
    { rewrite inorder_plug. simpl. rewrite <- !app_assoc. done. }
    rewrite Ein in Hs. pose proof (sorted_mid _ _ _ _ Hs) as [Hb Ha].
    assert (Elk : lookup_key k (inorder (plug C (T c l z k v r))) = Some (z, v)).
    { rewrite Ein, lookup_below by done. simpl. by rewrite cmp_refl. }
    assert (Edel : del k (inorder (plug C (T c l z k v r))) = inorder t').
    { rewrite Ein, del_below, Hi by done. simpl. rewrite cmp_refl, <- app_assoc. done. }
    destruct Hr1 as [Hh Hro Hl HD]. pose proof (holds_remove _ _ _ _ Hh) as [Hm Hh'].
    assert (Hget : get (arena s1) z = Some nz) by (apply Hh; left).
    pose proof (retired_remove _ _ _ Hget) as Hret. pose proof (λ j, retired_keep_remove (arena s1) z j) as Hkeep.
    destruct (arena_remove z (arena s1)) as [o a]. simpl in Hm, Hh', Hret, Hkeep. subst o. simpl expect. rewrite ret_bind.
    apply returns_ret. rewrite Elk, Edel, Hv. split; [done|]. exists t'. split; [|done]. split.
    + split; rsimp.
      * exact Hh'.
      * exact Hro.
      * rewrite Hl, !size_inorder, Hi, Ein, !length_app. simpl. rewrite !length_app. lia.
      * intros j [Hj|[= <-]]; auto.
    + rewrite <- Edel, Ein. by apply sorted_del.
    + done.
  - intros (C & Hg). pose proof Hg as (-> & Hb & Ha). apply returns_ret.
    rewrite inorder_plug in *. simpl in *. rewrite lookup_below, lookup_above by done. split; [done|].
    exists (plug C E). rewrite inorder_plug, del_below, del_above by done. split; [|done].
    split; [|by rewrite inorder_plug|done]. destruct Hr as [Hh Hro Hl HD]. split; [done|done|done|].
    intros j [Hj|Hj]; [auto|done].
Qed.

End Remove.
