(* ===== verification/RbMap.v ===== *)
(** * The red-black tree as an ordered map

    [RedBlackTree] refines an ordered list of keys and values, whatever the
    sequence of its operations; its handles stay with their entries; as long
    as nothing is removed its height is logarithmic. *)

From stdpp Require Import sorting.
From S2P Require Import Prelude RbTree RbShape RbInsert RbRemove.

(** ** Operations and their meaning on an ordered list *)

Inductive map_op (K V : Type) :=
| Insert (k : K) (v : V) | Modify (k : K) (f : V → V) | Remove (k : K) | Get (k : K) | Contains (k : K)
| Min | Max | Len | InOrder.
Arguments Insert {K V}. Arguments Modify {K V}. Arguments Remove {K V}. Arguments Get {K V}. Arguments Contains {K V}.
Arguments Min {K V}. Arguments Max {K V}. Arguments Len {K V}. Arguments InOrder {K V}.

Inductive answer (K V : Type) :=
| Done | Value (o : option V) | Truth (b : bool) | Key (o : option K) | Count (n : Z) | Keys (l : list K).
Arguments Done {K V}. Arguments Value {K V}. Arguments Truth {K V}. Arguments Key {K V}.
Arguments Count {K V}. Arguments Keys {K V}.

Section Spec.
Context {K V : Type} `{Ord K}.
Implicit Types (l : list (K * V)).

Definition spec_op (o : map_op K V) l : answer K V * list (K * V) :=
  match o with
  | Insert k v => (Done, ins k v l)
  | Modify k f => (Value (lookup_key k l), match lookup_key k l with Some v => ins k (f v) l | None => l end)
  | Remove k => (Value (lookup_key k l), del k l)
  | Get k => (Value (lookup_key k l), l)
  | Contains k => (Truth (bool_decide (is_Some (lookup_key k l))), l)
  | Min => (Key (head l.*1), l)
  | Max => (Key (last l.*1), l)
  | Len => (Count (zlen l), l)
  | InOrder => (Keys l.*1, l)
  end.

Fixpoint spec_ops (os : list (map_op K V)) l : list (answer K V) * list (K * V) :=
  match os with
  | [] => ([], l)
  | o :: os => let '(a, l) := spec_op o l in let '(r, l) := spec_ops os l in (a :: r, l)
  end.
End Spec.

Section SpecFacts.
Context {K V : Type} `{Ord K}.

Lemma spec_grows o (l : list (K * V)) : (length (spec_op o l).2 ≤ S (length l))%nat.
Proof.
  assert (∀ k v, length (ins k v l) ≤ S (length l))%nat as Hi.
  { intros k v. induction l as [|[k' v'] l IH]; simpl; [done|]. destruct (cmp k k'); simpl; lia. }
  destruct o as [k v|k f|k| | | | | |]; simpl; try lia; try done.
  - destruct (lookup_key k l); [done|lia].
  - clear Hi. induction l as [|[k' v'] l IH]; simpl; [lia|]. destruct (cmp k k'); simpl; lia.
Qed.

Lemma spec_ops_length os (l : list (K * V)) : (length (spec_ops os l).2 ≤ length os + length l)%nat.
Proof.
  revert l. induction os as [|o os IH]; intros l; simpl; [done|].
  pose proof (spec_grows o l). destruct (spec_op o l) as [a l1]. specialize (IH l1).
  destruct (spec_ops os l1) as [r l2]. simpl in *. lia.
Qed.

Lemma spec_ops_app os os' (l : list (K * V)) :
  (spec_ops (os ++ os') l).2 = (spec_ops os' (spec_ops os l).2).2.
Proof.
  revert l. induction os as [|o os IH]; intros l; simpl; [done|].
  destruct (spec_op o l) as [a l1]. specialize (IH l1).
  destruct (spec_ops (os ++ os') l1), (spec_ops os l1). exact IH.
Qed.
End SpecFacts.

Section Map.
Context {K V I A : Type} `{OrdLaws K} `{EqDecision I} `{ArenaLaws I (Node K V I) A}.
#[local] Abbreviation rbt := (RedBlackTree A I).
#[local] Abbreviation tree := (tree K V I).
Implicit Types (s : rbt) (t : tree) (k : K) (v : V) (D : I → Prop).

Definition run_op (o : map_op K V) s : res (answer K V * rbt) :=
  match o with
  | Insert k v => '(_, s) ← insert k v s; Ret (Done, s)
  | Modify k f => '(r, s) ← get_mut k f s; Ret (Value r, s)
  | Remove k => '(r, s) ← remove k s; Ret (Value r, s)
  | Get k => r ← tree_get s k; Ret (Value r, s)
  | Contains k => r ← contains s k; Ret (Truth r, s)
  | Min => r ← tree_min s; Ret (Key r, s)
  | Max => r ← tree_max s; Ret (Key r, s)
  | Len => Ret (Count (len s), s)
  | InOrder => r ← for_each_in_order s; Ret (Keys r.*1, s)
  end.

Fixpoint run_ops (os : list (map_op K V)) s : res (list (answer K V) * rbt) :=
  match os with
  | [] => Ret ([], s)
  | o :: os => '(a, s) ← run_op o s; '(r, s) ← run_ops os s; Ret (a :: r, s)
  end.

(** ** One operation *)

(** The entries without their handles. *)
Definition strip (L : list (K * (I * V))) : list (K * V) := (λ e, (e.1, e.2.2)) <$> L.

Lemma strip_ins k i v L : strip (ins k (i, v) L) = ins k v (strip L).
Proof. induction L as [|[k' [i' v']] L IH]; simpl; [done|]. destruct (cmp k k'); simpl; [done..|by f_equal]. Qed.
Lemma strip_del k L : strip (del k L) = del k (strip L).
Proof. induction L as [|[k' [i' v']] L IH]; simpl; [done|]. destruct (cmp k k'); simpl; [done|by f_equal..]. Qed.
Lemma strip_lookup k L : lookup_key k (strip L) = snd <$> lookup_key k L.
Proof. induction L as [|[k' [i' v']] L IH]; simpl; [done|]. destruct (cmp k k'); [done|exact IH..]. Qed.
Lemma strip_keys L : (strip L).*1 = L.*1.
Proof. unfold strip. rewrite <- list_fmap_compose. done. Qed.
Lemma strip_length L : length (strip L) = length L.
Proof. apply length_fmap. Qed.

Lemma new_ok D : (∀ i, ¬ D i) → tree_ok D (new : rbt) (E : tree).
Proof.
  intros HD. split; [|constructor|done]. split; [|done|done|intros j Hj; by apply HD in Hj].
  split; [constructor|]. intros i m. unfold new. simpl. rewrite get_new. split; [done|]. by intros ?%not_elem_of_nil.
Qed.

Lemma found_or_not D s t k : tree_ok D s t → Z.of_nat (size t) < U64 →
  returns (find_node s k) (λ r, match r with
    | Some i => ∃ n, at_ s i = Ret n ∧ lookup_key k (inorder t) = Some (i, value n)
    | None => lookup_key k (inorder t) = None
    end).
Proof.
  intros [Hr Hs Hc] Hn. eapply returns_mono; [apply (find_node_spec _ _ _ _ _ k Hr Hs); lia|]. intros [i|].
  - intros (C & c & l & v & r & Et). unfold spot in Et. subst t. eexists. split; [exact (repr_at_T _ _ _ _ _ _ _ _ _ _ _ Hr)|].
    rewrite inorder_plug in *. simpl in *. rewrite <- app_assoc in *. simpl in *. rewrite app_assoc in *.
    pose proof (sorted_mid _ _ _ _ Hs) as [Hb Ha]. rewrite lookup_below by done. simpl. by rewrite cmp_refl.
  - intros (C & -> & Hb & Ha). rewrite inorder_plug. simpl. by rewrite lookup_below, lookup_above.
Qed.

(** What [D] becomes: the handle a removal retires. *)
Definition retires (o : map_op K V) (L : list (K * (I * V))) D : I → Prop :=
  match o with Remove k => λ j, D j ∨ fst <$> lookup_key k L = Some j | _ => D end.

(** The entries an operation leaves, with their handles. *)
Definition keeps_handles (o : map_op K V) (L L' : list (K * (I * V))) : Prop :=
  match o with
  | Insert k v => ∃ i, L' = ins k (i, v) L ∧ ∀ j w, lookup_key k L = Some (j, w) → i = j
  | Modify k f => L' = match lookup_key k L with Some (i, v) => ins k (i, f v) L | None => L end
  | Remove k => L' = del k L
  | _ => L' = L
  end.

Lemma run_op_spec o D s t : tree_ok D s t → Z.of_nat (size t) + 1 < U64 →
  returns (run_op o s) (λ '(a, s'), ∃ t', tree_ok (retires o (inorder t) D) s' t' ∧
    spec_op o (strip (inorder t)) = (a, strip (inorder t')) ∧ keeps_handles o (inorder t) (inorder t') ∧
    ((∀ k, o ≠ Remove k) → balanced t → balanced t')).
Proof.
  intros Hok Hn. pose proof Hok as [Hr Hs Hc]. destruct o as [k v|k f|k|k|k| | | |]; simpl.
  - eapply returns_bind; [apply insert_spec; [exact Hok|done]|]. intros [i s'] (t' & Hok' & Hi & Hl & Hb).
    apply returns_ret. exists t'. split; [done|]. rewrite Hi, strip_ins. split; [done|]. split; [|auto]. exists i. split; [done|].
    intros j w Ej. by rewrite Ej in Hl.
  - unfold get_mut. rewrite bind_assoc. eapply returns_bind; [apply (find_node_spec _ _ _ _ _ k Hr Hs); lia|]. intros [i|].
    + intros (C & c & l & v & r & Hsp). destruct (spot_lookup _ _ _ _ _ _ _ _ Hsp Hs) as [El _]. rewrite strip_lookup, El.
      pose proof Hsp as Et. unfold spot in Et. pose proof Hr as Hat. rewrite Et in Hat.
      rewrite (repr_at_T _ _ _ _ _ _ _ _ _ _ _ Hat), ret_bind, bind_assoc.
      eapply returns_bind; [exact (overwrite_spec D s t k C c l i v r f Hok Hsp)|].
      intros s' (t' & Hok' & Hi & Hb). rewrite ret_bind. apply returns_ret. exists t'. split; [done|].
      rewrite Hi, strip_ins. auto.
    + intros (C & -> & Hb & Ha). rewrite ret_bind. apply returns_ret. exists (plug C E). split; [done|].
      rewrite strip_lookup. rewrite inorder_plug at 1 2 5. simpl. rewrite lookup_below, lookup_above by done. done.
  - eapply returns_bind; [apply remove_spec; [exact Hok|lia]|]. intros [o s'] (-> & t' & Hok' & Hi).
    apply returns_ret. exists t'. split; [done|]. rewrite strip_lookup, Hi, strip_del. do 2 (split; [done|]).
    intros Hno. by destruct (Hno k).
  - unfold tree_get. rewrite bind_assoc. eapply returns_bind; [eapply found_or_not; [exact Hok|lia]|].
    intros [i|]; [intros (n & -> & El)|intros El]; rewrite ?ret_bind; apply returns_ret; exists t;
      (split; [done|]); rewrite strip_lookup, El; done.
  - unfold contains. rewrite bind_assoc. eapply returns_bind; [eapply found_or_not; [exact Hok|lia]|].
    intros [i|]; [intros (n & _ & El)|intros El]; rewrite ?ret_bind; apply returns_ret; exists t;
      (split; [done|]); rewrite strip_lookup, El; done.
  - rewrite (tree_min_spec _ _ _ _ _ Hr), ret_bind by lia. apply returns_ret. exists t. rewrite strip_keys. done.
  - rewrite (tree_max_spec _ _ _ _ _ Hr), ret_bind by lia. apply returns_ret. exists t. rewrite strip_keys. done.
  - apply returns_ret. exists t. split; [done|]. split; [|done]. rewrite (st_len _ _ _ _ _ Hr).
    unfold zlen. by rewrite strip_length, size_inorder.
  - eapply returns_bind; [apply (for_each_spec _ _ _ _ _ Hr); lia|]. intros l Hl. apply returns_ret. exists t.
    rewrite strip_keys, Hl. done.
Qed.

Lemma lookup_ins k k' (w : I * V) L :
  lookup_key k (ins k' w L) = if decide (cmp k k' = Eq) then Some w else lookup_key k L.
Proof.
  induction L as [|[k2 w2] L IH]; simpl; [case_decide as Hc; [by rewrite Hc|by destruct (cmp k k')]|].
  destruct (cmp k' k2) eqn:E2; simpl.
  - apply cmp_eq in E2 as ->. case_decide as Hc; [by rewrite Hc|by destruct (cmp k k2)].
  - case_decide as Hc; [by rewrite Hc|by destruct (cmp k k')].
  - rewrite IH. case_decide as Hc; [|done]. apply cmp_eq in Hc as ->. by rewrite E2.
Qed.

Lemma lookup_del_ne k k' (L : list (K * (I * V))) : k ≠ k' → lookup_key k (del k' L) = lookup_key k L.
Proof.
  intros Hne. induction L as [|[k2 w2] L IH]; simpl; [done|]. destruct (cmp k' k2) eqn:E2; simpl.
  - apply cmp_eq in E2 as <-. destruct (cmp k k') eqn:E3; [by apply cmp_eq in E3|done..].
  - by rewrite IH.
  - by rewrite IH.
Qed.

Lemma decide_rel_remove (o : map_op K V) k : o = Remove k ∨ o ≠ Remove k.
Proof.
  destruct o as [| | k'| | | | | |]; try (by right). destruct (cmp k' k) eqn:E.
  - apply cmp_eq in E as ->. by left.
  - right. intros [= ->]. by rewrite cmp_refl in E.
  - right. intros [= ->]. by rewrite cmp_refl in E.
Qed.

(** What becomes of a handle: it stays with its key until the key is
    removed, and is retired then. *)
Definition tracks_handles (removed : K → Prop) L L' (D' : I → Prop) : Prop :=
  ∀ k i v, lookup_key k L = Some (i, v) →
    (removed k → D' i) ∧ (¬ removed k → ∃ v', lookup_key k L' = Some (i, v')).

Lemma op_tracks o L L' D : keeps_handles o L L' → tracks_handles (λ k, o = Remove k) L L' (retires o L D).
Proof.
  intros Hk k i v El. split.
  - intros ->. simpl. right. by rewrite El.
  - intros Hno. destruct o as [k' v'|k' f|k'|k'|k'| | | |]; simpl in Hk; try (subst L'; by exists v).
    + destruct Hk as (j & -> & Hj). rewrite lookup_ins. case_decide as Hc; [|by exists v].
      apply cmp_eq in Hc as ->. rewrite (Hj _ _ El). by exists v'.
    + subst L'. destruct (lookup_key k' L) as [[j w]|] eqn:Ek; [|by exists v]. rewrite lookup_ins.
      case_decide as Hc; [|by exists v]. apply cmp_eq in Hc as ->. rewrite El in Ek. injection Ek as <- <-. by exists (f v).
    + subst L'. rewrite lookup_del_ne by congruence. by exists v.
Qed.

Lemma run_ops_spec os D s t : tree_ok D s t → Z.of_nat (size t) + zlen os < U64 →
  returns (run_ops os s) (λ '(r, s'), ∃ D' t', (∀ j, D j → D' j) ∧ tree_ok D' s' t' ∧
    spec_ops os (strip (inorder t)) = (r, strip (inorder t')) ∧
    tracks_handles (λ k, Remove k ∈ os) (inorder t) (inorder t') D' ∧
    ((∀ k, Remove k ∉ os) → balanced t → balanced t')).
Proof.
  revert D s t. induction os as [|o os IH]; intros D s t Hok Hn; simpl.
  - apply returns_ret. exists D, t. do 3 (split; [done|]). split; [|done].
    intros k i v El. split; [by intros ?%not_elem_of_nil|by exists v].
  - rewrite zlen_cons in Hn. pose proof (zlen_nonneg os).
    eapply returns_bind; [apply run_op_spec; [exact Hok|lia]|]. intros [a s1] (t1 & Hok1 & Es & Hk & Hbal).
    rewrite Es. pose proof (spec_grows o (strip (inorder t))) as Hg. rewrite Es in Hg. simpl in Hg.
    rewrite !strip_length, <- !size_inorder in Hg.
    eapply returns_bind; [apply (IH _ _ _ Hok1); lia|]. intros [r s2] (D' & t2 & HD & Hok2 & -> & Htr & Hbal2).
    apply returns_ret. exists D', t2. split; [intros j Hj; apply HD; destruct o; simpl; auto|]. split; [done|]. split; [done|].
    split; cycle 1.
    { intros Hno Hb. apply Hbal2; [intros k Hin; apply (Hno k); by right|].
      apply Hbal; [|done]. intros k ->. apply (Hno k). left. }
    pose proof (op_tracks _ _ _ D Hk) as Hop. intros k i v El. destruct (Hop k i v El) as [Hrm Hkp]. split.
    + intros [Eo|Hin]%elem_of_cons; [by apply HD, Hrm|].
      destruct (decide_rel_remove o k) as [Eo|Hno]; [by apply HD, Hrm|].
      destruct (Hkp Hno) as (v' & El'). by apply (Htr k i v').
    + intros Hno. destruct Hkp as (v' & El'); [intros ->; apply Hno; left|].
      apply (Htr k i v' El'). intros Hin. apply Hno. by right.
Qed.

(** C23: Whatever the operations, and in whatever order, a tree that starts
    empty never panics and answers as an ordered list of keys and values
    does: insertions, removals, lookups, minimum, maximum, length and the
    traversal in order. *)
Theorem tree_refines_ordered_map (os : list (map_op K V)) : zlen os < U64 →
  returns (run_ops os new) (λ '(r, s), (spec_ops os []).1 = r ∧ len s = zlen (spec_ops os []).2).
Proof.
  intros Hn. eapply returns_mono; [apply (run_ops_spec os (λ _, False) new E); [apply new_ok; by intros ? []|simpl; lia]|].
  intros [r s] (D' & t' & _ & [Hr _ _] & Es & _). simpl in Es. rewrite Es. split; [done|].
  rewrite (st_len _ _ _ _ _ Hr). simpl. unfold zlen. by rewrite strip_length, size_inorder.
Qed.

(** ** Handles *)

Lemma inorder_nodes (p : option I) t k i v : (k, (i, v)) ∈ inorder t → ∃ m, (i, m) ∈ nodes p t ∧ key m = k ∧ value m = v.
Proof.
  revert p. induction t as [|c l IHl i' k' v' r IHr]; intros p; simpl; [by intros ?%not_elem_of_nil|].
  rewrite elem_of_app, elem_of_cons. intros [Hl|[E|Hr]].
  - destruct (IHl (Some i') Hl) as (m & Hm & ? & ?). exists m. split; [in_list|done].
  - simplify_eq. eexists. split; [left|done].
  - destruct (IHr (Some i') Hr) as (m & Hm & ? & ?). exists m. split; [in_list|done].
Qed.

Lemma lookup_elem k i v (L : list (K * (I * V))) : lookup_key k L = Some (i, v) → (k, (i, v)) ∈ L.
Proof.
  induction L as [|[k' w] L IH]; simpl; [done|]. destruct (cmp k k') eqn:Ec; intros El; [|right; auto..].
  apply cmp_eq in Ec as ->. simplify_eq. left.
Qed.

Lemma handle_of D s t k i v : tree_ok D s t → lookup_key k (inorder t) = Some (i, v) →
  ∃ n, arena_get s i = Some n ∧ key n = k ∧ value n = v.
Proof.
  intros [Hr _ _] El. destruct (inorder_nodes None t k i v (lookup_elem _ _ _ _ El)) as (m & Hm & Hk & Hv).
  exists m. split; [|done]. unfold arena_get. apply (st_holds _ _ _ _ _ Hr). simpl. done.
Qed.

(** A handle that an insertion returned stays valid, and leads to its
    key and to the value the map has for it, until that key is removed;
    after the removal it is never valid again, even if the key returns. *)
Theorem handles_are_stable (os os' : list (map_op K V)) k v : zlen os + zlen os' + 1 < U64 →
  returns (r1 ← run_ops os new; r2 ← insert k v r1.2; r3 ← run_ops os' r2.2; Ret (r2.1, r3.2))
    (λ '(i, s), (Remove k ∈ os' → arena_get s i = None) ∧
      (Remove k ∉ os' → ∃ n, arena_get s i = Some n ∧ key n = k ∧
         Some (value n) = lookup_key k (spec_ops (os ++ Insert k v :: os') []).2)).
Proof.
  intros Hn. pose proof (zlen_nonneg os). pose proof (zlen_nonneg os').
  eapply returns_bind; [apply (run_ops_spec os (λ _, False) new E); [apply new_ok; by intros ? []|simpl; lia]|].
  intros [r1 s1] (D1 & t1 & _ & Hok1 & Es1 & _). simpl.
  assert (Hsz : Z.of_nat (size t1) ≤ zlen os).
  { pose proof (spec_ops_length os ([] : list (K * V))) as Hl. simpl in Es1. rewrite Es1 in Hl. simpl in Hl.
    rewrite strip_length, <- size_inorder in Hl. unfold zlen. lia. }
  eapply returns_bind; [apply insert_spec; [exact Hok1|lia]|]. intros [i s2] (t2 & Hok2 & Hi2 & _). simpl.
  assert (Hsz2 : (size t2 ≤ S (size t1))%nat).
  { rewrite !size_inorder, Hi2, <- !(strip_length (inorder _)), <- strip_length, strip_ins.
    apply (spec_grows (Insert k v)). }
  eapply returns_bind; [apply (run_ops_spec os' _ _ _ Hok2); lia|].
  intros [r3 s3] (D3 & t3 & _ & Hok3 & Es3 & Htr & _). apply returns_ret. simpl.
  destruct (Htr k i v) as [Hrm Hkp]; [rewrite Hi2, lookup_ins, decide_True; [done|apply cmp_refl]|]. split.
  - intros Hin. apply Hrm in Hin. unfold arena_get. apply retired_get. apply (st_retired _ _ _ _ _ (ok_repr _ _ _ Hok3)). done.
  - intros Hno. destruct (Hkp Hno) as (v' & El). destruct (handle_of _ _ _ _ _ _ Hok3 El) as (n & Hg & Hk & Hv).
    exists n. split; [done|]. split; [done|]. rewrite Hv, spec_ops_app. simpl in Es1. rewrite Es1. simpl.
    rewrite <- strip_ins with (i := i), <- Hi2, Es3. simpl. by rewrite strip_lookup, El.
Qed.

(** ** Balance *)

Fixpoint height (t : tree) : nat :=
  match t with E => 0 | T _ l _ _ _ r => S (Nat.max (height l) (height r)) end.

Lemma rb_height t h : rb t h → (height t ≤ 2 * h + (1 - blk (col t)))%nat.
Proof.
  revert h. induction t as [|c l IHl i k v r IHr]; intros h; simpl; [lia|].
  intros (m & -> & Hl & Hr & Hc). apply IHl in Hl. apply IHr in Hr. destruct c; simpl in *.
  - destruct (Hc eq_refl) as [El Er]. rewrite El in Hl. rewrite Er in Hr. simpl in *. lia.
  - destruct (col l), (col r); simpl in *; lia.
Qed.

Lemma rb_size t h : rb t h → (2 ^ h ≤ S (size t))%nat.
Proof.
  revert h. induction t as [|c l IHl i k v r IHr]; intros h; simpl; [intros ->; done|].
  intros (m & -> & Hl & Hr & _). apply IHl in Hl. apply IHr in Hr. rewrite Nat.pow_add_r.
  destruct c; simpl; lia.
Qed.

Lemma balanced_height t : balanced t → col t = Black → Z.of_nat (height t) ≤ 2 * Z.log2 (Z.of_nat (size t) + 1).
Proof.
  intros (h & Hh) Hc. pose proof (rb_height t h Hh) as Hhe. rewrite Hc in Hhe. simpl in Hhe.
  pose proof (rb_size t h Hh) as Hs.
  assert (Z.of_nat h ≤ Z.log2 (Z.of_nat (size t) + 1)); [|lia].
  apply Z.log2_le_pow2; [lia|]. change 2 with (Z.of_nat 2). rewrite <- Nat2Z.inj_pow. lia.
Qed.

(** As long as no key is removed, the tree stays a red-black tree: no red
    node has a red child, every path to a leaf has as many black nodes, and
    the height is at most twice the binary logarithm of the size plus one. *)
Theorem insertions_keep_balance (os : list (map_op K V)) : zlen os < U64 → (∀ k, Remove k ∉ os) →
  returns (run_ops os new) (λ '(_, s), ∃ t, tree_ok (λ _, False) s t ∧ balanced t ∧
    Z.of_nat (height t) ≤ 2 * Z.log2 (len s + 1)).
Proof.
  intros Hn Hno. eapply returns_mono; [apply (run_ops_spec os (λ _, False) new E); [apply new_ok; by intros ? []|simpl; lia]|].
  intros [r s] (D' & t & HD & Hok & _ & _ & Hb). exists t. pose proof Hok as [Hr Hs Hc].
  assert (balanced t) as Hbal by (apply Hb; [done|by exists 0%nat]).
  split; [|split; [done|]].
  - split; [|done|done]. destruct Hr; split; try done.
  - rewrite (st_len _ _ _ _ _ Hr). by apply balanced_height.
Qed.

End Map.

(** ** A tree of integers in the concrete arena *)

Section Sample.
#[local] Instance Z_ord : Ord Z := Z.compare.
#[local] Instance Z_ord_laws : OrdLaws Z.
Proof.
  split; unfold cmp, Z_ord.
  - apply Z.compare_eq_iff.
  - intros. apply Z.compare_antisym.
  - intros a b c. rewrite !Z.compare_lt_iff. lia.
Qed.

Lemma tree_refines_ordered_map_witness :
  returns (run_ops (V := Z) (A := slab _) [Insert 5 50; Insert 2 20; Insert 8 80; Remove 5; Get 2; Get 5; Min; Len] new)
    (λ '(r, _), r = [Done; Done; Done; Value (Some 50); Value (Some 20); Value None; Key (Some 2); Count 2]).
Proof.
  destruct (tree_refines_ordered_map (V := Z) (A := slab _)
    [Insert 5 50; Insert 2 20; Insert 8 80; Remove 5; Get 2; Get 5; Min; Len]) as ([r s] & E & Er & _);
    [vm_compute; reflexivity|]. exists (r, s). split; [exact E|]. rewrite <- Er. vm_compute. reflexivity.
Defined.

Lemma handles_are_stable_witness :
  returns (r1 ← run_ops (V := Z) (A := slab _) [Insert 5 50; Insert 2 20] new; r2 ← insert 8 80 r1.2;
           r3 ← run_ops [Remove 8; Insert 8 81] r2.2; Ret (r2.1, r3.2)) (λ '(i, s), arena_get s i = None).
Proof.
  destruct (handles_are_stable (V := Z) (A := slab _) [Insert 5 50; Insert 2 20] [Remove 8; Insert 8 81] 8 80)
    as ([i s] & E & Hgone & _); [vm_compute; reflexivity|].
  exists (i, s). split; [exact E|]. apply Hgone. left.
Defined.

Lemma insertions_keep_balance_witness :
  returns (run_ops (V := Z) (A := slab _) [Insert 1 0; Insert 2 0; Insert 3 0; Insert 4 0] new)
    (λ '(_, s), ∃ t : tree Z Z positive, balanced t ∧ top t = root s).
Proof.
  destruct (insertions_keep_balance (V := Z) (A := slab _) [Insert 1 0; Insert 2 0; Insert 3 0; Insert 4 0])
    as ([r s] & E & t & [[_ Hr _ _] _ _] & Hb & _).
  - vm_compute. reflexivity.
  - intros k. rewrite !not_elem_of_cons. repeat split; try discriminate. apply not_elem_of_nil.
  - exists (r, s). split; [exact E|]. exists t. split; [exact Hb|symmetry; exact Hr].
Defined.

(** The number of black nodes on each path from a node to a leaf. *)
Fixpoint black_depths (fuel : nat) (s : RedBlackTree (slab (Node Z Z positive)) positive) (o : option positive)
  : list nat :=
  match fuel, o with
  | S fuel, Some i =>
      match arena_get s i with
      | Some n => (λ d, (d + blk (color n))%nat) <$> (black_depths fuel s (left n) ++ black_depths fuel s (right n))
      | None => []
      end
  | _, _ => [0%nat]
  end.

(** Removing a black leaf leaves paths with different numbers of black
    nodes: the fixup stops at once at an absent node. *)
Example removal_loses_balance :
  match run_ops (V := Z) (A := slab _) [Insert 1 0; Insert 2 0; Insert 3 0; Insert 4 0; Remove 1] new with
  | Ret (_, s) => black_depths 5 s (root s) = [1; 2; 2; 2]%nat
  | Crash _ => False
  end.
Proof. vm_compute. reflexivity. Qed.
End Sample.
