(* ===== verification/Clock.v ===== *)
(** * Calendar time and the system clock

    [kernel/src/subsystem/clock/system_clock.rs], the calendar part of
    [kernel/src/subsystem/clock/time.rs] and [common/src/statistics.rs]: the
    real-time clock, Unix timestamps, the fixed-point conversion of the time
    stamp counter, and the statistics of the calibration. *)

From S2P Require Import Prelude Time.

(** ** Calendar *)

Definition UNIX_EPOCH_YEAR : Z := 1970.
Definition SECONDS_PER_DAY : Z := 86400.
Definition SECONDS_PER_HOUR : Z := 3600.
Definition DAYS_BEFORE_MONTH : list Z := [0; 0; 31; 59; 90; 120; 151; 181; 212; 243; 273; 304; 334].

Definition bcd_to_bin (bcd : Z) : Z := Z.shiftr bcd 4 * 10 + Z.land bcd 15.

Definition is_leap_year (year : Z) : bool :=
  ((year mod 4 =? 0) && negb (year mod 100 =? 0)) || (year mod 400 =? 0).

(** Years are positive, so [/] is the division of the source. *)
Definition leap_days_since_epoch (year : Z) : Z :=
  (year / 4 - UNIX_EPOCH_YEAR / 4) - (year / 100 - UNIX_EPOCH_YEAR / 100)
  + (year / 400 - UNIX_EPOCH_YEAR / 400).

Record RtcTime := mkRtc {
  rtc_second : Z; rtc_minute : Z; rtc_hour : Z; rtc_day : Z; rtc_month : Z; rtc_year : Z
}.

Definition to_unix_timestamp (t : RtcTime) : res Z :=
  let year := rtc_year t in
  let month := rtc_month t in
  let total_days := (year - UNIX_EPOCH_YEAR) * 365 in
  let total_days := total_days + leap_days_since_epoch year in
  before ← index DAYS_BEFORE_MONTH month;
  let total_days := total_days + before in
  let total_days := if (2 <? month) && is_leap_year year then total_days + 1 else total_days in
  let total_days := total_days + (rtc_day t - 1) in
  Ret ((total_days * SECONDS_PER_DAY + rtc_hour t * SECONDS_PER_HOUR + rtc_minute t * 60
        + rtc_second t) mod U64).

(** A read of the registers once no update is in progress; [reg] is what the
    CMOS port returns for each register. *)
Definition rtc_time (reg : Z → Z) : RtcTime :=
  let is_bcd := Z.land (reg 11) 4 =? 0 in
  let decode v := if is_bcd then bcd_to_bin v else v in
  mkRtc (decode (reg 0)) (decode (reg 2)) (decode (reg 4)) (decode (reg 7)) (decode (reg 8))
    (2000 + decode (reg 9)).

Definition get_unix_timestamp (tsc : Z) (reg : Z → Z) : res (Z * Z) :=
  s ← to_unix_timestamp (rtc_time reg); Ret (tsc, s).

Record DateTime := mkDateTime {
  dt_year : Z; dt_month : Z; dt_day : Z; dt_hour : Z; dt_minute : Z; dt_second : Z
}.

Definition month_lengths (year : Z) : list Z :=
  if is_leap_year year then [31; 29; 31; 30; 31; 30; 31; 31; 30; 31; 30; 31]
  else [31; 28; 31; 30; 31; 30; 31; 31; 30; 31; 30; 31].

(** The two loops of [from_unix_secs], on an [i32] of days. *)
Definition year_walk (days : Z) : res (Z * Z) :=
  while_loop (λ '(days, year),
    let days_in_year := if is_leap_year year then 366 else 365 in
    if days_in_year <=? days then Ret (inl (days - days_in_year, year + 1))
    else Ret (inr (days, year))) 8388608 (days, UNIX_EPOCH_YEAR).

Fixpoint month_walk (lens : list Z) (days month : Z) : Z * Z :=
  match lens with
  | [] => (days, month)
  | len :: lens => if len <=? days then month_walk lens (days - len) (month + 1) else (days, month)
  end.

Definition from_unix_secs (unix_secs : Z) : res DateTime :=
  let second := unix_secs mod 60 in
  let minute := unix_secs mod 3600 / 60 in
  let hour := unix_secs mod 86400 / 3600 in
  let days := as_i32 ((unix_secs / 86400) mod U32) in
  '(days, year) ← year_walk days;
  let '(days, month) := month_walk (month_lengths year) days 1 in
  Ret (mkDateTime year month ((days + 1) mod U8) hour minute second).

(** ** Statistics *)

(** [Number::sqrt] on [u64]. *)
Definition isqrt (n : Z) : res Z :=
  if n =? 0 then Ret 0 else
  s ← add_chk U64 n 1;
  while_loop (λ '(x, y),
    if y <? x then
      let x := y in
      if x =? 0 then Crash Panic else
      t ← add_chk U64 (n / x) x; Ret (inl (x, t / 2))
    else Ret (inr x)) 18446744073709551616 (n, s / 2).

Fixpoint sum_chk (acc : Z) (values : list Z) : res Z :=
  match values with [] => Ret acc | v :: vs => a ← add_chk U64 acc v; sum_chk a vs end.

Definition average (values : list Z) : res Z :=
  match values with
  | [] => Ret 0
  | _ => sum ← sum_chk 0 values; Ret (sum / zlen values)
  end.

Fixpoint square_sum (avg acc : Z) (values : list Z) : res Z :=
  match values with
  | [] => Ret acc
  | x :: vs =>
      let diff := if avg <=? x then x - avg else avg - x in
      sq ← mul_chk U64 diff diff; a ← add_chk U64 acc sq; square_sum avg a vs
  end.

Definition std_dev (values : list Z) : res (option Z) :=
  if zlen values <? 2 then Ret None else
  avg ← average values;
  variance_sum ← square_sum avg 0 values;
  r ← isqrt (variance_sum / (zlen values - 1));
  Ret (Some r).

(** ** The system clock *)

Record SystemClock := mkClock {
  tsc_frequency : Z; lapic_frequency : Z; wall_clock_base_ns : Z; ns_per_tsc_shift : Z; ns_per_tsc_mult : Z
}.
#[global] Instance SystemClock_eta : Eta SystemClock :=
  λ c, mkClock (tsc_frequency c) (lapic_frequency c) (wall_clock_base_ns c) (ns_per_tsc_shift c) (ns_per_tsc_mult c).

(** [(tsc as u128 * mult as u128) >> shift) as u64] *)
Definition tsc_to_ns (c : SystemClock) (tsc : Z) : Z :=
  Z.shiftr (tsc * ns_per_tsc_mult c) (ns_per_tsc_shift c) mod U64.

Definition ns_to_apic_ticks (c : SystemClock) (ns : Z) : Z :=
  (ns * lapic_frequency c / 1000000000) mod U32.

Definition wall_clock_ns (c : SystemClock) (tsc : Z) : res Z :=
  add_chk U64 (tsc_to_ns c tsc) (wall_clock_base_ns c).

Definition current_unix_secs (c : SystemClock) (tsc : Z) : res Z :=
  w ← wall_clock_ns c tsc; Ret (w / 1000000000).

(** A clock source: whether it is present, its priority, and the three
    measurements after the one that warms it up. *)
Record source := mkSource { present : bool; priority : Z; samples : list Z }.

(** Presence, priority, mean and deviation. *)
Definition measure_source (s : source) : res (bool * Z * Z * Z) :=
  if present s then
    mean ← average (samples s);
    d ← std_dev (samples s);
    match d with Some d => Ret (true, priority s, mean, d) | None => Crash Panic end
  else Ret (false, priority s, 0, 0).

Fixpoint measure_sources (l : list source) : res (list (bool * Z * Z * Z)) :=
  match l with
  | [] => Ret []
  | s :: l => r ← measure_source s; rs ← measure_sources l; Ret (r :: rs)
  end.

(** [filter(present).min_by_key(priority)]: the first of the smallest. *)
Fixpoint min_by_priority (best : Z * Z) (l : list (bool * Z * Z * Z)) : Z * Z :=
  match l with
  | [] => best
  | (true, p, mean, _) :: l => min_by_priority (if p <? best.1 then (p, mean) else best) l
  | _ :: l => min_by_priority best l
  end.
Fixpoint best_source (l : list (bool * Z * Z * Z)) : res Z :=
  match l with
  | [] => Crash Panic
  | (true, p, mean, _) :: l => Ret (min_by_priority (p, mean) l).2
  | _ :: l => best_source l
  end.

(** What [new] does once a clock source has been chosen and the local APIC
    measured. *)
Definition calibrated (tsc_freq lapic_freq : Z) : res SystemClock :=
  if tsc_freq =? 0 then Crash Panic else
  n ← add_chk U64 (1000000000 * 4294967296) (tsc_freq / 2);
  Ret (mkClock tsc_freq lapic_freq 0 32 (n / tsc_freq)).

Definition calibrate_wall_clock (tsc : Z) (reg : Z → Z) (c : SystemClock) : res SystemClock :=
  '(tsc, unix_secs) ← get_unix_timestamp tsc reg;
  timestamp_ns ← mul_chk U64 unix_secs 1000000000;
  Ret (c <| wall_clock_base_ns := sat_sub timestamp_ns (tsc_to_ns c tsc) |>).

(** [SystemClock::new], given the sources and the measured APIC frequency. *)
Definition clock_new (sources : list source) (lapic_freq tsc : Z) (reg : Z → Z) : res SystemClock :=
  results ← measure_sources sources;
  tsc_freq ← best_source results;
  c ← calibrated tsc_freq lapic_freq;
  calibrate_wall_clock tsc reg c.

(** ** The calendar as it is

    Days from 1970-01-01 to a date of the Gregorian calendar. *)

Definition leaps_before (year : Z) : Z := (year - 1) / 4 - (year - 1) / 100 + (year - 1) / 400.
Definition days_before_year (year : Z) : Z := (year - 1970) * 365 + (leaps_before year - leaps_before 1970).
Definition days_before_month (year month : Z) : Z :=
  foldr Z.add 0 (ztake (month - 1) (month_lengths year)).
Definition month_length (year month : Z) : Z := default 0 (month_lengths year !! Z.to_nat (month - 1)).
Definition day_number (year month day : Z) : Z :=
  days_before_year year + days_before_month year month + (day - 1).
Definition unix_seconds (d : DateTime) : Z :=
  day_number (dt_year d) (dt_month d) (dt_day d) * 86400 + dt_hour d * 3600 + dt_minute d * 60 + dt_second d.

Record valid_date (d : DateTime) : Prop := {
  vd_year : 1970 ≤ dt_year d ≤ 5000000;
  vd_month : 1 ≤ dt_month d ≤ 12;
  vd_day : 1 ≤ dt_day d ≤ month_length (dt_year d) (dt_month d);
  vd_hour : 0 ≤ dt_hour d < 24;
  vd_minute : 0 ≤ dt_minute d < 60;
  vd_second : 0 ≤ dt_second d < 60
}.

Lemma year_length y : days_before_year (y + 1) = days_before_year y + (if is_leap_year y then 366 else 365).
Proof.
  unfold days_before_year, leaps_before, is_leap_year.
  destruct (Z.eqb_spec (y mod 4) 0), (Z.eqb_spec (y mod 100) 0), (Z.eqb_spec (y mod 400) 0); simpl; mlia.
Qed.

Lemma years_increase y y' : y ≤ y' → days_before_year y ≤ days_before_year y'.
Proof. intros. unfold days_before_year, leaps_before. mlia. Qed.

Lemma months_sum y : days_before_month y 13 = if is_leap_year y then 366 else 365.
Proof. unfold days_before_month, month_lengths. by destruct (is_leap_year y). Qed.

(** The loop over the years finds the year of a day. *)
Lemma year_walk_spec D y : days_before_year y ≤ D < days_before_year (y + 1) → 1970 ≤ y → D < 2 ^ 31 →
  year_walk D = Ret (D - days_before_year y, y).
Proof.
  intros HD Hy Hb.
  assert (returns (year_walk D) (λ '(d, y'), d = D - days_before_year y ∧ y' = y)) as ([d y'] & E & -> & ->); [|exact E].
  unfold year_walk.
  apply (while_loop_total _ (λ '(d, y'), 0 ≤ d ∧ d + days_before_year y' = D ∧ 1970 ≤ y' ≤ y) (λ '(_, y'), y - y')).
  - intros [d y'] (Hd & Hs & Hy') _. pose proof (year_length y') as Hl. cbv zeta.
    destruct (Z.leb_spec (if is_leap_year y' then 366 else 365) d); apply returns_ret.
    + assert (y' + 1 ≤ y).
      { destruct (Z.le_gt_cases (y' + 1) y) as [|Hgt]; [done|]. pose proof (years_increase (y + 1) (y' + 1)). lia. }
      split; [|lia]. lia.
    + destruct (Z.le_gt_cases (y' + 1) y) as [Hle|Hgt]; [|assert (y' = y) as -> by lia; lia].
      pose proof (years_increase _ _ Hle). lia.
  - change (days_before_year UNIX_EPOCH_YEAR) with 0. unfold UNIX_EPOCH_YEAR.
    pose proof (years_increase 1970 y Hy). change (days_before_year 1970) with 0 in *. lia.
  - unfold UNIX_EPOCH_YEAR. unfold days_before_year, leaps_before in HD. mlia.
Qed.

(** The loop over the months finds the month of a day of the year. *)
Lemma month_walk_skip lens j e m len : lens !! j = Some len → 0 ≤ e < len → Forall (λ l, 0 ≤ l) lens →
  month_walk lens (foldr Z.add 0 (take j lens) + e) m = (e, m + Z.of_nat j).
Proof.
  intros Hj He Hf. revert j m Hj. induction Hf as [|l lens Hl Hf IH]; intros j m Hj; [done|].
  destruct j as [|j]; simpl in *.
  - injection Hj as ->. destruct (Z.leb_spec len (0 + e)); [lia|]. f_equal; lia.
  - assert (Hs : 0 ≤ foldr Z.add 0 (take j lens)).
    { clear -Hf. revert j. induction Hf as [|l' lens' ? ? IH']; intros [|j]; simpl in *; try lia. specialize (IH' j). lia. }
    simpl in Hl. destruct (Z.leb_spec l (l + foldr Z.add 0 (take j lens) + e)); [|lia].
    replace (l + foldr Z.add 0 (take j lens) + e - l) with (foldr Z.add 0 (take j lens) + e) by lia.
    rewrite (IH j (m + 1) Hj). f_equal; lia.
Qed.

Lemma month_lengths_len y : length (month_lengths y) = 12%nat.
Proof. unfold month_lengths. by destruct (is_leap_year y). Qed.

Lemma month_lengths_pos y : Forall (λ l, 28 ≤ l ≤ 31) (month_lengths y).
Proof. unfold month_lengths. destruct (is_leap_year y); repeat constructor; lia. Qed.

Lemma month_length_range y m : 1 ≤ m ≤ 12 →
  month_lengths y !! Z.to_nat (m - 1) = Some (month_length y m) ∧ 28 ≤ month_length y m ≤ 31.
Proof.
  intros Hm. unfold month_length.
  destruct (lookup_lt_is_Some_2 (month_lengths y) (Z.to_nat (m - 1))) as [l Hl]; [rewrite month_lengths_len; lia|].
  rewrite Hl. split; [done|]. pose proof (month_lengths_pos y) as Hf. rewrite Forall_lookup in Hf. by apply Hf in Hl.
Qed.

Lemma month_walk_spec y m d : 1 ≤ m ≤ 12 → 1 ≤ d ≤ month_length y m →
  month_walk (month_lengths y) (days_before_month y m + (d - 1)) 1 = (d - 1, m).
Proof.
  intros Hm Hd. destruct (month_length_range y m Hm) as [Hl _].
  unfold days_before_month, ztake. rewrite (month_walk_skip _ _ (d - 1) 1 _ Hl); [f_equal; lia|lia|].
  eapply Forall_impl; [apply month_lengths_pos|]. simpl. lia.
Qed.

Lemma month_within_year y m d : 1 ≤ m ≤ 12 → 1 ≤ d ≤ month_length y m →
  0 ≤ days_before_month y m + (d - 1) < if is_leap_year y then 366 else 365.
Proof.
  intros Hm Hd. destruct (month_length_range y m Hm) as [Hl _].
  rewrite <- months_sum. unfold days_before_month, ztake.
  rewrite (take_ge (month_lengths y) (Z.to_nat (13 - 1))) by (rewrite month_lengths_len; lia).
  pose proof (month_lengths_pos y) as Hf. revert Hl Hf. generalize (month_lengths y). intros lens Hl Hf.
  assert (H0 : ∀ l, Forall (λ l, 28 ≤ l ≤ 31) l → 0 ≤ foldr Z.add 0 l) by (induction 1; simpl; lia).
  pose proof (H0 _ (Forall_take (λ l, 28 ≤ l ≤ 31) (Z.to_nat (m - 1)) lens Hf)).
  pose proof (H0 _ (Forall_drop (λ l, 28 ≤ l ≤ 31) (S (Z.to_nat (m - 1))) lens Hf)).
  assert (Ha : ∀ l z, foldr Z.add z l = foldr Z.add 0 l + z) by (induction l; intros; simpl; [lia|rewrite IHl; lia]).
  pose proof (f_equal (foldr Z.add 0) (take_drop_middle _ _ _ Hl)) as Es. rewrite foldr_app, Ha in Es. simpl in Es. lia.
Qed.

(** ** Dates and timestamps *)

Lemma day_number_year d : valid_date d →
  days_before_year (dt_year d) ≤ day_number (dt_year d) (dt_month d) (dt_day d) < days_before_year (dt_year d + 1).
Proof.
  intros [Hy Hm Hd _ _ _]. rewrite year_length. unfold day_number.
  pose proof (month_within_year (dt_year d) (dt_month d) (dt_day d) Hm Hd). lia.
Qed.

Lemma from_unix_secs_spec d : valid_date d → from_unix_secs (unix_seconds d) = Ret d.
Proof.
  intros Hv. pose proof (day_number_year d Hv) as Hdn. pose proof Hv as [Hy Hm Hd Hh Hmi Hs].
  set (D := day_number (dt_year d) (dt_month d) (dt_day d)) in *.
  assert (HD : 0 ≤ D < 2 ^ 31).
  { pose proof (years_increase 1970 (dt_year d)). change (days_before_year 1970) with 0 in *.
    assert (days_before_year (dt_year d + 1) ≤ 2 ^ 31) by (unfold days_before_year, leaps_before; mlia). lia. }
  unfold from_unix_secs, unix_seconds. fold D.
  set (sod := dt_hour d * 3600 + dt_minute d * 60 + dt_second d).
  replace (D * 86400 + dt_hour d * 3600 + dt_minute d * 60 + dt_second d) with (D * 86400 + sod) by (unfold sod; lia).
  assert (Hsod : 0 ≤ sod < 86400) by (unfold sod; lia).
  assert (E1 : (D * 86400 + sod) / 86400 = D) by mlia. rewrite E1.
  assert (E2 : as_i32 (D mod U32) = D).
  { rewrite Z.mod_small by lia. unfold as_i32. destruct (Z.ltb_spec D I32); lia. }
  rewrite E2, (year_walk_spec D (dt_year d) Hdn), ret_bind by lia.
  replace (D - days_before_year (dt_year d)) with (days_before_month (dt_year d) (dt_month d) + (dt_day d - 1))
    by (unfold D, day_number; lia).
  rewrite (month_walk_spec _ _ _ Hm Hd). destruct (month_length_range (dt_year d) _ Hm) as [_ Hml].
  destruct d as [y m da h mi se]; simpl in *. f_equal. f_equal; unfold sod; clear -Hd Hml Hh Hmi Hs; mlia.
Qed.

Lemma gregorian_year D n : 0 ≤ D < days_before_year (1970 + Z.of_nat n) →
  ∃ y, 1970 ≤ y < 1970 + Z.of_nat n ∧ days_before_year y ≤ D < days_before_year (y + 1).
Proof.
  induction n as [|n IH]; intros HD; [change (days_before_year (1970 + Z.of_nat 0)) with 0 in HD; lia|].
  destruct (Z.le_gt_cases (days_before_year (1970 + Z.of_nat n)) D) as [Hle|Hgt].
  - exists (1970 + Z.of_nat n). split; [lia|]. split; [done|].
    replace (1970 + Z.of_nat n + 1) with (1970 + Z.of_nat (S n)) by lia. lia.
  - destruct IH as (y & ? & ?); [lia|]. exists y. split; [lia|done].
Qed.

Lemma gregorian_month lens e : 0 ≤ e < foldr Z.add 0 lens → Forall (λ l, 0 ≤ l) lens →
  ∃ j len, lens !! j = Some len ∧ foldr Z.add 0 (take j lens) ≤ e < foldr Z.add 0 (take j lens) + len.
Proof.
  intros He Hf. revert e He. induction Hf as [|l lens Hl Hf IH]; intros e He; simpl in *; [lia|].
  destruct (Z.lt_ge_cases e l) as [Hlt|Hge].
  - exists 0%nat, l. simpl. split; [done|lia].
  - destruct (IH (e - l)) as (j & len & Hj & Hr); [lia|]. exists (S j), len. simpl. split; [done|lia].
Qed.

Lemma date_of_day D : 0 ≤ D < days_before_year 4500000 →
  ∃ y m d, 1970 ≤ y < 4500000 ∧ 1 ≤ m ≤ 12 ∧ 1 ≤ d ≤ month_length y m ∧ D = day_number y m d.
Proof.
  intros HD. destruct (gregorian_year D (Z.to_nat (4500000 - 1970))) as (y & Hy & HDy).
  { replace (1970 + Z.of_nat (Z.to_nat (4500000 - 1970))) with 4500000 by lia. done. }
  rewrite year_length in HDy.
  destruct (gregorian_month (month_lengths y) (D - days_before_year y)) as (j & len & Hj & Hr).
  - assert (Es : foldr Z.add 0 (month_lengths y) = if is_leap_year y then 366 else 365)
      by (unfold month_lengths; destruct (is_leap_year y); reflexivity). rewrite Es. lia.
  - eapply Forall_impl; [apply month_lengths_pos|]. simpl. lia.
  - pose proof (lookup_lt_Some _ _ _ Hj) as Hlt. rewrite month_lengths_len in Hlt.
    exists y, (Z.of_nat j + 1), (D - days_before_year y - foldr Z.add 0 (take j (month_lengths y)) + 1).
    replace (Z.to_nat (Z.of_nat j + 1 - 1)) with j in * by lia.
    unfold month_length, day_number, days_before_month, ztake. replace (Z.to_nat (Z.of_nat j + 1 - 1)) with j by lia.
    rewrite Hj. simpl. lia.
Qed.

(** A Unix timestamp is decoded to its Gregorian date and time of day:
    for four million years the two loops end, and the result is a date of
    the calendar whose distance from the epoch is the timestamp. *)
Theorem timestamp_decodes_to_date s : 0 ≤ s < 2 ^ 47 →
  returns (from_unix_secs s) (λ d, valid_date d ∧ unix_seconds d = s).
Proof.
  intros Hs. destruct (date_of_day (s / 86400)) as (y & m & da & Hy & Hm & Hd & HD).
  { change (days_before_year 4500000) with 1642871722. mlia. }
  set (d := mkDateTime y m da (s mod 86400 / 3600) (s mod 3600 / 60) (s mod 60)).
  assert (Hv : valid_date d) by (split; simpl; try done; mlia).
  assert (Hu : unix_seconds d = s) by (unfold unix_seconds; simpl; rewrite <- HD; mlia).
  exists d. split; [|done]. rewrite <- Hu at 1. by apply from_unix_secs_spec.
Qed.

Lemma timestamp_decodes_to_date_witness :
  returns (from_unix_secs 1704067199) (λ d, unix_seconds d = 1704067199 ∧ d = mkDateTime 2023 12 31 23 59 59).
Proof.
  destruct (timestamp_decodes_to_date 1704067199) as (d & E & _ & Hu); [lia|].
  exists d. split; [exact E|]. split; [exact Hu|]. vm_compute in E. congruence.
Defined.

Lemma before_month_table y m : 1 ≤ m ≤ 12 →
  ∃ before, index DAYS_BEFORE_MONTH m = Ret before ∧
    days_before_month y m = before + (if (2 <? m) && is_leap_year y then 1 else 0).
Proof.
  intros Hm.
  assert (Hall : Forall (λ m, ∀ leap, ∃ before, index DAYS_BEFORE_MONTH m = Ret before ∧
    foldr Z.add 0 (ztake (m - 1) (if leap : bool then [31; 29; 31; 30; 31; 30; 31; 31; 30; 31; 30; 31]
                                  else [31; 28; 31; 30; 31; 30; 31; 31; 30; 31; 30; 31]))
    = before + (if (2 <? m) && leap then 1 else 0)) (seqZ 1 12)).
  { change (seqZ 1 12) with [1; 2; 3; 4; 5; 6; 7; 8; 9; 10; 11; 12].
    repeat (apply Forall_cons; split); try apply Forall_nil_2; intros []; eexists; (split; [reflexivity|reflexivity]). }
  rewrite Forall_forall in Hall. apply (Hall m); [apply elem_of_seqZ; lia].
Qed.

(** The timestamp computed from the real-time clock is that of its date
    and time in common years; in leap years it is one day ahead, from the
    first of January on, because the leap day of the year itself is counted
    among those of the years before it. *)
Theorem rtc_timestamp d : valid_date d →
  to_unix_timestamp (mkRtc (dt_second d) (dt_minute d) (dt_hour d) (dt_day d) (dt_month d) (dt_year d))
  = Ret (unix_seconds d + if is_leap_year (dt_year d) then 86400 else 0).
Proof.
  intros Hv. pose proof (day_number_year d Hv) as Hdn. pose proof Hv as [Hy Hm Hd Hh Hmi Hs].
  destruct (before_month_table (dt_year d) (dt_month d) Hm) as (before & Eb & Hb).
  unfold to_unix_timestamp. simpl. rewrite Eb, ret_bind.
  assert (Hleap : leap_days_since_epoch (dt_year d) =
    leaps_before (dt_year d) - leaps_before 1970 + (if is_leap_year (dt_year d) then 1 else 0)).
  { unfold leap_days_since_epoch, leaps_before, is_leap_year, UNIX_EPOCH_YEAR.
    destruct (Z.eqb_spec (dt_year d mod 4) 0), (Z.eqb_spec (dt_year d mod 100) 0), (Z.eqb_spec (dt_year d mod 400) 0);
      simpl; mlia. }
  f_equal. rewrite Hleap. unfold UNIX_EPOCH_YEAR, SECONDS_PER_DAY, SECONDS_PER_HOUR.
  assert (Hdays : 0 ≤ day_number (dt_year d) (dt_month d) (dt_day d) ≤ 2 ^ 31).
  { pose proof (years_increase 1970 (dt_year d)). change (days_before_year 1970) with 0 in *.
    assert (days_before_year (dt_year d + 1) ≤ 2 ^ 31) by (unfold days_before_year, leaps_before; mlia). lia. }
  unfold unix_seconds. rewrite Z.mod_small; unfold day_number, days_before_year in *; rewrite Hb in *;
    destruct (is_leap_year (dt_year d)), (2 <? dt_month d); simpl in *; lia.
Qed.

Lemma rtc_timestamp_witness :
  from_unix_secs 1704067200 = Ret (mkDateTime 2024 1 1 0 0 0) ∧
  to_unix_timestamp (mkRtc 0 0 0 1 1 2024) = Ret (1704067200 + 86400).
Proof.
  split; [vm_compute; reflexivity|]. refine (eq_trans (rtc_timestamp (mkDateTime 2024 1 1 0 0 0) _) _); [|vm_compute; reflexivity].
  split; vm_compute; intuition discriminate.
Defined.

(** ** Statistics and conversions *)

Lemma newton_above n x : 0 < n → 0 < x → Z.sqrt n ≤ (n / x + x) / 2.
Proof.
  intros Hn Hx. set (r := Z.sqrt n).
  assert (Hr : r * r ≤ n) by apply (Z.sqrt_spec n ltac:(lia)).
  apply Z.div_le_lower_bound; [lia|].
  assert (2 * r - x ≤ n / x); [|lia]. apply Z.div_le_lower_bound; [lia|].
  replace (x * (2 * r - x)) with (r * r - (r - x) * (r - x)) by ring.
  pose proof (Z.square_nonneg (r - x)). lia.
Qed.

(** The integer square root of the calibration is exact: for every
    64-bit number below the largest, Newton's iteration ends with the root
    rounded down, without overflow. *)
Theorem isqrt_is_floor_sqrt n : 0 ≤ n < U64 - 1 → isqrt n = Ret (Z.sqrt n).
Proof.
  intros Hn. unfold isqrt. destruct (Z.eqb_spec n 0) as [->|H0]; [done|].
  rewrite add_chk_ret, ret_bind by lia.
  assert (returns (while_loop (λ '(x, y), if y <? x then let x := y in if x =? 0 then Crash Panic else
      t ← add_chk U64 (n / x) x; Ret (inl (x, t / 2)) else Ret (inr x)) 18446744073709551616 (n, (n + 1) / 2))
    (λ x, x = Z.sqrt n)) as (x & E & ->); [|exact E].
  pose proof (Z.sqrt_spec n ltac:(lia)) as Hr. cbv zeta in Hr. pose proof (Z.sqrt_nonneg n).
  assert (Hr1 : 1 ≤ Z.sqrt n) by (destruct (Z.le_gt_cases 1 (Z.sqrt n)); [done|]; assert (Z.sqrt n = 0) as E by lia; rewrite E in Hr; lia).
  apply (while_loop_total _ (λ '(x, y), Z.sqrt n ≤ x ≤ n ∧ Z.sqrt n ≤ y ∧ y = (n / x + x) / 2) (λ '(x, _), x)).
  - intros [x y] (Hx & Hy & Ey) _. destruct (Z.ltb_spec y x) as [Hlt|Hge].
    + cbv zeta. destruct (Z.eqb_spec y 0); [lia|].
      assert (Hs : n / y + y ≤ n + 1).
      { assert (n / y ≤ n + 1 - y); [|lia]. apply Z.div_le_upper_bound; [lia|]. nia. }
      assert (0 ≤ n / y) by (apply Z.div_pos; lia).
      rewrite add_chk_ret, ret_bind by lia. apply returns_ret. split; [|lia]. split; [lia|]. split; [|done].
      apply newton_above; lia.
    + apply returns_ret. assert (Hxx : x ≤ n / x) by (subst y; mlia).
      assert (x * x ≤ n) by (pose proof (Z.mul_div_le n x); nia).
      assert (x < Z.sqrt n + 1) by nia. lia.
  - split; [nia|]. rewrite Z.div_same by lia. split; [|f_equal; lia]. pose proof (newton_above n n ltac:(lia) ltac:(lia)) as Hn'.
    rewrite Z.div_same in Hn' by lia. replace (n + 1) with (1 + n) by lia. done.
  - lia.
Qed.

Lemma isqrt_is_floor_sqrt_witness : isqrt 999999 = Ret (Z.sqrt 999999) ∧ Z.sqrt 999999 = 999.
Proof. split; [apply isqrt_is_floor_sqrt; lia|reflexivity]. Defined.

(** The conversion of the time stamp counter is accurate: with the
    multiplier that the calibration computes from the frequency, and for 292
    years of counting, the nanoseconds differ from the exact quotient by less
    than one plus the count divided by 2^33; and a later count never gives an
    earlier time. *)
Theorem tsc_conversion_accurate f l tsc tsc' :
  0 < f < U64 → 0 ≤ tsc' ≤ tsc → tsc < U64 → tsc * 1000000000 ≤ f * 2 ^ 63 →
  returns (calibrated f l) (λ c,
    2 ^ 33 * Z.abs (f * tsc_to_ns c tsc - tsc * 1000000000) ≤ f * (tsc + 2 ^ 33) ∧
    tsc_to_ns c tsc' ≤ tsc_to_ns c tsc).
Proof.
  intros Hf Ht Hu Hb. unfold calibrated. destruct (Z.eqb_spec f 0); [lia|].
  rewrite add_chk_ret, ret_bind by mlia. apply returns_ret. unfold tsc_to_ns. simpl ns_per_tsc_mult. simpl ns_per_tsc_shift.
  set (m := (1000000000 * 4294967296 + f / 2) / f).
  assert (Hm : 2 * Z.abs (f * m - 1000000000 * 4294967296) ≤ f ∧ 0 ≤ m).
  { unfold m. split; [|apply Z.div_pos; mlia].
    pose proof (Z.div_mod (1000000000 * 4294967296 + f / 2) f ltac:(lia)).
    pose proof (Z.mod_pos_bound (1000000000 * 4294967296 + f / 2) f ltac:(lia)). mlia. }
  rewrite !Z.shiftr_div_pow2 by lia. change (2 ^ 32) with 4294967296.
  pose proof (Z.div_mod (tsc * m) 4294967296 ltac:(lia)) as Hq.
  pose proof (Z.mod_pos_bound (tsc * m) 4294967296 ltac:(lia)) as Hr.
  assert (Hle : tsc' * m / 4294967296 ≤ tsc * m / 4294967296) by (apply Z.div_le_mono; nia).
  assert (0 ≤ tsc' * m / 4294967296) by (apply Z.div_pos; nia).
  set (ns := tsc * m / 4294967296) in *.
  assert (Hfm : 2 * Z.abs (tsc * (f * m) - tsc * (1000000000 * 4294967296)) ≤ tsc * f) by nia.
  assert (Hacc : 2 ^ 33 * Z.abs (f * ns - tsc * 1000000000) ≤ f * (tsc + 2 ^ 33)).
  { assert (f * (tsc * m) = f * (4294967296 * ns + (tsc * m) mod 4294967296)) by congruence.
    assert (0 ≤ f * ((tsc * m) mod 4294967296) ≤ f * 4294967296) by nia. nia. }
  assert (ns < U64).
  { assert (f * ns ≤ tsc * 1000000000 + f * (2 ^ 31 + 1)); [|nia].
    assert (f * (tsc + 2 ^ 33) ≤ f * (2 ^ 64 + 2 ^ 33)) by nia. lia. }
  rewrite !Z.mod_small by lia. done.
Qed.

Lemma tsc_conversion_accurate_witness :
  returns (calibrated 2999999999 25000000) (λ c, tsc_to_ns c 0 ≤ tsc_to_ns c 2999999999 ∧
    tsc_to_ns c 2999999999 = 1000000000).
Proof.
  destruct (tsc_conversion_accurate 2999999999 25000000 2999999999 0) as (c & E & _ & Hm); [lia..|].
  exists c. split; [exact E|]. split; [exact Hm|]. vm_compute in E. injection E as <-. vm_compute. reflexivity.
Defined.
