(* ===== verification/HrTimer.v ===== *)
(** * The timer queue

    [kernel/src/subsystem/clock/timer.rs]: a queue of timers ordered by
    expiry and registration, kept in a red-black tree, and the loop of the
    timer interrupt that drains it ([kernel/src/driver/apic/local_apic.rs]).
    Callbacks are opaque.  The reading of the clock is an argument; what is
    written to the initial count of the local APIC, and what the interrupt calls
    (callbacks, [set_status], the scheduler), are results. *)

From stdpp Require Import sorting.
From S2P Require Import Prelude Time Clock RbTree RbShape RbInsert RbRemove RbMap.

Section Data.
Context {Callback : Type}.

Inductive TimerAction :=
| ExecuteCallback (function : Callback)
| Reschedule
| WakeUp (process_id thread_id : Z).

Record Timer := mkTimer {
  expires_at : Z; is_periodic : bool; interval : option Duration; action : TimerAction
}.

(** What the timer interrupt calls. *)
Inductive effect :=
| Calls (function : Callback)
| SetRunning (process_id thread_id : Z)
| RunsScheduler.
End Data.
Arguments TimerAction : clear implicits.
Arguments Timer : clear implicits.
Arguments effect : clear implicits.

(** The processes of the kernel, each with its threads, by their ids. *)
Abbreviation Processes := (list (Z * list Z)).

(** The sort key: expiry first, then registration. *)
Record TimerQueueKey := mkKey { k_expires_at : Z; k_order : Z }.

#[global] Instance TimerQueueKey_ord : Ord TimerQueueKey := λ a b,
  match k_expires_at a ?= k_expires_at b with
  | Eq => k_order a ?= k_order b
  | c => c
  end.

#[global] Instance TimerQueueKey_laws : OrdLaws TimerQueueKey.
Proof.
  split; unfold cmp, TimerQueueKey_ord.
  - intros [e1 o1] [e2 o2]; simpl. destruct (Z.compare_spec e1 e2) as [->| |]; [|split; [done|intros [=]; lia]..].
    rewrite Z.compare_eq_iff. split; [by intros ->|by intros [= ->]].
  - intros [e1 o1] [e2 o2]; simpl. rewrite (Z.compare_antisym e1 e2), (Z.compare_antisym o1 o2).
    by destruct (e1 ?= e2).
  - intros [e1 o1] [e2 o2] [e3 o3]; simpl.
    destruct (Z.compare_spec e1 e2), (Z.compare_spec e2 e3), (Z.compare_spec e1 e3); try done; try lia;
      rewrite !Z.compare_lt_iff; lia.
Qed.

Record HrTimer (A I : Type) := mkHr { queue : RedBlackTree A I; next_order : Z }.
Arguments mkHr {A I}. Arguments queue {A I}. Arguments next_order {A I}.
#[global] Instance HrTimer_eta {A I} : Eta (HrTimer A I) := λ h, mkHr (queue h) (next_order h).

Section Timers.
Context {Callback I A : Type} `{EqDecision I} `{Arena I (Node TimerQueueKey (Timer Callback) I) A}.
#[local] Abbreviation timer := (Timer Callback).
#[local] Abbreviation hr := (HrTimer A I).
Implicit Types (h : hr).

Definition hr_new : hr := mkHr new 0.

Definition next_expiry h : res (option Z) := 
  k ← tree_min (K := TimerQueueKey) (V := timer) (queue h); Ret (fmap (M := option) k_expires_at k).

Definition insert_timer (expires : Z) (periodic : bool) (itv : option Duration) (act : TimerAction Callback) h
  : res (I * hr) :=
  let key := mkKey expires (next_order h) in
  let h := h <| next_order := (next_order h + 1) mod U64 |> in
  '(i, q) ← insert key (mkTimer expires periodic itv act) (queue h);
  Ret (i, h <| queue := q |>).

(** Returns the handle and what is written to the timer of the local APIC. *)
Definition add_timer (c : SystemClock) (now : Z) (expires : Z) (periodic : bool) (itv : option Duration)
    (act : TimerAction Callback) h : res (I * option Z * hr) :=
  rassert (negb periodic || bool_decide (is_Some itv));;
  next ← next_expiry h;
  program ← (if match next with Some n => n <? expires | None => true end then
               diff ← sub_chk U64 expires now; Ret (Some (ns_to_apic_ticks c diff))
             else Ret None);
  '(i, h) ← insert_timer expires periodic itv act h;
  Ret (i, program, h).

Definition find_first_key_at_expiry (expires : Z) h : res (option TimerQueueKey) :=
  ks ← for_each_in_order (K := TimerQueueKey) (V := timer) (queue h);
  Ret (find (λ k, k_expires_at k =? expires) ks.*1).

Definition remove_key (o : option TimerQueueKey) h : res (bool * hr) :=
  match o with
  | None => Ret (false, h)
  | Some k => '(r, q) ← remove (V := timer) k (queue h); Ret (bool_decide (is_Some r), h <| queue := q |>)
  end.

Definition remove_timer (expires : Z) h : res (bool * hr) :=
  o ← find_first_key_at_expiry expires h; remove_key o h.

Definition queue_key_of h (handle : I) : option TimerQueueKey := 
  key <$> arena_get (K := TimerQueueKey) (V := timer) (queue h) handle.

Definition cancel (handle : I) h : res (bool * hr) := remove_key (queue_key_of h handle) h.

Definition find_timer (expires : Z) h : res (option timer) :=
  o ← find_first_key_at_expiry expires h;
  match o with None => Ret None | Some k => tree_get (queue h) k end.

Definition earliest_expired_key (now : Z) h : res (option TimerQueueKey) :=
  k ← tree_min (K := TimerQueueKey) (V := timer) (queue h);
  Ret (match k with Some k => if k_expires_at k <=? now then Some k else None | None => None end).

Definition reinsert_periodic (fired : timer) h : res hr :=
  if is_periodic fired then
    match interval fired with
    | None => Crash Panic
    | Some itv =>
        '(_, h) ← insert_timer (sat_add U64 (expires_at fired) (as_nanos itv)) (is_periodic fired)
                    (interval fired) (action fired) h;
        Ret h
    end
  else Ret h.

Definition poll_expired (now : Z) h : res (option timer * hr) :=
  o ← earliest_expired_key now h;
  match o with
  | None => Ret (None, h)
  | Some k =>
      '(r, q) ← remove (V := timer) k (queue h);
      let h := h <| queue := q |> in
      match r with
      | None => Ret (None, h)
      | Some t => h ← reinsert_periodic t h; Ret (Some t, h)
      end
  end.

(** The timers the loop of [timer_interrupt_handler] takes from the queue, in
    order. *)
Definition drain_expired (bound : positive) (now : Z) h : res (list timer * hr) :=
  while_loop (λ '(fired, h),
    '(r, h) ← poll_expired now h;
    Ret (match r with
         | Some t => inl (fired ++ [t], h)
         | None => inr (fired, h)
         end)) bound ([], h).

(** The rest of the handler: the next deadline, read at [now']. *)
Definition rearm (c : SystemClock) (now' : Z) h : res Z :=
  n ← next_expiry h;
  match n with
  | None => Crash Panic
  | Some next => Ret (ns_to_apic_ticks c (Z.max (sat_sub next now') 1))
  end.

(** The body of the loop: [need_reschedule] and what was called so far. *)
Definition dispatch (processes : Processes) (t : timer) (s : bool * list (effect Callback)) : res (bool * list (effect Callback)) :=
  match action t with
  | ExecuteCallback function => Ret (s.1, s.2 ++ [Calls function])
  | Reschedule => Ret (true, s.2)
  | WakeUp process_id thread_id =>
      match find (λ p, p.1 =? process_id) processes with
      | None => Crash Panic
      | Some p =>
          match find (λ t, t =? thread_id) p.2 with
          | None => Crash Panic
          | Some _ => Ret (s.1, s.2 ++ [SetRunning process_id thread_id])
          end
      end
  end.

Definition expire_timers (bound : positive) (processes : Processes) (now : Z) h : res (hr * (bool * list (effect Callback))) :=
  while_loop (λ '(h, s),
    '(r, h) ← poll_expired now h;
    match r with
    | Some t => s ← dispatch processes t s; Ret (inl (h, s))
    | None => Ret (inr (h, s))
    end) bound (h, (false, [])).

(** The handler, with its two readings of the clock; the last result is the
    count the timer is armed with. *)
Definition timer_interrupt_handler (bound : positive) (processes : Processes) (c : SystemClock) (now now' : Z) h
  : res (hr * list (effect Callback) * Z) :=
  '(h, (need_reschedule, done)) ← expire_timers bound processes now h;
  let done := if (need_reschedule : bool) then done ++ [RunsScheduler] else done in
  ticks ← rearm c now' h;
  Ret (h, done, ticks).
End Timers.

(** ** The queue as an ordered list *)

(** Two loops in lock step. *)
Lemma while_loop_sim {S1 R1 S2 R2} (b1 : S1 → res (S1 + R1)) (b2 : S2 → res (S2 + R2)) (I : S1 → S2 → Prop) (J : R1 → R2 → Prop) :
  (∀ s1 s2 s1', I s1 s2 → b1 s1 = Ret (inl s1') → ∃ s2', b2 s2 = Ret (inl s2') ∧ I s1' s2') →
  (∀ s1 s2 r1, I s1 s2 → b1 s1 = Ret (inr r1) → ∃ r2, b2 s2 = Ret (inr r2) ∧ J r1 r2) →
  ∀ p s1 s2 r1, while_loop b1 p s1 = Ret r1 → I s1 s2 → ∃ r2, while_loop b2 p s2 = Ret r2 ∧ J r1 r2.
Proof.
  intros Hstep Hexit. assert (Hit : ∀ p s1 s2 x1, iterate b1 p s1 = Ret x1 → I s1 s2 →
    ∃ x2, iterate b2 p s2 = Ret x2 ∧ match x1, x2 with inl s, inl s' => I s s' | inr r, inr r' => J r r' | _, _ => False end).
  { assert (H1 : ∀ s1 s2 x1, b1 s1 = Ret x1 → I s1 s2 → ∃ x2, b2 s2 = Ret x2 ∧
      match x1, x2 with inl s, inl s' => I s s' | inr r, inr r' => J r r' | _, _ => False end).
    { intros s1 s2 [s|r] E Hi; [destruct (Hstep _ _ _ Hi E) as (x & ? & ?); by exists (inl x)|destruct (Hexit _ _ _ Hi E) as (x & ? & ?); by exists (inr x)]. }
    induction p as [p IH|p IH|]; intros s1 s2 x1 E Hi; simpl in *; [| |by apply (H1 s1)].
    - destruct (b1 s1) as [y1|] eqn:E1; [|done]. destruct (H1 _ _ _ E1 Hi) as (y2 & -> & Hy).
      destruct y1 as [y1|y1], y2 as [y2|y2]; try done; [|injection E as <-; by exists (inr y2)].
      destruct (iterate b1 p y1) as [z1|] eqn:E2; [|done]. destruct (IH _ _ _ E2 Hy) as (z2 & -> & Hz).
      destruct z1 as [z1|z1], z2 as [z2|z2]; try done; [by apply (IH z1)|injection E as <-; by exists (inr z2)].
    - destruct (iterate b1 p s1) as [z1|] eqn:E2; [|done]. destruct (IH _ _ _ E2 Hi) as (z2 & -> & Hz).
      destruct z1 as [z1|z1], z2 as [z2|z2]; try done; [by apply (IH z1)|injection E as <-; by exists (inr z2)]. }
  unfold while_loop. intros p s1 s2 r1 E Hi. destruct (iterate b1 p s1) as [x1|] eqn:E1; [|done].
  destruct (Hit _ _ _ _ E1 Hi) as (x2 & -> & Hx). destruct x1, x2; try done. injection E as <-. by eexists.
Qed.

Section Queue.
Context {Callback I A : Type} `{EqDecision I} `{ArenaLaws I (Node TimerQueueKey (Timer Callback) I) A}.
#[local] Abbreviation timer := (Timer Callback).
#[local] Abbreviation hr := (HrTimer A I).
#[local] Abbreviation tree := (tree TimerQueueKey timer I).
Implicit Types (h : hr) (t : tree) (D : I → Prop) (tm : timer) (L : list (TimerQueueKey * (I * timer))).

(** A timer the source can have built. *)
Definition timer_ok tm : Prop :=
  u64 (expires_at tm) ∧ (is_periodic tm = true → ∃ itv, interval tm = Some itv ∧ 0 ≤ itv).

Definition entry_ok (order : Z) (e : TimerQueueKey * (I * timer)) : Prop :=
  k_expires_at e.1 = expires_at e.2.2 ∧ 0 ≤ k_order e.1 < order ∧ timer_ok e.2.2.

Record hr_ok D h t : Prop := {
  hr_tree : tree_ok D (queue h) t;
  hr_size : Z.of_nat (size t) + 1 < U64;
  hr_order : 0 ≤ next_order h;
  hr_entries : Forall (entry_ok (next_order h)) (inorder t)
}.

(** The timers of the queue, soonest first. *)
Definition timers t : list timer := (λ e, e.2.2) <$> inorder t.

Lemma key_fresh order e L : Forall (entry_ok order) L → lookup_key (mkKey e order) L = None.
Proof.
  induction 1 as [|[[ke ko] w] L (_ & Ho & _) _ IH]; simpl in *; [done|].
  destruct (cmp (mkKey e order) (mkKey ke ko)) eqn:Ec; [|done..].
  apply cmp_eq in Ec. injection Ec as -> ->. lia.
Qed.

Lemma ins_perm k (w : I * timer) L : lookup_key k L = None → ins k w L ≡ₚ (k, w) :: L.
Proof.
  induction L as [|[k' w'] L IH]; simpl; [done|]. destruct (cmp k k'); [done|done|]. intros Hl. rewrite IH by done. solve_perm.
Qed.

Lemma insert_timer_spec D h t e p itv act : hr_ok D h t → timer_ok (mkTimer e p itv act) → next_order h + 1 < U64 →
  Z.of_nat (size t) + 2 < U64 →
  returns (insert_timer e p itv act h) (λ '(i, h'), ∃ t', hr_ok D h' t' ∧ next_order h' = next_order h + 1 ∧
    inorder t' = ins (mkKey e (next_order h)) (i, mkTimer e p itv act) (inorder t) ∧
    timers t' ≡ₚ mkTimer e p itv act :: timers t ∧ ¬ D i).
Proof.
  intros [Htr Hsz Ho He] Htm Hn Hsz2. unfold insert_timer. cbv zeta. rsimp.
  eapply returns_bind; [apply (insert_spec D (queue h) t (mkKey e (next_order h))); [exact Htr|lia]|].
  intros [i q] (t' & Htr' & Hi & Hl & _). apply returns_ret. exists t'.
  pose proof (key_fresh _ e _ He) as Hk. rewrite Hk in Hl. pose proof (ins_perm _ (i, mkTimer e p itv act) _ Hk) as Hp.
  rewrite Z.mod_small by lia. split; [|split; [by rsimp|split; [done|split; [|tauto]]]].
  - split; rsimp.
    + exact Htr'.
    + rewrite size_inorder, Hi, Hp. simpl. rewrite <- size_inorder. lia.
    + lia.
    + rewrite Hi, Hp. constructor; [split; simpl; [done|split; [lia|done]]|].
      eapply Forall_impl; [exact He|]. intros x (? & ? & ?). split; [done|split; [lia|done]].
  - unfold timers. by rewrite Hi, Hp.
Qed.

Lemma next_expiry_spec D h t : hr_ok D h t → next_expiry h = Ret (expires_at <$> head (timers t)).
Proof.
  intros [[Hr _ _] Hsz _ He]. unfold next_expiry. rewrite (tree_min_spec _ _ _ _ _ Hr), ret_bind by lia.
  unfold timers. destruct He as [|[k [i tm]] L (Ek & _) _]; [done|]. simpl in *. by rewrite Ek.
Qed.

Lemma remove_key_spec D h t k : hr_ok D h t →
  returns (remove k (queue h)) (λ '(o, q), o = snd <$> lookup_key k (inorder t) ∧ ∃ t',
    hr_ok (λ j, D j ∨ fst <$> lookup_key k (inorder t) = Some j) (h <| queue := q |>) t' ∧
    inorder t' = del k (inorder t)).
Proof.
  intros [Htr Hsz Ho He]. eapply returns_mono; [apply (remove_spec D (queue h) t k Htr); lia|].
  intros [o q] (-> & t' & Htr' & Hi). split; [done|]. exists t'. split; [|done].
  assert (Hdel : ∀ P L, Forall P L → Forall P (del k L)).
  { intros P L. induction 1 as [|[k' w'] L' ?]; simpl; [constructor|]. destruct (cmp k k'); auto. }
  assert (Hlen : ∀ L, (length (del k L) ≤ length L)%nat).
  { induction L as [|[k' w'] L IHL]; simpl; [done|]. destruct (cmp k k'); simpl; lia. }
  split; rsimp; [exact Htr'| |done|rewrite Hi; by apply Hdel].
  specialize (Hlen (inorder t)). rewrite size_inorder, Hi. rewrite size_inorder in Hsz. lia.
Qed.

(** What firing a timer leaves in the queue. *)
Definition next_firing tm : option timer :=
  match is_periodic tm, interval tm with
  | true, Some itv => Some (mkTimer (sat_add U64 (expires_at tm) itv) true (Some itv) (action tm))
  | _, _ => None
  end.

Lemma sorted_head_min k (w : I * timer) L e : sorted ((k, w) :: L) → e ∈ L → k_expires_at k ≤ k_expires_at e.1.
Proof.
  intros Hs He. apply StronglySorted_inv in Hs as [_ Hf]. rewrite Forall_forall in Hf. specialize (Hf e He).
  unfold cmp, TimerQueueKey_ord in Hf. simpl in Hf.
  destruct (Z.compare_spec (k_expires_at k) (k_expires_at e.1)); [lia|lia|done].
Qed.

(** One round of the drain: the soonest timer, if it is due. *)
Lemma poll_spec D h t now : hr_ok D h t → next_order h + 1 < U64 →
  returns (poll_expired now h) (λ '(r, h'), ∃ D' t', hr_ok D' h' t' ∧ (∀ j, D j → D' j) ∧ next_order h' ≤ next_order h + 1 ∧
    match timers t with
    | tm :: rest =>
        if expires_at tm <=? now then r = Some tm ∧ timers t' ≡ₚ option_list (next_firing tm) ++ rest
        else r = None ∧ h' = h ∧ t' = t
    | [] => r = None ∧ h' = h ∧ t' = t
    end).
Proof.
  intros Hok Hn. pose proof Hok as [[Hr Hs Hc] Hsz Ho He]. unfold poll_expired, earliest_expired_key.
  rewrite (tree_min_spec _ _ _ _ _ Hr), !ret_bind by lia.
  assert (Et : timers t = (λ e, e.2.2) <$> inorder t) by done. rewrite Et. clear Et.
  destruct (inorder t) as [|[k [i tm]] L] eqn:Ei; rewrite ?fmap_cons, ?fmap_nil; cbn [hd_error fst snd].
  { apply returns_ret. exists D, t. split; [done|]. split; [done|]. split; [lia|done]. }
  inversion He as [|? ? (Ek & Hk & Htm) He']; subst. simpl in Ek, Hk, Htm. rewrite Ek.
  destruct (Z.leb_spec (expires_at tm) now) as [Hdue|Hdue]; cycle 1.
  { apply returns_ret. exists D, t. split; [done|]. split; [done|]. split; [lia|done]. }
  eapply returns_bind; [apply (remove_key_spec D h t k Hok)|]. intros [o q] (-> & t1 & Hok1 & Hi1).
  assert (Elk : lookup_key k (inorder t) = Some (i, tm)) by (rewrite Ei; simpl; by rewrite cmp_refl).
  assert (Edel : del k (inorder t) = L) by (rewrite Ei; simpl; by rewrite cmp_refl).
  rewrite Elk in Hok1 |- *. rewrite Edel in Hi1. simpl fmap in Hok1 |- *. cbv iota zeta.
  set (D1 := λ j, D j ∨ Some i = Some j) in *.
  assert (Ht1 : timers t1 = (λ e, e.2.2) <$> L) by (unfold timers; by rewrite Hi1).
  unfold reinsert_periodic, next_firing. destruct (is_periodic tm) eqn:Ep; cycle 1.
  { rewrite ret_bind. apply returns_ret. exists D1, t1. split; [done|]. split; [by left|]. split; [rsimp; lia|].
    split; [done|]. by rewrite Ht1. }
  destruct Htm as [Hu Hp]. destruct (Hp Ep) as (itv & Eitv & Hitv). rewrite Eitv, bind_assoc.
  eapply returns_bind; [apply (insert_timer_spec D1 _ t1); [exact Hok1| |rsimp; lia|]|].
  - split; simpl; [unfold sat_add, as_nanos; ints; lia|]. intros _. by exists itv.
  - rewrite size_inorder, Hi1. rewrite size_inorder, Ei in Hsz. simpl in Hsz. lia.
  - intros [j h2] (t2 & Hok2 & Ho2 & _ & Hp2 & _). rewrite !ret_bind. apply returns_ret. exists D1, t2.
    split; [done|]. split; [by left|]. split; [rewrite Ho2; rsimp; lia|]. split; [done|]. by rewrite Hp2, Ht1.
Qed.
(** ** Draining *)

(** A periodic timer at its [j]-th firing. *)
Definition firing tm (itv j : Z) : timer := mkTimer (expires_at tm + j * itv) true (Some itv) (action tm).

Definition due_count (now e itv : Z) : Z := if e <=? now then (now - e) / itv + 1 else 0.

(** What a timer does up to [now], and what is left of it then. *)
Definition firings (now : Z) tm : list timer :=
  match is_periodic tm, interval tm with
  | true, Some itv => firing tm itv <$> seqZ 0 (due_count now (expires_at tm) itv)
  | _, _ => if expires_at tm <=? now then [tm] else []
  end.
Definition leftover (now : Z) tm : list timer :=
  match is_periodic tm, interval tm with
  | true, Some itv => [firing tm itv (due_count now (expires_at tm) itv)]
  | _, _ => if expires_at tm <=? now then [] else [tm]
  end.

(** Periodic timers advance, and do not run into the end of the clock. *)
Definition advancing (now : Z) tm : Prop :=
  u64 (expires_at tm) ∧ (is_periodic tm = true → ∃ itv, interval tm = Some itv ∧ 0 < itv ∧ now + itv < U64).

Lemma firing_0 tm itv : is_periodic tm = true → interval tm = Some itv → firing tm itv 0 = tm.
Proof. destruct tm; simpl; intros -> ->. unfold firing. simpl. f_equal. lia. Qed.

Lemma not_due now tm : advancing now tm → now < expires_at tm → firings now tm = [] ∧ leftover now tm = [tm].
Proof.
  intros [Hu Hp] Hd. unfold firings, leftover, due_count. destruct (Z.leb_spec (expires_at tm) now); [lia|].
  destruct (is_periodic tm) eqn:Ep; [|by destruct (interval tm)].
  destruct Hp as (itv & Ei & _); [done|]. rewrite Ei. split; [done|]. by rewrite firing_0.
Qed.

Lemma due now tm : advancing now tm → expires_at tm ≤ now →
  firings now tm = tm :: (option_list (next_firing tm) ≫= firings now) ∧
  leftover now tm = option_list (next_firing tm) ≫= leftover now ∧
  Forall (λ b, advancing now b ∧ expires_at tm ≤ expires_at b) (option_list (next_firing tm)).
Proof.
  intros [Hu Hp] Hd. unfold next_firing. unfold firings at 1, leftover at 1.
  destruct (is_periodic tm) eqn:Ep; cycle 1.
  { destruct (Z.leb_spec (expires_at tm) now); [|lia]. destruct (interval tm); (split; [done|split; [done|constructor]]). }
  destruct Hp as (itv & Ei & Hi & Hn); [done|]. rewrite Ei. simpl. ints.
  assert (Hs : sat_add U64 (expires_at tm) itv = expires_at tm + itv) by (unfold sat_add; lia). rewrite Hs.
  assert (Ec : due_count now (expires_at tm) itv = Z.succ (due_count now (expires_at tm + itv) itv)).
  { unfold due_count. destruct (Z.leb_spec (expires_at tm) now); [|lia].
    destruct (Z.leb_spec (expires_at tm + itv) now).
    - replace (now - expires_at tm) with ((now - (expires_at tm + itv)) + 1 * itv) by lia. rewrite Z.div_add by lia. lia.
    - rewrite Z.div_small by lia. lia. }
  assert (0 ≤ due_count now (expires_at tm + itv) itv).
  { unfold due_count. destruct (Z.leb_spec (expires_at tm + itv) now); [|lia].
    pose proof (Z.div_pos (now - (expires_at tm + itv)) itv). lia. }
  unfold firings, leftover. simpl. rewrite !app_nil_r, Ec. split; [|split].
  - rewrite seqZ_cons by lia. rewrite Z.pred_succ, fmap_cons, firing_0 by done. f_equal.
    change (Z.succ 0) with (1 + 0). rewrite <- (fmap_add_seqZ 1 0), <- list_fmap_compose.
    apply list_fmap_ext. intros j x _. unfold firing, compose. simpl. f_equal. lia.
  - unfold firing. simpl. do 2 f_equal. lia.
  - constructor; [|constructor]. split; [split|]; simpl; [ints; lia|intros _; by exists itv|lia].
Qed.

Lemma timers_head_min D h t tm rest : hr_ok D h t → timers t = tm :: rest → ∀ b, b ∈ rest → expires_at tm ≤ expires_at b.
Proof.
  intros [[_ Hs _] _ _ He] Et b Hb. unfold timers in Et. destruct (inorder t) as [|[k [i tm']] L]; [done|].
  rewrite fmap_cons in Et. injection Et as <- <-. apply list_elem_of_fmap in Hb as (e & -> & Hin).
  pose proof (sorted_head_min _ _ _ e Hs Hin) as Hle. inversion He as [|? ? (Ek & _) He']; subst.
  rewrite Forall_forall in He'. destruct (He' e Hin) as (Ek' & _). simpl in Ek. simpl. congruence.
Qed.

Definition soonest_first (l : list timer) : Prop := StronglySorted (λ a b, expires_at a ≤ expires_at b) l.

Lemma soonest_snoc l tm : soonest_first l → Forall (λ a, expires_at a ≤ expires_at tm) l → soonest_first (l ++ [tm]).
Proof.
  induction 1 as [|a l Hs IH Hf]; intros Hl; simpl; [repeat constructor|]. inversion Hl; subst.
  constructor; [by apply IH|]. apply Forall_app. split; [done|]. by constructor.
Qed.

(** The state of the drain loop: what was fired, and what the timers still in
    the queue will do, is what the timers at the start do. *)
Definition draining (now : Z) (ts0 : list timer) (n : Z) (s : list timer * hr) : Prop :=
  ∃ D t, hr_ok D s.2 t ∧ Forall (advancing now) (timers t) ∧
    s.1 ++ (timers t ≫= firings now) ≡ₚ ts0 ≫= firings now ∧
    timers t ≫= leftover now ≡ₚ ts0 ≫= leftover now ∧
    soonest_first s.1 ∧ (∀ a b, a ∈ s.1 → b ∈ timers t → expires_at a ≤ expires_at b) ∧
    n = zlen (timers t ≫= firings now) ∧ next_order s.2 + n + 1 < U64.

Definition drained (now : Z) (ts0 : list timer) (s : list timer * hr) : Prop :=
  ∃ D t, hr_ok D s.2 t ∧ s.1 ≡ₚ ts0 ≫= firings now ∧ timers t ≡ₚ ts0 ≫= leftover now ∧
    soonest_first s.1 ∧ Forall (λ tm, now < expires_at tm) (timers t).

Lemma not_due_all now ts : Forall (advancing now) ts → Forall (λ tm, now < expires_at tm) ts →
  ts ≫= firings now = [] ∧ ts ≫= leftover now = ts.
Proof.
  induction ts as [|tm ts IH]; intros Ha Hd; [done|]. inversion Ha; inversion Hd; subst. rewrite !bind_cons.
  destruct (not_due now tm) as [-> ->]; [done..|]. destruct IH as [-> ->]; done.
Qed.

Lemma drain_round now ts0 n s : draining now ts0 n s → 0 ≤ n →
  returns ('(r, h) ← poll_expired now s.2; Ret (match r with Some t => inl (s.1 ++ [t], h) | None => inr (s.1, h) end))
    (λ r, match r with inl s' => ∃ n', draining now ts0 n' s' ∧ 0 ≤ n' < n | inr r => drained now ts0 r end).
Proof.
  destruct s as [fired h]. intros (D & t & Hok & Ha & Hf & Hl & Hs & Hle & -> & Ho) Hn. simpl fst in *. simpl snd in *.
  pose proof (zlen_nonneg (timers t ≫= firings now)).
  eapply returns_bind; [apply (poll_spec D h t now Hok); lia|]. intros [r h'] (D' & t' & Hok' & _ & Ho' & Hr).
  apply returns_ret. destruct (timers t) as [|tm rest] eqn:Et; [|destruct (Z.leb_spec (expires_at tm) now) as [Hd|Hd]].
  - destruct Hr as (-> & -> & ->). exists D, t. rewrite Et. simpl in *. rewrite app_nil_r in Hf. done.
  - destruct Hr as [-> Hp]. inversion Ha as [|? ? Htm Ha']; subst.
    destruct (due now tm Htm Hd) as (Ef & El & Hnx). rewrite bind_cons, Ef in Hf, Ho. rewrite bind_cons, El in Hl.
    set (nx := option_list (next_firing tm)) in *.
    assert (Hmin : Forall (λ b, expires_at tm ≤ expires_at b) (timers t')).
    { rewrite Hp. apply Forall_app. split; [eapply Forall_impl; [exact Hnx|]; by intros ? []|].
      apply Forall_forall. exact (timers_head_min _ _ _ _ _ Hok Et). }
    exists (zlen (timers t' ≫= firings now)).
    assert (Hz : zlen (timers t' ≫= firings now) = zlen (nx ≫= firings now) + zlen (rest ≫= firings now)).
    { unfold zlen. rewrite Hp, bind_app, length_app. lia. }
    split; cycle 1.
    { rewrite Hz, bind_cons, Ef. simpl. rewrite zlen_cons, zlen_app.
      pose proof (zlen_nonneg (nx ≫= firings now)). pose proof (zlen_nonneg (rest ≫= firings now)). lia. }
    exists D', t'. simpl. split; [done|].
    split; [rewrite Hp; apply Forall_app; split; [eapply Forall_impl; [exact Hnx|]; by intros ? []|done]|].
    split; [rewrite <- Hf, Hp, bind_app; solve_perm|]. split; [rewrite <- Hl, Hp, bind_app; done|].
    split; [apply soonest_snoc; [done|]; apply Forall_forall; intros a Hin; apply Hle; [done|left]|].
    split; [|split; [done|]].
    + rewrite Forall_forall in Hmin. intros a b [Ha1|Ha1]%elem_of_app Hb; [|apply list_elem_of_singleton in Ha1 as ->; auto].
      etrans; [apply (Hle a tm); [done|left]|auto].
    + rewrite Hz. rewrite zlen_app, zlen_cons in Ho. lia.
  - destruct Hr as (-> & -> & ->). exists D, t. rewrite Et. simpl fst. simpl snd.
    assert (Hall : Forall (λ tm, now < expires_at tm) (tm :: rest)).
    { constructor; [done|]. apply Forall_forall. intros b Hb. pose proof (timers_head_min _ _ _ _ _ Hok Et b Hb). lia. }
    destruct (not_due_all now (tm :: rest) Ha Hall) as [Ef El]. rewrite Ef, app_nil_r in Hf. rewrite El in Hl. done.
Qed.

(** ** Dispatching *)

(** What the timers do when they are dispatched one after the other. *)
Fixpoint dispatch_all (processes : Processes) (l : list timer) (s : bool * list (effect Callback)) : res (bool * list (effect Callback)) :=
  match l with
  | [] => Ret s
  | tm :: l => s ← dispatch processes tm s; dispatch_all processes l s
  end.

#[local] Abbreviation poll_round now := (λ '(fired, h), '(r, h) ← poll_expired now h;
  Ret (match r with Some t => inl (fired ++ [t], h) | None => inr (fired, h) end)).

Lemma drain_extends now s r : loop_runs (poll_round now) s r → ∃ l, r.1 = s.1 ++ l.
Proof.
  induction 1 as [[fired h] r E|[fired h] s' r E _ [l Hl]].
  - destruct (poll_expired now h) as [[[tm|] h1]|]; try done. injection E as <-. exists []. by rewrite app_nil_r.
  - destruct (poll_expired now h) as [[[tm|] h1]|]; try done. injection E as <-. exists (tm :: l). rewrite Hl. simpl. by rewrite <- app_assoc.
Qed.

(** Dispatching the timers as they are taken is dispatching those taken. *)
Lemma drain_dispatches processes now bound h fired h' s : drain_expired bound now h = Ret (fired, h') →
  dispatch_all processes fired (false, []) = Ret s → expire_timers bound processes now h = Ret (h', s).
Proof.
  intros Hd Hs. unfold expire_timers. pose proof (while_loop_runs _ _ _ _ Hd) as Hrun.
  destruct (while_loop_sim (poll_round now) (λ '(h, s), '(r, h) ← poll_expired now h;
      match r with Some t => s ← dispatch processes t s; Ret (inl (h, s)) | None => Ret (inr (h, s)) end)
    (λ a b, a.2 = b.1 ∧ loop_runs (poll_round now) a (fired, h') ∧ ∀ l, fired = a.1 ++ l → dispatch_all processes l b.2 = Ret s)
    (λ a b, b = (a.2, s) ∧ a = (fired, h'))) with (3 := Hd) (s2 := (h, (false, @nil (effect Callback)))) as (x & -> & -> & _); [| | |done].
  - intros [f1 h1] [h2 s2] s' (E1 & Hr & Hl) E. simpl in E1. subst h2. inversion Hr as [? ? E'|? s1 ? E' Hr']; subst; [congruence|]. clear Hr. rename Hr' into Hr.
    rewrite E in E'. injection E' as <-. destruct (poll_expired now h1) as [[[tm|] h2]|]; try done. injection E as <-. rewrite ret_bind.
    destruct (drain_extends _ _ _ Hr) as [l Ef]. simpl in Ef. specialize (Hl (tm :: l)). simpl in Hl. rewrite <- app_assoc in Ef.
    specialize (Hl Ef). destruct (dispatch processes tm s2) as [s3|] eqn:Ed; [|done]. rewrite ret_bind. eexists. split; [done|]. split; [done|]. split; [done|].
    intros l' El. simpl in El. rewrite Ef, <- app_assoc in El. apply app_inv_head in El. injection El as <-. exact Hl.
  - intros [f1 h1] [h2 s2] r (E1 & Hr & Hl) E. simpl in E1. subst h2. inversion Hr as [? ? E'|? s1 ? E' Hr']; subst; [|congruence].
    rewrite E in E'. injection E' as ->. destruct (poll_expired now h1) as [[[tm|] h2]|]; try done. injection E as <- <-. rewrite ret_bind.
    eexists. split; [done|]. split; [|done]. simpl in *. specialize (Hl [] ltac:(by rewrite app_nil_r)). injection Hl as ->. done.
  - split; [done|]. split; [done|]. intros l ->. exact Hs.
Qed.

(** C32: The timer interrupt drains the queue completely and in order: every
    timer that is due fires, periodic ones as often as their interval says,
    soonest first; what stays in the queue are the timers that are not due
    and the next firing of each periodic one, all in the future.  The loop
    ends whenever the intervals are positive.  Where dispatching these timers
    one after the other does not panic (a timer wakes a thread that is gone),
    the handler's loop does exactly that. *)
Theorem interrupt_drains_queue D h t now bound :
  hr_ok D h t → Forall (advancing now) (timers t) →
  next_order h + zlen (timers t ≫= firings now) + 1 < U64 → zlen (timers t ≫= firings now) < Z.pos bound →
  returns (drain_expired bound now h) (λ '(fired, h'), drained now (timers t) (fired, h') ∧
    ∀ processes s, dispatch_all processes fired (false, []) = Ret s → expire_timers bound processes now h = Ret (h', s)).
Proof.
  intros Hok Ha Ho Hb. assert (Hd : returns (drain_expired bound now h) (drained now (timers t))).
  2: { destruct Hd as ([fired h'] & E & Hd). exists (fired, h'). split; [done|]. split; [done|]. intros processes s. by apply drain_dispatches. }
  unfold drain_expired. apply (while_loop_variant _ (draining now (timers t)) (drained now (timers t))) with (zlen (timers t ≫= firings now)).
  - intros n [fired h'] Hd Hn. exact (drain_round now (timers t) n (fired, h') Hd Hn).
  - exists D, t. simpl. split; [done|]. split; [done|]. split; [done|]. split; [done|]. split; [constructor|].
    split; [by intros a b ?%not_elem_of_nil|done].
  - pose proof (zlen_nonneg (timers t ≫= firings now)). lia.
Qed.

(** ** Handles *)

Lemma entry_lookup k i tm L : sorted L → (k, (i, tm)) ∈ L → lookup_key k L = Some (i, tm).
Proof.
  intros Hs (l1 & l2 & ->)%list_elem_of_split. destruct (sorted_mid _ _ _ _ Hs) as [Hb _].
  rewrite lookup_below by done. simpl. by rewrite cmp_refl.
Qed.

(** Cancelling with the handle of a registration removes that timer and
    no other; a handle whose timer has fired or was removed cancels nothing,
    even after other timers have been registered. *)
Theorem cancel_is_exact D h t i : hr_ok D h t →
  (∀ k tm l1 l2, inorder t = l1 ++ (k, (i, tm)) :: l2 →
     returns (cancel i h) (λ '(b, h'), b = true ∧ ∃ t', hr_ok (λ j, D j ∨ i = j) h' t' ∧ inorder t' = l1 ++ l2)) ∧
  (D i → cancel i h = Ret (false, h)).
Proof.
  intros Hok. pose proof Hok as [Htr _ _ _]. split.
  - intros k tm l1 l2 Ei. pose proof (ok_sorted _ _ _ Htr) as Hs. rewrite Ei in Hs.
    destruct (sorted_mid _ _ _ _ Hs) as [Hb _].
    assert (El : lookup_key k (inorder t) = Some (i, tm)) by (rewrite Ei, lookup_below by done; simpl; by rewrite cmp_refl).
    destruct (handle_of _ _ _ _ _ _ Htr El) as (n & Hn & Hk & _).
    unfold cancel, queue_key_of. rewrite Hn. simpl. rewrite Hk. unfold remove_key.
    eapply returns_bind; [apply (remove_key_spec D h t k Hok)|]. intros [o q] (-> & t' & Hok' & Hi').
    rewrite El in *. apply returns_ret. split; [done|]. exists t'. split.
    + destruct Hok' as [[[Hh Hr Hl HD] H2' H3'] H4' H5' H6']. split; [|done|done|done]. split; [|done|done].
      split; [done|done|done|]. intros j [Hj| ->]; [apply HD; by left|apply HD; by right].
    + rewrite Hi', Ei, del_below by done. simpl. by rewrite cmp_refl.
  - intros HD. unfold cancel, queue_key_of, arena_get. destruct Htr as [[_ _ _ Hret] _ _].
    rewrite (retired_get _ _ (Hret i HD)). done.
Qed.

(** A timer that becomes the nearest deadline does not reprogram the
    local APIC; one that expires after the nearest deadline does, and
    postpones the interrupt. *)
Theorem add_timer_programs_backwards D h t c now e p itv act next :
  hr_ok D h t → timer_ok (mkTimer e p itv act) → next_order h + 1 < U64 → Z.of_nat (size t) + 2 < U64 →
  expires_at <$> head (timers t) = Some next → 0 ≤ now ≤ e →
  returns (add_timer c now e p itv act h) (λ '(_, program, _),
    program = if next <? e then Some (ns_to_apic_ticks c (e - now)) else None).
Proof.
  intros Hok Htm Ho Hsz Hnext Hnow. unfold add_timer, rassert.
  assert (Hp : negb p || bool_decide (is_Some itv) = true).
  { destruct p; [|done]. destruct Htm as [_ Hi]. destruct Hi as (j & Ej & _); [done|]. simpl in Ej. by subst itv. }
  rewrite Hp, ret_bind, (next_expiry_spec _ _ _ Hok), Hnext, ret_bind.
  destruct Htm as [Hu Hi]. simpl in Hu. ints.
  assert (Hpr : (if next <? e then diff ← sub_chk U64 e now; Ret (Some (ns_to_apic_ticks c diff)) else Ret None)
    = Ret (if next <? e then Some (ns_to_apic_ticks c (e - now)) else None)).
  { destruct (next <? e); [|done]. rewrite sub_chk_ret; [done|lia]. }
  rewrite Hpr, ret_bind.
  eapply returns_bind; [apply (insert_timer_spec D h t e p itv act Hok); [by split|lia..]|].
  intros [i h'] _. by apply returns_ret.
Qed.

(** ** Rearming *)

(** The one-shot timer is rearmed with the ticks until the next deadline.
    A deadline already behind the second clock reading asks for one
    nanosecond, which is zero ticks on any timer slower than 1 GHz, and a
    zero count stops the timer. *)
Theorem rearm_may_stop_timer D h t c now' next :
  hr_ok D h t → expires_at <$> head (timers t) = Some next → 0 < lapic_frequency c < 1000000000 →
  rearm c now' h = Ret (ns_to_apic_ticks c (Z.max (next - now') 1)) ∧ (next ≤ now' → rearm c now' h = Ret 0).
Proof.
  intros Hok Hn Hf. unfold rearm. rewrite (next_expiry_spec _ _ _ Hok), Hn, ret_bind.
  assert (E : Z.max (sat_sub next now') 1 = Z.max (next - now') 1) by (unfold sat_sub; lia).
  rewrite E. split; [done|]. intros Hle. rewrite Z.max_r by lia. unfold ns_to_apic_ticks.
  by rewrite Z.mul_1_l, Z.div_small by lia.
Qed.

(** ** Reachable queues *)

Inductive timer_op :=
| OpAdd (c : SystemClock) (now e : Z) (p : bool) (itv : option Duration) (act : TimerAction Callback)
| OpCancel (i : I)
| OpRemove (e : Z)
| OpPoll (now : Z).

Definition run_timer_op (o : timer_op) h : res hr :=
  match o with
  | OpAdd c now e p itv act => '(_, _, h) ← add_timer c now e p itv act h; Ret h
  | OpCancel i => '(_, h) ← cancel i h; Ret h
  | OpRemove e => '(_, h) ← remove_timer e h; Ret h
  | OpPoll now => '(_, h) ← poll_expired now h; Ret h
  end.

(** Times and intervals of the source's types. *)
Definition op_typed (o : timer_op) : Prop :=
  match o with
  | OpAdd c now e p itv act => u64 now ∧ u64 e ∧ from_option (λ d, 0 ≤ d) True itv
  | _ => True
  end.

(** A registration panics if it is periodic without an interval, or if it is
    for the past and later than the nearest deadline, or the first. *)
Definition op_panics (o : timer_op) h : bool :=
  match o with
  | OpAdd c now e p itv act =>
      (p && bool_decide (itv = None)) ||
      ((e <? now) && match next_expiry h with Ret (Some next) => next <? e | _ => true end)
  | _ => false
  end.

Inductive reachable : nat → hr → Prop :=
| reach_new : reachable 0 hr_new
| reach_op n h o h' : reachable n h → op_typed o → run_timer_op o h = Ret h' → reachable (S n) h'.

(** The invariant, with a bound on the registrations. *)
Definition queue_ok (n : nat) h : Prop := ∃ D t, hr_ok D h t ∧ next_order h ≤ Z.of_nat n ∧ (size t ≤ n)%nat.

Lemma timers_length t : length (timers t) = size t.
Proof. unfold timers. by rewrite length_fmap, size_inorder. Qed.

Lemma del_length k L : (length (del k L) ≤ length L)%nat.
Proof. induction L as [|[k' w'] L IH]; simpl; [done|]. destruct (cmp k k'); simpl; lia. Qed.

Lemma queue_ok_remove n h o : queue_ok n h → returns (remove_key o h) (λ '(_, h'), queue_ok (S n) h').
Proof.
  intros (D & t & Hok & Ho & Hs). destruct o as [k|]; simpl.
  - eapply returns_bind; [apply (remove_key_spec D h t k Hok)|]. intros [r q] (_ & t' & Hok' & Hi').
    apply returns_ret. do 2 eexists. split; [exact Hok'|]. split; [rsimp; lia|].
    pose proof (del_length k (inorder t)). rewrite size_inorder, Hi'. rewrite size_inorder in Hs. lia.
  - apply returns_ret. exists D, t. split; [done|]. split; lia.
Qed.

(** A registration panics exactly when [op_panics] says so. *)
Lemma add_timer_outcome D h t c now e p itv act : hr_ok D h t → op_typed (OpAdd c now e p itv act) → next_order h + 1 < U64 → Z.of_nat (size t) + 2 < U64 →
  if op_panics (OpAdd c now e p itv act) h then add_timer c now e p itv act h = Crash Panic
  else returns (add_timer c now e p itv act h) (λ '(_, _, h'), ∃ t', hr_ok D h' t' ∧ next_order h' = next_order h + 1 ∧
    timers t' ≡ₚ mkTimer e p itv act :: timers t).
Proof.
  intros Hok (Hnow & He & Hi) Ho Hs. unfold op_panics, add_timer, rassert. rewrite (next_expiry_spec _ _ _ Hok).
  destruct (p && bool_decide (itv = None)) eqn:Ep; simpl orb.
  { apply andb_true_iff in Ep as [-> Ei%bool_decide_eq_true]. by subst itv. }
  assert (Htm : timer_ok (mkTimer e p itv act)).
  { split; [done|]. simpl. intros ->. simpl in Ep. apply bool_decide_eq_false in Ep. destruct itv as [d|]; [|done]. by exists d. }
  assert (Hp : negb p || bool_decide (is_Some itv) = true) by (destruct p; [|done]; destruct Htm as [_ H']; destruct H' as (d & Ed & _); [done|]; simpl in Ed; by subst itv).
  rewrite Hp, !ret_bind. set (later := match expires_at <$> head (timers t) with Some n => n <? e | None => true end).
  assert (Hins : ∀ pr : option Z, returns ('(i, h0) ← insert_timer e p itv act h; Ret (i, pr, h0) : res (I * option Z * hr)) (λ '(_, _, h'), ∃ t', hr_ok D h' t' ∧ next_order h' = next_order h + 1 ∧
    timers t' ≡ₚ mkTimer e p itv act :: timers t)).
  { intros pr. eapply returns_bind; [apply (insert_timer_spec D h t e p itv act Hok Htm); lia|].
    intros [i h'] (t' & Hok' & Ho' & _ & Hp' & _). apply returns_ret. by exists t'. }
  destruct later, (Z.ltb_spec e now); simpl andb; rewrite ?ret_bind; try by apply Hins.
  - unfold sub_chk. by rewrite chk_panic by lia.
  - ints. rewrite sub_chk_ret by lia. rewrite !ret_bind. by apply Hins.
Qed.

Lemma queue_ok_op n h o : queue_ok n h → op_typed o → Z.of_nat n + 3 < U64 →
  if op_panics o h then run_timer_op o h = Crash Panic else returns (run_timer_op o h) (λ h', queue_ok (S n) h').
Proof.
  intros Hq Hfit Hn. pose proof Hq as (D & t & Hok & Ho & Hs). destruct o as [c now e p itv act|i|e|now]; simpl run_timer_op; cbn [op_panics].
  - pose proof (add_timer_outcome D h t c now e p itv act Hok Hfit ltac:(lia) ltac:(lia)) as Ha. cbn [op_panics] in Ha.
    destruct (_ || _); [by rewrite Ha|]. eapply returns_bind; [exact Ha|]. intros [[i pr] h'] (t' & Hok' & Ho' & Hp'). apply returns_ret. exists D, t'. split; [done|].
    split; [lia|]. rewrite <- timers_length, Hp'. simpl. rewrite timers_length. lia.
  - unfold cancel. eapply returns_bind; [apply queue_ok_remove, Hq|]. intros [b h'] Hq'. by apply returns_ret.
  - unfold remove_timer, find_first_key_at_expiry. rewrite !bind_assoc.
    eapply returns_bind; [apply (for_each_spec D [] _ (queue h) t (ok_repr _ _ _ (hr_tree _ _ _ Hok))); lia|].
    intros ks _. rewrite ret_bind. eapply returns_bind; [apply queue_ok_remove, Hq|].
    intros [b h'] Hq'. by apply returns_ret.
  - eapply returns_bind; [apply (poll_spec D h t now Hok); lia|]. intros [r h'] (D' & t' & Hok' & _ & Ho' & Hr).
    apply returns_ret. exists D', t'. split; [done|]. split; [lia|].
    destruct (timers t) as [|tm rest] eqn:Et; [destruct Hr as (_ & _ & ->); lia|].
    destruct (expires_at tm <=? now); [|destruct Hr as (_ & _ & ->); lia].
    destruct Hr as [_ Hp]. rewrite <- timers_length, Hp, length_app. rewrite <- timers_length, Et in Hs. simpl in Hs.
    unfold next_firing. destruct (is_periodic tm), (interval tm); simpl; lia.
Qed.

(** C33: Every queue that fewer than 2^64 - 3 registrations, cancellations,
    removals and polls can produce is well formed: a search tree on expiry and registration
    order, keys that agree with their timers and are used once.  The operations
    keep it so and do not panic, but for a registration exactly when it is
    periodic without an interval, or its expiry has passed and is later than the
    nearest deadline or the queue is empty. *)
Theorem timer_queue_invariant n h : reachable n h → Z.of_nat n + 3 < U64 →
  queue_ok n h ∧ ∀ o, op_typed o →
    if op_panics o h then run_timer_op o h = Crash Panic else returns (run_timer_op o h) (queue_ok (S n)).
Proof.
  intros Hr Hn. assert (Hq : queue_ok n h).
  { induction Hr as [|n h o h' Hr IH Hfit E].
    - exists (λ _, False), E. split; [|split; simpl; lia]. split; [apply new_ok; by intros ? []|simpl; lia|simpl; lia|constructor].
    - pose proof (queue_ok_op n h o ltac:(apply IH; lia) Hfit ltac:(lia)) as Hop. destruct (op_panics o h); [congruence|].
      destruct Hop as (h2 & E2 & Hq2). rewrite E in E2. by injection E2 as <-. }
  split; [done|]. intros o Hfit. by apply queue_ok_op.
Qed.

End Queue.

(** ** Sample queues in the concrete arena *)

Section Sample.
Abbreviation sample_hr := (HrTimer (slab (Node TimerQueueKey (Timer nat) positive)) positive).

Definition sample_clock : SystemClock := mkClock 3000000000 25000000 0 32 1431655765.

Lemma timer_queue_invariant_witness :
  ∃ h : sample_hr, run_timer_op (OpAdd sample_clock 0 (ms 500) true (Some (ms 500)) Reschedule) hr_new = Ret h ∧
    queue_ok 1 h.
Proof.
  destruct (timer_queue_invariant 0 (hr_new : sample_hr) (reach_new)) as [_ Hop]; [vm_compute; reflexivity|].
  destruct (Hop (OpAdd sample_clock 0 (ms 500) true (Some (ms 500)) Reschedule)) as (h & E & Hq).
  - split; [vm_compute; intuition discriminate|]. split; vm_compute; intuition discriminate.
  - exists h. split; [exact E|exact Hq].
Defined.

(** A periodic timer at 500 and a single one at 700, drained at 1600. *)
Definition sample_queue : res sample_hr :=
  '(_, h) ← insert_timer (Callback := nat) 500 true (Some 500) Reschedule hr_new;
  '(_, h) ← insert_timer 700 false None (WakeUp 1 2) h; Ret h.

Lemma sample_queue_ok : returns sample_queue (λ h, ∃ t, hr_ok (λ _, False) h t ∧ next_order h = 2 ∧
  timers t ≡ₚ [mkTimer 700 false None (WakeUp 1 2); mkTimer 500 true (Some 500) Reschedule]).
Proof.
  unfold sample_queue.
  eapply returns_bind; [apply (insert_timer_spec (λ _, False) hr_new E)|].
  - split; [apply new_ok; by intros ? []|simpl; lia|simpl; lia|constructor].
  - split; [vm_compute; intuition discriminate|]. intros _. exists 500. split; [done|lia].
  - simpl. lia.
  - simpl. lia.
  - intros [i1 h1] (t1 & Hok1 & Ho1 & _ & Hp1 & _).
    assert (size t1 = 1%nat) by (rewrite <- timers_length, Hp1; done).
    eapply returns_bind; [apply (insert_timer_spec (λ _, False) h1 t1); [done| |simpl in *; lia|lia]|].
    + split; [vm_compute; intuition discriminate|done].
    + intros [i2 h2] (t2 & Hok2 & Ho2 & _ & Hp2 & _). apply returns_ret. exists t2. split; [done|].
      split; [simpl in *; lia|]. rewrite Hp2, Hp1. done.
Qed.

Lemma interrupt_drains_queue_witness :
  returns (h ← sample_queue; drain_expired 10 1600 h) (λ '(fired, _),
    fired ≡ₚ [mkTimer 700 false None (WakeUp 1 2); mkTimer 500 true (Some 500) Reschedule;
              mkTimer 1000 true (Some 500) Reschedule; mkTimer 1500 true (Some 500) Reschedule]).
Proof.
  destruct sample_queue_ok as (h & -> & t & Hok & Ho & Hp).
  assert (Hf : timers t ≫= firings 1600 ≡ₚ [mkTimer 700 false None (WakeUp 1 2); mkTimer 500 true (Some 500) Reschedule;
              mkTimer 1000 true (Some 500) Reschedule; mkTimer 1500 true (Some 500) Reschedule]) by (by rewrite Hp).
  destruct (interrupt_drains_queue (λ _, False) h t 1600 10) as ([fired h'] & E & (D' & t' & _ & Hfired & _) & _).
  - exact Hok.
  - rewrite Hp. repeat constructor; simpl; try lia; try done. intros _. exists 500. split; [done|lia].
  - unfold zlen. rewrite Hf, Ho. vm_compute. reflexivity.
  - unfold zlen. rewrite Hf. vm_compute. reflexivity.
  - exists (fired, h'). split; [exact E|]. rewrite <- Hf. exact Hfired.
Defined.

(** The handler on that queue: with thread 2 of process 1 alive it is woken and
    the scheduler runs; without it the kernel panics. *)
Lemma sample_handler :
  (r ← (h ← sample_queue; timer_interrupt_handler 10 [(1, [2])] sample_clock 1600 1600 h); Ret (r.1.2, r.2)) = Ret ([SetRunning 1 2; RunsScheduler], 10) ∧
  (h ← sample_queue; timer_interrupt_handler 10 [(1, [])] sample_clock 1600 1600 h) = Crash Panic.
Proof. split; vm_compute; reflexivity. Qed.

Lemma sample_one_ok : returns (insert_timer (Callback := nat) 500 true (Some 500) Reschedule (hr_new : sample_hr))
  (λ '(i, h), ∃ t, hr_ok (λ _, False) h t ∧ next_order h = 1 ∧
    inorder t = [(mkKey 500 0, (i, mkTimer 500 true (Some 500) Reschedule))]).
Proof.
  eapply returns_mono; [apply (insert_timer_spec (λ _, False) hr_new E)|].
  - split; [apply new_ok; by intros ? []|simpl; lia|simpl; lia|constructor].
  - split; [vm_compute; intuition discriminate|]. intros _. exists 500. split; [done|lia].
  - simpl. lia.
  - simpl. lia.
  - intros [i h] (t & Hok & Ho & Hi & _). by exists t.
Qed.

Lemma cancel_is_exact_witness :
  returns ('(i, h) ← insert_timer (Callback := nat) 500 true (Some 500) Reschedule (hr_new : sample_hr);
           '(b, h) ← cancel i h; '(b', _) ← cancel i h; Ret (b, b')) (λ bs, bs = (true, false)).
Proof.
  destruct sample_one_ok as ([i h] & -> & t & Hok & _ & Hi). rewrite ret_bind.
  destruct (cancel_is_exact _ h t i Hok) as [H1 _].
  destruct (H1 _ _ [] [] Hi) as ([b h'] & -> & -> & t' & Hok' & _). rewrite ret_bind.
  destruct (cancel_is_exact _ h' t' i Hok') as [_ H2]. rewrite H2 by (by right). by eexists.
Defined.

Lemma rearm_may_stop_timer_witness :
  returns ('(_, h) ← insert_timer (Callback := nat) 500 true (Some 500) Reschedule (hr_new : sample_hr);
           rearm sample_clock 501 h) (λ ticks, ticks = 0).
Proof.
  destruct sample_one_ok as ([i h] & -> & t & Hok & _ & Hi). rewrite ret_bind.
  destruct (rearm_may_stop_timer _ h t sample_clock 501 500 Hok) as [_ H].
  - unfold timers. by rewrite Hi.
  - vm_compute. intuition discriminate.
  - exists 0. split; [apply H; lia|done].
Defined.

Lemma add_timer_programs_backwards_witness :
  returns ('(_, h) ← insert_timer (Callback := nat) 500 true (Some 500) Reschedule (hr_new : sample_hr);
           '(_, later, _) ← add_timer sample_clock 0 900 false None Reschedule h;
           '(_, sooner, _) ← add_timer sample_clock 0 300 false None Reschedule h; Ret (later, sooner))
    (λ ps, ps = (Some 22, None)).
Proof.
  destruct sample_one_ok as ([i h] & -> & t & Hok & Ho & Hi). rewrite ret_bind.
  assert (Hs : size t = 1%nat) by (by rewrite size_inorder, Hi).
  assert (Hh : expires_at <$> head (timers t) = Some 500) by (unfold timers; by rewrite Hi).
  destruct (add_timer_programs_backwards _ h t sample_clock 0 900 false None Reschedule 500 Hok)
    as ([[i1 p1] h1] & -> & ->); [split; [vm_compute; intuition discriminate|done]|lia|lia|done|lia|].
  destruct (add_timer_programs_backwards _ h t sample_clock 0 300 false None Reschedule 500 Hok)
    as ([[i2 p2] h2] & -> & ->); [split; [vm_compute; intuition discriminate|done]|lia|lia|done|lia|].
  by eexists.
Defined.
End Sample.
