(* ===== verification/FatTable.v ===== *)
(** * The file allocation table

    [fs/src/fat32/fat.rs]: the chains of clusters in the table held in
    memory, their allocation, linking and release.  The table is a list of
    32-bit entries indexed by cluster number. *)

From S2P Require Import Prelude.

Inductive FileSystemError :=
| NotFound | NotAFile | NotADirectory | NotEnoughSpace | AlreadyExists | NameTooLong
| InvalidArgument | ReadOutOfBounds | BadData.

Definition FAT_FREE_SECTOR : Z := 0.
Definition FAT_END_OF_FILE_MARK : Z := 4294967295.
(** The least mark that ends a chain, [0x0FFFFFF8]. *)
Abbreviation END_OF_CHAIN := 268435448.

(** ** Operations *)

(** A chain that does not repeat a cluster has at most as many as the table
    has entries; the loop of the source does not end on one that does. *)
Definition get_clusters_for_file (tbl : list Z) (cluster : Z) : res (list Z) :=
  while_loop (λ '(clusters, cluster),
    next_cluster ← index tbl cluster;
    Ret (if END_OF_CHAIN <=? next_cluster then inr clusters
         else inl (clusters ++ [next_cluster], next_cluster)))
    (Pos.of_succ_nat (length tbl)) ([cluster], cluster).

Definition find_free_clusters (tbl : list Z) (count : Z) : res (list (Z * Z)) :=
  n ← add_chk U64 count 1;
  Ret (ztake n (filter (λ entry, entry.2 = FAT_FREE_SECTOR) (imap (λ i v, (Z.of_nat i, v)) tbl))).

Fixpoint link_clusters (free_clusters : list (Z * Z)) (tbl : list Z) : res (list Z) :=
  match free_clusters with
  | [] => Ret tbl
  | free_cluster :: rest =>
      tbl ← store tbl free_cluster.1
              (match rest with next :: _ => next.1 mod U32 | [] => FAT_END_OF_FILE_MARK end);
      link_clusters rest tbl
  end.

Definition allocate_and_link_clusters (count : Z) (tbl : list Z)
  : res ((list (Z * Z) + FileSystemError) * list Z) :=
  free_clusters ← find_free_clusters tbl count;
  if zlen free_clusters <? count then Ret (inr NotEnoughSpace, tbl)
  else tbl ← link_clusters free_clusters tbl; Ret (inl free_clusters, tbl).

(** [for_each(|cluster| table[cluster] = value)] *)
Fixpoint store_all (clusters : list Z) (value : Z) (tbl : list Z) : res (list Z) :=
  match clusters with
  | [] => Ret tbl
  | c :: rest => tbl ← store tbl c value; store_all rest value tbl
  end.

Definition mark_clusters_as_free (starting_cluster : Z) (tbl : list Z) : res (list Z) :=
  clusters ← get_clusters_for_file tbl starting_cluster; store_all clusters FAT_FREE_SECTOR tbl.

(** The clusters a file or a directory grows by, linked behind its last one
    ([FatFile::write], [allocate_file_entries_in_directory]). *)
Definition append_clusters (last_cluster count : Z) (tbl : list Z)
  : res ((list (Z * Z) + FileSystemError) * list Z) :=
  '(r, tbl) ← allocate_and_link_clusters count tbl;
  match r with
  | inr e => Ret (inr e, tbl)
  | inl [] => Crash Panic
  | inl (first :: rest) =>
      tbl ← store tbl last_cluster (first.1 mod U32);
      Ret (inl (first :: rest), tbl)
  end.

(** ** Chains *)

Definition look (tbl : list Z) (c : Z) : option Z := if c <? 0 then None else tbl !! Z.to_nat c.

Fixpoint linked (tbl : list Z) (cs : list Z) : Prop :=
  match cs with
  | [] => True
  | c :: rest =>
      match rest with
      | [] => ∃ n, look tbl c = Some n ∧ END_OF_CHAIN ≤ n
      | n :: _ => look tbl c = Some n ∧ n < END_OF_CHAIN ∧ linked tbl rest
      end
  end.

Lemma look_range tbl c n : look tbl c = Some n → 0 ≤ c < zlen tbl.
Proof.
  unfold look, zlen. destruct (Z.ltb_spec c 0); [done|]. intros Hl%lookup_lt_Some. lia.
Qed.

Lemma look_some tbl c : 0 ≤ c < zlen tbl → ∃ n, look tbl c = Some n.
Proof.
  unfold look, zlen. intros Hc. destruct (Z.ltb_spec c 0); [lia|].
  destruct (lookup_lt_is_Some_2 tbl (Z.to_nat c)) as [n Hn]; [lia|eauto].
Qed.

Lemma index_look tbl c n : look tbl c = Some n → index tbl c = Ret n.
Proof. unfold look, index. destruct (c <? 0); [done|]. by intros ->. Qed.

Lemma look_insert_eq tbl c v : 0 ≤ c < zlen tbl → look (<[Z.to_nat c := v]> tbl) c = Some v.
Proof.
  unfold look, zlen. intros Hc. destruct (Z.ltb_spec c 0); [lia|]. by rewrite list_lookup_insert_eq by lia.
Qed.

Lemma look_insert_ne tbl c c' v : 0 ≤ c → c' ≠ c → look (<[Z.to_nat c := v]> tbl) c' = look tbl c'.
Proof.
  unfold look. intros Hc Hne. destruct (Z.ltb_spec c' 0); [done|]. by rewrite list_lookup_insert_ne by lia.
Qed.

Lemma linked_tail tbl c cs : linked tbl (c :: cs) → linked tbl cs.
Proof. destruct cs; simpl; tauto. Qed.

Lemma linked_suffix tbl l1 l2 : linked tbl (l1 ++ l2) → linked tbl l2.
Proof. induction l1 as [|c l1 IH]; [done|]. intros H%linked_tail. auto. Qed.

Lemma linked_range tbl cs c : linked tbl cs → c ∈ cs → 0 ≤ c < zlen tbl.
Proof.
  intros Hl (l1 & l2 & ->)%list_elem_of_split. apply linked_suffix in Hl.
  destruct l2 as [|n l2]; [destruct Hl as (n & Hn & _)|destruct Hl as (Hn & _)]; by eapply look_range.
Qed.

(** The chain from a cluster is unique. *)
Lemma linked_det tbl c cs1 cs2 : linked tbl (c :: cs1) → linked tbl (c :: cs2) → cs1 = cs2.
Proof.
  revert c cs2. induction cs1 as [|n1 cs1 IH]; intros c [|n2 cs2]; [done|..].
  - intros (n & Hn & ?) (Hn2 & ? & _). rewrite Hn in Hn2. simplify_eq. lia.
  - intros (Hn2 & ? & _) (n & Hn & ?). rewrite Hn in Hn2. simplify_eq. lia.
  - intros (Hn1 & _ & H1) (Hn2 & _ & H2). rewrite Hn1 in Hn2. simplify_eq. f_equal. by apply (IH n2).
Qed.

Lemma linked_nodup tbl cs : linked tbl cs → NoDup cs.
Proof.
  induction cs as [|c cs IH]; intros Hl; [constructor|]. constructor; [|by eapply IH, linked_tail].
  intros (l1 & l2 & ->)%list_elem_of_split. pose proof (linked_suffix tbl (c :: l1) _ Hl) as Hs.
  pose proof (linked_det _ _ _ _ Hl Hs) as E. apply (f_equal length) in E. rewrite length_app in E. simpl in E. lia.
Qed.

Lemma linked_other tbl tbl' cs : (∀ c, c ∈ cs → look tbl' c = look tbl c) → linked tbl cs → linked tbl' cs.
Proof.
  induction cs as [|c cs IH]; intros Hsame; [done|]. simpl. rewrite (Hsame c) by left. destruct cs as [|n cs]; [done|].
  intros (? & ? & ?). split; [done|]. split; [done|]. apply IH; [|done]. intros c' Hc'. apply Hsame. by right.
Qed.

(** As many steps as distinct clusters fit below the length of the table. *)
Lemma nodup_range_length (cs : list Z) n : NoDup cs → (∀ c, c ∈ cs → 0 ≤ c < n) → 0 ≤ n → zlen cs ≤ n.
Proof.
  intros Hnd Hr Hn. assert (Hs : (Z.to_nat <$> cs) ⊆+ seq 0 (Z.to_nat n)).
  { apply NoDup_submseteq.
    - apply NoDup_fmap_2_strong; [|done]. intros x y Hx%Hr Hy%Hr E. lia.
    - intros x (c & -> & Hc%Hr)%list_elem_of_fmap. apply elem_of_seq. lia. }
  apply submseteq_length in Hs. rewrite length_fmap, length_seq in Hs. unfold zlen. lia.
Qed.

Lemma get_clusters_linked tbl c cs : linked tbl (c :: cs) → get_clusters_for_file tbl c = Ret (c :: cs).
Proof.
  intros Hl. unfold get_clusters_for_file.
  assert (Hlen : zlen (c :: cs) ≤ zlen tbl).
  { apply nodup_range_length; [by eapply linked_nodup| |apply zlen_nonneg]. intros c'. by apply linked_range. }
  set (P := λ r : list Z, r = c :: cs).
  assert (Hr : returns (while_loop (λ '(clusters, cluster),
      next_cluster ← index tbl cluster;
      Ret (if END_OF_CHAIN <=? next_cluster then inr clusters
           else inl (clusters ++ [next_cluster], next_cluster))) (Pos.of_succ_nat (length tbl)) ([c], c)) P).
  { apply (while_loop_variant _ (λ n '(clusters, cur), ∃ pre post, c :: cs = pre ++ cur :: post ∧
        clusters = pre ++ [cur] ∧ n = zlen post)) with (zlen cs).
    - intros n [clusters cur] (pre & post & E & -> & ->) _.
      assert (Hc : linked tbl (cur :: post)) by (apply (linked_suffix tbl pre); by rewrite <- E).
      destruct post as [|nx post].
      + destruct Hc as (v & Hv & Hge). rewrite (index_look _ _ _ Hv), ret_bind. apply returns_ret.
        destruct (Z.leb_spec END_OF_CHAIN v); [|lia]. by unfold P.
      + destruct Hc as (Hv & Hlt & Hc). rewrite (index_look _ _ _ Hv), ret_bind. apply returns_ret.
        destruct (Z.leb_spec END_OF_CHAIN nx); [lia|]. exists (zlen post). rewrite zlen_cons. pose proof (zlen_nonneg post).
        split; [|lia]. exists (pre ++ [cur]), post. split; [|done]. by rewrite E, <- app_assoc.
    - by exists [], cs.
    - rewrite zlen_cons in Hlen. pose proof (zlen_nonneg cs). unfold zlen in *. lia. }
  by destruct Hr as (r & -> & ->).
Qed.

(** Whatever the loop returns is a chain. *)
Lemma get_clusters_inv tbl c r : get_clusters_for_file tbl c = Ret r → ∃ cs, r = c :: cs ∧ linked tbl r.
Proof.
  unfold get_clusters_for_file. intros Hr%while_loop_runs. remember ([c], c) as s eqn:Es.
  assert (Hgen : ∀ pre cur, s = (pre ++ [cur], cur) → ∃ post, r = pre ++ cur :: post ∧ linked tbl (cur :: post)).
  2:{ destruct (Hgen [] c Es) as (post & -> & ?). by exists post. }
  clear Es. induction Hr as [s r E|s s' r E Hr IH]; intros pre cur ->.
  - apply bind_ret_inv in E as (v & Hv & [= E]). destruct (Z.leb_spec END_OF_CHAIN v); [|done]. injection E as <-.
    exists []. split; [done|]. exists v. split; [|done]. unfold index, look in *. destruct (cur <? 0); [done|].
    by destruct (tbl !! Z.to_nat cur); simplify_eq.
  - apply bind_ret_inv in E as (v & Hv & [= E]). destruct (Z.leb_spec END_OF_CHAIN v); [done|]. injection E as <-.
    destruct (IH (pre ++ [cur]) v eq_refl) as (post & -> & Hl). exists (v :: post). rewrite <- app_assoc. split; [done|].
    split; [|by split]. unfold index, look in *. destruct (cur <? 0); [done|]. by destruct (tbl !! Z.to_nat cur); simplify_eq.
Qed.

(** ** Linking and releasing *)

Lemma link_spec fr tbl : NoDup fr.*1 → (∀ c, c ∈ fr.*1 → 0 ≤ c < zlen tbl) → zlen tbl ≤ END_OF_CHAIN →
  returns (link_clusters fr tbl) (λ tbl', zlen tbl' = zlen tbl ∧ linked tbl' fr.*1 ∧
    ∀ c, c ∉ fr.*1 → look tbl' c = look tbl c).
Proof.
  revert tbl. induction fr as [|[c v] fr IH]; intros tbl Hnd Hr Hlen; [by apply returns_ret|].
  rewrite fmap_cons in *. cbn [fst] in *. apply NoDup_cons in Hnd as [Hc Hnd].
  cbn [link_clusters]. rewrite store_as_insert by (apply Hr; left). rewrite ret_bind. cbn [fst].
  assert (Hc0 : 0 ≤ c < zlen tbl) by (apply Hr; left).
  eapply returns_mono; [apply IH; [done| |]|].
  - intros c' Hc'. rewrite zlen_insert. apply Hr. by right.
  - by rewrite zlen_insert.
  - intros tbl' (Hz & Hl & Hsame). rewrite zlen_insert in Hz. split; [done|]. split.
    + destruct fr as [|[n w] fr].
      * exists FAT_END_OF_FILE_MARK. rewrite Hsame, look_insert_eq by done. unfold FAT_END_OF_FILE_MARK. split; [done|lia].
      * rewrite fmap_cons in *. cbn [fst] in *. assert (Hn : 0 ≤ n < zlen tbl) by (apply Hr; right; left).
        split; [|split; [lia|exact Hl]]. rewrite Hsame, look_insert_eq by done. by rewrite Z.mod_small by lia.
    + intros c' [Hne Hn]%not_elem_of_cons. by rewrite Hsame, look_insert_ne by (done || lia).
Qed.

Lemma store_all_spec cs v tbl : (∀ c, c ∈ cs → 0 ≤ c < zlen tbl) →
  returns (store_all cs v tbl) (λ tbl', zlen tbl' = zlen tbl ∧
    ∀ c, look tbl' c = if decide (c ∈ cs) then Some v else look tbl c).
Proof.
  revert tbl. induction cs as [|c cs IH]; intros tbl Hr; cbn [store_all].
  - apply returns_ret. split; [done|]. intros c. rewrite decide_False by set_solver. done.
  - assert (Hc : 0 ≤ c < zlen tbl) by (apply Hr; left). rewrite store_as_insert by done. rewrite ret_bind.
    eapply returns_mono; [apply IH; intros c' Hc'; rewrite zlen_insert; apply Hr; by right|].
    intros tbl' [Hz Hl]. rewrite zlen_insert in Hz. split; [done|]. intros c'. rewrite Hl.
    destruct (decide (c' ∈ cs)); [by rewrite decide_True by (by right)|].
    destruct (decide (c' = c)) as [->|Hne].
    + by rewrite look_insert_eq, decide_True by (done || left).
    + rewrite look_insert_ne by (done || lia). rewrite decide_False; [done|]. by intros [?|?]%elem_of_cons.
Qed.

(** The free clusters in order. *)
Definition free_clusters (tbl : list Z) : list Z :=
  (filter (λ entry, entry.2 = FAT_FREE_SECTOR) (imap (λ i v, (Z.of_nat i, v)) tbl)).*1.

Lemma free_clusters_spec tbl c : c ∈ free_clusters tbl ↔ look tbl c = Some FAT_FREE_SECTOR.
Proof.
  unfold free_clusters. rewrite list_elem_of_fmap. split.
  - intros ([i v] & -> & [Hv Hi]%list_elem_of_filter). simpl in *. subst v.
    apply elem_of_lookup_imap_1 in Hi as (k & w & [= -> <-] & Hk). unfold look.
    destruct (Z.ltb_spec (Z.of_nat k) 0); [lia|]. by rewrite Nat2Z.id.
  - unfold look. destruct (Z.ltb_spec c 0); [done|]. intros Hc. exists (c, FAT_FREE_SECTOR). split; [done|].
    apply list_elem_of_filter. split; [done|]. apply elem_of_lookup_imap. exists (Z.to_nat c), FAT_FREE_SECTOR.
    split; [by rewrite Z2Nat.id by lia|done].
Qed.

Lemma free_clusters_nodup tbl : NoDup (free_clusters tbl).
Proof.
  apply (sublist_NoDup _ (imap (λ i v, (Z.of_nat i, v)) tbl).*1).
  2: apply fmap_sublist, sublist_filter.
  - assert (E : ∀ k, (imap (λ i v, (Z.of_nat (k + i), v)) tbl).*1 = Z.of_nat <$> seq k (length tbl)).
    { induction tbl as [|v tbl IH]; intros k; [done|]. cbn [imap length seq]. rewrite !fmap_cons. cbn [fst].
      rewrite Nat.add_0_r. f_equal. rewrite <- IH. f_equal. apply imap_ext. intros i w _. simpl. by rewrite Nat.add_succ_r. }
    specialize (E 0%nat). simpl in E. rewrite E. apply NoDup_fmap_2; [apply _|apply NoDup_seq].
Qed.

(** ** Files

    [fat_ok tbl files]: every file is a chain of data clusters, and no
    cluster belongs to two files or twice to one. *)

Record fat_ok (tbl : list Z) (files : list (list Z)) : Prop := {
  ok_linked : Forall (λ cs, cs ≠ [] ∧ linked tbl cs) files;
  ok_apart : NoDup (mjoin files);
  ok_data : ∀ c, c ∈ mjoin files → 2 ≤ c;
  ok_reserved : ∀ c, look tbl c = Some FAT_FREE_SECTOR → 2 ≤ c;
  ok_length : zlen tbl ≤ END_OF_CHAIN
}.

(** A cluster of a file is not free. *)
Lemma used_not_free tbl files c : fat_ok tbl files → c ∈ mjoin files → look tbl c ≠ Some FAT_FREE_SECTOR.
Proof.
  intros [Hl _ Hd _ _] Hc E. pose proof Hc as Hin. rewrite list_elem_of_join in Hin. destruct Hin as (cs & Hcs & Hfs).
  pose proof (proj1 (Forall_forall _ _) Hl cs Hfs) as [_ Hlk].
  pose proof Hcs as (l1 & l2 & ->)%list_elem_of_split. apply linked_suffix in Hlk. unfold FAT_FREE_SECTOR in E.
  destruct l2 as [|n l2].
  - destruct Hlk as (n & Hn & Hge). rewrite E in Hn. simplify_eq. lia.
  - destruct Hlk as (Hn & _). rewrite E in Hn. simplify_eq. specialize (Hd 0). 
    assert (2 ≤ 0); [|lia]. apply Hd. rewrite list_elem_of_join. exists (l1 ++ c :: 0 :: l2). split; [|done].
    apply elem_of_app. right. right. left.
Qed.

Lemma allocate_spec tbl files count : fat_ok tbl files → 0 ≤ count → count + 1 < U64 →
  returns (allocate_and_link_clusters count tbl) (λ '(r, tbl'),
    let cs := ztake (count + 1) (free_clusters tbl) in
    if zlen (free_clusters tbl) <? count then r = inr NotEnoughSpace ∧ tbl' = tbl
    else (∃ fr, r = inl fr ∧ fr.*1 = cs) ∧ zlen tbl' = zlen tbl ∧ linked tbl' cs ∧
      (∀ c, c ∉ cs → look tbl' c = look tbl c)).
Proof.
  intros Hok Hc Hu. unfold allocate_and_link_clusters, find_free_clusters. rewrite add_chk_ret by lia. rewrite !ret_bind.
  set (fl := filter _ _). assert (Efl : fl.*1 = free_clusters tbl) by done.
  assert (Ez : zlen fl = zlen (free_clusters tbl)) by (unfold zlen; by rewrite <- Efl, length_fmap).
  assert (El : (zlen (ztake (count + 1) fl) <? count) = (zlen (free_clusters tbl) <? count)).
  { rewrite <- Ez. unfold zlen, ztake. rewrite length_take. apply eq_true_iff_eq. rewrite !Z.ltb_lt. lia. }
  rewrite El. destruct (Z.ltb_spec (zlen (free_clusters tbl)) count); [by apply returns_ret|].
  assert (Ecs : (ztake (count + 1) fl).*1 = ztake (count + 1) (free_clusters tbl)).
  { unfold ztake. by rewrite fmap_take, Efl. }
  eapply returns_bind; [apply link_spec|].
  - rewrite Ecs. eapply sublist_NoDup; [apply free_clusters_nodup|apply sublist_take].
  - rewrite Ecs. intros c Hin. apply (look_range _ _ FAT_FREE_SECTOR), free_clusters_spec.
    unfold ztake in Hin. apply elem_of_take in Hin as (i & Hi & _). by eapply list_elem_of_lookup_2.
  - apply Hok.
  - intros tbl' (Hz & Hl & Hsame). rewrite Ecs in *. apply returns_ret. split; [|done]. by eexists.
Qed.

Lemma fat_ok_perm tbl files files' : files ≡ₚ files' → fat_ok tbl files → fat_ok tbl files'.
Proof.
  intros Hp [Hl Ha Hd Hr Hn]. split; [by rewrite <- Hp| |intros c Hc; apply Hd|done|done].
  - by rewrite <- Hp.
  - by rewrite Hp.
Qed.

(** Every file is linked and its clusters are its own. *)
Lemma file_linked tbl files cs : fat_ok tbl files → cs ∈ files → linked tbl cs.
Proof. intros [Hl _ _ _ _] Hc. by apply (proj1 (Forall_forall _ _) Hl cs). Qed.

Lemma in_files c cs (files : list (list Z)) : c ∈ cs → cs ∈ files → c ∈ mjoin files.
Proof. intros. apply list_elem_of_join. eauto. Qed.

Lemma mjoin_cons (cs : list Z) files : mjoin (cs :: files) = cs ++ mjoin files.
Proof. done. Qed.

Lemma fat_ok_alloc tbl tbl' files cs :
  fat_ok tbl files → cs ≠ [] → linked tbl' cs → zlen tbl' = zlen tbl →
  (∀ c, c ∉ cs → look tbl' c = look tbl c) → (∀ c, c ∈ cs → look tbl c = Some FAT_FREE_SECTOR) →
  fat_ok tbl' (cs :: files).
Proof.
  intros Hok Hne Hl Hz Hsame Hfree. pose proof Hok as [Hls Ha Hd Hr Hn].
  assert (Hdis : ∀ c, c ∈ mjoin files → c ∉ cs) by (intros c Hc Hin; by apply (used_not_free _ _ _ Hok Hc), Hfree).
  split.
  - constructor; [done|]. rewrite Forall_forall in *. intros ds Hds. destruct (Hls ds Hds) as [? Hld]. split; [done|].
    apply (linked_other tbl); [|done]. intros c Hc. apply Hsame, Hdis. by eapply in_files.
  - rewrite mjoin_cons. apply NoDup_app. split; [by eapply linked_nodup|]. split; [|done]. intros c Hc Hin. by apply (Hdis c).
  - intros c [Hc|Hc]%elem_of_app; [by apply Hr, Hfree|by apply Hd].
  - intros c Hc. destruct (decide (c ∈ cs)); [by apply Hr, Hfree|]. apply Hr. by rewrite <- Hsame.
  - by rewrite Hz.
Qed.

Lemma linked_append tbl cs l n new : linked tbl (cs ++ [l]) → linked tbl (n :: new) → NoDup (cs ++ [l] ++ n :: new) →
  n < END_OF_CHAIN → linked (<[Z.to_nat l := n]> tbl) (cs ++ [l] ++ n :: new).
Proof.
  intros Hcs Hnew Hnd Hn. assert (Hl : 0 ≤ l < zlen tbl) by (apply (linked_range _ _ _ Hcs); apply elem_of_app; right; left).
  assert (Hbase : linked (<[Z.to_nat l := n]> tbl) (l :: n :: new)).
  { split; [by apply look_insert_eq|]. split; [done|]. apply (linked_other tbl); [|exact Hnew].
    intros c Hc. apply look_insert_ne; [lia|]. intros ->. apply NoDup_app in Hnd as (_ & _ & Hnd).
    apply NoDup_app in Hnd as (_ & Hx & _). apply (Hx l); [left|done]. }
  induction cs as [|c cs IH]; [exact Hbase|]. simpl in Hnd. apply NoDup_cons in Hnd as [Hc Hnd].
  assert (Hcl : c ≠ l) by (intros ->; apply Hc, elem_of_app; right; left).
  specialize (IH (linked_tail _ _ _ Hcs) Hnd). destruct cs as [|c2 cs]; simpl in *;
    destruct Hcs as (H1 & H2 & H3); (split; [by rewrite look_insert_ne by (done || lia)|]); (split; [done|exact IH]).
Qed.

Lemma fat_ok_append tbl cs l n new files : fat_ok tbl ((cs ++ [l]) :: (n :: new) :: files) →
  fat_ok (<[Z.to_nat l := n]> tbl) ((cs ++ [l] ++ n :: new) :: files).
Proof.
  intros Hok. pose proof Hok as [Hls Ha Hd Hr Hn]. apply Forall_cons in Hls as [[_ Hcs] Hls].
  apply Forall_cons in Hls as [[_ Hnew] Hls]. rewrite !mjoin_cons in Ha, Hd.
  assert (Hap : NoDup ((cs ++ [l] ++ n :: new) ++ mjoin files)) by (rewrite <- !app_assoc in *; exact Ha).
  pose proof Hap as (Hnd & Hdis & _)%NoDup_app.
  assert (Hl : 0 ≤ l < zlen tbl) by (apply (linked_range _ _ _ Hcs); apply elem_of_app; right; left).
  assert (Hn0 : 0 ≤ n < zlen tbl) by (apply (linked_range _ _ _ Hnew); left).
  split.
  - constructor; [split; [by destruct cs|apply linked_append; [done|done|done|lia]]|]. rewrite Forall_forall in *.
    intros ds Hds. destruct (Hls ds Hds) as [? Hld]. split; [done|]. apply (linked_other tbl); [|done].
    intros c Hc. apply look_insert_ne; [lia|]. intros ->. apply (Hdis l); [apply elem_of_app; right; left|by eapply in_files].
  - exact Hap.
  - intros c Hc. apply Hd. rewrite mjoin_cons, <- !app_assoc in *. exact Hc.
  - intros c. destruct (decide (c = l)) as [->|Hne].
    + intros _. apply Hd. rewrite <- !app_assoc. apply elem_of_app. right. left.
    + rewrite look_insert_ne by (done || lia). apply Hr.
  - by rewrite zlen_insert.
Qed.

Lemma fat_ok_release tbl tbl' cs files : fat_ok tbl (cs :: files) → zlen tbl' = zlen tbl →
  (∀ c, look tbl' c = if decide (c ∈ cs) then Some FAT_FREE_SECTOR else look tbl c) → fat_ok tbl' files.
Proof.
  intros [Hls Ha Hd Hr Hn] Hz Hlook. apply Forall_cons in Hls as [_ Hls]. rewrite !mjoin_cons in Ha, Hd.
  apply NoDup_app in Ha as (_ & Hdis & Ha). split; [|done| | |lia].
  - rewrite Forall_forall in *. intros ds Hds. destruct (Hls ds Hds) as [? Hld]. split; [done|].
    apply (linked_other tbl); [|done]. intros c Hc. rewrite Hlook, decide_False; [done|]. intros Hin.
    apply (Hdis c Hin). by apply (in_files c ds).
  - intros c Hc. apply Hd, elem_of_app. by right.
  - intros c. rewrite Hlook. case_decide; [|apply Hr]. intros _. apply Hd, elem_of_app. by left.
Qed.

(** ** What the operations do to the files *)

Lemma new_chain_spec tbl files count : fat_ok tbl files → 0 ≤ count → count + 1 < U64 →
  returns (allocate_and_link_clusters count tbl) (λ '(r, tbl'),
    match r with
    | inr e => e = NotEnoughSpace ∧ tbl' = tbl ∧ zlen (free_clusters tbl) < count
    | inl fr => fr.*1 = ztake (count + 1) (free_clusters tbl) ∧ (fr ≠ [] → fat_ok tbl' (fr.*1 :: files))
    end).
Proof.
  intros Hok Hc Hu. eapply returns_mono; [by apply (allocate_spec tbl files count)|]. intros [r tbl'] Hr. simpl in Hr.
  destruct (Z.ltb_spec (zlen (free_clusters tbl)) count) as [Hlt|_]; [by destruct Hr as [-> ->]|].
  destruct Hr as ((fr & -> & Efr) & Hz & Hl & Hsame). split; [done|]. intros Hne. rewrite Efr.
  apply (fat_ok_alloc tbl); [done| |done|done|done|].
  - rewrite <- Efr. by destruct fr.
  - intros c Hin. apply free_clusters_spec. unfold ztake in Hin. apply elem_of_take in Hin as (i & Hi & _).
    by eapply list_elem_of_lookup_2.
Qed.

Lemma append_spec tbl cs l files count : fat_ok tbl ((cs ++ [l]) :: files) → 0 ≤ count → count + 1 < U64 →
  free_clusters tbl ≠ [] →
  returns (append_clusters l count tbl) (λ '(r, tbl'),
    match r with
    | inr e => e = NotEnoughSpace ∧ tbl' = tbl ∧ zlen (free_clusters tbl) < count
    | inl fr => fr.*1 = ztake (count + 1) (free_clusters tbl) ∧ fat_ok tbl' ((cs ++ [l] ++ fr.*1) :: files)
    end).
Proof.
  intros Hok Hc Hu Hfree. unfold append_clusters.
  eapply returns_bind; [by apply (new_chain_spec tbl ((cs ++ [l]) :: files) count)|]. intros [[fr|e] tbl'] Hr.
  2:{ by apply returns_ret. }
  destruct Hr as [Efr Hok']. destruct fr as [|[n v] fr].
  { exfalso. destruct (free_clusters tbl) as [|c fl]; [done|]. unfold ztake in Efr.
    destruct (Z.to_nat (count + 1)) eqn:E; [lia|done]. }
  specialize (Hok' ltac:(done)). rewrite fmap_cons in *. cbn [fst] in *. pose proof Hok' as [Hls _ _ _ Hn].
  apply Forall_cons in Hls as [[_ Hnew] Hls]. apply Forall_cons in Hls as [[_ Hcs] _].
  assert (Hl : 0 ≤ l < zlen tbl') by (apply (linked_range _ _ _ Hcs); apply elem_of_app; right; left).
  assert (Hn0 : 0 ≤ n < zlen tbl') by (apply (linked_range _ _ _ Hnew); left).
  rewrite store_as_insert by done. rewrite ret_bind. apply returns_ret. split; [done|].
  rewrite Z.mod_small by lia. apply fat_ok_append. eapply fat_ok_perm; [|exact Hok']. constructor.
Qed.

Lemma release_spec tbl c cs files : fat_ok tbl ((c :: cs) :: files) →
  returns (mark_clusters_as_free c tbl) (λ tbl', fat_ok tbl' files ∧ zlen tbl' = zlen tbl ∧
    ∀ c', c' ∈ free_clusters tbl' ↔ c' ∈ c :: cs ∨ c' ∈ free_clusters tbl).
Proof.
  intros Hok. pose proof (file_linked _ _ (c :: cs) Hok ltac:(left)) as Hl. unfold mark_clusters_as_free.
  rewrite (get_clusters_linked _ _ _ Hl), ret_bind.
  eapply returns_mono; [apply store_all_spec; intros c'; by apply linked_range|]. intros tbl' [Hz Hlook].
  split; [by apply (fat_ok_release tbl tbl' (c :: cs))|]. split; [done|]. intros c'. rewrite !free_clusters_spec, Hlook.
  case_decide; [tauto|]. split; [by right|]. by intros [?|?].
Qed.

(** ** Reachable tables *)

(** What happens to the chains: one grows behind its last cluster (a file that
    is written past its end, a directory that is full), one is released (a file
    or directory that is deleted); the order of the files does not matter.
    Creating an entry allocates nothing.  [FatFile::shrink] is not among the
    steps: it writes its end mark to the entry of another cluster. *)
Inductive table_step : list Z * list (list Z) → list Z * list (list Z) → Prop :=
| step_grow tbl cs l files count fr tbl' :
    0 ≤ count → count + 1 < U64 → append_clusters l count tbl = Ret (inl fr, tbl') →
    table_step (tbl, (cs ++ [l]) :: files) (tbl', (cs ++ [l] ++ fr.*1) :: files)
| step_release tbl c cs files tbl' :
    mark_clusters_as_free c tbl = Ret tbl' → table_step (tbl, (c :: cs) :: files) (tbl', files)
| step_reorder tbl files files' : files ≡ₚ files' → table_step (tbl, files) (tbl, files').

Lemma append_needs_free l count tbl r : fat_ok tbl [] → 0 ≤ count → count + 1 < U64 →
  append_clusters l count tbl = Ret (inl r.1, r.2) → free_clusters tbl ≠ [].
Proof.
  intros Hok Hc Hu E Hf. unfold append_clusters in E. apply bind_ret_inv in E as ([o tbl'] & Ea & E).
  destruct (new_chain_spec tbl [] count Hok Hc Hu) as ([o2 tbl2] & Ea2 & Hs). rewrite Ea in Ea2. injection Ea2 as <- <-.
  destruct o as [fr|e]; [|done]. destruct Hs as [Efr _]. rewrite Hf in Efr. unfold ztake in Efr. rewrite take_nil in Efr.
  by destruct fr.
Qed.

Lemma fat_ok_sub tbl files files' : files' ⊆+ files → fat_ok tbl files → fat_ok tbl files'.
Proof.
  intros (rest & Hp)%submseteq_Permutation [Hl Ha Hd Hr Hn]. rewrite Hp, ?join_app in *. apply Forall_app in Hl as [Hl _].
  apply NoDup_app in Ha as (Ha & _ & _). split; [done|done| |done|done].
  intros c Hc. apply Hd. rewrite Hp, join_app. apply elem_of_app. by left.
Qed.

Lemma table_step_ok s s' : table_step s s' → fat_ok s.1 s.2 → fat_ok s'.1 s'.2.
Proof.
  destruct 1 as [tbl cs l files count fr tbl' Hc Hu E|tbl c cs files tbl' E|tbl files files' Hp];
    simpl; intros Hok.
  - assert (Hf : free_clusters tbl ≠ []).
    { apply (append_needs_free l count tbl (fr, tbl')); [|done..]. eapply fat_ok_sub; [apply submseteq_nil_l|exact Hok]. }
    destruct (append_spec tbl cs l files count Hok Hc Hu Hf) as (r & Er & Hr). rewrite E in Er. injection Er as <-. apply Hr.
  - destruct (release_spec tbl c cs files Hok) as (r & Er & Hr). rewrite E in Er. injection Er as <-. apply Hr.
  - by eapply fat_ok_perm.
Qed.


Definition sample_table : list Z := [268435448; 4294967295; 3; 4294967295; 4294967295; 0; 0; 0].

Lemma sample_table_ok : fat_ok sample_table [[2; 3]; [4]].
Proof.
  split.
  - repeat constructor; try done; by exists 4294967295.
  - simpl. repeat constructor; set_solver.
  - simpl. intros c Hc. set_solver by lia.
  - unfold look. intros c. destruct (Z.ltb_spec c 0); [done|]. intros Hc. destruct (decide (c = 0)) as [->|]; [done|].
    destruct (decide (c = 1)) as [->|]; [done|lia].
  - unfold zlen. simpl. lia.
Qed.

