(* ===== verification/Utf8.v ===== *)
(** * Strings

    A [str] of the source is the list of its UTF-8 bytes.  What the file
    system uses of the standard library: lossy and strict decoding, trimming,
    splitting, searching and cutting at byte positions. *)

From S2P Require Import Prelude.

(** ** Characters *)

Definition scalar (c : Z) : Prop := 0 ≤ c < 55296 ∨ 57344 ≤ c < 1114112.

Definition encode_char (c : Z) : list Z :=
  if c <? 128 then [c]
  else if c <? 2048 then [192 + c / 64; 128 + c mod 64]
  else if c <? 65536 then [224 + c / 4096; 128 + c / 64 mod 64; 128 + c mod 64]
  else [240 + c / 262144; 128 + c / 4096 mod 64; 128 + c / 64 mod 64; 128 + c mod 64].

Definition encode (cs : list Z) : list Z := cs ≫= encode_char.

Definition within (lo hi b : Z) : bool := (lo <=? b) && (b <=? hi).
Definition cont : Z → bool := within 128 191.

Definition char_width (b : Z) : Z :=
  if b <? 128 then 1 else if within 194 223 b then 2 else if within 224 239 b then 3
  else if within 240 244 b then 4 else 0.

(** The second bytes that a three or four byte sequence allows. *)
Definition second_ok (b0 b1 : Z) : bool :=
  if b0 =? 224 then within 160 191 b1
  else if b0 =? 237 then within 128 159 b1
  else if b0 =? 240 then within 144 191 b1
  else if b0 =? 244 then within 128 143 b1
  else cont b1.

(** The first character of [l], or none for an invalid sequence, and the
    bytes it takes. *)
Definition decode_char (l : list Z) : option Z * Z :=
  let b0 := byte_at l 0 in let b1 := byte_at l 1 in let b2 := byte_at l 2 in let b3 := byte_at l 3 in
  match char_width b0 with
  | 1 => (Some b0, 1)
  | 2 => if cont b1 then (Some (b0 mod 32 * 64 + b1 mod 64), 2) else (None, 1)
  | 3 => if second_ok b0 b1 then
           if cont b2 then (Some (b0 mod 16 * 4096 + b1 mod 64 * 64 + b2 mod 64), 3) else (None, 2)
         else (None, 1)
  | 4 => if second_ok b0 b1 then
           if cont b2 then
             if cont b3 then (Some (b0 mod 8 * 262144 + b1 mod 64 * 4096 + b2 mod 64 * 64 + b3 mod 64), 4)
             else (None, 3)
           else (None, 2)
         else (None, 1)
  | _ => (None, 1)
  end.

Fixpoint decode_from (fuel : nat) (l : list Z) : list (option Z) :=
  match fuel, l with
  | S fuel, _ :: _ => let '(c, n) := decode_char l in c :: decode_from fuel (zdrop n l)
  | _, _ => []
  end.
Definition decode (l : list Z) : list (option Z) := decode_from (length l) l.

(** [String::from_utf8_lossy], as characters. *)
Definition lossy_chars (l : list Z) : list Z := (λ c, default 65533 c) <$> decode l.
Definition from_utf8_lossy (l : list Z) : list Z := encode (lossy_chars l).

(** [str::from_utf8] *)
Definition from_utf8 (l : list Z) : option (list Z) :=
  if forallb (λ c, bool_decide (is_Some c)) (decode l) then Some l else None.

(** ** Trimming, splitting, searching *)

Definition is_whitespace (c : Z) : bool :=
  within 9 13 c || (c =? 32) || (c =? 133) || (c =? 160) || (c =? 5760) || within 8192 8202 c
  || (c =? 8232) || (c =? 8233) || (c =? 8239) || (c =? 8287) || (c =? 12288).

Fixpoint drop_white (cs : list Z) : list Z :=
  match cs with [] => [] | c :: rest => if is_whitespace c then drop_white rest else cs end.
(** [trim] *)
Definition trim (cs : list Z) : list Z := reverse (drop_white (reverse (drop_white cs))).

(** [split] at an ASCII character *)
Fixpoint split_at_char (sep : Z) (acc s : list Z) : list (list Z) :=
  match s with
  | [] => [acc]
  | b :: rest => if b =? sep then acc :: split_at_char sep [] rest else split_at_char sep (acc ++ [b]) rest
  end.
Definition split (sep : Z) (s : list Z) : list (list Z) := split_at_char sep [] s.

(** [rfind] of an ASCII character *)
Fixpoint rfind (b : Z) (s : list Z) : option Z :=
  match s with
  | [] => None
  | x :: rest =>
      match rfind b rest with
      | Some i => Some (i + 1)
      | None => if x =? b then Some 0 else None
      end
  end.

Definition is_char_boundary (s : list Z) (i : Z) : bool :=
  (i =? 0) || (i =? zlen s) || ((0 <? i) && (i <? zlen s) && negb (cont (byte_at s i))).

(** [split_at] *)
Definition split_str (s : list Z) (i : Z) : res (list Z * list Z) :=
  if is_char_boundary s i then Ret (ztake i s, zdrop i s) else Crash Panic.

(** [to_ascii_uppercase] *)
Definition to_ascii_uppercase (s : list Z) : list Z := (λ b, if within 97 122 b then b - 32 else b) <$> s.

(** ** Decoding inverts encoding *)

Lemma within_true lo hi b : lo ≤ b ≤ hi → within lo hi b = true.
Proof. intros. apply andb_true_intro. split; lia. Qed.
Lemma within_false lo hi b : b < lo ∨ hi < b → within lo hi b = false.
Proof. intros. apply andb_false_iff. destruct H as [?|?]; [left|right]; lia. Qed.

Lemma char_width_2 b : 194 ≤ b ≤ 223 → char_width b = 2.
Proof. intros. unfold char_width. destruct (Z.ltb_spec b 128); [lia|]. by rewrite within_true. Qed.
Lemma char_width_3 b : 224 ≤ b ≤ 239 → char_width b = 3.
Proof.
  intros. unfold char_width. destruct (Z.ltb_spec b 128); [lia|]. by rewrite within_false, within_true by lia.
Qed.
Lemma char_width_4 b : 240 ≤ b ≤ 244 → char_width b = 4.
Proof.
  intros. unfold char_width. destruct (Z.ltb_spec b 128); [lia|]. by rewrite !within_false, within_true by lia.
Qed.

(** The second byte excludes what is too long, the surrogates and what is
    too large. *)
Lemma second_ok_true b0 b1 : 128 ≤ b1 ≤ 191 → (b0 = 224 → 160 ≤ b1) → (b0 = 237 → b1 ≤ 159) →
  (b0 = 240 → 144 ≤ b1) → (b0 = 244 → b1 ≤ 143) → second_ok b0 b1 = true.
Proof.
  intros. unfold second_ok, cont.
  destruct (Z.eqb_spec b0 224); [by rewrite within_true by lia|]. destruct (Z.eqb_spec b0 237); [by rewrite within_true by lia|].
  destruct (Z.eqb_spec b0 240); [by rewrite within_true by lia|]. destruct (Z.eqb_spec b0 244); by rewrite within_true by lia.
Qed.

Lemma decode_encode_char c r : scalar c →
  decode_char (encode_char c ++ r) = (Some c, zlen (encode_char c)) ∧ encode_char c ≠ [].
Proof.
  intros Hc. unfold encode_char, decode_char, scalar in *.
  destruct (Z.ltb_spec c 128); [|destruct (Z.ltb_spec c 2048); [|destruct (Z.ltb_spec c 65536)]]; (split; [|done]);
    unfold byte_at; cbn [app lookup list_lookup Z.to_nat Pos.to_nat Pos.iter_op default].
  - simpl. unfold char_width. destruct (Z.ltb_spec c 128); [done|lia].
  - simpl. rewrite char_width_2 by mlia. unfold cont. rewrite within_true by mlia. do 2 f_equal. mlia.
  - simpl. rewrite char_width_3 by mlia. rewrite second_ok_true by mlia. unfold cont. rewrite within_true by mlia.
    do 2 f_equal. mlia.
  - simpl. rewrite char_width_4 by mlia. rewrite second_ok_true by mlia. unfold cont. rewrite !within_true by mlia.
    do 2 f_equal. mlia.
Qed.

Lemma decode_from_encode cs fuel : Forall scalar cs → (length (encode cs) ≤ fuel)%nat →
  decode_from fuel (encode cs) = Some <$> cs.
Proof.
  intros Hs. revert fuel. induction Hs as [|c cs Hc Hs IH]; intros fuel Hf; [by destruct fuel|].
  change (encode (c :: cs)) with (encode_char c ++ encode cs) in *. rewrite length_app in Hf.
  destruct (decode_encode_char c (encode cs) Hc) as [Hd Hne].
  destruct (encode_char c) as [|b l] eqn:Ec; [done|]. destruct fuel as [|fuel]; [simpl in Hf; lia|].
  cbn [decode_from app]. change (b :: l ++ encode cs) with ((b :: l) ++ encode cs). rewrite Hd, fmap_cons. f_equal.
  replace (zdrop (zlen (b :: l)) ((b :: l) ++ encode cs)) with (encode cs).
  - apply IH. simpl in Hf. lia.
  - unfold zdrop, zlen. rewrite Nat2Z.id. by rewrite drop_app_length.
Qed.

Lemma decode_encode cs : Forall scalar cs → decode (encode cs) = Some <$> cs.
Proof. intros. by apply decode_from_encode. Qed.

Lemma lossy_encode cs : Forall scalar cs → lossy_chars (encode cs) = cs.
Proof.
  intros Hs. unfold lossy_chars. rewrite decode_encode by done. rewrite <- list_fmap_compose.
  rewrite <- (list_fmap_id cs) at 2. by apply list_fmap_ext.
Qed.

Lemma from_utf8_encode cs : Forall scalar cs → from_utf8 (encode cs) = Some (encode cs).
Proof.
  intros Hs. unfold from_utf8. rewrite decode_encode by done.
  replace (forallb _ _) with true; [done|]. induction Hs as [|c cs Hc Hs IH]; [done|]. simpl. done.
Qed.

(** A name without white space at its ends, padded with blanks, trims to
    itself. *)
Definition trimmed (cs : list Z) : Prop :=
  (∀ c, head cs = Some c → is_whitespace c = false) ∧ (∀ c, last cs = Some c → is_whitespace c = false).

Lemma drop_white_blanks n cs : drop_white (replicate n 32 ++ cs) = drop_white cs.
Proof. induction n; simpl; auto. Qed.

Lemma drop_white_id cs : (∀ c, head cs = Some c → is_whitespace c = false) → drop_white cs = cs.
Proof. destruct cs as [|c cs]; intros H; [done|]. simpl. by rewrite (H c). Qed.

Lemma trim_padded cs n : cs ≠ [] → trimmed cs → trim (cs ++ replicate n 32) = cs.
Proof.
  intros Hne [Hh Ht]. unfold trim. rewrite (drop_white_id (cs ++ _)).
  - rewrite reverse_app, reverse_replicate, drop_white_blanks, drop_white_id; [apply reverse_involutive|].
    intros c Hc. apply Ht. by rewrite head_reverse in Hc.
  - intros c Hc. apply Hh. by destruct cs.
Qed.
