(* ===== verification/FatEntry.v ===== *)
(** * Directory entries on disk

    [fs/src/fat32/mod.rs]: the 32-byte directory entry and its long-name
    variant, their bytes, attribute bits, and packed dates and times.  The
    calendar of [chrono] is an interface with its laws; derived readers and
    casts follow the layout the structures declare. *)

From S2P Require Import Prelude Clock.

(** ** Attributes *)

Definition READ_ONLY : Z := 1.
Definition HIDDEN : Z := 2.
Definition SYSTEM : Z := 4.
Definition VOLUME_ID : Z := 8.
Definition DIRECTORY : Z := 16.
Definition ARCHIVE : Z := 32.

Definition contains_flag (bits flag : Z) : bool := Z.land bits flag =? flag.
(** [from_bits(..).unwrap()] and [.expect()]: no bits but the declared ones. *)
Definition from_bits (b : Z) : res Z := if Z.land b (Z.lnot 63) =? 0 then Ret b else Crash Panic.

Definition is_long_name_entry (attr : Z) : bool :=
  contains_flag attr READ_ONLY && contains_flag attr HIDDEN && contains_flag attr SYSTEM
  && contains_flag attr VOLUME_ID.
Definition is_directory (attr : Z) : bool := contains_flag attr DIRECTORY.

(** The attributes of the file system interface. *)
Module Attr.
Definition ARCHIVE : Z := 1.
Definition HIDDEN : Z := 2.
Definition READ_ONLY : Z := 4.
Definition SYSTEM_FILE : Z := 8.
Definition DIRECTORY : Z := 16.
End Attr.

(** [if value.contains(from) { acc |= to }] *)
Definition copy_flag (value from to acc : Z) : Z := if contains_flag value from then Z.lor acc to else acc.

Definition fat_attributes (value : Z) : Z :=
  copy_flag value Attr.DIRECTORY DIRECTORY (copy_flag value Attr.SYSTEM_FILE SYSTEM
    (copy_flag value Attr.READ_ONLY READ_ONLY (copy_flag value Attr.HIDDEN HIDDEN
      (copy_flag value Attr.ARCHIVE ARCHIVE 0)))).

Definition attributes_of (value : Z) : Z :=
  copy_flag value DIRECTORY Attr.DIRECTORY (copy_flag value SYSTEM Attr.SYSTEM_FILE
    (copy_flag value READ_ONLY Attr.READ_ONLY (copy_flag value HIDDEN Attr.HIDDEN
      (copy_flag value ARCHIVE Attr.ARCHIVE 0)))).

(** ** Entries *)

Record RawFatFileEntry := mkRaw {
  r_name : list Z; r_attr : Z; r_nt_res : Z; r_creation_time_milliseconds : Z; r_creation_time : Z;
  r_creation_date : Z; r_last_access_date : Z; r_first_cluster_high : Z; r_last_write_time : Z;
  r_last_write_date : Z; r_first_cluster_low : Z; r_file_size : Z
}.
#[global] Instance RawFatFileEntry_eta : Eta RawFatFileEntry := λ r,
  mkRaw (r_name r) (r_attr r) (r_nt_res r) (r_creation_time_milliseconds r) (r_creation_time r)
    (r_creation_date r) (r_last_access_date r) (r_first_cluster_high r) (r_last_write_time r)
    (r_last_write_date r) (r_first_cluster_low r) (r_file_size r).

Definition raw_default : RawFatFileEntry := mkRaw (zeros 11) 0 0 0 0 0 0 0 0 0 0 0.

(** The bytes of an entry, in the order of its fields. *)
Definition raw_write (r : RawFatFileEntry) : list Z :=
  r_name r ++ [r_attr r; r_nt_res r; r_creation_time_milliseconds r] ++ le16 (r_creation_time r)
  ++ le16 (r_creation_date r) ++ le16 (r_last_access_date r) ++ le16 (r_first_cluster_high r)
  ++ le16 (r_last_write_time r) ++ le16 (r_last_write_date r) ++ le16 (r_first_cluster_low r)
  ++ le32 (r_file_size r).

(** The entry in the first 32 bytes. *)
Definition raw_read (l : list Z) : RawFatFileEntry :=
  mkRaw (field l 0 11) (byte_at l 11) (byte_at l 12) (byte_at l 13) (from_le16 (field l 14 2))
    (from_le16 (field l 16 2)) (from_le16 (field l 18 2)) (from_le16 (field l 20 2))
    (from_le16 (field l 22 2)) (from_le16 (field l 24 2)) (from_le16 (field l 26 2))
    (from_le32 (field l 28 4)).

Record LongFileNameFatEntry := mkLfn {
  l_sequence_number : Z; l_name1 : list Z; l_attr : Z; l_reserved : Z; l_checksum : Z;
  l_name2 : list Z; l_first_cluster_low : Z; l_name3 : list Z
}.

(** The packed layout of the long-name entry. *)
Definition lfn_write (e : LongFileNameFatEntry) : list Z :=
  [l_sequence_number e] ++ (l_name1 e ≫= le16) ++ [l_attr e; l_reserved e; l_checksum e]
  ++ (l_name2 e ≫= le16) ++ le16 (l_first_cluster_low e) ++ (l_name3 e ≫= le16).

(** [n] 16-bit units from offset [i]. *)
Definition units (l : list Z) (i : Z) (n : nat) : list Z :=
  (λ k, from_le16 (field l (i + 2 * Z.of_nat k) 2)) <$> seq 0 n.

Definition lfn_read (l : list Z) : LongFileNameFatEntry :=
  mkLfn (byte_at l 0) (units l 1 5) (byte_at l 11) (byte_at l 12) (byte_at l 13) (units l 14 6)
    (from_le16 (field l 26 2)) (units l 28 2).

(** [bytemuck::cast] between the two, which have one size. *)
Definition lfn_as_sfn (e : LongFileNameFatEntry) : RawFatFileEntry := raw_read (lfn_write e).

Inductive FatEntry :=
| FileEntry (file : RawFatFileEntry)
| LongFileNameEntry (lfn : LongFileNameFatEntry).

(** The entry at the head of [l], by its attributes. *)
Definition read_entry (l : list Z) : FatEntry :=
  if is_long_name_entry (byte_at l 11) then LongFileNameEntry (lfn_read l) else FileEntry (raw_read l).

(** Entry by entry until nothing is left; a rest shorter than an entry is an
    error.  The number of bytes bounds the number of entries. *)
Fixpoint read_entries {A} (read : list Z → A) (fuel : nat) (l : list Z) : option (list A) :=
  match fuel with
  | O => None
  | S fuel =>
      if zlen l <? 32 then None
      else let rest := zdrop 32 l in
           if zlen rest =? 0 then Some [read l] else cons (read l) <$> read_entries read fuel rest
  end.

(** [FileListing::read_files], [RawFileListing::read_files_raw] *)
Definition read_files (l : list Z) : option (list FatEntry) := read_entries read_entry (length l) l.
Definition read_files_raw (l : list Z) : option (list RawFatFileEntry) := read_entries raw_read (length l) l.

Definition write_files_raw (files : list RawFatFileEntry) : res (list Z) :=
  rassert (zlen files <=? 16);; Ret (files ≫= raw_write).

(** ** Packed dates and times *)

#[global] Instance DateTime_eta : Eta DateTime := λ d,
  mkDateTime (dt_year d) (dt_month d) (dt_day d) (dt_hour d) (dt_minute d) (dt_second d).

Definition DateFields (day month year : Z) : Z :=
  Z.lor (Z.land day 31) (Z.lor (Z.shiftl (Z.land month 15) 5) (Z.shiftl (Z.land year 127) 9)).
Definition TimeFields (seconds minutes hours : Z) : Z :=
  Z.lor (Z.land seconds 31) (Z.lor (Z.shiftl (Z.land minutes 63) 5) (Z.shiftl (Z.land hours 31) 11)).
Definition date_day (d : Z) : Z := Z.land d 31.
Definition date_month (d : Z) : Z := Z.land (Z.shiftr d 5) 15.
Definition date_year (d : Z) : Z := Z.land (Z.shiftr d 9) 127.
Definition time_seconds (t : Z) : Z := Z.land t 31.
Definition time_minutes (t : Z) : Z := Z.land (Z.shiftr t 5) 63.
Definition time_hours (t : Z) : Z := Z.land (Z.shiftr t 11) 31.

(** [chrono::NaiveDateTime]: setters that fail on an invalid date. *)
Class Calendar (T : Type) := {
  epoch : T;
  with_year : Z → T → option T; with_month : Z → T → option T; with_day : Z → T → option T;
  with_hour : Z → T → option T; with_minute : Z → T → option T; with_second : Z → T → option T;
  fields : T → DateTime
}.

Record civil (d : DateTime) : Prop := {
  civ_month : 1 ≤ dt_month d ≤ 12;
  civ_day : 1 ≤ dt_day d ≤ month_length (dt_year d) (dt_month d);
  civ_hour : 0 ≤ dt_hour d < 24;
  civ_minute : 0 ≤ dt_minute d < 60;
  civ_second : 0 ≤ dt_second d < 60
}.

(** What a setter makes of the fields: [d'], unless that is no date. *)
Definition sets {T} `{Calendar T} (r : option T) (d' : DateTime) : Prop :=
  match r with Some t' => fields t' = d' | None => ¬ civil d' end.

Class CalendarLaws (T : Type) `{Calendar T} : Prop := {
  epoch_fields : fields (epoch : T) = mkDateTime 1970 1 1 0 0 0;
  fields_civil (t : T) : civil (fields t);
  with_year_law y (t : T) : -262143 ≤ y ≤ 262142 → sets (with_year y t) ((fields t) <| dt_year := y |>);
  with_month_law m (t : T) : sets (with_month m t) ((fields t) <| dt_month := m |>);
  with_day_law d (t : T) : sets (with_day d t) ((fields t) <| dt_day := d |>);
  with_hour_law h (t : T) : sets (with_hour h t) ((fields t) <| dt_hour := h |>);
  with_minute_law m (t : T) : sets (with_minute m t) ((fields t) <| dt_minute := m |>);
  with_second_law x (t : T) : sets (with_second x t) ((fields t) <| dt_second := x |>)
}.

Section Dates.
Context {T : Type} `{Calendar T}.

Definition unwrap {A} (o : option A) : res A := match o with Some a => Ret a | None => Crash Panic end.

Definition create_date_time_from_fields (date time : Z) : res T :=
  t ← unwrap (with_year (1980 + date_year date) epoch);
  t ← unwrap (with_month (date_month date) t);
  t ← unwrap (with_day (date_day date) t);
  t ← unwrap (with_hour (time_hours time) t);
  t ← unwrap (with_minute (time_minutes time) t);
  unwrap (with_second (time_seconds time) t).

Definition create_fields_from_date_time (t : T) : Z * Z :=
  let d := fields t in
  (DateFields (dt_day d mod U8) (dt_month d mod U8) ((dt_year d - 1980) mod U8),
   TimeFields (dt_second d / 2 mod U8) (dt_minute d mod U8) (dt_hour d mod U8)).
End Dates.

(** ** Packing is exact *)

Lemma lor_disjoint a b k : 0 ≤ k → 0 ≤ a < 2 ^ k → Z.lor a (Z.shiftl b k) = a + b * 2 ^ k.
Proof.
  intros Hk Ha. rewrite <- Z.shiftl_mul_pow2 by done. symmetry.
  assert (E : Z.land a (Z.shiftl b k) = 0).
  { apply Z.bits_inj'. intros n Hn. rewrite Z.land_spec, Z.bits_0. destruct (Z.lt_ge_cases n k).
    - by rewrite Z.shiftl_spec_low, andb_false_r by done.
    - rewrite <- (Z.mod_small a (2 ^ k)) by done. by rewrite Z.mod_pow2_bits_high by lia. }
  by rewrite Z.add_nocarry_lxor, Z.lxor_lor.
Qed.

Lemma land_low x k : 0 ≤ k → Z.land x (2 ^ k - 1) = x mod 2 ^ k.
Proof. intros. rewrite <- Z.land_ones by done. f_equal. rewrite Z.ones_equiv. lia. Qed.

Lemma land31 x : Z.land x 31 = x mod 32.
Proof. exact (land_low x 5 ltac:(lia)). Qed.
Lemma land15 x : Z.land x 15 = x mod 16.
Proof. exact (land_low x 4 ltac:(lia)). Qed.
Lemma land63 x : Z.land x 63 = x mod 64.
Proof. exact (land_low x 6 ltac:(lia)). Qed.
Lemma land127 x : Z.land x 127 = x mod 128.
Proof. exact (land_low x 7 ltac:(lia)). Qed.

Lemma date_fields d m y : 0 ≤ d < 32 → 0 ≤ m < 16 → 0 ≤ y < 128 →
  date_day (DateFields d m y) = d ∧ date_month (DateFields d m y) = m ∧ date_year (DateFields d m y) = y ∧
  u16 (DateFields d m y).
Proof.
  intros Hd Hm Hy. assert (E : DateFields d m y = d + m * 32 + y * 512).
  { unfold DateFields. rewrite land31, land15, land127, !Z.mod_small by lia.
    replace (Z.shiftl y 9) with (Z.shiftl (Z.shiftl y 4) 5) by (by rewrite Z.shiftl_shiftl by lia).
    rewrite <- Z.shiftl_lor, !lor_disjoint by lia. lia. }
  rewrite E. unfold date_day, date_month, date_year. rewrite land31, land15, land127, !Z.shiftr_div_pow2 by lia. mlia.
Qed.

Lemma time_fields s m h : 0 ≤ s < 32 → 0 ≤ m < 64 → 0 ≤ h < 32 →
  time_seconds (TimeFields s m h) = s ∧ time_minutes (TimeFields s m h) = m ∧ time_hours (TimeFields s m h) = h ∧
  u16 (TimeFields s m h).
Proof.
  intros Hs Hm Hh. assert (E : TimeFields s m h = s + m * 32 + h * 2048).
  { unfold TimeFields. rewrite !land31, land63, !Z.mod_small by lia.
    replace (Z.shiftl h 11) with (Z.shiftl (Z.shiftl h 6) 5) by (by rewrite Z.shiftl_shiftl by lia).
    rewrite <- Z.shiftl_lor, !lor_disjoint by lia. lia. }
  rewrite E. unfold time_seconds, time_minutes, time_hours. rewrite !land31, land63, !Z.shiftr_div_pow2 by lia. mlia.
Qed.

Ltac date_simp :=
  unfold update, eta, DateTime_eta in *; cbn [dt_year dt_month dt_day dt_hour dt_minute dt_second] in *.

Section DateFacts.
Context {T : Type} `{CalendarLaws T}.

Lemma unwrap_sets (r : option T) d : sets r d → civil d → returns (unwrap r) (λ t, fields t = d).
Proof. intros Hs Hc. destruct r as [t|]; [by apply returns_ret|done]. Qed.

Lemma month_start_civil y m h mi s : 1 ≤ m ≤ 12 → 0 ≤ h < 24 → 0 ≤ mi < 60 → 0 ≤ s < 60 →
  civil (mkDateTime y m 1 h mi s).
Proof.
  intros Hm Hh Hmi Hs. split; simpl; try lia. unfold month_length, month_lengths.
  assert (m = 1 ∨ m = 2 ∨ m = 3 ∨ m = 4 ∨ m = 5 ∨ m = 6 ∨ m = 7 ∨ m = 8 ∨ m = 9 ∨ m = 10 ∨ m = 11 ∨ m = 12) as Hc by lia.
  destruct (is_leap_year y); destruct_or! Hc; subst; simpl; lia.
Qed.

Lemma month_length_le y m : month_length y m ≤ 31.
Proof.
  unfold month_length, month_lengths. destruct (_ !! _) as [x|] eqn:E; simpl; [|lia].
  apply list_elem_of_lookup_2 in E. destruct (is_leap_year y); set_unfold in E; lia.
Qed.

(** Reading the fields of a date gives that date. *)
Lemma date_from_fields date time :
  let d := mkDateTime (1980 + date_year date) (date_month date) (date_day date) (time_hours time) (time_minutes time)
             (time_seconds time) in
  civil d → returns (create_date_time_from_fields date time) (λ t : T, fields t = d).
Proof.
  intros d Hc. pose proof Hc as [Hm Hd Hh Hmi Hs]. unfold d in *. cbn [dt_year dt_month dt_day dt_hour dt_minute dt_second] in *. unfold create_date_time_from_fields.
  assert (Hy : 0 ≤ date_year date < 128) by (unfold date_year; rewrite land127; mlia).
  eapply returns_bind; [eapply unwrap_sets; [apply with_year_law; lia|]|].
  { rewrite epoch_fields. date_simp. apply month_start_civil; lia. }
  intros t1 E1. rewrite epoch_fields in E1. date_simp. eapply returns_bind; [eapply unwrap_sets; [apply with_month_law|]|].
  { rewrite E1. date_simp. apply month_start_civil; lia. }
  intros t2 E2. rewrite E1 in E2. date_simp. eapply returns_bind; [eapply unwrap_sets; [apply with_day_law|]|].
  { rewrite E2. date_simp. by split; simpl; try lia. }
  intros t3 E3. rewrite E2 in E3. date_simp. eapply returns_bind; [eapply unwrap_sets; [apply with_hour_law|]|].
  { rewrite E3. date_simp. by split; simpl; try lia. }
  intros t4 E4. rewrite E3 in E4. date_simp. eapply returns_bind; [eapply unwrap_sets; [apply with_minute_law|]|].
  { rewrite E4. date_simp. by split; simpl; try lia. }
  intros t5 E5. rewrite E4 in E5. date_simp. eapply returns_mono; [eapply unwrap_sets; [apply with_second_law|]|].
  { rewrite E5. date_simp. exact Hc. }
  intros t6 E6. rewrite E5 in E6. date_simp. exact E6.
Qed.

Lemma stored_date (t : T) : 1980 ≤ dt_year (fields t) ≤ 2107 →
  let '(date, time) := create_fields_from_date_time t in
  u16 date ∧ u16 time ∧
  returns (create_date_time_from_fields date time) (λ t' : T,
    fields t' = (fields t) <| dt_second := dt_second (fields t) / 2 |>).
Proof.
  intros Hy. unfold create_fields_from_date_time. pose proof (fields_civil t) as [Hm Hd Hh Hmi Hs].
  assert (Hml : month_length (dt_year (fields t)) (dt_month (fields t)) ≤ 31) by apply month_length_le.
  rewrite !Z.mod_small by mlia.
  destruct (date_fields (dt_day (fields t)) (dt_month (fields t)) (dt_year (fields t) - 1980)) as (Ed & Em & Ey & Hu); [lia..|].
  destruct (time_fields (dt_second (fields t) / 2) (dt_minute (fields t)) (dt_hour (fields t))) as (Es & Emi & Eh & Hu2);
    [mlia|lia..|].
  split; [done|]. split; [done|]. eapply returns_mono; [apply date_from_fields|].
  - rewrite Ed, Em, Ey, Es, Emi, Eh. replace (1980 + (dt_year (fields t) - 1980)) with (dt_year (fields t)) by lia.
    split; simpl; lia || mlia.
  - intros t' ->. rewrite Ed, Em, Ey, Es, Emi, Eh. date_simp. f_equal. lia.
Qed.

(** A date from 1980 to 2107 written to a directory entry and read back
    is the same date and time, except for the seconds: they are stored
    halved, and read as they are stored. *)
Theorem stored_date_halves_seconds (t : T) : 1980 ≤ dt_year (fields t) ≤ 2107 →
  let '(date, time) := create_fields_from_date_time t in
  u16 date ∧ u16 time ∧
  returns (create_date_time_from_fields date time) (λ t' : T,
    fields t' = (fields t) <| dt_second := dt_second (fields t) / 2 |>).
Proof. apply stored_date. Qed.

(** An entry whose date was never set cannot be read. *)
Lemma unset_date_panics time : create_date_time_from_fields 0 time = (Crash Panic : res T).
Proof.
  unfold create_date_time_from_fields. pose proof (with_year_law (1980 + date_year 0) (epoch : T)) as Hy.
  destruct (with_year (1980 + date_year 0) (epoch : T)) as [t|]; [|done]. simpl unwrap. rewrite ret_bind.
  specialize (Hy ltac:(vm_compute; intuition discriminate)). simpl in Hy.
  pose proof (with_month_law (date_month 0) t) as Hm. destruct (with_month (date_month 0) t) as [t2|]; [|done].
  simpl in Hm. pose proof (fields_civil t2) as [Hc _ _ _ _]. rewrite Hm in Hc. date_simp. change (date_month 0) with 0 in Hc. lia.
Qed.
End DateFacts.

(** A calendar: dates that are checked. *)
#[global] Instance civil_dec d : Decision (civil d).
Proof.
  refine (cast_if (decide ((1 ≤ dt_month d ≤ 12) ∧ (1 ≤ dt_day d ≤ month_length (dt_year d) (dt_month d)) ∧
    (0 ≤ dt_hour d < 24) ∧ (0 ≤ dt_minute d < 60) ∧ (0 ≤ dt_second d < 60)))); [split; tauto|].
  intros [? ? ? ? ?]. tauto.
Defined.

Definition checked_date : Type := { d : DateTime | bool_decide (civil d) = true }.
Definition check_date (d : DateTime) : option checked_date :=
  match decide (bool_decide (civil d) = true) with left p => Some (exist _ d p) | right _ => None end.

#[global] Instance checked_calendar : Calendar checked_date := {|
  epoch := exist _ (mkDateTime 1970 1 1 0 0 0) eq_refl;
  with_year y t := check_date ((`t) <| dt_year := y |>);
  with_month m t := check_date ((`t) <| dt_month := m |>);
  with_day d t := check_date ((`t) <| dt_day := d |>);
  with_hour h t := check_date ((`t) <| dt_hour := h |>);
  with_minute m t := check_date ((`t) <| dt_minute := m |>);
  with_second x t := check_date ((`t) <| dt_second := x |>);
  fields t := `t
|}.

Lemma check_date_sets d : sets (check_date d) d.
Proof.
  unfold check_date, sets. destruct (decide _) as [p|p]; [done|]. intros Hc. apply p. by apply bool_decide_eq_true.
Qed.

#[global] Instance checked_laws : CalendarLaws checked_date.
Proof.
  split; try (intros; apply check_date_sets); [done|]. intros [d p]. simpl. by apply bool_decide_eq_true in p.
Qed.

Definition sample_date : checked_date :=
  exist (λ d, bool_decide (civil d) = true) (mkDateTime 2024 6 16 15 6 59) eq_refl.

Lemma stored_date_halves_seconds_witness :
  returns (create_date_time_from_fields (create_fields_from_date_time sample_date).1
             (create_fields_from_date_time sample_date).2)
    (λ t' : checked_date, fields t' = mkDateTime 2024 6 16 15 6 29).
Proof.
  destruct (stored_date_halves_seconds sample_date) as (_ & _ & H).
  - vm_compute. intuition discriminate.
  - exact H.
Defined.

(** ** The bytes of an entry *)

Record raw_ok (r : RawFatFileEntry) : Prop := {
  rok_name : zlen (r_name r) = 11 ∧ bytes (r_name r);
  rok_u8 : u8 (r_attr r) ∧ u8 (r_nt_res r) ∧ u8 (r_creation_time_milliseconds r);
  rok_u16 : u16 (r_creation_time r) ∧ u16 (r_creation_date r) ∧ u16 (r_last_access_date r) ∧
    u16 (r_first_cluster_high r) ∧ u16 (r_last_write_time r) ∧ u16 (r_last_write_date r) ∧ u16 (r_first_cluster_low r);
  rok_u32 : u32 (r_file_size r)
}.

(** Names the elements of a list of known length. *)
Ltac spell l H :=
  lazymatch type of H with
  | zlen l = 0 => apply zlen_zero_inv in H; subst l
  | zlen l = _ => 
      let x := fresh "x" in let r := fresh "r" in
      destruct l as [|x r]; [exfalso; revert H; unfold zlen; simpl; lia|];
      rewrite zlen_cons in H;
      lazymatch type of H with
      | 1 + zlen r = ?n => 
          let m := eval compute in (n - 1) in
          assert (zlen r = m) as H' by lia; clear H; rename H' into H; spell r H
      end
  end.

Lemma raw_read_write r rest : raw_ok r → raw_read (raw_write r ++ rest) = r.
Proof.
  intros [[Hn _] _ (? & ? & ? & ? & ? & ? & ?) ?]. destruct r as [name a nt ms ct cd la ch wt wd cl fs]. simpl in *.
  spell name Hn. unfold raw_read, raw_write, field, byte_at, zdrop. simpl. f_equal; by apply from_le16_le16 || by apply from_le32_le32.
Qed.

Lemma zlen_raw_write r : raw_ok r → zlen (raw_write r) = 32.
Proof.
  intros [[Hn _] _ _ _]. unfold raw_write. rewrite zlen_app, Hn. done.
Qed.

#[local] Arguments le16 : simpl never.
#[local] Arguments le32 : simpl never.
#[local] Arguments from_le16 : simpl never.
#[local] Arguments from_le32 : simpl never.


Lemma raw_write_read l : zlen l = 32 → bytes l → raw_write (raw_read l) = l.
Proof.
  intros Hl Hb. spell l Hl. unfold bytes in Hb. rewrite !Forall_cons in Hb. destruct_and! Hb.
  unfold raw_read, raw_write, field, byte_at, zdrop, ztake. simpl.
  rewrite !from_le16_lo, !from_le16_hi by done. by rewrite le32_from_le32.
Qed.

Lemma from_le16_u16 a b : u8 a → u8 b → u16 (from_le16 [a; b]).
Proof. intros. unfold from_le16, byte_at. simpl. mlia. Qed.
Lemma from_le32_u32 a b c d : u8 a → u8 b → u8 c → u8 d → u32 (from_le32 [a; b; c; d]).
Proof. intros. unfold from_le32, byte_at. simpl. mlia. Qed.

Lemma raw_read_ok l : zlen l = 32 → bytes l → raw_ok (raw_read l).
Proof.
  intros Hl Hb. spell l Hl. unfold bytes in Hb. rewrite !Forall_cons in Hb. destruct_and! Hb.
  unfold raw_read, field, byte_at, zdrop, ztake. simpl.
  split; cbn [r_name r_attr r_nt_res r_creation_time_milliseconds r_creation_time r_creation_date r_last_access_date
    r_first_cluster_high r_last_write_time r_last_write_date r_first_cluster_low r_file_size]; auto 10 using from_le16_u16, from_le32_u32.
  split; [done|]. unfold bytes. rewrite !Forall_cons. auto 20.
Qed.

Record lfn_ok (e : LongFileNameFatEntry) : Prop := {
  lok_u8 : u8 (l_sequence_number e) ∧ u8 (l_attr e) ∧ u8 (l_reserved e) ∧ u8 (l_checksum e);
  lok_units : zlen (l_name1 e) = 5 ∧ zlen (l_name2 e) = 6 ∧ zlen (l_name3 e) = 2;
  lok_u16 : Forall u16 (l_name1 e) ∧ Forall u16 (l_name2 e) ∧ Forall u16 (l_name3 e) ∧ u16 (l_first_cluster_low e)
}.

Lemma le16_bytes x : bytes (le16 x).
Proof. repeat constructor; unfold u8; mlia. Qed.

Lemma units_bytes l : bytes (l ≫= le16).
Proof.
  induction l as [|x l IH]; [constructor|]. change (bytes (le16 x ++ (l ≫= le16))). apply Forall_app.
  split; [apply le16_bytes|exact IH].
Qed.

Lemma zlen_units l : zlen (l ≫= le16) = 2 * zlen l.
Proof.
  induction l as [|x l IH]; [done|]. change (zlen (le16 x ++ (l ≫= le16)) = 2 * zlen (x :: l)).
  rewrite zlen_app, IH, zlen_cons. change (zlen (le16 x)) with 2. lia.
Qed.

Lemma lfn_write_ok e : lfn_ok e → zlen (lfn_write e) = 32 ∧ bytes (lfn_write e).
Proof.
  intros [(Hq & Ha & Hr & Hc) (H1 & H2 & H3) _]. unfold lfn_write. split.
  - rewrite !zlen_app, !zlen_units, H1, H2, H3. done.
  - unfold bytes. rewrite !Forall_app, !Forall_cons. pose proof units_bytes as Hub. pose proof le16_bytes as Hlb. unfold bytes in Hub, Hlb.
    split_and!; try done; try apply Hub; try apply Hlb; constructor.
Qed.

Lemma lfn_read_write e rest : lfn_ok e → lfn_read (lfn_write e ++ rest) = e.
Proof.
  intros [_ (H1 & H2 & H3) (U1 & U2 & U3 & U4)]. destruct e as [sq n1 a rs ck n2 cl n3]. simpl in *.
  spell n1 H1. spell n2 H2. spell n3 H3. rewrite !Forall_cons in U1. rewrite !Forall_cons in U2. rewrite !Forall_cons in U3. destruct_and! U1. destruct_and! U2. destruct_and! U3.
  unfold lfn_read, lfn_write, units, field, byte_at, zdrop. simpl.
  rewrite !from_le16_le16 by done. done.
Qed.

(** A long-name entry survives the cast. *)
Lemma cast_write e : lfn_ok e → raw_write (lfn_as_sfn e) = lfn_write e.
Proof. intros [Hz Hb]%lfn_write_ok. by apply raw_write_read. Qed.

Lemma cast_ok e : lfn_ok e → raw_ok (lfn_as_sfn e).
Proof. intros [Hz Hb]%lfn_write_ok. by apply raw_read_ok. Qed.

(** ** Lists of entries *)

Lemma read_entries_blocks {A} (read : list Z → A) (blocks : list (list Z)) fuel :
  (∀ b rest, zlen b = 32 → read (b ++ rest) = read b) → Forall (λ b, zlen b = 32) blocks → blocks ≠ [] →
  (length blocks ≤ fuel)%nat → read_entries read fuel (mjoin blocks) = Some (read <$> blocks).
Proof.
  intros Hread Hb. revert fuel. induction Hb as [|b blocks Hz Hb IH]; intros fuel Hne Hf; [done|].
  destruct fuel as [|fuel]; [simpl in Hf; lia|]. cbn [read_entries]. change (mjoin (b :: blocks)) with (b ++ mjoin blocks).
  rewrite zlen_app, Hz. pose proof (zlen_nonneg (mjoin blocks)). destruct (Z.ltb_spec (32 + zlen (mjoin blocks)) 32); [lia|].
  replace (zdrop 32 (b ++ mjoin blocks)) with (mjoin blocks).
  2:{ unfold zdrop, zlen in *. replace (Z.to_nat 32) with (length b) by lia. by rewrite drop_app_length. }
  rewrite Hread by done. destruct blocks as [|b2 blocks]; [done|].
  destruct (Z.eqb_spec (zlen (mjoin (b2 :: blocks))) 0) as [E|_].
  - change (mjoin (b2 :: blocks)) with (b2 ++ mjoin blocks) in E. apply Forall_cons in Hb as [Hz2 _]. rewrite zlen_app, Hz2 in E.
    pose proof (zlen_nonneg (mjoin blocks)). lia.
  - rewrite IH by (done || (simpl in *; lia)). done.
Qed.

Lemma blocks_length (blocks : list (list Z)) : Forall (λ b, zlen b = 32) blocks → (length blocks ≤ length (mjoin blocks))%nat.
Proof.
  induction 1 as [|b blocks Hz Hb IH]; [done|]. change (mjoin (b :: blocks)) with (b ++ mjoin blocks).
  rewrite length_app. unfold zlen in Hz. simpl. lia.
Qed.

Lemma bind_join (files : list RawFatFileEntry) : files ≫= raw_write = mjoin (raw_write <$> files).
Proof. induction files as [|r files IH]; [done|]. by rewrite bind_cons, fmap_cons, IH. Qed.

Lemma raw_blocks files : Forall raw_ok files → Forall (λ b, zlen b = 32) (raw_write <$> files).
Proof. intros Hf. rewrite Forall_fmap. eapply Forall_impl; [exact Hf|]. intros r. apply zlen_raw_write. Qed.

Lemma field_app b rest i w : 0 ≤ i → 0 ≤ w → i + w ≤ zlen b → field (b ++ rest) i w = field b i w.
Proof.
  intros. unfold field, ztake, zdrop, zlen in *. rewrite drop_app_le by lia. rewrite take_app_le; [done|].
  rewrite length_drop. lia.
Qed.
Lemma byte_at_app_l b rest i : 0 ≤ i < zlen b → byte_at (b ++ rest) i = byte_at b i.
Proof. intros. rewrite byte_at_app by lia. destruct (Z.ltb_spec i (zlen b)); [done|lia]. Qed.

Lemma raw_read_app b rest : zlen b = 32 → raw_read (b ++ rest) = raw_read b.
Proof. intros Hb. unfold raw_read. rewrite !field_app, !byte_at_app_l by lia. done. Qed.
Lemma units_app b rest i n : 0 ≤ i → i + 2 * Z.of_nat n ≤ zlen b → units (b ++ rest) i n = units b i n.
Proof.
  intros Hi Hn. unfold units. apply list_fmap_ext. intros k x [-> Hk]%lookup_seq. by rewrite field_app by lia.
Qed.
Lemma lfn_read_app b rest : zlen b = 32 → lfn_read (b ++ rest) = lfn_read b.
Proof. intros Hb. unfold lfn_read. rewrite !units_app, !field_app, !byte_at_app_l by lia. done. Qed.
Lemma read_entry_app b rest : zlen b = 32 → read_entry (b ++ rest) = read_entry b.
Proof.
  intros Hb. unfold read_entry. rewrite raw_read_app, lfn_read_app by done.
  by rewrite byte_at_app_l by lia.
Qed.

(** What the raw entry on disk is taken for. *)
Definition entry_view (r : RawFatFileEntry) : FatEntry := read_entry (raw_write r).

Lemma read_files_raw_write files : Forall raw_ok files → files ≠ [] → read_files_raw (files ≫= raw_write) = Some files.
Proof.
  intros Hf Hne. rewrite bind_join. unfold read_files_raw. rewrite read_entries_blocks.
  - f_equal. rewrite <- list_fmap_compose. rewrite <- (list_fmap_id files) at 2. apply list_fmap_ext. intros i r Hr.
    rewrite Forall_lookup in Hf. simpl. rewrite <- (app_nil_r (raw_write r)). by apply raw_read_write, (Hf i).
  - apply raw_read_app.
  - by apply raw_blocks.
  - by destruct files.
  - by apply blocks_length, raw_blocks.
Qed.

Lemma read_files_write files : Forall raw_ok files → files ≠ [] →
  read_files (files ≫= raw_write) = Some (entry_view <$> files).
Proof.
  intros Hf Hne. rewrite bind_join. unfold read_files. rewrite read_entries_blocks.
  - by rewrite <- list_fmap_compose.
  - apply read_entry_app.
  - by apply raw_blocks.
  - by destruct files.
  - by apply blocks_length, raw_blocks.
Qed.

Lemma entry_view_file r : raw_ok r → is_long_name_entry (r_attr r) = false → entry_view r = FileEntry r.
Proof.
  intros Hr Ha. unfold entry_view, read_entry. pose proof (raw_read_write r [] Hr) as E. rewrite app_nil_r in E. rewrite E.
  replace (byte_at (raw_write r) 11) with (r_attr r); [by rewrite Ha|]. by rewrite <- E at 1.
Qed.

Lemma entry_view_lfn e : lfn_ok e → is_long_name_entry (l_attr e) = true → entry_view (lfn_as_sfn e) = LongFileNameEntry e.
Proof.
  intros He Ha. unfold entry_view, read_entry. rewrite cast_write by done. pose proof (lfn_read_write e [] He) as E.
  rewrite app_nil_r in E. rewrite E. replace (byte_at (lfn_write e) 11) with (l_attr e); [by rewrite Ha|]. by rewrite <- E at 1.
Qed.

(** A file system attribute set survives conversion to the disk's. *)
Lemma attributes_roundtrip a : 0 ≤ a < 32 → attributes_of (fat_attributes a) = a ∧ is_long_name_entry (fat_attributes a) = false.
Proof.
  intros Ha. pose (ok := λ k : nat, let a := Z.of_nat k in
    (attributes_of (fat_attributes a) =? a) && negb (is_long_name_entry (fat_attributes a))).
  assert (Hall : forallb ok (seq 0 32) = true) by (vm_compute; reflexivity).
  rewrite forallb_forall in Hall. specialize (Hall (Z.to_nat a)). unfold ok in Hall. rewrite Z2Nat.id in Hall by lia.
  destruct (andb_prop _ _ (Hall ltac:(apply in_seq; lia))) as [H1%Z.eqb_eq H2%negb_true_iff]. done.
Qed.
