(* ===== verification/FatDisk.v ===== *)
(** * Sectors and clusters

    [fs/src/fat32/fat.rs]: the mounted volume, its geometry, the transfer of
    sectors and clusters, and loading and saving the table.  The data source
    is an interface; its laws describe a device of 512-byte sectors. *)

From S2P Require Import Prelude FatTable Utf8 FatEntry.

(** ** The data source *)

Class DataSource (D : Type) := {
  read_sectors_to : Z → Z → D → res ((list (list Z) + FileSystemError) * D);
  write_sector : Z → list Z → D → res ((unit + FileSystemError) * D)
}.

Class DataSourceLaws (D : Type) `{DataSource D} := {
  sectors : D → list (list Z);
  sectors_size d : Forall (λ s, zlen s = 512 ∧ bytes s) (sectors d);
  read_law start n d : 0 ≤ start → 0 ≤ n → start + n ≤ zlen (sectors d) →
    returns (read_sectors_to start n d) (λ '(r, d'),
      r = inl (ztake n (zdrop start (sectors d))) ∧ sectors d' = sectors d);
  write_law i b d : 0 ≤ i < zlen (sectors d) → zlen b = 512 → bytes b →
    returns (write_sector i b d) (λ '(r, d'),
      r = inl tt ∧ sectors d' = <[Z.to_nat i := b]> (sectors d))
}.

(** ** The volume *)

Record BiosParameterBlock := mkBpb {
  jmp_boot : list Z; oem_name : list Z; bytes_per_sector : Z; sectors_per_cluster : Z;
  reserved_sector_count : Z; number_of_fats : Z; root_entries_count : Z; total_count_of_sectors : Z;
  media_type : Z; sectors_per_fat : Z; sectors_per_track : Z; number_of_heads : Z;
  hidden_sectors_count : Z; total_count_of_sectors_32 : Z; sectors_per_fat_32 : Z; ext_flags : Z;
  filesystem_version : Z; root_directory_first_cluster : Z; fs_info_sector : Z;
  boot_sector_copy_sector_number : Z; drive_number : Z; boot_signature : Z; volume_id : Z;
  volume_label : list Z; filesystem_type : list Z; signature : list Z
}.

(** The derived reader, with the assertions on the fields. *)
Definition bpb_read (l : list Z) : option BiosParameterBlock :=
  let b := mkBpb (field l 0 3) (from_utf8_lossy (field l 3 8)) (from_le16 (field l 11 2)) (byte_at l 13)
    (from_le16 (field l 14 2)) (byte_at l 16) (from_le16 (field l 17 2)) (from_le16 (field l 19 2)) (byte_at l 21)
    (from_le16 (field l 22 2)) (from_le16 (field l 24 2)) (from_le16 (field l 26 2)) (from_le32 (field l 28 4))
    (from_le32 (field l 32 4)) (from_le32 (field l 36 4)) (from_le16 (field l 40 2)) (from_le16 (field l 42 2))
    (from_le32 (field l 44 4)) (from_le16 (field l 48 2)) (from_le16 (field l 50 2)) (byte_at l 64) (byte_at l 66)
    (from_le32 (field l 67 4)) (from_utf8_lossy (field l 71 11)) (from_utf8_lossy (field l 82 8)) (field l 510 2) in
  if (zlen l =? 512) && (root_entries_count b =? 0) && (total_count_of_sectors b =? 0)
     && existsb (Z.eqb (media_type b)) [240; 248; 249; 250; 251; 252; 253; 254; 255]
     && (sectors_per_fat b =? 0) && (boot_signature b =? 41) && bool_decide (signature b = [85; 170])
  then Some b else None.

Record Fat (D : Type) := mkFat {
  data_source : D; partition_first_sector_lba : Z; bpb : BiosParameterBlock; file_allocation_table : list Z
}.
Arguments mkFat {D}. Arguments data_source {D}. Arguments partition_first_sector_lba {D}.
Arguments bpb {D}. Arguments file_allocation_table {D}.
#[global] Instance Fat_eta {D} : Eta (Fat D) := λ f,
  mkFat (data_source f) (partition_first_sector_lba f) (bpb f) (file_allocation_table f).

(** ** Computations on the volume

    An error of the file system is a value; a panic is a fault. *)

Definition FM (D A : Type) : Type := Fat D → res ((A + FileSystemError) * Fat D).
#[global] Instance FM_ret D : MRet (FM D) := λ A a fat, Ret (inl a, fat).
#[global] Instance FM_bind D : MBind (FM D) := λ A B f m fat,
  '(r, fat) ← m fat;
  match r with inl a => f a fat | inr e => Ret (inr e, fat) end.

Definition lift {D A} (m : res A) : FM D A := λ fat, a ← m; Ret (inl a, fat).
Definition throw {D A} (e : FileSystemError) : FM D A := λ fat, Ret (inr e, fat).
Definition gets {D A} (f : Fat D → A) : FM D A := λ fat, Ret (inl (f fat), fat).
Definition on_source {D A} (f : D → res ((A + FileSystemError) * D)) : FM D A := λ fat,
  '(r, d) ← f (data_source fat); Ret (r, fat <| data_source := d |>).
Definition on_table {D A} (f : list Z → res ((A + FileSystemError) * list Z)) : FM D A := λ fat,
  '(r, t) ← f (file_allocation_table fat); Ret (r, fat <| file_allocation_table := t |>).
(** [.unwrap()] and [.expect()] of a result *)
Definition unwrap_ok {D A} (m : FM D A) : FM D A := λ fat,
  '(r, fat) ← m fat; match r with inl a => Ret (inl a, fat) | inr _ => Crash Panic end.

Section Volume.
Context {D : Type} `{DataSource D}.
#[local] Abbreviation M := (FM D).

(** [FatDataSource::read_sectors]: the default method. *)
Definition ds_read_sectors (starting_sector n : Z) : M (list (list Z)) :=
  on_source (read_sectors_to starting_sector n).

(** ** Geometry *)

Definition root_dir_sectors (b : BiosParameterBlock) : res Z :=
  x ← mul_chk U16 (root_entries_count b) 32;
  y ← sub_chk U16 (bytes_per_sector b) 1;
  s ← add_chk U16 x y;
  if bytes_per_sector b =? 0 then Crash Panic else Ret (s / bytes_per_sector b).

Definition first_data_sector (b : BiosParameterBlock) : res Z :=
  f ← mul_chk U32 (number_of_fats b) (sectors_per_fat_32 b);
  x ← add_chk U32 (reserved_sector_count b) f;
  r ← root_dir_sectors b;
  add_chk U32 x r.

Definition convert_cluster_number_to_sector_number (b : BiosParameterBlock) (cluster_number : Z) : res Z :=
  c ← sub_chk U32 cluster_number 2;
  x ← mul_chk U32 c (sectors_per_cluster b);
  f ← first_data_sector b;
  add_chk U32 x f.

(** The absolute sector [i] sectors behind [first]. *)
Definition sector_at (fat : Fat D) (first : res Z) (i : Z) : res Z :=
  f ← first; x ← add_chk U32 (partition_first_sector_lba fat) f; add_chk U32 x i.

(** ** Transfers *)

(** Sectors [i .. i + k] behind [first], one at a time, into [buffer]. *)
Fixpoint read_one_by_one (first : res Z) (k : nat) (i : Z) (buffer : list (list Z)) : M (list (list Z)) :=
  match k with
  | O => mret buffer
  | S k =>
      fat ← gets id;
      lba ← lift (sector_at fat first i);
      r ← ds_read_sectors lba 1;
      buffer ← lift (store_slice buffer i r);
      read_one_by_one first k (i + 1) buffer
  end.

Definition read_sectors (first_sector_lba n : Z) : M (list (list Z)) :=
  size ← lift (mul_chk U32 n 512);
  if 65534 <=? size then
    count ← lift (sub_chk U32 n 2);
    read_one_by_one (Ret first_sector_lba) (Z.to_nat count) 0 (replicate (Z.to_nat n) (zeros 512))
  else
    fat ← gets id;
    lba ← lift (add_chk U32 (partition_first_sector_lba fat) first_sector_lba);
    ds_read_sectors lba n.

Definition read_cluster (cluster : Z) : M (list (list Z)) :=
  fat ← gets id;
  first ← lift (convert_cluster_number_to_sector_number (bpb fat) cluster);
  read_sectors first (sectors_per_cluster (bpb fat)).

(** [cast_slice_mut]: a byte slice as sectors. *)
Fixpoint chunks (k : nat) (l : list Z) : list (list Z) :=
  match k with O => [] | S k => ztake 512 l :: chunks k (zdrop 512 l) end.
Definition cast_sectors (l : list Z) : res (list (list Z)) :=
  rassert (zlen l mod 512 =? 0);; Ret (chunks (Z.to_nat (zlen l / 512)) l).

Definition check_cluster_buffer (b : BiosParameterBlock) (buffer : list Z) : res unit :=
  size ← mul_chk U16 (bytes_per_sector b) (sectors_per_cluster b); rassert (size =? zlen buffer mod U16).

(** The new contents of [buffer]. *)
Definition read_cluster_to (cluster : Z) (buffer : list Z) : M (list Z) :=
  fat ← gets id;
  lift (check_cluster_buffer (bpb fat) buffer);;
  sector_buffer ← lift (cast_sectors buffer);
  r ← read_one_by_one (convert_cluster_number_to_sector_number (bpb fat) cluster)
        (Z.to_nat (sectors_per_cluster (bpb fat))) 0 sector_buffer;
  mret (mjoin r).

Fixpoint write_one_by_one (first : res Z) (k : nat) (i : Z) (buffer : list Z) : M unit :=
  match k with
  | O => mret tt
  | S k =>
      fat ← gets id;
      sector_start ← lift (mul_chk U16 i (bytes_per_sector (bpb fat)));
      next ← lift (add_chk U16 i 1);
      sector_end ← lift (mul_chk U16 next (bytes_per_sector (bpb fat)));
      lba ← lift (sector_at fat first i);
      s ← lift (slice buffer sector_start sector_end);
      on_source (write_sector lba s);;
      write_one_by_one first k (i + 1) buffer
  end.

Definition write_cluster (cluster : Z) (buffer : list Z) : M unit :=
  fat ← gets id;
  lift (check_cluster_buffer (bpb fat) buffer);;
  write_one_by_one (convert_cluster_number_to_sector_number (bpb fat) cluster)
    (Z.to_nat (sectors_per_cluster (bpb fat))) 0 buffer.

(** ** Loading and saving the table *)

(** [array_chunks().map(u32::from_le_bytes)]; a rest of less than four bytes
    is dropped. *)
Fixpoint words (k : nat) (l : list Z) : list Z :=
  match k with O => [] | S k => from_le32 (ztake 4 l) :: words k (zdrop 4 l) end.
Definition to_words (l : list Z) : list Z := words (Z.to_nat (zlen l / 4)) l.

Definition init : M unit :=
  fat ← gets id;
  secs ← read_sectors (reserved_sector_count (bpb fat)) (sectors_per_fat_32 (bpb fat));
  on_table (λ _, Ret (inl tt, to_words (mjoin secs))).

Fixpoint save_sectors (fat_start : Z) (k : nat) (i : Z) (fat_slice : list Z) : M unit :=
  match k with
  | O => mret tt
  | S k =>
      s ← lift (slice fat_slice (i * 512) ((i + 1) * 512));
      on_source (write_sector ((fat_start + i) mod U32) s);;
      save_sectors fat_start k (i + 1) fat_slice
  end.

Definition save_fat : M unit :=
  fat ← gets id;
  let fat_slice := file_allocation_table fat ≫= le32 in
  lift (rassert (zlen fat_slice =? sectors_per_fat_32 (bpb fat) * 512));;
  save_sectors (reserved_sector_count (bpb fat)) (Z.to_nat (sectors_per_fat_32 (bpb fat))) 0 fat_slice.

Definition read_bpb (disk : D) (partition_first_sector_lba : Z) : res ((BiosParameterBlock + FileSystemError) * D) :=
  '(r, disk) ← read_sectors_to partition_first_sector_lba 1 disk;
  match r with
  | inr e => Ret (inr e, disk)
  | inl secs =>
      s ← index secs 0;
      Ret (match bpb_read s with Some b => inl b | None => inr BadData end, disk)
  end.

(** [Fat::new] *)
Definition fat_new (data_source : D) (partition_first_sector_lba : Z) : res (Fat D) :=
  '(r, d) ← read_bpb data_source partition_first_sector_lba;
  match r with
  | inr _ => Crash Panic
  | inl b =>
      '(r, fat) ← init (mkFat d partition_first_sector_lba b []);
      match r with inr _ => Crash Panic | inl _ => Ret fat end
  end.
End Volume.

(** ** Reasoning about computations *)

(** [m] ends without a fault or an error. *)
Definition does {D A} (m : FM D A) (fat : Fat D) (Q : A → Fat D → Prop) : Prop :=
  returns (m fat) (λ '(r, fat'), ∃ a, r = inl a ∧ Q a fat').

Section Does.
Context {D : Type}.

Lemma does_ret {A} (a : A) fat (Q : A → Fat D → Prop) : Q a fat → does (mret a) fat Q.
Proof. intros HQ. apply returns_ret. eauto. Qed.

Lemma does_bind {A B} (m : FM D A) (f : A → FM D B) fat P Q :
  does m fat P → (∀ a fat', P a fat' → does (f a) fat' Q) → does (m ≫= f) fat Q.
Proof.
  intros Hm Hf. unfold does, mbind, FM_bind. eapply returns_bind; [exact Hm|]. intros [r fat'] (a & -> & HP).
  by apply Hf.
Qed.

Lemma does_mono {A} (m : FM D A) fat (P Q : A → Fat D → Prop) :
  does m fat P → (∀ a fat', P a fat' → Q a fat') → does m fat Q.
Proof. intros Hm Hi. eapply returns_mono; [exact Hm|]. intros [r fat'] (a & -> & HP). eauto. Qed.

Lemma does_lift {A B} (m : res A) (f : A → FM D B) fat (P : A → Prop) Q :
  returns m P → (∀ a, P a → does (f a) fat Q) → does (lift m ≫= f) fat Q.
Proof. intros (a & -> & HP) Hf. by apply Hf. Qed.

Lemma does_step {A B} (m : res A) (f : A → FM D B) fat a Q :
  m = Ret a → does (f a) fat Q → does (lift m ≫= f) fat Q.
Proof. by intros ->. Qed.

Lemma does_gets {A B} (g : Fat D → A) (f : A → FM D B) fat Q : does (f (g fat)) fat Q → does (gets g ≫= f) fat Q.
Proof. done. Qed.

Lemma does_assoc {A B C} (m : FM D A) (f : A → FM D B) (g : B → FM D C) fat Q :
  does (m ≫= λ x, f x ≫= g) fat Q → does ((m ≫= f) ≫= g) fat Q.
Proof.
  unfold does, mbind, FM_bind. intros Hd. rewrite bind_assoc. destruct (m fat) as [[[a|e] fat']|]; done.
Qed.
End Does.

(** ** Sectors of a buffer *)

Lemma chunks_join k l : 512 * Z.of_nat k ≤ zlen l → mjoin (chunks k l) = ztake (512 * Z.of_nat k) l.
Proof.
  revert l. induction k as [|k IH]; intros l Hl; [done|]. cbn [chunks]. change (mjoin (?a :: ?b)) with (a ++ mjoin b).
  rewrite IH by (rewrite zlen_zdrop; lia). unfold ztake, zdrop. rewrite <- (take_drop (Z.to_nat 512) l) at 3.
  rewrite take_app_ge by (rewrite length_take; unfold zlen in *; lia). f_equal. f_equal. rewrite length_take.
  unfold zlen in *. lia.
Qed.

Lemma zlen_chunks k l : zlen (chunks k l) = Z.of_nat k.
Proof. revert l. induction k as [|k IH]; intros l; [done|]. cbn [chunks]. rewrite zlen_cons, IH. lia. Qed.

Lemma chunks_sectors (secs : list (list Z)) : Forall (λ s, zlen s = 512) secs → chunks (length secs) (mjoin secs) = secs.
Proof.
  induction 1 as [|s secs Hs Hf IH]; [done|]. cbn [chunks length]. change (mjoin (s :: secs)) with (s ++ mjoin secs).
  unfold ztake, zdrop. replace (Z.to_nat 512) with (length s) by (unfold zlen in Hs; lia).
  rewrite take_app_length, drop_app_length. by rewrite IH.
Qed.

Lemma zlen_join (secs : list (list Z)) : Forall (λ s, zlen s = 512) secs → zlen (mjoin secs) = 512 * zlen secs.
Proof.
  induction 1 as [|s secs Hs Hf IH]; [done|]. change (mjoin (s :: secs)) with (s ++ mjoin secs).
  rewrite zlen_app, zlen_cons, IH, Hs. lia.
Qed.

Lemma chunks_size k l : 512 * Z.of_nat k ≤ zlen l → Forall (λ s, zlen s = 512) (chunks k l).
Proof.
  revert l. induction k as [|k IH]; intros l Hl; cbn [chunks]; constructor; [rewrite zlen_ztake; lia|].
  apply IH. rewrite zlen_zdrop; lia.
Qed.

Lemma splice_empty {A} (l : list A) i : splice l i [] = l.
Proof. unfold splice. simpl. rewrite zlen_nil, Z.add_0_r. apply ztake_zdrop. Qed.

Lemma splice_full {A} (l src : list A) : zlen src = zlen l → splice l 0 src = src.
Proof.
  intros Hl. unfold splice. rewrite ztake_0. simpl. rewrite Z.add_0_l, Hl. unfold zdrop, zlen. rewrite Nat2Z.id, drop_all.
  by rewrite app_nil_r.
Qed.

(** Writing one element and then the rest behind it. *)
Lemma splice_step {A} (l : list A) i x rest : 0 ≤ i → i + zlen (x :: rest) ≤ zlen l →
  splice (splice l i [x]) (i + 1) rest = splice l i (x :: rest).
Proof.
  intros Hi Hl. rewrite zlen_cons in Hl. pose proof (zlen_nonneg rest). apply list_eq. intros k.
  rewrite <- (Nat2Z.id k). assert (H1 : zlen [x] = 1) by done.
  rewrite lookup_splice; [|lia|rewrite zlen_splice by (rewrite ?H1; lia); lia|lia].
  rewrite (lookup_splice l i [x]) by (rewrite ?H1; lia).
  rewrite (lookup_splice l i (x :: rest)) by (rewrite ?zlen_cons; lia). rewrite (zlen_cons x rest), ?H1.
  destruct (Z.leb_spec (i + 1) (Z.of_nat k)), (Z.ltb_spec (Z.of_nat k) (i + 1 + zlen rest)),
    (Z.leb_spec i (Z.of_nat k)), (Z.ltb_spec (Z.of_nat k) (i + 1)), (Z.ltb_spec (Z.of_nat k) (i + (1 + zlen rest)));
    simpl; try lia; try done.
  - replace (Z.to_nat (Z.of_nat k - i)) with (S (Z.to_nat (Z.of_nat k - (i + 1)))) by lia. done.
  - replace (Z.to_nat (Z.of_nat k - i)) with 0%nat by lia. done.
Qed.

Lemma lookup_window {A} (l : list A) j n k : 0 ≤ j →
  ztake n (zdrop j l) !! k = if decide (Z.of_nat k < n) then l !! Z.to_nat (j + Z.of_nat k) else None.
Proof.
  intros Hj. unfold ztake, zdrop. rewrite lookup_take. destruct (decide (Z.of_nat k < n)); case_decide; try lia; [|done].
  rewrite lookup_drop. f_equal. lia.
Qed.

Lemma window_splice_same {A} (l src : list A) i : 0 ≤ i → i + zlen src ≤ zlen l →
  ztake (zlen src) (zdrop i (splice l i src)) = src.
Proof.
  intros Hi Hl. apply list_eq. intros k. rewrite lookup_window by done. case_decide as Hk.
  - rewrite lookup_splice by lia. destruct (Z.leb_spec i (i + Z.of_nat k)), (Z.ltb_spec (i + Z.of_nat k) (i + zlen src)); try lia.
    simpl. f_equal. lia.
  - symmetry. apply lookup_ge_None_2. unfold zlen in Hk. lia.
Qed.

Lemma window_splice_other {A} (l src : list A) i j n : 0 ≤ i → i + zlen src ≤ zlen l → 0 ≤ j →
  j + n ≤ i ∨ i + zlen src ≤ j → ztake n (zdrop j (splice l i src)) = ztake n (zdrop j l).
Proof.
  intros Hi Hl Hj Hd. apply list_eq. intros k. rewrite !lookup_window by done. case_decide as Hk; [|done].
  rewrite lookup_splice by lia. destruct (Z.leb_spec i (j + Z.of_nat k)), (Z.ltb_spec (j + Z.of_nat k) (i + zlen src)); try lia; done.
Qed.

(** ** The volume on its device *)

Section Laws.
Context {D : Type} `{DataSourceLaws D}.
#[local] Abbreviation M := (FM D).
Implicit Types (fat : Fat D).

Definition disk fat : list (list Z) := sectors (data_source fat).
Definition spc fat : Z := sectors_per_cluster (bpb fat).
Definition data_start (b : BiosParameterBlock) : Z :=
  reserved_sector_count b + number_of_fats b * sectors_per_fat_32 b.

(** The data clusters lie on the device. *)
Record geometry fat : Prop := {
  g_sector : bytes_per_sector (bpb fat) = 512;
  g_spc : 1 ≤ spc fat ≤ 127;
  g_root : root_entries_count (bpb fat) = 0;
  g_counts : 0 ≤ reserved_sector_count (bpb fat) ∧ 0 ≤ number_of_fats (bpb fat) ∧ 0 ≤ sectors_per_fat_32 (bpb fat);
  g_part : 0 ≤ partition_first_sector_lba fat;
  g_table : 2 ≤ zlen (file_allocation_table fat);
  g_fits : partition_first_sector_lba fat + data_start (bpb fat) + (zlen (file_allocation_table fat) - 2) * spc fat
           ≤ zlen (disk fat);
  g_device : zlen (disk fat) < U32
}.

Definition cluster_size fat : Z := 512 * spc fat.
(** The first sector of a cluster on the device. *)
Definition place fat (c : Z) : Z := partition_first_sector_lba fat + data_start (bpb fat) + (c - 2) * spc fat.
Definition in_volume fat (c : Z) : Prop := 2 ≤ c < zlen (file_allocation_table fat).
Definition cluster_sectors fat (c : Z) : list (list Z) := ztake (spc fat) (zdrop (place fat c) (disk fat)).
Definition cluster_data fat (c : Z) : list Z := mjoin (cluster_sectors fat c).

(** Only the device has moved, and its contents are the same. *)
Definition quiet fat fat' : Prop := disk fat' = disk fat ∧ ∃ d, fat' = fat <| data_source := d |>.

Lemma quiet_refl fat : quiet fat fat.
Proof. split; [done|]. exists (data_source fat). by destruct fat. Qed.

Lemma quiet_trans f1 f2 f3 : quiet f1 f2 → quiet f2 f3 → quiet f1 f3.
Proof. intros [E1 (d1 & ->)] [E2 (d2 & ->)]. split; [congruence|]. exists d2. by destruct f1. Qed.

Lemma quiet_fields fat fat' : quiet fat fat' →
  partition_first_sector_lba fat' = partition_first_sector_lba fat ∧ bpb fat' = bpb fat ∧
  file_allocation_table fat' = file_allocation_table fat ∧ disk fat' = disk fat.
Proof. intros [E (d & ->)]. by rewrite <- E. Qed.

Lemma quiet_geometry fat fat' : quiet fat fat' → geometry fat → geometry fat'.
Proof.
  intros (Ep & Eb & Et & Ed)%quiet_fields [? ? ? ? ? ? ? ?]. unfold spc in *. split; unfold spc; rewrite ?Ep, ?Eb, ?Et, ?Ed; done.
Qed.

Lemma quiet_cluster fat fat' c : quiet fat fat' → cluster_data fat' c = cluster_data fat c.
Proof.
  intros (Ep & Eb & Et & Ed)%quiet_fields. unfold cluster_data, cluster_sectors, place, spc. by rewrite Ep, Eb, Ed.
Qed.

Lemma disk_sizes fat : Forall (λ s, zlen s = 512) (disk fat).
Proof. eapply Forall_impl; [apply sectors_size|]. by intros s [? _]. Qed.

Lemma cluster_in_disk fat c : geometry fat → in_volume fat c → 0 ≤ place fat c ∧ place fat c + spc fat ≤ zlen (disk fat).
Proof. intros [? ? ? ? ? ? ? ?] [? ?]. unfold place, data_start in *. nia. Qed.

Lemma zlen_cluster_sectors fat c : geometry fat → in_volume fat c → zlen (cluster_sectors fat c) = spc fat.
Proof.
  intros Hg Hc. destruct (cluster_in_disk fat c Hg Hc). pose proof (g_spc _ Hg). unfold cluster_sectors.
  rewrite zlen_ztake; [done|]. rewrite zlen_zdrop; lia.
Qed.

Lemma cluster_sectors_size fat c : Forall (λ s, zlen s = 512) (cluster_sectors fat c).
Proof. unfold cluster_sectors, ztake, zdrop. apply Forall_take, Forall_drop, disk_sizes. Qed.

Lemma zlen_cluster_data fat c : geometry fat → in_volume fat c → zlen (cluster_data fat c) = cluster_size fat.
Proof.
  intros Hg Hc. unfold cluster_data. rewrite zlen_join by apply cluster_sectors_size.
  by rewrite zlen_cluster_sectors.
Qed.

Lemma convert_spec fat c : geometry fat → in_volume fat c →
  convert_cluster_number_to_sector_number (bpb fat) c = Ret ((c - 2) * spc fat + data_start (bpb fat)).
Proof.
  intros Hg Hc. destruct (cluster_in_disk fat c Hg Hc) as [_ Hfit]. destruct Hg as [Hs Hspc Hr (H1 & H2 & H3) Hp Ht Hf Hd].
  destruct Hc as [Hc1 Hc2]. unfold place, spc, data_start in *.
  unfold convert_cluster_number_to_sector_number, first_data_sector, root_dir_sectors. rewrite Hs, Hr. run by nia.
  change (if 512 =? 0 then Crash Panic else Ret ((0 * 32 + (512 - 1)) / 512)) with (Ret 0). run by nia.
  rewrite add_chk_ret by nia. f_equal. lia.
Qed.

Lemma ds_read_spec fat i n : 0 ≤ i → 0 ≤ n → i + n ≤ zlen (disk fat) →
  does (ds_read_sectors i n) fat (λ r fat', quiet fat fat' ∧ r = ztake n (zdrop i (disk fat))).
Proof.
  intros Hi Hn Hl. unfold ds_read_sectors, on_source, does. eapply returns_bind; [by apply read_law|].
  intros [r d] [-> E]. apply returns_ret. eexists. split; [done|]. split; [|done]. split; [exact E|by exists d].
Qed.

Lemma sector_at_spec fat first f i : first = Ret f → 0 ≤ partition_first_sector_lba fat → 0 ≤ f → 0 ≤ i →
  partition_first_sector_lba fat + f + i < U32 →
  sector_at fat first i = Ret (partition_first_sector_lba fat + f + i).
Proof. intros -> Hp Hf Hi Hu. unfold sector_at. run. by rewrite add_chk_ret by lia. Qed.

Lemma take_one {A} (l : list A) i : 0 ≤ i < zlen l → ∃ x, ztake 1 (zdrop i l) = [x] ∧ zdrop i l = x :: zdrop (i + 1) l.
Proof.
  unfold zlen, ztake, zdrop. intros Hi. destruct (lookup_lt_is_Some_2 l (Z.to_nat i)) as [x Hx]; [lia|]. exists x.
  rewrite (drop_S l x (Z.to_nat i)) by done. split; [done|]. do 2 f_equal. lia.
Qed.

Lemma read_one_by_one_spec first f k i buffer fat :
  first = Ret f → 0 ≤ partition_first_sector_lba fat → 0 ≤ f → 0 ≤ i →
  partition_first_sector_lba fat + f + i + Z.of_nat k ≤ zlen (disk fat) → zlen (disk fat) < U32 →
  i + Z.of_nat k ≤ zlen buffer →
  does (read_one_by_one first k i buffer) fat (λ r fat', quiet fat fat' ∧
    r = splice buffer i (ztake (Z.of_nat k) (zdrop (partition_first_sector_lba fat + f + i) (disk fat)))).
Proof.
  intros Hf. revert i buffer fat. induction k as [|k IH]; intros i buffer fat Hp Hf0 Hi Hd Hu Hb; cbn [read_one_by_one].
  { apply does_ret. split; [apply quiet_refl|]. change (Z.of_nat 0) with 0. by rewrite ztake_0, splice_empty. }
  apply does_gets. eapply does_step; [by apply (sector_at_spec fat first f i); try lia|].
  eapply does_bind; [apply ds_read_spec; lia|]. intros r fat1 [Hq ->].
  destruct (take_one (disk fat) (partition_first_sector_lba fat + f + i)) as (x & Ex & Edrop); [lia|]. rewrite Ex.
  assert (H1 : zlen [x] = 1) by done.
  eapply does_step; [apply store_slice_ret; lia|]. destruct (quiet_fields _ _ Hq) as (Ep & Eb & Et & Ed).
  eapply does_mono; [apply IH; rewrite ?Ep, ?Ed, ?zlen_splice; lia|]. intros r fat2 [Hq2 ->].
  split; [by eapply quiet_trans|]. rewrite Ep, Ed. rewrite Edrop.
  replace (Z.of_nat (S k)) with (Z.succ (Z.of_nat k)) by lia. 
  assert (Et1 : ztake (Z.succ (Z.of_nat k)) (x :: zdrop (partition_first_sector_lba fat + f + i + 1) (disk fat)) =
    x :: ztake (Z.of_nat k) (zdrop (partition_first_sector_lba fat + f + i + 1) (disk fat))).
  { unfold ztake. by rewrite Z2Nat.inj_succ by lia. }
  rewrite Et1. replace (partition_first_sector_lba fat + f + (i + 1)) with (partition_first_sector_lba fat + f + i + 1) by lia.
  apply splice_step; [done|]. rewrite zlen_cons, zlen_ztake; [lia|]. rewrite zlen_zdrop; lia.
Qed.

Lemma check_buffer_spec fat buffer : geometry fat → zlen buffer = cluster_size fat →
  check_cluster_buffer (bpb fat) buffer = Ret tt.
Proof.
  intros Hg Hb. pose proof (g_spc _ Hg) as Hs. unfold check_cluster_buffer, cluster_size, spc in *. rewrite (g_sector _ Hg).
  rewrite mul_chk_ret, ret_bind by lia. rewrite Hb, Z.mod_small, Z.eqb_refl by lia. done.
Qed.

Lemma cast_sectors_spec fat buffer : geometry fat → zlen buffer = cluster_size fat →
  cast_sectors buffer = Ret (chunks (Z.to_nat (spc fat)) buffer).
Proof.
  intros Hg Hb. unfold cast_sectors, cluster_size in *. rewrite Hb. rewrite Z.mul_comm, Z.mod_mul, Z.div_mul by lia. done.
Qed.

(** A cluster read into a buffer of its size. *)
Lemma read_cluster_to_spec fat c buffer : geometry fat → in_volume fat c → zlen buffer = cluster_size fat →
  does (read_cluster_to c buffer) fat (λ r fat', quiet fat fat' ∧ r = cluster_data fat c).
Proof.
  intros Hg Hc Hb. unfold read_cluster_to. apply does_gets. change (id fat) with fat.
  eapply does_step; [by apply check_buffer_spec|]. eapply does_step; [by apply cast_sectors_spec|].
  destruct (cluster_in_disk fat c Hg Hc) as [Hp Hf]. pose proof Hg as [_ Hs _ (Hr & Hn & Hsf) Hpart _ _ Hd].
  unfold place in *. change (sectors_per_cluster (bpb fat)) with (spc fat).
  eapply does_bind; [eapply read_one_by_one_spec; [by apply convert_spec|done|..]|].
  - destruct Hc. unfold data_start. nia.
  - lia.
  - rewrite Z2Nat.id by lia. lia.
  - done.
  - rewrite zlen_chunks. lia.
  - intros r fat' [Hq ->]. apply does_ret. split; [done|]. rewrite Z2Nat.id, Z.add_0_r by lia. unfold cluster_data. f_equal.
    rewrite splice_full.
    + unfold cluster_sectors, place. do 2 f_equal. lia.
    + replace (partition_first_sector_lba fat + ((c - 2) * spc fat + data_start (bpb fat))) with (place fat c) by (unfold place; lia).
      rewrite zlen_chunks. fold (cluster_sectors fat c). rewrite zlen_cluster_sectors by done. lia.
Qed.

(** A cluster read sector by sector, for clusters below 64 KiB. *)
Lemma read_cluster_spec fat c : geometry fat → in_volume fat c →
  does (read_cluster c) fat (λ r fat', quiet fat fat' ∧ r = cluster_sectors fat c).
Proof.
  intros Hg Hc. unfold read_cluster. apply does_gets. change (id fat) with fat.
  eapply does_step; [by apply convert_spec|]. destruct (cluster_in_disk fat c Hg Hc) as [Hp Hf].
  pose proof Hg as [_ Hs _ (Hr & Hn & Hsf) Hpart _ _ Hd]. change (sectors_per_cluster (bpb fat)) with (spc fat).
  unfold read_sectors. eapply does_step; [apply mul_chk_ret; lia|]. destruct (Z.leb_spec 65534 (spc fat * 512)); [lia|].
  apply does_gets. change (id fat) with fat. unfold place in *.
  eapply does_step; [apply add_chk_ret; destruct Hc; unfold data_start in *; nia|].
  eapply does_mono; [apply ds_read_spec; [destruct Hc; unfold data_start in *; nia|lia|lia]|].
  intros r fat' [Hq ->]. split; [done|]. unfold cluster_sectors, place. do 2 f_equal. lia.
Qed.

(** [fat'] is [fat] with the sectors from [i] overwritten. *)
Definition overwritten fat fat' (i : Z) (secs : list (list Z)) : Prop :=
  disk fat' = splice (disk fat) i secs ∧ ∃ d, fat' = fat <| data_source := d |>.

Lemma write_sector_spec fat i b : 0 ≤ i < zlen (disk fat) → zlen b = 512 → bytes b →
  does (on_source (write_sector i b)) fat (λ _ fat', overwritten fat fat' i [b]).
Proof.
  intros Hi Hb Hbb. unfold on_source, does. eapply returns_bind; [by apply write_law|]. intros [r d] [-> E].
  apply returns_ret. exists tt. split; [done|]. split; [|by exists d]. change (sectors d = splice (disk fat) i [b]).
  rewrite E. apply list_eq. intros k. rewrite <- (Nat2Z.id k). rewrite lookup_splice by (change (zlen [b]) with 1; lia).
  change (zlen [b]) with 1. destruct (Z.leb_spec i (Z.of_nat k)), (Z.ltb_spec (Z.of_nat k) (i + 1)); simpl.
  - assert (Z.of_nat k = i) as <- by lia. rewrite Z.sub_diag, list_lookup_insert_eq; [done|]. unfold disk, zlen in Hi. lia.
  - by rewrite list_lookup_insert_ne by lia.
  - by rewrite list_lookup_insert_ne by lia.
  - by rewrite list_lookup_insert_ne by lia.
Qed.

Lemma overwritten_fields fat fat' i secs : overwritten fat fat' i secs →
  partition_first_sector_lba fat' = partition_first_sector_lba fat ∧ bpb fat' = bpb fat ∧
  file_allocation_table fat' = file_allocation_table fat ∧ disk fat' = splice (disk fat) i secs.
Proof. intros [E (d & ->)]. by rewrite <- E. Qed.

Lemma write_one_by_one_spec first f k i buffer fat : first = Ret f → bytes buffer →
  bytes_per_sector (bpb fat) = 512 → 0 ≤ partition_first_sector_lba fat → 0 ≤ f → 0 ≤ i → i + Z.of_nat k ≤ 127 →
  partition_first_sector_lba fat + f + i + Z.of_nat k ≤ zlen (disk fat) → zlen (disk fat) < U32 →
  512 * (i + Z.of_nat k) ≤ zlen buffer →
  does (write_one_by_one first k i buffer) fat (λ _ fat',
    overwritten fat fat' (partition_first_sector_lba fat + f + i) (chunks k (zdrop (512 * i) buffer))).
Proof.
  intros Hf Hbb. revert i fat. induction k as [|k IH]; intros i fat Hs Hp Hf0 Hi Hk Hd Hu Hb; cbn [write_one_by_one].
  { apply does_ret. cbn [chunks]. split; [by rewrite splice_empty|]. exists (data_source fat). by destruct fat. }
  apply does_gets. change (id fat) with fat. rewrite Hs.
  eapply does_step; [apply mul_chk_ret; lia|]. eapply does_step; [apply add_chk_ret; lia|].
  eapply does_step; [apply mul_chk_ret; lia|]. eapply does_step; [by apply (sector_at_spec fat first f i); try lia|].
  eapply does_step; [apply slice_ret; lia|].
  replace ((i + 1) * 512 - i * 512) with 512 by lia. rewrite (Z.mul_comm i 512).
  set (b := ztake 512 (zdrop (512 * i) buffer)).
  assert (Hzb : zlen b = 512) by (unfold b; rewrite zlen_ztake; [done|]; rewrite zlen_zdrop; lia).
  eapply does_bind; [apply write_sector_spec; [lia|done|by apply Forall_take, Forall_drop]|].
  intros [] fat1 Hw. destruct (overwritten_fields _ _ _ _ Hw) as (Ep & Eb & Et & Ed).
  assert (H1 : zlen [b] = 1) by done.
  assert (Hz1 : zlen (disk fat1) = zlen (disk fat)) by (rewrite Ed, zlen_splice; lia).
  eapply does_mono; [apply IH; rewrite ?Eb, ?Ep, ?Hz1; lia || done|]. intros [] fat2 [E2 (d2 & ->)]. destruct Hw as [E1 (d1 & ->)].
  split; [|exists d2; by destruct fat]. rewrite E2, E1. cbn [chunks]. fold b.
  replace (zdrop 512 (zdrop (512 * i) buffer)) with (zdrop (512 * (i + 1)) buffer).
  2:{ unfold zdrop. rewrite drop_drop. f_equal. lia. }
  replace (partition_first_sector_lba (fat <| data_source := d1 |>) + f + (i + 1))
    with (partition_first_sector_lba fat + f + i + 1) by (rsimp; lia).
  apply splice_step; [lia|]. rewrite zlen_cons, zlen_chunks. lia.
Qed.

Lemma overwritten_geometry fat fat' i secs : overwritten fat fat' i secs → 0 ≤ i → i + zlen secs ≤ zlen (disk fat) →
  geometry fat → geometry fat'.
Proof.
  intros (Ep & Eb & Et & Ed)%overwritten_fields Hi Hl [? ? ? ? ? ? ? ?]. unfold spc in *.
  split; unfold spc; rewrite ?Ep, ?Eb, ?Et, ?Ed, ?zlen_splice; lia || done.
Qed.

Lemma write_cluster_spec fat c buffer : geometry fat → in_volume fat c → zlen buffer = cluster_size fat → bytes buffer →
  does (write_cluster c buffer) fat (λ _ fat', overwritten fat fat' (place fat c) (chunks (Z.to_nat (spc fat)) buffer)).
Proof.
  intros Hg Hc Hb Hbb. unfold write_cluster. apply does_gets. change (id fat) with fat.
  eapply does_step; [by apply check_buffer_spec|]. destruct (cluster_in_disk fat c Hg Hc) as [Hp Hf].
  pose proof Hg as [Hsec Hs _ (Hr & Hn & Hsf) Hpart _ _ Hd]. unfold place, cluster_size in *.
  change (sectors_per_cluster (bpb fat)) with (spc fat).
  eapply does_mono; [eapply write_one_by_one_spec; [by apply convert_spec|done|done|done|destruct Hc; unfold data_start; nia|lia|..]|].
  - rewrite Z2Nat.id by lia. lia.
  - rewrite Z2Nat.id by lia. lia.
  - done.
  - rewrite Z2Nat.id by lia. lia.
  - intros [] fat' Hw. rewrite Z.mul_0_r, zdrop_0, Z.add_0_r in Hw.
    replace (partition_first_sector_lba fat + data_start (bpb fat) + (c - 2) * spc fat)
      with (partition_first_sector_lba fat + ((c - 2) * spc fat + data_start (bpb fat))) by lia. exact Hw.
Qed.

(** Clusters do not overlap. *)
Lemma overwritten_cluster fat fat' c buffer : geometry fat → in_volume fat c → zlen buffer = cluster_size fat →
  overwritten fat fat' (place fat c) (chunks (Z.to_nat (spc fat)) buffer) →
  geometry fat' ∧ cluster_data fat' c = buffer ∧ ∀ c', in_volume fat c' → c' ≠ c → cluster_data fat' c' = cluster_data fat c'.
Proof.
  intros Hg Hc Hb Hw. destruct (cluster_in_disk fat c Hg Hc) as [Hp Hf]. pose proof (g_spc _ Hg) as Hs.
  assert (Hz : zlen (chunks (Z.to_nat (spc fat)) buffer) = spc fat) by (rewrite zlen_chunks; lia).
  split; [apply (overwritten_geometry fat fat' _ _ Hw); lia || done|].
  destruct (overwritten_fields _ _ _ _ Hw) as (Ep & Eb & Et & Ed).
  assert (Espc : spc fat' = spc fat) by (unfold spc; by rewrite Eb).
  assert (Epl : ∀ x, place fat' x = place fat x) by (intros x; unfold place; by rewrite Ep, Eb, Espc).
  unfold cluster_data, cluster_sectors. rewrite Espc, Ed. split.
  - rewrite Epl. rewrite <- Hz at 1. rewrite window_splice_same by lia. rewrite chunks_join by (unfold cluster_size in Hb; lia).
    apply ztake_all. unfold cluster_size in Hb. lia.
  - intros c' Hc' Hne. rewrite Epl, window_splice_other; [done|lia|lia| |].
    + apply (cluster_in_disk fat c' Hg Hc').
    + rewrite Hz. unfold place. destruct (Z.lt_gt_cases c' c) as [[?|?] _]; [done|left|right]; nia.
Qed.

(** ** The table on disk *)

Lemma save_sectors_spec start k i l fat : bytes l → 0 ≤ start → 0 ≤ i → start + i + Z.of_nat k ≤ zlen (disk fat) →
  zlen (disk fat) < U32 → 512 * (i + Z.of_nat k) ≤ zlen l →
  does (save_sectors start k i l) fat (λ _ fat', overwritten fat fat' (start + i) (chunks k (zdrop (512 * i) l))).
Proof.
  intros Hbb. revert i fat. induction k as [|k IH]; intros i fat Hs Hi Hd Hu Hb; cbn [save_sectors].
  { apply does_ret. cbn [chunks]. split; [by rewrite splice_empty|]. exists (data_source fat). by destruct fat. }
  eapply does_step; [apply slice_ret; lia|]. replace ((i + 1) * 512 - i * 512) with 512 by lia. rewrite (Z.mul_comm i 512).
  set (b := ztake 512 (zdrop (512 * i) l)). rewrite Z.mod_small by lia.
  assert (Hzb : zlen b = 512) by (unfold b; rewrite zlen_ztake; [done|]; rewrite zlen_zdrop; lia).
  eapply does_bind; [apply write_sector_spec; [lia|done|by apply Forall_take, Forall_drop]|].
  intros [] fat1 Hw. destruct (overwritten_fields _ _ _ _ Hw) as (Ep & Eb & Et & Ed).
  assert (H1 : zlen [b] = 1) by done.
  assert (Hz1 : zlen (disk fat1) = zlen (disk fat)) by (rewrite Ed, zlen_splice; lia).
  eapply does_mono; [apply IH; rewrite ?Hz1; lia|]. intros [] fat2 [E2 (d2 & ->)]. destruct Hw as [E1 (d1 & ->)].
  split; [|exists d2; by destruct fat]. rewrite E2, E1. cbn [chunks]. fold b.
  replace (zdrop 512 (zdrop (512 * i) l)) with (zdrop (512 * (i + 1)) l).
  2:{ unfold zdrop. rewrite drop_drop. f_equal. lia. }
  replace (start + (i + 1)) with (start + i + 1) by lia. apply splice_step; [lia|]. rewrite zlen_cons, zlen_chunks. lia.
Qed.

Definition table_bytes (tbl : list Z) : list Z := tbl ≫= le32.

Lemma table_bytes_cons x tbl : table_bytes (x :: tbl) = le32 x ++ table_bytes tbl.
Proof. done. Qed.

Lemma zlen_table_bytes tbl : zlen (table_bytes tbl) = 4 * zlen tbl.
Proof.
  induction tbl as [|x tbl IH]; [done|]. rewrite table_bytes_cons, zlen_app, IH, zlen_cons. change (zlen (le32 x)) with 4. lia.
Qed.

Lemma table_bytes_bytes tbl : bytes (table_bytes tbl).
Proof.
  induction tbl as [|x tbl IH]; [constructor|]. rewrite table_bytes_cons. apply Forall_app. split; [|exact IH].
  repeat constructor; unfold u8; mlia.
Qed.

Lemma words_table_bytes tbl : Forall u32 tbl → to_words (table_bytes tbl) = tbl.
Proof.
  intros Hu. unfold to_words. rewrite zlen_table_bytes, Z.mul_comm, Z.div_mul by lia. unfold zlen. rewrite Nat2Z.id.
  induction Hu as [|x tbl Hx Hu IH]; [done|]. cbn [words length]. rewrite table_bytes_cons.
  change (zdrop 4 (le32 x ++ table_bytes tbl)) with (table_bytes tbl). rewrite IH. f_equal. by apply from_le32_le32.
Qed.

Lemma zlen_words k l : zlen (words k l) = Z.of_nat k.
Proof. revert l. induction k as [|k IH]; intros l; [done|]. cbn [words]. rewrite zlen_cons, IH. lia. Qed.

Lemma words_app k j l r : zlen l = 4 * Z.of_nat k → words (k + j) (l ++ r) = words k l ++ words j r.
Proof.
  revert l. induction k as [|k IH]; intros l Hl; [by rewrite (zlen_zero_inv l) by lia|]. cbn [words Nat.add app].
  unfold ztake, zdrop in *. unfold zlen in *. rewrite take_app_le, drop_app_le by lia. f_equal. apply IH.
  rewrite length_drop. lia.
Qed.

Lemma to_words_app l r : zlen l mod 4 = 0 → to_words (l ++ r) = to_words l ++ to_words r.
Proof.
  intros Hl. unfold to_words. pose proof (zlen_nonneg l). pose proof (zlen_nonneg r). rewrite zlen_app.
  replace ((zlen l + zlen r) / 4) with (zlen l / 4 + zlen r / 4) by mlia.
  rewrite Z2Nat.inj_add by mlia. apply words_app. mlia.
Qed.

(** The table goes to the reserved sectors of the device, wherever the
    partition starts. *)
Lemma save_fat_spec fat : 4 * zlen (file_allocation_table fat) = sectors_per_fat_32 (bpb fat) * 512 →
  0 ≤ reserved_sector_count (bpb fat) → 0 ≤ sectors_per_fat_32 (bpb fat) →
  reserved_sector_count (bpb fat) + sectors_per_fat_32 (bpb fat) ≤ zlen (disk fat) → zlen (disk fat) < U32 →
  does save_fat fat (λ _ fat', overwritten fat fat' (reserved_sector_count (bpb fat))
    (chunks (Z.to_nat (sectors_per_fat_32 (bpb fat))) (table_bytes (file_allocation_table fat)))).
Proof.
  intros Hl Hr Hs Hd Hu. unfold save_fat. apply does_gets. change (id fat) with fat. cbv zeta.
  change (file_allocation_table fat ≫= le32) with (table_bytes (file_allocation_table fat)).
  rewrite zlen_table_bytes, Hl, Z.eqb_refl. eapply does_step; [reflexivity|].
  eapply does_mono; [apply save_sectors_spec; rewrite ?zlen_table_bytes; try lia; apply table_bytes_bytes|].
  intros [] fat' Hw. by rewrite Z.mul_0_r, zdrop_0, Z.add_0_r in Hw.
Qed.

Lemma init_spec fat : 0 ≤ partition_first_sector_lba fat → 0 ≤ reserved_sector_count (bpb fat) →
  0 ≤ sectors_per_fat_32 (bpb fat) < 128 →
  partition_first_sector_lba fat + reserved_sector_count (bpb fat) + sectors_per_fat_32 (bpb fat) ≤ zlen (disk fat) →
  zlen (disk fat) < U32 →
  does init fat (λ _ fat', file_allocation_table fat' = to_words (mjoin (ztake (sectors_per_fat_32 (bpb fat))
    (zdrop (partition_first_sector_lba fat + reserved_sector_count (bpb fat)) (disk fat))))).
Proof.
  intros Hp Hr Hs Hd Hu. unfold init. apply does_gets. change (id fat) with fat. unfold read_sectors.
  eapply does_assoc, does_step; [apply mul_chk_ret; lia|].
  destruct (Z.leb_spec 65534 (sectors_per_fat_32 (bpb fat) * 512)); [lia|]. eapply does_assoc, does_gets. change (id fat) with fat.
  eapply does_assoc, does_step; [apply add_chk_ret; lia|]. eapply does_bind; [apply ds_read_spec; lia|].
  intros secs fat1 [Hq ->]. unfold on_table, does. rewrite ret_bind. apply returns_ret. exists tt. split; [done|]. by rsimp.
Qed.

(** On a partition at the start of the device, with a table of less than
    64 KiB, saving the table and mounting again gives the same table, and
    no data cluster changes. *)
Theorem table_survives_remount fat : geometry fat → partition_first_sector_lba fat = 0 → 1 ≤ number_of_fats (bpb fat) →
  4 * zlen (file_allocation_table fat) = sectors_per_fat_32 (bpb fat) * 512 → sectors_per_fat_32 (bpb fat) < 128 →
  Forall u32 (file_allocation_table fat) →
  does save_fat fat (λ _ fat',
    (∀ c, in_volume fat c → cluster_data fat' c = cluster_data fat c) ∧
    does init (fat' <| file_allocation_table := [] |>) (λ _ fat2,
      file_allocation_table fat2 = file_allocation_table fat)).
Proof.
  intros Hg Hp Hn Hl Hs Ht. pose proof Hg as [_ Hspc _ (Hr & _ & Hs0) _ Ht2 Hfit Hd]. unfold data_start in Hfit. rewrite Hp in Hfit.
  eapply does_mono; [apply save_fat_spec; lia || nia|]. intros [] fat' Hw.
  destruct (overwritten_fields _ _ _ _ Hw) as (Ep & Eb & Et & Ed).
  set (secs := chunks _ _) in *. assert (Hz : zlen secs = sectors_per_fat_32 (bpb fat)) by (unfold secs; rewrite zlen_chunks; lia).
  split.
  - intros c Hc. destruct (cluster_in_disk fat c Hg Hc) as [Hpl _]. unfold cluster_data, cluster_sectors, place, spc. rewrite Ep, Eb, Ed.
    f_equal. apply window_splice_other; [lia|nia|unfold place, spc in Hpl; lia|]. right. rewrite Hz, Hp. destruct Hc.
    unfold data_start, spc in *. nia.
  - set (fat2 := fat' <| file_allocation_table := [] |>). assert (Ed2 : disk fat2 = disk fat') by done.
    assert (Hz2 : zlen (disk fat2) = zlen (disk fat)) by (rewrite Ed2, Ed, zlen_splice; nia).
    assert (Eb2 : bpb fat2 = bpb fat) by done. assert (Ep2 : partition_first_sector_lba fat2 = 0) by (unfold fat2; rsimp; congruence).
    eapply does_mono; [apply init_spec; rewrite ?Hz2, ?Eb2, ?Ep2; nia|]. intros [] fat3 ->. rewrite Ed2, Ed, Eb2, Ep2, <- Hz, Z.add_0_l.
    rewrite window_splice_same by nia. unfold secs. rewrite chunks_join by (rewrite zlen_table_bytes; lia).
    rewrite ztake_all by (rewrite zlen_table_bytes; lia). by apply words_table_bytes.
Qed.

(** A table of 64 KiB or more is read without its last two sectors: whatever
    they hold, the clusters they describe are taken for free. *)
Theorem large_table_truncated fat : 0 ≤ partition_first_sector_lba fat → 0 ≤ reserved_sector_count (bpb fat) →
  128 ≤ sectors_per_fat_32 (bpb fat) → sectors_per_fat_32 (bpb fat) * 512 < U32 →
  partition_first_sector_lba fat + reserved_sector_count (bpb fat) + sectors_per_fat_32 (bpb fat) ≤ zlen (disk fat) →
  zlen (disk fat) < U32 →
  does init fat (λ _ fat', ∃ tbl, zlen tbl = 128 * (sectors_per_fat_32 (bpb fat) - 2) ∧
    file_allocation_table fat' = tbl ++ replicate 256 FAT_FREE_SECTOR).
Proof.
  intros Hp Hr Hs Hm Hd Hu. unfold init. apply does_gets. change (id fat) with fat. unfold read_sectors.
  set (n := sectors_per_fat_32 (bpb fat)) in *.
  eapply does_assoc, does_step; [apply mul_chk_ret; lia|]. destruct (Z.leb_spec 65534 (n * 512)); [|lia].
  eapply does_assoc, does_step; [apply sub_chk_ret; lia|].
  eapply does_bind.
  { apply (read_one_by_one_spec _ (reserved_sector_count (bpb fat))); try done; try lia.
    unfold zlen. rewrite length_replicate. lia. }
  intros secs fat1 [Hq ->]. rewrite Z2Nat.id, Z.add_0_r by lia. unfold on_table, does. rewrite ret_bind. apply returns_ret.
  exists tt. split; [done|]. rsimp. set (src := ztake (n - 2) _).
  assert (Hz : zlen src = n - 2) by (unfold src; rewrite zlen_ztake; [done|]; rewrite zlen_zdrop; lia).
  assert (Hsz : Forall (λ s, zlen s = 512) src) by (unfold src, ztake, zdrop; apply Forall_take, Forall_drop, disk_sizes).
  assert (E : splice (replicate (Z.to_nat n) (zeros 512)) 0 src = src ++ [zeros 512; zeros 512]).
  { unfold splice. rewrite ztake_0, Hz, app_nil_l, Z.add_0_l. f_equal. unfold zdrop. rewrite drop_replicate.
    replace (Z.to_nat n - Z.to_nat (n - 2))%nat with 2%nat by lia. done. }
  rewrite E, join_app. assert (Hj : zlen (mjoin src) = 512 * (n - 2)) by (rewrite zlen_join; lia || done).
  rewrite to_words_app by (rewrite Hj; mlia). exists (to_words (mjoin src)). split; [|done].
  unfold to_words. rewrite zlen_words, Hj. mlia.
Qed.
End Laws.

(** ** A device in memory

    The data source of the crate's tests. *)

Record InMemoryFatDataSource := mkMem { data : list Z }.

Definition mem_read_sectors_to (starting_sector n : Z) (d : InMemoryFatDataSource)
  : res ((list (list Z) + FileSystemError) * InMemoryFatDataSource) :=
  starting_offset ← mul_chk U32 starting_sector 512;
  buf ← slice (data d) starting_offset (starting_offset + n * 512);
  Ret (inl (chunks (Z.to_nat n) buf), d).

Definition mem_write_sector (sector : Z) (buffer : list Z) (d : InMemoryFatDataSource)
  : res ((unit + FileSystemError) * InMemoryFatDataSource) :=
  rassert (zlen buffer =? 512);;
  starting_offset ← mul_chk U32 sector 512;
  l ← store_slice (data d) starting_offset buffer;
  Ret (inl tt, mkMem l).

#[global] Instance mem_source : DataSource InMemoryFatDataSource := {|
  read_sectors_to := mem_read_sectors_to; write_sector := mem_write_sector
|}.

(** The whole sectors whose offset is below 4 GiB. *)
Definition mem_sectors (d : InMemoryFatDataSource) : list (list Z) :=
  if forallb (within 0 255) (data d) then chunks (Z.to_nat (Z.min (zlen (data d) / 512) 8388607)) (data d) else [].

Lemma lookup_chunks k l j : chunks k l !! j = if decide (j < k)%nat then Some (ztake 512 (zdrop (512 * Z.of_nat j) l)) else None.
Proof.
  revert l j. induction k as [|k IH]; intros l j; cbn [chunks]; [by rewrite decide_False by lia|].
  destruct j as [|j]; [by rewrite decide_True by lia|]. cbn [lookup list_lookup]. fold (lookup j (chunks k (zdrop 512 l))).
  change (list_lookup j (chunks k (zdrop 512 l))) with (chunks k (zdrop 512 l) !! j). rewrite IH.
  destruct (decide (j < k)%nat); [rewrite decide_True by lia|by rewrite decide_False by lia].
  do 2 f_equal. unfold zdrop. rewrite drop_drop. f_equal. lia.
Qed.

Lemma within_bytes l : forallb (within 0 255) l = true ↔ bytes l.
Proof.
  induction l as [|b l IH]; [split; [constructor|done]|]. simpl. unfold bytes. rewrite Forall_cons, andb_true_iff, IH.
  unfold within, u8. rewrite andb_true_iff, !Z.leb_le. unfold bytes. intuition lia.
Qed.

Lemma mem_sectors_range d i n : 0 ≤ i → 0 ≤ n → 0 < i + n → i + n ≤ zlen (mem_sectors d) →
  bytes (data d) ∧ 512 * (i + n) ≤ zlen (data d) ∧ i + n ≤ 8388607 ∧
  mem_sectors d = chunks (Z.to_nat (Z.min (zlen (data d) / 512) 8388607)) (data d).
Proof.
  intros Hi Hn Hpos Hl. unfold mem_sectors in *. destruct (forallb _ _) eqn:E; [|rewrite zlen_nil in Hl; lia].
  apply within_bytes in E. rewrite zlen_chunks, Z2Nat.id in Hl by (pose proof (zlen_nonneg (data d)); mlia).
  pose proof (zlen_nonneg (data d)). split; [done|]. split; [mlia|]. split; [lia|done].
Qed.

Lemma mem_sectors_size d : Forall (λ s, zlen s = 512 ∧ bytes s) (mem_sectors d).
Proof.
  unfold mem_sectors. destruct (forallb _ _) eqn:E; [|constructor]. apply within_bytes in E.
  apply Forall_lookup. intros j s Hj. rewrite lookup_chunks in Hj. case_decide; [|done]. injection Hj as <-.
  pose proof (zlen_nonneg (data d)). split; [|by apply Forall_take, Forall_drop].
  rewrite zlen_ztake; [done|]. rewrite zlen_zdrop; mlia.
Qed.

Lemma mem_read_law start n d : 0 ≤ start → 0 ≤ n → start + n ≤ zlen (mem_sectors d) →
  returns (mem_read_sectors_to start n d) (λ '(r, d'),
    r = inl (ztake n (zdrop start (mem_sectors d))) ∧ mem_sectors d' = mem_sectors d).
Proof.
  intros Hs Hn Hl. unfold mem_read_sectors_to.
  destruct (decide (start + n = 0)) as [E0|Hpos].
  { assert (start = 0) as -> by lia. assert (n = 0) as -> by lia. run. pose proof (zlen_nonneg (data d)). run. by apply returns_ret. }
  destruct (mem_sectors_range d start n) as (Hb & Hd & Hm & E); [lia..|done|]. run. apply returns_ret. split; [|done]. f_equal.
  apply list_eq. intros k. rewrite lookup_window, E, !lookup_chunks by done. destruct (decide (k < Z.to_nat n)%nat).
  + rewrite decide_True by lia. rewrite decide_True by (pose proof (zlen_nonneg (data d)); mlia). f_equal.
    apply list_eq. intros j. rewrite !lookup_window by lia. case_decide; [|done]. rewrite decide_True by lia. f_equal. lia.
  + by rewrite decide_False by lia.
Qed.

Lemma mem_write_law i b d : 0 ≤ i < zlen (mem_sectors d) → zlen b = 512 → bytes b →
  returns (mem_write_sector i b d) (λ '(r, d'), r = inl tt ∧ mem_sectors d' = <[Z.to_nat i := b]> (mem_sectors d)).
Proof.
  intros Hi Hb Hbb. unfold mem_write_sector.
  assert (rassert (zlen b =? 512) = Ret tt) as -> by (by rewrite Hb). rewrite ret_bind.
  destruct (mem_sectors_range d i 1) as (Hbd & Hd & Hm & E); [lia..|]. run. apply returns_ret. split; [done|].
  assert (Hbs : bytes (splice (data d) (i * 512) b)).
  { unfold splice, bytes in *. rewrite !Forall_app. split; [by apply Forall_take|]. split; [done|by apply Forall_drop]. }
  unfold mem_sectors at 1. simpl. rewrite (proj2 (within_bytes _) Hbs), zlen_splice, E by lia.
  apply list_eq. intros k. pose proof (zlen_nonneg (data d)). rewrite lookup_chunks.
  destruct (decide (k = Z.to_nat i)) as [->|Hne].
  + rewrite decide_True by mlia. rewrite list_lookup_insert_eq by (rewrite <- E; unfold zlen in Hi; lia).
    f_equal. rewrite Z2Nat.id, (Z.mul_comm 512) by lia. rewrite <- Hb at 1. apply window_splice_same; lia.
  + rewrite list_lookup_insert_ne, lookup_chunks by done. case_decide; [|done]. f_equal. apply window_splice_other; lia.
Qed.

#[global] Instance mem_laws : DataSourceLaws InMemoryFatDataSource := {|
  sectors := mem_sectors; sectors_size := mem_sectors_size; read_law := mem_read_law; write_law := mem_write_law
|}.

(** A volume of 126 clusters of one sector, with one table of one sector. *)
Definition sample_bpb : BiosParameterBlock :=
  mkBpb [] [] 512 1 1 1 0 0 248 0 0 0 0 128 1 0 0 2 0 0 128 41 0 [] [] [85; 170].
Definition sample_volume (image : list Z) : Fat InMemoryFatDataSource :=
  mkFat (mkMem image) 0 sample_bpb (sample_table ++ zeros 120).

Lemma sample_geometry (image : list Z) : zlen image = 65536 → bytes image → geometry (sample_volume image).
Proof.
  intros Hl Hb. assert (Hd : zlen (disk (sample_volume image)) = 128).
  { change (disk (sample_volume image)) with (mem_sectors (mkMem image)). unfold mem_sectors. cbn [data].
    rewrite (proj2 (within_bytes _) Hb), zlen_chunks, Hl. done. }
  split; unfold spc, data_start; rewrite ?Hd; done || (unfold zlen; simpl; lia).
Qed.

Lemma table_survives_remount_witness :
  does save_fat (sample_volume (zeros 65536)) (λ _ fat',
    does init (fat' <| file_allocation_table := [] |>) (λ _ fat2, file_allocation_table fat2 = sample_table ++ zeros 120)).
Proof.
  eapply does_mono; [apply (table_survives_remount (sample_volume (zeros 65536)))|].
  - apply sample_geometry; [vm_compute; reflexivity|]. apply within_bytes. vm_compute. reflexivity.
  - done.
  - simpl. lia.
  - vm_compute. reflexivity.
  - simpl. lia.
  - simpl. repeat constructor; unfold u32; lia.
  - intros [] fat' [_ Hi]. exact Hi.
Defined.
