(* ===== verification/FatNames.v ===== *)
(** * File entries and their names

    [fs/src/fat32/lfn.rs], [FatFileEntry] of [fs/src/fat32/mod.rs] and the
    reading of a directory cluster of [fs/src/fat32/fat.rs]: short names,
    long names spread over several entries, and their checksum.  The [ucs2]
    conversions are an interface with its laws. *)

From S2P Require Import Prelude Clock Utf8 FatTable FatEntry.

Definition FAT_FREE_ENTRY : Z := 229.

(** ** The [ucs2] crate *)

Class Ucs2 := {
  ucs2_encode : list Z → Z → option (list Z);  (** the units of a string that fit the room *)
  ucs2_decode : list Z → Z → option (list Z);  (** the UTF-8 bytes of units that fit the room *)
  str_num_ucs2_chars : list Z → option Z
}.

(** The characters UCS-2 can represent. *)
Definition bmp (c : Z) : Prop := scalar c ∧ c < U16.

Class Ucs2Laws `{Ucs2} : Prop := {
  num_law cs : Forall bmp cs → str_num_ucs2_chars (encode cs) = Some (zlen cs);
  encode_law cs room : Forall bmp cs → zlen cs ≤ room → ucs2_encode (encode cs) room = Some cs;
  decode_law cs room : Forall bmp cs → zlen (encode cs) ≤ room → ucs2_decode cs room = Some (encode cs)
}.

(** ** Short names *)

Definition DOT : Z := 46.
Definition TILDE_ONE : list Z := [126; 49].

(** The name and the extension, cut to three bytes. *)
Definition split_extension (lfn : list Z) : res (list Z * list Z) :=
  match rfind DOT lfn with
  | None => Ret (lfn, [])
  | Some dot_index =>
      '(filename_part, extension_part) ← split_str lfn dot_index;
      '(_, extension_part) ← split_str extension_part 1;
      if 3 <? zlen extension_part then
        '(extension_part, _) ← split_str extension_part 3; Ret (filename_part, extension_part)
      else Ret (filename_part, extension_part)
  end.

(** [replace_range(i..j, with)] *)
Definition replace_range (s : list Z) (i j : Z) (by_ : list Z) : res (list Z) :=
  rassert (is_char_boundary s i && is_char_boundary s j && (i <=? j) && (j <=? zlen s));;
  Ret (ztake i s ++ by_ ++ zdrop j s).

Definition mark_lossy (filename : list Z) : res (list Z) :=
  if 8 <? zlen filename then replace_range filename 6 8 TILDE_ONE
  else if zlen filename =? 7 then f ← replace_range filename 6 7 [126]; Ret (f ++ [49])
  else Ret (filename ++ TILDE_ONE).

Definition convert_to_sfn (lfn : list Z) : res (list Z) :=
  let lfn := to_ascii_uppercase lfn in
  '(filename, extension) ← split_extension lfn;
  let '(lossy, filename, extension) :=
    if (zlen filename =? 0) && negb (zlen extension =? 0) then (true, from_utf8_lossy (zdrop 1 lfn), [])
    else (false, filename, extension) in
  '(lossy, filename) ← (if 8 <? zlen filename then '(f, _) ← split_str filename 7; Ret (true, f)
                        else Ret (lossy, filename));
  let '(lossy, filename) :=
    if existsb (Z.eqb DOT) filename then (true, filter (λ b, b ≠ DOT) filename) else (lossy, filename) in
  filename ← (if lossy : bool then mark_lossy filename else Ret filename);
  Ret (if zlen extension =? 0 then filename else filename ++ [DOT] ++ extension).

Definition padded_sfn (lfn : list Z) : res (list Z) :=
  sfn ← convert_to_sfn lfn;
  Ret (if zlen sfn =? 11 then sfn else sfn ++ replicate (Z.to_nat (12 - zlen sfn)) 32).

(** ** File entries *)

Record FatFileEntry (T : Type) := mkEntry {
  name : list Z; attr : Z; creation_date_time : T; last_access_date_time : T; last_write_date_time : T;
  file_size : Z; raw : list RawFatFileEntry
}.
Arguments mkEntry {T}. Arguments name {T}. Arguments attr {T}. Arguments creation_date_time {T}.
Arguments last_access_date_time {T}. Arguments last_write_date_time {T}. Arguments file_size {T}.
Arguments raw {T}.
#[global] Instance FatFileEntry_eta {T} : Eta (FatFileEntry T) := λ e,
  mkEntry (name e) (attr e) (creation_date_time e) (last_access_date_time e) (last_write_date_time e)
    (file_size e) (raw e).

Section Entries.
Context {T : Type} `{Calendar T} `{Ucs2}.
#[local] Abbreviation entry := (FatFileEntry T).

Definition entry_default : entry := mkEntry [] 0 epoch epoch epoch 0 [].

(** [self.raw[0]], and an update of it. *)
Definition sfn (e : entry) : res RawFatFileEntry :=
  match raw e with r :: _ => Ret r | [] => Crash Panic end.
Definition on_sfn (f : RawFatFileEntry → RawFatFileEntry) (e : entry) : res entry :=
  match raw e with r :: rest => Ret (e <| raw := f r :: rest |>) | [] => Crash Panic end.

Fixpoint checksum_step (lfn_checksum : Z) (bytes : list Z) : res Z :=
  match bytes with
  | [] => Ret lfn_checksum
  | b :: rest =>
      let top := if Z.land lfn_checksum 1 =? 1 then 128 else 0 in
      x ← add_chk U8 (Z.shiftr lfn_checksum 1) b;
      checksum_step ((top + x) mod U8) rest
  end.
(** [compute_lfn_checksum] *)
Definition compute_lfn_checksum (bytes : list Z) : res Z := checksum_step 0 bytes.

Definition LFN_ATTR : Z := Z.lor READ_ONLY (Z.lor HIDDEN (Z.lor SYSTEM VOLUME_ID)).

Definition lfn_part (checksum : Z) (index : nat) (part : list Z) : LongFileNameFatEntry :=
  mkLfn ((Z.of_nat index + 1) mod U8) (ztake 5 part) LFN_ATTR 0 checksum (ztake 6 (zdrop 5 part)) 0 (zdrop 11 part).

(** [chunks(13)] of a buffer that is a multiple of 13 units. *)
Fixpoint parts (k : nat) (buffer : list Z) : list (list Z) :=
  match k with O => [] | S k => ztake 13 buffer :: parts k (zdrop 13 buffer) end.

Definition set_name (n : list Z) (e : entry) : res entry :=
  let e := e <| name := n |> <| raw := [default raw_default (head (raw e))] |> in
  if zlen n <=? 11 then on_sfn (λ r, r <| r_name := n ++ replicate (Z.to_nat (11 - zlen n)) 32 |>) e
  else
    bytes ← padded_sfn n;
    short ← slice bytes 0 11;
    e ← on_sfn (λ r, r <| r_name := short |>) e;
    lfn_checksum ← compute_lfn_checksum short;
    lfn_name_length ← unwrap (str_num_ucs2_chars n);
    let buffer_length := lfn_name_length / 13 * 13 + 13 in
    units ← unwrap (ucs2_encode n buffer_length);
    let lfn_buffer := units ++ zeros (buffer_length - zlen units) in
    let chunks := reverse (parts (Z.to_nat (buffer_length / 13)) lfn_buffer) in
    Ret (e <| raw := raw e ++ imap (λ index part, lfn_as_sfn (lfn_part lfn_checksum index part)) chunks |>).

Definition set_attr (a : Z) (e : entry) : res entry := on_sfn (λ r, r <| r_attr := a |>) (e <| attr := a |>).

Definition set_creation_date_time (t : T) (e : entry) : res entry :=
  let '(date, time) := create_fields_from_date_time t in
  on_sfn (λ r, r <| r_creation_date := date |> <| r_creation_time := time |>) (e <| creation_date_time := t |>).
Definition set_last_access_date_time (t : T) (e : entry) : res entry :=
  let '(date, _) := create_fields_from_date_time t in
  on_sfn (λ r, r <| r_last_access_date := date |>) (e <| last_access_date_time := t |>).
Definition set_last_write_date_time (t : T) (e : entry) : res entry :=
  let '(date, time) := create_fields_from_date_time t in
  on_sfn (λ r, r <| r_last_write_date := date |> <| r_last_write_time := time |>) (e <| last_write_date_time := t |>).
Definition set_file_size (n : Z) (e : entry) : res entry :=
  on_sfn (λ r, r <| r_file_size := n |>) (e <| file_size := n |>).

(** [From<RawFatFileEntry>] *)
Definition entry_from_raw (value : RawFatFileEntry) : res entry :=
  c ← create_date_time_from_fields (r_creation_date value) (r_creation_time value);
  a ← create_date_time_from_fields (r_last_access_date value) (r_last_write_time value);
  w ← create_date_time_from_fields (r_last_write_date value) (r_last_write_time value);
  at_ ← from_bits (r_attr value);
  Ret (mkEntry (encode (trim (lossy_chars (r_name value)))) at_ c a w (r_file_size value) [value]).

(** ** Reading a directory cluster *)

Fixpoint until_nul (l : list Z) : list Z :=
  match l with [] => [] | b :: rest => if b =? 0 then [] else b :: until_nul rest end.

(** The part of the name in one long-name entry: decoded into a buffer of 79
    bytes, up to the first zero. *)
Definition lfn_text (lfn : LongFileNameFatEntry) : res (list Z) :=
  b1 ← unwrap (ucs2_decode (l_name1 lfn) 79);
  b2 ← unwrap (ucs2_decode (l_name2 lfn) (79 - zlen b1));
  b3 ← unwrap (ucs2_decode (l_name3 lfn) (79 - (zlen b1 + zlen b2)));
  unwrap (from_utf8 (until_nul (b1 ++ b2 ++ b3))).

Fixpoint list_entries (l : list FatEntry) (lfn_entries : list RawFatFileEntry) (nm : list Z) (processing_lfn : bool)
  : res (list entry) :=
  match l with
  | [] => Ret []
  | FileEntry file :: rest =>
      if bool_decide (r_name file = zeros 11) then Ret []
      else if byte_at (r_name file) 0 =? FAT_FREE_ENTRY then list_entries rest lfn_entries nm processing_lfn
      else
        e ← entry_from_raw file;
        if processing_lfn then
          let e := e <| name := nm |> <| raw := raw e ++ lfn_entries |> in
          es ← list_entries rest [] [] false; Ret (e :: es)
        else es ← list_entries rest lfn_entries nm processing_lfn; Ret (e :: es)
  | LongFileNameEntry lfn :: rest =>
      t ← lfn_text lfn;
      list_entries rest (lfn_entries ++ [lfn_as_sfn lfn]) (t ++ nm) true
  end.
End Entries.

(** ** Names of ASCII characters *)

Definition ascii (n : list Z) : Prop := Forall (λ b, 0 < b < 128) n.

Lemma ascii_encode n : ascii n → encode n = n.
Proof.
  induction 1 as [|b n Hb Hn IH]; [done|]. change (encode (b :: n)) with (encode_char b ++ encode n). rewrite IH.
  unfold encode_char. destruct (Z.ltb_spec b 128); [done|lia].
Qed.

Lemma ascii_bmp n : ascii n → Forall bmp n.
Proof. intros Hn. eapply Forall_impl; [exact Hn|]. intros b Hb. cbv beta in Hb. split; [left; lia|lia]. Qed.

Lemma ascii_scalar n : ascii n → Forall scalar n.
Proof. intros Hn. eapply Forall_impl; [exact Hn|]. intros b Hb. cbv beta in Hb. unfold scalar. lia. Qed.

Lemma ascii_lossy n : ascii n → lossy_chars n = n.
Proof. intros Hn. rewrite <- (ascii_encode n Hn) at 1. by apply lossy_encode, ascii_scalar. Qed.

Lemma ascii_take n i : ascii n → ascii (ztake i n).
Proof. apply Forall_take. Qed.
Lemma ascii_drop n i : ascii n → ascii (zdrop i n).
Proof. apply Forall_drop. Qed.
Lemma ascii_app n m : ascii n → ascii m → ascii (n ++ m).
Proof. intros. by apply Forall_app. Qed.

Lemma ascii_boundary n i : ascii n → 0 ≤ i ≤ zlen n → is_char_boundary n i = true.
Proof.
  intros Hn Hi. unfold is_char_boundary. destruct (Z.eqb_spec i 0), (Z.eqb_spec i (zlen n)); try done. simpl.
  destruct (Z.ltb_spec 0 i), (Z.ltb_spec i (zlen n)); try lia. simpl. unfold cont. rewrite within_false; [done|]. left.
  unfold byte_at, zlen in *. destruct (n !! Z.to_nat i) as [b|] eqn:E; [|simpl; lia]. simpl.
  pose proof (Forall_lookup_1 _ _ _ _ Hn E). simpl in *. lia.
Qed.

Lemma split_ascii n i : ascii n → 0 ≤ i ≤ zlen n → split_str n i = Ret (ztake i n, zdrop i n).
Proof. intros Hn Hi. unfold split_str. by rewrite ascii_boundary. Qed.

Lemma rfind_range b n i : rfind b n = Some i → 0 ≤ i < zlen n.
Proof.
  revert i. induction n as [|x n IH]; intros i; [done|]. rewrite zlen_cons. simpl. destruct (rfind b n) as [j|].
  - intros [= <-]. specialize (IH j eq_refl). lia.
  - pose proof (zlen_nonneg n). destruct (x =? b); [|done]. intros [= <-]. lia.
Qed.

Lemma split_extension_ascii n : ascii n →
  returns (split_extension n) (λ '(f, x), ascii f ∧ ascii x ∧ zlen x ≤ 3).
Proof.
  intros Hn. unfold split_extension. destruct (rfind DOT n) as [i|] eqn:Ei.
  - pose proof (rfind_range _ _ _ Ei) as Hi. rewrite split_ascii by (done || lia). rewrite ret_bind.
    rewrite split_ascii; [|by apply ascii_drop|rewrite zlen_zdrop; lia]. rewrite ret_bind.
    destruct (Z.ltb_spec 3 (zlen (zdrop 1 (zdrop i n)))).
    + rewrite split_ascii; [|by apply ascii_drop, ascii_drop|lia]. rewrite ret_bind. apply returns_ret.
      split; [by apply ascii_take|]. split; [by apply ascii_take, ascii_drop, ascii_drop|]. rewrite zlen_ztake; lia.
    + apply returns_ret. split; [by apply ascii_take|]. split; [by apply ascii_drop, ascii_drop|done].
  - apply returns_ret. split; [done|]. split; [constructor|done].
Qed.

Lemma upper_ascii n : ascii n → ascii (to_ascii_uppercase n).
Proof.
  intros Hn. unfold ascii, to_ascii_uppercase. rewrite Forall_fmap. eapply Forall_impl; [exact Hn|]. intros b Hb. cbv beta in Hb. simpl.
  unfold within. destruct (Z.leb_spec 97 b), (Z.leb_spec b 122); simpl; lia.
Qed.

Lemma tilde_ascii : ascii TILDE_ONE.
Proof. repeat constructor; lia. Qed.

Lemma mark_lossy_ascii f : ascii f → zlen f ≤ 8 → returns (mark_lossy f) (λ g, ascii g ∧ 1 ≤ zlen g ≤ 10).
Proof.
  intros Hf Hl. unfold mark_lossy. pose proof (zlen_nonneg f). destruct (Z.ltb_spec 8 (zlen f)); [lia|].
  destruct (Z.eqb_spec (zlen f) 7) as [E|].
  - unfold replace_range. rewrite !ascii_boundary by (done || lia).
    assert (rassert (true && true && (6 <=? 7) && (7 <=? zlen f)) = Ret tt) as -> by (by rewrite E).
    rewrite !ret_bind. apply returns_ret. split.
    + repeat apply ascii_app; [by apply ascii_take|repeat constructor; lia|by apply ascii_drop|repeat constructor; lia].
    + rewrite !zlen_app, zlen_ztake, zlen_zdrop by lia. rewrite E. unfold zlen. simpl. lia.
  - apply returns_ret. split; [apply ascii_app; [done|apply tilde_ascii]|]. rewrite zlen_app. unfold zlen. simpl. unfold zlen in *. lia.
Qed.

Lemma filter_ascii f : ascii f → ascii (filter (λ b, b ≠ DOT) f) ∧ zlen (filter (λ b, b ≠ DOT) f) ≤ zlen f.
Proof.
  intros Hf. split.
  { unfold ascii in *. rewrite Forall_forall in *. intros b [_ Hb]%list_elem_of_filter. by apply Hf. }
  unfold zlen. pose proof (length_filter (λ b, b ≠ DOT) f). lia.
Qed.

Lemma zlen_upper n : zlen (to_ascii_uppercase n) = zlen n.
Proof. unfold zlen, to_ascii_uppercase. by rewrite length_fmap. Qed.

(** The short name of an ASCII name is ASCII. *)
Lemma convert_to_sfn_ascii n : ascii n →
  returns (convert_to_sfn n) (λ s, ascii s ∧ zlen s ≤ 14).
Proof.
  intros Hn. unfold convert_to_sfn. cbv zeta. set (u := to_ascii_uppercase n).
  assert (Hu : ascii u) by by apply upper_ascii.
  eapply returns_bind; [by apply split_extension_ascii|]. intros [f x] (Hf & Hx & Hx3).
  assert (Hstep : ∀ (lossy : bool) g y, ascii g → ascii y → zlen y ≤ 3 → returns
    ('(lossy, filename) ← (if 8 <? zlen g then '(f, _) ← split_str g 7; Ret (true, f) else Ret (lossy, g));
     let '(lossy, filename) :=
       if existsb (Z.eqb DOT) filename then (true, filter (λ b, b ≠ DOT) filename) else (lossy, filename) in
     filename ← (if lossy : bool then mark_lossy filename else Ret filename);
     Ret (if zlen y =? 0 then filename else filename ++ [DOT] ++ y)) (λ s, ascii s ∧ zlen s ≤ 14)).
  { intros lossy g y Hg Hy Hy3.
    eapply (returns_bind _ _ (λ '(_, h), ascii h ∧ zlen h ≤ 8)).
    { destruct (Z.ltb_spec 8 (zlen g)); [|by apply returns_ret]. rewrite split_ascii by (done || lia). rewrite ret_bind.
      apply returns_ret. split; [by apply ascii_take|]. rewrite zlen_ztake; lia. }
    intros [l2 h] [Hh Hh8].
    assert (Hmid : let '(l3, h3) := if existsb (Z.eqb DOT) h then (true, filter (λ b, b ≠ DOT) h) else (l2, h) in
      ascii h3 ∧ zlen h3 ≤ 8).
    { destruct (existsb _ _); [|done]. destruct (filter_ascii h Hh). split; [done|lia]. }
    destruct (if existsb (Z.eqb DOT) h then _ else _) as [l3 h3]. destruct Hmid as [Ha3 Hz3].
    eapply (returns_bind _ _ (λ k, ascii k ∧ zlen k ≤ 10)).
    { destruct l3; [|apply returns_ret; split; [done|lia]]. eapply returns_mono; [by apply mark_lossy_ascii|].
      intros k (? & ?). split; [done|lia]. }
    intros k [Hk Hk10]. apply returns_ret. destruct (zlen y =? 0); [split; [done|lia]|]. split.
    - repeat apply ascii_app; [done|repeat constructor; unfold DOT; lia|done].
    - rewrite !zlen_app. change (zlen [DOT]) with 1. lia. }
  destruct ((zlen f =? 0) && negb (zlen x =? 0)); apply Hstep; try done; [|constructor].
  unfold from_utf8_lossy. rewrite ascii_lossy by (by apply ascii_drop). rewrite ascii_encode by (by apply ascii_drop).
  by apply ascii_drop.
Qed.

Lemma padded_sfn_ascii n : ascii n → returns (padded_sfn n) (λ s, ascii s ∧ 11 ≤ zlen s).
Proof.
  intros Hn. unfold padded_sfn. eapply returns_bind; [by apply convert_to_sfn_ascii|]. intros s [Hs _]. apply returns_ret.
  destruct (Z.eqb_spec (zlen s) 11); [split; [done|lia]|]. split.
  - apply ascii_app; [done|]. apply Forall_replicate. lia.
  - rewrite zlen_app. unfold zlen. rewrite length_replicate. lia.
Qed.

Lemma checksum_ascii c n : u8 c → ascii n → returns (checksum_step c n) u8.
Proof.
  intros Hc Hn. revert c Hc. induction Hn as [|b n Hb Hn IH]; intros c Hc; [by apply returns_ret|]. cbn [checksum_step]. cbv zeta.
  rewrite Z.shiftr_div_pow2 by lia. change (2 ^ 1) with 2. rewrite add_chk_ret by mlia. rewrite ret_bind. apply IH. mlia.
Qed.

(** ** Long names *)

Section LongNames.
Context `{Ucs2Laws}.

Definition nonzero (cs : list Z) : Prop := Forall (λ c, c ≠ 0) cs.

Lemma encode_app a b : encode (a ++ b) = encode a ++ encode b.
Proof. unfold encode. by rewrite bind_app. Qed.

Lemma encode_char_nonzero c : scalar c → c ≠ 0 → Forall (λ b, b ≠ 0) (encode_char c).
Proof.
  intros Hs Hc. unfold encode_char, scalar in *.
  destruct (Z.ltb_spec c 128); [|destruct (Z.ltb_spec c 2048); [|destruct (Z.ltb_spec c 65536)]]; repeat constructor; mlia.
Qed.

Lemma until_nul_app a b : Forall (λ x, x ≠ 0) a → until_nul (a ++ b) = a ++ until_nul b.
Proof. induction 1 as [|x a Hx Ha IH]; [done|]. simpl. destruct (Z.eqb_spec x 0); [done|]. by rewrite IH. Qed.

Lemma until_nul_text pre z : Forall scalar pre → nonzero pre → until_nul (encode (pre ++ replicate z 0)) = encode pre.
Proof.
  intros Hs Hn. rewrite encode_app. rewrite until_nul_app.
  - destruct z; simpl; by rewrite app_nil_r.
  - unfold encode. induction Hs as [|c pre Hc Hs IH]; [constructor|]. rewrite bind_cons. apply Forall_cons in Hn as [Hc0 Hn].
    apply Forall_app. split; [by apply encode_char_nonzero|by apply IH].
Qed.

Lemma encode_length cs : zlen (encode cs) ≤ 4 * zlen cs.
Proof.
  induction cs as [|c cs IH]; [done|]. change (encode (c :: cs)) with (encode_char c ++ encode cs). rewrite zlen_app, zlen_cons.
  assert (zlen (encode_char c) ≤ 4); [|lia]. unfold encode_char, zlen.
  destruct (c <? 128), (c <? 2048), (c <? 65536); simpl; lia.
Qed.

Lemma bmp_zeros z : Forall bmp (replicate z 0).
Proof. apply Forall_replicate. unfold bmp, scalar. lia. Qed.

(** The text of one part of a long name. *)
Lemma lfn_text_part ck i pre z part : part = pre ++ replicate z 0 → zlen part = 13 → Forall bmp pre → nonzero pre →
  lfn_text (lfn_part ck i part) = Ret (encode pre).
Proof.
  intros Ep Hl Hb Hn. assert (Hbp : Forall bmp part) by (subst part; apply Forall_app; split; [done|apply bmp_zeros]).
  unfold lfn_text, lfn_part. cbn [l_name1 l_name2 l_name3].
  set (p1 := ztake 5 part). set (p2 := ztake 6 (zdrop 5 part)). set (p3 := zdrop 11 part).
  assert (E : part = p1 ++ p2 ++ p3).
  { unfold p1, p2, p3, ztake, zdrop. rewrite <- (take_drop (Z.to_nat 5) part) at 1. f_equal.
    rewrite <- (take_drop (Z.to_nat 6) (drop (Z.to_nat 5) part)) at 1. f_equal. by rewrite drop_drop. }
  assert (Hz : zlen p1 = 5 ∧ zlen p2 = 6 ∧ zlen p3 = 2).
  { unfold p1, p2, p3. rewrite !zlen_ztake, !zlen_zdrop; rewrite ?zlen_zdrop; lia. }
  rewrite E in Hbp. apply Forall_app in Hbp as [B1 B2]. apply Forall_app in B2 as [B2 B3]. destruct Hz as (Z1 & Z2 & Z3).
  pose proof (encode_length p1). pose proof (encode_length p2). pose proof (encode_length p3).
  rewrite (decode_law p1) by (done || lia). simpl unwrap. rewrite ret_bind.
  rewrite (decode_law p2) by (done || lia). simpl unwrap. rewrite ret_bind.
  rewrite (decode_law p3) by (done || lia). simpl unwrap. rewrite ret_bind.
  rewrite <- !encode_app, <- E, Ep, until_nul_text.
  - rewrite from_utf8_encode; [done|]. eapply Forall_impl; [exact Hb|]. by intros c [? _].
  - eapply Forall_impl; [exact Hb|]. by intros c [? _].
  - done.
Qed.

(** The parts of a padded name: their texts make up the name. *)
Lemma parts_spec k cs z : zlen (cs ++ replicate z 0) = 13 * Z.of_nat k → Forall bmp cs → nonzero cs →
  ∃ pres, mjoin pres = cs ∧ Forall2 (λ pre part, Forall bmp pre ∧ nonzero pre ∧ zlen part = 13 ∧
    ∃ z', part = pre ++ replicate z' 0) pres (parts k (cs ++ replicate z 0)).
Proof.
  revert cs z. induction k as [|k IH]; intros cs z Hl Hb Hn.
  { exists []. assert (cs = []) as ->; [|done]. rewrite zlen_app in Hl. pose proof (zlen_nonneg cs).
    pose proof (zlen_nonneg (replicate z 0)). apply zlen_zero_inv. lia. }
  cbn [parts]. set (l := cs ++ replicate z 0) in *.
  assert (Hpart : zlen (ztake 13 l) = 13) by (rewrite zlen_ztake; lia).
  assert (Hrest : zlen (zdrop 13 l) = 13 * Z.of_nat k) by (rewrite zlen_zdrop; lia).
  destruct (Z.le_gt_cases 13 (zlen cs)) as [Hge|Hlt].
  - assert (Et : ztake 13 l = ztake 13 cs) by (unfold l, ztake, zlen in *; by rewrite take_app_le by lia).
    assert (Ed : zdrop 13 l = zdrop 13 cs ++ replicate z 0) by (unfold l, zdrop, zlen in *; by rewrite drop_app_le by lia).
    rewrite Ed in Hrest |- *. destruct (IH (zdrop 13 cs) z) as (pres & Hj & Hf); [done|by apply Forall_drop|by apply Forall_drop|].
    exists (ztake 13 cs :: pres). split; [change (ztake 13 cs ++ mjoin pres = cs); rewrite Hj; apply ztake_zdrop|].
    constructor; [|done]. rewrite Et in *. split; [by apply Forall_take|]. split; [by apply Forall_take|]. split; [done|].
    exists 0%nat. by rewrite app_nil_r.
  - assert (Et : ztake 13 l = cs ++ replicate (13 - length cs) 0).
    { unfold l, ztake, zlen in *. rewrite length_app, length_replicate in Hl. rewrite take_app_ge by lia. f_equal.
      rewrite take_replicate. f_equal. lia. }
    assert (Ed : zdrop 13 l = [] ++ replicate (z - (13 - length cs)) 0).
    { unfold l, zdrop, zlen in *. rewrite drop_app_ge by lia. rewrite drop_replicate. simpl. f_equal. }
    rewrite Ed in Hrest |- *. destruct (IH [] (z - (13 - length cs))%nat) as (pres & Hj & Hf); [done|constructor|constructor|].
    exists (cs :: pres). split; [change (cs ++ mjoin pres = cs); rewrite Hj; apply app_nil_r|]. constructor; [|done].
    split; [done|]. split; [done|]. split; [done|]. rewrite Et. eauto.
Qed.

Lemma lfn_part_ok ck i part : u8 ck → zlen part = 13 → Forall u16 part → lfn_ok (lfn_part ck i part).
Proof.
  intros Hc Hl Hu. split; unfold lfn_part; simpl.
  - unfold u8 in *. split; [mlia|]. split; [vm_compute; intuition discriminate|]. split; [lia|done].
  - rewrite !zlen_ztake, !zlen_zdrop; rewrite ?zlen_zdrop; lia.
  - split; [by apply Forall_take|]. split; [by apply Forall_take, Forall_drop|]. split; [by apply Forall_drop|]. unfold u16. lia.
Qed.

Section Listing.
Context {T : Type} `{Calendar T}.

Lemma list_lfn (ls : list LongFileNameFatEntry) ts rest lf nm b : ls ≠ [] →
  Forall2 (λ l t, lfn_text l = Ret t) ls ts →
  list_entries (T := T) ((LongFileNameEntry <$> ls) ++ rest) lf nm b =
  list_entries rest (lf ++ (lfn_as_sfn <$> ls)) (mjoin (reverse ts) ++ nm) true.
Proof.
  intros Hne Hf. revert lf nm b Hne. induction Hf as [|l t ls ts Ht Hf IH]; intros lf nm b Hne; [done|].
  rewrite fmap_cons. cbn [app list_entries]. rewrite Ht, ret_bind. destruct ls as [|l2 ls].
  - inversion Hf. subst. rewrite fmap_nil. cbn [app]. rewrite reverse_singleton. change (mjoin [t]) with (t ++ []). by rewrite app_nil_r.
  - rewrite IH by done. rewrite !fmap_cons, <- app_assoc, reverse_cons, join_app. cbn [app].
    change (mjoin [t]) with (t ++ []). rewrite app_nil_r, <- app_assoc. done.
Qed.
End Listing.
End LongNames.

(** The entries of a file in the order they take on disk: the parts of the
    long name, last part first, then the short entry. *)
Definition disk_order {T} (e : FatFileEntry T) : list RawFatFileEntry := drop 1 (raw e) ++ take 1 (raw e).

Section RoundTrip.
Context {T : Type} `{Calendar T} `{Ucs2Laws}.
#[local] Abbreviation entry := (FatFileEntry T).

(** What the short entry of [e] says is readable. *)
Definition readable (r : RawFatFileEntry) (e : entry) : Prop :=
  raw_ok r ∧ is_long_name_entry (r_attr r) = false ∧ entry_from_raw r = Ret e.

Lemma readable_name r e n : readable r e → zlen n = 11 → ascii n →
  ∃ e', readable (r <| r_name := n |>) e' ∧ e' = e <| name := encode (trim (lossy_chars n)) |> <| raw := [r <| r_name := n |>] |>.
Proof.
  intros (Hok & Ha & He) Hl Hn. eexists. split; [|reflexivity]. split; [|split].
  - destruct Hok as [_ ? ? ?]. split; rsimp; [|done..]. split; [done|]. eapply Forall_impl; [exact Hn|]. intros b Hb.
    cbv beta in Hb. unfold u8. lia.
  - by rsimp.
  - unfold entry_from_raw in *. rsimp. apply bind_ret_inv in He as (c & -> & He). rewrite ret_bind.
    apply bind_ret_inv in He as (a & -> & He). rewrite ret_bind. apply bind_ret_inv in He as (w & -> & He). rewrite ret_bind.
    apply bind_ret_inv in He as (at_ & -> & [= <-]). done.
Qed.

Lemma ascii_used n : zlen n = 11 → ascii n → n ≠ zeros 11 ∧ byte_at n 0 ≠ FAT_FREE_ENTRY.
Proof.
  intros Hl Hn. destruct n as [|b n]; [done|]. apply Forall_cons in Hn as [Hb _]. split; [intros [= -> _]; lia|].
  unfold byte_at, FAT_FREE_ENTRY. simpl. lia.
Qed.

(** A readable entry that is in use is listed. *)
Lemma list_file r e lf nm b rest : readable r e → r_name r ≠ zeros 11 → byte_at (r_name r) 0 ≠ FAT_FREE_ENTRY →
  list_entries (entry_view r :: rest) lf nm b =
  if b then es ← list_entries rest [] [] false; Ret (e <| name := nm |> <| raw := raw e ++ lf |> :: es)
  else es ← list_entries rest lf nm b; Ret (e :: es).
Proof.
  intros (Hok & Ha & He) Hz Hf. rewrite entry_view_file by done. cbn [list_entries].
  rewrite bool_decide_eq_false_2 by done. destruct (Z.eqb_spec (byte_at (r_name r) 0) FAT_FREE_ENTRY); [done|].
  rewrite He, ret_bind. by destruct b.
Qed.

(** What a directory scan makes of the entries of [e]: [shown], and nothing
    else. *)
Definition lists_as (e shown : entry) : Prop := ∀ rest,
  list_entries ((entry_view <$> disk_order e) ++ rest) [] [] false =
  (es ← list_entries rest [] [] false; Ret (shown :: es)).

(** A raw entry that holds a part of a long name. *)
Definition long_entry (r : RawFatFileEntry) : Prop :=
  raw_ok r ∧ r_attr r = LFN_ATTR ∧ 1 ≤ byte_at (r_name r) 0 < 20.

(** The long-name entries [lfns] and the short name make up the name [n]: a
    readable short entry behind them is listed under that name. *)
Record spells (n short : list Z) (lfns : list RawFatFileEntry) : Prop := {
  sp_short : ascii short ∧ zlen short = 11;
  sp_count : zlen lfns = if zlen n <=? 11 then 0 else zlen n / 13 + 1;
  sp_lfns : Forall long_entry lfns;
  sp_lists r (e : entry) rest : readable r e → r_name r = short →
    list_entries ((entry_view <$> lfns ++ [r]) ++ rest) [] [] false =
    (es ← list_entries rest [] [] false; Ret (e <| name := n |> <| raw := r :: lfns |> :: es))
}.

Lemma readable_fields r (e : entry) : readable r e → name e = encode (trim (lossy_chars (r_name r))) ∧ raw e = [r].
Proof.
  intros (_ & _ & He). unfold entry_from_raw in He. apply bind_ret_inv in He as (c & _ & He).
  apply bind_ret_inv in He as (a & _ & He). apply bind_ret_inv in He as (w & _ & He).
  by apply bind_ret_inv in He as (at_ & _ & [= <-]).
Qed.

Lemma short_name_spells n : ascii n → 1 ≤ zlen n ≤ 11 → trimmed n →
  spells n (n ++ replicate (Z.to_nat (11 - zlen n)) 32) [].
Proof.
  intros Hn Hl Ht. set (pad := n ++ replicate (Z.to_nat (11 - zlen n)) 32).
  assert (Hp : ascii pad) by (apply ascii_app; [done|apply Forall_replicate; lia]).
  assert (Hz : zlen pad = 11) by (unfold pad; rewrite zlen_app; unfold zlen in *; rewrite length_replicate; lia).
  split; [done| |constructor|]; [destruct (Z.leb_spec (zlen n) 11); [done|lia]|].
  intros r e rest Hr Hnm. destruct (ascii_used pad Hz Hp) as [Hnz Hnf]. destruct (readable_fields _ _ Hr) as [En Er].
  cbn [app fmap list_fmap]. rewrite (list_file r e) by (done || by rewrite Hnm).
  destruct (list_entries rest [] [] false) as [es|]; [|done]. rewrite !ret_bind. do 2 f_equal.
  rewrite Hnm, ascii_lossy in En by done.
  assert (Et : trim pad = n) by (apply trim_padded; [intros E; rewrite E, zlen_nil in Hl; lia|done]).
  rewrite Et, ascii_encode in En by done. destruct e. cbn [name raw] in *. by rewrite En, Er.
Qed.

Lemma parts_length k l : length (parts k l) = k.
Proof. revert l. induction k as [|k IH]; intros l; simpl; auto. Qed.

Lemma parts_texts k cs z ck : zlen (cs ++ replicate z 0) = 13 * Z.of_nat k → Forall bmp cs → nonzero cs → u8 ck →
  let ls := imap (lfn_part ck) (reverse (parts k (cs ++ replicate z 0))) in
  length ls = k ∧ Forall lfn_ok ls ∧ Forall (λ l, l_attr l = LFN_ATTR) ls ∧
  (∀ i l, ls !! i = Some l → l_sequence_number l = (Z.of_nat i + 1) mod U8) ∧
  ∃ ts, Forall2 (λ l t, lfn_text l = Ret t) ls ts ∧ mjoin (reverse ts) = encode cs.
Proof.
  intros Hl Hb Hn Hc ls. destruct (parts_spec k cs z Hl Hb Hn) as (pres & Hj & Hf).
  assert (Hparts : ∀ i part, reverse (parts k (cs ++ replicate z 0)) !! i = Some part →
    ∃ pre, reverse pres !! i = Some pre ∧ Forall bmp pre ∧ nonzero pre ∧ zlen part = 13 ∧ ∃ z', part = pre ++ replicate z' 0).
  { intros i part Hi. apply Forall2_reverse in Hf. by apply (Forall2_lookup_r _ _ _ i part Hf) in Hi as (pre & ? & ?); eauto. }
  split; [unfold ls; by rewrite length_imap, length_reverse, parts_length|].
  assert (Hlook : ∀ i l, ls !! i = Some l → ∃ part, reverse (parts k (cs ++ replicate z 0)) !! i = Some part ∧ l = lfn_part ck i part).
  { intros i l Hi. unfold ls in Hi. rewrite list_lookup_imap in Hi. destruct (_ !! i) as [part|]; [|done].
    injection Hi as <-. by exists part. }
  split; [|split; [|split]].
  - apply Forall_lookup. intros i l (part & Hi & ->)%Hlook. destruct (Hparts i part Hi) as (pre & _ & Hbp & _ & Hz & z' & ->).
    apply lfn_part_ok; [done|done|]. apply Forall_app. split; [|apply Forall_replicate; unfold u16; lia].
    eapply Forall_impl; [exact Hbp|]. intros c [[?|?] ?]; unfold u16; lia.
  - apply Forall_lookup. intros i l (part & Hi & ->)%Hlook. done.
  - intros i l (part & Hi & ->)%Hlook. done.
  - exists (encode <$> reverse pres). split.
    + apply Forall2_same_length_lookup_2.
      * unfold ls. rewrite length_imap, length_reverse, length_fmap, length_reverse. symmetry. by eapply Forall2_length.
      * intros i l t (part & Hi & ->)%Hlook Ht. destruct (Hparts i part Hi) as (pre & Hpre & Hbp & Hnp & Hz & z' & Ez).
        rewrite list_lookup_fmap, Hpre in Ht. injection Ht as <-. by apply (lfn_text_part ck i pre z').
    + rewrite <- fmap_reverse, reverse_involutive. rewrite <- Hj. clear. induction pres as [|p pres IH]; [done|].
      rewrite fmap_cons. change (encode p ++ mjoin (encode <$> pres) = encode (p ++ mjoin pres)). by rewrite encode_app, IH.
Qed.

Lemma ascii_nonzero n : ascii n → nonzero n.
Proof. intros Hn. eapply Forall_impl; [exact Hn|]. intros b Hb. cbv beta in *. lia. Qed.

Lemma long_listing (ls : list LongFileNameFatEntry) ts r (e : entry) rest : ls ≠ [] → Forall lfn_ok ls →
  Forall (λ l, l_attr l = LFN_ATTR) ls → Forall2 (λ l t, lfn_text l = Ret t) ls ts → readable r e →
  r_name r ≠ zeros 11 → byte_at (r_name r) 0 ≠ FAT_FREE_ENTRY →
  list_entries ((entry_view <$> (lfn_as_sfn <$> ls) ++ [r]) ++ rest) [] [] false =
  (es ← list_entries rest [] [] false;
   Ret (e <| name := mjoin (reverse ts) |> <| raw := raw e ++ (lfn_as_sfn <$> ls) |> :: es)).
Proof.
  intros Hne Hok Ha Ht Hr Hz Hf. rewrite fmap_app, <- app_assoc.
  assert (E : entry_view <$> (lfn_as_sfn <$> ls) = LongFileNameEntry <$> ls).
  { rewrite <- list_fmap_compose. apply list_fmap_ext. intros i l Hi. simpl.
    apply entry_view_lfn; [by apply (Forall_lookup_1 _ _ _ _ Hok Hi)|by rewrite (Forall_lookup_1 _ _ _ _ Ha Hi)]. }
  rewrite E, (list_lfn ls ts) by done. cbn [app]. rewrite app_nil_r. change (entry_view <$> [r]) with [entry_view r]. cbn [app].
  by rewrite (list_file r e).
Qed.

Lemma long_entries ls : (length ls < 19)%nat → Forall lfn_ok ls → Forall (λ l, l_attr l = LFN_ATTR) ls →
  (∀ i l, ls !! i = Some l → l_sequence_number l = (Z.of_nat i + 1) mod U8) → Forall long_entry (lfn_as_sfn <$> ls).
Proof.
  intros Hlen Hok Ha Hseq. rewrite Forall_fmap, Forall_lookup. intros i l Hi. pose proof (lookup_lt_Some _ _ _ Hi) as Hlt.
  pose proof (Forall_lookup_1 _ _ _ _ Hok Hi) as Hl. pose proof (Forall_lookup_1 _ _ _ _ Ha Hi) as Hal.
  pose proof (lfn_read_write l [] Hl) as E. rewrite app_nil_r in E. split; [by apply cast_ok|]. split.
  - rewrite <- Hal. by rewrite <- E at 2.
  - replace (byte_at (r_name (lfn_as_sfn l)) 0) with (l_sequence_number l) by (by rewrite <- E at 1).
    rewrite (Hseq i l Hi), Z.mod_small; lia.
Qed.

Lemma long_name_spells n ck short k : ascii n → 11 < zlen n ≤ 233 → u8 ck → ascii short → zlen short = 11 →
  k = Z.to_nat (zlen n / 13 + 1) →
  spells n short (imap (λ index part, lfn_as_sfn (lfn_part ck index part))
    (reverse (parts k (n ++ zeros (zlen n / 13 * 13 + 13 - zlen n))))).
Proof.
  intros Hn Hl Hck Hs Hsz Ek. set (z := Z.to_nat (zlen n / 13 * 13 + 13 - zlen n)). unfold zeros. fold z.
  assert (Hk : zlen (n ++ replicate z 0) = 13 * Z.of_nat k).
  { rewrite zlen_app. unfold zlen at 2. rewrite length_replicate. unfold z. mlia. }
  destruct (parts_texts k n _ ck Hk (ascii_bmp n Hn) (ascii_nonzero n Hn) Hck) as (Hkl & Hok & Ha & Hseq & ts & Hts & Htx).
  set (ls := imap (lfn_part ck) _) in *.
  replace (imap (λ index part, lfn_as_sfn (lfn_part ck index part)) (reverse (parts k (n ++ replicate z 0))))
    with (lfn_as_sfn <$> ls) by (unfold ls; by rewrite fmap_imap).
  assert (Hk0 : (1 ≤ k ≤ 18)%nat) by (subst k; mlia). split; [done| |apply long_entries; [lia|done..]|].
  - unfold zlen at 1. rewrite length_fmap, Hkl. destruct (Z.leb_spec (zlen n) 11); [lia|]. mlia.
  - intros r e rest Hr Hnm. destruct (ascii_used short Hsz Hs) as [Hnz Hnf]. rewrite <- Hnm in Hnz, Hnf.
    rewrite (long_listing ls ts r e) by (done || (intros E; rewrite E in Hkl; simpl in Hkl; lia)).
    destruct (readable_fields _ _ Hr) as [_ Er]. by rewrite Htx, (ascii_encode n Hn), Er.
Qed.

(** Giving an entry a name changes its short name, its long-name entries and
    nothing else. *)
Lemma set_name_spec n (e0 : entry) : ascii n → 1 ≤ zlen n ≤ 233 → (zlen n ≤ 11 → trimmed n) →
  returns (set_name n e0) (λ e, ∃ short lfns, spells n short lfns ∧
    e = e0 <| name := n |> <| raw := (default raw_default (head (raw e0))) <| r_name := short |> :: lfns |>).
Proof.
  intros Hn Hl Ht. unfold set_name. destruct (Z.leb_spec (zlen n) 11).
  { unfold on_sfn. rsimp. apply returns_ret. do 2 eexists. split; [apply short_name_spells; [done|lia|auto]|done]. }
  eapply returns_bind; [by apply padded_sfn_ascii|]. intros pd [Hpd Hz]. rewrite slice_ret by lia. rewrite ret_bind.
  set (short := ztake (11 - 0) (zdrop 0 pd)).
  assert (Hs : ascii short) by by apply ascii_take, ascii_drop.
  assert (Hsz : zlen short = 11) by (unfold short; rewrite zdrop_0, zlen_ztake; lia).
  unfold on_sfn. rsimp. rewrite ret_bind. eapply returns_bind; [by apply checksum_ascii; [unfold u8; lia|]|]. intros ck Hck.
  pose proof (ascii_bmp n Hn) as Hb. pose proof (num_law n Hb) as Hnum. rewrite (ascii_encode n Hn) in Hnum. rewrite Hnum.
  simpl unwrap. rewrite ret_bind. set (len := zlen n / 13 * 13 + 13).
  assert (Hlen : zlen n ≤ len) by (unfold len; mlia).
  pose proof (encode_law n len Hb Hlen) as Henc. rewrite (ascii_encode n Hn) in Henc. rewrite Henc. simpl unwrap. rewrite ret_bind.
  apply returns_ret. do 2 eexists. split; [|rsimp; cbn [app]; reflexivity].
  apply long_name_spells; try done; [lia|]. unfold len. mlia.
Qed.

(** C31: A name of 1 to 233 ASCII characters, without outer spaces if it has at
    most 11, given to an entry is the name under which a scan of the directory lists it: short names are padded and
    trimmed again, longer ones are spread over long-name entries and put
    together again.  The entries are well formed and few enough to store. *)
Theorem name_roundtrip n (e0 : entry) r0 rs e1 : ascii n → 1 ≤ zlen n ≤ 233 → (zlen n ≤ 11 → trimmed n) →
  raw e0 = r0 :: rs → readable r0 e1 →
  returns (set_name n e0) (λ e, lists_as e (e1 <| name := n |> <| raw := raw e |>) ∧
    Forall raw_ok (raw e) ∧ zlen (raw e) < 20 ∧ name e = n).
Proof.
  intros Hn Hl Ht Hr0 Hr. eapply returns_mono; [by apply set_name_spec|]. intros e (short & lfns & Hsp & ->). rewrite Hr0. rsimp.
  cbn [head default]. destruct Hsp as [[Hs Hz] Hc Hlf Hli]. destruct (readable_name r0 e1 short Hr Hz Hs) as (e' & Hr' & Ee).
  split; [|split; [|split; [|done]]].
  - intros rest. unfold disk_order. rsimp. cbn [drop take]. rewrite (Hli _ e') by done. by rewrite Ee.
  - constructor; [apply Hr'|]. eapply Forall_impl; [exact Hlf|]. by intros r (? & _).
  - rewrite zlen_cons, Hc. destruct (zlen n <=? 11); mlia.
Qed.
End RoundTrip.

(** ** A conversion that satisfies the laws *)

Definition bmpb (c : Z) : bool := ((0 <=? c) && (c <? 55296)) || ((57344 <=? c) && (c <? U16)).

#[global] Instance checked_ucs2 : Ucs2 := {|
  ucs2_encode s room := match mapM id (decode s) with
    | Some cs => if forallb bmpb cs && (zlen cs <=? room) then Some cs else None
    | None => None
    end;
  ucs2_decode cs room := if forallb bmpb cs && (zlen (encode cs) <=? room) then Some (encode cs) else None;
  str_num_ucs2_chars s := match mapM id (decode s) with
    | Some cs => if forallb bmpb cs then Some (zlen cs) else None
    | None => None
    end
|}.

Lemma bmpb_true cs : Forall bmp cs → forallb bmpb cs = true.
Proof.
  induction 1 as [|c cs Hc Hcs IH]; [done|]. simpl. rewrite IH, andb_true_r. unfold bmpb, bmp, scalar in *.
  destruct (Z.leb_spec 0 c), (Z.ltb_spec c 55296), (Z.leb_spec 57344 c), (Z.ltb_spec c U16); simpl; try done; lia.
Qed.

Lemma decode_bmp cs : Forall bmp cs → mapM id (decode (encode cs)) = Some cs.
Proof.
  intros Hb. rewrite decode_encode by (eapply Forall_impl; [exact Hb|]; by intros c [? _]). clear Hb.
  induction cs as [|c cs IH]; [done|]. rewrite fmap_cons. simpl. by rewrite IH.
Qed.

#[global] Instance checked_ucs2_laws : Ucs2Laws.
Proof.
  split.
  - intros cs Hb. simpl. by rewrite decode_bmp, bmpb_true.
  - intros cs room Hb Hr. simpl. rewrite decode_bmp, bmpb_true by done. destruct (Z.leb_spec (zlen cs) room); [done|lia].
  - intros cs room Hb Hr. simpl. rewrite bmpb_true by done. destruct (Z.leb_spec (zlen (encode cs)) room); [done|lia].
Qed.

Definition sample_raw : RawFatFileEntry :=
  mkRaw (zeros 11) 32 0 0 (TimeFields 5 6 15) (DateFields 16 6 44) (DateFields 16 6 44) 0 (TimeFields 5 6 15)
    (DateFields 16 6 44) 0 0.

Lemma sample_readable : ∃ e : FatFileEntry checked_date, readable sample_raw e.
Proof.
  assert (Hc : match entry_from_raw (T := checked_date) sample_raw with Ret _ => true | Crash _ => false end = true)
    by (vm_compute; reflexivity).
  destruct (entry_from_raw sample_raw) as [e|] eqn:E; [|done]. exists e. split; [|split; [reflexivity|exact E]].
  split; [split; [done|]| | |].
  - apply Forall_replicate. done.
  - done.
  - vm_compute. intuition discriminate.
  - done.
Qed.

(** "Long directory name" *)
Definition sample_name : list Z :=
  [76; 111; 110; 103; 32; 100; 105; 114; 101; 99; 116; 111; 114; 121; 32; 110; 97; 109; 101].

Lemma name_roundtrip_witness : ∃ e : FatFileEntry checked_date,
  set_name sample_name (entry_default <| raw := [sample_raw] |>) = Ret e ∧ zlen (raw e) = 3 ∧
  returns (list_entries (entry_view <$> disk_order e) [] [] false) (λ es : list (FatFileEntry checked_date),
    name <$> es = [sample_name]).
Proof.
  destruct sample_readable as (e1 & He1).
  destruct (name_roundtrip sample_name (entry_default <| raw := [sample_raw] |>) sample_raw [] e1) as (e & E & Hl & _).
  - repeat constructor.
  - done.
  - done.
  - reflexivity.
  - exact He1.
  - exists e. split; [exact E|]. split.
    + assert (Hz : match set_name (T := checked_date) sample_name (entry_default <| raw := [sample_raw] |>) with
                   | Ret e2 => zlen (raw e2) =? 3 | Crash _ => false end = true) by (vm_compute; reflexivity).
      rewrite E in Hz. by apply Z.eqb_eq.
    + specialize (Hl []). rewrite app_nil_r in Hl. rewrite Hl. eexists. split; [reflexivity|]. reflexivity.
Defined.

(** The test cases of [lfn.rs]: "File.txt", "foo.tar.gz", ".conf",
    "Asakura Otome.jpeg", "Till", "cobblest.one". *)
Example sfn_cases :
  convert_to_sfn [70; 105; 108; 101; 46; 116; 120; 116] = Ret [70; 73; 76; 69; 46; 84; 88; 84] ∧
  convert_to_sfn [102; 111; 111; 46; 116; 97; 114; 46; 103; 122] = Ret [70; 79; 79; 84; 65; 82; 126; 49; 46; 71; 90] ∧
  convert_to_sfn [46; 99; 111; 110; 102] = Ret [67; 79; 78; 70; 126; 49] ∧
  convert_to_sfn [65; 115; 97; 107; 117; 114; 97; 32; 79; 116; 111; 109; 101; 46; 106; 112; 101; 103] =
    Ret [65; 83; 65; 75; 85; 82; 126; 49; 46; 74; 80; 69] ∧
  convert_to_sfn [84; 105; 108; 108] = Ret [84; 73; 76; 76] ∧
  convert_to_sfn [99; 111; 98; 98; 108; 101; 115; 116; 46; 111; 110; 101] =
    Ret [67; 79; 66; 66; 76; 69; 83; 84; 46; 79; 78; 69].
Proof. vm_compute. done. Qed.
