(* ===== verification/Float.v ===== *)
(** * Floating-point numbers

    The [f32] and [f64] arithmetic the code uses, on the Standard Library's
    specification floats, and the conversions from and to integers. *)

From Stdlib Require Export Floats.SpecFloat.
From S2P Require Import Prelude.

Definition f64 : Type := spec_float.
Definition f64_of (n : Z) : f64 := binary_normalize 53 1024 n 0 false.
Definition f64_add : f64 → f64 → f64 := SFadd 53 1024.
Definition f64_sub : f64 → f64 → f64 := SFsub 53 1024.
Definition f64_mul : f64 → f64 → f64 := SFmul 53 1024.
Definition f64_div : f64 → f64 → f64 := SFdiv 53 1024.
Definition f64_lt : f64 → f64 → bool := SFltb.
Definition f64_is_nan (x : f64) : bool := match x with S754_nan => true | _ => false end.

(** [x as uN]: truncation, saturating at [0] and [max]; NaN is [0]. *)
Definition f64_to_uint (max : Z) (x : f64) : Z :=
  match x with
  | S754_zero _ | S754_nan => 0
  | S754_infinity s => if s then 0 else max
  | S754_finite s m e =>
      if s then 0 else Z.min max (if 0 <=? e then Z.pos m * 2 ^ e else Z.pos m / 2 ^ (- e))
  end.

Definition f32 : Type := spec_float.
Definition f32_of (n : Z) : f32 := binary_normalize 24 128 n 0 false.
Definition f32_to_uint : Z → f32 → Z := f64_to_uint.

(** ** Small integers are exact *)

Lemma digits_lower p : 2 ^ (Z.pos (digits2_pos p) - 1) ≤ Z.pos p.
Proof.
  induction p as [p IH|p IH|]; cbn [digits2_pos]; [..|done];
    replace (Z.pos (Pos.succ (digits2_pos p)) - 1) with (Z.succ (Z.pos (digits2_pos p) - 1)) by lia;
    rewrite Z.pow_succ_r by lia; lia.
Qed.

Lemma digits_shift k p : Z.pos (digits2_pos (Pos.iter xO p k)) = Z.pos (digits2_pos p) + Z.pos k ∧
  Z.pos (Pos.iter xO p k) = Z.pos p * 2 ^ Z.pos k.
Proof.
  induction k as [|k [IH1 IH2]] using Pos.peano_ind; [simpl; lia|]. rewrite Pos.iter_succ. cbn [digits2_pos].
  split; [lia|]. rewrite Pos2Z.inj_succ, Z.pow_succ_r by lia. lia.
Qed.

Section Exact.
Context (prec emax : Z) (Hprec : 1 < prec) (Hemax : prec < emax).

Lemma fexp_normal e : 1 - prec ≤ e → fexp prec emax (prec + e) = e.
Proof. unfold fexp, emin. lia. Qed.

(** A mantissa of full width is kept as it is. *)
Lemma round_full m e : Z.pos (digits2_pos m) = prec → 1 - prec ≤ e ≤ 0 →
  binary_round_aux prec emax false (Z.pos m) e loc_Exact = S754_finite false m e.
Proof.
  intros Hd He. unfold binary_round_aux, shr_fexp. cbn [Zdigits2 shr_record_of_loc]. rewrite Hd, fexp_normal, Z.sub_diag by lia.
  cbn [shr shr_m loc_of_shr_record round_nearest_even Zdigits2]. rewrite Hd, fexp_normal, Z.sub_diag by lia. cbn [shr shr_m].
  destruct (Z.leb_spec e (emax - prec)); [done|lia].
Qed.

Lemma normalize_form m : Z.pos m < 2 ^ prec →
  ∃ m' e, binary_normalize prec emax (Z.pos m) 0 false = S754_finite false m' e ∧ e ≤ 0 ∧ Z.pos m' = Z.pos m * 2 ^ (- e) ∧
    Z.pos (digits2_pos m') = prec.
Proof.
  intros Hn. cbn [binary_normalize]. unfold binary_round. set (d := Z.pos (digits2_pos m)).
  assert (Hd : d ≤ prec).
  { pose proof (digits_lower m) as Hl. fold d in Hl. destruct (Z.le_gt_cases d prec); [done|].
    assert (2 ^ prec ≤ 2 ^ (d - 1)) by (apply Z.pow_le_mono_r; lia). lia. }
  assert (Hd1 : 1 ≤ d) by lia. rewrite Z.add_0_r.
  replace (fexp prec emax d) with (d - prec) by (unfold fexp, emin; lia). unfold shl_align. rewrite Z.sub_0_r.
  destruct (d - prec) as [|p|p] eqn:Ed; [|lia|].
  - rewrite round_full by lia. exists m, 0. split; [done|]. split; [lia|]. split; [|fold d]; lia.
  - destruct (digits_shift p m) as [Hs Hv]. rewrite round_full by lia. eexists _, _. split; [done|]. split; [lia|]. split; [exact Hv|]. fold d in Hs. lia.
Qed.

Lemma normalize_exact max n : 0 ≤ n < 2 ^ prec → n ≤ max → f64_to_uint max (binary_normalize prec emax n 0 false) = n.
Proof.
  intros Hn Hm. destruct n as [|m|m]; [done| |lia]. destruct (normalize_form m) as (m' & e & -> & He & Hv & _); [lia|].
  cbn [f64_to_uint]. destruct (Z.leb_spec 0 e).
  - assert (e = 0) as -> by lia. rewrite Hv. change (2 ^ (- 0)) with 1. change (2 ^ 0) with 1. lia.
  - rewrite Hv, Z.div_mul by (apply Z.pow_nonzero; lia). lia.
Qed.

(** Rounding down and up to a whole number. *)
Definition float_floor (x : spec_float) : spec_float :=
  match x with
  | S754_finite s m e =>
      if 0 <=? e then x else binary_normalize prec emax ((if s then Z.neg m else Z.pos m) / 2 ^ (- e)) 0 s
  | _ => x
  end.
Definition float_ceil (x : spec_float) : spec_float :=
  match x with
  | S754_finite s m e =>
      if 0 <=? e then x else binary_normalize prec emax (- ((if s then Z.pos m else Z.neg m) / 2 ^ (- e))) 0 s
  | _ => x
  end.

Lemma round_whole n : 0 ≤ n < 2 ^ prec → let x := binary_normalize prec emax n 0 false in
  float_floor x = x ∧ float_ceil x = x.
Proof.
  intros Hn. destruct n as [|m|m]; [done| |lia]. cbv zeta. destruct (normalize_form m) as (m' & e & E & He & Hv & _); [lia|].
  rewrite E. cbn [float_floor float_ceil]. destruct (Z.leb_spec 0 e); [done|].
  replace (Z.neg m') with (- Z.pos m * 2 ^ (- e)) by lia. rewrite Hv, !Z.div_mul by (apply Z.pow_nonzero; lia).
  by rewrite Z.opp_involutive, E.
Qed.
End Exact.

Lemma f32_exact max n : 0 ≤ n < 2 ^ 24 → n ≤ max → f32_to_uint max (f32_of n) = n.
Proof. by apply normalize_exact. Qed.
Lemma f64_exact max n : 0 ≤ n < 2 ^ 53 → n ≤ max → f64_to_uint max (f64_of n) = n.
Proof. by apply normalize_exact. Qed.
