(* ===== verification/FatDir.v ===== *)
(** * Directories

    [fs/src/fat32/fat.rs] and [directory.rs]: the entries of a directory's
    clusters, finding room for the entries of a name, writing and removing
    them, following a path, and the operations of an open directory. *)

From S2P Require Import Prelude Clock FatTable Utf8 FatEntry FatDisk FatNames.

Definition SLASH : Z := 47.

(** An open directory, [FatDirectory]. *)
Record FatDirectory (T : Type) := mkDirectory {
  content_cluster : Z; d_file_entry : FatFileEntry T; d_file_entry_cluster : Z
}.
Arguments mkDirectory {T}. Arguments content_cluster {T}. Arguments d_file_entry {T}. Arguments d_file_entry_cluster {T}.
#[global] Instance FatDirectory_eta {T} : Eta (FatDirectory T) := λ d,
  mkDirectory (content_cluster d) (d_file_entry d) (d_file_entry_cluster d).

(** An open file, [FatFile]. *)
Record FatFile (T : Type) := mkFile {
  starting_cluster : Z; h_file_size : Z; h_file_entry : FatFileEntry T; h_file_entry_cluster : Z
}.
Arguments mkFile {T}. Arguments starting_cluster {T}. Arguments h_file_size {T}.
Arguments h_file_entry {T}. Arguments h_file_entry_cluster {T}.
#[global] Instance FatFile_eta {T} : Eta (FatFile T) := λ f,
  mkFile (starting_cluster f) (h_file_size f) (h_file_entry f) (h_file_entry_cluster f).

(** What [Directory::entries] yields. *)
Inductive FileSystemEntry (T : Type) :=
| EntryFile (name : list Z) (creation_date_time modification_date_time : T) (attributes : Z)
| EntryDirectory (name : list Z) (creation_date_time modification_date_time : T) (attributes : Z).
Arguments EntryFile {T}. Arguments EntryDirectory {T}.

(** ** Runs of unused entries in a listing *)

(** [find_contiguous_file_entries_in_directory] within one cluster: the end of
    the directory or the run ([inl]), or how far the run has come. *)
Fixpoint scan_free (n idx : Z) (l : list RawFatFileEntry) (count : Z) (start : option Z)
  : option Z + Z * option Z :=
  match l with
  | [] => inr (count, start)
  | entry :: rest =>
      let first_byte := byte_at (r_name entry) 0 in
      if first_byte =? 0 then inl None
      else if first_byte =? FAT_FREE_ENTRY then
        let start := match start with None => Some idx | Some _ => start end in
        if count + 1 =? n then inl start else scan_free n (idx + 1) rest (count + 1) start
      else scan_free n (idx + 1) rest 0 None
  end.

(** The state of [allocate_file_entries_in_directory]. *)
Record Chain := mkChain { chain_found : bool; chain_size : Z; chain_cluster : Z; chain_index : Z }.

Fixpoint scan_chain (n cluster index : Z) (l : list RawFatFileEntry) (s : Chain) : Z * Z + Chain :=
  match l with
  | [] => inr s
  | entry :: rest =>
      let first_byte := byte_at (r_name entry) 0 in
      if (first_byte =? FAT_FREE_SECTOR) || (first_byte =? FAT_FREE_ENTRY) then
        let s := if chain_found s then s else mkChain true (chain_size s) cluster index in
        let s := mkChain true (chain_size s + 1) (chain_cluster s) (chain_index s) in
        if chain_size s =? n then inl (chain_cluster s, chain_index s)
        else scan_chain n cluster (index + 1) rest s
      else scan_chain n cluster (index + 1) rest (if chain_found s then mkChain false 0 0 0 else s)
  end.

(** An entry marked free. *)
Definition freed : RawFatFileEntry := raw_default <| r_name := FAT_FREE_ENTRY :: zeros 10 |>.

Section Directories.
Context {D : Type} `{DataSource D} {T : Type} `{Calendar T} `{Ucs2}.
#[local] Abbreviation M := (FM D).
#[local] Abbreviation entry := (FatFileEntry T).

Definition clusters_of (cluster : Z) : M (list Z) :=
  fat ← gets id; lift (get_clusters_for_file (file_allocation_table fat) cluster).

(** ** The entries of a cluster *)

Definition get_raw_file_listing_from_cluster (cluster : Z) : M (list RawFatFileEntry) :=
  secs ← read_cluster cluster;
  lift (unwrap (read_files_raw (mjoin secs))).

Definition get_file_listing_from_cluster (cluster : Z) : M (list entry) :=
  secs ← read_cluster cluster;
  file_listing ← lift (unwrap (read_files (mjoin secs)));
  lift (list_entries file_listing [] [] false).

Definition save_listing_to_the_disk (cluster : Z) (file_listing : list RawFatFileEntry) : M unit :=
  fat ← gets id;
  size ← lift (mul_chk U16 (bytes_per_sector (bpb fat)) (sectors_per_cluster (bpb fat)));
  _ ← lift (mul_chk U16 size 8);
  buffer ← lift (write_files_raw file_listing);
  write_cluster cluster buffer.

(** ** Finding room *)

Fixpoint find_in_clusters (n : Z) (clusters : list Z) (count : Z) (start : option Z) : M (option (Z * Z)) :=
  match clusters with
  | [] => mret None
  | cluster :: rest =>
      listing ← unwrap_ok (get_raw_file_listing_from_cluster cluster);
      match scan_free n 0 listing count start with
      | inl (Some i) => mret (Some (cluster, i))
      | inl None => mret None
      | inr (count, start) => find_in_clusters n rest count start
      end
  end.

Definition find_contiguous_file_entries_in_directory (directory_cluster n : Z) : M (option (Z * Z)) :=
  lift (rassert (n <? 20));;
  clusters ← clusters_of directory_cluster;
  find_in_clusters n clusters 0 None.

Fixpoint chain_in_clusters (n : Z) (clusters : list Z) (s : Chain) : M (Z * Z + Chain) :=
  match clusters with
  | [] => mret (inr s)
  | cluster :: rest =>
      listing ← get_raw_file_listing_from_cluster cluster;
      match scan_chain n cluster 0 listing s with
      | inl r => mret (inl r)
      | inr s => chain_in_clusters n rest s
      end
  end.

Definition allocate_file_entries_in_directory (directory_cluster n : Z) : M (Z * Z) :=
  clusters ← clusters_of directory_cluster;
  r ← chain_in_clusters n clusters (mkChain false 0 0 0);
  match r with
  | inl r => mret r
  | inr s =>
      if chain_size s =? n then mret (chain_cluster s, chain_index s)
      else
        current_last_cluster ← lift (unwrap (last clusters));
        new ← on_table (append_clusters current_last_cluster 1);
        first_new_cluster ← lift (unwrap (head new));
        mret (if chain_found s then (chain_cluster s, chain_index s) else (first_new_cluster.1 mod U32, 0))
  end.

(** ** Writing and removing entries *)

(** The listing with the entries that are left put from [skip] on, then the
    short one; the entries still left, and whether the short one was put. *)
Fixpoint put_entries (e : entry) (skip : nat) (listing left_ : list RawFatFileEntry)
  : res (list RawFatFileEntry * list RawFatFileEntry * bool) :=
  match listing with
  | [] => Ret ([], left_, false)
  | slot :: listing =>
      match skip with
      | S skip => '(l, left_, b) ← put_entries e skip listing left_; Ret (slot :: l, left_, b)
      | O =>
          match left_ with
          | r :: left_ => '(l, left_, b) ← put_entries e O listing left_; Ret (r :: l, left_, b)
          | [] => s ← sfn e; Ret (s :: listing, [], true)
          end
      end
  end.

Fixpoint write_in_clusters (e : entry) (clusters : list Z) (writing_index : Z) (left_ : list RawFatFileEntry)
  : M (list RawFatFileEntry) :=
  match clusters with
  | [] => mret left_
  | cluster :: rest =>
      file_listing ← get_raw_file_listing_from_cluster cluster;
      '(file_listing, left_, put) ← lift (put_entries e (Z.to_nat writing_index) file_listing left_);
      save_listing_to_the_disk cluster file_listing;;
      write_in_clusters e rest (if put : bool then writing_index + 1 else writing_index) left_
  end.

Definition write_file_entry (file_entry : entry) (starting_directory_cluster starting_index : Z) : M unit :=
  clusters ← clusters_of starting_directory_cluster;
  left_ ← write_in_clusters file_entry clusters starting_index (drop 1 (raw file_entry));
  lift (rassert (zlen left_ =? 0)).

(** [todo] is what is left of the listing as it was read, last entry first;
    [file_listing] is the changed copy.  The result is [lfn_handling]. *)
Fixpoint remove_scan (file_entry : entry) (cluster : Z) (todo file_listing : list RawFatFileEntry)
    (lfn_handling : bool) : M bool :=
  match todo with
  | [] => mret lfn_handling
  | entry :: todo =>
      s ← lift (sfn file_entry);
      if bool_decide (r_name entry = r_name s) then
        file_listing ← lift (store file_listing (zlen todo) freed);
        save_listing_to_the_disk cluster file_listing;;
        if 1 <? zlen (raw file_entry) then remove_scan file_entry cluster todo file_listing true
        else mret lfn_handling
      else if lfn_handling then
        attributes ← lift (from_bits (r_attr entry));
        if is_long_name_entry attributes then
          file_listing ← lift (store file_listing (zlen todo) freed);
          save_listing_to_the_disk cluster file_listing;;
          remove_scan file_entry cluster todo file_listing true
        else mret lfn_handling
      else remove_scan file_entry cluster todo file_listing lfn_handling
  end.

Fixpoint remove_in_clusters (file_entry : entry) (clusters : list Z) (lfn_handling : bool) : M unit :=
  match clusters with
  | [] => mret tt
  | cluster :: rest =>
      file_listing ← get_raw_file_listing_from_cluster cluster;
      lfn_handling ← remove_scan file_entry cluster (reverse file_listing) file_listing lfn_handling;
      remove_in_clusters file_entry rest lfn_handling
  end.

Definition remove_file_entry (file_entry : entry) (directory_cluster : Z) : M unit :=
  clusters ← clusters_of directory_cluster;
  remove_in_clusters file_entry (reverse clusters) false.

Definition serialize_file_entry (old_file_entry : option entry) (new_file_entry : entry) (directory_cluster : Z) : M Z :=
  match old_file_entry with
  | Some old => unwrap_ok (remove_file_entry old directory_cluster)
  | None => mret tt
  end;;
  lift (rassert (zlen (raw new_file_entry) <? 20));;
  let occupied_entries := zlen (raw new_file_entry) in
  found ← find_contiguous_file_entries_in_directory directory_cluster occupied_entries;
  '(cluster, first_entry_index) ← match found with
    | Some r => mret r
    | None => unwrap_ok (allocate_file_entries_in_directory directory_cluster occupied_entries)
    end;
  unwrap_ok (write_file_entry new_file_entry cluster first_entry_index);;
  mret cluster.

Definition move_file (file_entry : entry) (directory : FatDirectory T) (current_entry_cluster : Z) : M unit :=
  remove_file_entry file_entry current_entry_cluster;;
  serialize_file_entry None file_entry (content_cluster directory);;
  mret tt.

(** ** Paths *)

(** The cluster number in a short entry. *)
Definition first_cluster (r : RawFatFileEntry) : Z :=
  Z.lor (Z.shiftl (r_first_cluster_high r) 16) (r_first_cluster_low r).

Definition find_named (n : list Z) (files : list entry) : option entry :=
  head (filter (λ f, name f = n) files).

(** One component of the path in the clusters of a directory: the entry, when
    the component is the last one, or the cluster to go on with. *)
Fixpoint path_clusters (n : list Z) (is_last : bool) (clusters : list Z) (cluster : Z) : M (entry * Z + Z) :=
  match clusters with
  | [] => mret (inr cluster)
  | file_cluster :: rest =>
      listing ← get_file_listing_from_cluster file_cluster;
      match find_named n listing with
      | None => path_clusters n is_last rest cluster
      | Some file =>
          s ← lift (sfn file);
          if is_last then mret (inl (file, file_cluster)) else path_clusters n is_last rest (first_cluster s)
      end
  end.

Fixpoint path_walk (components : list (list Z)) (cluster : Z) : M (entry * Z) :=
  match components with
  | [] => throw NotFound
  | subdirectory :: rest =>
      if zlen subdirectory =? 0 then path_walk rest cluster
      else
        clusters ← clusters_of cluster;
        r ← path_clusters subdirectory (match rest with [] => true | _ => false end) clusters cluster;
        match r with inl found => mret found | inr cluster => path_walk rest cluster end
  end.

Definition get_by_path (path : list Z) : M (entry * Z) :=
  fat ← gets id;
  let cluster := root_directory_first_cluster (bpb fat) in
  if zlen path =? 0 then
    e ← lift (set_attr DIRECTORY (entry_default <| raw := [raw_default <| r_first_cluster_low := cluster mod U16 |>] |>));
    mret (e, cluster)
  else path_walk (split SLASH path) cluster.

Definition open_file (path : list Z) : M (FatFile T) :=
  '(entry, entry_cluster) ← get_by_path path;
  if is_directory (attr entry) then throw NotAFile
  else s ← lift (sfn entry); mret (mkFile (first_cluster s) (file_size entry) entry entry_cluster).

Definition open_directory (path : list Z) : M (FatDirectory T) :=
  '(entry, entry_cluster) ← get_by_path path;
  if negb (is_directory (attr entry)) then throw NotADirectory
  else s ← lift (sfn entry); mret (mkDirectory (first_cluster s) entry entry_cluster).

(** ** Open directories *)

(** [current_time] is what the time source of the volume says. *)
Definition create_entry (self : FatDirectory T) (name_ : list Z) (attributes : Z) (is_directory_ : bool)
    (current_time : T) : M (entry * Z) :=
  if 255 <? zlen name_ then throw NameTooLong
  else
    let fat_attributes_ := if is_directory_ then Z.lor (fat_attributes attributes) DIRECTORY else fat_attributes attributes in
    e ← lift (set_name name_ (entry_default <| raw := [raw_default] |>));
    e ← lift (set_attr fat_attributes_ e);
    e ← lift (set_creation_date_time current_time e);
    e ← lift (set_last_access_date_time current_time e);
    e ← lift (set_last_write_date_time current_time e);
    clusters ← clusters_of (content_cluster self);
    cluster ← lift (unwrap (head clusters));
    serialize_file_entry None e cluster;;
    mret (e, cluster).

Definition create_file (self : FatDirectory T) (name_ : list Z) (attributes : Z) (current_time : T) : M (FatFile T) :=
  '(file_entry, starting_cluster) ← create_entry self name_ attributes false current_time;
  mret (mkFile starting_cluster 0 file_entry (d_file_entry_cluster self)).

Definition create_directory (self : FatDirectory T) (name_ : list Z) (attributes : Z) (current_time : T)
  : M (FatDirectory T) :=
  '(file_entry, starting_cluster) ← create_entry self name_ attributes true current_time;
  mret (mkDirectory starting_cluster file_entry (d_file_entry_cluster self)).

Definition as_fs_entry (e : entry) : FileSystemEntry T :=
  if is_directory (attr e)
  then EntryDirectory (name e) (creation_date_time e) (last_write_date_time e) (attributes_of (attr e))
  else EntryFile (name e) (creation_date_time e) (last_write_date_time e) (attributes_of (attr e)).

Fixpoint entries_in (clusters : list Z) : M (list (FileSystemEntry T)) :=
  match clusters with
  | [] => mret []
  | cluster :: rest =>
      files ← unwrap_ok (get_file_listing_from_cluster cluster);
      more ← entries_in rest;
      mret ((as_fs_entry <$> files) ++ more)
  end.

Definition entries (self : FatDirectory T) : M (list (FileSystemEntry T)) :=
  clusters ← clusters_of (content_cluster self); entries_in clusters.

(** [fat.mark_clusters_as_free] *)
Definition free_clusters_of (cluster : Z) : M unit :=
  on_table (λ tbl, tbl ← mark_clusters_as_free cluster tbl; Ret (inl tt, tbl)).

Definition dir_delete (self : FatDirectory T) : M unit :=
  remove_file_entry (d_file_entry self) (d_file_entry_cluster self);;
  free_clusters_of (content_cluster self).

Definition dir_rename (name_ : list Z) (self : FatDirectory T) : M (FatDirectory T) :=
  e ← lift (set_name name_ (d_file_entry self));
  serialize_file_entry (Some (d_file_entry self)) e (d_file_entry_cluster self);;
  mret (self <| d_file_entry := e |>).

Definition dir_move_to (directory self : FatDirectory T) : M unit :=
  move_file (d_file_entry self) directory (d_file_entry_cluster self).

(** The setters: the entry is changed, removed by its short name and written
    anew. *)
Definition dir_update (set : entry → res entry) (self : FatDirectory T) : M (FatDirectory T) :=
  e ← lift (set (d_file_entry self));
  serialize_file_entry (Some e) e (d_file_entry_cluster self);;
  mret (self <| d_file_entry := e |>).
Definition dir_set_creation_date_time (t : T) := dir_update (set_creation_date_time t).
Definition dir_set_modification_date_time (t : T) := dir_update (set_last_write_date_time t).
Definition dir_set_attributes (a : Z) := dir_update (set_attr (fat_attributes a)).
End Directories.

(** ** The shape of a listing *)

(** An entry marked free, as the code marks it. *)
Definition marked (r : RawFatFileEntry) : Prop := byte_at (r_name r) 0 = FAT_FREE_ENTRY.
Definition vacant (r : RawFatFileEntry) : Prop := byte_at (r_name r) 0 = 0 ∨ marked r.
(** An entry of the unused end of a directory. *)
Definition blank (r : RawFatFileEntry) : Prop := r_name r = zeros 11 ∧ is_long_name_entry (r_attr r) = false.
(** Not a part of a long name, with declared attributes only. *)
Definition plain (r : RawFatFileEntry) : Prop :=
  is_long_name_entry (r_attr r) = false ∧ from_bits (r_attr r) = Ret (r_attr r).

Lemma blank_vacant r : blank r → vacant r.
Proof. intros [E _]. left. by rewrite E. Qed.
Lemma blank_not_marked r : blank r → ¬ marked r.
Proof. intros [E _]. unfold marked. by rewrite E. Qed.

Section Shape.
Context {T : Type} `{Calendar T} `{Ucs2}.
#[local] Abbreviation entry := (FatFileEntry T).

(** [b] is a file: the parts of its name, then its short entry. *)
Record file_block (b : list RawFatFileEntry) (e : entry) : Prop := {
  fb_order : b = disk_order e;
  fb_parts : ∃ s lfns, raw e = s :: lfns ∧ plain s ∧ Forall (λ r, r_attr r = LFN_ATTR) lfns;
  fb_readable : ∃ s lfns e0, raw e = s :: lfns ∧ readable s e0 ∧ e = e0 <| name := name e |> <| raw := raw e |>;
  fb_used : Forall (λ r, ¬ vacant r) b;
  fb_lists rest : list_entries ((entry_view <$> b) ++ rest) [] [] false =
    (es ← list_entries rest [] [] false; Ret (e :: es))
}.

Inductive blocks : list RawFatFileEntry → list entry → Prop :=
| blocks_nil : blocks [] []
| blocks_free r l es : marked r → plain r → blocks l es → blocks (r :: l) es
| blocks_file b e l es : file_block b e → blocks l es → blocks (b ++ l) (e :: es).

(** A directory of the files [es]: files and free entries, then nothing. *)
Definition dir_lists (files : list RawFatFileEntry) (es : list entry) : Prop :=
  ∃ body tail, files = body ++ tail ∧ blocks body es ∧ Forall blank tail.

Lemma blocks_app l1 es1 l2 es2 : blocks l1 es1 → blocks l2 es2 → blocks (l1 ++ l2) (es1 ++ es2).
Proof.
  intros Hb1 Hb2. induction Hb1; [done|by constructor|]. rewrite <- app_assoc. by constructor.
Qed.

Lemma blocks_marked l : Forall (λ r, marked r ∧ plain r) l → blocks l [].
Proof. induction 1 as [|r l [? ?] ? ?]; by constructor. Qed.

Lemma file_block_nonempty b e : file_block b e → ∃ lfns s, b = lfns ++ [s] ∧ plain s ∧ raw e = s :: lfns.
Proof.
  intros [Eo (s & lfns & Er & Hs & Hl) _ _ _]. exists lfns, s. split; [|done]. rewrite Eo. unfold disk_order. by rewrite Er.
Qed.

(** A directory can be cut at an unused entry. *)
Lemma blocks_cut p x s es : blocks (p ++ x :: s) es → vacant x →
  ∃ es1 es2, es = es1 ++ es2 ∧ blocks p es1 ∧ blocks s es2.
Proof.
  intros Hb Hx. remember (p ++ x :: s) as l eqn:El. revert p El. induction Hb as [|r l es Hm Hp Hb IH|b e l es Hf Hb IH]; intros p El.
  - by destruct p.
  - destruct p as [|r' p]; injection El as -> ->.
    + exists [], es. by split; [|split; [constructor|]].
    + destruct (IH p eq_refl) as (es1 & es2 & -> & Hb1 & Hb2). exists es1, es2. split; [done|]. by split; [constructor|].
  - apply app_eq_inv in El as [(k & -> & Ek)|(k & -> & ->)].
    + destruct k as [|y k].
      * simpl in Ek. destruct (IH [] (eq_sym Ek)) as (es1 & es2 & -> & Hb1 & Hb2). exists (e :: es1), es2. split; [done|].
        split; [|done]. rewrite app_nil_r in Hf. pose proof (blocks_app _ _ _ _ (blocks_file p e [] [] Hf blocks_nil) Hb1) as Hg.
        by rewrite !app_nil_r in Hg.
      * injection Ek as <- ->. pose proof (fb_used _ _ Hf) as Hu. rewrite Forall_app, Forall_cons in Hu. tauto.
    + destruct (IH k eq_refl) as (es1 & es2 & -> & Hb1 & Hb2). exists (e :: es1), es2. split; [done|]. by split; [constructor|].
Qed.

Lemma blocks_skip v s es : Forall vacant v → blocks (v ++ s) es → blocks s es.
Proof.
  induction 1 as [|x v Hx Hv IH]; intros Hb; [done|]. destruct (blocks_cut [] x (v ++ s) es Hb Hx) as (es1 & es2 & -> & H1 & H2).
  inversion H1 as [| |b e l es' Hf _ El]; subst; [by apply IH|].
  destruct (file_block_nonempty _ _ Hf) as (lfns & s' & -> & _). destruct lfns; discriminate El.
Qed.

Lemma blocks_cut_run p v s es : v ≠ [] → Forall vacant v → blocks (p ++ v ++ s) es →
  ∃ es1 es2, es = es1 ++ es2 ∧ blocks p es1 ∧ blocks s es2.
Proof.
  intros Hne Hv Hb. destruct v as [|x v]; [done|]. apply Forall_cons in Hv as [Hx Hv].
  destruct (blocks_cut p x (v ++ s) es Hb Hx) as (es1 & es2 & -> & H1 & H2). exists es1, es2. eauto using blocks_skip.
Qed.

(** Before a cut there is nothing of a long name. *)
Lemma blocks_last l es : blocks l es → l = [] ∨ ∃ l' r, l = l' ++ [r] ∧ plain r.
Proof.
  induction 1 as [|r l es Hm Hp Hb IH|b e l es Hf Hb IH]; [by left|right..].
  - destruct IH as [->|(l' & r' & -> & Hr)]; [by exists [], r|]. by exists (r :: l'), r'.
  - destruct IH as [->|(l' & r' & -> & Hr)]; [|exists (b ++ l'), r'; by rewrite <- app_assoc].
    destruct (file_block_nonempty _ _ Hf) as (lfns & s & -> & Hs & _). exists lfns, s. by rewrite app_nil_r.
Qed.

(** The file at a position. *)
Lemma blocks_file_at es1 e es2 l : blocks l (es1 ++ e :: es2) →
  ∃ p b s, l = p ++ b ++ s ∧ blocks p es1 ∧ file_block b e ∧ blocks s es2.
Proof.
  intros Hb. remember (es1 ++ e :: es2) as es eqn:Ees. revert es1 Ees.
  induction Hb as [|r l es Hm Hp Hb IH|b e' l es Hf Hb IH]; intros es1 Ees.
  - by destruct es1.
  - destruct (IH es1 Ees) as (p & b & s & -> & H1 & H2 & H3). exists (r :: p), b, s. split; [done|]. split; [by constructor|done].
  - destruct es1 as [|e1 es1]; injection Ees as -> ->.
    + exists [], b, l. split; [done|]. split; [constructor|done].
    + destruct (IH es1 eq_refl) as (p & b' & s & -> & H1 & H2 & H3). exists (b ++ p), b', s. split; [by rewrite <- app_assoc|].
      split; [by constructor|done].
Qed.

(** What a scan of the directory makes of it. *)
Lemma list_blocks body es rest : blocks body es → Forall raw_ok body →
  list_entries ((entry_view <$> body) ++ rest) [] [] false = (es' ← list_entries rest [] [] false; Ret (es ++ es')).
Proof.
  intros Hb. induction Hb as [|r l es Hm Hp Hb IH|b e l es Hf Hb IH]; intros Hok.
  - simpl. by destruct (list_entries rest [] [] false).
  - apply Forall_cons in Hok as [Hr Hok]. rewrite fmap_cons, entry_view_file by apply Hp || done. cbn [app list_entries].
    rewrite bool_decide_eq_false_2 by (intros E; unfold marked in Hm; by rewrite E in Hm).
    unfold marked in Hm. rewrite Hm. by rewrite IH.
  - apply Forall_app in Hok as [_ Hok]. rewrite fmap_app, <- app_assoc, (fb_lists _ _ Hf), IH by done.
    by destruct (list_entries rest [] [] false).
Qed.

Lemma list_dir files es : dir_lists files es → Forall raw_ok files →
  list_entries (entry_view <$> files) [] [] false = Ret es.
Proof.
  intros (body & tail & -> & Hb & Ht) [Hok Hok']%Forall_app. rewrite fmap_app, (list_blocks body es) by done.
  assert (list_entries (T := T) (entry_view <$> tail) [] [] false = Ret []) as ->.
  { destruct Ht as [|r tail [E Ha] Ht]; [done|]. apply Forall_cons in Hok' as [Hr _].
    rewrite fmap_cons, entry_view_file by done. cbn [list_entries]. by rewrite bool_decide_eq_true_2. }
  by rewrite ret_bind, app_nil_r.
Qed.

(** ** Room for a file *)

(** A place for [n] entries: entries marked free, or unused ones behind one
    in use. *)
Definition slot (files : list RawFatFileEntry) (i n : Z) : Prop := ∃ p v s,
  files = p ++ v ++ s ∧ zlen p = i ∧ zlen v = n ∧
  (Forall marked v ∨ Forall vacant v ∧ (p = [] ∨ ∃ p' r, p = p' ++ [r] ∧ ¬ vacant r)).

Lemma marked_vacant v : Forall marked v → Forall vacant v.
Proof. intros Hv. eapply Forall_impl; [exact Hv|]. by right. Qed.

Lemma insert_lists files es p v s b e : dir_lists files es → files = p ++ v ++ s → v ≠ [] →
  (Forall marked v ∨ Forall vacant v ∧ (p = [] ∨ ∃ p' r, p = p' ++ [r] ∧ ¬ vacant r)) → file_block b e →
  ∃ es1 es2, es = es1 ++ es2 ∧ dir_lists (p ++ b ++ s) (es1 ++ e :: es2).
Proof.
  intros (body & tail & Ef & Hb & Ht) Es Hne Hv He. rewrite Es in Ef.
  assert (Hva : Forall vacant v) by (destruct Hv as [Hv|[Hv _]]; [by apply marked_vacant|done]).
  assert (Hbe : blocks b [e]) by (rewrite <- (app_nil_r b); apply blocks_file; [done|constructor]).
  apply app_eq_inv in Ef as [(k & -> & ->)|(k & -> & Ek)].
  - rewrite !Forall_app in Ht. destruct Ht as (Hk & Htv & Hts). destruct k as [|r k _] using rev_ind.
    { rewrite app_nil_r in *. exists es, []. split; [by rewrite app_nil_r|]. exists (body ++ b), s.
      split; [by rewrite app_assoc|]. split; [by apply blocks_app|done]. }
    exfalso. apply Forall_app in Hk as [_ [Hr _]%Forall_cons].
    destruct Hv as [Hv|[_ [E|(p' & r' & E & Hr')]]].
    + destruct v as [|x v]; [done|]. apply Forall_cons in Hv as [Hx _]. apply Forall_cons in Htv as [Hbx _].
      by apply (blank_not_marked x).
    + by apply app_nil in E as [_ [_ [=]]%app_nil].
    + rewrite app_assoc in E. apply app_inj_tail in E as [_ <-]. by apply Hr', blank_vacant.
  - apply app_eq_inv in Ek as [(k2 & -> & ->)|(k2 & -> & ->)].
    + apply Forall_app in Hva as [Hk _]. exists es, []. split; [by rewrite app_nil_r|]. apply Forall_app in Ht as [_ Hs].
      exists (p ++ b), s. split; [by rewrite app_assoc|]. split; [apply blocks_app; [|done]|done].
      destruct k as [|x k]; [by rewrite app_nil_r in Hb|]. rewrite <- (app_nil_r (x :: k)) in Hb.
      destruct (blocks_cut_run p (x :: k) [] es ltac:(done) Hk Hb) as (es1 & es2 & -> & H1 & H2).
      inversion H2 as [| |? ? ? ? Hf _ El]; [by rewrite app_nil_r|].
      destruct (file_block_nonempty _ _ Hf) as (lfns & s' & -> & _). by destruct lfns.
    + destruct (blocks_cut_run p v k2 es Hne Hva Hb) as (es1 & es2 & -> & H1 & H2). exists es1, es2. split; [done|].
      exists (p ++ b ++ k2), tail. split; [by rewrite <- !app_assoc|]. split; [|done].
      apply blocks_app; [done|]. by apply (blocks_app b [e]).
Qed.
End Shape.

(** ** The scans *)

Lemma scan_free_spec n l p v :
  Forall marked v → zlen v < n →
  match scan_free n (zlen p + zlen v) l (zlen v) (if zlen v =? 0 then None else Some (zlen p)) with
  | inl (Some i) => slot (p ++ v ++ l) i n
  | _ => True
  end.
Proof.
  revert p v. induction l as [|x l IH]; intros p v Hv Hn; [done|]. cbn [scan_free]. pose proof (zlen_nonneg v).
  destruct (Z.eqb_spec (byte_at (r_name x) 0) 0); [done|]. destruct (Z.eqb_spec (byte_at (r_name x) 0) FAT_FREE_ENTRY) as [Hx|Hx].
  - replace (match (if zlen v =? 0 then None else Some (zlen p)) with None => Some (zlen p + zlen v) | Some _ => _ end)
      with (Some (zlen p)) by (destruct (Z.eqb_spec (zlen v) 0); [f_equal; lia|done]).
    assert (Hv' : Forall marked (v ++ [x])) by (apply Forall_app; split; [done|by repeat constructor]).
    assert (Hz : zlen (v ++ [x]) = zlen v + 1) by (rewrite zlen_app; done).
    destruct (Z.eqb_spec (zlen v + 1) n) as [E|E].
    + exists p, (v ++ [x]), l. split; [by rewrite <- app_assoc|]. split; [done|]. split; [lia|by left].
    + specialize (IH p (v ++ [x]) Hv' ltac:(lia)). rewrite Hz in IH. destruct (Z.eqb_spec (zlen v + 1) 0); [lia|].
      rewrite <- app_assoc in IH. by rewrite <- Z.add_assoc.
  - specialize (IH (p ++ v ++ [x]) [] ltac:(constructor) ltac:(rewrite zlen_nil; lia)). rewrite zlen_nil in IH.
    assert (Hz : zlen (p ++ v ++ [x]) = zlen p + zlen v + 1) by (rewrite !zlen_app; change (zlen [x]) with 1; lia).
    rewrite Hz, Z.add_0_r in IH. cbn [app] in IH. rewrite <- !app_assoc in IH. exact IH.
Qed.

(** [n] unused entries in a row. *)
Definition has_run (n : Z) (l : list RawFatFileEntry) : Prop :=
  ∃ j, ∀ k, (j ≤ k < j + Z.to_nat n)%nat → ∃ r, l !! k = Some r ∧ vacant r.

Definition chain_of (c : Z) (p v : list RawFatFileEntry) : Chain :=
  if zlen v =? 0 then mkChain false 0 0 0 else mkChain true (zlen v) c (zlen p).

Lemma vacant_spec x : reflect (vacant x) ((byte_at (r_name x) 0 =? FAT_FREE_SECTOR) || (byte_at (r_name x) 0 =? FAT_FREE_ENTRY)).
Proof.
  unfold vacant, marked, FAT_FREE_SECTOR.
  destruct (Z.eqb_spec (byte_at (r_name x) 0) 0), (Z.eqb_spec (byte_at (r_name x) 0) FAT_FREE_ENTRY); constructor; tauto.
Qed.

Lemma chain_of_snoc c p v x :
  let s := chain_of c p v in
  let s := if chain_found s then s else mkChain true (chain_size s) c (zlen p + zlen v) in
  mkChain true (chain_size s + 1) (chain_cluster s) (chain_index s) = mkChain true (zlen v + 1) c (zlen p) ∧
  chain_of c p (v ++ [x]) = mkChain true (zlen v + 1) c (zlen p).
Proof.
  pose proof (zlen_nonneg v). unfold chain_of. rewrite zlen_app. change (zlen [x]) with 1.
  destruct (Z.eqb_spec (zlen v) 0), (Z.eqb_spec (zlen v + 1) 0); cbn; split; f_equal; lia.
Qed.

Lemma scan_chain_spec n c l p v : Forall vacant v → zlen v < n → (p = [] ∨ ∃ p' r, p = p' ++ [r] ∧ ¬ vacant r) →
  has_run n (v ++ l) →
  ∃ i, scan_chain n c (zlen p + zlen v) l (chain_of c p v) = inl (c, i) ∧ slot (p ++ v ++ l) i n.
Proof.
  revert p v. induction l as [|x l IH]; intros p v Hv Hn Hp Hr; pose proof (zlen_nonneg v).
  { exfalso. destruct Hr as [j Hj]. destruct (Hj (j + Z.to_nat n - 1)%nat ltac:(lia)) as (r & Hr & _).
    rewrite app_nil_r in Hr. apply lookup_lt_Some in Hr. unfold zlen in Hn. lia. }
  cbn [scan_chain]. destruct (vacant_spec x) as [Hx|Hx].
  - destruct (chain_of_snoc c p v x) as [E1 E2]. cbv zeta in E1. rewrite E1. cbn [chain_size chain_cluster chain_index].
    assert (Hz : zlen (v ++ [x]) = zlen v + 1) by (rewrite zlen_app; done).
    assert (Hv' : Forall vacant (v ++ [x])) by (apply Forall_app; split; [done|constructor; [done|constructor]]).
    destruct (Z.eqb_spec (zlen v + 1) n) as [E|E].
    + exists (zlen p). split; [done|]. exists p, (v ++ [x]), l. rewrite <- app_assoc. split; [done|]. split; [done|]. split; [lia|by right].
    + destruct (IH p (v ++ [x]) Hv' ltac:(lia) Hp ltac:(by rewrite <- app_assoc)) as (i & Hs & Hi).
      exists i. rewrite Hz, Z.add_assoc, E2 in Hs. by rewrite <- app_assoc in Hi.
  - replace (if chain_found (chain_of c p v) then mkChain false 0 0 0 else chain_of c p v) with (chain_of c (p ++ v ++ [x]) [])
      by (unfold chain_of; by destruct (Z.eqb_spec (zlen v) 0)).
    destruct (IH (p ++ v ++ [x]) []) as (i & Hs & Hi); [constructor|rewrite zlen_nil; lia|right; exists (p ++ v), x; by rewrite app_assoc| |].
    + destruct Hr as [j Hj]. destruct (decide (j ≤ length v)%nat) as [Hle|Hgt].
      * exfalso. destruct (Hj (length v)) as (r & Hr & Hva); [unfold zlen in Hn; lia|].
        rewrite list_lookup_middle in Hr by done. by injection Hr as <-.
      * exists (j - length v - 1)%nat. intros k Hk. destruct (Hj (k + length v + 1)%nat ltac:(lia)) as (r & Hr & Hva). exists r. split; [|done].
        rewrite lookup_app_r in Hr by lia. by replace (k + length v + 1 - length v)%nat with (S k) in Hr by lia.
    + exists i. rewrite !zlen_app in Hs. change (zlen [x]) with 1 in Hs. rewrite zlen_nil, Z.add_0_r, !Z.add_assoc in Hs. split; [done|].
      cbn [app] in Hi. by rewrite <- !app_assoc in Hi.
Qed.

(** ** Directories of one cluster *)

Section OneCluster.
Context {D : Type} `{DataSourceLaws D} {T : Type} `{Calendar T} `{Ucs2}.
#[local] Abbreviation entry := (FatFileEntry T).
Implicit Types (fat : Fat D).

(** The directory at cluster [c], of one sector of sixteen entries. *)
Record dir_at fat (c : Z) (files : list RawFatFileEntry) : Prop := {
  da_geometry : geometry fat;
  da_spc : spc fat = 1;
  da_cluster : in_volume fat c;
  da_linked : linked (file_allocation_table fat) [c];
  da_raw : Forall raw_ok files;
  da_size : zlen files = 16;
  da_data : cluster_data fat c = files ≫= raw_write
}.

(** Nothing but the contents of cluster [c] has changed. *)
Record edited fat fat' (c : Z) : Prop := {
  ed_lba : partition_first_sector_lba fat' = partition_first_sector_lba fat;
  ed_bpb : bpb fat' = bpb fat;
  ed_table : file_allocation_table fat' = file_allocation_table fat;
  ed_other c' : in_volume fat c' → c' ≠ c → cluster_data fat' c' = cluster_data fat c'
}.

Lemma quiet_edited fat fat' c : quiet fat fat' → edited fat fat' c.
Proof.
  intros Hq. destruct (quiet_fields _ _ Hq) as (Ep & Eb & Et & Ed). split; [done..|]. intros c' _ _. by apply quiet_cluster.
Qed.

Lemma edited_trans f1 f2 f3 c : edited f1 f2 c → edited f2 f3 c → edited f1 f3 c.
Proof.
  intros [P1 B1 T1 O1] [P2 B2 T2 O2]. split; [congruence..|]. intros c' Hc' Hne. rewrite O2; [by apply O1| |done].
  unfold in_volume in *. by rewrite T1.
Qed.

Lemma edited_in_volume fat fat' c c' : edited fat fat' c → in_volume fat c' → in_volume fat' c'.
Proof. intros [_ _ Et _]. unfold in_volume. by rewrite Et. Qed.

Lemma quiet_dir fat fat' c files : quiet fat fat' → dir_at fat c files → dir_at fat' c files.
Proof.
  intros Hq [Hg Hs Hc Hl Hr Hz Hd]. destruct (quiet_fields _ _ Hq) as (Ep & Eb & Et & Ed).
  split; [by eapply quiet_geometry|unfold spc in *; by rewrite Eb|unfold in_volume in *; by rewrite Et|by rewrite Et|done|done|].
  by rewrite (quiet_cluster fat fat').
Qed.

Lemma does_unwrap {A} (m : FM D A) fat Q : does m fat Q → does (unwrap_ok m) fat Q.
Proof.
  intros ([r fat'] & E & a & -> & HQ). unfold does, unwrap_ok. rewrite E, ret_bind. apply returns_ret. eauto.
Qed.

Lemma does_clusters {A} fat c cs (f : list Z → FM D A) Q : linked (file_allocation_table fat) (c :: cs) →
  does (f (c :: cs)) fat Q → does (clusters_of c ≫= f) fat Q.
Proof.
  intros Hl Hf. unfold clusters_of. apply does_assoc, does_gets. eapply does_step; [by apply get_clusters_linked|done].
Qed.

Lemma raw_listing_spec fat c files : dir_at fat c files →
  does (get_raw_file_listing_from_cluster c) fat (λ r fat', quiet fat fat' ∧ r = files).
Proof.
  intros [Hg Hs Hc Hl Hr Hz Hd]. unfold get_raw_file_listing_from_cluster. eapply does_bind; [by apply read_cluster_spec|].
  intros secs fat' [Hq ->]. fold (cluster_data fat c). rewrite Hd, read_files_raw_write by (done || by intros ->).
  apply returns_ret. eauto.
Qed.

Lemma listing_spec fat c files (es : list entry) : dir_at fat c files → dir_lists files es →
  does (get_file_listing_from_cluster c) fat (λ r fat', quiet fat fat' ∧ r = es).
Proof.
  intros [Hg Hs Hc Hl Hr Hz Hd] Hes. unfold get_file_listing_from_cluster. eapply does_bind; [by apply read_cluster_spec|].
  intros secs fat' [Hq ->]. fold (cluster_data fat c). rewrite Hd, read_files_write by (done || by intros ->).
  eapply does_step; [reflexivity|]. rewrite (list_dir files es) by done. apply returns_ret. eauto.
Qed.

Lemma raw_write_bytes r : raw_ok r → bytes (raw_write r).
Proof.
  intros [[_ Hn] (? & ? & ?) _ _]. unfold raw_write. repeat (apply Forall_app; split); try done;
    repeat constructor; try done; unfold u8 in *; mlia.
Qed.

Lemma files_bytes files : Forall raw_ok files → bytes (files ≫= raw_write) ∧ zlen (files ≫= raw_write) = 32 * zlen files.
Proof.
  induction 1 as [|r files Hr Hf [IHb IHz]]; [split; [constructor|done]|]. rewrite bind_cons. split.
  - apply Forall_app. split; [by apply raw_write_bytes|done].
  - rewrite zlen_app, zlen_cons, IHz, zlen_raw_write by done. lia.
Qed.

Lemma save_listing_spec fat c files files' : dir_at fat c files → Forall raw_ok files' → zlen files' = 16 →
  does (save_listing_to_the_disk c files') fat (λ _ fat', dir_at fat' c files' ∧ edited fat fat' c).
Proof.
  intros [Hg Hs Hc Hl Hr Hz Hd] Hr' Hz'. unfold save_listing_to_the_disk. apply does_gets. change (id fat) with fat.
  change (sectors_per_cluster (bpb fat)) with (spc fat). rewrite Hs, (g_sector _ Hg).
  eapply does_step; [by apply mul_chk_ret|]. eapply does_step; [by apply mul_chk_ret|].
  destruct (files_bytes files' Hr') as [Hb Hbz]. unfold write_files_raw. rewrite Hz'.
  eapply does_step; [reflexivity|].
  assert (Hcs : zlen (files' ≫= raw_write) = cluster_size fat) by (unfold cluster_size; lia).
  eapply does_mono; [by apply write_cluster_spec|]. intros [] fat' Hw.
  destruct (overwritten_fields _ _ _ _ Hw) as (Ep & Eb & Et & _).
  destruct (overwritten_cluster fat fat' c _ Hg Hc Hcs Hw) as (Hg' & Hd' & Ho). split.
  - split; [done|unfold spc in *; by rewrite Eb|unfold in_volume in *; by rewrite Et|by rewrite Et|done..].
  - by split.
Qed.

(** ** Finding room *)

Lemma find_spec fat c files n : dir_at fat c files → 1 ≤ n < 20 →
  does (find_contiguous_file_entries_in_directory c n) fat (λ r fat', quiet fat fat' ∧
    match r with Some (c', i) => c' = c ∧ slot files i n | None => True end).
Proof.
  intros Hd Hn. unfold find_contiguous_file_entries_in_directory.
  eapply does_step; [destruct (Z.ltb_spec n 20); [reflexivity|lia]|].
  eapply does_clusters; [by apply Hd|]. cbn [find_in_clusters].
  eapply does_bind; [by apply does_unwrap, raw_listing_spec|]. intros l fat' [Hq ->].
  assert (Hs : match scan_free n 0 files 0 None with inl (Some i) => slot files i n | _ => True end)
    by exact (scan_free_spec n files [] [] ltac:(constructor) ltac:(rewrite zlen_nil; lia)).
  destruct (scan_free n 0 files 0 None) as [[i|]|[count start]]; by apply does_ret.
Qed.

Lemma allocate_entries_spec fat c files n : dir_at fat c files → 1 ≤ n → has_run n files →
  does (allocate_file_entries_in_directory c n) fat (λ r fat', quiet fat fat' ∧ r.1 = c ∧ slot files r.2 n).
Proof.
  intros Hd Hn Hr. unfold allocate_file_entries_in_directory. eapply does_clusters; [by apply Hd|]. cbn [chain_in_clusters].
  apply does_assoc. eapply does_bind; [by apply raw_listing_spec|]. intros l fat' [Hq ->].
  assert (Hs : ∃ i, scan_chain n c 0 files (mkChain false 0 0 0) = inl (c, i) ∧ slot files i n)
    by exact (scan_chain_spec n c files [] [] ltac:(constructor) ltac:(rewrite zlen_nil; lia) ltac:(by left) Hr).
  destruct Hs as (i & -> & Hi).
  by apply does_ret.
Qed.

(** ** Writing *)

Lemma put_entries_spec (e : entry) s skip listing left_ : sfn e = Ret s → (skip + length left_ < length listing)%nat →
  put_entries e skip listing left_ =
  Ret (take skip listing ++ (left_ ++ [s]) ++ drop (skip + length left_ + 1) listing, [], true).
Proof.
  intros Hs. revert skip left_. induction listing as [|x listing IH]; intros skip left_ Hl; [simpl in Hl; lia|].
  cbn [put_entries]. destruct skip as [|skip].
  - destruct left_ as [|r left_].
    + by rewrite Hs, ret_bind.
    + rewrite (IH 0%nat left_) by (simpl in *; lia). rewrite ret_bind. done.
  - rewrite (IH skip left_) by (simpl in *; lia). by rewrite ret_bind.
Qed.

Lemma write_entry_spec fat c files (e : entry) p v s : dir_at fat c files → files = p ++ v ++ s →
  zlen v = zlen (raw e) → raw e ≠ [] → Forall raw_ok (raw e) →
  does (write_file_entry e c (zlen p)) fat (λ _ fat', dir_at fat' c (p ++ disk_order e ++ s) ∧ edited fat fat' c).
Proof.
  intros Hd Ef Hv Hne Hok. destruct (raw e) as [|r lfns] eqn:Er; [done|]. unfold write_file_entry.
  eapply does_clusters; [by apply Hd|]. cbn [write_in_clusters]. apply does_assoc.
  eapply does_bind; [by apply raw_listing_spec|]. intros l fat1 [Hq ->]. rewrite Er. cbn [drop].
  assert (Hlv : length v = S (length lfns)) by (rewrite zlen_cons in Hv; unfold zlen in Hv; lia).
  assert (Eo : disk_order e = lfns ++ [r]) by (unfold disk_order; by rewrite Er).
  assert (Ep : put_entries e (Z.to_nat (zlen p)) files lfns = Ret (p ++ disk_order e ++ s, [], true)).
  { unfold zlen. rewrite Nat2Z.id. rewrite (put_entries_spec e r) by (unfold sfn; rewrite ?Er, ?Ef, ?length_app; done || lia).
    rewrite Ef, Eo. rewrite take_app_length. do 4 f_equal.
    rewrite drop_app_ge by lia. rewrite drop_app_ge by lia. replace (_ - _ - _)%nat with 0%nat by lia. done. }
  apply does_assoc. eapply does_step; [exact Ep|]. apply does_assoc.
  eapply does_bind; [eapply save_listing_spec; [by eapply quiet_dir| |]|].
  - pose proof (da_raw _ _ _ Hd) as Hr. rewrite Ef, !Forall_app in Hr. rewrite Eo, !Forall_app. apply Forall_cons in Hok as [? ?].
    repeat split; try tauto. constructor; [done|constructor].
  - rewrite <- (da_size _ _ _ Hd), Ef, Eo, !zlen_app, Hv, (zlen_cons r lfns). change (zlen [r]) with 1. lia.
  - intros [] fat2 [Hd2 He2]. apply returns_ret. exists tt. split; [done|]. split; [done|].
    eapply edited_trans; [by apply quiet_edited|done].
Qed.

(** A new entry goes to a free place of the directory. *)
Lemma serialize_new_spec fat c files es (e shown : entry) : dir_at fat c files → dir_lists files es →
  has_run (zlen (raw e)) files → Forall raw_ok (raw e) → zlen (raw e) < 20 → file_block (disk_order e) shown →
  does (serialize_file_entry None e c) fat (λ c' fat', c' = c ∧ edited fat fat' c ∧ ∃ files' es1 es2,
    es = es1 ++ es2 ∧ dir_at fat' c files' ∧ dir_lists files' (es1 ++ shown :: es2)).
Proof.
  intros Hd Hes Hrun Hok Hlt Hb.
  assert (Hne : raw e ≠ []).
  { destruct (file_block_nonempty _ _ Hb) as (lfns & s & E & _). unfold disk_order in E. intros E0. rewrite E0 in E. by destruct lfns. }
  assert (Hn : 1 ≤ zlen (raw e)) by (destruct (raw e); [done|rewrite zlen_cons; pose proof (zlen_nonneg l); lia]).
  unfold serialize_file_entry. eapply does_bind; [by apply (does_ret tt fat (λ _ f, f = fat))|]. intros [] ? ->.
  eapply does_step; [destruct (Z.ltb_spec (zlen (raw e)) 20); [reflexivity|lia]|].
  eapply does_bind; [apply (find_spec _ _ _ _ Hd); lia|]. intros found fat1 [Hq1 Hf].
  pose proof (quiet_dir _ _ _ _ Hq1 Hd) as Hd1.
  apply (does_bind _ _ _ (λ r fat2, quiet fat fat2 ∧ r.1 = c ∧ slot files r.2 (zlen (raw e)))).
  - destruct found as [[c' i]|].
    + destruct Hf as [-> Hs]. by apply does_ret.
    + apply does_unwrap. eapply does_mono; [by apply (allocate_entries_spec _ _ _ _ Hd1)|]. intros r fat2 (Hq2 & ? & ?).
      split; [by eapply quiet_trans|done].
  - intros [c' i] fat2 (Hq2 & Ec & (p & v & s & Ef & Ei & Hzv & Hv)). cbn [fst snd] in Ec, Ei. subst c' i.
    assert (Hvne : v ≠ []) by (intros ->; rewrite zlen_nil in Hzv; lia).
    destruct (insert_lists files es p v s _ _ Hes Ef Hvne Hv Hb) as (es1 & es2 & -> & Hl).
    eapply does_bind; [apply does_unwrap; eapply write_entry_spec; [by eapply quiet_dir|done..]|].
    intros [] fat3 [Hd3 He3]. apply does_ret. split; [done|]. split; [eapply edited_trans; [by apply quiet_edited|done]|]. by exists (p ++ disk_order e ++ s), es1, es2.
Qed.
End OneCluster.

(** ** Removing *)

Lemma store_middle {A} (l r : list A) x y i : i = zlen l → store (l ++ x :: r) i y = Ret (l ++ y :: r).
Proof.
  intros ->. pose proof (zlen_nonneg l). pose proof (zlen_nonneg r). rewrite store_ret by (rewrite zlen_app, zlen_cons; lia).
  f_equal. unfold splice, ztake, zdrop, zlen. cbn [length]. rewrite Nat2Z.id, take_app_length. f_equal.
  replace (Z.to_nat (Z.of_nat (length l) + Z.of_nat 1)) with (length l + 1)%nat by lia.
  rewrite drop_app_ge by lia. by replace (length l + 1 - length l)%nat with 1%nat by lia.
Qed.

Lemma freed_ok : raw_ok freed.
Proof.
  split; [split; [done|]| | |]; [|vm_compute; intuition discriminate..]. constructor; [done|]. by apply Forall_replicate.
Qed.
Lemma freed_marked : marked freed ∧ plain freed.
Proof. done. Qed.

Section Removing.
Context {D : Type} `{DataSourceLaws D} {T : Type} `{Calendar T} `{Ucs2}.
#[local] Abbreviation entry := (FatFileEntry T).
Implicit Types (fat : Fat D).

Lemma remove_skip fat (e : entry) c s rs todo listing Q : sfn e = Ret s → Forall (λ r, r_name r ≠ r_name s) rs →
  does (remove_scan e c todo listing false) fat Q → does (remove_scan e c (rs ++ todo) listing false) fat Q.
Proof.
  intros Hs Hrs Hd. induction Hrs as [|r rs Hr Hrs IH]; [done|]. cbn [app remove_scan]. eapply does_step; [exact Hs|].
  by rewrite bool_decide_eq_false_2.
Qed.

(** One entry is marked free. *)
Lemma free_entry_spec {A} fat c todo x after (f : list RawFatFileEntry → FM D A) Q :
  dir_at fat c (reverse (x :: todo) ++ after) →
  (∀ fat', dir_at fat' c (reverse todo ++ freed :: after) → edited fat fat' c → does (f (reverse todo ++ freed :: after)) fat' Q) →
  does (file_listing ← lift (store (reverse (x :: todo) ++ after) (zlen todo) freed);
        save_listing_to_the_disk c file_listing;; f file_listing) fat Q.
Proof.
  intros Hd Hf. rewrite reverse_cons, <- app_assoc in *. cbn [app] in *.
  assert (Hz : zlen todo = zlen (reverse todo)) by (unfold zlen; by rewrite length_reverse).
  eapply does_step; [by apply store_middle|]. eapply does_bind; [eapply save_listing_spec; [exact Hd|..]|].
  - pose proof (da_raw _ _ _ Hd) as Hr. rewrite Forall_app, Forall_cons in *. pose proof freed_ok. tauto.
  - rewrite <- (da_size _ _ _ Hd), !zlen_app, !zlen_cons. done.
  - intros [] fat' [Hd' He']. by apply Hf.
Qed.

Lemma remove_lfns fat (e : entry) c s rl todo after : sfn e = Ret s →
  Forall (λ r, r_name r ≠ r_name s ∧ r_attr r = LFN_ATTR) rl →
  (todo = [] ∨ ∃ x t, todo = x :: t ∧ r_name x ≠ r_name s ∧ plain x) →
  dir_at fat c (reverse (rl ++ todo) ++ after) →
  does (remove_scan e c (rl ++ todo) (reverse (rl ++ todo) ++ after) true) fat (λ _ fat',
    dir_at fat' c (reverse todo ++ replicate (length rl) freed ++ after) ∧ edited fat fat' c).
Proof.
  intros Hs Hrl Ht. revert fat after. induction Hrl as [|r rl [Hr Ha] Hrl IH]; intros fat after Hd.
  - assert (He : edited fat fat c) by apply quiet_edited, quiet_refl. cbn [app length replicate] in *.
    destruct Ht as [->|(x & t & -> & Hx & Hp & Hb)]; [by apply does_ret|]. cbn [remove_scan]. eapply does_step; [exact Hs|].
    rewrite bool_decide_eq_false_2 by done. eapply does_step; [exact Hb|]. rewrite Hp. by apply does_ret.
  - cbn [app remove_scan]. eapply does_step; [exact Hs|]. rewrite bool_decide_eq_false_2 by done. rewrite Ha.
    eapply does_step; [reflexivity|]. change (is_long_name_entry LFN_ATTR) with true. cbn [app] in Hd.
    apply (free_entry_spec fat c (rl ++ todo) r after (λ l, remove_scan e c (rl ++ todo) l true)); [done|].
    intros fat' Hd' He'. eapply does_mono; [by apply (IH fat' (freed :: after))|]. intros b fat2 [Hd2 He2].
    split; [|by eapply edited_trans]. cbn [length]. by rewrite replicate_S_end, <- app_assoc.
Qed.

(** The entries of one file are marked free, and nothing else. *)
Lemma remove_entry_spec fat c p q s lfns (e : entry) : dir_at fat c (p ++ lfns ++ s :: q) → raw e = s :: lfns →
  Forall (λ r, r_name r ≠ r_name s ∧ r_attr r = LFN_ATTR) lfns → Forall (λ r, r_name r ≠ r_name s) p →
  Forall (λ r, r_name r ≠ r_name s) q → (p = [] ∨ ∃ p' r, p = p' ++ [r] ∧ plain r) →
  does (remove_file_entry e c) fat (λ _ fat',
    dir_at fat' c (p ++ replicate (S (length lfns)) freed ++ q) ∧ edited fat fat' c).
Proof.
  intros Hd Er Hl Hp Hq Hlast. assert (Hs : sfn e = Ret s) by (unfold sfn; by rewrite Er).
  unfold remove_file_entry. eapply does_clusters; [by apply Hd|]. change (reverse [c]) with [c]. cbn [remove_in_clusters].
  eapply does_bind; [by apply raw_listing_spec|]. intros l fat1 [Hq1 ->]. pose proof (quiet_dir _ _ _ _ Hq1 Hd) as Hd1.
  apply (does_bind _ _ _ (λ _ fat2, dir_at fat2 c (p ++ replicate (S (length lfns)) freed ++ q) ∧ edited fat1 fat2 c)).
  2:{ intros b fat2 [Hd2 He2]. apply does_ret. split; [done|]. eapply edited_trans; [by apply quiet_edited|done]. }
  set (todo := reverse lfns ++ reverse p).
  assert (Et : p ++ lfns ++ s :: q = reverse (s :: todo) ++ q).
  { unfold todo. by rewrite reverse_cons, reverse_app, !reverse_involutive, <- !app_assoc. }
  assert (Etr : reverse (p ++ lfns ++ s :: q) = reverse q ++ s :: todo).
  { by rewrite Et, reverse_app, reverse_involutive. }
  rewrite Etr. apply (remove_skip _ _ _ s); [done|by apply Forall_reverse|]. cbn [remove_scan]. eapply does_step; [exact Hs|].
  rewrite bool_decide_eq_true_2 by done. rewrite Et. apply (free_entry_spec fat1 c todo s q); [by rewrite <- Et|].
  intros fat2 Hd2 He2. rewrite Er, zlen_cons. destruct lfns as [|r lfns].
  { apply does_ret. split; [|done]. unfold todo in Hd2. rewrite reverse_nil in Hd2. cbn [app] in Hd2. by rewrite reverse_involutive in Hd2. }
  destruct (Z.ltb_spec 1 (1 + zlen (r :: lfns))) as [_|Hz]; [|rewrite zlen_cons in Hz; pose proof (zlen_nonneg lfns); lia].
  eapply does_mono; [apply (remove_lfns fat2 e c s (reverse (r :: lfns)) (reverse p) (freed :: q)); [done|by apply Forall_reverse| |done]|].
  - destruct Hlast as [->|(p' & x & -> & Hx)]; [by left|right]. rewrite reverse_snoc. apply Forall_app in Hp as [_ [Hn _]%Forall_cons].
    by exists x, (reverse p').
  - intros b fat3 [Hd3 He3]. split; [|by eapply edited_trans]. rewrite reverse_involutive, length_reverse in Hd3.
    by rewrite replicate_S_end, <- app_assoc.
Qed.

Lemma filter_once {A} (P : A → Prop) `{∀ x, Decision (P x)} l1 x l2 : P x → filter P (l1 ++ x :: l2) = [x] →
  Forall (λ y, ¬ P y) l1 ∧ Forall (λ y, ¬ P y) l2.
Proof.
  intros Hx. rewrite filter_app, filter_cons_True by done. intros E. apply (f_equal length) in E as El.
  rewrite length_app in El. cbn [length] in El.
  assert (E1 : filter P l1 = []) by (apply length_zero_iff_nil; lia). assert (E2 : filter P l2 = []) by (apply length_zero_iff_nil; lia).
  split; apply Forall_forall; intros y Hy Hp.
  - assert (Hin : y ∈ filter P l1) by by apply list_elem_of_filter. rewrite E1 in Hin. by apply not_elem_of_nil in Hin.
  - assert (Hin : y ∈ filter P l2) by by apply list_elem_of_filter. rewrite E2 in Hin. by apply not_elem_of_nil in Hin.
Qed.

(** There is no less room when entries are freed. *)
Lemma run_freed n p lfns s q : has_run n (p ++ lfns ++ s :: q) → has_run n (p ++ replicate (S (length lfns)) freed ++ q).
Proof.
  intros [j Hj]. exists j. intros k Hk. destruct (Hj k Hk) as (r & Hr & Hv).
  destruct (decide (k < length p)%nat); [rewrite lookup_app_l in Hr |- * by lia; eauto|].
  rewrite lookup_app_r in Hr |- * by lia. destruct (decide (k - length p < S (length lfns))%nat).
  - exists freed. split; [|by right; apply freed_marked]. rewrite lookup_app_l by (rewrite length_replicate; lia). by apply lookup_replicate_2.
  - rewrite lookup_app_r in Hr |- * by (rewrite ?length_replicate; lia). rewrite length_replicate.
    replace (k - length p - length lfns)%nat with (S (k - length p - S (length lfns))) in Hr by lia. eauto.
Qed.

(** A listed file whose short name occurs once is removed from the listing. *)
Lemma remove_listed_spec fat c files es1 (e : entry) es2 s : dir_at fat c files → dir_lists files (es1 ++ e :: es2) →
  sfn e = Ret s → filter (λ r, r_name r = r_name s) files = [s] →
  does (remove_file_entry e c) fat (λ _ fat', edited fat fat' c ∧ ∃ files', dir_at fat' c files' ∧ dir_lists files' (es1 ++ es2) ∧
    ∀ n, has_run n files ∨ n ≤ zlen (raw e) → has_run n files').
Proof.
  intros Hd (body & tail & -> & Hb & Ht) Hs Hu. destruct (blocks_file_at _ _ _ _ Hb) as (p & b & q & -> & Hp & Hf & Hq).
  destruct (file_block_nonempty _ _ Hf) as (lfns & s' & -> & Hpl & Er).
  assert (s' = s) as -> by (unfold sfn in Hs; rewrite Er in Hs; by injection Hs).
  assert (Ha : Forall (λ r, r_attr r = LFN_ATTR) lfns).
  { destruct (fb_parts _ _ Hf) as (s2 & l2 & E2 & _ & Hl). rewrite Er in E2. by injection E2 as <- <-. }
  assert (El : (p ++ (lfns ++ [s]) ++ q) ++ tail = p ++ lfns ++ s :: q ++ tail) by (by rewrite <- !app_assoc).
  rewrite El in *. rewrite app_assoc in Hu. apply filter_once in Hu as [Hu1 Hu2]; [|done]. rewrite Forall_app in Hu1. destruct Hu1 as [Hup Hul].
  eapply does_mono; [eapply (remove_entry_spec _ _ p (q ++ tail) s lfns); [done|done| |done|done|by eapply blocks_last]|].
  - apply Forall_and. done.
  - intros [] fat' [Hd' He']. split; [done|]. eexists. split; [exact Hd'|]. split.
    + exists (p ++ replicate (S (length lfns)) freed ++ q), tail. split; [by rewrite <- !app_assoc|]. split; [|done].
      apply blocks_app; [done|]. change es2 with ([] ++ es2). apply blocks_app; [|done]. apply blocks_marked, Forall_replicate, freed_marked.
    + intros n [Hn|Hn]; [by apply (run_freed n p lfns s)|]. exists (length p). intros k Hk. exists freed. split; [|by right; apply freed_marked].
      rewrite Er, zlen_cons in Hn. unfold zlen in Hn.
      rewrite lookup_app_r, lookup_app_l by (rewrite ?length_replicate; lia). apply lookup_replicate_2. lia.
Qed.
End Removing.

(** ** Creating, listing, opening and deleting *)

Lemma fat_attributes_plain a d : 0 ≤ a < 32 →
  let b := if d : bool then Z.lor (fat_attributes a) DIRECTORY else fat_attributes a in
  u8 b ∧ is_long_name_entry b = false ∧ from_bits b = Ret b.
Proof.
  intros Ha. pose (ok := λ k : nat, let b := if d then Z.lor (fat_attributes (Z.of_nat k)) DIRECTORY else fat_attributes (Z.of_nat k) in
    (0 <=? b) && (b <? U8) && negb (is_long_name_entry b) && (Z.land b (Z.lnot 63) =? 0)).
  assert (Hall : forallb ok (seq 0 32) = true) by (unfold ok; destruct d; vm_compute; reflexivity).
  rewrite forallb_forall in Hall. specialize (Hall (Z.to_nat a) ltac:(apply in_seq; lia)). unfold ok in Hall.
  rewrite Z2Nat.id in Hall by lia. cbv zeta. set (b := if d then _ else _) in *. clearbody b.
  destruct (Z.leb_spec 0 b), (Z.ltb_spec b U8), (is_long_name_entry b) eqn:El; try done. split; [done|]. split; [done|].
  cbn [andb negb] in Hall. unfold from_bits. by rewrite Hall.
Qed.

(** The entries a name takes. *)
Definition entries_of_name (n : list Z) : Z := if zlen n <=? 11 then 1 else zlen n / 13 + 2.

Section Operations.
Context {D : Type} `{DataSourceLaws D} {T : Type} `{CalendarLaws T} `{Ucs2Laws}.
#[local] Abbreviation entry := (FatFileEntry T).
Implicit Types (fat : Fat D).

(** The short entry of a new file. *)
Definition new_raw (short : list Z) (a : Z) (now : T) : RawFatFileEntry :=
  let '(date, time) := create_fields_from_date_time now in
  raw_default <| r_name := short |> <| r_attr := a |> <| r_creation_date := date |> <| r_creation_time := time |>
    <| r_last_access_date := date |> <| r_last_write_date := date |> <| r_last_write_time := time |>.

(** What a scan shows of a file created [now]. *)
Record shows (e : entry) (n : list Z) (a : Z) (now : T) : Prop := {
  sh_name : name e = n;
  sh_attr : attr e = a;
  sh_size : file_size e = 0;
  sh_created : fields (creation_date_time e) = (fields now) <| dt_second := dt_second (fields now) / 2 |>;
  sh_written : fields (last_write_date_time e) = (fields now) <| dt_second := dt_second (fields now) / 2 |>
}.

Lemma new_raw_readable short a now : ascii short → zlen short = 11 → u8 a → is_long_name_entry a = false →
  from_bits a = Ret a → 1980 ≤ dt_year (fields now) ≤ 2107 →
  ∃ e, readable (new_raw short a now) e ∧ raw_ok (new_raw short a now) ∧ shows e (name e) a now.
Proof.
  intros Hs Hz Ha Hl Hb Hy. pose proof (stored_date now Hy) as Hd. unfold new_raw.
  destruct (create_fields_from_date_time now) as [date time]. destruct Hd as (Hud & Hut & t & Et & Hft).
  assert (Hok : raw_ok (raw_default <| r_name := short |> <| r_attr := a |> <| r_creation_date := date |> <| r_creation_time := time |>
    <| r_last_access_date := date |> <| r_last_write_date := date |> <| r_last_write_time := time |>)).
  { split; rsimp; cbn; [|done..]. split; [done|]. eapply Forall_impl; [exact Hs|]. intros b Hb'. cbv beta in Hb'. unfold u8. lia. }
  eexists. split; [split; [done|]; split; [by rsimp|unfold entry_from_raw; rsimp; rewrite Et, !ret_bind, Hb, ret_bind; reflexivity]|].
  split; [done|]. by split.
Qed.

Lemma ascii_not_vacant r : ascii (r_name r) → zlen (r_name r) = 11 → ¬ vacant r.
Proof.
  intros Hn Hz. unfold vacant, marked. destruct (r_name r) as [|b n]; [done|]. apply Forall_cons in Hn as [Hb _].
  change (byte_at (b :: n) 0) with b. unfold FAT_FREE_ENTRY. lia.
Qed.

Lemma long_not_vacant r : long_entry r → ¬ vacant r.
Proof. intros (_ & _ & Hb). unfold vacant, marked, FAT_FREE_ENTRY. lia. Qed.

(** The entries of a new file are a file of the directory. *)
Lemma new_file_block n short lfns r (e : entry) : spells (T := T) n short lfns → readable r e → r_name r = short →
  from_bits (r_attr r) = Ret (r_attr r) →
  file_block (lfns ++ [r]) (e <| name := n |> <| raw := r :: lfns |>).
Proof.
  intros [[Hs Hz] Hc Hl Hli] Hr Hn Hb. split.
  - done.
  - exists r, lfns. split; [done|]. split; [split; [apply Hr|done]|]. eapply Forall_impl; [exact Hl|]. by intros ? (_ & ? & _).
  - by exists r, lfns, e.
  - apply Forall_app. split; [eapply Forall_impl; [exact Hl|]; apply long_not_vacant|]. constructor; [|constructor].
    apply ascii_not_vacant; by rewrite Hn.
  - intros rest. by apply Hli.
Qed.

(** The entry [create_entry] makes. *)
Lemma build_entry_spec n a now : ascii n → 1 ≤ zlen n ≤ 233 → (zlen n ≤ 11 → trimmed n) →
  returns (e ← set_name n (entry_default <| raw := [raw_default] |>); e ← set_attr a e; e ← set_creation_date_time now e;
           e ← set_last_access_date_time now e; set_last_write_date_time now e)
    (λ e : entry, name e = n ∧ ∃ short lfns, spells (T := T) n short lfns ∧ raw e = new_raw short a now :: lfns).
Proof.
  intros Hn Hl Ht. eapply returns_bind; [by apply set_name_spec|]. intros e (short & lfns & Hsp & ->).
  unfold set_attr, set_creation_date_time, set_last_access_date_time, set_last_write_date_time, on_sfn, new_raw.
  destruct (create_fields_from_date_time now) as [date time]. rsimp. rewrite ret_bind. rsimp. rewrite ret_bind. rsimp.
  rewrite ret_bind. rsimp. apply returns_ret. rsimp. split; [done|]. by exists short, lfns.
Qed.

Lemma create_entry_spec fat (d : FatDirectory T) files es n a is_dir now :
  dir_at fat (content_cluster d) files → dir_lists files es → ascii n → 1 ≤ zlen n ≤ 233 → (zlen n ≤ 11 → trimmed n) →
  0 ≤ a < 32 → 1980 ≤ dt_year (fields now) ≤ 2107 → has_run (entries_of_name n) files →
  let c := content_cluster d in
  let b := if is_dir : bool then Z.lor (fat_attributes a) DIRECTORY else fat_attributes a in
  does (create_entry d n a is_dir now) fat (λ r fat', name r.1 = n ∧ r.2 = c ∧ edited fat fat' c ∧
    ∃ files' es1 e es2, es = es1 ++ es2 ∧ dir_at fat' c files' ∧ dir_lists files' (es1 ++ e :: es2) ∧ shows e n b now ∧
      raw e = raw r.1 ∧ returns (sfn e) (λ s, first_cluster s = 0)).
Proof.
  intros Hd Hes Hn Hl Ht Ha Hy Hrun c b. destruct (fat_attributes_plain a is_dir Ha) as (Hu & Hlong & Hbits). fold b in Hu, Hlong, Hbits.
  unfold create_entry. destruct (Z.ltb_spec 255 (zlen n)); [lia|]. fold b.
  destruct (build_entry_spec n b now Hn Hl Ht) as (e & Ee & En & short & lfns & Hsp & Er).
  apply bind_ret_inv in Ee as (e1 & E1 & Ee). apply bind_ret_inv in Ee as (e2 & E2 & Ee). apply bind_ret_inv in Ee as (e3 & E3 & Ee).
  apply bind_ret_inv in Ee as (e4 & E4 & E5).
  eapply does_step; [exact E1|]. eapply does_step; [exact E2|]. eapply does_step; [exact E3|]. eapply does_step; [exact E4|].
  eapply does_step; [exact E5|]. eapply does_clusters; [by apply Hd|]. eapply does_step; [reflexivity|].
  pose proof Hsp as [[Hs Hz] Hc Hlf _].
  destruct (new_raw_readable short b now Hs Hz Hu Hlong Hbits Hy) as (s & Hr & Hok & Hsh).
  assert (Hnm : r_name (new_raw short b now) = short ∧ r_attr (new_raw short b now) = b ∧ first_cluster (new_raw short b now) = 0)
    by (unfold new_raw; by destruct (create_fields_from_date_time now)).
  destruct Hnm as (Hnm & Hat & Hfc).
  assert (Hblk : file_block (disk_order e) (s <| name := n |> <| raw := raw e |>)).
  { unfold disk_order. rewrite Er. cbn [drop take]. eapply new_file_block; [done..|]. by rewrite Hat. }
  assert (Hzr : zlen (raw e) = entries_of_name n).
  { rewrite Er, zlen_cons, Hc. unfold entries_of_name. destruct (zlen n <=? 11); lia. }
  eapply does_bind; [eapply (serialize_new_spec _ _ _ _ _ _ Hd Hes); [by rewrite Hzr| |unfold entries_of_name in Hzr; destruct (zlen n <=? 11); mlia|exact Hblk]|].
  { rewrite Er. constructor; [done|]. eapply Forall_impl; [exact Hlf|]. by intros ? (? & _). }
  intros c' fat' (-> & He & files' & es1 & es2 & -> & Hd' & Hl'). apply does_ret. cbn [fst snd]. split; [done|]. split; [done|]. split; [done|].
  exists files', es1, (s <| name := n |> <| raw := raw e |>), es2. split; [done|]. split; [done|]. split; [done|].
  destruct Hsh as [_ ? ? ? ?]. split; [by split|]. split; [done|]. unfold sfn. rsimp. rewrite Er. by apply returns_ret.
Qed.

(** The entries of a directory of one cluster. *)
Lemma entries_spec fat (d : FatDirectory T) files es : dir_at fat (content_cluster d) files → dir_lists files es →
  does (entries d) fat (λ l fat', quiet fat fat' ∧ l = as_fs_entry <$> es).
Proof.
  intros Hd Hes. unfold entries. eapply does_clusters; [by apply Hd|]. cbn [entries_in].
  eapply does_bind; [by eapply does_unwrap, listing_spec|]. intros l fat' [Hq ->].
  eapply does_bind; [by apply (does_ret [] fat' (λ l f, l = [] ∧ f = fat'))|]. intros ? ? [-> ->]. apply does_ret.
  by rewrite app_nil_r.
Qed.

(** ** Properties *)

(** C29: A file created in a directory of one cluster, with clusters of one
    sector of 512 bytes and enough free entries in a row for the name, is listed
    there under its name, with the attributes given and the date of its creation
    (its seconds halved), between the files that were there; the table and the
    other clusters are as before.  The name is ASCII, of 1 to 233 characters,
    without outer spaces if it is short; the year is from 1980 to 2107. *)
Theorem created_file_listed fat (d : FatDirectory T) files es n a now :
  dir_at fat (content_cluster d) files → dir_lists files es → ascii n → 1 ≤ zlen n ≤ 233 → (zlen n ≤ 11 → trimmed n) →
  0 ≤ a < 32 → 1980 ≤ dt_year (fields now) ≤ 2107 → has_run (entries_of_name n) files →
  does (f ← create_file d n a now; l ← entries d; mret (f, l)) fat (λ '(f, l) fat',
    name (h_file_entry f) = n ∧ h_file_size f = 0 ∧ edited fat fat' (content_cluster d) ∧
    ∃ es1 e es2, es = es1 ++ es2 ∧ l = as_fs_entry <$> (es1 ++ e :: es2) ∧ shows e n (fat_attributes a) now).
Proof.
  intros Hd Hes Hn Hl Ht Ha Hy Hrun. unfold create_file. apply does_assoc.
  eapply does_bind; [by apply (create_entry_spec fat d files es n a false now)|].
  intros [e c] fat1 (En & Ec & He & files' & es1 & shown & es2 & -> & Hd1 & Hl1 & Hsh & _ & _). cbn [fst snd] in *. subst c.
  eapply does_bind; [by apply (does_ret _ fat1 (λ f fat', f = mkFile (content_cluster d) 0 e (d_file_entry_cluster d) ∧ fat' = fat1))|].
  intros f ? [-> ->]. eapply does_bind; [by apply (entries_spec _ _ _ _ Hd1 Hl1)|]. intros l fat2 [Hq ->]. apply does_ret.
  split; [done|]. split; [done|]. split; [eapply edited_trans; [done|by apply quiet_edited]|]. by exists es1, shown, es2.
Qed.

Lemma find_named_app n es1 (e : entry) es2 : Forall (λ e', name e' ≠ n) es1 → name e = n → find_named n (es1 ++ e :: es2) = Some e.
Proof.
  intros Hes He. unfold find_named. rewrite filter_app. 
  assert (filter (λ f, name f = n) es1 = []) as ->.
  { clear -Hes. induction Hes as [|e es Hne Hes IH]; [done|]. by rewrite filter_cons_False. }
  by rewrite filter_cons_True.
Qed.

Lemma split_at_no_sep sep acc n : sep ∉ n → split_at_char sep acc n = [acc ++ n].
Proof.
  revert acc. induction n as [|b n IH]; intros acc Hn; cbn [split_at_char]; [by rewrite app_nil_r|].
  apply not_elem_of_cons in Hn as [Hb Hn]. destruct (Z.eqb_spec b sep); [congruence|]. rewrite IH by done. by rewrite <- app_assoc.
Qed.

(** A path of one component is looked up in the root directory. *)
Lemma root_path_spec fat files es1 (e : entry) es2 n : let c := root_directory_first_cluster (bpb fat) in
  dir_at fat c files → dir_lists files (es1 ++ e :: es2) → Forall (λ e', name e' ≠ n) es1 → name e = n → n ≠ [] → SLASH ∉ n →
  raw e ≠ [] → does (get_by_path n) fat (λ r fat', quiet fat fat' ∧ r = (e, c)).
Proof.
  intros c Hd Hl Hes He Hne Hs Hr. unfold get_by_path. apply does_gets. change (id fat) with fat. fold c. cbv zeta.
  assert (Hz : (zlen n =? 0) = false) by (destruct n; [done|]; rewrite zlen_cons; pose proof (zlen_nonneg n); destruct (Z.eqb_spec (1 + zlen n) 0); [lia|done]).
  rewrite Hz. unfold split. rewrite split_at_no_sep by done. cbn [app path_walk]. rewrite Hz.
  eapply does_clusters; [by apply Hd|]. cbn [path_clusters]. apply does_assoc. eapply does_bind; [by apply (listing_spec _ _ _ _ Hd Hl)|].
  intros l fat' [Hq ->]. rewrite find_named_app by done. apply does_assoc. destruct (raw e) as [|s lfns] eqn:Er; [done|].
  eapply does_step; [unfold sfn; by rewrite Er|]. eapply does_bind; [by apply (does_ret _ fat' (λ r f, r = inl (e, c) ∧ f = fat'))|].
  intros r ? [-> ->]. by apply does_ret.
Qed.

(** A file created in the root directory under a new name is found by
    opening that name.  The opened file has no cluster yet, but the file that
    [create_file] returned starts at the cluster of the directory itself. *)
Theorem created_file_opens fat (d : FatDirectory T) files es n a now :
  content_cluster d = root_directory_first_cluster (bpb fat) →
  dir_at fat (content_cluster d) files → dir_lists files es → ascii n → 1 ≤ zlen n ≤ 233 → (zlen n ≤ 11 → trimmed n) → SLASH ∉ n →
  0 ≤ a < 16 → 1980 ≤ dt_year (fields now) ≤ 2107 → has_run (entries_of_name n) files → Forall (λ e, name e ≠ n) es →
  does (f ← create_file d n a now; g ← open_file n; mret (f, g)) fat (λ '(f, g) _,
    shows (h_file_entry g) n (fat_attributes a) now ∧ h_file_size g = 0 ∧ starting_cluster g = 0 ∧
    starting_cluster f = content_cluster d).
Proof.
  intros Hroot Hd Hes Hn Hl Ht Hs Ha Hy Hrun Hnew. unfold create_file. apply does_assoc.
  eapply does_bind; [apply (create_entry_spec fat d files es n a false now); done || lia|].
  intros [e c] fat1 (En & Ec & He & files' & es1 & shown & es2 & -> & Hd1 & Hl1 & Hsh & Er & Hsfn). cbn [fst snd] in *. subst c.
  eapply does_bind; [by apply (does_ret _ fat1 (λ f fat', f = mkFile (content_cluster d) 0 e (d_file_entry_cluster d) ∧ fat' = fat1))|].
  intros f ? [-> ->]. unfold open_file. apply does_assoc. apply Forall_app in Hnew as [Hnew _]. rewrite Hroot, <- (ed_bpb _ _ _ He) in Hd1.
  destruct Hsfn as (s & Es & Hs0).
  eapply does_bind; [apply (root_path_spec _ _ _ _ _ n Hd1 Hl1); [done|apply Hsh|intros ->; rewrite zlen_nil in Hl; lia|done|by intros Er0; unfold sfn in Es; rewrite Er0 in Es]|].
  intros [e' c'] fat2 [Hq [= -> ->]]. rewrite (sh_attr _ _ _ _ Hsh).
  assert (Hfile : is_directory (fat_attributes a) = false).
  { assert (Hc : a = 0 ∨ a = 1 ∨ a = 2 ∨ a = 3 ∨ a = 4 ∨ a = 5 ∨ a = 6 ∨ a = 7 ∨ a = 8 ∨ a = 9 ∨ a = 10 ∨ a = 11 ∨ a = 12 ∨
      a = 13 ∨ a = 14 ∨ a = 15) by lia. destruct_or! Hc; subst; done. }
  rewrite Hfile. apply does_assoc. eapply does_step; [exact Es|].
  eapply does_bind; [by apply (does_ret _ fat2 (λ g f, g = mkFile (first_cluster s) (file_size shown) shown
    (root_directory_first_cluster (bpb fat1)) ∧ f = fat2))|].
  intros g ? [-> ->]. apply does_ret. cbn [h_file_entry h_file_size starting_cluster]. rewrite (sh_size _ _ _ _ Hsh). done.
Qed.

(** ** Replacing an entry *)

Lemma serialize_replace fat c (old e : entry) P Q : does (remove_file_entry old c) fat P →
  (∀ fat', P tt fat' → does (serialize_file_entry None e c) fat' Q) → does (serialize_file_entry (Some old) e c) fat Q.
Proof.
  intros Hr Hs. unfold serialize_file_entry at 1. eapply does_bind; [by apply does_unwrap|]. intros [] fat' HP.
  by apply Hs in HP.
Qed.

(** A listed file under a new name: everything else about it stays. *)
Lemma rename_spec fat c files es1 (e : entry) es2 s n : dir_at fat c files → dir_lists files (es1 ++ e :: es2) →
  sfn e = Ret s → filter (λ r, r_name r = r_name s) files = [s] →
  ascii n → 1 ≤ zlen n ≤ 233 → (zlen n ≤ 11 → trimmed n) →
  has_run (entries_of_name n) files ∨ entries_of_name n ≤ zlen (raw e) →
  returns (set_name n e) (λ e', does (serialize_file_entry (Some e) e' c) fat (λ _ fat', edited fat fat' c ∧
    ∃ files' es1' es2', es1 ++ es2 = es1' ++ es2' ∧ dir_at fat' c files' ∧ e' = e <| name := n |> <| raw := raw e' |> ∧
      dir_lists files' (es1' ++ e' :: es2'))).
Proof.
  intros Hd Hes Hs Hu Hn Hl Ht Hroom. eapply returns_mono; [by apply set_name_spec|]. intros e' (short & lfns & Hsp & Ee').
  assert (Hf : ∃ b, file_block b e).
  { destruct Hes as (body & tail & _ & Hb & _). destruct (blocks_file_at _ _ _ _ Hb) as (p & b & q & _ & _ & Hf & _). eauto. }
  destruct Hf as (b & Hf). destruct (fb_readable _ _ Hf) as (s' & l0 & e0 & Er & Hr & Ee). 
  assert (s' = s) as -> by (unfold sfn in Hs; rewrite Er in Hs; by injection Hs).
  assert (Hpl : from_bits (r_attr s) = Ret (r_attr s)).
  { destruct (fb_parts _ _ Hf) as (s2 & l2 & E2 & [_ Hp] & _). rewrite Er in E2. by injection E2 as <- <-. }
  rewrite Er in Ee'. cbn [head default] in Ee'. pose proof Hsp as [[Hsa Hsz] Hc Hlf _].
  destruct (readable_name s e0 short Hr Hsz Hsa) as (e1 & Hr1 & Ee1).
  assert (Er' : raw e' = (s <| r_name := short |>) :: lfns) by (by rewrite Ee').
  assert (Eshown : e1 <| name := n |> <| raw := raw e' |> = e') by (rewrite Ee1, Ee', Ee; by destruct e0).
  assert (Hblk : file_block (disk_order e') e').
  { rewrite <- Eshown at 2. unfold disk_order. rewrite Er'. cbn [drop take]. by eapply new_file_block. }
  assert (Hzr : zlen (raw e') = entries_of_name n).
  { rewrite Er', zlen_cons, Hc. unfold entries_of_name. destruct (zlen n <=? 11); lia. }
  eapply serialize_replace; [by apply (remove_listed_spec fat c files es1 e es2 s)|]. intros fat1 (He1 & files1 & Hd1 & Hl1 & Hrun).
  eapply does_mono; [eapply (serialize_new_spec _ _ _ _ e' e' Hd1 Hl1); [rewrite Hzr; by apply Hrun| | |done]|].
  - rewrite Er'. constructor; [apply Hr1|]. eapply Forall_impl; [exact Hlf|]. by intros ? (? & _).
  - unfold entries_of_name in Hzr. destruct (zlen n <=? 11); mlia.
  - intros c' fat2 (-> & He2 & files2 & es1' & es2' & E & Hd2 & Hl2). split; [by eapply edited_trans|].
    exists files2, es1', es2'. split; [done|]. split; [done|]. split; [by rewrite Er'|done].
Qed.
End Operations.

(** ** An empty root directory *)

Lemma geometry_table {D} `{DataSourceLaws D} (fat : Fat D) tbl : geometry fat → zlen tbl = zlen (file_allocation_table fat) →
  geometry (fat <| file_allocation_table := tbl |>).
Proof. intros [? ? ? ? ? ? ? ?] E. split; unfold spc, disk in *; rsimp; rewrite ?E; done. Qed.

(** The root directory at cluster 2, a file of two clusters at 3. *)
Definition dir_table : list Z := [268435448; 4294967295; 4294967295; 4; 4294967295; 0; 0; 0] ++ zeros 120.
Definition dir_volume : Fat InMemoryFatDataSource :=
  (sample_volume (zeros 65536)) <| file_allocation_table := dir_table |>.

Lemma dir_volume_geometry : geometry dir_volume.
Proof.
  apply geometry_table; [|done]. apply sample_geometry; [vm_compute; reflexivity|]. apply within_bytes. vm_compute. reflexivity.
Qed.

Lemma empty_root : dir_at dir_volume 2 (replicate 16 raw_default).
Proof.
  split; [exact dir_volume_geometry|done|done|by exists 4294967295| |done|vm_compute; reflexivity].
  apply Forall_replicate. split; [split; [done|by apply Forall_replicate]| | |]; vm_compute; intuition discriminate.
Qed.

Lemma empty_lists : dir_lists (T := checked_date) (replicate 16 raw_default) [].
Proof. exists [], (replicate 16 raw_default). split; [done|]. split; [constructor|]. by apply Forall_replicate. Qed.

Lemma empty_room n : n ≤ 16 → has_run n (replicate 16 raw_default).
Proof.
  intros Hn. exists 0%nat. intros k Hk. exists raw_default. split; [by apply lookup_replicate_2; lia|by left].
Qed.

Definition sample_root : FatDirectory checked_date := mkDirectory 2 entry_default 2.

Lemma created_file_listed_witness :
  does (f ← create_file sample_root sample_name 1 sample_date; l ← entries sample_root; mret (f, l)) dir_volume (λ '(f, l) _,
    ∃ e, l = [as_fs_entry e] ∧ name e = sample_name).
Proof.
  eapply does_mono; [apply (created_file_listed dir_volume sample_root (replicate 16 raw_default) [] sample_name 1 sample_date)|].
  - exact empty_root.
  - exact empty_lists.
  - repeat constructor.
  - done.
  - done.
  - done.
  - done.
  - by apply empty_room.
  - intros [f l] fat' (_ & _ & _ & es1 & e & es2 & E & -> & Hsh). symmetry in E. apply app_nil in E as [-> ->].
    exists e. split; [done|]. apply Hsh.
Defined.

Lemma created_file_opens_witness :
  does (f ← create_file sample_root sample_name 1 sample_date; g ← open_file sample_name; mret (f, g)) dir_volume (λ '(f, g) _,
    starting_cluster g = 0 ∧ starting_cluster f = 2).
Proof.
  eapply does_mono; [apply (created_file_opens dir_volume sample_root (replicate 16 raw_default) [] sample_name 1 sample_date)|].
  - done.
  - exact empty_root.
  - exact empty_lists.
  - repeat constructor.
  - done.
  - done.
  - apply (bool_decide_eq_true_1 (SLASH ∉ sample_name)). vm_compute. reflexivity.
  - done.
  - done.
  - by apply empty_room.
  - constructor.
  - intros [f g] fat' (_ & _ & Hg & Hf). done.
Defined.
