(* ===== verification/FatFile.v ===== *)
(** * Files

    [fs/src/fat32/file.rs]: reading, writing, deleting, renaming, moving and
    shrinking an open file.  [libm]'s [floorf] and [ceil] are parameters. *)

From S2P Require Import Prelude Float Clock FatTable Utf8 FatEntry FatDisk FatNames FatDir.

Class FsLibm := { floorf : f32 → f32; ceil : f64 → f64 }.

(** Whole numbers are their own floor and ceiling. *)
Class FsLibmLaws `{FsLibm} : Prop := {
  floorf_law n : 0 ≤ n < 2 ^ 24 → floorf (f32_of n) = f32_of n;
  ceil_law n : 0 ≤ n < 2 ^ 53 → ceil (f64_of n) = f64_of n
}.

Section Files.
Context {D : Type} `{DataSource D} {T : Type} `{Calendar T} `{Ucs2} `{FsLibm}.
#[local] Abbreviation M := (FM D).
#[local] Abbreviation entry := (FatFileEntry T).

(** The size of a cluster, which the offset is divided by. *)
Definition cluster_bytes : M Z :=
  fat ← gets id;
  size ← lift (mul_chk U16 (sectors_per_cluster (bpb fat)) (bytes_per_sector (bpb fat)));
  lift (if size =? 0 then Crash Panic else Ret size).

Definition clusters_to_skip (offset cluster_size : Z) : Z :=
  f32_to_uint (U64 - 1) (floorf (f32_of (offset / cluster_size))).

(** The loop of [read] over the clusters: what is left to read, and the
    buffer. *)
Fixpoint read_clusters (cluster_size : Z) (clusters : list Z) (offset_within_cluster to_read reading_offset : Z)
    (temp_slice buffer : list Z) : M (Z * list Z) :=
  match clusters with
  | [] => mret (to_read, buffer)
  | cluster :: rest =>
      if to_read =? 0 then mret (to_read, buffer)
      else
        let copy_size := Z.min to_read (cluster_size - offset_within_cluster) in
        if (offset_within_cluster =? 0) && negb (copy_size <? cluster_size) then
          part ← lift (slice buffer reading_offset (reading_offset + cluster_size));
          part ← read_cluster_to cluster part;
          buffer ← lift (store_slice buffer reading_offset part);
          read_clusters cluster_size rest 0 (to_read - cluster_size) (reading_offset + cluster_size) temp_slice buffer
        else
          temp_slice ← read_cluster_to cluster temp_slice;
          part ← lift (slice temp_slice offset_within_cluster (offset_within_cluster + copy_size));
          _ ← lift (slice buffer reading_offset (reading_offset + copy_size));
          buffer ← lift (store_slice buffer reading_offset part);
          read_clusters cluster_size rest 0 (to_read - copy_size) (reading_offset + copy_size) temp_slice buffer
  end.

(** The new contents of [buffer]. *)
Definition file_read (self : FatFile T) (offset : Z) (buffer : list Z) : M (list Z) :=
  lift (rassert (negb (zlen buffer =? 0)));;
  end_ ← lift (add_chk U64 offset (zlen buffer));
  if h_file_size self <? end_ then throw ReadOutOfBounds
  else
    cluster_size ← cluster_bytes;
    clusters ← clusters_of (starting_cluster self);
    '(to_read, buffer) ← read_clusters cluster_size (zdrop (clusters_to_skip offset cluster_size) clusters)
      (offset mod cluster_size) (zlen buffer) 0 (zeros cluster_size) buffer;
    lift (rassert (to_read =? 0));;
    mret buffer.

(** The loop of [write] over the clusters the file has: what is left to write,
    and where in the buffer. *)
Fixpoint write_clusters (cluster_size : Z) (clusters : list Z) (offset_within_cluster to_write writing_offset : Z)
    (temp_slice buffer : list Z) : M (Z * Z) :=
  match clusters with
  | [] => mret (to_write, writing_offset)
  | cluster :: rest =>
      if to_write =? 0 then mret (to_write, writing_offset)
      else
        let copy_size := Z.min to_write (cluster_size - offset_within_cluster) in
        if (offset_within_cluster =? 0) && negb (copy_size <? cluster_size) then
          part ← lift (slice buffer writing_offset (writing_offset + cluster_size));
          write_cluster cluster part;;
          write_clusters cluster_size rest 0 (to_write - cluster_size) (writing_offset + cluster_size) temp_slice buffer
        else
          temp_slice ← read_cluster_to cluster temp_slice;
          part ← lift (slice buffer writing_offset (writing_offset + copy_size));
          temp_slice ← lift (store_slice temp_slice offset_within_cluster part);
          write_cluster cluster temp_slice;;
          write_clusters cluster_size rest 0 (to_write - copy_size) (writing_offset + copy_size) temp_slice buffer
  end.

(** The loop over the clusters allocated at the end of the file. *)
Fixpoint write_new_clusters (cluster_size : Z) (clusters : list (Z * Z)) (to_write writing_offset : Z)
    (temp_slice buffer : list Z) : M unit :=
  match clusters with
  | [] => mret tt
  | new_cluster :: rest =>
      copy_size ← lift (sub_chk U64 (Z.min to_write cluster_size) 1);
      part ← lift (slice buffer writing_offset (writing_offset + copy_size));
      temp_slice ← lift (store_slice temp_slice 0 part);
      write_cluster (new_cluster.1 mod U32) temp_slice;;
      write_new_clusters cluster_size rest (to_write - copy_size) (writing_offset + copy_size) temp_slice buffer
  end.

(** The file grows to [end_]: the size is changed in the handle and its entry. *)
Definition adjust_file_size (end_ : Z) (self : FatFile T) : M (FatFile T) :=
  if h_file_size self <? end_ mod U32 then
    difference ← lift (sub_chk U64 end_ (h_file_size self));
    entry_size ← lift (add_chk U32 (file_size (h_file_entry self)) (difference mod U32));
    size ← lift (add_chk U32 (h_file_size self) (difference mod U32));
    let new_file_entry := (h_file_entry self) <| file_size := entry_size |> in
    serialize_file_entry (Some (h_file_entry self)) new_file_entry (h_file_entry_cluster self);;
    mret (self <| h_file_size := size |> <| h_file_entry := new_file_entry |>)
  else mret self.

Definition extend_file (cluster_size last_cluster to_write writing_offset : Z) (buffer : list Z) : M unit :=
  let needed_clusters := f64_to_uint (U64 - 1) (ceil (f64_of (to_write / cluster_size))) in
  allocated_clusters ← on_table (append_clusters last_cluster needed_clusters);
  write_new_clusters cluster_size allocated_clusters to_write writing_offset (zeros cluster_size) buffer.

(** An error as a value. *)
Definition attempt {A} (m : M A) : M (A + FileSystemError) := λ fat, '(r, fat) ← m fat; Ret (inl r, fat).

(** The handle after [write], and its result: errors before the handle is
    changed are thrown, the ones after are returned with it. *)
Definition file_write (self : FatFile T) (offset : Z) (buffer : list Z) : M (FatFile T * (unit + FileSystemError)) :=
  lift (rassert (offset <=? h_file_size self));;
  cluster_size ← cluster_bytes;
  clusters ← clusters_of (starting_cluster self);
  let clusters := zdrop (clusters_to_skip offset cluster_size) clusters in
  last_cluster ← lift (unwrap (last clusters));
  '(to_write, writing_offset) ← write_clusters cluster_size clusters (offset mod cluster_size) (zlen buffer) 0
    (zeros cluster_size) buffer;
  end_ ← lift (add_chk U64 offset (zlen buffer));
  self ← adjust_file_size end_ self;
  if to_write =? 0 then mret (self, inl tt)
  else r ← attempt (extend_file cluster_size last_cluster to_write writing_offset buffer); mret (self, r).

Definition file_delete (self : FatFile T) : M unit :=
  remove_file_entry (h_file_entry self) (h_file_entry_cluster self);;
  free_clusters_of (starting_cluster self).

Definition file_rename (name_ : list Z) (self : FatFile T) : M (FatFile T) :=
  e ← lift (set_name name_ (h_file_entry self));
  serialize_file_entry (Some (h_file_entry self)) e (h_file_entry_cluster self);;
  mret (self <| h_file_entry := e |>).

Definition file_move_to (directory : FatDirectory T) (self : FatFile T) : M unit :=
  move_file (h_file_entry self) directory (h_file_entry_cluster self).

(** The table without the clusters behind the one of index
    [new_last_cluster_index]. *)
Definition cut_chain (file_clusters : list Z) (new_last_cluster_index : Z) (tbl : list Z) : res (list Z) :=
  _ ← unwrap (file_clusters !! Z.to_nat new_last_cluster_index);
  tbl ← store_all (zdrop (new_last_cluster_index + 1) file_clusters) FAT_FREE_SECTOR tbl;
  store tbl new_last_cluster_index FAT_END_OF_FILE_MARK.

Definition file_shrink (new_size : Z) (self : FatFile T) : M (FatFile T) :=
  if h_file_size self <=? new_size then throw InvalidArgument
  else
    cluster_size ← cluster_bytes;
    let current_last_cluster := h_file_size self / cluster_size in
    let new_last_cluster := new_size / cluster_size in
    e ← lift (set_file_size (new_size mod U32) (h_file_entry self));
    let self' := self <| h_file_size := new_size mod U32 |> <| h_file_entry := e |> in
    if current_last_cluster =? new_last_cluster then
      serialize_file_entry (Some (h_file_entry self)) e (h_file_entry_cluster self);; mret self'
    else
      file_clusters ← clusters_of (starting_cluster self);
      on_table (λ tbl, tbl ← cut_chain file_clusters new_last_cluster tbl; Ret (inl tt, tbl));;
      serialize_file_entry (Some (h_file_entry self)) e (h_file_entry_cluster self);;
      mret self'.

Definition file_update (set : entry → res entry) (self : FatFile T) : M (FatFile T) :=
  e ← lift (set (h_file_entry self));
  serialize_file_entry (Some e) e (h_file_entry_cluster self);;
  mret (self <| h_file_entry := e |>).
Definition file_set_creation_date_time (t : T) := file_update (set_creation_date_time t).
Definition file_set_modification_date_time (t : T) := file_update (set_last_write_date_time t).
Definition file_set_attributes (a : Z) := file_update (set_attr (fat_attributes a)).
End Files.

(** ** Cutting and overwriting *)

Lemma take_min_app {A} (d r : list A) o n : 0 ≤ o ≤ zlen d → 0 ≤ n →
  ztake n (zdrop o (d ++ r)) = ztake (Z.min n (zlen d - o)) (zdrop o d) ++ ztake (n - Z.min n (zlen d - o)) r.
Proof.
  intros Ho Hn. unfold ztake, zdrop, zlen in *. rewrite drop_app_le by lia. rewrite take_app, length_drop. f_equal.
  - destruct (Z.le_gt_cases n (Z.of_nat (length d) - o)).
    + f_equal. lia.
    + rewrite !take_ge by (rewrite length_drop; lia). done.
  - f_equal. lia.
Qed.

(** Overwriting what begins in the first part of a list. *)
Lemma splice_across {A} (d r x : list A) o : 0 ≤ o ≤ zlen d →
  splice (d ++ r) o x = splice d o (ztake (Z.min (zlen x) (zlen d - o)) x) ++ splice r 0 (zdrop (Z.min (zlen x) (zlen d - o)) x).
Proof.
  intros Ho. unfold splice, ztake, zdrop, zlen in *. rewrite take_app_le by lia. rewrite <- !app_assoc. f_equal.
  rewrite take_0. cbn [app]. set (m := Z.min (Z.of_nat (length x)) (Z.of_nat (length d) - o)).
  rewrite length_take, length_drop. rewrite <- (take_drop (Z.to_nat m) x) at 1. rewrite <- app_assoc. f_equal.
  destruct (Z.le_gt_cases (Z.of_nat (length x)) (Z.of_nat (length d) - o)) as [Hle|Hgt].
  - rewrite (drop_ge x) by lia. cbn [app]. rewrite drop_app_le by lia. f_equal; [f_equal; lia|].
    replace (Z.to_nat (0 + _)) with 0%nat by lia. done.
  - rewrite (drop_ge d) by lia. cbn [app]. f_equal. rewrite drop_app_ge by lia. f_equal. lia.
Qed.

(** A write and then one behind it. *)
Lemma splice_behind {A} (l x y : list A) i : 0 ≤ i → i + zlen x + zlen y ≤ zlen l →
  splice (splice l i x) (i + zlen x) y = splice l i (x ++ y).
Proof.
  intros Hi Hl. pose proof (zlen_nonneg x). pose proof (zlen_nonneg y). unfold splice, ztake, zdrop, zlen in *.
  rewrite length_app. set (t := take (Z.to_nat i) l). assert (Ht : length t = Z.to_nat i) by (unfold t; rewrite length_take; lia).
  set (r := drop _ l). assert (E : take (Z.to_nat (i + Z.of_nat (length x))) (t ++ x ++ r) = t ++ x).
  { rewrite app_assoc, take_app_le by (rewrite length_app; lia). apply take_ge. rewrite length_app. lia. }
  rewrite E, <- !app_assoc. do 3 f_equal. unfold r. rewrite drop_app_ge by lia. rewrite drop_app_ge by lia. rewrite drop_drop. f_equal. lia.
Qed.

(** Overwriting what begins behind the first part of a list. *)
Lemma splice_behind_prefix {A} (d r x : list A) o : 0 ≤ o → splice (d ++ r) (zlen d + o) x = d ++ splice r o x.
Proof.
  intros Ho. unfold splice, ztake, zdrop, zlen. rewrite take_app_ge by lia. rewrite drop_app_ge by lia. rewrite <- app_assoc.
  do 2 f_equal; [f_equal; lia|]. do 2 f_equal. lia.
Qed.

(** ** The contents of a chain of clusters *)

Section Specs.
Context {D : Type} `{DataSourceLaws D} {T : Type} `{Calendar T} `{Ucs2} `{FsLibmLaws}.
#[local] Abbreviation entry := (FatFileEntry T).
Implicit Types (fat : Fat D).

Definition content fat (cs : list Z) : list Z := mjoin (cluster_data fat <$> cs).

Lemma content_cons fat c cs : content fat (c :: cs) = cluster_data fat c ++ content fat cs.
Proof. done. Qed.

Lemma content_app fat cs1 cs2 : content fat (cs1 ++ cs2) = content fat cs1 ++ content fat cs2.
Proof. unfold content. by rewrite fmap_app, join_app. Qed.

Lemma zlen_content fat cs : geometry fat → Forall (in_volume fat) cs → zlen (content fat cs) = cluster_size fat * zlen cs.
Proof.
  intros Hg. induction 1 as [|c cs Hc Hcs IH]; [change (zlen (content fat [])) with 0; change (zlen (@nil Z)) with 0; lia|].
  rewrite content_cons, zlen_app, zlen_cons, IH, zlen_cluster_data by done. lia.
Qed.

Lemma content_eq fat fat' cs : (∀ c, c ∈ cs → cluster_data fat' c = cluster_data fat c) → content fat' cs = content fat cs.
Proof.
  intros He. unfold content. f_equal. apply list_fmap_ext. intros i c Hi. by apply He, list_elem_of_lookup_2 with i.
Qed.

Lemma cluster_size_range fat : geometry fat → 512 ≤ cluster_size fat < U16.
Proof. intros Hg. pose proof (g_spc _ Hg). unfold cluster_size. lia. Qed.

Lemma does_cluster_bytes {A} fat (f : Z → FM D A) Q : geometry fat → does (f (cluster_size fat)) fat Q →
  does (cluster_bytes ≫= f) fat Q.
Proof.
  intros Hg Hf. pose proof (cluster_size_range fat Hg). unfold cluster_bytes. apply does_assoc, does_gets. change (id fat) with fat.
  rewrite (g_sector _ Hg). change (sectors_per_cluster (bpb fat)) with (spc fat). apply does_assoc. unfold cluster_size in *.
  eapply does_step; [apply mul_chk_ret; lia|]. rewrite Z.mul_comm.
  eapply does_step; [destruct (Z.eqb_spec (512 * spc fat) 0); [lia|reflexivity]|]. done.
Qed.

(** The skipped clusters are the whole ones before the offset: below 4 GiB
    their number is exact as an [f32]. *)
Lemma clusters_to_skip_exact offset size : 0 ≤ offset < U32 → 512 ≤ size → clusters_to_skip offset size = offset / size.
Proof.
  intros Ho Hs. assert (Hq : 0 ≤ offset / size < 2 ^ 24).
  { split; [apply Z.div_pos; lia|]. apply Z.div_lt_upper_bound; [lia|]. nia. }
  unfold clusters_to_skip. rewrite floorf_law by done. apply f32_exact; [done|]. lia.
Qed.

Lemma skipped_content fat cs offset : geometry fat → Forall (in_volume fat) cs → 0 ≤ offset < cluster_size fat * zlen cs →
  let k := offset / cluster_size fat in
  0 ≤ k < zlen cs ∧ zlen (content fat (ztake k cs)) + offset mod cluster_size fat = offset.
Proof.
  intros Hg Hcs Ho. pose proof (cluster_size_range fat Hg). cbv zeta. set (size := cluster_size fat) in *.
  pose proof (Z.div_mod offset size ltac:(lia)) as Hdm. pose proof (Z.mod_pos_bound offset size ltac:(lia)).
  assert (Hk : 0 ≤ offset / size < zlen cs) by (split; [apply Z.div_pos; lia|apply Z.div_lt_upper_bound; lia]).
  split; [done|]. rewrite zlen_content by (done || by apply Forall_take). fold size. rewrite zlen_ztake by lia. lia.
Qed.

(** ** Reading *)

Lemma read_clusters_spec fat0 cs fat off n ro temp buffer :
  geometry fat0 → Forall (in_volume fat0) cs → quiet fat0 fat → 0 ≤ off < cluster_size fat0 → 0 ≤ n → 0 ≤ ro →
  ro + n ≤ zlen buffer → off + n ≤ cluster_size fat0 * zlen cs → zlen temp = cluster_size fat0 →
  does (read_clusters (cluster_size fat0) cs off n ro temp buffer) fat (λ r fat', quiet fat0 fat' ∧
    r = (0, splice buffer ro (ztake n (zdrop off (content fat0 cs))))).
Proof.
  intros Hg Hcs. revert fat off n ro temp buffer. induction Hcs as [|c cs Hc Hcs IH]; intros fat off n ro temp buffer Hq Ho Hn Hro Hb Hl Ht.
  { change (zlen (@nil Z)) with 0 in Hl. apply does_ret. split; [done|]. assert (n = 0) as -> by lia. by rewrite ztake_0, splice_empty. }
  cbn [read_clusters]. destruct (Z.eqb_spec n 0) as [->|Hn0]; [apply does_ret; split; [done|]; by rewrite ztake_0, splice_empty|].
  rewrite zlen_cons, Z.mul_add_distr_l, Z.mul_1_r in Hl. pose proof (zlen_cluster_data fat0 c Hg Hc) as Hd.
  pose proof (cluster_size_range fat0 Hg) as Hs. pose proof (Z.mul_nonneg_nonneg _ _ (ltac:(lia) : 0 ≤ cluster_size fat0) (zlen_nonneg cs)) as Hcl.
  pose proof (quiet_geometry _ _ Hq Hg) as Hg1.
  assert (Hc1 : in_volume fat c) by (destruct (quiet_fields _ _ Hq) as (_ & _ & Et & _); unfold in_volume; by rewrite Et).
  assert (Hs1 : cluster_size fat = cluster_size fat0) by (destruct (quiet_fields _ _ Hq) as (_ & Eb & _); unfold cluster_size, spc; by rewrite Eb).
  rewrite content_cons, take_min_app, Hd by lia.
  set (m := Z.min n (cluster_size fat0 - off)). assert (Hm : 0 < m ≤ n ∧ off + m ≤ cluster_size fat0) by (unfold m; lia).
  set (part := ztake m (zdrop off (cluster_data fat0 c))).
  assert (Hp : zlen part = m) by (unfold part; rewrite zlen_ztake; [done|]; rewrite zlen_zdrop; lia).
  assert (Hrest : ∀ fat1 temp1, quiet fat0 fat1 → zlen temp1 = cluster_size fat0 →
    does (read_clusters (cluster_size fat0) cs 0 (n - m) (ro + m) temp1 (splice buffer ro part)) fat1 (λ r fat', quiet fat0 fat' ∧
      r = (0, splice buffer ro (part ++ ztake (n - m) (content fat0 cs))))).
  { intros fat1 temp1 Hq1 Ht1. eapply does_mono; [apply IH; try done; rewrite ?zlen_splice; unfold m in *; lia|].
    intros r fat2 [Hq2 ->]. split; [done|]. f_equal. rewrite zdrop_0. replace (ro + m) with (ro + zlen part) by lia.
    apply splice_behind; [done|]. rewrite Hp.
    rewrite zlen_ztake; [unfold m; lia|]. rewrite zlen_content by done. unfold m in *. lia. }
  destruct (Z.eqb_spec off 0) as [->|Ho0]; [destruct (Z.ltb_spec m (cluster_size fat0)) as [Hlt|Hge]|]; cbn [andb negb].
  2:{ assert (Em : m = cluster_size fat0) by lia. eapply does_step; [apply slice_ret; lia|].
    eapply does_bind; [apply read_cluster_to_spec; [done|done|rewrite zlen_ztake; [lia|]; rewrite zlen_zdrop; lia]|].
    intros part' fat1 [Hq1 ->]. rewrite (quiet_cluster fat0 fat) by done.
    assert (Ep : cluster_data fat0 c = part) by (unfold part; rewrite zdrop_0, ztake_all by lia; done). rewrite Ep.
    eapply does_step; [apply store_slice_ret; lia|].
    replace (n - cluster_size fat0) with (n - m) by lia. replace (ro + cluster_size fat0) with (ro + m) by lia. apply Hrest; [by eapply quiet_trans|done]. }
  all: eapply does_bind; [apply read_cluster_to_spec; [done|done|by rewrite Hs1]|]; intros temp1 fat1 [Hq1 ->];
    rewrite (quiet_cluster fat0 fat) by done;
    (eapply does_step; [apply slice_ret; lia|]); replace (_ + m - _) with m by lia;
    (eapply does_step; [apply slice_ret; lia|]); (eapply does_step; [apply store_slice_ret; fold part; lia|]);
    apply Hrest; [by eapply quiet_trans|done].
Qed.

Lemma file_read_spec fat (f : FatFile T) cs offset buffer : geometry fat → let chain := starting_cluster f :: cs in
  linked (file_allocation_table fat) chain → Forall (in_volume fat) chain → h_file_size f < U32 →
  h_file_size f ≤ cluster_size fat * zlen chain → 0 ≤ offset → buffer ≠ [] → offset + zlen buffer ≤ h_file_size f →
  does (file_read f offset buffer) fat (λ r fat', quiet fat fat' ∧ r = ztake (zlen buffer) (zdrop offset (content fat chain))).
Proof.
  intros Hg chain Hl Hv Hu Hsz Ho Hne He. assert (Hb : 0 < zlen buffer).
  { destruct buffer as [|b l]; [done|]. rewrite zlen_cons. pose proof (zlen_nonneg l). lia. }
  unfold file_read. eapply does_step; [destruct (Z.eqb_spec (zlen buffer) 0); [lia|reflexivity]|].
  eapply does_step; [apply add_chk_ret; lia|]. destruct (Z.ltb_spec (h_file_size f) (offset + zlen buffer)); [lia|].
  apply does_cluster_bytes; [done|]. eapply does_clusters; [exact Hl|]. fold chain.
  pose proof (cluster_size_range fat Hg) as Hcs. rewrite clusters_to_skip_exact by lia.
  destruct (skipped_content fat chain offset Hg Hv ltac:(lia)) as [Hk Hoff]. set (k := offset / cluster_size fat) in *.
  pose proof (Z.mod_pos_bound offset (cluster_size fat) ltac:(lia)) as Hmod.
  assert (Hsplit : content fat chain = content fat (ztake k chain) ++ content fat (zdrop k chain))
    by (by rewrite <- content_app, ztake_zdrop).
  pose proof (zlen_content fat chain Hg Hv) as Hzc. rewrite Hsplit, zlen_app in Hzc.
  rewrite (zlen_content fat (zdrop k chain)) in Hzc by (done || by apply Forall_drop).
  eapply does_bind; [apply (read_clusters_spec fat); try done; try lia; [by apply Forall_drop|apply quiet_refl|]|].
  { unfold zeros, zlen. rewrite length_replicate. lia. }
  intros r fat' [Hq ->]. eapply does_step; [reflexivity|]. apply does_ret. split; [done|].
  rewrite splice_full; [|rewrite zlen_ztake; [done|]; rewrite zlen_zdrop; rewrite zlen_content; try done; try (by apply Forall_drop); lia].
  rewrite Hsplit. f_equal. rewrite <- Hoff at 2. unfold zdrop at 3. rewrite drop_app_ge by (unfold zlen in *; lia).
  unfold zdrop. f_equal. unfold zlen. lia.
Qed.

(** ** Writing in place *)

(** Nothing but the contents of the clusters [cs] has changed. *)
Record touched fat fat' (cs : list Z) : Prop := {
  to_geometry : geometry fat → geometry fat';
  to_lba : partition_first_sector_lba fat' = partition_first_sector_lba fat;
  to_bpb : bpb fat' = bpb fat;
  to_table : file_allocation_table fat' = file_allocation_table fat;
  to_other c : in_volume fat c → c ∉ cs → cluster_data fat' c = cluster_data fat c
}.

Lemma quiet_touched fat fat' cs : quiet fat fat' → touched fat fat' cs.
Proof.
  intros Hq. destruct (quiet_fields _ _ Hq) as (Ep & Eb & Et & Ed).
  split; [by apply quiet_geometry|done..|]. intros c _ _. by apply quiet_cluster.
Qed.

Lemma touched_trans f1 f2 f3 cs1 cs2 : touched f1 f2 cs1 → touched f2 f3 cs2 → touched f1 f3 (cs1 ++ cs2).
Proof.
  intros [G1 P1 B1 T1 O1] [G2 P2 B2 T2 O2]. split; [auto|congruence..|]. intros c Hc [Hn1 Hn2]%not_elem_of_app.
  rewrite O2; [by apply O1| |done]. unfold in_volume in *. by rewrite T1.
Qed.

Lemma touched_weaken fat fat' cs cs' : touched fat fat' cs → cs ⊆ cs' → touched fat fat' cs'.
Proof. intros [G P B T0 O] Hs. split; [done..|]. intros c Hc Hn. apply O; [done|]. set_solver. Qed.

Lemma touched_in_volume fat fat' cs c : touched fat fat' cs → in_volume fat c → in_volume fat' c.
Proof. intros [_ _ _ Et _]. unfold in_volume. by rewrite Et. Qed.

Lemma touched_size fat fat' cs : touched fat fat' cs → cluster_size fat' = cluster_size fat.
Proof. intros [_ _ Eb _ _]. unfold cluster_size, spc. by rewrite Eb. Qed.

Lemma write_cluster_touched fat c buffer : geometry fat → in_volume fat c → zlen buffer = cluster_size fat → bytes buffer →
  does (write_cluster c buffer) fat (λ _ fat', touched fat fat' [c] ∧ cluster_data fat' c = buffer).
Proof.
  intros Hg Hc Hb Hbb. eapply does_mono; [by apply write_cluster_spec|]. intros [] fat' Hw.
  destruct (overwritten_cluster fat fat' c buffer Hg Hc Hb Hw) as (Hg' & Hd & Ho).
  destruct (overwritten_fields _ _ _ _ Hw) as (Ep & Eb & Et & _). split; [|done]. split; [done..|]. intros c' Hc' Hn.
  apply Ho; [done|]. set_solver.
Qed.

Lemma cluster_data_bytes fat c : bytes (cluster_data fat c).
Proof.
  unfold cluster_data, bytes. apply Forall_join. unfold cluster_sectors, ztake, zdrop. apply Forall_take, Forall_drop.
  eapply Forall_impl; [apply sectors_size|]. by intros s [_ ?].
Qed.

Lemma splice_bytes l i x : bytes l → bytes x → bytes (splice l i x).
Proof.
  intros Hl Hx. unfold splice, ztake, zdrop, bytes in *. rewrite !Forall_app.
  split; [by apply Forall_take|]. split; [done|by apply Forall_drop].
Qed.

(** A part of the buffer goes to one cluster. *)
Lemma write_part_spec {A} fat c off m wo temp buffer (f : list Z → FM D A) Q : geometry fat → in_volume fat c → bytes buffer →
  0 ≤ off → 0 ≤ m → off + m ≤ cluster_size fat → 0 ≤ wo → wo + m ≤ zlen buffer → zlen temp = cluster_size fat →
  (∀ fat' temp', zlen temp' = cluster_size fat → touched fat fat' [c] →
     cluster_data fat' c = splice (cluster_data fat c) off (ztake m (zdrop wo buffer)) → does (f temp') fat' Q) →
  does (temp ← read_cluster_to c temp; part ← lift (slice buffer wo (wo + m)); temp ← lift (store_slice temp off part);
        write_cluster c temp;; f temp) fat Q.
Proof.
  intros Hg Hc Hb Ho Hm Hom Hwo Hwm Ht Hf. pose proof (zlen_cluster_data fat c Hg Hc) as Hd.
  eapply does_bind; [by apply read_cluster_to_spec|]. intros t fat1 [Hq ->].
  eapply does_step; [apply slice_ret; lia|]. replace (wo + m - wo) with m by lia. set (part := ztake m (zdrop wo buffer)) in *.
  assert (Hp : zlen part = m) by (unfold part; rewrite zlen_ztake; [done|]; rewrite zlen_zdrop; lia).
  eapply does_step; [apply store_slice_ret; lia|].
  pose proof (quiet_touched fat fat1 [] Hq) as Hto. pose proof (touched_size _ _ _ Hto) as Hs1.
  assert (Hz : zlen (splice (cluster_data fat c) off part) = cluster_size fat) by (rewrite zlen_splice; lia).
  eapply does_bind; [apply write_cluster_touched; [by apply (to_geometry _ _ _ Hto)|by eapply touched_in_volume|lia|]|].
  { apply splice_bytes; [apply cluster_data_bytes|]. by apply Forall_take, Forall_drop. }
  intros [] fat2 [Hto2 Hd2]. apply Hf; [done|by apply (touched_trans _ _ _ [] [c] Hto)|done].
Qed.

Lemma write_clusters_spec fat cs off n wo temp buffer : geometry fat → Forall (in_volume fat) cs → NoDup cs → bytes buffer →
  0 ≤ off < cluster_size fat → 0 ≤ wo → n = zlen buffer - wo → 0 ≤ n → off + n ≤ cluster_size fat * zlen cs →
  zlen temp = cluster_size fat →
  does (write_clusters (cluster_size fat) cs off n wo temp buffer) fat (λ r fat', touched fat fat' cs ∧ r.1 = 0 ∧
    content fat' cs = splice (content fat cs) off (zdrop wo buffer)).
Proof.
  intros Hg Hcs Hnd Hb. revert fat off n wo temp Hg Hcs. induction cs as [|c cs IH]; intros fat off n wo temp Hg Hcs Ho Hwo En Hn Hl Ht.
  { change (zlen (@nil Z)) with 0 in Hl. apply does_ret. split; [by apply quiet_touched, quiet_refl|]. split; [simpl; lia|].
    rewrite (zlen_zero_inv (zdrop wo buffer)) by (rewrite zlen_zdrop; lia). by rewrite splice_empty. }
  apply Forall_cons in Hcs as [Hc Hcs]. apply NoDup_cons in Hnd as [Hnin Hnd]. cbn [write_clusters].
  destruct (Z.eqb_spec n 0) as [->|Hn0].
  { apply does_ret. split; [by apply quiet_touched, quiet_refl|]. split; [done|].
    rewrite (zlen_zero_inv (zdrop wo buffer)) by (rewrite zlen_zdrop; lia). by rewrite splice_empty. }
  rewrite zlen_cons, Z.mul_add_distr_l, Z.mul_1_r in Hl. pose proof (zlen_cluster_data fat c Hg Hc) as Hd.
  pose proof (cluster_size_range fat Hg) as Hs. pose proof (Z.mul_nonneg_nonneg _ _ (ltac:(lia) : 0 ≤ cluster_size fat) (zlen_nonneg cs)) as Hcl.
  set (m := Z.min n (cluster_size fat - off)). assert (Hm : 0 < m ≤ n ∧ off + m ≤ cluster_size fat) by (unfold m; lia).
  assert (Hrest : ∀ fat1 temp1, zlen temp1 = cluster_size fat → touched fat fat1 [c] →
    cluster_data fat1 c = splice (cluster_data fat c) off (ztake m (zdrop wo buffer)) →
    does (write_clusters (cluster_size fat) cs 0 (n - m) (wo + m) temp1 buffer) fat1 (λ r fat', touched fat fat' (c :: cs) ∧ r.1 = 0 ∧
      content fat' (c :: cs) = splice (content fat (c :: cs)) off (zdrop wo buffer))).
  { intros fat1 temp1 Ht1 Hto1 Hd1. pose proof (to_geometry _ _ _ Hto1 Hg) as Hg1. pose proof (touched_size _ _ _ Hto1) as Hs1.
    rewrite <- Hs1. eapply does_mono; [apply (IH Hnd fat1); rewrite ?Hs1; try done; try (unfold m in *; lia)|].
    { eapply Forall_impl; [exact Hcs|]. intros x Hx. by eapply touched_in_volume. }
    intros r fat2 (Hto2 & Hr & Hct). split; [by apply (touched_trans _ fat1 _ [c])|]. split; [done|].
    rewrite !content_cons, Hct. rewrite (to_other _ _ _ Hto2) by (done || by eapply touched_in_volume). rewrite Hd1.
    rewrite (content_eq fat fat1 cs).
    2:{ intros x Hx. apply (to_other _ _ _ Hto1); [by apply (proj1 (Forall_forall _ _) Hcs)|].
    rewrite list_elem_of_singleton. by intros ->. }
    rewrite splice_across by lia. rewrite Hd, zlen_zdrop by lia. replace (zlen buffer - wo) with n by lia. fold m. do 2 f_equal.
    unfold zdrop. rewrite drop_drop. f_equal. lia. }
  destruct ((off =? 0) && negb (m <? cluster_size fat)) eqn:Eb.
  - apply andb_true_iff in Eb as [->%Z.eqb_eq Hlt%negb_true_iff%Z.ltb_ge]. assert (Em : m = cluster_size fat) by lia.
    replace (n - cluster_size fat) with (n - m) by lia. replace (wo + cluster_size fat) with (wo + m) by lia.
    eapply does_step; [apply slice_ret; lia|]. replace (wo + m - wo) with m by lia.
    assert (Hp : zlen (ztake m (zdrop wo buffer)) = cluster_size fat) by (rewrite zlen_ztake; [done|]; rewrite zlen_zdrop; lia).
    eapply does_bind; [apply write_cluster_touched; [done|done|done|by apply Forall_take, Forall_drop]|]. intros [] fat1 [Hto1 Hd1].
    apply Hrest; [done|done|]. rewrite Hd1. symmetry. apply splice_full. lia.
  - by apply write_part_spec; try done; lia.
Qed.

(** The part of [write] before the size is adjusted, for a write that the
    clusters of the file have room for. *)
Lemma file_write_spec fat (f : FatFile T) cs offset buffer Q : geometry fat → let chain := starting_cluster f :: cs in
  linked (file_allocation_table fat) chain → Forall (in_volume fat) chain → bytes buffer → buffer ≠ [] →
  0 ≤ offset ≤ h_file_size f → h_file_size f < U32 → offset + zlen buffer ≤ cluster_size fat * zlen chain →
  offset + zlen buffer < U64 →
  (∀ fat', touched fat fat' chain → content fat' chain = splice (content fat chain) offset buffer →
     does (adjust_file_size (offset + zlen buffer) f) fat' Q) →
  does (file_write f offset buffer) fat (λ r fat', r.2 = inl tt ∧ Q r.1 fat').
Proof.
  intros Hg chain Hl Hv Hb Hne Ho Hu Hc Hc64 Hq. assert (Hbz : 0 < zlen buffer).
  { destruct buffer as [|b l]; [done|]. rewrite zlen_cons. pose proof (zlen_nonneg l). lia. }
  unfold file_write. eapply does_step; [destruct (Z.leb_spec offset (h_file_size f)); [reflexivity|lia]|].
  apply does_cluster_bytes; [done|]. eapply does_clusters; [exact Hl|]. fold chain.
  pose proof (cluster_size_range fat Hg) as Hcs. rewrite clusters_to_skip_exact by lia.
  destruct (skipped_content fat chain offset Hg Hv ltac:(lia)) as [Hk Hoff]. set (k := offset / cluster_size fat) in *.
  pose proof (Z.mod_pos_bound offset (cluster_size fat) ltac:(lia)) as Hmod. cbv zeta.
  assert (Hlast : ∃ x, last (zdrop k chain) = Some x).
  { apply last_is_Some. intros E. apply (f_equal zlen) in E. rewrite zlen_zdrop in E by lia. change (zlen (@nil Z)) with 0 in E. lia. }
  destruct Hlast as [x Hx]. eapply does_step; [by rewrite Hx|].
  assert (Hsplit : ∀ fat0, content fat0 chain = content fat0 (ztake k chain) ++ content fat0 (zdrop k chain))
    by (intros fat0; by rewrite <- content_app, ztake_zdrop).
  pose proof (zlen_content fat chain Hg Hv) as Hzc. rewrite Hsplit, zlen_app in Hzc.
  rewrite (zlen_content fat (zdrop k chain)) in Hzc by (done || by apply Forall_drop).
  pose proof (linked_nodup _ _ Hl) as Hnd. rewrite <- (ztake_zdrop k chain), NoDup_app in Hnd. destruct Hnd as (_ & Hdis & Hnd).
  eapply does_bind; [apply write_clusters_spec; try done; try lia; [by apply Forall_drop|]|].
  { unfold zeros, zlen. rewrite length_replicate. lia. }
  intros [tw wo] fat1 (Hto & Hr & Hct). cbn [fst] in Hr. subst tw. eapply does_step; [apply add_chk_ret; lia|].
  eapply does_bind; [apply Hq|].
  - eapply touched_weaken; [exact Hto|]. intros y Hy. rewrite <- (ztake_zdrop k chain). apply elem_of_app. by right.
  - rewrite !Hsplit, Hct, zdrop_0. rewrite (content_eq fat fat1 (ztake k chain)).
    2:{ intros y Hy. apply (to_other _ _ _ Hto); [|by apply Hdis]. apply (proj1 (Forall_forall _ _) Hv).
        rewrite <- (ztake_zdrop k chain). apply elem_of_app. by left. }
    rewrite <- Hoff at 2. rewrite splice_behind_prefix; [done|lia].
  - intros f' fat' HQ. by apply does_ret.
Qed.
End Specs.

(** ** Properties *)

Section Properties.
Context {D : Type} `{DataSourceLaws D} {T : Type} `{CalendarLaws T} `{Ucs2Laws} `{FsLibmLaws}.
#[local] Abbreviation entry := (FatFileEntry T).
Implicit Types (fat : Fat D).

Lemma lift_ret {A B} (m : res A) (f : A → FM D B) a fat : m = Ret a → (lift m ≫= f) fat = f a fat.
Proof. by intros ->. Qed.

(** Reading from a file fills the buffer with the bytes at the offset of
    the clusters of its chain, in order, and changes nothing on the disk; a
    read past the size of the file is refused. *)
Theorem read_returns_content fat (f : FatFile T) cs offset buffer : geometry fat →
  let chain := starting_cluster f :: cs in
  linked (file_allocation_table fat) chain → Forall (in_volume fat) chain → h_file_size f < U32 →
  h_file_size f ≤ cluster_size fat * zlen chain → 0 ≤ offset → buffer ≠ [] → offset + zlen buffer < U64 →
  if h_file_size f <? offset + zlen buffer then file_read f offset buffer fat = Ret (inr ReadOutOfBounds, fat)
  else does (file_read f offset buffer) fat (λ r fat', quiet fat fat' ∧
         r = ztake (zlen buffer) (zdrop offset (content fat chain))).
Proof.
  intros Hg chain Hl Hv Hu Hsz Ho Hne H64. destruct (Z.ltb_spec (h_file_size f) (offset + zlen buffer)) as [Hlt|Hle]; [|by apply file_read_spec].
  assert (Hb : 0 < zlen buffer) by (destruct buffer as [|b l]; [done|]; rewrite zlen_cons; pose proof (zlen_nonneg l); lia).
  unfold file_read. destruct (Z.eqb_spec (zlen buffer) 0); [lia|]. erewrite lift_ret by reflexivity.
  erewrite lift_ret by (apply add_chk_ret; lia). destruct (Z.ltb_spec (h_file_size f) (offset + zlen buffer)); [done|lia].
Qed.

(** C28: A write within the size of a file overwrites just those bytes: a read
    of any part of the file afterwards sees the new bytes there and the old
    ones elsewhere, and no cluster of another file changes. *)
Theorem write_then_read fat (f : FatFile T) cs offset buffer offset' buffer' : geometry fat →
  let chain := starting_cluster f :: cs in
  linked (file_allocation_table fat) chain → Forall (in_volume fat) chain → bytes buffer → buffer ≠ [] → 0 ≤ offset →
  offset + zlen buffer ≤ h_file_size f → h_file_size f < U32 → h_file_size f ≤ cluster_size fat * zlen chain →
  0 ≤ offset' → buffer' ≠ [] → offset' + zlen buffer' ≤ h_file_size f →
  does ('(f', r) ← file_write f offset buffer; b ← file_read f' offset' buffer'; mret (f', r, b)) fat (λ '(f', r, b) fat',
    f' = f ∧ r = inl tt ∧ b = ztake (zlen buffer') (zdrop offset' (splice (content fat chain) offset buffer)) ∧
    touched fat fat' chain).
Proof.
  intros Hg chain Hl Hv Hb Hne Ho He Hu Hsz Ho' Hne' He'. pose proof (zlen_nonneg buffer). eapply does_bind.
  { apply (file_write_spec fat f cs offset buffer (λ f' fat', f' = f ∧ touched fat fat' chain ∧
      content fat' chain = splice (content fat chain) offset buffer)); try done; try (fold chain; lia).
    intros fat1 Hto Hct. unfold adjust_file_size. rewrite Z.mod_small by lia.
    destruct (Z.ltb_spec (h_file_size f) (offset + zlen buffer)); [lia|]. by apply does_ret. }
  intros [f' r] fat1 (Er & Ef & Hto & Hct). cbn [fst snd] in Er, Ef. subst f' r. pose proof (to_geometry _ _ _ Hto Hg) as Hg1.
  eapply does_bind; [apply (file_read_spec fat1 f cs); try done|].
  - by rewrite (to_table _ _ _ Hto).
  - eapply Forall_impl; [exact Hv|]. intros x Hx. by eapply touched_in_volume.
  - by rewrite (touched_size _ _ _ Hto).
  - intros b fat2 [Hq2 ->]. apply does_ret. split; [done|]. split; [done|]. fold chain. split; [by rewrite Hct|].
    rewrite <- (app_nil_r chain). eapply touched_trans; [exact Hto|by apply quiet_touched].
Qed.

(** What the directory says of a listed file. *)
Lemma listed_entry fat c files es1 (e : entry) es2 : dir_at fat c files → dir_lists files (es1 ++ e :: es2) →
  file_block (disk_order e) e ∧ Forall raw_ok (raw e) ∧ zlen (raw e) ≤ 16.
Proof.
  intros Hd (body & tail & Ef & Hb & Ht). destruct (blocks_file_at _ _ _ _ Hb) as (p & b & q & -> & _ & Hf & _).
  pose proof (fb_order _ _ Hf) as Eo. destruct (file_block_nonempty _ _ Hf) as (lfns & s & Eb & _ & Er).
  pose proof (da_raw _ _ _ Hd) as Hok. pose proof (da_size _ _ _ Hd) as Hz. rewrite Ef, Eb in Hok, Hz.
  rewrite !Forall_app, Forall_cons in Hok. rewrite !zlen_app in Hz. change (zlen [s]) with 1 in Hz. split; [by rewrite <- Eo|].
  rewrite Er, zlen_cons, Forall_cons. pose proof (zlen_nonneg p). pose proof (zlen_nonneg q). pose proof (zlen_nonneg tail).
  split; [tauto|lia].
Qed.

Lemma touched_dir fat fat' cs c files : touched fat fat' cs → c ∉ cs → dir_at fat c files → dir_at fat' c files.
Proof.
  intros Hto Hn [Hg Hs Hc Hl Hr Hz Hd]. split; [by apply (to_geometry _ _ _ Hto)| |by eapply touched_in_volume| |done|done|].
  - unfold spc in *. by rewrite (to_bpb _ _ _ Hto).
  - by rewrite (to_table _ _ _ Hto).
  - by rewrite (to_other _ _ _ Hto).
Qed.

(** C38: A write that makes a file larger within its last cluster stores the
    bytes and the new size in the open file, but the entry it writes to the
    directory still has the old size. *)
Theorem grown_size_not_stored fat (f : FatFile T) cs offset buffer files es1 es2 s : geometry fat →
  let chain := starting_cluster f :: cs in
  let c := h_file_entry_cluster f in
  linked (file_allocation_table fat) chain → Forall (in_volume fat) chain → bytes buffer →
  0 ≤ offset ≤ h_file_size f → h_file_size f < offset + zlen buffer < U32 →
  offset + zlen buffer ≤ cluster_size fat * zlen chain → file_size (h_file_entry f) = h_file_size f → c ∉ chain →
  dir_at fat c files → dir_lists files (es1 ++ h_file_entry f :: es2) → sfn (h_file_entry f) = Ret s →
  filter (λ r, r_name r = r_name s) files = [s] →
  does (file_write f offset buffer) fat (λ r fat', r.2 = inl tt ∧ h_file_size r.1 = offset + zlen buffer ∧
    content fat' chain = splice (content fat chain) offset buffer ∧
    ∃ files' es1' es2', dir_at fat' c files' ∧ dir_lists files' (es1' ++ h_file_entry f :: es2') ∧ es1 ++ es2 = es1' ++ es2').
Proof.
  intros Hg chain c Hl Hv Hb Ho Hgr Hcap Hfs Hnin Hd Hes Hs Huniq. assert (Hne : buffer ≠ []) by (intros ->; change (zlen (@nil Z)) with 0 in *; lia).
  apply (file_write_spec fat f cs offset buffer (λ f' fat', h_file_size f' = offset + zlen buffer ∧
    content fat' chain = splice (content fat chain) offset buffer ∧ ∃ files' es1' es2', dir_at fat' c files' ∧
    dir_lists files' (es1' ++ h_file_entry f :: es2') ∧ es1 ++ es2 = es1' ++ es2')); try done; try lia.
  intros fat1 Hto Hct. fold chain in Hto, Hct. pose proof (touched_dir _ _ _ _ _ Hto Hnin Hd) as Hd1.
  destruct (listed_entry _ _ _ _ _ _ Hd1 Hes) as (Hfb & Hok & Hlen). unfold adjust_file_size. rewrite Z.mod_small by lia.
  destruct (Z.ltb_spec (h_file_size f) (offset + zlen buffer)); [|lia]. eapply does_step; [apply sub_chk_ret; lia|].
  rewrite Hfs, Z.mod_small by lia. eapply does_step; [apply add_chk_ret; lia|]. eapply does_step; [apply add_chk_ret; lia|]. cbv zeta.
  apply (does_bind _ _ _ (λ _ fat3, edited fat1 fat3 c ∧ ∃ files3 es1' es2', es1 ++ es2 = es1' ++ es2' ∧ dir_at fat3 c files3 ∧
    dir_lists files3 (es1' ++ h_file_entry f :: es2'))); [eapply serialize_replace; [by apply (remove_listed_spec fat1 c files es1 _ es2 s)|]|].
  { intros fat2 (He2 & files2 & Hd2 & Hl2 & Hrun). eapply does_mono.
    - eapply (serialize_new_spec _ _ _ _ _ (h_file_entry f) Hd2 Hl2); rsimp; [apply Hrun; by right|done|lia|done].
    - intros c' fat3 (-> & He3 & Hrest). split; [by eapply edited_trans|done]. }
  intros c' fat3 (He3 & files3 & es1' & es2' & Ees & Hd3 & Hl3). apply does_ret. rsimp. split; [lia|]. split.
  - rewrite <- Hct. apply content_eq. intros x Hx. apply (ed_other _ _ _ He3).
    + eapply touched_in_volume; [exact Hto|]. by apply (proj1 (Forall_forall _ _) Hv).
    + by intros ->.
  - by exists files3, es1', es2'.
Qed.

(** A file renamed in a directory of one cluster is listed there under its
    new name with everything else about it unchanged, and so are the other
    files and clusters. *)
Theorem renamed_file_listed fat (f : FatFile T) files es1 es2 s n :
  let e := h_file_entry f in let c := h_file_entry_cluster f in
  dir_at fat c files → dir_lists files (es1 ++ e :: es2) → sfn e = Ret s → filter (λ r, r_name r = r_name s) files = [s] →
  ascii n → 1 ≤ zlen n ≤ 233 → (zlen n ≤ 11 → trimmed n) →
  has_run (entries_of_name n) files ∨ entries_of_name n ≤ zlen (raw e) →
  does (file_rename n f) fat (λ f' fat', edited fat fat' c ∧ h_file_entry f' = e <| name := n |> <| raw := raw (h_file_entry f') |> ∧
    ∃ files' es1' es2', es1 ++ es2 = es1' ++ es2' ∧ dir_at fat' c files' ∧ dir_lists files' (es1' ++ h_file_entry f' :: es2')).
Proof.
  intros e c Hd Hes Hs Hu Hn Hl Ht Hroom. unfold file_rename. fold e c.
  destruct (rename_spec fat c files es1 e es2 s n Hd Hes Hs Hu Hn Hl Ht Hroom) as (e' & Ee & Hdo).
  eapply does_step; [exact Ee|]. eapply does_bind; [exact Hdo|].
  intros c' fat' (He & files' & es1' & es2' & E & Hd' & Ee' & Hl'). apply does_ret. rsimp. split; [done|]. split; [done|].
  by exists files', es1', es2'.
Qed.

(** A deleted file is no longer listed, the other files of the directory
    are, and its clusters, and only those, are free for other files. *)
Theorem deleted_file_gone fat (f : FatFile T) cs others files es1 es2 s :
  let e := h_file_entry f in let c := h_file_entry_cluster f in
  dir_at fat c files → dir_lists files (es1 ++ e :: es2) → sfn e = Ret s → filter (λ r, r_name r = r_name s) files = [s] →
  fat_ok (file_allocation_table fat) ((starting_cluster f :: cs) :: [c] :: others) →
  does (file_delete f) fat (λ _ fat', (∃ files', dir_at fat' c files' ∧ dir_lists files' (es1 ++ es2)) ∧
    fat_ok (file_allocation_table fat') ([c] :: others) ∧
    ∀ x, x ∈ free_clusters (file_allocation_table fat') ↔
         x ∈ starting_cluster f :: cs ∨ x ∈ free_clusters (file_allocation_table fat)).
Proof.
  intros e c Hd Hes Hs Hu Hok. unfold file_delete. fold e c.
  eapply does_bind; [by apply (remove_listed_spec fat c files es1 e es2 s)|]. intros [] fat1 (He1 & files1 & Hd1 & Hl1 & _).
  rewrite <- (ed_table _ _ _ He1) in Hok |- *. destruct (release_spec _ _ _ _ Hok) as (tbl' & Et & Hok' & Hz & Hfree).
  unfold free_clusters_of, on_table, does. rewrite Et, !ret_bind. apply returns_ret. exists tt. split; [done|]. rsimp.
  split; [|done]. exists files1. split; [|done]. destruct Hd1 as [Hg Hsp Hc Hl Hr Hz1 Hda].
  split; [by apply geometry_table|done| |rsimp; by apply (file_linked _ _ [c] Hok'); left|done|done|done].
  unfold in_volume in *. rsimp. by rewrite Hz.
Qed.
End Properties.

(** Shrinking a file to fewer clusters marks the clusters behind the new
    end free, but ends the chain at the table entry of the index of the last
    cluster, not of the cluster: the last cluster still leads to a free one. *)
Theorem shrink_leaves_dangling_link tbl pre l n rest : linked tbl (pre ++ l :: n :: rest) →
  let k := zlen pre in k < zlen tbl → k ≠ l → k ≠ n →
  returns (cut_chain (pre ++ l :: n :: rest) k tbl) (λ tbl',
    look tbl' l = Some n ∧ look tbl' n = Some FAT_FREE_SECTOR ∧ look tbl' k = Some FAT_END_OF_FILE_MARK).
Proof.
  intros Hl k Hk Hkl Hkn. pose proof (zlen_nonneg pre). unfold cut_chain.
  assert (El : (pre ++ l :: n :: rest) !! Z.to_nat k = Some l) by (apply list_lookup_middle; unfold k, zlen; lia).
  rewrite El. simpl unwrap. rewrite ret_bind.
  assert (Ed : zdrop (k + 1) (pre ++ l :: n :: rest) = n :: rest).
  { unfold zdrop, k, zlen. rewrite drop_app_ge by lia. by replace (Z.to_nat _ - length pre)%nat with 1%nat by lia. }
  rewrite Ed. pose proof (linked_nodup _ _ Hl) as Hnd. apply NoDup_app in Hnd as (_ & _ & [Hln _]%NoDup_cons).
  eapply returns_bind; [apply store_all_spec; intros x Hx; apply (linked_range _ _ _ Hl); apply elem_of_app; right; by right|].
  intros tbl1 [Hz Hlook]. rewrite store_as_insert by lia. apply returns_ret.
  rewrite !look_insert_ne, look_insert_eq, !Hlook by (done || lia). rewrite decide_False by done. rewrite decide_True by left.
  split; [|done]. by apply linked_suffix in Hl as (? & _).
Qed.

(** ** A file of two clusters in the root directory *)

#[global] Instance exact_libm : FsLibm := {| floorf := float_floor 24 128; ceil := float_ceil 53 1024 |}.
#[global] Instance exact_libm_laws : FsLibmLaws.
Proof. split; intros n Hn; by apply round_whole. Qed.

(** The file "A" of 700 bytes. *)
Definition file_raw : RawFatFileEntry :=
  sample_raw <| r_name := 65 :: replicate 10 32 |> <| r_first_cluster_low := 3 |> <| r_file_size := 700 |>.
Definition file_root : list RawFatFileEntry := file_raw :: replicate 15 raw_default.
Definition file_volume : Fat InMemoryFatDataSource :=
  (sample_volume (zeros 1024 ++ raw_write file_raw ++ zeros (65536 - 1056))) <| file_allocation_table := dir_table |>.

Lemma file_volume_geometry : geometry file_volume.
Proof.
  apply geometry_table; [|done]. apply sample_geometry; [vm_compute; reflexivity|]. apply within_bytes. vm_compute. reflexivity.
Qed.

Lemma file_raw_ok : raw_ok file_raw.
Proof.
  split; [split; [done|]| | |]; [|vm_compute; intuition discriminate..]. constructor; [done|]. by apply Forall_replicate.
Qed.

Lemma file_root_at : dir_at file_volume 2 file_root.
Proof.
  split; [exact file_volume_geometry|done|done|by exists 4294967295| |done|vm_compute; reflexivity].
  constructor; [exact file_raw_ok|]. apply Forall_replicate.
  split; [split; [done|by apply Forall_replicate]| | |]; vm_compute; intuition discriminate.
Qed.

Lemma file_chain : linked (file_allocation_table file_volume) [3; 4] ∧ Forall (in_volume file_volume) [3; 4].
Proof.
  split; [split; [done|]; split; [done|]; by exists 4294967295|]. repeat constructor; vm_compute; done.
Qed.

Lemma file_in_root : ∃ e : FatFileEntry checked_date, dir_lists file_root [e] ∧ raw e = [file_raw] ∧ file_size e = 700.
Proof.
  assert (Hc : match entry_from_raw (T := checked_date) file_raw with Ret e => file_size e =? 700 | Crash _ => false end = true)
    by (vm_compute; reflexivity).
  destruct (entry_from_raw file_raw) as [e|] eqn:E; [|done]. apply Z.eqb_eq in Hc.
  assert (Hr : readable file_raw e) by (split; [exact file_raw_ok|done]). destruct (readable_fields _ _ Hr) as [_ Er].
  exists e. split; [|done]. exists [file_raw], (replicate 15 raw_default). split; [done|]. split; [|by apply Forall_replicate].
  rewrite <- (app_nil_r [file_raw]). constructor; [|constructor]. split.
  - unfold disk_order. by rewrite Er.
  - by exists file_raw, [].
  - exists file_raw, [], e. split; [done|]. split; [done|]. by destruct e.
  - constructor; [|constructor]. unfold vacant, marked. vm_compute. by intros [E0|E0].
  - intros rest. change ((entry_view <$> [file_raw]) ++ rest) with (entry_view file_raw :: rest). by rewrite (list_file file_raw e).
Qed.

Definition sample_file (e : FatFileEntry checked_date) : FatFile checked_date := mkFile 3 700 e 2.

Lemma read_returns_content_witness :
  does (file_read (sample_file entry_default) 510 (zeros 100)) file_volume (λ r _, r = zeros 100).
Proof.
  destruct file_chain as [Hl Hv].
  pose proof (read_returns_content file_volume (sample_file entry_default) [4] 510 (zeros 100) file_volume_geometry Hl Hv) as Hr.
  eapply does_mono; [apply Hr; done|]. intros r fat' [_ ->]. vm_compute. reflexivity.
Defined.

Lemma write_then_read_witness :
  does ('(f', r) ← file_write (sample_file entry_default) 510 [1; 2; 3; 4]; b ← file_read f' 509 (zeros 6); mret (f', r, b)) file_volume
    (λ '(f', r, b) _, r = inl tt ∧ b = [0; 1; 2; 3; 4; 0]).
Proof.
  destruct file_chain as [Hl Hv].
  eapply does_mono; [apply (write_then_read file_volume (sample_file entry_default) [4] 510 [1; 2; 3; 4] 509 (zeros 6) file_volume_geometry Hl Hv);
    first [done | by repeat constructor | vm_compute; discriminate]|].
  intros [[f' r] b] fat' (_ & -> & -> & _). split; [done|]. vm_compute. reflexivity.
Defined.

Lemma grown_size_not_stored_witness : ∃ e : FatFileEntry checked_date, file_size e = 700 ∧
  does (file_write (sample_file e) 700 [1; 2; 3]) file_volume (λ r fat',
    h_file_size r.1 = 703 ∧ ∃ files', dir_at fat' 2 files' ∧ dir_lists files' [e]).
Proof.
  destruct file_in_root as (e & Hes & Er & Hsz). destruct file_chain as [Hl Hv]. exists e. split; [done|].
  eapply does_mono; [apply (grown_size_not_stored file_volume (sample_file e) [4] 700 [1; 2; 3] file_root [] [] file_raw file_volume_geometry Hl Hv)|].
  - by repeat constructor.
  - done.
  - done.
  - done.
  - done.
  - apply (bool_decide_eq_true_1 (2 ∉ [3; 4])). vm_compute. reflexivity.
  - exact file_root_at.
  - exact Hes.
  - unfold sfn. simpl. by rewrite Er.
  - vm_compute. reflexivity.
  - intros [f' r] fat' (_ & Hs & _ & files' & es1 & es2 & Hd & Hls & E). split; [done|]. exists files'. split; [exact Hd|].
    symmetry in E. apply app_nil in E as [-> ->]. exact Hls.
Defined.

Lemma renamed_file_listed_witness : ∃ e : FatFileEntry checked_date,
  does (file_rename sample_name (sample_file e)) file_volume (λ f' fat',
    name (h_file_entry f') = sample_name ∧ ∃ files', dir_at fat' 2 files' ∧ dir_lists files' [h_file_entry f']).
Proof.
  destruct file_in_root as (e & Hes & Er & Hsz). exists e.
  eapply does_mono; [apply (renamed_file_listed file_volume (sample_file e) file_root [] [] file_raw sample_name)|].
  - exact file_root_at.
  - exact Hes.
  - unfold sfn. simpl. by rewrite Er.
  - vm_compute. reflexivity.
  - repeat constructor.
  - done.
  - done.
  - left. exists 1%nat. intros k Hk. change (Z.to_nat (entries_of_name sample_name)) with 3%nat in Hk. exists raw_default.
    split; [|by left]. unfold file_root. destruct k as [|k]; [lia|]. apply lookup_replicate_2. lia.
  - intros f' fat' (_ & En & files' & es1 & es2 & E & Hd & Hls). split; [by rewrite En|]. exists files'. split; [exact Hd|].
    symmetry in E. apply app_nil in E as [-> ->]. exact Hls.
Defined.

Lemma deleted_file_gone_witness : ∃ e : FatFileEntry checked_date,
  does (file_delete (sample_file e)) file_volume (λ _ fat',
    (∃ files', dir_at fat' 2 files' ∧ dir_lists (T := checked_date) files' []) ∧ 4 ∈ free_clusters (file_allocation_table fat')).
Proof.
  destruct file_in_root as (e & Hes & Er & Hsz). exists e.
  eapply does_mono; [apply (deleted_file_gone file_volume (sample_file e) [4] [] file_root [] [] file_raw)|].
  - exact file_root_at.
  - exact Hes.
  - unfold sfn. simpl. by rewrite Er.
  - vm_compute. reflexivity.
  - destruct file_chain as [Hl _]. split.
    + constructor; [done|]. constructor; [|constructor]. split; [done|]. by exists 4294967295.
    + apply (bool_decide_eq_true_1 (NoDup [3; 4; 2])). vm_compute. reflexivity.
    + intros c Hc. change (c ∈ [3; 4; 2]) in Hc. rewrite !elem_of_cons, elem_of_nil in Hc. lia.
    + intros c. unfold look. destruct (Z.ltb_spec c 0); [done|]. intros Hc. destruct (decide (c = 0)) as [->|]; [done|].
      destruct (decide (c = 1)) as [->|]; [done|lia].
    + vm_compute. discriminate.
  - intros [] fat' (Hdir & _ & Hfree). split; [exact Hdir|]. apply Hfree. left. right. left.
Defined.

Lemma shrink_leaves_dangling_link_witness :
  returns (cut_chain [3; 4] 0 dir_table) (λ tbl', look tbl' 3 = Some 4 ∧ look tbl' 4 = Some FAT_FREE_SECTOR).
Proof.
  eapply returns_mono; [apply (shrink_leaves_dangling_link dir_table [] 3 4 [])|].
  - exact (proj1 file_chain).
  - done.
  - done.
  - done.
  - intros tbl' (? & ? & _). done.
Defined.
