(* ===== verification/Circular.v ===== *)
(** * Circular buffers

    Bytes read around the end of a buffer, shared by the TCP receive buffer and
    the VMBus rings. *)

From S2P Require Import Prelude.

(** The [n] ring bytes from index [i] on. *)
Definition ring (d : list Z) (cap i n : Z) : list Z :=
  (λ k, byte_at d ((i + k) mod cap)) <$> seqZ 0 n.

Lemma zlen_ring d cap i n : 0 ≤ n → zlen (ring d cap i n) = n.
Proof. intros. unfold ring, zlen. rewrite length_fmap, length_seqZ. lia. Qed.

Lemma byte_at_ring d cap i n k : 0 ≤ k < n → byte_at (ring d cap i n) k = byte_at d ((i + k) mod cap).
Proof.
  intros. unfold ring. unfold byte_at at 1. rewrite list_lookup_fmap, lookup_seqZ_lt by lia.
  simpl. do 3 f_equal; lia.
Qed.

Lemma mod_dist a b c : 0 < c → (a + b) mod c = (a mod c + b) mod c.
Proof. intros. rewrite Zplus_mod_idemp_l. reflexivity. Qed.

(** Distance of ring index [j] from [i]. *)
Lemma mod_between i j c : 0 ≤ i < c → 0 ≤ j < c →
  (j - i) mod c = if i <=? j then j - i else j - i + c.
Proof.
  intros. destruct (Z.leb_spec i j).
  - apply Z.mod_small; lia.
  - rewrite <- (Z_mod_plus_full _ 1). rewrite Z.mod_small; lia.
Qed.

(** The cells of [d'] are those of [d] with [src] written from [i] on, around
    the end. *)
Definition wrapped (cap i : Z) (src d d' : list Z) : Prop := ∀ j, 0 ≤ j < cap →
  byte_at d' j = if (j - i) mod cap <? zlen src then byte_at src ((j - i) mod cap) else byte_at d j.

(** What is written where the [n] bytes from [i] on end follows them. *)
Lemma ring_append cap i n src d d' : 0 < cap → 0 ≤ n → n + zlen src ≤ cap → wrapped cap ((i + n) mod cap) src d d' →
  ring d' cap i (n + zlen src) = ring d cap i n ++ src.
Proof.
  intros Hc Hn Hfit Hd. pose proof (zlen_nonneg src). apply byte_list_eq.
  - rewrite zlen_app, !zlen_ring; lia.
  - rewrite zlen_ring by lia. intros k Hk. rewrite byte_at_ring, byte_at_app by lia.
    pose proof (Z.mod_pos_bound (i + k) cap ltac:(lia)). rewrite Hd, zlen_ring by lia.
    assert (((i + k) mod cap - (i + n) mod cap) mod cap = (k - n) mod cap) as -> by (rewrite <- Zminus_mod; f_equal; lia).
    destruct (Z.ltb_spec k n).
    + rewrite byte_at_ring by lia.
      assert ((k - n) mod cap = k - n + cap) as -> by (rewrite <- (Z_mod_plus_full _ 1), Z.mod_small; lia).
      destruct (Z.ltb_spec (k - n + cap) (zlen src)); [lia|reflexivity].
    + rewrite Z.mod_small by lia. destruct (Z.ltb_spec (k - n) (zlen src)); [reflexivity|lia].
Qed.

Lemma ring_split cap i n m d : 0 < cap → 0 ≤ n → 0 ≤ m → ring d cap i (n + m) = ring d cap i n ++ ring d cap ((i + n) mod cap) m.
Proof.
  intros Hc Hn Hm. apply byte_list_eq; [rewrite zlen_app, !zlen_ring; lia|]. rewrite zlen_ring by lia. intros k Hk.
  rewrite byte_at_ring, byte_at_app, zlen_ring by lia. destruct (Z.ltb_spec k n); rewrite byte_at_ring by lia; [done|].
  rewrite <- mod_dist by lia. do 2 f_equal. lia.
Qed.

Lemma ring_flat cap i n d : 0 ≤ i → 0 ≤ n → i + n ≤ cap → cap ≤ zlen d → ring d cap i n = ztake n (zdrop i d).
Proof.
  intros Hi Hn Hc Hd. assert (Hz : zlen (zdrop i d) = zlen d - i) by (apply zlen_zdrop; lia).
  apply byte_list_eq; [rewrite zlen_ring, zlen_ztake; lia|]. rewrite zlen_ring by lia. intros k Hk.
  rewrite byte_at_ring, byte_at_ztake, byte_at_zdrop by lia. f_equal. apply Z.mod_small. lia.
Qed.
