(* ===== verification/ReceiveBuffer.v ===== *)
(** * The TCP receive buffer

    [kernel/src/driver/net/proto/tcp/receive_buffer.rs]: a ring that is at
    once the application's FIFO and the reassembly window of SACK.  The
    abstract state is a byte queue ([readable]) and, past its end, the window
    of bytes written out of order ([ahead]). *)

From S2P Require Import Prelude Circular.

Module RxRing.

Record TcpReceiveBuffer := mkRing {
  data : list Z;
  head : Z;
  tail : Z;
  size : Z;
  occupied : Z;
  capacity : Z
}.

#[global] Instance eta_ring : Eta TcpReceiveBuffer := λ r,
  mkRing (data r) (head r) (tail r) (size r) (occupied r) (capacity r).

Definition new (capacity : Z) : TcpReceiveBuffer :=
  {| data := zeros capacity; head := 0; tail := 0; size := 0; occupied := 0;
     capacity := capacity |}.

Definition free_space (b : TcpReceiveBuffer) : res Z :=
  sub_chk U64 (capacity b) (Z.max (occupied b) (size b)).

(** The two copies of a wrapped write of the first [n] bytes of [buf] at
    ring index [idx]. *)
Definition copy_in (b : TcpReceiveBuffer) (idx n : Z) (buf : list Z) : res (list Z) :=
  room ← sub_chk U64 (capacity b) idx;
  let first := Z.min n room in
  d ← copy_raw (data b) idx (ztake first buf);
  if first <? n then copy_raw d 0 (ztake (n - first) (zdrop first buf)) else Ret d.

Definition write (b : TcpReceiveBuffer) (buf : list Z) : res (Z * TcpReceiveBuffer) :=
  free ← free_space b;
  let to_write := Z.min (zlen buf) free in
  if to_write =? 0 then Ret (0, b) else
  d ← copy_in b (head b) to_write buf;
  h ← add_chk U64 (head b) to_write;
  h ← rem_chk h (capacity b);
  s ← add_chk U64 (size b) to_write;
  Ret (to_write, b <| data := d |> <| head := h |> <| size := s |>
                   <| occupied := Z.max (occupied b) s |>).

Definition write_at (b : TcpReceiveBuffer) (rcv_nxt seq : Z) (buf : list Z)
  : res (Z * TcpReceiveBuffer) :=
  if zlen buf =? 0 then Ret (0, b) else
  let off := sdiff seq rcv_nxt in
  if off <? 0 then Ret (0, b) else
  if capacity b <=? off then Ret (0, b) else
  max_len ← sub_chk U64 (capacity b) off;
  let n := Z.min (zlen buf) max_len in
  if n =? 0 then Ret (0, b) else
  idx ← add_chk U64 (head b) off;
  idx ← rem_chk idx (capacity b);
  d ← copy_in b idx n buf;
  end_off ← add_chk U64 off n;
  let occ := if occupied b <? end_off then end_off else occupied b in
  if seq =? rcv_nxt then
    let s := sat_add U64 (size b) n in
    h ← add_chk U64 (head b) n;
    h ← rem_chk h (capacity b);
    Ret (n, b <| data := d |> <| size := s |> <| head := h |> <| occupied := Z.max occ s |>)
  else Ret (n, b <| data := d |> <| occupied := occ |>).

Definition advance_contig (b : TcpReceiveBuffer) (n : Z) : res TcpReceiveBuffer :=
  let n := Z.min n (sat_sub (capacity b) (size b)) in
  if n =? 0 then Ret b else
  s ← add_chk U64 (size b) n;
  h ← add_chk U64 (head b) n;
  h ← rem_chk h (capacity b);
  Ret (b <| size := s |> <| head := h |> <| occupied := Z.max (occupied b) s |>).

(** [out_len] is the length of the caller's slice; the bytes written to it
    are returned. *)
Definition read (b : TcpReceiveBuffer) (out_len : Z) : res (list Z * TcpReceiveBuffer) :=
  let to_read := Z.min out_len (size b) in
  if to_read =? 0 then Ret ([], b) else
  room ← sub_chk U64 (capacity b) (tail b);
  let first := Z.min to_read room in
  let fst_part := ztake first (zdrop (tail b) (data b)) in
  let out := if first <? to_read then fst_part ++ ztake (to_read - first) (data b)
             else fst_part in
  t ← add_chk U64 (tail b) to_read;
  t ← rem_chk t (capacity b);
  s ← sub_chk U64 (size b) to_read;
  let occ := sat_sub (occupied b) to_read in
  Ret (out, b <| tail := t |> <| size := s |>
              <| occupied := if occ <? s then s else occ |>).

(** ** Abstract view *)

(** What the application can read. *)
Definition readable (b : TcpReceiveBuffer) : list Z :=
  ring (data b) (capacity b) (tail b) (size b).

(** The byte at distance [off] past RCV.NXT. *)
Definition ahead (b : TcpReceiveBuffer) (off : Z) : Z :=
  byte_at (data b) ((head b + off) mod capacity b).

Record wf (b : TcpReceiveBuffer) : Prop := {
  wf_cap : 0 < capacity b < 2 ^ 62;
  wf_data : zlen (data b) = capacity b;
  wf_tail : 0 ≤ tail b < capacity b;
  wf_size : 0 ≤ size b ≤ capacity b;
  wf_head : head b = (tail b + size b) mod capacity b;
  wf_occ : size b ≤ occupied b ≤ capacity b
}.

(** ** Ring arithmetic *)

Lemma wf_head_range b : wf b → 0 ≤ head b < capacity b.
Proof. intros []. rewrite wf_head0. apply Z.mod_pos_bound. lia. Qed.

(** The effect of the wrapped copy on one ring cell. *)
Lemma copy_in_spec b idx n buf :
  0 < capacity b < 2 ^ 62 → zlen (data b) = capacity b → 0 ≤ idx < capacity b →
  0 ≤ n ≤ zlen buf → n ≤ capacity b →
  returns (copy_in b idx n buf) (λ d,
    zlen d = capacity b ∧
    ∀ j, 0 ≤ j < capacity b →
      byte_at d j = if (j - idx) mod capacity b <? n
                    then byte_at buf ((j - idx) mod capacity b) else byte_at (data b) j).
Proof.
  intros Hc Hd Hi Hn Hnc. unfold copy_in.
  rewrite sub_chk_ret, ret_bind by lia. cbv zeta.
  set (first := Z.min n (capacity b - idx)).
  assert (Hf : zlen (ztake first buf) = first) by (apply zlen_ztake; lia).
  rewrite copy_raw_ret, ret_bind by lia.
  assert (Hs : zlen (splice (data b) idx (ztake first buf)) = capacity b)
    by (rewrite zlen_splice; lia).
  destruct (Z.ltb_spec first n) as [Hw|Hw].
  - assert (Hg : zlen (ztake (n - first) (zdrop first buf)) = n - first)
      by (apply zlen_ztake; rewrite zlen_zdrop; lia).
    rewrite copy_raw_ret by lia.
    eexists; split; [reflexivity|]. split; [rewrite zlen_splice; lia|].
    intros j Hj. rewrite mod_between by lia.
    rewrite byte_at_splice, Hg by lia.
    rewrite byte_at_splice, Hf by lia.
    destruct (Z.leb_spec 0 j); [|lia].
    destruct (Z.leb_spec idx j), (Z.ltb_spec j (0 + (n - first))); simpl; try lia.
    + destruct (Z.ltb_spec j (idx + first)); [|lia].
      destruct (Z.ltb_spec (j - idx) n); [|lia]. rewrite byte_at_ztake by lia. reflexivity.
    + destruct (Z.ltb_spec (j - idx + capacity b) n); [|lia].
      rewrite byte_at_ztake, byte_at_zdrop by lia. f_equal; lia.
    + destruct (Z.ltb_spec (j - idx + capacity b) n); [lia|]. reflexivity.
  - eexists; split; [reflexivity|]. split; [assumption|].
    intros j Hj. rewrite mod_between by lia.
    rewrite byte_at_splice, Hf by lia.
    destruct (Z.leb_spec idx j); simpl.
    + destruct (Z.ltb_spec j (idx + first)), (Z.ltb_spec (j - idx) n); try lia.
      rewrite byte_at_ztake by lia. reflexivity.
    + destruct (Z.ltb_spec (j - idx + capacity b) n); [lia|reflexivity].
Qed.

(** ** Functional behaviour of the operations *)

Lemma free_space_ret b : wf b → free_space b = Ret (capacity b - occupied b).
Proof. intros []. unfold free_space. rewrite Z.max_l, sub_chk_ret by lia. reflexivity. Qed.

(** An in-order write of the first [n] bytes of [buf] that fits appends them. *)
Lemma append_readable b d n buf :
  wf b → 0 ≤ n ≤ zlen buf → size b + n ≤ capacity b →
  (∀ j, 0 ≤ j < capacity b →
     byte_at d j = if (j - head b) mod capacity b <? n
                   then byte_at buf ((j - head b) mod capacity b) else byte_at (data b) j) →
  ring d (capacity b) (tail b) (size b + n) = readable b ++ ztake n buf.
Proof.
  intros [] Hn Hfit Hd. assert (Hs : zlen (ztake n buf) = n) by (apply zlen_ztake; lia).
  rewrite <- Hs at 1. apply ring_append; [lia..|]. rewrite <- wf_head0. intros j Hj. rewrite Hd, Hs by done.
  pose proof (Z.mod_pos_bound (j - head b) (capacity b) ltac:(lia)).
  destruct (Z.ltb_spec ((j - head b) mod capacity b) n); [|done]. by rewrite byte_at_ztake by lia.
Qed.

Lemma new_wf cap : 0 < cap < 2 ^ 62 → wf (new cap) ∧ readable (new cap) = [].
Proof.
  intros. split; [|reflexivity].
  constructor; simpl; try lia.
  - unfold zeros, zlen. rewrite length_replicate. lia.
  - rewrite Z.mod_small; lia.
Qed.

Lemma write_spec b buf :
  wf b →
  returns (write b buf) (λ '(n, b'),
    n = Z.min (zlen buf) (capacity b - occupied b) ∧ wf b' ∧
    capacity b' = capacity b ∧ tail b' = tail b ∧ size b' = size b + n ∧
    occupied b' = Z.max (occupied b) (size b + n) ∧
    readable b' = readable b ++ ztake n buf).
Proof.
  intros Hwf. pose proof (wf_head_range b Hwf) as Hh. pose proof (zlen_nonneg buf).
  unfold write. rewrite free_space_ret, ret_bind by assumption. cbv zeta.
  set (n := Z.min _ _). destruct Hwf as [] eqn:Ew. clear Ew.
  destruct (Z.eqb_spec n 0) as [Hn|Hn].
  - apply returns_ret. rewrite Hn, ztake_0, app_nil_r, Z.add_0_r.
    repeat split; try lia; assumption.
  - destruct (copy_in_spec b (head b) n buf) as (d & -> & Hl & Hd); try lia.
    run.
    apply returns_ret. split; [reflexivity|]. split.
    { constructor; rsimp; try lia.
      rewrite wf_head0, Zplus_mod_idemp_l. f_equal; lia. }
    repeat (split; [reflexivity|]).
    unfold readable. rsimp. apply append_readable; auto; try lia.
Qed.

Lemma zlen_readable b : wf b → zlen (readable b) = size b.
Proof. intros []. unfold readable. apply zlen_ring. lia. Qed.

Lemma read_spec b out_len :
  wf b → 0 ≤ out_len →
  returns (read b out_len) (λ '(out, b'),
    let n := Z.min out_len (size b) in
    out = ztake n (readable b) ∧ readable b' = zdrop n (readable b) ∧ wf b' ∧
    size b' = size b - n ∧ capacity b' = capacity b ∧
    occupied b' = Z.max (occupied b - n) (size b - n) ∧
    head b' = head b ∧ data b' = data b).
Proof.
  intros Hwf Hl. pose proof Hwf as []. unfold read. cbv zeta.
  set (n := Z.min _ _).
  destruct (Z.eqb_spec n 0) as [Hn|Hn].
  - apply returns_ret. rewrite Hn, ztake_0, zdrop_0. repeat split; lia || assumption.
  - run. apply returns_ret.
    set (first := Z.min n (capacity b - tail b)).
    split; [|split; [|split]].
    + assert (H1 : zlen (ztake first (zdrop (tail b) (data b))) = first)
        by (apply zlen_ztake; rewrite zlen_zdrop; lia).
      assert (Hr : zlen (ztake n (readable b)) = n)
        by (apply zlen_ztake; rewrite zlen_readable by assumption; lia).
      destruct (Z.ltb_spec first n).
      * assert (H2 : zlen (ztake (n - first) (data b)) = n - first)
          by (apply zlen_ztake; lia).
        apply byte_list_eq; [rewrite zlen_app; lia|].
        rewrite zlen_app, H1, H2. intros k Hk.
        rewrite byte_at_app, (byte_at_ztake (readable b)), H1 by lia.
        unfold readable. rewrite byte_at_ring by lia.
        destruct (Z.ltb_spec k first).
        -- rewrite byte_at_ztake, byte_at_zdrop, Z.mod_small by lia. reflexivity.
        -- rewrite byte_at_ztake by lia. f_equal.
           rewrite <- (Z_mod_plus_full _ (-1)), Z.mod_small; lia.
      * apply byte_list_eq; [lia|]. rewrite H1. intros k Hk.
        rewrite !byte_at_ztake, byte_at_zdrop by lia.
        unfold readable. rewrite byte_at_ring, Z.mod_small by lia. reflexivity.
    + apply byte_list_eq.
      * unfold readable. rsimp. rewrite zlen_zdrop; rewrite !zlen_ring; lia.
      * unfold readable. rsimp. rewrite zlen_ring by lia. intros k Hk.
        rewrite byte_at_ring, byte_at_zdrop, byte_at_ring by lia.
        f_equal. rewrite Zplus_mod_idemp_l. f_equal; lia.
    + constructor; rsimp; try lia.
      * apply Z.mod_pos_bound; lia.
      * rewrite wf_head0, Zplus_mod_idemp_l. f_equal; lia.
      * unfold sat_sub. destruct (Z.ltb_spec (Z.max (occupied b - n) 0) (size b - n)); lia.
    + rsimp. repeat split; try reflexivity.
      unfold sat_sub. destruct (Z.ltb_spec (Z.max (occupied b - n) 0) (size b - n)); lia.
Qed.

(** A segment ahead of the gap that fits in the room past the unread bytes
    leaves them alone and lands at its offset. *)
Lemma write_at_ooo b rcv_nxt off buf :
  wf b → u32 rcv_nxt → 0 < off < capacity b → off < I32 → buf ≠ [] →
  size b + off + zlen buf ≤ capacity b →
  returns (write_at b rcv_nxt (wadd rcv_nxt off) buf) (λ '(n, b'),
    n = zlen buf ∧ wf b' ∧ size b' = size b ∧ capacity b' = capacity b ∧
    readable b' = readable b ∧
    ∀ k, 0 ≤ k < capacity b - size b →
      ahead b' k = if (off <=? k) && (k <? off + n) then byte_at buf (k - off) else ahead b k).
Proof.
  intros Hwf Hu Hoff Hi Hne Hfit. pose proof (wf_head_range b Hwf) as Hh. pose proof Hwf as [].
  assert (Hlen : 0 < zlen buf).
  { pose proof (zlen_nonneg buf). assert (zlen buf ≠ 0) by (intros ?%zlen_zero_inv; auto). lia. }
  assert (Hs : sdiff (wadd rcv_nxt off) rcv_nxt = off).
  { rewrite <- (wadd_0 rcv_nxt) at 2 by assumption. rewrite sdiff_small; lia. }
  unfold write_at. rewrite Hs. cbv zeta.
  destruct (Z.eqb_spec (zlen buf) 0); [lia|]. destruct (Z.ltb_spec off 0); [lia|].
  destruct (Z.leb_spec (capacity b) off); [lia|]. run.
  rewrite Z.min_l by lia. destruct (Z.eqb_spec (zlen buf) 0); [lia|]. run.
  pose proof (Z.mod_pos_bound (head b + off) (capacity b) ltac:(lia)) as Hm.
  destruct (copy_in_spec b ((head b + off) mod capacity b) (zlen buf) buf)
    as (d & -> & Hl & Hd); try lia.
  run. destruct (Z.eqb_spec (wadd rcv_nxt off) rcv_nxt) as [He|He].
  { rewrite He, sdiff_self in Hs. lia. }
  apply returns_ret. split; [reflexivity|].
  (* distance of a ring index at offset [o] from the head to the copy *)
  assert (Hdist : ∀ o, ((head b + o) mod capacity b - (head b + off) mod capacity b)
                       mod capacity b = (o - off) mod capacity b).
  { intros. rewrite <- Zminus_mod. f_equal; lia. }
  assert (Hcell : ∀ o, - size b ≤ o < capacity b - size b →
    byte_at d ((head b + o) mod capacity b) =
    if (off <=? o) && (o <? off + zlen buf) then byte_at buf (o - off)
    else byte_at (data b) ((head b + o) mod capacity b)).
  { intros o Ho. rewrite Hd, Hdist by (apply Z.mod_pos_bound; lia).
    destruct (Z.leb_spec off o); simpl.
    - rewrite Z.mod_small by lia.
      destruct (Z.ltb_spec (o - off) (zlen buf)), (Z.ltb_spec o (off + zlen buf)); reflexivity || lia.
    - assert ((o - off) mod capacity b = o - off + capacity b) as ->.
      { rewrite <- (Z_mod_plus_full _ 1), Z.mod_small; lia. }
      destruct (Z.ltb_spec (o - off + capacity b) (zlen buf)); [lia|reflexivity]. }
  split; [|split; [reflexivity|split; [reflexivity|split]]].
  - constructor; rsimp; try lia.
    destruct (Z.ltb_spec (occupied b) (off + zlen buf)); lia.
  - apply byte_list_eq; unfold readable; rsimp; [rewrite !zlen_ring; lia|].
    rewrite zlen_ring by lia. intros k Hk. rewrite !byte_at_ring by lia.
    assert (Hk' : (tail b + k) mod capacity b = (head b + (k - size b)) mod capacity b).
    { rewrite wf_head0, Zplus_mod_idemp_l. f_equal; lia. }
    rewrite Hk', Hcell by lia. destruct (Z.leb_spec off (k - size b)); [lia|reflexivity].
  - intros k Hk. unfold ahead. rsimp. apply Hcell. lia.
Qed.

(** The segment that closes the gap: an append that keeps what lies ahead. *)
Lemma write_at_contig b rcv_nxt buf :
  wf b → u32 rcv_nxt → buf ≠ [] → size b + zlen buf ≤ capacity b →
  returns (write_at b rcv_nxt rcv_nxt buf) (λ '(n, b'),
    n = zlen buf ∧ wf b' ∧ size b' = size b + n ∧ capacity b' = capacity b ∧
    readable b' = readable b ++ buf ∧
    ∀ k, 0 ≤ k < capacity b - size b - n → ahead b' k = ahead b (n + k)).
Proof.
  intros Hwf Hu Hne Hfit. pose proof (wf_head_range b Hwf) as Hh. pose proof Hwf as [].
  assert (Hlen : 0 < zlen buf).
  { pose proof (zlen_nonneg buf). assert (zlen buf ≠ 0) by (intros ?%zlen_zero_inv; auto). lia. }
  unfold write_at. rewrite sdiff_self. cbv zeta.
  destruct (Z.eqb_spec (zlen buf) 0); [lia|]. destruct (Z.ltb_spec 0 0); [lia|].
  destruct (Z.leb_spec (capacity b) 0); [lia|]. run.
  rewrite Z.min_l by lia. destruct (Z.eqb_spec (zlen buf) 0); [lia|]. run.
  rewrite Z.add_0_r, (Z.mod_small (head b)) by lia.
  destruct (copy_in_spec b (head b) (zlen buf) buf) as (d & -> & Hl & Hd); try lia.
  run. rewrite Z.eqb_refl. run. apply returns_ret.
  assert (Hsz : sat_add U64 (size b) (zlen buf) = size b + zlen buf) by (unfold sat_add; lia).
  rewrite Hsz. split; [reflexivity|]. split; [|split; [reflexivity|split; [reflexivity|split]]].
  - constructor; rsimp; try lia.
    + rewrite wf_head0, Zplus_mod_idemp_l. f_equal; lia.
    + destruct (Z.ltb_spec (occupied b) (0 + zlen buf)); lia.
  - unfold readable at 1. rsimp.
    rewrite (append_readable b d (zlen buf) buf), ztake_all by (auto; lia). reflexivity.
  - intros k Hk. unfold ahead. rsimp. rewrite Zplus_mod_idemp_l.
    replace (head b + zlen buf + k) with (head b + (zlen buf + k)) by lia.
    rewrite Hd by (apply Z.mod_pos_bound; lia).
    rewrite Zminus_mod_idemp_l, Z.add_simpl_l, Z.mod_small by lia.
    destruct (Z.ltb_spec (zlen buf + k) (zlen buf)); [lia|reflexivity].
Qed.

(** Sliding the readable prefix over bytes that are already in the ring. *)
Lemma advance_contig_spec b n :
  wf b → 0 ≤ n ≤ capacity b - size b →
  returns (advance_contig b n) (λ b',
    wf b' ∧ size b' = size b + n ∧ capacity b' = capacity b ∧
    readable b' = readable b ++ (ahead b <$> seqZ 0 n) ∧
    ∀ k, ahead b' k = ahead b (n + k)).
Proof.
  intros Hwf Hn. pose proof (wf_head_range b Hwf) as Hh. pose proof Hwf as [].
  unfold advance_contig, sat_sub. cbv zeta. rewrite Z.min_l by lia.
  destruct (Z.eqb_spec n 0) as [->|Hn0].
  - apply returns_ret. rewrite app_nil_r, Z.add_0_r. auto.
  - run. apply returns_ret. split; [|split; [reflexivity|split; [reflexivity|split]]].
    + constructor; rsimp; try lia. rewrite wf_head0, Zplus_mod_idemp_l. f_equal; lia.
    + assert (Hs : zlen (ahead b <$> seqZ 0 n) = n)
        by (unfold zlen; rewrite length_fmap, length_seqZ; lia).
      unfold readable. rsimp. apply byte_list_eq.
      { rewrite zlen_app, !zlen_ring; lia. }
      rewrite zlen_ring by lia. intros k Hk.
      rewrite byte_at_ring, byte_at_app, zlen_ring by lia.
      destruct (Z.ltb_spec k (size b)); [rewrite byte_at_ring by lia; reflexivity|].
      unfold byte_at at 2. rewrite list_lookup_fmap, lookup_seqZ_lt by lia.
      simpl. unfold ahead. f_equal. rewrite wf_head0, Zplus_mod_idemp_l. f_equal; lia.
    + intros k. unfold ahead. rsimp. f_equal. rewrite Zplus_mod_idemp_l. f_equal; lia.
Qed.

(** ** The ring as a bounded queue *)

Inductive op := Write (buf : list Z) | Read (out_len : Z).
Inductive outcome := Wrote (n : Z) | Got (bs : list Z).

Definition op_ok (o : op) : Prop := match o with Write _ => True | Read n => 0 ≤ n end.

Definition ring_op (o : op) (b : TcpReceiveBuffer) : res (outcome * TcpReceiveBuffer) :=
  match o with
  | Write buf => '(n, b) ← write b buf; Ret (Wrote n, b)
  | Read n => '(bs, b) ← read b n; Ret (Got bs, b)
  end.

Fixpoint ring_ops (os : list op) (b : TcpReceiveBuffer) : res (list outcome * TcpReceiveBuffer) :=
  match os with
  | [] => Ret ([], b)
  | o :: os => '(r, b) ← ring_op o b; '(rs, b) ← ring_ops os b; Ret (r :: rs, b)
  end.

(** The specification: a list of at most [cap] bytes. *)
Definition queue_op (cap : Z) (o : op) (q : list Z) : outcome * list Z :=
  match o with
  | Write buf => let n := Z.min (zlen buf) (cap - zlen q) in (Wrote n, q ++ ztake n buf)
  | Read n => let k := Z.min n (zlen q) in (Got (ztake k q), zdrop k q)
  end.

Fixpoint queue_ops (cap : Z) (os : list op) (q : list Z) : list outcome * list Z :=
  match os with
  | [] => ([], q)
  | o :: os => let '(r, q) := queue_op cap o q in
               let '(rs, q) := queue_ops cap os q in (r :: rs, q)
  end.

(** A ring without out-of-order bytes that holds the queue [q]. *)
Definition queue_ring (cap : Z) (q : list Z) (b : TcpReceiveBuffer) : Prop :=
  wf b ∧ capacity b = cap ∧ occupied b = size b ∧ readable b = q.

Lemma ring_op_refines cap o q b :
  queue_ring cap q b → op_ok o →
  returns (ring_op o b) (λ '(r, b'), r = (queue_op cap o q).1 ∧
                                     queue_ring cap (queue_op cap o q).2 b').
Proof.
  intros (Hw & <- & Ho & <-) Hok. pose proof (zlen_readable b Hw) as Hz.
  destruct o as [buf|n]; unfold ring_op, queue_op; rewrite Hz.
  - destruct (write_spec b buf Hw) as ([k b'] & -> & -> & Hw' & Hc & _ & Hs & Hoc & Hr).
    rewrite ret_bind. apply returns_ret. rewrite Ho in *. split; [reflexivity|].
    split; [assumption|]. split; [assumption|]. split; [|assumption].
    pose proof (zlen_nonneg buf). destruct Hw. lia.
  - destruct (read_spec b n Hw Hok) as ([bs b'] & -> & Hb & Hr & Hw' & Hs & Hc & Hoc & _).
    rewrite ret_bind. apply returns_ret. split; [by rewrite Hb|].
    split; [assumption|]. split; [assumption|]. split; [lia|assumption].
Qed.

Lemma ring_ops_refines cap os q b :
  queue_ring cap q b → Forall op_ok os →
  returns (ring_ops os b) (λ '(rs, b'), rs = (queue_ops cap os q).1 ∧
                                        queue_ring cap (queue_ops cap os q).2 b').
Proof.
  intros Hq Hos. revert q b Hq. induction Hos as [|o os Ho Hos IH]; intros q b Hq; simpl.
  - by apply returns_ret.
  - destruct (ring_op_refines cap o q b Hq Ho) as ([r b'] & -> & -> & Hq').
    rewrite ret_bind. destruct (queue_op cap o q) as [r q']. simpl in Hq'.
    destruct (IH q' b' Hq') as ([rs b2] & -> & -> & Hq2). rewrite ret_bind.
    apply returns_ret. destruct (queue_ops cap os q'). auto.
Qed.

(** C6: Refinement of a bounded FIFO.  From a fresh buffer, every sequence of
    [write] and [read] returns exactly what a queue of at most [cap] bytes
    returns, leaves the same bytes readable, and never panics or copies out
    of bounds. *)
Theorem ring_refines_queue cap os :
  0 < cap < 2 ^ 62 → Forall op_ok os →
  returns (ring_ops os (new cap)) (λ '(rs, b'),
    rs = (queue_ops cap os []).1 ∧ readable b' = (queue_ops cap os []).2).
Proof.
  intros Hc Hos. destruct (new_wf cap Hc) as [Hw Hr].
  destruct (ring_ops_refines cap os [] (new cap)) as ([rs b] & -> & Hrs & Hq); [|assumption|].
  - split; [assumption|auto].
  - apply returns_ret. split; [assumption|apply Hq].
Qed.

Lemma ring_refines_queue_witness :
  returns (ring_ops [Write [1; 2; 3]; Read 2; Write [4; 5; 6; 7]; Read 9] (new 4)) (λ '(rs, b'),
    rs = [Wrote 3; Got [1; 2]; Wrote 3; Got [3; 4; 5; 6]] ∧ readable b' = []).
Proof.
  apply (ring_refines_queue 4 [Write [1; 2; 3]; Read 2; Write [4; 5; 6; 7]; Read 9]);
    [lia|repeat constructor; simpl; lia].
Defined.

(** ** Writes past the free room *)

(** An out-of-order write is bounded by the capacity instead of the room
    past the unread bytes: one that reaches round the ring replaces the
    first unread byte with a byte of the segment. *)
Theorem write_at_overwrites_unread b rcv_nxt off buf :
  wf b → u32 rcv_nxt → 0 < off → off < I32 → 0 < size b →
  capacity b < size b + off + zlen buf → off + zlen buf ≤ capacity b →
  size b + off ≤ capacity b →
  returns (write_at b rcv_nxt (wadd rcv_nxt off) buf) (λ '(n, b'),
    n = zlen buf ∧ size b' = size b ∧
    byte_at (readable b') 0 = byte_at buf (capacity b - size b - off)).
Proof.
  intros Hwf Hu Hoff Hi Hs Hover Hcap Hroom.
  pose proof (wf_head_range b Hwf) as Hh. pose proof Hwf as [].
  assert (Hd : sdiff (wadd rcv_nxt off) rcv_nxt = off).
  { rewrite <- (wadd_0 rcv_nxt) at 2 by assumption. rewrite sdiff_small; lia. }
  assert (Hlen : 0 < zlen buf) by lia.
  unfold write_at. rewrite Hd. cbv zeta.
  destruct (Z.eqb_spec (zlen buf) 0); [lia|]. destruct (Z.ltb_spec off 0); [lia|].
  destruct (Z.leb_spec (capacity b) off); [lia|]. run.
  rewrite Z.min_l by lia. destruct (Z.eqb_spec (zlen buf) 0); [lia|]. run.
  pose proof (Z.mod_pos_bound (head b + off) (capacity b) ltac:(lia)) as Hm.
  destruct (copy_in_spec b ((head b + off) mod capacity b) (zlen buf) buf)
    as (d & -> & Hl & Hcell); try lia.
  run. destruct (Z.eqb_spec (wadd rcv_nxt off) rcv_nxt) as [He|He].
  { rewrite He, sdiff_self in Hd. lia. }
  apply returns_ret. rsimp. split; [reflexivity|]. split; [reflexivity|].
  unfold readable. rsimp. rewrite byte_at_ring, Z.add_0_r by lia.
  rewrite Hcell by (apply Z.mod_pos_bound; lia).
  assert (Hdist : (tail b mod capacity b - (head b + off) mod capacity b) mod capacity b
                  = capacity b - size b - off).
  { rewrite <- Zminus_mod, wf_head0. rewrite <- Zminus_mod_idemp_r, Zplus_mod_idemp_l, Zminus_mod_idemp_r.
    replace (tail b - (tail b + size b + off)) with (- (size b + off)) by lia.
    destruct (Z.eq_dec (size b + off) (capacity b)) as [Heq|Hne].
    - rewrite Heq, Z.mod_opp_l_z; [lia|lia|apply Z.mod_same; lia].
    - rewrite <- (Z_mod_plus_full _ 1), Z.mod_small; lia. }
  rewrite Hdist. destruct (Z.ltb_spec (capacity b - size b - off) (zlen buf)); [reflexivity|lia].
Qed.

(** A ring of eight bytes with six unread; the segment starts one byte past
    RCV.NXT, inside the two bytes of room. *)
Definition sample_ring : TcpReceiveBuffer :=
  match write (new 8) [1; 2; 3; 4; 5; 6] with Ret (_, b) => b | Crash _ => new 8 end.

Lemma write_at_overwrites_unread_witness :
  returns (write_at sample_ring 1000 1001 [91; 92; 93]) (λ '(n, b'),
    n = 3 ∧ size b' = 6 ∧ byte_at (readable b') 0 = 92).
Proof.
  apply (write_at_overwrites_unread sample_ring 1000 1 [91; 92; 93]);
    [constructor; vm_compute; intuition congruence|unfold u32; lia|lia|lia|
     vm_compute; reflexivity|vm_compute; reflexivity|vm_compute; discriminate|vm_compute; discriminate].
Defined.

End RxRing.
