(* ===== verification/TcpTypes.v ===== *)
(** * The TCP control block

    The data of [kernel/src/driver/net/proto/tcp/]: the header of
    [types.rs], the state records of [sack.rs], [timestamp.rs], [eifel.rs],
    [frto.rs], [ecn.rs], [cwv.rs], [abc.rs], [pacing.rs] and [cc/], and the
    control block that groups them, with the operations of [types.rs]. *)

From S2P Require Import Prelude Time ReceiveBuffer.

(** ** Addresses and sockets ([kernel/src/driver/net/mod.rs]) *)

Definition Ipv4Addr : Type := Z * Z * Z * Z.

Definition octets (ip : Ipv4Addr) : list Z := let '(a, b, c, d) := ip in [a; b; c; d].

Module Sock.
Record Socket := mkSocket {
  remote_port : Z;
  local_port : Z;
  remote_address : Ipv4Addr;
  local_address : Ipv4Addr;
  nic : Z
}.

#[global] Instance eta_Socket : Eta Socket := λ r,
  mkSocket (remote_port r) (local_port r) (remote_address r) (local_address r) (nic r).

Definition new (local_address : Ipv4Addr) (local_port : Z) (remote_address : Ipv4Addr)
    (remote_port nic : Z) : Socket :=
  {| remote_port := remote_port; local_port := local_port;
     remote_address := remote_address; local_address := local_address; nic := nic |}.
End Sock.

Module Tuple.
Record ConnectionTuple := mkTuple {
  local_ip : Ipv4Addr;
  local_port : Z;
  remote_ip : Ipv4Addr;
  remote_port : Z
}.

#[global] Instance tuple_eq_dec : EqDecision ConnectionTuple.
Proof. solve_decision. Defined.

#[global] Instance tuple_countable : Countable ConnectionTuple.
Proof.
  refine (inj_countable'
    (λ t, (local_ip t, local_port t, remote_ip t, remote_port t))
    (λ '(a, b, c, d), mkTuple a b c d) _).
  intros []; reflexivity.
Defined.

Definition from_socket (s : Sock.Socket) : ConnectionTuple :=
  {| local_ip := Sock.local_address s; local_port := Sock.local_port s;
     remote_ip := Sock.remote_address s; remote_port := Sock.remote_port s |}.
End Tuple.

(** ** Wake-ups ([kernel/src/subsystem/scheduler.rs])

    [running] records the threads that a notification made runnable. *)

Record Event := mkEvent {
  waiting_threads : list Z;
  running : list Z
}.

#[global] Instance eta_Event : Eta Event := λ r,
  mkEvent (waiting_threads r) (running r).

Definition event_new : Event := mkEvent [] [].
Definition event_notify (e : Event) : Event :=
  e <| running := running e ++ waiting_threads e |> <| waiting_threads := [] |>.
Definition event_clear_pending (e : Event) : Event := e <| waiting_threads := [] |>.

Record OneshotGate := mkGate {
  gate_flag : bool;
  gate_event : Event
}.

#[global] Instance eta_OneshotGate : Eta OneshotGate := λ r,
  mkGate (gate_flag r) (gate_event r).

Definition gate_new : OneshotGate := mkGate false event_new.
Definition gate_open (g : OneshotGate) : OneshotGate :=
  g <| gate_flag := true |> <| gate_event := event_notify (gate_event g) |>.
Definition gate_reset (g : OneshotGate) : OneshotGate := g <| gate_flag := false |>.

(** ** Constants and enumerations *)

Definition MSS : Z := 1460.
Definition DEFAULT_MSS : Z := 1460.
Definition DEFAULT_RCV_WSCALE : Z := 7.
Definition INITIAL_CWND : Z := 1512.
Definition INITIAL_SSTHRESH : Z := 2147483647.
Definition DEFAULT_TCP_RECV_BUFFER_BYTES : Z := 4096.
Definition MAX_TCP_RECV_BUFFER_BYTES : Z := 262144.
Definition TCP_TS_OPTION_OVERHEAD : Z := 12.

Inductive TcpState :=
| Closed | Listen | SynSent | SynReceived | Established | FinWait1 | FinWait2
| CloseWait | Closing | LastAck | TimeWait.

#[global] Instance tcp_state_eq_dec : EqDecision TcpState.
Proof. solve_decision. Defined.

Inductive TcpError := ConnectionRefused | Timeout | NoRoute | ConnectionReset | NotConnected.

#[global] Instance tcp_error_eq_dec : EqDecision TcpError.
Proof. solve_decision. Defined.

Definition clamp_tcp_receive_buffer_bytes (requested : Z) : Z :=
  let cap := if 0 <? requested then requested else DEFAULT_TCP_RECV_BUFFER_BYTES in
  if MAX_TCP_RECV_BUFFER_BYTES <? cap then MAX_TCP_RECV_BUFFER_BYTES
  else Z.max cap DEFAULT_TCP_RECV_BUFFER_BYTES.

Definition FIN : Z := 1.
Definition SYN : Z := 2.
Definition RST : Z := 4.
Definition PSH : Z := 8.
Definition ACK : Z := 16.
Definition URG : Z := 32.
Definition ECE : Z := 64.
Definition CWR : Z := 128.

(** [!mask] at 8 bits. *)
Definition not8 (m : Z) : Z := 255 - m.

Definition has_flag (flags mask : Z) : bool := negb (Z.land flags mask =? 0).

(** ** Unacknowledged segments *)

Module Seg.
Record UnackedSegment := mkSeg {
  seq : Z;
  data : list Z;
  flags : Z;
  send_time : Instant;
  retries : Z;
  retransmit_tsval : option Z;
  sacked : bool;
  lost : bool;
  xmit_mstamp : Instant;
  retrans : bool
}.

#[global] Instance eta_UnackedSegment : Eta UnackedSegment := λ r,
  mkSeg (seq r) (data r) (flags r) (send_time r) (retries r) (retransmit_tsval r) (sacked r)
    (lost r) (xmit_mstamp r) (retrans r).

Definition is_syn (s : UnackedSegment) : bool := has_flag (flags s) SYN.
Definition is_fin (s : UnackedSegment) : bool := has_flag (flags s) FIN.

Definition end_seq (s : UnackedSegment) : Z :=
  wadd (seq s) (if is_syn s || is_fin s then 1 else zlen (data s) mod U32).

(** A segment as it enters the retransmission queue. *)
Definition fresh (seq : Z) (data : list Z) (flags : Z) (send_time xmit : Instant)
  : UnackedSegment :=
  {| seq := seq; data := data; flags := flags; send_time := send_time; retries := 0;
     retransmit_tsval := None; sacked := false; lost := false; xmit_mstamp := xmit;
     retrans := false |}.
End Seg.

(** ** Congestion control state ([cc/]) *)

Module Reno.
Record RenoState := mkReno {
  recover : Z
}.

#[global] Instance eta_RenoState : Eta RenoState := λ r,
  mkReno (recover r).
End Reno.

Module Cubic.
Record CubicState := mkCubic {
  w_max : Z;
  epoch_start : Instant;
  k_ns : Z;
  beta : Z;
  c : Z;
  last_max_cwnd : Z;
  recover : Z
}.

#[global] Instance eta_CubicState : Eta CubicState := λ r,
  mkCubic (w_max r) (epoch_start r) (k_ns r) (beta r) (c r) (last_max_cwnd r) (recover r).
End Cubic.

Inductive CongestionControl :=
| CcReno (r : Reno.RenoState)
| CcCubic (c : Cubic.CubicState).

(** ** Reliability sub-states *)

Module Ts.
Record RttProbe := mkProbe {
  seq : Z;
  end_ : Z;
  sent_at : Instant
}.

#[global] Instance eta_RttProbe : Eta RttProbe := λ r,
  mkProbe (seq r) (end_ r) (sent_at r).

Record RttMeasurementState := mkRtt {
  probe : option RttProbe;
  last_probe_sample : option Duration;
  last_ts_sample : option Duration
}.

#[global] Instance eta_RttMeasurementState : Eta RttMeasurementState := λ r,
  mkRtt (probe r) (last_probe_sample r) (last_ts_sample r).

Definition rtt_new : RttMeasurementState := mkRtt None None None.

Record TcpTimestampState := mkTs {
  enabled : bool;
  ts_recent : Z;
  last_ack_ts_seq : Z;
  recent_age : Instant;
  last_tx_tsval : Z;
  offset : Z
}.

#[global] Instance eta_TcpTimestampState : Eta TcpTimestampState := λ r,
  mkTs (enabled r) (ts_recent r) (last_ack_ts_seq r) (recent_age r) (last_tx_tsval r)
    (offset r).

(** [rdrand] is the outcome of the hardware generator. *)
Definition ts_new (rdrand : option Z) (now : Instant) : TcpTimestampState :=
  {| enabled := false; ts_recent := 0; last_ack_ts_seq := 0; recent_age := now;
     last_tx_tsval := 0; offset := default 2779077210 rdrand |}.
End Ts.

Module Eifel.
Record EifelState := mkEifel {
  pipe_prev : option Z;
  retransmit_ts : option Z;
  snd_max : option Z;
  bytes_acked : Z;
  spurious_count : Z
}.

#[global] Instance eta_EifelState : Eta EifelState := λ r,
  mkEifel (pipe_prev r) (retransmit_ts r) (snd_max r) (bytes_acked r) (spurious_count r).

Definition eifel_new : EifelState := mkEifel None None None 0 0.

Inductive RetransmitCause := Rto | FastRetransmit | PartialAck.

#[global] Instance cause_eq_dec : EqDecision RetransmitCause.
Proof. solve_decision. Defined.
End Eifel.

Module Frto.
Inductive FrtoPhase := Idle | Step1 | Step2.

#[global] Instance phase_eq_dec : EqDecision FrtoPhase.
Proof. solve_decision. Defined.

Record FrtoState := mkFrto {
  phase : FrtoPhase;
  recover_nxt : Z;
  rto_retrans_end : Z;
  prev_cwnd : Z;
  prev_ssthresh : Z;
  spurious_count : Z;
  declared_loss_count : Z
}.

#[global] Instance eta_FrtoState : Eta FrtoState := λ r,
  mkFrto (phase r) (recover_nxt r) (rto_retrans_end r) (prev_cwnd r) (prev_ssthresh r)
    (spurious_count r) (declared_loss_count r).

Definition frto_new : FrtoState := mkFrto Idle 0 0 0 0 0 0.
Definition frto_clear (s : FrtoState) : FrtoState := s <| phase := Idle |>.
End Frto.

Module Ecn.
Record TcpEcnState := mkEcn {
  enabled : bool;
  echo_pending : bool;
  cwr_pending : bool;
  ce_seen : Z;
  ece_tx : Z;
  ece_rx : Z;
  ecn_md : Z;
  cwr_tx : Z
}.

#[global] Instance eta_TcpEcnState : Eta TcpEcnState := λ r,
  mkEcn (enabled r) (echo_pending r) (cwr_pending r) (ce_seen r) (ece_tx r) (ece_rx r)
    (ecn_md r) (cwr_tx r).

Definition ecn_new : TcpEcnState := mkEcn false false false 0 0 0 0 0.
End Ecn.

Module Cwv.
Record NewCwvState := mkCwv {
  enabled : bool;
  validated : bool;
  pipe_max : Z;
  last_data_tx : Instant;
  app_limited_since : option Instant;
  cwnd_raw : Z;
  no_increase : Z;
  idle_reduce : Z;
  applim_reduce : Z
}.

#[global] Instance eta_NewCwvState : Eta NewCwvState := λ r,
  mkCwv (enabled r) (validated r) (pipe_max r) (last_data_tx r) (app_limited_since r)
    (cwnd_raw r) (no_increase r) (idle_reduce r) (applim_reduce r).

Definition cwv_new (enabled : bool) (initial_cwnd : Z) (now : Instant) : NewCwvState :=
  mkCwv enabled true 0 now None initial_cwnd 0 0 0.

Inductive CwvReduceReason := Idle | AppLimited.
End Cwv.

Module Abc.
Record AbcState := mkAbc {
  l_smss : Z;
  ca_accum : Z;
  ca_accum_raw : Z;
  bytes_credited : Z;
  ss_capped : Z;
  ca_increments : Z
}.

#[global] Instance eta_AbcState : Eta AbcState := λ r,
  mkAbc (l_smss r) (ca_accum r) (ca_accum_raw r) (bytes_credited r) (ss_capped r)
    (ca_increments r).

Definition abc_new : AbcState := mkAbc 2 0 0 0 0 0.
Definition clear_accumulators (a : AbcState) : AbcState :=
  a <| ca_accum := 0 |> <| ca_accum_raw := 0 |>.
End Abc.

Module Pacing.
Record PacingState := mkPacing {
  enabled : bool;
  next_tx : option Instant;
  rate_bps : Z;
  last_gap : Duration;
  held_count : Z;
  paced_count : Z
}.

#[global] Instance eta_PacingState : Eta PacingState := λ r,
  mkPacing (enabled r) (next_tx r) (rate_bps r) (last_gap r) (held_count r) (paced_count r).

Definition pacing_new (enabled : bool) : PacingState := mkPacing enabled None 0 0 0 0.
Definition clear_deadline (p : PacingState) : PacingState := p <| next_tx := None |>.
End Pacing.

Module Sack.
Record SackBlock := mkBlock {
  left : Z;
  right : Z
}.

#[global] Instance eta_SackBlock : Eta SackBlock := λ r,
  mkBlock (left r) (right r).

#[global] Instance block_eq_dec : EqDecision SackBlock.
Proof. solve_decision. Defined.

Definition block_default : SackBlock := mkBlock 0 0.
Definition block_len (b : SackBlock) : Z := wsub (right b) (left b).
Definition covers (b : SackBlock) (seq end_ : Z) : bool :=
  (0 <=? sdiff seq (left b)) && (0 <=? sdiff (right b) end_).

Definition SACK_RX_RANGES_MAX : Z := 8.
Definition DUP_THRESH : Z := 3.

Record SackRackState := mkSack {
  enabled : bool;
  rx_ranges : list SackBlock;
  rx_range_len : Z;
  rx_recent : option SackBlock;
  high_sacked : Z;
  undo_cwnd : Z;
  undo_ssthresh : Z;
  undo_pending : bool;
  rack_min_rtt : Duration;
  rack_xmit_ts : Instant;
  rack_reorder_window : Duration;
  rack_reorder_window_persist : Z;
  tlp_deadline : option Instant;
  tlp_high_rxt : Z;
  tlp_is_retrans : bool;
  blocks_rx : Z;
  blocks_tx : Z;
  islost_marks : Z;
  rack_marks : Z;
  tlp_probes : Z;
  dsack_undo : Z;
  dsack_seen : Z;
  rexmit_holes : Z
}.

#[global] Instance eta_SackRackState : Eta SackRackState := λ r,
  mkSack (enabled r) (rx_ranges r) (rx_range_len r) (rx_recent r) (high_sacked r)
    (undo_cwnd r) (undo_ssthresh r) (undo_pending r) (rack_min_rtt r) (rack_xmit_ts r)
    (rack_reorder_window r) (rack_reorder_window_persist r) (tlp_deadline r)
    (tlp_high_rxt r) (tlp_is_retrans r) (blocks_rx r) (blocks_tx r) (islost_marks r)
    (rack_marks r) (tlp_probes r) (dsack_undo r) (dsack_seen r) (rexmit_holes r).

Definition sack_new (now : Instant) : SackRackState :=
  {| enabled := false; rx_ranges := replicate 8 block_default; rx_range_len := 0;
     rx_recent := None; high_sacked := 0; undo_cwnd := 0; undo_ssthresh := 0;
     undo_pending := false; rack_min_rtt := secs 60; rack_xmit_ts := now;
     rack_reorder_window := 0; rack_reorder_window_persist := 0; tlp_deadline := None;
     tlp_high_rxt := 0; tlp_is_retrans := false; blocks_rx := 0; blocks_tx := 0;
     islost_marks := 0; rack_marks := 0; tlp_probes := 0; dsack_undo := 0;
     dsack_seen := 0; rexmit_holes := 0 |}.
End Sack.

(** ** Session settings *)

Module Settings.
Record TcpSessionSettings := mkSettings {
  nagle_enabled : bool;
  recv_buf_size : Z;
  rcv_wscale : Z;
  cwv_enabled : bool;
  pacing_enabled : bool;
  wnd_scale_enabled : bool;
  sack_enabled : bool;
  timestamps_enabled : bool;
  ecn_enabled : bool;
  receive_buffer_size : Z
}.

#[global] Instance eta_TcpSessionSettings : Eta TcpSessionSettings := λ r,
  mkSettings (nagle_enabled r) (recv_buf_size r) (rcv_wscale r) (cwv_enabled r)
    (pacing_enabled r) (wnd_scale_enabled r) (sack_enabled r) (timestamps_enabled r)
    (ecn_enabled r) (receive_buffer_size r).

Definition settings_default : TcpSessionSettings :=
  mkSettings true 4096 DEFAULT_RCV_WSCALE true true true true true true 4096.
End Settings.

(** ** The control block *)

Record TcpControlBlock := mkTcb {
  snd_una : Z;
  snd_nxt : Z;
  snd_wnd : Z;
  snd_wl1 : Z;
  snd_wl2 : Z;
  iss : Z;
  rcv_nxt : Z;
  rcv_wnd : Z;
  irs : Z;
  state : TcpState;
  tuple : Tuple.ConnectionTuple;
  socket : Sock.Socket;
  receive_buffer : RxRing.TcpReceiveBuffer;
  send_buffer : list Z;
  event : Event;
  handshake_gate : OneshotGate;
  ack_needed : bool;
  ack_deadline : option Instant;
  unacked_segments : Z;
  retransmission_queue : list Seg.UnackedSegment;
  rto : Duration;
  srtt : option Duration;
  rttvar : option Duration;
  rtt_m : Ts.RttMeasurementState;
  persist_timer : option Instant;
  persist_backoff : Duration;
  last_rx_time : Instant;
  keepalive_deadline : option Instant;
  timewait_deadline : option Instant;
  keepalive_count : Z;
  last_error : option TcpError;
  nagle_enabled : bool;
  last_ack_received : Z;
  duplicate_ack_count : Z;
  congestion_control : CongestionControl;
  cwnd : Z;
  ssthresh : Z;
  in_fast_recovery : bool;
  max_rcv_wnd : Z;
  peer_mss : Z;
  rcv_wscale : Z;
  snd_wscale : Z;
  wnd_scale_enabled : bool;
  ts : Ts.TcpTimestampState;
  eifel : Eifel.EifelState;
  frto : Frto.FrtoState;
  ecn : Ecn.TcpEcnState;
  cwv : Cwv.NewCwvState;
  abc : Abc.AbcState;
  pacing : Pacing.PacingState;
  sack : Sack.SackRackState;
  effective_mss : Z
}.

#[global] Instance eta_TcpControlBlock : Eta TcpControlBlock := λ r,
  mkTcb (snd_una r) (snd_nxt r) (snd_wnd r) (snd_wl1 r) (snd_wl2 r) (iss r) (rcv_nxt r)
    (rcv_wnd r) (irs r) (state r) (tuple r) (socket r) (receive_buffer r) (send_buffer r)
    (event r) (handshake_gate r) (ack_needed r) (ack_deadline r) (unacked_segments r)
    (retransmission_queue r) (rto r) (srtt r) (rttvar r) (rtt_m r) (persist_timer r)
    (persist_backoff r) (last_rx_time r) (keepalive_deadline r) (timewait_deadline r)
    (keepalive_count r) (last_error r) (nagle_enabled r) (last_ack_received r)
    (duplicate_ack_count r) (congestion_control r) (cwnd r) (ssthresh r)
    (in_fast_recovery r) (max_rcv_wnd r) (peer_mss r) (rcv_wscale r) (snd_wscale r)
    (wnd_scale_enabled r) (ts r) (eifel r) (frto r) (ecn r) (cwv r) (abc r) (pacing r)
    (sack r) (effective_mss r).

(** [now] holds the five clock readings of the constructor, in order:
    [last_rx_time], the CUBIC epoch, Timestamps, New CWV, SACK. *)
Definition tcb_new (iss : Z) (connection : Tuple.ConnectionTuple) (socket : Sock.Socket)
    (settings : Settings.TcpSessionSettings) (rdrand : option Z) (now : clock)
  : TcpControlBlock :=
  {| snd_una := iss; snd_nxt := iss; snd_wnd := 0; snd_wl1 := 0; snd_wl2 := 0; iss := iss;
     rcv_nxt := 0; rcv_wnd := 0; irs := 0; state := Closed; tuple := connection;
     socket := socket; event := event_new; handshake_gate := gate_new;
     ack_needed := false; ack_deadline := None; unacked_segments := 0;
     retransmission_queue := []; rto := secs 1; srtt := None; rttvar := None;
     rtt_m := Ts.rtt_new; send_buffer := []; persist_timer := None;
     persist_backoff := ms 500; last_rx_time := now 0%nat; keepalive_deadline := None;
     timewait_deadline := None; keepalive_count := 0; last_error := None;
     receive_buffer := RxRing.new
       (clamp_tcp_receive_buffer_bytes (Settings.receive_buffer_size settings));
     nagle_enabled := Settings.nagle_enabled settings;
     last_ack_received := 0; duplicate_ack_count := 0;
     congestion_control := CcCubic
       {| Cubic.w_max := 0; Cubic.epoch_start := now 1%nat; Cubic.k_ns := 0;
          Cubic.last_max_cwnd := 0; Cubic.beta := 717; Cubic.c := 410; Cubic.recover := 0 |};
     cwnd := INITIAL_CWND; ssthresh := INITIAL_SSTHRESH; in_fast_recovery := false;
     max_rcv_wnd := 0; peer_mss := DEFAULT_MSS; rcv_wscale := 0; snd_wscale := 0;
     wnd_scale_enabled := false; ts := Ts.ts_new rdrand (now 2%nat);
     eifel := Eifel.eifel_new; frto := Frto.frto_new; ecn := Ecn.ecn_new;
     cwv := Cwv.cwv_new (Settings.cwv_enabled settings) INITIAL_CWND (now 3%nat);
     abc := Abc.abc_new; pacing := Pacing.pacing_new (Settings.pacing_enabled settings);
     sack := Sack.sack_new (now 4%nat); effective_mss := MSS |}.

Definition recompute_effective_mss (t : TcpControlBlock) : TcpControlBlock :=
  let mss := Z.min MSS (peer_mss t) in
  let mss := if Ts.enabled (ts t) then sat_sub mss TCP_TS_OPTION_OVERHEAD else mss in
  t <| effective_mss := Z.max mss 1 |>.

Definition effective_rcv_wnd (t : TcpControlBlock) : res Z :=
  free ← RxRing.free_space (receive_buffer t);
  Ret (Z.min free (max_rcv_wnd t) mod U32).

Definition update_rcv_wnd_from_buffer (t : TcpControlBlock) : res TcpControlBlock :=
  w ← effective_rcv_wnd t;
  Ret (t <| rcv_wnd := Z.min w 65535 |>).

(** [wnd >> shift] panics for a shift of 32 or more. *)
Definition advertised_rcv_wnd_u16 (t : TcpControlBlock) : res Z :=
  if wnd_scale_enabled t && (0 <? rcv_wscale t) then
    rassert (rcv_wscale t <? 32);;
    Ret (Z.min (Z.shiftr (rcv_wnd t) (rcv_wscale t)) 65535)
  else Ret (Z.min (rcv_wnd t) 65535).

Definition scale_peer_window (t : TcpControlBlock) (wire_wnd : Z) : res Z :=
  if wnd_scale_enabled t && (0 <? snd_wscale t) then
    rassert (snd_wscale t <? 32);;
    Ret (Z.shiftl wire_wnd (snd_wscale t) mod U32)
  else Ret wire_wnd.

Definition maybe_update_send_window (t : TcpControlBlock) (seg_seq seg_ack wire_wnd : Z)
  : res TcpControlBlock :=
  let seq_newer := 0 <? sdiff seg_seq (snd_wl1 t) in
  let ack_newer_same_seq := (snd_wl1 t =? seg_seq) && (0 <=? sdiff seg_ack (snd_wl2 t)) in
  if seq_newer || ack_newer_same_seq then
    w ← scale_peer_window t wire_wnd;
    Ret (t <| snd_wnd := w |> <| snd_wl1 := seg_seq |> <| snd_wl2 := seg_ack |>)
  else Ret t.

Definition is_acceptable_ack (t : TcpControlBlock) (ack : Z) : bool :=
  let distance := wsub ack (snd_una t) in
  let window := wsub (snd_nxt t) (snd_una t) in
  distance <=? window.

Definition is_in_receive_window (t : TcpControlBlock) (seq : Z) : bool :=
  let end_ := wadd (rcv_nxt t) (rcv_wnd t) in
  if rcv_nxt t <=? end_ then (rcv_nxt t <=? seq) && (seq <? end_)
  else (rcv_nxt t <=? seq) || (seq <? end_).

Definition is_segment_acceptable (t : TcpControlBlock) (seq len : Z) : bool :=
  if len =? 0 then
    if rcv_wnd t =? 0 then seq =? rcv_nxt t else is_in_receive_window t seq
  else
    let seq_end := wadd seq (len - 1) in
    is_in_receive_window t seq || is_in_receive_window t seq_end.

Definition flight_size_bytes (t : TcpControlBlock) : Z := wsub (snd_nxt t) (snd_una t).

Definition can_send (t : TcpControlBlock) (n : Z) : bool :=
  let in_flight := wsub (snd_nxt t) (snd_una t) in
  if in_flight + n <? U32 then in_flight + n <=? snd_wnd t else false.

Definition handle_fin_flag (now : Instant) (t : TcpControlBlock) : TcpControlBlock :=
  let t := t <| rcv_nxt := wadd (rcv_nxt t) 1 |> <| ack_needed := true |> in
  match state t with
  | Established => t <| state := CloseWait |> <| event := event_notify (event t) |>
  | FinWait1 => t <| state := Closing |>
  | FinWait2 => t <| state := TimeWait |>
                  <| timewait_deadline := Some (instant_add now (secs 120)) |>
  | _ => t
  end.

Definition apply_receive_path (settings : Settings.TcpSessionSettings) (t : TcpControlBlock)
  : res TcpControlBlock :=
  let buf_cap := Z.max (Settings.recv_buf_size settings) 1 in
  let t := t <| receive_buffer := RxRing.new buf_cap |>
             <| max_rcv_wnd := buf_cap mod U32 |>
             <| rcv_wscale := Settings.rcv_wscale settings |>
             <| wnd_scale_enabled := Settings.wnd_scale_enabled settings |> in
  update_rcv_wnd_from_buffer t.

(** ** The segment header *)

Module Hdr.
Record TcpDatagramHeader := mkHdr {
  source_port : Z;
  dest_port : Z;
  sequence_number : Z;
  ack_number : Z;
  offset_res : Z;
  flags : Z;
  window_size : Z;
  checksum : Z;
  urgent_pointer : Z
}.

#[global] Instance eta_TcpDatagramHeader : Eta TcpDatagramHeader := λ r,
  mkHdr (source_port r) (dest_port r) (sequence_number r) (ack_number r) (offset_res r)
    (flags r) (window_size r) (checksum r) (urgent_pointer r).

Definition set_sequence_number (v : Z) (h : TcpDatagramHeader) := h <| sequence_number := v |>.
Definition set_acknowledgement_number (v : Z) (h : TcpDatagramHeader) := h <| ack_number := v |>.

Definition set_offset (offset : Z) (h : TcpDatagramHeader) : res TcpDatagramHeader :=
  rassert ((5 <=? offset) && (offset <=? 15));;
  Ret (h <| offset_res := Z.lor (Z.land (offset_res h) 15) (Z.shiftl offset 4 mod U8) |>).

Definition get_offset (h : TcpDatagramHeader) : Z := Z.land (Z.shiftr (offset_res h) 4) 15.
Definition header_len_bytes (h : TcpDatagramHeader) : Z := get_offset h * 4.

Definition set_flag (mask : Z) (value : bool) (h : TcpDatagramHeader) : TcpDatagramHeader :=
  h <| flags := if value then Z.lor (flags h) mask else Z.land (flags h) (not8 mask) |>.
Definition get_flag (h : TcpDatagramHeader) (mask : Z) : bool := has_flag (flags h) mask.
Definition set_flags (fl : Z) (h : TcpDatagramHeader) : TcpDatagramHeader := h <| flags := fl |>.

Definition is_syn (h : TcpDatagramHeader) : bool := get_flag h SYN.
Definition is_ack (h : TcpDatagramHeader) : bool := get_flag h ACK.
Definition is_fin (h : TcpDatagramHeader) : bool := get_flag h FIN.
Definition is_rst (h : TcpDatagramHeader) : bool := get_flag h RST.

Definition hdr_new (t : TcpControlBlock) : res TcpDatagramHeader :=
  w ← advertised_rcv_wnd_u16 t;
  set_offset 5
    {| source_port := Tuple.local_port (tuple t); dest_port := Tuple.remote_port (tuple t);
       sequence_number := snd_nxt t; ack_number := rcv_nxt t; offset_res := 0; flags := 0;
       window_size := w; checksum := 0; urgent_pointer := 0 |}.
End Hdr.

(** A connection for the concrete runs: ports 49152 and 80, ISS 1000. *)
Definition sample_socket : Sock.Socket := Sock.new (10, 0, 2, 15) 49152 (10, 0, 2, 2) 80 1.

Definition sample_tcb : TcpControlBlock :=
  tcb_new 1000 (Tuple.from_socket sample_socket) sample_socket Settings.settings_default
    (Some 7) (λ _, 0).
