(* ===== verification/TcpOptions.v ===== *)
(** * TCP header options

    [kernel/src/driver/net/proto/tcp/options.rs]: the TLV parser, the writer
    of the 40-byte option area, and the option lookups of [timestamp.rs] and
    [sack.rs]. *)

From S2P Require Import Prelude Time ReceiveBuffer TcpTypes.

Definition TCP_OPTS_MAX : Z := 40.
Definition TCP_OPT_EOL : Z := 0.
Definition TCP_OPT_NOP : Z := 1.
Definition TCP_OPT_MSS : Z := 2.
Definition TCP_OPT_WINDOW_SCALE : Z := 3.
Definition TCP_OPT_TIMESTAMP : Z := 8.
Definition TCP_OPT_SACK_PERMITTED : Z := 4.
Definition TCP_OPT_SACK : Z := 5.

Inductive TcpOption :=
| EndOfList
| NoOp
| Mss (mss : Z)
| WindowScale (shift : Z)
| Timestamp (tsval tsecr : Z)
| SackPermitted
| SackOpt (data : list Z)
| Unknown (kind : Z) (data : list Z).

(** ** The parser *)

Record TcpOptionsParser := mkParser { p_data : list Z; p_pos : Z }.

#[global] Instance eta_TcpOptionsParser : Eta TcpOptionsParser := λ r,
  mkParser (p_data r) (p_pos r).

Definition parser_new (data : list Z) : TcpOptionsParser := mkParser data 0.

(** The option a kind byte and its data stand for. *)
Definition decode_option (kind len : Z) (opt_data : list Z) : res TcpOption :=
  if (kind =? TCP_OPT_MSS) && (len =? 4) then
    a ← index opt_data 0; b ← index opt_data 1; Ret (Mss (from_be16 a b))
  else if (kind =? TCP_OPT_WINDOW_SCALE) && (len =? 3) then
    a ← index opt_data 0; Ret (WindowScale a)
  else if (kind =? TCP_OPT_TIMESTAMP) && (len =? 10) && (zlen opt_data =? 8) then
    a ← index opt_data 0; b ← index opt_data 1; c ← index opt_data 2; d ← index opt_data 3;
    e ← index opt_data 4; f ← index opt_data 5; g ← index opt_data 6; h ← index opt_data 7;
    Ret (Timestamp (from_be32 a b c d) (from_be32 e f g h))
  else if (kind =? TCP_OPT_SACK_PERMITTED) && (len =? 2) then Ret SackPermitted
  else if (kind =? TCP_OPT_SACK) && (2 <=? len) && ((len - 2) mod 8 =? 0) then
    Ret (SackOpt opt_data)
  else Ret (Unknown kind opt_data).

Definition parser_next (p : TcpOptionsParser) : res (option TcpOption * TcpOptionsParser) :=
  let n := zlen (p_data p) in
  if n <=? p_pos p then Ret (None, p) else
  kind ← index (p_data p) (p_pos p);
  if kind =? TCP_OPT_EOL then Ret (Some EndOfList, p <| p_pos := n |>) else
  if kind =? TCP_OPT_NOP then Ret (Some NoOp, p <| p_pos := p_pos p + 1 |>) else
  if n <=? p_pos p + 1 then Ret (None, p <| p_pos := n |>) else
  len ← index (p_data p) (p_pos p + 1);
  if (len <? 2) || (n <? p_pos p + len) then Ret (None, p <| p_pos := n |>) else
  opt_data ← slice (p_data p) (p_pos p + 2) (p_pos p + len);
  o ← decode_option kind len opt_data;
  Ret (Some o, p <| p_pos := p_pos p + len |>).

(** The options a [for opt in TcpOptionsParser::new(data)] loop visits. *)
Definition parse_step (s : TcpOptionsParser * list TcpOption)
  : res ((TcpOptionsParser * list TcpOption) + list TcpOption) :=
  '(o, p) ← parser_next s.1;
  match o with
  | None => Ret (inr s.2)
  | Some o => Ret (inl (p, s.2 ++ [o]))
  end.

Definition parse_options (data : list Z) : res (list TcpOption) :=
  while_loop parse_step (Pos.of_succ_nat (length data)) (parser_new data, []).

Fixpoint first_timestamp (opts : list TcpOption) : option (Z * Z) :=
  match opts with
  | [] => None
  | Timestamp tsval tsecr :: _ => Some (tsval, tsecr)
  | _ :: opts => first_timestamp opts
  end.

Definition find_timestamp (options : list Z) : res (option (Z * Z)) :=
  opts ← parse_options options; Ret (first_timestamp opts).

(** [data.as_chunks::<8>().0], each chunk read as two sequence numbers. *)
Fixpoint sack_chunks (data : list Z) : list (Z * Z) :=
  match data with
  | a :: b :: c :: d :: e :: f :: g :: h :: rest =>
      (from_be32 a b c d, from_be32 e f g h) :: sack_chunks rest
  | _ => []
  end.

Fixpoint first_sack (opts : list TcpOption) : list Z :=
  match opts with
  | [] => []
  | SackOpt data :: _ => data
  | _ :: opts => first_sack opts
  end.

(** The valid blocks of the first SACK option, at most four. *)
Definition parse_sack_blocks (options : list Z) : res (list Sack.SackBlock) :=
  opts ← parse_options options;
  Ret (take 4 ((λ '(l, r), Sack.mkBlock l r) <$>
               filter (λ '(l, r), 0 < sdiff r l) (sack_chunks (first_sack opts)))).

(** ** The writer *)

Record TcpOptionsWriter := mkWriter { w_buf : list Z; w_len : Z }.

#[global] Instance eta_TcpOptionsWriter : Eta TcpOptionsWriter := λ r,
  mkWriter (w_buf r) (w_len r).

Definition writer_new : TcpOptionsWriter := mkWriter (zeros 40) 0.

(** The stores [buf[len + i] = bs[i]] followed by [len += bs.len()]; the
    bounds check of the last one is the check of all. *)
Definition push_bytes (bs : list Z) (w : TcpOptionsWriter) : res TcpOptionsWriter :=
  b ← store_slice (w_buf w) (w_len w) bs;
  Ret (w <| w_buf := b |> <| w_len := w_len w + zlen bs |>).

Definition push_mss (mss : Z) (w : TcpOptionsWriter) : res TcpOptionsWriter :=
  push_bytes ([TCP_OPT_MSS; 4] ++ be16 mss) w.

Definition push_window_scale (shift : Z) (w : TcpOptionsWriter) : res TcpOptionsWriter :=
  push_bytes [TCP_OPT_WINDOW_SCALE; 3; shift] w.

Definition push_timestamp (tsval tsecr : Z) (w : TcpOptionsWriter) : res TcpOptionsWriter :=
  push_bytes ([TCP_OPT_NOP; TCP_OPT_NOP; TCP_OPT_TIMESTAMP; 10] ++ be32 tsval ++ be32 tsecr) w.

Definition push_sack_permitted (w : TcpOptionsWriter) : res TcpOptionsWriter :=
  if zlen (w_buf w) <? w_len w + 4 then Ret w
  else push_bytes [TCP_OPT_NOP; TCP_OPT_NOP; TCP_OPT_SACK_PERMITTED; 2] w.

Definition block_bytes (b : Sack.SackBlock) : list Z :=
  be32 (Sack.left b) ++ be32 (Sack.right b).

Definition push_sack_limited (blocks : list Sack.SackBlock) (budget : Z) (w : TcpOptionsWriter)
  : res TcpOptionsWriter :=
  let align := (4 - w_len w mod 4) mod 4 in
  let avail := sat_sub budget align in
  if avail <? 10 then Ret w else
  let max_n := Z.min (Z.min ((avail - 2) / 8) 4) (zlen blocks) in
  if max_n =? 0 then Ret w else
  let need := align + 2 + 8 * max_n in
  if zlen (w_buf w) <? w_len w + need then Ret w else
  w ← push_bytes (replicate (Z.to_nat align) TCP_OPT_NOP) w;
  w ← push_bytes [TCP_OPT_SACK; (2 + 8 * max_n) mod U8] w;
  foldl (λ w b, w ← w; push_bytes (block_bytes b) w) (Ret w) (ztake max_n blocks).

(** NOPs up to a 4-byte boundary; the padded prefix. *)
Definition writer_finish (w : TcpOptionsWriter) : res (list Z) :=
  w ← push_bytes (replicate (Z.to_nat ((4 - w_len w mod 4) mod 4)) TCP_OPT_NOP) w;
  slice (w_buf w) 0 (w_len w).

(** ** The parser is total *)

Lemma decode_option_total kind len d :
  zlen d = len - 2 → ∃ o, decode_option kind len d = Ret o.
Proof.
  intros Hd. unfold decode_option.
  destruct (_ && _) eqn:E; [|clear E; destruct (_ && _) eqn:E];
    [..|clear E; destruct (_ && _) eqn:E].
  1-3: rewrite ?andb_true_iff, ?Z.eqb_eq in E; rewrite !index_ret by lia; simpl; eauto.
  repeat case_match; eauto.
Qed.

Lemma parser_next_spec p :
  bytes (p_data p) → 0 ≤ p_pos p ≤ zlen (p_data p) →
  returns (parser_next p) (λ '(o, p'),
    p_data p' = p_data p ∧
    (o = None ∨ p_pos p < p_pos p' ≤ zlen (p_data p))).
Proof.
  intros Hb Hp. unfold parser_next. cbv zeta.
  destruct (Z.leb_spec (zlen (p_data p)) (p_pos p)); [apply returns_ret; auto|].
  run. set (kind := byte_at _ _).
  destruct (kind =? TCP_OPT_EOL); [apply returns_ret; rsimp; split; [|right]; lia || auto|].
  destruct (kind =? TCP_OPT_NOP); [apply returns_ret; rsimp; split; [|right]; lia || auto|].
  destruct (Z.leb_spec (zlen (p_data p)) (p_pos p + 1)); [apply returns_ret; rsimp; auto|].
  run. set (len := byte_at _ _).
  destruct (Z.ltb_spec len 2); simpl; [apply returns_ret; rsimp; auto|].
  destruct (Z.ltb_spec (zlen (p_data p)) (p_pos p + len)); [apply returns_ret; rsimp; auto|].
  run.
  destruct (decode_option_total kind len
              (ztake (p_pos p + len - (p_pos p + 2)) (zdrop (p_pos p + 2) (p_data p))))
    as [o ->].
  { rewrite zlen_ztake; [lia|]. rewrite zlen_zdrop; lia. }
  rewrite ret_bind. apply returns_ret. rsimp. split; [reflexivity|right; lia].
Qed.

Lemma parse_options_total data : bytes data → returns (parse_options data) (λ _, True).
Proof.
  intros Hb. unfold parse_options.
  apply while_loop_total with
    (I := λ s, p_data s.1 = data ∧ 0 ≤ p_pos s.1 ≤ zlen data)
    (m := λ s, zlen data - p_pos s.1).
  - intros [p acc] [Hd Hp] _. simpl in *. unfold parse_step. simpl.
    destruct (parser_next_spec p) as ([o p'] & -> & Hd' & Ho); [by rewrite Hd|by rewrite Hd|].
    rewrite ret_bind. destruct o as [o|]; [|apply returns_ret; auto].
    apply returns_ret. simpl. destruct Ho as [?|Ho]; [done|].
    rewrite Hd in *. split; [split; [assumption|lia]|lia].
  - simpl. split; [reflexivity|]. pose proof (zlen_nonneg data). lia.
  - simpl. unfold zlen. lia.
Qed.

(** ** Encoding *)

(** The wire form of one option. *)
Definition encode_option (o : TcpOption) : list Z :=
  match o with
  | EndOfList => [TCP_OPT_EOL]
  | NoOp => [TCP_OPT_NOP]
  | Mss m => [TCP_OPT_MSS; 4] ++ be16 m
  | WindowScale s => [TCP_OPT_WINDOW_SCALE; 3; s]
  | Timestamp v e => [TCP_OPT_TIMESTAMP; 10] ++ be32 v ++ be32 e
  | SackPermitted => [TCP_OPT_SACK_PERMITTED; 2]
  | SackOpt d => [TCP_OPT_SACK; 2 + zlen d] ++ d
  | Unknown k d => [k; 2 + zlen d] ++ d
  end.

(** Options the parser reads back as they are. *)
Definition encodable (o : TcpOption) : Prop :=
  match o with
  | EndOfList => False
  | NoOp | SackPermitted => True
  | Mss m => u16 m
  | WindowScale s => u8 s
  | Timestamp v e => u32 v ∧ u32 e
  | SackOpt d => bytes d ∧ zlen d mod 8 = 0 ∧ zlen d ≤ 253
  | Unknown k d =>
      (1 < k < U8) ∧ bytes d ∧ zlen d ≤ 253 ∧ ∀ o, decode_option k (2 + zlen d) d = Ret o → o = Unknown k d
  end.

Definition encode_options (os : list TcpOption) : list Z := mjoin (encode_option <$> os).

Lemma encode_option_bytes o : encodable o → bytes (encode_option o).
Proof.
  destruct o; simpl; intros H; try done;
    repeat match goal with H : _ ∧ _ |- _ => destruct H end;
    repeat first [ apply be16_bytes | apply be32_bytes | assumption
                 | apply Forall_cons_2 | apply Forall_app_2 | apply Forall_nil_2 ];
    unfold u8, TCP_OPT_MSS, TCP_OPT_NOP, TCP_OPT_WINDOW_SCALE, TCP_OPT_TIMESTAMP,
      TCP_OPT_SACK_PERMITTED, TCP_OPT_SACK in *; try mlia.
  all: match goal with |- context [zlen ?d] => pose proof (zlen_nonneg d) end; lia.
Qed.

Lemma encode_options_bytes os : Forall encodable os → bytes (encode_options os).
Proof.
  induction 1; simpl; [constructor|].
  apply Forall_app_2; [by apply encode_option_bytes|assumption].
Qed.

Lemma index_mid (pre rest : list Z) x i :
  i = zlen pre → index (pre ++ x :: rest) i = Ret x.
Proof.
  intros ->. unfold index, zlen. destruct (Z.ltb_spec (Z.of_nat (length pre)) 0); [lia|].
  rewrite Nat2Z.id, lookup_app_r, Nat.sub_diag by lia. reflexivity.
Qed.

Lemma slice_mid (pre d rest : list Z) i j :
  i = zlen pre → j = i + zlen d → slice (pre ++ d ++ rest) i j = Ret d.
Proof.
  intros -> ->. pose proof (zlen_nonneg pre). pose proof (zlen_nonneg d).
  pose proof (zlen_nonneg rest).
  rewrite slice_ret by (rewrite ?zlen_app; lia).
  unfold zdrop, ztake, zlen in *. rewrite Nat2Z.id, drop_app_length.
  replace (Z.to_nat _) with (length d) by lia. rewrite take_app_length. reflexivity.
Qed.

(** Reading one TLV option off the front. *)
Lemma parser_next_tlv pre k d rest :
  k ≠ TCP_OPT_EOL → k ≠ TCP_OPT_NOP →
  let data := pre ++ ([k; 2 + zlen d] ++ d) ++ rest in
  parser_next (mkParser data (zlen pre)) =
  (o ← decode_option k (2 + zlen d) d; Ret (Some o, mkParser data (zlen pre + (2 + zlen d)))).
Proof.
  intros H0 H1 data. unfold parser_next. cbn [p_data p_pos].
  assert (Hl : zlen data = zlen pre + (2 + zlen d) + zlen rest).
  { unfold data. rewrite !zlen_app. change (zlen [k; 2 + zlen d]) with 2. lia. }
  pose proof (zlen_nonneg pre). pose proof (zlen_nonneg d). pose proof (zlen_nonneg rest).
  destruct (Z.leb_spec (zlen data) (zlen pre)); [lia|].
  assert (Hi0 : index data (zlen pre) = Ret k) by (by apply index_mid).
  assert (Hi1 : index data (zlen pre + 1) = Ret (2 + zlen d)).
  { unfold data. replace (pre ++ ([k; 2 + zlen d] ++ d) ++ rest)
      with ((pre ++ [k]) ++ (2 + zlen d) :: (d ++ rest)) by (rewrite <- !app_assoc; reflexivity).
    apply index_mid. rewrite zlen_app. reflexivity. }
  assert (Hs : slice data (zlen pre + 2) (zlen pre + (2 + zlen d)) = Ret d).
  { unfold data. rewrite <- app_assoc, (app_assoc pre).
    apply slice_mid; [rewrite zlen_app; reflexivity|lia]. }
  rewrite Hi0, ret_bind. apply Z.eqb_neq in H0, H1. rewrite H0, H1.
  destruct (Z.leb_spec (zlen data) (zlen pre + 1)); [lia|].
  rewrite Hi1, ret_bind. destruct (Z.ltb_spec (2 + zlen d) 2); [lia|]. simpl orb.
  destruct (Z.ltb_spec (zlen data) (zlen pre + (2 + zlen d))); [lia|].
  rewrite Hs, ret_bind. reflexivity.
Qed.

Lemma decode_mss a b : decode_option TCP_OPT_MSS 4 [a; b] = Ret (Mss (from_be16 a b)).
Proof. reflexivity. Qed.

Lemma decode_timestamp a b c d e f g h :
  decode_option TCP_OPT_TIMESTAMP 10 [a; b; c; d; e; f; g; h] =
  Ret (Timestamp (from_be32 a b c d) (from_be32 e f g h)).
Proof. reflexivity. Qed.

(** Reading one encoded option off the front. *)
Lemma parser_next_encode pre o rest :
  encodable o →
  let data := pre ++ encode_option o ++ rest in
  parser_next (mkParser data (zlen pre)) =
  Ret (Some o, mkParser data (zlen pre + zlen (encode_option o))).
Proof.
  intros Ho data. destruct o as [| |m|s|v e| |d|k d].
  - destruct Ho.
  - unfold data, parser_next. cbn [p_data p_pos encode_option].
    change ([TCP_OPT_NOP] ++ rest) with (TCP_OPT_NOP :: rest).
    rewrite (index_mid pre rest _ (zlen pre)), ret_bind by reflexivity. change (TCP_OPT_NOP :: rest) with ([TCP_OPT_NOP] ++ rest).
    rewrite !zlen_app. change (zlen [TCP_OPT_NOP]) with 1. pose proof (zlen_nonneg rest).
    destruct (Z.leb_spec (zlen pre + (1 + zlen rest)) (zlen pre)); [lia|]. reflexivity.
  - etransitivity; [apply (parser_next_tlv pre TCP_OPT_MSS (be16 m)); discriminate|].
    change (2 + zlen (be16 m)) with 4. unfold be16.
    rewrite decode_mss, ret_bind, from_to_be16 by assumption. reflexivity.
  - etransitivity; [apply (parser_next_tlv pre TCP_OPT_WINDOW_SCALE [s]); discriminate|].
    reflexivity.
  - etransitivity; [apply (parser_next_tlv pre TCP_OPT_TIMESTAMP (be32 v ++ be32 e)); discriminate|].
    change (2 + zlen (be32 v ++ be32 e)) with 10. unfold be32. destruct Ho. cbn [app].
    rewrite decode_timestamp, ret_bind, !from_to_be32 by assumption. reflexivity.
  - etransitivity; [apply (parser_next_tlv pre TCP_OPT_SACK_PERMITTED []); discriminate|].
    reflexivity.
  - etransitivity; [apply (parser_next_tlv pre TCP_OPT_SACK d); discriminate|].
    destruct Ho as (_ & Hm & _). unfold decode_option. simpl.
    pose proof (zlen_nonneg d). destruct (Z.leb_spec 2 (2 + zlen d)); [|lia].
    replace (2 + zlen d - 2) with (zlen d) by lia. rewrite Hm. simpl.
    rewrite !zlen_cons. do 4 f_equal. lia.
  - destruct Ho as (Hk & Hb & Hl & Hdec).
    destruct (decode_option_total k (2 + zlen d) d) as [o Eo]; [lia|].
    etransitivity; [apply (parser_next_tlv pre k d); unfold TCP_OPT_EOL, TCP_OPT_NOP; lia|].
    rewrite Eo, ret_bind, (Hdec o Eo). cbn [encode_option].
    rewrite zlen_app. reflexivity.
Qed.

Lemma parse_runs pre os acc :
  Forall encodable os →
  loop_runs parse_step (mkParser (pre ++ encode_options os) (zlen pre), acc) (acc ++ os).
Proof.
  intros H. revert pre acc. induction H as [|o os Ho Hos IH]; intros pre acc.
  - apply loop_exit. unfold parse_step, parser_next. simpl. rewrite !app_nil_r.
    destruct (Z.leb_spec (zlen pre) (zlen pre)); [reflexivity|lia].
  - change (encode_options (o :: os)) with (encode_option o ++ encode_options os).
    eapply loop_round.
    { unfold parse_step. simpl fst. rewrite parser_next_encode by assumption. reflexivity. }
    simpl snd. rewrite app_assoc, <- zlen_app.
    replace (acc ++ o :: os) with ((acc ++ [o]) ++ os) by (rewrite <- app_assoc; reflexivity).
    apply IH.
Qed.

Lemma parse_encode os : Forall encodable os → parse_options (encode_options os) = Ret os.
Proof.
  intros H. eapply while_loop_eval.
  - apply parse_options_total. by apply encode_options_bytes.
  - apply (parse_runs [] os []). assumption.
Qed.

(** ** What the writer holds *)

(** [w] has [P] written and room for the rest of the 40 bytes. *)
Definition written (w : TcpOptionsWriter) (P : list Z) : Prop :=
  zlen P ≤ 40 ∧ w_len w = zlen P ∧ ∃ tl, w_buf w = P ++ tl ∧ zlen P + zlen tl = 40.

Lemma written_new : written writer_new [].
Proof. split; [unfold zlen; simpl; lia|split; [reflexivity|]]. exists (zeros 40). split; reflexivity. Qed.

Lemma push_bytes_written bs w P :
  written w P → zlen P + zlen bs ≤ 40 →
  returns (push_bytes bs w) (λ w', written w' (P ++ bs)).
Proof.
  intros (Hp & Hl & tl & Hb & Ht) Hfit. unfold push_bytes. rewrite Hl, Hb.
  pose proof (zlen_nonneg P). pose proof (zlen_nonneg bs).
  rewrite store_slice_ret, ret_bind by (rewrite ?zlen_app; lia).
  apply returns_ret. unfold written. rsimp. rewrite zlen_app.
  split; [lia|split; [reflexivity|]]. exists (zdrop (zlen bs) tl). split.
  - unfold splice, ztake, zdrop, zlen. rewrite Nat2Z.id, take_app_length, <- app_assoc.
    f_equal. f_equal. replace (Z.to_nat _) with (length P + length bs)%nat by lia.
    rewrite drop_app_add. f_equal; lia.
  - rewrite zlen_zdrop; lia.
Qed.

Lemma writer_finish_written w P :
  written w P →
  writer_finish w = Ret (P ++ replicate (Z.to_nat ((4 - zlen P mod 4) mod 4)) TCP_OPT_NOP).
Proof.
  intros Hw. unfold writer_finish. pose proof Hw as (Hp & Hl & _). rewrite Hl.
  set (pad := replicate _ _).
  assert (Hpad : zlen pad = (4 - zlen P mod 4) mod 4)
    by (unfold pad, zlen; rewrite length_replicate; pose proof (zlen_nonneg P); mlia).
  destruct (push_bytes_written pad w P Hw) as (w' & -> & (_ & Hl' & tl & Hb' & Ht)).
  { pose proof (zlen_nonneg P). mlia. }
  rewrite ret_bind, Hl', Hb'. apply (slice_mid []); [reflexivity|lia].
Qed.
