(* ===== verification/TcpChecksum.v ===== *)
(** * The segment on the wire

    The byte layout of [TcpDatagramHeader] ([types.rs]), and the checksum of
    [kernel/src/driver/net/proto/tcp/checksum.rs] with its one's-complement
    specification. *)

From S2P Require Import Prelude Time ReceiveBuffer TcpTypes.

(** ** Header bytes

    [#[repr(C, packed)]] with network-endian fields: [as_bytes] and
    [read_from_prefix]. *)

Definition hdr_bytes (h : Hdr.TcpDatagramHeader) : list Z :=
  be16 (Hdr.source_port h) ++ be16 (Hdr.dest_port h) ++
  be32 (Hdr.sequence_number h) ++ be32 (Hdr.ack_number h) ++
  [Hdr.offset_res h; Hdr.flags h] ++
  be16 (Hdr.window_size h) ++ be16 (Hdr.checksum h) ++ be16 (Hdr.urgent_pointer h).

Definition hdr_read (b : list Z) : option Hdr.TcpDatagramHeader :=
  match b with
  | s0 :: s1 :: d0 :: d1 :: q0 :: q1 :: q2 :: q3 :: a0 :: a1 :: a2 :: a3 :: off :: fl ::
    w0 :: w1 :: c0 :: c1 :: u0 :: u1 :: _ =>
      Some {| Hdr.source_port := from_be16 s0 s1; Hdr.dest_port := from_be16 d0 d1;
              Hdr.sequence_number := from_be32 q0 q1 q2 q3;
              Hdr.ack_number := from_be32 a0 a1 a2 a3;
              Hdr.offset_res := off; Hdr.flags := fl; Hdr.window_size := from_be16 w0 w1;
              Hdr.checksum := from_be16 c0 c1; Hdr.urgent_pointer := from_be16 u0 u1 |}
  | _ => None
  end.

(** Fields within their widths. *)
Record hdr_ok (h : Hdr.TcpDatagramHeader) : Prop := {
  ok_source : u16 (Hdr.source_port h);
  ok_dest : u16 (Hdr.dest_port h);
  ok_seq : u32 (Hdr.sequence_number h);
  ok_ack : u32 (Hdr.ack_number h);
  ok_offset : u8 (Hdr.offset_res h);
  ok_flags : u8 (Hdr.flags h);
  ok_window : u16 (Hdr.window_size h);
  ok_checksum : u16 (Hdr.checksum h);
  ok_urgent : u16 (Hdr.urgent_pointer h)
}.

Lemma hdr_read_bytes h rest : hdr_ok h → hdr_read (hdr_bytes h ++ rest) = Some h.
Proof.
  destruct h. intros []. unfold hdr_bytes, be16, be32, hdr_read. cbn [app].
  cbn [Hdr.source_port Hdr.dest_port Hdr.sequence_number Hdr.ack_number Hdr.offset_res
       Hdr.flags Hdr.window_size Hdr.checksum Hdr.urgent_pointer] in *.
  rewrite !from_to_be16, !from_to_be32 by assumption. reflexivity.
Qed.

Lemma zlen_hdr_bytes h : zlen (hdr_bytes h) = 20.
Proof. reflexivity. Qed.

Lemma hdr_bytes_bytes h : hdr_ok h → bytes (hdr_bytes h).
Proof.
  intros []. unfold hdr_bytes, bytes. rewrite !Forall_app.
  repeat split; try apply be16_bytes; try apply be32_bytes.
  repeat constructor; apply ok_offset0 || apply ok_flags0.
Qed.

Lemma hdr_read_some b : 20 ≤ zlen b → ∃ h, hdr_read b = Some h.
Proof.
  unfold zlen. intros H.
  do 20 (destruct b as [|? b]; [simpl in H; lia|]). eexists. reflexivity.
Qed.

Lemma hdr_read_offset_range b h :
  bytes b → hdr_read b = Some h → 0 ≤ Hdr.header_len_bytes h ≤ 60.
Proof.
  intros _ _. unfold Hdr.header_len_bytes, Hdr.get_offset.
  change 15 with (Z.ones 4). rewrite Z.land_ones by lia. mlia.
Qed.

(** ** The checksum *)

(** [u16::from_be_bytes([hi, lo]) as u32], added with wrap-around. *)
Definition add_u16_be (sum hi lo : Z) : Z := wadd sum (from_be16 hi lo).

(** The closure [get] of the source. *)
Definition get (header data : list Z) (i : Z) : res Z :=
  if i <? zlen header then index header i else index data (i - zlen header).

Definition pair_step (header data : list Z) (s : Z * Z) : res ((Z * Z) + (Z * Z)) :=
  let '(i, sum) := s in
  if i + 1 <? zlen header + zlen data then
    hi ← get header data i;
    lo ← get header data (i + 1);
    Ret (inl (i + 2, add_u16_be sum hi lo))
  else Ret (inr (i, sum)).

Definition fold_step (sum : Z) : res (Z + Z) :=
  if Z.shiftr sum 16 =? 0 then Ret (inr sum)
  else s ← add_chk U32 (Z.land sum 65535) (Z.shiftr sum 16); Ret (inl s).

Definition calculate_tcp_checksum (src_addr dst_addr : Ipv4Addr) (header data : list Z)
  : res Z :=
  let '(s0, s1, s2, s3) := src_addr in
  let '(d0, d1, d2, d3) := dst_addr in
  let sum := add_u16_be 0 s0 s1 in
  let sum := add_u16_be sum s2 s3 in
  let sum := add_u16_be sum d0 d1 in
  let sum := add_u16_be sum d2 d3 in
  let sum := add_u16_be sum 0 6 in
  let combined := zlen header + zlen data in
  let sum := wadd sum (combined mod U16) in
  '(i, sum) ← while_loop (pair_step header data)
                (Pos.of_succ_nat (length header + length data)) (0, sum);
  sum ← (if i <? combined then hi ← get header data i; Ret (add_u16_be sum hi 0)
         else Ret sum);
  sum ← while_loop fold_step 16 sum;
  Ret (65535 - sum mod U16).

(** ** Specification

    The 16-bit words of a byte string, an odd tail padded with a zero byte;
    their one's-complement sum; its complement. *)

Fixpoint words (l : list Z) : list Z :=
  match l with
  | a :: b :: l => from_be16 a b :: words l
  | [a] => [from_be16 a 0]
  | [] => []
  end.

Definition word_sum (l : list Z) : Z := foldr Z.add 0 (words l).

(** One's-complement addition is addition modulo [2^16 - 1] with the
    non-zero representative. *)
Definition ones_norm (n : Z) : Z := if n =? 0 then 0 else (n - 1) mod 65535 + 1.

Definition pseudo_header (src dst : Ipv4Addr) (len : Z) : list Z :=
  octets src ++ octets dst ++ [0; 6] ++ be16 len.

Definition internet_checksum (src dst : Ipv4Addr) (segment : list Z) : Z :=
  65535 - ones_norm (word_sum (pseudo_header src dst (zlen segment)) + word_sum segment).

Definition ip_ok (ip : Ipv4Addr) : Prop := bytes (octets ip).

(** ** Word sums *)

Lemma pair_list_ind (P : list Z → Prop) :
  P [] → (∀ a, P [a]) → (∀ a b l, P l → P (a :: b :: l)) → ∀ l, P l.
Proof.
  intros H0 H1 H2. fix IH 1. intros [|a [|b l]]; [apply H0|apply H1|]. apply H2, IH.
Qed.

Lemma word_sum_bound l : bytes l → 0 ≤ word_sum l ∧ 2 * word_sum l ≤ 65535 * (zlen l + 1).
Proof.
  unfold word_sum. induction l as [|a|a b l IH] using pair_list_ind; simpl; intros Hb.
  - unfold zlen; simpl; lia.
  - inversion Hb; subst. unfold from_be16, zlen; simpl. ints. lia.
  - inversion Hb as [|? ? Ha Hb']; subst. inversion Hb' as [|? ? Hb2 Hl]; subst.
    specialize (IH Hl). rewrite !zlen_cons. unfold from_be16. ints. lia.
Qed.

Lemma zdrop_cons (l : list Z) i : 0 ≤ i < zlen l → zdrop i l = byte_at l i :: zdrop (i + 1) l.
Proof.
  unfold zlen, zdrop, byte_at. intros.
  destruct (lookup_lt_is_Some_2 l (Z.to_nat i)) as [x Hx]; [lia|].
  rewrite Hx. simpl. rewrite (drop_S _ _ _ Hx). do 2 f_equal. lia.
Qed.

Lemma word_sum_pair l i : 0 ≤ i → i + 1 < zlen l →
  word_sum (zdrop i l) = from_be16 (byte_at l i) (byte_at l (i + 1)) + word_sum (zdrop (i + 2) l).
Proof.
  intros. rewrite (zdrop_cons l i), (zdrop_cons l (i + 1)) by lia.
  replace (i + 1 + 1) with (i + 2) by lia. reflexivity.
Qed.

Lemma word_sum_tail l i : 0 ≤ i → i + 1 = zlen l →
  word_sum (zdrop i l) = from_be16 (byte_at l i) 0.
Proof.
  intros. rewrite (zdrop_cons l i) by lia. unfold zdrop at 1.
  rewrite drop_ge by (unfold zlen in *; lia). unfold word_sum. simpl. lia.
Qed.

Lemma get_app header data i :
  0 ≤ i < zlen header + zlen data → get header data i = Ret (byte_at (header ++ data) i).
Proof.
  intros. unfold get. rewrite byte_at_app by lia.
  destruct (Z.ltb_spec i (zlen header)); apply index_ret; lia.
Qed.

Lemma byte_at_u8 l i : bytes l → u8 (byte_at l i).
Proof.
  unfold bytes, byte_at. intros H. destruct (l !! Z.to_nat i) as [x|] eqn:E; simpl.
  - rewrite Forall_lookup in H. eauto.
  - ints; lia.
Qed.

(** ** The two loops *)

Lemma pair_loop header data sum T :
  bytes header → bytes data → 0 ≤ sum →
  sum + word_sum (header ++ data) = T → T < U32 →
  returns (while_loop (pair_step header data)
             (Pos.of_succ_nat (length header + length data)) (0, sum))
    (λ '(i, s), 0 ≤ s ∧ 0 ≤ i ∧ i ≤ zlen (header ++ data) < i + 2 ∧
                s + word_sum (zdrop i (header ++ data)) = T).
Proof.
  intros Hh Hd Hs HT HU. set (l := header ++ data) in *.
  assert (Hl : bytes l) by (by apply Forall_app_2).
  assert (Hz : zlen header + zlen data = zlen l) by (symmetry; apply zlen_app).
  apply while_loop_total with
    (I := λ '(i, s), 0 ≤ s ∧ 0 ≤ i ≤ zlen l ∧ s + word_sum (zdrop i l) = T)
    (m := λ '(i, s), zlen l - i).
  - intros [i s] (H0 & Hi & HTs) _. unfold pair_step. rewrite Hz.
    destruct (Z.ltb_spec (i + 1) (zlen l)).
    + rewrite !get_app, !ret_bind by lia. apply returns_ret. fold l.
      rewrite word_sum_pair in HTs by lia.
      pose proof (byte_at_u8 l i Hl). pose proof (byte_at_u8 l (i + 1) Hl).
      pose proof (word_sum_bound (zdrop (i + 2) l) ltac:(by apply Forall_drop)).
      unfold add_u16_be, wadd, from_be16 in *. ints. rewrite Z.mod_small by lia.
      repeat split; lia.
    + apply returns_ret. repeat split; lia || assumption.
  - split; [lia|]. split; [pose proof (zlen_nonneg l); lia|assumption].
  - unfold zlen in *. rewrite <- Hz. lia.
Qed.

Lemma shiftr16 n : Z.shiftr n 16 = n / U16.
Proof. rewrite Z.shiftr_div_pow2 by lia. reflexivity. Qed.

Lemma land16 n : Z.land n 65535 = n mod U16.
Proof. change 65535 with (Z.ones 16). rewrite Z.land_ones by lia. reflexivity. Qed.

(** Folding the carries back in keeps the one's-complement value. *)
Lemma ones_norm_fold n : U16 ≤ n → ones_norm (n mod U16 + n / U16) = ones_norm n.
Proof.
  intros. unfold ones_norm.
  assert (0 < n mod U16 + n / U16) by mlia.
  destruct (Z.eqb_spec (n mod U16 + n / U16) 0), (Z.eqb_spec n 0); try lia.
  f_equal. rewrite (Z.div_mod n U16) at 3 by lia.
  replace (U16 * (n / U16) + n mod U16 - 1)
    with (n mod U16 + n / U16 - 1 + (n / U16) * 65535) by lia.
  rewrite Z_mod_plus_full. reflexivity.
Qed.

Lemma ones_norm_small n : 0 ≤ n < U16 → ones_norm n = n.
Proof. intros. unfold ones_norm. destruct (Z.eqb_spec n 0); mlia. Qed.

Lemma fold_loop sum :
  u32 sum → returns (while_loop fold_step 16 sum) (λ s, s = ones_norm sum ∧ 0 ≤ s < U16).
Proof.
  intros Hs.
  apply while_loop_total with
    (I := λ s, u32 s ∧ ones_norm s = ones_norm sum)
    (m := λ s, if s <? U16 then 0 else if s =? U16 then 1 else if s <? 131072 then 2 else 3).
  - intros s (Hu & Hn) _. unfold fold_step. rewrite shiftr16, land16. ints.
    destruct (Z.eqb_spec (s / U16) 0).
    + apply returns_ret. assert (s < U16) by mlia. rewrite <- Hn, ones_norm_small; lia.
    + rewrite add_chk_ret, ret_bind by mlia. apply returns_ret.
      assert (U16 ≤ s) by mlia. rewrite ones_norm_fold by lia.
      split; [split; [mlia|assumption]|].
      repeat match goal with
             | |- context [?a <? ?b] => destruct (Z.ltb_spec a b)
             | |- context [?a =? ?b] => destruct (Z.eqb_spec a b)
             end; try lia; exfalso; mlia.
  - auto.
  - destruct (sum <? U16), (sum =? U16), (sum <? 131072); lia.
Qed.

(** The code computes the Internet checksum of the pseudo-header and the
    segment, however header and data are split. *)
Lemma checksum_spec src dst header data :
  ip_ok src → ip_ok dst → bytes header → bytes data → zlen header + zlen data < U16 →
  calculate_tcp_checksum src dst header data = Ret (internet_checksum src dst (header ++ data)).
Proof.
  intros Hs Hd Hh Hda Hlen. destruct src as [[[s0 s1] s2] s3], dst as [[[d0 d1] d2] d3].
  unfold calculate_tcp_checksum. cbv zeta.
  set (W := word_sum (header ++ data)).
  assert (HW : 0 ≤ W ∧ 2 * W ≤ 65535 * (zlen header + zlen data + 1)).
  { rewrite <- zlen_app. apply word_sum_bound. by apply Forall_app_2. }
  pose proof (zlen_nonneg header). pose proof (zlen_nonneg data).
  unfold ip_ok, octets, bytes in Hs, Hd. rewrite !Forall_cons in Hs, Hd. destruct_and!.
  set (P := word_sum (pseudo_header (s0, s1, s2, s3) (d0, d1, d2, d3) (zlen (header ++ data)))).
  assert (HP : P = from_be16 s0 s1 + (from_be16 s2 s3 + (from_be16 d0 d1 + (from_be16 d2 d3 +
                 (from_be16 0 6 + (zlen header + zlen data)))))).
  { unfold P, pseudo_header, be16, word_sum. cbn [octets app words foldr].
    rewrite from_to_be16 by (ints; rewrite zlen_app; lia). rewrite zlen_app. lia. }
  rewrite (Z.mod_small (zlen header + zlen data) U16) by lia.
  assert (Hsum : wadd (add_u16_be (add_u16_be (add_u16_be (add_u16_be (add_u16_be 0 s0 s1)
      s2 s3) d0 d1) d2 d3) 0 6) (zlen header + zlen data) = P).
  { unfold add_u16_be. rewrite !wadd_assoc. unfold wadd, from_be16 in *. ints.
    rewrite Z.mod_small by lia. lia. }
  rewrite Hsum. unfold from_be16 in HP. ints.
  destruct (pair_loop header data P (P + W)) as ([i s] & -> & Hs0 & Hi & Hil & HT); try (assumption || lia).
  rewrite ret_bind. rewrite zlen_app in Hil.
  match goal with |- mbind _ ?m = _ => assert (Hm : m = Ret (P + W)) end.
  { destruct (Z.ltb_spec i (zlen header + zlen data)).
    - rewrite get_app, ret_bind by lia. f_equal.
      rewrite word_sum_tail in HT by (rewrite ?zlen_app; lia).
      unfold add_u16_be, wadd. rewrite Z.mod_small; [lia|].
      pose proof (byte_at_u8 (header ++ data) i ltac:(by apply Forall_app_2)).
      unfold from_be16 in *. ints. lia.
    - f_equal. unfold zdrop in HT. rewrite drop_ge in HT; [unfold word_sum in HT; simpl in HT; lia|].
      rewrite length_app. unfold zlen in *. lia. }
  rewrite Hm, ret_bind.
  destruct (fold_loop (P + W)) as (s' & -> & -> & Hr); [ints; lia|].
  rewrite ret_bind, Z.mod_small by lia. reflexivity.
Qed.

Lemma internet_checksum_u16 src dst l : ip_ok src → ip_ok dst → bytes l →
  u16 (internet_checksum src dst l).
Proof. intros _ _ _. unfold internet_checksum, ones_norm. destruct (_ =? 0); mlia. Qed.

(** ** The checksum field *)

Lemma word_sum_csum h c rest : u16 c →
  word_sum (hdr_bytes (h <| Hdr.checksum := c |>) ++ rest) =
  word_sum (hdr_bytes (h <| Hdr.checksum := 0 |>) ++ rest) + c.
Proof.
  intros Hc. unfold hdr_bytes, be16, be32. rsimp. unfold word_sum. cbn [app words foldr].
  rewrite (from_to_be16 c), (from_to_be16 0) by (assumption || (ints; lia)). lia.
Qed.

Lemma ones_norm_complement n : 0 ≤ n → ones_norm (n + (65535 - ones_norm n)) = 65535.
Proof. intros. unfold ones_norm. destruct (Z.eqb_spec n 0) as [->|]; [done|]. destruct (_ =? 0) eqn:E; mlia. Qed.
