(* ===== verification/TcpSack.v ===== *)
(** * Selective acknowledgments, RACK and the tail loss probe

    [kernel/src/driver/net/proto/tcp/sack.rs].  The receive side keeps a
    scoreboard of out-of-order ranges beside the receive buffer; the send
    side marks segments of the retransmission queue.  [tlp_send_probe_unlocked]
    is with the send path, which it calls. *)

From S2P Require Import Prelude Time ReceiveBuffer TcpTypes.

(** ** The receiver scoreboard *)

(** Slot [i] takes the last range; the last slot is cleared. *)
Definition remove_range (i : Z) (s : Sack.SackRackState) : res Sack.SackRackState :=
  let last := Sack.rx_range_len s - 1 in
  moved ← index (Sack.rx_ranges s) last;
  r ← store (Sack.rx_ranges s) i moved;
  r ← store r last Sack.block_default;
  Ret (s <| Sack.rx_ranges := r |> <| Sack.rx_range_len := Sack.rx_range_len s - 1 |>).

(** Overlapping or exactly adjacent. *)
Definition touches (merged b : Sack.SackBlock) : bool :=
  (sdiff (Sack.left merged) (Sack.right b) <=? 0) &&
  (sdiff (Sack.left b) (Sack.right merged) <=? 0).

Definition extend (merged b : Sack.SackBlock) : Sack.SackBlock :=
  let merged := if sdiff (Sack.left b) (Sack.left merged) <? 0
                then merged <| Sack.left := Sack.left b |> else merged in
  if 0 <? sdiff (Sack.right b) (Sack.right merged)
  then merged <| Sack.right := Sack.right b |> else merged.

Definition merge_step (st : Z * Sack.SackBlock * Sack.SackRackState)
  : res ((Z * Sack.SackBlock * Sack.SackRackState) + (Sack.SackBlock * Sack.SackRackState)) :=
  let '(i, merged, s) := st in
  if i <? Sack.rx_range_len s then
    b ← index (Sack.rx_ranges s) i;
    if touches merged b then
      s ← remove_range i s;
      Ret (inl (i, extend merged b, s))
    else Ret (inl (i + 1, merged, s))
  else Ret (inr (merged, s)).

(** The scoreboard part of [sack_rx_insert_range]. *)
Definition insert_range (left right : Z) (s : Sack.SackRackState) : res Sack.SackRackState :=
  '(merged, s) ← while_loop merge_step 256 (0, Sack.mkBlock left right, s);
  if Sack.SACK_RX_RANGES_MAX <=? Sack.rx_range_len s then Ret s else
  r ← store (Sack.rx_ranges s) (Sack.rx_range_len s) merged;
  Ret (s <| Sack.rx_ranges := r |> <| Sack.rx_range_len := Sack.rx_range_len s + 1 |>
         <| Sack.rx_recent := Some merged |>).

Definition sack_rx_insert_range (t : TcpControlBlock) (left right : Z) : res TcpControlBlock :=
  s ← insert_range left right (sack t); Ret (t <| sack := s |>).

Definition sack_receive_out_of_order (t : TcpControlBlock) (seq : Z) (payload : list Z)
  : res TcpControlBlock :=
  '(n, rb) ← RxRing.write_at (receive_buffer t) (rcv_nxt t) seq payload;
  let t := t <| receive_buffer := rb |> in
  if n =? 0 then Ret t
  else sack_rx_insert_range t seq (wadd seq (n mod U32)).

(** The index of the first range that starts at RCV.NXT: the [for] scan. *)
Fixpoint find_left (ranges : list Sack.SackBlock) (nxt : Z) : option (nat * Sack.SackBlock) :=
  match ranges with
  | [] => None
  | b :: rest =>
      if Sack.left b =? nxt then Some (O, b)
      else match find_left rest nxt with
           | Some (i, b) => Some (S i, b)
           | None => None
           end
  end.

Definition advance_step (t : TcpControlBlock) : res (TcpControlBlock + TcpControlBlock) :=
  let s := sack t in
  live ← slice (Sack.rx_ranges s) 0 (Sack.rx_range_len s);
  match find_left live (rcv_nxt t) with
  | None => Ret (inr t)
  | Some (i, b) =>
      let n := Sack.block_len b in
      rb ← RxRing.advance_contig (receive_buffer t) n;
      s ← remove_range (Z.of_nat i) s;
      let s := if decide (Sack.rx_recent s = Some b) then s <| Sack.rx_recent := None |> else s in
      Ret (inl (t <| receive_buffer := rb |> <| rcv_nxt := wadd (rcv_nxt t) n |> <| sack := s |>))
  end.

Definition sack_rx_advance_from_scoreboard (t : TcpControlBlock) : res TcpControlBlock :=
  while_loop advance_step 256 t.

(** ** The sender's view *)

Definition sack_dsack_undo (t : TcpControlBlock) : TcpControlBlock :=
  let t :=
    if Sack.undo_pending (sack t) then
      let smss := Z.max (effective_mss t) 1 in
      let t := t <| cwnd := Z.max (Sack.undo_cwnd (sack t)) smss |>
                 <| ssthresh := Sack.undo_ssthresh (sack t) |> in
      t <| cwv; Cwv.cwnd_raw := cwnd t |> <| in_fast_recovery := false |>
        <| sack; Sack.undo_pending := false |>
        <| sack; Sack.dsack_undo := sat_add U32 (Sack.dsack_undo (sack t)) 1 |>
    else t in
  let widened := Z.max (sat_mul U64 (Sack.rack_reorder_window (sack t)) 2) (ms 1) in
  t <| sack; Sack.rack_reorder_window := widened |>
    <| sack; Sack.rack_reorder_window_persist :=
               sat_add U8 (Sack.rack_reorder_window_persist (sack t)) 16 |>.

(** One block against one segment; [high] is [high_sacked]. *)
Definition sack_segment (b : Sack.SackBlock) (seg : Seg.UnackedSegment) (high : Z)
  : Seg.UnackedSegment * Z :=
  if Seg.sacked seg then (seg, high)
  else if Sack.covers b (Seg.seq seg) (Seg.end_seq seg) then
    (seg <| Seg.sacked := true |> <| Seg.lost := false |>,
     if 0 <? sdiff (Sack.right b) high then Sack.right b else high)
  else (seg, high).

Fixpoint sack_segments (b : Sack.SackBlock) (q : list Seg.UnackedSegment) (high : Z)
  : list Seg.UnackedSegment * Z :=
  match q with
  | [] => ([], high)
  | seg :: q =>
      let '(seg, high) := sack_segment b seg high in
      let '(q, high) := sack_segments b q high in
      (seg :: q, high)
  end.

Definition sack_block_apply (ack : Z) (t : TcpControlBlock) (b : Sack.SackBlock)
  : TcpControlBlock :=
  if sdiff (Sack.right b) ack <=? 0 then
    sack_dsack_undo (t <| sack; Sack.dsack_seen := sat_add U32 (Sack.dsack_seen (sack t)) 1 |>)
  else
    let '(q, high) := sack_segments b (retransmission_queue t) (Sack.high_sacked (sack t)) in
    t <| retransmission_queue := q |> <| sack; Sack.high_sacked := high |>.

Definition sack_tx_apply (t : TcpControlBlock) (ack : Z) (blocks : list Sack.SackBlock)
  : TcpControlBlock :=
  match blocks with
  | [] => t
  | _ =>
      let t := t <| sack; Sack.blocks_rx :=
                      sat_add U32 (Sack.blocks_rx (sack t)) (zlen blocks mod U32) |> in
      foldl (sack_block_apply ack) t blocks
  end.

Definition sack_enter_recovery (t : TcpControlBlock) : TcpControlBlock :=
  t <| sack; Sack.undo_cwnd := cwnd t |> <| sack; Sack.undo_ssthresh := ssthresh t |>
    <| sack; Sack.undo_pending := true |>.

Definition seg_len (s : Seg.UnackedSegment) : Z := wsub (Seg.end_seq s) (Seg.seq s).

Definition sum_len (q : list Seg.UnackedSegment) : Z :=
  foldl (λ acc s, sat_add U32 acc (seg_len s)) 0 q.

Definition sack_bytes_above (t : TcpControlBlock) (seq : Z) : Z :=
  sum_len (filter (λ s, Seg.sacked s && (0 <=? sdiff (Seg.seq s) seq)) (retransmission_queue t)).

Definition sack_pipe_bytes (t : TcpControlBlock) : Z :=
  sum_len (filter (λ s, negb (Seg.sacked s) && negb (Seg.lost s)) (retransmission_queue t)).

Definition sack_has_lost (t : TcpControlBlock) : bool :=
  existsb (λ s, Seg.lost s && negb (Seg.sacked s)) (retransmission_queue t).

(** Marks the first segment at [seq], if it is neither SACKed nor marked;
    the flag says whether it did. *)
Fixpoint mark_seq (q : list Seg.UnackedSegment) (seq : Z) : list Seg.UnackedSegment * bool :=
  match q with
  | [] => ([], false)
  | s :: q =>
      if Seg.seq s =? seq then
        if negb (Seg.sacked s) && negb (Seg.lost s) then (s <| Seg.lost := true |> :: q, true)
        else (s :: q, false)
      else let '(q, b) := mark_seq q seq in (s :: q, b)
  end.

Definition mark_candidate (threshold : Z) (t : TcpControlBlock) (seq : Z) : TcpControlBlock :=
  if sack_bytes_above t seq <? threshold then t else
  let '(q, marked) := mark_seq (retransmission_queue t) seq in
  let t := t <| retransmission_queue := q |> in
  if marked then t <| sack; Sack.islost_marks := sat_add U32 (Sack.islost_marks (sack t)) 1 |>
  else t.

Definition sack_mark_lost (t : TcpControlBlock) : TcpControlBlock :=
  let smss := Z.max (effective_mss t) 1 in
  let threshold := sat_mul U32 Sack.DUP_THRESH smss in
  let candidates := Seg.seq <$> filter (λ s, negb (Seg.sacked s)) (retransmission_queue t) in
  foldl (mark_candidate threshold) t candidates.

(** ** RACK *)

Definition rack_feed_rtt (t : TcpControlBlock) (r : Duration) : TcpControlBlock :=
  t <| sack; Sack.rack_min_rtt := Z.min (Sack.rack_min_rtt (sack t)) r |>.

Definition rack_update_reordering_winow (t : TcpControlBlock) : TcpControlBlock :=
  if 0 <? Sack.rack_reorder_window_persist (sack t) then
    t <| sack; Sack.rack_reorder_window_persist :=
                 Sack.rack_reorder_window_persist (sack t) - 1 |>
  else t <| sack; Sack.rack_reorder_window := Sack.rack_min_rtt (sack t) / 4 |>.

(** [Iterator::max] over the transmission times of the SACKed segments. *)
Definition newest_xmit (q : list Seg.UnackedSegment) : option Instant :=
  foldl (λ m s, if Seg.sacked s then
                  Some (match m with Some x => Z.max x (Seg.xmit_mstamp s)
                                   | None => Seg.xmit_mstamp s end)
                else m) None q.

Definition rack_lost (xmit_ts reo_wnd : Z) (s : Seg.UnackedSegment) : bool :=
  negb (Seg.sacked s) && negb (Seg.lost s) &&
  (Seg.xmit_mstamp s <? xmit_ts) && (reo_wnd <? elapsed xmit_ts (Seg.xmit_mstamp s)).

Fixpoint rack_mark (xmit_ts reo_wnd : Z) (q : list Seg.UnackedSegment) (marks : Z)
  : list Seg.UnackedSegment * Z :=
  match q with
  | [] => ([], marks)
  | s :: q =>
      let '(s, marks) := if rack_lost xmit_ts reo_wnd s
                         then (s <| Seg.lost := true |>, sat_add U32 marks 1) else (s, marks) in
      let '(q, marks) := rack_mark xmit_ts reo_wnd q marks in
      (s :: q, marks)
  end.

(** [now] is the reading taken when a newer delivery is found. *)
Definition rack_detect (now : Instant) (t : TcpControlBlock) : TcpControlBlock :=
  let t :=
    match newest_xmit (retransmission_queue t) with
    | Some xmit_ts =>
        if Sack.rack_xmit_ts (sack t) <? xmit_ts then
          let t := t <| sack; Sack.rack_xmit_ts := xmit_ts |> in
          if xmit_ts <? now then
            t <| sack; Sack.rack_min_rtt :=
                   Z.min (Sack.rack_min_rtt (sack t)) (elapsed now xmit_ts) |>
          else t
        else t
    | None => t
    end in
  let t := rack_update_reordering_winow t in
  let '(q, marks) := rack_mark (Sack.rack_xmit_ts (sack t)) (Sack.rack_reorder_window (sack t))
                       (retransmission_queue t) (Sack.rack_marks (sack t)) in
  t <| retransmission_queue := q |> <| sack; Sack.rack_marks := marks |>.

(** ** Tail loss probe timer *)

Definition MIN_PTO : Duration := ms 10.
Definition WORST_CASE_DELAYED_ACK : Duration := ms 200.

Definition tlp_arm (now : Instant) (t : TcpControlBlock) : TcpControlBlock :=
  if (match retransmission_queue t with [] => true | _ => false end) || in_fast_recovery t then
    t <| sack; Sack.tlp_deadline := None |>
  else
    let srtt := default (ms 200) (srtt t) in
    let rttvar := default (ms 50) (rttvar t) in
    let pto :=
      if 1 <? zlen (retransmission_queue t) then Z.max (sat_mul U64 srtt 2) MIN_PTO
      else let jitter := sat_mul U64 rttvar 4 in
           Z.max (sat_add U64 srtt jitter) WORST_CASE_DELAYED_ACK in
    t <| sack; Sack.tlp_deadline := Some (instant_add now pto) |>.

(** ** The scoreboard as a set of ranges

    Ranges are read as offsets from a base sequence number; inside half the
    sequence space the wrapping comparisons are comparisons of offsets. *)

Definition range : Type := Z * Z.

Definition blk (base : Z) (x : range) : Sack.SackBlock :=
  Sack.mkBlock (wadd base x.1) (wadd base x.2).

(** Separated by at least one missing byte. *)
Definition apart (x y : range) : Prop := x.2 < y.1 ∨ y.2 < x.1.

Fixpoint separated (offs : list range) : Prop :=
  match offs with
  | [] => True
  | x :: offs => Forall (apart x) offs ∧ separated offs
  end.

Definition in_range (x : range) : Prop := 0 ≤ x.1 < x.2 ∧ x.2 < I32.

Definition covered (offs : list range) (k : Z) : Prop := ∃ x, x ∈ offs ∧ x.1 ≤ k < x.2.

(** The scoreboard [s] holds the ranges [offs]. *)
Record holds (base : Z) (s : Sack.SackRackState) (offs : list range) : Prop := {
  holds_cells : zlen (Sack.rx_ranges s) = 8;
  holds_len : Sack.rx_range_len s = zlen offs;
  holds_max : zlen offs ≤ 8;
  holds_live : ztake (zlen offs) (Sack.rx_ranges s) = blk base <$> offs;
  holds_range : Forall in_range offs;
  holds_sep : separated offs
}.

(** The block reported first is one of the ranges. *)
Definition recent_ok (s : Sack.SackRackState) : Prop :=
  match Sack.rx_recent s with
  | None => True
  | Some b => b ∈ ztake (Sack.rx_range_len s) (Sack.rx_ranges s)
  end.

(** Only the scoreboard differs. *)
Definition sb_frame (s s' : Sack.SackRackState) : Prop :=
  s' = s <| Sack.rx_ranges := Sack.rx_ranges s' |>
         <| Sack.rx_range_len := Sack.rx_range_len s' |>
         <| Sack.rx_recent := Sack.rx_recent s' |>.

Lemma sb_frame_refl s : sb_frame s s.
Proof. destruct s; reflexivity. Qed.

Lemma sb_frame_trans s1 s2 s3 : sb_frame s1 s2 → sb_frame s2 s3 → sb_frame s1 s3.
Proof. unfold sb_frame. intros H1 H2. rewrite H2. rewrite H1 at 1. destruct s1; reflexivity. Qed.

Lemma apart_sym x y : apart x y → apart y x.
Proof. unfold apart. tauto. Qed.

Lemma separated_perm l1 l2 : l1 ≡ₚ l2 → separated l1 → separated l2.
Proof.
  induction 1 as [|x l1 l2 Hp IH|x y l|l1 l2 l3 H1 IH1 H2 IH2]; simpl; auto.
  - intros [Hx Hs]. split; [|auto]. rewrite Forall_forall in *. setoid_rewrite <- Hp. assumption.
  - rewrite !Forall_cons. intros ((Hxy & Hx) & Hy & Hs). auto using apart_sym.
Qed.

Lemma covered_perm l1 l2 k : l1 ≡ₚ l2 → covered l1 k ↔ covered l2 k.
Proof. intros H. unfold covered. setoid_rewrite H. reflexivity. Qed.

Lemma covered_cons x l k : covered (x :: l) k ↔ x.1 ≤ k < x.2 ∨ covered l k.
Proof.
  unfold covered. setoid_rewrite elem_of_cons. split.
  - intros (y & [->|Hy] & Hk); eauto.
  - intros [Hk|(y & Hy & Hk)]; eauto.
Qed.

Lemma sdiff_offs base i j : 0 ≤ i < I32 → 0 ≤ j < I32 → sdiff (wadd base i) (wadd base j) = i - j.
Proof. intros. apply sdiff_small. lia. Qed.

Lemma touches_apart base x y :
  in_range x → in_range y → touches (blk base x) (blk base y) = false ↔ apart x y.
Proof.
  intros [] []. unfold touches, blk, apart. cbn [Sack.left Sack.right].
  rewrite !sdiff_offs by lia.
  destruct (Z.leb_spec (x.1 - y.2) 0), (Z.leb_spec (y.1 - x.2) 0); simpl; split; intros; lia || done.
Qed.

Definition hull (x y : range) : range := (Z.min x.1 y.1, Z.max x.2 y.2).

Lemma extend_hull base x y :
  in_range x → in_range y → extend (blk base x) (blk base y) = blk base (hull x y).
Proof.
  intros [] []. unfold extend, blk, hull. cbn [Sack.left Sack.right].
  rewrite sdiff_offs by lia. destruct (Z.ltb_spec (y.1 - x.1) 0); rsimp; cbn [Sack.left Sack.right].
  all: rewrite sdiff_offs by lia; destruct (Z.ltb_spec 0 (y.2 - x.2)).
  all: cbn [fst snd update]; unfold update; cbn [Sack.left Sack.right];
    f_equal; f_equal; lia.
Qed.

Lemma hull_in_range x y : in_range x → in_range y → in_range (hull x y).
Proof. unfold in_range, hull. simpl. lia. Qed.

Lemma hull_apart x y z : ¬ apart x y → apart x z → apart y z → in_range x → in_range y → in_range z →
  apart (hull x y) z.
Proof. unfold apart, hull, in_range. simpl. lia. Qed.

Lemma hull_covered x y k : ¬ apart x y → in_range x → in_range y →
  (hull x y).1 ≤ k < (hull x y).2 ↔ (x.1 ≤ k < x.2 ∨ y.1 ≤ k < y.2).
Proof. unfold apart, hull, in_range. simpl. lia. Qed.

Lemma holds_lookup base s offs i x :
  holds base s offs → 0 ≤ i → offs !! Z.to_nat i = Some x →
  Sack.rx_ranges s !! Z.to_nat i = Some (blk base x).
Proof.
  intros [] Hi Hx. pose proof (lookup_lt_Some _ _ _ Hx) as Hlt.
  assert (H : ztake (zlen offs) (Sack.rx_ranges s) !! Z.to_nat i = Some (blk base x)).
  { rewrite holds_live0, list_lookup_fmap, Hx. reflexivity. }
  unfold ztake, zlen in H. rewrite Nat2Z.id, lookup_take_lt in H by lia. assumption.
Qed.

Lemma store_insert {A} (l : list A) i x :
  0 ≤ i < zlen l → store l i x = Ret (<[Z.to_nat i := x]> l).
Proof.
  intros. rewrite store_ret by assumption. f_equal. unfold splice, ztake, zdrop, zlen in *.
  rewrite insert_take_drop by lia. simpl. do 3 f_equal. lia.
Qed.

(** What is left of [init ++ [y]] when slot [i] takes the last entry. *)
Definition swap_out {A} (init : list A) (y : A) (i : nat) : list A := <[i := y]> init.

Lemma swap_out_perm {A} (init : list A) (y x : A) i :
  (init ++ [y]) !! i = Some x → init ++ [y] ≡ₚ x :: swap_out init y i.
Proof.
  intros Hx. unfold swap_out. destruct (decide (i < length init)%nat) as [Hi|Hi].
  - rewrite lookup_app_l in Hx by assumption.
    rewrite insert_take_drop by assumption.
    rewrite <- (take_drop_middle init i x Hx) at 1. solve_Permutation.
  - rewrite lookup_app_r in Hx by lia. rewrite list_insert_ge by lia.
    destruct (i - length init)%nat; simplify_eq/=. solve_Permutation.
Qed.

Lemma remove_range_spec base s offs i x :
  holds base s offs → 0 ≤ i → offs !! Z.to_nat i = Some x →
  returns (remove_range i s) (λ s', ∃ offs',
    holds base s' offs' ∧ offs ≡ₚ x :: offs' ∧ ztake i offs' = ztake i offs ∧
    Sack.rx_recent s' = Sack.rx_recent s ∧ sb_frame s s').
Proof.
  intros Hh Hi Hx. pose proof (lookup_lt_Some _ _ _ Hx) as Hlt.
  destruct offs as [|y init _] using rev_ind; [simpl in Hlt; lia|].
  rewrite length_app in Hlt. simpl in Hlt.
  pose proof Hh as [Hc Hl Hm Hv Hr Hs]. rewrite zlen_app in *. change (zlen [y]) with 1 in *.
  set (n := length init). assert (Hn : zlen init = Z.of_nat n) by reflexivity.
  set (r := Sack.rx_ranges s) in *.
  assert (Hy : index r (Sack.rx_range_len s - 1) = Ret (blk base y)).
  { apply index_lookup; [lia|]. apply (holds_lookup base s (init ++ [y])); [assumption|lia|].
    rewrite lookup_app_r by lia. replace (_ - _)%nat with O by lia. reflexivity. }
  unfold remove_range. cbv zeta. fold r. rewrite Hy, ret_bind.
  rewrite store_insert, ret_bind by lia.
  rewrite store_insert, ret_bind by (unfold zlen in *; rewrite length_insert; lia).
  apply returns_ret. exists (swap_out init y (Z.to_nat i)).
  pose proof (swap_out_perm init y x (Z.to_nat i) Hx) as Hp.
  assert (Hlen : zlen (swap_out init y (Z.to_nat i)) = zlen init)
    by (unfold zlen, swap_out; rewrite length_insert; reflexivity).
  split; [|split; [assumption|split; [|split; reflexivity]]].
  - constructor; rsimp; rewrite ?Hlen; try lia.
    + unfold zlen in *. rewrite !length_insert. assumption.
    + unfold ztake in *. replace (Z.to_nat (zlen init)) with n by lia.
      replace (Z.to_nat (zlen init + 1)) with (S n) in Hv by lia.
      rewrite take_insert_ge by lia.
      destruct (decide (Z.to_nat i < n)%nat) as [Hin|Hin].
      * rewrite take_insert_lt by assumption. unfold swap_out. rewrite list_fmap_insert.
        f_equal. apply (f_equal (take n)) in Hv. rewrite take_take, Nat.min_l in Hv by lia.
        rewrite Hv, fmap_app. rewrite take_app_length'; [reflexivity|by rewrite length_fmap].
      * rewrite take_insert_ge by lia. unfold swap_out. rewrite list_insert_ge by lia.
        apply (f_equal (take n)) in Hv. rewrite take_take, Nat.min_l in Hv by lia.
        rewrite Hv, fmap_app. rewrite take_app_length'; [reflexivity|by rewrite length_fmap].
    + rewrite Hp in Hr. by inversion Hr.
    + apply (separated_perm _ _ Hp) in Hs. apply Hs.
  - unfold ztake, swap_out. rewrite take_insert_ge by lia.
    rewrite take_app_le by lia. reflexivity.
Qed.

(** Where the merge loop stands: [x] is the merged range so far, [offs] the
    ranges left, the first [i] of them already known to be apart from it. *)
Record merging (base : Z) (s0 : Sack.SackRackState) (x0 : range) (offs0 : list range)
    (i : Z) (x : range) (s : Sack.SackRackState) (offs : list range) : Prop := {
  mg_holds : holds base s offs;
  mg_range : in_range x;
  mg_idx : 0 ≤ i ≤ zlen offs;
  mg_apart : Forall (apart x) (ztake i offs);
  mg_cov : ∀ k, (x.1 ≤ k < x.2 ∨ covered offs k) ↔ (x0.1 ≤ k < x0.2 ∨ covered offs0 k);
  mg_new : x = x0 ∧ offs = offs0 ∧ s = s0 ∨ zlen offs < zlen offs0;
  mg_recent : Sack.rx_recent s = Sack.rx_recent s0;
  mg_frame : sb_frame s0 s
}.

Lemma merge_step_spec base s0 x0 offs0 i x s offs :
  merging base s0 x0 offs0 i x s offs →
  returns (merge_step (i, blk base x, s)) (λ r,
    match r with
    | inl (i', m', s') => ∃ x' offs', m' = blk base x' ∧
        merging base s0 x0 offs0 i' x' s' offs' ∧ zlen offs' - i' < zlen offs - i
    | inr (m', s') => m' = blk base x ∧ s' = s ∧ Forall (apart x) offs
    end).
Proof.
  intros [Hh Hx Hi Ha Hc Hn Hrc Hf]. pose proof Hh as []. unfold merge_step.
  rewrite holds_len0. destruct (Z.ltb_spec i (zlen offs)) as [Hlt|Hge].
  - destruct (lookup_lt_is_Some_2 offs (Z.to_nat i)) as [y Hy]; [unfold zlen in *; lia|].
    rewrite (index_lookup _ i (blk base y)), ret_bind
      by (lia || (eapply holds_lookup; eauto; lia)).
    assert (Hry : in_range y) by (rewrite Forall_lookup in holds_range0; eauto).
    destruct (touches (blk base x) (blk base y)) eqn:Et.
    + assert (Hna : ¬ apart x y).
      { intros Hap. apply (touches_apart base) in Hap; [congruence|assumption..]. }
      destruct (remove_range_spec base s offs i y) as (s' & -> & offs' & Hh' & Hp & Htk & Hr' & Hf');
        [assumption|lia|assumption|].
      rewrite ret_bind. apply returns_ret. exists (hull x y), offs'.
      assert (Hl : zlen offs = 1 + zlen offs').
      { unfold zlen. apply Permutation_length in Hp. rewrite Hp. simpl. lia. }
      split; [by apply extend_hull|]. split; [|lia].
      assert (Hsep : Forall (apart y) offs' ∧ separated offs')
        by apply (separated_perm _ _ Hp holds_sep0).
      pose proof (holds_range _ _ _ Hh') as Hr2.
      constructor; [assumption|by apply hull_in_range|lia| |..].
      * rewrite Htk. apply Forall_forall. intros z Hz.
        assert (Hz' : z ∈ offs') by (rewrite <- Htk in Hz; by apply elem_of_take in Hz as (? & ?%list_elem_of_lookup_2 & _)).
        rewrite !Forall_forall in *. apply hull_apart; auto; by apply (proj1 Hsep).
      * intros k. rewrite <- (Hc k), hull_covered by assumption.
        rewrite (covered_perm _ _ k Hp), covered_cons. tauto.
      * right. destruct Hn as [(-> & -> & ->)|Hn]; lia.
      * congruence.
      * eapply sb_frame_trans; eauto.
    + apply returns_ret. exists x, offs. split; [reflexivity|]. split; [|lia].
      constructor; auto; [lia|].
      unfold ztake. replace (Z.to_nat (i + 1)) with (S (Z.to_nat i)) by lia.
      rewrite (take_S_r _ _ _ Hy). apply Forall_app_2; [assumption|].
      constructor; [|constructor]. by apply (touches_apart base).
  - apply returns_ret. split; [reflexivity|split; [reflexivity|]].
    rewrite ztake_all in Ha by lia. assumption.
Qed.

(** Inserting a range: the covered bytes are joined, the ranges stay apart;
    a range that touches nothing is dropped when all eight slots are taken. *)
Lemma insert_range_spec base s offs x :
  holds base s offs → recent_ok s → in_range x →
  returns (insert_range (wadd base x.1) (wadd base x.2) s) (λ s', ∃ offs',
    holds base s' offs' ∧ recent_ok s' ∧ sb_frame s s' ∧
    ((∀ k, covered offs' k ↔ covered offs k ∨ x.1 ≤ k < x.2) ∨
     s' = s ∧ offs' = offs ∧ zlen offs = 8 ∧ Forall (apart x) offs)).
Proof.
  intros Hh Hrec Hx. unfold insert_range.
  change (Sack.mkBlock (wadd base x.1) (wadd base x.2)) with (blk base x).
  assert (Hloop : returns (while_loop merge_step 256 (0, blk base x, s)) (λ '(m', s'),
    ∃ x' offs' i, m' = blk base x' ∧ merging base s x offs i x' s' offs' ∧
                  Forall (apart x') offs')).
  { apply while_loop_total with
      (I := λ '(i, m, s'), ∃ x' offs', m = blk base x' ∧ merging base s x offs i x' s' offs')
      (m := λ '(i, m, s'), Sack.rx_range_len s' - i).
    - intros [[i m] s'] (x' & offs' & -> & Hm) _.
      destruct (merge_step_spec _ _ _ _ _ _ _ _ Hm) as ([[[i2 m2] s2]|[m2 s2]] & -> & Hr);
        apply returns_ret.
      + destruct Hr as (x2 & offs2 & -> & Hm2 & Hlt). split; [eauto|].
        destruct Hm as [[] ? ? ? ? ? ?], Hm2 as [[] ? ? ? ? ? ?]. lia.
      + destruct Hr as (-> & -> & Hap). eauto 10.
    - exists x, offs. split; [reflexivity|].
      constructor; auto using sb_frame_refl.
      pose proof (zlen_nonneg offs). lia.
    - destruct Hh. rewrite holds_len0. pose proof (zlen_nonneg offs). lia. }
  destruct Hloop as ([m' s'] & -> & x' & offs' & i & -> & [Hh' Hx' Hi Ha Hc Hn Hr Hf] & Hap).
  rewrite ret_bind. pose proof Hh' as []. rewrite holds_len0. unfold Sack.SACK_RX_RANGES_MAX.
  destruct (Z.leb_spec 8 (zlen offs')) as [Hfull|Hroom].
  - destruct Hn as [(-> & -> & ->)|Hn]; [|destruct Hh; lia].
    apply returns_ret. exists offs. split; [assumption|]. split; [assumption|].
    split; [assumption|right]. repeat split; auto; lia.
  - rewrite store_insert, ret_bind by (pose proof (zlen_nonneg offs'); lia).
    apply returns_ret. exists (offs' ++ [x']).
    assert (Hlive : ztake (zlen offs' + 1)
              (<[Z.to_nat (zlen offs') := blk base x']> (Sack.rx_ranges s'))
            = blk base <$> (offs' ++ [x'])).
    { unfold ztake, zlen in *. replace (Z.to_nat (_ + 1)) with (S (length offs')) by lia.
      rewrite Nat2Z.id in *. rewrite (take_S_r _ _ (blk base x')).
      - rewrite take_insert_ge by lia. rewrite holds_live0, fmap_app. reflexivity.
      - apply list_lookup_insert_eq. lia. }
    assert (Hp : offs' ++ [x'] ≡ₚ x' :: offs') by solve_Permutation.
    split; [|split; [|split]].
    + constructor; rsimp; rewrite ?zlen_app; change (zlen [x']) with 1; try lia; try assumption.
      * unfold zlen in *. rewrite length_insert. assumption.
      * apply Forall_app_2; [assumption|by apply Forall_singleton].
      * eapply separated_perm; [symmetry; apply Hp|]. simpl. auto.
    + unfold recent_ok. rsimp. rewrite Hlive, fmap_app. simpl.
      apply elem_of_app. right. apply list_elem_of_singleton. reflexivity.
    + eapply sb_frame_trans; [apply Hf|]. reflexivity.
    + left. intros k. rewrite (covered_perm _ _ k Hp), covered_cons, (Hc k). tauto.
Qed.
