(* ===== verification/TcpReassembly.v ===== *)
(** * The receive path of a data segment

    Lines 817-904 of [driver/recv.rs]: what a payload does to the receive
    buffer, RCV.NXT and the scoreboard; and the theorem that the application
    reads exactly the peer's byte stream. *)

From S2P Require Import Prelude Time ReceiveBuffer TcpTypes TcpSack.

(** [seq == RCV.NXT]; the flag asks for an immediate ACK. *)
Definition rx_in_order (t : TcpControlBlock) (seq : Z) (payload : list Z)
  : res (bool * TcpControlBlock) :=
  '(n, rb) ← (if Sack.enabled (sack t)
              then RxRing.write_at (receive_buffer t) (rcv_nxt t) seq payload
              else RxRing.write (receive_buffer t) payload);
  let t := t <| receive_buffer := rb |> in
  if n =? 0 then Ret (true, t) else
  let t := t <| rcv_nxt := wadd (rcv_nxt t) (n mod U32) |> in
  t ← (if Sack.enabled (sack t) then sack_rx_advance_from_scoreboard t else Ret t);
  t ← update_rcv_wnd_from_buffer t;
  u ← add_chk U8 (unacked_segments t) 1;
  Ret (false, t <| ack_needed := true |> <| unacked_segments := u |>).

Definition rx_out_of_order (t : TcpControlBlock) (seq : Z) (payload : list Z)
  : res (bool * TcpControlBlock) :=
  t ← (if Sack.enabled (sack t) then
         t ← sack_receive_out_of_order t seq payload;
         update_rcv_wnd_from_buffer t
       else Ret t);
  Ret (true, t).

Definition rx_payload (t : TcpControlBlock) (seq : Z) (payload : list Z)
  : res (bool * TcpControlBlock) :=
  match payload with
  | [] =>
      if rcv_wnd t =? 0 then
        u ← add_chk U8 (unacked_segments t) 1;
        Ret (false, t <| ack_needed := true |> <| unacked_segments := u |>)
      else Ret (false, t)
  | _ => if seq =? rcv_nxt t then rx_in_order t seq payload else rx_out_of_order t seq payload
  end.

(** The delayed-ACK decision; the flag asks for an immediate ACK. *)
Definition rx_ack (now : Instant) (psh fin : bool) (t : TcpControlBlock)
  : bool * TcpControlBlock :=
  if ack_needed t then
    if psh || fin || (rcv_wnd t =? 0) || (2 <=? unacked_segments t) then
      (true, t <| ack_needed := false |> <| unacked_segments := 0 |> <| ack_deadline := None |>)
    else (false, t <| ack_deadline := Some (instant_add now (ms 40)) |>)
  else (false, t).

(** Payload, FIN, acknowledgment, wake-up.  [now] holds the readings of
    [handle_fin_flag] and of the delayed ACK. *)
Definition rx_segment (now : clock) (psh fin : bool) (seq : Z) (payload : list Z)
    (t : TcpControlBlock) : res (bool * TcpControlBlock) :=
  '(ack1, t) ← rx_payload t seq payload;
  let t := if fin then (handle_fin_flag (now 0%nat) t) <| ack_needed := true |> else t in
  let '(ack2, t) := rx_ack (now 1%nat) psh fin t in
  let t := if negb (zlen payload =? 0) || fin then t <| event := event_notify (event t) |> else t in
  Ret (ack1 || ack2, t).

(** The application's side of [receive_sync]: one read that finds data. *)
Definition rx_read (t : TcpControlBlock) (len : Z) : res (list Z * TcpControlBlock) :=
  '(out, rb) ← RxRing.read (receive_buffer t) len;
  let t := t <| receive_buffer := rb |> in
  match out with
  | [] => Ret ([], t)
  | _ => t ← update_rcv_wnd_from_buffer t; Ret (out, t)
  end.

(** ** The invariant

    [strm k] is byte [k] of the stream the peer sends, [N] the number of
    bytes accepted so far; [offs] are the ranges on the scoreboard, as
    offsets from RCV.NXT. *)

Definition stream : Type := Z → Z.
Definition chunk (strm : stream) (i n : Z) : list Z := strm <$> seqZ i n.

(** Inside [RxRing.wf] the buffer holds the stream up to [N] and, past it,
    the ranges. *)
Record assembled (strm : stream) (N : Z) (b : RxRing.TcpReceiveBuffer) (offs : list range)
  : Prop := {
  as_wf : RxRing.wf b;
  as_cap : RxRing.capacity b < I32;
  as_read : RxRing.readable b = chunk strm (N - RxRing.size b) (RxRing.size b);
  as_ahead : ∀ k, covered offs k → RxRing.ahead b k = strm (N + k);
  as_fit : Forall (λ x : range, x.2 ≤ RxRing.capacity b - RxRing.size b) offs
}.

Record rx_inv (strm : stream) (N : Z) (t : TcpControlBlock) : Prop := {
  rx_nxt : u32 (rcv_nxt t);
  rx_sack : ∃ offs, holds (rcv_nxt t) (sack t) offs ∧ ¬ covered offs 0 ∧
                    assembled strm N (receive_buffer t) offs;
  rx_recent_in : recent_ok (sack t);
  rx_off : Sack.enabled (sack t) = false → Sack.rx_range_len (sack t) = 0
}.

(** No range on the scoreboard starts within the next [len] bytes. *)
Definition stops_before (t : TcpControlBlock) (len : Z) : Prop :=
  Forall (λ b, len ≤ wsub (Sack.left b) (rcv_nxt t))
    (ztake (Sack.rx_range_len (sack t)) (Sack.rx_ranges (sack t))).

(** A segment [off] bytes past RCV.NXT that respects the room in the buffer
    and, if it is in order, does not reach into a range on the scoreboard. *)
Definition fitting (t : TcpControlBlock) (off len : Z) : Prop :=
  0 ≤ off ∧ 0 < len ∧
  RxRing.size (receive_buffer t) + off + len ≤ RxRing.capacity (receive_buffer t) ∧
  (off = 0 → stops_before t len).

(** Such a segment, or one that starts before RCV.NXT: a duplicate, or one that
    repeats old bytes before new ones. *)
Definition conforming (t : TcpControlBlock) (off len : Z) : Prop :=
  - I32 ≤ off < 0 ∧ 0 < len ∨ fitting t off len.

Lemma zlen_chunk strm i n : 0 ≤ n → zlen (chunk strm i n) = n.
Proof. intros. unfold chunk, zlen. rewrite length_fmap, length_seqZ. lia. Qed.

Lemma byte_at_chunk strm i n k : 0 ≤ k < n → byte_at (chunk strm i n) k = strm (i + k).
Proof.
  intros. unfold chunk, byte_at. rewrite list_lookup_fmap, lookup_seqZ_lt by lia.
  simpl. f_equal. lia.
Qed.

Lemma chunk_app strm i n m : 0 ≤ n → 0 ≤ m →
  chunk strm i n ++ chunk strm (i + n) m = chunk strm i (n + m).
Proof.
  intros. apply byte_list_eq.
  - rewrite zlen_app, !zlen_chunk; lia.
  - rewrite zlen_app, !zlen_chunk by lia. intros k Hk.
    rewrite byte_at_app, zlen_chunk by lia.
    destruct (Z.ltb_spec k n); rewrite !byte_at_chunk by lia; f_equal; lia.
Qed.

Lemma chunk_split strm i n k : 0 ≤ k ≤ n →
  ztake k (chunk strm i n) = chunk strm i k ∧ zdrop k (chunk strm i n) = chunk strm (i + k) (n - k).
Proof.
  intros. assert (chunk strm i n = chunk strm i k ++ chunk strm (i + k) (n - k)) as ->
    by (rewrite chunk_app by lia; f_equal; lia).
  unfold ztake, zdrop.
  assert (Hl : length (chunk strm i k) = Z.to_nat k).
  { pose proof (zlen_chunk strm i k ltac:(lia)). unfold zlen in *. lia. }
  split; [rewrite take_app_length'|rewrite drop_app_length']; auto.
Qed.

Lemma chunk_nonempty strm i n : 0 < n → chunk strm i n ≠ [].
Proof. intros Hn He. apply (f_equal zlen) in He. rewrite zlen_chunk in He by lia. unfold zlen in He. simpl in He. lia. Qed.

(** ** Moving the base of the scoreboard *)

Definition shift (n : Z) (x : range) : range := (x.1 - n, x.2 - n).

Lemma blk_shift base n x : blk (wadd base n) (shift n x) = blk base x.
Proof.
  unfold blk, shift. cbn [fst snd]. rewrite !wadd_assoc. do 2 f_equal; lia.
Qed.

Lemma separated_shift n offs : separated offs → separated (shift n <$> offs).
Proof.
  induction offs as [|x offs IH]; simpl; [done|]. intros [Hx Hs]. split; [|auto].
  apply Forall_fmap. eapply Forall_impl; [apply Hx|].
  intros y. unfold apart, shift. simpl. lia.
Qed.

Lemma covered_shift n offs k : covered (shift n <$> offs) k ↔ covered offs (k + n).
Proof.
  unfold covered, shift. split.
  - intros (x & Hx & Hk). apply list_elem_of_fmap in Hx as (y & -> & Hy).
    exists y. simpl in *. split; [assumption|lia].
  - intros (x & Hx & Hk). exists (shift n x). split; [by apply list_elem_of_fmap_2|].
    unfold shift. simpl. lia.
Qed.

Lemma holds_shift base s offs n :
  holds base s offs → 0 ≤ n → Forall (λ x : range, n ≤ x.1) offs →
  holds (wadd base n) s (shift n <$> offs).
Proof.
  intros [] Hn Hge.
  assert (Hz : zlen (shift n <$> offs) = zlen offs) by (unfold zlen; rewrite length_fmap; lia).
  constructor; rewrite ?Hz; auto.
  - rewrite holds_live, <- list_fmap_compose.
    apply list_fmap_ext. intros _ x _. unfold compose. symmetry. apply blk_shift.
  - apply Forall_fmap, Forall_forall. intros x Hx. rewrite !Forall_forall in *.
    specialize (holds_range x Hx). specialize (Hge x Hx).
    unfold compose, in_range, shift in *. simpl. lia.
  - by apply separated_shift.
Qed.

(** ** One step of each operation *)

Section Steps.
Context (strm : stream).

Lemma assembled_shift N b offs n b' :
  assembled strm N b offs → 0 ≤ n → Forall (λ x : range, n ≤ x.1) offs →
  RxRing.wf b' → RxRing.capacity b' = RxRing.capacity b →
  RxRing.size b' = RxRing.size b + n →
  RxRing.readable b' = RxRing.readable b ++ chunk strm N n →
  (∀ k, 0 ≤ k < RxRing.capacity b - RxRing.size b - n →
     RxRing.ahead b' k = RxRing.ahead b (n + k)) →
  assembled strm (N + n) b' (shift n <$> offs).
Proof.
  intros [Hw Hc Hr Ha Hf] Hn Hge Hw' Hcap Hsz Hrd Hah. pose proof Hw as [].
  constructor; [assumption|lia| | |].
  - rewrite Hrd, Hr, Hsz. replace N with (N - RxRing.size b + RxRing.size b) at 2 by lia.
    rewrite chunk_app by lia. f_equal; lia.
  - intros k Hk. apply covered_shift in Hk as Hk'.
    assert (Hb : 0 ≤ k < RxRing.capacity b - RxRing.size b - n).
    { destruct Hk' as (x & Hx & Hkx). rewrite Forall_forall in Hge, Hf.
      specialize (Hge x Hx). specialize (Hf x Hx). lia. }
    rewrite Hah by assumption. rewrite Ha by (by replace (n + k) with (k + n) by lia).
    f_equal. lia.
  - apply Forall_fmap. eapply Forall_impl; [apply Hf|]. intros x. unfold shift. simpl. lia.
Qed.

(** What the advance loop maintains: a range may start at RCV.NXT. *)
Record folding (N : Z) (t : TcpControlBlock) (offs : list range) : Prop := {
  fd_nxt : u32 (rcv_nxt t);
  fd_holds : holds (rcv_nxt t) (sack t) offs;
  fd_asm : assembled strm N (receive_buffer t) offs;
  fd_recent : recent_ok (sack t)
}.

Lemma find_left_spec base offs :
  u32 base → Forall in_range offs →
  match find_left (blk base <$> offs) base with
  | None => ¬ covered offs 0
  | Some (i, b) => ∃ r, offs !! i = Some (0, r) ∧ b = blk base (0, r)
  end.
Proof.
  intros Hb. induction 1 as [|[l r] offs [Hl Hr] H IH]; cbn [fst snd] in *.
  - intros (x & Hx & _). by apply elem_of_nil in Hx.
  - rewrite fmap_cons. cbn [find_left]. change (Sack.left (blk base (l, r))) with (wadd base l).
    destruct (Z.eqb_spec (wadd base l) base) as [He|He].
    + exists r. assert (l = 0) as ->; [|auto]. unfold wadd in He. mlia.
    + destruct (find_left (blk base <$> offs) base) as [[i b]|]; [destruct IH as (r' & ? & ?); exists r'; auto|].
      rewrite covered_cons. intros [Hk|Hk]; [|auto]. simpl in Hk.
      assert (l = 0) as -> by lia. by rewrite wadd_0 in He.
Qed.

Lemma advance_step_spec N t offs :
  folding N t offs →
  returns (advance_step t) (λ r,
    match r with
    | inl t' => ∃ m offs', 0 < m ∧ folding (N + m) t' offs' ∧ zlen offs = 1 + zlen offs' ∧
        t' = t <| receive_buffer := receive_buffer t' |> <| rcv_nxt := wadd (rcv_nxt t) m |>
               <| sack := sack t' |> ∧
        RxRing.size (receive_buffer t') = RxRing.size (receive_buffer t) + m ∧
        RxRing.capacity (receive_buffer t') = RxRing.capacity (receive_buffer t) ∧
        Sack.enabled (sack t') = Sack.enabled (sack t)
    | inr t' => t' = t ∧ ¬ covered offs 0
    end).
Proof.
  intros [Hu Hh Ha Hr]. pose proof Hh as []. pose proof (zlen_nonneg offs) as Hz.
  unfold advance_step. rewrite slice_ret, ret_bind by lia.
  rewrite Z.sub_0_r, zdrop_0, holds_len, holds_live.
  pose proof (find_left_spec (rcv_nxt t) offs Hu holds_range) as Hfl.
  destruct (find_left _ _) as [[i b]|]; [|by apply returns_ret].
  destruct Hfl as (r & Hi & ->).
  assert (Hin : in_range (0, r)) by (rewrite Forall_lookup in holds_range; eauto).
  destruct Hin as [Hr0 Hr1]. cbn [fst snd] in Hr0, Hr1.
  assert (Hlen : Sack.block_len (blk (rcv_nxt t) (0, r)) = r).
  { unfold Sack.block_len, blk. cbn [Sack.right Sack.left fst snd].
    rewrite wadd_0 by assumption. apply wsub_wadd. ints. lia. }
  rewrite Hlen. pose proof Ha as [Hw Hc Hrd Hah Hf]. pose proof Hw as [].
  assert (Hfit : r ≤ RxRing.capacity (receive_buffer t) - RxRing.size (receive_buffer t))
    by (rewrite Forall_lookup in Hf; apply (Hf i (0, r) Hi)).
  destruct (RxRing.advance_contig_spec (receive_buffer t) r) as (rb & -> & Hw' & Hs' & Hc' & Hrd' & Hah');
    [assumption|lia|].
  rewrite ret_bind.
  destruct (remove_range_spec (rcv_nxt t) (sack t) offs (Z.of_nat i) (0, r))
    as (s' & -> & offs' & Hh' & Hp & _ & Hrc & Hfr); [assumption|lia|by rewrite Nat2Z.id|].
  rewrite ret_bind. apply returns_ret.
  assert (Hsep : Forall (λ x : range, r ≤ x.1) offs').
  { pose proof (separated_perm _ _ Hp holds_sep) as [Hap _]. pose proof (TcpSack.holds_range _ _ _ Hh') as Hr'.
    rewrite Forall_forall in *. intros x Hx. specialize (Hap x Hx). specialize (Hr' x Hx).
    unfold apart, in_range in *. simpl in *. lia. }
  set (s2 := if decide _ then _ else _).
  assert (Hs2 : holds (rcv_nxt t) s2 offs' ∧ recent_ok s2 ∧ Sack.enabled s2 = Sack.enabled (sack t)).
  { unfold s2. rewrite Hfr. destruct Hh'. unfold recent_ok. destruct (decide _) as [Hd|Hd].
    - split; [by constructor|]. split; [exact I|reflexivity].
    - split; [by constructor|]. split; [|reflexivity]. rsimp. rewrite Hrc in *.
      unfold recent_ok in Hr. destruct (Sack.rx_recent (sack t)) as [b|]; [|exact I].
      rewrite holds_len, holds_live, Hp in Hr. rewrite holds_len0, holds_live0.
      simpl in Hr. apply elem_of_cons in Hr as [->|Hr]; [done|assumption]. }
  destruct Hs2 as (Hh2 & Hr2 & He2).
  exists r, (shift r <$> offs'). split; [lia|]. rsimp.
  split; [|split; [|split; [reflexivity|auto]]].
  - constructor; rsimp; [apply wadd_u32|apply holds_shift; auto; lia| |assumption].
    apply (assembled_shift N (receive_buffer t) offs'); auto; try lia.
    + constructor; auto.
      * intros k Hk. apply Hah. rewrite (covered_perm _ _ _ Hp), covered_cons. auto.
      * rewrite Hp in Hf. by inversion Hf.
    + rewrite Hrd'. f_equal. change (_ <$> seqZ 0 r) with (chunk (RxRing.ahead (receive_buffer t)) 0 r).
      apply byte_list_eq; rewrite !zlen_chunk by lia; [reflexivity|]. intros k Hk.
      rewrite !byte_at_chunk, Hah by (lia || (exists (0, r); split;
        [by eapply list_elem_of_lookup_2|simpl; lia])). f_equal; lia.
  - unfold zlen. rewrite length_fmap. apply Permutation_length in Hp. rewrite Hp. simpl. lia.
Qed.

(** Only the receive side differs. *)
Definition rx_frame (t t' : TcpControlBlock) : Prop :=
  t' = t <| receive_buffer := receive_buffer t' |> <| rcv_nxt := rcv_nxt t' |>
         <| sack := sack t' |> ∧
  RxRing.capacity (receive_buffer t') = RxRing.capacity (receive_buffer t) ∧
  Sack.enabled (sack t') = Sack.enabled (sack t).

Lemma rx_frame_refl t : rx_frame t t.
Proof. split; [destruct t; reflexivity|auto]. Qed.

Lemma rx_frame_trans t1 t2 t3 : rx_frame t1 t2 → rx_frame t2 t3 → rx_frame t1 t3.
Proof.
  intros (H1 & ? & ?) (H2 & ? & ?). split; [|split; congruence].
  rewrite H2. rewrite H1 at 1. destruct t1; reflexivity.
Qed.

Lemma advance_spec N t offs :
  folding N t offs →
  returns (sack_rx_advance_from_scoreboard t) (λ t', ∃ m offs', 0 ≤ m ∧
    folding (N + m) t' offs' ∧ ¬ covered offs' 0 ∧ rx_frame t t' ∧
    rcv_nxt t' = wadd (rcv_nxt t) m ∧
    RxRing.size (receive_buffer t') = RxRing.size (receive_buffer t) + m).
Proof.
  intros Hf. unfold sack_rx_advance_from_scoreboard.
  apply while_loop_total with
    (I := λ t', ∃ m offs', 0 ≤ m ∧ folding (N + m) t' offs' ∧ rx_frame t t' ∧
            rcv_nxt t' = wadd (rcv_nxt t) m ∧
            RxRing.size (receive_buffer t') = RxRing.size (receive_buffer t) + m)
    (m := λ t', Sack.rx_range_len (sack t')).
  - intros t1 (m & offs1 & Hm & Hf1 & Hfr & Hn & Hs) _.
    destruct (advance_step_spec _ _ _ Hf1) as ([t2|t2] & -> & Hr); apply returns_ret.
    + destruct Hr as (k & offs2 & Hk & Hf2 & Hl & He & Hs2 & Hc2 & Hen). split.
      * exists (m + k), offs2. split; [lia|]. split; [by replace (N + (m + k)) with (N + m + k) by lia|].
        split; [|split; [|lia]].
        -- apply (rx_frame_trans t t1 t2); [assumption|]. split; [|auto].
           rewrite He at 1. f_equal. rewrite He. rsimp. reflexivity.
        -- rewrite He. rsimp. rewrite Hn. apply wadd_assoc.
      * destruct Hf1 as [_ [] _ _], Hf2 as [_ [] _ _]. pose proof (zlen_nonneg offs2). lia.
    + destruct Hr as [-> Hc]. eauto 10.
  - exists 0, offs. rewrite !Z.add_0_r, wadd_0 by apply Hf. auto using rx_frame_refl with lia.
  - destruct Hf as [_ [] _ _]. pose proof (zlen_nonneg offs). lia.
Qed.

Lemma rx_inv_folding N t : rx_inv strm N t → ∃ offs, folding N t offs ∧ ¬ covered offs 0.
Proof. intros [? (offs & ? & ? & ?) ? ?]. exists offs. split; [by constructor|assumption]. Qed.

Lemma folding_rx_inv N t offs :
  folding N t offs → ¬ covered offs 0 →
  (Sack.enabled (sack t) = false → Sack.rx_range_len (sack t) = 0) → rx_inv strm N t.
Proof. intros [] ? ?. constructor; eauto. Qed.

(** The fields the invariant reads. *)
Lemma rx_inv_ext N t t' :
  rx_inv strm N t → rcv_nxt t' = rcv_nxt t → sack t' = sack t →
  receive_buffer t' = receive_buffer t → rx_inv strm N t'.
Proof. intros [] E1 E2 E3. constructor; rewrite ?E1, ?E2, ?E3; assumption. Qed.

Lemma update_rcv_wnd_spec t :
  RxRing.wf (receive_buffer t) → ∃ w, update_rcv_wnd_from_buffer t = Ret (t <| rcv_wnd := w |>).
Proof.
  intros Hw. unfold update_rcv_wnd_from_buffer, effective_rcv_wnd.
  rewrite RxRing.free_space_ret, !ret_bind by assumption. eauto.
Qed.

Lemma receive_out_of_order_spec N t off len :
  rx_inv strm N t → fitting t off len → 0 < off → Sack.enabled (sack t) = true →
  returns (sack_receive_out_of_order t (wadd (rcv_nxt t) off) (chunk strm (N + off) len))
    (λ t', rx_inv strm N t' ∧ rx_frame t t' ∧ rcv_nxt t' = rcv_nxt t ∧
           RxRing.size (receive_buffer t') = RxRing.size (receive_buffer t)).
Proof.
  intros [Hu (offs & Hh & Hnc & [Hw Hc Hrd Ha Hf]) Hrec Hoff0] (Ho & Hl & Hfit & _) Hoff Hen.
  pose proof Hw as []. unfold sack_receive_out_of_order.
  assert (Hz : zlen (chunk strm (N + off) len) = len) by (apply zlen_chunk; lia).
  destruct (RxRing.write_at_ooo (receive_buffer t) (rcv_nxt t) off (chunk strm (N + off) len))
    as ([n rb] & -> & -> & Hw' & Hs' & Hc' & Hrd' & Hah'); rewrite ?Hz; try lia;
    [assumption..|by apply chunk_nonempty|].
  rewrite ret_bind. cbv zeta. rewrite Hz in *. destruct (Z.eqb_spec len 0); [lia|].
  rewrite Z.mod_small, wadd_assoc by lia. unfold sack_rx_insert_range. rsimp.
  destruct (insert_range_spec (rcv_nxt t) (sack t) offs (off, off + len))
    as (s' & Es & offs' & Hh' & Hr' & Hfr & Hcov); [assumption..|unfold in_range; simpl; lia|].
  cbn [fst snd] in Es. rewrite Es, ret_bind. apply returns_ret. rsimp.
  split; [|split; [|split; [reflexivity|assumption]]].
  - assert (Hnew : ∀ k, covered offs' k → covered offs k ∨ off ≤ k < off + len).
    { intros k Hk. destruct Hcov as [Hcov|(-> & -> & _)]; [by apply Hcov|auto]. }
    assert (Hpos : ∀ k, covered offs k → 0 ≤ k < RxRing.capacity (receive_buffer t)
                                           - RxRing.size (receive_buffer t)).
    { intros k (x & Hx & Hk). rewrite Forall_forall in Hf. specialize (Hf x Hx).
      destruct Hh. rewrite Forall_forall in holds_range. specialize (holds_range x Hx).
      unfold in_range in *. lia. }
    constructor; rsimp; [assumption| |assumption|].
    + exists offs'. split; [assumption|]. split; [intros [?|?]%Hnew; auto; lia|].
      constructor; rewrite ?Hs', ?Hc', ?Hrd'; auto.
      * intros k Hk. rewrite Hah' by (destruct (Hnew k Hk) as [?%Hpos|]; lia).
        destruct (Z.leb_spec off k), (Z.ltb_spec k (off + len)); simpl.
        1: rewrite byte_at_chunk by lia; f_equal; lia.
        all: apply Ha; destruct (Hnew k Hk); [assumption|lia].
      * apply Forall_forall. intros x Hx. destruct Hh'. rewrite Forall_forall in holds_range.
        specialize (holds_range x Hx). unfold in_range in holds_range.
        assert (Hlast : covered offs' (x.2 - 1)) by (exists x; split; [assumption|lia]).
        destruct (Hnew _ Hlast) as [?%Hpos|]; lia.
    + rewrite Hfr. rsimp. congruence.
  - split; [reflexivity|]. rsimp. split; [assumption|]. rewrite Hfr. rsimp. reflexivity.
Qed.

Lemma stops_before_offs N t offs len :
  folding N t offs → stops_before t len → len < I32 → Forall (λ x : range, len ≤ x.1) offs.
Proof.
  intros [Hu [] Ha _] Hs Hlen. unfold stops_before in Hs. rewrite holds_len, holds_live in Hs.
  rewrite Forall_fmap in Hs. rewrite Forall_forall in *. intros x Hx.
  specialize (Hs x Hx). specialize (holds_range x Hx). unfold in_range in holds_range.
  unfold compose in Hs. change (Sack.left (blk (rcv_nxt t) x)) with (wadd (rcv_nxt t) x.1) in Hs.
  rewrite wsub_wadd in Hs by (ints; lia). assumption.
Qed.

(** The part of [rx_in_order] before the window update. *)
Lemma in_order_store_spec N t len :
  rx_inv strm N t → fitting t 0 len →
  returns (if Sack.enabled (sack t)
           then RxRing.write_at (receive_buffer t) (rcv_nxt t) (rcv_nxt t) (chunk strm N len)
           else RxRing.write (receive_buffer t) (chunk strm N len))
    (λ '(n, rb), 0 ≤ n ≤ len ∧ (Sack.enabled (sack t) = true → n = len) ∧
       RxRing.capacity rb = RxRing.capacity (receive_buffer t) ∧
       RxRing.size rb = RxRing.size (receive_buffer t) + n ∧
       ∃ offs, holds (wadd (rcv_nxt t) n) (sack t) offs ∧ assembled strm (N + n) rb offs ∧
               (n = 0 → ¬ covered offs 0)).
Proof.
  intros Hi (_ & Hl & Hfit & Hsb). destruct (rx_inv_folding _ _ Hi) as (offs & Hf & Hnc).
  pose proof Hf as [Hu Hh Ha Hr]. pose proof Ha as [Hw Hc Hrd Hah Hfits]. pose proof Hw as [].
  assert (Hz : zlen (chunk strm N len) = len) by (apply zlen_chunk; lia).
  destruct (Sack.enabled (sack t)) eqn:Een.
  - assert (Hge : Forall (λ x : range, len ≤ x.1) offs)
      by (apply (stops_before_offs N t); auto; lia).
    destruct (RxRing.write_at_contig (receive_buffer t) (rcv_nxt t) (chunk strm N len))
      as ([n rb] & -> & -> & Hw' & Hs' & Hc' & Hrd' & Hah');
      try assumption; try lia; [by apply chunk_nonempty|].
    rewrite Hz in *. apply returns_ret. repeat (split; [lia || auto|]).
    exists (shift len <$> offs). split; [apply holds_shift; auto; lia|]. split; [|lia].
    apply (assembled_shift N (receive_buffer t)); auto. lia.
  - assert (offs = []) as ->.
    { pose proof (holds_len _ _ _ Hh) as Hlen. rewrite (rx_off _ _ _ Hi Een) in Hlen.
      symmetry in Hlen. by apply zlen_zero_inv in Hlen. }
    destruct (RxRing.write_spec (receive_buffer t) (chunk strm N len))
      as ([n rb] & -> & -> & Hw' & Hc' & _ & Hs' & _ & Hrd'); [assumption|].
    apply returns_ret. rewrite Hz in *. set (n := Z.min _ _) in *.
    assert (Hn : 0 ≤ n ≤ len) by lia.
    repeat (split; [lia || done || auto|]). exists [].
    split; [|split; [|intros _ (x & Hx & _); by apply elem_of_nil in Hx]].
    + apply (holds_shift _ _ [] n); [assumption|lia|constructor].
    + constructor; [assumption|lia| | |constructor].
      * rewrite Hrd', Hrd, Hs', (proj1 (chunk_split strm N len n Hn)).
        replace N with (N - RxRing.size (receive_buffer t) + RxRing.size (receive_buffer t)) at 2 by lia.
        rewrite chunk_app by lia. f_equal; lia.
      * intros k (x & Hx & _). by apply elem_of_nil in Hx.
Qed.

Lemma rx_in_order_spec N t len :
  rx_inv strm N t → fitting t 0 len → 0 ≤ unacked_segments t ≤ 1 →
  returns (rx_in_order t (rcv_nxt t) (chunk strm N len)) (λ '(a, t'), ∃ m, 0 ≤ m ∧
    rx_inv strm (N + m) t' ∧ rcv_nxt t' = wadd (rcv_nxt t) m ∧
    RxRing.capacity (receive_buffer t') = RxRing.capacity (receive_buffer t) ∧
    RxRing.size (receive_buffer t') = RxRing.size (receive_buffer t) + m ∧
    (0 ≤ unacked_segments t' ≤ 1 ∨ unacked_segments t' = 2 ∧ ack_needed t' = true) ∧
    (Sack.enabled (sack t) = true → len ≤ m)).
Proof.
  intros Hi Hcf Hun. unfold rx_in_order.
  destruct (in_order_store_spec N t len Hi Hcf)
    as ([n rb] & -> & Hn & Hall & Hcap & Hsz & offs & Hh & Ha & Hz).
  rewrite ret_bind. cbv zeta. destruct (Z.eqb_spec n 0) as [->|Hn0].
  { apply returns_ret. exists 0. rsimp. rewrite !Z.add_0_r in *.
    pose proof (rx_nxt _ _ _ Hi). rewrite wadd_0 in Hh by assumption.
    split; [lia|]. split; [|rewrite wadd_0 by assumption; repeat split; auto; intros He; specialize (Hall He); lia].
    apply (folding_rx_inv N _ offs); [|auto|apply Hi].
    constructor; rsimp; auto; apply Hi. }
  assert (Hsmall : n < U32).
  { destruct (rx_inv_folding _ _ Hi) as (? & [_ _ [[] _ _ _ _] _] & _).
    destruct Ha as [[] ? _ _ _]. lia. }
  rewrite Z.mod_small by lia.
  change (rcv_nxt (t <| receive_buffer := rb |>)) with (rcv_nxt t).
  set (t1 := t <| receive_buffer := rb |> <| rcv_nxt := wadd (rcv_nxt t) n |>).
  assert (Hf1 : folding (N + n) t1 offs).
  { constructor; unfold t1; rsimp; auto; [apply wadd_u32|apply Hi]. }
  assert (Hadv : returns (if Sack.enabled (sack t1) then sack_rx_advance_from_scoreboard t1 else Ret t1)
    (λ t2, ∃ m, 0 ≤ m ∧ rx_inv strm (N + n + m) t2 ∧ rx_frame t1 t2 ∧
           rcv_nxt t2 = wadd (rcv_nxt t1) m ∧
           RxRing.size (receive_buffer t2) = RxRing.size (receive_buffer t1) + m)).
  { destruct (Sack.enabled (sack t1)) eqn:Een.
    - destruct (advance_spec _ _ _ Hf1) as (t2 & -> & m & offs2 & Hm & Hf2 & Hnc & Hfr & Hn2 & Hs2).
      apply returns_ret. exists m. split; [assumption|]. split; [|auto].
      apply (folding_rx_inv _ _ offs2); auto. destruct Hfr as (_ & _ & ->). congruence.
    - apply returns_ret. exists 0. rewrite !Z.add_0_r, wadd_0 by apply Hf1.
      split; [lia|]. split; [|auto using rx_frame_refl].
      assert (offs = []) as ->.
      { pose proof (holds_len _ _ _ Hh) as Hlen.
        rewrite (rx_off _ _ _ Hi Een) in Hlen. symmetry in Hlen. by apply zlen_zero_inv in Hlen. }
      apply (folding_rx_inv _ _ []); [assumption| |apply Hi].
      intros (x & Hx & _). by apply elem_of_nil in Hx. }
  destruct Hadv as (t2 & -> & m & Hm & Hi2 & (Hfr & Hc2 & _) & Hn2 & Hs2). rewrite ret_bind.
  destruct (rx_inv_folding _ _ Hi2) as (offs2 & Hf2 & _).
  destruct (update_rcv_wnd_spec t2) as (w & ->); [apply Hf2|]. rewrite ret_bind.
  assert (Hu2 : unacked_segments t2 = unacked_segments t) by (rewrite Hfr; reflexivity).
  rsimp. rewrite Hu2, add_chk_ret, ret_bind by lia. apply returns_ret.
  exists (n + m). rsimp. split; [lia|]. split; [|split; [|split; [|split; [|split]]]].
  - apply (rx_inv_ext _ t2); [|reflexivity..]. by replace (N + (n + m)) with (N + n + m) by lia.
  - rewrite Hn2. unfold t1. rsimp. apply wadd_assoc.
  - rewrite Hc2. unfold t1. rsimp. assumption.
  - rewrite Hs2. unfold t1. rsimp. lia.
  - lia || (right; split; [lia|reflexivity]).
  - intros He. specialize (Hall He). lia.
Qed.

(** What one operation does to the ghost position: [m] more bytes accepted. *)
Definition moved (N : Z) (t : TcpControlBlock) (m : Z) (t' : TcpControlBlock) : Prop :=
  0 ≤ m < I32 ∧ rx_inv strm (N + m) t' ∧ rcv_nxt t' = wadd (rcv_nxt t) m ∧
  RxRing.capacity (receive_buffer t') = RxRing.capacity (receive_buffer t) ∧
  RxRing.size (receive_buffer t') = RxRing.size (receive_buffer t) + m.

Lemma rx_inv_sizes N t : rx_inv strm N t →
  0 ≤ RxRing.size (receive_buffer t) ≤ RxRing.capacity (receive_buffer t) ∧
  RxRing.capacity (receive_buffer t) < I32.
Proof. intros [_ (? & _ & _ & [[] ? _ _ _]) _ _]. lia. Qed.

Lemma moved_ext N t m t' t'' :
  moved N t m t' → rcv_nxt t'' = rcv_nxt t' → sack t'' = sack t' →
  receive_buffer t'' = receive_buffer t' → moved N t m t''.
Proof.
  intros (? & ? & ? & ? & ?) E1 E2 E3. unfold moved. rewrite E1, E3.
  split; [assumption|]. split; [by eapply rx_inv_ext|auto].
Qed.

Lemma moved_0 N t t' :
  rx_inv strm N t' → rcv_nxt t' = rcv_nxt t →
  RxRing.capacity (receive_buffer t') = RxRing.capacity (receive_buffer t) →
  RxRing.size (receive_buffer t') = RxRing.size (receive_buffer t) → moved N t 0 t'.
Proof.
  intros Hi E ? ?. unfold moved. rewrite E, wadd_0 by (rewrite <- E; apply Hi).
  rewrite !Z.add_0_r. auto with lia.
Qed.

(** What starts before RCV.NXT is dropped whole. *)
Lemma write_at_old b nxt off buf : u32 nxt → - I32 ≤ off < 0 → RxRing.write_at b nxt (wadd nxt off) buf = Ret (0, b).
Proof.
  intros Hu Ho. unfold RxRing.write_at. destruct (_ =? 0); [done|]. cbv zeta.
  rewrite <- (wadd_0 nxt) at 2 by assumption. rewrite sdiff_small, Z.sub_0_r by lia. by rewrite (proj2 (Z.ltb_lt off 0)) by lia.
Qed.

Lemma rx_payload_old N t off len :
  rx_inv strm N t → - I32 ≤ off < 0 → 0 < len → 0 ≤ unacked_segments t ≤ 1 →
  returns (rx_payload t (wadd (rcv_nxt t) off) (chunk strm (N + off) len)) (λ '(a, t'),
    moved N t 0 t' ∧ 0 ≤ unacked_segments t' ≤ 1).
Proof.
  intros Hi Ho Hl Hun. pose proof (rx_nxt _ _ _ Hi) as Hu. unfold rx_payload.
  destruct (chunk strm (N + off) len) as [|x l] eqn:Ec; [by apply chunk_nonempty in Ec|rewrite <- Ec].
  destruct (Z.eqb_spec (wadd (rcv_nxt t) off) (rcv_nxt t)) as [He|_]; [unfold wadd in He; mlia|].
  unfold rx_out_of_order. destruct (Sack.enabled (sack t)).
  - unfold sack_receive_out_of_order. rewrite write_at_old, ret_bind by assumption. cbn [Z.eqb]. rewrite ret_bind.
    destruct (update_rcv_wnd_spec (t <| receive_buffer := receive_buffer t |>)) as (w & ->).
    { destruct (rx_inv_folding _ _ Hi) as (? & [] & _). rsimp. apply fd_asm0. }
    rewrite ret_bind. apply returns_ret. rsimp. split; [|assumption].
    apply (moved_ext _ _ _ t); [|reflexivity..]. by apply moved_0.
  - rewrite ret_bind. apply returns_ret. split; [by apply moved_0|assumption].
Qed.

Lemma rx_payload_spec N t off len :
  rx_inv strm N t → conforming t off len → 0 ≤ unacked_segments t ≤ 1 →
  returns (rx_payload t (wadd (rcv_nxt t) off) (chunk strm (N + off) len)) (λ '(a, t'), ∃ m,
    moved N t m t' ∧
    (0 ≤ unacked_segments t' ≤ 1 ∨ unacked_segments t' = 2 ∧ ack_needed t' = true) ∧
    (off = 0 → Sack.enabled (sack t) = true → len ≤ m)).
Proof.
  intros Hi [[Ho Hl]|Hcf] Hun.
  { eapply returns_mono; [by apply rx_payload_old|]. intros [a t'] [Hm Hu']. exists 0. split; [assumption|]. split; [auto|lia]. }
  pose proof Hcf as (Ho & Hl & Hfit & _). pose proof (rx_inv_sizes _ _ Hi) as Hsz.
  pose proof (rx_nxt _ _ _ Hi) as Hu. unfold rx_payload.
  destruct (chunk strm (N + off) len) as [|x l] eqn:Ec; [by apply chunk_nonempty in Ec|rewrite <- Ec].
  destruct (Z.eqb_spec (wadd (rcv_nxt t) off) (rcv_nxt t)) as [He|He].
  - assert (off = 0) as -> by (unfold wadd in He; mlia). rewrite wadd_0, Z.add_0_r by assumption.
    eapply returns_mono; [apply rx_in_order_spec; eassumption|].
    intros [a t'] (m & Hm & Hi' & Hn & Hc & Hs & Hu' & Hlen). exists m.
    split; [|auto]. pose proof (rx_inv_sizes _ _ Hi'). split; [lia|auto].
  - assert (Hoff : 0 < off).
    { destruct (Z.eq_dec off 0) as [->|]; [by rewrite wadd_0 in He|lia]. }
    unfold rx_out_of_order. destruct (Sack.enabled (sack t)) eqn:Een.
    + destruct (receive_out_of_order_spec N t off len) as (t1 & -> & Hi1 & (Hfr & Hc1 & _) & Hn1 & Hs1);
        [assumption..|].
      rewrite ret_bind. destruct (update_rcv_wnd_spec t1) as (w & ->).
      { destruct (rx_inv_folding _ _ Hi1) as (? & [] & _). apply fd_asm0. }
      rewrite ret_bind. apply returns_ret. exists 0. rsimp. split; [|split; [|lia]].
      * apply (moved_ext _ _ _ t1); [|reflexivity..]. by apply moved_0.
      * left. rewrite Hfr. rsimp. assumption.
    + rewrite ret_bind. apply returns_ret. exists 0.
      split; [by apply moved_0|]. split; [auto|discriminate].
Qed.

Lemma rx_ack_spec now psh fin t :
  let t' := (rx_ack now psh fin t).2 in
  rcv_nxt t' = rcv_nxt t ∧ sack t' = sack t ∧ receive_buffer t' = receive_buffer t ∧
  (0 ≤ unacked_segments t ≤ 1 ∨ unacked_segments t = 2 ∧ ack_needed t = true →
   0 ≤ unacked_segments t' ≤ 1).
Proof.
  cbv zeta. unfold rx_ack.
  destruct (ack_needed t) eqn:Ea; cbn [snd]; [|split; [auto|split; [auto|split; [auto|intros [?|[? ?]]; [lia|done]]]]].
  destruct (_ || _ || _ || _) eqn:Ec; cbn [snd]; rsimp; (repeat split; try reflexivity; try lia).
  all: apply orb_false_iff in Ec as [_ ?%Z.leb_gt]; lia.
Qed.

Lemma rx_segment_spec N t off len psh now :
  rx_inv strm N t → conforming t off len → 0 ≤ unacked_segments t ≤ 1 →
  returns (rx_segment now psh false (wadd (rcv_nxt t) off) (chunk strm (N + off) len) t)
    (λ '(a, t'), ∃ m, moved N t m t' ∧ 0 ≤ unacked_segments t' ≤ 1 ∧
       (off = 0 → Sack.enabled (sack t) = true → len ≤ m)).
Proof.
  intros Hi Hcf Hun. unfold rx_segment.
  destruct (rx_payload_spec N t off len Hi Hcf Hun) as ([a t1] & -> & m & Hm & Hu1 & Hlen).
  rewrite ret_bind. cbv zeta. pose proof (rx_ack_spec (now 1%nat) psh false t1) as Hack.
  destruct (rx_ack (now 1%nat) psh false t1) as [a2 t2]. cbn [snd] in Hack.
  destruct Hack as (E1 & E2 & E3 & Hu2). apply returns_ret. exists m.
  split; [|split; [|assumption]].
  - destruct (_ || _); eapply moved_ext; eauto.
  - destruct (_ || _); rsimp; auto.
Qed.

Lemma rx_read_spec N t len :
  rx_inv strm N t → 0 ≤ len →
  returns (rx_read t len) (λ '(out, t'),
    let n := Z.min len (RxRing.size (receive_buffer t)) in
    out = chunk strm (N - RxRing.size (receive_buffer t)) n ∧ rx_inv strm N t' ∧
    RxRing.size (receive_buffer t') = RxRing.size (receive_buffer t) - n ∧
    rcv_nxt t' = rcv_nxt t ∧ unacked_segments t' = unacked_segments t).
Proof.
  intros Hi Hl. pose proof (rx_inv_sizes _ _ Hi) as Hsz. unfold rx_read.
  destruct (rx_inv_folding _ _ Hi) as (offs & [Hu Hh [Hw Hc Hrd Ha Hf] Hr] & Hnc).
  destruct (RxRing.read_spec (receive_buffer t) len Hw Hl)
    as ([out rb] & -> & Hout & Hrd' & Hw' & Hs' & Hc' & _ & Hhd & Hda).
  rewrite ret_bind. cbv zeta in *. set (n := Z.min _ _) in *.
  destruct (chunk_split strm (N - RxRing.size (receive_buffer t))
              (RxRing.size (receive_buffer t)) n) as [Ht Hd]; [lia|].
  rewrite Hrd in Hout, Hrd'. rewrite Ht in Hout. rewrite Hd in Hrd'.
  assert (Hi' : rx_inv strm N (t <| receive_buffer := rb |>)).
  { constructor; rsimp; [assumption| |apply Hi..].
    exists offs. split; [assumption|]. split; [assumption|].
    constructor; [assumption|lia| | |].
    - rewrite Hrd', Hs'. f_equal. lia.
    - intros k Hk. rewrite <- Ha by assumption. unfold RxRing.ahead. by rewrite Hhd, Hda, Hc'.
    - eapply Forall_impl; [apply Hf|]. intros x. simpl. lia. }
  destruct out as [|x out].
  - apply returns_ret. rsimp. auto.
  - destruct (update_rcv_wnd_spec (t <| receive_buffer := rb |>)) as (w & ->); [by rsimp|].
    rewrite ret_bind. apply returns_ret. rsimp. split; [assumption|]. split; [|auto].
    by apply (rx_inv_ext _ (t <| receive_buffer := rb |>)).
Qed.
End Steps.

(** ** The byte stream *)

(** A receiver at the start of a connection. *)
Record rx_fresh (t : TcpControlBlock) : Prop := {
  fresh_nxt : u32 (rcv_nxt t);
  fresh_buf : ∃ cap, 0 < cap < I32 ∧ receive_buffer t = RxRing.new cap;
  fresh_sack : ∃ now e, sack t = (Sack.sack_new now) <| Sack.enabled := e |>;
  fresh_unacked : unacked_segments t = 0
}.

(** Segments of the peer's stream and reads of the application, in any
    order; [N] counts the bytes RCV.NXT has passed, [out] is what the
    application has read. *)
Inductive rx_reach (strm : stream) (t0 : TcpControlBlock)
  : Z → TcpControlBlock → list Z → Prop :=
| rx_start : rx_reach strm t0 0 t0 []
| rx_recv N t out off len psh now a t' :
    rx_reach strm t0 N t out → conforming t off len →
    rx_segment now psh false (wadd (rcv_nxt t) off) (chunk strm (N + off) len) t = Ret (a, t') →
    rx_reach strm t0 (N + wsub (rcv_nxt t') (rcv_nxt t)) t' out
| rx_app N t out len bs t' :
    rx_reach strm t0 N t out → 0 ≤ len → rx_read t len = Ret (bs, t') →
    rx_reach strm t0 N t' (out ++ bs).

Lemma rx_fresh_inv strm t : rx_fresh t → rx_inv strm 0 t.
Proof.
  intros [Hu (cap & Hcap & Hb) (now & e & Hs) _].
  destruct (RxRing.new_wf cap) as [Hw Hr]; [lia|].
  constructor; [assumption| |rewrite Hs; exact I|rewrite Hs; reflexivity].
  exists []. rewrite Hb, Hs. split; [|split].
  - constructor; try reflexivity; try (unfold zlen; simpl; lia). apply Forall_nil_2.
  - intros (x & Hx & _). by apply elem_of_nil in Hx.
  - constructor; [assumption|simpl; lia|assumption| |apply Forall_nil_2].
    intros k (x & Hx & _). by apply elem_of_nil in Hx.
Qed.

Lemma rx_reach_inv strm t0 N t out :
  rx_fresh t0 → rx_reach strm t0 N t out →
  rx_inv strm N t ∧ 0 ≤ unacked_segments t ≤ 1 ∧ rcv_nxt t = wadd (rcv_nxt t0) N ∧
  0 ≤ N - RxRing.size (receive_buffer t) ∧ out = chunk strm 0 (N - RxRing.size (receive_buffer t)).
Proof.
  intros Hf. induction 1 as [|N t out off len psh now a t' _ IH Hcf E|N t out len bs t' _ IH Hl E].
  - pose proof (rx_fresh_inv strm t0 Hf). destruct Hf as [Hu (cap & Hcap & Hb) _ ->].
    rewrite Hb, wadd_0 by assumption. simpl. repeat (split; [lia || assumption|]). reflexivity.
  - destruct IH as (Hi & Hun & Hn & HN & Hout).
    destruct (rx_segment_spec strm N t off len psh now Hi Hcf Hun) as ([a' t1] & E' & m & Hm & Hu & _).
    rewrite E in E'. simplify_eq. destruct Hm as (Hm & Hi' & Hn' & _ & Hs').
    rewrite Hn', wsub_wadd by (ints; lia).
    split; [assumption|]. split; [assumption|]. split; [rewrite Hn; apply wadd_assoc|].
    replace (N + m - RxRing.size (receive_buffer t1)) with (N - RxRing.size (receive_buffer t)) by lia.
    auto.
  - destruct IH as (Hi & Hun & Hn & HN & Hout).
    destruct (rx_read_spec strm N t len Hi Hl) as ([bs' t1] & E' & Hbs & Hi' & Hs' & Hn' & Hu').
    rewrite E in E'. simplify_eq. pose proof (rx_inv_sizes _ _ _ Hi) as Hsz.
    split; [assumption|]. rewrite Hu', Hn', Hs'. repeat (split; [assumption || lia|]).
    rewrite <- (Z.add_0_l (N - RxRing.size (receive_buffer t))) at 1.
    rewrite Z.add_0_l. replace (N - RxRing.size (receive_buffer t)) with
      (0 + (N - RxRing.size (receive_buffer t))) at 2 by lia.
    rewrite chunk_app by lia. f_equal. lia.
Qed.

(** What the scoreboard of [t] says after [N] bytes: its ranges lie ahead of
    RCV.NXT, apart from each other and within the buffer, and hold the bytes of
    the stream. *)
Definition scoreboard_holds_stream (strm : stream) (N : Z) (t : TcpControlBlock) : Prop :=
  ∃ offs, holds (rcv_nxt t) (sack t) offs ∧ ¬ covered offs 0 ∧
    ∀ k, covered offs k → 0 < k < RxRing.capacity (receive_buffer t) - RxRing.size (receive_buffer t) ∧
                          RxRing.ahead (receive_buffer t) k = strm (N + k).

Lemma rx_inv_scoreboard strm N t : rx_inv strm N t → scoreboard_holds_stream strm N t.
Proof.
  intros [_ (offs & Hh & H0 & [_ _ _ Ha Hf]) _ _]. exists offs. do 2 (split; [assumption|]). intros k Hk.
  split; [|by apply Ha]. destruct Hk as (x & Hx & Hk). pose proof (holds_range _ _ _ Hh) as Hr. rewrite Forall_forall in Hf, Hr.
  specialize (Hf x Hx). specialize (Hr x Hx). unfold in_range in Hr.
  assert (k ≠ 0) by (intros ->; apply H0; by exists x). lia.
Qed.

(** C1: The application reads the peer's byte stream.  Segments of the stream
    that fit the free room of the buffer arrive in any order, with or without
    SACK, repeated, overlapping each other ahead of a gap, or starting before
    RCV.NXT, and reads are interleaved; only an in-order segment must not reach
    into a range received earlier.  Then the bytes read followed by the bytes
    readable are the stream's first [N] bytes, RCV.NXT stands at byte [N], the
    ranges on the scoreboard hold bytes of the stream ahead of it, the next such
    segment is processed without a panic, and one that arrives in order under
    SACK moves RCV.NXT over all of it. *)
Theorem receive_path_delivers_stream strm t0 N t out :
  rx_fresh t0 → rx_reach strm t0 N t out →
  out ++ RxRing.readable (receive_buffer t) = chunk strm 0 N ∧
  rcv_nxt t = wadd (rcv_nxt t0) N ∧ scoreboard_holds_stream strm N t ∧
  ∀ off len psh now, conforming t off len →
    returns (rx_segment now psh false (wadd (rcv_nxt t) off) (chunk strm (N + off) len) t)
      (λ '(_, t'), off = 0 → Sack.enabled (sack t) = true → len ≤ wsub (rcv_nxt t') (rcv_nxt t)).
Proof.
  intros Hf Hr. destruct (rx_reach_inv _ _ _ _ _ Hf Hr) as (Hi & Hun & Hn & HN & ->).
  destruct (rx_inv_folding _ _ _ Hi) as (offs & [_ _ Ha _] & _).
  pose proof (rx_inv_sizes _ _ _ Hi). split; [|split; [assumption|split; [by apply rx_inv_scoreboard|]]].
  - rewrite (as_read _ _ _ _ Ha).
    rewrite <- (Z.add_0_l (N - RxRing.size (receive_buffer t))) at 2.
    rewrite chunk_app by lia. f_equal. lia.
  - intros off len psh now Hcf.
    eapply returns_mono; [by apply rx_segment_spec|].
    intros [a t'] (m & (Hm & _ & Hn' & _) & _ & Hlen) H1 H2.
    rewrite Hn', wsub_wadd by (ints; lia). auto.
Qed.

(** ** Concrete runs *)

(** RCV.NXT six bytes before the wrap, a 16-byte buffer, SACK negotiated. *)
Definition sample_rx : TcpControlBlock :=
  sample_tcb <| rcv_nxt := 4294967290 |> <| receive_buffer := RxRing.new 16 |>
             <| sack; Sack.enabled := true |> <| max_rcv_wnd := 16 |> <| rcv_wnd := 16 |>.

Definition sample_strm : stream := λ k, (3 * k + 1) mod 256.

Lemma sample_rx_fresh : rx_fresh sample_rx.
Proof.
  constructor; [unfold u32; simpl; lia| | |reflexivity].
  - exists 16. split; [lia|reflexivity].
  - exists 0, true. reflexivity.
Defined.

Lemma forallb_Forall {A} (f : A → bool) (P : A → Prop) l :
  (∀ x, f x = true → P x) → forallb f l = true → Forall P l.
Proof.
  intros Hf. induction l as [|x l IH]; simpl; [constructor|].
  rewrite andb_true_iff. intros [? ?]. constructor; auto.
Qed.

Lemma rx_recv_at strm t0 N t out off len psh now a t' N' :
  rx_reach strm t0 N t out → conforming t off len →
  rx_segment now psh false (wadd (rcv_nxt t) off) (chunk strm (N + off) len) t = Ret (a, t') →
  N' = N + wsub (rcv_nxt t') (rcv_nxt t) → rx_reach strm t0 N' t' out.
Proof. intros ? ? ? ->. by eapply rx_recv. Qed.

Definition after {A} (r : res (A * TcpControlBlock)) (t : TcpControlBlock) : TcpControlBlock :=
  match r with Ret (_, t') => t' | Crash _ => t end.

(** Bytes 4-7 arrive first, then 0-3, then 4-7 again, then the application reads
    six. *)
Definition sample_rx1 : TcpControlBlock :=
  after (rx_segment (λ _, 3) false false (wadd (rcv_nxt sample_rx) 4)
           (chunk sample_strm (0 + 4) 4) sample_rx) sample_rx.
Definition sample_rx2 : TcpControlBlock :=
  after (rx_segment (λ _, 5) true false (wadd (rcv_nxt sample_rx1) 0)
           (chunk sample_strm (0 + 0) 4) sample_rx1) sample_rx1.
Definition sample_rx2' : TcpControlBlock :=
  after (rx_segment (λ _, 6) false false (wadd (rcv_nxt sample_rx2) (-4))
           (chunk sample_strm (8 + -4) 4) sample_rx2) sample_rx2.
Definition sample_rx3 : TcpControlBlock := after (rx_read sample_rx2' 6) sample_rx2'.

Lemma sample_rx_run : rx_reach sample_strm sample_rx 8 sample_rx3 [1; 4; 7; 10; 13; 16].
Proof.
  apply (rx_app _ _ 8 sample_rx2' [] 6); [|lia|vm_compute; reflexivity].
  apply (rx_recv_at _ _ 8 sample_rx2 [] (-4) 4 false (λ _, 6) true); [|left; lia|vm_compute; reflexivity..].
  apply (rx_recv_at _ _ 0 sample_rx1 [] 0 4 true (λ _, 5) true); [| |vm_compute; reflexivity..].
  - apply (rx_recv_at _ _ 0 sample_rx [] 4 4 false (λ _, 3) true);
      [apply rx_start| |vm_compute; reflexivity..].
    right. split; [lia|]. split; [lia|]. split; [vm_compute; discriminate|discriminate].
  - right. split; [lia|]. split; [lia|]. split; [vm_compute; discriminate|]. intros _.
    apply (forallb_Forall (λ b, 4 <=? wsub (Sack.left b) (rcv_nxt sample_rx1)));
      [intros ? ?%Z.leb_le; assumption|vm_compute; reflexivity].
Qed.

Lemma receive_path_delivers_stream_witness :
  [1; 4; 7; 10; 13; 16] ++ RxRing.readable (receive_buffer sample_rx3) = chunk sample_strm 0 8.
Proof.
  apply (receive_path_delivers_stream sample_strm sample_rx 8 sample_rx3 _ sample_rx_fresh
           sample_rx_run).
Defined.

(** ** Segments larger than the free room *)

Lemma write_at_overrun b nxt buf :
  RxRing.wf b → buf ≠ [] → zlen buf ≤ RxRing.capacity b →
  RxRing.capacity b < RxRing.size b + zlen buf →
  returns (RxRing.write_at b nxt nxt buf) (λ '(n, b'),
    n = zlen buf ∧ RxRing.size b' = RxRing.size b + n ∧ RxRing.capacity b' = RxRing.capacity b).
Proof.
  intros Hwf Hne Hcap Hover. pose proof (RxRing.wf_head_range b Hwf) as Hh. pose proof Hwf as [].
  assert (Hlen : 0 < zlen buf).
  { pose proof (zlen_nonneg buf). assert (zlen buf ≠ 0) by (intros ?%zlen_zero_inv; auto). lia. }
  unfold RxRing.write_at. rewrite sdiff_self. cbv zeta.
  destruct (Z.eqb_spec (zlen buf) 0); [lia|]. destruct (Z.ltb_spec 0 0); [lia|].
  destruct (Z.leb_spec (RxRing.capacity b) 0); [lia|]. run.
  rewrite Z.min_l by lia. destruct (Z.eqb_spec (zlen buf) 0); [lia|]. run.
  rewrite Z.add_0_r, (Z.mod_small (RxRing.head b)) by lia.
  destruct (RxRing.copy_in_spec b (RxRing.head b) (zlen buf) buf) as (d & -> & Hl & Hd); try lia.
  run. rewrite Z.eqb_refl. run. apply returns_ret. rsimp.
  split; [reflexivity|]. split; [unfold sat_add; lia|reflexivity].
Qed.

(** An in-order segment larger than the free room is stored whole under
    SACK; the buffer's size then exceeds its capacity and the window update
    that follows panics on the subtraction. *)
Theorem overrun_segment_panics t payload psh fin now :
  RxRing.wf (receive_buffer t) → Sack.enabled (sack t) = true →
  zlen (Sack.rx_ranges (sack t)) = 8 → Sack.rx_range_len (sack t) = 0 → payload ≠ [] →
  zlen payload ≤ RxRing.capacity (receive_buffer t) →
  RxRing.capacity (receive_buffer t) < RxRing.size (receive_buffer t) + zlen payload →
  rx_segment now psh fin (rcv_nxt t) payload t = Crash Panic.
Proof.
  intros Hw Hen H8 H0 Hne Hcap Hover. unfold rx_segment, rx_payload.
  destruct payload as [|x l] eqn:Ep; [done|rewrite <- Ep in *; clear x l Ep].
  rewrite Z.eqb_refl. unfold rx_in_order. rewrite Hen.
  destruct (write_at_overrun (receive_buffer t) (rcv_nxt t) payload) as ([n b] & -> & -> & Hs & Hc);
    [assumption..|].
  rewrite ret_bind. cbv zeta. pose proof (zlen_nonneg payload).
  destruct (Z.eqb_spec (zlen payload) 0) as [Hz|_]; [by apply zlen_zero_inv in Hz|].
  match goal with |- context [sack_rx_advance_from_scoreboard ?x] => set (t1 := x) end.
  assert (Hs1 : sack t1 = sack t) by reflexivity. rewrite Hs1, Hen.
  assert (Ha : sack_rx_advance_from_scoreboard t1 = Ret t1).
  { unfold sack_rx_advance_from_scoreboard. eapply while_loop_eval with (P := λ _, True).
    - apply while_loop_total with (I := λ t', t' = t1) (m := λ _, 0); [|reflexivity|lia].
      intros t' -> _. unfold advance_step. rewrite Hs1, H0, slice_ret by lia. by apply returns_ret.
    - apply loop_exit. unfold advance_step. rewrite Hs1, H0, slice_ret by lia. reflexivity. }
  rewrite Ha, ret_bind. unfold update_rcv_wnd_from_buffer, effective_rcv_wnd, RxRing.free_space.
  assert (Hb : receive_buffer t1 = b) by reflexivity. rewrite Hb. unfold sub_chk.
  rewrite chk_panic by (destruct Hw; lia). reflexivity.
Qed.

(** Twelve of sixteen bytes unread; the segment of eight starts in the window. *)
Definition sample_rx_full : TcpControlBlock :=
  after (rx_segment (λ _, 3) true false (rcv_nxt sample_rx) (chunk sample_strm 0 12) sample_rx)
    sample_rx.

Lemma overrun_segment_panics_witness :
  is_segment_acceptable sample_rx_full (rcv_nxt sample_rx_full) 8 = true ∧
  rx_segment (λ _, 9) true false (rcv_nxt sample_rx_full) (chunk sample_strm 12 8) sample_rx_full
  = Crash Panic.
Proof.
  split; [vm_compute; reflexivity|].
  apply (overrun_segment_panics sample_rx_full (chunk sample_strm 12 8));
    [constructor; vm_compute; intuition congruence|vm_compute; (reflexivity || discriminate)..].
Defined.

(** A range that an in-order segment reaches into stays on the scoreboard
    for good: bytes 4-7 arrive, then 0-5, then 6-7; RCV.NXT passes the range
    and the slot is still taken. *)
Example partial_overlap_strands_range :
  let s1 := after (rx_segment (λ _, 3) false false (wadd (rcv_nxt sample_rx) 4)
                     (chunk sample_strm 4 4) sample_rx) sample_rx in
  let s2 := after (rx_segment (λ _, 5) false false (rcv_nxt s1) (chunk sample_strm 0 6) s1) s1 in
  let s3 := after (rx_segment (λ _, 7) false false (rcv_nxt s2) (chunk sample_strm 6 2) s2) s2 in
  rcv_nxt s3 = wadd (rcv_nxt sample_rx) 8 ∧
  Sack.rx_range_len (sack s3) = 1 ∧
  Sack.rx_ranges (sack s3) !! O =
    Some (Sack.mkBlock (wadd (rcv_nxt sample_rx) 4) (wadd (rcv_nxt sample_rx) 8)).
Proof. vm_compute. repeat split. Qed.
