(* ===== verification/TcpCc.v ===== *)
(** * Congestion control

    [kernel/src/driver/net/proto/tcp/cc/mod.rs] with New CWV ([cwv.rs]) and
    byte counting ([abc.rs]).  CUBIC computes in [f64]: the operations are
    those of IEEE binary64 ([SpecFloat]); [libm]'s [cbrt] is a parameter. *)

From S2P Require Import Prelude Float Time ReceiveBuffer TcpTypes TcpSack.

(** The third-party [libm]. *)
Class Libm := { cbrt : f64 → f64 }.

(** ** New CWV *)

Definition cwv_note_validated (t : TcpControlBlock) : TcpControlBlock :=
  if negb (Cwv.enabled (cwv t)) then t
  else t <| cwv; Cwv.validated := true |> <| cwv; Cwv.app_limited_since := None |>.

Definition cwv_note_app_limited (now : Instant) (t : TcpControlBlock) : TcpControlBlock :=
  if negb (Cwv.enabled (cwv t)) then t
  else
    let t := t <| cwv; Cwv.validated := false |> in
    match Cwv.app_limited_since (cwv t) with
    | None => t <| cwv; Cwv.app_limited_since := Some now |>
    | Some _ => t
    end.

Definition cwv_reduce_cwnd (t : TcpControlBlock) (reason : Cwv.CwvReduceReason)
  : res TcpControlBlock :=
  let pipe := Z.max (Cwv.pipe_max (cwv t)) (flight_size_bytes t) in
  twice ← mul_chk U32 2 (effective_mss t);
  let floor := Z.max twice 1 in
  let target := Z.max pipe floor in
  let t :=
    if target <? cwnd t then
      let t := t <| cwnd := target |> in
      let t := if ssthresh t <? cwnd t then t <| ssthresh := cwnd t |> else t in
      match reason with
      | Cwv.Idle => t <| cwv; Cwv.idle_reduce := sat_add U32 (Cwv.idle_reduce (cwv t)) 1 |>
      | Cwv.AppLimited =>
          t <| cwv; Cwv.applim_reduce := sat_add U32 (Cwv.applim_reduce (cwv t)) 1 |>
      end
    else t in
  Ret (t <| cwv; Cwv.pipe_max := pipe |>).

(** ** CUBIC *)

Definition calculate_cubic_window (cubic : Cubic.CubicState) (elapsed : Duration) : Z :=
  let t := f64_div (f64_of elapsed) (f64_of 1000000000) in
  let k := f64_div (f64_of (Cubic.k_ns cubic)) (f64_of 1000000000) in
  let c := f64_div (f64_of (Cubic.c cubic)) (f64_of 1024) in
  let diff := f64_sub t k in
  let w := f64_add (f64_mul c (f64_mul (f64_mul diff diff) diff)) (f64_of (Cubic.w_max cubic)) in
  if f64_is_nan w || f64_lt w (f64_of 0) then Cubic.w_max cubic
  else f64_to_uint (U32 - 1) w.

(** ** Growth *)

(** [raw] selects the shadow window and its accumulator. *)
Definition wnd (raw : bool) (t : TcpControlBlock) : Z :=
  if raw then Cwv.cwnd_raw (cwv t) else cwnd t.
Definition set_wnd (raw : bool) (v : Z) (t : TcpControlBlock) : TcpControlBlock :=
  if raw then t <| cwv; Cwv.cwnd_raw := v |> else t <| cwnd := v |>.
Definition accum (raw : bool) (t : TcpControlBlock) : Z :=
  if raw then Abc.ca_accum_raw (abc t) else Abc.ca_accum (abc t).
Definition set_accum (raw : bool) (v : Z) (t : TcpControlBlock) : TcpControlBlock :=
  if raw then t <| abc; Abc.ca_accum_raw := v |> else t <| abc; Abc.ca_accum := v |>.

Definition grow_slow_start (raw : bool) (bytes_acked l_bytes : Z) (t : TcpControlBlock)
  : TcpControlBlock :=
  let credit := Z.min bytes_acked l_bytes in
  let t := if credit <? bytes_acked
           then t <| abc; Abc.ss_capped := sat_add U32 (Abc.ss_capped (abc t)) 1 |> else t in
  let t := set_wnd raw (sat_add U32 (wnd raw t) credit) t in
  t <| abc; Abc.bytes_credited := sat_add U64 (Abc.bytes_credited (abc t)) credit |>.

(** One round of the accumulator loop, on the control block and [reno_wnd]. *)
Definition reno_step (raw : bool) (smss : Z) (s : TcpControlBlock * Z)
  : res ((TcpControlBlock * Z) + (TcpControlBlock * Z)) :=
  let '(t, reno_wnd) := s in
  if (reno_wnd =? 0) || (accum raw t <? reno_wnd) then Ret (inr (t, reno_wnd)) else
  a ← sub_chk U32 (accum raw t) reno_wnd;
  let t := set_accum raw a t in
  let t := t <| abc; Abc.ca_increments := sat_add U32 (Abc.ca_increments (abc t)) 1 |> in
  Ret (inl (t, sat_add U32 reno_wnd smss)).

(** The window the algorithm in use picks, given Reno's. *)
Definition apply_algorithm (now : Instant) (raw : bool) (smss reno_wnd : Z) (t : TcpControlBlock)
  : TcpControlBlock :=
  match congestion_control t with
  | CcCubic cubic =>
      let target := Z.max (calculate_cubic_window cubic (elapsed now (Cubic.epoch_start cubic)))
                          reno_wnd in
      if wnd raw t <? target then
        set_wnd raw (sat_add U32 (wnd raw t) (Z.min (target - wnd raw t) smss)) t
      else set_wnd raw reno_wnd t
  | CcReno _ => set_wnd raw reno_wnd t
  end.

Definition grow_avoidance (now : Instant) (raw : bool) (bytes_acked smss : Z)
    (t : TcpControlBlock) : res TcpControlBlock :=
  let t := set_accum raw (sat_add U32 (accum raw t) bytes_acked) t in
  let t := if raw then t else
    t <| abc; Abc.bytes_credited := sat_add U64 (Abc.bytes_credited (abc t)) bytes_acked |> in
  '(t, reno_wnd) ← while_loop (reno_step raw smss) 4294967297 (t, wnd raw t);
  Ret (apply_algorithm now raw smss reno_wnd t).

Definition grow_cwnd_value (now : Instant) (t : TcpControlBlock) (raw : bool) (bytes_acked : Z)
  : res TcpControlBlock :=
  if bytes_acked =? 0 then Ret t else
  let smss := Z.max (effective_mss t) 1 in
  let l_bytes := sat_mul U32 smss (Abc.l_smss (abc t)) in
  if wnd raw t <? ssthresh t then Ret (grow_slow_start raw bytes_acked l_bytes t)
  else grow_avoidance now raw bytes_acked smss t.

(** The two reductions of New CWV at time [n]. *)
Definition cwv_gate (n : Instant) (t : TcpControlBlock) : res TcpControlBlock :=
  t ← (if rto t <? elapsed n (Cwv.last_data_tx (cwv t)) then cwv_reduce_cwnd t Cwv.Idle
       else Ret t);
  match Cwv.app_limited_since (cwv t) with
  | Some since =>
      if rto t <=? elapsed n since then
        t ← cwv_reduce_cwnd t Cwv.AppLimited;
        Ret (t <| cwv; Cwv.app_limited_since := Some n |>)
      else Ret t
  | None => Ret t
  end.

(** [now] holds the readings of the shadow growth, of the gate and of the
    real growth. *)
Definition update_congestion_window (now : clock) (t : TcpControlBlock) (bytes_acked : Z)
  : res TcpControlBlock :=
  if in_fast_recovery t then Ret t else
  t ← grow_cwnd_value (now 0%nat) t true bytes_acked;
  if negb (Cwv.enabled (cwv t)) then Ret (t <| cwnd := Cwv.cwnd_raw (cwv t) |>) else
  t ← cwv_gate (now 1%nat) t;
  if negb (Cwv.validated (cwv t)) then
    Ret (t <| cwv; Cwv.no_increase := sat_add U32 (Cwv.no_increase (cwv t)) 1 |>)
  else
    let t := t <| cwv; Cwv.validated := false |> <| cwv; Cwv.pipe_max := 0 |> in
    grow_cwnd_value (now 2%nat) t false bytes_acked.

(** ** Multiplicative decrease *)

(** [(w * beta) >> 10], computed on 64 bits. *)
Definition beta_cut (w beta : Z) : res Z :=
  p ← mul_chk U64 w beta; Ret (Z.shiftr p 10 mod U32).

Definition cubic_w_max (cw prev : Z) : res Z :=
  if cw <? prev then n ← mul_chk U32 cw 9; Ret (n / 10) else Ret cw.

Section Decrease.
Context `{Libm}.

(** K, in nanoseconds. *)
Definition cubic_k (cubic : Cubic.CubicState) (cw : Z) : Z :=
  let diff := f64_of (sat_sub (Cubic.w_max cubic) cw) in
  let c := f64_div (f64_of (Cubic.c cubic)) (f64_of 1024) in
  let k_s := if f64_lt (f64_of 0) diff && f64_lt (f64_of 0) c then cbrt (f64_div diff c)
             else f64_of 0 in
  f64_to_uint (U64 - 1) (f64_mul k_s (f64_of 1000000000)).

Definition cubic_decrease (now : Instant) (smss : Z) (cubic : Cubic.CubicState)
    (t : TcpControlBlock) : res TcpControlBlock :=
  let prev := Cubic.last_max_cwnd cubic in
  let cubic := cubic <| Cubic.epoch_start := now |> <| Cubic.last_max_cwnd := cwnd t |> in
  wm ← cubic_w_max (cwnd t) prev;
  let cubic := cubic <| Cubic.w_max := wm |> in
  ss ← beta_cut (cwnd t) (Cubic.beta cubic);
  let t := t <| ssthresh := ss |> in
  infl ← mul_chk U32 3 smss;
  cw ← add_chk U32 ss infl;
  let t := t <| cwnd := cw |> in
  raw_ss ← beta_cut (Cwv.cwnd_raw (cwv t)) (Cubic.beta cubic);
  raw ← add_chk U32 raw_ss infl;
  let t := t <| cwv; Cwv.cwnd_raw := raw |> in
  let cubic := cubic <| Cubic.recover := snd_nxt t |> in
  let cubic := cubic <| Cubic.k_ns := cubic_k cubic cw |> in
  Ret (t <| congestion_control := CcCubic cubic |>).

Definition reno_decrease (flight smss : Z) (reno : Reno.RenoState) (t : TcpControlBlock)
  : res TcpControlBlock :=
  twice ← mul_chk U32 2 smss;
  let ss := Z.max (flight / 2) twice in
  let t := t <| ssthresh := ss |> in
  infl ← mul_chk U32 3 smss;
  cw ← add_chk U32 ss infl;
  let t := t <| cwnd := cw |> in
  let t := t <| cwv; Cwv.cwnd_raw :=
                  sat_add U32 (Z.max (Cwv.cwnd_raw (cwv t) / 2) twice) infl |> in
  Ret (t <| congestion_control := CcReno (reno <| Reno.recover := snd_nxt t |>) |>).

Definition on_congestion_event (now : Instant) (t : TcpControlBlock) : res TcpControlBlock :=
  let flight := if Sack.enabled (sack t) then sack_pipe_bytes t else flight_size_bytes t in
  let smss := Z.max (effective_mss t) 1 in
  t ← (match congestion_control t with
       | CcCubic cubic => cubic_decrease now smss cubic t
       | CcReno reno => reno_decrease flight smss reno t
       end);
  Ret (t <| abc := Abc.clear_accumulators (abc t) |>).
End Decrease.

(** SND.NXT at the loss, whichever algorithm runs. *)
Definition recover_point (t : TcpControlBlock) : Z :=
  match congestion_control t with
  | CcReno r => Reno.recover r
  | CcCubic c => Cubic.recover c
  end.

(** ** Well-formed windows *)

Record cc_ok (t : TcpControlBlock) : Prop := {
  cc_cwnd : u32 (cwnd t);
  cc_raw : u32 (Cwv.cwnd_raw (cwv t));
  cc_ssthresh : u32 (ssthresh t);
  cc_mss : 1 ≤ effective_mss t ≤ MSS;
  cc_accum : u32 (Abc.ca_accum (abc t));
  cc_accum_raw : u32 (Abc.ca_accum_raw (abc t));
  cc_l : Abc.l_smss (abc t) = 2;
  cc_pipe : u32 (Cwv.pipe_max (cwv t))
}.

(** Growth touches the two windows and the counters of ABC only. *)
Definition cc_frame (t t' : TcpControlBlock) : Prop :=
  t' = t <| cwnd := cwnd t' |> <| cwv := cwv t' |> <| abc := abc t' |> ∧
  cwv t' = (cwv t) <| Cwv.cwnd_raw := Cwv.cwnd_raw (cwv t') |>.

Lemma cc_frame_fields t t' : cc_frame t t' →
  ssthresh t' = ssthresh t ∧ effective_mss t' = effective_mss t ∧
  congestion_control t' = congestion_control t ∧ rto t' = rto t ∧ snd_una t' = snd_una t ∧
  snd_nxt t' = snd_nxt t ∧ in_fast_recovery t' = in_fast_recovery t ∧
  retransmission_queue t' = retransmission_queue t.
Proof. intros [-> _]. repeat split; reflexivity. Qed.

Lemma wnd_u32 raw t : cc_ok t → u32 (wnd raw t).
Proof. intros []. by destruct raw. Qed.

Lemma accum_u32 raw t : cc_ok t → u32 (accum raw t).
Proof. intros []. by destruct raw. Qed.

Lemma set_wnd_ok raw v t : cc_ok t → u32 v →
  cc_ok (set_wnd raw v t) ∧ wnd raw (set_wnd raw v t) = v ∧
  wnd (negb raw) (set_wnd raw v t) = wnd (negb raw) t ∧ cc_frame t (set_wnd raw v t) ∧
  abc (set_wnd raw v t) = abc t.
Proof.
  intros [] Hv. unfold set_wnd, wnd.
  split; [destruct raw; constructor; rsimp; assumption|].
  split; [destruct raw; reflexivity|]. split; [destruct raw; reflexivity|].
  split; [|destruct raw; reflexivity].
  split; [destruct t; destruct raw; reflexivity|].
  destruct raw; rsimp; [reflexivity|]. destruct (cwv t). reflexivity.
Qed.

(** The accumulator loop: each SMSS of growth is paid for with a window's
    worth of acknowledged bytes. *)
Lemma reno_loop raw smss t :
  cc_ok t → 0 ≤ smss →
  returns (while_loop (reno_step raw smss) 4294967297 (t, wnd raw t)) (λ '(t', w),
    wnd raw t ≤ w < U32 ∧ cc_ok t' ∧ t' = t <| abc := abc t' |> ∧
    0 ≤ accum raw t' ≤ accum raw t ∧ (w = 0 ∨ accum raw t' < w) ∧
    (w - wnd raw t) * wnd raw t ≤ smss * (accum raw t - accum raw t')).
Proof.
  intros Hok Hs. pose proof (accum_u32 raw t Hok) as Ha0. pose proof (wnd_u32 raw t Hok) as Hw0.
  apply while_loop_total with
    (I := λ '(t', w), wnd raw t ≤ w < U32 ∧ cc_ok t' ∧ t' = t <| abc := abc t' |> ∧
            0 ≤ accum raw t' ≤ accum raw t ∧
            (w - wnd raw t) * wnd raw t ≤ smss * (accum raw t - accum raw t'))
    (m := λ '(t', w), accum raw t').
  - intros [t' w] (Hw & Hok' & Hf & Ha & Hg) _. unfold reno_step. ints.
    destruct (Z.eqb_spec w 0) as [->|Hw1]; simpl.
    { apply returns_ret. repeat (split; [assumption || lia|]). lia. }
    destruct (Z.ltb_spec (accum raw t') w) as [Hlt|Hge].
    { apply returns_ret. repeat (split; [assumption || lia|]). lia. }
    rewrite sub_chk_ret, ret_bind by lia. apply returns_ret.
    match goal with |- context [sat_add U32 (Abc.ca_increments (abc ?x)) 1] => set (t2 := x) end.
    assert (Hacc : accum raw (t2 <| abc; Abc.ca_increments :=
                     sat_add U32 (Abc.ca_increments (abc t2)) 1 |>) = accum raw t' - w)
      by (unfold accum, t2, set_accum; destruct raw; reflexivity).
    rewrite Hacc. split; [|lia]. split; [unfold sat_add; lia|]. split; [|split; [|split; [lia|]]].
    + destruct Hok'. unfold t2, set_accum.
      destruct raw; constructor; rsimp; auto; unfold accum in *; ints; lia.
    + unfold t2, set_accum. rewrite Hf. destruct raw; reflexivity.
    + assert ((sat_add U32 w smss - wnd raw t) * wnd raw t
              ≤ (w - wnd raw t) * wnd raw t + smss * wnd raw t) by (unfold sat_add; nia).
      nia.
  - ints. split; [lia|]. split; [assumption|]. split; [destruct t; reflexivity|]. split; lia.
  - ints. lia.
Qed.

Lemma cc_frame_abc a t : cc_frame t (t <| abc := a |>).
Proof. split; [destruct t; reflexivity|rsimp; destruct (cwv t); reflexivity]. Qed.

Lemma cc_frame_trans t1 t2 t3 : cc_frame t1 t2 → cc_frame t2 t3 → cc_frame t1 t3.
Proof.
  intros [H1 H2] [H3 H4]. split.
  - rewrite H3. rewrite H1 at 1. destruct t1; reflexivity.
  - rewrite H4. rewrite H2 at 1. reflexivity.
Qed.

Lemma grow_slow_start_spec raw n l t :
  cc_ok t → 0 ≤ n → 0 ≤ l →
  let t' := grow_slow_start raw n l t in
  cc_ok t' ∧ cc_frame t t' ∧ wnd (negb raw) t' = wnd (negb raw) t ∧
  wnd raw t ≤ wnd raw t' ≤ wnd raw t + Z.min n l.
Proof.
  intros Hok Hn Hl. cbv zeta. unfold grow_slow_start. set (credit := Z.min n l).
  set (t1 := if credit <? n then _ else t).
  assert (H1 : cc_ok t1 ∧ cc_frame t t1 ∧ ∀ r, wnd r t1 = wnd r t).
  { unfold t1. destruct (credit <? n).
    - split; [destruct Hok; constructor; rsimp; assumption|]. split; [apply cc_frame_abc|].
      intros []; reflexivity.
    - split; [assumption|]. split; [|auto]. split; [destruct t|destruct (cwv t)]; reflexivity. }
  destruct H1 as (Hok1 & Hf1 & Hw1). rewrite !Hw1.
  pose proof (wnd_u32 raw t Hok) as Hu. unfold u32 in Hu.
  destruct (set_wnd_ok raw (sat_add U32 (wnd raw t) credit) t1) as (Hok2 & Hw2 & Hw2' & Hf2 & _);
    [assumption|apply sat_add_range; lia|].
  set (t2 := set_wnd _ _ t1) in *.
  split; [|split; [|split]].
  - destruct Hok2; constructor; rsimp; assumption.
  - eapply cc_frame_trans; [apply Hf1|]. eapply cc_frame_trans; [apply Hf2|apply cc_frame_abc].
  - transitivity (wnd (negb raw) t2); [destruct raw; reflexivity|]. congruence.
  - match goal with |- _ ≤ wnd raw ?x ≤ _ => assert (wnd raw x = wnd raw t2) as -> by (destruct raw; reflexivity) end.
    rewrite Hw2. unfold sat_add. lia.
Qed.

Lemma apply_algorithm_spec now raw smss w t :
  cc_ok t → wnd raw t ≤ w < U32 → 0 ≤ smss →
  let t' := apply_algorithm now raw smss w t in
  cc_ok t' ∧ cc_frame t t' ∧ wnd (negb raw) t' = wnd (negb raw) t ∧ wnd raw t ≤ wnd raw t' ∧
  match congestion_control t with
  | CcCubic _ => wnd raw t' ≤ wnd raw t + smss
  | CcReno _ => wnd raw t' = w
  end.
Proof.
  intros Hok Hw Hs. cbv zeta. pose proof (wnd_u32 raw t Hok) as Hu. unfold u32 in Hu.
  unfold apply_algorithm. destruct (congestion_control t) as [r|c].
  - destruct (set_wnd_ok raw w t) as (? & Hw' & ? & ? & _); [assumption|ints; lia|].
    rewrite Hw'. repeat (split; [assumption || lia|]). reflexivity.
  - set (target := Z.max _ w). destruct (Z.ltb_spec (wnd raw t) target).
    + destruct (set_wnd_ok raw (sat_add U32 (wnd raw t) (Z.min (target - wnd raw t) smss)) t)
        as (? & Hw' & ? & ? & _); [assumption|apply sat_add_range; lia|].
      rewrite Hw'. unfold sat_add. repeat (split; [assumption || lia|]). lia.
    + destruct (set_wnd_ok raw w t) as (? & Hw' & ? & ? & _); [assumption|ints; lia|].
      rewrite Hw'. repeat (split; [assumption || lia|]). lia.
Qed.

Lemma grow_avoidance_spec now raw n smss t :
  cc_ok t → u32 n → 0 ≤ smss →
  returns (grow_avoidance now raw n smss t) (λ t',
    cc_ok t' ∧ cc_frame t t' ∧ wnd (negb raw) t' = wnd (negb raw) t ∧ wnd raw t ≤ wnd raw t' ∧
    match congestion_control t with
    | CcCubic _ => wnd raw t' ≤ wnd raw t + smss
    | CcReno _ => (wnd raw t' - wnd raw t) * wnd raw t ≤ smss * (accum raw t + n)
    end).
Proof.
  intros Hok Hn Hs. unfold grow_avoidance. cbv zeta.
  match goal with |- context [while_loop _ _ (?x, wnd raw ?x)] => set (t1 := x) end.
  pose proof (accum_u32 raw t Hok) as Ha. ints.
  assert (H1 : cc_ok t1 ∧ t1 = t <| abc := abc t1 |> ∧ accum raw t1 = sat_add U32 (accum raw t) n).
  { split; [|unfold t1, set_accum; destruct raw; split; reflexivity].
    pose proof (sat_add_range U32 (accum raw t) n ltac:(lia) ltac:(lia) ltac:(lia)).
    destruct Hok. unfold t1, set_accum. destruct raw; constructor; rsimp; auto; ints; lia. }
  destruct H1 as (Hok1 & Hf1 & Ha1).
  assert (Hf1' : cc_frame t t1) by (rewrite Hf1; apply cc_frame_abc).
  assert (Hw1 : ∀ r, wnd r t1 = wnd r t) by (intros r; rewrite Hf1; destruct r; reflexivity).
  destruct (reno_loop raw smss t1 Hok1 Hs) as ([t2 w] & -> & Hw & Hok2 & Hf2 & Hac & _ & Hg).
  rewrite ret_bind. apply returns_ret.
  assert (Hw2 : ∀ r, wnd r t2 = wnd r t) by (intros r; rewrite Hf2, <- Hw1; destruct r; reflexivity).
  destruct (apply_algorithm_spec now raw smss w t2) as (Hok3 & Hf3 & Hw3 & Hge & Halg);
    [assumption|rewrite Hw2, <- (Hw1 raw); lia|assumption|].
  assert (Hf2' : cc_frame t1 t2) by (rewrite Hf2; apply cc_frame_abc).
  assert (Hcc : congestion_control t2 = congestion_control t) by (rewrite Hf2, Hf1; reflexivity).
  rewrite Hcc in Halg. rewrite !Hw2 in *. rewrite !Hw1 in *.
  split; [assumption|]. split; [by eapply cc_frame_trans; [|eapply cc_frame_trans]|].
  split; [assumption|]. split; [assumption|].
  destruct (congestion_control t); [|assumption].
  rewrite Halg. rewrite Ha1 in Hg. unfold sat_add in *. nia.
Qed.

(** Congestion window growth, per acknowledgment.  In slow start the
    window grows by at most the bytes acknowledged and at most two segments;
    in congestion avoidance CUBIC grows it by at most one segment and Reno by
    at most one segment per window's worth of acknowledged bytes.  It never
    shrinks, the other window and the threshold stay as they are, and the
    accumulator loop always ends. *)
Theorem grow_cwnd_bounds now t raw n :
  cc_ok t → u32 n →
  returns (grow_cwnd_value now t raw n) (λ t',
    cc_ok t' ∧ cc_frame t t' ∧ wnd (negb raw) t' = wnd (negb raw) t ∧ wnd raw t ≤ wnd raw t' ∧
    if wnd raw t <? ssthresh t then wnd raw t' ≤ wnd raw t + Z.min n (2 * effective_mss t)
    else match congestion_control t with
         | CcCubic _ => wnd raw t' ≤ wnd raw t + effective_mss t
         | CcReno _ =>
             (wnd raw t' - wnd raw t) * wnd raw t ≤ effective_mss t * (accum raw t + n)
         end).
Proof.
  intros Hok Hn. pose proof Hok as []. unfold grow_cwnd_value. unfold MSS in *.
  assert (Hl : sat_mul U32 (effective_mss t) 2 = 2 * effective_mss t) by (unfold sat_mul; lia).
  rewrite Z.max_l, cc_l0, Hl by lia.
  destruct (Z.eqb_spec n 0) as [->|Hn0].
  { apply returns_ret. pose proof (accum_u32 raw t Hok). ints.
    split; [assumption|]. split; [split; [destruct t|destruct (cwv t)]; reflexivity|].
    split; [reflexivity|]. split; [lia|].
    destruct (_ <? _); [lia|]. destruct (congestion_control t); nia. }
  destruct (Z.ltb_spec (wnd raw t) (ssthresh t)).
  - apply returns_ret. ints.
    destruct (grow_slow_start_spec raw n (2 * effective_mss t) t) as (? & ? & ? & ?); [assumption|lia..|].
    repeat (split; [assumption || lia|]). lia.
  - apply grow_avoidance_spec; [assumption..|lia].
Qed.

Lemma grow_cwnd_bounds_witness :
  returns (grow_cwnd_value 0 sample_tcb false 5000) (λ t',
    1512 ≤ wnd false t' ∧ wnd false t' ≤ 1512 + 2920).
Proof.
  destruct (grow_cwnd_bounds 0 sample_tcb false 5000) as (t' & -> & _ & _ & _ & H1 & H2);
    [constructor; vm_compute; intuition congruence|unfold u32; lia|].
  apply returns_ret. split; [exact H1|exact H2].
Defined.

(** What the gate needs of one growth step. *)
Lemma grow_cwnd_safe now t raw n :
  cc_ok t → u32 n →
  returns (grow_cwnd_value now t raw n) (λ t',
    cc_ok t' ∧ cc_frame t t' ∧ wnd (negb raw) t' = wnd (negb raw) t ∧ wnd raw t ≤ wnd raw t' ∧
    ∀ c, congestion_control t = CcCubic c → wnd raw t' ≤ wnd raw t + 2 * effective_mss t).
Proof.
  intros Hok Hn. pose proof Hok as []. unfold grow_cwnd_value. unfold MSS in *.
  assert (Hl : sat_mul U32 (effective_mss t) 2 = 2 * effective_mss t) by (unfold sat_mul; lia).
  rewrite Z.max_l, cc_l0, Hl by lia. ints.
  destruct (Z.eqb_spec n 0) as [->|Hn0]; [|destruct (Z.ltb_spec (wnd raw t) (ssthresh t))].
  - apply returns_ret. split; [assumption|].
    split; [split; [destruct t|destruct (cwv t)]; reflexivity|]. split; [reflexivity|]. split; [lia|intros; lia].
  - apply returns_ret.
    destruct (grow_slow_start_spec raw n (2 * effective_mss t) t) as (? & ? & ? & ?); [assumption|lia..|].
    repeat (split; [assumption || lia|]). intros; lia.
  - eapply returns_mono; [apply grow_avoidance_spec; [assumption|ints; lia|]; lia|].
    intros t' (? & ? & ? & ? & Hb). repeat (split; [assumption|]).
    intros c Hc. rewrite Hc in Hb. lia.
Qed.

(** The effect of a reduction: the window is cut to the flight seen, never
    below two segments; the threshold never drops. *)
Lemma cwv_reduce_spec t reason :
  cc_ok t →
  returns (cwv_reduce_cwnd t reason) (λ t',
    cc_ok t' ∧
    cwnd t' = Z.min (cwnd t) (Z.max (Z.max (Cwv.pipe_max (cwv t)) (flight_size_bytes t))
                                    (2 * effective_mss t)) ∧
    ssthresh t ≤ ssthresh t' ∧
    t' = t <| cwnd := cwnd t' |> <| ssthresh := ssthresh t' |> <| cwv := cwv t' |> ∧
    Cwv.validated (cwv t') = Cwv.validated (cwv t) ∧ Cwv.enabled (cwv t') = Cwv.enabled (cwv t) ∧
    Cwv.app_limited_since (cwv t') = Cwv.app_limited_since (cwv t) ∧
    Cwv.cwnd_raw (cwv t') = Cwv.cwnd_raw (cwv t)).
Proof.
  intros Hok. pose proof Hok as []. unfold cwv_reduce_cwnd. cbv zeta.
  unfold MSS in *. pose proof (wsub_u32 (snd_nxt t) (snd_una t)) as Hfl.
  fold (flight_size_bytes t) in Hfl. ints.
  rewrite mul_chk_ret, ret_bind by lia. apply returns_ret. rewrite (Z.max_l _ 1) by lia.
  set (pipe := Z.max (Cwv.pipe_max (cwv t)) (flight_size_bytes t)).
  set (target := Z.max pipe (2 * effective_mss t)).
  destruct (Z.ltb_spec target (cwnd t)).
  - rsimp. set (t1 := if _ <? _ then _ else _).
    assert (H1 : t1 = t <| cwnd := target |> <| ssthresh := ssthresh t1 |> ∧
                 ssthresh t1 = Z.max (ssthresh t) target).
    { unfold t1. destruct (Z.ltb_spec (ssthresh t) target); rsimp.
      - split; [reflexivity|lia].
      - split; [destruct t; reflexivity|lia]. }
    destruct H1 as [E1 E2]. rewrite E1, E2.
    destruct reason; rsimp; (split; [constructor; rsimp; auto; ints; lia|]);
      repeat (split; [lia|]); (split; [reflexivity|auto]).
  - rsimp. split; [constructor; rsimp; auto; ints; lia|]. repeat (split; [lia|]).
    split; [destruct t; reflexivity|auto].
Qed.

(** Everything but the windows, the threshold and the bookkeeping of CWV and
    ABC is as before. *)
Definition cwnd_only (t t' : TcpControlBlock) : Prop :=
  t' = t <| cwnd := cwnd t' |> <| ssthresh := ssthresh t' |> <| cwv := cwv t' |> <| abc := abc t' |>.

Lemma cwnd_only_trans t1 t2 t3 : cwnd_only t1 t2 → cwnd_only t2 t3 → cwnd_only t1 t3.
Proof.
  unfold cwnd_only. intros H1 H2. rewrite H2. rewrite H1 at 1. destruct t1; reflexivity.
Qed.

Lemma cc_frame_cwnd_only t t' : cc_frame t t' → cwnd_only t t'.
Proof. intros [-> _]. destruct t; reflexivity. Qed.

Lemma cwnd_only_refl t : cwnd_only t t.
Proof. destruct t; reflexivity. Qed.

(** What the gate does: a cut that stops at two segments. *)
Definition gated (t t' : TcpControlBlock) : Prop :=
  cc_ok t' ∧ cwnd_only t t' ∧ Z.min (cwnd t) (2 * effective_mss t) ≤ cwnd t' ≤ cwnd t ∧
  ssthresh t ≤ ssthresh t' ∧ Cwv.validated (cwv t') = Cwv.validated (cwv t) ∧
  Cwv.enabled (cwv t') = Cwv.enabled (cwv t) ∧ Cwv.cwnd_raw (cwv t') = Cwv.cwnd_raw (cwv t).

Lemma gated_refl t : cc_ok t → gated t t.
Proof. intros []. split; [by constructor|]. split; [apply cwnd_only_refl|]. ints. auto with lia. Qed.

Lemma gated_reduce t reason : cc_ok t →
  returns (cwv_reduce_cwnd t reason) (λ t', gated t t' ∧
    Cwv.app_limited_since (cwv t') = Cwv.app_limited_since (cwv t)).
Proof.
  intros Hok. eapply returns_mono; [by apply cwv_reduce_spec|].
  intros t' (Hok' & Hc & Hs & Hf & Hv & He & Ha & Hr). split; [|assumption].
  split; [assumption|]. split; [rewrite Hf; destruct t; reflexivity|].
  split; [destruct Hok; ints; lia|auto].
Qed.

Lemma gated_trans t1 t2 t3 : gated t1 t2 → gated t2 t3 → gated t1 t3.
Proof.
  intros (? & Hf1 & ? & ? & ? & ? & ?) (? & Hf2 & Hc & ? & ? & ? & ?).
  assert (effective_mss t2 = effective_mss t1) as Em by (rewrite Hf1; reflexivity).
  rewrite Em in Hc. split; [assumption|]. split; [by eapply cwnd_only_trans|].
  split; [lia|]. split; [lia|]. repeat (split; [congruence|]). congruence.
Qed.

Lemma cwv_gate_spec n t : cc_ok t → returns (cwv_gate n t) (gated t).
Proof.
  intros Hok. unfold cwv_gate.
  assert (H1 : returns (if rto t <? elapsed n (Cwv.last_data_tx (cwv t))
                        then cwv_reduce_cwnd t Cwv.Idle else Ret t) (gated t)).
  { destruct (_ <? _); [|apply returns_ret, gated_refl, Hok].
    eapply returns_mono; [by apply gated_reduce|]. by intros ? [? _]. }
  eapply returns_bind; [apply H1|]. intros t1 Hg1.
  destruct (Cwv.app_limited_since (cwv t1)); [|by apply returns_ret].
  destruct (_ <=? _); [|by apply returns_ret].
  eapply returns_bind; [apply gated_reduce, Hg1|]. intros t2 [Hg2 _]. apply returns_ret.
  eapply gated_trans; [apply Hg1|]. eapply gated_trans; [apply Hg2|].
  destruct Hg2 as [[] _]. split; [constructor; rsimp; assumption|].
  split; [destruct t2; reflexivity|]. rsimp. unfold MSS in *. ints. auto with lia.
Qed.

Lemma update_cwnd_spec now t n :
  cc_ok t → u32 n →
  returns (update_congestion_window now t n) (λ t',
    cc_ok t' ∧ cwnd_only t t' ∧ ssthresh t ≤ ssthresh t' ∧
    (in_fast_recovery t = true → t' = t) ∧
    (in_fast_recovery t = false → Cwv.enabled (cwv t) = true →
       Z.min (cwnd t) (2 * effective_mss t) ≤ cwnd t' ∧
       (Cwv.validated (cwv t) = false → cwnd t' ≤ cwnd t) ∧
       ∀ c, congestion_control t = CcCubic c → cwnd t' ≤ cwnd t + 2 * effective_mss t) ∧
    (∀ c, congestion_control t = CcCubic c →
       Cwv.cwnd_raw (cwv t') ≤ Cwv.cwnd_raw (cwv t) + 2 * effective_mss t ∧
       cwnd t' ≤ Z.max (cwnd t) (Cwv.cwnd_raw (cwv t)) + 2 * effective_mss t)).
Proof.
  intros Hok Hn. unfold update_congestion_window. pose proof Hok as [].
  destruct (in_fast_recovery t) eqn:Efr.
  { apply returns_ret. split; [assumption|]. split; [apply cwnd_only_refl|].
    split; [lia|]. split; [auto|]. split; [discriminate|]. intros. lia. }
  destruct (grow_cwnd_safe (now 0%nat) t true n Hok Hn) as (t1 & -> & Hok1 & Hf1 & Hw1 & _ & Hraw1).
  rewrite ret_bind. simpl in Hw1. pose proof (cc_frame_cwnd_only _ _ Hf1) as Hc1.
  pose proof (cc_frame_fields _ _ Hf1) as (Hss1 & Hm1 & Hcc1 & _).
  change (wnd true t1) with (Cwv.cwnd_raw (cwv t1)) in Hraw1.
  change (wnd true t) with (Cwv.cwnd_raw (cwv t)) in Hraw1.
  assert (Hv1 : Cwv.validated (cwv t1) = Cwv.validated (cwv t) ∧ Cwv.enabled (cwv t1) = Cwv.enabled (cwv t))
    by (destruct Hf1 as [_ ->]; auto).
  destruct (Cwv.enabled (cwv t1)) eqn:Een; simpl.
  2: { apply returns_ret. split; [destruct Hok1; constructor; rsimp; assumption|].
       split; [eapply cwnd_only_trans; [apply Hc1|destruct t1; reflexivity]|]. rsimp.
       split; [lia|]. split; [discriminate|]. split; [destruct Hv1; congruence|].
       intros c Hc. specialize (Hraw1 c Hc). lia. }
  destruct (cwv_gate_spec (now 1%nat) t1 Hok1) as (t2 & -> & Hok2 & Hc2 & Hb2 & Hs2 & Hv2 & _ & Hr2).
  rewrite ret_bind. rewrite Hm1, Hw1 in Hb2.
  assert (Hcc2 : congestion_control t2 = congestion_control t1) by (rewrite Hc2; reflexivity).
  assert (Hm2 : effective_mss t2 = effective_mss t1) by (rewrite Hc2; reflexivity).
  destruct (Cwv.validated (cwv t2)) eqn:Eval; simpl.
  - match goal with |- returns (grow_cwnd_value _ ?x _ _) _ => set (t3 := x) end.
    assert (Hok3 : cc_ok t3) by (destruct Hok2; unfold t3; constructor; rsimp; auto; ints; lia).
    destruct (grow_cwnd_safe (now 2%nat) t3 false n Hok3 Hn) as (t4 & -> & Hok4 & Hf4 & Hraw4 & Hge & Hcub).
    apply returns_ret. pose proof (cc_frame_fields _ _ Hf4) as (Hss4 & _).
    change (wnd false t3) with (cwnd t2) in *. change (wnd false t4) with (cwnd t4) in *.
    change (wnd (negb false) t4) with (Cwv.cwnd_raw (cwv t4)) in Hraw4.
    change (wnd (negb false) t3) with (Cwv.cwnd_raw (cwv t2)) in Hraw4.
    change (ssthresh t3) with (ssthresh t2) in *. change (effective_mss t3) with (effective_mss t2) in Hcub.
    assert (Hc' : congestion_control t3 = congestion_control t) by (unfold t3; rsimp; congruence).
    rewrite Hc' in Hcub.
    split; [assumption|]. split; [|split; [lia|split; [discriminate|split]]].
    + eapply cwnd_only_trans; [apply Hc1|]. eapply cwnd_only_trans; [apply Hc2|].
      eapply cwnd_only_trans; [|apply cc_frame_cwnd_only, Hf4]. destruct t2; reflexivity.
    + intros _ _. split; [lia|]. split; [destruct Hv1; congruence|].
      intros c Hc. specialize (Hcub c Hc). lia.
    + intros c Hc. specialize (Hcub c Hc). specialize (Hraw1 c Hc). lia.
  - apply returns_ret. split; [destruct Hok2; constructor; rsimp; assumption|].
    split; [|rsimp; split; [lia|split; [discriminate|split]]].
    + eapply cwnd_only_trans; [apply Hc1|]. eapply cwnd_only_trans; [apply Hc2|].
      destruct t2; reflexivity.
    + intros _ _. split; [lia|]. split; [lia|]. intros; lia.
    + intros c Hc. specialize (Hraw1 c Hc). lia.
Qed.

(** The congestion window on an acknowledgment of new data.  It never
    panics; during fast recovery nothing changes; with New CWV the window
    does not grow unless the last flight validated it, grows by at most two
    segments under CUBIC, and is never cut below two segments; the threshold
    only rises and sequence state is untouched. *)
Theorem congestion_window_update now t n :
  cc_ok t → u32 n →
  returns (update_congestion_window now t n) (λ t',
    cc_ok t' ∧ cwnd_only t t' ∧ ssthresh t ≤ ssthresh t' ∧
    (in_fast_recovery t = true → t' = t) ∧
    (in_fast_recovery t = false → Cwv.enabled (cwv t) = true →
       Z.min (cwnd t) (2 * effective_mss t) ≤ cwnd t' ∧
       (Cwv.validated (cwv t) = false → cwnd t' ≤ cwnd t) ∧
       ∀ c, congestion_control t = CcCubic c → cwnd t' ≤ cwnd t + 2 * effective_mss t)).
Proof.
  intros Hok Hn. eapply returns_mono; [by apply update_cwnd_spec|].
  intros t' (? & ? & ? & ? & ? & _). auto.
Qed.

Lemma congestion_window_update_witness :
  returns (update_congestion_window (λ _, 5) sample_tcb 1460) (λ t', 1512 ≤ cwnd t' ≤ 1512 + 2920).
Proof.
  destruct (congestion_window_update (λ _, 5) sample_tcb 1460)
    as (t' & -> & _ & _ & _ & _ & H); [constructor; vm_compute; intuition congruence|unfold u32; lia|].
  apply returns_ret. destruct (H eq_refl eq_refl) as (H1 & _ & H3).
  split; [exact H1|exact (H3 _ eq_refl)].
Defined.

Lemma beta_cut_spec w beta :
  u32 w → 0 ≤ beta ≤ 1024 →
  returns (beta_cut w beta) (λ r, r = w * beta / 1024 ∧ 0 ≤ r ≤ w).
Proof.
  intros Hw Hb. unfold beta_cut. ints. rewrite mul_chk_ret, ret_bind by nia.
  apply returns_ret. rewrite Z.shiftr_div_pow2 by lia. change (2 ^ 10) with 1024.
  assert (0 ≤ w * beta / 1024 ≤ w).
  { split; [apply Z.div_pos; nia|]. apply Z.div_le_upper_bound; nia. }
  rewrite Z.mod_small by lia. auto.
Qed.

Lemma sum_len_u32 q : u32 (sum_len q).
Proof.
  unfold sum_len. assert (H : ∀ a, u32 a → u32 (foldl (λ acc s, sat_add U32 acc (seg_len s)) a q)).
  { induction q as [|s q IH]; intros a Ha; simpl; [assumption|]. apply IH.
    pose proof (wsub_u32 (Seg.end_seq s) (Seg.seq s)). unfold seg_len. ints.
    apply sat_add_range; lia. }
  apply H. ints. lia.
Qed.

(** Only congestion control state changes. *)
Definition md_frame (t t' : TcpControlBlock) : Prop :=
  t' = t <| cwnd := cwnd t' |> <| ssthresh := ssthresh t' |> <| cwv := cwv t' |> <| abc := abc t' |>
         <| congestion_control := congestion_control t' |>.

Lemma congestion_event_spec `{Libm} now t :
  cc_ok t → cwnd t ≤ 2 ^ 28 → Cwv.cwnd_raw (cwv t) ≤ 2 ^ 28 →
  (∀ c, congestion_control t = CcCubic c → 0 ≤ Cubic.beta c ≤ 1024) →
  returns (on_congestion_event now t) (λ t', cc_ok t' ∧ md_frame t t' ∧
    cwnd t' = ssthresh t' + 3 * effective_mss t ∧
    recover_point t' = snd_nxt t ∧
    Abc.ca_accum (abc t') = 0 ∧ Abc.ca_accum_raw (abc t') = 0 ∧
    match congestion_control t with
    | CcCubic c => ssthresh t' = cwnd t * Cubic.beta c / 1024
    | CcReno _ => ssthresh t' = Z.max ((if Sack.enabled (sack t) then sack_pipe_bytes t
                                        else flight_size_bytes t) / 2) (2 * effective_mss t)
    end).
Proof.
  intros Hok Hcw Hraw Hb. pose proof Hok as []. unfold on_congestion_event. unfold MSS in *.
  set (flight := if Sack.enabled (sack t) then _ else _).
  assert (Hfl : u32 flight).
  { unfold flight. destruct (Sack.enabled (sack t)); [apply sum_len_u32|apply wsub_u32]. }
  rewrite (Z.max_l (effective_mss t) 1) by lia. ints.
  destruct (congestion_control t) as [r|c] eqn:Ecc.
  - unfold reno_decrease. cbv zeta.
    assert (0 ≤ flight / 2 ≤ 2147483648) by mlia.
    assert (0 ≤ Cwv.cwnd_raw (cwv t) / 2) by mlia.
    run. apply returns_ret. unfold recover_point. split.
    { constructor; unfold Abc.clear_accumulators; rsimp; unfold sat_add, MSS; ints; lia || assumption. }
    split; [unfold md_frame; rsimp; destruct t; reflexivity|]. rsimp. auto.
  - specialize (Hb c eq_refl). unfold cubic_decrease. cbv zeta. rsimp.
    assert (Hwm : ∃ wm, cubic_w_max (cwnd t) (Cubic.last_max_cwnd c) = Ret wm).
    { unfold cubic_w_max. destruct (_ <? _); [rewrite mul_chk_ret by lia|]; eauto. }
    destruct Hwm as [wm ->]. rewrite bind_assoc, ret_bind, bind_assoc. rsimp.
    destruct (beta_cut_spec (cwnd t) (Cubic.beta c)) as (ss & -> & Hss & Hr); [ints; lia|lia|].
    rewrite ret_bind. run. rsimp.
    destruct (beta_cut_spec (Cwv.cwnd_raw (cwv t)) (Cubic.beta c)) as (rs & -> & _ & Hr2); [ints; lia|lia|].
    rewrite ret_bind. run. apply returns_ret. unfold recover_point. split.
    { constructor; unfold Abc.clear_accumulators; rsimp; unfold MSS; ints; lia || assumption. }
    split; [unfold md_frame; rsimp; destruct t; reflexivity|]. rsimp. auto.
Qed.

(** The reaction to a loss.  Below 2^28 bytes of window nothing
    overflows, whatever [cbrt] returns: the threshold becomes [beta] times
    the window (CUBIC) or half the flight and at least two segments (Reno),
    the window restarts three segments above it, the recovery point is
    SND.NXT and the byte-counting credits are dropped. *)
Theorem congestion_event_response `{Libm} now t :
  cc_ok t → cwnd t ≤ 2 ^ 28 → Cwv.cwnd_raw (cwv t) ≤ 2 ^ 28 →
  (∀ c, congestion_control t = CcCubic c → 0 ≤ Cubic.beta c ≤ 1024) →
  returns (on_congestion_event now t) (λ t',
    cwnd t' = ssthresh t' + 3 * effective_mss t ∧
    recover_point t' = snd_nxt t ∧
    Abc.ca_accum (abc t') = 0 ∧ Abc.ca_accum_raw (abc t') = 0 ∧
    match congestion_control t with
    | CcCubic c => ssthresh t' = cwnd t * Cubic.beta c / 1024
    | CcReno _ => ssthresh t' = Z.max ((if Sack.enabled (sack t) then sack_pipe_bytes t
                                        else flight_size_bytes t) / 2) (2 * effective_mss t)
    end).
Proof.
  intros Hok Hcw Hraw Hb. eapply returns_mono; [by apply congestion_event_spec|].
  intros t' (_ & _ & ?). assumption.
Qed.

(** [cbrt] truncated to zero is as good as any for the bound. *)
Lemma congestion_event_response_witness :
  returns (@on_congestion_event {| cbrt := λ _, f64_of 0 |} 9 sample_tcb) (λ t',
    cwnd t' = ssthresh t' + 4380 ∧ ssthresh t' = 1058).
Proof.
  destruct (@congestion_event_response {| cbrt := λ _, f64_of 0 |} 9 sample_tcb)
    as (t' & -> & H1 & _ & _ & _ & H2);
    [constructor; vm_compute; intuition congruence|vm_compute; discriminate..| |].
  - intros c Hc. vm_compute in Hc. injection Hc as <-. simpl. lia.
  - apply returns_ret. split; [exact H1|exact H2].
Defined.
