(* ===== verification/TcpTimestamp.v ===== *)
(** * Timestamps and the round-trip estimator

    [kernel/src/driver/net/proto/tcp/timestamp.rs]. *)

From S2P Require Import Prelude Time ReceiveBuffer TcpTypes TcpSack.

Definition PAWS_IDLE : Duration := secs (24 * 24 * 3600).

(** [now] is the monotonic clock in nanoseconds. *)
Definition tcp_ts_now (now : Instant) (offset : Z) : Z :=
  wadd (now / 1000000 mod U32) offset.

(** [now] holds the reading of the idle check and of the refresh.  The flag
    is [false] for a segment to drop. *)
Definition on_rx_timestamp (now : clock) (t : TcpControlBlock) (seg_seq tsval : Z)
    (is_syn is_rst : bool) : bool * TcpControlBlock :=
  if negb (Ts.enabled (ts t)) then (true, t) else
  let idle := PAWS_IDLE <? elapsed (now 0%nat) (Ts.recent_age (ts t)) in
  if negb is_rst && negb is_syn && negb idle && negb (Ts.ts_recent (ts t) =? 0)
     && (sdiff tsval (Ts.ts_recent (ts t)) <? 0)
  then (false, t)
  else
    let advances := 0 <=? sdiff seg_seq (Ts.last_ack_ts_seq (ts t)) in
    if advances || is_syn then
      (true, t <| ts; Ts.ts_recent := tsval |> <| ts; Ts.last_ack_ts_seq := seg_seq |>
               <| ts; Ts.recent_age := now 1%nat |>)
    else (true, t).

Definition smooth (old_srtt old_var r : Z) : res (Z * Z) :=
  let diff := Z.abs (old_srtt - r) in
  v3 ← mul_chk U64 3 old_var;
  v ← add_chk U64 (v3 / 4) (diff / 4);
  s7 ← mul_chk U64 7 old_srtt;
  s ← add_chk U64 (s7 / 8) (r / 8);
  Ret (s, v).

Definition update_rtt_estimators (t : TcpControlBlock) (r : Duration) : res TcpControlBlock :=
  let t := rack_feed_rtt t r in
  '(s, v) ← (match srtt t, rttvar t with
             | Some s, Some v => smooth s v r
             | _, _ => Ret (r, r / 2)
             end);
  let t := t <| srtt := Some s |> <| rttvar := Some v |> in
  let rto' := sat_add U64 s (sat_mul U64 v 4) in
  Ret (t <| rto := Z.min (Z.max rto' (secs 1)) (secs 60) |>).

(** ** Properties *)

(** A sample below [B] keeps both estimators below [B]. *)
Lemma smooth_bounded B s v r :
  0 < B → 7 * B < U64 → 0 ≤ s ≤ B → 0 ≤ v ≤ B → 0 ≤ r ≤ B →
  returns (smooth s v r) (λ '(s', v'), 0 ≤ s' ≤ B ∧ 0 ≤ v' ≤ B ∧ s' = 7 * s / 8 + r / 8 ∧
                                       v' = 3 * v / 4 + Z.abs (s - r) / 4).
Proof.
  intros. unfold smooth. cbv zeta. assert (0 ≤ Z.abs (s - r) ≤ B) by lia.
  set (d := Z.abs (s - r)) in *. clearbody d.
  assert (0 ≤ 3 * v / 4 + d / 4 ≤ B) by mlia. assert (0 ≤ 7 * s / 8 + r / 8 ≤ B) by mlia.
  run. apply returns_ret. auto.
Qed.

(** Estimators built from samples of at most [B]. *)
Definition rtt_ok (B : Z) (t : TcpControlBlock) : Prop :=
  (∀ s, srtt t = Some s → 0 ≤ s ≤ B) ∧ (∀ v, rttvar t = Some v → 0 ≤ v ≤ B).

(** Only the estimators and RACK's least round trip change. *)
Definition rtt_frame (t t' : TcpControlBlock) : Prop :=
  t' = t <| sack := sack t' |> <| srtt := srtt t' |> <| rttvar := rttvar t' |> <| rto := rto t' |> ∧
  sack t' = (sack t) <| Sack.rack_min_rtt := Sack.rack_min_rtt (sack t') |>.

Lemma update_rtt_spec B t r :
  0 < B < 2 ^ 61 → rtt_ok B t → 0 ≤ r ≤ B →
  returns (update_rtt_estimators t r) (λ t',
    rtt_frame t t' ∧ rtt_ok B t' ∧ secs 1 ≤ rto t' ≤ secs 60 ∧
    ∃ s v, srtt t' = Some s ∧ rttvar t' = Some v ∧
           rto t' = Z.min (secs 60) (Z.max (secs 1) (s + 4 * v)) ∧
           match srtt t, rttvar t with
           | Some s0, Some v0 => s = 7 * s0 / 8 + r / 8 ∧ v = 3 * v0 / 4 + Z.abs (s0 - r) / 4
           | _, _ => s = r ∧ v = r / 2
           end).
Proof.
  intros HB [Hs Hv] Hr. unfold update_rtt_estimators. cbv zeta.
  change (srtt (rack_feed_rtt t r)) with (srtt t).
  change (rttvar (rack_feed_rtt t r)) with (rttvar t).
  assert (Hsm : returns (match srtt t, rttvar t with Some s, Some v => smooth s v r | _, _ => Ret (r, r / 2) end)
    (λ '(s, v), 0 ≤ s ≤ B ∧ 0 ≤ v ≤ B ∧
       match srtt t, rttvar t with
       | Some s0, Some v0 => s = 7 * s0 / 8 + r / 8 ∧ v = 3 * v0 / 4 + Z.abs (s0 - r) / 4
       | _, _ => s = r ∧ v = r / 2
       end)).
  { assert (0 ≤ r / 2 ≤ B) by mlia.
    destruct (srtt t) as [s|], (rttvar t) as [v|]; try (apply returns_ret; auto).
    specialize (Hs s eq_refl). specialize (Hv v eq_refl). apply smooth_bounded; lia. }
  destruct Hsm as ([s v] & -> & Hs' & Hv' & Heq). rewrite ret_bind. apply returns_ret.
  split; [split; [destruct t; reflexivity|reflexivity]|].
  unfold rtt_ok. rsimp. split; [split; intros ? [= <-]; assumption|].
  unfold sat_add, sat_mul, secs. split; [lia|]. exists s, v.
  split; [reflexivity|]. split; [reflexivity|]. split; [lia|assumption].
Qed.

(** The retransmission timeout stays within one and sixty seconds.  For
    samples and estimators below 2^61 ns the update never overflows, keeps
    the estimators within the largest sample, and leaves
    [RTO = min(60s, max(1s, SRTT + 4 RTTVAR))]. *)
Theorem rto_stays_in_bounds B t r :
  0 < B < 2 ^ 61 → rtt_ok B t → 0 ≤ r ≤ B →
  returns (update_rtt_estimators t r) (λ t',
    rtt_ok B t' ∧ secs 1 ≤ rto t' ≤ secs 60 ∧
    ∃ s v, srtt t' = Some s ∧ rttvar t' = Some v ∧
           rto t' = Z.min (secs 60) (Z.max (secs 1) (s + 4 * v)) ∧
           match srtt t, rttvar t with
           | Some s0, Some v0 => s = 7 * s0 / 8 + r / 8 ∧ v = 3 * v0 / 4 + Z.abs (s0 - r) / 4
           | _, _ => s = r ∧ v = r / 2
           end).
Proof.
  intros HB Hok Hr. eapply returns_mono; [by apply (update_rtt_spec B)|]. intros t' [_ Hp]. exact Hp.
Qed.

Lemma rto_stays_in_bounds_witness :
  returns (update_rtt_estimators (sample_tcb <| srtt := Some (ms 200) |> <| rttvar := Some (ms 50) |>)
             (ms 1000)) (λ t', secs 1 ≤ rto t' ≤ secs 60).
Proof.
  destruct (rto_stays_in_bounds (secs 60) (sample_tcb <| srtt := Some (ms 200) |> <| rttvar := Some (ms 50) |>)
    (ms 1000)) as (t' & -> & _ & H & _); [vm_compute; split; congruence| |vm_compute; split; congruence|].
  - split; rsimp; intros ? [= <-]; vm_compute; split; congruence.
  - apply returns_ret. exact H.
Defined.

(** PAWS.  A segment that is not a SYN is dropped exactly when timestamps
    are on, the connection has not been idle for 24 days, a timestamp is on
    record, and the segment's is older in the modular order; a dropped
    segment changes nothing, and an accepted one replaces the record only if
    its sequence number does not go back. *)
Theorem paws_drops_old_segments now t seg_seq tsval :
  let '(ok, t') := on_rx_timestamp now t seg_seq tsval false false in
  (ok = false ↔
     Ts.enabled (ts t) = true ∧ elapsed (now 0%nat) (Ts.recent_age (ts t)) ≤ PAWS_IDLE ∧
     Ts.ts_recent (ts t) ≠ 0 ∧ sdiff tsval (Ts.ts_recent (ts t)) < 0) ∧
  (ok = false → t' = t) ∧
  Ts.ts_recent (ts t') =
    (if ok && Ts.enabled (ts t) && (0 <=? sdiff seg_seq (Ts.last_ack_ts_seq (ts t)))
     then tsval else Ts.ts_recent (ts t)).
Proof.
  unfold on_rx_timestamp. destruct (Ts.enabled (ts t)) eqn:Een; simpl.
  2: { split; [split; [discriminate|intros (? & _); discriminate]|]. split; [discriminate|reflexivity]. }
  destruct (Z.ltb_spec PAWS_IDLE (elapsed (now 0%nat) (Ts.recent_age (ts t)))) as [Hi|Hi]; simpl;
    [|destruct (Z.eqb_spec (Ts.ts_recent (ts t)) 0) as [H0|H0]; simpl;
      [|destruct (Z.ltb_spec (sdiff tsval (Ts.ts_recent (ts t))) 0) as [Hd|Hd]; simpl]].
  3: { split; [tauto|auto]. }
  all: rewrite orb_false_r; destruct (0 <=? sdiff seg_seq (Ts.last_ack_ts_seq (ts t))); simpl; rsimp;
    (split; [split; [discriminate|intros (_ & ? & ? & ?); lia]|split; [discriminate|reflexivity]]).
Qed.
