(* ===== verification/TcpRecovery.v ===== *)
(** * Spurious timeout detection

    [kernel/src/driver/net/proto/tcp/eifel.rs] (with Timestamps) and
    [frto.rs] (without). *)

From S2P Require Import Prelude Time ReceiveBuffer TcpTypes.

(** ** Eifel *)

Definition EIFEL_IW_BYTES : Z := 4380.

Definition eifel_clear_pending (t : TcpControlBlock) : TcpControlBlock :=
  t <| eifel; Eifel.pipe_prev := None |> <| eifel; Eifel.retransmit_ts := None |>
    <| eifel; Eifel.snd_max := None |> <| eifel; Eifel.bytes_acked := 0 |>.

Definition eifel_on_rto_before_md (t : TcpControlBlock) : TcpControlBlock :=
  if negb (Ts.enabled (ts t)) then t else
  let t := t <| frto := Frto.frto_clear (frto t) |> in
  let flight := flight_size_bytes t in
  t <| eifel; Eifel.pipe_prev := Some (Z.max flight (ssthresh t)) |>
    <| eifel; Eifel.snd_max := Some (snd_nxt t) |> <| eifel; Eifel.bytes_acked := 0 |>.

Definition eifel_on_acceptable_ack (t : TcpControlBlock) (tsecr : option Z) (ece : bool)
  : TcpControlBlock :=
  match Eifel.retransmit_ts (eifel t) with
  | None => t
  | Some retransmit_ts =>
  match tsecr with
  | None => eifel_clear_pending t
  | Some tsecr =>
  let spurious := sdiff tsecr retransmit_ts <? 0 in
  if negb spurious || ece then eifel_clear_pending t else
  let pipe_prev := default (flight_size_bytes t) (Eifel.pipe_prev (eifel t)) in
  let snd_max := default (snd_nxt t) (Eifel.snd_max (eifel t)) in
  let bump := Z.min (Eifel.bytes_acked (eifel t)) EIFEL_IW_BYTES in
  let flight := flight_size_bytes t in
  let t := t <| cwnd := sat_add U32 flight bump |> in
  let t := t <| cwv; Cwv.cwnd_raw := cwnd t |> <| ssthresh := pipe_prev |>
             <| abc := Abc.clear_accumulators (abc t) |> in
  let t := if 0 <=? sdiff snd_max (snd_una t) then t <| snd_nxt := snd_max |> else t in
  let t := t <| in_fast_recovery := false |>
             <| eifel; Eifel.spurious_count := sat_add U32 (Eifel.spurious_count (eifel t)) 1 |> in
  eifel_clear_pending t
  end
  end.

(** ** F-RTO *)

Definition frto_on_rto (t : TcpControlBlock) (rto_retrans_end : Z) : TcpControlBlock :=
  if negb (Ts.enabled (ts t)) then t else
  let t := t <| frto; Frto.prev_cwnd := cwnd t |> <| frto; Frto.prev_ssthresh := ssthresh t |>
             <| frto; Frto.recover_nxt := snd_nxt t |>
             <| frto; Frto.rto_retrans_end := rto_retrans_end |>
             <| frto; Frto.phase := Frto.Step1 |> in
  eifel_clear_pending t.

Definition frto_declare_spurious (t : TcpControlBlock) : res TcpControlBlock :=
  let smss := Z.max (effective_mss t) 1 in
  twice ← mul_chk U32 2 smss;
  let t := t <| ssthresh := Z.max (Frto.prev_ssthresh (frto t)) (Z.max twice (ssthresh t)) |> in
  let flight := flight_size_bytes t in
  let t := t <| cwnd := Z.max (sat_add U32 flight smss) twice |> in
  let t := t <| cwv; Cwv.cwnd_raw := cwnd t |> <| abc := Abc.clear_accumulators (abc t) |> in
  let t := eifel_clear_pending t in
  let t := t <| in_fast_recovery := false |>
             <| frto; Frto.spurious_count := sat_add U32 (Frto.spurious_count (frto t)) 1 |> in
  Ret (t <| frto := Frto.frto_clear (frto t) |>).

Definition frto_declared_loss (t : TcpControlBlock) : TcpControlBlock :=
  let t := t <| frto; Frto.declared_loss_count :=
                  sat_add U32 (Frto.declared_loss_count (frto t)) 1 |> in
  t <| frto := Frto.frto_clear (frto t) |>.

Definition frto_on_ack (t : TcpControlBlock) (is_dup : bool) : res TcpControlBlock :=
  if Ts.enabled (ts t) then Ret (t <| frto := Frto.frto_clear (frto t) |>) else
  match Frto.phase (frto t) with
  | Frto.Idle => Ret t
  | Frto.Step1 =>
      if is_dup then Ret (frto_declared_loss t) else
      let t := t <| frto; Frto.phase := Frto.Step2 |> in
      let smss := Z.max (effective_mss t) 1 in
      Ret (t <| cwnd := Z.max (cwnd t) smss |>
             <| cwv; Cwv.cwnd_raw := Z.max (Cwv.cwnd_raw (cwv t)) smss |>)
  | Frto.Step2 =>
      if is_dup then Ret (frto_declared_loss t) else frto_declare_spurious t
  end.

(** ** Properties *)

(** The Eifel response.  When the acknowledgment carries a timestamp from
    before the retransmission and no ECE, the timeout is undone: the
    threshold is what [eifel_on_rto_before_md] saved, the window is the
    flight plus at most three segments, SND.NXT goes back to where it was,
    and nothing stays pending.  Otherwise only the pending state is dropped. *)
Theorem eifel_undoes_spurious_timeout t tsecr ece rts :
  Eifel.retransmit_ts (eifel t) = Some rts →
  let t' := eifel_on_acceptable_ack t (Some tsecr) ece in
  Eifel.pipe_prev (eifel t') = None ∧ Eifel.retransmit_ts (eifel t') = None ∧
  if (sdiff tsecr rts <? 0) && negb ece then
    cwnd t' = sat_add U32 (flight_size_bytes t) (Z.min (Eifel.bytes_acked (eifel t)) 4380) ∧
    ssthresh t' = default (flight_size_bytes t) (Eifel.pipe_prev (eifel t)) ∧
    in_fast_recovery t' = false ∧
    (∀ m, Eifel.snd_max (eifel t) = Some m → 0 ≤ sdiff m (snd_una t) → snd_nxt t' = m)
  else t' = eifel_clear_pending t.
Proof.
  intros Hr. cbv zeta. unfold eifel_on_acceptable_ack. rewrite Hr.
  destruct (sdiff tsecr rts <? 0), ece; simpl; try (repeat split; reflexivity).
  set (b := 0 <=? _).
  split; [destruct b; reflexivity|]. split; [destruct b; reflexivity|].
  split; [destruct b; reflexivity|]. split; [destruct b; reflexivity|].
  split; [destruct b; reflexivity|].
  intros m Hm Hge. unfold b. rewrite Hm. simpl. rsimp.
  destruct (Z.leb_spec 0 (sdiff m (snd_una t))); [reflexivity|lia].
Qed.

Lemma eifel_undoes_spurious_timeout_witness :
  let t := sample_tcb <| snd_nxt := 4000 |> <| eifel := Eifel.mkEifel (Some 9000) (Some 50) (Some 5000) 1460 0 |> in
  ssthresh (eifel_on_acceptable_ack t (Some 49) false) = 9000.
Proof.
  intros t. destruct (eifel_undoes_spurious_timeout t 49 false 50 eq_refl) as (_ & _ & _ & H & _).
  exact H.
Defined.

(** F-RTO never starts.  The timeout handler calls [frto_on_rto] only
    when timestamps are off ([driver/timer.rs]), and then it returns at once
    because its guard is inverted; with the phase idle no acknowledgment
    starts it either. *)
Theorem frto_never_armed t rto_end is_dup :
  Ts.enabled (ts t) = false →
  frto_on_rto t rto_end = t ∧
  (Frto.phase (frto t) = Frto.Idle → frto_on_ack t is_dup = Ret t).
Proof.
  intros H. unfold frto_on_rto, frto_on_ack. rewrite H. simpl.
  split; [reflexivity|]. intros ->. reflexivity.
Qed.

Lemma frto_never_armed_witness :
  frto_on_rto sample_tcb 5 = sample_tcb ∧ frto_on_ack sample_tcb false = Ret sample_tcb.
Proof.
  destruct (frto_never_armed sample_tcb 5 false eq_refl) as [H1 H2].
  split; [exact H1|exact (H2 eq_refl)].
Defined.
