(* ===== verification/TcpPacing.v ===== *)
(** * Pacing

    [kernel/src/driver/net/proto/tcp/pacing.rs]. *)

From S2P Require Import Prelude Time ReceiveBuffer TcpTypes.

(** [u128] products below are exact: every factor fits. *)
Definition pacing_gap_for (t : TcpControlBlock) (send_len : Z)
  : option Duration * TcpControlBlock :=
  if negb (Pacing.enabled (pacing t)) || (send_len =? 0) then (None, t) else
  match srtt t with
  | None => (None, t <| pacing; Pacing.rate_bps := 0 |>)
  | Some srtt =>
      let srtt_ns := Z.max srtt 1 in
      let cw := Z.max (cwnd t) 1 in
      let gain := if cwnd t <? ssthresh t then 200 else 120 in
      let rate := (cw * 1000000000 * gain) / (srtt_ns * 100) in
      let rate := Z.max rate 1 mod U64 in
      let t := t <| pacing; Pacing.rate_bps := rate |> in
      let gap_ns := (send_len * 1000000000) / rate in
      let gap := Z.min (Z.max gap_ns 1000 mod U64) (rto t) in
      (Some gap, t <| pacing; Pacing.last_gap := gap |>)
  end.

Definition pacing_should_hold (t : TcpControlBlock) (now : Instant) : bool * TcpControlBlock :=
  if negb (Pacing.enabled (pacing t)) || bool_decide (Frto.phase (frto t) = Frto.Step2)
  then (false, t)
  else match Pacing.next_tx (pacing t) with
       | Some next =>
           if now <? next then
             (true, t <| pacing; Pacing.held_count := sat_add U32 (Pacing.held_count (pacing t)) 1 |>)
           else (false, t)
       | None => (false, t)
       end.

(** The pacing gap.  It never exceeds the retransmission timeout, is at
    least a microsecond unless the timeout is shorter, and above the floor it
    spaces [send_len] bytes at the computed rate, which is 200% or 120% of
    the window per smoothed round trip; the 64-bit truncations never bite. *)
Theorem pacing_gap_bounds t n gap t' :
  u32 (cwnd t) → u32 n → (∀ s, srtt t = Some s → 0 ≤ s) → 0 ≤ rto t →
  pacing_gap_for t n = (Some gap, t') →
  gap ≤ rto t ∧ (gap = rto t ∨ 1000 ≤ gap) ∧ 1 ≤ Pacing.rate_bps (pacing t') ∧
  (1000 < gap < rto t → gap * Pacing.rate_bps (pacing t') ≤ n * 1000000000) ∧
  ∃ s, srtt t = Some s ∧
       (1 < Pacing.rate_bps (pacing t') →
        Pacing.rate_bps (pacing t') * (Z.max s 1 * 100) ≤
        Z.max (cwnd t) 1 * 1000000000 * (if cwnd t <? ssthresh t then 200 else 120)).
Proof.
  intros Hc Hn Hs Hrto. unfold pacing_gap_for.
  destruct (negb _ || _); [discriminate|]. destruct (srtt t) as [s|]; [|discriminate].
  specialize (Hs s eq_refl). intros [= <- <-]. rsimp.
  set (gain := if cwnd t <? ssthresh t then 200 else 120).
  assert (Hg : 120 ≤ gain ≤ 200) by (unfold gain; destruct (_ <? _); lia). clearbody gain.
  set (num := Z.max (cwnd t) 1 * 1000000000 * gain). set (den := Z.max s 1 * 100).
  ints. assert (Hnum : 0 ≤ num ≤ 4294967296 * 1000000000 * 200) by (unfold num; nia).
  assert (Hden : 100 ≤ den) by (unfold den; lia). clearbody num.
  assert (Hq : 0 ≤ num / den ∧ num / den * den ≤ num).
  { split; [apply Z.div_pos; lia|]. rewrite Z.mul_comm. apply Z.mul_div_le. lia. }
  set (q := num / den) in *. clearbody q.
  rewrite (Z.mod_small (Z.max q 1) U64) by nia.
  set (rate := Z.max q 1). assert (Hr : 1 ≤ rate) by lia.
  assert (Hgap : 0 ≤ n * 1000000000 / rate ≤ n * 1000000000 ∧
                 n * 1000000000 / rate * rate ≤ n * 1000000000).
  { split; [split; [apply Z.div_pos; lia|apply Z.div_le_upper_bound; nia]|].
    rewrite Z.mul_comm. apply Z.mul_div_le. lia. }
  set (g := n * 1000000000 / rate) in *. clearbody g.
  rewrite (Z.mod_small (Z.max g 1000) U64) by lia.
  split; [lia|]. split; [lia|]. split; [assumption|]. split.
  - intros Hb. replace (Z.min (Z.max g 1000) (rto t)) with g by lia. lia.
  - exists s. split; [reflexivity|]. intros H1. fold den. replace rate with q by lia. apply Hq.
Qed.

Lemma pacing_gap_bounds_witness :
  match pacing_gap_for (sample_tcb <| srtt := Some (ms 10) |>) 1460 with
  | (Some gap, t') => gap ≤ secs 1 ∧ gap * Pacing.rate_bps (pacing t') ≤ 1460 * 1000000000
  | (None, _) => False
  end.
Proof.
  destruct (pacing_gap_for (sample_tcb <| srtt := Some (ms 10) |>) 1460) as [[gap|] t'] eqn:E;
    [|vm_compute in E; discriminate].
  destruct (pacing_gap_bounds (sample_tcb <| srtt := Some (ms 10) |>) 1460 gap t')
    as (H1 & _ & _ & H2 & _);
    [vm_compute; split; congruence|unfold u32; lia|intros s [= <-]; vm_compute; congruence
    |vm_compute; congruence|exact E|].
  split; [exact H1|]. apply H2. vm_compute in E. injection E as <- _. vm_compute. auto.
Defined.
