(* ===== verification/TcpEcn.v ===== *)
(** * Explicit congestion notification, send side

    [kernel/src/driver/net/proto/tcp/ecn.rs]. *)

From S2P Require Import Prelude Time ReceiveBuffer TcpTypes.

Definition IP_ECN_ECT0 : Z := 2.
Definition IP_ECN_CE : Z := 3.

(** The IP codepoint, the marked header and the new state. *)
Definition apply_outgoing_ecn (t : TcpControlBlock) (header : Hdr.TcpDatagramHeader)
    (data : list Z) : Z * Hdr.TcpDatagramHeader * TcpControlBlock :=
  if negb (Ecn.enabled (ecn t)) then (0, header, t) else
  let '(header, t) :=
    if Ecn.echo_pending (ecn t) && Hdr.is_ack header then
      (Hdr.set_flag ECE true header, t <| ecn; Ecn.ece_tx := sat_add U32 (Ecn.ece_tx (ecn t)) 1 |>)
    else (header, t) in
  let '(header, t) :=
    if Ecn.cwr_pending (ecn t) && negb (zlen data =? 0) then
      (Hdr.set_flag CWR true header,
       t <| ecn; Ecn.cwr_tx := sat_add U32 (Ecn.cwr_tx (ecn t)) 1 |>
         <| ecn; Ecn.cwr_pending := false |>)
    else (header, t) in
  (IP_ECN_ECT0, header, t).

(** Only the ECN state and the flags change. *)
Lemma apply_outgoing_ecn_frame t h data tos h' t' :
  apply_outgoing_ecn t h data = (tos, h', t') →
  t' = t <| ecn := ecn t' |> ∧ h' = h <| Hdr.flags := Hdr.flags h' |> ∧
  (tos = 0 ∨ tos = IP_ECN_ECT0) ∧ (u8 (Hdr.flags h) → u8 (Hdr.flags h')).
Proof.
  unfold apply_outgoing_ecn. destruct (negb (Ecn.enabled (ecn t))).
  { intros [= <- <- <-]. split; [destruct t; reflexivity|].
    split; [destruct h; reflexivity|auto]. }
  assert (Hor : ∀ f m, u8 f → u8 m → u8 (Z.lor f m)).
  { intros f m Hf Hm. unfold u8 in *. split; [apply Z.lor_nonneg; lia|].
    destruct (Z.eq_dec (Z.lor f m) 0) as [->|Hne]; [lia|].
    apply (Z.log2_lt_pow2 _ 8); [pose proof (proj2 (Z.lor_nonneg f m)); lia|].
    rewrite Z.log2_lor by lia. apply Z.max_lub_lt.
    - destruct (Z.eq_dec f 0) as [->|]; [simpl; lia|]. apply Z.log2_lt_pow2; lia.
    - destruct (Z.eq_dec m 0) as [->|]; [simpl; lia|]. apply Z.log2_lt_pow2; lia. }
  destruct (Ecn.echo_pending (ecn t) && Hdr.is_ack h); rsimp; destruct (_ && _); intros [= <- <- <-];
    (split; [destruct t; reflexivity|]); (split; [destruct h; reflexivity|]); (split; [auto|]);
    unfold Hdr.set_flag; rsimp; intros Hu; auto; repeat apply Hor; auto;
    unfold ECE, CWR, u8; lia.
Qed.

(** The marks are the two ECN flags. *)
Lemma apply_outgoing_ecn_flags t h data tos h' t' :
  apply_outgoing_ecn t h data = (tos, h', t') →
  ∃ m, (m = 0 ∨ m = ECE ∨ m = CWR ∨ m = Z.lor ECE CWR) ∧ Hdr.flags h' = Z.lor (Hdr.flags h) m.
Proof.
  unfold apply_outgoing_ecn. destruct (negb (Ecn.enabled (ecn t))).
  { intros [= <- <- <-]. exists 0. split; [auto|]. by rewrite Z.lor_0_r. }
  destruct (Ecn.echo_pending (ecn t) && Hdr.is_ack h); rsimp; destruct (_ && _); intros [= <- <- <-];
    unfold Hdr.set_flag; rsimp.
  - exists (Z.lor ECE CWR). split; [auto|]. by rewrite Z.lor_assoc.
  - exists ECE. auto.
  - exists CWR. auto.
  - exists 0. split; [auto|]. by rewrite Z.lor_0_r.
Qed.
