(* ===== verification/TcpWindow.v ===== *)
(** * Sequence windows

    What the window predicates of [types.rs] decide, against RFC 9293: the
    code compares wrapped numbers, the specification compares positions. *)

From S2P Require Import Prelude Time ReceiveBuffer TcpTypes.

(** ** The receive window *)


(** The acceptability test of RFC 9293, section 3.10.7.4, on distances. *)
Definition rfc_acceptable (nxt wnd seq len : Z) : bool :=
  if len =? 0 then
    if wnd =? 0 then seq =? nxt else wsub seq nxt <? wnd
  else
    if wnd =? 0 then false
    else (wsub seq nxt <? wnd) || (wsub (wadd seq (len - 1)) nxt <? wnd).

Lemma in_window t seq :
  u32 (rcv_nxt t) → u16 (rcv_wnd t) → u32 seq →
  is_in_receive_window t seq = (wsub seq (rcv_nxt t) <? rcv_wnd t).
Proof.
  intros. unfold is_in_receive_window, wadd, wsub. ints.
  destruct (Z.leb_spec (rcv_nxt t) ((rcv_nxt t + rcv_wnd t) mod U32)),
    (Z.leb_spec (rcv_nxt t) seq), (Z.ltb_spec seq ((rcv_nxt t + rcv_wnd t) mod U32)),
    (Z.ltb_spec ((seq - rcv_nxt t) mod U32) (rcv_wnd t)); simpl; try reflexivity; mlia.
Qed.

(** C37: Segment acceptability.  The code accepts a segment exactly when
    RFC 9293's four-case table does, on both sides of the sequence wrap. *)
Theorem segment_acceptance_is_rfc9293 t seq len :
  u32 (rcv_nxt t) → u16 (rcv_wnd t) → u32 seq → 0 ≤ len →
  is_segment_acceptable t seq len = rfc_acceptable (rcv_nxt t) (rcv_wnd t) seq len.
Proof.
  intros Hn Hw Hs Hl. unfold is_segment_acceptable, rfc_acceptable.
  destruct (len =? 0); [destruct (rcv_wnd t =? 0); [reflexivity|by apply in_window]|].
  rewrite !in_window by (assumption || apply wadd_u32).
  destruct (Z.eqb_spec (rcv_wnd t) 0) as [->|]; [|reflexivity].
  pose proof (wsub_u32 seq (rcv_nxt t)). pose proof (wsub_u32 (wadd seq (len - 1)) (rcv_nxt t)).
  ints. destruct (Z.ltb_spec (wsub seq (rcv_nxt t)) 0),
    (Z.ltb_spec (wsub (wadd seq (len - 1)) (rcv_nxt t)) 0); reflexivity || lia.
Qed.

Lemma segment_acceptance_is_rfc9293_witness :
  is_segment_acceptable (sample_tcb <| rcv_nxt := 4294967290 |> <| rcv_wnd := 100 |>) 4294967280 20
  = true.
Proof.
  rewrite (segment_acceptance_is_rfc9293
             (sample_tcb <| rcv_nxt := 4294967290 |> <| rcv_wnd := 100 |>) 4294967280 20);
    [reflexivity|rsimp; unfold u32; lia|rsimp; unfold u16; lia|unfold u32; lia|lia].
Defined.

(** ** Acknowledgments *)

(** An acknowledgment is acceptable exactly when it names a position from
    SND.UNA up to and including SND.NXT.  Positions are unwrapped: [U] and
    [X] are those of SND.UNA and SND.NXT, [A] that of the acknowledgment.
    SND.UNA itself is accepted (the comment of the source excludes it). *)
Theorem acceptable_ack_range t base U X A :
  snd_una t = wadd base U → snd_nxt t = wadd base X → U ≤ X < U + U32 → U ≤ A < U + U32 →
  is_acceptable_ack t (wadd base A) = true ↔ A ≤ X.
Proof.
  intros HU HX Hx Ha. unfold is_acceptable_ack. rewrite HU, HX.
  assert (Hd : ∀ B, U ≤ B < U + U32 → wsub (wadd base B) (wadd base U) = B - U).
  { intros B HB. unfold wsub, wadd. rewrite <- Zminus_mod.
    replace (base + B - (base + U)) with (B - U) by lia. apply Z.mod_small. lia. }
  rewrite !Hd, Z.leb_le by lia. lia.
Qed.

Lemma acceptable_ack_range_witness :
  is_acceptable_ack (sample_tcb <| snd_una := 4294967290 |> <| snd_nxt := 4 |>) 2 = true.
Proof.
  apply (acceptable_ack_range (sample_tcb <| snd_una := 4294967290 |> <| snd_nxt := 4 |>)
           4294967290 0 10 8); [reflexivity|reflexivity|lia|lia|lia].
Defined.

(** ** Advertised windows *)

(** The window on the wire never promises more than the buffer can take:
    what the peer reads back, the field shifted by our scale factor, is at
    most RCV.WND, which after an update is at most the free space and the
    configured maximum. *)
Theorem advertised_window_fits t t' w free :
  RxRing.free_space (receive_buffer t) = Ret free → 0 ≤ free < U32 → 0 ≤ max_rcv_wnd t →
  0 ≤ rcv_wscale t →
  update_rcv_wnd_from_buffer t = Ret t' → advertised_rcv_wnd_u16 t' = Ret w →
  0 ≤ w < U16 ∧ rcv_wnd t' ≤ free ∧ rcv_wnd t' ≤ max_rcv_wnd t ∧
  (if wnd_scale_enabled t && (0 <? rcv_wscale t) then w * 2 ^ rcv_wscale t ≤ rcv_wnd t'
   else w = rcv_wnd t').
Proof.
  intros Hf Hr Hm Hs. unfold update_rcv_wnd_from_buffer, effective_rcv_wnd.
  rewrite Hf, !ret_bind. intros [= <-]. unfold advertised_rcv_wnd_u16. rsimp.
  assert (Hmod : Z.min free (max_rcv_wnd t) mod U32 = Z.min free (max_rcv_wnd t))
    by (apply Z.mod_small; lia).
  rewrite Hmod. set (v := Z.min (Z.min free (max_rcv_wnd t)) 65535).
  assert (Hv : 0 ≤ v ≤ 65535) by lia.
  destruct (wnd_scale_enabled t && (0 <? rcv_wscale t)) eqn:Ec.
  - unfold rassert. destruct (rcv_wscale t <? 32); simpl; [|discriminate]. intros [= <-].
    rewrite Z.shiftr_div_pow2 by lia.
    assert (Hp : 0 < 2 ^ rcv_wscale t) by (apply Z.pow_pos_nonneg; lia).
    assert (0 ≤ v / 2 ^ rcv_wscale t) by (apply Z.div_pos; lia).
    assert (v / 2 ^ rcv_wscale t * 2 ^ rcv_wscale t ≤ v)
      by (rewrite Z.mul_comm; apply Z.mul_div_le; lia).
    split; [lia|]. split; [lia|]. split; [lia|]. nia.
  - intros [= <-]. lia.
Qed.

Lemma advertised_window_fits_witness :
  let t := sample_tcb <| max_rcv_wnd := 4096 |> <| rcv_wscale := 7 |> <| wnd_scale_enabled := true |> in
  match update_rcv_wnd_from_buffer t with
  | Ret t' => match advertised_rcv_wnd_u16 t' with
              | Ret w => w * 2 ^ 7 ≤ rcv_wnd t'
              | Crash _ => False
              end
  | Crash _ => False
  end.
Proof.
  intros t. destruct (update_rcv_wnd_from_buffer t) as [t'|] eqn:E1; [|vm_compute in E1; discriminate].
  destruct (advertised_rcv_wnd_u16 t') as [w|] eqn:E2;
    [|vm_compute in E1; injection E1 as <-; vm_compute in E2; discriminate].
  destruct (advertised_window_fits t t' w 4096) as (_ & _ & _ & H);
    [vm_compute; reflexivity|lia|vm_compute; congruence|vm_compute; congruence|exact E1|exact E2|].
  exact H.
Defined.

(** ** Send window updates *)

(** Only a segment that is not older than the last one used may change
    the send window: a reordered segment, by sequence number and then by
    acknowledgment, leaves it alone, and one that is accepted records its
    numbers and the peer's scaled window. *)
Theorem stale_window_update_ignored t seq ack wire t' :
  maybe_update_send_window t seq ack wire = Ret t' →
  if (0 <? sdiff seq (snd_wl1 t)) || ((snd_wl1 t =? seq) && (0 <=? sdiff ack (snd_wl2 t)))
  then snd_wl1 t' = seq ∧ snd_wl2 t' = ack ∧ scale_peer_window t wire = Ret (snd_wnd t')
  else t' = t.
Proof.
  unfold maybe_update_send_window. destruct (_ || _).
  - destruct (scale_peer_window t wire) as [w|] eqn:E; simpl; [|discriminate].
    intros [= <-]. auto.
  - by intros [= <-].
Qed.

Lemma stale_window_update_ignored_witness :
  match maybe_update_send_window (sample_tcb <| snd_wl1 := 100 |>) 99 0 500 with
  | Ret t' => snd_wnd t' = snd_wnd sample_tcb
  | Crash _ => False
  end.
Proof.
  destruct (maybe_update_send_window (sample_tcb <| snd_wl1 := 100 |>) 99 0 500) as [t'|] eqn:E;
    [|vm_compute in E; discriminate].
  pose proof (stale_window_update_ignored _ 99 0 500 t' E) as H. vm_compute in H. subst t'. reflexivity.
Defined.
