(* ===== verification/NetWorld.v ===== *)
(** * Packet buffers and the kernel around the TCP driver

    [PacketBuffer] and [PacketAllocator] of
    [kernel/src/driver/net/proto/mod.rs], and the state the TCP driver
    threads through its calls: shared control blocks behind spin locks, the
    connection table, the clock, the hardware random generator and the
    packets handed to IPv4.  [M] is the state and error monad of the driver. *)

From S2P Require Import Prelude Time ReceiveBuffer TcpTypes.

(** ** Packet buffers *)

Module Pkt.
Definition SLOT_COUNT : Z := 64.
Definition SLOT_SIZE : Z := 1522.
Definition DEFAULT_HEADER_RESERVE : Z := 96.

Record PacketBuffer := mkPkt {
  storage : list Z;
  buffer_start : Z;
  payload_start : Z;
  payload_end : Z;
  buffer_end : Z
}.

#[global] Instance eta_PacketBuffer : Eta PacketBuffer := λ r,
  mkPkt (storage r) (buffer_start r) (payload_start r) (payload_end r) (buffer_end r).

Definition from_received_slot (storage : list Z) (header_reserve received_length : Z)
  : PacketBuffer :=
  mkPkt storage header_reserve header_reserve (header_reserve + received_length) (zlen storage).

Definition for_transmit (storage : list Z) (header_reserve : Z) : res PacketBuffer :=
  rassert (header_reserve <=? zlen storage);;
  Ret (mkPkt storage 0 header_reserve header_reserve (zlen storage)).

Definition payload (p : PacketBuffer) : res (list Z) :=
  slice (storage p) (payload_start p) (payload_end p).

Definition append_data (data : list Z) (p : PacketBuffer) : res PacketBuffer :=
  let new_end := payload_end p + zlen data in
  rassert (new_end <=? buffer_end p);;
  s ← store_slice (storage p) (payload_end p) data;
  Ret (p <| storage := s |> <| payload_end := new_end |>).

(** [prepend_bytes]; [prepend_header] is the same on the header's bytes. *)
Definition prepend_bytes (bs : list Z) (p : PacketBuffer) : res PacketBuffer :=
  rassert (buffer_start p + zlen bs <=? payload_start p);;
  let start := payload_start p - zlen bs in
  s ← store_slice (storage p) start bs;
  Ret (p <| storage := s |> <| payload_start := start |>).

Definition consume_bytes (count : Z) (p : PacketBuffer) : res PacketBuffer :=
  rassert (payload_start p + count <=? payload_end p);;
  Ret (p <| payload_start := payload_start p + count |>).

Definition frame (p : PacketBuffer) : res (list Z) := payload p.

Definition trim_payload (len : Z) (p : PacketBuffer) : PacketBuffer :=
  let e := payload_start p + len in
  if e <? payload_end p then p <| payload_end := e |> else p.

Record wf (p : PacketBuffer) : Prop := {
  wf_start : 0 ≤ buffer_start p ≤ payload_start p;
  wf_mid : payload_start p ≤ payload_end p ≤ buffer_end p;
  wf_end : buffer_end p = zlen (storage p)
}.

Definition contents (p : PacketBuffer) : list Z :=
  ztake (payload_end p - payload_start p) (zdrop (payload_start p) (storage p)).

Lemma zlen_contents p : wf p → zlen (contents p) = payload_end p - payload_start p.
Proof.
  intros [? ? ?]. unfold contents. rewrite zlen_ztake; [reflexivity|]. rewrite zlen_zdrop; lia.
Qed.

Lemma payload_ret p : wf p → payload p = Ret (contents p).
Proof. intros []. unfold payload. apply slice_ret; lia. Qed.

Lemma byte_at_contents p k : wf p → 0 ≤ k < payload_end p - payload_start p →
  byte_at (contents p) k = byte_at (storage p) (payload_start p + k).
Proof. intros [] ?. unfold contents. rewrite byte_at_ztake, byte_at_zdrop by lia. reflexivity. Qed.

Lemma for_transmit_spec s reserve :
  0 ≤ reserve ≤ zlen s →
  returns (for_transmit s reserve) (λ p, wf p ∧ contents p = [] ∧ buffer_start p = 0 ∧
    payload_start p = reserve ∧ payload_end p = reserve ∧ buffer_end p = zlen s).
Proof.
  intros. unfold for_transmit, rassert. destruct (Z.leb_spec reserve (zlen s)); [|lia].
  rewrite ret_bind. apply returns_ret. split; [constructor; simpl; lia|].
  split; [|auto]. unfold contents. simpl. rewrite Z.sub_diag. apply ztake_0.
Qed.

Lemma append_data_spec data p :
  wf p → payload_end p + zlen data ≤ buffer_end p →
  returns (append_data data p) (λ p', wf p' ∧ contents p' = contents p ++ data ∧
    buffer_start p' = buffer_start p ∧ payload_start p' = payload_start p ∧
    payload_end p' = payload_end p + zlen data ∧ buffer_end p' = buffer_end p).
Proof.
  intros Hw Hfit. pose proof Hw as []. pose proof (zlen_nonneg data). unfold append_data, rassert.
  cbv zeta. destruct (Z.leb_spec (payload_end p + zlen data) (buffer_end p)); [|lia].
  rewrite ret_bind. run. apply returns_ret. rsimp.
  assert (Hz : zlen (splice (storage p) (payload_end p) data) = zlen (storage p))
    by (apply zlen_splice; lia).
  assert (Hw' : wf (p <| storage := splice (storage p) (payload_end p) data |>
                      <| payload_end := payload_end p + zlen data |>))
    by (constructor; rsimp; lia).
  split; [assumption|]. split; [|auto].
  apply byte_list_eq; rewrite ?zlen_app, !zlen_contents by assumption; rsimp; [lia|].
  intros k Hk. rewrite byte_at_contents by (assumption || (rsimp; lia)). rsimp.
  rewrite byte_at_splice, byte_at_app, zlen_contents by (assumption || lia).
  destruct (Z.ltb_spec k (payload_end p - payload_start p)).
  - destruct (Z.leb_spec (payload_end p) (payload_start p + k)); [lia|].
    rewrite byte_at_contents by (assumption || lia). reflexivity.
  - destruct (Z.leb_spec (payload_end p) (payload_start p + k)); [|lia].
    destruct (Z.ltb_spec (payload_start p + k) (payload_end p + zlen data)); [|lia].
    simpl. f_equal. lia.
Qed.

Lemma prepend_bytes_spec bs p :
  wf p → buffer_start p + zlen bs ≤ payload_start p →
  returns (prepend_bytes bs p) (λ p', wf p' ∧ contents p' = bs ++ contents p ∧
    buffer_start p' = buffer_start p ∧ payload_start p' = payload_start p - zlen bs ∧
    payload_end p' = payload_end p ∧ buffer_end p' = buffer_end p).
Proof.
  intros Hw Hfit. pose proof Hw as []. pose proof (zlen_nonneg bs). unfold prepend_bytes, rassert.
  cbv zeta. destruct (Z.leb_spec (buffer_start p + zlen bs) (payload_start p)); [|lia].
  rewrite ret_bind. run. apply returns_ret. rsimp.
  set (st := payload_start p - zlen bs).
  assert (Hz : zlen (splice (storage p) st bs) = zlen (storage p)) by (apply zlen_splice; lia).
  assert (Hw' : wf (p <| storage := splice (storage p) st bs |> <| payload_start := st |>))
    by (constructor; rsimp; lia).
  split; [assumption|]. split; [|auto].
  apply byte_list_eq; rewrite ?zlen_app, !zlen_contents by assumption; rsimp; [lia|].
  intros k Hk. rewrite byte_at_contents by (assumption || (rsimp; lia)). rsimp.
  rewrite byte_at_splice, byte_at_app by lia.
  destruct (Z.ltb_spec k (zlen bs)).
  - destruct (Z.leb_spec st (st + k)); [|lia].
    destruct (Z.ltb_spec (st + k) (st + zlen bs)); [|lia]. simpl. f_equal. lia.
  - destruct (Z.leb_spec st (st + k)); [|lia].
    destruct (Z.ltb_spec (st + k) (st + zlen bs)); [lia|]. simpl.
    rewrite byte_at_contents by (assumption || lia). f_equal. lia.
Qed.
End Pkt.

(** ** The packet slot allocator *)

Module Slots.
Record PacketAllocator := mkAlloc { available : Z }.

#[global] Instance eta_PacketAllocator : Eta PacketAllocator := λ r, mkAlloc (available r).

Definition new : PacketAllocator := mkAlloc (U64 - 1).

Fixpoint ctz (p : positive) : Z := match p with xO q => 1 + ctz q | _ => 0 end.

(** [u64::trailing_zeros] of a non-zero word. *)
Definition trailing_zeros (x : Z) : Z := match x with Zpos p => ctz p | _ => 64 end.

Definition try_acquire_slot (a : PacketAllocator) : option Z * PacketAllocator :=
  if available a =? 0 then (None, a) else
  let index := trailing_zeros (available a) in
  (Some index, a <| available := Z.ldiff (available a) (Z.shiftl 1 index) |>).

Definition release_slot (index : Z) (a : PacketAllocator) : res PacketAllocator :=
  rassert (index <? Pkt.SLOT_COUNT);;
  Ret (a <| available := Z.lor (available a) (Z.shiftl 1 index) |>).

Lemma ctz_spec p : 0 ≤ ctz p ∧ Z.testbit (Z.pos p) (ctz p) = true ∧
  ∀ j, 0 ≤ j < ctz p → Z.testbit (Z.pos p) j = false.
Proof.
  induction p as [p _|p (IH0 & IH1 & IH2)|]; cbn [ctz].
  - split; [lia|]. split; [reflexivity|lia].
  - split; [lia|]. change (Z.pos p~0) with (2 * Z.pos p). split.
    + rewrite Z.add_comm, Z.add_1_r, Z.testbit_even_succ by lia. assumption.
    + intros j Hj. destruct (Z.eq_dec j 0) as [->|]; [apply Z.testbit_even_0|].
      replace j with (Z.succ (j - 1)) by lia. rewrite Z.testbit_even_succ by lia. apply IH2. lia.
  - split; [lia|]. split; [reflexivity|lia].
Qed.

Lemma testbit_high x i : 0 ≤ x < U64 → Z.testbit x i = true → 0 ≤ i < 64.
Proof.
  intros Hx Hb. destruct (Z.ltb_spec i 0); [rewrite Z.testbit_neg_r in Hb by lia; discriminate|].
  split; [lia|]. destruct (Z.ltb_spec i 64); [lia|]. exfalso.
  destruct (Z.eq_dec x 0) as [->|]; [rewrite Z.bits_0 in Hb; discriminate|].
  rewrite Z.bits_above_log2 in Hb; [discriminate|lia|].
  apply Z.log2_lt_pow2; [lia|]. apply Z.lt_le_trans with (2 ^ 64); [lia|].
  apply Z.pow_le_mono_r; lia.
Qed.

(** The slot allocator.  An acquisition fails only when no slot is free;
    otherwise it hands out the lowest free slot, below 64, and marks that
    slot alone as taken; releasing it gives back the allocator as it was. *)
Theorem slots_are_exclusive a :
  0 ≤ available a < U64 →
  match try_acquire_slot a with
  | (None, a') => available a = 0 ∧ a' = a
  | (Some i, a') =>
      0 ≤ i < Pkt.SLOT_COUNT ∧ Z.testbit (available a) i = true ∧
      (∀ j, 0 ≤ j < i → Z.testbit (available a) j = false) ∧
      (∀ j, Z.testbit (available a') j = Z.testbit (available a) j && negb (j =? i)) ∧
      release_slot i a' = Ret a
  end.
Proof.
  intros Ha. unfold try_acquire_slot. destruct (Z.eqb_spec (available a) 0) as [|H0]; [auto|].
  unfold trailing_zeros. destruct (available a) as [|p|p] eqn:Ea; [done| |lia].
  destruct (ctz_spec p) as (Hc & Hb & Hl). pose proof (testbit_high _ _ Ha Hb) as Hi.
  assert (Hone : ∀ j, Z.testbit (Z.shiftl 1 (ctz p)) j = (j =? ctz p)).
  { intros j. rewrite Z.shiftl_1_l. destruct (Z.eqb_spec j (ctz p)) as [->|].
    - apply Z.pow2_bits_true. lia.
    - apply Z.pow2_bits_false. lia. }
  split; [assumption|]. split; [assumption|]. split; [assumption|]. rsimp. split.
  - intros j. rewrite Z.ldiff_spec, Hone. reflexivity.
  - unfold release_slot, rassert, Pkt.SLOT_COUNT. destruct (Z.ltb_spec (ctz p) 64); [|lia].
    rewrite ret_bind. rsimp. f_equal. destruct a as [av]. simpl in Ea. subst av.
    unfold update. f_equal. apply Z.bits_inj'. intros j Hj.
    rewrite Z.lor_spec, Z.ldiff_spec, Hone. destruct (Z.eqb_spec j (ctz p)) as [->|].
    + rewrite Hb. reflexivity.
    + rewrite andb_true_r, orb_false_r. reflexivity.
Qed.

Lemma slots_are_exclusive_witness :
  match try_acquire_slot (mkAlloc 40) with
  | (None, _) => False
  | (Some i, a') => Z.testbit (available (mkAlloc 40)) i = true ∧ release_slot i a' = Ret (mkAlloc 40)
  end.
Proof.
  destruct (slots_are_exclusive (mkAlloc 40)) as (_ & H1 & _ & _ & H2); [simpl; lia|].
  split; [exact H1|exact H2].
Defined.
End Slots.

(** ** The driver's world *)

(** A segment handed to [Ipv4::send_packet]. *)
Record packet := mkPacket {
  pk_dst : Ipv4Addr;
  pk_nic : Z;
  pk_tos : Z;
  pk_bytes : list Z
}.

(** An [Arc<IrqGuardedRwLock<TcpControlBlock>>] is a location. *)
Definition loc : Type := positive.

Record cell := mkCell { locked : bool; content : TcpControlBlock }.

(** The data of [proto/tcp_socket.rs].  Port and handle maps are ordered
    maps in the source; nothing depends on their order. *)
Module Skt.
Inductive TcpSocketRole :=
| Unbound
| Bound (local_ip : Ipv4Addr) (local_port nic : Z)
| Listener (local_ip : Ipv4Addr) (local_port nic backlog : Z) (pending : list loc) (gate : OneshotGate)
| Connected (tcb : loc)
| SClosed.

Record TcpSocketState := mkState {
  role : TcpSocketRole;
  opts : Settings.TcpSessionSettings
}.

#[global] Instance eta_TcpSocketState : Eta TcpSocketState := λ r, mkState (role r) (opts r).

Record TcpSocketTable := mkTable {
  sockets : gmap Z TcpSocketState;
  listeners : gmap Z Z;
  bound_ports : gmap Z Z;
  next_handle : Z
}.

#[global] Instance eta_TcpSocketTable : Eta TcpSocketTable := λ r,
  mkTable (sockets r) (listeners r) (bound_ports r) (next_handle r).

Definition table_new : TcpSocketTable := mkTable ∅ ∅ ∅ 1.
End Skt.

(** [clk n] is the n-th reading of the monotonic clock, [rng n] the n-th
    outcome of RDRAND, [link n] the outcome of the n-th [send_packet];
    [ifaces] maps an interface to its address, if it has one. *)
Record world := mkWorld {
  heap : gmap positive cell;
  next_loc : positive;
  connections : gmap Tuple.ConnectionTuple positive;
  socket_table : Skt.TcpSocketTable;
  ifaces : gmap Z (option Ipv4Addr);
  clk : nat → Z;
  clk_idx : nat;
  rng : nat → option Z;
  rng_idx : nat;
  link : nat → bool;
  wire : list packet
}.

#[global] Instance eta_world : Eta world := λ r,
  mkWorld (heap r) (next_loc r) (connections r) (socket_table r) (ifaces r) (clk r) (clk_idx r)
    (rng r) (rng_idx r) (link r) (wire r).

Definition M (A : Type) : Type := world → res (A * world).

#[global] Instance M_ret : MRet M := λ A a w, Ret (a, w).
#[global] Instance M_bind : MBind M := λ A B f m w,
  match m w with Ret (a, w) => f a w | Crash e => Crash e end.

Definition lift {A} (r : res A) : M A := λ w,
  match r with Ret a => Ret (a, w) | Crash e => Crash e end.

Definition get_world : M world := λ w, Ret (w, w).

Definition modify (f : world → world) : M unit := λ w, Ret (tt, f w).

(** [n] readings of the clock. *)
Definition readings (n : nat) : M (nat → Z) := λ w,
  Ret (λ i, clk w (clk_idx w + i)%nat, w <| clk_idx := (clk_idx w + n)%nat |>).

Definition instant_now : M Instant := λ w,
  Ret (clk w (clk_idx w), w <| clk_idx := S (clk_idx w) |>).

Definition rdrand : M (option Z) := λ w,
  Ret (rng w (rng_idx w), w <| rng_idx := S (rng_idx w) |>).

(** [Arc::new(IrqGuardedRwLock::new(tcb))]. *)
Definition alloc (t : TcpControlBlock) : M loc := λ w,
  Ret (next_loc w, w <| heap := <[next_loc w := mkCell false t]> (heap w) |>
                     <| next_loc := Pos.succ (next_loc w) |>).

(** [arc.write()]: the lock is not reentrant. *)
Definition acquire (l : loc) : M TcpControlBlock := λ w,
  match heap w !! l with
  | Some (mkCell false t) => Ret (t, w <| heap := <[l := mkCell true t]> (heap w) |>)
  | Some (mkCell true _) => Crash Deadlock
  | None => Crash OutOfBounds
  end.

(** The guard is dropped; [t] is what it leaves. *)
Definition release (l : loc) (t : TcpControlBlock) : M unit := λ w,
  Ret (tt, w <| heap := <[l := mkCell false t]> (heap w) |>).

(** A block that holds the write guard. *)
Definition critical {A} (l : loc) (f : TcpControlBlock → M (A * TcpControlBlock)) : M A :=
  t ← acquire l;
  '(a, t) ← f t;
  release l t;;
  mret a.

(** [arc.read()], dropped at the end of the expression. *)
Definition read_tcb (l : loc) : M TcpControlBlock := λ w,
  match heap w !! l with
  | Some (mkCell false t) => Ret (t, w)
  | Some (mkCell true _) => Crash Deadlock
  | None => Crash OutOfBounds
  end.

(** Hands a segment to IPv4; the flag is [send_packet]'s success. *)
Definition ipv4_send (p : packet) : M bool := λ w,
  Ret (link w (length (wire w)), w <| wire := wire w ++ [p] |>).

(** A [loop] whose body says whether to go on. *)
Definition loop_m (body : M bool) (bound : positive) : M unit := λ w,
  while_loop (λ w, '(again, w) ← body w; Ret (if again : bool then inl w else inr (tt, w))) bound w.

(** A [for] over a collection. *)
Fixpoint each_m {A} (f : A → M unit) (l : list A) : M unit :=
  match l with
  | [] => mret tt
  | x :: l => f x;; each_m f l
  end.

(** ** Running the monad *)

Lemma bind_run {A B} (m : M A) (f : A → M B) w a w' : m w = Ret (a, w') → (m ≫= f) w = f a w'.
Proof. intros E. unfold mbind, M_bind. rewrite E. reflexivity. Qed.

Lemma lift_run {A} (r : res A) w a : r = Ret a → lift r w = Ret (a, w).
Proof. intros ->. reflexivity. Qed.

Lemma critical_run {A} l (f : TcpControlBlock → M (A * TcpControlBlock)) w t a t' w' :
  heap w !! l = Some (mkCell false t) →
  f t (w <| heap := <[l := mkCell true t]> (heap w) |>) = Ret ((a, t'), w') →
  critical l f w = Ret (a, w' <| heap := <[l := mkCell false t']> (heap w') |>).
Proof.
  intros Hl Hf. unfold critical, acquire, release, mbind, M_bind. rewrite Hl, Hf. reflexivity.
Qed.

(** A critical section that reads the clock [n] times and computes. *)
Lemma critical_timed {A} l n (g : clock → TcpControlBlock → res (A * TcpControlBlock)) w t a t' :
  heap w !! l = Some (mkCell false t) →
  g (λ i, clk w (clk_idx w + i)%nat) t = Ret (a, t') →
  critical l (λ t, now ← readings n; lift (g now t)) w =
  Ret (a, w <| clk_idx := (clk_idx w + n)%nat |> <| heap := <[l := mkCell false t']> (heap w) |>).
Proof.
  intros Hl Hg. erewrite critical_run; [|eassumption|].
  2: { unfold readings, mbind, M_bind, lift. cbv beta iota. rsimp. rewrite Hg. reflexivity. }
  f_equal. f_equal. destruct w. rsimp. rewrite insert_insert_eq. reflexivity.
Qed.
