(* ===== verification/TcpOutOptions.v ===== *)
(** * Options of outgoing segments

    [established_outgoing_options] of [driver/send.rs] and the options of SYN
    and SYN-ACK ([driver/connect.rs], [driver/recv.rs]): they always fit, and
    the parser of the other side reads them back. *)

From S2P Require Import Prelude Time ReceiveBuffer TcpTypes TcpOptions TcpSack TcpTimestamp.

(** ** Established segments *)

(** One round of the loop that copies the ranges other than the most recent
    one into [ordered]. *)
Definition order_step (recent : option Sack.SackBlock) (acc : res (list Sack.SackBlock * Z))
    (b : Sack.SackBlock) : res (list Sack.SackBlock * Z) :=
  '(ordered, n) ← acc;
  if decide (Some b = recent) then Ret (ordered, n)
  else o ← store ordered n b; Ret (o, n + 1).

Definition order_blocks (s : Sack.SackRackState) : res (list Sack.SackBlock) :=
  let ordered := replicate 8 Sack.block_default in
  let start := match Sack.rx_recent s with
               | Some recent => o ← store ordered 0 recent; Ret (o, 1)
               | None => Ret (ordered, 0)
               end in
  live ← slice (Sack.rx_ranges s) 0 (Sack.rx_range_len s);
  '(ordered, n) ← foldl (order_step (Sack.rx_recent s)) start live;
  slice ordered 0 n.

(** The timestamp; [now] is the reading of [tcp_ts_now]. *)
Definition est_push_timestamp (now : Instant) (t : TcpControlBlock)
  : res (TcpOptionsWriter * option Z * TcpControlBlock) :=
  if Ts.enabled (ts t) then
    let tsval := tcp_ts_now now (Ts.offset (ts t)) in
    let t := t <| ts; Ts.last_tx_tsval := tsval |> in
    w ← push_timestamp tsval (Ts.ts_recent (ts t)) writer_new;
    Ret (w, Some tsval, t)
  else Ret (writer_new, None, t).

(** The SACK blocks. *)
Definition est_push_sack (w : TcpOptionsWriter) (t : TcpControlBlock)
  : res (TcpOptionsWriter * TcpControlBlock) :=
  if Sack.enabled (sack t) && (0 <? Sack.rx_range_len (sack t)) then
    blocks ← order_blocks (sack t);
    let budget := sat_sub TCP_OPTS_MAX (w_len w) in
    let written_before := w_len w in
    w ← push_sack_limited blocks budget w;
    Ret (w, if negb (w_len w =? written_before)
            then t <| sack; Sack.blocks_tx := sat_add U32 (Sack.blocks_tx (sack t)) 1 |>
            else t)
  else Ret (w, t).

Definition established_outgoing_options (now : Instant) (t : TcpControlBlock)
  : res (list Z * option Z * TcpControlBlock) :=
  '(w, tsval_out, t) ← est_push_timestamp now t;
  '(w, t) ← est_push_sack w t;
  o ← writer_finish w;
  Ret (o, tsval_out, t).

(** ** SYN and SYN-ACK *)

(** [ts] is [Some (TSval, TSecr)] when the option is sent. *)
Definition syn_outgoing_options (settings : Settings.TcpSessionSettings) (ts : option (Z * Z))
  : res (list Z) :=
  w ← push_mss DEFAULT_MSS writer_new;
  w ← (if Settings.wnd_scale_enabled settings
       then push_window_scale (Settings.rcv_wscale settings) w else Ret w);
  w ← (if Settings.sack_enabled settings then push_sack_permitted w else Ret w);
  w ← (match ts with Some (v, e) => push_timestamp v e w | None => Ret w end);
  writer_finish w.

(** ** The blocks in reporting order *)

Definition sack_order (recent : option Sack.SackBlock) (live : list Sack.SackBlock)
  : list Sack.SackBlock :=
  match recent with
  | Some b => b :: filter (λ x, x ≠ b) live
  | None => live
  end.

Lemma order_fold recent live (done_ : list Sack.SackBlock) tl :
  zlen (done_ ++ tl) = 8 →
  zlen done_ + zlen (filter (λ x, Some x ≠ recent) live) ≤ 8 →
  ∃ tl', foldl (order_step recent) (Ret (done_ ++ tl, zlen done_)) live =
         Ret ((done_ ++ filter (λ x, Some x ≠ recent) live) ++ tl',
              zlen (done_ ++ filter (λ x, Some x ≠ recent) live)) ∧
         zlen ((done_ ++ filter (λ x, Some x ≠ recent) live) ++ tl') = 8.
Proof.
  revert done_ tl. induction live as [|b live IH]; intros done_ tl H8 Hle.
  - exists tl. simpl. rewrite app_nil_r. auto.
  - cbn [foldl]. unfold order_step at 2. rewrite ret_bind.
    rewrite filter_cons in *. destruct (decide (Some b = recent)) as [He|He].
    + destruct (decide (Some b ≠ recent)); [done|]. apply IH; assumption.
    + destruct (decide (Some b ≠ recent)); [|done].
      rewrite zlen_cons in Hle. match type of Hle with context [1 + zlen ?x] => pose proof (zlen_nonneg x) end.
      pose proof (zlen_nonneg done_). rewrite store_insert, ret_bind by lia.
      destruct tl as [|x tl]; [rewrite app_nil_r in H8; lia|].
      replace (<[Z.to_nat (zlen done_) := b]> (done_ ++ x :: tl)) with ((done_ ++ [b]) ++ tl).
      2: { unfold zlen. rewrite Nat2Z.id, <- app_assoc. rewrite insert_app_r_alt by lia.
           rewrite Nat.sub_diag. reflexivity. }
      replace (zlen done_ + 1) with (zlen (done_ ++ [b])) by (rewrite zlen_app; reflexivity).
      destruct (IH (done_ ++ [b]) tl) as (tl' & E & Hz).
      * rewrite zlen_app, zlen_cons in H8. rewrite !zlen_app. change (zlen [b]) with 1. lia.
      * rewrite zlen_app. change (zlen [b]) with 1. lia.
      * exists tl'. rewrite E. rewrite <- !(app_assoc done_). simpl. rewrite <- !(app_assoc done_) in Hz. auto.
Qed.

Lemma filter_some (b : Sack.SackBlock) (live : list Sack.SackBlock) :
  filter (λ x, Some x ≠ Some b) live = filter (λ x, x ≠ b) live.
Proof. apply list_filter_iff. intros x. split; congruence. Qed.

Lemma filter_none `{∀ x, Decision (Some x ≠ @None Sack.SackBlock)} (live : list Sack.SackBlock) :
  filter (λ x, Some x ≠ None) live = live.
Proof. induction live; [reflexivity|]. rewrite filter_cons. case_decide; [by f_equal|done]. Qed.

Lemma filter_shorter (b : Sack.SackBlock) (live : list Sack.SackBlock) :
  b ∈ live → zlen (filter (λ x, x ≠ b) live) + 1 ≤ zlen live.
Proof.
  induction live as [|x live IH]; [by intros ?%elem_of_nil|]. rewrite elem_of_cons, filter_cons, zlen_cons.
  intros [->|Hb]; case_decide; try done.
  - unfold zlen. pose proof (length_filter (λ y, y ≠ x) live). lia.
  - rewrite zlen_cons. specialize (IH Hb). lia.
  - specialize (IH Hb). lia.
Qed.

(** No index of [ordered] is out of range, because the most recent block is
    one of the ranges. *)
Lemma order_blocks_ret s :
  zlen (Sack.rx_ranges s) = 8 → 0 ≤ Sack.rx_range_len s ≤ 8 → recent_ok s →
  order_blocks s =
  Ret (sack_order (Sack.rx_recent s) (ztake (Sack.rx_range_len s) (Sack.rx_ranges s))).
Proof.
  intros H8 Hl Hr. unfold order_blocks. cbv zeta. unfold recent_ok in Hr.
  rewrite (slice_ret (Sack.rx_ranges s)), ret_bind by lia. rewrite Z.sub_0_r, zdrop_0.
  set (live := ztake _ _) in *.
  assert (Hlive : zlen live = Sack.rx_range_len s) by (apply zlen_ztake; lia).
  assert (Hfin : ∀ (P tl : list Sack.SackBlock), slice (P ++ tl) 0 (zlen P) = Ret P).
  { intros P tl. pose proof (zlen_nonneg P). pose proof (zlen_nonneg tl).
    rewrite slice_ret by (rewrite ?zlen_app; lia). rewrite Z.sub_0_r, zdrop_0.
    unfold ztake, zlen. rewrite Nat2Z.id, take_app_length. reflexivity. }
  destruct (Sack.rx_recent s) as [b|] eqn:Er.
  - pose proof (filter_shorter b live Hr).
    destruct (order_fold (Some b) live [b] (replicate 7 Sack.block_default)) as (tl & E & Hz);
      [reflexivity|rewrite filter_some; change (zlen [b]) with 1; lia|].
    change (o ← store (replicate 8 Sack.block_default) 0 b; Ret (o, 1)) with
      (Ret ([b] ++ replicate 7 Sack.block_default, zlen [b])).
    rewrite E, ret_bind, Hfin, filter_some. reflexivity.
  - destruct (order_fold None live [] (replicate 8 Sack.block_default)) as (tl & E & Hz);
      [reflexivity|rewrite filter_none; change (zlen (@nil Sack.SackBlock)) with 0; lia|].
    change (Ret (replicate 8 Sack.block_default, 0)) with
      (Ret ([] ++ replicate 8 Sack.block_default, zlen (@nil Sack.SackBlock))).
    rewrite E, ret_bind, Hfin, filter_none. reflexivity.
Qed.

(** ** What the writer holds after each push *)

Definition blocks_bytes (bs : list Sack.SackBlock) : list Z := mjoin (block_bytes <$> bs).

Lemma zlen_blocks_bytes bs : zlen (blocks_bytes bs) = 8 * zlen bs.
Proof.
  induction bs as [|b bs IH]; [reflexivity|].
  change (blocks_bytes (b :: bs)) with (block_bytes b ++ blocks_bytes bs).
  rewrite zlen_app, IH, zlen_cons. change (zlen (block_bytes b)) with 8. lia.
Qed.

Lemma push_blocks bs w P :
  written w P → zlen P + 8 * zlen bs ≤ 40 →
  returns (foldl (λ w b, w ← w; push_bytes (block_bytes b) w) (Ret w) bs)
    (λ w', written w' (P ++ blocks_bytes bs)).
Proof.
  revert w P. induction bs as [|b bs IH]; intros w P Hw Hfit.
  - apply returns_ret. by rewrite app_nil_r.
  - rewrite zlen_cons in Hfit. pose proof (zlen_nonneg bs). cbn [foldl]. rewrite ret_bind.
    destruct (push_bytes_written (block_bytes b) w P Hw) as (w' & -> & Hw');
      [change (zlen (block_bytes b)) with 8; lia|].
    change (blocks_bytes (b :: bs)) with (block_bytes b ++ blocks_bytes bs). rewrite app_assoc.
    apply IH; [assumption|]. rewrite zlen_app. change (zlen (block_bytes b)) with 8. lia.
Qed.

(** The number of blocks that fit after [n] bytes. *)
Definition sack_room (n : Z) (blocks : list Sack.SackBlock) : Z :=
  Z.min (Z.min ((40 - n - 2) / 8) 4) (zlen blocks).

Lemma push_sack_written blocks w P :
  written w P → zlen P mod 4 = 0 → zlen P ≤ 30 → blocks ≠ [] →
  returns (push_sack_limited blocks (sat_sub 40 (w_len w)) w) (λ w',
    written w' (P ++ encode_option (SackOpt (blocks_bytes (ztake (sack_room (zlen P) blocks) blocks)))) ∧
    w_len w' ≠ w_len w).
Proof.
  intros Hw Hm Hp Hb. pose proof Hw as (_ & Hl & tl & Hbuf & Htl).
  assert (Hlb : 0 < zlen blocks).
  { pose proof (zlen_nonneg blocks). assert (zlen blocks ≠ 0) by (intros ?%zlen_zero_inv; auto). lia. }
  pose proof (zlen_nonneg P). unfold push_sack_limited. cbv zeta. rewrite Hl, Hm.
  change ((4 - 0) mod 4) with 0.
  unfold sat_sub. replace (Z.max (Z.max (40 - zlen P) 0 - 0) 0) with (40 - zlen P) by lia.
  destruct (Z.ltb_spec (40 - zlen P) 10); [lia|].
  fold (sack_room (zlen P) blocks). set (k := sack_room (zlen P) blocks).
  assert (Hk : 1 ≤ k ∧ 8 * k ≤ 38 - zlen P ∧ k ≤ zlen blocks ∧ k ≤ 4) by (unfold k, sack_room; mlia).
  destruct (Z.eqb_spec k 0); [lia|].
  assert (Hz : zlen (w_buf w) = 40) by (rewrite Hbuf, zlen_app; lia). rewrite Hz.
  destruct (Z.ltb_spec 40 (zlen P + (0 + 2 + 8 * k))); [lia|].
  destruct (push_bytes_written [] w P Hw) as (w1 & E1 & Hw1); [change (zlen (@nil Z)) with 0; lia|].
  change (replicate (Z.to_nat 0) TCP_OPT_NOP) with (@nil Z). rewrite E1, ret_bind, app_nil_r in *.
  rewrite (Z.mod_small (2 + 8 * k)) by lia.
  destruct (push_bytes_written [TCP_OPT_SACK; 2 + 8 * k] w1 P Hw1) as (w2 & E2 & Hw2);
    [change (zlen [TCP_OPT_SACK; 2 + 8 * k]) with 2; lia|].
  rewrite E2, ret_bind.
  assert (Hzk : zlen (ztake k blocks) = k) by (apply zlen_ztake; lia).
  assert (Hzh : zlen (P ++ [TCP_OPT_SACK; 2 + 8 * k]) = zlen P + 2) by (rewrite zlen_app; reflexivity).
  destruct (push_blocks (ztake k blocks) w2 _ Hw2) as (w3 & E3 & Hw3); [lia|].
  rewrite E3. apply returns_ret. cbn [encode_option]. rewrite zlen_blocks_bytes, Hzk, app_assoc.
  split; [assumption|]. destruct Hw3 as (_ & Hl3 & _).
  rewrite Hl3, zlen_app, Hzh, zlen_blocks_bytes, Hzk. lia.
Qed.

(** The NOPs of [finish]. *)
Definition pads (n : Z) : list TcpOption := replicate (Z.to_nat ((4 - n mod 4) mod 4)) NoOp.

Lemma encode_pads n : encode_options (pads n) = replicate (Z.to_nat ((4 - n mod 4) mod 4)) TCP_OPT_NOP.
Proof.
  unfold pads. induction (Z.to_nat _) as [|k IH]; [reflexivity|].
  change (TCP_OPT_NOP :: encode_options (replicate k NoOp) = TCP_OPT_NOP :: replicate k TCP_OPT_NOP).
  by f_equal.
Qed.

Lemma encode_options_app a b : encode_options (a ++ b) = encode_options a ++ encode_options b.
Proof. unfold encode_options. rewrite fmap_app, join_app. reflexivity. Qed.

Lemma pads_encodable n : Forall encodable (pads n).
Proof. apply Forall_replicate. exact I. Qed.

(** A finished writer that holds encoded options. *)
Lemma finish_encoded w os :
  written w (encode_options os) → Forall encodable os →
  ∃ out, writer_finish w = Ret out ∧ zlen out ≤ 40 ∧ zlen out mod 4 = 0 ∧ bytes out ∧
         parse_options out = Ret (os ++ pads (zlen (encode_options os))).
Proof.
  intros Hw Hos. rewrite (writer_finish_written _ _ Hw), <- encode_pads, <- encode_options_app.
  eexists. split; [reflexivity|]. set (n := zlen (encode_options os)).
  assert (Hz : zlen (encode_options (os ++ pads n)) = n + (4 - n mod 4) mod 4).
  { rewrite encode_options_app, zlen_app, encode_pads. unfold zlen at 2. rewrite length_replicate.
    fold n. mlia. }
  assert (He : Forall encodable (os ++ pads n)) by (apply Forall_app_2; auto using pads_encodable).
  destruct Hw as (Hp & _). fold n in Hp. pose proof (zlen_nonneg (encode_options os)). fold n in H.
  split; [rewrite Hz; mlia|]. split; [rewrite Hz; mlia|].
  split; [by apply encode_options_bytes|by apply parse_encode].
Qed.

(** ** Reading the options back *)

Definition valid_block (b : Sack.SackBlock) : Prop :=
  u32 (Sack.left b) ∧ u32 (Sack.right b) ∧ 0 < sdiff (Sack.right b) (Sack.left b).

Lemma sack_chunks_blocks bs :
  Forall valid_block bs →
  sack_chunks (blocks_bytes bs) = (λ b, (Sack.left b, Sack.right b)) <$> bs.
Proof.
  induction 1 as [|b bs (Hl & Hr & _) _ IH]; [reflexivity|].
  change (blocks_bytes (b :: bs)) with (block_bytes b ++ blocks_bytes bs).
  unfold block_bytes, be32. cbn [app sack_chunks]. rewrite IH, !from_to_be32 by assumption.
  reflexivity.
Qed.

Lemma sack_blocks_read bs :
  Forall valid_block bs → zlen bs ≤ 4 →
  take 4 ((λ '(l, r), Sack.mkBlock l r) <$>
          filter (λ '(l, r), 0 < sdiff r l) (sack_chunks (blocks_bytes bs))) = bs.
Proof.
  intros Hv Hl. rewrite sack_chunks_blocks by assumption.
  assert (Hf : (λ '(l, r), Sack.mkBlock l r) <$>
    filter (λ '(l, r), 0 < sdiff r l) ((λ b, (Sack.left b, Sack.right b)) <$> bs) = bs).
  { clear Hl. induction Hv as [|b bs (_ & _ & Hd) _ IH]; [reflexivity|].
    rewrite fmap_cons, filter_cons. case_decide; [|done].
    rewrite fmap_cons, IH. by destruct b. }
  rewrite Hf. apply take_ge. unfold zlen in Hl. lia.
Qed.

Lemma first_timestamp_app os n : first_timestamp (os ++ pads n) = first_timestamp os.
Proof.
  induction os as [|o os IH]; simpl; [|destruct o; auto].
  unfold pads. induction (Z.to_nat _); [reflexivity|assumption].
Qed.

Lemma first_sack_app os n : first_sack (os ++ pads n) = first_sack os.
Proof.
  induction os as [|o os IH]; simpl; [|destruct o; auto].
  unfold pads. induction (Z.to_nat _); [reflexivity|assumption].
Qed.

Lemma blocks_encodable bs : zlen bs ≤ 4 → encodable (SackOpt (blocks_bytes bs)).
Proof.
  intros Hl. simpl. split; [|rewrite zlen_blocks_bytes; pose proof (zlen_nonneg bs); mlia].
  clear Hl. induction bs as [|b bs IH]; [constructor|].
  change (blocks_bytes (b :: bs)) with (block_bytes b ++ blocks_bytes bs).
  unfold block_bytes, bytes. rewrite !Forall_app.
  split; [split; apply be32_bytes|assumption].
Qed.

Definition live_ranges (s : Sack.SackRackState) : list Sack.SackBlock :=
  ztake (Sack.rx_range_len s) (Sack.rx_ranges s).

(** The scoreboard as [sack.rs] leaves it. *)
Record board_ok (s : Sack.SackRackState) : Prop := {
  board_cells : zlen (Sack.rx_ranges s) = 8;
  board_len : 0 ≤ Sack.rx_range_len s ≤ 8;
  board_valid : Forall valid_block (live_ranges s);
  board_recent : recent_ok s
}.

Definition est_timestamp (now : Instant) (t : TcpControlBlock) : list TcpOption :=
  if Ts.enabled (ts t)
  then [NoOp; NoOp; Timestamp (tcp_ts_now now (Ts.offset (ts t))) (Ts.ts_recent (ts t))] else [].

(** The blocks an established segment reports. *)
Definition est_blocks (t : TcpControlBlock) : list Sack.SackBlock :=
  if Sack.enabled (sack t) && (0 <? Sack.rx_range_len (sack t)) then
    let order := sack_order (Sack.rx_recent (sack t)) (live_ranges (sack t)) in
    ztake (sack_room (if Ts.enabled (ts t) then 12 else 0) order) order
  else [].

(** Only the bookkeeping of the options changes. *)
Definition opts_frame (t t' : TcpControlBlock) : Prop :=
  t' = t <| ts := ts t' |> <| sack := sack t' |> ∧
  ts t' = (ts t) <| Ts.last_tx_tsval := Ts.last_tx_tsval (ts t') |> ∧
  sack t' = (sack t) <| Sack.blocks_tx := Sack.blocks_tx (sack t') |>.

Lemma sack_order_valid s : board_ok s →
  Forall valid_block (sack_order (Sack.rx_recent s) (live_ranges s)).
Proof.
  intros [_ _ Hv Hr]. unfold recent_ok in Hr. unfold sack_order, live_ranges in *.
  destruct (Sack.rx_recent s) as [b|]; [|assumption].
  rewrite Forall_forall in Hv. constructor; [auto|].
  apply Forall_forall. intros x [_ Hx]%list_elem_of_filter. auto.
Qed.

Lemma sack_order_nonempty s : board_ok s → 0 < Sack.rx_range_len s →
  sack_order (Sack.rx_recent s) (live_ranges s) ≠ [].
Proof.
  intros [H8 Hl _ _] Hpos. unfold sack_order. destruct (Sack.rx_recent s); [discriminate|].
  intros He. apply (f_equal zlen) in He. unfold live_ranges in He.
  rewrite zlen_ztake in He by lia. change (zlen (@nil Sack.SackBlock)) with 0 in He. lia.
Qed.

Lemma push_timestamp_written v e w P :
  written w P → zlen P ≤ 28 →
  returns (push_timestamp v e w) (λ w', written w' (P ++ encode_options [NoOp; NoOp; Timestamp v e])).
Proof. intros Hw Hp. apply push_bytes_written; [assumption|]. simpl. change (zlen _) with 12 at 2. lia. Qed.

Definition est_sack (t : TcpControlBlock) : list TcpOption :=
  if Sack.enabled (sack t) && (0 <? Sack.rx_range_len (sack t))
  then [SackOpt (blocks_bytes (est_blocks t))] else [].

Lemma est_timestamp_facts now t :
  u32 (Ts.ts_recent (ts t)) →
  Forall encodable (est_timestamp now t) ∧
  zlen (encode_options (est_timestamp now t)) = if Ts.enabled (ts t) then 12 else 0.
Proof.
  intros Hu. unfold est_timestamp. destruct (Ts.enabled (ts t)); [|split; [constructor|reflexivity]].
  split; [|reflexivity]. repeat constructor; try apply wadd_u32; apply Hu.
Qed.

Lemma est_blocks_short t : zlen (est_blocks t) ≤ 4.
Proof.
  unfold est_blocks. destruct (_ && _); [|unfold zlen; simpl; lia].
  cbv zeta. set (order := sack_order _ _). pose proof (zlen_nonneg order).
  unfold sack_room. destruct (Ts.enabled (ts t)); rewrite zlen_ztake by mlia; lia.
Qed.

Lemma est_sack_encodable t : Forall encodable (est_sack t).
Proof.
  unfold est_sack. destruct (_ && _); [|constructor].
  constructor; [|constructor]. apply blocks_encodable, est_blocks_short.
Qed.

(** The writer after the timestamp and after the blocks. *)
Lemma est_written_sack w P t :
  board_ok (sack t) → written w P → zlen P = (if Ts.enabled (ts t) then 12 else 0) →
  returns (est_push_sack w t)
    (λ '(w', t'), written w' (P ++ encode_options (est_sack t)) ∧ opts_frame t t').
Proof.
  intros Hb Hw Hp. unfold est_push_sack, est_sack, est_blocks.
  destruct (Sack.enabled (sack t) && (0 <? Sack.rx_range_len (sack t))) eqn:Ec.
  - apply andb_true_iff in Ec as [_ Hpos%Z.ltb_lt].
    rewrite order_blocks_ret, ret_bind by apply Hb. cbv zeta. fold (live_ranges (sack t)).
    pose proof (sack_order_nonempty _ Hb Hpos) as Hne. set (order := sack_order _ _) in *.
    unfold TCP_OPTS_MAX.
    destruct (push_sack_written order w P Hw) as (w' & -> & Hw' & _);
      [rewrite Hp; destruct (Ts.enabled (ts t)); reflexivity|rewrite Hp; destruct (Ts.enabled (ts t)); lia|assumption|].
    rewrite ret_bind. apply returns_ret. rewrite Hp in Hw'. split.
    + unfold encode_options. cbn [fmap list_fmap mjoin list_join]. rewrite app_nil_r. exact Hw'.
    + destruct (negb _); split; try (destruct t; reflexivity); split; rsimp;
        (destruct (ts t) || destruct (sack t)); try reflexivity; destruct (sack t); reflexivity.
  - apply returns_ret. split; [by rewrite app_nil_r|].
    split; [destruct t; reflexivity|]. split; [destruct (ts t)|destruct (sack t)]; reflexivity.
Qed.

(** Options of established segments: they fit the 40-byte option area in
    whole words and no write goes out of bounds; a peer that parses them gets
    the timestamp pair, and as SACK blocks the most recent range first and
    then as many of the other ranges as fit. *)
Lemma established_options_spec now t :
  board_ok (sack t) → u32 (Ts.ts_recent (ts t)) →
  returns (established_outgoing_options now t) (λ '(out, tsval, t'),
    zlen out ≤ 40 ∧ zlen out mod 4 = 0 ∧ bytes out ∧ opts_frame t t' ∧
    tsval = (if Ts.enabled (ts t) then Some (tcp_ts_now now (Ts.offset (ts t))) else None) ∧
    find_timestamp out =
      Ret (if Ts.enabled (ts t)
           then Some (tcp_ts_now now (Ts.offset (ts t)), Ts.ts_recent (ts t)) else None) ∧
    parse_sack_blocks out = Ret (est_blocks t)).
Proof.
  intros Hb Hu. unfold established_outgoing_options.
  destruct (est_timestamp_facts now t Hu) as [He1 Hz1].
  assert (H1 : returns (est_push_timestamp now t) (λ '(w, v, t1),
    written w (encode_options (est_timestamp now t)) ∧
    v = (if Ts.enabled (ts t) then Some (tcp_ts_now now (Ts.offset (ts t))) else None) ∧
    t1 = t <| ts := ts t1 |> ∧
    ts t1 = (ts t) <| Ts.last_tx_tsval := Ts.last_tx_tsval (ts t1) |>)).
  { unfold est_push_timestamp, est_timestamp. destruct (Ts.enabled (ts t)).
    - cbv zeta. rsimp. destruct (push_timestamp_written (tcp_ts_now now (Ts.offset (ts t)))
        (Ts.ts_recent (ts t)) writer_new [] written_new) as (w & -> & Hw); [unfold zlen; simpl; lia|].
      rewrite ret_bind. apply returns_ret. auto.
    - apply returns_ret. split; [apply written_new|]. split; [reflexivity|].
      split; [destruct t; reflexivity|destruct (ts t); reflexivity]. }
  destruct H1 as ([[w v] t1] & -> & Hw & -> & Ht1 & Hts1). rewrite ret_bind.
  assert (Hs1 : sack t1 = sack t) by (rewrite Ht1; reflexivity).
  assert (Hen1 : Ts.enabled (ts t1) = Ts.enabled (ts t)) by (rewrite Hts1; reflexivity).
  destruct (est_written_sack w _ t1 ltac:(by rewrite Hs1) Hw ltac:(by rewrite Hen1))
    as ([w2 t2] & -> & Hw2 & Hf2).
  rewrite ret_bind, <- encode_options_app in *.
  assert (Hsk : est_sack t1 = est_sack t ∧ est_blocks t1 = est_blocks t)
    by (unfold est_sack, est_blocks; rewrite Hs1, Hen1; auto).
  destruct Hsk as [Hsk Hbk]. rewrite Hsk in Hw2.
  destruct (finish_encoded w2 _ Hw2) as (out & -> & Hl & Hm & Hby & Hparse);
    [apply Forall_app_2; [assumption|apply est_sack_encodable]|].
  rewrite ret_bind. apply returns_ret. repeat (split; [assumption|]).
  split; [|split; [reflexivity|]].
  - destruct Hf2 as (E1 & E2 & E3). split; [|split].
    + rewrite E1. rewrite Ht1 at 1. destruct t; reflexivity.
    + rewrite E2. rewrite Hts1 at 1. destruct (ts t); reflexivity.
    + rewrite E3, Hs1. destruct (sack t); reflexivity.
  - unfold find_timestamp, parse_sack_blocks. rewrite Hparse, !ret_bind.
    rewrite first_timestamp_app, first_sack_app. unfold est_timestamp, est_sack.
    destruct (Ts.enabled (ts t)) eqn:Et; destruct (_ && _) eqn:Ec; cbn [app first_timestamp first_sack].
    1,3: rewrite sack_blocks_read; [auto| |apply est_blocks_short].
    3,4: unfold est_blocks; rewrite Ec; auto.
    all: unfold est_blocks; rewrite Ec; cbv zeta;
      apply Forall_take, sack_order_valid, Hb.
Qed.

(** ** SYN options *)

Definition syn_options (settings : Settings.TcpSessionSettings) (ts : option (Z * Z))
  : list TcpOption :=
  [Mss DEFAULT_MSS] ++
  (if Settings.wnd_scale_enabled settings then [WindowScale (Settings.rcv_wscale settings)] else []) ++
  (if Settings.sack_enabled settings then [NoOp; NoOp; SackPermitted] else []) ++
  (match ts with Some (v, e) => [NoOp; NoOp; Timestamp v e] | None => [] end).

Lemma syn_options_spec settings ts :
  u8 (Settings.rcv_wscale settings) → (∀ v e, ts = Some (v, e) → u32 v ∧ u32 e) →
  ∃ out, syn_outgoing_options settings ts = Ret out ∧ zlen out ≤ 40 ∧ zlen out mod 4 = 0 ∧
    bytes out ∧ ∃ n, parse_options out = Ret (syn_options settings ts ++ pads n).
Proof.
  intros Hws Hts. unfold syn_outgoing_options.
  destruct (push_bytes_written ([TCP_OPT_MSS; 4] ++ be16 DEFAULT_MSS) writer_new [] written_new)
    as (w1 & E1 & Hw1); [vm_compute; discriminate|].
  unfold push_mss at 1. rewrite E1, ret_bind.
  set (o1 := if Settings.wnd_scale_enabled settings then [WindowScale (Settings.rcv_wscale settings)] else []).
  assert (H2 : returns (if Settings.wnd_scale_enabled settings
       then push_window_scale (Settings.rcv_wscale settings) w1 else Ret w1)
       (λ w, written w (encode_options ([Mss DEFAULT_MSS] ++ o1)))).
  { unfold o1. destruct (Settings.wnd_scale_enabled settings); [|by apply returns_ret].
    apply (push_bytes_written [_; _; _] w1 _ Hw1). vm_compute. discriminate. }
  destruct H2 as (w2 & -> & Hw2). rewrite ret_bind.
  assert (Hz2 : zlen (encode_options ([Mss DEFAULT_MSS] ++ o1)) ≤ 7)
    by (unfold o1; destruct (Settings.wnd_scale_enabled settings); vm_compute; discriminate).
  set (o2 := if Settings.sack_enabled settings then [NoOp; NoOp; SackPermitted] else []).
  assert (H3 : returns (if Settings.sack_enabled settings then push_sack_permitted w2 else Ret w2)
       (λ w, written w (encode_options (([Mss DEFAULT_MSS] ++ o1) ++ o2)))).
  { rewrite encode_options_app. unfold o2. destruct (Settings.sack_enabled settings).
    - unfold push_sack_permitted. destruct Hw2 as (Hp & Hl & tl & Hb & Ht). rewrite Hl, Hb, zlen_app.
      pose proof (zlen_nonneg tl). destruct (Z.ltb_spec (zlen (encode_options ([Mss DEFAULT_MSS] ++ o1)) + zlen tl)
        (zlen (encode_options ([Mss DEFAULT_MSS] ++ o1)) + 4)); [lia|].
      apply push_bytes_written; [repeat split; eauto|]. change (zlen (encode_options [NoOp; NoOp; SackPermitted])) with 4. lia.
    - apply returns_ret. by rewrite app_nil_r. }
  destruct H3 as (w3 & -> & Hw3). rewrite ret_bind.
  assert (Hz3 : zlen (encode_options (([Mss DEFAULT_MSS] ++ o1) ++ o2)) ≤ 11).
  { rewrite encode_options_app, zlen_app.
    assert (zlen (encode_options o2) ≤ 4)
      by (unfold o2; destruct (Settings.sack_enabled settings); vm_compute; discriminate). lia. }
  set (o3 := match ts with Some (v, e) => [NoOp; NoOp; Timestamp v e] | None => [] end).
  assert (H4 : returns (match ts with Some (v, e) => push_timestamp v e w3 | None => Ret w3 end)
       (λ w, written w (encode_options ((([Mss DEFAULT_MSS] ++ o1) ++ o2) ++ o3)))).
  { rewrite encode_options_app. unfold o3. destruct ts as [[v e]|].
    - apply push_timestamp_written; [assumption|lia].
    - apply returns_ret. by rewrite app_nil_r. }
  destruct H4 as (w4 & -> & Hw4). rewrite ret_bind, <- !(app_assoc [Mss DEFAULT_MSS]), <- app_assoc in *.
  change ([Mss DEFAULT_MSS] ++ o1 ++ o2 ++ o3) with (syn_options settings ts) in Hw4.
  destruct (finish_encoded w4 _ Hw4) as (out & E & Hl & Hm & Hby & Hp).
  - unfold syn_options. rewrite !Forall_app. split; [|split; [|split]].
    + constructor; [|constructor]. simpl. unfold u16, DEFAULT_MSS. lia.
    + destruct (Settings.wnd_scale_enabled settings); [|constructor]. by constructor; [|constructor].
    + destruct (Settings.sack_enabled settings); repeat constructor.
    + destruct ts as [[v e]|]; [|constructor]. destruct (Hts v e eq_refl).
      repeat (constructor; [simpl; auto|]). constructor.
  - exists out. repeat (split; [assumption|]). eauto.
Qed.
