(* ===== verification/TcpWire.v ===== *)
(** * Building and opening segments

    The lowest level of the driver: [net_send_tcp_datagram_with_options]
    ([driver/send.rs]) assembles header, options and payload and fills in the
    checksum; the head of [process_data] ([driver/recv.rs]) takes a frame
    apart.  What one builds the other accepts. *)

From S2P Require Import Prelude Time ReceiveBuffer TcpTypes TcpOptions TcpChecksum NetWorld.

(** ** Sending *)

(** [header_buf]: the header followed by the options. *)
Definition fill_header_buf (header : Hdr.TcpDatagramHeader) (options : list Z) : res (list Z) :=
  header_buf ← store_slice (zeros 60) 0 (hdr_bytes header);
  if zlen options =? 0 then Ret header_buf else store_slice header_buf 20 options.

(** The packet buffer: payload appended, options and header prepended. *)
Definition assemble (header : Hdr.TcpDatagramHeader) (header_buf : list Z) (header_len : Z)
    (options data : list Z) : res (list Z) :=
  p ← Pkt.for_transmit (zeros (Pkt.DEFAULT_HEADER_RESERVE + Pkt.SLOT_SIZE)) Pkt.DEFAULT_HEADER_RESERVE;
  p ← Pkt.append_data data p;
  p ← (if zlen options =? 0 then Ret p
       else opts ← slice header_buf 20 header_len; Pkt.prepend_bytes opts p);
  p ← Pkt.prepend_bytes (hdr_bytes header) p;
  Pkt.payload p.

(** The bytes handed to IPv4. *)
Definition build_segment (socket : Sock.Socket) (header : Hdr.TcpDatagramHeader)
    (options data : list Z) : res (list Z) :=
  let header_len := 20 + zlen options in
  header ← Hdr.set_offset (header_len / 4 mod U8) header;
  header_buf ← fill_header_buf header options;
  head ← slice header_buf 0 header_len;
  csum ← calculate_tcp_checksum (Sock.local_address socket) (Sock.remote_address socket) head data;
  let header := header <| Hdr.checksum := csum |> in
  header_buf ← store_slice header_buf 0 (hdr_bytes header);
  assemble header header_buf header_len options data.

Definition net_send_tcp_datagram_with_options (socket : Sock.Socket)
    (header : Hdr.TcpDatagramHeader) (options data : list Z) (tos : Z) : M bool :=
  bytes ← lift (build_segment socket header options data);
  ipv4_send (mkPacket (Sock.remote_address socket) (Sock.nic socket) tos bytes).

Definition net_send_tcp_datagram (socket : Sock.Socket) (header : Hdr.TcpDatagramHeader)
    (data : list Z) : M unit :=
  net_send_tcp_datagram_with_options socket header [] data 0;; mret tt.

(** ** Receiving *)

Inductive rx_outcome :=
| RxErr                                    (** [Err(())]: too short *)
| RxBadChecksum                            (** dropped with [Ok(())] *)
| RxSegment (hdr : Hdr.TcpDatagramHeader) (options payload : list Z).

(** [frame[16] = hi; frame[17] = lo]. *)
Definition put_checksum (frame : list Z) (hi lo : Z) : res (list Z) :=
  f ← store frame 16 hi;
  store f 17 lo.

Definition open_frame (sender_ip target_ip : Ipv4Addr) (frame : list Z) : res rx_outcome :=
  if zlen frame <? 20 then Ret RxErr else
  match hdr_read frame with
  | None => Ret RxErr
  | Some hdr =>
      let hdr_len := Hdr.header_len_bytes hdr in
      if zlen frame <? hdr_len then Ret RxErr else
      let wire_csum := Hdr.checksum hdr in
      f ← put_checksum frame 0 0;
      head ← slice f 0 hdr_len;
      tail ← slice f hdr_len (zlen f);
      computed ← calculate_tcp_checksum sender_ip target_ip head tail;
      f ← put_checksum f (Z.shiftr wire_csum 8 mod U8) (wire_csum mod U8);
      if negb (computed =? wire_csum) then Ret RxBadChecksum else
      options ← slice f 20 hdr_len;
      payload ← slice f hdr_len (zlen f);
      Ret (RxSegment hdr options payload)
  end.

(** ** The segment that is sent *)

Lemma slice_app_l {A} (l1 l2 : list A) : slice (l1 ++ l2) 0 (zlen l1) = Ret l1.
Proof.
  pose proof (zlen_nonneg l1). pose proof (zlen_nonneg l2).
  rewrite slice_ret by (rewrite ?zlen_app; lia). rewrite Z.sub_0_r, zdrop_0.
  unfold ztake, zlen. rewrite Nat2Z.id, take_app_length. reflexivity.
Qed.

Lemma slice_app_r {A} (l1 l2 : list A) n : n = zlen (l1 ++ l2) →
  slice (l1 ++ l2) (zlen l1) n = Ret l2.
Proof.
  intros ->. pose proof (zlen_nonneg l1). pose proof (zlen_nonneg l2).
  rewrite slice_ret by (rewrite ?zlen_app; lia). rewrite zlen_app.
  unfold ztake, zdrop, zlen. rewrite Nat2Z.id, drop_app_length, take_ge by lia. reflexivity.
Qed.

Lemma splice_0 {A} (l1 l2 l3 : list A) : zlen l1 = zlen l3 → splice (l1 ++ l2) 0 l3 = l3 ++ l2.
Proof.
  intros H. unfold splice. rewrite ztake_0. simpl. f_equal. unfold zdrop, zlen in *.
  replace (Z.to_nat _) with (length l1) by lia. apply drop_app_length.
Qed.

Lemma set_offset_spec h n :
  u8 (Hdr.offset_res h) → 5 ≤ n ≤ 15 →
  returns (Hdr.set_offset n h) (λ h', h' = h <| Hdr.offset_res := Hdr.offset_res h' |> ∧
    u8 (Hdr.offset_res h') ∧ Hdr.header_len_bytes h' = 4 * n).
Proof.
  intros Hu Hn. unfold Hdr.set_offset, rassert.
  destruct (Z.leb_spec 5 n); [|lia]. destruct (Z.leb_spec n 15); [|lia]. simpl.
  apply returns_ret. rsimp. split; [reflexivity|].
  assert (Hl : Z.land (Hdr.offset_res h) 15 = Hdr.offset_res h mod 16)
    by (change 15 with (Z.ones 4); apply Z.land_ones; lia).
  assert (Hv : Z.lor (Z.land (Hdr.offset_res h) 15) (Z.shiftl n 4 mod U8)
               = n * 16 + Hdr.offset_res h mod 16).
  { rewrite Hl. pose proof (Z.shiftl_mul_pow2 n 4 ltac:(lia)) as Hs. change (2 ^ 4) with 16 in Hs.
    rewrite (Z.mod_small (Z.shiftl n 4)) by lia. rewrite <- Hs, Z.lor_comm.
    assert (Hz : Z.land (Z.shiftl n 4) (Hdr.offset_res h mod 16) = 0).
    { apply Z.bits_inj'; intros i Hi; rewrite Z.land_spec, Z.bits_0.
      destruct (Z.ltb_spec i 4); [rewrite Z.shiftl_spec_low by lia; reflexivity|].
      change 16 with (2 ^ 4); rewrite Z.mod_pow2_bits_high by lia; apply andb_false_r. }
    rewrite Z.add_nocarry_lxor, Z.lxor_lor by exact Hz. reflexivity. }
  unfold Hdr.header_len_bytes, Hdr.get_offset. rsimp. rewrite Hv. split; [ints; mlia|].
  rewrite Z.shiftr_div_pow2 by lia. change (2 ^ 4) with 16.
  change 15 with (Z.ones 4). rewrite Z.land_ones by lia. ints. mlia.
Qed.

(** The header as it goes out: offset and checksum filled in. *)
Definition sealed (socket : Sock.Socket) (header : Hdr.TcpDatagramHeader)
    (options data : list Z) (h : Hdr.TcpDatagramHeader) : Prop :=
  h = header <| Hdr.offset_res := Hdr.offset_res h |> <| Hdr.checksum := Hdr.checksum h |> ∧
  Hdr.header_len_bytes h = 20 + zlen options ∧
  Hdr.checksum h = internet_checksum (Sock.local_address socket) (Sock.remote_address socket)
    (hdr_bytes (h <| Hdr.checksum := 0 |>) ++ options ++ data).

Section Build.
Context (options data : list Z).
Hypothesis Hopts : bytes options ∧ zlen options ≤ 40 ∧ (4 | zlen options).
Hypothesis Hdata : bytes data ∧ zlen data ≤ Pkt.SLOT_SIZE.

Lemma fill_header_buf_ret h : ∃ pad,
  fill_header_buf h options = Ret ((hdr_bytes h ++ options) ++ pad).
Proof using Hopts.
  destruct Hopts as (_ & Hol & _). exists (zdrop (zlen options) (zeros 40)). unfold fill_header_buf.
  rewrite store_slice_ret by (rewrite ?zlen_hdr_bytes; unfold zeros, zlen; simpl; lia).
  change (zeros 60) with (zeros 20 ++ zeros 40). rewrite splice_0, ret_bind by reflexivity.
  rewrite <- app_assoc. destruct (Z.eqb_spec (zlen options) 0) as [E|E].
  - rewrite (zlen_zero_inv _ E), zlen_nil, zdrop_0. reflexivity.
  - rewrite store_slice_ret; [|lia|rewrite zlen_app, zlen_hdr_bytes; change (zlen (zeros 40)) with 40; lia].
    rewrite splice_app by reflexivity. reflexivity.
Qed.

Lemma assemble_ret h pad :
  assemble h (hdr_bytes h ++ options ++ pad) (20 + zlen options) options data =
  Ret (hdr_bytes h ++ options ++ data).
Proof using Hopts Hdata.
  destruct Hopts as (_ & Hol & _), Hdata as [_ Hdl]. pose proof (zlen_nonneg options). unfold assemble.
  assert (Hz : zlen (zeros (Pkt.DEFAULT_HEADER_RESERVE + Pkt.SLOT_SIZE)) = 1618) by reflexivity.
  destruct (Pkt.for_transmit_spec (zeros (Pkt.DEFAULT_HEADER_RESERVE + Pkt.SLOT_SIZE))
              Pkt.DEFAULT_HEADER_RESERVE) as (p0 & -> & Hw0 & Hp0 & Hb0 & Hs0 & He0 & Hn0);
    [rewrite Hz; unfold Pkt.DEFAULT_HEADER_RESERVE; lia|].
  rewrite Hz in Hn0. clear Hz. rewrite ret_bind. unfold Pkt.DEFAULT_HEADER_RESERVE, Pkt.SLOT_SIZE in *.
  destruct (Pkt.append_data_spec data p0) as (p1 & -> & Hw1 & Hp1 & Hb1 & Hs1 & He1 & Hn1);
    [assumption|lia|]. rewrite ret_bind, Hp0 in *. simpl in Hp1.
  assert (Hopt : returns (if zlen options =? 0 then Ret p1
       else opts ← slice (hdr_bytes h ++ options ++ pad) 20 (20 + zlen options); Pkt.prepend_bytes opts p1)
     (λ p, Pkt.wf p ∧ Pkt.contents p = options ++ data ∧ Pkt.buffer_start p = 0 ∧ 56 ≤ Pkt.payload_start p)).
  { destruct (Z.eqb_spec (zlen options) 0) as [E|E].
    - apply returns_ret. rewrite (zlen_zero_inv _ E). split; [assumption|]. split; [assumption|lia].
    - rewrite slice_ret; [|lia|rewrite !zlen_app, zlen_hdr_bytes; pose proof (zlen_nonneg pad); lia].
      rewrite ret_bind. replace (ztake _ _) with options.
      2: { rewrite Z.add_simpl_l. change (zdrop 20 (hdr_bytes h ++ options ++ pad)) with (options ++ pad).
           unfold ztake, zlen. rewrite Nat2Z.id, take_app_length. reflexivity. }
      eapply returns_mono; [apply Pkt.prepend_bytes_spec; [assumption|lia]|].
      intros p (? & Hc & ? & ? & _). rewrite Hc, Hp1. split; [assumption|]. split; [reflexivity|lia]. }
  destruct Hopt as (p2 & -> & Hw2 & Hp2 & Hb2 & Hs2). rewrite ret_bind.
  destruct (Pkt.prepend_bytes_spec (hdr_bytes h) p2) as (p3 & -> & Hw3 & Hp3 & _);
    [assumption|rewrite zlen_hdr_bytes; lia|]. rewrite ret_bind, Pkt.payload_ret by assumption.
  rewrite Hp3, Hp2. reflexivity.
Qed.

Lemma build_segment_spec socket header :
  ip_ok (Sock.local_address socket) → ip_ok (Sock.remote_address socket) →
  hdr_ok header → Hdr.checksum header = 0 →
  returns (build_segment socket header options data) (λ seg, ∃ h,
    seg = hdr_bytes h ++ options ++ data ∧ hdr_ok h ∧ sealed socket header options data h).
Proof using Hopts Hdata.
  intros Hlocal Hremote Hhdr Hcsum. pose proof Hopts as (Hob & Hol & [q Hq]). pose proof Hdata as [Hdb Hdl].
  pose proof (zlen_nonneg options). unfold build_segment. cbv zeta.
  replace ((20 + zlen options) / 4 mod U8) with (5 + q) by mlia.
  destruct (set_offset_spec header (5 + q)) as (h0 & -> & Hh0 & Hu0 & Hlen0);
    [apply Hhdr|lia|]. rewrite ret_bind.
  assert (Hok0 : hdr_ok h0) by (rewrite Hh0; destruct Hhdr; constructor; rsimp; assumption).
  assert (Hc0 : Hdr.checksum h0 = 0) by (rewrite Hh0; rsimp; exact Hcsum).
  destruct (fill_header_buf_ret h0) as [pad ->]. rewrite ret_bind.
  replace (20 + zlen options) with (zlen (hdr_bytes h0 ++ options)) at 1
    by (rewrite zlen_app, zlen_hdr_bytes; reflexivity).
  rewrite slice_app_l, ret_bind.
  rewrite checksum_spec; [|assumption|assumption|apply Forall_app_2; [by apply hdr_bytes_bytes|assumption]
    |assumption|rewrite zlen_app, zlen_hdr_bytes; unfold Pkt.SLOT_SIZE in Hdl; lia].
  rewrite ret_bind, <- !app_assoc. set (c := internet_checksum _ _ _).
  rewrite store_slice_ret;
    [|lia|rewrite zlen_app, !zlen_hdr_bytes; pose proof (zlen_nonneg (options ++ pad)); lia].
  rewrite splice_0, ret_bind, assemble_ret by (rewrite !zlen_hdr_bytes; reflexivity).
  apply returns_ret. exists (h0 <| Hdr.checksum := c |>). split; [reflexivity|]. split.
  - destruct Hok0. constructor; rsimp; try assumption.
    apply internet_checksum_u16; try assumption. unfold bytes. rewrite !Forall_app.
    split; [apply hdr_bytes_bytes; constructor; assumption|split; assumption].
  - unfold sealed. rsimp. split; [rewrite Hh0 at 1; reflexivity|].
    split; [unfold Hdr.header_len_bytes, Hdr.get_offset in *; rsimp; lia|].
    unfold c. do 2 f_equal. rewrite <- Hc0. destruct h0; reflexivity.
Qed.
End Build.

(** ** The segment that is received *)

Lemma frame_split frame :
  bytes frame → 20 ≤ zlen frame →
  ∃ h, hdr_read frame = Some h ∧ hdr_ok h ∧ frame = hdr_bytes h ++ zdrop 20 frame.
Proof.
  unfold zlen. intros Hb Hl.
  do 20 (destruct frame as [|? frame]; [simpl in Hl; lia|]).
  eexists. split; [reflexivity|]. unfold bytes in Hb. rewrite !Forall_cons in Hb. destruct_and!.
  split.
  - constructor; cbn; unfold from_be16, from_be32; ints; lia.
  - unfold hdr_bytes. cbn [Hdr.source_port Hdr.dest_port Hdr.sequence_number Hdr.ack_number
      Hdr.offset_res Hdr.flags Hdr.window_size Hdr.checksum Hdr.urgent_pointer].
    rewrite !be_of_from16, !be_of_from32 by assumption. reflexivity.
Qed.

Lemma put_checksum_ret h rest hi lo c :
  hi = c / U8 mod U8 → lo = c mod U8 →
  put_checksum (hdr_bytes h ++ rest) hi lo = Ret (hdr_bytes (h <| Hdr.checksum := c |>) ++ rest).
Proof.
  intros -> ->. unfold put_checksum.
  assert (H20 : 20 ≤ zlen (hdr_bytes h ++ rest))
    by (rewrite zlen_app, zlen_hdr_bytes; pose proof (zlen_nonneg rest); lia).
  rewrite store_ret, ret_bind by lia.
  rewrite store_ret by (rewrite zlen_splice; change (zlen [c / U8 mod U8]) with 1; lia).
  reflexivity.
Qed.

(** What [open_frame] makes of a frame of at least twenty bytes. *)
Definition frame_outcome (sender_ip target_ip : Ipv4Addr) (h : Hdr.TcpDatagramHeader)
    (rest : list Z) : res rx_outcome :=
  if 20 + zlen rest <? Hdr.header_len_bytes h then Ret RxErr
  else if negb (internet_checksum sender_ip target_ip (hdr_bytes (h <| Hdr.checksum := 0 |>) ++ rest)
                =? Hdr.checksum h) then Ret RxBadChecksum
  else if Hdr.header_len_bytes h <? 20 then Crash Panic
  else Ret (RxSegment h (ztake (Hdr.header_len_bytes h - 20) rest) (zdrop (Hdr.header_len_bytes h - 20) rest)).

Lemma zdrop_hdr h rest n : 20 ≤ n → zdrop n (hdr_bytes h ++ rest) = zdrop (n - 20) rest.
Proof.
  intros. unfold zdrop. replace (Z.to_nat n) with (length (hdr_bytes h) + Z.to_nat (n - 20))%nat
    by (change (length (hdr_bytes h)) with 20%nat; lia). apply drop_app_add.
Qed.

Lemma open_frame_ret sender_ip target_ip h rest :
  ip_ok sender_ip → ip_ok target_ip → hdr_ok h → bytes rest → 20 + zlen rest < U16 →
  open_frame sender_ip target_ip (hdr_bytes h ++ rest) = frame_outcome sender_ip target_ip h rest.
Proof.
  intros Hs Ht Hh Hr Hl. pose proof (zlen_nonneg rest). unfold open_frame, frame_outcome.
  rewrite zlen_app, zlen_hdr_bytes. destruct (Z.ltb_spec (20 + zlen rest) 20); [lia|].
  rewrite hdr_read_bytes by assumption. cbv zeta.
  set (n := Hdr.header_len_bytes h).
  assert (Hn : 0 ≤ n) by (unfold n, Hdr.header_len_bytes, Hdr.get_offset;
    change 15 with (Z.ones 4); rewrite Z.land_ones by lia; mlia).
  destruct (Z.ltb_spec (20 + zlen rest) n); [reflexivity|].
  rewrite (put_checksum_ret h rest 0 0 0), ret_bind by reflexivity.
  set (f := hdr_bytes (h <| Hdr.checksum := 0 |>) ++ rest).
  assert (Hf : zlen f = 20 + zlen rest) by (unfold f; rewrite zlen_app, zlen_hdr_bytes; reflexivity).
  assert (Hfb : bytes f).
  { apply Forall_app_2; [|assumption]. apply hdr_bytes_bytes. destruct Hh.
    constructor; rsimp; assumption || (ints; lia). }
  rewrite (slice_ret f 0 n), ret_bind, (slice_ret f n), ret_bind by lia.
  rewrite Z.sub_0_r, zdrop_0, (ztake_all (zlen f - n)) by (rewrite zlen_zdrop; lia).
  rewrite checksum_spec; [|assumption|assumption|by apply Forall_take|by apply Forall_drop|].
  2: { rewrite zlen_ztake, zlen_zdrop by lia. lia. }
  unfold ztake at 1, zdrop at 1. rewrite take_drop, ret_bind. unfold f at 2.
  rewrite (put_checksum_ret (h <| Hdr.checksum := 0 |>) rest _ _ (Hdr.checksum h)), ret_bind;
    [|rewrite Z.shiftr_div_pow2 by lia; reflexivity|reflexivity].
  fold f. replace (h <| Hdr.checksum := 0 |> <| Hdr.checksum := Hdr.checksum h |>) with h by (destruct h; reflexivity).
  destruct (negb _); [reflexivity|].
  destruct (Z.ltb_spec n 20).
  - unfold slice. destruct (Z.leb_spec 20 n); [lia|]. reflexivity.
  - rewrite zlen_app, zlen_hdr_bytes. rewrite !slice_ret by (rewrite ?zlen_app, ?zlen_hdr_bytes; lia).
    rewrite !ret_bind, !zdrop_hdr by lia. rewrite (ztake_all (20 + _ - n)); [|rewrite zlen_zdrop; lia].
    rewrite zdrop_0. reflexivity.
Qed.

Lemma segment_accepted socket header options data :
  ip_ok (Sock.local_address socket) → ip_ok (Sock.remote_address socket) →
  hdr_ok header → Hdr.checksum header = 0 →
  bytes options ∧ zlen options ≤ 40 ∧ (4 | zlen options) →
  bytes data ∧ zlen data ≤ Pkt.SLOT_SIZE →
  returns (build_segment socket header options data) (λ seg, ∃ h,
    open_frame (Sock.local_address socket) (Sock.remote_address socket) seg
      = Ret (RxSegment h options data) ∧ sealed socket header options data h).
Proof.
  intros Hl Hr Hh Hc Ho Hd. pose proof (zlen_nonneg options). pose proof (zlen_nonneg data).
  eapply returns_mono; [apply build_segment_spec; auto|].
  destruct Ho as (Hob & Ho40 & _), Hd as [Hdb Hds].
  intros seg (h & -> & Hok & Hseal). exists h. split; [|assumption].
  destruct Hseal as (_ & Hlen & Hsum).
  rewrite open_frame_ret; [|assumption|assumption|assumption|by apply Forall_app_2
    |rewrite zlen_app; unfold Pkt.SLOT_SIZE in *; lia].
  unfold frame_outcome. rewrite Hlen, zlen_app, <- Hsum, Z.eqb_refl.
  destruct (Z.ltb_spec (20 + (zlen options + zlen data)) (20 + zlen options)); [lia|].
  destruct (Z.ltb_spec (20 + zlen options) 20); [lia|]. simpl. do 2 f_equal; rewrite Z.add_simpl_l.
  - unfold ztake, zlen. rewrite Nat2Z.id, take_app_length. reflexivity.
  - unfold zdrop, zlen. rewrite Nat2Z.id, drop_app_length. reflexivity.
Qed.

(** C9: A segment the driver sends is accepted by the receiving side of the
    same driver: for any header, any padded options of at most forty bytes
    and any payload that fits a packet slot, [build_segment] returns bytes
    that [open_frame] - which recomputes the checksum - takes apart into the
    same options, the same payload, and the header with its offset and
    checksum filled in. *)
Theorem sent_segment_is_accepted socket header options data :
  ip_ok (Sock.local_address socket) → ip_ok (Sock.remote_address socket) →
  hdr_ok header → Hdr.checksum header = 0 →
  bytes options → zlen options ≤ 40 → (4 | zlen options) →
  bytes data → zlen data ≤ Pkt.SLOT_SIZE →
  returns (build_segment socket header options data) (λ seg, ∃ h,
    open_frame (Sock.local_address socket) (Sock.remote_address socket) seg
      = Ret (RxSegment h options data) ∧
    h = header <| Hdr.offset_res := Hdr.offset_res h |> <| Hdr.checksum := Hdr.checksum h |> ∧
    Hdr.header_len_bytes h = 20 + zlen options).
Proof.
  intros Hl Hr Hh Hc Ho Ho40 Ho4 Hd Hds.
  eapply returns_mono; [apply segment_accepted; auto|].
  intros seg (h & Hopen & Heq & Hlen & _). exists h. auto.
Qed.

Definition sample_header : Hdr.TcpDatagramHeader :=
  Hdr.mkHdr 49152 80 1000 2000 0 24 64240 0 0.

Lemma sent_segment_is_accepted_witness :
  returns (build_segment sample_socket sample_header [1; 1; 4; 2] [104; 105; 33]) (λ seg, ∃ h,
    open_frame (10, 0, 2, 15) (10, 0, 2, 2) seg = Ret (RxSegment h [1; 1; 4; 2] [104; 105; 33]) ∧
    h = sample_header <| Hdr.offset_res := Hdr.offset_res h |> <| Hdr.checksum := Hdr.checksum h |> ∧
    Hdr.header_len_bytes h = 24).
Proof.
  apply (sent_segment_is_accepted sample_socket sample_header [1; 1; 4; 2] [104; 105; 33]);
    try (repeat constructor; discriminate); try discriminate; try reflexivity.
Defined.

Lemma open_frame_outcome sender_ip target_ip frame h :
  ip_ok sender_ip → ip_ok target_ip → bytes frame → zlen frame < U16 → hdr_read frame = Some h →
  open_frame sender_ip target_ip frame = frame_outcome sender_ip target_ip h (zdrop 20 frame) ∧
  20 ≤ zlen frame.
Proof.
  intros Hs Ht Hb Hl Hh.
  assert (H20 : 20 ≤ zlen frame).
  { clear -Hh. do 20 (destruct frame as [|? frame]; [discriminate|]). unfold zlen. simpl. lia. }
  destruct (frame_split frame Hb H20) as (h' & Hh' & Hok & Hf).
  assert (h' = h) as -> by congruence. split; [|assumption]. rewrite Hf at 1.
  apply open_frame_ret; [assumption..|by apply Forall_drop|rewrite zlen_zdrop; lia].
Qed.

Lemma open_short_offset sender_ip target_ip frame h :
  ip_ok sender_ip → ip_ok target_ip → bytes frame → zlen frame < U16 → hdr_read frame = Some h →
  Hdr.header_len_bytes h < 20 →
  Hdr.checksum h = internet_checksum sender_ip target_ip
    (hdr_bytes (h <| Hdr.checksum := 0 |>) ++ zdrop 20 frame) →
  open_frame sender_ip target_ip frame = Crash Panic.
Proof.
  intros Hs Ht Hb Hl Hh Hn Hc.
  destruct (open_frame_outcome sender_ip target_ip frame h) as [-> Hlen]; try assumption.
  unfold frame_outcome. rewrite <- Hc, Z.eqb_refl, zlen_zdrop by lia.
  destruct (Z.ltb_spec (20 + (zlen frame - 20)) (Hdr.header_len_bytes h)); [lia|].
  destruct (Z.ltb_spec (Hdr.header_len_bytes h) 20); [reflexivity|lia].
Qed.

(** Opening a frame.  A frame with a data offset of five words or more
    never makes the receiver fail: it is refused when it is shorter than its
    header, dropped when the checksum is wrong, and otherwise split exactly
    into the options between byte twenty and the data offset and the rest. *)
Theorem open_frame_total sender_ip target_ip frame h :
  ip_ok sender_ip → ip_ok target_ip → bytes frame → zlen frame < U16 → hdr_read frame = Some h →
  20 ≤ Hdr.header_len_bytes h →
  returns (open_frame sender_ip target_ip frame) (λ o,
    match o with
    | RxErr => zlen frame < Hdr.header_len_bytes h
    | RxBadChecksum => Hdr.checksum h ≠ internet_checksum sender_ip target_ip
                         (hdr_bytes (h <| Hdr.checksum := 0 |>) ++ zdrop 20 frame)
    | RxSegment h' options payload => h' = h ∧ zlen options = Hdr.header_len_bytes h - 20 ∧
        hdr_bytes h ++ options ++ payload = frame
    end).
Proof.
  intros Hs Ht Hb Hl Hh Hn.
  destruct (open_frame_outcome sender_ip target_ip frame h) as [-> Hlen]; try assumption.
  unfold frame_outcome. rewrite zlen_zdrop by lia.
  destruct (Z.ltb_spec (20 + (zlen frame - 20)) (Hdr.header_len_bytes h)); [apply returns_ret; lia|].
  destruct (Z.eqb_spec (internet_checksum sender_ip target_ip
    (hdr_bytes (h <| Hdr.checksum := 0 |>) ++ zdrop 20 frame)) (Hdr.checksum h)) as [|Hne]; simpl;
    [|apply returns_ret; intros E; by apply Hne].
  destruct (Z.ltb_spec (Hdr.header_len_bytes h) 20); [lia|]. apply returns_ret.
  split; [reflexivity|]. split; [rewrite zlen_ztake; [lia|rewrite zlen_zdrop; lia]|].
  destruct (frame_split frame Hb Hlen) as (h' & Hh' & _ & Hf). assert (h' = h) as -> by congruence.
  unfold ztake, zdrop at 2. rewrite take_drop. symmetry. exact Hf.
Qed.

(** What [build_segment] makes of [sample_header] with a SACK-permitted
    option and three bytes. *)
Definition sample_frame : list Z :=
  [192; 0; 0; 80; 0; 0; 3; 232; 0; 0; 7; 208; 96; 24; 250; 240; 50; 79; 0; 0;
   1; 1; 4; 2; 104; 105; 33].

Definition sample_frame_header : Hdr.TcpDatagramHeader :=
  Hdr.mkHdr 49152 80 1000 2000 96 24 64240 12879 0.

Lemma open_frame_total_witness :
  open_frame (10, 0, 2, 15) (10, 0, 2, 2) sample_frame
    = Ret (RxSegment sample_frame_header [1; 1; 4; 2] [104; 105; 33]) ∧
  hdr_bytes sample_frame_header ++ [1; 1; 4; 2] ++ [104; 105; 33] = sample_frame.
Proof.
  assert (E : open_frame (10, 0, 2, 15) (10, 0, 2, 2) sample_frame
    = Ret (RxSegment sample_frame_header [1; 1; 4; 2] [104; 105; 33])) by (vm_compute; reflexivity).
  split; [exact E|].
  destruct (open_frame_total (10, 0, 2, 15) (10, 0, 2, 2) sample_frame sample_frame_header) as (o & E' & H);
    [repeat constructor; discriminate|repeat constructor; discriminate|repeat constructor; discriminate
    |reflexivity|reflexivity|discriminate|].
  rewrite E in E'. injection E' as <-. apply H.
Defined.

(** Twenty bytes, data offset zero, checksum correct. *)
Definition hostile_frame : list Z :=
  [0; 80; 192; 0; 0; 0; 7; 208; 0; 0; 3; 232; 0; 16; 250; 240; 32; 203; 0; 0].
