(* ===== verification/TcpSend.v ===== *)
(** * The sending path

    [driver/send.rs]: immediate acknowledgements, close, the send queue,
    resets.  What the source does while it holds the control block's lock is
    a function on the block that yields the segment to transmit; the driver
    operations lock, run it, unlock and transmit. *)

From S2P Require Import Prelude Time ReceiveBuffer TcpTypes TcpOptions TcpChecksum TcpSack TcpCc TcpTimestamp.
From S2P Require Import TcpPacing TcpEcn NetWorld TcpOutOptions TcpWire.

(** A segment prepared under the lock. *)
Record outgoing := mkOut {
  out_socket : Sock.Socket;
  out_hdr : Hdr.TcpDatagramHeader;
  out_opts : list Z;
  out_data : list Z;
  out_tos : Z
}.

Definition transmit (o : outgoing) : M bool :=
  net_send_tcp_datagram_with_options (out_socket o) (out_hdr o) (out_opts o) (out_data o) (out_tos o).

(** The options and ECN marking every segment of an open connection gets. *)
Definition prepare (now : Instant) (hdr : Hdr.TcpDatagramHeader) (data : list Z)
    (t : TcpControlBlock) : res (outgoing * option Z * TcpControlBlock) :=
  '(opts, tsval, t) ← established_outgoing_options now t;
  let '(tos, hdr, t) := apply_outgoing_ecn t hdr data in
  Ret (mkOut (socket t) hdr opts data tos, tsval, t).

(** [net_send_from_tcb]: the caller holds the lock. *)
Definition net_send_from_tcb (hdr : Hdr.TcpDatagramHeader) (data : list Z) (t : TcpControlBlock)
  : M (option Z * TcpControlBlock) :=
  now ← instant_now;
  '(o, tsval, t) ← lift (prepare now hdr data t);
  transmit o;;
  mret (tsval, t).

(** ** Immediate acknowledgement *)

Definition ack_segment (now : Instant) (t : TcpControlBlock) : res (outgoing * TcpControlBlock) :=
  hdr ← Hdr.hdr_new t;
  '(o, _, t) ← prepare now (Hdr.set_flag ACK true hdr) [] t;
  Ret (o, t).

Definition send_immediate_ack_unlocked (l : loc) : M unit :=
  o ← critical l (λ t, now ← instant_now; lift (ack_segment now t));
  transmit o;;
  mret tt.

(** ** Close *)

(** Queues a FIN and moves to [new_state]. *)
Definition fin_segment (now : clock) (new_state : TcpState) (t : TcpControlBlock)
  : res (option outgoing * TcpControlBlock) :=
  let fin_seq := snd_nxt t in
  fin_hdr ← Hdr.hdr_new t;
  let fin_hdr := Hdr.set_flag ACK true (Hdr.set_flag FIN true fin_hdr) in
  '(o, _, t) ← prepare (now 1%nat) fin_hdr [] t;
  let seg := Seg.fresh fin_seq [] (Z.land (Hdr.flags (out_hdr o)) (not8 CWR)) (now 0%nat) (now 0%nat) in
  Ret (Some o, t <| retransmission_queue := retransmission_queue t ++ [seg] |>
                 <| snd_nxt := wadd (snd_nxt t) 1 |>
                 <| state := new_state |>).

Definition close_segment (now : clock) (t : TcpControlBlock)
  : res (option outgoing * TcpControlBlock) :=
  match state t with
  | Established | SynReceived => fin_segment now FinWait1 t
  | CloseWait => fin_segment now LastAck t
  | _ => Ret (None, t)
  end.

Definition close_connection (l : loc) : M unit :=
  o ← critical l (λ t, now ← readings 2; lift (close_segment now t));
  match o with
  | Some o => transmit o;; mret tt
  | None => mret tt
  end.

(** ** The send queue *)

Inductive send_turn :=
| Halt
| Emit (o : outgoing).

(** Blocked by a window. *)
Definition window_blocked (now : clock) (in_flight : Z) (t : TcpControlBlock) : TcpControlBlock :=
  let t := if (in_flight <? snd_wnd t) && (cwnd t <=? in_flight) then cwv_note_validated t
           else cwv_note_app_limited (now 0%nat) t in
  match persist_timer t with
  | None => t <| persist_timer := Some (instant_add (now 1%nat) (ms 50)) |>
              <| persist_backoff := ms 50 |>
  | Some _ => t
  end.

(** Arms Karn's probe when none is running. *)
Definition arm_rtt_probe (now : Instant) (len : Z) (t : TcpControlBlock) : TcpControlBlock :=
  match Ts.probe (rtt_m t) with
  | None => t <| rtt_m; Ts.probe := Some (Ts.mkProbe (snd_nxt t) (wadd (snd_nxt t) (len mod U32)) now) |>
  | Some _ => t
  end.

(** Schedules the next new-data segment. *)
Definition schedule_pacing (now : Instant) (send_len : Z) (t : TcpControlBlock) : TcpControlBlock :=
  let '(gap, t) := pacing_gap_for t send_len in
  match gap with
  | Some gap => t <| pacing; Pacing.next_tx := Some (instant_add now gap) |>
                  <| pacing; Pacing.paced_count := sat_add U32 (Pacing.paced_count (pacing t)) 1 |>
  | None => t <| pacing := Pacing.clear_deadline (pacing t) |>
  end.

(** Bookkeeping of a segment about to go out: validation state, queue,
    SND.NXT, loss probe and pacing. *)
Definition note_sent (now : clock) (in_flight send_len : Z) (o : outgoing) (t : TcpControlBlock)
  : TcpControlBlock :=
  let t := arm_rtt_probe (now 0%nat) (zlen (out_data o)) t in
  let nxt := snd_nxt t in
  let flight_after := sat_add U32 in_flight (send_len mod U32) in
  let t := t <| cwv; Cwv.pipe_max := Z.max (Cwv.pipe_max (cwv t)) flight_after |>
             <| cwv; Cwv.last_data_tx := now 1%nat |>
             <| cwv; Cwv.app_limited_since := None |> in
  let t := if (cwnd t <=? flight_after) && (cwnd t <=? snd_wnd t) then cwv_note_validated t else t in
  let seg := Seg.fresh nxt (out_data o) (Z.land (Hdr.flags (out_hdr o)) (not8 CWR))
               (now 2%nat) (now 2%nat) in
  let t := t <| retransmission_queue := retransmission_queue t ++ [seg] |>
             <| snd_nxt := wadd (snd_nxt t) (send_len mod U32) |> in
  schedule_pacing (now 4%nat) (send_len mod U32) (tlp_arm (now 3%nat) t).

(** Carves off a segment and queues it. *)
Definition emit_segment (now : clock) (in_flight send_len : Z) (t : TcpControlBlock)
  : res (send_turn * TcpControlBlock) :=
  let data := ztake send_len (send_buffer t) in
  let t := t <| send_buffer := zdrop send_len (send_buffer t) |> in
  hdr ← Hdr.hdr_new t;
  let hdr := Hdr.set_sequence_number (snd_nxt t) (Hdr.set_flag PSH true (Hdr.set_flag ACK true hdr)) in
  '(o, _, t) ← prepare (now 0%nat) hdr data t;
  Ret (Emit o, note_sent (λ i, now (1 + i)%nat) in_flight send_len o t).

(** One round of the loop of [process_send_queue], under the lock. *)
Definition send_step (now : clock) (t : TcpControlBlock) : res (send_turn * TcpControlBlock) :=
  if zlen (send_buffer t) =? 0 then
    let t := cwv_note_app_limited (now 0%nat) t in
    Ret (Halt, t <| pacing := Pacing.clear_deadline (pacing t) |>)
  else
  let '(hold, t) := pacing_should_hold t (now 0%nat) in
  if hold then Ret (Halt, t) else
  let in_flight := wsub (snd_nxt t) (snd_una t) in
  let t := t <| cwv; Cwv.pipe_max := Z.max (Cwv.pipe_max (cwv t)) in_flight |> in
  let mss := effective_mss t in
  let frto_probe := bool_decide (Frto.phase (frto t) = Frto.Step2) in
  if nagle_enabled t && negb frto_probe && (0 <? in_flight) && (zlen (send_buffer t) <? mss) then
    Ret (Halt, cwv_note_app_limited (now 1%nat) t)
  else
  let effective_wnd := Z.min (snd_wnd t) (cwnd t) in
  if (effective_wnd <=? in_flight) || (snd_wnd t =? 0) then
    Ret (Halt, window_blocked (λ i, now (1 + i)%nat) in_flight t)
  else
  let t := t <| persist_timer := None |> in
  let window_remaining := sat_sub effective_wnd in_flight in
  let send_len := Z.min (Z.min (zlen (send_buffer t)) window_remaining) mss in
  if send_len =? 0 then Ret (Halt, t)
  else emit_segment (λ i, now (1 + i)%nat) in_flight send_len t.

(** A bound on the rounds: every round but the last sends a byte. *)
Definition queue_bound : positive := 2 ^ 64.

Definition send_round (l : loc) : M bool :=
  turn ← critical l (λ t, now ← readings 7; lift (send_step now t));
  match turn with
  | Halt => mret false
  | Emit o => transmit o;; mret true
  end.

Definition process_send_queue (l : loc) : M unit := loop_m (send_round l) queue_bound.

(** [send_data]: queues application data and runs the queue. *)
Definition send_data (l : loc) (data : list Z) : M (unit + TcpError) :=
  ok ← critical l (λ t, lift (Ret
         (if bool_decide (state t ≠ Established ∧ state t ≠ CloseWait) then (false, t)
          else (true, t <| send_buffer := send_buffer t ++ data |>))));
  if ok : bool then process_send_queue l;; mret (inl tt) else mret (inr NotConnected).

(** ** Resets *)

Definition send_standalone_rst (tuple : Tuple.ConnectionTuple) (received_hdr : Hdr.TcpDatagramHeader)
    (nic : Z) : M unit :=
  let '(seq, ack, flags) :=
    if Hdr.is_ack received_hdr then (Hdr.ack_number received_hdr, 0, RST)
    else (0, wadd (Hdr.sequence_number received_hdr) 1, Z.lor RST ACK) in
  let socket := {| Sock.remote_port := Tuple.remote_port tuple; Sock.local_port := Tuple.local_port tuple;
                   Sock.remote_address := Tuple.remote_ip tuple;
                   Sock.local_address := Tuple.local_ip tuple; Sock.nic := nic |} in
  let rst_hdr := {| Hdr.source_port := Tuple.local_port tuple; Hdr.dest_port := Tuple.remote_port tuple;
                    Hdr.sequence_number := seq; Hdr.ack_number := ack; Hdr.offset_res := Z.shiftl 5 4;
                    Hdr.flags := flags; Hdr.window_size := 0; Hdr.checksum := 0;
                    Hdr.urgent_pointer := 0 |} in
  net_send_tcp_datagram socket rst_hdr [].

Definition terminate_segment (t : TcpControlBlock)
  : res (option (Sock.Socket * Hdr.TcpDatagramHeader) * TcpControlBlock) :=
  if bool_decide (state t = Closed) then Ret (None, t) else
  hdr ← Hdr.hdr_new t;
  let hdr := Hdr.set_flag ACK true (Hdr.set_flag RST true hdr) in
  Ret (Some (socket t, hdr), t <| state := Closed |> <| event := event_notify (event t) |>).

Definition terminate_all_connections : M unit :=
  w ← get_world;
  each_m (λ l,
    p ← critical l (λ t, lift (terminate_segment t));
    match p with
    | Some (socket, hdr) => net_send_tcp_datagram socket hdr []
    | None => mret tt
    end) (snd <$> map_to_list (connections w)).

(** ** Well-formed control blocks

    The fields the sending path uses are within the widths of the source,
    queued segments fit a packet, and the shifts are below the word size. *)

Record seg_ok (s : Seg.UnackedSegment) : Prop := {
  seg_seq : u32 (Seg.seq s);
  seg_bytes : bytes (Seg.data s);
  seg_size : zlen (Seg.data s) ≤ MSS;
  seg_flags : u8 (Seg.flags s)
}.

Record tcb_ok (t : TcpControlBlock) : Prop := {
  ok_local_port : u16 (Tuple.local_port (tuple t));
  ok_remote_port : u16 (Tuple.remote_port (tuple t));
  ok_local_ip : ip_ok (Sock.local_address (socket t));
  ok_remote_ip : ip_ok (Sock.remote_address (socket t));
  ok_una : u32 (snd_una t);
  ok_nxt : u32 (snd_nxt t);
  ok_rcv_nxt : u32 (rcv_nxt t);
  ok_rcv_wnd : u16 (rcv_wnd t);
  ok_rcv_wscale : 0 ≤ rcv_wscale t < 32;
  ok_snd_wnd : u32 (snd_wnd t);
  ok_cwnd : u32 (cwnd t);
  ok_mss : 1 ≤ effective_mss t ≤ MSS;
  ok_board : board_ok (sack t);
  ok_ts : u32 (Ts.ts_recent (ts t));
  ok_buffer : bytes (send_buffer t);
  ok_segs : Forall seg_ok (retransmission_queue t)
}.

(** The part of the control block that [tcb_ok] and the statements about the
    sending path read; most bookkeeping leaves it alone. *)
Definition tx_view (t : TcpControlBlock) :=
  (tuple t, socket t, (snd_una t, snd_nxt t, rcv_nxt t, rcv_wnd t, rcv_wscale t),
   (snd_wnd t, cwnd t, effective_mss t, state t),
   (Sack.rx_ranges (sack t), Sack.rx_range_len (sack t), Sack.rx_recent (sack t)),
   Ts.ts_recent (ts t), send_buffer t, retransmission_queue t).

Lemma board_ok_ext s s' :
  Sack.rx_ranges s' = Sack.rx_ranges s → Sack.rx_range_len s' = Sack.rx_range_len s →
  Sack.rx_recent s' = Sack.rx_recent s → board_ok s → board_ok s'.
Proof.
  intros H1 H2 H3 []. constructor; unfold live_ranges, recent_ok in *; rewrite ?H1, ?H2, ?H3; assumption.
Qed.

Lemma tcb_ok_view t t' : tx_view t' = tx_view t → tcb_ok t → tcb_ok t'.
Proof.
  unfold tx_view. intros [= E1 E2 E3 E4 E5 E6 E7 E8 E9 E10 E11 E12 E13 E14 E15 E16 E17] [].
  constructor; rewrite ?E1, ?E2, ?E3, ?E4, ?E5, ?E6, ?E7, ?E8, ?E9, ?E10, ?E15, ?E16, ?E17; try assumption.
  by apply (board_ok_ext (sack t)).
Qed.

(** Closes goals that say an update leaves the view alone. *)
Ltac view :=
  repeat match goal with
         | |- context [match ?x with _ => _ end] => destruct x
         end; reflexivity.

Lemma view_validated t : tx_view (cwv_note_validated t) = tx_view t.
Proof. unfold cwv_note_validated. view. Qed.
Lemma view_app_limited now t : tx_view (cwv_note_app_limited now t) = tx_view t.
Proof. unfold cwv_note_app_limited. view. Qed.
Lemma view_hold t now : tx_view (pacing_should_hold t now).2 = tx_view t.
Proof. unfold pacing_should_hold. view. Qed.
Lemma view_blocked now n t : tx_view (window_blocked now n t) = tx_view t.
Proof.
  unfold window_blocked. transitivity (tx_view (if (n <? snd_wnd t) && (cwnd t <=? n) then cwv_note_validated t
           else cwv_note_app_limited (now 0%nat) t)).
  - destruct (persist_timer _); reflexivity.
  - destruct (_ && _); [apply view_validated|apply view_app_limited].
Qed.
Lemma view_probe now n t : tx_view (arm_rtt_probe now n t) = tx_view t.
Proof. unfold arm_rtt_probe. view. Qed.
Lemma view_tlp now t : tx_view (tlp_arm now t) = tx_view t.
Proof. unfold tlp_arm. destruct (_ || _); reflexivity. Qed.
Lemma view_gap t n : tx_view (pacing_gap_for t n).2 = tx_view t.
Proof. unfold pacing_gap_for. destruct (_ || _); [reflexivity|]. destruct (srtt t); reflexivity. Qed.
Lemma view_pacing now n t : tx_view (schedule_pacing now n t) = tx_view t.
Proof.
  unfold schedule_pacing. rewrite <- (view_gap t n). destruct (pacing_gap_for t n) as [[gap|] t']; reflexivity.
Qed.
Lemma view_ecn t h d : tx_view (apply_outgoing_ecn t h d).2 = tx_view t.
Proof.
  unfold apply_outgoing_ecn. destruct (negb _); [reflexivity|].
  destruct (Ecn.echo_pending _ && _), (_ && _); reflexivity.
Qed.
Lemma view_opts t t' : opts_frame t t' → tx_view t' = tx_view t.
Proof.
  intros (H & Hts & Hsack). rewrite H. unfold tx_view. rsimp. rewrite Hts, Hsack. rsimp. reflexivity.
Qed.

Create Rewrite HintDb tx.
#[export] Hint Rewrite view_validated view_app_limited view_hold view_blocked view_probe view_tlp
  view_gap view_pacing view_ecn : tx.

(** ** Prepared segments *)

(** A segment [build_segment] can assemble. *)
Record out_ok (o : outgoing) : Prop := {
  out_local : ip_ok (Sock.local_address (out_socket o));
  out_remote : ip_ok (Sock.remote_address (out_socket o));
  out_header : hdr_ok (out_hdr o);
  out_csum : Hdr.checksum (out_hdr o) = 0;
  out_options : bytes (out_opts o) ∧ zlen (out_opts o) ≤ 40 ∧ (4 | zlen (out_opts o));
  out_payload : bytes (out_data o) ∧ zlen (out_data o) ≤ Pkt.SLOT_SIZE
}.

(** [p] is a packet to the peer that the peer's [open_frame] reads as [o]. *)
Definition carries (o : outgoing) (p : packet) : Prop :=
  pk_dst p = Sock.remote_address (out_socket o) ∧ pk_nic p = Sock.nic (out_socket o) ∧
  pk_tos p = out_tos o ∧
  ∃ h, open_frame (Sock.local_address (out_socket o)) (Sock.remote_address (out_socket o)) (pk_bytes p)
         = Ret (RxSegment h (out_opts o) (out_data o)) ∧
       h = (out_hdr o) <| Hdr.offset_res := Hdr.offset_res h |> <| Hdr.checksum := Hdr.checksum h |>.

Lemma transmit_spec o w : out_ok o →
  ∃ ok p, transmit o w = Ret (ok, w <| wire := wire w ++ [p] |>) ∧ carries o p.
Proof.
  intros []. unfold transmit, net_send_tcp_datagram_with_options.
  destruct (segment_accepted (out_socket o) (out_hdr o) (out_opts o) (out_data o))
    as (seg & Hseg & h & Hopen & Heq & _); try assumption.
  unfold mbind, M_bind, lift. rewrite Hseg. unfold ipv4_send.
  eexists _, _. split; [reflexivity|]. repeat (split; [reflexivity|]). eauto.
Qed.

Lemma hdr_new_spec t : tcb_ok t →
  returns (Hdr.hdr_new t) (λ h, hdr_ok h ∧ Hdr.checksum h = 0 ∧ Hdr.flags h = 0 ∧
    Hdr.sequence_number h = snd_nxt t ∧ Hdr.ack_number h = rcv_nxt t ∧
    Hdr.source_port h = Tuple.local_port (tuple t) ∧ Hdr.dest_port h = Tuple.remote_port (tuple t)).
Proof.
  intros []. unfold Hdr.hdr_new, advertised_rcv_wnd_u16.
  assert (Hw : returns (if wnd_scale_enabled t && (0 <? rcv_wscale t)
      then rassert (rcv_wscale t <? 32);; Ret (Z.min (Z.shiftr (rcv_wnd t) (rcv_wscale t)) 65535)
      else Ret (Z.min (rcv_wnd t) 65535)) u16).
  { destruct (_ && _); [|apply returns_ret; ints; lia].
    destruct (Z.ltb_spec (rcv_wscale t) 32); [|lia]. simpl. apply returns_ret.
    assert (0 ≤ Z.shiftr (rcv_wnd t) (rcv_wscale t)) by (apply Z.shiftr_nonneg; ints; lia). ints. lia. }
  destruct Hw as (w & -> & Hw). rewrite ret_bind. set (h0 := Hdr.mkHdr _ _ _ _ _ _ _ _ _).
  eapply returns_mono; [apply (set_offset_spec h0 5); [vm_compute; split; congruence|lia]|].
  intros h (Hh & Hu & _). split; [constructor; rewrite Hh; rsimp; unfold h0; assumption || (ints; cbn; lia)|].
  rewrite Hh. rsimp. repeat (split; [reflexivity|]). reflexivity.
Qed.

(** Marks never touch the other flags. *)
Definition marked (flags flags' : Z) : Prop :=
  ∃ m, (m = 0 ∨ m = ECE ∨ m = CWR ∨ m = Z.lor ECE CWR) ∧ flags' = Z.lor flags m.

Lemma prepare_spec now hdr data t :
  tcb_ok t → hdr_ok hdr → Hdr.checksum hdr = 0 → bytes data → zlen data ≤ MSS →
  returns (prepare now hdr data t) (λ '(o, tsval, t'),
    tx_view t' = tx_view t ∧ out_ok o ∧ out_socket o = socket t ∧ out_data o = data ∧
    out_hdr o = hdr <| Hdr.flags := Hdr.flags (out_hdr o) |> ∧
    marked (Hdr.flags hdr) (Hdr.flags (out_hdr o))).
Proof.
  intros Ht Hh Hc Hd Hl. pose proof Ht as []. unfold prepare.
  destruct (established_options_spec now t) as ([[opts tsval] t1] & -> & Ho40 & Ho4 & Hob & Hf & _);
    [assumption..|]. rewrite ret_bind.
  pose proof (view_ecn t1 hdr data) as Hv. rewrite (view_opts _ _ Hf) in Hv.
  destruct (apply_outgoing_ecn t1 hdr data) as [[tos hdr'] t'] eqn:E. simpl in Hv.
  destruct (apply_outgoing_ecn_frame _ _ _ _ _ _ E) as (_ & Hhdr & _ & Hu8).
  destruct (apply_outgoing_ecn_flags _ _ _ _ _ _ E) as (m & Hm & Hfl).
  apply returns_ret. assert (Hs : socket t' = socket t) by (unfold tx_view in Hv; congruence).
  split; [assumption|]. split.
  { constructor; cbn [out_socket out_hdr out_opts out_data]; rewrite ?Hs; try assumption.
    - rewrite Hhdr. destruct Hh. constructor; rsimp; auto.
    - rewrite Hhdr. rsimp. assumption.
    - split; [assumption|]. split; [assumption|]. by apply Z.mod_divide.
    - split; [assumption|]. unfold MSS, Pkt.SLOT_SIZE in *. lia. }
  cbn [out_socket out_hdr out_data]. split; [assumption|]. split; [reflexivity|].
  split; [assumption|]. exists m. auto.
Qed.

(** ** A round of the send queue *)

Lemma land_u8 a b : u8 a → u8 (Z.land a b).
Proof.
  intros Ha. assert (E : Z.land a b = Z.land a b mod U8).
  { change U8 with (2 ^ 8). rewrite <- (Z.land_ones _ 8), <- Z.land_assoc, (Z.land_comm b), Z.land_assoc by lia.
    rewrite Z.land_ones by lia. change (2 ^ 8) with U8. rewrite (Z.mod_small a) by apply Ha. reflexivity. }
  rewrite E. mlia.
Qed.

(** Why a round may send nothing. *)
Definition halt_reason (now : Instant) (t : TcpControlBlock) : Prop :=
  let in_flight := wsub (snd_nxt t) (snd_una t) in
  send_buffer t = [] ∨
  (Pacing.enabled (pacing t) = true ∧ ∃ d, Pacing.next_tx (pacing t) = Some d ∧ now < d) ∨
  (nagle_enabled t = true ∧ 0 < in_flight ∧ zlen (send_buffer t) < effective_mss t) ∨
  Z.min (snd_wnd t) (cwnd t) ≤ in_flight.

(** The block after [n] bytes went out as [seg]. *)
Definition after_send (n : Z) (seg : Seg.UnackedSegment) (t : TcpControlBlock) : TcpControlBlock :=
  t <| send_buffer := zdrop n (send_buffer t) |>
    <| retransmission_queue := retransmission_queue t ++ [seg] |>
    <| snd_nxt := wadd (snd_nxt t) n |>.

Record data_segment (t : TcpControlBlock) (n : Z) (o : outgoing) (seg : Seg.UnackedSegment) : Prop := {
  ds_ok : out_ok o;
  ds_socket : out_socket o = socket t;
  ds_data : out_data o = ztake n (send_buffer t);
  ds_seq : Hdr.sequence_number (out_hdr o) = snd_nxt t;
  ds_ack : Hdr.ack_number (out_hdr o) = rcv_nxt t;
  ds_flags : marked (Z.lor ACK PSH) (Hdr.flags (out_hdr o));
  ds_source : Hdr.source_port (out_hdr o) = Tuple.local_port (tuple t);
  ds_dest : Hdr.dest_port (out_hdr o) = Tuple.remote_port (tuple t);
  ds_seg_seq : Seg.seq seg = snd_nxt t;
  ds_seg_data : Seg.data seg = ztake n (send_buffer t);
  ds_seg_flags : Seg.flags seg = Z.lor ACK PSH ∨ Seg.flags seg = Z.lor (Z.lor ACK PSH) ECE;
  ds_seg_new : Seg.retries seg = 0 ∧ Seg.sacked seg = false ∧ Seg.lost seg = false ∧ Seg.retrans seg = false
}.

Lemma tx_view_send n seg t t' :
  tx_view t' = tx_view t → tx_view (after_send n seg t') = tx_view (after_send n seg t).
Proof. unfold tx_view, after_send. rsimp. intros [=]. congruence. Qed.

Lemma note_sent_view now f n o t :
  0 ≤ n < U32 → ∃ seg, Seg.seq seg = snd_nxt t ∧ Seg.data seg = out_data o ∧
    Seg.flags seg = Z.land (Hdr.flags (out_hdr o)) (not8 CWR) ∧
    (Seg.retries seg = 0 ∧ Seg.sacked seg = false ∧ Seg.lost seg = false ∧ Seg.retrans seg = false) ∧
    tx_view (note_sent now f n o t) =
    tx_view (t <| retransmission_queue := retransmission_queue t ++ [seg] |>
               <| snd_nxt := wadd (snd_nxt t) n |>).
Proof.
  intros Hn. unfold note_sent. rewrite (Z.mod_small n) by assumption. cbv zeta.
  set (t1 := arm_rtt_probe _ _ t). assert (H1 : tx_view t1 = tx_view t) by apply view_probe.
  set (t2 := t1 <| cwv; Cwv.pipe_max := _ |> <| cwv; Cwv.last_data_tx := _ |>
                <| cwv; Cwv.app_limited_since := _ |>).
  assert (H2 : tx_view t2 = tx_view t) by (rewrite <- H1; reflexivity). clearbody t2.
  set (t3 := if _ && _ then cwv_note_validated t2 else t2).
  assert (H3 : tx_view t3 = tx_view t) by (rewrite <- H2; unfold t3; destruct (_ && _);
    [apply view_validated|reflexivity]). clearbody t3.
  exists (Seg.fresh (snd_nxt t) (out_data o) (Z.land (Hdr.flags (out_hdr o)) (not8 CWR)) (now 2%nat) (now 2%nat)).
  repeat (split; [reflexivity || (repeat split; reflexivity)|]). rewrite view_pacing, view_tlp.
  unfold tx_view in *. rsimp. injection H1; injection H3; intros. congruence.
Qed.

Lemma marked_flags flags flags' :
  flags = Z.lor ACK PSH → marked flags flags' →
  u8 flags' ∧ (Z.land flags' (not8 CWR) = flags ∨ Z.land flags' (not8 CWR) = Z.lor flags ECE).
Proof. intros -> (m & [-> | [-> | [-> | ->]]] & ->); vm_compute; (split; [split; congruence|auto]). Qed.

Lemma emit_segment_spec now f n t :
  tcb_ok t → 1 ≤ n ≤ MSS → n ≤ zlen (send_buffer t) →
  returns (emit_segment now f n t) (λ '(turn, t'), ∃ o seg,
    turn = Emit o ∧ data_segment t n o seg ∧ tx_view t' = tx_view (after_send n seg t)).
Proof.
  intros Ht Hn Hl. unfold emit_segment. cbv zeta.
  set (t1 := t <| send_buffer := zdrop n (send_buffer t) |>).
  assert (Ht1 : tcb_ok t1).
  { destruct Ht. constructor; unfold t1; rsimp; try assumption. by apply Forall_drop. }
  destruct (hdr_new_spec t1 Ht1) as (h & -> & Hh & Hc & Hf & Hs & Ha & Hsp & Hdp). rewrite ret_bind.
  set (h' := Hdr.set_sequence_number _ _).
  assert (Hfl : Hdr.flags h' = Z.lor ACK PSH)
    by (unfold h', Hdr.set_sequence_number, Hdr.set_flag; rsimp; rewrite Hf; reflexivity).
  assert (Heq : h' = h <| Hdr.sequence_number := snd_nxt t |> <| Hdr.flags := Z.lor ACK PSH |>).
  { rewrite <- Hfl. unfold h', t1. rsimp. destruct h; reflexivity. }
  assert (Hh' : hdr_ok h').
  { rewrite Heq. destruct Hh, Ht. constructor; rsimp; assumption || (vm_compute; split; congruence). }
  destruct (prepare_spec (now 0%nat) h' (ztake n (send_buffer t)) t1)
    as ([[o tsval] t2] & -> & Hv & Hok & Hso & Hd & Hhdr & Hm);
    [assumption|assumption|rewrite Heq; rsimp; assumption|apply Forall_take; apply Ht|rewrite zlen_ztake; lia|].
  rewrite ret_bind. apply returns_ret.
  destruct (note_sent_view (λ i, now (1 + i)%nat) f n o t2) as (seg & Hq1 & Hq2 & Hq3 & Hq4 & Hv');
    [unfold MSS in *; lia|].
  assert (Hn2 : snd_nxt t2 = snd_nxt t ∧ retransmission_queue t2 = retransmission_queue t)
    by (unfold tx_view, t1 in Hv; rsimp_all; split; congruence).
  destruct Hn2 as [Hn2 Hr2]. destruct (marked_flags _ _ Hfl Hm) as [Hu8 Hcw].
  exists o, seg. split; [reflexivity|]. split.
  - assert (Hpr : Hdr.sequence_number (out_hdr o) = snd_nxt t ∧ Hdr.ack_number (out_hdr o) = rcv_nxt t ∧
      Hdr.source_port (out_hdr o) = Tuple.local_port (tuple t) ∧
      Hdr.dest_port (out_hdr o) = Tuple.remote_port (tuple t))
      by (rewrite Hhdr; rewrite Heq; rsimp; auto).
    destruct Hpr as (? & ? & ? & ?). constructor; try assumption; congruence.
  - rewrite Hv'. unfold after_send. unfold tx_view, t1 in *. rsimp_all.
    injection Hv. intros. congruence.
Qed.

Lemma nagle_app_limited now t : nagle_enabled (cwv_note_app_limited now t) = nagle_enabled t.
Proof. unfold cwv_note_app_limited. view. Qed.

Lemma halt_nagle now t t' :
  tx_view t' = tx_view t → nagle_enabled t' = true → 0 < wsub (snd_nxt t) (snd_una t) →
  zlen (send_buffer t) < effective_mss t → halt_reason now t'.
Proof.
  unfold tx_view. intros [=] Hn Hf Hl. right; right; left. split; [assumption|]. split; congruence.
Qed.

Lemma halt_window now t t' :
  tx_view t' = tx_view t → Z.min (snd_wnd t) (cwnd t) ≤ wsub (snd_nxt t) (snd_una t) → halt_reason now t'.
Proof. unfold tx_view. intros [=] Hw. right; right; right. congruence. Qed.

Lemma send_step_spec now t :
  tcb_ok t →
  returns (send_step now t) (λ '(turn, t'),
    match turn with
    | Halt => tx_view t' = tx_view t ∧ halt_reason (now 0%nat) t'
    | Emit o => ∃ n seg, 1 ≤ n ≤ effective_mss t ∧ n ≤ zlen (send_buffer t) ∧
        wsub (snd_nxt t) (snd_una t) + n ≤ Z.min (snd_wnd t) (cwnd t) ∧
        data_segment t n o seg ∧ tx_view t' = tx_view (after_send n seg t)
    end).
Proof.
  intros Ht. pose proof Ht as []. pose proof (zlen_nonneg (send_buffer t)). unfold send_step.
  destruct (Z.eqb_spec (zlen (send_buffer t)) 0) as [E0|E0].
  { apply returns_ret. set (t' := _ <| pacing := _ |>).
    assert (Hv : tx_view t' = tx_view t) by (rewrite <- (view_app_limited (now 0%nat) t); reflexivity).
    split; [exact Hv|left]. apply zlen_zero_inv. unfold tx_view in Hv. congruence. }
  pose proof (view_hold t (now 0%nat)) as Hhold.
  destruct (pacing_should_hold t (now 0%nat)) as [hold t1] eqn:Eh. simpl in Hhold.
  destruct hold.
  { apply returns_ret. split; [assumption|]. right; left. unfold pacing_should_hold in Eh.
    destruct (Pacing.enabled (pacing t)) eqn:Ep; simpl in Eh; [|congruence].
    destruct (bool_decide _); [congruence|].
    destruct (Pacing.next_tx (pacing t)) as [d|] eqn:Ed; [|congruence].
    destruct (Z.ltb_spec (now 0%nat) d); [|congruence]. injection Eh as <-. rsimp. eauto. }
  assert (Et1 : t1 = t).
  { unfold pacing_should_hold in Eh. destruct (_ || _); [congruence|].
    destruct (Pacing.next_tx (pacing t)) as [d|]; [|congruence]. destruct (_ <? _); congruence. }
  subst t1. clear Eh Hhold. cbv zeta. set (in_flight := wsub (snd_nxt t) (snd_una t)).
  set (t1 := t <| cwv; Cwv.pipe_max := _ |>).
  assert (H1 : tx_view t1 = tx_view t) by reflexivity.
  change (nagle_enabled t1) with (nagle_enabled t). change (send_buffer t1) with (send_buffer t).
  change (effective_mss t1) with (effective_mss t). change (snd_wnd t1) with (snd_wnd t).
  change (cwnd t1) with (cwnd t). change (Frto.phase (frto t1)) with (Frto.phase (frto t)).
  destruct (nagle_enabled t && negb (bool_decide (Frto.phase (frto t) = Frto.Step2)) && (0 <? in_flight) &&
     (zlen (send_buffer t) <? effective_mss t)) eqn:En.
  { apply returns_ret. rewrite !andb_true_iff in En. destruct En as [[[En _] Hf] Hl].
    assert (Hv : tx_view (cwv_note_app_limited (now 1%nat) t1) = tx_view t) by (rewrite view_app_limited; exact H1).
    split; [exact Hv|]. apply (halt_nagle _ t); [exact Hv| |lia|lia].
    rewrite nagle_app_limited. exact En. }
  destruct ((Z.min (snd_wnd t) (cwnd t) <=? in_flight) || (snd_wnd t =? 0)) eqn:Ew.
  { apply returns_ret. split; [rewrite view_blocked; assumption|].
    apply (halt_window _ t); [rewrite view_blocked; assumption|]. fold in_flight.
    pose proof (wsub_u32 (snd_nxt t) (snd_una t)). fold in_flight in H0. ints. lia. }
  set (t2 := t1 <| persist_timer := None |>). change (send_buffer t2) with (send_buffer t).
  set (n := Z.min (Z.min (zlen (send_buffer t)) (sat_sub (Z.min (snd_wnd t) (cwnd t)) in_flight)) (effective_mss t)).
  assert (Hn : 1 ≤ n ≤ effective_mss t ∧ n ≤ zlen (send_buffer t) ∧ in_flight + n ≤ Z.min (snd_wnd t) (cwnd t))
    by (unfold n, sat_sub; lia).
  destruct (Z.eqb_spec n 0); [lia|].
  assert (Ht2 : tcb_ok t2) by (apply (tcb_ok_view t); [reflexivity|assumption]).
  destruct (emit_segment_spec (λ i, now (1 + i)%nat) in_flight n t2) as ([turn t'] & -> & o & seg & -> & Hds & Hv);
    [assumption|unfold MSS in *; lia|change (send_buffer t2) with (send_buffer t); lia|].
  apply returns_ret. exists n, seg. split; [lia|]. split; [lia|]. split; [lia|].
  split; [destruct Hds; constructor; assumption|]. rewrite Hv. apply tx_view_send. reflexivity.
Qed.

(** ** The whole queue *)

(** [chunks] went out from sequence number [seq] on: one queued segment and
    one packet for each, to the peer of [t]. *)
Fixpoint sent_run (t : TcpControlBlock) (seq : Z) (chunks : list (list Z))
    (segs : list Seg.UnackedSegment) (ps : list packet) : Prop :=
  match chunks, segs, ps with
  | [], [], [] => True
  | c :: chunks, s :: segs, p :: ps =>
      Seg.seq s = seq ∧ Seg.data s = c ∧ seg_ok s ∧ Seg.end_seq s = wadd seq (zlen c) ∧
      (∃ o, carries o p ∧ out_socket o = socket t ∧ out_data o = c ∧
            Hdr.sequence_number (out_hdr o) = seq ∧ Hdr.ack_number (out_hdr o) = rcv_nxt t ∧
            marked (Z.lor ACK PSH) (Hdr.flags (out_hdr o))) ∧
      sent_run t (wadd seq (zlen c)) chunks segs ps
  | _, _, _ => False
  end.

Lemma sent_run_snoc t seq chunks segs ps c s p :
  u32 seq → sent_run t seq chunks segs ps →
  sent_run t (wadd seq (zlen (concat chunks))) [c] [s] [p] →
  sent_run t seq (chunks ++ [c]) (segs ++ [s]) (ps ++ [p]).
Proof.
  revert seq segs ps. induction chunks as [|c0 chunks IH]; intros seq segs ps Hu; destruct segs, ps; try done.
  - simpl. rewrite wadd_0 by assumption. auto.
  - intros (? & ? & ? & ? & ? & Hrun) Hlast. cbn [app sent_run]. repeat (split; [assumption|]).
    apply IH; [apply wadd_u32|assumption|]. rewrite wadd_assoc. simpl concat in Hlast.
    rewrite zlen_app in Hlast. assumption.
Qed.

(** What [process_send_queue] has done to the block when [chunks] are out. *)
Record drained (t t' : TcpControlBlock) (chunks : list (list Z)) (segs : list Seg.UnackedSegment)
    (ps : list packet) : Prop := {
  dr_ok : tcb_ok t';
  dr_buffer : send_buffer t = concat chunks ++ send_buffer t';
  dr_sizes : Forall (λ c, 1 ≤ zlen c ≤ effective_mss t) chunks;
  dr_queue : retransmission_queue t' = retransmission_queue t ++ segs;
  dr_nxt : snd_nxt t' = wadd (snd_nxt t) (zlen (concat chunks));
  dr_run : sent_run t (snd_nxt t) chunks segs ps;
  dr_flight : chunks = [] ∨ wsub (snd_nxt t') (snd_una t') ≤ Z.min (snd_wnd t) (cwnd t);
  dr_same : (tuple t', socket t', snd_una t', rcv_nxt t', snd_wnd t', cwnd t', effective_mss t', state t') =
            (tuple t, socket t, snd_una t, rcv_nxt t, snd_wnd t, cwnd t, effective_mss t, state t)
}.

Lemma drained_view t t' t'' chunks segs ps :
  drained t t' chunks segs ps → tx_view t'' = tx_view t' → drained t t'' chunks segs ps.
Proof.
  intros [] Hv. pose proof (tcb_ok_view _ _ Hv dr_ok0). unfold tx_view in Hv.
  injection Hv; intros. constructor; congruence.
Qed.

Lemma data_segment_ok t n o seg : tcb_ok t → 1 ≤ n ≤ effective_mss t → n ≤ zlen (send_buffer t) →
  data_segment t n o seg → seg_ok seg ∧ Seg.end_seq seg = wadd (snd_nxt t) n.
Proof.
  intros [] Hn Hl [].
  assert (Hz : zlen (Seg.data seg) = n) by (rewrite ds_seg_data0; apply zlen_ztake; lia). split.
  - constructor; rewrite ?ds_seg_seq0, ?Hz; try assumption; try lia.
    + rewrite ds_seg_data0. by apply Forall_take.
    + destruct ds_seg_flags0 as [-> | ->]; vm_compute; split; congruence.
  - unfold Seg.end_seq, Seg.is_syn, Seg.is_fin. rewrite Hz, ds_seg_seq0.
    unfold MSS in *. rewrite Z.mod_small by lia.
    destruct ds_seg_flags0 as [-> | ->]; reflexivity.
Qed.

Lemma drained_send t t1 t2 chunks segs ps n o seg p :
  tcb_ok t → drained t t1 chunks segs ps → 1 ≤ n ≤ effective_mss t1 → n ≤ zlen (send_buffer t1) →
  wsub (snd_nxt t1) (snd_una t1) + n ≤ Z.min (snd_wnd t1) (cwnd t1) →
  data_segment t1 n o seg → carries o p → tx_view t2 = tx_view (after_send n seg t1) →
  drained t t2 (chunks ++ [ztake n (send_buffer t1)]) (segs ++ [seg]) (ps ++ [p]).
Proof.
  intros Ht [] Hn Hl Hfl Hds Hp Hv. destruct (data_segment_ok _ _ _ _ dr_ok0 Hn Hl Hds) as [Hsok Hend].
  assert (Hz : zlen (ztake n (send_buffer t1)) = n) by (apply zlen_ztake; lia).
  injection dr_same0 as S1 S2 S3 S4 S5 S6 S7 S8.
  assert (Hok2 : tcb_ok (after_send n seg t1)).
  { destruct dr_ok0. constructor; unfold after_send; rsimp; try assumption.
    - apply wadd_u32.
    - by apply Forall_drop.
    - apply Forall_app_2; [assumption|]. by apply Forall_singleton. }
  apply (drained_view _ (after_send n seg t1)); [|assumption].
  assert (Hcat : concat (chunks ++ [ztake n (send_buffer t1)]) = concat chunks ++ ztake n (send_buffer t1))
    by (rewrite concat_app; simpl; rewrite app_nil_r; reflexivity).
  constructor; try assumption; unfold after_send; rsimp.
  - rewrite Hcat, dr_buffer0, <- app_assoc. f_equal. unfold ztake, zdrop. symmetry. apply take_drop.
  - apply Forall_app_2; [assumption|]. apply Forall_singleton. rewrite Hz. lia.
  - rewrite dr_queue0, app_assoc. reflexivity.
  - rewrite Hcat, zlen_app, Hz, dr_nxt0, wadd_assoc. reflexivity.
  - apply sent_run_snoc; [apply Ht|assumption|]. rewrite <- dr_nxt0. cbn [sent_run]. rewrite Hz.
    destruct Hds. repeat (split; [assumption|]). split; [|exact I].
    exists o. repeat (split; [congruence|]). assumption.
  - right. destruct dr_ok0. replace (wsub (wadd (snd_nxt t1) n) (snd_una t1)) with (wsub (snd_nxt t1) (snd_una t1) + n);
      [lia|]. unfold wsub, wadd in *. ints. mlia.
  - congruence.
Qed.

(** Everything but one cell, the clock index and the wire is untouched. *)
Definition world_same (l : loc) (w w' : world) : Prop :=
  connections w' = connections w ∧ socket_table w' = socket_table w ∧ ifaces w' = ifaces w ∧ next_loc w' = next_loc w ∧ clk w' = clk w ∧ rng w' = rng w ∧
  rng_idx w' = rng_idx w ∧ link w' = link w ∧ ∀ l', l' ≠ l → heap w' !! l' = heap w !! l'.

Lemma world_same_trans l w1 w2 w3 : world_same l w1 w2 → world_same l w2 w3 → world_same l w1 w3.
Proof.
  intros (?&?&?&?&?&?&?&?&Hh1) (?&?&?&?&?&?&?&?&Hh2). repeat (split; [congruence|]).
  intros l' Hne. rewrite Hh2, Hh1 by assumption. reflexivity.
Qed.

Lemma send_round_spec l w t :
  heap w !! l = Some (mkCell false t) → tcb_ok t →
  returns (send_round l w) (λ '(again, w'), ∃ t',
    heap w' !! l = Some (mkCell false t') ∧ world_same l w w' ∧
    if again : bool then ∃ n o seg p, 1 ≤ n ≤ effective_mss t ∧ n ≤ zlen (send_buffer t) ∧
        wsub (snd_nxt t) (snd_una t) + n ≤ Z.min (snd_wnd t) (cwnd t) ∧
        data_segment t n o seg ∧ carries o p ∧ tx_view t' = tx_view (after_send n seg t) ∧
        wire w' = wire w ++ [p]
    else tx_view t' = tx_view t ∧ wire w' = wire w ∧ ∃ now, halt_reason now t').
Proof.
  intros Hl Ht. destruct (send_step_spec (λ i, clk w (clk_idx w + i)%nat) t Ht) as ([turn t'] & Hs & Hturn).
  pose proof (critical_timed l 7 send_step w t turn t' Hl Hs) as Hc.
  unfold send_round, mbind at 1, M_bind at 1. rewrite Hc. clear Hc.
  set (w1 := w <| clk_idx := _ |> <| heap := _ |>).
  assert (Hw1 : heap w1 !! l = Some (mkCell false t')) by (unfold w1; rsimp; apply lookup_insert_eq).
  assert (Hsame : world_same l w w1).
  { unfold w1. repeat (split; [reflexivity|]). intros l' Hne. rsimp. by apply lookup_insert_ne. }
  destruct turn as [|o].
  - apply returns_ret. exists t'. destruct Hturn as [Hv Hr]. eauto 10.
  - destruct Hturn as (n & seg & Hn & Hl' & Hf & Hds & Hv).
    destruct (transmit_spec o w1) as (ok & p & Htr & Hp); [apply Hds|].
    unfold mbind, M_bind. rewrite Htr. apply returns_ret. exists t'. rsimp.
    split; [assumption|]. split; [|exists n, o, seg, p; auto 10].
    eapply world_same_trans; [exact Hsame|]. repeat (split; [reflexivity|]). reflexivity.
Qed.

(** C2: The send queue.  On a well-formed connection [process_send_queue]
    terminates without a fault.  It sends a prefix of the send buffer, cut in
    order into segments of one byte to the effective MSS; the segments carry
    consecutive sequence numbers from SND.NXT, each is queued for
    retransmission and each packet is one that the peer opens to exactly that
    header and payload.  SND.NXT advances by what was sent, the flight stays
    within the send and congestion windows, and the rest of the buffer stays
    because it is empty or held back by pacing, Nagle's rule or a window. *)
Theorem send_queue_sends_prefix l w t :
  heap w !! l = Some (mkCell false t) → tcb_ok t → zlen (send_buffer t) < 2 ^ 63 →
  returns (process_send_queue l w) (λ '(_, w'), ∃ t' chunks segs ps,
    heap w' !! l = Some (mkCell false t') ∧ world_same l w w' ∧ wire w' = wire w ++ ps ∧
    drained t t' chunks segs ps ∧ ∃ now, halt_reason now t').
Proof.
  intros Hl Ht Hlen. unfold process_send_queue, loop_m.
  set (block w := match heap w !! l with Some c => content c | None => t end).
  apply (while_loop_total _ (λ w1, ∃ t1 chunks segs ps, heap w1 !! l = Some (mkCell false t1) ∧
      world_same l w w1 ∧ wire w1 = wire w ++ ps ∧ drained t t1 chunks segs ps)
    (λ w1, zlen (send_buffer (block w1)))).
  - intros w1 (t1 & chunks & segs & ps & Hl1 & Hs1 & Hw1 & Hd) _.
    destruct (send_round_spec l w1 t1 Hl1 (dr_ok _ _ _ _ _ Hd)) as ([again w2] & -> & t2 & Hl2 & Hs2 & Hagain).
    rewrite ret_bind. apply returns_ret. pose proof (world_same_trans _ _ _ _ Hs1 Hs2) as Hs.
    destruct again.
    + destruct Hagain as (n & o & seg & p & Hn & Hnl & Hf & Hds & Hp & Hv & Hw2). split.
      * exists t2, (chunks ++ [ztake n (send_buffer t1)]), (segs ++ [seg]), (ps ++ [p]).
        split; [assumption|]. split; [assumption|].
        split; [rewrite Hw2, Hw1, <- app_assoc; reflexivity|].
        by apply (drained_send _ t1 _ _ _ _ n o).
      * unfold block. rewrite Hl1, Hl2. cbn [content].
        assert (Hb : send_buffer t2 = zdrop n (send_buffer t1))
          by (unfold tx_view, after_send in Hv; rsimp_all; congruence).
        rewrite Hb, zlen_zdrop by lia. lia.
    + destruct Hagain as (Hv & Hw2 & Hr). exists t2, chunks, segs, ps.
      split; [assumption|]. split; [assumption|]. split; [congruence|].
      split; [|assumption]. by apply (drained_view _ t1).
  - exists t, [], [], []. split; [assumption|]. split; [repeat (split; [reflexivity|]); reflexivity|].
    split; [rewrite app_nil_r; reflexivity|].
    constructor; simpl; auto; [rewrite app_nil_r; reflexivity|rewrite wadd_0; [reflexivity|apply Ht]].
  - unfold block. rewrite Hl. cbn [content]. pose proof (zlen_nonneg (send_buffer t)).
    change (Z.pos queue_bound) with (2 ^ 64). lia.
Qed.

(** An open connection with data to send. *)
Definition sample_tx : TcpControlBlock :=
  sample_tcb <| state := Established |> <| snd_una := 1001 |> <| snd_nxt := 1001 |>
    <| rcv_nxt := 5001 |> <| snd_wnd := 8192 |> <| send_buffer := [72; 101; 108; 108; 111] |>.

Definition sample_world (t : TcpControlBlock) : world :=
  mkWorld {[ 1%positive := mkCell false t ]} 2 {[ tuple t := 1%positive ]}
    Skt.table_new {[ 1 := Some (10, 0, 2, 15) ]} (λ i, Z.of_nat i * 1000) 0 (λ _, None) 0 (λ _, true) [].

Lemma sample_tx_ok : tcb_ok sample_tx.
Proof.
  constructor; try (vm_compute; split; congruence); try (repeat constructor; vm_compute; congruence).
Qed.

Lemma send_queue_sends_prefix_witness :
  returns (process_send_queue 1%positive (sample_world sample_tx)) (λ '(_, w'), ∃ t' chunks segs ps,
    heap w' !! 1%positive = Some (mkCell false t') ∧ world_same 1%positive (sample_world sample_tx) w' ∧
    wire w' = [] ++ ps ∧ drained sample_tx t' chunks segs ps ∧ ∃ now, halt_reason now t').
Proof.
  apply (send_queue_sends_prefix 1%positive (sample_world sample_tx) sample_tx);
    [reflexivity|apply sample_tx_ok|vm_compute; reflexivity].
Defined.

(** ** Acknowledgements, close and resets *)

Lemma ack_segment_spec now t : tcb_ok t →
  returns (ack_segment now t) (λ '(o, t'), tx_view t' = tx_view t ∧ out_ok o ∧
    out_socket o = socket t ∧ out_data o = [] ∧ Hdr.sequence_number (out_hdr o) = snd_nxt t ∧
    Hdr.ack_number (out_hdr o) = rcv_nxt t ∧ marked ACK (Hdr.flags (out_hdr o))).
Proof.
  intros Ht. unfold ack_segment.
  destruct (hdr_new_spec t Ht) as (h & -> & Hh & Hc & Hf & Hs & Ha & _). rewrite ret_bind.
  set (h' := Hdr.set_flag ACK true h).
  assert (Heq : h' = h <| Hdr.flags := ACK |>) by (unfold h', Hdr.set_flag; rewrite Hf; reflexivity).
  destruct (prepare_spec now h' [] t) as ([[o v] t'] & -> & Hv & Hok & Hso & Hd & Hhdr & Hm);
    [assumption|rewrite Heq; destruct Hh; constructor; rsimp; assumption || (vm_compute; split; congruence)
    |rewrite Heq; exact Hc|constructor|vm_compute; congruence|].
  rewrite ret_bind. apply returns_ret. rewrite Heq in *. repeat (split; [assumption|]).
  split; [rewrite Hhdr; exact Hs|]. split; [rewrite Hhdr; exact Ha|exact Hm].
Qed.

(** Where [close] leads. *)
Definition close_state (s : TcpState) : option TcpState :=
  match s with
  | Established | SynReceived => Some FinWait1
  | CloseWait => Some LastAck
  | _ => None
  end.

(** [t'] is [t] with a FIN queued, in state [s]. *)
Definition fin_queued (t : TcpControlBlock) (s : TcpState) (o : outgoing) (t' : TcpControlBlock) : Prop :=
  out_ok o ∧ out_socket o = socket t ∧ out_data o = [] ∧
  Hdr.sequence_number (out_hdr o) = snd_nxt t ∧ Hdr.ack_number (out_hdr o) = rcv_nxt t ∧
  marked (Z.lor FIN ACK) (Hdr.flags (out_hdr o)) ∧
  ∃ seg, Seg.seq seg = snd_nxt t ∧ Seg.data seg = [] ∧ Seg.is_fin seg = true ∧ seg_ok seg ∧
         Seg.end_seq seg = wadd (snd_nxt t) 1 ∧
         tx_view t' = tx_view (t <| retransmission_queue := retransmission_queue t ++ [seg] |>
                                 <| snd_nxt := wadd (snd_nxt t) 1 |> <| state := s |>).

Lemma fin_segment_spec now s t : tcb_ok t →
  returns (fin_segment now s t) (λ '(o, t'), ∃ o', o = Some o' ∧ fin_queued t s o' t').
Proof.
  intros Ht. unfold fin_segment.
  destruct (hdr_new_spec t Ht) as (h & -> & Hh & Hc & Hf & Hs & Ha & _). rewrite ret_bind. cbv zeta.
  set (h' := Hdr.set_flag ACK true _).
  assert (Heq : h' = h <| Hdr.flags := Z.lor FIN ACK |>)
    by (unfold h', Hdr.set_flag; rsimp; rewrite Hf; destruct h; reflexivity).
  destruct (prepare_spec (now 1%nat) h' [] t) as ([[o v] t'] & -> & Hv & Hok & Hso & Hd & Hhdr & Hm);
    [assumption|rewrite Heq; destruct Hh; constructor; rsimp; assumption || (vm_compute; split; congruence)
    |rewrite Heq; exact Hc|constructor|vm_compute; congruence|].
  rewrite ret_bind. apply returns_ret. rewrite Heq in Hhdr, Hm.
  assert (Hm' : marked (Z.lor FIN ACK) (Hdr.flags (out_hdr o))) by exact Hm. clear Hm.
  exists o. split; [reflexivity|]. repeat (split; [assumption|]).
  split; [rewrite Hhdr; exact Hs|]. split; [rewrite Hhdr; exact Ha|]. split; [exact Hm'|].
  set (seg := Seg.fresh _ _ _ _ _). exists seg.
  assert (Hfl : Seg.flags seg = Z.lor FIN ACK ∨ Seg.flags seg = Z.lor (Z.lor FIN ACK) ECE).
  { destruct Hm' as (m & [-> | [-> | [-> | ->]]] & Hm); unfold seg; simpl; rewrite Hm; vm_compute; auto. }
  assert (Hfin : Seg.is_fin seg = true) by (unfold Seg.is_fin; destruct Hfl as [-> | ->]; reflexivity).
  repeat (split; [reflexivity || exact Hfin|]). split.
  { constructor; [apply Ht|constructor|vm_compute; congruence|].
    destruct Hfl as [-> | ->]; vm_compute; split; congruence. }
  split; [unfold Seg.end_seq; rewrite Hfin, orb_true_r; reflexivity|].
  unfold tx_view in *. rsimp. injection Hv; intros. congruence.
Qed.

Lemma fin_queued_ok t s o t' : tcb_ok t → fin_queued t s o t' → tcb_ok t'.
Proof.
  intros [] (_ & _ & _ & _ & _ & _ & seg & _ & _ & _ & Hseg & _ & Hv).
  eapply tcb_ok_view; [exact Hv|]. constructor; rsimp; try assumption; [apply wadd_u32|].
  apply Forall_app_2; [assumption|]. by apply Forall_singleton.
Qed.

(** Close.  On a well-formed connection [close] in ESTABLISHED or
    SYN-RECEIVED leads to FIN-WAIT-1 and in CLOSE-WAIT to LAST-ACK, with a
    FIN|ACK at SND.NXT sent and queued, and SND.NXT past it; in any other
    state nothing happens.  The block stays well formed. *)
Theorem close_queues_fin now t :
  tcb_ok t →
  returns (close_segment now t) (λ '(o, t'), tcb_ok t' ∧
    match close_state (state t) with
    | Some s => ∃ o', o = Some o' ∧ fin_queued t s o' t'
    | None => o = None ∧ t' = t
    end).
Proof.
  intros Ht. unfold close_segment, close_state.
  assert (Hgo : ∀ s, returns (fin_segment now s t) (λ '(o, t'), tcb_ok t' ∧
      ∃ o', o = Some o' ∧ fin_queued t s o' t')).
  { intros s. eapply returns_mono; [apply fin_segment_spec; assumption|].
    intros [o t'] (o' & -> & Hq). split; [by eapply fin_queued_ok|eauto]. }
  destruct (state t); try apply Hgo; apply returns_ret; auto.
Qed.

Lemma close_queues_fin_witness :
  returns (close_segment (λ _, 5) sample_tx) (λ '(o, t'), tcb_ok t' ∧
    ∃ o', o = Some o' ∧ fin_queued sample_tx FinWait1 o' t').
Proof. apply (close_queues_fin (λ _, 5) sample_tx sample_tx_ok). Defined.

(** The FIN overtakes buffered data.  [close] takes the FIN's sequence
    number from SND.NXT whatever the send buffer holds, and the send queue
    does not look at the state: the next bytes of the buffer leave with the
    sequence number after the FIN, where a peer discards them. *)
Theorem fin_overtakes_buffered_data now now' t f t1 o t2 :
  tcb_ok t → state t = Established →
  close_segment now t = Ret (Some f, t1) → send_step now' t1 = Ret (Emit o, t2) →
  Hdr.sequence_number (out_hdr f) = snd_nxt t ∧ Hdr.is_fin (out_hdr f) = true ∧
  Hdr.sequence_number (out_hdr o) = wadd (Hdr.sequence_number (out_hdr f)) 1 ∧
  ∃ n, 0 < n ∧ out_data o = ztake n (send_buffer t).
Proof.
  intros Ht Hst Hc Hsend. unfold close_segment in Hc. rewrite Hst in Hc.
  destruct (fin_segment_spec now FinWait1 t Ht) as ([o0 t'] & E & f' & -> & Hq).
  rewrite E in Hc. injection Hc as -> ->. pose proof (fin_queued_ok _ _ _ _ Ht Hq) as Ht1.
  destruct Hq as (_ & _ & _ & Hseq & _ & Hm & seg & _ & _ & _ & _ & _ & Hv).
  destruct (send_step_spec now' t1 Ht1) as ([turn t2'] & E2 & Hturn). rewrite E2 in Hsend.
  injection Hsend as -> ->. destruct Hturn as (n & seg2 & Hn & _ & _ & [] & _).
  assert (Hf : snd_nxt t1 = wadd (snd_nxt t) 1 ∧ send_buffer t1 = send_buffer t)
    by (unfold tx_view in Hv; rsimp_all; split; congruence).
  destruct Hf as [Hf1 Hf2]. split; [assumption|]. split.
  { unfold Hdr.is_fin, Hdr.get_flag. destruct Hm as (m & [-> | [-> | [-> | ->]]] & ->); reflexivity. }
  split; [congruence|]. exists n. split; [lia|congruence].
Qed.

Definition sample_closed : TcpControlBlock :=
  match close_segment (λ _, 5) sample_tx with Ret (_, t) => t <| nagle_enabled := false |> | _ => sample_tx end.

Lemma fin_overtakes_buffered_data_witness :
  ∃ f o t2, close_segment (λ _, 5) (sample_tx <| nagle_enabled := false |>) = Ret (Some f, sample_closed) ∧
    send_step (λ _, 9) sample_closed = Ret (Emit o, t2) ∧
    Hdr.sequence_number (out_hdr f) = 1001 ∧ Hdr.sequence_number (out_hdr o) = 1002 ∧
    ∃ n, 0 < n ∧ out_data o = ztake n [72; 101; 108; 108; 111].
Proof.
  destruct (close_segment (λ _, 5) (sample_tx <| nagle_enabled := false |>)) as [[[f|] t1]|] eqn:E1;
    try (vm_compute in E1; discriminate).
  destruct (send_step (λ _, 9) sample_closed) as [[[|o] t2]|] eqn:E2; try (vm_compute in E2; discriminate).
  assert (Et : t1 = sample_closed) by (vm_compute in E1; injection E1 as <- <-; vm_compute; reflexivity).
  exists f, o, t2. rewrite Et in *.
  assert (Hok : tcb_ok (sample_tx <| nagle_enabled := false |>))
    by (apply (tcb_ok_view sample_tx); [reflexivity|apply sample_tx_ok]).
  destruct (fin_overtakes_buffered_data _ _ _ _ _ _ _ Hok eq_refl E1 E2) as (Hs & _ & Ho & Hd).
  split; [reflexivity|]. split; [reflexivity|]. split; [exact Hs|].
  split; [rewrite Ho, Hs; reflexivity|exact Hd].
Defined.
