(* ===== verification/TcpRetransmit.v ===== *)
(** * Retransmission

    [driver/retransmit.rs], with the tail loss probe of [sack.rs]: which
    segment is sent again, what is recorded about it, and which segments an
    acknowledgement removes from the queue. *)

From S2P Require Import Prelude Time ReceiveBuffer TcpTypes TcpOptions TcpChecksum TcpSack TcpCc TcpTimestamp.
From S2P Require Import TcpPacing TcpEcn NetWorld TcpOutOptions TcpWire TcpSend.

(** [position]: the index of the first element that satisfies the test. *)
Fixpoint position {A} (f : A → bool) (l : list A) : option nat :=
  match l with
  | [] => None
  | x :: l => if f x then Some 0%nat else S <$> position f l
  end.

(** A segment the cumulative acknowledgement [ack] does not cover. *)
Definition uncovered (ack : Z) (s : Seg.UnackedSegment) : bool := sdiff ack (Seg.end_seq s) <? 0.

Definition pick_segment (partial_ack : option Z) (t : TcpControlBlock) : option nat :=
  if Sack.enabled (sack t) then
    match position (λ s, Seg.lost s && negb (Seg.sacked s)) (retransmission_queue t) with
    | Some i => Some i
    | None => position (λ s, negb (Seg.sacked s)) (retransmission_queue t)
    end
  else
    match partial_ack with
    | Some ack => position (uncovered ack) (retransmission_queue t)
    | None => if zlen (retransmission_queue t) =? 0 then None else Some 0%nat
    end.

(** [if let Some(seg) = queue.get_mut(i) { ... }]. *)
Definition modify_seg (i : nat) (f : Seg.UnackedSegment → Seg.UnackedSegment) (t : TcpControlBlock)
  : TcpControlBlock :=
  t <| retransmission_queue := alter f i (retransmission_queue t) |>.

(** The header of a copy of [seg]. *)
Definition copy_header (seg : Seg.UnackedSegment) (t : TcpControlBlock) : res Hdr.TcpDatagramHeader :=
  hdr ← Hdr.hdr_new t;
  Ret (Hdr.set_sequence_number (Seg.seq seg) (Hdr.set_flags (Z.land (Seg.flags seg) (not8 CWR)) hdr)).

Definition retransmit_segment (now : clock) (cause : Eifel.RetransmitCause) (partial_ack : option Z)
    (t : TcpControlBlock) : res (option outgoing * TcpControlBlock) :=
  match pick_segment partial_ack t with
  | None => Ret (None, t)
  | Some seg_idx =>
      '(opts, tsval, t) ← established_outgoing_options (now 0%nat) t;
      let t :=
        if bool_decide (cause = Eifel.Rto) then
          match Ts.enabled (ts t), tsval with
          | true, Some timestamp =>
              modify_seg seg_idx (λ s, s <| Seg.retransmit_tsval := Some timestamp |>)
                (t <| eifel; Eifel.retransmit_ts := Some timestamp |>)
          | _, _ => t
          end
        else t in
      let t := modify_seg seg_idx (λ s, s <| Seg.xmit_mstamp := now 1%nat |> <| Seg.retrans := true |>
                                          <| Seg.lost := false |>) t in
      let t := if Sack.enabled (sack t)
               then t <| sack; Sack.rexmit_holes := sat_add U32 (Sack.rexmit_holes (sack t)) 1 |> else t in
      seg ← index (retransmission_queue t) (Z.of_nat seg_idx);
      hdr ← copy_header seg t;
      let '(tos, hdr, t) := apply_outgoing_ecn t hdr (Seg.data seg) in
      Ret (Some (mkOut (socket t) hdr opts (Seg.data seg) tos), t)
  end.

Definition retransmit_matching_unlocked (l : loc) (cause : Eifel.RetransmitCause)
    (partial_ack : option Z) : M unit :=
  o ← critical l (λ t, now ← readings 2; lift (retransmit_segment now cause partial_ack t));
  match o with
  | Some o => transmit o;; mret tt
  | None => mret tt
  end.

Definition retransmit_first_partial_ack (l : loc) (ack : Z) : M unit :=
  retransmit_matching_unlocked l Eifel.PartialAck (Some ack).

Definition retransmit_front_unlocked (l : loc) (cause : Eifel.RetransmitCause) : M unit :=
  retransmit_matching_unlocked l cause None.

Definition fast_retransmit_front (l : loc) : M unit :=
  retransmit_front_unlocked l Eifel.FastRetransmit.

Definition drain_retransmission_queue (ack : Z) (t : TcpControlBlock) : TcpControlBlock :=
  t <| retransmission_queue := filter (λ s, uncovered ack s = true) (retransmission_queue t) |>.

(** ** The tail loss probe *)

(** Counts the probe before new data goes out. *)
Definition tlp_note_new (t : TcpControlBlock) : TcpControlBlock :=
  t <| sack; Sack.tlp_is_retrans := false |> <| sack; Sack.tlp_high_rxt := snd_nxt t |>
    <| sack; Sack.tlp_probes := sat_add U32 (Sack.tlp_probes (sack t)) 1 |>.

Definition tlp_segment (now : clock) (t : TcpControlBlock) : res (option outgoing * TcpControlBlock) :=
  if zlen (retransmission_queue t) =? 0 then Ret (None, t) else
  let seg_idx := (length (retransmission_queue t) - 1)%nat in
  '(opts, _, t) ← established_outgoing_options (now 0%nat) t;
  let t := modify_seg seg_idx (λ s, s <| Seg.xmit_mstamp := now 1%nat |> <| Seg.retrans := true |>) t in
  let t := t <| sack; Sack.tlp_is_retrans := true |> <| sack; Sack.tlp_high_rxt := snd_nxt t |>
             <| sack; Sack.tlp_probes := sat_add U32 (Sack.tlp_probes (sack t)) 1 |> in
  seg ← index (retransmission_queue t) (Z.of_nat seg_idx);
  hdr ← copy_header seg t;
  let '(tos, hdr, t) := apply_outgoing_ecn t hdr (Seg.data seg) in
  Ret (Some (mkOut (socket t) hdr opts (Seg.data seg) tos), t).

Definition tlp_send_probe_unlocked (l : loc) : M unit :=
  t ← read_tcb l;
  if negb (zlen (send_buffer t) =? 0) && can_send t 1 then
    critical l (λ t, lift (Ret (tt, tlp_note_new t)));;
    process_send_queue l
  else
    o ← critical l (λ t, now ← readings 2; lift (tlp_segment now t));
    match o with
    | Some o => transmit o;; mret tt
    | None => mret tt
    end.

(** ** The queue and the flight

    The queue holds consecutive segments that end at SND.NXT; SND.UNA lies in
    the first of them. *)

Definition seg_span (s : Seg.UnackedSegment) : Z :=
  if Seg.is_syn s || Seg.is_fin s then 1 else zlen (Seg.data s).

Fixpoint chain (u : Z) (segs : list Seg.UnackedSegment) (n : Z) : Prop :=
  match segs with
  | [] => n = u
  | s :: segs => Seg.seq s = u ∧ 0 < seg_span s < U32 ∧ chain (wadd u (seg_span s)) segs n
  end.

Definition span_sum (segs : list Seg.UnackedSegment) : Z := foldr Z.add 0 (seg_span <$> segs).

(** SND.UNA is [k] bytes into the queue. *)
Definition una_at (segs : list Seg.UnackedSegment) (k : Z) : Prop :=
  match segs with [] => k = 0 | s :: _ => 0 ≤ k < seg_span s end.

Definition tracks (t : TcpControlBlock) : Prop :=
  ∃ u k, u32 u ∧ chain u (retransmission_queue t) (snd_nxt t) ∧ snd_una t = wadd u k ∧
         una_at (retransmission_queue t) k ∧ span_sum (retransmission_queue t) < I32.

Lemma end_seq_span s : 0 < seg_span s < U32 → Seg.end_seq s = wadd (Seg.seq s) (seg_span s).
Proof.
  unfold seg_span, Seg.end_seq. destruct (Seg.is_syn s || Seg.is_fin s); intros; [reflexivity|].
  rewrite Z.mod_small by lia. reflexivity.
Qed.

Lemma span_sum_cons s segs : span_sum (s :: segs) = seg_span s + span_sum segs.
Proof. reflexivity. Qed.

Lemma chain_end u segs n : u32 u → chain u segs n → n = wadd u (span_sum segs) ∧ 0 ≤ span_sum segs.
Proof.
  revert u. induction segs as [|s segs IH]; intros u Hu.
  - intros ->. change (span_sum []) with 0. rewrite wadd_0 by assumption. split; [reflexivity|lia].
  - intros (_ & Hs & Hc). destruct (IH _ (wadd_u32 _ _) Hc) as [-> Hn].
    rewrite span_sum_cons, wadd_assoc. split; [reflexivity|lia].
Qed.

Lemma chain_app u segs n segs' n' : u32 u → chain u segs n → chain n segs' n' → chain u (segs ++ segs') n'.
Proof.
  revert u. induction segs as [|s segs IH]; simpl; intros u Hu; [by intros ->|].
  intros (? & ? & Hc) Hc'. repeat (split; [assumption|]). apply IH; [apply wadd_u32|assumption..].
Qed.

Lemma span_sum_app l1 l2 : span_sum (l1 ++ l2) = span_sum l1 + span_sum l2.
Proof. induction l1 as [|x l1 IH]; [reflexivity|]. simpl app. rewrite !span_sum_cons, IH. lia. Qed.

Definition unacked (ack : Z) (segs : list Seg.UnackedSegment) : list Seg.UnackedSegment :=
  filter (λ s, uncovered ack s = true) segs.

(** An acknowledgement [a] bytes into the chain leaves a suffix; what goes is
    covered and spans no more than [a] bytes. *)
Lemma unacked_chain u segs n a :
  u32 u → chain u segs n → span_sum segs < I32 → - I32 < a - span_sum segs → a ≤ span_sum segs →
  (a < 0 → unacked (wadd u a) segs = segs) ∧
  (0 ≤ a → ∃ pre, segs = pre ++ unacked (wadd u a) segs ∧ 0 ≤ span_sum pre ≤ a ∧
     Forall (λ s, uncovered (wadd u a) s = false) pre ∧
     chain (wadd u (span_sum pre)) (unacked (wadd u a) segs) n ∧
     una_at (unacked (wadd u a) segs) (a - span_sum pre)).
Proof.
  revert u a. induction segs as [|s segs IH]; intros u a Hu Hc Hlt Hlo Ha.
  - split; [reflexivity|]. intros H0. exists []. change (span_sum []) with 0 in *. simpl in *.
    rewrite wadd_0 by assumption. split; [reflexivity|]. split; [lia|].
    split; [constructor|]. split; [assumption|lia].
  - destruct Hc as (Hs & Hsp & Hc). pose proof (chain_end _ _ _ (wadd_u32 _ _) Hc) as [_ Hn].
    rewrite span_sum_cons in *.
    assert (Hu' : uncovered (wadd u a) s = (a <? seg_span s)).
    { unfold uncovered. rewrite end_seq_span, Hs, sdiff_small by lia.
      destruct (Z.ltb_spec (a - seg_span s) 0), (Z.ltb_spec a (seg_span s)); lia. }
    destruct (IH (wadd u (seg_span s)) (a - seg_span s)) as [IHneg IHpos];
      [apply wadd_u32|assumption|lia|lia|lia|].
    rewrite wadd_assoc, Z.add_sub_assoc, Z.add_simpl_l in IHneg, IHpos.
    unfold unacked in *. rewrite filter_cons, Hu'.
    destruct (Z.ltb_spec a (seg_span s)) as [Hlt'|Hge]; rewrite ?decide_True, ?decide_False by congruence.
    + rewrite IHneg by lia. split; [reflexivity|]. intros H0. exists [].
      change (span_sum []) with 0. rewrite wadd_0 by assumption.
      split; [reflexivity|]. split; [lia|]. split; [constructor|]. split; [split; [assumption|split; assumption]|simpl; lia].
    + split; [lia|]. intros _. destruct IHpos as (pre & Hpre & Hle & Hf & Hch & Hat); [lia|].
      exists (s :: pre). rewrite span_sum_cons. split; [simpl; f_equal; exact Hpre|]. split; [lia|].
      split; [constructor; [rewrite Hu'; lia|assumption]|].
      rewrite wadd_assoc in Hch. split; [exact Hch|].
      replace (a - (seg_span s + span_sum pre)) with (a - seg_span s - span_sum pre) by lia. exact Hat.
Qed.

(** An acceptable acknowledgement as an offset into the queue. *)
Lemma ack_offset t ack u k :
  u32 u → chain u (retransmission_queue t) (snd_nxt t) → snd_una t = wadd u k →
  una_at (retransmission_queue t) k → span_sum (retransmission_queue t) < I32 → u32 ack →
  is_acceptable_ack t ack = true →
  ∃ a, 0 ≤ k ≤ a ∧ a ≤ span_sum (retransmission_queue t) ∧ ack = wadd u a.
Proof.
  intros Hu Hc Huna Hat Hlt Hack Hacc. destruct (chain_end _ _ _ Hu Hc) as [Hn Hsum].
  assert (Hk : 0 ≤ k ≤ span_sum (retransmission_queue t)).
  { unfold una_at in Hat. destruct (retransmission_queue t) as [|s q]; [change (span_sum []) with 0; lia|].
    destruct Hc as (_ & _ & Hc). pose proof (chain_end _ _ _ (wadd_u32 _ _) Hc) as [_ Hq].
    rewrite span_sum_cons. lia. }
  set (S := span_sum (retransmission_queue t)) in *.
  unfold is_acceptable_ack in Hacc. rewrite Huna, Hn in Hacc.
  exists (k + wsub ack (wadd u k)). rewrite <- wadd_assoc, wadd_wsub by assumption.
  pose proof (wsub_u32 ack (wadd u k)). apply Z.leb_le in Hacc.
  assert (Hd : wsub (wadd u S) (wadd u k) = S - k).
  { unfold wsub, wadd. rewrite <- Zminus_mod. replace (u + S - (u + k)) with (S - k) by lia.
    apply Z.mod_small. lia. }
  rewrite Hd in Hacc. ints. split; [lia|]. split; [lia|reflexivity].
Qed.

Lemma drain_tracks t ack :
  tracks t → u32 ack → is_acceptable_ack t ack = true →
  tracks ((drain_retransmission_queue ack t) <| snd_una := ack |>) ∧
  (∃ pre, retransmission_queue t = pre ++ unacked ack (retransmission_queue t) ∧
          Forall (λ s, uncovered ack s = false) pre) ∧
  (ack = snd_nxt t → unacked ack (retransmission_queue t) = []).
Proof.
  intros (u & k & Hu & Hc & Huna & Hat & Hlt) Hack Hacc.
  destruct (chain_end _ _ _ Hu Hc) as [Hn Hsum].
  destruct (ack_offset t ack u k) as (a & Hka & Ha & Hack'); try assumption.
  destruct (unacked_chain u (retransmission_queue t) (snd_nxt t) a) as [_ H]; [assumption..|lia|lia|].
  destruct H as (pre & Hpre & Hle & Hf & Hch & Hat'); [lia|]. rewrite <- Hack' in *.
  assert (Hps : span_sum (retransmission_queue t) =
                span_sum pre + span_sum (unacked ack (retransmission_queue t)))
    by (rewrite Hpre at 1; apply span_sum_app).
  split; [|split].
  - exists (wadd u (span_sum pre)), (a - span_sum pre). unfold drain_retransmission_queue. rsimp.
    fold (unacked ack (retransmission_queue t)). split; [apply wadd_u32|]. split; [assumption|].
    split; [rewrite wadd_assoc, Hack'; f_equal; lia|]. split; [assumption|]. lia.
  - eauto.
  - intros Heq. assert (Hall : a = span_sum (retransmission_queue t)).
    { assert (E : wsub (wadd u a) u = wsub (wadd u (span_sum (retransmission_queue t))) u) by congruence.
      rewrite !wsub_wadd in E by (ints; lia). assumption. }
    unfold una_at in Hat'. destruct (unacked ack (retransmission_queue t)) as [|s q]; [reflexivity|].
    exfalso. destruct Hch as (_ & Hsp & Hch). destruct (chain_end _ _ _ (wadd_u32 _ _) Hch) as [_ Hq].
    rewrite span_sum_cons in Hps. lia.
Qed.

(** The retransmission queue is exactly what is in flight.  If the queued
    segments are consecutive, end at SND.NXT and start with the one that
    holds SND.UNA, then after an acceptable acknowledgement they still are,
    for the acknowledged SND.UNA: the segments removed are a prefix of the
    queue, wholly acknowledged, every unacknowledged byte stays queued, and
    an acknowledgement of SND.NXT empties the queue. *)
Theorem ack_keeps_flight_queued t ack t' :
  tracks t → u32 ack → is_acceptable_ack t ack = true →
  t' = (drain_retransmission_queue ack t) <| snd_una := ack |> →
  tracks t' ∧
  (∃ pre, retransmission_queue t = pre ++ retransmission_queue t' ∧
          Forall (λ s, uncovered ack s = false) pre) ∧
  (ack = snd_nxt t → retransmission_queue t' = []).
Proof. intros Ht Hu Ha ->. exact (drain_tracks t ack Ht Hu Ha). Qed.

Definition sample_flight : TcpControlBlock :=
  sample_tx <| snd_nxt := 1007 |>
    <| retransmission_queue := [Seg.fresh 1001 [1; 2; 3] 24 0 0; Seg.fresh 1004 [4; 5; 6] 24 0 0] |>.

Lemma sample_flight_tracks : tracks sample_flight.
Proof.
  exists 1001, 0. split; [vm_compute; split; congruence|].
  split; [vm_compute; repeat (split; [reflexivity || (split; reflexivity)|]); reflexivity|].
  split; [reflexivity|]. split; [vm_compute; split; congruence|vm_compute; reflexivity].
Qed.

Lemma ack_keeps_flight_queued_witness :
  tracks ((drain_retransmission_queue 1005 sample_flight) <| snd_una := 1005 |>) ∧
  retransmission_queue (drain_retransmission_queue 1005 sample_flight) = [Seg.fresh 1004 [4; 5; 6] 24 0 0].
Proof.
  split; [|reflexivity]. refine (proj1 (ack_keeps_flight_queued sample_flight 1005 _ _ _ _ eq_refl)).
  - apply sample_flight_tracks.
  - vm_compute. split; congruence.
  - reflexivity.
Defined.

(** ** What a retransmission sends *)

Lemma position_spec {A} (f : A → bool) l :
  match position f l with
  | Some i => ∃ x, l !! i = Some x ∧ f x = true ∧ Forall (λ y, f y = false) (take i l)
  | None => Forall (λ y, f y = false) l
  end.
Proof.
  induction l as [|x l IH]; simpl; [constructor|]. destruct (f x) eqn:E.
  - exists x. repeat split; [assumption|constructor].
  - destruct (position f l) as [i|]; simpl; [|by constructor].
    destruct IH as (y & Hy & Hf & Ht). exists y. split; [assumption|]. split; [assumption|]. by constructor.
Qed.

Lemma position_lookup {A} (f : A → bool) l i :
  position f l = Some i → ∃ x, l !! i = Some x ∧ f x = true.
Proof. intros E. pose proof (position_spec f l) as H. rewrite E in H. destruct H as (x & ? & ? & _). eauto. Qed.

(** With SACK the picked segment is the first one marked lost that the peer
    has not reported, else the first one it has not reported; without SACK
    it is the first one past the partial acknowledgement, or the head. *)
Lemma pick_segment_spec pa t i :
  pick_segment pa t = Some i → ∃ s, retransmission_queue t !! i = Some s ∧
    (Sack.enabled (sack t) = true → Seg.sacked s = false ∧
       (Seg.lost s = true ∨ Forall (λ y, Seg.lost y && negb (Seg.sacked y) = false) (retransmission_queue t))) ∧
    (Sack.enabled (sack t) = false → ∀ ack, pa = Some ack → uncovered ack s = true).
Proof.
  unfold pick_segment. destruct (Sack.enabled (sack t)) eqn:Es.
  - pose proof (position_spec (λ s, Seg.lost s && negb (Seg.sacked s)) (retransmission_queue t)) as Hp.
    destruct (position (λ s, Seg.lost s && negb (Seg.sacked s)) (retransmission_queue t)) as [j|].
    + intros [= <-]. destruct Hp as (s & Hs & Hf & _). apply andb_true_iff in Hf as [Hl Hk].
      exists s. split; [assumption|]. split; [|discriminate]. intros _. split; [by apply negb_true_iff|auto].
    + intros (s & Hs & Hk)%position_lookup. exists s. split; [assumption|]. split; [|discriminate].
      intros _. split; [by apply negb_true_iff|auto].
  - destruct pa as [ack|].
    + intros (s & Hs & Hk)%position_lookup. exists s. split; [assumption|]. split; [discriminate|].
      intros _ ? [= <-]. assumption.
    + destruct (Z.eqb_spec (zlen (retransmission_queue t)) 0) as [|Hne]; [discriminate|]. intros [= <-].
      destruct (retransmission_queue t) as [|s q]; [by destruct Hne|]. exists s. split; [reflexivity|]. split; [discriminate|discriminate].
Qed.

(** [s'] is [s] with the bookkeeping of a transmission. *)
Definition resent (s s' : Seg.UnackedSegment) : Prop :=
  Seg.seq s' = Seg.seq s ∧ Seg.data s' = Seg.data s ∧ Seg.flags s' = Seg.flags s ∧
  Seg.sacked s' = Seg.sacked s ∧ Seg.retries s' = Seg.retries s ∧ Seg.send_time s' = Seg.send_time s ∧
  Seg.retrans s' = true.

(** [o] is a copy of [s] with a current acknowledgement. *)
Record copy_of (t : TcpControlBlock) (s : Seg.UnackedSegment) (o : outgoing) : Prop := {
  cp_ok : out_ok o;
  cp_socket : out_socket o = socket t;
  cp_data : out_data o = Seg.data s;
  cp_seq : Hdr.sequence_number (out_hdr o) = Seg.seq s;
  cp_ack : Hdr.ack_number (out_hdr o) = rcv_nxt t;
  cp_flags : marked (Z.land (Seg.flags s) (not8 CWR)) (Hdr.flags (out_hdr o))
}.

Lemma copy_header_spec s t : tcb_ok t → seg_ok s →
  returns (copy_header s t) (λ h, hdr_ok h ∧ Hdr.checksum h = 0 ∧ Hdr.sequence_number h = Seg.seq s ∧
    Hdr.ack_number h = rcv_nxt t ∧ Hdr.flags h = Z.land (Seg.flags s) (not8 CWR)).
Proof.
  intros Ht [Hseq _ _ Hfl]. unfold copy_header.
  destruct (hdr_new_spec t Ht) as (h & -> & [] & Hc & _ & _ & Ha & _). rewrite ret_bind.
  apply returns_ret. unfold Hdr.set_sequence_number, Hdr.set_flags. rsimp.
  split; [constructor; rsimp; try assumption; by apply land_u8|auto].
Qed.

(** What the timers read. *)
Definition timer_view (t : TcpControlBlock) := (congestion_control t, rto t, last_error t).

(** The tail both retransmissions share: index, header, ECN. *)
Lemma send_copy_spec i s opts t :
  tcb_ok t → retransmission_queue t !! i = Some s → bytes opts → zlen opts ≤ 40 → zlen opts mod 4 = 0 →
  returns (seg ← index (retransmission_queue t) (Z.of_nat i);
           hdr ← copy_header seg t;
           let '(tos, hdr, t) := apply_outgoing_ecn t hdr (Seg.data seg) in
           Ret (Some (mkOut (socket t) hdr opts (Seg.data seg) tos), t))
    (λ '(o, t'), ∃ o', o = Some o' ∧ copy_of t s o' ∧ tx_view t' = tx_view t ∧ timer_view t' = timer_view t).
Proof.
  intros Ht Hs Hob Ho40 Ho4. pose proof Ht as [].
  rewrite (index_lookup _ _ s), ret_bind by (rewrite ?Nat2Z.id; assumption || lia).
  assert (Hsok : seg_ok s) by (rewrite Forall_lookup in ok_segs; eauto). pose proof Hsok as [].
  destruct (copy_header_spec s t Ht Hsok) as (h & -> & Hh & Hc & Hseq & Ha & Hfl). rewrite ret_bind.
  pose proof (view_ecn t h (Seg.data s)) as Hv.
  destruct (apply_outgoing_ecn t h (Seg.data s)) as [[tos h'] t'] eqn:E. simpl in Hv.
  destruct (apply_outgoing_ecn_frame _ _ _ _ _ _ E) as (Hfr & Hhdr & _ & Hu8).
  destruct (apply_outgoing_ecn_flags _ _ _ _ _ _ E) as (m & Hm & Hfl').
  assert (Hsk : socket t' = socket t) by (unfold tx_view in Hv; congruence).
  assert (Htv : timer_view t' = timer_view t) by (rewrite Hfr; reflexivity).
  apply returns_ret. eexists. split; [reflexivity|]. split; [|auto].
  constructor; cbn [out_socket out_hdr out_opts out_data]; try assumption; try reflexivity.
  - constructor; cbn [out_socket out_hdr out_opts out_data]; rewrite ?Hsk; try assumption.
    + rewrite Hhdr. destruct Hh. constructor; rsimp; auto.
    + rewrite Hhdr. exact Hc.
    + split; [assumption|]. split; [assumption|]. by apply Z.mod_divide.
    + split; [assumption|]. unfold MSS, Pkt.SLOT_SIZE in *. lia.
  - rewrite Hhdr. exact Hseq.
  - rewrite Hhdr. exact Ha.
  - exists m. rewrite <- Hfl. auto.
Qed.

Lemma alter_insert {A} (f : A → A) i (l : list A) x : l !! i = Some x → alter f i l = <[i := f x]> l.
Proof.
  revert i. induction l as [|y l IH]; intros [|i]; simpl; intros H; try discriminate.
  - injection H as ->. reflexivity.
  - f_equal. apply IH, H.
Qed.

(** Replacing a queue entry by one with the same contents. *)
Definition requeue (i : nat) (s : Seg.UnackedSegment) (t : TcpControlBlock) : TcpControlBlock :=
  t <| retransmission_queue := <[i := s]> (retransmission_queue t) |>.

Definition same_contents (s s' : Seg.UnackedSegment) : Prop :=
  Seg.seq s' = Seg.seq s ∧ Seg.data s' = Seg.data s ∧ Seg.flags s' = Seg.flags s ∧
  Seg.sacked s' = Seg.sacked s ∧ Seg.retries s' = Seg.retries s ∧ Seg.send_time s' = Seg.send_time s.

Lemma requeue_ok i s s' t :
  tcb_ok t → retransmission_queue t !! i = Some s → same_contents s s' → tcb_ok (requeue i s' t).
Proof.
  intros [] Hs (H1 & H2 & H3 & _). constructor; unfold requeue; rsimp; try assumption.
  apply Forall_insert; [assumption|]. rewrite Forall_lookup in ok_segs. destruct (ok_segs i s Hs).
  constructor; rewrite ?H1, ?H2, ?H3; assumption.
Qed.

Lemma requeue_view i s t t' : tx_view t' = tx_view t → tx_view (requeue i s t') = tx_view (requeue i s t).
Proof. unfold tx_view, requeue. rsimp. intros [=]. congruence. Qed.

Lemma modify_view i f s t t' :
  retransmission_queue t !! i = Some s → tx_view t' = tx_view t →
  tx_view (modify_seg i f t') = tx_view (requeue i (f s) t).
Proof.
  intros Hs Hv. assert (Hq : retransmission_queue t' = retransmission_queue t) by (unfold tx_view in Hv; congruence).
  rewrite <- (requeue_view i (f s) t t' Hv). unfold modify_seg, requeue.
  rewrite (alter_insert f i _ s) by congruence. reflexivity.
Qed.

Lemma requeue_twice i s s' t : requeue i s' (requeue i s t) = requeue i s' t.
Proof. unfold requeue. rsimp. rewrite list_insert_insert_eq. destruct t; reflexivity. Qed.

Lemma requeue_lookup i s s' t : retransmission_queue t !! i = Some s →
  retransmission_queue (requeue i s' t) !! i = Some s'.
Proof. intros H. unfold requeue. rsimp. apply list_lookup_insert_eq. by eapply lookup_lt_Some. Qed.

Lemma requeue_id i s t : retransmission_queue t !! i = Some s → requeue i s t = t.
Proof. intros H. unfold requeue. rewrite list_insert_id by assumption. destruct t; reflexivity. Qed.

Lemma retransmit_spec now cause pa t :
  tcb_ok t →
  returns (retransmit_segment now cause pa t) (λ '(o, t'), tcb_ok t' ∧ timer_view t' = timer_view t ∧
    match pick_segment pa t with
    | None => o = None ∧ t' = t
    | Some i => ∃ s s' o', retransmission_queue t !! i = Some s ∧ o = Some o' ∧ copy_of t s o' ∧
        resent s s' ∧ Seg.lost s' = false ∧ (Sack.enabled (sack t) = true → Seg.sacked s = false) ∧
        retransmission_queue t' = <[i := s']> (retransmission_queue t) ∧
        snd_nxt t' = snd_nxt t ∧ snd_una t' = snd_una t ∧ state t' = state t ∧
        effective_mss t' = effective_mss t
    end).
Proof.
  intros Ht. unfold retransmit_segment.
  destruct (pick_segment pa t) as [i|] eqn:Ep; [|apply returns_ret; auto].
  destruct (pick_segment_spec pa t i Ep) as (s & Hs & Hsack & _).
  destruct (established_options_spec (now 0%nat) t) as ([[opts tsval] t1] & -> & Ho40 & Ho4 & Hob & Hf & _);
    [apply Ht|apply Ht|]. rewrite ret_bind. pose proof (view_opts _ _ Hf) as Hv1.
  assert (Hm1 : timer_view t1 = timer_view t) by (destruct Hf as [-> _]; reflexivity). cbv zeta.
  set (t2 := if bool_decide (cause = Eifel.Rto) then _ else t1).
  assert (H2 : ∃ s2, same_contents s s2 ∧ tx_view t2 = tx_view (requeue i s2 t)).
  { assert (Hid : ∃ s2, same_contents s s2 ∧ tx_view t1 = tx_view (requeue i s2 t))
      by (exists s; split; [repeat split|rewrite requeue_id; assumption]).
    unfold t2. destruct (bool_decide _), (Ts.enabled (ts t1)), tsval as [v|]; try exact Hid.
    exists (s <| Seg.retransmit_tsval := Some v |>). split; [repeat split|].
    apply (modify_view i (λ s, s <| Seg.retransmit_tsval := Some v |>)); assumption. }
  assert (Hm2 : timer_view t2 = timer_view t)
    by (rewrite <- Hm1; unfold t2; destruct (bool_decide _), (Ts.enabled (ts t1)), tsval; reflexivity).
  clearbody t2. destruct H2 as (s2 & Hc2 & Hv2). set (t3 := modify_seg i _ t2).
  set (s' := s2 <| Seg.xmit_mstamp := now 1%nat |> <| Seg.retrans := true |> <| Seg.lost := false |>).
  assert (Hv3 : tx_view t3 = tx_view (requeue i s' t)).
  { rewrite <- (requeue_twice i s2 s' t).
    apply (modify_view i (λ s, s <| Seg.xmit_mstamp := now 1%nat |> <| Seg.retrans := true |> <| Seg.lost := false |>)
             s2 (requeue i s2 t) t2); [by eapply requeue_lookup|exact Hv2]. }
  set (t4 := if Sack.enabled (sack t3) then _ else t3).
  assert (Hv4 : tx_view t4 = tx_view (requeue i s' t)) by (rewrite <- Hv3; unfold t4; destruct (Sack.enabled (sack t3)); reflexivity).
  assert (Hm4 : timer_view t4 = timer_view t)
    by (rewrite <- Hm2; unfold t4; destruct (Sack.enabled (sack t3)); reflexivity).
  assert (Hcs : same_contents s s') by exact Hc2.
  assert (Hq : retransmission_queue t4 = <[i := s']> (retransmission_queue t) ∧ rcv_nxt t4 = rcv_nxt t ∧
    socket t4 = socket t ∧ snd_nxt t4 = snd_nxt t ∧ snd_una t4 = snd_una t ∧ state t4 = state t ∧
    effective_mss t4 = effective_mss t)
    by (unfold tx_view, requeue in Hv4; rsimp_all; repeat split; congruence).
  destruct Hq as (Hq4 & Hr4 & Hk4 & Hn4 & Hu4 & Hst4 & He4). clearbody t4.
  assert (Ht4 : tcb_ok t4) by (eapply tcb_ok_view; [exact Hv4|]; by eapply requeue_ok).
  eapply returns_mono; [apply (send_copy_spec i s' opts t4); try assumption|].
  { rewrite Hq4. apply list_lookup_insert_eq. by eapply lookup_lt_Some. }
  intros [o t'] (o' & -> & [] & Hv & Hm). split; [by eapply tcb_ok_view|]. split; [congruence|].
  assert (Hvf : retransmission_queue t' = retransmission_queue t4 ∧ snd_nxt t' = snd_nxt t4 ∧
    snd_una t' = snd_una t4 ∧ state t' = state t4 ∧ effective_mss t' = effective_mss t4)
    by (unfold tx_view in Hv; repeat split; congruence).
  destruct Hvf as (-> & -> & -> & -> & ->). destruct Hcs as (Hc1 & Hd1 & Hf1 & Hk1 & Hr1 & Hst1).
  exists s, s', o'. split; [assumption|]. split; [reflexivity|].
  split; [constructor; try assumption; congruence|]. split; [by repeat split|].
  split; [reflexivity|]. split; [intros E; apply (Hsack E)|]. auto 6.
Qed.

(** Retransmission.  Whatever the cause, the segment that
    [pick_segment] chooses is sent again from the queue with its original
    sequence number, payload and flags (CWR cleared) and the current
    acknowledgement; the queue entry keeps its contents and is marked
    retransmitted and no longer lost, every other entry is untouched.  With
    SACK the chosen segment is never one the peer has reported received.
    If nothing qualifies, nothing is sent. *)
Theorem retransmission_resends_queued now cause pa t :
  tcb_ok t →
  returns (retransmit_segment now cause pa t) (λ '(o, t'), tcb_ok t' ∧
    match pick_segment pa t with
    | None => o = None ∧ t' = t
    | Some i => ∃ s s' o', retransmission_queue t !! i = Some s ∧ o = Some o' ∧ copy_of t s o' ∧
        resent s s' ∧ Seg.lost s' = false ∧ (Sack.enabled (sack t) = true → Seg.sacked s = false) ∧
        retransmission_queue t' = <[i := s']> (retransmission_queue t) ∧
        snd_nxt t' = snd_nxt t ∧ snd_una t' = snd_una t
    end).
Proof.
  intros Ht. eapply returns_mono; [by apply retransmit_spec|]. intros [o t'] (Hok & _ & Hp).
  split; [assumption|]. destruct (pick_segment pa t) as [i|]; [|assumption].
  destruct Hp as (s & s' & o' & Hs & Ho & Hc & Hr & Hl & Hk & Hq & Hn & Hu & _). exists s, s', o'. auto 12.
Qed.

Lemma retransmission_resends_queued_witness :
  ∃ s o t', retransmit_segment (λ _, 7) Eifel.Rto None
      (sample_flight <| retransmission_queue := [Seg.fresh 1001 [1; 2; 3] 24 0 0] |>) = Ret (Some o, t') ∧
    copy_of (sample_flight <| retransmission_queue := [Seg.fresh 1001 [1; 2; 3] 24 0 0] |>) s o ∧
    Seg.seq s = 1001.
Proof.
  set (t := sample_flight <| retransmission_queue := [Seg.fresh 1001 [1; 2; 3] 24 0 0] |>).
  assert (Ht : tcb_ok t).
  { pose proof sample_tx_ok as []. constructor; try assumption.
    apply Forall_singleton. constructor; try (vm_compute; split; congruence); [|vm_compute; congruence].
    repeat constructor; vm_compute; congruence. }
  destruct (retransmission_resends_queued (λ _, 7) Eifel.Rto None t Ht) as ([o t'] & E & _ & H).
  change (pick_segment None t) with (Some 0%nat) in H. destruct H as (s & s' & o' & Hs & -> & Hc & _).
  exists s, o', t'. split; [exact E|]. split; [exact Hc|]. injection Hs as <-. reflexivity.
Defined.
