(* ===== verification/SocketTable.v ===== *)
(** * The socket table

    Lines 134-262 of [proto/tcp_socket.rs]: handles, ports, and the two hooks
    the driver calls for passive opens. *)

From S2P Require Import Prelude Time ReceiveBuffer TcpTypes NetWorld.

Definition alloc_handle (tb : Skt.TcpSocketTable) : Z * Skt.TcpSocketTable :=
  let h := Skt.next_handle tb in
  (h, tb <| Skt.next_handle := Z.max (wadd h 1) 1 |>).

Definition table_insert (st : Skt.TcpSocketState) (tb : Skt.TcpSocketTable)
  : Z * Skt.TcpSocketTable :=
  let '(h, tb) := alloc_handle tb in
  (h, tb <| Skt.sockets := <[h := st]> (Skt.sockets tb) |>).

Definition table_get (tb : Skt.TcpSocketTable) (handle : Z) : option Skt.TcpSocketState :=
  Skt.sockets tb !! handle.

Definition listener_for_port (tb : Skt.TcpSocketTable) (port : Z) : option Z :=
  Skt.listeners tb !! port.

Definition port_in_use (tb : Skt.TcpSocketTable) (port : Z) : bool :=
  bool_decide (is_Some (Skt.listeners tb !! port)) || bool_decide (is_Some (Skt.bound_ports tb !! port)).

(** The first free port of 49152-65535. *)
Definition table_alloc_ephemeral_port (tb : Skt.TcpSocketTable) : option Z :=
  List.find (λ p, negb (port_in_use tb p)) (seqZ 49152 16384).

Definition listener_opts_for_port (tb : Skt.TcpSocketTable) (port : Z)
  : option Settings.TcpSessionSettings :=
  handle ← listener_for_port tb port;
  Skt.opts <$> table_get tb handle.

Definition enqueue_accepted_connection (local_port : Z) (tcb : loc) (tb : Skt.TcpSocketTable)
  : Skt.TcpSocketTable :=
  match listener_for_port tb local_port with
  | None => tb
  | Some handle =>
  match table_get tb handle with
  | Some (Skt.mkState (Skt.Listener ip port nic backlog pending gate) opts) =>
      if backlog <=? zlen pending then tb
      else tb <| Skt.sockets :=
             <[handle := Skt.mkState (Skt.Listener ip port nic backlog (pending ++ [tcb]) (gate_open gate)) opts]>
               (Skt.sockets tb) |>
  | _ => tb
  end
  end.
