(* ===== verification/TcpRecv.v ===== *)
(** * The receiving path

    [driver/recv.rs]: the handshake handlers, the handler of segments on an
    open connection, and the entry point that dispatches on the state.  As
    on the sending side, what happens under the lock is a function on the
    control block; it also returns what to do once the lock is dropped. *)

From S2P Require Import Prelude Time ReceiveBuffer TcpTypes TcpOptions TcpChecksum TcpSack TcpReassembly TcpCc.
From S2P Require Import TcpTimestamp TcpRecovery TcpPacing TcpEcn NetWorld TcpOutOptions TcpWire TcpSend TcpRetransmit.
From S2P Require Import SocketTable.

(** ** Options of the peer *)

Definition apply_peer_option (now : Instant) (seg_seq : Z) (opt : TcpOption) (t : TcpControlBlock)
  : TcpControlBlock :=
  match opt with
  | Mss mss => t <| peer_mss := mss |>
  | WindowScale shift => t <| snd_wscale := Z.min shift 14 |> <| wnd_scale_enabled := true |>
  | Timestamp tsval _ =>
      t <| ts; Ts.enabled := true |> <| ts; Ts.ts_recent := tsval |>
        <| ts; Ts.last_ack_ts_seq := seg_seq |> <| ts; Ts.recent_age := now |>
  | SackPermitted => t <| sack; Sack.enabled := true |>
  | _ => t
  end.

Fixpoint apply_peer_option_list (now : clock) (seg_seq : Z) (opts : list TcpOption)
    (t : TcpControlBlock) : TcpControlBlock :=
  match opts with
  | [] => t
  | o :: opts => apply_peer_option_list (λ i, now (S i)) seg_seq opts
                   (apply_peer_option (now 0%nat) seg_seq o t)
  end.

Definition apply_peer_tcp_options (now : clock) (options : list Z) (seg_seq : Z)
    (t : TcpControlBlock) : res TcpControlBlock :=
  opts ← parse_options options;
  Ret (recompute_effective_mss (apply_peer_option_list now seg_seq opts t)).

(** A round-trip sample from the echoed timestamp; [lo] is the least sample
    taken, in milliseconds. *)
Definition sample_tsecr (now : Instant) (lo tsecr : Z) (t : TcpControlBlock) : res TcpControlBlock :=
  if tsecr =? 0 then Ret t else
  let rtt_ms := wsub (tcp_ts_now now (Ts.offset (ts t))) tsecr in
  if (lo <=? rtt_ms) && (rtt_ms <? 60000) then
    r ← from_millis rtt_ms;
    update_rtt_estimators (t <| rtt_m; Ts.last_ts_sample := Some r |>) r
  else Ret t.

(** ** SYN-ACK of an active open *)

Definition refuse (t : TcpControlBlock) : TcpControlBlock :=
  t <| state := Closed |> <| last_error := Some ConnectionReset |>
    <| retransmission_queue := [] |> <| rtt_m; Ts.probe := None |>
    <| event := event_notify (event t) |> <| handshake_gate := gate_open (handshake_gate t) |>.

(** The handshake's probe. *)
Definition syn_probe (now : Instant) (ack : Z) (t : TcpControlBlock) : res TcpControlBlock :=
  match Ts.probe (rtt_m t) with
  | None => Ret t
  | Some probe =>
      let t := t <| rtt_m; Ts.probe := None |> in
      if 0 <=? sdiff ack (Ts.end_ probe) then
        let diff := elapsed now (Ts.sent_at probe) in
        let t := t <| rtt_m; Ts.last_probe_sample := Some diff |> in
        if Ts.enabled (ts t) then Ret t else update_rtt_estimators t diff
      else Ret t
  end.

(** [now]: one reading for each option (at most forty), then those of the
    timestamp, of the sample and of the probe. *)
Definition syn_ack_accept (now : clock) (header : Hdr.TcpDatagramHeader) (options : list Z)
    (t : TcpControlBlock) : res TcpControlBlock :=
  let seq := Hdr.sequence_number header in
  let ack := Hdr.ack_number header in
  t ← apply_peer_tcp_options now options seq t;
  ts_opt ← find_timestamp options;
  t ← (match ts_opt with
       | Some (tsval, tsecr) =>
           let t := t <| ts; Ts.enabled := true |> in
           let '(_, t) := on_rx_timestamp (λ i, now (40 + i)%nat) t seq tsval true false in
           t ← sample_tsecr (now 42%nat) 1 tsecr t;
           Ret (recompute_effective_mss t)
       | None => Ret t
       end);
  t ← syn_probe (now 43%nat) ack t;
  let t := t <| ecn; Ecn.enabled := Hdr.get_flag header ECE && negb (Hdr.get_flag header CWR) |> in
  w ← scale_peer_window t (Hdr.window_size header);
  let t := t <| snd_wnd := w |> <| snd_wl1 := seq |> <| snd_wl2 := ack |> <| irs := seq |>
             <| rcv_nxt := wadd seq 1 |> <| snd_una := ack |> in
  let t := drain_retransmission_queue ack t in
  Ret (t <| state := Established |> <| event := event_notify (event t) |>).

(** The write guard [t] is alive until the function returns; the last
    statement takes the lock again to open the gate. *)
Definition process_syn_ack (l : loc) (header : Hdr.TcpDatagramHeader) (options : list Z) : M unit :=
  t ← acquire l;
  if Hdr.is_rst header then release l (refuse t)
  else if bool_decide (state t = Established) then
    hdr ← lift (Hdr.hdr_new t);
    '(_, t) ← net_send_from_tcb (Hdr.set_flag ACK true hdr) [] t;
    release l t
  else if bool_decide (state t ≠ SynSent) then release l t
  else if negb (is_acceptable_ack t (Hdr.ack_number header)) then
    release l t;;
    send_standalone_rst (tuple t) header (Sock.nic (socket t))
  else
    now ← readings 44;
    t ← lift (syn_ack_accept now header options t);
    hdr ← lift (Hdr.hdr_new t);
    '(_, t) ← net_send_from_tcb (Hdr.set_flag ACK true hdr) [] t;
    read_tcb l;;
    release l (t <| handshake_gate := gate_open (handshake_gate t) |>).

(** ** SYN of a passive open *)

(** [now]: five readings of the constructor, then one for each option. *)
Definition passive_block (now : clock) (rdrand : option Z) (iss : Z)
    (settings : Settings.TcpSessionSettings) (tuple : Tuple.ConnectionTuple) (socket : Sock.Socket)
    (header : Hdr.TcpDatagramHeader) (options : list Z) : res TcpControlBlock :=
  t ← apply_receive_path settings (tcb_new iss tuple socket settings rdrand now);
  let syn_seq := Hdr.sequence_number header in
  let t := t <| state := SynReceived |> <| irs := syn_seq |> <| rcv_nxt := wadd syn_seq 1 |> in
  t ← apply_peer_tcp_options (λ i, now (5 + i)%nat) options syn_seq t;
  let t := t <| ecn; Ecn.enabled :=
                  Settings.ecn_enabled settings && Hdr.get_flag header ECE && Hdr.get_flag header CWR |> in
  w ← scale_peer_window t (Hdr.window_size header);
  Ret (t <| snd_wnd := w |> <| snd_wl1 := syn_seq |> <| snd_wl2 := Hdr.ack_number header |>
         <| snd_nxt := wadd iss 1 |>).

(** The SYN-ACK: header, options and, when it carries one, the timestamp. *)
Definition synack_segment (now : Instant) (settings : Settings.TcpSessionSettings) (iss : Z)
    (t : TcpControlBlock) : res (Hdr.TcpDatagramHeader * list Z * option Z) :=
  hdr ← Hdr.hdr_new t;
  let hdr := Hdr.set_acknowledgement_number (rcv_nxt t) (Hdr.set_sequence_number iss hdr) in
  let hdr := Hdr.set_flag ACK true (Hdr.set_flag SYN true hdr) in
  let hdr := if Ecn.enabled (ecn t) then Hdr.set_flag ECE true hdr else hdr in
  let synack_ts := if Settings.timestamps_enabled settings && Ts.enabled (ts t)
                   then Some (tcp_ts_now now (Ts.offset (ts t))) else None in
  opts ← syn_outgoing_options settings ((λ v, (v, Ts.ts_recent (ts t))) <$> synack_ts);
  Ret (hdr, opts, synack_ts).

Definition queue_synack (now : clock) (iss flags : Z) (synack_ts : option Z) (t : TcpControlBlock)
  : TcpControlBlock :=
  let t := match synack_ts with
           | Some v => t <| ts; Ts.last_tx_tsval := v |>
           | None => t
           end in
  t <| retransmission_queue := retransmission_queue t ++ [Seg.fresh iss [] flags (now 0%nat) (now 1%nat)] |>.

Definition unwrap {A} (o : option A) : M A := lift (match o with Some a => Ret a | None => Crash Panic end).

Definition process_passive_syn (tuple : Tuple.ConnectionTuple) (header : Hdr.TcpDatagramHeader)
    (options : list Z) (nic : Z) : M unit :=
  w ← get_world;
  match listener_opts_for_port (socket_table w) (Tuple.local_port tuple) with
  | None => send_standalone_rst tuple header nic
  | Some settings =>
      r ← rdrand;
      r ← unwrap r;
      let iss := r mod U32 in
      let socket := Sock.new (Tuple.local_ip tuple) (Tuple.local_port tuple)
                             (Tuple.remote_ip tuple) (Tuple.remote_port tuple) nic in
      rd ← rdrand;
      now ← readings 45;
      t ← lift (passive_block now rd iss settings tuple socket header options);
      l ← alloc t;
      modify (λ w, w <| connections := <[tuple := l]> (connections w) |>);;
      now ← instant_now;
      '(hdr, opts, synack_ts) ← lift (synack_segment now settings iss t);
      critical l (λ t, now ← readings 2; lift (Ret (tt, queue_synack now iss (Hdr.flags hdr) synack_ts t)));;
      net_send_tcp_datagram_with_options socket hdr opts [] 0;;
      mret tt
  end.

(** ** Segments on an open connection *)

(** What to do once the lock is dropped. *)
Record rx_actions := mkActions {
  send_ack : bool;
  fast_retransmit : bool;
  dup_recovery_inflate : bool;
  partial_retransmit_ack : option Z;
  run_send_queue : bool
}.

#[global] Instance eta_rx_actions : Eta rx_actions := λ r,
  mkActions (send_ack r) (fast_retransmit r) (dup_recovery_inflate r) (partial_retransmit_ack r)
    (run_send_queue r).

Definition reset_block (t : TcpControlBlock) : TcpControlBlock :=
  t <| state := Closed |> <| last_error := Some ConnectionReset |> <| event := event_notify (event t) |>.

Definition note_ce (t : TcpControlBlock) : TcpControlBlock :=
  if Ecn.enabled (ecn t) then
    t <| ecn; Ecn.ce_seen := sat_add U32 (Ecn.ce_seen (ecn t)) 1 |> <| ecn; Ecn.echo_pending := true |>
  else t.

(** ECN, receive side. *)
Definition rx_ecn (ce cwr : bool) (t : TcpControlBlock) : TcpControlBlock :=
  let t := if ce then note_ce t else t in
  if Ecn.enabled (ecn t) && cwr then t <| ecn; Ecn.echo_pending := false |> else t.

(** Timestamps; [None] for a segment to drop.  Three readings. *)
Definition rx_timestamp (now : clock) (seq : Z) (is_syn : bool) (ts_opt : option (Z * Z))
    (t : TcpControlBlock) : res (option TcpControlBlock * TcpControlBlock) :=
  match ts_opt with
  | None => Ret (if Ts.enabled (ts t) then None else Some t, t)
  | Some (tsval, tsecr) =>
      let '(keep, t) := on_rx_timestamp now t seq tsval is_syn false in
      if negb keep then Ret (None, t) else
      t ← sample_tsecr (now 2%nat) 0 tsecr t;
      Ret (Some t, t)
  end.

Section WithLibm.
  Context `{Libm}.

(** ECN, send side: a marked acknowledgement is a congestion event. *)
Definition rx_ece (now : Instant) (acceptable ece : bool) (a : rx_actions) (t : TcpControlBlock)
  : res (rx_actions * TcpControlBlock) :=
  if acceptable && Ecn.enabled (ecn t) && ece && negb (Ecn.cwr_pending (ecn t))
     && negb (in_fast_recovery t) then
    let t := t <| ecn; Ecn.ece_rx := sat_add U32 (Ecn.ece_rx (ecn t)) 1 |>
               <| ecn; Ecn.ecn_md := sat_add U32 (Ecn.ecn_md (ecn t)) 1 |> in
    t ← on_congestion_event now t;
    Ret (a <| run_send_queue := true |>, t <| ecn; Ecn.cwr_pending := true |>)
  else Ret (a, t).

(** NewReno: a full acknowledgement ends Fast Recovery, a partial one
    deflates the window. *)
Definition recovery_on_ack (ack : Z) (t : TcpControlBlock) : res (option Z * TcpControlBlock) :=
  if in_fast_recovery t then
    if 0 <=? sdiff ack (recover_point t) then
      let t := t <| in_fast_recovery := false |> <| cwnd := ssthresh t |>
                 <| cwv; Cwv.cwnd_raw := ssthresh t |> in
      Ret (None, t <| abc := Abc.clear_accumulators (abc t) |>)
    else
      let smss := Z.max (effective_mss t) 1 in
      infl ← mul_chk U32 3 smss;
      w ← add_chk U32 (ssthresh t) infl;
      Ret (Some ack, t <| cwnd := w |> <| cwv; Cwv.cwnd_raw := w |>)
  else Ret (None, t).

(** Karn's probe. *)
Definition complete_probe (now : Instant) (ack : Z) (t : TcpControlBlock) : res TcpControlBlock :=
  match Ts.probe (rtt_m t) with
  | Some p =>
      if 0 <=? sdiff ack (Ts.end_ p) then
        let diff := elapsed now (Ts.sent_at p) in
        let t := t <| rtt_m; Ts.probe := None |> <| rtt_m; Ts.last_probe_sample := Some diff |> in
        if Ts.enabled (ts t) then Ret t else update_rtt_estimators t diff
      else Ret t
  | None => Ret t
  end.

(** SACK information and loss detection. *)
Definition sack_update (now : Instant) (ack : Z) (blocks : list Sack.SackBlock) (t : TcpControlBlock)
  : TcpControlBlock :=
  rack_detect now (sack_mark_lost (sack_tx_apply t ack blocks)).

Definition has_fin (t : TcpControlBlock) : bool := existsb Seg.is_fin (retransmission_queue t).

(** Our FIN is acknowledged. *)
Definition fin_acked (now : Instant) (prior : TcpState) (t : TcpControlBlock) : TcpControlBlock :=
  match prior with
  | FinWait1 => t <| state := FinWait2 |>
  | Closing => t <| state := TimeWait |> <| timewait_deadline := Some (instant_add now (secs 120)) |>
  | LastAck => t <| state := Closed |> <| event := event_notify (event t) |>
  | _ => t
  end.

(** Loss detection on an advancing acknowledgement; the flag asks for a fast
    retransmit.  Two readings. *)
Definition loss_on_new_ack (now : clock) (ack : Z) (blocks : list Sack.SackBlock) (t : TcpControlBlock)
  : res (bool * TcpControlBlock) :=
  if Sack.enabled (sack t) then
    let t := sack_update (now 0%nat) ack blocks t in
    if negb (in_fast_recovery t) && sack_has_lost t then
      let t := (sack_enter_recovery t) <| in_fast_recovery := true |> in
      t ← on_congestion_event (now 1%nat) t;
      Ret (true, t)
    else Ret (false, t)
  else Ret (false, t).

(** [ack > SND.UNA].  Readings: the probe, three of the window update, two
    of loss detection, the loss probe, TIME-WAIT. *)
Definition rx_new_ack (now : clock) (ack : Z) (tsecr : option Z) (ece : bool)
    (blocks : list Sack.SackBlock) (a : rx_actions) (t : TcpControlBlock)
  : res (rx_actions * TcpControlBlock) :=
  let prev_snd_una := snd_una t in
  '(partial, t) ← recovery_on_ack ack t;
  let had_unacked_fin := has_fin t in
  let prior_state := state t in
  let t := t <| snd_una := ack |> <| duplicate_ack_count := 0 |> <| last_ack_received := ack |> in
  let bytes_acked := wsub ack prev_snd_una in
  let t := t <| eifel; Eifel.bytes_acked := bytes_acked |> in
  t ← (if Ts.enabled (ts t) then Ret (eifel_on_acceptable_ack t tsecr ece) else frto_on_ack t false);
  t ← complete_probe (now 0%nat) ack t;
  t ← update_congestion_window (λ i, now (1 + i)%nat) t bytes_acked;
  '(fast, t) ← loss_on_new_ack (λ i, now (4 + i)%nat) ack blocks t;
  let t := drain_retransmission_queue ack t in
  let t := tlp_arm (now 6%nat) t in
  let t := if had_unacked_fin && negb (has_fin t) then fin_acked (now 7%nat) prior_state t else t in
  Ret (a <| partial_retransmit_ack := partial |> <| fast_retransmit := fast |> <| run_send_queue := true |>, t).

(** A duplicate acknowledgement.  Two readings. *)
Definition rx_dup_ack (now : clock) (ack : Z) (blocks : list Sack.SackBlock) (a : rx_actions)
    (t : TcpControlBlock) : res (rx_actions * TcpControlBlock) :=
  n ← add_chk U32 (duplicate_ack_count t) 1;
  let t := t <| duplicate_ack_count := n |> in
  t ← (if Ts.enabled (ts t) then Ret t else frto_on_ack t true);
  let '(sack_lost_now, t) :=
    if Sack.enabled (sack t) then
      let t := sack_update (now 0%nat) ack blocks t in (sack_has_lost t, t)
    else (false, t) in
  if negb (in_fast_recovery t) && ((duplicate_ack_count t =? 3) || sack_lost_now) then
    let t := if Sack.enabled (sack t) then sack_enter_recovery t else t in
    t ← on_congestion_event (now 1%nat) (t <| in_fast_recovery := true |>);
    Ret (a <| fast_retransmit := true |> <| run_send_queue := true |>, t)
  else if in_fast_recovery t then
    let smss := Z.max (effective_mss t) 1 in
    let t := t <| cwnd := sat_add U32 (cwnd t) smss |>
               <| cwv; Cwv.cwnd_raw := sat_add U32 (Cwv.cwnd_raw (cwv t)) smss |> in
    Ret (a <| dup_recovery_inflate := true |> <| run_send_queue := true |>, t)
  else Ret (a, t).

(** The three cases of the acknowledgement, compared as plain integers. *)
Definition rx_ack_field (now : clock) (acceptable : bool) (ack : Z) (no_payload : bool)
    (tsecr : option Z) (ece : bool) (blocks : list Sack.SackBlock) (a : rx_actions)
    (t : TcpControlBlock) : res (rx_actions * TcpControlBlock) :=
  if negb acceptable then Ret (a <| send_ack := true |>, t)
  else if snd_una t <? ack then rx_new_ack now ack tsecr ece blocks a t
  else if (ack =? snd_una t) && no_payload && negb (zlen (retransmission_queue t) =? 0)
  then rx_dup_ack now ack blocks a t
  else if ack <? snd_una t then Ret (a <| send_ack := true |>, t)
  else Ret (a, t).

(** The receive side.  Readings: the arrival, then those of [rx_segment]. *)
Definition rx_receive (now : clock) (header : Hdr.TcpDatagramHeader) (payload : list Z)
    (a : rx_actions) (t : TcpControlBlock) : res (rx_actions * TcpControlBlock) :=
  let seq := Hdr.sequence_number header in
  if negb (is_segment_acceptable t seq (zlen payload mod U32)) then Ret (a <| send_ack := true |>, t)
  else
    t ← maybe_update_send_window t seq (Hdr.ack_number header) (Hdr.window_size header);
    let t := t <| last_rx_time := now 0%nat |> <| keepalive_count := 0 |> <| keepalive_deadline := None |> in
    '(ack_now, t) ← rx_segment (λ i, now (1 + i)%nat) (Hdr.get_flag header PSH) (Hdr.is_fin header)
                      seq payload t;
    Ret (a <| send_ack := send_ack a || ack_now |> <| run_send_queue := true |>, t).

Definition no_actions : rx_actions := mkActions false false false None false.

(** A segment that carries ACK and is no reset, under the lock. *)
Definition rx_established (now : clock) (header : Hdr.TcpDatagramHeader) (options payload : list Z)
    (ce : bool) (t : TcpControlBlock) : res (rx_actions * TcpControlBlock) :=
  let seq := Hdr.sequence_number header in
  let ack := Hdr.ack_number header in
  let ece := Hdr.get_flag header ECE in
  let t := rx_ecn ce (Hdr.get_flag header CWR) t in
  ts_opt ← find_timestamp options;
  '(keep, t) ← rx_timestamp now seq (Hdr.is_syn header) ts_opt t;
  match keep with
  | None => Ret (no_actions, t)
  | Some t =>
      blocks ← parse_sack_blocks options;
      let acceptable := is_acceptable_ack t ack in
      let a := no_actions <| send_ack := Ecn.enabled (ecn t) && Ecn.echo_pending (ecn t) && ce |> in
      '(a, t) ← rx_ece (now 3%nat) acceptable ece a t;
      '(a, t) ← rx_ack_field (λ i, now (4 + i)%nat) acceptable ack (zlen payload =? 0)
                  (snd <$> ts_opt) ece blocks a t;
      let process_receive :=
        acceptable && (negb (zlen payload =? 0) || Hdr.is_fin header
          || (negb (send_ack a) && negb (fast_retransmit a) && negb (dup_recovery_inflate a))) in
      if process_receive then rx_receive (λ i, now (12 + i)%nat) header payload a t else Ret (a, t)
  end.

(** The whole critical section. *)
Definition rx_locked (now : clock) (header : Hdr.TcpDatagramHeader) (options payload : list Z)
    (ce : bool) (t : TcpControlBlock) : res (rx_actions * TcpControlBlock) :=
  if Hdr.is_rst header then Ret (no_actions, reset_block t)
  else if negb (Hdr.is_ack header) then Ret (no_actions, t)
  else rx_established now header options payload ce t.

Definition run_actions (l : loc) (a : rx_actions) : M unit :=
  (if send_ack a then send_immediate_ack_unlocked l else mret tt);;
  (if fast_retransmit a then fast_retransmit_front l else mret tt);;
  (match partial_retransmit_ack a with
   | Some ack => retransmit_first_partial_ack l ack
   | None => mret tt
   end);;
  (if run_send_queue a then process_send_queue l else mret tt).

Definition process_data_datagram (payload : list Z) (header : Hdr.TcpDatagramHeader)
    (options : list Z) (l : loc) (ip_ecn : Z) : M unit :=
  let seq := Hdr.sequence_number header in
  let ce := Z.land ip_ecn 3 =? IP_ECN_CE in
  old ← (if negb (zlen payload =? 0) && negb (Hdr.is_rst header) then
           t ← read_tcb l;
           mret (sdiff (wadd seq (zlen payload mod U32)) (rcv_nxt t) <=? 0)
         else mret false);
  if old : bool then
    (if ce then critical l (λ t, lift (Ret (tt, note_ce t))) else mret tt);;
    send_immediate_ack_unlocked l
  else
    a ← critical l (λ t, now ← readings 15; lift (rx_locked now header options payload ce t));
    run_actions l a.

(** ** The end of a passive handshake *)

Definition syn_received_ack (header : Hdr.TcpDatagramHeader) (t : TcpControlBlock)
  : option Z * TcpControlBlock :=
  if bool_decide (state t ≠ SynReceived) || negb (Hdr.is_ack header) then (None, t)
  else
    let ack := Hdr.ack_number header in
    if negb (is_acceptable_ack t ack) then (None, t)
    else
      let t := drain_retransmission_queue ack (t <| snd_una := ack |>) in
      (Some (Tuple.local_port (tuple t)),
       t <| state := Established |> <| event := event_notify (event t) |>).

Definition process_syn_received_ack (l : loc) (header : Hdr.TcpDatagramHeader)
    (payload options : list Z) (ip_ecn : Z) : M unit :=
  if Hdr.is_rst header then critical l (λ t, lift (Ret (tt, reset_block t)))
  else
    local_port ← critical l (λ t, lift (Ret (syn_received_ack header t)));
    match local_port with
    | None => mret tt
    | Some port =>
        modify (λ w, w <| socket_table := enqueue_accepted_connection port l (socket_table w) |>);;
        if negb (zlen payload =? 0) || negb (zlen options =? 0)
        then process_data_datagram payload header options l ip_ecn
        else mret tt
    end.

(** ** Aborting ([driver/mod.rs]) *)

Definition abort_block (error : TcpError) (t : TcpControlBlock) : TcpControlBlock :=
  if bool_decide (state t = Closed) then t else
  let t := t <| state := Closed |> <| last_error := Some error |> <| retransmission_queue := [] |>
             <| rtt_m; Ts.probe := None |> <| persist_timer := None |> in
  let t := eifel_clear_pending t in
  t <| frto := Frto.frto_clear (frto t) |> <| event := event_notify (event t) |>.

Definition abort_connection (tuple : Tuple.ConnectionTuple) (error : TcpError) : M unit :=
  w ← get_world;
  match connections w !! tuple with
  | None => mret tt
  | Some l => critical l (λ t, lift (Ret (tt, abort_block error t)))
  end.

(** ** The entry point *)

(** Dispatch on the state of the connection. *)
Definition dispatch (l : loc) (st : TcpState) (tuple : Tuple.ConnectionTuple)
    (hdr : Hdr.TcpDatagramHeader) (options payload : list Z) (ip_ecn : Z) : M unit :=
  match st with
  | SynSent =>
      if Hdr.is_rst hdr then abort_connection tuple ConnectionReset
      else if Hdr.is_syn hdr && Hdr.is_ack hdr then process_syn_ack l hdr options
      else mret tt
  | SynReceived => process_syn_received_ack l hdr payload options ip_ecn
  | Established =>
      if Hdr.is_syn hdr && Hdr.is_ack hdr then process_syn_ack l hdr options
      else process_data_datagram payload hdr options l ip_ecn
  | FinWait1 | FinWait2 | CloseWait | Closing | LastAck =>
      process_data_datagram payload hdr options l ip_ecn
  | TimeWait =>
      if Hdr.is_fin hdr then
        critical l (λ t, now ← instant_now;
          lift (Ret (tt, t <| timewait_deadline := Some (instant_add now (secs 120)) |>)));;
        send_immediate_ack_unlocked l
      else mret tt
  | _ => mret tt
  end.

(** [true] is [Ok(())].  [frame] is the payload of the packet buffer, which
    the caller does not look at again. *)
Definition process_data (sender_ip target_ip : Ipv4Addr) (frame : list Z) (nic ip_ecn : Z) : M bool :=
  w ← get_world;
  match ifaces w !! nic with
  | None => mret false
  | Some _ =>
      o ← lift (open_frame sender_ip target_ip frame);
      match o with
      | RxErr => mret false
      | RxBadChecksum => mret true
      | RxSegment hdr options payload =>
          let tuple := Tuple.mkTuple target_ip (Hdr.dest_port hdr) sender_ip (Hdr.source_port hdr) in
          match connections w !! tuple with
          | Some l =>
              t ← read_tcb l;
              dispatch l (state t) tuple hdr options payload ip_ecn;;
              mret true
          | None =>
              if Hdr.is_rst hdr then mret true
              else if Hdr.is_syn hdr && negb (Hdr.is_ack hdr) then
                process_passive_syn tuple hdr options nic;; mret true
              else send_standalone_rst tuple hdr nic;; mret true
          end
      end
  end.
End WithLibm.

(** ** Findings on the receiving path *)

(** Acknowledgements across the wrap of the sequence space are not
    processed.  The acceptance test is modular, but the cases that follow
    compare the numbers as integers: an acceptable acknowledgement that has
    wrapped past SND.UNA is taken for a stale one.  SND.UNA stays, nothing
    leaves the retransmission queue, and the only effect is another ACK. *)
Theorem wrapped_ack_not_processed `{Libm} now t ack np tsecr ece blocks a :
  is_acceptable_ack t ack = true → ack < snd_una t →
  rx_ack_field now (is_acceptable_ack t ack) ack np tsecr ece blocks a t
    = Ret (a <| send_ack := true |>, t).
Proof.
  intros Hacc Hlt. unfold rx_ack_field. rewrite Hacc. simpl.
  destruct (Z.ltb_spec (snd_una t) ack); [lia|].
  destruct (Z.eqb_spec ack (snd_una t)); [lia|]. simpl.
  destruct (Z.ltb_spec ack (snd_una t)); [reflexivity|lia].
Qed.

#[local] Instance sample_libm : Libm := {| cbrt := λ x, x |}.

(** Sixteen bytes in flight across the wrap, all acknowledged. *)
Lemma wrapped_ack_not_processed_witness :
  let t := sample_flight <| snd_una := 4294967288 |> <| snd_nxt := 8 |>
             <| retransmission_queue := [Seg.fresh 4294967288 (zeros 16) 24 0 0] |> in
  wsub 8 (snd_una t) = 16 ∧
  rx_ack_field (λ _, 0) (is_acceptable_ack t 8) 8 true None false [] no_actions t
    = Ret (no_actions <| send_ack := true |>, t).
Proof.
  intros t. split; [reflexivity|].
  apply (wrapped_ack_not_processed (λ _, 0) t 8); [reflexivity|vm_compute; reflexivity].
Defined.

(** C40: The active open never completes.  [process_syn_ack] holds the write
    guard of the connection until it returns, and its last statement takes
    the same lock for reading: whatever the segment, when a connection in
    SYN-SENT gets an acceptable SYN-ACK the handler does not return. *)
Theorem syn_ack_never_returns l w t header options r :
  heap w !! l = Some (mkCell false t) → state t = SynSent → Hdr.is_rst header = false →
  is_acceptable_ack t (Hdr.ack_number header) = true →
  process_syn_ack l header options w ≠ Ret r.
Proof.
  intros Hl Hst Hrst Hacc. unfold process_syn_ack, mbind at 1, M_bind at 1, acquire.
  rewrite Hl, Hrst, Hst, Hacc. rewrite bool_decide_eq_false_2 by discriminate.
  rewrite bool_decide_eq_false_2 by tauto. cbn [negb].
  unfold mbind, M_bind, lift, readings, net_send_from_tcb, instant_now, mret, M_ret. cbv beta iota.
  destruct (syn_ack_accept _ header options t) as [t1|]; [|discriminate].
  destruct (Hdr.hdr_new t1) as [h|]; [|discriminate].
  unfold transmit, net_send_tcp_datagram_with_options, mbind, M_bind, lift, ipv4_send. cbv beta iota.
  destruct (prepare _ _ _ t1) as [[[o v] t2]|]; [|discriminate].
  destruct (build_segment _ _ _ _) as [seg|]; [|discriminate].
  unfold read_tcb. cbv beta iota. rsimp. rewrite lookup_insert_eq. discriminate.
Qed.

Definition sample_synsent : TcpControlBlock :=
  sample_tcb <| state := SynSent |> <| snd_nxt := 1001 |>
    <| retransmission_queue := [Seg.fresh 1000 [] SYN 0 0] |>.

Definition sample_synack : Hdr.TcpDatagramHeader := Hdr.mkHdr 80 49152 5000 1001 80 18 64240 0 0.

Lemma syn_ack_never_returns_witness :
  process_syn_ack 1%positive sample_synack [2; 4; 5; 180] (sample_world sample_synsent) = Crash Deadlock ∧
  process_syn_ack 1%positive sample_synack [2; 4; 5; 180] (sample_world sample_synsent)
    ≠ Ret (tt, sample_world sample_synsent).
Proof.
  split; [vm_compute; reflexivity|].
  apply (syn_ack_never_returns _ _ sample_synsent); reflexivity.
Defined.

(** A FIN is taken out of order.  When a segment with payload and FIN
    arrives ahead of RCV.NXT, the payload is discarded (without SACK) but the
    FIN still counts: RCV.NXT moves by one over a byte that never arrived,
    and an established connection goes to CLOSE-WAIT. *)
Theorem fin_taken_out_of_order now psh seq payload t :
  Sack.enabled (sack t) = false → seq ≠ rcv_nxt t → payload ≠ [] → state t = Established →
  returns (rx_segment now psh true seq payload t) (λ '(ack, t'),
    ack = true ∧ receive_buffer t' = receive_buffer t ∧
    rcv_nxt t' = wadd (rcv_nxt t) 1 ∧ state t' = CloseWait).
Proof.
  intros Hs Hseq Hp Hst. unfold rx_segment, rx_payload. destruct payload as [|x payload]; [done|].
  destruct (Z.eqb_spec seq (rcv_nxt t)); [done|]. unfold rx_out_of_order. rewrite Hs, !ret_bind.
  unfold handle_fin_flag. rsimp. rewrite Hst. unfold rx_ack. rsimp. rewrite orb_true_r, !orb_true_l.
  apply returns_ret. rewrite ?orb_true_r. rsimp. auto.
Qed.

Lemma fin_taken_out_of_order_witness :
  returns (rx_segment (λ _, 0) false true 5011 [1; 2] sample_tx) (λ '(ack, t'),
    ack = true ∧ receive_buffer t' = receive_buffer sample_tx ∧ rcv_nxt t' = 5002 ∧ state t' = CloseWait).
Proof. apply (fin_taken_out_of_order (λ _, 0) false 5011 [1; 2] sample_tx); [reflexivity|discriminate..|reflexivity]. Defined.

(** An incoming frame can stop the kernel.  A frame from any address, on
    any configured interface, with a correct checksum and a data offset below
    five words makes [process_data] panic before any connection is looked
    up. *)
Theorem process_data_panics_on_short_offset `{Libm} w sender target frame nic ecn h addr :
  ifaces w !! nic = Some addr → ip_ok sender → ip_ok target → bytes frame → zlen frame < U16 →
  hdr_read frame = Some h → Hdr.header_len_bytes h < 20 →
  Hdr.checksum h = internet_checksum sender target (hdr_bytes (h <| Hdr.checksum := 0 |>) ++ zdrop 20 frame) →
  process_data sender target frame nic ecn w = Crash Panic.
Proof.
  intros Hif Hs Ht Hb Hl Hh Hn Hc. unfold process_data, mbind, M_bind, get_world, lift. rewrite Hif.
  rewrite (open_short_offset sender target frame h) by assumption. reflexivity.
Qed.

Lemma process_data_panics_on_short_offset_witness :
  process_data (10, 0, 2, 2) (10, 0, 2, 15) hostile_frame 1 0 (sample_world sample_tx) = Crash Panic.
Proof.
  apply (process_data_panics_on_short_offset (sample_world sample_tx) (10, 0, 2, 2) (10, 0, 2, 15)
    hostile_frame 1 0 (default sample_synack (hdr_read hostile_frame)) (Some (10, 0, 2, 15)));
    try (vm_compute; reflexivity); repeat constructor; vm_compute; discriminate.
Defined.
