(* ===== verification/TcpAck.v ===== *)
(** * Acknowledgement processing

    Properties of the acknowledgement half of [process_data_datagram]
    ([TcpRecv.rx_new_ack]): totality, the invariants it keeps, and the state
    it leaves. *)

From S2P Require Import Prelude Time ReceiveBuffer TcpTypes TcpOptions TcpChecksum TcpSack TcpReassembly TcpCc.
From S2P Require Import TcpTimestamp TcpRecovery TcpPacing TcpEcn NetWorld TcpOutOptions TcpWire TcpSend TcpRetransmit.
From S2P Require Import SocketTable TcpRecv.

(** ** What loss detection leaves alone *)

(** A queue entry without its marks. *)
Definition seg_core (s : Seg.UnackedSegment) : Z * list Z * Z := (Seg.seq s, Seg.data s, Seg.flags s).

(** The control block without the congestion window and the marks. *)
Definition base_view (t : TcpControlBlock) :=
  (tuple t, socket t, (snd_una t, snd_nxt t, rcv_nxt t, rcv_wnd t, rcv_wscale t),
   (snd_wnd t, effective_mss t, state t),
   (Sack.rx_ranges (sack t), Sack.rx_range_len (sack t), Sack.rx_recent (sack t)),
   Ts.ts_recent (ts t), send_buffer t, seg_core <$> retransmission_queue t).

Lemma core_same s s' : seg_core s' = seg_core s →
  Seg.seq s' = Seg.seq s ∧ Seg.data s' = Seg.data s ∧ Seg.flags s' = Seg.flags s.
Proof. unfold seg_core. intros [=]. auto. Qed.

Lemma core_queue_ind (P : list Seg.UnackedSegment → list Seg.UnackedSegment → Prop) :
  P [] [] → (∀ s s' q q', seg_core s' = seg_core s → P q q' → P (s :: q) (s' :: q')) →
  ∀ q q', seg_core <$> q' = seg_core <$> q → P q q'.
Proof.
  intros H0 Hc q. induction q as [|s q IH]; intros [|s' q']; rewrite ?fmap_cons; try done.
  intros E. injection E as E1 E2. apply Hc; [|by apply IH]. unfold seg_core. congruence.
Qed.

Lemma core_segs_ok q q' : seg_core <$> q' = seg_core <$> q → Forall seg_ok q → Forall seg_ok q'.
Proof.
  revert q q'. apply (core_queue_ind (λ q q', Forall seg_ok q → Forall seg_ok q')); [done|].
  intros s s' q q' (E1 & E2 & E3)%core_same IH [[] Hq]%Forall_cons. constructor; [|auto].
  constructor; rewrite ?E1, ?E2, ?E3; assumption.
Qed.

Lemma core_span s s' : seg_core s' = seg_core s → seg_span s' = seg_span s ∧ Seg.end_seq s' = Seg.end_seq s ∧
  Seg.is_fin s' = Seg.is_fin s.
Proof.
  intros (E1 & E2 & E3)%core_same. unfold seg_span, Seg.end_seq, Seg.is_syn, Seg.is_fin.
  rewrite E1, E2, E3. auto.
Qed.

Lemma core_chain q q' u n : seg_core <$> q' = seg_core <$> q →
  (chain u q n → chain u q' n) ∧ span_sum q' = span_sum q ∧ (∀ k, una_at q k → una_at q' k).
Proof.
  intros E. revert u. revert q q' E.
  apply (core_queue_ind (λ q q', ∀ u, (chain u q n → chain u q' n) ∧ span_sum q' = span_sum q ∧
    (∀ k, una_at q k → una_at q' k))); [auto|].
  intros s s' q q' E IH u. destruct (core_span _ _ E) as (Hs & _ & _). apply core_same in E as (E1 & _).
  rewrite !span_sum_cons. simpl. rewrite Hs, E1. destruct (IH (wadd u (seg_span s))) as (IH1 & -> & _).
  repeat split; try tauto; intuition.
Qed.

Lemma core_unacked ack q q' : seg_core <$> q' = seg_core <$> q →
  seg_core <$> unacked ack q' = seg_core <$> unacked ack q.
Proof.
  revert q q'. apply (core_queue_ind (λ q q', seg_core <$> unacked ack q' = seg_core <$> unacked ack q)); [done|].
  intros s s' q q' E IH. unfold unacked in *. rewrite !filter_cons.
  assert (Hu : uncovered ack s' = uncovered ack s)
    by (unfold uncovered; destruct (core_span _ _ E) as (_ & -> & _); reflexivity).
  rewrite Hu. destruct (decide _); [rewrite !fmap_cons, IH, E; reflexivity|exact IH].
Qed.

Lemma core_has_fin q q' : seg_core <$> q' = seg_core <$> q → existsb Seg.is_fin q' = existsb Seg.is_fin q.
Proof.
  revert q q'. apply (core_queue_ind (λ q q', existsb Seg.is_fin q' = existsb Seg.is_fin q)); [done|].
  intros s s' q q' E IH. simpl. destruct (core_span _ _ E) as (_ & _ & ->). rewrite IH. reflexivity.
Qed.

Lemma tcb_ok_base t t' : base_view t' = base_view t → u32 (cwnd t') → tcb_ok t → tcb_ok t'.
Proof.
  unfold base_view. intros [= E1 E2 E3 E4 E5 E6 E7 E8 E9 E10 E11 E12 E13 E14 E15 E16] Hc [].
  constructor; rewrite ?E1, ?E2, ?E3, ?E4, ?E5, ?E6, ?E7, ?E8, ?E9, ?E14, ?E15; try assumption.
  - by apply (board_ok_ext (sack t)).
  - by apply (core_segs_ok (retransmission_queue t)).
Qed.

Lemma tracks_base t t' : base_view t' = base_view t → tracks t → tracks t'.
Proof.
  unfold base_view. intros [= _ _ E3 E4 _ _ _ _ _ _ _ _ _ _ _ E16] (u & k & Hu & Hc & Hn & Hat & Hs).
  destruct (core_chain _ _ u (snd_nxt t) E16) as (Hc1 & Hs1 & Ha1).
  exists u, k. rewrite E3, E4, Hs1. auto 6.
Qed.

(** ** Windows that loss detection may undo

    [W] bounds the windows, the saved ones included. *)

Record wins (W : Z) (t : TcpControlBlock) : Prop := {
  w_cc : cc_ok t;
  w_cwnd : cwnd t ≤ W;
  w_raw : Cwv.cwnd_raw (cwv t) ≤ W;
  w_undo : 0 ≤ Sack.undo_cwnd (sack t) ≤ W;
  w_undo_ss : u32 (Sack.undo_ssthresh (sack t));
  w_cubic : ∃ c, congestion_control t = CcCubic c ∧ 0 ≤ Cubic.beta c ≤ 1024
}.

(** Loss detection: only marks, counters and, on a D-SACK, windows. *)
Definition detects (W : Z) (t t' : TcpControlBlock) : Prop :=
  base_view t' = base_view t ∧ (wins W t → wins W t').

Lemma detects_refl W t : detects W t t.
Proof. split; auto. Qed.

Lemma detects_trans W t1 t2 t3 : detects W t1 t2 → detects W t2 t3 → detects W t1 t3.
Proof. intros [E1 H1] [E2 H2]. split; [congruence|auto]. Qed.

Lemma detects_foldl {A} W (f : TcpControlBlock → A → TcpControlBlock) l t :
  (∀ t x, detects W t (f t x)) → detects W t (foldl f t l).
Proof.
  intros Hf. revert t. induction l as [|x l IH]; intros t; simpl; [apply detects_refl|].
  eapply detects_trans; [apply Hf|apply IH].
Qed.

(** An update of the queue's marks and of SACK counters. *)
Lemma detects_marks W t q s :
  seg_core <$> q = seg_core <$> retransmission_queue t →
  Sack.rx_ranges s = Sack.rx_ranges (sack t) → Sack.rx_range_len s = Sack.rx_range_len (sack t) →
  Sack.rx_recent s = Sack.rx_recent (sack t) → Sack.undo_cwnd s = Sack.undo_cwnd (sack t) →
  Sack.undo_ssthresh s = Sack.undo_ssthresh (sack t) →
  detects W t (t <| retransmission_queue := q |> <| sack := s |>).
Proof.
  intros Hq H1 H2 H3 H4 H5. split.
  - unfold base_view. rsimp. rewrite Hq, H1, H2, H3. reflexivity.
  - intros [[] ? ? ? ? ?]. constructor; rsimp; rewrite ?H4, ?H5; try assumption.
    constructor; rsimp; assumption.
Qed.

Lemma detects_sack W t s :
  Sack.rx_ranges s = Sack.rx_ranges (sack t) → Sack.rx_range_len s = Sack.rx_range_len (sack t) →
  Sack.rx_recent s = Sack.rx_recent (sack t) → Sack.undo_cwnd s = Sack.undo_cwnd (sack t) →
  Sack.undo_ssthresh s = Sack.undo_ssthresh (sack t) → detects W t (t <| sack := s |>).
Proof.
  intros. replace (t <| sack := s |>) with (t <| retransmission_queue := retransmission_queue t |> <| sack := s |>)
    by (destruct t; reflexivity). by apply detects_marks.
Qed.

Lemma core_sack_segments b q h : seg_core <$> (sack_segments b q h).1 = seg_core <$> q.
Proof.
  revert h. induction q as [|s q IH]; intros h; simpl; [reflexivity|].
  destruct (sack_segment b s h) as [s' h'] eqn:E. specialize (IH h').
  destruct (sack_segments b q h') as [q' h'']. cbn [fst]. rewrite !fmap_cons. simpl in IH. f_equal; [|exact IH].
  unfold sack_segment in E. destruct (Seg.sacked s); [|destruct (Sack.covers _ _ _)]; injection E as <- <-; reflexivity.
Qed.

Lemma core_mark_seq q seq : seg_core <$> (mark_seq q seq).1 = seg_core <$> q.
Proof.
  induction q as [|s q IH]; simpl; [reflexivity|].
  destruct (Seg.seq s =? seq); [destruct (_ && _); reflexivity|].
  destruct (mark_seq q seq) as [q' b]. cbn [fst]. rewrite !fmap_cons. simpl in IH. f_equal. exact IH.
Qed.

Lemma core_rack_mark x w q m : seg_core <$> (rack_mark x w q m).1 = seg_core <$> q.
Proof.
  revert m. induction q as [|s q IH]; intros m; simpl; [reflexivity|].
  destruct (rack_lost x w s).
  - specialize (IH (sat_add U32 m 1)). destruct (rack_mark _ _ q _) as [q' m']. cbn [fst]. rewrite !fmap_cons.
    simpl in IH. f_equal. exact IH.
  - specialize (IH m). destruct (rack_mark _ _ q _) as [q' m']. cbn [fst]. rewrite !fmap_cons. simpl in IH. f_equal. exact IH.
Qed.

Lemma detects_undo W t : MSS ≤ W < U32 → detects W t (sack_dsack_undo t).
Proof.
  intros HW. unfold sack_dsack_undo. cbv zeta. destruct (Sack.undo_pending (sack t)).
  - split; [destruct t; reflexivity|]. intros [[] ? ? ? ? ?]. unfold MSS in *.
    constructor; rsimp; try assumption; [constructor; rsimp; ints; try assumption; try lia|lia|lia].
  - eapply detects_trans; apply detects_sack; reflexivity.
Qed.

Lemma detects_block W ack t b : MSS ≤ W < U32 → detects W t (sack_block_apply ack t b).
Proof.
  intros HW. unfold sack_block_apply. destruct (_ <=? _).
  - eapply detects_trans; [|by apply detects_undo]. apply detects_sack; reflexivity.
  - pose proof (core_sack_segments b (retransmission_queue t) (Sack.high_sacked (sack t))) as Hc.
    destruct (sack_segments _ _ _) as [q h]. by apply detects_marks.
Qed.

Lemma detects_candidate W th t seq : detects W t (mark_candidate th t seq).
Proof.
  unfold mark_candidate. destruct (_ <? _); [apply detects_refl|].
  pose proof (core_mark_seq (retransmission_queue t) seq) as Hc.
  destruct (mark_seq _ seq) as [q [|]]; [by apply detects_marks|].
  replace (t <| retransmission_queue := q |>) with (t <| retransmission_queue := q |> <| sack := sack t |>)
    by (destruct t; reflexivity). by apply detects_marks.
Qed.

Lemma detects_rack W now t : detects W t (rack_detect now t).
Proof.
  unfold rack_detect. cbv zeta.
  match goal with |- context [rack_update_reordering_winow ?x] => set (t1 := x) end.
  assert (H1 : detects W t t1).
  { unfold t1. destruct (newest_xmit _); [|apply detects_refl]. destruct (_ <? _); [|apply detects_refl].
    destruct (_ <? now); [|apply detects_sack; reflexivity].
    eapply detects_trans; apply detects_sack; reflexivity. }
  set (t2 := rack_update_reordering_winow t1).
  assert (H2 : detects W t1 t2)
    by (unfold t2, rack_update_reordering_winow; destruct (_ <? _); apply detects_sack; reflexivity).
  eapply detects_trans; [exact H1|]. eapply detects_trans; [exact H2|].
  match goal with |- context [rack_mark ?a ?b ?c ?d] => pose proof (core_rack_mark a b c d) as Hc end.
  destruct (rack_mark _ _ _ _) as [q m]. by apply detects_marks.
Qed.

Lemma detects_update W now ack blocks t : MSS ≤ W < U32 → detects W t (sack_update now ack blocks t).
Proof.
  intros HW. unfold sack_update. eapply detects_trans; [|apply detects_rack].
  eapply detects_trans; [|unfold sack_mark_lost; apply detects_foldl; intros; apply detects_candidate].
  unfold sack_tx_apply. destruct blocks as [|b blocks]; [apply detects_refl|].
  match goal with |- detects W t (foldl _ ?x _) => apply (detects_trans W t x) end;
    [apply detects_sack; reflexivity|]. apply detects_foldl. intros. by apply detects_block.
Qed.

(** ** The steps of an advancing acknowledgement *)

(** Everything congestion control does not own. *)
Definition cc_only (t t' : TcpControlBlock) : Prop :=
  t' = t <| cwnd := cwnd t' |> <| ssthresh := ssthresh t' |> <| cwv := cwv t' |> <| abc := abc t' |>
         <| congestion_control := congestion_control t' |> <| in_fast_recovery := in_fast_recovery t' |>.

Lemma cc_only_base t t' : cc_only t t' → base_view t' = base_view t ∧ sack t' = sack t ∧ ts t' = ts t ∧
  eifel t' = eifel t ∧ frto t' = frto t ∧ rtt_m t' = rtt_m t ∧ srtt t' = srtt t ∧ rttvar t' = rttvar t.
Proof. intros ->. repeat split. Qed.

Lemma recovery_on_ack_spec W ack t :
  2 * MSS ≤ W < 2 ^ 29 → wins W t → (in_fast_recovery t = true → ssthresh t ≤ W) →
  returns (recovery_on_ack ack t) (λ '(p, t'), cc_only t t' ∧ wins (W + 3 * MSS) t' ∧
    p = (if in_fast_recovery t && negb (0 <=? sdiff ack (recover_point t)) then Some ack else None)).
Proof.
  intros HW Hw Hss. pose proof Hw as [[] ? ? ? ? ?]. unfold MSS in *. unfold recovery_on_ack.
  destruct (in_fast_recovery t) eqn:Ef; [specialize (Hss eq_refl)|].
  - destruct (0 <=? sdiff ack (recover_point t)).
    + apply returns_ret. split; [unfold cc_only; destruct t; reflexivity|]. split; [|reflexivity].
      constructor; rsimp; unfold MSS; try assumption; try lia.
      constructor; unfold Abc.clear_accumulators; rsimp; unfold MSS; ints; assumption || lia.
    + rewrite (Z.max_l (effective_mss t) 1) by lia. ints. run. apply returns_ret.
      split; [unfold cc_only; destruct t; reflexivity|]. split; [|reflexivity].
      constructor; rsimp; unfold MSS; try assumption; try lia.
      constructor; rsimp; unfold MSS; ints; assumption || lia.
  - apply returns_ret. split; [unfold cc_only; destruct t; reflexivity|]. split; [|reflexivity].
    constructor; unfold MSS; try assumption; try lia. constructor; assumption.
Qed.

(** Only measurement state changes. *)
Definition probe_only (t t' : TcpControlBlock) : Prop :=
  base_view t' = base_view t ∧ (∀ W, wins W t → wins W t') ∧
  in_fast_recovery t' = in_fast_recovery t ∧ eifel t' = eifel t ∧ frto t' = frto t.

Lemma complete_probe_spec B now ack t :
  0 < B < 2 ^ 61 → rtt_ok B t → 0 ≤ now ≤ B →
  (∀ p, Ts.probe (rtt_m t) = Some p → 0 ≤ Ts.sent_at p) →
  returns (complete_probe now ack t) (probe_only t).
Proof.
  intros HB Hr Hn Hp. unfold complete_probe.
  assert (Hid : probe_only t t) by (split; [reflexivity|]; split; auto).
  destruct (Ts.probe (rtt_m t)) as [p|] eqn:Ep; [|by apply returns_ret].
  destruct (0 <=? sdiff ack (Ts.end_ p)); [|by apply returns_ret]. cbv zeta.
  specialize (Hp p eq_refl). set (diff := elapsed now (Ts.sent_at p)).
  assert (Hd : 0 ≤ diff ≤ B) by (unfold diff, elapsed, sat_sub; lia).
  set (t1 := t <| rtt_m; Ts.probe := None |> <| rtt_m; Ts.last_probe_sample := Some diff |>).
  assert (H1 : probe_only t t1).
  { split; [reflexivity|]. split; [|auto]. intros W [[] ? ? ? ? ?]. constructor; try assumption. by constructor. }
  destruct (Ts.enabled (ts t1)); [by apply returns_ret|].
  eapply returns_mono; [by apply (update_rtt_spec B t1 diff)|]. intros t' ([Hf Hs] & _).
  destruct H1 as (Hv & Hw & ? & ? & ?). split; [|split; [|rewrite Hf; auto]].
  - rewrite <- Hv, Hf. unfold base_view. rsimp. rewrite Hs. reflexivity.
  - intros W HW. specialize (Hw W HW). destruct Hw as [[] ? ? ? ? ?]. rewrite Hf.
    constructor; rsimp; try (rewrite Hs; rsimp); try assumption. constructor; assumption.
Qed.

Lemma loss_on_new_ack_spec `{Libm} W now ack blocks t :
  MSS ≤ W ≤ 2 ^ 28 → wins W t →
  returns (loss_on_new_ack now ack blocks t) (λ '(fast, t'),
    base_view t' = base_view t ∧ cc_ok t').
Proof.
  intros HW Hw. unfold loss_on_new_ack. destruct (Sack.enabled (sack t)).
  2: { apply returns_ret. split; [reflexivity|apply Hw]. }
  destruct (detects_update W (now 0%nat) ack blocks t) as [Hv Hd]; [lia|]. specialize (Hd Hw).
  set (t1 := sack_update _ _ _ _) in *. clearbody t1. cbv zeta.
  destruct (negb (in_fast_recovery t1) && sack_has_lost t1).
  2: { apply returns_ret. split; [assumption|apply Hd]. }
  pose proof Hd as [Hcc Hc1 Hr1 _ _ (c & Hc & Hb)].
  set (t2 := (sack_enter_recovery t1) <| in_fast_recovery := true |>).
  destruct (congestion_event_spec (now 1%nat) t2) as (t3 & -> & Hok3 & Hf3 & _).
  - destruct Hcc. constructor; assumption.
  - unfold t2, sack_enter_recovery. rsimp. lia.
  - unfold t2, sack_enter_recovery. rsimp. lia.
  - intros c' Hc'. assert (c' = c) as -> by (unfold t2, sack_enter_recovery in Hc'; rsimp_all; congruence).
    assumption.
  - rewrite ret_bind. apply returns_ret. split; [|assumption]. rewrite <- Hv, Hf3. reflexivity.
Qed.

(** ** The whole step *)

(** A well-formed connection on CUBIC, windows and flight below 2^27 bytes,
    estimators built from samples of at most [B].  A retransmission timeout may
    be under judgement, by Eifel or by F-RTO; then no new data has been sent
    since. *)
Record ack_ready (B : Z) (t : TcpControlBlock) : Prop := {
  ar_tcb : tcb_ok t;
  ar_tracks : tracks t;
  ar_wins : wins (2 ^ 27) t;
  ar_ssthresh : in_fast_recovery t = true → ssthresh t ≤ 2 ^ 27;
  ar_rtt : rtt_ok B t;
  ar_probe : ∀ p, Ts.probe (rtt_m t) = Some p → 0 ≤ Ts.sent_at p;
  ar_flight : flight_size_bytes t ≤ 2 ^ 27;
  ar_eifel : ∀ x, Eifel.retransmit_ts (eifel t) = Some x → Eifel.snd_max (eifel t) = Some (snd_nxt t) ∧
               ∀ p, Eifel.pipe_prev (eifel t) = Some p → u32 p;
  ar_frto : u32 (Frto.prev_ssthresh (frto t))
}.

(** The judgement of a timeout, whichever of the two methods makes it. *)
Definition judge (tsecr : option Z) (ece : bool) (t : TcpControlBlock) : res TcpControlBlock :=
  if Ts.enabled (ts t) then Ret (eifel_on_acceptable_ack t tsecr ece) else frto_on_ack t false.

(** Windows set anew from the flight. *)
Lemma wins_reset W (c ss : Z) t t' : wins W t → 0 ≤ c ≤ W → W < U32 → u32 ss → cwnd t' = c → Cwv.cwnd_raw (cwv t') = c →
  ssthresh t' = ss → sack t' = sack t → congestion_control t' = congestion_control t → effective_mss t' = effective_mss t →
  Cwv.pipe_max (cwv t') = Cwv.pipe_max (cwv t) → abc t' = Abc.clear_accumulators (abc t) → wins W t'.
Proof.
  intros [[] ? ? ? ? ?] Hc HW Hs E1 E2 E3 E4 E5 E6 E7 E8.
  constructor; rewrite ?E1, ?E2, ?E4, ?E5; try assumption; try lia.
  constructor; rewrite ?E1, ?E2, ?E3, ?E6, ?E7, ?E8; unfold Abc.clear_accumulators; rsimp; ints; assumption || lia.
Qed.

Lemma wins_same W t t' : wins W t → cwnd t' = cwnd t → cwv t' = cwv t → ssthresh t' = ssthresh t → sack t' = sack t →
  congestion_control t' = congestion_control t → effective_mss t' = effective_mss t → abc t' = abc t → wins W t'.
Proof.
  intros [[] ? ? ? ? ?] E1 E2 E3 E4 E5 E6 E7. constructor; rewrite ?E1, ?E2, ?E4, ?E5; try assumption.
  constructor; rewrite ?E1, ?E2, ?E3, ?E6, ?E7; assumption.
Qed.

(** The fields that the rest of the handler reads are left alone. *)
Definition judged (t t' : TcpControlBlock) : Prop :=
  base_view t' = base_view t ∧ rtt_m t' = rtt_m t ∧ srtt t' = srtt t ∧ rttvar t' = rttvar t.

Lemma judge_spec W tsecr ece t :
  wins W t → flight_size_bytes t + 3 * MSS ≤ W < U32 → 0 ≤ Eifel.bytes_acked (eifel t) →
  (∀ x, Eifel.retransmit_ts (eifel t) = Some x → Eifel.snd_max (eifel t) = Some (snd_nxt t) ∧
     ∀ p, Eifel.pipe_prev (eifel t) = Some p → u32 p) →
  u32 (Frto.prev_ssthresh (frto t)) →
  returns (judge tsecr ece t) (λ t', wins W t' ∧ judged t t').
Proof.
  intros Hw HW Hb He Hf. assert (Hfl : u32 (flight_size_bytes t)) by apply wsub_u32.
  pose proof Hw as [[] ? ? ? ? ?]. unfold judge, MSS in *. destruct (Ts.enabled (ts t)) eqn:Et.
  - apply returns_ret. unfold eifel_on_acceptable_ack. destruct (Eifel.retransmit_ts (eifel t)) as [x|]; [|by split].
    destruct (He x eq_refl) as [Hm Hp]. rewrite Hm.
    assert (Hclear : wins W (eifel_clear_pending t) ∧ judged t (eifel_clear_pending t))
      by (split; [by apply (wins_same W t)|by repeat split]).
    destruct tsecr as [y|]; [|assumption]. destruct (_ || _); [assumption|]. cbn [default from_option]. cbv zeta. unfold EIFEL_IW_BYTES.
    assert (Hd : u32 (default (flight_size_bytes t) (Eifel.pipe_prev (eifel t)))).
    { destruct (Eifel.pipe_prev (eifel t)) as [p|]; [by apply Hp|assumption]. }
    split.
    + eapply (wins_reset W (sat_add U32 (flight_size_bytes t) (Z.min (Eifel.bytes_acked (eifel t)) 4380)));
        [exact Hw|unfold sat_add; ints; lia|lia|exact Hd|..]; destruct (0 <=? _); reflexivity.
    + destruct (0 <=? _); by repeat split.
  - unfold frto_on_ack. rewrite Et. destruct (Frto.phase (frto t)); [by apply returns_ret| |].
    + apply returns_ret. split; [|by repeat split]. cbv zeta.
      constructor; rsimp; unfold MSS in *; try assumption; try (ints; lia). constructor; rsimp; unfold MSS; ints; assumption || lia.
    + unfold frto_declare_spurious. cbv zeta. rewrite (Z.max_l (effective_mss t) 1) by lia. rewrite mul_chk_ret, ret_bind by lia.
      apply returns_ret. split; [|by repeat split].
      apply (wins_reset W (Z.max (sat_add U32 (flight_size_bytes t) (effective_mss t)) (2 * effective_mss t))
        (Z.max (Frto.prev_ssthresh (frto t)) (Z.max (2 * effective_mss t) (ssthresh t))) t);
        [exact Hw|unfold sat_add; ints; lia|lia| |reflexivity..]. ints. lia.
Qed.

Lemma acked_flight t ack : u32 (snd_una t) → u32 ack → u32 (snd_nxt t) → is_acceptable_ack t ack = true →
  wsub (snd_nxt t) ack ≤ wsub (snd_nxt t) (snd_una t).
Proof. unfold is_acceptable_ack. intros ? ? ? ?%Z.leb_le. unfold wsub in *. mlia. Qed.

(** The state after our FIN is acknowledged. *)
Definition fin_next (s : TcpState) : TcpState :=
  match s with FinWait1 => FinWait2 | Closing => TimeWait | LastAck => Closed | s => s end.

(** What the bookkeeping at the end leaves. *)
Lemma finish_ack_spec now now' ack prior (fin : bool) t t1 t2 :
  t1 = tlp_arm now (drain_retransmission_queue ack t) →
  t2 = (if fin && negb (has_fin t1) then fin_acked now' prior t1 else t1) →
  state t = prior → cc_ok t →
  cc_ok t2 ∧ base_view t2 = base_view (t <| retransmission_queue := unacked ack (retransmission_queue t) |>
    <| state := if fin && negb (existsb Seg.is_fin (unacked ack (retransmission_queue t)))
                then fin_next (state t) else state t |>).
Proof.
  intros E1 E2 <- Hcc.
  assert (Hq1 : t1 = t <| retransmission_queue := unacked ack (retransmission_queue t) |> <| sack := sack t1 |> ∧
    Sack.rx_ranges (sack t1) = Sack.rx_ranges (sack t) ∧ Sack.rx_range_len (sack t1) = Sack.rx_range_len (sack t) ∧
    Sack.rx_recent (sack t1) = Sack.rx_recent (sack t)).
  { rewrite E1. unfold tlp_arm, drain_retransmission_queue. destruct (_ || _); rsimp;
      (split; [destruct t; reflexivity|auto]). }
  destruct Hq1 as (Hq1 & S1 & S2 & S3). clear E1.
  assert (Hf : has_fin t1 = existsb Seg.is_fin (unacked ack (retransmission_queue t)))
    by (unfold has_fin; rewrite Hq1; reflexivity).
  rewrite Hf in E2. rewrite E2. destruct (fin && _).
  - unfold fin_acked. split; [destruct Hcc; destruct (state t); rewrite Hq1; constructor; assumption|].
    rewrite Hq1. unfold base_view.
    destruct (state t) eqn:Es; rsimp; rewrite ?S1, ?S2, ?S3, ?Es; reflexivity.
  - split; [destruct Hcc; rewrite Hq1; constructor; assumption|].
    rewrite Hq1. unfold base_view. rsimp. rewrite S1, S2, S3. reflexivity.
Qed.

(** The whole of the bookkeeping, on a block that so far agrees with [t] but
    for SND.UNA: the queue is drained, the block stays well formed and the FIN
    transitions are taken. *)
Lemma finish_new_ack now now' ack prior (fin : bool) t t5 :
  tcb_ok t → tracks t → u32 ack → is_acceptable_ack t ack = true →
  base_view t5 = base_view (t <| snd_una := ack |>) → cc_ok t5 → prior = state t → fin = has_fin t →
  ∀ t1 t2, t1 = tlp_arm now (drain_retransmission_queue ack t5) →
  t2 = (if fin && negb (has_fin t1) then fin_acked now' prior t1 else t1) →
  tcb_ok t2 ∧ cc_ok t2 ∧ tracks t2 ∧ snd_una t2 = ack ∧ snd_nxt t2 = snd_nxt t ∧
  seg_core <$> retransmission_queue t2 = seg_core <$> unacked ack (retransmission_queue t) ∧
  state t2 = (if has_fin t && negb (existsb Seg.is_fin (unacked ack (retransmission_queue t)))
              then fin_next (state t) else state t).
Proof.
  intros Htcb Htr Hack Hacc Hv Hcc5 -> -> t1 tf E1 E2.
  assert (Hproj : state t5 = state t ∧ seg_core <$> retransmission_queue t5 = seg_core <$> retransmission_queue t).
  { unfold base_view in Hv. rsimp_all. injection Hv; intros. split; congruence. }
  destruct Hproj as (Hst5 & Hq5).
  destruct (finish_ack_spec now now' ack (state t) (has_fin t) t5 _ _ E1 E2 Hst5 Hcc5) as [Hccf Hvf].
  clear E1 E2. rewrite (core_has_fin _ _ (core_unacked ack _ _ Hq5)), Hst5 in Hvf.
  set (S := if has_fin t && negb (existsb Seg.is_fin (unacked ack (retransmission_queue t)))
            then fin_next (state t) else state t) in *.
  set (T := (drain_retransmission_queue ack t) <| snd_una := ack |> <| state := S |>).
  assert (HT : base_view tf = base_view T).
  { rewrite Hvf. unfold base_view, T, drain_retransmission_queue in *. rsimp_all.
    fold (unacked ack (retransmission_queue t)). rewrite (core_unacked ack _ _ Hq5).
    injection Hv; intros. congruence. }
  assert (HTok : tcb_ok T).
  { destruct Htcb. unfold T, drain_retransmission_queue. constructor; rsimp; try assumption.
    rewrite Forall_forall in *. intros x [_ Hx]%list_elem_of_filter. auto. }
  split; [apply (tcb_ok_base T); [assumption|apply Hccf|assumption]|]. split; [assumption|].
  split; [apply (tracks_base T); [assumption|]; apply (drain_tracks t ack Htr Hack Hacc)|].
  unfold base_view, T, drain_retransmission_queue in HT. rsimp_all. injection HT; intros.
  split; [assumption|]. split; [assumption|]. split; assumption.
Qed.

(** C5: The handler of an acknowledgement of new data.  On a well-formed
    connection on CUBIC, the algorithm every connection is created with, whose
    retransmission queue is exactly the flight, with windows and flight below
    2^27 bytes and no data sent since a timeout that is still under judgement,
    it never fails, whatever SACK blocks, timestamps and congestion marks come
    with the acknowledgement and whether or not a timeout turns out spurious.
    It sets SND.UNA, drops exactly the segments covered, keeps SND.NXT, keeps
    the block well formed and the queue equal to the flight, asks for the send
    queue to run, and, when our FIN is covered, moves FIN-WAIT-1 to FIN-WAIT-2,
    CLOSING to TIME-WAIT and LAST-ACK to CLOSED; otherwise the state stays.
    (Which acknowledgements reach the handler is decided by a comparison of
    plain integers, see [wrapped_ack_not_processed].) *)
Theorem new_ack_processing `{Libm} B now ack tsecr ece blocks a t :
  0 < B < 2 ^ 61 → ack_ready B t → u32 ack → is_acceptable_ack t ack = true → 0 ≤ now 0%nat ≤ B →
  returns (rx_new_ack now ack tsecr ece blocks a t) (λ '(a', t'),
    tcb_ok t' ∧ cc_ok t' ∧ tracks t' ∧ snd_una t' = ack ∧ snd_nxt t' = snd_nxt t ∧
    seg_core <$> retransmission_queue t' = seg_core <$> unacked ack (retransmission_queue t) ∧
    run_send_queue a' = true ∧
    state t' = (if has_fin t && negb (existsb Seg.is_fin (unacked ack (retransmission_queue t)))
                then fin_next (state t) else state t)).
Proof.
  intros HB [Htcb Htr Hw Hss Hrtt Hpr Hfl Hei Hfr] Hack Hacc Hn. unfold rx_new_ack.
  assert (HW : 2 * MSS ≤ 2 ^ 27 < 2 ^ 29) by (unfold MSS; lia).
  destruct (recovery_on_ack_spec (2 ^ 27) ack t HW Hw Hss) as ([p t1] & -> & Hc1 & Hw1 & Hp).
  rewrite ret_bind. destruct (cc_only_base _ _ Hc1) as (Hv1 & Hs1 & Hts1 & He1 & Hf1 & Hm1 & Hsr1 & Hsv1).
  assert (Hn1 : snd_nxt t1 = snd_nxt t) by (unfold base_view in Hv1; by injection Hv1).
  cbv zeta.
  set (t2 := t1 <| snd_una := ack |> <| duplicate_ack_count := 0 |> <| last_ack_received := ack |>
                <| eifel; Eifel.bytes_acked := _ |>).
  assert (Hw2 : wins (2 ^ 27 + 3 * MSS) t2) by (destruct Hw1 as [[] ? ? ? ? ?]; constructor; try assumption; by constructor).
  assert (Hv2 : base_view t2 = base_view (t <| snd_una := ack |>))
    by (unfold base_view, t2 in *; rsimp; injection Hv1; intros; congruence).
  assert (Hfl2 : flight_size_bytes t2 ≤ 2 ^ 27).
  { unfold flight_size_bytes, t2 in *. rsimp. rewrite Hn1. apply acked_flight in Hacc; [lia|apply Htcb|assumption|apply Htcb]. }
  change (if Ts.enabled (ts t2) then _ else _) with (judge tsecr ece t2).
  destruct (judge_spec (2 ^ 27 + 3 * MSS) tsecr ece t2 Hw2) as (t2' & -> & Hw2' & Hv2' & Hm2 & Hsr2 & Hsv2).
  { unfold MSS. lia. } { unfold t2. rsimp. apply wsub_u32. } { unfold t2. rsimp. rewrite He1, Hn1. exact Hei. }
  { unfold t2. rsimp. by rewrite Hf1. }
  rewrite ret_bind. clear Hw2 Hfl2.
  destruct (complete_probe_spec B (now 0%nat) ack t2') as (t3 & -> & Hv3 & Hw3 & _); [assumption| |assumption| |].
  { unfold rtt_ok in *. rewrite Hsr2, Hsv2. unfold t2. rsimp. rewrite Hsr1, Hsv1. assumption. }
  { rewrite Hm2. unfold t2. rsimp. rewrite Hm1. assumption. }
  rewrite ret_bind. specialize (Hw3 _ Hw2'). pose proof Hw3 as [Hcc3 Hcw3 Hr3 Hu3 Hus3 (c & Hc & Hb)].
  destruct (update_cwnd_spec (λ i, now (1 + i)%nat) t3 (wsub ack (snd_una t)) Hcc3 (wsub_u32 _ _))
    as (t4 & -> & Hcc4 & Hf4 & _ & _ & _ & Hg4). rewrite ret_bind. destruct (Hg4 c Hc) as [Hg1 Hg2].
  assert (Hv4 : base_view t4 = base_view t3) by (rewrite Hf4; reflexivity).
  assert (Hm3 : 1 ≤ effective_mss t3 ≤ MSS) by apply Hcc3.
  assert (Hw4 : wins (2 ^ 28) t4).
  { constructor; [assumption|unfold MSS in *; lia|unfold MSS in *; lia|rewrite Hf4; rsimp; unfold MSS in *; lia
                 |rewrite Hf4; exact Hus3|exists c; rewrite Hf4; auto]. }
  destruct (loss_on_new_ack_spec (2 ^ 28) (λ i, now (4 + i)%nat) ack blocks t4) as ([fast t5] & -> & Hv5 & Hcc5);
    [unfold MSS; lia|assumption|]. rewrite ret_bind. apply returns_ret.
  assert (Hv : base_view t5 = base_view (t <| snd_una := ack |>)) by congruence.
  assert (Hproj : state t1 = state t ∧ seg_core <$> retransmission_queue t1 = seg_core <$> retransmission_queue t).
  { unfold base_view in Hv1. rsimp_all. injection Hv1; intros. split; congruence. }
  destruct Hproj as (Hst1 & Hq1).
  destruct (finish_new_ack (now 6%nat) (now 7%nat) ack (state t1) (has_fin t1) t t5 Htcb Htr Hack Hacc Hv Hcc5 Hst1
              (core_has_fin _ _ Hq1) _ _ eq_refl eq_refl) as (? & ? & ? & ? & ? & ? & ?).
  repeat (split; [assumption|]). split; [reflexivity|assumption].
Qed.

(** Three bytes and a FIN in flight. *)
Definition sample_closing : TcpControlBlock :=
  sample_tx <| state := FinWait1 |> <| snd_nxt := 1005 |> <| send_buffer := [] |>
    <| retransmission_queue := [Seg.fresh 1001 [1; 2; 3] 24 0 0; Seg.fresh 1004 [] 17 0 0] |>.

Lemma sample_closing_ready : ack_ready (2 ^ 60) sample_closing.
Proof.
  assert (Hcc : cc_ok sample_closing) by (constructor; vm_compute; intuition congruence).
  constructor.
  - pose proof sample_tx_ok as []. constructor; try assumption; [constructor|].
    repeat (apply Forall_cons; split); [..|apply Forall_nil_2];
      (constructor; [vm_compute; split; congruence|repeat constructor; vm_compute; congruence
                    |vm_compute; congruence|vm_compute; split; congruence]).
  - exists 1001, 0. split; [vm_compute; split; congruence|].
    split; [vm_compute; repeat (split; [reflexivity || (split; reflexivity)|]); reflexivity|].
    split; [reflexivity|]. split; [vm_compute; split; congruence|vm_compute; reflexivity].
  - constructor; [assumption|vm_compute; congruence|vm_compute; congruence|vm_compute; split; congruence
                 |vm_compute; split; congruence|eexists; split; [reflexivity|vm_compute; split; congruence]].
  - discriminate.
  - split; intros ?; discriminate.
  - discriminate.
  - vm_compute. congruence.
  - discriminate.
  - vm_compute. split; congruence.
Qed.

Lemma new_ack_processing_witness :
  returns (@rx_new_ack {| cbrt := λ x, x |} (λ _, 50) 1005 None false [] no_actions sample_closing)
    (λ '(a', t'), snd_una t' = 1005 ∧ seg_core <$> retransmission_queue t' = [] ∧ state t' = FinWait2).
Proof.
  destruct (@new_ack_processing {| cbrt := λ x, x |} (2 ^ 60) (λ _, 50) 1005 None false [] no_actions sample_closing)
    as ([a' t'] & E & _ & _ & _ & Hu & _ & Hq & _ & Hs);
    [lia|apply sample_closing_ready|vm_compute; split; congruence|reflexivity|lia|].
  exists (a', t'). split; [exact E|]. split; [exact Hu|]. split; [exact Hq|exact Hs].
Defined.
