(* ===== verification/TcpTimer.v ===== *)
(** * Timers

    [driver/timer.rs]: the retransmission timeout, the keepalive and the
    round of the timer thread. *)

From S2P Require Import Prelude Time ReceiveBuffer TcpTypes TcpOptions TcpChecksum TcpSack TcpReassembly TcpCc.
From S2P Require Import TcpTimestamp TcpRecovery TcpPacing TcpEcn NetWorld TcpOutOptions TcpWire TcpSend TcpRetransmit.
From S2P Require Import SocketTable TcpRecv.

(** ** The retransmission timeout *)

(** The connection gives up. *)
Definition timed_out (t : TcpControlBlock) : TcpControlBlock :=
  t <| state := Closed |> <| last_error := Some Timeout |> <| event := event_notify (event t) |>.

(** The multiplicative decrease of a timeout. *)
Definition rto_decrease (now : Instant) (flight : Z) (t : TcpControlBlock) : res TcpControlBlock :=
  let smss := Z.max (effective_mss t) 1 in
  t ← (match congestion_control t with
       | CcCubic cubic =>
           p ← mul_chk U64 flight (Cubic.beta cubic);
           let ss := Z.shiftr p 10 mod U32 in
           twice ← mul_chk U32 2 smss;
           let t := t <| ssthresh := Z.max ss twice |> <| cwnd := smss |> <| cwv; Cwv.cwnd_raw := smss |> in
           Ret (t <| congestion_control :=
                       CcCubic (cubic <| Cubic.epoch_start := now |> <| Cubic.k_ns := 0 |>
                                      <| Cubic.w_max := ssthresh t |> <| Cubic.last_max_cwnd := ssthresh t |>
                                      <| Cubic.recover := 0 |>) |>)
       | CcReno reno =>
           twice ← mul_chk U32 2 smss;
           Ret (t <| ssthresh := Z.max (flight / 2) twice |> <| cwnd := smss |>
                  <| cwv; Cwv.cwnd_raw := smss |>
                  <| congestion_control := CcReno (reno <| Reno.recover := 0 |>) |>)
       end);
  Ret (t <| abc := Abc.clear_accumulators (abc t) |>).

(** Arms the detectors of spurious timeouts. *)
Definition rto_arm_detectors (rto_retrans_end : Z) (t : TcpControlBlock) : TcpControlBlock :=
  let frto_nested_abort := negb (Ts.enabled (ts t)) && bool_decide (Frto.phase (frto t) ≠ Frto.Idle) in
  let t := if frto_nested_abort then
             let t := t <| frto; Frto.declared_loss_count :=
                             sat_add U32 (Frto.declared_loss_count (frto t)) 1 |> in
             t <| frto := Frto.frto_clear (frto t) |>
           else t in
  let t := t <| in_fast_recovery := false |> <| duplicate_ack_count := 0 |> in
  if Ts.enabled (ts t) then eifel_on_rto_before_md t
  else if negb frto_nested_abort then frto_on_rto t rto_retrans_end
  else eifel_clear_pending t.

(** Backoff, and the probe of the lost segment. *)
Definition rto_backoff (seq : Z) (t : TcpControlBlock) : TcpControlBlock :=
  let t := t <| rto := Z.min (sat_mul U64 (rto t) 2) (secs 60) |> in
  match Ts.probe (rtt_m t) with
  | Some p => if Ts.seq p =? seq then t <| rtt_m; Ts.probe := None |> else t
  | None => t
  end.

(** The flag asks for a retransmission.  Readings: the check, the epoch. *)
Definition tick_retransmission_timer (now : clock) (t : TcpControlBlock)
  : res (bool * TcpControlBlock) :=
  if bool_decide (state t = Closed) then Ret (false, t) else
  let flight := flight_size_bytes t in
  match retransmission_queue t with
  | [] => Ret (false, t)
  | seg :: q =>
      let seq := Seg.seq seg in
      let rto_retrans_end := Seg.end_seq seg in
      if elapsed (now 0%nat) (Seg.send_time seg) <? rto t then Ret (false, t)
      else if 5 <=? Seg.retries seg then Ret (false, timed_out t)
      else
        r ← add_chk U32 (Seg.retries seg) 1;
        let t := t <| retransmission_queue :=
                        seg <| Seg.send_time := now 0%nat |> <| Seg.retries := r |> :: q |> in
        let t := rto_arm_detectors rto_retrans_end t in
        t ← rto_decrease (now 1%nat) flight t;
        Ret (true, rto_backoff seq t)
  end.

(** ** Keepalive *)

Definition KEEPALIVE_IDLE : Duration := secs 30.
Definition KEEPALIVE_INTERVAL : Duration := secs 5.
Definition KEEPALIVE_MAX_PROBES : Z := 3.

(** The flag asks for a probe. *)
Definition tick_keepalive_timer (now : Instant) (t : TcpControlBlock) : res (bool * TcpControlBlock) :=
  if bool_decide (state t ≠ Established) then Ret (false, t <| keepalive_deadline := None |>) else
  let t := match keepalive_deadline t with
           | None => if KEEPALIVE_IDLE <=? elapsed now (last_rx_time t)
                     then t <| keepalive_deadline := Some now |> else t
           | Some _ => t
           end in
  match keepalive_deadline t with
  | None => Ret (false, t)
  | Some deadline =>
      if now <? deadline then Ret (false, t)
      else if KEEPALIVE_MAX_PROBES <=? keepalive_count t then
        Ret (false, (timed_out t) <| keepalive_deadline := None |>)
      else
        n ← add_chk U32 (keepalive_count t) 1;
        Ret (true, t <| keepalive_count := n |>
                     <| keepalive_deadline := Some (instant_add now KEEPALIVE_INTERVAL) |>)
  end.

Definition keepalive_segment (now : Instant) (t : TcpControlBlock) : res (outgoing * TcpControlBlock) :=
  hdr ← Hdr.hdr_new t;
  let hdr := Hdr.set_sequence_number (wsub (snd_una t) 1) (Hdr.set_flag ACK true hdr) in
  '(o, _, t) ← prepare now hdr [] t;
  Ret (o, t).

Definition send_keepalive_probe_unlocked (l : loc) : M unit :=
  o ← critical l (λ t, now ← instant_now; lift (keepalive_segment now t));
  transmit o;;
  mret tt.

(** ** Zero-window probe *)

Definition window_probe_segment (now : Instant) (t : TcpControlBlock)
  : res (option outgoing * TcpControlBlock) :=
  match send_buffer t with
  | [] => Ret (None, t)
  | b :: _ =>
      hdr ← Hdr.hdr_new t;
      let hdr := Hdr.set_sequence_number (snd_nxt t)
                   (Hdr.set_acknowledgement_number (rcv_nxt t) (Hdr.set_flag ACK true hdr)) in
      '(o, _, t) ← prepare now hdr [b] t;
      Ret (Some o, t)
  end.

Definition send_window_probe_unlocked (l : loc) : M unit :=
  o ← critical l (λ t, now ← instant_now; lift (window_probe_segment now t));
  match o with
  | Some o => transmit o;; mret tt
  | None => mret tt
  end.

(** ** The timer thread *)

Record timer_actions := mkTimer {
  retransmit : bool;
  window_probe : bool;
  keepalive : bool;
  delayed_ack : bool;
  pacing_release : bool;
  tlp_fire : bool
}.

Definition due (deadline : option Instant) (now : Instant) : bool :=
  match deadline with Some d => d <=? now | None => false end.

(** The persist timer: the flag asks for a probe. *)
Definition tick_persist (now : Instant) (t : TcpControlBlock) : bool * TcpControlBlock :=
  if due (persist_timer t) now then
    let b := Z.min (sat_mul U64 (persist_backoff t) 2) (secs 60) in
    (negb (zlen (send_buffer t) =? 0),
     t <| persist_backoff := b |> <| persist_timer := Some (instant_add now b) |>)
  else (false, t).

(** One connection under its lock; [now] is the round's reading, [c] the
    readings of the retransmission timer. *)
Definition timer_body (now : Instant) (c : clock) (t : TcpControlBlock)
  : res (timer_actions * TcpControlBlock) :=
  '(rtx, t) ← tick_retransmission_timer c t;
  let fire := negb rtx && due (Sack.tlp_deadline (sack t)) now in
  let t := if fire then t <| sack; Sack.tlp_deadline := None |> else t in
  let '(probe, t) := tick_persist now t in
  '(alive, t) ← tick_keepalive_timer now t;
  let ack := due (ack_deadline t) now in
  let t := if ack then t <| ack_deadline := None |> <| ack_needed := false |> <| unacked_segments := 0 |>
           else t in
  let release := Pacing.enabled (pacing t) && negb (zlen (send_buffer t) =? 0)
                 && match Pacing.next_tx (pacing t) with Some d => d <=? now | None => true end in
  let t := if bool_decide (state t = TimeWait) && due (timewait_deadline t) now
           then t <| state := Closed |> <| event := event_notify (event t) |> else t in
  Ret (mkTimer rtx probe alive ack release fire, t).

Definition run_timer_actions (l : loc) (a : timer_actions) : M unit :=
  (if delayed_ack a then send_immediate_ack_unlocked l else mret tt);;
  (if retransmit a then retransmit_front_unlocked l Eifel.Rto else mret tt);;
  (if tlp_fire a then tlp_send_probe_unlocked l else mret tt);;
  (if window_probe a then send_window_probe_unlocked l else mret tt);;
  (if keepalive a then send_keepalive_probe_unlocked l else mret tt);;
  (if pacing_release a then process_send_queue l else mret tt).

(** The block that holds the lock; also the tuple, if it is to be removed. *)
Definition timer_locked (now : Instant) (c : clock) (t : TcpControlBlock)
  : res ((timer_actions * list Tuple.ConnectionTuple) * TcpControlBlock) :=
  '(a, t) ← timer_body now c t;
  Ret ((a, if bool_decide (state t = Closed) then [tuple t] else []), t).

(** One connection of a round; returns the tuples to remove.  [try_write]
    skips a connection whose lock is held. *)
Definition timer_connection (now : Instant) (l : loc) : M (list Tuple.ConnectionTuple) :=
  w ← get_world;
  match heap w !! l with
  | Some (mkCell false t) =>
      if bool_decide (state t = Closed) then mret [tuple t]
      else
        '(a, dead) ← critical l (λ t, c ← readings 2; lift (timer_locked now c t));
        run_timer_actions l a;;
        mret dead
  | _ => mret []
  end.

Fixpoint timer_connections (now : Instant) (ls : list loc) : M (list Tuple.ConnectionTuple) :=
  match ls with
  | [] => mret []
  | l :: ls =>
      r ← timer_connection now l;
      rs ← timer_connections now ls;
      mret (r ++ rs)
  end.

(** One pass of the loop of [tcp_timer_thread]. *)
Definition timer_round : M unit :=
  now ← instant_now;
  w ← get_world;
  dead ← timer_connections now (snd <$> map_to_list (connections w));
  modify (λ w, w <| connections := foldr (λ tu m, delete tu m) (connections w) dead |>).

(** ** The response to a timeout *)

(** What the detectors and the backoff do not touch. *)
Definition rto_view (t : TcpControlBlock) :=
  (tx_view t, ssthresh t, cwv t, abc t, congestion_control t, (ts t, sack t, ecn t, pacing t, last_error t)).

Lemma arm_detectors_view e t :
  rto_view (rto_arm_detectors e t) = rto_view t ∧ rto (rto_arm_detectors e t) = rto t ∧
  in_fast_recovery (rto_arm_detectors e t) = false ∧ duplicate_ack_count (rto_arm_detectors e t) = 0.
Proof.
  unfold rto_arm_detectors, eifel_on_rto_before_md, frto_on_rto, eifel_clear_pending. cbv zeta.
  destruct (Ts.enabled (ts t)) eqn:E; simpl negb; cbn [andb].
  - change (Ts.enabled (ts _)) with (Ts.enabled (ts t)). rewrite E. repeat split.
  - destruct (bool_decide _); cbn [negb];
      change (Ts.enabled (ts _)) with (Ts.enabled (ts t)); rewrite E; repeat split.
Qed.

Lemma rto_decrease_spec now flight t :
  u32 flight → 1 ≤ effective_mss t ≤ MSS →
  (∀ c, congestion_control t = CcCubic c → 0 ≤ Cubic.beta c ≤ 1024) →
  returns (rto_decrease now flight t) (λ t', md_frame t t' ∧
    cwnd t' = effective_mss t ∧ Cwv.cwnd_raw (cwv t') = effective_mss t ∧
    ssthresh t' = Z.max (match congestion_control t with
                         | CcCubic c => flight * Cubic.beta c / 1024
                         | CcReno _ => flight / 2
                         end) (2 * effective_mss t) ∧
    ∀ c, congestion_control t' = CcCubic c → 0 ≤ Cubic.beta c ≤ 1024).
Proof.
  intros Hf Hm Hb. unfold rto_decrease. unfold MSS in *. rewrite (Z.max_l (effective_mss t) 1) by lia. ints.
  destruct (congestion_control t) as [r|c] eqn:Ec.
  - run. apply returns_ret. unfold md_frame. rsimp. split; [destruct t; reflexivity|].
    repeat (split; [reflexivity|]). discriminate.
  - specialize (Hb c eq_refl). assert (0 ≤ flight * Cubic.beta c < U64) by nia. run.
    apply returns_ret. unfold md_frame. rsimp. split; [destruct t; reflexivity|].
    rewrite Z.shiftr_div_pow2 by lia. change (2 ^ 10) with 1024.
    assert (0 ≤ flight * Cubic.beta c / 1024 < U32).
    { split; [apply Z.div_pos; lia|]. apply Z.div_lt_upper_bound; nia. }
    rewrite Z.mod_small by lia. repeat (split; [reflexivity|]). intros c' [= <-]. exact Hb.
Qed.

Lemma backoff_view seq t :
  rto_view (rto_backoff seq t) = rto_view t ∧ cwnd (rto_backoff seq t) = cwnd t ∧
  rto (rto_backoff seq t) = Z.min (sat_mul U64 (rto t) 2) (secs 60) ∧
  in_fast_recovery (rto_backoff seq t) = in_fast_recovery t ∧
  duplicate_ack_count (rto_backoff seq t) = duplicate_ack_count t.
Proof.
  unfold rto_backoff. rsimp. destruct (Ts.probe (rtt_m t)) as [p|]; [destruct (_ =? _)|]; repeat split.
Qed.

(** An expired head. *)
Definition expired (now : Instant) (t : TcpControlBlock) : bool :=
  match retransmission_queue t with
  | [] => false
  | s :: _ => rto t <=? elapsed now (Seg.send_time s)
  end.

(** A timeout at [now]: one segment of window, the threshold from the flight,
    the timer doubled up to a minute, the head counted, recovery left. *)
Record rto_response (now : Instant) (s : Seg.UnackedSegment) (q : list Seg.UnackedSegment)
    (t t' : TcpControlBlock) : Prop := {
  rr_queue : retransmission_queue t' = s <| Seg.send_time := now |> <| Seg.retries := Seg.retries s + 1 |> :: q;
  rr_cwnd : cwnd t' = effective_mss t;
  rr_raw : Cwv.cwnd_raw (cwv t') = effective_mss t;
  rr_ssthresh : ssthresh t' = Z.max (match congestion_control t with
                                     | CcCubic c => flight_size_bytes t * Cubic.beta c / 1024
                                     | CcReno _ => flight_size_bytes t / 2
                                     end) (2 * effective_mss t);
  rr_rto : rto t' = Z.min (sat_mul U64 (rto t) 2) (secs 60);
  rr_recovery : in_fast_recovery t' = false;
  rr_dup : duplicate_ack_count t' = 0;
  rr_view : tx_view (t' <| cwnd := cwnd t |> <| retransmission_queue := retransmission_queue t |>) = tx_view t;
  rr_error : last_error t' = last_error t;
  rr_sack : sack t' = sack t
}.

(** Congestion control with parameters in range. *)
Definition beta_ok (t : TcpControlBlock) : Prop :=
  ∀ c, congestion_control t = CcCubic c → 0 ≤ Cubic.beta c ≤ 1024.

Lemma tick_expired now t s q :
  state t ≠ Closed → 1 ≤ effective_mss t ≤ MSS → beta_ok t →
  retransmission_queue t = s :: q → 0 ≤ Seg.retries s < 5 → rto t ≤ elapsed (now 0%nat) (Seg.send_time s) →
  returns (tick_retransmission_timer now t) (λ '(rtx, t'),
    rtx = true ∧ rto_response (now 0%nat) s q t t' ∧ beta_ok t').
Proof.
  intros Hst Hm Hb Eq Hr He. unfold tick_retransmission_timer.
  rewrite bool_decide_eq_false_2 by assumption. rewrite Eq.
  destruct (Z.ltb_spec (elapsed (now 0%nat) (Seg.send_time s)) (rto t)); [lia|].
  destruct (Z.leb_spec 5 (Seg.retries s)); [lia|]. rewrite add_chk_ret, ret_bind by lia. cbv zeta.
  set (t1 := t <| retransmission_queue := _ |>).
  destruct (arm_detectors_view (Seg.end_seq s) t1) as (Hv2 & Hr2 & Hf2 & Hd2).
  set (t2 := rto_arm_detectors (Seg.end_seq s) t1) in *. clearbody t2.
  assert (H2 : effective_mss t2 = effective_mss t ∧ congestion_control t2 = congestion_control t)
    by (unfold rto_view, tx_view, t1 in Hv2; rsimp_all; split; congruence).
  destruct H2 as [Em Ec].
  destruct (rto_decrease_spec (now 1%nat) (flight_size_bytes t) t2) as (t3 & -> & Hf3 & Hc3 & Hw3 & Hs3 & Hb3);
    [apply wsub_u32|congruence|intros c Hcc; apply Hb; congruence|].
  rewrite ret_bind. apply returns_ret. split; [reflexivity|].
  destruct (backoff_view (Seg.seq s) t3) as (Hv4 & Hc4 & Hr4 & Hf4 & Hd4).
  set (t4 := rto_backoff (Seg.seq s) t3) in *. clearbody t4.
  assert (H3 : rto t3 = rto t2 ∧ in_fast_recovery t3 = in_fast_recovery t2 ∧
    duplicate_ack_count t3 = duplicate_ack_count t2 ∧ retransmission_queue t3 = retransmission_queue t2 ∧
    tx_view (t3 <| cwnd := cwnd t2 |>) = tx_view t2 ∧ last_error t3 = last_error t2 ∧ sack t3 = sack t2)
    by (rewrite Hf3; repeat split).
  destruct H3 as (R3 & F3 & D3 & Q3 & V3 & L3 & S3).
  unfold rto_view in Hv4, Hv2.
  assert (V4 : tx_view t4 = tx_view t3) by congruence. assert (V2 : tx_view t2 = tx_view t1) by congruence.
  assert (Q4 : retransmission_queue t4 = retransmission_queue t1) by (unfold tx_view in V4, V2; congruence).
  split; [constructor; try congruence|intros c Hcc; apply Hb3; congruence].
  - rewrite Q4. reflexivity.
  - replace (ssthresh t4) with (ssthresh t3) by congruence. rewrite Hs3, Em, Ec. reflexivity.
  - rewrite Hr4, R3, Hr2. reflexivity.
  - unfold tx_view, t1 in *. rsimp_all. injection V4; injection V3; injection V2; intros. congruence.
  - transitivity (last_error t2); [congruence|]. transitivity (last_error t1); [congruence|reflexivity].
  - transitivity (sack t2); [congruence|]. transitivity (sack t1); [congruence|reflexivity].
Qed.

(** The timeout.  When the oldest segment has been out for at least the
    RTO, the window drops to one segment, the threshold to [beta] times the
    flight (half of it under Reno) but not below two segments, the RTO
    doubles up to one minute, the segment is counted and Fast Recovery is
    left, while the stream, the rest of the queue and the peer's state stay
    as they are; the sixth expiry closes the connection with a timeout error
    instead; before the RTO nothing changes. *)
Theorem timeout_response now t s q :
  state t ≠ Closed → 1 ≤ effective_mss t ≤ MSS → beta_ok t →
  retransmission_queue t = s :: q → 0 ≤ Seg.retries s →
  returns (tick_retransmission_timer now t) (λ '(rtx, t'),
    if elapsed (now 0%nat) (Seg.send_time s) <? rto t then rtx = false ∧ t' = t
    else if 5 <=? Seg.retries s then rtx = false ∧ state t' = Closed ∧ last_error t' = Some Timeout
    else rtx = true ∧ rto_response (now 0%nat) s q t t').
Proof.
  intros Hst Hm Hb Eq Hr. destruct (Z.ltb_spec (elapsed (now 0%nat) (Seg.send_time s)) (rto t)) as [Hlt|Hge].
  - unfold tick_retransmission_timer. rewrite bool_decide_eq_false_2 by assumption. rewrite Eq.
    destruct (Z.ltb_spec (elapsed (now 0%nat) (Seg.send_time s)) (rto t)); [by apply returns_ret|lia].
  - destruct (Z.leb_spec 5 (Seg.retries s)) as [H5|H5].
    + unfold tick_retransmission_timer. rewrite bool_decide_eq_false_2 by assumption. rewrite Eq.
      destruct (Z.ltb_spec (elapsed (now 0%nat) (Seg.send_time s)) (rto t)); [lia|].
      destruct (Z.leb_spec 5 (Seg.retries s)); [by apply returns_ret|lia].
    + eapply returns_mono; [by apply (tick_expired now t s q)|]. intros [rtx t'] (? & ? & _). auto.
Qed.

Lemma timeout_response_witness :
  returns (tick_retransmission_timer (λ _, secs 3) sample_flight) (λ '(rtx, t'),
    rtx = true ∧ cwnd t' = 1460 ∧ ssthresh t' = 2920 ∧ rto t' = secs 2).
Proof.
  destruct (timeout_response (λ _, secs 3) sample_flight (Seg.fresh 1001 [1; 2; 3] 24 0 0)
    [Seg.fresh 1004 [4; 5; 6] 24 0 0]) as ([rtx t'] & E & Hrtx & []);
    [discriminate|vm_compute; split; congruence| |reflexivity|vm_compute; congruence|].
  - intros c [= <-]. vm_compute. split; congruence.
  - exists (rtx, t'). split; [exact E|]. split; [exact Hrtx|]. split; [exact rr_cwnd0|].
    split; [exact rr_ssthresh0|exact rr_rto0].
Defined.

(** ** A silent peer *)

(** The retransmission part of a timer round, and what it sends. *)
Definition rto_step (now : clock) (t : TcpControlBlock) : res (option outgoing * TcpControlBlock) :=
  '(rtx, t) ← tick_retransmission_timer now t;
  if rtx : bool then retransmit_segment (λ i, now (2 + i)%nat) Eifel.Rto None t else Ret (None, t).

(** Rounds, with what each sends and the RTO it leaves. *)
Fixpoint rto_steps (cs : list clock) (t : TcpControlBlock) : res (list (option outgoing * Duration) * TcpControlBlock) :=
  match cs with
  | [] => Ret ([], t)
  | c :: cs => '(o, t) ← rto_step c t; '(rounds, t') ← rto_steps cs t; Ret ((o, rto t) :: rounds, t')
  end.

(** The sequence number and data of the segments in the queue. *)
Definition contents (t : TcpControlBlock) : list (Z * list Z) := (λ s, (Seg.seq s, Seg.data s)) <$> retransmission_queue t.

(** The oldest segment went out [k] times after the first, last at [T], and
    was not selectively acknowledged. *)
Record waiting (k : Z) (T : Instant) (t : TcpControlBlock) : Prop := {
  wt_ok : tcb_ok t;
  wt_state : state t ≠ Closed;
  wt_beta : beta_ok t;
  wt_head : ∃ s q, retransmission_queue t = s :: q ∧ Seg.retries s = k ∧ Seg.send_time s = T ∧ Seg.sacked s = false
}.

(** The RTO doubles, up to a minute. *)
Definition next_rto (r : Duration) : Duration := Z.min (sat_mul U64 r 2) (secs 60).
Fixpoint backoff (n : nat) (r : Duration) : list Duration :=
  match n with O => [] | S n => next_rto r :: backoff n (next_rto r) end.

(** A copy of one of the segments is sent. *)
Definition retransmits (segs : list (Z * list Z)) (o : option outgoing) : Prop :=
  ∃ x, o = Some x ∧ (Hdr.sequence_number (out_hdr x), out_data x) ∈ segs.

Lemma pick_unsacked t s q : retransmission_queue t = s :: q → Seg.sacked s = false → is_Some (pick_segment None t).
Proof.
  intros Eq Hs. unfold pick_segment. rewrite Eq. destruct (Sack.enabled (sack t)); [|rewrite zlen_cons; pose proof (zlen_nonneg q); by rewrite (proj2 (Z.eqb_neq _ _)) by lia].
  destruct (position (λ s, Seg.lost s && negb (Seg.sacked s)) (s :: q)); [done|]. cbn [position]. by rewrite Hs.
Qed.

Lemma rto_response_ok now s q t t' :
  tcb_ok t → retransmission_queue t = s :: q → rto_response now s q t t' → tcb_ok t'.
Proof.
  intros Ht Eq []. pose proof Ht as [].
  assert (Ht1 : tcb_ok (t' <| cwnd := cwnd t |> <| retransmission_queue := retransmission_queue t |>))
    by (by eapply tcb_ok_view).
  destruct Ht1. constructor; try assumption.
  - rewrite rr_cwnd0. unfold MSS in *. ints. lia.
  - rewrite rr_queue0. rewrite Eq in ok_segs. apply Forall_cons in ok_segs as [[] Hq].
    constructor; [constructor; assumption|assumption].
Qed.

Lemma rto_step_waiting now k T t :
  waiting k T t → 0 ≤ k → T + rto t ≤ now 0%nat →
  returns (rto_step now t) (λ '(o, t'),
    if 5 <=? k then o = None ∧ state t' = Closed ∧ last_error t' = Some Timeout
    else retransmits (contents t) o ∧ contents t' = contents t ∧ rto t' = next_rto (rto t) ∧ waiting (k + 1) (now 0%nat) t').
Proof.
  intros [Hok Hst Hb (s & q & Eq & Ek & ET & Esk)] Hk HT. unfold rto_step.
  assert (He : rto t ≤ elapsed (now 0%nat) (Seg.send_time s)) by (unfold elapsed, sat_sub; lia).
  destruct (Z.leb_spec 5 k).
  - unfold tick_retransmission_timer. rewrite bool_decide_eq_false_2 by assumption. rewrite Eq.
    destruct (Z.ltb_spec (elapsed (now 0%nat) (Seg.send_time s)) (rto t)); [lia|].
    destruct (Z.leb_spec 5 (Seg.retries s)); [|lia]. rewrite ret_bind. by apply returns_ret.
  - destruct (tick_expired now t s q) as ([rtx t1] & -> & -> & Hresp & Hb1); try assumption; [apply Hok|lia|].
    rewrite ret_bind. pose proof (rto_response_ok _ _ _ _ _ Hok Eq Hresp) as Hok1. destruct Hresp.
    assert (Hst1 : state t1 = state t) by (unfold tx_view in rr_view0; rsimp_all; congruence).
    assert (Hc1 : contents t1 = contents t) by (unfold contents; by rewrite rr_queue0, Eq).
    destruct (pick_unsacked t1 _ _ rr_queue0 ltac:(exact Esk)) as [i Ei].
    eapply returns_mono; [apply (retransmit_spec (λ i, now (2 + i)%nat) Eifel.Rto None t1 Hok1)|].
    intros [o t2] (Hok2 & Htv & Hp). rewrite Ei in Hp. unfold timer_view in Htv. injection Htv as Hcc2 Hrto2 Hle2.
    destruct Hp as (x & x' & o' & Hx & -> & Hcp & (Hxq & Hxd & _ & Hxk & Hxr & Hxs & _) & _ & _ & Hq2 & _ & _ & Hs2 & _).
    assert (Hc2 : contents t2 = contents t1).
    { unfold contents. rewrite Hq2, list_fmap_insert, Hxq, Hxd. apply list_insert_id. by rewrite list_lookup_fmap, Hx. }
    split; [|split; [congruence|split; [rewrite Hrto2; exact rr_rto0|]]].
    + exists o'. split; [done|]. rewrite (cp_seq _ _ _ Hcp), (cp_data _ _ _ Hcp), <- Hc1. apply list_elem_of_fmap. exists x. split; [done|]. by eapply list_elem_of_lookup_2.
    + constructor; [assumption|congruence|intros c Hc; apply Hb1; congruence|]. rewrite Hq2, rr_queue0. rewrite rr_queue0 in Hx. destruct i as [|i]; simpl in Hx |- *.
      * injection Hx as <-. eexists _, _. split; [reflexivity|]. rsimp_all. split; [congruence|]. split; congruence.
      * eexists _, _. split; [reflexivity|]. rsimp. split; [congruence|]. auto.
Qed.

(** Rounds that are each at least the RTO of the moment apart. *)
Fixpoint spaced (T : Instant) (r : Duration) (cs : list clock) : Prop :=
  match cs with
  | [] => True
  | c :: cs => T + r ≤ c 0%nat ∧ spaced (c 0%nat) (next_rto r) cs
  end.

Lemma rto_steps_waiting cs : ∀ k T t,
  waiting k T t → 0 ≤ k → k + zlen cs = 6 → spaced T (rto t) cs → cs ≠ [] →
  returns (rto_steps cs t) (λ '(rounds, t'), state t' = Closed ∧ last_error t' = Some Timeout ∧
    ∃ resent r, rounds = resent ++ [(None, r)] ∧ Forall (retransmits (contents t)) resent.*1 ∧ resent.*2 = backoff (Z.to_nat (5 - k)) (rto t)).
Proof.
  induction cs as [|c cs IH]; intros k T t Hw Hk Hn Hsp Hne; [done|]. destruct Hsp as [HT Hsp]. simpl.
  destruct (rto_step_waiting c k T t Hw Hk HT) as ([o t1] & -> & Ht'). rewrite ret_bind.
  rewrite zlen_cons in Hn. pose proof (zlen_nonneg cs).
  destruct (Z.leb_spec 5 k).
  - assert (cs = []) as -> by (apply zlen_zero_inv; lia). simpl. apply returns_ret. destruct Ht' as (-> & Hcl & Hle).
    split; [done|]. split; [done|]. exists [], (rto t1). split; [done|]. split; [constructor|]. by replace (Z.to_nat (5 - k)) with 0%nat by lia.
  - destruct Ht' as (Ho & Hc & Hr & Hw1). destruct (IH (k + 1) (c 0%nat) t1) as ([rounds t2] & -> & Hcl & Hle & resent & r & -> & Hre & Hrt);
      [assumption|lia|lia|by rewrite Hr|intros ->; rewrite zlen_nil in *; lia|].
    rewrite ret_bind. apply returns_ret. split; [done|]. split; [done|]. exists ((o, rto t1) :: resent), r. split; [done|].
    rewrite Hc in Hre. split; [by constructor|]. rewrite fmap_cons, Hrt, Hr. by replace (Z.to_nat (5 - k)) with (S (Z.to_nat (5 - (k + 1)))) by lia.
Qed.

(** C36: A peer that stops answering is given up.  From any open, well-formed
    connection with unacknowledged data, the oldest segment sent once and not
    selectively acknowledged, whatever the state of RTT estimation and congestion control:
    of six timer rounds without an acknowledgement, each at least the RTO of the
    moment after the one before, the first five retransmit a queued segment and
    double the RTO, up to a minute; the sixth sends nothing and closes the
    connection with a timeout error. *)
Theorem silent_peer_is_given_up t T cs :
  waiting 0 T t → zlen cs = 6 → spaced T (rto t) cs →
  returns (rto_steps cs t) (λ '(rounds, t'), state t' = Closed ∧ last_error t' = Some Timeout ∧
    ∃ resent r, rounds = resent ++ [(None, r)] ∧ Forall (retransmits (contents t)) resent.*1 ∧ resent.*2 = backoff 5 (rto t)).
Proof.
  intros Hw Hn Hsp. apply (rto_steps_waiting cs 0 T); [assumption|lia|lia|assumption|].
  intros ->. rewrite zlen_nil in Hn. lia.
Qed.

Lemma silent_peer_is_given_up_witness :
  returns (rto_steps ((λ k _, secs k) <$> [1; 3; 7; 15; 31; 63])
             (sample_flight <| retransmission_queue := [Seg.fresh 1001 [1; 2; 3] 24 0 0] |>))
    (λ '(rounds, t'), state t' = Closed ∧ last_error t' = Some Timeout ∧
      ∃ resent r, rounds = resent ++ [(None, r)] ∧ Forall (retransmits [(1001, [1; 2; 3])]) resent.*1 ∧
        resent.*2 = [secs 2; secs 4; secs 8; secs 16; secs 32]).
Proof.
  eapply returns_mono; [apply (silent_peer_is_given_up (sample_flight <| retransmission_queue := [Seg.fresh 1001 [1; 2; 3] 24 0 0] |>) 0)|].
  - constructor.
    + pose proof sample_tx_ok as []. constructor; try assumption.
      apply Forall_singleton. constructor; try (vm_compute; split; congruence); [|vm_compute; congruence].
      repeat constructor; vm_compute; congruence.
    + discriminate.
    + intros c [= <-]. vm_compute. split; congruence.
    + eexists _, _. split; [reflexivity|]. split; [reflexivity|]. split; reflexivity.
  - reflexivity.
  - vm_compute. intuition discriminate.
  - intros [rounds t'] (Hcl & Hle & resent & r & Hr & Hre & Hrt). split; [exact Hcl|]. split; [exact Hle|]. exists resent, r.
    split; [exact Hr|]. split; [exact Hre|]. rewrite Hrt. vm_compute. reflexivity.
Defined.

(** ** Keepalive *)

Fixpoint keepalive_ticks (nows : list Instant) (t : TcpControlBlock) : res (list bool * TcpControlBlock) :=
  match nows with
  | [] => Ret ([], t)
  | now :: nows =>
      '(b, t) ← tick_keepalive_timer now t;
      '(bs, t) ← keepalive_ticks nows t;
      Ret (b :: bs, t)
  end.

Lemma keepalive_tick_due now d t :
  state t = Established → keepalive_deadline t = Some d → d ≤ now → 0 ≤ keepalive_count t → 0 ≤ now →
  now < 2 ^ 62 →
  returns (tick_keepalive_timer now t) (λ '(b, t'),
    if 3 <=? keepalive_count t then b = false ∧ state t' = Closed ∧ last_error t' = Some Timeout
    else b = true ∧ state t' = Established ∧ keepalive_deadline t' = Some (now + secs 5) ∧
         keepalive_count t' = keepalive_count t + 1).
Proof.
  intros Hst Hd Hn Hc H0 Hmax. unfold tick_keepalive_timer. rewrite bool_decide_eq_false_2 by (intros H; by apply H).
  rewrite Hd, Hd. destruct (Z.ltb_spec now d); [lia|]. unfold KEEPALIVE_MAX_PROBES, KEEPALIVE_INTERVAL.
  destruct (Z.leb_spec 3 (keepalive_count t)); [by apply returns_ret|].
  rewrite add_chk_ret, ret_bind by lia. apply returns_ret. rsimp.
  repeat (split; [assumption || reflexivity|]). split; [|reflexivity].
  unfold instant_add, sat_add, secs. f_equal. lia.
Qed.

(** Keepalive.  On an established connection that has received nothing
    for thirty seconds, timer ticks five seconds apart send exactly three
    probes and then close the connection with a timeout error. *)
Theorem keepalive_gives_up t t0 t1 t2 t3 :
  state t = Established → keepalive_deadline t = None → keepalive_count t = 0 → 0 ≤ last_rx_time t →
  last_rx_time t + secs 30 ≤ t0 → t0 + secs 5 ≤ t1 → t1 + secs 5 ≤ t2 → t2 + secs 5 ≤ t3 → t3 < 2 ^ 62 →
  returns (keepalive_ticks [t0; t1; t2; t3] t) (λ '(probes, t'),
    probes = [true; true; true; false] ∧ state t' = Closed ∧ last_error t' = Some Timeout).
Proof.
  intros Hst Hd Hc Hl H0 H1 H2 H3 Hmax. unfold secs in *. cbn [keepalive_ticks].
  assert (Hfirst : tick_keepalive_timer t0 t = tick_keepalive_timer t0 (t <| keepalive_deadline := Some t0 |>)).
  { unfold tick_keepalive_timer. rsimp. rewrite !bool_decide_eq_false_2 by (intros H; by apply H). rewrite Hd.
    destruct (Z.leb_spec KEEPALIVE_IDLE (elapsed t0 (last_rx_time t))) as [_|H];
      [reflexivity|unfold KEEPALIVE_IDLE, elapsed, sat_sub, secs in H; lia]. }
  rewrite Hfirst.
  destruct (keepalive_tick_due t0 t0 (t <| keepalive_deadline := Some t0 |>)) as ([b0 a0] & -> & P0);
    [exact Hst|reflexivity|lia|rsimp; lia|lia|lia|].
  rewrite ret_bind. change (keepalive_count (t <| keepalive_deadline := Some t0 |>)) with (keepalive_count t) in P0.
  rewrite Hc in P0. destruct P0 as (-> & S0 & D0 & C0). unfold secs in D0.
  destruct (keepalive_tick_due t1 (t0 + 5 * 1000000000) a0) as ([b1 a1] & -> & P1); [assumption..|lia|lia|lia|lia|].
  rewrite ret_bind, C0 in *. destruct P1 as (-> & S1 & D1 & C1). unfold secs in D1.
  destruct (keepalive_tick_due t2 (t1 + 5 * 1000000000) a1) as ([b2 a2] & -> & P2); [assumption..|lia|lia|lia|lia|].
  rewrite ret_bind, C1 in *. destruct P2 as (-> & S2 & D2 & C2). unfold secs in D2.
  destruct (keepalive_tick_due t3 (t2 + 5 * 1000000000) a2) as ([b3 a3] & -> & P3); [assumption..|lia|lia|lia|lia|].
  rewrite ret_bind, C2 in *. destruct P3 as (-> & S3 & L3). rewrite !ret_bind. by apply returns_ret.
Qed.

Lemma keepalive_gives_up_witness :
  returns (keepalive_ticks [secs 30; secs 35; secs 40; secs 45] (sample_tcb <| state := Established |>))
    (λ '(probes, t'), probes = [true; true; true; false] ∧ state t' = Closed ∧ last_error t' = Some Timeout).
Proof. apply keepalive_gives_up; (reflexivity || (vm_compute; congruence) || (unfold secs; simpl; lia)). Defined.

(** ** Probing a zero window *)

Lemma note_window_probe now t :
  tcb_ok t → send_buffer t ≠ [] →
  returns (window_probe_segment now t) (λ '(o, t'), tx_view t' = tx_view t ∧ ∃ o', o = Some o' ∧
    Hdr.sequence_number (out_hdr o') = snd_nxt t ∧ out_data o' = ztake 1 (send_buffer t)).
Proof.
  intros Ht Hne. unfold window_probe_segment. pose proof (ok_buffer t Ht) as Hb.
  destruct (send_buffer t) as [|b r] eqn:Eb; [done|].
  destruct (hdr_new_spec t Ht) as (h & -> & Hh & Hc & Hf & Hs & Ha & _). rewrite ret_bind. cbv zeta.
  set (h' := Hdr.set_sequence_number _ _).
  assert (Heq : h' = h <| Hdr.flags := ACK |>).
  { unfold h', Hdr.set_sequence_number, Hdr.set_acknowledgement_number, Hdr.set_flag. rsimp.
    rewrite Hf, <- Hs, <- Ha. destruct h; reflexivity. }
  destruct (prepare_spec now h' [b] t) as ([[o v] t'] & -> & Hv & _ & _ & Hd & Hhdr & _);
    [assumption|rewrite Heq; destruct Hh; constructor; rsimp; assumption || (vm_compute; split; congruence)
    |rewrite Heq; exact Hc|apply Forall_cons in Hb; apply Forall_singleton, Hb|vm_compute; congruence|].
  rewrite ret_bind. apply returns_ret. split; [assumption|]. exists o. split; [reflexivity|].
  split; [rewrite Hhdr, Heq; exact Hs|exact Hd].
Qed.

Lemma ack_past_nxt t : u32 (snd_una t) → u32 (snd_nxt t) → flight_size_bytes t < U32 - 1 →
  is_acceptable_ack t (wadd (snd_nxt t) 1) = false.
Proof.
  unfold is_acceptable_ack, flight_size_bytes, wadd, wsub. intros Hu Hn Hf. apply Z.leb_gt. mlia.
Qed.

Definition send_seqs (t : TcpControlBlock) := (snd_una t, snd_nxt t, snd_wnd t).

Lemma seqs_rtt t r t' : update_rtt_estimators t r = Ret t' → send_seqs t' = send_seqs t.
Proof.
  unfold update_rtt_estimators. cbv zeta.
  destruct (match srtt (rack_feed_rtt t r) with Some _ => _ | None => _ end) as [[s v]|]; [|discriminate].
  rewrite ret_bind. intros [= <-]. reflexivity.
Qed.

Lemma seqs_timestamp now seq syn o t k t' :
  rx_timestamp now seq syn o t = Ret (k, t') → send_seqs t' = send_seqs t ∧ (k = None ∨ k = Some t').
Proof.
  unfold rx_timestamp. destruct o as [[v e]|]; [|intros [= <- <-]; destruct (Ts.enabled (ts t)); auto].
  assert (H1 : send_seqs (on_rx_timestamp now t seq v syn false).2 = send_seqs t)
    by (unfold on_rx_timestamp; cbv zeta;
        repeat match goal with |- context [if ?b then _ else _] => destruct b end; reflexivity).
  destruct (on_rx_timestamp now t seq v syn false) as [keep t1]. simpl in H1.
  destruct keep; simpl; [|intros [= <- <-]; auto].
  unfold sample_tsecr. destruct (e =? 0); [rewrite ret_bind; intros [= <- <-]; auto|].
  destruct (_ && _); [|rewrite ret_bind; intros [= <- <-]; auto].
  destruct (from_millis _) as [r|]; [|discriminate]. rewrite ret_bind.
  destruct (update_rtt_estimators _ r) as [t2|] eqn:E2; [|discriminate]. rewrite ret_bind.
  intros [= <- <-]. apply seqs_rtt in E2. split; [rewrite E2; exact H1|auto].
Qed.

(** A window probe cannot reopen the window.  The probe carries the byte
    at SND.NXT but neither SND.NXT nor the queue accounts for it, so the
    acknowledgement of a peer that accepts the byte is past SND.NXT: it is
    unacceptable, and the window it advertises is not taken over. *)
Theorem window_probe_answer_ignored `{Libm} now now' t o t1 header options payload ce a t2 :
  tcb_ok t → flight_size_bytes t < U32 - 1 →
  window_probe_segment now t = Ret (Some o, t1) →
  Hdr.ack_number header = wadd (Hdr.sequence_number (out_hdr o)) (zlen (out_data o)) →
  rx_established now' header options payload ce t1 = Ret (a, t2) →
  snd_wnd t2 = snd_wnd t ∧ snd_una t2 = snd_una t.
Proof.
  intros Ht Hfl Hp Hack Hrx.
  assert (Hne : send_buffer t ≠ []) by (intros E; unfold window_probe_segment in Hp; rewrite E in Hp; discriminate).
  destruct (note_window_probe now t Ht Hne) as ([o' t1'] & E & Hv & o'' & Eo & Hs & Hd).
  rewrite E in Hp. injection Hp as -> ->. injection Eo as ->. rewrite Hs, Hd in Hack.
  assert (Hz : zlen (ztake 1 (send_buffer t)) = 1).
  { apply zlen_ztake. destruct (send_buffer t); [done|]. rewrite zlen_cons. pose proof (zlen_nonneg l). lia. }
  rewrite Hz in Hack.
  assert (Hk : send_seqs t1 = send_seqs t) by (unfold tx_view in Hv; unfold send_seqs; congruence).
  assert (Hacc : ∀ x, send_seqs x = send_seqs t → is_acceptable_ack x (Hdr.ack_number header) = false).
  { intros x [= Ex1 Ex2 _]. rewrite Hack, <- Ex2. apply ack_past_nxt; unfold flight_size_bytes in *;
      rewrite ?Ex1, ?Ex2; assumption || apply Ht. }
  unfold rx_established in Hrx. cbv zeta in Hrx.
  destruct (find_timestamp options) as [ts_opt|]; [|discriminate]. rewrite ret_bind in Hrx.
  set (t3 := rx_ecn ce (Hdr.get_flag header CWR) t1) in Hrx.
  assert (H3 : send_seqs t3 = send_seqs t)
    by (rewrite <- Hk; unfold t3, rx_ecn, note_ce; cbv zeta;
        repeat match goal with |- context [if ?b then _ else _] => destruct b end; reflexivity).
  clearbody t3.
  destruct (rx_timestamp now' (Hdr.sequence_number header) (Hdr.is_syn header) ts_opt t3) as [[k t4]|] eqn:E4;
    [|discriminate]. rewrite ret_bind in Hrx. apply seqs_timestamp in E4 as [H4 [-> | ->]];
    [injection Hrx as _ <-; unfold send_seqs in *; split; congruence|].
  destruct (parse_sack_blocks options) as [blocks|]; [|discriminate]. rewrite ret_bind in Hrx.
  rewrite (Hacc t4) in Hrx by congruence. unfold rx_ece, rx_ack_field in Hrx. simpl in Hrx.
  injection Hrx as _ <-. unfold send_seqs in *. split; congruence.
Qed.

(** The peer takes the byte at 1001 and opens its window to 64000. *)
Definition sample_stalled : TcpControlBlock := sample_tx <| snd_wnd := 0 |>.
Definition sample_probe_answer : Hdr.TcpDatagramHeader := Hdr.mkHdr 80 49152 5001 1002 80 16 64000 0 0.

Lemma window_probe_answer_ignored_witness :
  ∃ o t1 a t2, window_probe_segment 5 sample_stalled = Ret (Some o, t1) ∧
    @rx_established {| cbrt := λ x, x |} (λ _, 9) sample_probe_answer [] [] false t1 = Ret (a, t2) ∧
    snd_wnd t2 = 0 ∧ snd_una t2 = 1001.
Proof.
  destruct (window_probe_segment 5 sample_stalled) as [[[o|] t1]|] eqn:E1; try (vm_compute in E1; discriminate).
  destruct (@rx_established {| cbrt := λ x, x |} (λ _, 9) sample_probe_answer [] [] false t1) as [[a t2]|] eqn:E2;
    [|vm_compute in E1; injection E1 as <- <-; vm_compute in E2; discriminate].
  exists o, t1, a, t2. split; [reflexivity|]. split; [exact E2|].
  apply (@window_probe_answer_ignored {| cbrt := λ x, x |} 5 (λ _, 9) sample_stalled o t1 sample_probe_answer [] [] false a t2);
    [|reflexivity|exact E1| |exact E2].
  - pose proof sample_tx_ok as []. by constructor.
  - vm_compute in E1. injection E1 as <- <-. reflexivity.
Defined.
