(* ===== verification/TcpConnect.v ===== *)
(** * Active open and blocking reads

    [driver/connect.rs].  The two calls that block give the processor away
    in a loop; what other threads do meanwhile is a computation [others] on
    the shared world, a parameter of the definitions. *)

From S2P Require Import Prelude Time ReceiveBuffer TcpTypes TcpOptions TcpChecksum TcpSack TcpTimestamp TcpWindow.
From S2P Require Import NetWorld TcpOutOptions TcpWire TcpSend TcpRetransmit TcpRecv.

(** ** The SYN *)

Definition alloc_ephemeral_port : M Z :=
  r ← rdrand;
  let random_val := default 0 r mod U16 in
  lift (add_chk U16 49152 (random_val mod 16384)).

(** The new control block; five readings. *)
Definition active_block (now : clock) (rdrand : option Z) (iss : Z)
    (settings : Settings.TcpSessionSettings) (tuple : Tuple.ConnectionTuple) (socket : Sock.Socket)
  : res TcpControlBlock :=
  let settings := settings <| Settings.receive_buffer_size :=
                    clamp_tcp_receive_buffer_bytes (Settings.receive_buffer_size settings) |> in
  t ← apply_receive_path settings (tcb_new iss tuple socket settings rdrand now);
  Ret (t <| state := SynSent |> <| snd_nxt := wadd iss 1 |>).

(** Header, timestamp and options of the SYN. *)
Definition syn_segment (now : Instant) (settings : Settings.TcpSessionSettings) (iss : Z)
    (t : TcpControlBlock) : res (Hdr.TcpDatagramHeader * Z * list Z) :=
  hdr ← Hdr.hdr_new t;
  let hdr := Hdr.set_acknowledgement_number 0 (Hdr.set_sequence_number iss hdr) in
  let hdr := Hdr.set_flag SYN true hdr in
  let hdr := if Settings.ecn_enabled settings
             then Hdr.set_flag CWR true (Hdr.set_flag ECE true hdr) else hdr in
  let syn_ts := tcp_ts_now now (Ts.offset (ts t)) in
  opts ← syn_outgoing_options settings
           (if Settings.timestamps_enabled settings then Some (syn_ts, 0) else None);
  Ret (hdr, syn_ts, opts).

(** The SYN joins the retransmission queue and is the first RTT probe. *)
Definition queue_syn (now : clock) (iss flags syn_ts : Z) (t : TcpControlBlock) : TcpControlBlock :=
  t <| retransmission_queue := retransmission_queue t ++ [Seg.fresh iss [] flags (now 0%nat) (now 1%nat)] |>
    <| rtt_m; Ts.probe := Some (Ts.mkProbe iss (wadd iss 1) (now 2%nat)) |>
    <| ts; Ts.last_tx_tsval := syn_ts |>.

Definition forget (tuple : Tuple.ConnectionTuple) : M unit :=
  modify (λ w, w <| connections := delete tuple (connections w) |>).

(** Builds, queues and sends the SYN of the registered block [t] at [l]. *)
Definition send_syn (settings : Settings.TcpSessionSettings) (iss : Z) (l : loc) (t : TcpControlBlock)
  : M (loc * Tuple.ConnectionTuple + TcpError) :=
  now ← instant_now;
  '(hdr, syn_ts, opts) ← lift (syn_segment now settings iss t);
  critical l (λ t, now ← readings 3; lift (Ret (tt, queue_syn now iss (Hdr.flags hdr) syn_ts t)));;
  ok ← net_send_tcp_datagram_with_options (socket t) hdr opts [] 0;
  if ok : bool then mret (inl (l, tuple t)) else forget (tuple t);; mret (inr NoRoute).

(** [connect] up to the wait: the connection and its tuple. *)
Definition connect_start (nic : Z) (local_ip : Ipv4Addr) (local_port : Z) (remote_ip : Ipv4Addr)
    (remote_port : Z) (settings : Settings.TcpSessionSettings)
  : M (loc * Tuple.ConnectionTuple + TcpError) :=
  local_port ← (if local_port =? 0 then alloc_ephemeral_port else mret local_port);
  let socket := Sock.new local_ip local_port remote_ip remote_port nic in
  let tuple := Tuple.from_socket socket in
  r ← rdrand;
  r ← unwrap r;
  let iss := r mod U32 in
  rd ← rdrand;
  now ← readings 5;
  t ← lift (active_block now rd iss settings tuple socket);
  l ← alloc t;
  modify (λ w, w <| connections := <[tuple := l]> (connections w) |>);;
  send_syn settings iss l t.

(** ** The wait *)

(** One pass of the loop; [None] goes on. *)
Definition connect_poll (l : loc) (tuple : Tuple.ConnectionTuple) (deadline : Instant)
  : M (option (loc + TcpError)) :=
  t ← read_tcb l;
  match state t with
  | Established => mret (Some (inl l))
  | Closed => forget tuple;; mret (Some (inr (default ConnectionRefused (last_error t))))
  | _ =>
      now ← instant_now;
      if deadline <=? now then forget tuple;; mret (Some (inr Timeout)) else mret None
  end.

Definition connect_wait (others : M unit) (bound : positive) (l : loc)
    (tuple : Tuple.ConnectionTuple) (deadline : Instant) : M (loc + TcpError) := λ w,
  while_loop (λ w,
    '(r, w) ← connect_poll l tuple deadline w;
    match r with
    | Some r => Ret (inr (r, w))
    | None => '(_, w) ← others w; Ret (inl w)
    end) bound w.

(** [event] is a value of the block; clearing its waiters goes through the
    read guard. *)
Definition clear_pending (l : loc) : M unit :=
  t ← read_tcb l;
  release l (t <| event := event_clear_pending (event t) |>).

Definition connect (others : M unit) (bound : positive) (nic : Z) (local_ip : Ipv4Addr)
    (local_port : Z) (remote_ip : Ipv4Addr) (remote_port : Z)
    (settings : Settings.TcpSessionSettings) : M (loc + TcpError) :=
  r ← connect_start nic local_ip local_port remote_ip remote_port settings;
  match r with
  | inr e => mret (inr e)
  | inl (l, tuple) =>
      now ← instant_now;
      clear_pending l;;
      connect_wait others bound l tuple (instant_add now (secs 5))
  end.

(** ** Blocking reads *)

Inductive recv_outcome :=
| RecvData (bs : list Z)
| RecvEof
| RecvErr (e : TcpError)
| RecvBlock.

(** One pass under the lock, into a target of [len] bytes. *)
Definition receive_pass (len : Z) (t : TcpControlBlock) : res (recv_outcome * TcpControlBlock) :=
  match last_error t with
  | Some e => Ret (RecvErr e, t)
  | None =>
      '(bs, b) ← RxRing.read (receive_buffer t) len;
      let t := t <| receive_buffer := b |> in
      if 0 <? zlen bs then
        t ← update_rcv_wnd_from_buffer t;
        Ret (RecvData bs, t)
      else
        match state t with
        | CloseWait | Closed | LastAck | TimeWait => Ret (RecvEof, t)
        | _ => Ret (RecvBlock, t)
        end
  end.

(** [inl] carries the bytes copied to the target; none is end of file. *)
Definition receive_sync (others : M unit) (bound : positive) (l : loc) (len : Z)
  : M (list Z + TcpError) := λ w,
  while_loop (λ w,
    '(r, w) ← critical l (λ t, lift (receive_pass len t)) w;
    match r with
    | RecvErr e => Ret (inr (inr e, w))
    | RecvEof => Ret (inr (inl [], w))
    | RecvData bs => Ret (inr (inl bs, w))
    | RecvBlock => '(_, w) ← read_tcb l w; '(_, w) ← others w; Ret (inl w)
    end) bound w.

(** ** The block of a new connection *)

Record settings_ok (s : Settings.TcpSessionSettings) : Prop := {
  set_wscale : 0 ≤ Settings.rcv_wscale s < 32;
  set_buffer : 0 ≤ Settings.recv_buf_size s < 2 ^ 62
}.

Record endpoints_ok (s : Sock.Socket) : Prop := {
  end_local : ip_ok (Sock.local_address s);
  end_remote : ip_ok (Sock.remote_address s);
  end_local_port : u16 (Sock.local_port s);
  end_remote_port : u16 (Sock.remote_port s)
}.

Lemma receive_path_spec settings t : settings_ok settings →
  ∃ b w m, apply_receive_path settings t = Ret (t <| receive_buffer := b |> <| max_rcv_wnd := m |>
      <| rcv_wscale := Settings.rcv_wscale settings |>
      <| wnd_scale_enabled := Settings.wnd_scale_enabled settings |> <| rcv_wnd := w |>) ∧
    u16 w ∧ RxRing.wf b ∧ RxRing.readable b = [].
Proof.
  intros []. unfold apply_receive_path, update_rcv_wnd_from_buffer, effective_rcv_wnd. cbv zeta. rsimp.
  set (cap := Z.max (Settings.recv_buf_size settings) 1).
  destruct (RxRing.new_wf cap) as [Hwf Hr]; [lia|].
  rewrite RxRing.free_space_ret by assumption. rewrite !ret_bind.
  eexists _, _, _. split; [reflexivity|]. split; [|auto]. mlia.
Qed.

Lemma sack_new_ok now : board_ok (Sack.sack_new now).
Proof. constructor; [reflexivity|vm_compute; split; discriminate|constructor|exact I]. Qed.

Lemma active_block_spec now rd iss settings tup sk :
  u32 iss → settings_ok settings → endpoints_ok sk → tup = Tuple.from_socket sk →
  returns (active_block now rd iss settings tup sk) (λ t,
    tcb_ok t ∧ state t = SynSent ∧ snd_una t = iss ∧ snd_nxt t = wadd iss 1 ∧
    retransmission_queue t = [] ∧ send_buffer t = [] ∧ socket t = sk ∧ tuple t = tup ∧
    RxRing.wf (receive_buffer t) ∧ RxRing.readable (receive_buffer t) = []).
Proof.
  intros Hi Hs [] Htu. unfold active_block. cbv zeta.
  set (s := settings <| Settings.receive_buffer_size := _ |>).
  assert (Hs' : settings_ok s) by (destruct Hs; constructor; assumption).
  destruct (receive_path_spec s (tcb_new iss tup sk s rd now) Hs') as (b & w & m & -> & Hw & Hb & Hr).
  destruct Hs'. rewrite ret_bind. apply returns_ret. split; [|rsimp; auto 10].
  subst tup. constructor; rsimp; try assumption.
  - unfold wadd. mlia.
  - vm_compute. split; congruence.
  - vm_compute. split; congruence.
  - vm_compute. split; congruence.
  - vm_compute. split; congruence.
  - apply sack_new_ok.
  - vm_compute. split; congruence.
  - constructor.
  - constructor.
Qed.

(** ** The SYN on the wire *)

Definition syn_flags (settings : Settings.TcpSessionSettings) : Z :=
  if Settings.ecn_enabled settings then Z.lor SYN (Z.lor ECE CWR) else SYN.

Lemma syn_segment_spec now settings iss t :
  tcb_ok t → u32 iss → settings_ok settings →
  returns (syn_segment now settings iss t) (λ '(hdr, syn_ts, opts),
    out_ok (mkOut (socket t) hdr opts [] 0) ∧ Hdr.sequence_number hdr = iss ∧ Hdr.ack_number hdr = 0 ∧
    Hdr.source_port hdr = Tuple.local_port (tuple t) ∧ Hdr.dest_port hdr = Tuple.remote_port (tuple t) ∧
    Hdr.flags hdr = syn_flags settings ∧
    ∃ n, parse_options opts = Ret (syn_options settings
      (if Settings.timestamps_enabled settings then Some (syn_ts, 0) else None) ++ pads n)).
Proof.
  intros Ht Hi []. pose proof Ht as []. unfold syn_segment.
  destruct (hdr_new_spec t Ht) as (h & -> & Hh & Hc & Hf & Hs & Ha & Hsp & Hdp). rewrite ret_bind. cbv zeta.
  set (ts := if Settings.timestamps_enabled settings then _ else _).
  destruct (syn_options_spec settings ts) as (out & -> & H40 & H4 & Hob & Hp); [ints; lia| |].
  { intros v e. unfold ts. destruct (Settings.timestamps_enabled settings); [|discriminate].
    intros [= <- <-]. unfold tcp_ts_now, wadd. split; mlia. }
  rewrite ret_bind. apply returns_ret.
  assert (Hfl : Hdr.flags (if Settings.ecn_enabled settings
      then Hdr.set_flag CWR true (Hdr.set_flag ECE true
        (Hdr.set_flag SYN true (Hdr.set_acknowledgement_number 0 (Hdr.set_sequence_number iss h))))
      else Hdr.set_flag SYN true (Hdr.set_acknowledgement_number 0 (Hdr.set_sequence_number iss h)))
    = syn_flags settings)
    by (unfold syn_flags; destruct (Settings.ecn_enabled settings);
        unfold Hdr.set_flag, Hdr.set_acknowledgement_number, Hdr.set_sequence_number; rsimp;
        rewrite Hf; reflexivity).
  assert (Hu : u8 (syn_flags settings))
    by (unfold syn_flags; destruct (Settings.ecn_enabled settings); vm_compute; split; congruence).
  split; [|destruct (Settings.ecn_enabled settings);
           repeat (split; [first [assumption|reflexivity]|]); assumption].
  constructor; cbn [out_socket out_hdr out_opts out_data]; try assumption.
  - destruct Hh. constructor; [..|rewrite Hfl; assumption| | | ];
      destruct (Settings.ecn_enabled settings); try assumption; vm_compute; split; congruence.
  - destruct (Settings.ecn_enabled settings); assumption.
  - split; [assumption|]. split; [assumption|]. by apply Z.mod_divide.
  - split; [constructor|]. vm_compute. congruence.
Qed.

(** The local port of a connect: the one asked for, or one the next random
    number gives. *)
Definition connect_port (local_port : Z) (w : world) : Z :=
  if local_port =? 0 then 49152 + default 0 (rng w (rng_idx w)) mod U16 mod 16384 else local_port.

Lemma alloc_ephemeral_port_run w : 49152 ≤ connect_port 0 w ≤ 65535 ∧
  alloc_ephemeral_port w = Ret (connect_port 0 w, w <| rng_idx := S (rng_idx w) |>).
Proof.
  unfold alloc_ephemeral_port, rdrand, connect_port. cbv zeta. unfold mbind, M_bind. cbn [Z.eqb]. cbv beta iota.
  set (r := default 0 (rng w (rng_idx w)) mod U16). assert (0 ≤ r mod 16384 < 16384) by (apply Z.mod_pos_bound; lia).
  split; [lia|]. rewrite add_chk_ret by lia. reflexivity.
Qed.

(** The SYN [p] that offers [settings] from sequence number [seq]. *)
Definition is_syn_packet (settings : Settings.TcpSessionSettings) (sk : Sock.Socket) (seq : Z)
    (p : packet) : Prop :=
  pk_dst p = Sock.remote_address sk ∧ pk_nic p = Sock.nic sk ∧ pk_tos p = 0 ∧
  ∃ h opts v n,
    open_frame (Sock.local_address sk) (Sock.remote_address sk) (pk_bytes p) = Ret (RxSegment h opts []) ∧
    Hdr.source_port h = Sock.local_port sk ∧ Hdr.dest_port h = Sock.remote_port sk ∧
    Hdr.sequence_number h = seq ∧ Hdr.ack_number h = 0 ∧ Hdr.flags h = syn_flags settings ∧
    parse_options opts = Ret (syn_options settings
      (if Settings.timestamps_enabled settings then Some (v, 0) else None) ++ pads n).

(** The block after the SYN left: the queue holds it and covers the flight. *)
Record syn_sent (sk : Sock.Socket) (t : TcpControlBlock) : Prop := {
  sy_ok : tcb_ok t;
  sy_tracks : tracks t;
  sy_state : state t = SynSent;
  sy_flight : snd_nxt t = wadd (snd_una t) 1;
  sy_socket : socket t = sk;
  sy_tuple : tuple t = Tuple.from_socket sk
}.

Lemma queue_syn_sent now iss settings syn_ts sk t :
  tcb_ok t → u32 iss → state t = SynSent → snd_una t = iss → snd_nxt t = wadd iss 1 →
  retransmission_queue t = [] → socket t = sk → tuple t = Tuple.from_socket sk →
  syn_sent sk (queue_syn now iss (syn_flags settings) syn_ts t).
Proof.
  intros Ht Hi Hst Hu Hn Hq Hsk Htu. unfold queue_syn. rewrite Hq. cbn [app].
  assert (Hfl : u8 (syn_flags settings))
    by (unfold syn_flags; destruct (Settings.ecn_enabled settings); vm_compute; split; congruence).
  set (seg := Seg.fresh _ _ _ _ _).
  assert (Hspan : seg_span seg = 1)
    by (unfold seg_span, seg, Seg.fresh, Seg.is_syn, syn_flags; cbn [Seg.flags];
        destruct (Settings.ecn_enabled settings); reflexivity).
  constructor; try assumption.
  - destruct Ht. constructor; rsimp; try assumption. constructor; [|constructor].
    constructor; [assumption|constructor|vm_compute; congruence|assumption].
  - exists iss, 0. rsimp. split; [assumption|]. cbn [chain una_at span_sum fmap list_fmap foldr].
    unfold span_sum. cbn [fmap list_fmap foldr]. rewrite Hspan.
    split; [|split; [rewrite wadd_0 by assumption; assumption|split; lia]].
    split; [reflexivity|]. split; [lia|assumption].
  - rsimp. congruence.
Qed.

Lemma send_syn_spec settings iss sk l t w :
  heap w !! l = Some (mkCell false t) → tcb_ok t → u32 iss → settings_ok settings → state t = SynSent →
  snd_una t = iss → snd_nxt t = wadd iss 1 → retransmission_queue t = [] → socket t = sk →
  tuple t = Tuple.from_socket sk →
  returns (send_syn settings iss l t w) (λ '(r, w'), ∃ t' p,
    heap w' !! l = Some (mkCell false t') ∧ syn_sent sk t' ∧ clk w' = clk w ∧
    wire w' = wire w ++ [p] ∧ is_syn_packet settings sk (snd_una t') p ∧
    match r with
    | inl (l', tup) => l' = l ∧ tup = Tuple.from_socket sk ∧ connections w' = connections w
    | inr e => e = NoRoute ∧ connections w' = delete (Tuple.from_socket sk) (connections w)
    end).
Proof.
  intros Hl Hok Hiss Hset Hst Hun Hnx Hq Hsk Htu. unfold send_syn. erewrite bind_run; [|reflexivity].
  match goal with |- context [syn_segment ?n _ _ _] =>
    destruct (syn_segment_spec n settings iss t) as ([[hdr syn_ts] opts] & E & Hout & Hseq & Hack & Hsp & Hdp & Hfl & n' & Hpo);
    [assumption..|] end.
  rewrite (bind_run _ _ _ _ _ (lift_run _ _ _ E)). clear E. set (w2 := w <| clk_idx := _ |>).
  erewrite bind_run; [|apply (critical_timed l 3
    (λ now t, Ret (tt, queue_syn now iss (Hdr.flags hdr) syn_ts t)) w2 t _ _ Hl eq_refl)].
  rewrite Hfl. match goal with |- context [queue_syn ?n _ _ _ _] => set (now3 := n) end.
  pose proof (queue_syn_sent now3 iss settings syn_ts sk t) as Hsyn.
  set (t' := queue_syn _ _ _ _ _) in *. set (w3 := w2 <| clk_idx := _ |> <| heap := _ |>).
  destruct (transmit_spec (mkOut (socket t) hdr opts [] 0) w3) as (ok & p & Htr & Hp); [assumption|].
  rewrite (bind_run _ _ _ _ _ Htr). destruct Hp as (Hd & Hn & Htos & h & Hopen & Hh).
  assert (Hpk : is_syn_packet settings sk (snd_una t') p).
  { cbn [out_socket out_hdr out_opts out_data out_tos] in *. rewrite Hsk in *. unfold is_syn_packet.
    split; [assumption|]. split; [assumption|]. split; [assumption|]. exists h, opts, syn_ts, n'.
    split; [assumption|]. rewrite Htu in Hsp, Hdp. rewrite Hh.
    assert (Hu' : snd_una t' = iss) by exact Hun.
    rsimp. repeat (split; [assumption || congruence|]). assumption. }
  assert (Hl3 : heap w3 !! l = Some (mkCell false t')) by (unfold w3; rsimp; apply lookup_insert_eq).
  destruct ok; [|erewrite bind_run; [|reflexivity]]; apply returns_ret; exists t', p; rsimp;
    (split; [assumption|]; split; [auto|]; do 2 (split; [reflexivity|]); split; [assumption|]);
    rewrite Htu; auto.
Qed.

Lemma connect_start_spec nic local_ip local_port remote_ip remote_port settings w :
  ip_ok local_ip → ip_ok remote_ip → u16 local_port → u16 remote_port → settings_ok settings →
  (∀ n, is_Some (rng w n)) →
  returns (connect_start nic local_ip local_port remote_ip remote_port settings w) (λ '(r, w'),
    ∃ port t p, port = connect_port local_port w ∧ (if local_port =? 0 then 49152 ≤ port ≤ 65535 else port = local_port) ∧
      let sk := Sock.new local_ip port remote_ip remote_port nic in
      heap w' !! next_loc w = Some (mkCell false t) ∧ syn_sent sk t ∧
      clk w' = clk w ∧ wire w' = wire w ++ [p] ∧ is_syn_packet settings sk (snd_una t) p ∧
      match r with
      | inl (l, tup) => l = next_loc w ∧ tup = Tuple.from_socket sk ∧
          connections w' = <[Tuple.from_socket sk := next_loc w]> (connections w)
      | inr e => e = NoRoute ∧ connections w' = delete (Tuple.from_socket sk) (connections w)
      end).
Proof.
  intros Hlip Hrip Hlp Hrp Hset Hrng. unfold connect_start.
  assert (Hport : ∃ port w1, (if local_port =? 0 then alloc_ephemeral_port else mret local_port) w = Ret (port, w1) ∧ port = connect_port local_port w ∧
      (if local_port =? 0 then 49152 ≤ port ≤ 65535 else port = local_port) ∧ u16 port ∧
      ∃ k, w1 = w <| rng_idx := k |>).
  { destruct (Z.eqb_spec local_port 0) as [->|Hne].
    - destruct (alloc_ephemeral_port_run w) as (Hp & ->). eexists _, _.
      split; [reflexivity|]. split; [reflexivity|]. split; [assumption|]. split; [ints; lia|eauto].
    - eexists _, _. split; [reflexivity|]. split; [unfold connect_port; by rewrite (proj2 (Z.eqb_neq _ _)) by done|]. split; [reflexivity|]. split; [assumption|].
      exists (rng_idx w). destruct w. reflexivity. }
  destruct Hport as (port & w1 & E1 & Ecp & Hport & Hu & k & ->). rewrite (bind_run _ _ _ _ _ E1). clear E1.
  cbv zeta. set (sk := Sock.new local_ip port remote_ip remote_port nic).
  destruct (Hrng k) as [r Hr]. erewrite bind_run; [|reflexivity]. rsimp. rewrite Hr.
  erewrite bind_run; [|reflexivity]. set (iss := r mod U32). assert (Hiss : u32 iss) by (unfold iss; mlia).
  erewrite bind_run; [|reflexivity]. erewrite bind_run; [|reflexivity]. rsimp.
  match goal with |- context [active_block ?n ?r' _ _ _ _] => set (now := n); set (rd := r') end.
  destruct (active_block_spec now rd iss settings (Tuple.from_socket sk) sk)
    as (t & E & Hok & Hst & Hun & Hnx & Hq & _ & Hsk & Htu & _); [assumption..|constructor; assumption|reflexivity|].
  rewrite (bind_run _ _ _ _ _ (lift_run _ _ _ E)). clear E.
  erewrite bind_run; [|reflexivity]. erewrite bind_run; [|reflexivity]. rsimp.
  match goal with |- returns (_ ?w') _ => set (w2 := w') end.
  assert (Hl2 : heap w2 !! next_loc w = Some (mkCell false t)) by (unfold w2; rsimp; apply lookup_insert_eq).
  eapply returns_mono; [apply (send_syn_spec settings iss sk (next_loc w) t w2); assumption|].
  intros [o w'] (t' & p & Hl' & Hsyn & Hc & Hw & Hp & Ho). exists port, t', p. unfold w2 in *. rsimp_all.
  repeat (split; [assumption|]). destruct o as [[l tup]|e]; [assumption|].
  rewrite delete_insert_eq in Ho. assumption.
Qed.

(** An active open sends its SYN.  Whatever the link does,
    [connect_start] returns.  The local port is the one asked for, or one of
    49152-65535.  The packet on the wire is one the peer opens to a SYN with
    the initial sequence number, offering ECN, MSS, window scale, SACK and
    timestamps exactly as the settings say.  The new control block is in
    SYN-SENT, queues the SYN, and is registered under the connection's tuple -
    or, if the link refused the packet, no longer is. *)
Theorem connect_sends_syn nic local_ip local_port remote_ip remote_port settings w :
  ip_ok local_ip → ip_ok remote_ip → u16 local_port → u16 remote_port → settings_ok settings →
  (∀ n, is_Some (rng w n)) →
  returns (connect_start nic local_ip local_port remote_ip remote_port settings w) (λ '(r, w'),
    ∃ port t p, (if local_port =? 0 then 49152 ≤ port ≤ 65535 else port = local_port) ∧
      let sk := Sock.new local_ip port remote_ip remote_port nic in
      heap w' !! next_loc w = Some (mkCell false t) ∧ syn_sent sk t ∧
      wire w' = wire w ++ [p] ∧ is_syn_packet settings sk (snd_una t) p ∧
      match r with
      | inl (l, tup) => l = next_loc w ∧ tup = Tuple.from_socket sk ∧
          connections w' = <[Tuple.from_socket sk := next_loc w]> (connections w)
      | inr e => e = NoRoute ∧ connections w' = delete (Tuple.from_socket sk) (connections w)
      end).
Proof.
  intros. eapply returns_mono; [by apply connect_start_spec|].
  intros [r w'] (port & t & p & _ & Hport & Hl & Hsyn & _ & Hrest). exists port, t, p. auto.
Qed.

Definition fresh_world : world :=
  mkWorld ∅ 1 ∅ Skt.table_new {[ 0 := Some (10, 0, 2, 15) ]} (λ i, Z.of_nat i * 1000000000) 0
    (λ _, Some 7) 0 (λ _, true) [].

Lemma connect_sends_syn_witness :
  returns (connect_start 0 (10, 0, 2, 15) 0 (10, 0, 2, 2) 80 Settings.settings_default fresh_world)
    (λ '(r, w'), ∃ port t p, 49152 ≤ port ≤ 65535 ∧
      let sk := Sock.new (10, 0, 2, 15) port (10, 0, 2, 2) 80 0 in
      heap w' !! 1%positive = Some (mkCell false t) ∧ syn_sent sk t ∧
      wire w' = [] ++ [p] ∧ is_syn_packet Settings.settings_default sk (snd_una t) p ∧
      match r with
      | inl (l, tup) => l = 1%positive ∧ tup = Tuple.from_socket sk ∧
          connections w' = <[Tuple.from_socket sk := 1%positive]> ∅
      | inr e => e = NoRoute ∧ connections w' = delete (Tuple.from_socket sk) ∅
      end).
Proof.
  apply (connect_sends_syn 0 (10, 0, 2, 15) 0 (10, 0, 2, 2) 80 Settings.settings_default fresh_world).
  - repeat constructor; vm_compute; congruence.
  - repeat constructor; vm_compute; congruence.
  - vm_compute. split; congruence.
  - vm_compute. split; congruence.
  - constructor; vm_compute; split; congruence.
  - intros n. exists 7. reflexivity.
Defined.

(** ** The wait ends *)

Definition unlocked (l : loc) (w : world) : Prop := ∃ t, heap w !! l = Some (mkCell false t).

(** Other threads return, leave the connection's lock free, and time does
    not run backwards. *)
Definition fair (others : M unit) (l : loc) : Prop :=
  ∀ w, unlocked l w → returns (others w) (λ '(_, w'),
    unlocked l w' ∧ clk w' = clk w ∧ (clk_idx w ≤ clk_idx w')%nat).

Definition connect_result (l : loc) (tup : Tuple.ConnectionTuple) (r : loc + TcpError) (w : world) : Prop :=
  match r with
  | inl l' => l' = l ∧ ∃ t, heap w !! l = Some (mkCell false t) ∧ state t = Established
  | inr _ => connections w !! tup = None
  end.

Lemma connect_poll_spec l tup deadline w : unlocked l w →
  returns (connect_poll l tup deadline w) (λ '(r, w'),
    match r with
    | Some r => connect_result l tup r w'
    | None => clk w (clk_idx w) < deadline ∧ w' = w <| clk_idx := S (clk_idx w) |>
    end).
Proof.
  intros [t Hl]. unfold connect_poll. erewrite bind_run; [|unfold read_tcb; rewrite Hl; reflexivity].
  destruct (state t) eqn:Est.
  all: try (erewrite bind_run; [|reflexivity]; destruct (Z.leb_spec deadline (clk w (clk_idx w)))).
  all: try (erewrite bind_run; [|reflexivity]); apply returns_ret; simpl; rsimp; rewrite ?lookup_delete_eq; eauto.
Qed.

Lemma connect_wait_spec others bound l tup deadline w (N : nat) :
  unlocked l w → fair others l → (∀ n, (N ≤ n)%nat → deadline ≤ clk w n) → Z.of_nat N < Z.pos bound →
  returns (connect_wait others bound l tup deadline w) (λ '(r, w'), connect_result l tup r w').
Proof.
  intros Hl Hfair HN Hb. unfold connect_wait.
  apply (while_loop_total _ (λ w1, unlocked l w1 ∧ clk w1 = clk w)
    (λ w1, Z.max 0 (Z.of_nat N - Z.of_nat (clk_idx w1)))).
  - intros w1 [Hl1 Hc1] _. destruct (connect_poll_spec l tup deadline w1 Hl1) as ([r w2] & -> & Hr).
    rewrite ret_bind. destruct r as [r|]; [by apply returns_ret|]. destruct Hr as [Hlt ->].
    destruct (Hfair (w1 <| clk_idx := S (clk_idx w1) |>)) as ([[] w3] & -> & Hl3 & Hc3 & Hi3); [exact Hl1|].
    rewrite ret_bind. apply returns_ret. rsimp_all. rewrite Hc1 in *.
    assert (clk_idx w1 < N)%nat. { destruct (Nat.lt_ge_cases (clk_idx w1) N); [assumption|]. specialize (HN (clk_idx w1)). lia. }
    split; [auto|]. lia.
  - auto.
  - lia.
Qed.

Lemma clear_pending_run l w t : heap w !! l = Some (mkCell false t) →
  clear_pending l w = Ret (tt, w <| heap :=
    <[l := mkCell false (t <| event := event_clear_pending (event t) |>)]> (heap w) |>).
Proof. intros Hl. unfold clear_pending, read_tcb, mbind, M_bind. rewrite Hl. reflexivity. Qed.

(** C35: [connect] comes to an end.  If the other threads return and leave the
    lock free, and the clock passes every instant, then for every bound on the
    rounds from some point on - the deadline is five seconds away -
    [connect] returns: the connection that its first part entered in the table,
    which is then established, or an error, and then the table has no connection
    under the tuple of addresses and ports it was entered with. *)
Theorem connect_settles others nic local_ip local_port remote_ip remote_port settings w :
  ip_ok local_ip → ip_ok remote_ip → u16 local_port → u16 remote_port → settings_ok settings →
  (∀ n, is_Some (rng w n)) → (∀ l, fair others l) →
  (∀ d, d < U64 → ∃ N : nat, ∀ n, (N ≤ n)%nat → d ≤ clk w n) →
  ∃ b0, ∀ bound, (b0 ≤ bound)%positive →
  returns (connect others bound nic local_ip local_port remote_ip remote_port settings w) (λ '(r, w'),
    let tup := Tuple.from_socket (Sock.new local_ip (connect_port local_port w) remote_ip remote_port nic) in
    connect_result (next_loc w) tup r w' ∧
    ∃ r0 w0, connect_start nic local_ip local_port remote_ip remote_port settings w = Ret (r0, w0) ∧
      connections w0 = match r0 with inl _ => <[tup := next_loc w]> (connections w) | inr _ => delete tup (connections w) end).
Proof.
  intros Hl Hr Hlp Hrp Hs Hrng Hfair Hclk. unfold connect.
  destruct (connect_start_spec nic local_ip local_port remote_ip remote_port settings w)
    as ([r w1] & E & port & t & p & -> & _ & Hl1 & _ & Hc & _ & _ & Hr1); [assumption..|].
  destruct (Hclk (instant_add (clk w1 (clk_idx w1)) (secs 5))) as [N HN];
    [unfold instant_add, sat_add; lia|].
  exists (Pos.of_succ_nat N). intros bound Hb. rewrite (bind_run _ _ _ _ _ E).
  destruct r as [[l tup]|e].
  - destruct Hr1 as (-> & -> & Hins). erewrite bind_run; [|reflexivity].
    erewrite bind_run; [|apply (clear_pending_run _ _ t); exact Hl1].
    eapply returns_mono; [apply (connect_wait_spec _ _ _ _ _ _ N)|].
    + eexists. rsimp. apply lookup_insert_eq.
    + apply Hfair.
    + rsimp. rewrite Hc in *. assumption.
    + lia.
    + intros [r w2] H. split; [exact H|]. eexists _, _. split; [exact E|exact Hins].
  - apply returns_ret. destruct Hr1 as [_ Hr1]. split; [simpl; rewrite Hr1; apply lookup_delete_eq|]. eexists _, _. split; [exact E|exact Hr1].
Qed.

Lemma connect_settles_witness :
  ∃ b0, ∀ bound, (b0 ≤ bound)%positive →
  returns (connect (mret tt) bound 0 (10, 0, 2, 15) 0 (10, 0, 2, 2) 80 Settings.settings_default fresh_world)
    (λ '(r, w'), let tup := Tuple.from_socket (Sock.new (10, 0, 2, 15) 49159 (10, 0, 2, 2) 80 0) in
      connect_result 1%positive tup r w' ∧
      ∃ r0 w0, connect_start 0 (10, 0, 2, 15) 0 (10, 0, 2, 2) 80 Settings.settings_default fresh_world = Ret (r0, w0) ∧
        connections w0 = match r0 with inl _ => <[tup := 1%positive]> ∅ | inr _ => delete tup ∅ end).
Proof.
  apply (connect_settles (mret tt) 0 (10, 0, 2, 15) 0 (10, 0, 2, 2) 80 Settings.settings_default fresh_world).
  - repeat constructor; vm_compute; congruence.
  - repeat constructor; vm_compute; congruence.
  - vm_compute. split; congruence.
  - vm_compute. split; congruence.
  - constructor; vm_compute; split; congruence.
  - intros n. exists 7. reflexivity.
  - intros l w Hl. exists (tt, w). split; [reflexivity|]. split; [exact Hl|]. split; [reflexivity|apply le_n].
  - intros d _. exists (Z.to_nat d). intros n Hn. simpl. lia.
Defined.

(** ** Reads *)

Lemma ztake_min {A} n (l : list A) : 0 ≤ n → ztake (Z.min n (zlen l)) l = ztake n l.
Proof.
  intros. destruct (Z.min_spec n (zlen l)) as [[_ ->]|[? ->]]; [reflexivity|].
  unfold ztake, zlen in *. rewrite !take_ge by lia. reflexivity.
Qed.

Lemma zdrop_min {A} n (l : list A) : 0 ≤ n → zdrop (Z.min n (zlen l)) l = zdrop n l.
Proof.
  intros. destruct (Z.min_spec n (zlen l)) as [[_ ->]|[? ->]]; [reflexivity|].
  unfold zdrop, zlen in *. rewrite !drop_ge by lia. reflexivity.
Qed.

(** What a read that does not block yields. *)
Definition read_result (len : Z) (t : TcpControlBlock) (r : list Z + TcpError) (t' : TcpControlBlock) : Prop :=
  match last_error t with
  | Some e => r = inr e ∧ t' = t
  | None =>
      r = inl (ztake len (RxRing.readable (receive_buffer t))) ∧ RxRing.wf (receive_buffer t') ∧
      RxRing.readable (receive_buffer t') = zdrop len (RxRing.readable (receive_buffer t)) ∧
      (RxRing.readable (receive_buffer t) ≠ [] →
       returns (effective_rcv_wnd t') (λ e, rcv_wnd t' = Z.min e 65535))
  end.

Definition peer_closed (s : TcpState) : bool :=
  match s with CloseWait | Closed | LastAck | TimeWait => true | _ => false end.

Lemma receive_pass_spec len t : RxRing.wf (receive_buffer t) → 0 < len →
  returns (receive_pass len t) (λ '(o, t'),
    match o with
    | RecvErr e => read_result len t (inr e) t'
    | RecvData bs => read_result len t (inl bs) t' ∧ bs ≠ []
    | RecvEof => read_result len t (inl []) t' ∧ peer_closed (state t) = true
    | RecvBlock => last_error t = None ∧ RxRing.readable (receive_buffer t) = [] ∧ peer_closed (state t) = false
    end).
Proof.
  intros Hwf Hlen. unfold receive_pass, read_result. destruct (last_error t) as [e|] eqn:He; [by apply returns_ret|].
  destruct (RxRing.read_spec (receive_buffer t) len Hwf) as ([bs b] & -> & Hbs & Hr & Hwf' & _); [lia|].
  rewrite ret_bind. cbv zeta in *. rewrite <- (RxRing.zlen_readable _ Hwf), ztake_min, zdrop_min in * by lia.
  destruct (Z.ltb_spec 0 (zlen bs)) as [Hz|Hz].
  - unfold update_rcv_wnd_from_buffer, effective_rcv_wnd. rsimp.
    rewrite RxRing.free_space_ret by assumption. rewrite !ret_bind. apply returns_ret. rsimp.
    split; [|intros ->; done]. split; [congruence|]. split; [assumption|]. split; [assumption|]. intros _.
    rewrite RxRing.free_space_ret by assumption. rewrite ret_bind. by apply returns_ret.
  - assert (Hnil : RxRing.readable (receive_buffer t) = []).
    { destruct (RxRing.readable (receive_buffer t)) as [|x l] eqn:E; [reflexivity|exfalso].
      rewrite <- (ztake_min len) in Hbs by lia. rewrite Hbs, zlen_ztake, zlen_cons in Hz;
        pose proof (zlen_nonneg l); rewrite ?zlen_cons in *; lia. }
    assert (Hbs' : bs = []) by (rewrite Hbs, Hnil; unfold ztake; apply take_nil).
    rsimp. rewrite Hnil in *. rewrite <- Hbs, Hbs'.
    destruct (state t); apply returns_ret; auto 10; (split; [|reflexivity]);
      (do 3 (split; [assumption || reflexivity|])); done.
Qed.

(** Blocking reads.  When an error is recorded, [receive_sync] reports it.
    Otherwise it copies the oldest bytes the ring holds, as many as fit the
    target, takes exactly those out of the ring, and reopens the receive
    window for the freed space; the buffer is empty and the peer has closed
    exactly when it reports end of file.  In these cases it does not block. *)
Theorem receive_sync_reads others bound l len w t :
  heap w !! l = Some (mkCell false t) → RxRing.wf (receive_buffer t) → 0 < len →
  last_error t ≠ None ∨ RxRing.readable (receive_buffer t) ≠ [] ∨ peer_closed (state t) = true →
  returns (receive_sync others bound l len w) (λ '(r, w'), ∃ t',
    heap w' !! l = Some (mkCell false t') ∧ read_result len t r t' ∧
    (r = inl [] → peer_closed (state t) = true)).
Proof.
  intros Hl Hwf Hlen Hready. unfold receive_sync.
  apply (while_loop_total _ (λ w1, w1 = w) (λ _, 0)); [|reflexivity|lia].
  intros w1 -> _. destruct (receive_pass_spec len t Hwf Hlen) as ([o t'] & E & Ho).
  rewrite (critical_run l _ w t o t' (w <| heap := <[l := mkCell true t]> (heap w) |>));
    [|assumption|unfold lift; rewrite E; reflexivity].
  rewrite ret_bind. destruct o as [bs| |e|]; [..|destruct Ho as (H1 & H2 & H3), Hready as [?|[?|?]]; congruence].
  all: apply returns_ret; exists t'; rsimp; (split; [apply lookup_insert_eq|]).
  - destruct Ho. split; [assumption|congruence].
  - destruct Ho. auto.
  - split; [assumption|discriminate].
Qed.

Definition sample_readable : TcpControlBlock :=
  sample_tcb <| state := Established |> <| max_rcv_wnd := 8 |>
    <| receive_buffer := RxRing.mkRing [1; 2; 3; 4; 0; 0; 0; 0] 4 0 4 4 8 |>.

Lemma receive_sync_reads_witness :
  returns (receive_sync (mret tt) 1 1%positive 3 (sample_world sample_readable)) (λ '(r, w'), ∃ t',
    heap w' !! 1%positive = Some (mkCell false t') ∧ read_result 3 sample_readable r t' ∧
    (r = inl [] → false = true)).
Proof.
  apply (receive_sync_reads (mret tt) 1 1%positive 3 (sample_world sample_readable) sample_readable).
  - reflexivity.
  - constructor; vm_compute; first [reflexivity | split; congruence].
  - lia.
  - right. left. vm_compute. congruence.
Defined.
