(* ===== verification/TcpSocket.v ===== *)
(** * The socket interface

    [proto/tcp_socket.rs] from line 263: create, bind, listen, accept,
    connect, send, receive, shut down and close.  What an operation does to
    the socket table is a function on the table; the operations wrap it in
    the driver's monad.  A socket's mutex is held only within a step. *)

From S2P Require Import Prelude Time ReceiveBuffer TcpTypes NetWorld SocketTable TcpSend TcpRecv TcpConnect.

Inductive TcpSocketError :=
| InvalidHandle | NotBound | AddrInUse | NotListening | SktNotConnected | BacklogFull | SktClosed
| AlreadyConnected | Io (err : TcpError).

Inductive Shutdown := ShutRead | ShutWrite | ShutBoth.

(** ** Operations on the table *)

Module Tbl.
Definition set_role (handle : Z) (r : Skt.TcpSocketRole) (tb : Skt.TcpSocketTable) : Skt.TcpSocketTable :=
  tb <| Skt.sockets := alter (λ s, s <| Skt.role := r |>) handle (Skt.sockets tb) |>.

Definition socket_create (tb : Skt.TcpSocketTable) : Z * Skt.TcpSocketTable :=
  table_insert (Skt.mkState Skt.Unbound Settings.settings_default) tb.

Definition socket_set_opts (handle : Z) (opts : Settings.TcpSessionSettings) (tb : Skt.TcpSocketTable)
  : (unit + TcpSocketError) * Skt.TcpSocketTable :=
  match table_get tb handle with
  | None => (inr InvalidHandle, tb)
  | Some _ => (inl tt, tb <| Skt.sockets := alter (λ s, s <| Skt.opts := opts |>) handle (Skt.sockets tb) |>)
  end.

Definition release_bound (p : Z) (tb : Skt.TcpSocketTable) : Skt.TcpSocketTable :=
  tb <| Skt.bound_ports := delete p (Skt.bound_ports tb) |>.

Definition take_bound (p handle : Z) (tb : Skt.TcpSocketTable) : Skt.TcpSocketTable :=
  tb <| Skt.bound_ports := <[p := handle]> (Skt.bound_ports tb) |>.

Definition drop_old (old_port : option Z) (tb : Skt.TcpSocketTable) : Skt.TcpSocketTable :=
  match old_port with Some p => release_bound p tb | None => tb end.

(** The port assignment of [socket_bind]. *)
Definition assign_port (old_port : option Z) (handle port : Z) (tb : Skt.TcpSocketTable)
  : (Z + TcpSocketError) * Skt.TcpSocketTable :=
  let tb := drop_old old_port tb in
  if port =? 0 then
    match table_alloc_ephemeral_port tb with
    | None => (inr AddrInUse, tb)
    | Some p => (inl p, take_bound p handle tb)
    end
  else if port_in_use tb port then
    (inr AddrInUse, match old_port with Some p => take_bound p handle tb | None => tb end)
  else (inl port, take_bound port handle tb).

(** [local_ip] is the address of the interface, if it has one. *)
Definition socket_bind (handle port nic : Z) (local_ip : option Ipv4Addr) (tb : Skt.TcpSocketTable)
  : (unit + TcpSocketError) * Skt.TcpSocketTable :=
  match table_get tb handle with
  | None => (inr InvalidHandle, tb)
  | Some sock =>
      let bind old_port :=
        match local_ip with
        | None => (inr NotBound, tb)
        | Some ip =>
            match assign_port old_port handle port tb with
            | (inr e, tb) => (inr e, tb)
            | (inl p, tb) => (inl tt, set_role handle (Skt.Bound ip p nic) tb)
            end
        end in
      match Skt.role sock with
      | Skt.Unbound => bind None
      | Skt.Bound _ p _ => bind (Some p)
      | Skt.Connected _ | Skt.Listener _ _ _ _ _ _ => (inr AlreadyConnected, tb)
      | Skt.SClosed => (inr SktClosed, tb)
      end
  end.

Definition socket_listen (handle backlog : Z) (tb : Skt.TcpSocketTable)
  : (unit + TcpSocketError) * Skt.TcpSocketTable :=
  match table_get tb handle with
  | None => (inr InvalidHandle, tb)
  | Some sock =>
      match Skt.role sock with
      | Skt.Bound ip p nic =>
          match Skt.listeners tb !! p with
          | Some _ => (inr AddrInUse, tb)
          | None =>
              let tb := release_bound p tb in
              let tb := tb <| Skt.listeners := <[p := handle]> (Skt.listeners tb) |> in
              (inl tt, set_role handle (Skt.Listener ip p nic (Z.max backlog 1) [] gate_new) tb)
          end
      | Skt.Listener _ _ _ _ _ _ => (inl tt, tb)
      | _ => (inr NotBound, tb)
      end
  end.

(** One pass of [socket_accept]; [None] waits at the gate. *)
Definition socket_accept (handle : Z) (tb : Skt.TcpSocketTable)
  : option (Z + TcpSocketError) * Skt.TcpSocketTable :=
  match table_get tb handle with
  | None => (Some (inr InvalidHandle), tb)
  | Some sock =>
      match Skt.role sock with
      | Skt.Listener ip p nic backlog (tcb :: pending) gate =>
          let gate := if zlen pending =? 0 then gate_reset gate else gate in
          let tb := set_role handle (Skt.Listener ip p nic backlog pending gate) tb in
          let '(h, tb) := table_insert (Skt.mkState (Skt.Connected tcb) (Skt.opts sock)) tb in
          (Some (inl h), tb)
      | Skt.Listener _ _ _ _ [] _ => (None, tb)
      | Skt.SClosed => (Some (inr SktClosed), tb)
      | _ => (Some (inr NotListening), tb)
      end
  end.

Definition socket_adopt_connected (handle : Z) (tcb : loc) (tb : Skt.TcpSocketTable)
  : (unit + TcpSocketError) * Skt.TcpSocketTable :=
  match table_get tb handle with
  | None => (inr InvalidHandle, tb)
  | Some sock =>
      match Skt.role sock with
      | Skt.Connected _ => (inr AlreadyConnected, tb)
      | Skt.Listener _ _ _ _ _ _ => (inr NotBound, tb)
      | Skt.SClosed => (inr SktClosed, tb)
      | Skt.Unbound | Skt.Bound _ _ _ => (inl tt, set_role handle (Skt.Connected tcb) tb)
      end
  end.

(** Removes the socket; the connections it leaves to be closed, in order. *)
Definition socket_close (handle : Z) (tb : Skt.TcpSocketTable)
  : (list loc + TcpSocketError) * Skt.TcpSocketTable :=
  match table_get tb handle with
  | None => (inr InvalidHandle, tb)
  | Some sock =>
      let tb := tb <| Skt.sockets := delete handle (Skt.sockets tb) |> in
      match Skt.role sock with
      | Skt.Listener _ p _ _ pending _ =>
          (inl pending, tb <| Skt.listeners := delete p (Skt.listeners tb) |>)
      | Skt.Bound _ p _ => (inl [], release_bound p tb)
      | Skt.Connected tcb => (inl [tcb], tb)
      | _ => (inl [], tb)
      end
  end.

Definition connected_tcb (handle : Z) (tb : Skt.TcpSocketTable) : loc + TcpSocketError :=
  match table_get tb handle with
  | None => inr InvalidHandle
  | Some sock =>
      match Skt.role sock with
      | Skt.Connected tcb => inl tcb
      | Skt.SClosed => inr SktClosed
      | _ => inr SktNotConnected
      end
  end.
End Tbl.

(** ** The operations *)

(** Runs an operation of the table. *)
Definition on_table {A} (f : Skt.TcpSocketTable → A * Skt.TcpSocketTable) : M A := λ w,
  let '(a, tb) := f (socket_table w) in Ret (a, w <| socket_table := tb |>).

(** The address of an interface. *)
Definition iface_address (nic : Z) : M (option Ipv4Addr) :=
  w ← get_world;
  mret (mjoin (ifaces w !! nic)).

Definition socket_create : M Z := on_table Tbl.socket_create.

Definition socket_set_opts (handle : Z) (opts : Settings.TcpSessionSettings) : M (unit + TcpSocketError) :=
  on_table (Tbl.socket_set_opts handle opts).

Definition socket_bind (handle port nic : Z) : M (unit + TcpSocketError) :=
  ip ← iface_address nic;
  on_table (Tbl.socket_bind handle port nic ip).

Definition socket_listen (handle backlog : Z) : M (unit + TcpSocketError) :=
  on_table (Tbl.socket_listen handle backlog).

(** [others] runs while the caller waits at the gate. *)
Definition socket_accept (others : M unit) (bound : positive) (handle : Z) : M (Z + TcpSocketError) := λ w,
  while_loop (λ w,
    '(r, w) ← on_table (Tbl.socket_accept handle) w;
    match r with
    | Some r => Ret (inr (r, w))
    | None => '(_, w) ← others w; Ret (inl w)
    end) bound w.

Definition socket_adopt_connected (handle : Z) (tcb : loc) : M (unit + TcpSocketError) :=
  on_table (Tbl.socket_adopt_connected handle tcb).

Definition socket_connect (others : M unit) (bound : positive) (handle : Z) (remote_addr : Ipv4Addr)
    (remote_port : Z) : M (unit + TcpSocketError) :=
  w ← get_world;
  match table_get (socket_table w) handle with
  | None => mret (inr InvalidHandle)
  | Some sock =>
      let go nic local_ip local_port :=
        r ← connect others bound nic local_ip local_port remote_addr remote_port (Skt.opts sock);
        match r with
        | inr e => mret (inr (Io e))
        | inl tcb => on_table (λ tb, (inl tt, Tbl.set_role handle (Skt.Connected tcb) tb))
        end in
      match Skt.role sock with
      | Skt.Connected _ => mret (inr AlreadyConnected)
      | Skt.Listener _ _ _ _ _ _ => mret (inr NotBound)
      | Skt.SClosed => mret (inr SktClosed)
      | Skt.Bound local_ip local_port nic => go nic local_ip local_port
      | Skt.Unbound =>
          ip ← iface_address 0;
          match ip with
          | None => mret (inr NotBound)
          | Some local_ip => go 0 local_ip 0
          end
      end
  end.

(** Runs [f] on the connection of a connected socket. *)
Definition with_tcb {A} (handle : Z) (f : loc → M (A + TcpSocketError)) : M (A + TcpSocketError) :=
  w ← get_world;
  match Tbl.connected_tcb handle (socket_table w) with
  | inr e => mret (inr e)
  | inl l => f l
  end.

Definition socket_send (handle : Z) (data : list Z) : M (Z + TcpSocketError) :=
  with_tcb handle (λ l,
    r ← send_data l data;
    match r with
    | inr e => mret (inr (Io e))
    | inl _ => mret (inl (zlen data))
    end).

Definition socket_recv (others : M unit) (bound : positive) (handle len : Z)
  : M (list Z + TcpSocketError) :=
  with_tcb handle (λ l,
    r ← receive_sync others bound l len;
    match r with
    | inr e => mret (inr (Io e))
    | inl bs => mret (inl bs)
    end).

Definition socket_shutdown (handle : Z) (how : Shutdown) : M (unit + TcpSocketError) :=
  match how with
  | ShutRead => mret (inl tt)
  | ShutWrite | ShutBoth => with_tcb handle (λ l, close_connection l;; mret (inl tt))
  end.

Definition socket_close (handle : Z) : M (unit + TcpSocketError) :=
  r ← on_table (Tbl.socket_close handle);
  match r with
  | inr e => mret (inr e)
  | inl tcbs => each_m close_connection tcbs;; mret (inl tt)
  end.

(** ** The table's invariant *)

Definition role_of (tb : Skt.TcpSocketTable) (h : Z) : option Skt.TcpSocketRole :=
  Skt.role <$> Skt.sockets tb !! h.

(** The port a socket holds. *)
Definition port_of (r : Skt.TcpSocketRole) : option Z :=
  match r with
  | Skt.Bound _ p _ | Skt.Listener _ p _ _ _ _ => Some p
  | _ => None
  end.

Definition is_listener (p : Z) (r : Skt.TcpSocketRole) : Prop :=
  ∃ ip nic b pend g, r = Skt.Listener ip p nic b pend g.

Definition queue_ok (r : Skt.TcpSocketRole) : Prop :=
  match r with
  | Skt.Listener _ _ _ b pend _ => 1 ≤ b ∧ zlen pend ≤ b
  | _ => True
  end.

Record table_ok (tb : Skt.TcpSocketTable) : Prop := {
  tb_next : 1 ≤ Skt.next_handle tb;
  tb_handles : ∀ h r, role_of tb h = Some r → 1 ≤ h < Skt.next_handle tb;
  tb_listens : ∀ h r p, role_of tb h = Some r → is_listener p r → Skt.listeners tb !! p = Some h;
  tb_bound : ∀ h ip p nic, role_of tb h = Some (Skt.Bound ip p nic) → Skt.bound_ports tb !! p = Some h;
  tb_listeners : ∀ p h, Skt.listeners tb !! p = Some h →
    Skt.bound_ports tb !! p = None ∧ ∃ r, role_of tb h = Some r ∧ is_listener p r;
  tb_queues : ∀ h r, role_of tb h = Some r → queue_ok r
}.

Inductive table_op :=
| OpCreate
| OpSetOpts (handle : Z) (opts : Settings.TcpSessionSettings)
| OpBind (handle port nic : Z) (ip : option Ipv4Addr)
| OpListen (handle backlog : Z)
| OpAccept (handle : Z)
| OpAdopt (handle : Z) (tcb : loc)
| OpConnected (handle : Z) (tcb : loc)
| OpClose (handle : Z)
| OpEnqueue (port : Z) (tcb : loc).

(** [OpConnected] is the last step of [socket_connect]. *)
Definition run_op (o : table_op) (tb : Skt.TcpSocketTable) : Skt.TcpSocketTable :=
  match o with
  | OpCreate => snd (Tbl.socket_create tb)
  | OpSetOpts h opts => snd (Tbl.socket_set_opts h opts tb)
  | OpBind h port nic ip => snd (Tbl.socket_bind h port nic ip tb)
  | OpListen h backlog => snd (Tbl.socket_listen h backlog tb)
  | OpAccept h => snd (Tbl.socket_accept h tb)
  | OpAdopt h tcb => snd (Tbl.socket_adopt_connected h tcb tb)
  | OpConnected h tcb => Tbl.set_role h (Skt.Connected tcb) tb
  | OpClose h => snd (Tbl.socket_close h tb)
  | OpEnqueue port tcb => enqueue_accepted_connection port tcb tb
  end.

(** A bind of a bound socket to port 0 finds a port. *)
Definition op_finds_port (o : table_op) (tb : Skt.TcpSocketTable) : Prop :=
  match o with
  | OpBind h 0 _ _ =>
      ∀ ip p nic, role_of tb h = Some (Skt.Bound ip p nic) →
      is_Some (table_alloc_ephemeral_port (Tbl.release_bound p tb))
  | _ => True
  end.

(** Besides, handles do not run out, and the socket of a completed connect was
    not made a listener meanwhile. *)
Definition op_fits (o : table_op) (tb : Skt.TcpSocketTable) : Prop :=
  match o with
  | OpCreate | OpAccept _ => Skt.next_handle tb < U32 - 1
  | OpConnected h _ => ∀ r p, role_of tb h = Some r → ¬ is_listener p r
  | _ => op_finds_port o tb
  end.

(** The tables that operations which satisfy [P] can produce. *)
Inductive reachable (P : table_op → Skt.TcpSocketTable → Prop) : Skt.TcpSocketTable → Prop :=
| reach_new : reachable P Skt.table_new
| reach_op o tb : reachable P tb → P o tb → reachable P (run_op o tb).

(** A socket that is bound or listens is the one its port is registered for,
    and a listener's queue is within its backlog. *)
Definition owns (tb : Skt.TcpSocketTable) (h : Z) (r : Skt.TcpSocketRole) : Prop :=
  match r with
  | Skt.Bound _ p _ => Skt.bound_ports tb !! p = Some h
  | Skt.Listener _ p _ _ _ _ => Skt.listeners tb !! p = Some h ∧ queue_ok r
  | _ => True
  end.

Record ports_ok (tb : Skt.TcpSocketTable) : Prop := {
  po_owns : ∀ h r, role_of tb h = Some r → owns tb h r;
  po_apart : ∀ p h, Skt.listeners tb !! p = Some h → Skt.bound_ports tb !! p = None
}.

(** *** Changing one socket *)

Lemma role_of_set h r tb h' :
  role_of (Tbl.set_role h r tb) h' =
  if decide (h' = h) then (λ _, r) <$> role_of tb h else role_of tb h'.
Proof.
  unfold role_of, Tbl.set_role. rsimp. destruct (decide (h' = h)) as [->|].
  - rewrite lookup_alter_eq. destruct (Skt.sockets tb !! h); reflexivity.
  - rewrite lookup_alter_ne by congruence. reflexivity.
Qed.

Lemma role_of_insert st tb h' :
  role_of (snd (table_insert st tb)) h' =
  if decide (h' = Skt.next_handle tb) then Some (Skt.role st) else role_of tb h'.
Proof.
  unfold role_of, table_insert, alloc_handle. cbn [snd]. rsimp. destruct (decide (h' = Skt.next_handle tb)) as [->|].
  - rewrite lookup_insert_eq. reflexivity.
  - rewrite lookup_insert_ne by congruence. reflexivity.
Qed.

Lemma role_of_delete h tb h' :
  role_of (tb <| Skt.sockets := delete h (Skt.sockets tb) |>) h' = if decide (h' = h) then None else role_of tb h'.
Proof.
  unfold role_of. rsimp. destruct (decide (h' = h)) as [->|].
  - rewrite lookup_delete_eq. reflexivity.
  - rewrite lookup_delete_ne by congruence. reflexivity.
Qed.

Lemma table_new_ok : table_ok Skt.table_new.
Proof. constructor; [done|..]; unfold role_of, Skt.table_new; simpl; intros *; rewrite lookup_empty; discriminate. Qed.

(** A socket that holds no port is added. *)
Lemma table_insert_ok st tb :
  table_ok tb → Skt.next_handle tb < U32 - 1 → port_of (Skt.role st) = None →
  table_ok (snd (table_insert st tb)).
Proof.
  intros [] Hn Hp.
  assert (Hnx : Skt.next_handle (snd (table_insert st tb)) = Skt.next_handle tb + 1)
    by (unfold table_insert, alloc_handle; cbn [snd]; rsimp; unfold wadd; rewrite Z.mod_small; lia).
  constructor; rewrite ?Hnx.
  - lia.
  - intros h r. rewrite role_of_insert. destruct (decide _) as [->|]; [lia|]. intros Hr. apply tb_handles0 in Hr. lia.
  - intros h r p. rewrite role_of_insert. destruct (decide _) as [->|]; [|apply tb_listens0].
    intros [= <-] (?&?&?&?&?&E). rewrite E in Hp. discriminate.
  - intros h ip p nic. rewrite role_of_insert. destruct (decide _) as [->|]; [|apply tb_bound0].
    intros [= E]. rewrite E in Hp. discriminate.
  - intros p h Hl. destruct (tb_listeners0 p h Hl) as (Hb & r & Hr & Hlis). split; [exact Hb|].
    exists r. rewrite role_of_insert. destruct (decide _) as [->|]; [|auto]. apply tb_handles0 in Hr. lia.
  - intros h r. rewrite role_of_insert. destruct (decide _) as [->|]; [|apply tb_queues0].
    intros [= <-]. destruct (Skt.role st); done.
Qed.

(** The socket [h], no listener, takes a role [r] that is none either, and
    the bound ports change to [B]. *)
Lemma rebind_ok h r B tb :
  table_ok tb → (∀ old p, role_of tb h = Some old → ¬ is_listener p old) → (∀ p, ¬ is_listener p r) →
  (∀ h' ip p nic, h' ≠ h → role_of tb h' = Some (Skt.Bound ip p nic) → B !! p = Some h') →
  (∀ p l, Skt.listeners tb !! p = Some l → B !! p = None) →
  (∀ ip p nic, r = Skt.Bound ip p nic → B !! p = Some h) → queue_ok r →
  table_ok (Tbl.set_role h r (tb <| Skt.bound_ports := B |>)).
Proof.
  intros [] Hold Hr Hb Hl Hrb Hq.
  assert (Hrole : ∀ h', role_of (Tbl.set_role h r (tb <| Skt.bound_ports := B |>)) h' =
    if decide (h' = h) then (λ _, r) <$> role_of tb h else role_of tb h') by (intros h'; exact (role_of_set h r (tb <| Skt.bound_ports := B |>) h')).
  constructor; [exact tb_next0|..].
  - intros h' r'. rewrite Hrole. destruct (decide _) as [->|]; [|apply tb_handles0].
    destruct (role_of tb h) eqn:E; [intros _; by eapply tb_handles0|discriminate].
  - intros h' r' p. rewrite Hrole. destruct (decide _) as [->|]; [|apply tb_listens0].
    destruct (role_of tb h); [|discriminate]. intros [= <-] []%Hr.
  - intros h' ip p nic. rewrite Hrole. destruct (decide _) as [->|]; [|by apply Hb].
    destruct (role_of tb h); [|discriminate]. intros [= ->]. by eapply Hrb.
  - intros p h' Hp. split; [by eapply Hl|]. destruct (tb_listeners0 p h' Hp) as (_ & r' & Hr' & Hlis).
    exists r'. rewrite Hrole. destruct (decide _) as [->|]; [|auto]. exfalso. by eapply Hold.
  - intros h' r'. rewrite Hrole. destruct (decide _) as [->|]; [|apply tb_queues0].
    destruct (role_of tb h); [|discriminate]. by intros [= <-].
Qed.

(** A listener's queue or gate changes. *)
Lemma relisten_ok h ip p nic b pend g pend' g' tb :
  table_ok tb → role_of tb h = Some (Skt.Listener ip p nic b pend g) → zlen pend' ≤ b →
  table_ok (Tbl.set_role h (Skt.Listener ip p nic b pend' g') tb).
Proof.
  intros Ht Hh Hq. pose proof Ht as [].
  pose proof (tb_queues0 _ _ Hh) as [Hb1 _].
  constructor; [exact tb_next0|..].
  - intros h' r'. rewrite role_of_set. destruct (decide _) as [->|]; [|apply tb_handles0]. rewrite Hh.
    intros _. by eapply tb_handles0.
  - intros h' r' p'. rewrite role_of_set. destruct (decide _) as [->|]; [|apply tb_listens0]. rewrite Hh.
    intros [= <-] (?&?&?&?&?&[= -> -> -> -> -> ->]). eapply tb_listens0; [exact Hh|]. repeat eexists.
  - intros h' ip' p' nic'. rewrite role_of_set. destruct (decide _) as [->|]; [|apply tb_bound0]. rewrite Hh. discriminate.
  - intros p' h' Hp. destruct (tb_listeners0 p' h' Hp) as (Hbn & r' & Hr' & Hlis). split; [exact Hbn|].
    rewrite role_of_set. destruct (decide _) as [->|]; [|eauto]. rewrite Hh. eexists. split; [reflexivity|].
    rewrite Hh in Hr'. injection Hr' as <-. destruct Hlis as (?&?&?&?&?&[= -> -> -> -> -> ->]). repeat eexists.
  - intros h' r'. rewrite role_of_set. destruct (decide _) as [->|]; [|apply tb_queues0]. rewrite Hh.
    intros [= <-]. simpl. auto.
Qed.

Lemma listen_ok h ip p nic b tb :
  table_ok tb → role_of tb h = Some (Skt.Bound ip p nic) → Skt.listeners tb !! p = None → 1 ≤ b →
  table_ok (Tbl.set_role h (Skt.Listener ip p nic b [] gate_new)
    ((Tbl.release_bound p tb) <| Skt.listeners := <[p := h]> (Skt.listeners tb) |>)).
Proof.
  intros [] Hh Hfree Hb. set (r := Skt.Listener _ _ _ _ _ _).
  set (tb' := Tbl.set_role _ _ _).
  assert (Hrole : ∀ h', role_of tb' h' = if decide (h' = h) then Some r else role_of tb h').
  { intros h'. unfold tb'. rewrite role_of_set. destruct (decide _) as [->|]; [|reflexivity].
    change (role_of _ h) with (role_of tb h). rewrite Hh. reflexivity. }
  assert (Hls : Skt.listeners tb' = <[p := h]> (Skt.listeners tb)) by reflexivity.
  assert (Hbp : Skt.bound_ports tb' = delete p (Skt.bound_ports tb)) by reflexivity.
  constructor; [exact tb_next0|..]; rewrite ?Hls, ?Hbp.
  - intros h' r'. rewrite Hrole. destruct (decide _) as [->|]; [intros _; by eapply tb_handles0|apply tb_handles0].
  - intros h' r' p'. rewrite Hrole, ?Hls, ?Hbp. destruct (decide _) as [->|].
    + intros [= <-] (?&?&?&?&?&E). injection E as _ <- _ _ _ _. apply lookup_insert_eq.
    + intros Hr Hlis. pose proof (tb_listens0 _ _ _ Hr Hlis). rewrite lookup_insert_ne; [assumption|congruence].
  - intros h' ip' p' nic'. rewrite Hrole, ?Hls, ?Hbp. destruct (decide _) as [->|]; [discriminate|].
    intros Hr. apply tb_bound0 in Hr as Hr'. rewrite lookup_delete_ne; [assumption|].
    intros ->. apply tb_bound0 in Hh. congruence.
  - intros p' h'. rewrite ?Hls, lookup_insert. destruct (decide (p = p')) as [<-|Hne].
    + intros [= <-]. rewrite ?Hbp. split; [apply lookup_delete_eq|]. exists r. rewrite Hrole, decide_True by reflexivity.
      split; [reflexivity|]. repeat eexists.
    + intros Hl. destruct (tb_listeners0 _ _ Hl) as (Hn & r' & Hr' & Hlis).
      rewrite ?Hbp, lookup_delete_ne by assumption. split; [assumption|]. exists r'. rewrite Hrole.
      destruct (decide _) as [->|]; [|auto]. rewrite Hh in Hr'. injection Hr' as <-.
      destruct Hlis as (?&?&?&?&?&?). discriminate.
  - intros h' r'. rewrite Hrole. destruct (decide _) as [->|]; [|apply tb_queues0].
    intros [= <-]. simpl. unfold zlen. simpl. lia.
Qed.

(** The socket [h] goes, and with it the port entries it owned. *)
Lemma remove_ok h LS B tb :
  table_ok tb →
  (∀ p h', LS !! p = Some h' ↔ Skt.listeners tb !! p = Some h' ∧ h' ≠ h) →
  (∀ h' ip p nic, h' ≠ h → role_of tb h' = Some (Skt.Bound ip p nic) → B !! p = Some h') →
  (∀ p, Skt.bound_ports tb !! p = None → B !! p = None) →
  table_ok (Skt.mkTable (delete h (Skt.sockets tb)) LS B (Skt.next_handle tb)).
Proof.
  intros [] Hl Hb Hn. set (tb' := Skt.mkTable _ _ _ _).
  assert (Hrole : ∀ h', role_of tb' h' = if decide (h' = h) then None else role_of tb h')
    by (intros h'; exact (role_of_delete h tb h')).
  constructor; [exact tb_next0|..].
  - intros h' r. rewrite Hrole. destruct (decide _); [discriminate|apply tb_handles0].
  - intros h' r p. rewrite Hrole. destruct (decide _); [discriminate|]. intros Hr Hlis. apply Hl. eauto.
  - intros h' ip p nic. rewrite Hrole. destruct (decide _); [discriminate|by apply Hb].
  - intros p h' [Hp Hne]%Hl. destruct (tb_listeners0 p h' Hp) as (Hbn & r & Hr & Hlis).
    split; [by apply Hn|]. exists r. rewrite Hrole, decide_False by assumption. auto.
  - intros h' r. rewrite Hrole. destruct (decide _); [discriminate|apply tb_queues0].
Qed.

Lemma close_ok h tb : table_ok tb → table_ok (snd (Tbl.socket_close h tb)).
Proof.
  intros Ht. pose proof Ht as []. unfold Tbl.socket_close, table_get.
  destruct (Skt.sockets tb !! h) as [[r o]|] eqn:E; [|exact Ht].
  assert (Hr : role_of tb h = Some r) by (unfold role_of; rewrite E; reflexivity).
  assert (Hlow : (∀ p, ¬ is_listener p r) → ∀ p h', Skt.listeners tb !! p = Some h' ↔
      Skt.listeners tb !! p = Some h' ∧ h' ≠ h).
  { intros Hno p h'. split; [|tauto]. intros Hp. split; [assumption|]. intros ->.
    destruct (tb_listeners0 p h Hp) as (_ & r' & Hr' & Hlis). assert (r' = r) by congruence. subst. by eapply Hno. }
  cbn [Skt.role]. destruct r as [|ip p nic|ip p nic b pend g|tcb|]; cbn [snd].
  - apply remove_ok; [assumption|apply Hlow; intros ? (?&?&?&?&?&?); discriminate|eauto|auto].
  - change (table_ok (Skt.mkTable (delete h (Skt.sockets tb)) (Skt.listeners tb)
      (delete p (Skt.bound_ports tb)) (Skt.next_handle tb))).
    apply remove_ok; [assumption| | |].
    + apply Hlow. intros ? (?&?&?&?&?&?). discriminate.
    + intros h' ip' p' nic' Hne Hb. apply tb_bound0 in Hb. rewrite lookup_delete_ne; [assumption|].
      intros <-. apply tb_bound0 in Hr. congruence.
    + intros p' Hp'. rewrite lookup_delete. by destruct (decide _).
  - change (table_ok (Skt.mkTable (delete h (Skt.sockets tb)) (delete p (Skt.listeners tb))
      (Skt.bound_ports tb) (Skt.next_handle tb))).
    apply remove_ok; [assumption| |eauto|auto].
    intros p' h'. rewrite lookup_delete. assert (Hp : Skt.listeners tb !! p = Some h) by (eapply tb_listens0; [exact Hr|repeat eexists]).
    destruct (decide (p = p')) as [<-|Hne].
    + split; [discriminate|]. intros [? []]. congruence.
    + split; [|tauto]. intros Hp'. split; [assumption|]. intros ->.
      destruct (tb_listeners0 p' h Hp') as (_ & r' & Hr' & (?&?&?&?&?&->)). congruence.
  - apply remove_ok; [assumption|apply Hlow; intros ? (?&?&?&?&?&?); discriminate|eauto|auto].
  - apply remove_ok; [assumption|apply Hlow; intros ? (?&?&?&?&?&?); discriminate|eauto|auto].
Qed.

Lemma in_use_spec tb p : port_in_use tb p = false ↔ Skt.listeners tb !! p = None ∧ Skt.bound_ports tb !! p = None.
Proof.
  unfold port_in_use. rewrite orb_false_iff, !bool_decide_eq_false, <- !eq_None_not_Some. reflexivity.
Qed.

Lemma find_seqZ f a n p : List.find f (seqZ a n) = Some p → a ≤ p < a + n ∧ f p = true.
Proof. intros [Hin Hf]%List.find_some. by apply list_elem_of_In, elem_of_seqZ in Hin. Qed.

Lemma ephemeral_spec tb p : table_alloc_ephemeral_port tb = Some p →
  49152 ≤ p ≤ 65535 ∧ port_in_use tb p = false.
Proof.
  unfold table_alloc_ephemeral_port. intros [Hin Hf]%find_seqZ. apply negb_true_iff in Hf. split; [lia|assumption].
Qed.

(** The port assignment frees the old port and takes a free one. *)
Lemma assign_port_spec old h port tb :
  (∀ q, old = Some q → Skt.bound_ports tb !! q = Some h) →
  let B0 := match old with Some q => delete q (Skt.bound_ports tb) | None => Skt.bound_ports tb end in
  match Tbl.assign_port old h port tb with
  | (inl p, tb') => Skt.listeners tb !! p = None ∧ B0 !! p = None ∧
      tb' = tb <| Skt.bound_ports := <[p := h]> B0 |> ∧
      (if port =? 0 then 49152 ≤ p ≤ 65535 else p = port)
  | (inr e, tb') => e = AddrInUse ∧
      (if port =? 0 then table_alloc_ephemeral_port (Tbl.drop_old old tb) = None ∧ tb' = Tbl.drop_old old tb
       else tb' = tb ∧ port_in_use (Tbl.drop_old old tb) port = true)
  end.
Proof.
  intros Hold B0. unfold Tbl.assign_port.
  assert (Hd : Tbl.drop_old old tb = tb <| Skt.bound_ports := B0 |>)
    by (unfold B0; destruct old; [reflexivity|destruct tb; reflexivity]).
  rewrite Hd. cbv zeta. destruct (port =? 0).
  - destruct (table_alloc_ephemeral_port _) as [p|] eqn:E; [|auto].
    apply ephemeral_spec in E as [Hr [Hl Hb]%in_use_spec]. rsimp_all. auto.
  - destruct (port_in_use _ port) eqn:E.
    + split; [reflexivity|]. split; [|reflexivity]. unfold B0, Tbl.take_bound. destruct old as [q|]; [|destruct tb; reflexivity].
      rsimp. rewrite insert_delete_eq, insert_id by (by apply Hold). destruct tb. reflexivity.
    + apply in_use_spec in E as [Hl Hb]. rsimp_all. auto.
Qed.

Lemma bind_ok h port nic ip tb :
  table_ok tb → op_finds_port (OpBind h port nic ip) tb → table_ok (snd (Tbl.socket_bind h port nic ip tb)).
Proof.
  intros Ht Hfit. pose proof Ht as []. unfold Tbl.socket_bind, table_get.
  destruct (Skt.sockets tb !! h) as [[r o]|] eqn:E; [|exact Ht].
  assert (Hr : role_of tb h = Some r) by (unfold role_of; rewrite E; reflexivity).
  assert (Hgo : ∀ old, (∀ q, old = Some q → ∃ ip' nic', r = Skt.Bound ip' q nic') → (∀ p, ¬ is_listener p r) →
    (old = None → ∀ ip' p nic', r ≠ Skt.Bound ip' p nic') →
    table_ok (snd (match ip with
      | None => (inr NotBound, tb)
      | Some ip => match Tbl.assign_port old h port tb with
                   | (inr e, tb) => (inr e, tb)
                   | (inl p, tb) => (inl tt, Tbl.set_role h (Skt.Bound ip p nic) tb)
                   end
      end))).
  2: { cbn [Skt.role]. destruct r as [|ip' q nic'| | |]; [apply Hgo|apply Hgo|exact Ht..].
       all: try (intros ? (?&?&?&?&?&?)); try discriminate.
       intros ? [= <-]. eauto. }
  intros old Hold Hlis Hnone. destruct ip as [a|]; [|exact Ht].
  pose proof (assign_port_spec old h port tb) as Hs. cbv zeta in Hs.
  assert (Hq : ∀ q, old = Some q → Skt.bound_ports tb !! q = Some h).
  { intros q (ip' & nic' & ->)%Hold. by eapply tb_bound0. }
  specialize (Hs Hq). set (B0 := match old with Some q => delete q _ | None => _ end) in Hs.
  assert (HB0 : ∀ h' ip' p nic', h' ≠ h → role_of tb h' = Some (Skt.Bound ip' p nic') → B0 !! p = Some h').
  { intros h' ip' p nic' Hne Hb. apply tb_bound0 in Hb. unfold B0. destruct old as [q|]; [|assumption].
    rewrite lookup_delete_ne; [assumption|]. intros <-. specialize (Hq q eq_refl). congruence. }
  destruct (Tbl.assign_port old h port tb) as [[p|e] tb']; cbn [snd].
  - destruct Hs as (Hl & Hfree & -> & _). apply rebind_ok; [assumption|intros ? ? Hr'; rewrite Hr in Hr'; injection Hr' as <-; apply Hlis|..].
    + intros ? (?&?&?&?&?&?). discriminate.
    + intros h' ip' p' nic' Hne Hb. rewrite lookup_insert_ne; [by eapply HB0|].
      intros <-. specialize (HB0 _ _ _ _ Hne Hb). congruence.
    + intros p' l Hp'. rewrite lookup_insert_ne by congruence. apply tb_listeners0 in Hp' as [Hn _].
      unfold B0. destruct old; [rewrite lookup_delete; by destruct (decide _)|assumption].
    + intros ? ? ? [= _ <- _]. apply lookup_insert_eq.
    + exact I.
  - destruct Hs as [_ Hs]. destruct (Z.eqb_spec port 0) as [->|]; [|destruct Hs as [-> _]; exact Ht].
    destruct Hs as [Hx ->]. destruct old as [q|]; [|exact Ht]. destruct (Hold q eq_refl) as (ip' & nic' & ->).
    destruct (Hfit ip' q nic' Hr) as [p Hp]. simpl in Hx. congruence.
Qed.

Lemma not_listener_role tb h r : role_of tb h = Some r → (∀ p, ¬ is_listener p r) →
  ∀ old p, role_of tb h = Some old → ¬ is_listener p old.
Proof. intros Hr Hno old p Ho. assert (old = r) by congruence. subst. apply Hno. Qed.

Lemma connected_ok h tcb tb :
  table_ok tb → (∀ old p, role_of tb h = Some old → ¬ is_listener p old) →
  table_ok (Tbl.set_role h (Skt.Connected tcb) tb).
Proof.
  intros Ht Hno. pose proof Ht as [].
  replace tb with (tb <| Skt.bound_ports := Skt.bound_ports tb |>) at 1 by (destruct tb; reflexivity).
  apply rebind_ok; try assumption; [|by eauto|intros p l Hp; by apply tb_listeners0 in Hp as []|discriminate|exact I].
  intros ? (?&?&?&?&?&?). discriminate.
Qed.

Lemma set_opts_ok h o tb : table_ok tb → table_ok (snd (Tbl.socket_set_opts h o tb)).
Proof.
  intros Ht. pose proof Ht as []. unfold Tbl.socket_set_opts. destruct (table_get tb h); [|exact Ht]. cbn [snd].
  set (tb' := tb <| Skt.sockets := _ |>).
  assert (Hrole : ∀ h', role_of tb' h' = role_of tb h').
  { intros h'. unfold role_of, tb'. rsimp. destruct (decide (h' = h)) as [->|].
    - rewrite lookup_alter_eq. by destruct (Skt.sockets tb !! h).
    - by rewrite lookup_alter_ne by congruence. }
  constructor; [exact tb_next0|..]; intros *; rewrite ?Hrole; try setoid_rewrite Hrole; eauto.
Qed.

Lemma accept_ok h tb : table_ok tb → op_fits (OpAccept h) tb → table_ok (snd (Tbl.socket_accept h tb)).
Proof.
  intros Ht Hfit. unfold Tbl.socket_accept, table_get.
  destruct (Skt.sockets tb !! h) as [[r o]|] eqn:E; [|exact Ht].
  assert (Hr : role_of tb h = Some r) by (unfold role_of; rewrite E; reflexivity).
  destruct r as [| |ip p nic b [|tcb pend] g| |]; try exact Ht. cbn [Skt.role]. cbv zeta.
  destruct (tb_queues _ Ht _ _ Hr) as [_ Hq]. rewrite zlen_cons in Hq.
  match goal with |- context [table_insert ?st ?tb'] =>
    pose proof (table_insert_ok st tb') as Hi; destruct (table_insert st tb') end.
  apply Hi; [|exact Hfit|reflexivity]. eapply relisten_ok; [exact Ht|exact Hr|lia].
Qed.

Lemma alter_as_insert {A} (f : A → A) (m : gmap Z A) i x : m !! i = Some x → alter f i m = <[i := f x]> m.
Proof.
  intros E. apply map_eq. intros j. destruct (decide (j = i)) as [->|].
  - by rewrite lookup_alter_eq, lookup_insert_eq, E.
  - by rewrite lookup_alter_ne, lookup_insert_ne by congruence.
Qed.

Lemma enqueue_ok port tcb tb : table_ok tb → table_ok (enqueue_accepted_connection port tcb tb).
Proof.
  intros Ht. unfold enqueue_accepted_connection. destruct (listener_for_port tb port) as [h|]; [|exact Ht].
  unfold table_get. destruct (Skt.sockets tb !! h) as [[r o]|] eqn:E; [|exact Ht].
  assert (Hr : role_of tb h = Some r) by (unfold role_of; rewrite E; reflexivity).
  destruct r as [| |ip p nic b pend g| |]; try exact Ht. destruct (Z.leb_spec b (zlen pend)); [exact Ht|].
  pose proof (relisten_ok h ip p nic b pend g (pend ++ [tcb]) (gate_open g) tb Ht Hr) as H'.
  unfold Tbl.set_role in H'. rewrite (alter_as_insert _ _ _ _ E) in H'. apply H'. rewrite zlen_app. unfold zlen at 2. simpl. lia.
Qed.

Lemma run_op_ok o tb : table_ok tb → op_fits o tb → table_ok (run_op o tb).
Proof.
  intros Ht Hfit. destruct o as [|h o|h port nic ip|h b|h|h tcb|h tcb|h|port tcb]; simpl run_op.
  - by apply table_insert_ok.
  - by apply set_opts_ok.
  - by apply bind_ok.
  - unfold Tbl.socket_listen, table_get. destruct (Skt.sockets tb !! h) as [[r o]|] eqn:E; [|exact Ht].
    assert (Hr : role_of tb h = Some r) by (unfold role_of; rewrite E; reflexivity).
    destruct r as [|ip p nic| | |]; try exact Ht. cbn [Skt.role].
    destruct (Skt.listeners tb !! p) eqn:El; [exact Ht|].
    refine (listen_ok h ip p nic (Z.max b 1) tb Ht Hr El _). lia.
  - by apply accept_ok.
  - unfold Tbl.socket_adopt_connected, table_get. destruct (Skt.sockets tb !! h) as [[r o]|] eqn:E; [|exact Ht].
    assert (Hr : role_of tb h = Some r) by (unfold role_of; rewrite E; reflexivity).
    destruct r; try exact Ht; (apply connected_ok; [assumption|]; apply (not_listener_role _ _ _ Hr));
      intros ? (?&?&?&?&?&?); discriminate.
  - apply connected_ok; [assumption|]. intros old p. apply Hfit.
  - by apply close_ok.
  - by apply enqueue_ok.
Qed.

(** *** Owners, whatever happens to handles *)

(** Only the socket [h] changes. *)
Lemma ports_ok_change h tb tb' : ports_ok tb → (∀ h', h' ≠ h → role_of tb' h' = role_of tb h' ∨ role_of tb' h' = None) →
  (∀ r, role_of tb' h = Some r → owns tb' h r) → (∀ h' r, h' ≠ h → owns tb h' r → owns tb' h' r) →
  (∀ p l, Skt.listeners tb' !! p = Some l → Skt.bound_ports tb' !! p = None) → ports_ok tb'.
Proof.
  intros Hok Hrole Hnew Hold Hapart. constructor; [|exact Hapart]. intros h' r Hr. destruct (decide (h' = h)) as [->|Hne]; [auto|].
  destruct (Hrole h' Hne) as [E|E]; rewrite E in Hr; [|done]. apply Hold; [done|]. by apply Hok.
Qed.

Lemma ports_ok_role h r tb : ports_ok tb → owns tb h r → ports_ok (Tbl.set_role h r tb).
Proof.
  intros Hok Ho. apply (ports_ok_change h tb); [done| | |done|apply Hok].
  - intros h' Hne. left. by rewrite role_of_set, decide_False.
  - intros r' Hr. rewrite role_of_set, decide_True in Hr by done. destruct (role_of tb h); [|done]. by injection Hr as <-.
Qed.

Lemma ports_ok_insert st tb : ports_ok tb → port_of (Skt.role st) = None → ports_ok (snd (table_insert st tb)).
Proof.
  intros Hok Hp. apply (ports_ok_change (Skt.next_handle tb) tb); [done| | |done|apply Hok].
  - intros h' Hne. left. by rewrite role_of_insert, decide_False.
  - intros r Hr. rewrite role_of_insert, decide_True in Hr by done. injection Hr as <-. by destruct (Skt.role st).
Qed.

Lemma role_of_some tb h r o : Skt.sockets tb !! h = Some (Skt.mkState r o) → role_of tb h = Some r.
Proof. unfold role_of. by intros ->. Qed.

(** A socket that is not listening takes a free port, and gives up the one it
    had. *)
Lemma ports_ok_bind h ip p nic old tb : ports_ok tb → (∀ q, old = Some q → Skt.bound_ports tb !! q = Some h) → Skt.listeners tb !! p = None →
  let B0 := match old with Some q => delete q (Skt.bound_ports tb) | None => Skt.bound_ports tb end in
  B0 !! p = None → (∀ r, role_of tb h = Some r → ∀ p', ¬ is_listener p' r) →
  ports_ok (Tbl.set_role h (Skt.Bound ip p nic) (tb <| Skt.bound_ports := <[p := h]> B0 |>)).
Proof.
  intros Hok Hq Hl B0 Hp Hno. set (tb1 := tb <| Skt.bound_ports := _ |>).
  apply (ports_ok_change h tb); [done| | | |].
  - intros h' Hne. left. by rewrite role_of_set, decide_False.
  - intros r Hr. rewrite role_of_set, decide_True in Hr by done. destruct (role_of tb1 h); [|done]. injection Hr as <-.
    cbn [owns]. unfold tb1, Tbl.set_role. rsimp. apply lookup_insert_eq.
  - intros h' r Hne Ho. destruct r as [|ip' p' nic'|ip' p' nic' b pend g| |]; try done. cbn [owns] in *. unfold tb1, Tbl.set_role. rsimp.
    assert (B0 !! p' = Some h').
    { unfold B0. destruct old as [q|]; [|done]. rewrite lookup_delete_ne; [done|]. intros <-. specialize (Hq q eq_refl). congruence. }
    rewrite lookup_insert_ne by congruence. done.
  - intros p' l Hp'. unfold tb1, Tbl.set_role in *. rsimp_all. rewrite lookup_insert_ne by congruence. apply (po_apart tb Hok) in Hp'.
    unfold B0. destruct old; [rewrite lookup_delete; by destruct (decide _)|done].
Qed.

Lemma bind_ports h port nic ip tb : ports_ok tb → op_finds_port (OpBind h port nic ip) tb → ports_ok (snd (Tbl.socket_bind h port nic ip tb)).
Proof.
  intros Hok Hfit. unfold Tbl.socket_bind, table_get. destruct (Skt.sockets tb !! h) as [[r o]|] eqn:E; [|done].
  pose proof (role_of_some _ _ _ _ E) as Hr. pose proof (po_owns tb Hok _ _ Hr) as Hown.
  assert (Hgo : ∀ old, (∀ q, old = Some q → ∃ ip' nic', r = Skt.Bound ip' q nic') → (∀ p, ¬ is_listener p r) →
    ports_ok (snd (match ip with
      | None => (inr NotBound, tb)
      | Some ip => match Tbl.assign_port old h port tb with
                   | (inr e, tb) => (inr e, tb)
                   | (inl p, tb) => (inl tt, Tbl.set_role h (Skt.Bound ip p nic) tb)
                   end
      end))).
  2: { cbn [Skt.role]. destruct r as [|ip' q nic'| | |]; [apply Hgo|apply Hgo|done..].
       all: try (intros ? (?&?&?&?&?&?)); try discriminate. intros ? [= <-]. eauto. }
  intros old Hold Hlis. destruct ip as [a|]; [|done]. pose proof (assign_port_spec old h port tb) as Hs. cbv zeta in Hs.
  assert (Hq : ∀ q, old = Some q → Skt.bound_ports tb !! q = Some h) by (intros q (ip' & nic' & ->)%Hold; exact Hown).
  specialize (Hs Hq). destruct (Tbl.assign_port old h port tb) as [[p|e] tb']; cbn [snd].
  - destruct Hs as (Hl & Hfree & -> & _). apply ports_ok_bind; try done. intros r' Hr' p'. rewrite Hr in Hr'. injection Hr' as <-. apply Hlis.
  - destruct Hs as [_ Hs]. destruct (Z.eqb_spec port 0) as [->|]; [|by destruct Hs as [-> _]].
    destruct Hs as [Hx ->]. destruct old as [q|]; [|done]. destruct (Hold q eq_refl) as (ip' & nic' & ->).
    destruct (Hfit ip' q nic' Hr) as [p Hp]. simpl in Hx. congruence.
Qed.

Lemma listen_ports h backlog tb : ports_ok tb → ports_ok (snd (Tbl.socket_listen h backlog tb)).
Proof.
  intros Hok. unfold Tbl.socket_listen, table_get. destruct (Skt.sockets tb !! h) as [[r o]|] eqn:E; [|done].
  pose proof (role_of_some _ _ _ _ E) as Hr. pose proof (po_owns tb Hok _ _ Hr) as Hown. destruct r as [|ip p nic| | |]; try done. cbn [Skt.role].
  destruct (Skt.listeners tb !! p) eqn:El; [done|]. cbn [snd owns] in *. apply (ports_ok_change h tb); [done| | | |].
  - intros h' Hne. left. by rewrite role_of_set, decide_False.
  - intros r Hr'. rewrite role_of_set, decide_True in Hr' by done.
    assert (r = Skt.Listener ip p nic (Z.max backlog 1) [] gate_new) as -> by (destruct (role_of _ h); [by injection Hr' as <-|done]).
    split; [apply lookup_insert_eq|]. simpl. unfold zlen. simpl. lia.
  - intros h' r Hne Ho. destruct r as [|ip' p' nic'|ip' p' nic' b pend g| |]; try done; unfold Tbl.set_role, Tbl.release_bound; cbn [owns] in *; rsimp.
    + rewrite lookup_delete_ne; [done|]. congruence.
    + destruct Ho as [Ho Hq]. split; [|done]. rewrite lookup_insert_ne by congruence. done.
  - intros p' l. unfold Tbl.set_role, Tbl.release_bound. rsimp. rewrite lookup_insert, lookup_delete.
    destruct (decide (p = p')) as [->|]; [done|]. apply (po_apart tb Hok).
Qed.

Lemma close_ports h tb : ports_ok tb → ports_ok (snd (Tbl.socket_close h tb)).
Proof.
  intros Hok. unfold Tbl.socket_close, table_get. destruct (Skt.sockets tb !! h) as [[r o]|] eqn:E; [|done].
  pose proof (role_of_some _ _ _ _ E) as Hr. pose proof (po_owns tb Hok _ _ Hr) as Hown.
  assert (Hgone : ∀ L B, (∀ p l, Skt.listeners tb !! p = Some l → l ≠ h → L !! p = Some l) → (∀ p l, L !! p = Some l → Skt.listeners tb !! p = Some l) →
    (∀ p l, Skt.bound_ports tb !! p = Some l → l ≠ h → B !! p = Some l) → (∀ p l, B !! p = Some l → Skt.bound_ports tb !! p = Some l) →
    ports_ok (Skt.mkTable (delete h (Skt.sockets tb)) L B (Skt.next_handle tb))).
  { intros L B HL HL' HB HB'. assert (Hrole : ∀ h', role_of (Skt.mkTable (delete h (Skt.sockets tb)) L B (Skt.next_handle tb)) h' =
      if decide (h' = h) then None else role_of tb h') by (intros h'; exact (role_of_delete h tb h')).
    apply (ports_ok_change h tb); [done| | | |].
    - intros h' Hne. rewrite Hrole, decide_False by done. by left.
    - intros r'. by rewrite Hrole, decide_True.
    - intros h' r' Hne Ho. destruct r'; try done; cbn [owns Skt.bound_ports Skt.listeners] in *; [by apply HB|]. split; [apply HL; [|done]|]; apply Ho.
    - intros p l Hp%HL'. apply (po_apart tb Hok) in Hp. cbn [Skt.bound_ports]. destruct (B !! p) eqn:Eb; [|done]. apply HB' in Eb. congruence. }
  assert (Hdel : ∀ (m : gmap Z Z) p, m !! p = Some h → (∀ q l, m !! q = Some l → l ≠ h → delete p m !! q = Some l) ∧
    ∀ q l, delete p m !! q = Some l → m !! q = Some l).
  { intros m p Hp. split; [intros q l Hq Hne; rewrite lookup_delete_ne; [done|]; congruence|by intros q l [_ ?]%lookup_delete_Some]. }
  cbn [Skt.role]. destruct r as [|ip p nic|ip p nic b pend g|tcb|]; cbn [snd owns] in *; try (apply Hgone; by eauto).
  - apply (Hgone (Skt.listeners tb) (delete p (Skt.bound_ports tb))); [by eauto..|by apply Hdel|by apply Hdel].
  - destruct Hown as [Hl _]. apply (Hgone (delete p (Skt.listeners tb)) (Skt.bound_ports tb)); [by apply Hdel|by apply Hdel|by eauto..].
Qed.

Lemma run_op_ports o tb : ports_ok tb → op_finds_port o tb → ports_ok (run_op o tb).
Proof.
  intros Hok Hfit. destruct o as [|h o|h port nic ip|h b|h|h tcb|h tcb|h|port tcb]; simpl run_op.
  - by apply ports_ok_insert.
  - unfold Tbl.socket_set_opts, table_get. destruct (Skt.sockets tb !! h) as [st|] eqn:E; [|done]. cbn [snd].
    apply (ports_ok_change h tb); [done| | |done|apply Hok].
    + intros h' Hne. left. unfold role_of. rsimp. by rewrite lookup_alter_ne by congruence.
    + unfold role_of. rsimp. rewrite lookup_alter_eq, E. intros r [= <-]. apply (po_owns tb Hok h). unfold role_of. by rewrite E.
  - by apply bind_ports.
  - by apply listen_ports.
  - unfold Tbl.socket_accept, table_get. destruct (Skt.sockets tb !! h) as [[r o]|] eqn:E; [|done].
    pose proof (po_owns tb Hok _ _ (role_of_some _ _ _ _ E)) as Hown. destruct r as [| |ip p nic b [|tcb pend] g| |]; try done. cbn [Skt.role]. cbv zeta.
    match goal with |- context [table_insert ?st ?tb'] => pose proof (ports_ok_insert st tb') as Hi; destruct (table_insert st tb') end.
    apply Hi; [|done]. apply ports_ok_role; [done|]. destruct Hown as [Hl Hq]. split; [done|]. simpl in *. rewrite zlen_cons in Hq. lia.
  - unfold Tbl.socket_adopt_connected, table_get. destruct (Skt.sockets tb !! h) as [[r o]|]; [|done]. destruct r; try done; by apply ports_ok_role.
  - by apply ports_ok_role.
  - by apply close_ports.
  - unfold enqueue_accepted_connection. destruct (listener_for_port tb port) as [h|]; [|done].
    unfold table_get. destruct (Skt.sockets tb !! h) as [[r o]|] eqn:E; [|done]. pose proof (po_owns tb Hok _ _ (role_of_some _ _ _ _ E)) as Hown.
    destruct r as [| |ip p nic b pend g| |]; try done. destruct (Z.leb_spec b (zlen pend)); [done|].
    pose proof (ports_ok_role h (Skt.Listener ip p nic b (pend ++ [tcb]) (gate_open g)) tb Hok) as H'.
    unfold Tbl.set_role in H'. rewrite (alter_as_insert _ _ _ _ E) in H'. apply H'. destruct Hown as [Hl Hq]. split; [done|].
    simpl in *. rewrite zlen_app. unfold zlen at 2. simpl. lia.
Qed.

(** C34: Ports belong to one socket.  In every table that socket operations in
    any order can produce, as long as no bind of a bound socket to port 0 finds
    all ports taken ([failed_rebind_frees_port]): every bound socket and every
    listener owns the entry of its port, no port is in both maps, two sockets
    never hold the same port, and no listener's queue exceeds its backlog.  If
    besides the 32-bit handles last and no socket is made a listener while it
    connects, the listener map names exactly the listening sockets. *)
Theorem ports_have_one_owner tb :
  (reachable op_finds_port tb → ports_ok tb ∧
    ∀ h1 h2 r1 r2 p, role_of tb h1 = Some r1 → role_of tb h2 = Some r2 →
      port_of r1 = Some p → port_of r2 = Some p → h1 = h2) ∧
  (reachable op_fits tb → ∀ p h, Skt.listeners tb !! p = Some h ↔ ∃ r, role_of tb h = Some r ∧ is_listener p r).
Proof.
  split.
  - intros Hre. assert (Ht : ports_ok tb).
    { induction Hre as [|o tb Hre IH Hfit]; [|by apply run_op_ports]. constructor; [intros h r; unfold role_of|intros p h]; simpl; by rewrite lookup_empty. }
    split; [done|]. intros h1 h2 r1 r2 p H1 H2 E1 E2.
    assert (Hown : ∀ h r, role_of tb h = Some r → port_of r = Some p → Skt.bound_ports tb !! p = Some h ∨ Skt.listeners tb !! p = Some h).
    { intros h r Hr%(po_owns tb Ht) Ep. destruct r; simplify_eq/=; [by left|right; apply Hr]. }
    pose proof (po_apart tb Ht p) as Ha. destruct (Hown _ _ H1 E1) as [O1|O1], (Hown _ _ H2 E2) as [O2|O2]; try congruence.
    + specialize (Ha _ O2). congruence.
    + specialize (Ha _ O1). congruence.
  - intros Hre. assert (Ht : table_ok tb) by (induction Hre as [|o tb Hre IH Hfit]; [apply table_new_ok|by apply run_op_ok]).
    intros p h. split; [intros Hl; by apply (tb_listeners tb Ht)|]. intros (r & Hr & Hlis). by apply (tb_listens tb Ht h r).
Qed.

(** Bound, listening, with one connection accepted. *)
Definition sample_table : Skt.TcpSocketTable :=
  run_op (OpAccept 1) (run_op (OpEnqueue 80 5%positive) (run_op (OpListen 1 4)
    (run_op (OpBind 1 80 0 (Some (10, 0, 2, 15))) (run_op OpCreate Skt.table_new)))).

Lemma ports_have_one_owner_witness :
  (∀ h1 h2 r1 r2 p, role_of sample_table h1 = Some r1 → role_of sample_table h2 = Some r2 →
    port_of r1 = Some p → port_of r2 = Some p → h1 = h2) ∧ ∃ r, role_of sample_table 1 = Some r ∧ is_listener 80 r.
Proof.
  destruct (ports_have_one_owner sample_table) as [H1 H2]. split.
  - apply H1. unfold sample_table. repeat (apply reach_op; [|vm_compute; exact I]). apply reach_new.
  - apply H2; [|vm_compute; reflexivity]. unfold sample_table. repeat (apply reach_op; [|vm_compute; exact I || reflexivity]). apply reach_new.
Defined.

(** ** Passive connections are accepted in order *)

Definition accept_queue (h : Z) (tb : Skt.TcpSocketTable) : list loc :=
  match role_of tb h with Some (Skt.Listener _ _ _ _ pend _) => pend | _ => [] end.

Definition backlog_of (h : Z) (tb : Skt.TcpSocketTable) : Z :=
  match role_of tb h with Some (Skt.Listener _ _ _ b _ _) => b | _ => 0 end.

(** The backlog is a bounded FIFO queue.  In a well-formed table, a
    completed handshake on a listener's port appends the connection to the
    listener's queue unless the backlog is reached, and then changes nothing.
    An accept on the listener waits when the queue is empty; otherwise it
    takes the oldest connection out and returns a fresh handle whose socket is
    connected to it, and connections of no other listener move. *)
Theorem accept_queue_is_fifo tb h p l :
  table_ok tb → listener_for_port tb p = Some h → Skt.next_handle tb < U32 - 1 →
  accept_queue h (enqueue_accepted_connection p l tb) =
    (if backlog_of h tb <=? zlen (accept_queue h tb) then accept_queue h tb else accept_queue h tb ++ [l]) ∧
  match accept_queue h tb, Tbl.socket_accept h tb with
  | [], (r, tb') => r = None ∧ tb' = tb
  | l0 :: q, (r, tb') => ∃ h', r = Some (inl h') ∧ role_of tb h' = None ∧
      Tbl.connected_tcb h' tb' = inl l0 ∧ accept_queue h tb' = q ∧
      ∀ h2, h2 ≠ h → h2 ≠ h' → accept_queue h2 tb' = accept_queue h2 tb
  end.
Proof.
  intros Ht Hp Hn. destruct (tb_listeners _ Ht _ _ Hp) as (_ & r & Hr & (ip & nic & b & pend & g & ->)).
  pose proof Hr as Hs. unfold role_of in Hs. destruct (Skt.sockets tb !! h) as [[r o]|] eqn:E; [|discriminate].
  simpl in Hs. injection Hs as ->. unfold accept_queue at 2 3 4 5, backlog_of. rewrite Hr. split.
  - unfold enqueue_accepted_connection. rewrite Hp. unfold table_get. rewrite E.
    destruct (b <=? zlen pend); unfold accept_queue; [rewrite Hr; reflexivity|].
    unfold role_of. rsimp. rewrite lookup_insert_eq. reflexivity.
  - unfold Tbl.socket_accept, table_get. rewrite E. cbn [Skt.role Skt.opts]. destruct pend as [|l0 q]; [auto|].
    cbv zeta. set (tb1 := Tbl.set_role _ _ _). set (st := Skt.mkState _ _).
    pose proof (role_of_insert st tb1) as Hi. destruct (table_insert st tb1) as [h' tb'] eqn:Ei.
    assert (Hh' : h' = Skt.next_handle tb) by (unfold table_insert, alloc_handle in Ei; simplify_eq; reflexivity).
    change (Skt.next_handle tb1) with (Skt.next_handle tb) in Hi. rewrite <- Hh' in Hi. cbn [snd] in Hi.
    assert (Hnew : role_of tb h' = None).
    { destruct (role_of tb h') eqn:E'; [|reflexivity]. apply (tb_handles _ Ht) in E'. lia. }
    assert (Hne : h ≠ h') by congruence. exists h'. split; [reflexivity|]. split; [assumption|].
    assert (Hrole : ∀ h2, h2 ≠ h → h2 ≠ h' → role_of tb' h2 = role_of tb h2).
    { intros h2 H1 H2. rewrite Hi, decide_False by assumption. unfold tb1. rewrite role_of_set.
      by rewrite decide_False by assumption. }
    split; [|split; [|intros h2 H1 H2; unfold accept_queue; by rewrite Hrole]].
    + unfold Tbl.connected_tcb, table_get. specialize (Hi h'). rewrite decide_True in Hi by reflexivity.
      unfold role_of in Hi. destruct (Skt.sockets tb' !! h') as [s|]; [|discriminate]. simpl in Hi.
      injection Hi as ->. reflexivity.
    + unfold accept_queue. rewrite Hi, decide_False by assumption. unfold tb1.
      rewrite role_of_set, decide_True, Hr by reflexivity. reflexivity.
Qed.

Lemma accept_queue_is_fifo_witness :
  let tb := run_op (OpEnqueue 80 6%positive) sample_table in
  accept_queue 1 (enqueue_accepted_connection 80 7%positive tb) = [6; 7]%positive ∧
  match Tbl.socket_accept 1 tb with
  | (r, tb') => ∃ h', r = Some (inl h') ∧ Tbl.connected_tcb h' tb' = inl 6%positive
  end.
Proof.
  intros tb. assert (Ht : table_ok tb).
  { unfold tb, sample_table. repeat (apply run_op_ok; [|vm_compute; exact I || reflexivity]). apply table_new_ok. }
  destruct (accept_queue_is_fifo tb 1 80 7%positive Ht) as [H1 H2]; [reflexivity|vm_compute; reflexivity|].
  split; [exact H1|].
  change (accept_queue 1 tb) with [6%positive] in H2. destruct (Tbl.socket_accept 1 tb) as [r tb'].
  destruct H2 as (h' & Hr & _ & Hc & _). exists h'. split; [exact Hr|exact Hc].
Defined.

(** ** Findings on the socket table *)

(** A closed socket may keep its port.  When a socket bound to a port is
    connected (by [socket_connect] or [socket_adopt_connected]) and then
    closed, its handle goes, but the port's entry in [bound_ports] stays: no
    other socket can be bound to the port again. *)
Theorem closed_socket_keeps_port tb h ip p nic o tcb h2 nic2 ip2 :
  Skt.sockets tb !! h = Some (Skt.mkState (Skt.Bound ip p nic) o) → Skt.bound_ports tb !! p = Some h →
  p ≠ 0 → h2 ≠ h → role_of tb h2 = Some Skt.Unbound →
  let tb' := snd (Tbl.socket_close h (snd (Tbl.socket_adopt_connected h tcb tb))) in
  role_of tb' h = None ∧ port_in_use tb' p = true ∧
  Tbl.socket_bind h2 p nic2 (Some ip2) tb' = (inr AddrInUse, tb').
Proof.
  intros E Hb Hp Hne Hr2. unfold Tbl.socket_adopt_connected, table_get. rewrite E. cbn [Skt.role snd].
  unfold Tbl.socket_close, table_get, Tbl.set_role. rsimp. rewrite lookup_alter_eq, E. cbn [fmap option_fmap option_map].
  rsimp. cbn [snd]. cbv zeta. set (tb' := _ <| Skt.sockets := delete h _ |>).
  assert (Hin : port_in_use tb' p = true).
  { unfold port_in_use, tb'. rsimp. rewrite Hb. rewrite (bool_decide_eq_true_2 (is_Some (Some h))) by eauto. apply orb_true_r. }
  split; [unfold role_of, tb'; rsimp; by rewrite lookup_delete_eq|]. split; [assumption|].
  unfold Tbl.socket_bind, table_get.
  assert (Hs2 : Skt.role <$> Skt.sockets tb' !! h2 = Some Skt.Unbound).
  { unfold tb'. rsimp. rewrite lookup_delete_ne, lookup_alter_ne by congruence. exact Hr2. }
  destruct (Skt.sockets tb' !! h2) as [[r o2]|]; [|discriminate]. simpl in Hs2. injection Hs2 as ->. cbn [Skt.role].
  unfold Tbl.assign_port. cbn [Tbl.drop_old]. cbv zeta. destruct (Z.eqb_spec p 0); [done|]. rewrite Hin. reflexivity.
Qed.

(** A bound socket that is bound to port 0 when no port is free keeps its role
    but not the entry of its port: another socket can be bound to the same
    port. *)
Theorem failed_rebind_frees_port tb h ip p nic o h2 o2 nic2 ip2 :
  Skt.sockets tb !! h = Some (Skt.mkState (Skt.Bound ip p nic) o) → Skt.sockets tb !! h2 = Some (Skt.mkState Skt.Unbound o2) →
  Skt.listeners tb !! p = None → p ≠ 0 → table_alloc_ephemeral_port (Tbl.release_bound p tb) = None →
  let '(r1, tb1) := Tbl.socket_bind h 0 nic (Some ip) tb in
  let '(r2, tb2) := Tbl.socket_bind h2 p nic2 (Some ip2) tb1 in
  r1 = inr AddrInUse ∧ r2 = inl tt ∧ role_of tb2 h = Some (Skt.Bound ip p nic) ∧ role_of tb2 h2 = Some (Skt.Bound ip2 p nic2).
Proof.
  intros E E2 Hl Hp Ha. unfold Tbl.socket_bind at 1, table_get. rewrite E. cbn [Skt.role]. unfold Tbl.assign_port at 1. cbn [Tbl.drop_old Z.eqb]. rewrite Ha.
  set (tb1 := Tbl.release_bound p tb). unfold Tbl.socket_bind, table_get. change (Skt.sockets tb1) with (Skt.sockets tb). rewrite E2. cbn [Skt.role].
  unfold Tbl.assign_port. cbn [Tbl.drop_old]. rewrite (proj2 (Z.eqb_neq p 0)) by done.
  assert (Hu : port_in_use tb1 p = false) by (apply in_use_spec; unfold tb1, Tbl.release_bound; rsimp; by rewrite lookup_delete_eq). rewrite Hu.
  split; [done|]. split; [done|]. rewrite !role_of_set. unfold Tbl.take_bound, tb1, Tbl.release_bound, role_of. rsimp.
  rewrite (decide_True (P := h2 = h2)), E2 by done. rewrite decide_False by congruence. by rewrite E.
Qed.

Definition sample_bound : Skt.TcpSocketTable :=
  run_op OpCreate (run_op (OpBind 1 8080 0 (Some (10, 0, 2, 15))) (run_op OpCreate Skt.table_new)).

Lemma closed_socket_keeps_port_witness :
  let tb' := snd (Tbl.socket_close 1 (snd (Tbl.socket_adopt_connected 1 3%positive sample_bound))) in
  role_of tb' 1 = None ∧ port_in_use tb' 8080 = true ∧
  Tbl.socket_bind 2 8080 0 (Some (10, 0, 2, 15)) tb' = (inr AddrInUse, tb').
Proof.
  apply (closed_socket_keeps_port sample_bound 1 (10, 0, 2, 15) 8080 0 Settings.settings_default 3%positive 2 0 (10, 0, 2, 15));
    [reflexivity|reflexivity|discriminate|discriminate|reflexivity].
Defined.
