(* ===== verification/Bits.v ===== *)
(** * Bits of machine words

    Masks, single bits, the position of the lowest and of the highest bit set,
    and the rewriting database [bits] that decides equalities of words bit by
    bit. *)

From S2P Require Import Prelude.

(** [1 << k], and the word with the [n] bits from [k] on. *)
Definition bit (k : Z) : Z := Z.shiftl 1 k.
Definition mask (k n : Z) : Z := Z.shiftl (Z.ones n) k.

(** [!x] of a word of [w] bits. *)
Definition wnot (w x : Z) : Z := Z.lxor (Z.ones w) x.

(** [trailing_zeros] and [leading_zeros] of a word of [w] bits. *)
Fixpoint ctz (w : nat) (x : Z) : Z :=
  match w with
  | O => 0
  | S w => if Z.odd x then 0 else 1 + ctz w (Z.div2 x)
  end.
Definition leading_zeros (w x : Z) : Z := if x =? 0 then w else w - 1 - Z.log2 x.

(** The bits of [x], where bits beyond a width are clear. *)
Definition word (w x : Z) : Prop := 0 ≤ x < 2 ^ w.

Create HintDb bits.
Create Rewrite HintDb bits.

Lemma testbit_bit k i : 0 ≤ k → 0 ≤ i → Z.testbit (bit k) i = (i =? k).
Proof.
  intros. unfold bit. rewrite Z.shiftl_spec by assumption.
  destruct (Z.eqb_spec i k) as [->|].
  - by rewrite Z.sub_diag.
  - destruct (decide (i < k)); [by rewrite Z.testbit_neg_r by lia|].
    change 1 with (2 ^ 0). rewrite Z.pow2_bits_eqb by lia. lia.
Qed.

Lemma testbit_ones n i : 0 ≤ n → 0 ≤ i → Z.testbit (Z.ones n) i = (i <? n).
Proof.
  intros. rewrite Z.testbit_ones_nonneg by lia. done.
Qed.

Lemma testbit_mask k n i : 0 ≤ k → 0 ≤ n → 0 ≤ i →
  Z.testbit (mask k n) i = (k <=? i) && (i <? k + n).
Proof.
  intros. unfold mask. rewrite Z.shiftl_spec by assumption.
  destruct (Z.leb_spec k i); [|by rewrite Z.testbit_neg_r by lia].
  rewrite testbit_ones by lia. simpl.
  destruct (Z.ltb_spec (i - k) n), (Z.ltb_spec i (k + n)); lia.
Qed.

Lemma testbit_wnot w x i : 0 ≤ w → 0 ≤ i < w → Z.testbit (wnot w x) i = negb (Z.testbit x i).
Proof.
  intros. unfold wnot. rewrite Z.lxor_spec, testbit_ones by lia.
  destruct (Z.ltb_spec i w); [by destruct (Z.testbit x i)|lia].
Qed.

Lemma word_high_bit w x i : word w x → w ≤ i → Z.testbit x i = false.
Proof.
  intros [? ?] ?. destruct (decide (x = 0)) as [->|]; [apply Z.testbit_0_l|].
  apply Z.bits_above_log2; [assumption|]. apply Z.log2_lt_pow2; [lia|].
  eapply Z.lt_le_trans; [eassumption|]. apply Z.pow_le_mono_r; lia.
Qed.

(** A word is determined by its bits below the width. *)
Lemma word_bits w x : 0 ≤ w → 0 ≤ x → (∀ i, w ≤ i → Z.testbit x i = false) → word w x.
Proof.
  intros Hw Hx Hi. split; [assumption|]. destruct (decide (x = 0)) as [->|]; [by apply Z.pow_pos_nonneg|].
  apply Z.log2_lt_pow2; [lia|]. destruct (decide (Z.log2 x < w)); [assumption|].
  specialize (Hi (Z.log2 x) ltac:(lia)). by rewrite Z.bit_log2 in Hi by lia.
Qed.

Lemma word_eq w x y : 0 ≤ w → word w x → word w y → (∀ i, 0 ≤ i < w → Z.testbit x i = Z.testbit y i) → x = y.
Proof.
  intros Hw Hx Hy He. apply Z.bits_inj'. intros i Hi. destruct (decide (i < w)); [by apply He|].
  by rewrite !(word_high_bit w) by (assumption || lia).
Qed.

Lemma word_land w x y : 0 ≤ w → word w x → word w (Z.land x y).
Proof.
  intros Hw Hx. apply word_bits; [assumption|apply Z.land_nonneg; left; apply Hx|].
  intros i Hi. by rewrite Z.land_spec, (word_high_bit w x) by assumption.
Qed.

Lemma word_land_r w x y : 0 ≤ w → word w y → word w (Z.land x y).
Proof. intros. rewrite Z.land_comm. by apply word_land. Qed.

Lemma word_lor w x y : 0 ≤ w → word w x → word w y → word w (Z.lor x y).
Proof.
  intros Hw Hx Hy. apply word_bits; [assumption|apply Z.lor_nonneg; split; [apply Hx|apply Hy]|].
  intros i Hi. by rewrite Z.lor_spec, !(word_high_bit w) by assumption.
Qed.

Lemma word_lxor w x y : 0 ≤ w → word w x → word w y → word w (Z.lxor x y).
Proof.
  intros Hw Hx Hy. apply word_bits; [assumption|apply Z.lxor_nonneg; split; intros; [apply Hy|apply Hx]|].
  intros i Hi. by rewrite Z.lxor_spec, !(word_high_bit w) by assumption.
Qed.

Lemma word_bit w k : 0 ≤ k < w → word w (bit k).
Proof.
  intros. unfold word, bit. rewrite Z.shiftl_1_l. split; [by apply Z.pow_nonneg|apply Z.pow_lt_mono_r; lia].
Qed.

Lemma word_wnot w x : 0 ≤ w → word w x → word w (wnot w x).
Proof.
  intros Hw Hx. apply word_lxor; [assumption| |assumption].
  unfold word. rewrite Z.ones_equiv. pose proof (Z.pow_pos_nonneg 2 w). lia.
Qed.

Lemma word_wider v w x : 0 ≤ v ≤ w → word v x → word w x.
Proof. intros ? [? ?]. split; [assumption|]. eapply Z.lt_le_trans; [eassumption|]. apply Z.pow_le_mono_r; lia. Qed.

#[export] Hint Resolve word_land word_land_r word_lor word_lxor word_bit word_wnot : bits.

#[export] Hint Rewrite Z.land_spec Z.lor_spec Z.lxor_spec andb_true_r andb_false_r orb_true_r orb_false_r
  Z.testbit_0_l : bits.
#[export] Hint Rewrite testbit_bit testbit_mask testbit_ones testbit_wnot using lia : bits.

(** Decides an equality of words by comparing the bit [i]: what remains is a
    case analysis on comparisons of [i] with constants. *)
Ltac bit_cases :=
  repeat match goal with
  | |- context [?a <=? ?b] => destruct (Z.leb_spec a b)
  | |- context [?a <? ?b] => destruct (Z.ltb_spec a b)
  | |- context [?a =? ?b] => destruct (Z.eqb_spec a b)
  end; simpl; autorewrite with bits; try reflexivity; try lia.

(** ** The lowest bit *)

Lemma ctz_bound w x : 0 ≤ ctz w x ≤ Z.of_nat w.
Proof.
  revert x. induction w as [|w IH]; intros x; cbn [ctz]; [lia|].
  destruct (Z.odd x); [lia|]. specialize (IH (Z.div2 x)). lia.
Qed.

Lemma testbit_div2 x i : 0 ≤ i → Z.testbit (Z.div2 x) i = Z.testbit x (i + 1).
Proof. intros. rewrite Z.div2_spec, Z.shiftr_spec by assumption. done. Qed.

Lemma ctz_below w x i : 0 ≤ i < ctz w x → Z.testbit x i = false.
Proof.
  revert x i. induction w as [|w IH]; intros x i; cbn [ctz]; [lia|].
  destruct (Z.odd x) eqn:Ho; [lia|]. intros Hi.
  destruct (decide (i = 0)) as [->|]; [by rewrite Z.bit0_odd|].
  replace i with (i - 1 + 1) by lia. rewrite <- testbit_div2 by lia. apply IH. lia.
Qed.

Lemma ctz_set w x : word (Z.of_nat w) x → x ≠ 0 → Z.testbit x (ctz w x) = true ∧ ctz w x < Z.of_nat w.
Proof.
  revert x. induction w as [|w IH]; intros x Hx Hn; cbn [ctz].
  - unfold word in Hx. simpl in Hx. lia.
  - destruct (Z.odd x) eqn:Ho; [rewrite Z.bit0_odd; split; [assumption|lia]|].
    pose proof (Zdiv2_odd_eqn x) as He. rewrite Ho in He.
    assert (2 ^ Z.of_nat (S w) = 2 * 2 ^ Z.of_nat w) as Hp
      by (rewrite Nat2Z.inj_succ, Z.pow_succ_r by lia; reflexivity).
    destruct (IH (Z.div2 x)) as [Ht Hb]; [unfold word in *; lia|lia|].
    rewrite testbit_div2 in Ht by (pose proof (ctz_bound w (Z.div2 x)); lia).
    rewrite Z.add_comm. split; [assumption|lia].
Qed.

(** The lowest bit set is the only one with nothing set below it. *)
Lemma ctz_unique w x k : word (Z.of_nat w) x → 0 ≤ k → Z.testbit x k = true →
  (∀ i, 0 ≤ i < k → Z.testbit x i = false) → ctz w x = k.
Proof.
  intros Hx Hk Ht Hb. assert (x ≠ 0) as Hn by (intros ->; by rewrite Z.testbit_0_l in Ht).
  destruct (ctz_set w x Hx Hn) as [Hs _]. pose proof (ctz_bound w x).
  destruct (decide (ctz w x < k)); [by rewrite Hb in Hs by lia|].
  destruct (decide (k < ctz w x)); [by rewrite (ctz_below w) in Ht by lia|lia].
Qed.

(** ** The highest bit *)

Lemma high_bit_set x : 0 < x → Z.testbit x (Z.log2 x) = true.
Proof. apply Z.bit_log2. Qed.

Lemma high_bit_above x i : 0 ≤ x → Z.log2 x < i → Z.testbit x i = false.
Proof. apply Z.bits_above_log2. Qed.

Lemma high_bit_word w x : 0 < w → word w x → 0 ≤ Z.log2 x < w.
Proof.
  intros Hw [? ?]. split; [apply Z.log2_nonneg|].
  destruct (decide (x = 0)) as [->|]; [simpl; lia|]. by apply Z.log2_lt_pow2; [lia|].
Qed.

Lemma some_bit w x : word w x → x ≠ 0 → ∃ i, 0 ≤ i < w ∧ Z.testbit x i = true.
Proof.
  intros Hx Hn. assert (0 < x) by (unfold word in Hx; lia). exists (Z.log2 x).
  split; [|by apply Z.bit_log2]. destruct (decide (0 < w)); [by apply high_bit_word|].
  assert (2 ^ w ≤ 2 ^ 0) by (apply Z.pow_le_mono_r; lia). unfold word in Hx. simpl in *. lia.
Qed.

Lemma no_bits w x : 0 ≤ w → word w x → (∀ i, 0 ≤ i < w → Z.testbit x i = false) → x = 0.
Proof.
  intros Hw Hx Hi. apply (word_eq w); [assumption|assumption| |].
  - unfold word. pose proof (Z.pow_pos_nonneg 2 w). lia.
  - intros i ?. by rewrite Hi, Z.testbit_0_l.
Qed.
