(* ===== verification/Frames.v ===== *)
(** * Pages, frames and the frame allocator

    [kernel/src/subsystem/memory.rs]: page-aligned addresses, ranges of them
    and their iterators, and the allocator that hands out the usable frames of
    the boot loader's memory map one after the other. *)

From S2P Require Import Prelude Bits.

Definition PAGE_SIZE : Z := 4096.
Definition FRAME_SIZE : Z := 4096.

(** [VirtualAddress] and [PhysicalAddress] wrap a [u64]. *)
Definition is_aligned_to (address alignment : Z) : bool := address mod alignment =? 0.

(** A [Page] and a [Frame] are an aligned address. *)
Definition Page_new (address : Z) : res Z := rassert (is_aligned_to address PAGE_SIZE);; Ret address.
Definition Frame_new (address : Z) : res Z := rassert (is_aligned_to address FRAME_SIZE);; Ret address.

Module PageRange.
Record PageRange := mkRange { start : Z; end_ : Z }.
Definition new (s e : Z) : res PageRange :=
  rassert (is_aligned_to s PAGE_SIZE);; rassert (is_aligned_to e PAGE_SIZE);; rassert (s <? e);;
  Ret (mkRange s e).
Definition contains (r : PageRange) (page : Z) : bool := (start r <=? page) && (page <? end_ r).
Definition n (r : PageRange) : res Z := d ← sub_chk U64 (end_ r) (start r); Ret (d / PAGE_SIZE).

(** [PageRangeIterator]: the range and the next address. *)
Record Iter := mkIter { page_range : PageRange; current : Z }.
Definition iter_new (r : PageRange) : res Iter :=
  rassert (is_aligned_to (start r) PAGE_SIZE);; rassert (is_aligned_to (end_ r) PAGE_SIZE);; Ret (mkIter r (start r)).
Definition next (it : Iter) : res (option Z * Iter) :=
  if current it <? end_ (page_range it) then
    page ← Page_new (current it);
    c ← add_chk U64 (current it) PAGE_SIZE;
    Ret (Some page, mkIter (page_range it) c)
  else Ret (None, it).
Definition size_hint (it : Iter) : res (Z * option Z) :=
  d ← sub_chk U64 (end_ (page_range it)) (start (page_range it)); Ret (d / PAGE_SIZE, Some (d / PAGE_SIZE)).
End PageRange.

Module FrameRange.
Record FrameRange := mkRange { start : Z; end_ : Z }.
Definition new (s e : Z) : res FrameRange :=
  rassert (is_aligned_to s FRAME_SIZE);; rassert (is_aligned_to e FRAME_SIZE);; rassert (s <? e);;
  Ret (mkRange s e).
Definition contains (r : FrameRange) (frame : Z) : bool := (start r <=? frame) && (frame <? end_ r).
Definition n (r : FrameRange) : res Z := d ← sub_chk U64 (end_ r) (start r); Ret (d / FRAME_SIZE).

Record Iter := mkIter { frame_range : FrameRange; current : Z }.
Definition iter (r : FrameRange) : res Iter :=
  rassert (is_aligned_to (start r) FRAME_SIZE);; rassert (is_aligned_to (end_ r) FRAME_SIZE);; Ret (mkIter r (start r)).
Definition next (it : Iter) : res (option Z * Iter) :=
  if current it <? end_ (frame_range it) then
    frame ← Frame_new (current it);
    c ← add_chk U64 (current it) FRAME_SIZE;
    Ret (Some frame, mkIter (frame_range it) c)
  else Ret (None, it).
Definition size_hint (it : Iter) : res (Z * option Z) :=
  d ← sub_chk U64 (end_ (frame_range it)) (start (frame_range it)); Ret (d / FRAME_SIZE, Some (d / FRAME_SIZE)).
End FrameRange.

(** An entry of the boot loader's memory map; [usable] is
    [entry_type == EntryType::USABLE]. *)
Record Entry := mkEntry { base : Z; length_ : Z; usable : bool }.

Record FrameAllocator := mkAllocator { memory_map_entries : list Entry; n_allocated : Z }.
#[global] Instance FrameAllocator_eta : Eta FrameAllocator := λ fa,
  mkAllocator (memory_map_entries fa) (n_allocated fa).
Definition FrameAllocator_new (entries : list Entry) : FrameAllocator := mkAllocator entries 0.

(** The number of addresses [(lo..hi).step_by(FRAME_SIZE)] yields. *)
Definition steps (lo hi : Z) : Z := if lo <? hi then (hi - lo + FRAME_SIZE - 1) / FRAME_SIZE else 0.

(** The iterator chain of [allocate], up to its [nth(k)]: every frame it
    passes is built by [Frame::new]. *)
Fixpoint nth_frame (entries : list Entry) (k : Z) : res (option Z) :=
  match entries with
  | [] => Ret None
  | e :: rest =>
      if usable e then
        hi ← add_chk U64 (base e) (length_ e);
        let count := steps (base e) hi in
        (if 0 <? count then Frame_new (base e);; Ret tt else Ret tt);;
        if k <? count then f ← Frame_new (base e + k * FRAME_SIZE); Ret (Some f)
        else nth_frame rest (k - count)
      else nth_frame rest k
  end.

Definition allocate (fa : FrameAllocator) : res (option Z * FrameAllocator) :=
  frame ← nth_frame (memory_map_entries fa) (n_allocated fa);
  m ← add_chk U64 (n_allocated fa) 1;
  Ret (frame, fa <| n_allocated := m |>).

(** [MemoryManager::allocate_frames_contiguous], on the allocator. *)
Fixpoint allocate_rest (k : nat) (fa : FrameAllocator) : res (option unit * FrameAllocator) :=
  match k with
  | O => Ret (Some tt, fa)
  | S k => '(f, fa) ← allocate fa;
           match f with None => Ret (None, fa) | Some _ => allocate_rest k fa end
  end.
Definition allocate_frames_contiguous (n : Z) (fa : FrameAllocator) : res (option Z * FrameAllocator) :=
  '(first_frame, fa) ← allocate fa;
  '(ok, fa) ← allocate_rest (Z.to_nat (n - 1)) fa;
  Ret (match ok with Some _ => first_frame | None => None end, fa).

(** ** What the allocator hands out *)

(** The frames of the memory map, in the order they are handed out. *)
Definition region_frames (lo hi : Z) : list Z :=
  (λ k, lo + Z.of_nat k * FRAME_SIZE) <$> seq 0 (Z.to_nat (steps lo hi)).
Definition frame_list (entries : list Entry) : list Z :=
  mjoin ((λ e, if usable e then region_frames (base e) (base e + length_ e) else []) <$> entries).

(** What the boot loader promises of a usable entry: it is made of whole
    frames and ends within the address space. *)
Definition region_ok (e : Entry) : Prop :=
  usable e = true → base e mod FRAME_SIZE = 0 ∧ length_ e mod FRAME_SIZE = 0 ∧
    0 ≤ base e ∧ 0 ≤ length_ e ∧ base e + length_ e < U64.

(** Usable entries do not overlap. *)
Definition regions_disjoint (entries : list Entry) : Prop :=
  ∀ i j e e', entries !! i = Some e → entries !! j = Some e' → i ≠ j →
    usable e = true → usable e' = true →
    base e + length_ e ≤ base e' ∨ base e' + length_ e' ≤ base e.

Section Allocator.
Implicit Types e : Entry.

Lemma aligned_frame a : a mod FRAME_SIZE = 0 → Frame_new a = Ret a.
Proof. intros H. unfold Frame_new, is_aligned_to. by rewrite H. Qed.

Lemma steps_whole lo hi : lo mod FRAME_SIZE = 0 → hi mod FRAME_SIZE = 0 → lo ≤ hi →
  steps lo hi = (hi - lo) / FRAME_SIZE ∧ lo + steps lo hi * FRAME_SIZE = hi.
Proof. unfold steps, FRAME_SIZE. intros. destruct (Z.ltb_spec lo hi); mlia. Qed.

Lemma length_region lo hi : length (region_frames lo hi) = Z.to_nat (steps lo hi).
Proof. unfold region_frames. by rewrite length_fmap, length_seq. Qed.

Lemma steps_nonneg lo hi : 0 ≤ steps lo hi.
Proof. unfold steps, FRAME_SIZE. destruct (Z.ltb_spec lo hi); mlia. Qed.

Lemma lookup_region lo hi k f :
  region_frames lo hi !! k = Some f ↔ f = lo + Z.of_nat k * FRAME_SIZE ∧ Z.of_nat k < steps lo hi.
Proof.
  unfold region_frames. rewrite list_lookup_fmap, fmap_Some. setoid_rewrite lookup_seq.
  pose proof (steps_nonneg lo hi). split; [intros (? & [-> ?] & ->)|intros [-> ?]; eexists]; simpl; split; auto; lia.
Qed.

(** The iterator chain reads the list of frames. *)
Lemma nth_frame_spec entries k : Forall region_ok entries → 0 ≤ k →
  nth_frame entries k = Ret (frame_list entries !! Z.to_nat k).
Proof.
  intros Hok. revert k. induction Hok as [|e entries He Hok IH]; intros k Hk; [done|].
  unfold frame_list in *. cbn [nth_frame fmap list_fmap mjoin list_join]. unfold region_ok in He.
  destruct (usable e); [|by apply IH]. destruct (He eq_refl) as (Hb & Hl & ? & ? & ?).
  run. set (hi := base e + length_ e) in *.
  assert (hi mod FRAME_SIZE = 0) by (unfold hi, FRAME_SIZE in *; mlia).
  rewrite (aligned_frame (base e)) by assumption.
  replace (if 0 <? steps (base e) hi then Ret (base e);; Ret tt else Ret tt) with (Ret tt) by by destruct (0 <? _).
  rewrite ret_bind. cbv beta. pose proof (steps_nonneg (base e) hi).
  destruct (Z.ltb_spec k (steps (base e) hi)).
  - rewrite lookup_app_l by (rewrite length_region; lia).
    rewrite (aligned_frame (base e + _)) by (unfold FRAME_SIZE in *; mlia). rewrite ret_bind. f_equal. symmetry.
    apply lookup_region. split; [by rewrite Z2Nat.id|lia].
  - rewrite IH by lia. rewrite lookup_app_r by (rewrite length_region; lia).
    rewrite length_region. do 2 f_equal. lia.
Qed.

Lemma frame_allocate_spec fa : Forall region_ok (memory_map_entries fa) → 0 ≤ n_allocated fa < U64 - 1 →
  allocate fa = Ret (frame_list (memory_map_entries fa) !! Z.to_nat (n_allocated fa),
                     fa <| n_allocated := n_allocated fa + 1 |>).
Proof. intros Hok Hn. unfold allocate. rewrite nth_frame_spec by (auto; lia). run. done. Qed.

(** Every frame is whole, within a usable region, and listed once. *)
Lemma frame_in_region entries i f : Forall region_ok entries → frame_list entries !! i = Some f →
  ∃ e, e ∈ entries ∧ usable e = true ∧ base e ≤ f ∧ f + FRAME_SIZE ≤ base e + length_ e ∧ f mod FRAME_SIZE = 0.
Proof.
  intros Hok Hf. apply list_elem_of_lookup_2 in Hf. unfold frame_list in Hf.
  apply list_elem_of_join in Hf as (l & Hf & Hl). apply list_elem_of_fmap in Hl as (e & -> & He).
  rewrite Forall_forall in Hok. specialize (Hok e He). unfold region_ok in Hok.
  exists e. destruct (usable e); [|by apply not_elem_of_nil in Hf]. destruct (Hok eq_refl) as (? & ? & ? & ? & ?).
  apply list_elem_of_lookup_1 in Hf as [k Hk]. apply lookup_region in Hk as [-> Hk].
  destruct (steps_whole (base e) (base e + length_ e)) as [? ?]; [|unfold FRAME_SIZE in *; mlia..|].
  - assumption.
  - split_and!; auto; unfold FRAME_SIZE in *; mlia.
Qed.

Lemma region_nodup lo hi : NoDup (region_frames lo hi).
Proof.
  apply NoDup_alt. intros i j x Hi Hj. apply lookup_region in Hi as [-> ?]. apply lookup_region in Hj as [? ?].
  unfold FRAME_SIZE in *. lia.
Qed.

Lemma frame_list_nodup entries : Forall region_ok entries → regions_disjoint entries → NoDup (frame_list entries).
Proof.
  intros Hok. induction Hok as [|e entries He Hok IH]; intros Hd; [apply NoDup_nil_2|].
  unfold frame_list. cbn [fmap list_fmap mjoin list_join]. apply NoDup_app. split_and!.
  - destruct (usable e); [apply region_nodup|apply NoDup_nil_2].
  - intros f Hf Hr. destruct (usable e) eqn:Hu; [|by apply not_elem_of_nil in Hf].
    apply list_elem_of_lookup_1 in Hr as [j Hj]. destruct (frame_in_region _ _ _ Hok Hj) as (e' & He' & Hu' & ? & ? & ?).
    apply list_elem_of_lookup_1 in Hf as [k Hk]. apply lookup_region in Hk as [-> Hk].
    destruct (He Hu) as (? & ? & ? & ? & ?).
    destruct (steps_whole (base e) (base e + length_ e)) as [? ?]; [assumption|unfold FRAME_SIZE in *; mlia|lia|].
    apply list_elem_of_lookup_1 in He' as [m Hm].
    destruct (Hd 0%nat (S m) e e' eq_refl Hm) as [?|?]; auto; unfold FRAME_SIZE in *; nia.
  - apply IH. intros i j e1 e2 H1 H2 Hij. apply (Hd (S i) (S j)); auto.
Qed.

Lemma allocate_rest_spec k : ∀ fa, Forall region_ok (memory_map_entries fa) → 0 ≤ n_allocated fa → n_allocated fa + Z.of_nat k < U64 →
  ∃ fa', allocate_rest k fa = Ret (if decide (n_allocated fa + Z.of_nat k ≤ zlen (frame_list (memory_map_entries fa))) then Some tt else
      if decide (k = 0%nat) then Some tt else None, fa') ∧ memory_map_entries fa' = memory_map_entries fa ∧
    (n_allocated fa + Z.of_nat k ≤ zlen (frame_list (memory_map_entries fa)) → n_allocated fa' = n_allocated fa + Z.of_nat k).
Proof.
  induction k as [|k IH]; intros fa Hok H0 Hk; cbn [allocate_rest].
  { exists fa. split_and!; [by case_decide|done|lia]. }
  rewrite frame_allocate_spec by (done || lia). cbn [mbind res_bind]. rewrite (decide_False (P := S k = 0%nat)) by done.
  set (fl := frame_list (memory_map_entries fa)). destruct (fl !! Z.to_nat (n_allocated fa)) as [f|] eqn:E.
  - set (fa1 := fa <| n_allocated := n_allocated fa + 1 |>).
    assert (Em : memory_map_entries fa1 = memory_map_entries fa) by done. assert (En : n_allocated fa1 = n_allocated fa + 1) by done.
    clearbody fa1. destruct (IH fa1) as (fa' & Ea & Hm & Hn); [by rewrite Em|lia..|]. rewrite Em, En in *. fold fl in Ea, Hn.
    exists fa'. apply lookup_lt_Some in E. rewrite Ea. unfold zlen in *. split_and!; [|done|intros; rewrite Hn; lia].
    case_decide; [by rewrite decide_True by lia|]. rewrite (decide_False (P := n_allocated fa + _ ≤ _)) by lia.
    destruct (decide (k = 0%nat)); [lia|done].
  - apply lookup_ge_None in E. exists (fa <| n_allocated := n_allocated fa + 1 |>). unfold zlen. split; [|split; [done|lia]]. by rewrite decide_False by lia.
Qed.

(** Frames of one entry are handed out in the order of their addresses. *)
Lemma frames_in_a_row entries e i j f g : Forall region_ok entries → regions_disjoint entries → e ∈ entries → usable e = true →
  frame_list entries !! i = Some f → frame_list entries !! j = Some g →
  base e ≤ f < base e + length_ e → base e ≤ g < base e + length_ e → g = f + (Z.of_nat j - Z.of_nat i) * FRAME_SIZE.
Proof.
  intros Hok Hd He Hu Hi Hj Hf Hg. pose proof (frame_list_nodup _ Hok Hd) as Hnd.
  apply list_elem_of_split in He as (pre & post & ->).
  set (n := length (frame_list pre)). set (lo := base e) in *. set (hi := base e + length_ e) in *.
  assert (Hsplit : ∃ post', frame_list (pre ++ e :: post) = frame_list pre ++ region_frames lo hi ++ post').
  { exists (frame_list post). unfold frame_list. rewrite fmap_app, join_app, fmap_cons. cbn [mjoin list_join]. by rewrite Hu. }
  destruct Hsplit as [post' Hsplit].
  assert (Hat : ∀ i f, frame_list (pre ++ e :: post) !! i = Some f → lo ≤ f < hi → f = lo + (Z.of_nat i - Z.of_nat n) * FRAME_SIZE).
  { clear i j f g Hi Hj Hf Hg. intros i f Hi Hf.
    destruct (frame_in_region _ _ _ Hok Hi) as (_ & _ & _ & _ & _ & Hal).
    apply Forall_app in Hok as [_ Hok]. apply Forall_cons in Hok as [Hr _]. destruct (Hr Hu) as (Hb & Hl & ? & ? & ?). fold lo in Hb.
    destruct (steps_whole lo hi) as [_ Hsteps]; [done|unfold hi, lo, FRAME_SIZE in *; mlia|lia|].
    set (k := (f - lo) / FRAME_SIZE). assert (Hk : f = lo + k * FRAME_SIZE ∧ 0 ≤ k) by (unfold k, FRAME_SIZE in *; mlia).
    assert (Hreg : region_frames lo hi !! Z.to_nat k = Some f) by (apply lookup_region; rewrite Z2Nat.id by lia; unfold FRAME_SIZE in *; lia).
    assert (Hi' : frame_list (pre ++ e :: post) !! (n + Z.to_nat k)%nat = Some f).
    { rewrite Hsplit. unfold n. rewrite lookup_app_r, Nat.add_comm, Nat.add_sub by lia. apply lookup_app_l_Some, Hreg. }
    pose proof (NoDup_lookup _ _ _ _ Hnd Hi Hi') as ->. destruct Hk as [Hk Hk0]. rewrite Hk. f_equal. f_equal. lia. }
  pose proof (Hat i f Hi Hf). pose proof (Hat j g Hj Hg). unfold FRAME_SIZE in *. lia.
Qed.

(** [MemoryManager::allocate_frames_contiguous]: [n] frames are taken off
    the front of the frames that are left, the first of them is returned, and
    [None] when fewer are left.  The frames are whole, lie in usable memory
    and are handed out only once; they are the next ones of the memory map,
    in a row as long as no entry of it ends between them. *)
Theorem allocate_frames_contiguous_takes_next fa n : Forall region_ok (memory_map_entries fa) → regions_disjoint (memory_map_entries fa) →
  0 ≤ n_allocated fa → 0 < n → n_allocated fa + n < U64 → zlen (frame_list (memory_map_entries fa)) < U64 →
  let left := drop (Z.to_nat (n_allocated fa)) (frame_list (memory_map_entries fa)) in
  let taken := take (Z.to_nat n) left in
  NoDup left ∧
  (∀ f, f ∈ left → ∃ e, e ∈ memory_map_entries fa ∧ usable e = true ∧ base e ≤ f ∧ f + FRAME_SIZE ≤ base e + length_ e ∧ f mod FRAME_SIZE = 0) ∧
  (∀ e i j f g, e ∈ memory_map_entries fa → usable e = true → taken !! i = Some f → taken !! j = Some g →
    base e ≤ f < base e + length_ e → base e ≤ g < base e + length_ e → g = f + (Z.of_nat j - Z.of_nat i) * FRAME_SIZE) ∧
  returns (allocate_frames_contiguous n fa) (λ '(r, fa'), memory_map_entries fa' = memory_map_entries fa ∧
    r = (if decide (n ≤ zlen left) then head taken else None) ∧
    (n ≤ zlen left → drop (Z.to_nat (n_allocated fa')) (frame_list (memory_map_entries fa')) = drop (Z.to_nat n) left)).
Proof.
  intros Hok Hd H0 Hn Hlt Hz left taken. pose proof (frame_list_nodup _ Hok Hd) as Hnd. split_and!.
  - exact (sublist_NoDup _ _ Hnd (sublist_drop _ _)).
  - intros f Hf. apply list_elem_of_lookup_1 in Hf as [i Hi]. unfold left in Hi. rewrite lookup_drop in Hi. by eapply frame_in_region.
  - intros e i j f g He Hu Hi Hj Hf Hg. unfold taken, left in Hi, Hj. apply lookup_take_Some in Hi as [Hi _], Hj as [Hj _].
    rewrite lookup_drop in Hi, Hj. pose proof (frames_in_a_row _ e _ _ _ _ Hok Hd He Hu Hi Hj Hf Hg). lia.
  - unfold allocate_frames_contiguous. rewrite frame_allocate_spec by (done || lia). cbn [mbind res_bind].
    set (fl := frame_list (memory_map_entries fa)) in *. set (fa1 := fa <| n_allocated := n_allocated fa + 1 |>).
    assert (Em : memory_map_entries fa1 = memory_map_entries fa) by done. assert (En : n_allocated fa1 = n_allocated fa + 1) by done.
    clearbody fa1. destruct (allocate_rest_spec (Z.to_nat (n - 1)) fa1) as (fa' & -> & Hm & Hn'); [by rewrite Em|lia..|].
    rewrite Em, En in *. fold fl in Hn' |- *. eexists. split; [reflexivity|]. cbv beta iota. rewrite Hm.
    assert (Hleft : zlen left = Z.max 0 (zlen fl - n_allocated fa)) by (unfold left, zlen; rewrite length_drop; lia).
    rewrite Z2Nat.id in * by lia. split; [done|]. split.
    + assert (Hhead : fl !! Z.to_nat (n_allocated fa) = head taken).
      { unfold taken. rewrite head_lookup, lookup_take_lt by lia. unfold left. by rewrite lookup_drop, Nat.add_0_r. }
      destruct (decide (n ≤ zlen left)); [by rewrite decide_True by lia|]. rewrite decide_False by lia. case_decide; [|done].
      apply lookup_ge_None. unfold zlen in *. lia.
    + intros Hle. rewrite Hn' by lia. unfold left. rewrite drop_drop. f_equal. lia.
Qed.

Lemma allocate_frames_contiguous_takes_next_witness :
  let fa := FrameAllocator_new [mkEntry 0x1000 0x2000 true; mkEntry 0x3000 0x1000 false; mkEntry 0x5000 0x3000 true] in
  returns (allocate_frames_contiguous 3 fa) (λ '(r, fa'), r = Some 0x1000 ∧
    drop (Z.to_nat (n_allocated fa')) (frame_list (memory_map_entries fa')) = [0x6000; 0x7000]).
Proof.
  intros fa. destruct (allocate_frames_contiguous_takes_next fa 3) as (_ & _ & _ & [[r fa'] [E (_ & Hr & Hd)]]).
  - unfold fa. cbn [FrameAllocator_new memory_map_entries]. repeat constructor; unfold region_ok, FRAME_SIZE; cbn [base length_ usable]; intros; repeat split; lia.
  - unfold fa, regions_disjoint. cbn [FrameAllocator_new memory_map_entries]. intros i j e e' Hi Hj Hij Hu Hu'.
    destruct i as [|[|[|i]]], j as [|[|[|j]]]; simplify_eq/=; lia.
  - by vm_compute.
  - lia.
  - by vm_compute.
  - by vm_compute.
  - exists (r, fa'). split; [done|]. split; [by rewrite Hr; vm_compute|]. by rewrite Hd by by vm_compute.
Defined.
End Allocator.
