(* ===== verification/PageTable.v ===== *)
(** * Page tables

    [kernel/src/subsystem/memory.rs]: page table entries, and mapping,
    unmapping and translating through tables of four levels.  A page table is
    named by the pointer the kernel uses for it, its physical address plus the
    offset of the boot loader's direct map; a pointer to memory that is not a
    page table faults. *)

From S2P Require Import Prelude Bits Frames.

(** ** Entries *)

Module Flags.
(** [PageFlags], what a caller asks for. *)
Definition WRITABLE : Z := bit 1.
Definition EXECUTABLE : Z := bit 2.
Definition USER_MODE_ACCESSIBLE : Z := bit 3.
Definition WRITE_THROUGH : Z := bit 4.
Definition DISABLE_CACHING : Z := bit 5.
Definition GLOBAL : Z := bit 6.
End Flags.

(** [PageTableFlags], what an entry holds. *)
Definition PRESENT : Z := bit 0.
Definition WRITABLE : Z := bit 1.
Definition USER_ACCESSIBLE : Z := bit 2.
Definition WRITE_THROUGH : Z := bit 3.
Definition NO_CACHE : Z := bit 4.
Definition HUGE_PAGE : Z := bit 7.
Definition NO_EXECUTE : Z := bit 63.

(** The flags [PageTableFlags] names: bits 0 to 8 and bit 63. *)
Definition ALL_FLAGS : Z := Z.lor (mask 0 9) (bit 63).

Definition contains (flags f : Z) : bool := Z.land flags f =? f.

(** A [PageTableEntry] is its [u64]. *)
Definition address (e : Z) : Z := Z.land e 0xffffffffffff000.
Definition flags (e : Z) : Z := Z.land (Z.land e (Z.lor (bit 63) 4095)) ALL_FLAGS.
Definition set_address (a e : Z) : res Z :=
  rassert (Z.land a 4095 =? 0);;
  rassert (a <? bit 52);;
  Ret (Z.lor a (flags e)).
Definition set_flags (f e : Z) : Z := Z.lor (address e) f.

(** [sign_extend]: bit 47 copied to the bits above it. *)
Definition sign_extend (a : Z) : Z :=
  let shifted := Z.shiftl a 16 mod U64 in
  let signed := if shifted <? 2 ^ 63 then shifted else shifted - U64 in
  Z.shiftr signed 16 mod U64.

Definition pte_index (level a : Z) : Z := Z.land (Z.shiftr a (12 + 9 * (level - 1))) 511.

Inductive MemoryError := AlreadyMapped | NonExistentMapping | HugePage.
#[global] Instance MemoryError_eq_dec : EqDecision MemoryError.
Proof. solve_decision. Defined.

(** ** The machine the memory manager works on *)

Record machine := mkMachine {
  frame_allocator : FrameAllocator;      (** of the memory manager *)
  physical_memory_offset : Z;            (** of the memory manager *)
  tables : gmap Z (list Z);              (** memory used as page tables, by pointer *)
  cr3 : Z;                               (** the current top-level table *)
  tlb_flushes : Z                        (** how often the TLB was flushed *)
}.
#[global] Instance machine_eta : Eta machine := λ m,
  mkMachine (frame_allocator m) (physical_memory_offset m) (tables m) (cr3 m) (tlb_flushes m).

Definition PM (A : Type) : Type := machine → res (A * machine).
#[global] Instance PM_ret : MRet PM := λ A a m, Ret (a, m).
#[global] Instance PM_bind : MBind PM := λ A B f x m,
  match x m with Ret (a, m') => f a m' | Crash e => Crash e end.

Definition lift {A} (x : res A) : PM A := λ m, a ← x; Ret (a, m).
Definition gets {A} (f : machine → A) : PM A := λ m, Ret (f m, m).
Definition modify (f : machine → machine) : PM unit := λ m, Ret (tt, f m).

(** An entry in memory: a table and an index into it. *)
Definition place : Type := Z * Z.

Definition load (pl : place) : PM Z := λ m,
  match tables m !! pl.1 with
  | None => Crash OutOfBounds
  | Some t => e ← index t pl.2; Ret (e, m)
  end.
Definition save (pl : place) (e : Z) : PM unit := λ m,
  match tables m !! pl.1 with
  | None => Crash OutOfBounds
  | Some t => t' ← Prelude.store t pl.2 e; Ret (tt, m <| tables := <[pl.1 := t']> (tables m) |>)
  end.

Definition entry_flags (pl : place) : PM Z := e ← load pl; mret (flags e).
Definition entry_set_address (pl : place) (a : Z) : PM unit := e ← load pl; e' ← lift (set_address a e); save pl e'.
Definition entry_set_flags (pl : place) (f : Z) : PM unit := e ← load pl; save pl (set_flags f e).
Definition entry_add_flags (pl : place) (f : Z) : PM unit := e ← load pl; save pl (set_flags (Z.lor (flags e) f) e).

(** The table an entry points to. *)
Definition lower_table (pl : place) : PM Z :=
  e ← load pl; off ← gets physical_memory_offset; lift (add_chk U64 (address e) off).

Definition current_page_table : PM Z :=
  off ← gets physical_memory_offset; c ← gets cr3; lift (add_chk U64 off c).

Definition allocate_frame : PM (option Z) := λ m,
  '(f, fa) ← allocate (frame_allocator m); Ret (f, m <| frame_allocator := fa |>).

Definition flush_all : PM unit := modify (λ m, m <| tlb_flushes := tlb_flushes m + 1 |>).

Definition flush_if_current (level_4_page_table : Z) : PM unit :=
  c ← current_page_table;
  if level_4_page_table =? c then flush_all else mret tt.

Definition allocate_lower_level_page_table (pl : place) : PM (option unit) :=
  frame ← allocate_frame;
  match frame with
  | None => mret None
  | Some frame =>
      off ← gets physical_memory_offset;
      lower_level_page_table ← lift (add_chk U64 frame off);
      modify (λ m, m <| tables := <[lower_level_page_table := zeros 512]> (tables m) |>);;
      entry_set_address pl frame;;
      entry_set_flags pl PRESENT;;
      mret (Some tt)
  end.

(** [.expect(...)] *)
Definition expect {A} (x : PM (option A)) : PM A :=
  r ← x; match r with Some a => mret a | None => lift (Crash Panic) end.

Definition assign_propagable_page_flags_to_page_table_entry (pl : place) (page_flags : Z) : PM unit :=
  (if contains page_flags Flags.WRITABLE then entry_add_flags pl WRITABLE else mret tt);;
  (if contains page_flags Flags.USER_MODE_ACCESSIBLE then entry_add_flags pl USER_ACCESSIBLE else mret tt).

(** ** Mapping a page to a frame *)

(** The top level: a missing table is added; there are no huge pages. *)
Definition ensure_table (pl : place) : PM unit :=
  f ← entry_flags pl;
  if contains f PRESENT then mret tt else expect (allocate_lower_level_page_table pl).

(** The middle levels: the entry may be a huge page. *)
Definition ensure_table_or_huge (pl : place) : PM bool :=
  f ← entry_flags pl;
  if contains f PRESENT then
    f ← entry_flags pl;
    mret (contains f HUGE_PAGE)
  else expect (allocate_lower_level_page_table pl);; mret false.

Definition point_leaf (pl : place) (frame : Z) : PM unit :=
  entry_set_address pl frame;; entry_set_flags pl PRESENT.

Definition finish_leaf (pl : place) (page_flags : Z) : PM unit :=
  (if contains page_flags Flags.EXECUTABLE then mret tt else entry_add_flags pl NO_EXECUTE);;
  (if contains page_flags Flags.WRITE_THROUGH then entry_add_flags pl WRITE_THROUGH else mret tt);;
  (if contains page_flags Flags.DISABLE_CACHING then entry_add_flags pl NO_CACHE else mret tt).

Definition map_inner (level_4_page_table page frame page_flags : Z) : PM (unit + MemoryError) :=
  lift (rassert (page =? sign_extend page));;
  lift (rassert (Z.land page 4095 =? 0));;
  let e4 := (level_4_page_table, pte_index 4 page) in
  ensure_table e4;;
  assign_propagable_page_flags_to_page_table_entry e4 page_flags;;
  level_3_page_table ← lower_table e4;
  let e3 := (level_3_page_table, pte_index 3 page) in
  huge ← ensure_table_or_huge e3;
  if (huge : bool) then mret (inr HugePage) else
  assign_propagable_page_flags_to_page_table_entry e3 page_flags;;
  level_2_page_table ← lower_table e3;
  let e2 := (level_2_page_table, pte_index 2 page) in
  huge ← ensure_table_or_huge e2;
  if (huge : bool) then mret (inr HugePage) else
  assign_propagable_page_flags_to_page_table_entry e2 page_flags;;
  level_1_page_table ← lower_table e2;
  let e1 := (level_1_page_table, pte_index 1 page) in
  f ← entry_flags e1;
  if contains f PRESENT then mret (inr AlreadyMapped) else
  point_leaf e1 frame;;
  assign_propagable_page_flags_to_page_table_entry e1 page_flags;;
  finish_leaf e1 page_flags;;
  flush_if_current level_4_page_table;;
  mret (inl tt).

(** ** Removing a mapping *)

Definition clear_entry (pl : place) : PM unit :=
  entry_set_address pl 0;; entry_set_flags pl 0.

Definition canonical (a : Z) : bool :=
  let unused := Z.shiftr a 48 in
  let sign := Z.land (Z.shiftr a 47) 1 in
  ((sign =? 0) && (unused =? 0)) || ((sign =? 1) && (unused =? 0xFFFF)).

Definition unmap_inner (level_4_page_table page : Z) : PM (unit + MemoryError) :=
  lift (rassert (canonical page));;
  let e4 := (level_4_page_table, pte_index 4 page) in
  f ← entry_flags e4;
  if negb (contains f PRESENT) then mret (inr NonExistentMapping) else
  level_3_page_table ← lower_table e4;
  let e3 := (level_3_page_table, pte_index 3 page) in
  f ← entry_flags e3;
  if negb (contains f PRESENT) then mret (inr NonExistentMapping) else
  if contains f HUGE_PAGE then
    lift (rassert (Z.land page (Z.ones 30) =? 0));;
    clear_entry e3;; flush_if_current level_4_page_table;; mret (inl tt)
  else
  level_2_page_table ← lower_table e3;
  let e2 := (level_2_page_table, pte_index 2 page) in
  f ← entry_flags e2;
  if negb (contains f PRESENT) then mret (inr NonExistentMapping) else
  if contains f HUGE_PAGE then
    lift (rassert (Z.land page (Z.ones 21) =? 0));;
    clear_entry e2;; flush_if_current level_4_page_table;; mret (inl tt)
  else
  lift (rassert (Z.land page 4095 =? 0));;
  level_1_page_table ← lower_table e2;
  let e1 := (level_1_page_table, pte_index 1 page) in
  f ← entry_flags e1;
  if negb (contains f PRESENT) then mret (inr NonExistentMapping) else
  clear_entry e1;; flush_if_current level_4_page_table;; mret (inl tt).

(** ** Translation *)

Definition translate_virtual_address_to_physical_for_current_address_space (a : Z) : PM (option Z) :=
  let unused := Z.shiftr a 48 in
  let sign := Z.land (Z.shiftr a 47) 1 in
  if ((sign =? 0) && negb (unused =? 0)) || ((sign =? 1) && negb (unused =? 0xFFFF)) then mret None else
  level_4_page_table ← current_page_table;
  let e4 := (level_4_page_table, pte_index 4 a) in
  f ← entry_flags e4;
  if negb (contains f PRESENT) then mret None else
  level_3_page_table ← lower_table e4;
  let e3 := (level_3_page_table, pte_index 3 a) in
  f ← entry_flags e3;
  if negb (contains f PRESENT) then mret None else
  if contains f HUGE_PAGE then
    e ← load e3; p ← lift (add_chk U64 (address e) (Z.land a (Z.ones 30))); mret (Some p)
  else
  level_2_page_table ← lower_table e3;
  let e2 := (level_2_page_table, pte_index 2 a) in
  f ← entry_flags e2;
  if negb (contains f PRESENT) then mret None else
  if contains f HUGE_PAGE then
    e ← load e2; p ← lift (add_chk U64 (address e) (Z.land a (Z.ones 21))); mret (Some p)
  else
  level_1_page_table ← lower_table e2;
  let e1 := (level_1_page_table, pte_index 1 a) in
  f ← entry_flags e1;
  if negb (contains f PRESENT) then mret None else
  e ← load e1; p ← lift (add_chk U64 (address e) (Z.land a 4095)); mret (Some p).

(** ** Choosing the page *)

(** A [for] loop that may return from the function. *)
Fixpoint first_of {A} (l : list Z) (body : Z → PM (option A)) : PM (option A) :=
  match l with
  | [] => mret None
  | i :: rest => r ← body i; match r with Some a => mret (Some a) | None => first_of rest body end
  end.

Definition page_at (i4 i3 i2 i1 : Z) : Z :=
  sign_extend (Z.lor (Z.lor (Z.lor (Z.shiftl i4 39) (Z.shiftl i3 30)) (Z.shiftl i2 21)) (Z.shiftl i1 12)).

Definition first_page (i4 i3 i2 i1 : Z) : bool := (i4 =? 0) && (i3 =? 0) && (i2 =? 0) && (i1 =? 0).

Definition assign_all (e4 e3 e2 e1 : place) (page_flags : Z) : PM unit :=
  assign_propagable_page_flags_to_page_table_entry e4 page_flags;;
  assign_propagable_page_flags_to_page_table_entry e3 page_flags;;
  assign_propagable_page_flags_to_page_table_entry e2 page_flags;;
  assign_propagable_page_flags_to_page_table_entry e1 page_flags.

(** The innermost loop of [map_any_inner]. *)
Definition take_free_page (i4 i3 i2 : Z) (e4 e3 e2 : place) (level_1_page_table frame page_flags : Z)
  : Z → PM (option Z) := λ i1,
  if first_page i4 i3 i2 i1 then mret None else
  let e1 := (level_1_page_table, i1) in
  f ← entry_flags e1;
  if contains f PRESENT then mret None else
  point_leaf e1 frame;;
  assign_all e4 e3 e2 e1 page_flags;;
  finish_leaf e1 page_flags;;
  page ← lift (Page_new (page_at i4 i3 i2 i1));
  mret (Some page).

Definition search_level_2 (i4 i3 : Z) (e4 e3 : place) (level_2_page_table frame page_flags : Z)
  : Z → PM (option Z) := λ i2,
  let e2 := (level_2_page_table, i2) in
  huge ← ensure_table_or_huge e2;
  if (huge : bool) then mret None else
  level_1_page_table ← lower_table e2;
  first_of (seqZ 0 512) (take_free_page i4 i3 i2 e4 e3 e2 level_1_page_table frame page_flags).

Definition search_level_3 (i4 : Z) (e4 : place) (level_3_page_table frame page_flags : Z)
  : Z → PM (option Z) := λ i3,
  let e3 := (level_3_page_table, i3) in
  huge ← ensure_table_or_huge e3;
  if (huge : bool) then mret None else
  level_2_page_table ← lower_table e3;
  first_of (seqZ 0 512) (search_level_2 i4 i3 e4 e3 level_2_page_table frame page_flags).

Definition search_level_4 (level_4_page_table frame page_flags : Z) : Z → PM (option Z) := λ i4,
  let e4 := (level_4_page_table, i4) in
  ensure_table e4;;
  level_3_page_table ← lower_table e4;
  first_of (seqZ 0 512) (search_level_3 i4 e4 level_3_page_table frame page_flags).

(** The range of top-level indices is [lo..hi]. *)
Definition map_any_inner (level_4_page_table lo hi frame page_flags : Z) : PM Z :=
  expect (first_of (seqZ lo (hi - lo)) (search_level_4 level_4_page_table frame page_flags)).

(** ** Choosing a run of pages *)

(** [current_sequence_start] and [current_sequence_length]. *)
Record sequence := mkSequence { sequence_start : option (Z * Z * Z * Z); sequence_length : Z }.
Definition no_sequence : sequence := mkSequence None 0.

(** A [for] loop that carries the sequence; [inr] is [break 'outer]. *)
Fixpoint scan_of (l : list Z) (body : Z → sequence → PM (sequence + sequence)) (s : sequence)
  : PM (sequence + sequence) :=
  match l with
  | [] => mret (inl s)
  | i :: rest => r ← body i s; match r with inl s' => scan_of rest body s' | inr s' => mret (inr s') end
  end.

Definition reset (s : sequence) : sequence := if 0 <? sequence_length s then no_sequence else s.

Definition scan_page (n i4 i3 i2 level_1_page_table : Z) : Z → sequence → PM (sequence + sequence) := λ i1 s,
  if first_page i4 i3 i2 i1 then mret (inl s) else
  if n <=? sequence_length s then mret (inr s) else
  f ← entry_flags (level_1_page_table, i1);
  if contains f PRESENT then mret (inl (reset s)) else
  let start := if sequence_length s =? 0 then Some (i4, i3, i2, i1) else sequence_start s in
  mret (inl (mkSequence start (sequence_length s + 1))).

Definition scan_level_2 (n i4 i3 level_2_page_table : Z) : Z → sequence → PM (sequence + sequence) := λ i2 s,
  let e2 := (level_2_page_table, i2) in
  huge ← ensure_table_or_huge e2;
  if (huge : bool) then mret (inl (reset s)) else
  level_1_page_table ← lower_table e2;
  scan_of (seqZ 0 512) (scan_page n i4 i3 i2 level_1_page_table) s.

Definition scan_level_3 (n i4 level_3_page_table : Z) : Z → sequence → PM (sequence + sequence) := λ i3 s,
  let e3 := (level_3_page_table, i3) in
  huge ← ensure_table_or_huge e3;
  if (huge : bool) then mret (inl (reset s)) else
  level_2_page_table ← lower_table e3;
  scan_of (seqZ 0 512) (scan_level_2 n i4 i3 level_2_page_table) s.

Definition scan_level_4 (n level_4_page_table : Z) : Z → sequence → PM (sequence + sequence) := λ i4 s,
  let e4 := (level_4_page_table, i4) in
  ensure_table e4;;
  level_3_page_table ← lower_table e4;
  scan_of (seqZ 0 512) (scan_level_3 n i4 level_3_page_table) s.

(** The indices of the page after the given one. *)
Definition next_indices (idx : Z * Z * Z * Z) : res (Z * Z * Z * Z) :=
  let '(i4, i3, i2, i1) := idx in
  if i1 + 1 <? 512 then Ret (i4, i3, i2, i1 + 1) else
  if i2 + 1 <? 512 then Ret (i4, i3, i2 + 1, 0) else
  if i3 + 1 <? 512 then Ret (i4, i3 + 1, 0, 0) else
  if i4 + 1 <? 512 then Ret (i4 + 1, 0, 0, 0) else Crash Panic.

(** One round of the second loop: maps a page to the frame. *)
Definition place_frame (level_4_page_table frame page_flags : Z) (idx : Z * Z * Z * Z) : PM unit :=
  let '(i4, i3, i2, i1) := idx in
  let e4 := (level_4_page_table, i4) in
  level_3_page_table ← lower_table e4;
  let e3 := (level_3_page_table, i3) in
  level_2_page_table ← lower_table e3;
  let e2 := (level_2_page_table, i2) in
  level_1_page_table ← lower_table e2;
  let e1 := (level_1_page_table, i1) in
  point_leaf e1 frame;;
  assign_all e4 e3 e2 e1 page_flags;;
  finish_leaf e1 page_flags.

Fixpoint place_frames (level_4_page_table page_flags n : Z) (steps : nat) (it : FrameRange.Iter)
  (idx : Z * Z * Z * Z) (start_address end_address : Z) : PM (Z * Z) :=
  match steps with
  | O => mret (start_address, end_address)
  | S rest =>
      '(frame, it) ← lift (FrameRange.next it);
      frame ← expect (mret frame);
      place_frame level_4_page_table frame page_flags idx;;
      let '(i4, i3, i2, i1) := idx in
      let start_address := if Z.of_nat steps =? n then page_at i4 i3 i2 i1 else start_address in
      let end_address := if Z.of_nat steps =? 1 then page_at i4 i3 i2 i1 else end_address in
      idx ← lift (next_indices idx);
      place_frames level_4_page_table page_flags n rest it idx start_address end_address
  end.

(** ** The interface *)

Inductive MapTarget := CurrentAddressSpace | CustomAddressSpace (page_table : Z).
Inductive Map :=
| Exact (page frame : Z)
| Identity (page : Z)
| Any (frame lo hi : Z).
Record MapResult := mkMapResult { result_page : Z; result_frame : Z }.

Definition target_table (target : MapTarget) : PM Z :=
  match target with CurrentAddressSpace => current_page_table | CustomAddressSpace page_table => mret page_table end.

Definition map_any_contiguous (target : MapTarget) (lo hi : Z) (frame_range : FrameRange.FrameRange)
  (page_flags : Z) : PM PageRange.PageRange :=
  level_4_page_table ← target_table target;
  n ← lift (FrameRange.n frame_range);
  s ← scan_of (seqZ lo (hi - lo)) (scan_level_4 n level_4_page_table) no_sequence;
  let s := match s with inl s => s | inr s => s end in
  idx ← expect (mret (sequence_start s));
  it ← lift (FrameRange.iter frame_range);
  '(start_address, end_address) ← place_frames level_4_page_table page_flags n (Z.to_nat n) it idx 0 0;
  lift (PageRange.new start_address end_address).

Definition map_impl (target : MapTarget) (map : Map) (page_flags : Z) : PM (MapResult + MemoryError) :=
  page_table ← target_table target;
  match map with
  | Exact page frame =>
      r ← map_inner page_table page frame page_flags;
      mret (match r with inl _ => inl (mkMapResult page frame) | inr e => inr e end)
  | Identity page =>
      frame ← lift (Frame_new page);
      r ← map_inner page_table page frame page_flags;
      mret (match r with inl _ => inl (mkMapResult page frame) | inr e => inr e end)
  | Any frame lo hi =>
      page ← map_any_inner page_table lo hi frame page_flags;
      mret (inl (mkMapResult page frame))
  end.

Definition unmap (target : MapTarget) (page : Z) : PM (unit + MemoryError) :=
  page_table ← target_table target;
  unmap_inner page_table page.

(** [map_temporary] with the closure it runs on the mapping. *)
Definition map_temporary (target : MapTarget) (map : Map) (page_flags : Z) (f : MapResult → PM unit)
  : PM (unit + MemoryError) :=
  r ← map_impl target map page_flags;
  match r with
  | inr e => mret (inr e)
  | inl map_result => f map_result;; unmap target (result_page map_result)
  end.
