(* ===== verification/PageWalk.v ===== *)
(** * Walks through page tables

    What the tables of an address space mean: the table a path of indices
    leads to, what a page is mapped to, and how a change of one entry or a new
    table changes both. *)

From S2P Require Import Prelude Bits Frames PageTable.

(** ** Entries bit by bit *)

(** A word of [PageTableFlags]. *)
Definition flag_word (f : Z) : Prop := Z.land f ALL_FLAGS = f.

Lemma address_mask e : address e = Z.land e (mask 12 48).
Proof. reflexivity. Qed.

Lemma flags_mask e : flags e = Z.land e ALL_FLAGS.
Proof.
  unfold flags. rewrite <- Z.land_assoc. f_equal.
Qed.

Lemma testbit_flags e i : 0 ≤ i → Z.testbit (flags e) i = Z.testbit e i && ((i <? 9) || (i =? 63)).
Proof.
  intros. rewrite flags_mask. unfold ALL_FLAGS. autorewrite with bits.
  by destruct (Z.leb_spec 0 i); [|lia].
Qed.

Lemma testbit_address e i : 0 ≤ i → Z.testbit (address e) i = Z.testbit e i && ((12 <=? i) && (i <? 60)).
Proof. intros. rewrite address_mask. autorewrite with bits. reflexivity. Qed.

Lemma flag_word_bit f i : flag_word f → 0 ≤ i → 9 ≤ i → i ≠ 63 → Z.testbit f i = false.
Proof.
  intros H ? ? ?. rewrite <- H. unfold ALL_FLAGS. autorewrite with bits. bit_cases.
Qed.

Lemma flag_word_flags e : flag_word (flags e).
Proof. unfold flag_word. by rewrite flags_mask, <- Z.land_assoc, Z.land_diag. Qed.

Lemma flag_word_lor f g : flag_word f → flag_word g → flag_word (Z.lor f g).
Proof. unfold flag_word. intros Hf Hg. by rewrite Z.land_lor_distr_l, Hf, Hg. Qed.

Lemma flag_word_64 f : flag_word f → word 64 f.
Proof. intros <-. apply word_land_r; [lia|]. by vm_compute. Qed.

Lemma contains_bit f k : 0 ≤ k → contains f (bit k) = Z.testbit f k.
Proof.
  intros Hk. unfold contains. destruct (Z.testbit f k) eqn:Ht.
  - apply Z.eqb_eq. apply Z.bits_inj'. intros i Hi. autorewrite with bits.
    destruct (Z.eqb_spec i k) as [->|]; [by rewrite Ht|by rewrite andb_false_r].
  - apply Z.eqb_neq. intros He. apply (f_equal (λ x, Z.testbit x k)) in He. revert He.
    rewrite Z.land_spec, Ht, testbit_bit, Z.eqb_refl by lia. done.
Qed.

Lemma contains_flag e k : (0 ≤ k < 9 ∨ k = 63) → contains (flags e) (bit k) = Z.testbit e k.
Proof.
  intros Hk. rewrite contains_bit, testbit_flags by lia.
  destruct (Z.ltb_spec k 9), (Z.eqb_spec k 63); simpl; rewrite ?andb_true_r; done || lia.
Qed.

Lemma contains_present e : contains (flags e) PRESENT = Z.testbit e 0.
Proof. apply contains_flag. lia. Qed.
Lemma contains_huge e : contains (flags e) HUGE_PAGE = Z.testbit e 7.
Proof. apply contains_flag. lia. Qed.

Lemma address_set_flags f e : flag_word f → address (set_flags f e) = address e.
Proof.
  intros Hf. unfold set_flags. apply Z.bits_inj'. intros i Hi.
  rewrite testbit_address, Z.lor_spec, !testbit_address by lia.
  destruct (Z.leb_spec 12 i), (Z.ltb_spec i 60); simpl; rewrite ?andb_false_r, ?andb_true_r; try done.
  rewrite (flag_word_bit f i) by (done || lia). apply orb_false_r.
Qed.

Lemma flags_set_flags f e : flag_word f → flags (set_flags f e) = f.
Proof.
  intros Hf. unfold set_flags. apply Z.bits_inj'. intros i Hi. rewrite testbit_flags, Z.lor_spec, testbit_address by lia.
  destruct (Z.ltb_spec i 9), (Z.eqb_spec i 63), (Z.leb_spec 12 i), (Z.ltb_spec i 60); simpl;
    rewrite ?andb_false_r, ?andb_true_r; try done; try lia; by rewrite (flag_word_bit f i) by (done || lia).
Qed.

(** A frame address that fits an entry. *)
Definition frame_ok (a : Z) : Prop := 0 ≤ a < 2 ^ 52 ∧ a mod FRAME_SIZE = 0.

Lemma frame_low_bits a : Z.land a 4095 = a mod 4096.
Proof. change 4095 with (Z.ones 12). by rewrite Z.land_ones by lia. Qed.

Lemma frame_bit a i : frame_ok a → 0 ≤ i → i < 12 ∨ 52 ≤ i → Z.testbit a i = false.
Proof.
  intros [Hr Ha] Hi [Hlt|Hge].
  - assert (Z.testbit (Z.land a (Z.ones 12)) i = false) as Ht
      by (rewrite Z.land_ones by lia; change (2 ^ 12) with FRAME_SIZE; by rewrite Ha, Z.testbit_0_l).
    rewrite Z.land_spec, testbit_ones in Ht by lia. destruct (Z.ltb_spec i 12); [by rewrite andb_true_r in Ht|lia].
  - by apply (word_high_bit 52).
Qed.

Lemma set_address_ret a e : frame_ok a → set_address a e = Ret (Z.lor a (flags e)).
Proof.
  intros [Hr Ha]. unfold set_address. rewrite frame_low_bits. change 4096 with FRAME_SIZE. rewrite Ha.
  unfold bit. rewrite Z.shiftl_1_l. by destruct (Z.ltb_spec a (2 ^ 52)); [|lia].
Qed.

Lemma address_frame a f : frame_ok a → flag_word f → address (Z.lor a f) = a.
Proof.
  intros Ha Hf. apply Z.bits_inj'. intros i Hi. rewrite testbit_address, Z.lor_spec by lia.
  destruct (Z.leb_spec 12 i), (Z.ltb_spec i 60); simpl; rewrite ?andb_false_r, ?andb_true_r;
    try by rewrite (frame_bit a i) by (done || lia).
  rewrite (flag_word_bit f i) by (done || lia). apply orb_false_r.
Qed.

Lemma flags_frame a f : frame_ok a → flag_word f → flags (Z.lor a f) = f.
Proof.
  intros Ha Hf. apply Z.bits_inj'. intros i Hi. rewrite testbit_flags, Z.lor_spec by lia.
  destruct (Z.ltb_spec i 9), (Z.eqb_spec i 63); simpl; rewrite ?andb_false_r, ?andb_true_r; try lia;
    try by rewrite (frame_bit a i) by (done || lia).
  by rewrite (flag_word_bit f i) by (done || lia).
Qed.

Lemma word_address e : word 64 (address e).
Proof. apply word_land_r; [lia|]. by vm_compute. Qed.

Lemma word_frame a f : frame_ok a → flag_word f → word 64 (Z.lor a f).
Proof.
  intros [Hr _] Hf. apply word_lor; [lia| |by apply flag_word_64]. by apply (word_wider 52); [lia|].
Qed.

Lemma word_set_flags f e : flag_word f → word 64 (set_flags f e).
Proof. intros. apply word_lor; [lia|apply word_address|by apply flag_word_64]. Qed.

Lemma flag_word_const : flag_word 0 ∧ flag_word PRESENT ∧ flag_word WRITABLE ∧ flag_word USER_ACCESSIBLE ∧
  flag_word WRITE_THROUGH ∧ flag_word NO_CACHE ∧ flag_word NO_EXECUTE.
Proof. by vm_compute. Qed.

(** ** Tables *)

Definition entry (T : gmap Z (list Z)) (p i : Z) : option Z :=
  if i <? 0 then None else t ← T !! p; t !! Z.to_nat i.
Definition put (T : gmap Z (list Z)) (p i e : Z) : gmap Z (list Z) :=
  alter (λ t, <[Z.to_nat i := e]> t) p T.

(** The middle levels may hold huge pages. *)
Definition huge_at (level : nat) (e : Z) : bool :=
  (bool_decide (level = 3%nat) || bool_decide (level = 2%nat)) && Z.testbit e 7.

(** An entry of the given level that points to a table. *)
Definition links (level : nat) (e : Z) : bool := Z.testbit e 0 && negb (huge_at level e).

(** What a page is mapped to: nothing, or an entry of the given level. *)
Inductive mapping := Unmapped | Mapped (level : nat) (e : Z).

Section Walk.
Context (off : Z).

(** The table a path of indices leads to, from a table of the given level. *)
Fixpoint walk (T : gmap Z (list Z)) (level : nat) (p : Z) (π : list Z) : option Z :=
  match π with
  | [] => Some p
  | i :: rest =>
      match entry T p i with
      | Some e => if links level e then walk T (level - 1) (address e + off) rest else None
      | None => None
      end
  end.

(** What a full path of indices is mapped to; [None] if a pointer dangles. *)
Fixpoint resolve (T : gmap Z (list Z)) (level : nat) (p : Z) (π : list Z) : option mapping :=
  match π with
  | [] => None
  | i :: rest =>
      match entry T p i with
      | Some e =>
          if Z.testbit e 0 then
            match rest with
            | [] => Some (Mapped level e)
            | _ => if huge_at level e then Some (Mapped level e) else resolve T (level - 1) (address e + off) rest
            end
          else Some Unmapped
      | None => None
      end
  end.

(** An address space: every path leads to a table of 512 words, each path to
    its own. *)
Record space (T : gmap Z (list Z)) (root : Z) : Prop := {
  space_table : ∀ π p, walk T 4 root π = Some p → (length π ≤ 3)%nat →
    0 ≤ p < U64 ∧ ∃ t, T !! p = Some t ∧ length t = 512%nat ∧ Forall (word 64) t;
  space_inj : ∀ π π' p, walk T 4 root π = Some p → walk T 4 root π' = Some p →
    (length π ≤ 3)%nat → (length π' ≤ 3)%nat → π = π'
}.

(** Indices of a page. *)
Definition indices (π : list Z) : Prop := Forall (λ i, 0 ≤ i < 512) π.

Lemma entry_put T p i e q j : entry T p i ≠ None → 0 ≤ j →
  entry (put T p i e) q j = if decide (q = p ∧ j = i) then Some e else entry T q j.
Proof.
  unfold entry, put. intros Hin Hj. destruct (Z.ltb_spec i 0); [done|]. destruct (Z.ltb_spec j 0); [lia|].
  destruct (T !! p) as [t|] eqn:Ht; [|done]. cbn [mbind option_bind] in Hin.
  destruct (decide (q = p)) as [->|Hne].
  - rewrite lookup_alter_eq, Ht. cbn [fmap option_fmap option_map mbind option_bind].
    destruct (decide (j = i)) as [->|Hji].
    + rewrite decide_True by done. apply list_lookup_insert_eq. by apply lookup_lt_is_Some, not_eq_None_Some.
    + rewrite decide_False by naive_solver. apply list_lookup_insert_ne. lia.
  - rewrite lookup_alter_ne by done. by rewrite decide_False by naive_solver.
Qed.

Lemma entry_nonneg T p i e : entry T p i = Some e → 0 ≤ i.
Proof. unfold entry. destruct (Z.ltb_spec i 0); [done|lia]. Qed.

Lemma walk_app T level p π π' :
  walk T level p (π ++ π') = q ← walk T level p π; walk T (level - length π) q π'.
Proof.
  revert level p. induction π as [|i π IH]; intros level p; cbn [walk app length].
  - by rewrite Nat.sub_0_r.
  - destruct (entry T p i) as [e|]; [|done]. destruct (links level e); [|done].
    rewrite IH. by replace (level - 1 - length π)%nat with (level - S (length π))%nat by lia.
Qed.

Lemma resolve_app T level p π π' q : walk T level p π = Some q → π' ≠ [] →
  resolve T level p (π ++ π') = resolve T (level - length π) q π'.
Proof.
  revert level p. induction π as [|i π IH]; intros level p Hw Hn; cbn [walk app length] in *.
  - simplify_eq. by rewrite Nat.sub_0_r.
  - cbn [resolve]. destruct (entry T p i) as [e|]; [|done]. destruct (links level e) eqn:Hl; [|done].
    unfold links in Hl. apply andb_true_iff in Hl as [-> Hh]. apply negb_true_iff in Hh. rewrite Hh.
    destruct (π ++ π') eqn:Ha; [by apply app_eq_nil in Ha as [_ ?]|]. rewrite (IH _ _ Hw Hn).
    f_equal. lia.
Qed.

Lemma walk_snoc T root π p i e : walk T 4 root π = Some p → (length π ≤ 3)%nat → entry T p i = Some e →
  walk T 4 root (π ++ [i]) = if links (4 - length π) e then Some (address e + off) else None.
Proof. intros Hw Hl He. rewrite walk_app, Hw. cbn [mbind option_bind walk]. by rewrite He. Qed.

(** *** A change of one entry *)

(** [T'] has the entry at index [j] of the table of the path [ρ] changed from
    [e] to [e']. *)
Section Change.
Context (T : gmap Z (list Z)) (root : Z) (ρ : list Z) (q j e e' : Z).
Hypothesis Hsp : space T root.
Hypothesis Hq : walk T 4 root ρ = Some q.
Hypothesis Hlen : (length ρ ≤ 3)%nat.
Hypothesis He : entry T q j = Some e.
Let T' := put T q j e'.

Lemma entry_change c i : 0 ≤ i → entry T' c i = if decide (c = q ∧ i = j) then Some e' else entry T c i.
Proof. intros. unfold T'. apply entry_put; [by rewrite He|assumption]. Qed.

(** A path that has left the changed entry behind, or never comes to it. *)
Definition clear_of (σ rest : list Z) : Prop := (length ρ < length σ)%nat ∨ ¬ (ρ ++ [j]) `prefix_of` (σ ++ rest).

Lemma clear_of_step σ i rest c : walk T 4 root σ = Some c → (length σ ≤ 3)%nat → clear_of σ (i :: rest) →
  ¬ (c = q ∧ i = j) ∧ clear_of (σ ++ [i]) rest.
Proof.
  intros Hw Hl Hc. split.
  - intros [-> ->]. assert (σ = ρ) as -> by by eapply space_inj.
    destruct Hc as [Hc|Hc]; [lia|]. apply Hc. exists rest. by rewrite <- app_assoc.
  - destruct Hc as [Hc|Hc]; [left; rewrite length_app; simpl; lia|].
    right. by rewrite <- app_assoc.
Qed.

Lemma walk_change σ c rest : walk T 4 root σ = Some c → (length σ + length rest ≤ 3)%nat → clear_of σ rest →
  walk T' (4 - length σ) c rest = walk T (4 - length σ) c rest.
Proof.
  revert σ c. induction rest as [|i rest IH]; intros σ c Hw Hl Hc; cbn [walk]; [done|]. cbn [length] in Hl.
  destruct (clear_of_step σ i rest c) as [Hn Hc']; [done|lia|done|].
  destruct (entry T c i) as [f|] eqn:Hf.
  - rewrite entry_change, decide_False, Hf by (done || by eapply entry_nonneg).
    destruct (links (4 - length σ) f) eqn:Hk; [|done].
    specialize (IH (σ ++ [i]) (address f + off)). rewrite length_app in IH. cbn [length] in IH.
    replace (4 - (length σ + 1))%nat with (4 - length σ - 1)%nat in IH by lia. apply IH; [|lia|done].
    erewrite walk_snoc by (done || lia). by rewrite Hk.
  - destruct (decide (0 ≤ i)); [by rewrite entry_change, decide_False, Hf|].
    unfold entry. by destruct (Z.ltb_spec i 0); [|lia].
Qed.

Lemma resolve_change σ c rest : walk T 4 root σ = Some c → (length σ + length rest ≤ 4)%nat → clear_of σ rest →
  resolve T' (4 - length σ) c rest = resolve T (4 - length σ) c rest.
Proof.
  revert σ c. induction rest as [|i rest IH]; intros σ c Hw Hl Hc; cbn [resolve]; [done|]. cbn [length] in Hl.
  destruct (clear_of_step σ i rest c) as [Hn Hc']; [done|lia|done|].
  destruct (entry T c i) as [f|] eqn:Hf.
  - rewrite entry_change, decide_False, Hf by (done || by eapply entry_nonneg).
    destruct (Z.testbit f 0) eqn:Hp; [|done]. destruct rest as [|k rest]; [done|].
    destruct (huge_at (4 - length σ) f) eqn:Hh; [done|].
    specialize (IH (σ ++ [i]) (address f + off)). rewrite length_app in IH. cbn [length] in *.
    replace (4 - (length σ + 1))%nat with (4 - length σ - 1)%nat in IH by lia. apply IH; [|lia|done].
    erewrite walk_snoc by (done || lia). unfold links. by rewrite Hp, Hh.
  - destruct (decide (0 ≤ i)); [by rewrite entry_change, decide_False, Hf|].
    unfold entry. by destruct (Z.ltb_spec i 0); [|lia].
Qed.

Lemma not_prefix_short π : (length π ≤ length ρ)%nat → ¬ (ρ ++ [j]) `prefix_of` π.
Proof. intros Hl [k Hk]. apply (f_equal length) in Hk. rewrite !length_app in Hk. simpl in Hk. lia. Qed.

(** The changed entry is still found at the end of the path. *)
Lemma walk_change_to : walk T' 4 root ρ = Some q.
Proof.
  rewrite <- Hq. apply (walk_change [] root ρ); [done|simpl; lia|]. right. by apply not_prefix_short.
Qed.

Lemma walk_change_other π : (length π ≤ 3)%nat → ¬ (ρ ++ [j]) `prefix_of` π → walk T' 4 root π = walk T 4 root π.
Proof. intros. apply (walk_change [] root π); [done|simpl; lia|by right]. Qed.

Lemma resolve_change_other π : (length π ≤ 4)%nat → ¬ (ρ ++ [j]) `prefix_of` π →
  resolve T' 4 root π = resolve T 4 root π.
Proof. intros. apply (resolve_change [] root π); [done|simpl; lia|by right]. Qed.

(** Beyond the changed entry. *)
Lemma walk_change_through rest : (length ρ + length rest ≤ 2)%nat →
  walk T' 4 root (ρ ++ j :: rest) =
  if links (4 - length ρ) e' then walk T' (4 - length ρ - 1) (address e' + off) rest else None.
Proof.
  intros. rewrite walk_app, walk_change_to. cbn [mbind option_bind walk].
  rewrite entry_change, decide_True by (done || by eapply entry_nonneg). done.
Qed.

Lemma resolve_change_through rest : 
  resolve T' 4 root (ρ ++ j :: rest) =
  if Z.testbit e' 0 then
    match rest with
    | [] => Some (Mapped (4 - length ρ) e')
    | _ => if huge_at (4 - length ρ) e' then Some (Mapped (4 - length ρ) e')
           else resolve T' (4 - length ρ - 1) (address e' + off) rest
    end
  else Some Unmapped.
Proof.
  rewrite (resolve_app _ _ _ _ _ q walk_change_to) by done. cbn [resolve].
  rewrite entry_change, decide_True by (done || by eapply entry_nonneg). done.
Qed.

(** If no path changes, the tables are still an address space. *)
Lemma space_change : word 64 e' → (∀ π, (length π ≤ 3)%nat → walk T' 4 root π = walk T 4 root π) → space T' root.
Proof.
  intros He' Hw. constructor.
  - intros π p Hp Hl. rewrite Hw in Hp by done. destruct (space_table _ _ Hsp π p Hp Hl) as (Hr & t & Ht & Hlt & Hf).
    split; [done|]. destruct (decide (p = q)) as [->|Hne].
    + exists (<[Z.to_nat j := e']> t). unfold T', put. rewrite lookup_alter_eq, Ht. split_and!; [done| |].
      * by rewrite length_insert.
      * by apply Forall_insert.
    + exists t. unfold T', put. by rewrite lookup_alter_ne.
  - intros π π' p H1 H2 L1 L2. rewrite Hw in H1, H2 by done. by eapply space_inj.
Qed.

(** New flags on an entry that keeps pointing to its table. *)
Lemma walk_relink π : (length ρ ≤ 2)%nat → links (4 - length ρ) e' = links (4 - length ρ) e →
  (links (4 - length ρ) e = true → address e' = address e) →
  (length π ≤ 3)%nat → walk T' 4 root π = walk T 4 root π.
Proof.
  intros Hl2 Hk Ha Hp. destruct (decide ((ρ ++ [j]) `prefix_of` π)) as [[rest ->]|Hn]; [|by apply walk_change_other].
  rewrite <- app_assoc in *. rewrite !length_app in Hp. cbn [app length] in *.
  rewrite walk_change_through by lia. rewrite Hk.
  rewrite walk_app, Hq. cbn [mbind option_bind walk]. rewrite He.
  destruct (links (4 - length ρ) e) eqn:Hke; [|done]. rewrite Ha by done.
  replace (4 - length ρ - 1)%nat with (4 - length (ρ ++ [j]))%nat by (rewrite length_app; simpl; lia).
  apply walk_change; [|rewrite length_app; simpl; lia|left; rewrite length_app; simpl; lia].
  erewrite walk_snoc by (done || lia). by rewrite Hke.
Qed.

Lemma resolve_relink π : (length ρ ≤ 2)%nat → links (4 - length ρ) e = true → links (4 - length ρ) e' = true →
  address e' = address e → length π = 4%nat → resolve T' 4 root π = resolve T 4 root π.
Proof.
  intros Hl2 Hk Hk' Ha Hp. destruct (decide ((ρ ++ [j]) `prefix_of` π)) as [[rest ->]|Hn]; [|apply resolve_change_other; [lia|done]].
  rewrite <- app_assoc in *. rewrite !length_app in Hp. cbn [app length] in *.
  rewrite resolve_change_through, (resolve_app _ _ _ _ _ q Hq) by done. cbn [resolve]. rewrite He.
  unfold links in Hk, Hk'. apply andb_true_iff in Hk as [Hp1 Hh1%negb_true_iff].
  apply andb_true_iff in Hk' as [Hp2 Hh2%negb_true_iff]. rewrite Hp1, Hh1, Hp2, Hh2, Ha.
  destruct rest as [|k rest]; [simpl in Hp; lia|].
  replace (4 - length ρ - 1)%nat with (4 - length (ρ ++ [j]))%nat by (rewrite length_app; simpl; lia).
  apply resolve_change; [|rewrite length_app; simpl in *; lia|left; rewrite length_app; simpl; lia].
  erewrite walk_snoc by (done || lia). unfold links. by rewrite Hp1, Hh1.
Qed.

(** A new entry in a table of the last level. *)
Lemma walk_leaf π : length ρ = 3%nat → (length π ≤ 3)%nat → walk T' 4 root π = walk T 4 root π.
Proof.
  intros Hl3 Hp. apply walk_change_other; [done|]. apply not_prefix_short. lia.
Qed.

Lemma resolve_leaf π : length ρ = 3%nat → length π = 4%nat →
  resolve T' 4 root π =
  if decide (π = ρ ++ [j]) then Some (if Z.testbit e' 0 then Mapped 1 e' else Unmapped) else resolve T 4 root π.
Proof.
  intros Hl3 Hp. case_decide as Hd.
  - subst π. rewrite resolve_change_through, Hl3. by destruct (Z.testbit e' 0).
  - apply resolve_change_other; [lia|]. intros [rest ->]. apply Hd.
    rewrite !length_app, Hl3 in Hp. simpl in Hp. destruct rest; [by rewrite app_nil_r|simpl in Hp; lia].
Qed.

(** An entry cleared: nothing behind it is mapped any more. *)
Lemma resolve_cleared π : Z.testbit e' 0 = false → (length π ≤ 4)%nat →
  resolve T' 4 root π = if decide ((ρ ++ [j]) `prefix_of` π) then Some Unmapped else resolve T 4 root π.
Proof.
  intros Hp Hl. case_decide as Hd; [|by apply resolve_change_other].
  destruct Hd as [rest ->]. rewrite <- app_assoc. cbn [app]. by rewrite resolve_change_through, Hp.
Qed.
End Change.

(** *** A new table *)

Section Fresh.
Context (T : gmap Z (list Z)) (root fresh : Z) (z : list Z).
Hypothesis Hsp : space T root.
Hypothesis Hf : T !! fresh = None.
Let T' := <[fresh := z]> T.

Lemma fresh_entry σ c i : walk T 4 root σ = Some c → (length σ ≤ 3)%nat → entry T' c i = entry T c i.
Proof.
  intros Hw Hl. destruct (space_table _ _ Hsp σ c Hw Hl) as (_ & t & Ht & _). unfold entry, T'.
  by rewrite lookup_insert_ne by (intros ->; congruence).
Qed.

Lemma walk_fresh σ c rest : walk T 4 root σ = Some c → (length σ + length rest ≤ 3)%nat →
  walk T' (4 - length σ) c rest = walk T (4 - length σ) c rest.
Proof.
  revert σ c. induction rest as [|i rest IH]; intros σ c Hw Hl; cbn [walk]; [done|]. cbn [length] in Hl.
  rewrite (fresh_entry σ) by (done || lia). destruct (entry T c i) as [f|] eqn:Hi; [|done].
  destruct (links (4 - length σ) f) eqn:Hk; [|done].
  replace (4 - length σ - 1)%nat with (4 - length (σ ++ [i]))%nat by (rewrite length_app; simpl; lia).
  apply IH; [|rewrite length_app; simpl; lia]. erewrite walk_snoc by (done || lia). by rewrite Hk.
Qed.

Lemma resolve_fresh σ c rest : walk T 4 root σ = Some c → (length σ + length rest ≤ 4)%nat →
  resolve T' (4 - length σ) c rest = resolve T (4 - length σ) c rest.
Proof.
  revert σ c. induction rest as [|i rest IH]; intros σ c Hw Hl; cbn [resolve]; [done|]. cbn [length] in Hl.
  rewrite (fresh_entry σ) by (done || lia). destruct (entry T c i) as [f|] eqn:Hi; [|done].
  destruct (Z.testbit f 0) eqn:Hp; [|done]. destruct rest as [|k rest]; [done|].
  destruct (huge_at (4 - length σ) f) eqn:Hh; [done|].
  replace (4 - length σ - 1)%nat with (4 - length (σ ++ [i]))%nat by (rewrite length_app; simpl; lia).
  apply IH; [|rewrite length_app; simpl in *; lia]. erewrite walk_snoc by (done || lia). unfold links. by rewrite Hp, Hh.
Qed.

Lemma space_fresh : space T' root ∧
  (∀ π, (length π ≤ 3)%nat → walk T' 4 root π = walk T 4 root π) ∧
  (∀ π, (length π ≤ 4)%nat → resolve T' 4 root π = resolve T 4 root π).
Proof.
  assert (Hw : ∀ π, (length π ≤ 3)%nat → walk T' 4 root π = walk T 4 root π)
    by (intros π Hl; by apply (walk_fresh [] root π)).
  split_and!; [|done|intros π Hl; by apply (resolve_fresh [] root π)].
  constructor.
  - intros π p Hp Hl. rewrite Hw in Hp by done. destruct (space_table _ _ Hsp π p Hp Hl) as (Hr & t & Ht & Hlt & Hft).
    split; [done|]. exists t. unfold T'. rewrite lookup_insert_ne by (intros ->; congruence). done.
  - intros π π' p H1 H2 L1 L2. rewrite Hw in H1, H2 by done. by eapply space_inj.
Qed.
End Fresh.

(** An absent entry that now points to a new, empty table. *)
Section NewTable.
Context (T : gmap Z (list Z)) (root : Z) (ρ : list Z) (q j e e' fresh : Z).
Hypothesis Hsp : space T root.
Hypothesis Hq : walk T 4 root ρ = Some q.
Hypothesis Hlen : (length ρ ≤ 2)%nat.
Hypothesis He : entry T q j = Some e.
Hypothesis Habs : Z.testbit e 0 = false.
Hypothesis Hf : T !! fresh = None.
Hypothesis Hrange : 0 ≤ fresh < U64.
Hypothesis Hlink : links (4 - length ρ) e' = true.
Hypothesis Haddr : address e' + off = fresh.
Hypothesis Hword : word 64 e'.
Let T1 := <[fresh := zeros 512]> T.
Let T' := put T1 q j e'.

Lemma nt_before : space T1 root ∧ walk T1 4 root ρ = Some q ∧ entry T1 q j = Some e.
Proof.
  destruct (space_fresh T root fresh (zeros 512) Hsp Hf) as (Hs1 & Hw1 & _).
  split_and!; [done|by rewrite Hw1 by lia|]. unfold T1. by rewrite (fresh_entry _ _ _ _ Hsp Hf ρ) by (done || lia).
Qed.

Lemma nt_not_root : fresh ≠ q.
Proof. destruct (space_table _ _ Hsp ρ q Hq ltac:(lia)) as (_ & t & Ht & _). intros <-. congruence. Qed.

Lemma nt_zero i : 0 ≤ i < 512 → entry T' fresh i = Some 0.
Proof.
  intros Hi. destruct nt_before as (_ & _ & He1). unfold T'. rewrite entry_put by (congruence || lia).
  rewrite decide_False by (intros [? _]; by apply nt_not_root). unfold entry, T1. rewrite lookup_insert_eq.
  destruct (Z.ltb_spec i 0); [lia|]. cbn [mbind option_bind]. unfold zeros. apply lookup_replicate. split; [done|lia].
Qed.

(** The one new path is the one through the entry. *)
Lemma walk_new π : (length π ≤ 3)%nat →
  walk T' 4 root π = if decide (π = ρ ++ [j]) then Some fresh else walk T 4 root π.
Proof.
  intros Hl. destruct nt_before as (Hs1 & Hq1 & He1).
  destruct (space_fresh T root fresh (zeros 512) Hsp Hf) as (_ & Hw1 & _).
  destruct (decide ((ρ ++ [j]) `prefix_of` π)) as [[rest ->]|Hn].
  - rewrite <- app_assoc. cbn [app]. rewrite !length_app in Hl. cbn [length] in Hl.
    unfold T'. rewrite (walk_change_through T1 root ρ q j e e') by (done || lia). rewrite Hlink, Haddr. fold T'.
    destruct rest as [|k rest]; cbn [walk]; [by rewrite decide_True|].
    rewrite decide_False by (intros Hx%app_inv_head; simplify_eq).
    rewrite walk_app, Hq. cbn [mbind option_bind walk]. rewrite He. unfold links at 2. rewrite Habs.
    destruct (entry T' fresh k) as [x|] eqn:Hx; [|done].
    assert (x = 0) as ->; [|done].
    assert (0 ≤ k) by by eapply entry_nonneg.
    destruct (decide (k < 512)); [rewrite nt_zero in Hx by lia; by simplify_eq|].
    unfold T' in Hx. rewrite entry_put in Hx by (congruence || done). rewrite decide_False in Hx by (intros [? _]; by apply nt_not_root).
    unfold entry, T1 in Hx. rewrite lookup_insert_eq in Hx. destruct (Z.ltb_spec k 0); [done|]. cbn [mbind option_bind] in Hx.
    unfold zeros in Hx. apply lookup_replicate in Hx as [-> ?]. done.
  - unfold T'. rewrite (walk_change_other T1 root ρ q j e e') by (done || lia). unfold T1. rewrite Hw1 by done.
    rewrite decide_False; [done|]. intros ->. by apply Hn.
Qed.

Lemma resolve_new π : length π = 4%nat → indices π → resolve T' 4 root π = resolve T 4 root π.
Proof.
  intros Hl Hi. destruct nt_before as (Hs1 & Hq1 & He1).
  destruct (space_fresh T root fresh (zeros 512) Hsp Hf) as (_ & _ & Hr1).
  destruct (decide ((ρ ++ [j]) `prefix_of` π)) as [[rest ->]|Hn].
  - rewrite <- app_assoc in *. cbn [app] in *. rewrite !length_app in Hl. cbn [length] in Hl.
    unfold T'. rewrite (resolve_change_through T1 root ρ q j e e') by (done || lia). fold T'.
    unfold links in Hlink. apply andb_true_iff in Hlink as [-> ->%negb_true_iff]. rewrite Haddr.
    rewrite (resolve_app _ _ _ _ _ q Hq) by done. cbn [resolve]. rewrite He, Habs.
    destruct rest as [|k rest]; [simpl in Hl; lia|]. cbn [resolve].
    apply Forall_app in Hi as [_ Hi]. apply Forall_cons in Hi as [_ Hi]. apply Forall_cons in Hi as [Hk _].
    by rewrite nt_zero.
  - unfold T'. rewrite (resolve_change_other T1 root ρ q j e e') by (done || lia). unfold T1. apply Hr1. lia.
Qed.

Lemma space_new : space T' root.
Proof.
  constructor.
  - intros π p Hp Hl. rewrite walk_new in Hp by done. case_decide as Hd.
    + apply (inj Some) in Hp as <-. split; [done|]. exists (zeros 512). unfold T', put.
      rewrite lookup_alter_ne by (intros ?; by apply nt_not_root). unfold T1. rewrite lookup_insert_eq. split_and!; [done| |].
      * unfold zeros. by rewrite length_replicate.
      * apply Forall_replicate. unfold word. lia.
    + destruct (space_table _ _ Hsp π p Hp Hl) as (Hr & t & Ht & Hlt & Hft). split; [done|].
      assert (fresh ≠ p) by (intros ->; congruence). unfold T', put.
      destruct (decide (p = q)) as [->|Hne].
      * exists (<[Z.to_nat j := e']> t). rewrite lookup_alter_eq. unfold T1. rewrite lookup_insert_ne, Ht by done.
        split_and!; [done|by rewrite length_insert|by apply Forall_insert].
      * exists t. rewrite lookup_alter_ne by done. unfold T1. by rewrite lookup_insert_ne.
  - intros π π' p H1 H2 L1 L2. rewrite walk_new in H1, H2 by done. repeat case_decide; subst; [done|..|by eapply space_inj].
    + apply (inj Some) in H2 as <-. destruct (space_table _ _ Hsp π _ H1 L1) as (_ & t & Ht & _). congruence.
    + apply (inj Some) in H1 as <-. destruct (space_table _ _ Hsp π' _ H2 L2) as (_ & t & Ht & _). congruence.
Qed.
End NewTable.
End Walk.
