(* ===== verification/PageMap.v ===== *)
(** * Mapping, unmapping and translating pages

    The operations of [MemoryManager] on one page, against what the tables
    mean: [map_inner] adds the one mapping it is asked for, [unmap_inner]
    removes it, every other page keeps its own, and translation agrees with
    both. *)

From S2P Require Import Prelude Bits Frames PageTable PageWalk.

(** ** Reasoning about operations *)

Definition runs {A} (x : PM A) (m : machine) (Q : A → machine → Prop) : Prop :=
  returns (x m) (λ '(a, m'), Q a m').

Lemma runs_ret {A} (a : A) m (Q : A → machine → Prop) : Q a m → runs (mret a) m Q.
Proof. intros HQ. exists (a, m). done. Qed.

Lemma runs_bind {A B} (x : PM A) (f : A → PM B) m P Q :
  runs x m P → (∀ a m', P a m' → runs (f a) m' Q) → runs (x ≫= f) m Q.
Proof. intros ([a m'] & E & HP) Hf. unfold runs, mbind, PM_bind. rewrite E. by apply Hf. Qed.

Lemma runs_mono {A} (x : PM A) m (P Q : A → machine → Prop) :
  runs x m P → (∀ a m', P a m' → Q a m') → runs x m Q.
Proof. intros ([a m'] & E & HP) Hi. exists (a, m'). auto. Qed.

Lemma runs_step {A B} (x : PM A) (f : A → PM B) m a m' Q :
  x m = Ret (a, m') → runs (f a) m' Q → runs (x ≫= f) m Q.
Proof. intros E Hf. unfold runs, mbind, PM_bind. by rewrite E. Qed.

Lemma runs_lift {A B} (x : res A) (f : A → PM B) m a Q : x = Ret a → runs (f a) m Q → runs (lift x ≫= f) m Q.
Proof. by intros ->. Qed.

Lemma runs_gets {A B} (g : machine → A) (f : A → PM B) m Q : runs (f (g m)) m Q → runs (gets g ≫= f) m Q.
Proof. done. Qed.

Lemma runs_assoc {A B C} (x : PM A) (f : A → PM B) (g : B → PM C) m Q :
  runs (x ≫= λ a, f a ≫= g) m Q → runs ((x ≫= f) ≫= g) m Q.
Proof. unfold runs, mbind, PM_bind. destruct (x m) as [[a m']|]; done. Qed.

Lemma bind_step {A B} (x : PM A) (f : A → PM B) m a m' : x m = Ret (a, m') → (x ≫= f) m = f a m'.
Proof. intros E. unfold mbind, PM_bind. by rewrite E. Qed.

Lemma lift_step {A B} (x : res A) (f : A → PM B) m a : x = Ret a → (lift x ≫= f) m = f a m.
Proof. by intros ->. Qed.

(** ** Entries in memory *)

Abbreviation offset := physical_memory_offset.

Lemma load_entry m p i e : entry (tables m) p i = Some e → load (p, i) m = Ret (e, m).
Proof.
  unfold entry, load. cbn [fst snd]. destruct (Z.ltb_spec i 0); [done|].
  destruct (tables m !! p) as [t|]; [|done]. cbn [mbind option_bind]. intros He.
  unfold index. destruct (Z.ltb_spec i 0); [lia|]. by rewrite He.
Qed.

Lemma save_entry m p i e e' : entry (tables m) p i = Some e →
  save (p, i) e' m = Ret (tt, m <| tables := put (tables m) p i e' |>).
Proof.
  unfold entry, save, put. cbn [fst snd]. destruct (Z.ltb_spec i 0); [done|].
  destruct (tables m !! p) as [t|] eqn:Ht; [|done]. cbn [mbind option_bind]. intros He.
  apply lookup_lt_Some in He. rewrite store_as_insert by (unfold zlen; lia). cbn [mbind res_bind].
  assert (<[p := <[Z.to_nat i := e']> t]> (tables m) = alter (λ t, <[Z.to_nat i := e']> t) p (tables m)) as ->; [|done].
  apply map_eq. intros q. destruct (decide (q = p)) as [->|Hne].
  - by rewrite lookup_alter_eq, Ht, lookup_insert_eq.
  - by rewrite lookup_alter_ne, lookup_insert_ne.
Qed.

Lemma entry_put_eq T p i e e' : entry T p i = Some e → entry (put T p i e') p i = Some e'.
Proof.
  intros He. rewrite entry_put by (congruence || by eapply entry_nonneg). by rewrite decide_True.
Qed.

Lemma put_put T p i e e' : put (put T p i e) p i e' = put T p i e'.
Proof.
  unfold put. apply map_eq. intros q. destruct (decide (q = p)) as [->|Hne].
  - rewrite !lookup_alter_eq. destruct (T !! p) as [t|]; [|done]. cbn. f_equal. apply list_insert_insert_eq.
  - by rewrite !lookup_alter_ne.
Qed.

(** The operations on an entry, on the word it holds. *)
Section EntryOps.
Context (m : machine) (p i e : Z).
Hypothesis He : entry (tables m) p i = Some e.

Lemma entry_flags_step : entry_flags (p, i) m = Ret (flags e, m).
Proof. unfold entry_flags. by rewrite (bind_step _ _ _ e m) by by apply load_entry. Qed.

Lemma entry_add_flags_step f :
  entry_add_flags (p, i) f m = Ret (tt, m <| tables := put (tables m) p i (set_flags (Z.lor (flags e) f) e) |>).
Proof.
  unfold entry_add_flags. rewrite (bind_step _ _ _ e m) by by apply load_entry. by erewrite save_entry.
Qed.

Lemma entry_set_flags_step f :
  entry_set_flags (p, i) f m = Ret (tt, m <| tables := put (tables m) p i (set_flags f e) |>).
Proof.
  unfold entry_set_flags. rewrite (bind_step _ _ _ e m) by by apply load_entry. by erewrite save_entry.
Qed.

Lemma entry_set_address_step a : frame_ok a →
  entry_set_address (p, i) a m = Ret (tt, m <| tables := put (tables m) p i (Z.lor a (flags e)) |>).
Proof.
  intros Ha. unfold entry_set_address. rewrite (bind_step _ _ _ e m) by by apply load_entry.
  rewrite (lift_step _ _ _ (Z.lor a (flags e))) by by apply set_address_ret. by erewrite save_entry.
Qed.

Lemma lower_table_step : 0 ≤ address e + offset m < U64 → lower_table (p, i) m = Ret (address e + offset m, m).
Proof.
  intros Hr. unfold lower_table. rewrite (bind_step _ _ _ e m) by by apply load_entry.
  rewrite (bind_step _ _ _ (offset m) m) by done. unfold lift. by rewrite add_chk_ret.
Qed.
End EntryOps.

Lemma tables_update m T : tables (m <| tables := T |>) = T.
Proof. reflexivity. Qed.
Lemma update_twice m T T' : m <| tables := T |> <| tables := T' |> = m <| tables := T' |>.
Proof. reflexivity. Qed.

(** Flags added to an entry leave its address. *)
Definition add_flags (f e : Z) : Z := set_flags (Z.lor (flags e) f) e.

Definition propagate (pf e : Z) : Z :=
  let e := if contains pf Flags.WRITABLE then add_flags WRITABLE e else e in
  if contains pf Flags.USER_MODE_ACCESSIBLE then add_flags USER_ACCESSIBLE e else e.
Definition finish (pf e : Z) : Z :=
  let e := if contains pf Flags.EXECUTABLE then e else add_flags NO_EXECUTE e in
  let e := if contains pf Flags.WRITE_THROUGH then add_flags WRITE_THROUGH e else e in
  if contains pf Flags.DISABLE_CACHING then add_flags NO_CACHE e else e.

Lemma put_same T p i e : entry T p i = Some e → put T p i e = T.
Proof.
  unfold entry, put. destruct (Z.ltb_spec i 0); [done|]. intros He. apply map_eq. intros q.
  destruct (decide (q = p)) as [->|Hne]; [|by rewrite lookup_alter_ne].
  rewrite lookup_alter_eq. destruct (T !! p) as [t|]; [|done]. cbn [mbind option_bind] in He. cbn.
  f_equal. by apply list_insert_id.
Qed.

Lemma maybe_add_step (b : bool) m p i e f : entry (tables m) p i = Some e →
  (if b then entry_add_flags (p, i) f else mret tt) m =
  Ret (tt, m <| tables := put (tables m) p i (if b then add_flags f e else e) |>).
Proof.
  intros He. destruct b; [by apply entry_add_flags_step|]. rewrite (put_same _ _ _ _ He). by destruct m.
Qed.

Lemma propagate_step m p i e pf : entry (tables m) p i = Some e →
  assign_propagable_page_flags_to_page_table_entry (p, i) pf m =
  Ret (tt, m <| tables := put (tables m) p i (propagate pf e) |>).
Proof.
  intros He. unfold assign_propagable_page_flags_to_page_table_entry, propagate.
  erewrite bind_step by by apply maybe_add_step. cbv beta.
  erewrite maybe_add_step by (rewrite tables_update; by eapply entry_put_eq).
  by rewrite tables_update, put_put.
Qed.

Lemma finish_step m p i e pf : entry (tables m) p i = Some e →
  finish_leaf (p, i) pf m = Ret (tt, m <| tables := put (tables m) p i (finish pf e) |>).
Proof.
  intros He. unfold finish_leaf, finish.
  replace (if contains pf Flags.EXECUTABLE then mret tt else entry_add_flags (p, i) NO_EXECUTE)
    with (if negb (contains pf Flags.EXECUTABLE) then entry_add_flags (p, i) NO_EXECUTE else mret tt)
    by by destruct (contains pf Flags.EXECUTABLE).
  erewrite bind_step by by apply maybe_add_step. cbv beta.
  erewrite bind_step by (apply maybe_add_step; rewrite tables_update; by eapply entry_put_eq). cbv beta.
  erewrite maybe_add_step by (rewrite !tables_update; eapply entry_put_eq; by eapply entry_put_eq).
  rewrite !tables_update, !put_put. by destruct (contains pf Flags.EXECUTABLE).
Qed.

Lemma point_leaf_step m p i e a : entry (tables m) p i = Some e → frame_ok a →
  point_leaf (p, i) a m = Ret (tt, m <| tables := put (tables m) p i (Z.lor a PRESENT) |>).
Proof.
  intros He Ha. unfold point_leaf. erewrite bind_step by by apply entry_set_address_step. cbv beta.
  erewrite entry_set_flags_step by (rewrite tables_update; by eapply entry_put_eq).
  rewrite tables_update, put_put. unfold set_flags. rewrite address_frame by (done || apply flag_word_flags). done.
Qed.

Lemma address_add_flags f e : flag_word f → address (add_flags f e) = address e.
Proof. intros. apply address_set_flags, flag_word_lor; [apply flag_word_flags|done]. Qed.

Lemma flags_add_flags f e : flag_word f → flags (add_flags f e) = Z.lor (flags e) f.
Proof. intros. apply flags_set_flags, flag_word_lor; [apply flag_word_flags|done]. Qed.

Lemma word_add_flags f e : flag_word f → word 64 (add_flags f e).
Proof. intros. apply word_set_flags, flag_word_lor; [apply flag_word_flags|done]. Qed.

Lemma testbit_add_flags f e k : flag_word f → (0 ≤ k < 9 ∨ k = 63) →
  Z.testbit (add_flags f e) k = Z.testbit e k || Z.testbit f k.
Proof.
  intros Hf Hk. rewrite <- (contains_flag (add_flags f e)), <- (contains_flag e) by done.
  rewrite flags_add_flags by done. rewrite !contains_bit, Z.lor_spec by lia. done.
Qed.

(** What a change of flags other than the two that direct a walk keeps. *)
Definition same_link (e e' : Z) : Prop :=
  address e' = address e ∧ Z.testbit e' 0 = Z.testbit e 0 ∧ Z.testbit e' 7 = Z.testbit e 7 ∧ (word 64 e → word 64 e').

#[global] Instance same_link_refl : Reflexive same_link.
Proof. by intros e. Qed.
#[global] Instance same_link_trans : Transitive same_link.
Proof. intros a b c (? & ? & ? & ?) (? & ? & ? & ?). split_and!; [congruence..|auto]. Qed.

Lemma add_flags_link f e : flag_word f → Z.testbit f 0 = false → Z.testbit f 7 = false → same_link e (add_flags f e).
Proof.
  intros Hf H0 H7. split_and!.
  - by apply address_add_flags.
  - rewrite testbit_add_flags, H0 by (done || lia). apply orb_false_r.
  - rewrite testbit_add_flags, H7 by (done || lia). apply orb_false_r.
  - intros _. by apply word_add_flags.
Qed.

Ltac flag_links :=
  repeat first [case_match; [|]
               |etrans; [|apply add_flags_link; [by vm_compute..]]]; try reflexivity.

Lemma propagate_link pf e : same_link e (propagate pf e).
Proof. unfold propagate. flag_links. Qed.
Lemma finish_link pf e : same_link e (finish pf e).
Proof. unfold finish. flag_links. Qed.

Lemma links_same level e e' : same_link e e' → links level e' = links level e.
Proof. intros (_ & H0 & H7 & _). unfold links, huge_at. by rewrite H0, H7. Qed.

(** ** The frames that are left *)

(** [l] are the frames still to be handed out; none of them is in use as a
    table. *)
Record pool (m : machine) (l : list Z) : Prop := {
  pool_regions : Forall region_ok (memory_map_entries (frame_allocator m));
  pool_list : l = drop (Z.to_nat (n_allocated (frame_allocator m)))
                       (frame_list (memory_map_entries (frame_allocator m)));
  pool_count : 0 ≤ n_allocated (frame_allocator m);
  pool_small : zlen (frame_list (memory_map_entries (frame_allocator m))) < U64 - 1;
  pool_nodup : NoDup l;
  pool_free : Forall (λ f, f < 2 ^ 52 ∧ 0 ≤ f + offset m < U64 ∧ tables m !! (f + offset m) = None) l
}.

Lemma pool_frame m l f : pool m l → f ∈ l → frame_ok f ∧ 0 ≤ f + offset m < U64 ∧ tables m !! (f + offset m) = None.
Proof.
  intros Hp Hf. pose proof (pool_free _ _ Hp) as Hfree. rewrite Forall_forall in Hfree.
  destruct (Hfree f Hf) as (H52 & Hr & Ht). split; [|done].
  rewrite (pool_list _ _ Hp) in Hf. apply list_elem_of_lookup_1 in Hf as [k Hk]. rewrite lookup_drop in Hk.
  destruct (frame_in_region _ _ _ (pool_regions _ _ Hp) Hk) as (e & He & Hu & Hb & _ & Ha).
  pose proof (pool_regions _ _ Hp) as Hreg. rewrite Forall_forall in Hreg. destruct (Hreg e He Hu) as (_ & _ & ? & _).
  split; [lia|done].
Qed.

(** The next frame is taken from the front. *)
Lemma pool_allocate m f l : pool m (f :: l) →
  ∃ m', allocate_frame m = Ret (Some f, m') ∧ pool m' l ∧ tables m' = tables m ∧ offset m' = offset m ∧
    cr3 m' = cr3 m ∧ tlb_flushes m' = tlb_flushes m ∧
    m' = m <| frame_allocator := (frame_allocator m) <| n_allocated := n_allocated (frame_allocator m) + 1 |> |>.
Proof.
  intros Hp. pose proof (pool_list _ _ Hp) as Hl. symmetry in Hl.
  assert (Hlk : frame_list (memory_map_entries (frame_allocator m)) !! Z.to_nat (n_allocated (frame_allocator m)) = Some f)
    by (rewrite <- (Nat.add_0_r (Z.to_nat _)), <- lookup_drop, Hl; done).
  pose proof (lookup_lt_Some _ _ _ Hlk). pose proof (pool_count _ _ Hp). pose proof (pool_small _ _ Hp). unfold zlen in *.
  unfold allocate_frame. rewrite frame_allocate_spec by (apply Hp || lia). rewrite Hlk.
  eexists. split; [reflexivity|]. split; [|by repeat split].
  constructor; rsimp; try apply Hp; try lia.
  - rewrite Z2Nat.inj_add by lia. change (Z.to_nat 1) with 1%nat. rewrite <- drop_drop, Hl. done.
  - pose proof (pool_nodup _ _ Hp) as Hn. by apply NoDup_cons in Hn as [_ ?].
  - pose proof (pool_free _ _ Hp) as Hfr. by apply Forall_cons in Hfr as [_ ?].
Qed.

(** Tables of frames that are no longer in the pool may change. *)
Lemma pool_tables m l T : pool m l → (∀ f, f ∈ l → T !! (f + offset m) = None) → pool (m <| tables := T |>) l.
Proof.
  intros Hp HT. constructor; rsimp; try apply Hp. apply Forall_forall. intros f Hf.
  destruct (pool_frame _ _ _ Hp Hf) as ([? _] & ? & _). split; [lia|]. split; [done|by apply HT].
Qed.

Lemma put_dom T p i e q : put T p i e !! q = None ↔ T !! q = None.
Proof.
  unfold put. destruct (decide (q = p)) as [->|Hne]; [|by rewrite lookup_alter_ne].
  rewrite lookup_alter_eq. by destruct (T !! p).
Qed.

Lemma pool_put m l p i e : pool m l → pool (m <| tables := put (tables m) p i e |>) l.
Proof. intros Hp. apply pool_tables; [done|]. intros f Hf. apply put_dom. by eapply pool_frame. Qed.

(** ** Good states, and what one operation leaves alone *)

Abbreviation walks m root π := (walk (offset m) (tables m) 4 root π).
Abbreviation maps m root π := (resolve (offset m) (tables m) 4 root π).

Record good (m : machine) (root : Z) (l : list Z) : Prop := {
  good_space : space (offset m) (tables m) root;
  good_pool : pool m l
}.

(** The indices of a page, from the top level down. *)
Definition full_path (π : list Z) : Prop := length π = 4%nat ∧ indices π.

(** [m'] comes after [m]: tables may have been added, no page has changed. *)
Record extends (root : Z) (m m' : machine) : Prop := {
  ext_offset : offset m' = offset m;
  ext_cr3 : cr3 m' = cr3 m;
  ext_flushes : tlb_flushes m' = tlb_flushes m;
  ext_walks : ∀ π p, (length π ≤ 3)%nat → walks m root π = Some p → walks m' root π = Some p;
  ext_maps : ∀ π, full_path π → maps m' root π = maps m root π
}.

#[global] Instance extends_refl root : Reflexive (extends root).
Proof. by intros m. Qed.
#[global] Instance extends_trans root : Transitive (extends root).
Proof.
  intros a b c [] []. constructor; [congruence..| |].
  - auto.
  - intros π Hπ. rewrite <- ext_maps0 by done. auto.
Qed.

Lemma good_entry m root l π p i : good m root l → walks m root π = Some p → (length π ≤ 3)%nat → 0 ≤ i < 512 →
  ∃ e, entry (tables m) p i = Some e ∧ word 64 e.
Proof.
  intros [Hs _] Hw Hl Hi. destruct (space_table _ _ _ Hs π p Hw Hl) as (_ & t & Ht & Hlt & Hf).
  destruct (lookup_lt_is_Some_2 t (Z.to_nat i)) as [e He]; [lia|]. exists e. split.
  - unfold entry. destruct (Z.ltb_spec i 0); [lia|]. by rewrite Ht.
  - rewrite Forall_lookup in Hf. by eapply Hf.
Qed.

Lemma good_lower m root l π p i e : good m root l → walks m root π = Some p → (length π ≤ 2)%nat →
  entry (tables m) p i = Some e → links (4 - length π) e = true →
  walks m root (π ++ [i]) = Some (address e + offset m) ∧ 0 ≤ address e + offset m < U64.
Proof.
  intros [Hs _] Hw Hl He Hk. assert (Hn : walks m root (π ++ [i]) = Some (address e + offset m))
    by (erewrite walk_snoc by (done || lia); by rewrite Hk).
  split; [done|]. eapply space_table; [done|exact Hn|]. rewrite length_app. simpl. lia.
Qed.

(** An entry that keeps pointing to its table gets other flags. *)
Lemma relink_good m root l ρ q j e e' : good m root l → walks m root ρ = Some q → (length ρ ≤ 2)%nat →
  entry (tables m) q j = Some e → links (4 - length ρ) e = true → word 64 e → same_link e e' →
  let m' := m <| tables := put (tables m) q j e' |> in
  good m' root l ∧ extends root m m' ∧ entry (tables m') q j = Some e' ∧ links (4 - length ρ) e' = true.
Proof.
  intros [Hs Hp] Hw Hl He Hk Hwd Hsame m'. pose proof (links_same (4 - length ρ) _ _ Hsame) as Hk'. rewrite Hk in Hk'.
  destruct Hsame as (Ha & _ & _ & Hwd').
  assert (Hwalk : ∀ π, (length π ≤ 3)%nat → walks m' root π = walks m root π)
    by (intros π Hπ; unfold m'; rsimp; eapply walk_relink; eauto; lia || congruence).
  split_and!; [constructor| |unfold m'; rewrite tables_update; by eapply entry_put_eq|done].
  - unfold m'. rsimp. eapply space_change; eauto; lia.
  - by apply pool_put.
  - constructor; unfold m'; rsimp; try done.
    + intros π p Hπ Hwp. etrans; [apply (Hwalk π Hπ)|done].
    + intros π [Hπ _]. eapply resolve_relink; eauto; lia.
Qed.

(** An entry of the last level changes. *)
Lemma leaf_good m root l ρ q j e e' : good m root l → walks m root ρ = Some q → length ρ = 3%nat →
  entry (tables m) q j = Some e → word 64 e' →
  let m' := m <| tables := put (tables m) q j e' |> in
  good m' root l ∧ entry (tables m') q j = Some e' ∧
  (∀ π, (length π ≤ 3)%nat → walks m' root π = walks m root π) ∧
  (∀ π, length π = 4%nat → maps m' root π =
     if decide (π = ρ ++ [j]) then Some (if Z.testbit e' 0 then Mapped 1 e' else Unmapped) else maps m root π).
Proof.
  intros [Hs Hp] Hw Hl He Hwd m'.
  assert (Hwalk : ∀ π, (length π ≤ 3)%nat → walks m' root π = walks m root π)
    by (intros π Hπ; unfold m'; rsimp; eapply walk_leaf; eauto; lia).
  split_and!; [constructor|unfold m'; rewrite tables_update; by eapply entry_put_eq|done|].
  - unfold m'. rsimp. eapply space_change; eauto; lia.
  - by apply pool_put.
  - intros π Hπ. unfold m'. rsimp. eapply resolve_leaf; eauto; lia.
Qed.

Lemma links_frame level f : frame_ok f → links level (Z.lor f PRESENT) = true.
Proof.
  intros Hf. unfold links, huge_at.
  assert (Z.testbit (Z.lor f PRESENT) 0 = true) as -> by (by rewrite Z.lor_spec, orb_true_r).
  assert (Z.testbit (Z.lor f PRESENT) 7 = false) as ->
    by (by rewrite Z.lor_spec, (frame_bit f 7) by (done || lia)).
  by rewrite andb_false_r.
Qed.

(** An absent entry gets a new, empty table. *)
Lemma allocate_table_good m root f l ρ q j e : good m root (f :: l) → walks m root ρ = Some q → (length ρ ≤ 2)%nat →
  entry (tables m) q j = Some e → Z.testbit e 0 = false →
  ∃ m', allocate_lower_level_page_table (q, j) m = Ret (Some tt, m') ∧ good m' root l ∧ extends root m m' ∧
    entry (tables m') q j = Some (Z.lor f PRESENT) ∧
    (∀ i, 0 ≤ i < 512 → entry (tables m') (f + offset m) i = Some 0) ∧
    walks m' root (ρ ++ [j]) = Some (f + offset m).
Proof.
  intros [Hs Hp] Hw Hl He Habs. destruct (pool_frame _ _ f Hp ltac:(left)) as (Hf & Hr & Hfree).
  destruct (pool_allocate _ _ _ Hp) as (m1 & Ea & Hp1 & HT & Hoff & Hcr & Hfl & _).
  assert (Hfree' : ∀ g, g ∈ l → tables m !! (g + offset m) = None) by (intros g Hg; eapply (pool_frame _ _ g Hp); by right).
  assert (Hnot : f ∉ l) by (pose proof (pool_nodup _ _ Hp) as Hn; by apply NoDup_cons in Hn as [? _]).
  set (T1 := <[f + offset m := zeros 512]> (tables m)).
  set (m2 := m1 <| tables := T1 |>).
  assert (He2 : entry (tables m2) q j = Some e).
  { unfold m2. rewrite tables_update. unfold T1. by rewrite (fresh_entry _ _ _ _ _ Hs Hfree ρ) by (done || lia). }
  exists (m2 <| tables := put T1 q j (Z.lor f PRESENT) |>).
  assert (Hsp : space (offset m) (put T1 q j (Z.lor f PRESENT)) root).
  { eapply (space_new (offset m) (tables m) root ρ q j e); eauto; [by apply links_frame| |by apply word_frame].
    by rewrite address_frame. }
  split_and!.
  - unfold allocate_lower_level_page_table. rewrite (bind_step _ _ _ _ _ Ea). cbv beta iota.
    rewrite (bind_step _ _ _ (offset m) m1) by (unfold gets; by rewrite Hoff).
    rewrite (lift_step _ _ _ (f + offset m)) by by apply add_chk_ret.
    rewrite (bind_step _ _ _ tt m2) by (unfold modify, m2, T1; by rewrite <- HT; destruct m1).
    rewrite (bind_step _ _ _ tt _ (entry_set_address_step m2 q j e He2 f Hf)).
    erewrite bind_step by (apply entry_set_flags_step; rewrite tables_update; by eapply entry_put_eq).
    unfold set_flags. rewrite address_frame by (done || apply flag_word_flags). rewrite tables_update, put_put. done.
  - constructor; rsimp; [unfold m2; rsimp; by rewrite Hoff|].
    apply pool_tables; [unfold m2; apply pool_tables; [done|]|]; rsimp; intros g Hg.
    + rewrite Hoff. unfold T1. apply lookup_insert_None. split; [by apply Hfree'|]. intros Hx. apply Hnot.
      by replace f with g by lia.
    + unfold m2. rsimp. rewrite Hoff. apply put_dom. unfold T1. apply lookup_insert_None. split; [by apply Hfree'|].
      intros Hx. apply Hnot. by replace f with g by lia.
  - constructor; rsimp; unfold m2; rsimp; [done..| |].
    + intros π p Hπ Hwp. rewrite Hoff. unfold T1.
      rewrite (walk_new (offset m) (tables m) root ρ q j e) by (eauto using links_frame, word_frame; by rewrite address_frame).
      case_decide as Hd; [|done]. subst π. exfalso. erewrite walk_snoc in Hwp by (done || lia). unfold links in Hwp.
      by rewrite Habs in Hwp.
    + intros π [Hπ Hi]. rewrite Hoff. unfold T1.
      eapply resolve_new; eauto; [by apply links_frame|by rewrite address_frame].
  - rewrite tables_update. eapply entry_put_eq. exact He2.
  - intros i Hi. rewrite tables_update. unfold T1.
    eapply (nt_zero (offset m) (tables m) root ρ q j e); eauto.
  - rsimp. unfold m2. rsimp. rewrite Hoff. unfold T1.
    rewrite (walk_new (offset m) (tables m) root ρ q j e)
      by (eauto using links_frame, word_frame; try (rewrite length_app; simpl; lia); by rewrite address_frame).
    by rewrite decide_True.
Qed.

(** ** One level down *)

(** At most one frame was taken. *)
Definition took (l l' : list Z) (k : nat) : Prop := (length l ≤ k + length l')%nat ∧ l' `suffix_of` l.

Lemma took_refl l : took l l 0.
Proof. split; [lia|done]. Qed.
Lemma took_cons f l : took (f :: l) l 1.
Proof. split; [simpl; lia|]. by exists [f]. Qed.
Lemma took_trans l1 l2 l3 j k : took l1 l2 j → took l2 l3 k → took l1 l3 (j + k).
Proof. intros [? ?] [? ?]. split; [lia|]. by etrans. Qed.
Lemma took_weaken l l' j k : took l l' j → (j ≤ k)%nat → took l l' k.
Proof. intros [? ?] ?. split; [lia|done]. Qed.

Lemma took_left l l' k : took l l' k → (k < length l)%nat → l' ≠ [].
Proof. intros [? _] ? ->. simpl in *. lia. Qed.

Section Descend.
Context (m : machine) (root : Z) (l : list Z) (ρ : list Z) (q j : Z).
Hypothesis Hg : good m root l.
Hypothesis Hw : walks m root ρ = Some q.
Hypothesis Hj : 0 ≤ j < 512.
Hypothesis Hl : l ≠ [].

(** The entry leads to a table. *)
Definition linked (m' : machine) (l' : list Z) : Prop :=
  good m' root l' ∧ extends root m m' ∧ took l l' 1 ∧
  ∃ e, entry (tables m') q j = Some e ∧ links (4 - length ρ) e = true ∧ word 64 e.

Lemma linked_now e : entry (tables m) q j = Some e → links (4 - length ρ) e = true → word 64 e → linked m l.
Proof.
  intros He Hk Hwd. split_and!; [done|done|by apply (took_weaken _ _ 0), le_S; [apply took_refl|]|]. by exists e.
Qed.

Lemma linked_new e : (length ρ ≤ 2)%nat → entry (tables m) q j = Some e → Z.testbit e 0 = false →
  ∃ m' l', expect (allocate_lower_level_page_table (q, j)) m = Ret (tt, m') ∧ linked m' l'.
Proof.
  intros Hlen He Habs. destruct l as [|f l'] eqn:El; [done|].
  destruct (allocate_table_good m root f l' ρ q j e Hg Hw Hlen He Habs) as (m' & Ea & Hg' & Hx & He' & _).
  destruct (pool_frame _ _ f (good_pool _ _ _ Hg) ltac:(left)) as (Hf & _).
  exists m', l'. split; [unfold expect; by rewrite (bind_step _ _ _ _ _ Ea)|].
  unfold linked. rewrite El. split_and!; [done|done|apply took_cons|].
  exists (Z.lor f PRESENT). split_and!; [done|by apply links_frame|]. apply word_frame; [done|by vm_compute].
Qed.

Lemma ensure_table_spec : length ρ = 0%nat →
  ∃ m' l', ensure_table (q, j) m = Ret (tt, m') ∧ linked m' l'.
Proof.
  intros Hlen. destruct (good_entry _ _ _ _ _ j Hg Hw ltac:(lia) Hj) as (e & He & Hwd).
  unfold ensure_table. rewrite (bind_step _ _ _ _ _ (entry_flags_step _ _ _ _ He)), contains_present.
  destruct (Z.testbit e 0) eqn:Hp; [|by eapply linked_new; [lia|..]].
  exists m, l. split; [done|]. apply (linked_now e); [done| |done]. unfold links, huge_at. by rewrite Hp, Hlen.
Qed.

Lemma ensure_table_or_huge_spec : (1 ≤ length ρ ≤ 2)%nat →
  (∃ e, ensure_table_or_huge (q, j) m = Ret (true, m) ∧ entry (tables m) q j = Some e ∧
        Z.testbit e 0 = true ∧ huge_at (4 - length ρ) e = true) ∨
  (∃ m' l', ensure_table_or_huge (q, j) m = Ret (false, m') ∧ linked m' l').
Proof.
  intros Hlen. destruct (good_entry _ _ _ _ _ j Hg Hw ltac:(lia) Hj) as (e & He & Hwd).
  unfold ensure_table_or_huge. rewrite (bind_step _ _ _ _ _ (entry_flags_step _ _ _ _ He)), contains_present.
  assert (Hh : huge_at (4 - length ρ) e = Z.testbit e 7).
  { unfold huge_at. by destruct (length ρ) as [|[|[|]]]; [lia| | |lia]. }
  destruct (Z.testbit e 0) eqn:Hp.
  - rewrite (bind_step _ _ _ _ _ (entry_flags_step _ _ _ _ He)), contains_huge. destruct (Z.testbit e 7) eqn:H7.
    + left. exists e. by rewrite Hh.
    + right. exists m, l. split; [done|]. apply (linked_now e); [done| |done]. unfold links. by rewrite Hp, Hh.
  - right. destruct (linked_new e ltac:(lia) He Hp) as (m' & l' & Ee & Hk). exists m', l'.
    split; [by rewrite (bind_step _ _ _ _ _ Ee)|done].
Qed.
End Descend.

(** Flags propagated to a linked entry, and the table behind it. *)
Lemma linked_propagate m root l ρ q j m' l' pf : walks m root ρ = Some q → (length ρ ≤ 2)%nat → linked m root l ρ q j m' l' →
  ∃ m'' p, assign_propagable_page_flags_to_page_table_entry (q, j) pf m' = Ret (tt, m'') ∧
    lower_table (q, j) m'' = Ret (p, m'') ∧ good m'' root l' ∧ extends root m m'' ∧
    walks m'' root (ρ ++ [j]) = Some p.
Proof.
  intros Hw Hl (Hg & Hx & _ & e & He & Hk & Hwd).
  pose proof (ext_walks _ _ _ Hx ρ q ltac:(lia) Hw) as Hw'.
  destruct (relink_good m' root l' ρ q j e (propagate pf e) Hg Hw' Hl He Hk Hwd (propagate_link pf e))
    as (Hg2 & Hx2 & He2 & Hk2).
  set (m2 := m' <| tables := put (tables m') q j (propagate pf e) |>) in *.
  pose proof (ext_walks _ _ _ Hx2 ρ q ltac:(lia) Hw') as Hw2.
  destruct (good_lower m2 root l' ρ q j _ Hg2 Hw2 Hl He2 Hk2) as [Hn Hr].
  exists m2, (address (propagate pf e) + offset m2). split_and!.
  - by apply propagate_step.
  - by apply lower_table_step.
  - done.
  - by etrans.
  - done.
Qed.

(** ** The indices of a page *)

Definition path (page : Z) : list Z := [pte_index 4 page; pte_index 3 page; pte_index 2 page; pte_index 1 page].

Lemma pte_index_range level a : 0 ≤ pte_index level a < 512.
Proof.
  unfold pte_index. change 511 with (Z.ones 9). rewrite Z.land_ones by lia. change (2 ^ 9) with 512. mlia.
Qed.

Lemma path_full page : full_path (path page).
Proof. split; [done|]. unfold indices, path. repeat constructor; apply pte_index_range. Qed.

(** ** [map_inner] *)

(** The entry of a mapped page: the frame and the flags asked for. *)
Definition leaf (frame pf : Z) : Z := finish pf (propagate pf (Z.lor frame PRESENT)).

(** An aligned canonical address. *)
Definition page_ok (page : Z) : Prop := page = sign_extend page ∧ page mod PAGE_SIZE = 0.

Lemma leaf_link frame pf : same_link (Z.lor frame PRESENT) (leaf frame pf).
Proof. unfold leaf. etrans; [apply propagate_link|apply finish_link]. Qed.

Lemma leaf_present frame pf : Z.testbit (leaf frame pf) 0 = true.
Proof. destruct (leaf_link frame pf) as (_ & -> & _). by rewrite Z.lor_spec, orb_true_r. Qed.

Lemma leaf_address frame pf : frame_ok frame → address (leaf frame pf) = frame.
Proof. intros. destruct (leaf_link frame pf) as (-> & _). by apply address_frame. Qed.

Lemma leaf_word frame pf : frame_ok frame → word 64 (leaf frame pf).
Proof. intros. destruct (leaf_link frame pf) as (_ & _ & _ & Hwd). by apply Hwd, word_frame. Qed.

(** The current top-level table has an address. *)
Definition cr3_ok (m : machine) : Prop := 0 ≤ offset m + cr3 m < U64.

Lemma flush_step root m : cr3_ok m →
  flush_if_current root m = Ret (tt, if root =? offset m + cr3 m then m <| tlb_flushes := tlb_flushes m + 1 |> else m).
Proof.
  intros Hc. unfold flush_if_current, current_page_table.
  rewrite (bind_step _ _ _ (offset m + cr3 m) m).
  - by destruct (root =? offset m + cr3 m).
  - rewrite (bind_step _ _ _ (offset m) m), (bind_step _ _ _ (cr3 m) m) by done. unfold lift. by rewrite add_chk_ret.
Qed.

(** The last step of a map: the entry of the page is written. *)
Lemma write_leaf m root l ρ q j e frame pf : good m root l → walks m root ρ = Some q → length ρ = 3%nat →
  entry (tables m) q j = Some e → frame_ok frame →
  ∃ m', (point_leaf (q, j) frame;; assign_propagable_page_flags_to_page_table_entry (q, j) pf;; finish_leaf (q, j) pf) m
        = Ret (tt, m') ∧ m' = m <| tables := put (tables m) q j (leaf frame pf) |> ∧ good m' root l ∧
    (∀ π, length π = 4%nat → maps m' root π = if decide (π = ρ ++ [j]) then Some (Mapped 1 (leaf frame pf)) else maps m root π).
Proof.
  intros Hg Hw Hl He Hf. eexists. split; [|split; [reflexivity|]].
  - rewrite (bind_step _ _ _ _ _ (point_leaf_step _ _ _ _ _ He Hf)).
    erewrite bind_step by (apply propagate_step; rewrite tables_update; by eapply entry_put_eq).
    erewrite finish_step by (rewrite !tables_update; eapply entry_put_eq; by eapply entry_put_eq).
    by rewrite !tables_update, !put_put.
  - destruct (leaf_good m root l ρ q j e (leaf frame pf) Hg Hw Hl He (leaf_word _ _ Hf)) as (Hg' & _ & _ & Hm).
    split; [done|]. intros π Hπ. rewrite (Hm π Hπ). by rewrite leaf_present.
Qed.

(** What [map_inner] does, by what the page is mapped to. *)
Definition map_outcome (m : machine) (root page frame pf : Z) (r : unit + MemoryError) (m' : machine) : Prop :=
  match maps m root (path page) with
  | Some Unmapped =>
      r = inl tt ∧ offset m' = offset m ∧ cr3 m' = cr3 m ∧
      (∀ π, full_path π → maps m' root π = if decide (π = path page) then Some (Mapped 1 (leaf frame pf)) else maps m root π) ∧
      tlb_flushes m' = tlb_flushes m + (if root =? offset m + cr3 m then 1 else 0)
  | Some (Mapped level _) => r = inr (if bool_decide (level = 1%nat) then AlreadyMapped else HugePage) ∧ extends root m m'
  | None => False
  end.

Lemma page_aligned page : page mod PAGE_SIZE = 0 → (Z.land page 4095 =? 0) = true.
Proof. intros H. rewrite frame_low_bits. change 4096 with PAGE_SIZE. by rewrite H. Qed.

Lemma huge_maps m root ρ q j e rest : walks m root ρ = Some q → entry (tables m) q j = Some e → Z.testbit e 0 = true →
  huge_at (4 - length ρ) e = true → rest ≠ [] → maps m root (ρ ++ j :: rest) = Some (Mapped (4 - length ρ) e).
Proof.
  intros Hw He Hp Hh Hr. rewrite (resolve_app _ _ _ _ _ _ q Hw) by done. cbn [resolve]. rewrite He, Hp, Hh.
  by destruct rest.
Qed.

(** The part of [map_inner] after the tables above the last level. *)
Lemma map_last m0 m root l page frame pf q : good m root l → extends root m0 m → cr3_ok m0 →
  walks m root [pte_index 4 page; pte_index 3 page; pte_index 2 page] = Some q → frame_ok frame →
  runs (f ← entry_flags (q, pte_index 1 page);
        if contains f PRESENT then mret (inr AlreadyMapped) else
        point_leaf (q, pte_index 1 page) frame;;
        assign_propagable_page_flags_to_page_table_entry (q, pte_index 1 page) pf;;
        finish_leaf (q, pte_index 1 page) pf;;
        flush_if_current root;;
        mret (inl tt)) m (λ r m', good m' root l ∧ map_outcome m0 root page frame pf r m').
Proof.
  intros Hg Hx Hc Hw Hf. destruct (good_entry _ _ _ _ _ (pte_index 1 page) Hg Hw) as (e & He & Hwd);
    [simpl; lia|apply pte_index_range|].
  assert (Hm : maps m root (path page) = Some (if Z.testbit e 0 then Mapped 1 e else Unmapped)).
  { change (path page) with ([pte_index 4 page; pte_index 3 page; pte_index 2 page] ++ [pte_index 1 page]).
    rewrite (resolve_app _ _ _ _ _ _ q Hw) by done. cbn [resolve length Nat.sub]. rewrite He.
    by destruct (Z.testbit e 0). }
  unfold map_outcome. rewrite (ext_maps _ _ _ Hx (path page) (path_full page)) in Hm. rewrite Hm.
  eapply runs_step; [by apply entry_flags_step|]. cbv beta. rewrite contains_present.
  destruct (Z.testbit e 0); [by apply runs_ret|].
  destruct (write_leaf m root l [pte_index 4 page; pte_index 3 page; pte_index 2 page] q (pte_index 1 page) e frame pf
    Hg Hw eq_refl He Hf) as (m1 & E1 & Em & Hg1 & Hm1).
  assert (Hc1 : cr3_ok m1) by (subst m1; unfold cr3_ok in *; rsimp; by rewrite (ext_offset _ _ _ Hx), (ext_cr3 _ _ _ Hx)).
  exists (inl tt, if root =? offset m1 + cr3 m1 then m1 <| tlb_flushes := tlb_flushes m1 + 1 |> else m1). split.
  - revert E1. unfold mbind, PM_bind. destruct (point_leaf _ _ m) as [[[] ma]|]; [|done].
    destruct (assign_propagable_page_flags_to_page_table_entry _ _ ma) as [[[] mb]|]; [|done].
    intros ->. by rewrite flush_step.
  - assert (Hq : offset m1 = offset m0 ∧ cr3 m1 = cr3 m0 ∧ tlb_flushes m1 = tlb_flushes m0)
      by (subst m1; rsimp; destruct Hx; done). destruct Hq as (Ho & Hcr & Hfl).
    split; [destruct Hg1 as [Hs1 Hp1]; destruct (root =? _); [|done]; constructor; rsimp; [done|]; by destruct Hp1|].
    split; [done|]. rewrite Ho, Hcr. destruct (root =? _); rsimp; (split_and!; [done..| |lia]);
      intros π Hπ; rewrite (Hm1 π (proj1 Hπ)), (ext_maps _ _ _ Hx π Hπ); done.
Qed.

Lemma map_inner_spec m root l page frame pf : good m root l → (3 ≤ length l)%nat → cr3_ok m →
  page_ok page → frame_ok frame →
  runs (map_inner root page frame pf) m (λ r m', (∃ l', good m' root l' ∧ took l l' 3) ∧ map_outcome m root page frame pf r m').
Proof.
  intros Hg Hl Hc [Hcan Hal] Hf. unfold map_inner.
  apply runs_lift with tt; [unfold rassert; by rewrite <- Hcan, Z.eqb_refl|].
  apply runs_lift with tt; [unfold rassert; by rewrite page_aligned|]. cbv zeta.
  destruct (ensure_table_spec m root l [] root (pte_index 4 page) Hg eq_refl (pte_index_range _ _)) as (m1 & l1 & E1 & Hk1);
    [by intros ->; simpl in Hl; lia|done|].
  eapply runs_step; [exact E1|]. pose proof Hk1 as (_ & _ & Ht1 & _).
  destruct (linked_propagate m root l [] root _ m1 l1 pf eq_refl ltac:(simpl; lia) Hk1) as (m2 & q3 & E2 & E3 & Hg2 & Hx2 & Hw2).
  eapply runs_step; [exact E2|]. eapply runs_step; [exact E3|]. cbn [app] in Hw2.
  destruct (ensure_table_or_huge_spec m2 root l1 [pte_index 4 page] q3 (pte_index 3 page) Hg2 Hw2 (pte_index_range _ _))
    as [(e & E4 & He & Hp & Hh)|(m3 & l3 & E4 & Hk3)]; [by apply (took_left _ _ _ Ht1); lia|simpl; lia|..];
    (eapply runs_step; [exact E4|]); cbv beta iota.
  { apply runs_ret. split; [exists l1; split; [done|by eapply took_weaken; [exact Ht1|lia]]|].
    unfold map_outcome. rewrite <- (ext_maps _ _ _ Hx2 (path page) (path_full page)).
    change (path page) with ([pte_index 4 page] ++ pte_index 3 page :: [pte_index 2 page; pte_index 1 page]).
    by rewrite (huge_maps m2 root _ q3 _ e). }
  pose proof Hk3 as (_ & _ & Ht3 & _).
  destruct (linked_propagate m2 root l1 [pte_index 4 page] q3 _ m3 l3 pf Hw2 ltac:(simpl; lia) Hk3)
    as (m4 & q2 & E5 & E6 & Hg4 & Hx4 & Hw4).
  eapply runs_step; [exact E5|]. eapply runs_step; [exact E6|]. cbn [app] in Hw4.
  destruct (ensure_table_or_huge_spec m4 root l3 [pte_index 4 page; pte_index 3 page] q2 (pte_index 2 page) Hg4 Hw4 (pte_index_range _ _))
    as [(e & E7 & He & Hp & Hh)|(m5 & l5 & E7 & Hk5)]; [by apply (took_left _ _ _ (took_trans _ _ _ _ _ Ht1 Ht3)); lia|simpl; lia|..];
    (eapply runs_step; [exact E7|]); cbv beta iota.
  { apply runs_ret. split; [exists l3; split; [done|eapply took_weaken; [eapply took_trans; [exact Ht1|exact Ht3]|lia]]|].
    unfold map_outcome. rewrite <- (ext_maps _ _ _ Hx2 (path page) (path_full page)), <- (ext_maps _ _ _ Hx4 (path page) (path_full page)).
    change (path page) with ([pte_index 4 page; pte_index 3 page] ++ pte_index 2 page :: [pte_index 1 page]).
    rewrite (huge_maps m4 root _ q2 _ e) by done. split; [done|by etrans]. }
  pose proof Hk5 as (_ & _ & Ht5 & _).
  destruct (linked_propagate m4 root l3 [pte_index 4 page; pte_index 3 page] q2 _ m5 l5 pf Hw4 ltac:(simpl; lia) Hk5)
    as (m6 & q1 & E8 & E9 & Hg6 & Hx6 & Hw6).
  eapply runs_step; [exact E8|]. eapply runs_step; [exact E9|]. cbn [app] in Hw6.
  eapply runs_mono; [apply (map_last m m6 root l5 page frame pf q1); try done; by do 2 etrans|].
  intros r m' [Hg' Ho]. split; [|done]. exists l5. split; [done|].
  exact (took_trans _ _ _ 1 2 Ht1 (took_trans _ _ _ 1 1 Ht3 Ht5)).
Qed.

(** ** Reading down the levels *)

(** What the entry of a path says about the pages behind it. *)
Section Level.
Context (m : machine) (root : Z) (l : list Z) (ρ : list Z) (q j : Z).
Hypothesis Hg : good m root l.
Hypothesis Hw : walks m root ρ = Some q.
Hypothesis Hj : 0 ≤ j < 512.

Lemma level_cases : (length ρ ≤ 3)%nat →
  ∃ e, entry_flags (q, j) m = Ret (flags e, m) ∧ entry (tables m) q j = Some e ∧
    contains (flags e) PRESENT = Z.testbit e 0 ∧ contains (flags e) HUGE_PAGE = Z.testbit e 7 ∧
    (Z.testbit e 0 = false → ∀ rest, maps m root (ρ ++ j :: rest) = Some Unmapped).
Proof.
  intros Hl. destruct (good_entry _ _ _ _ _ j Hg Hw Hl Hj) as (e & He & _). exists e.
  split_and!; [by apply entry_flags_step|done|apply contains_present|apply contains_huge|].
  intros Hp rest. rewrite (resolve_app _ _ _ _ _ _ q Hw) by done. cbn [resolve]. by rewrite He, Hp.
Qed.

Lemma level_down e : (length ρ ≤ 2)%nat → entry (tables m) q j = Some e → links (4 - length ρ) e = true →
  ∃ p, lower_table (q, j) m = Ret (p, m) ∧ walks m root (ρ ++ [j]) = Some p.
Proof.
  intros Hl He Hk. destruct (good_lower _ _ _ _ _ _ _ Hg Hw Hl He Hk) as [Hn Hr].
  exists (address e + offset m). split; [by apply lower_table_step|done].
Qed.

Lemma leaf_maps e : length ρ = 3%nat → entry (tables m) q j = Some e → Z.testbit e 0 = true →
  maps m root (ρ ++ [j]) = Some (Mapped 1 e).
Proof.
  intros Hl He Hp. rewrite (resolve_app _ _ _ _ _ _ q Hw) by done. cbn [resolve]. by rewrite He, Hp, Hl.
Qed.
End Level.

(** ** [unmap_inner] *)

(** The number of low bits of an address within a page of the given level. *)
Definition page_bits (level : nat) : Z := 12 + 9 * (Z.of_nat level - 1).

Definition unmap_outcome (m : machine) (root page : Z) (r : unit + MemoryError) (m' : machine) : Prop :=
  match maps m root (path page) with
  | Some Unmapped => r = inr NonExistentMapping ∧ m' = m
  | Some (Mapped level _) =>
      r = inl tt ∧ offset m' = offset m ∧ cr3 m' = cr3 m ∧
      (∀ π, full_path π → maps m' root π =
         if decide (take (5 - level) (path page) `prefix_of` π) then Some Unmapped else maps m root π) ∧
      tlb_flushes m' = tlb_flushes m + (if root =? offset m + cr3 m then 1 else 0)
  | None => False
  end.

Lemma clear_step m p i e : entry (tables m) p i = Some e →
  clear_entry (p, i) m = Ret (tt, m <| tables := put (tables m) p i 0 |>).
Proof.
  intros He. assert (frame_ok 0) by by vm_compute. unfold clear_entry.
  erewrite bind_step by by apply entry_set_address_step. cbv beta.
  erewrite entry_set_flags_step by (rewrite tables_update; by eapply entry_put_eq).
  rewrite tables_update, put_put. unfold set_flags. by rewrite address_frame by (done || apply flag_word_flags).
Qed.

(** Clearing the entry of a page, of whatever size, and flushing. *)
Lemma clear_page m root l ρ q j e : good m root l → cr3_ok m → walks m root ρ = Some q → (1 ≤ length ρ ≤ 3)%nat →
  entry (tables m) q j = Some e → Z.testbit e 0 = true → (length ρ = 3%nat ∨ huge_at (4 - length ρ) e = true) →
  runs (clear_entry (q, j);; flush_if_current root;; mret (inl tt)) m (λ (r : unit + MemoryError) m',
    good m' root l ∧ r = inl tt ∧ offset m' = offset m ∧ cr3 m' = cr3 m ∧
    (∀ π, full_path π → maps m' root π = if decide ((ρ ++ [j]) `prefix_of` π) then Some Unmapped else maps m root π) ∧
    tlb_flushes m' = tlb_flushes m + (if root =? offset m + cr3 m then 1 else 0)).
Proof.
  intros [Hs Hp] Hc Hw Hl He Hpr Hh. eapply runs_step; [exact (clear_step _ _ _ _ He)|].
  set (m1 := m <| tables := put (tables m) q j 0 |>).
  assert (Hwalk : ∀ π, (length π ≤ 3)%nat → walks m1 root π = walks m root π).
  { intros π Hπ. unfold m1. rsimp. destruct (decide (length ρ = 3%nat)); [eapply (walk_leaf _ _ _ ρ q j e); eauto; lia|].
    assert (Hk : links (4 - length ρ) e = false) by (destruct Hh as [|Hh]; [done|unfold links; by rewrite Hpr, Hh]).
    apply (walk_relink _ _ _ ρ q j e 0); try done; [lia|lia|by rewrite Hk]. }
  eapply runs_step; [by apply flush_step|]. apply runs_ret.
  assert (Hg1 : good m1 root l).
  { constructor; [|by apply pool_put]. unfold m1. rsimp. eapply space_change; eauto; lia || by vm_compute. }
  assert (Hm : ∀ π, full_path π → maps m1 root π = if decide ((ρ ++ [j]) `prefix_of` π) then Some Unmapped else maps m root π).
  { intros π [Hπ _]. unfold m1. rsimp. eapply (resolve_cleared _ _ _ ρ q j e); eauto; lia. }
  assert (Ht : offset m1 = offset m ∧ cr3 m1 = cr3 m ∧ tlb_flushes m1 = tlb_flushes m) by done.
  clearbody m1. destruct Ht as (Ho & Hcr & Hfl). rewrite Ho, Hcr, Hfl.
  destruct (root =? offset m + cr3 m); [|split_and!; try done; lia].
  split; [destruct Hg1 as [Hs1 Hp1]; constructor; [done|by destruct Hp1]|]. rsimp. by split_and!.
Qed.

Lemma huge_level (level : nat) e : (level = 3%nat ∨ level = 2%nat) → huge_at level e = Z.testbit e 7.
Proof. by intros [->| ->]. Qed.

Lemma links_level (level : nat) e : (level = 3%nat ∨ level = 2%nat) → Z.testbit e 0 = true → Z.testbit e 7 = false →
  links level e = true.
Proof. intros Hl Hp Hh. unfold links. by rewrite huge_level, Hp, Hh. Qed.

(** The test of an entry that [unmap_inner] and the translation make at each
    level, by what it says of the page. *)
Section Test.
Context (m : machine) (root : Z) (l : list Z) (ρ : list Z) (q j : Z) (rest : list Z).
Hypothesis Hg : good m root l.
Hypothesis Hw : walks m root ρ = Some q.
Hypothesis Hj : 0 ≤ j < 512.
Context {A : Type} (absent huge body : PM A) (Q : A → machine → Prop).
Hypothesis Habsent : maps m root (ρ ++ j :: rest) = Some Unmapped → runs absent m Q.

Lemma test_top : length ρ = 0%nat →
  (∀ p, lower_table (q, j) m = Ret (p, m) → walks m root (ρ ++ [j]) = Some p → runs body m Q) →
  runs (f ← entry_flags (q, j); if negb (contains f PRESENT) then absent else body) m Q.
Proof.
  intros Hl Hb. destruct (level_cases m root l ρ q j Hg Hw Hj) as (e & E & He & Hc & _ & Hu); [lia|].
  eapply runs_step; [exact E|]. cbv beta. rewrite Hc. destruct (Z.testbit e 0) eqn:Hp; cbn [negb]; [|by apply Habsent, Hu].
  destruct (level_down m root l ρ q j Hg Hw e) as (p & El & Hn); [lia|done|by unfold links; rewrite Hl, Hp|]. by apply (Hb p).
Qed.

Lemma test_middle : (1 ≤ length ρ ≤ 2)%nat → rest ≠ [] →
  (∀ e, entry (tables m) q j = Some e → Z.testbit e 0 = true → huge_at (4 - length ρ) e = true →
        maps m root (ρ ++ j :: rest) = Some (Mapped (4 - length ρ) e) → runs huge m Q) →
  (∀ p, lower_table (q, j) m = Ret (p, m) → walks m root (ρ ++ [j]) = Some p → runs body m Q) →
  runs (f ← entry_flags (q, j); if negb (contains f PRESENT) then absent else
        if contains f HUGE_PAGE then huge else body) m Q.
Proof.
  intros Hl Hr Hh Hb. destruct (level_cases m root l ρ q j Hg Hw Hj) as (e & E & He & Hc & Hc7 & Hu); [lia|].
  assert (Hlev : (4 - length ρ = 3 ∨ 4 - length ρ = 2)%nat) by lia.
  eapply runs_step; [exact E|]. cbv beta. rewrite Hc, Hc7.
  destruct (Z.testbit e 0) eqn:Hp; cbn [negb]; [|by apply Habsent, Hu].
  destruct (Z.testbit e 7) eqn:H7.
  - assert (huge_at (4 - length ρ) e = true) by by rewrite huge_level. eapply Hh; eauto. by eapply huge_maps.
  - destruct (level_down m root l ρ q j Hg Hw e) as (p & El & Hn); [lia|done|by apply links_level|]. by apply (Hb p).
Qed.

Lemma test_leaf : length ρ = 3%nat → rest = [] →
  (∀ e, entry (tables m) q j = Some e → Z.testbit e 0 = true →
        maps m root (ρ ++ j :: rest) = Some (Mapped 1 e) → runs body m Q) →
  runs (f ← entry_flags (q, j); if negb (contains f PRESENT) then absent else body) m Q.
Proof.
  intros Hl Hr Hb. destruct (level_cases m root l ρ q j Hg Hw Hj) as (e & E & He & Hc & _ & Hu); [lia|].
  eapply runs_step; [exact E|]. cbv beta. rewrite Hc. destruct (Z.testbit e 0) eqn:Hp; cbn [negb]; [|by apply Habsent, Hu].
  eapply Hb; eauto. rewrite Hr. by eapply leaf_maps.
Qed.
End Test.

Lemma low_bits_zero page level n : n = page_bits level → (1 ≤ level)%nat → page mod 2 ^ page_bits level = 0 →
  (Z.land page (Z.ones n) =? 0) = true.
Proof. intros -> Hl H. rewrite Z.land_ones by (unfold page_bits; lia). by rewrite H. Qed.

Lemma unmap_inner_spec m root l page : good m root l → cr3_ok m → canonical page = true →
  (∀ level e, maps m root (path page) = Some (Mapped level e) → page mod 2 ^ page_bits level = 0) →
  page mod PAGE_SIZE = 0 →
  runs (unmap_inner root page) m (λ r m', good m' root l ∧ unmap_outcome m root page r m').
Proof.
  intros Hg Hc Hcan Hal Hpg. unfold unmap_inner, unmap_outcome, path in *.
  pose proof (pte_index_range 4 page). pose proof (pte_index_range 3 page).
  pose proof (pte_index_range 2 page). pose proof (pte_index_range 1 page).
  apply runs_lift with tt; [unfold rassert; by rewrite Hcan|]. cbv zeta.
  set (i4 := pte_index 4 page) in *. set (i3 := pte_index 3 page) in *.
  set (i2 := pte_index 2 page) in *. set (i1 := pte_index 1 page) in *.
  eapply (test_top _ _ l [] root i4 [i3; i2; i1]); try done; cbn [app].
  { intros Hm. apply runs_ret. by rewrite Hm. }
  intros q3 E3 Hw3. eapply runs_step; [exact E3|].
  eapply (test_middle _ _ l [i4] q3 i3 [i2; i1]); try done; [|simpl; lia|..]; cbn [app length Nat.sub].
  { intros Hm. apply runs_ret. by rewrite Hm. }
  { intros e He Hp Hh Hm. apply runs_lift with tt; [unfold rassert; by rewrite (low_bits_zero page 3 30) by (eauto || lia)|].
    rewrite Hm. apply (clear_page m root l [i4] q3 i3 e); try done; [simpl; lia|by right]. }
  intros q2 E2 Hw2. eapply runs_step; [exact E2|].
  eapply (test_middle _ _ l [i4; i3] q2 i2 [i1]); try done; [|simpl; lia|..]; cbn [app length Nat.sub].
  { intros Hm. apply runs_ret. by rewrite Hm. }
  { intros e He Hp Hh Hm. apply runs_lift with tt; [unfold rassert; by rewrite (low_bits_zero page 2 21) by (eauto || lia)|].
    rewrite Hm. apply (clear_page m root l [i4; i3] q2 i2 e); try done; [simpl; lia|by right]. }
  intros q1 E1 Hw1. apply runs_lift with tt; [unfold rassert; by rewrite page_aligned|].
  eapply runs_step; [exact E1|].
  eapply (test_leaf _ _ l [i4; i3; i2] q1 i1 []); try done; cbn [app].
  { intros Hm. apply runs_ret. by rewrite Hm. }
  intros e He Hp Hm. rewrite Hm. apply (clear_page m root l [i4; i3; i2] q1 i1 e); try done; [simpl; lia|by left].
Qed.

(** ** Translation *)

(** The physical address a mapping gives to an address. *)
Definition translation (a : Z) (x : option mapping) : option Z :=
  match x with Some (Mapped level e) => Some (address e + a mod 2 ^ page_bits level) | _ => None end.

Lemma translated_step (m : machine) (root : Z) q j e n a level : entry (tables m) q j = Some e → n = page_bits level → (1 ≤ level ≤ 3)%nat →
  runs (e ← load (q, j); p ← lift (add_chk U64 (address e) (Z.land a (Z.ones n))); mret (Some p)) m
    (λ r m', r = Some (address e + a mod 2 ^ page_bits level) ∧ m' = m).
Proof.
  intros He -> Hl. eapply runs_step; [by apply load_entry|]. cbv beta. rewrite Z.land_ones by (unfold page_bits; lia).
  assert (0 ≤ address e < 2 ^ 60).
  { apply (word_land_r 60 e (mask 12 48)); [lia|by vm_compute]. }
  assert (Hm : 0 ≤ a mod 2 ^ page_bits level < 2 ^ page_bits level) by (apply Z.mod_pos_bound; unfold page_bits; lia).
  assert (Hb : 2 ^ page_bits level ≤ 2 ^ 30) by (apply Z.pow_le_mono_r; unfold page_bits; lia).
  eapply runs_lift; [apply add_chk_ret; lia|]. by apply runs_ret.
Qed.

Lemma translate_spec m l a : good m (offset m + cr3 m) l → cr3_ok m →
  runs (translate_virtual_address_to_physical_for_current_address_space a) m
    (λ r m', m' = m ∧ r = if canonical a then translation a (maps m (offset m + cr3 m) (path a)) else None).
Proof.
  intros Hg Hc. unfold translate_virtual_address_to_physical_for_current_address_space, path. cbv zeta.
  pose proof (pte_index_range 4 a). pose proof (pte_index_range 3 a).
  pose proof (pte_index_range 2 a). pose proof (pte_index_range 1 a).
  assert (Hbit : Z.land (Z.shiftr a 47) 1 = 0 ∨ Z.land (Z.shiftr a 47) 1 = 1).
  { pose proof (Z.land_ones (Z.shiftr a 47) 1 ltac:(lia)) as Hl. change (Z.ones 1) with 1 in Hl. rewrite Hl.
    pose proof (Z.mod_pos_bound (Z.shiftr a 47) (2 ^ 1) ltac:(lia)). lia. }
  assert (Hcan : (((Z.land (Z.shiftr a 47) 1 =? 0) && negb (Z.shiftr a 48 =? 0)) ||
                  ((Z.land (Z.shiftr a 47) 1 =? 1) && negb (Z.shiftr a 48 =? 65535))) = negb (canonical a))
    by (unfold canonical; destruct (Z.shiftr a 48 =? 0), (Z.shiftr a 48 =? 65535), Hbit as [-> | ->]; reflexivity).
  rewrite Hcan. destruct (canonical a); cbn [negb]; [|by apply runs_ret].
  eapply runs_step.
  { unfold current_page_table. rewrite (bind_step _ _ _ (offset m) m), (bind_step _ _ _ (cr3 m) m) by done.
    unfold lift. by rewrite add_chk_ret. }
  set (root := offset m + cr3 m) in *.
  set (i4 := pte_index 4 a) in *. set (i3 := pte_index 3 a) in *.
  set (i2 := pte_index 2 a) in *. set (i1 := pte_index 1 a) in *.
  eapply (test_top _ _ l [] root i4 [i3; i2; i1]); try done; cbn [app].
  { intros Hm. apply runs_ret. by rewrite Hm. }
  intros q3 E3 Hw3. eapply runs_step; [exact E3|].
  eapply (test_middle _ _ l [i4] q3 i3 [i2; i1]); try done; [|simpl; lia|..]; cbn [app length Nat.sub].
  { intros Hm. apply runs_ret. by rewrite Hm. }
  { intros e He Hp Hh Hm. rewrite Hm. eapply runs_mono; [by apply (translated_step m root q3 i3 e 30 a 3); [..|lia]|].
    by intros ? ? [-> ->]. }
  intros q2 E2 Hw2. eapply runs_step; [exact E2|].
  eapply (test_middle _ _ l [i4; i3] q2 i2 [i1]); try done; [|simpl; lia|..]; cbn [app length Nat.sub].
  { intros Hm. apply runs_ret. by rewrite Hm. }
  { intros e He Hp Hh Hm. rewrite Hm. eapply runs_mono; [by apply (translated_step m root q2 i2 e 21 a 2); [..|lia]|].
    by intros ? ? [-> ->]. }
  intros q1 E1 Hw1. eapply runs_step; [exact E1|].
  eapply (test_leaf _ _ l [i4; i3; i2] q1 i1 []); try done; cbn [app].
  { intros Hm. apply runs_ret. by rewrite Hm. }
  intros e He Hp Hm. rewrite Hm. eapply runs_mono; [by apply (translated_step m root q1 i1 e 12 a 1); [..|lia]|].
  by intros ? ? [-> ->].
Qed.
