(* ===== verification/PageAddr.v ===== *)
(** * Addresses and indices

    A canonical page address and its four indices determine each other. *)

From S2P Require Import Prelude Bits Frames PageTable PageWalk PageMap.

Lemma sign_extend_eq a : sign_extend a =
  if a mod 2 ^ 48 <? 2 ^ 47 then a mod 2 ^ 48 else a mod 2 ^ 48 + (U64 - 2 ^ 48).
Proof.
  unfold sign_extend. rewrite Z.shiftl_mul_pow2 by lia.
  replace (a * 2 ^ 16 mod U64) with (a mod 2 ^ 48 * 2 ^ 16) by (rewrite <- Z.mul_mod_distr_r by lia; reflexivity).
  pose proof (Z.mod_pos_bound a (2 ^ 48) ltac:(lia)). set (x := a mod 2 ^ 48) in *. clearbody x.
  rewrite Z.shiftr_div_pow2 by lia.
  destruct (Z.ltb_spec (x * 2 ^ 16) (2 ^ 63)), (Z.ltb_spec x (2 ^ 47)); try lia.
  - rewrite Z.div_mul by lia. apply Z.mod_small. lia.
  - replace (x * 2 ^ 16 - U64) with ((x - 2 ^ 48) * 2 ^ 16) by lia. rewrite Z.div_mul by lia.
    replace (x - 2 ^ 48) with (x + (U64 - 2 ^ 48) + (-1) * U64) by lia. rewrite Z.mod_add by lia. apply Z.mod_small. lia.
Qed.

Lemma sign_extend_range a : u64 (sign_extend a).
Proof.
  rewrite sign_extend_eq. pose proof (Z.mod_pos_bound a (2 ^ 48) ltac:(lia)). unfold u64.
  destruct (_ <? _) eqn:E; lia.
Qed.

Lemma sign_extend_mod a k : 0 ≤ k ≤ 48 → sign_extend a mod 2 ^ k = a mod 2 ^ k.
Proof.
  intros Hk. assert (Hp : 2 ^ 48 = 2 ^ (48 - k) * 2 ^ k) by (rewrite <- Z.pow_add_r by lia; f_equal; lia).
  assert (Hm : a mod 2 ^ 48 mod 2 ^ k = a mod 2 ^ k).
  { rewrite Hp, Z.mul_comm. rewrite Z.rem_mul_r by lia. rewrite Z.mul_comm, Z.mod_add by lia. by rewrite Z.mod_mod by lia. }
  rewrite sign_extend_eq. destruct (_ <? _); [done|].
  replace (U64 - 2 ^ 48) with (65535 * 2 ^ 48) by lia. rewrite Hp, Z.mul_assoc, Z.mod_add by lia. by rewrite <- Hp.
Qed.

Lemma canonical_sign_extend a : u64 a → (a =? sign_extend a) = canonical a.
Proof.
  unfold u64. intros Ha. unfold canonical. rewrite sign_extend_eq, !Z.shiftr_div_pow2 by lia.
  assert (Hb : Z.land (a / 2 ^ 47) 1 = a / 2 ^ 47 mod 2)
    by (apply (Z.land_ones (a / 2 ^ 47) 1); lia).
  rewrite Hb. change (2 ^ 48) with 281474976710656. change (2 ^ 47) with 140737488355328.
  destruct (Z.ltb_spec (a mod 281474976710656) 140737488355328);
    repeat match goal with |- context [?x =? ?y] => destruct (Z.eqb_spec x y) end; simpl; try reflexivity; mlia.
Qed.

Lemma page_ok_canonical page : page_ok page → canonical page = true ∧ u64 page.
Proof.
  intros [Hs _]. assert (Hu : u64 page) by (rewrite Hs; apply sign_extend_range). split; [|done].
  rewrite <- canonical_sign_extend by done. apply Z.eqb_eq. done.
Qed.

Lemma pte_index_eq level a : 1 ≤ level → pte_index level a = a / 2 ^ (12 + 9 * (level - 1)) mod 512.
Proof.
  intros. unfold pte_index. change 511 with (Z.ones 9). rewrite Z.land_ones, Z.shiftr_div_pow2 by lia. reflexivity.
Qed.

Lemma page_at_eq i4 i3 i2 i1 : 0 ≤ i4 < 512 → 0 ≤ i3 < 512 → 0 ≤ i2 < 512 → 0 ≤ i1 < 512 →
  page_at i4 i3 i2 i1 = sign_extend (i4 * 2 ^ 39 + i3 * 2 ^ 30 + i2 * 2 ^ 21 + i1 * 2 ^ 12).
Proof.
  intros. unfold page_at. f_equal.
  assert (Hadd : ∀ x y k n, 0 ≤ n ≤ k → 0 ≤ x → 0 ≤ y < 2 ^ (k - n) →
    Z.lor (Z.shiftl x k) (Z.shiftl y n) = Z.shiftl x k + Z.shiftl y n).
  { intros x y k n Hk Hx Hy. assert (Hland : Z.land (Z.shiftl x k) (Z.shiftl y n) = 0).
    { apply Z.bits_inj'. intros i Hi. rewrite Z.land_spec, !Z.shiftl_spec, Z.testbit_0_l by lia.
      destruct (decide (i < k)); [by rewrite (Z.testbit_neg_r x) by lia|].
      rewrite (word_high_bit (k - n) y) by (done || lia). apply andb_false_r. }
    rewrite <- Z.lxor_lor by done. symmetry. by apply Z.add_nocarry_lxor. }
  assert (E43 : Z.lor (Z.shiftl i4 39) (Z.shiftl i3 30) = Z.shiftl (i4 * 512 + i3) 30).
  { rewrite Hadd by lia. rewrite !Z.shiftl_mul_pow2 by lia. lia. }
  assert (E432 : Z.lor (Z.shiftl (i4 * 512 + i3) 30) (Z.shiftl i2 21) = Z.shiftl ((i4 * 512 + i3) * 512 + i2) 21).
  { rewrite Hadd by lia. rewrite !Z.shiftl_mul_pow2 by lia. lia. }
  rewrite E43, E432, Hadd by lia. rewrite !Z.shiftl_mul_pow2 by lia. lia.
Qed.

(** The indices of the page with the given indices. *)
Lemma path_page_at i4 i3 i2 i1 : 0 ≤ i4 < 512 → 0 ≤ i3 < 512 → 0 ≤ i2 < 512 → 0 ≤ i1 < 512 →
  path (page_at i4 i3 i2 i1) = [i4; i3; i2; i1] ∧ page_ok (page_at i4 i3 i2 i1).
Proof.
  intros. rewrite page_at_eq by done.
  set (x := i4 * 2 ^ 39 + i3 * 2 ^ 30 + i2 * 2 ^ 21 + i1 * 2 ^ 12).
  assert (Hx : 0 ≤ x < 2 ^ 48) by (unfold x; lia).
  assert (Hi : ∀ n, 0 ≤ n ≤ 39 → sign_extend x / 2 ^ n mod 512 = x / 2 ^ n mod 512).
  { intros n Hn. assert (Hd : ∀ y, y / 2 ^ n mod 512 = y mod 2 ^ (n + 9) / 2 ^ n).
    { intros y. replace (2 ^ (n + 9)) with (2 ^ n * 512) by (rewrite Z.pow_add_r by lia; lia).
      rewrite Z.rem_mul_r by lia. rewrite (Z.mul_comm (2 ^ n) (_ mod _)), Z.div_add by lia.
      rewrite (Z.div_small (y mod 2 ^ n)) by (apply Z.mod_pos_bound; lia). lia. }
    rewrite !Hd, sign_extend_mod by lia. done. }
  split.
  - unfold path. rewrite !pte_index_eq by lia. rewrite !Hi by lia. unfold x.
    change (2 ^ (12 + 9 * (4 - 1))) with 549755813888. change (2 ^ (12 + 9 * (3 - 1))) with 1073741824.
    change (2 ^ (12 + 9 * (2 - 1))) with 2097152. change (2 ^ (12 + 9 * (1 - 1))) with 4096.
    change (2 ^ 39) with 549755813888. change (2 ^ 30) with 1073741824. change (2 ^ 21) with 2097152. change (2 ^ 12) with 4096.
    repeat f_equal; mlia.
  - split.
    + rewrite (sign_extend_eq (sign_extend x)), (sign_extend_mod x 48), (sign_extend_eq x) by lia. done.
    + change PAGE_SIZE with (2 ^ 12). rewrite sign_extend_mod by lia. unfold x.
      change (2 ^ 39) with (134217728 * 2 ^ 12). change (2 ^ 30) with (262144 * 2 ^ 12). change (2 ^ 21) with (512 * 2 ^ 12).
      rewrite !Z.mul_assoc, <- !Z.mul_add_distr_r. apply Z.mod_mul. lia.
Qed.

(** A page is the one with its indices. *)
Lemma page_at_path page : page_ok page →
  page_at (pte_index 4 page) (pte_index 3 page) (pte_index 2 page) (pte_index 1 page) = page.
Proof.
  intros [Hs Ha]. rewrite page_at_eq by apply pte_index_range.
  rewrite Hs at 5. rewrite !(sign_extend_eq (_ + _)), (sign_extend_eq page).
  enough ((pte_index 4 page * 2 ^ 39 + pte_index 3 page * 2 ^ 30 + pte_index 2 page * 2 ^ 21 + pte_index 1 page * 2 ^ 12) mod 2 ^ 48
          = page mod 2 ^ 48) as -> by done.
  rewrite !pte_index_eq by lia.
  change (2 ^ (12 + 9 * (4 - 1))) with 549755813888. change (2 ^ (12 + 9 * (3 - 1))) with 1073741824.
  change (2 ^ (12 + 9 * (2 - 1))) with 2097152. change (2 ^ (12 + 9 * (1 - 1))) with 4096.
  change (2 ^ 39) with 549755813888. change (2 ^ 30) with 1073741824. change (2 ^ 21) with 2097152. change (2 ^ 12) with 4096.
  change (2 ^ 48) with 281474976710656. change PAGE_SIZE with 4096 in Ha. mlia.
Qed.

Lemma path_inj p p' : page_ok p → page_ok p' → path p = path p' → p = p'.
Proof.
  intros Hp Hp' He. rewrite <- (page_at_path p), <- (page_at_path p') by done. unfold path in He.
  injection He as -> -> -> ->. done.
Qed.
