(* ===== verification/PageSpace.v ===== *)
(** * An address space as a map of pages

    Any sequence of [map] and [unmap] calls on the current address space gives
    the results of a finite map from pages to frames and access rights, and
    translation gives what that map says. *)

From S2P Require Import Prelude Bits Frames PageTable PageWalk PageMap PageAddr.

(** ** The rights of a mapped page *)

Definition when (b : bool) (f : Z) : Z := if b then f else 0.

(** The flags of a page mapped with [pf]: present, and what was asked for;
    [GLOBAL] has no effect. *)
Definition rights (pf : Z) : Z :=
  Z.lor (Z.lor (Z.lor (Z.lor (Z.lor PRESENT (when (Z.testbit pf 1) WRITABLE)) (when (Z.testbit pf 3) USER_ACCESSIBLE))
    (when (negb (Z.testbit pf 2)) NO_EXECUTE)) (when (Z.testbit pf 4) WRITE_THROUGH)) (when (Z.testbit pf 5) NO_CACHE).

Lemma add_flags_frame frame g f : frame_ok frame → flag_word g → flag_word f →
  add_flags f (Z.lor frame g) = Z.lor frame (Z.lor g f).
Proof. intros. unfold add_flags, set_flags. by rewrite address_frame, flags_frame. Qed.

Lemma maybe_add_frame (b : bool) frame g f : frame_ok frame → flag_word g → flag_word f →
  (if b then add_flags f (Z.lor frame g) else Z.lor frame g) = Z.lor frame (Z.lor g (when b f)).
Proof. intros. destruct b; [by apply add_flags_frame|]. unfold when. by rewrite Z.lor_0_r. Qed.

Lemma flag_word_when (b : bool) f : flag_word f → flag_word (when b f).
Proof. by destruct b. Qed.

Lemma if_flip {A} (b : bool) (x y : A) : (if b then x else y) = (if negb b then y else x).
Proof. by destruct b. Qed.

Lemma leaf_rights frame pf : frame_ok frame → leaf frame pf = Z.lor frame (rights pf).
Proof.
  intros Hf. unfold leaf, finish, propagate, rights, Flags.WRITABLE, Flags.EXECUTABLE, Flags.USER_MODE_ACCESSIBLE,
    Flags.WRITE_THROUGH, Flags.DISABLE_CACHING. rewrite !contains_bit by lia.
  rewrite !maybe_add_frame by (try done; repeat apply flag_word_lor; try apply flag_word_when; by vm_compute).
  rewrite (if_flip (Z.testbit pf 2)).
  by rewrite !maybe_add_frame by (try done; repeat apply flag_word_lor; try apply flag_word_when; by vm_compute).
Qed.

Lemma rights_flags pf : flag_word (rights pf).
Proof. unfold rights. repeat apply flag_word_lor; try apply flag_word_when; by vm_compute. Qed.

(** ** The abstract address space *)

Inductive op := OMap (page frame pf : Z) | OUnmap (page : Z).

Definition view : Type := list Z → mapping.

Definition spec_step (o : op) (v : view) : (unit + MemoryError) * view :=
  match o with
  | OMap page frame pf =>
      match v (path page) with
      | Unmapped => (inl tt, λ π, if decide (π = path page) then Mapped 1 (Z.lor frame (rights pf)) else v π)
      | Mapped level _ => (inr (if bool_decide (level = 1%nat) then AlreadyMapped else HugePage), v)
      end
  | OUnmap page =>
      match v (path page) with
      | Unmapped => (inr NonExistentMapping, v)
      | Mapped level _ => (inl tt, λ π, if decide (take (5 - level) (path page) `prefix_of` π) then Unmapped else v π)
      end
  end.

Fixpoint spec_run (ops : list op) (v : view) : list (unit + MemoryError) * view :=
  match ops with
  | [] => ([], v)
  | o :: ops => let '(r, v) := spec_step o v in let '(rs, v) := spec_run ops v in (r :: rs, v)
  end.

(** The same calls on the machine. *)
Definition do_op (o : op) : PM (unit + MemoryError) :=
  match o with
  | OMap page frame pf =>
      r ← map_impl CurrentAddressSpace (Exact page frame) pf;
      mret (match r with inl _ => inl tt | inr e => inr e end)
  | OUnmap page => unmap CurrentAddressSpace page
  end.

Fixpoint do_ops (ops : list op) : PM (list (unit + MemoryError)) :=
  match ops with
  | [] => mret []
  | o :: ops => r ← do_op o; rs ← do_ops ops; mret (r :: rs)
  end.

(** What a caller has to give: whole pages, at canonical addresses, and for a
    huge page the address where it begins. *)
Definition op_ok (v : view) (o : op) : Prop :=
  match o with
  | OMap page frame _ => page_ok page ∧ frame_ok frame
  | OUnmap page => page_ok page ∧ ∀ level e, v (path page) = Mapped level e → page mod 2 ^ page_bits level = 0
  end.
Fixpoint ops_ok (v : view) (ops : list op) : Prop :=
  match ops with [] => True | o :: ops => op_ok v o ∧ ops_ok (spec_step o v).2 ops end.

(** The current address space shows the view. *)
Definition shows (m : machine) (v : view) : Prop :=
  ∀ π, full_path π → maps m (offset m + cr3 m) π = Some (v π).

Lemma current_step m : cr3_ok m → current_page_table m = Ret (offset m + cr3 m, m).
Proof.
  intros Hc. unfold current_page_table. rewrite (bind_step _ _ _ (offset m) m), (bind_step _ _ _ (cr3 m) m) by done.
  unfold lift. by rewrite add_chk_ret.
Qed.

Lemma allocate_good m root f l : good m root (f :: l) →
  ∃ m', allocate_frame m = Ret (Some f, m') ∧ good m' root l ∧ extends root m m'.
Proof.
  intros [Hs Hp]. destruct (pool_allocate m f l Hp) as (m' & E & Hp' & Ht & Ho & Hc & Hf & _). exists m'. split; [done|].
  split; [constructor; [by rewrite Ht, Ho|done]|]. constructor; try done; intros; by rewrite Ht, Ho.
Qed.

Lemma suffix_elem (l' l : list Z) f : l' `suffix_of` l → f ∈ l' → f ∈ l.
Proof. intros [k ->] Hf. apply elem_of_app. by right. Qed.

(** A new frame is allocated and mapped at an unmapped page. *)
Lemma allocate_and_map_spec m root f l page : good m root (f :: l) → root = offset m + cr3 m → cr3_ok m → (3 ≤ length l)%nat → page_ok page →
  maps m root (path page) = Some Unmapped →
  ∃ m1, allocate_frame m = Ret (Some f, m1) ∧
    runs (map_impl CurrentAddressSpace (Exact page f) Flags.WRITABLE) m1 (λ r m', r = inl (mkMapResult page f) ∧
      offset m' = offset m ∧ cr3 m' = cr3 m ∧ ∃ l', good m' root l' ∧ took l l' 3 ∧
      ∀ π, full_path π → maps m' root π = if decide (π = path page) then Some (Mapped 1 (leaf f Flags.WRITABLE)) else maps m root π).
Proof.
  intros Hg Hroot Hc Hl Hok Hun. destruct (allocate_good m root f l Hg) as (m1 & E & Hg1 & Hx). exists m1. split; [done|].
  destruct (pool_frame _ _ f (good_pool _ _ _ Hg) ltac:(left)) as (Hf & _).
  pose proof (ext_offset _ _ _ Hx) as Ho. pose proof (ext_cr3 _ _ _ Hx) as Hcr.
  unfold map_impl, target_table. eapply runs_step; [apply current_step; unfold cr3_ok; by rewrite Ho, Hcr|].
  rewrite Ho, Hcr, <- Hroot. eapply runs_bind; [apply (map_inner_spec m1 root l); try done; unfold cr3_ok; by rewrite Ho, Hcr|].
  intros r m' [(l' & Hg' & Ht) Hout]. unfold map_outcome in Hout.
  rewrite (ext_maps _ _ _ Hx _ (path_full _)), Hun in Hout. destruct Hout as (-> & Ho' & Hcr' & Hm & _). apply runs_ret.
  split; [done|]. split; [congruence|]. split; [congruence|]. exists l'. split; [done|]. split; [done|].
  intros π Hπ. rewrite (Hm π Hπ). case_decide; [done|]. by apply (ext_maps _ _ _ Hx).
Qed.

Lemma do_op_refines m l v o : good m (offset m + cr3 m) l → cr3_ok m → shows m v → op_ok v o → (3 ≤ length l)%nat →
  runs (do_op o) m (λ r m', r = (spec_step o v).1 ∧ shows m' (spec_step o v).2 ∧ cr3_ok m' ∧
    offset m' + cr3 m' = offset m + cr3 m ∧ ∃ l', good m' (offset m + cr3 m) l' ∧ took l l' 3).
Proof.
  intros Hg Hc Hv Ho Hl. set (root := offset m + cr3 m) in *.
  assert (Hv' : ∀ π, full_path π → maps m root π = Some (v π)) by done. destruct o as [page frame pf|page]; cbn [op_ok do_op] in *.
  - destruct Ho as [Hp Hf]. unfold map_impl, target_table. apply runs_assoc. eapply runs_step; [by apply current_step|].
    apply runs_assoc. eapply runs_bind; [by apply (map_inner_spec m root l page frame pf)|].
    intros r m' [Hl' Hout]. unfold map_outcome in Hout. rewrite (Hv' (path page) (path_full page)) in Hout.
    eapply runs_step; [reflexivity|]. apply runs_ret. cbn [spec_step]. destruct (v (path page)) as [|level e].
    + destruct Hout as (-> & Ho & Hcr & Hm & _). split; [done|]. split.
      * intros π Hπ. rewrite Ho, Hcr. fold root. rewrite <- Ho, (Hm π Hπ), leaf_rights by done. cbn [snd].
        case_decide; [done|]. apply Hv', Hπ.
      * unfold cr3_ok in *. rewrite Ho, Hcr. done.
    + destruct Hout as (-> & Hx). split; [by case_bool_decide|]. destruct Hx as [Ho Hcr _ _ Hm]. split.
      * intros π Hπ. rewrite Ho, Hcr. fold root. rewrite <- Ho, (Hm π Hπ). apply Hv', Hπ.
      * unfold cr3_ok in *. rewrite Ho, Hcr. done.
  - destruct Ho as [Hp Hal]. unfold unmap, target_table. eapply runs_step; [by apply current_step|].
    destruct (page_ok_canonical _ Hp) as [Hcan _]. eapply runs_mono; [apply (unmap_inner_spec m root l page); try done|].
    + intros level e He. rewrite (Hv' (path page) (path_full page)) in He. by eapply Hal; simplify_eq.
    + apply Hp.
    + intros r m' [Hg' Hout]. unfold unmap_outcome in Hout. rewrite (Hv' (path page) (path_full page)) in Hout.
      assert (Ht : took l l 3) by (eapply took_weaken; [apply took_refl|lia]).
      cbn [spec_step]. destruct (v (path page)) as [|level e].
      * destruct Hout as [-> ->]. split; [done|]. split; [exact Hv|]. split; [done|]. split; [done|]. by exists l.
      * destruct Hout as (-> & Ho & Hcr & Hm & _). split; [done|]. split.
        -- intros π Hπ. rewrite Ho, Hcr. fold root. rewrite <- Ho, (Hm π Hπ). cbn [snd]. case_decide; [done|]. apply Hv', Hπ.
        -- unfold cr3_ok in *. rewrite Ho, Hcr. split; [done|]. split; [done|]. by exists l.
Qed.

Lemma do_ops_refines ops m l v : good m (offset m + cr3 m) l → cr3_ok m → shows m v → ops_ok v ops →
  (3 * length ops ≤ length l)%nat →
  runs (do_ops ops) m (λ rs m', rs = (spec_run ops v).1 ∧ shows m' (spec_run ops v).2 ∧ cr3_ok m' ∧
    offset m' + cr3 m' = offset m + cr3 m ∧ ∃ l', good m' (offset m + cr3 m) l').
Proof.
  revert m l v. induction ops as [|o ops IH]; intros m l v Hg Hc Hv Ho Hl; cbn [do_ops spec_run ops_ok length] in *.
  - apply runs_ret. split; [done|]. split; [exact Hv|]. eauto.
  - destruct Ho as [Ho Hos]. eapply runs_bind; [by apply (do_op_refines m l v o); [..|lia]|].
    intros r m1 (-> & Hv1 & Hc1 & Hroot & l1 & Hg1 & [Ht _]).
    destruct (spec_step o v) as [r v1]. cbn [fst snd] in *. eapply runs_bind.
    + apply (IH m1 l1 v1); try done; [by rewrite Hroot|lia].
    + intros rs m2 (-> & Hv2 & Hc2 & Hroot2 & l2 & Hg2). apply runs_ret. destruct (spec_run ops v1) as [rs v2]. cbn [fst snd] in *.
      split; [done|]. split; [done|]. split; [done|]. rewrite Hroot2, Hroot. split; [done|]. exists l2. by rewrite <- Hroot.
Qed.

(** C24: Any sequence of [map] and [unmap] calls on the current address space, with
    three frames left for each, runs without a fault and returns what a map
    from pages to frames and rights would; afterwards every address translates
    to the byte of the frame its page has in that map, or to nothing. *)
Theorem address_space_refines_map ops m l v : good m (offset m + cr3 m) l → cr3_ok m → shows m v → ops_ok v ops →
  (3 * length ops ≤ length l)%nat →
  runs (do_ops ops) m (λ rs m', rs = (spec_run ops v).1 ∧
    ∀ a, runs (translate_virtual_address_to_physical_for_current_address_space a) m' (λ r m'',
      m'' = m' ∧ r = if canonical a then translation a (Some ((spec_run ops v).2 (path a))) else None)).
Proof.
  intros Hg Hc Hv Ho Hl. eapply runs_mono; [by apply (do_ops_refines ops m l v)|].
  intros rs m' (-> & Hv' & Hc' & Hroot & l' & Hg'). split; [done|]. intros a.
  eapply runs_mono; [apply (translate_spec m' l' a); [by rewrite Hroot|done]|].
  intros r m'' [-> ->]. split; [done|]. by rewrite (Hv' (path a) (path_full a)).
Qed.

(** C27: Any sequence of [map] and [unmap] calls on the current address space
    keeps its page tables well formed: every table it reaches is 512 words of
    64 bits at an address that fits, reached along one path only, and the
    frames left stay outside them. *)
Theorem page_tables_stay_well_formed ops m l v : good m (offset m + cr3 m) l → cr3_ok m → shows m v → ops_ok v ops →
  (3 * length ops ≤ length l)%nat →
  runs (do_ops ops) m (λ _ m', ∃ l', space (offset m') (tables m') (offset m + cr3 m) ∧ pool m' l').
Proof.
  intros Hg Hc Hv Ho Hl. eapply runs_mono; [by apply (do_ops_refines ops m l v)|].
  intros rs m' (_ & _ & _ & _ & l' & Hs & Hp). by exists l'.
Qed.

(** ** A machine to start from: an empty top-level table, and the frames of
    one region. *)

Lemma space_empty off T root : 0 ≤ root < U64 → T !! root = Some (zeros 512) → space off T root.
Proof.
  intros Hr HT.
  assert (Hw : ∀ π p, walk off T 4 root π = Some p → π = [] ∧ p = root).
  { intros [|i π] p Hp; cbn [walk] in Hp; [by simplify_eq|]. exfalso.
    destruct (entry T root i) as [e|] eqn:He; [|done]. unfold entry in He. rewrite HT in He.
    destruct (i <? 0); [done|]. cbn [mbind option_bind] in He. unfold zeros in He.
    apply lookup_replicate in He as [-> _]. done. }
  constructor.
  - intros π p Hp _. destruct (Hw π p Hp) as [-> ->]. split; [done|]. exists (zeros 512). split_and!; [done|done|].
    unfold zeros. apply Forall_replicate. unfold word. lia.
  - intros π π' p Hp Hp' _ _. destruct (Hw π p Hp) as [-> _]. by destruct (Hw π' p Hp') as [-> _].
Qed.

Definition sample_offset : Z := 0xffff800000000000.
Definition boot_machine (size : Z) : machine :=
  mkMachine (FrameAllocator_new [mkEntry 0x1000 0x3000 false; mkEntry 0x100000 size true]) sample_offset
    {[ sample_offset + 0x1000 := zeros 512 ]} 0x1000 0.
Definition boot_frames (size : Z) : list Z := region_frames 0x100000 (0x100000 + size).
Definition boot_root : Z := sample_offset + 0x1000.
Definition sample_machine : machine := boot_machine 0x10000.
Definition sample_frames : list Z := boot_frames 0x10000.

Lemma length_boot size : 0 ≤ size → size mod FRAME_SIZE = 0 → Z.of_nat (length (boot_frames size)) = size / FRAME_SIZE.
Proof.
  intros H0 Hm. unfold boot_frames. rewrite length_region. destruct (steps_whole 0x100000 (0x100000 + size)) as [-> _]; [done|..].
  - unfold FRAME_SIZE in *. mlia.
  - lia.
  - unfold FRAME_SIZE in *. rewrite Z2Nat.id by mlia. f_equal. lia.
Qed.

Lemma boot_good size : 0 ≤ size < 2 ^ 40 → size mod FRAME_SIZE = 0 → good (boot_machine size) boot_root (boot_frames size).
Proof.
  intros Hs Hm. pose proof (length_boot size ltac:(lia) Hm) as Hlen. unfold FRAME_SIZE in Hlen.
  assert (Hl : frame_list (memory_map_entries (frame_allocator (boot_machine size))) = boot_frames size) by apply app_nil_r.
  constructor.
  - apply space_empty; [by vm_compute|]. apply lookup_singleton_eq.
  - constructor; rewrite ?Hl.
    + apply Forall_cons. split; [done|]. apply Forall_singleton. intros _. unfold FRAME_SIZE in *. cbn [base length_]. repeat split; lia.
    + done.
    + done.
    + unfold zlen. mlia.
    + apply region_nodup.
    + apply Forall_forall. intros f Hf. apply list_elem_of_lookup_1 in Hf as [k Hk].
      pose proof (lookup_lt_Some _ _ _ Hk) as Hlt. apply lookup_region in Hk as [-> _].
      assert (Hk : Z.of_nat k < size / 4096) by lia. unfold FRAME_SIZE. cbn [physical_memory_offset boot_machine tables].
      split; [mlia|]. split; [unfold sample_offset; mlia|]. apply lookup_singleton_None. unfold sample_offset. lia.
Qed.

Lemma sample_good : good sample_machine boot_root sample_frames.
Proof. by apply boot_good. Qed.

Lemma boot_maps size π : full_path π → maps (boot_machine size) boot_root π = Some Unmapped.
Proof.
  intros [Hl Hi]. destruct π as [|i π]; [done|]. apply Forall_cons in Hi as [Hi _]. cbn [resolve].
  assert (He : entry (tables (boot_machine size)) boot_root i = Some 0).
  { unfold entry. destruct (Z.ltb_spec i 0); [lia|]. cbn [tables boot_machine]. unfold boot_root.
    rewrite (lookup_singleton_eq (M := gmap Z)). cbn [mbind option_bind]. unfold zeros. apply lookup_replicate. split; [done|lia]. }
  by rewrite He.
Qed.

Lemma sample_shows : shows sample_machine (λ _, Unmapped).
Proof. intros π. exact (boot_maps 0x10000 π). Qed.

Definition sample_ops : list op := [OMap 0x400000 0x5000 (Z.lor Flags.WRITABLE Flags.EXECUTABLE);
  OMap 0x400000 0x6000 0; OUnmap 0x400000].

Lemma address_space_refines_map_witness :
  runs (do_ops sample_ops) sample_machine (λ rs _, rs = [inl tt; inr AlreadyMapped; inl tt]).
Proof.
  eapply runs_mono; [apply (address_space_refines_map sample_ops sample_machine sample_frames (λ _, Unmapped))|].
  - apply sample_good.
  - by vm_compute.
  - apply sample_shows.
  - cbn [ops_ok sample_ops op_ok]. split; [by vm_compute|]. split; [by vm_compute|]. split; [|done].
    split; [by vm_compute|]. intros level e He. by vm_compute in He; simplify_eq.
  - vm_compute. lia.
  - intros rs m' [-> _]. by vm_compute.
Defined.

Lemma page_tables_stay_well_formed_witness :
  runs (do_ops sample_ops) sample_machine (λ _ m', space (offset m') (tables m') boot_root).
Proof.
  eapply runs_mono; [apply (page_tables_stay_well_formed sample_ops sample_machine sample_frames (λ _, Unmapped))|].
  - apply sample_good.
  - by vm_compute.
  - apply sample_shows.
  - cbn [ops_ok sample_ops op_ok]. split; [by vm_compute|]. split; [by vm_compute|]. split; [|done].
    split; [by vm_compute|]. intros level e He. by vm_compute in He; simplify_eq.
  - vm_compute. lia.
  - by intros rs m' (l' & Hs & _).
Defined.
