(* ===== verification/PageAny.v ===== *)
(** * Mapping at a free address

    [map_any_inner] finds a free page within a range of top-level entries and
    maps it, adding at most three tables. *)

From S2P Require Import Prelude Bits Frames PageTable PageWalk PageMap PageAddr PageSpace.

(** ** Writing the entry of a page whose tables exist *)

Lemma walk_entry m root ρ q i p : walks m root ρ = Some q → walks m root (ρ ++ [i]) = Some p →
  ∃ e, entry (tables m) q i = Some e ∧ links (4 - length ρ) e = true.
Proof.
  intros Hw Hn. rewrite walk_app, Hw in Hn. cbn [mbind option_bind walk] in Hn.
  destruct (entry (tables m) q i) as [e|]; [|done]. exists e. split; [done|]. by destruct (links _ e).
Qed.

(** What a step that touches only flags of tables above keeps. *)
Lemma propagate_path m root l ρ q i p pf : good m root l → walks m root ρ = Some q → walks m root (ρ ++ [i]) = Some p →
  (length ρ ≤ 2)%nat →
  ∃ m', assign_propagable_page_flags_to_page_table_entry (q, i) pf m = Ret (tt, m') ∧ good m' root l ∧ extends root m m'.
Proof.
  intros Hg Hw Hn Hl. destruct (walk_entry _ _ _ _ _ _ Hw Hn) as (e & He & Hk).
  assert (Hwd : word 64 e).
  { destruct (space_table _ _ _ (good_space _ _ _ Hg) ρ q Hw ltac:(lia)) as (_ & t & Ht & _ & Hf).
    unfold entry in He. destruct (i <? 0); [done|]. rewrite Ht in He. rewrite Forall_lookup in Hf. by eapply Hf. }
  destruct (relink_good m root l ρ q i e (propagate pf e) Hg Hw Hl He Hk Hwd (propagate_link pf e)) as (Hg' & Hx & _).
  eexists. split; [by apply propagate_step|]. done.
Qed.

Lemma maps_entry m root ρ q i e : walks m root ρ = Some q → length ρ = 3%nat →
  maps m root (ρ ++ [i]) = Some (Mapped 1 e) → entry (tables m) q i = Some e.
Proof.
  intros Hw Hl Hm. rewrite (resolve_app _ _ _ _ _ _ q Hw) in Hm by done. rewrite Hl in Hm. cbn [resolve Nat.sub] in Hm.
  destruct (entry (tables m) q i) as [x|]; [|done]. destruct (Z.testbit x 0); by simplify_eq.
Qed.

(** [m'] is [m] with one page mapped. *)
Record takes (root : Z) (π : list Z) (e : Z) (m m' : machine) : Prop := {
  tk_offset : offset m' = offset m;
  tk_cr3 : cr3 m' = cr3 m;
  tk_flushes : tlb_flushes m' = tlb_flushes m;
  tk_walks : ∀ ρ p, (length ρ ≤ 3)%nat → walks m root ρ = Some p → walks m' root ρ = Some p;
  tk_maps : ∀ ρ, full_path ρ → maps m' root ρ = if decide (ρ = π) then Some (Mapped 1 e) else maps m root ρ
}.

Lemma takes_extends root π e m m1 m2 : takes root π e m m1 → extends root m1 m2 → takes root π e m m2.
Proof.
  intros [] []. constructor; [congruence..|auto|]. intros ρ Hρ. rewrite ext_maps by done. auto.
Qed.

Lemma extends_takes root π e m m1 m2 : extends root m m1 → takes root π e m1 m2 → takes root π e m m2.
Proof.
  intros [] []. constructor; [congruence..|auto|]. intros ρ Hρ. rewrite tk_maps0, ext_maps by done. done.
Qed.

Lemma takes_leaf m root l ρ q i e e' : good m root l → walks m root ρ = Some q → length ρ = 3%nat →
  entry (tables m) q i = Some e → word 64 e' → Z.testbit e' 0 = true →
  let m' := m <| tables := put (tables m) q i e' |> in good m' root l ∧ takes root (ρ ++ [i]) e' m m'.
Proof.
  intros Hg Hw Hl He Hwd Hp m'. destruct (leaf_good m root l ρ q i e e' Hg Hw Hl He Hwd) as (Hg' & _ & Hwk & Hm).
  split; [done|]. constructor; try done.
  - intros σ p Hσ Hws. etrans; [apply (Hwk σ Hσ)|done].
  - intros σ [Hσ _]. etrans; [apply (Hm σ Hσ)|]. by rewrite Hp.
Qed.

Lemma takes_again root π e e' m m1 m2 : takes root π e m m1 → takes root π e' m1 m2 → takes root π e' m m2.
Proof.
  intros [] []. constructor; [congruence..|auto|]. intros ρ Hρ. rewrite tk_maps1 by done. case_decide; [done|].
  rewrite tk_maps0 by done. by rewrite decide_False.
Qed.

Section TakePage.
Context (m : machine) (root : Z) (l : list Z) (i4 i3 i2 i1 q3 q2 q1 : Z).
Hypothesis Hg : good m root l.
Hypothesis H3 : walks m root [i4] = Some q3.
Hypothesis H2 : walks m root [i4; i3] = Some q2.
Hypothesis H1 : walks m root [i4; i3; i2] = Some q1.
Hypothesis Hi : indices [i4; i3; i2; i1].
Let π := [i4; i3; i2; i1].

Lemma take_page frame pf : frame_ok frame →
  runs (point_leaf (q1, i1) frame;; assign_all (root, i4) (q3, i3) (q2, i2) (q1, i1) pf;; finish_leaf (q1, i1) pf) m
    (λ _ m', good m' root l ∧ takes root π (leaf frame pf) m m').
Proof.
  intros Hf. assert (Hi1 : 0 ≤ i1 < 512) by (do 3 apply Forall_cons in Hi as [_ Hi]; by apply Forall_cons in Hi as [? _]).
  destruct (good_entry _ _ _ _ _ i1 Hg H1) as (e & He & _); [simpl; lia|done|].
  eapply runs_step; [by apply (point_leaf_step _ _ _ _ _ He)|].
  destruct (takes_leaf m root l [i4; i3; i2] q1 i1 e (Z.lor frame PRESENT) Hg H1 eq_refl He) as [Hg1 Ht1];
    [by apply word_frame|by rewrite Z.lor_spec, orb_true_r|].
  cbn [app] in Ht1. fold π in Ht1. set (ma := m <| tables := _ |>) in *. clearbody ma.
  pose proof (tk_walks _ _ _ _ _ Ht1) as Hk.
  destruct (propagate_path ma root l [] root i4 q3 pf Hg1 eq_refl) as (mb & Eb & Hgb & Hxb); [by apply Hk; [simpl; lia|]|simpl; lia|].
  unfold assign_all. apply runs_assoc. eapply runs_step; [exact Eb|]. pose proof (ext_walks _ _ _ Hxb) as Hkb.
  destruct (propagate_path mb root l [i4] q3 i3 q2 pf Hgb) as (mc & Ec & Hgc & Hxc);
    [by apply Hkb, Hk; simpl; [lia..|]|by apply Hkb, Hk; simpl; [lia..|]|simpl; lia|].
  apply runs_assoc. eapply runs_step; [exact Ec|]. pose proof (ext_walks _ _ _ Hxc) as Hkc.
  destruct (propagate_path mc root l [i4; i3] q2 i2 q1 pf Hgc) as (md & Ed & Hgd & Hxd);
    [by apply Hkc, Hkb, Hk; simpl; [lia..|]|by apply Hkc, Hkb, Hk; simpl; [lia..|]|simpl; lia|].
  apply runs_assoc. eapply runs_step; [exact Ed|].
  assert (Htd : takes root π (Z.lor frame PRESENT) m md) by (eapply takes_extends; [exact Ht1|]; etrans; [exact Hxb|]; by etrans).
  assert (Hw1 : walks md root [i4; i3; i2] = Some q1) by (by apply (tk_walks _ _ _ _ _ Htd); [simpl; lia|]).
  assert (Hed : entry (tables md) q1 i1 = Some (Z.lor frame PRESENT)).
  { apply (maps_entry md root [i4; i3; i2]); [done|done|]. cbn [app]. rewrite (tk_maps _ _ _ _ _ Htd) by by split. by rewrite decide_True. }
  eapply runs_step; [by apply propagate_step|]. eexists (tt, _). split.
  { rewrite (finish_step _ _ _ (propagate pf (Z.lor frame PRESENT))) by (rewrite tables_update; by eapply entry_put_eq).
    rewrite tables_update, put_put, update_twice. reflexivity. }
  destruct (takes_leaf md root l [i4; i3; i2] q1 i1 _ (leaf frame pf) Hgd Hw1 eq_refl Hed) as [Hge Hte];
    [by apply leaf_word|apply leaf_present|].
  split; [done|]. by eapply takes_again.
Qed.
End TakePage.

(** ** The search *)

(** A page that may be taken: not mapped, and not the page at address 0. *)
Definition free (m : machine) (root : Z) (π : list Z) : Prop :=
  maps m root π = Some Unmapped ∧ π ≠ [0; 0; 0; 0].

(** The result of searching the pages of [P]: one of them is mapped with at
    most [k] new tables, or none is free and nothing has changed. *)
Definition found (root frame pf : Z) (P : list Z → Prop) (l : list Z) (k : nat) (m : machine)
  (r : option Z) (m' : machine) : Prop :=
  match r with
  | Some page =>
      ∃ l', P (path page) ∧ page_ok page ∧ free m root (path page) ∧
        good m' root l' ∧ took l l' k ∧ takes root (path page) (leaf frame pf) m m'
  | None => m' = m ∧ ∀ π, full_path π → P π → ¬ free m root π
  end.

Lemma first_of_found root frame pf (P : Z → list Z → Prop) l k m js body :
  (∀ i, i ∈ js → runs (body i) m (found root frame pf (P i) l k m)) →
  runs (first_of js body) m (found root frame pf (λ π, ∃ i, i ∈ js ∧ P i π) l k m).
Proof.
  induction js as [|i js IH]; intros Hb; cbn [first_of].
  - apply runs_ret. split; [done|]. intros π _ (i & Hi & _). by apply not_elem_of_nil in Hi.
  - eapply runs_bind; [apply Hb; by left|]. intros [page|] m' Hr.
    + apply runs_ret. destruct Hr as (l' & Hp & Hr). exists l'. split; [|done]. exists i. split; [by left|done].
    + destruct Hr as [-> Hn]. eapply runs_mono; [apply IH; intros j Hj; apply Hb; by right|].
      intros [page|] m' Hr.
      * destruct Hr as (l' & (j & Hj & Hp) & Hr). exists l'. split; [|done]. exists j. split; [by right|done].
      * destruct Hr as [-> Hn']. split; [done|]. intros π Hπ (j & [->|Hj]%elem_of_cons & Hp); [by apply Hn|].
        apply Hn'; [done|]. by exists j.
Qed.

Lemma found_pages root frame pf (P P' : list Z → Prop) l k m r m' : (∀ π, full_path π → P π ↔ P' π) →
  found root frame pf P l k m r m' → found root frame pf P' l k m r m'.
Proof.
  intros HP. destruct r as [page|]; cbn [found].
  - intros (l' & Hp & Hr). exists l'. split; [by apply HP; [apply path_full|]|done].
  - intros [-> Hn]. split; [done|]. intros π Hπ Hp. by apply Hn; [|apply HP].
Qed.

Lemma found_more root frame pf P l k k' m r m' : (k ≤ k')%nat →
  found root frame pf P l k m r m' → found root frame pf P l k' m r m'.
Proof.
  intros Hk. destruct r as [page|]; cbn [found]; [|done].
  intros (l' & ? & ? & ? & ? & Ht & ?). exists l'. split_and!; try done. by eapply took_weaken.
Qed.

(** A search after a new table was added: it finds a page there. *)
Lemma found_new root frame pf P l l1 k m m1 r m' π0 : extends root m m1 → took l l1 1 → full_path π0 → P π0 → free m1 root π0 →
  found root frame pf P l1 k m1 r m' → found root frame pf P l (S k) m r m'.
Proof.
  intros Hx Ht Hπ0 HP Hfree. destruct r as [page|]; cbn [found]; [|intros [_ Hn]; by destruct (Hn π0)].
  intros (l' & Hp & Hok & [Hm Hz] & Hg & Ht' & Htk). exists l'. split_and!; try done.
  - split; [|done]. by rewrite <- (ext_maps _ _ _ Hx _ (path_full page)).
  - exact (took_trans _ _ _ 1 k Ht Ht').
  - by eapply extends_takes.
Qed.

(** ** The cases at a middle level *)

Lemma ensure_cases m root l ρ q j : good m root l → walks m root ρ = Some q → 0 ≤ j < 512 → l ≠ [] → (1 ≤ length ρ ≤ 2)%nat →
  (ensure_table_or_huge (q, j) m = Ret (true, m) ∧ ∀ rest, rest ≠ [] → maps m root (ρ ++ j :: rest) ≠ Some Unmapped) ∨
  (∃ p, ensure_table_or_huge (q, j) m = Ret (false, m) ∧ lower_table (q, j) m = Ret (p, m) ∧
        walks m root (ρ ++ [j]) = Some p) ∨
  (∃ m' l' p, ensure_table_or_huge (q, j) m = Ret (false, m') ∧ lower_table (q, j) m' = Ret (p, m') ∧
        walks m' root (ρ ++ [j]) = Some p ∧ good m' root l' ∧ extends root m m' ∧ took l l' 1 ∧
        ∀ i rest, 0 ≤ i < 512 → maps m' root (ρ ++ [j] ++ i :: rest) = Some Unmapped).
Proof.
  intros Hg Hw Hj Hne Hlen. destruct (good_entry _ _ _ _ _ j Hg Hw ltac:(lia) Hj) as (e & He & Hwd).
  assert (Hlev : (4 - length ρ = 3 ∨ 4 - length ρ = 2)%nat) by lia.
  unfold ensure_table_or_huge. rewrite (bind_step _ _ _ _ _ (entry_flags_step _ _ _ _ He)), contains_present.
  destruct (Z.testbit e 0) eqn:Hp.
  - rewrite (bind_step _ _ _ _ _ (entry_flags_step _ _ _ _ He)), contains_huge. destruct (Z.testbit e 7) eqn:H7.
    + left. split; [done|]. intros rest Hr. rewrite (huge_maps m root ρ q j e rest) by (done || by rewrite huge_level). done.
    + right; left. destruct (level_down m root l ρ q j Hg Hw e) as (p & El & Hn); [lia|done|by apply links_level|]. by exists p.
  - right; right. destruct l as [|f l']; [done|].
    destruct (allocate_table_good m root f l' ρ q j e Hg Hw ltac:(lia) He Hp) as (m' & Ea & Hg' & Hx & He' & Hz & Hn).
    destruct (pool_frame _ _ f (good_pool _ _ _ Hg) ltac:(left)) as (Hf & Hr & _).
    exists m', l', (f + offset m). split_and!; try done.
    + unfold expect. by rewrite (bind_step _ _ _ tt m') by (by rewrite (bind_step _ _ _ _ _ Ea)).
    + rewrite <- (ext_offset _ _ _ Hx). rewrite <- (address_frame f PRESENT) by (done || by vm_compute).
      apply lower_table_step; [done|]. rewrite address_frame by (done || by vm_compute). by rewrite (ext_offset _ _ _ Hx).
    + apply took_cons.
    + intros i rest Hi. rewrite app_assoc, (resolve_app _ _ _ _ _ _ _ Hn) by done. cbn [resolve]. by rewrite Hz.
Qed.

Lemma ensure_top_cases m root l j : good m root l → 0 ≤ j < 512 → l ≠ [] →
  (∃ p, ensure_table (root, j) m = Ret (tt, m) ∧ lower_table (root, j) m = Ret (p, m) ∧ walks m root [j] = Some p) ∨
  (∃ m' l' p, ensure_table (root, j) m = Ret (tt, m') ∧ lower_table (root, j) m' = Ret (p, m') ∧
        walks m' root [j] = Some p ∧ good m' root l' ∧ extends root m m' ∧ took l l' 1 ∧
        ∀ i rest, 0 ≤ i < 512 → maps m' root (j :: i :: rest) = Some Unmapped).
Proof.
  intros Hg Hj Hne. assert (Hw : walks m root [] = Some root) by done.
  destruct (good_entry _ _ _ _ _ j Hg Hw ltac:(simpl; lia) Hj) as (e & He & Hwd).
  unfold ensure_table. rewrite (bind_step _ _ _ _ _ (entry_flags_step _ _ _ _ He)), contains_present.
  destruct (Z.testbit e 0) eqn:Hp.
  - left. destruct (level_down m root l [] root j Hg Hw e) as (p & El & Hn); [simpl; lia|done|by unfold links; rewrite Hp|]. by exists p.
  - right. destruct l as [|f l']; [done|].
    destruct (allocate_table_good m root f l' [] root j e Hg Hw ltac:(simpl; lia) He Hp) as (m' & Ea & Hg' & Hx & He' & Hz & Hn).
    destruct (pool_frame _ _ f (good_pool _ _ _ Hg) ltac:(left)) as (Hf & Hr & _).
    exists m', l', (f + offset m). split_and!; try done.
    + unfold expect. by rewrite (bind_step _ _ _ _ _ Ea).
    + rewrite <- (ext_offset _ _ _ Hx). rewrite <- (address_frame f PRESENT) by (done || by vm_compute).
      apply lower_table_step; [done|]. rewrite address_frame by (done || by vm_compute). by rewrite (ext_offset _ _ _ Hx).
    + apply took_cons.
    + intros i rest Hi. change (j :: i :: rest) with ([j] ++ i :: rest).
      rewrite (resolve_app _ _ _ _ _ _ _ Hn) by done. cbn [resolve]. by rewrite Hz.
Qed.

(** ** The four loops *)

Lemma not_first_page i4 i3 i2 i1 : first_page i4 i3 i2 i1 = false ↔ [i4; i3; i2; i1] ≠ [0; 0; 0; 0].
Proof.
  unfold first_page. destruct (Z.eqb_spec i4 0), (Z.eqb_spec i3 0), (Z.eqb_spec i2 0), (Z.eqb_spec i1 0); simpl; naive_solver.
Qed.

(** A prefix and the loop over the next index. *)
Lemma prefix_loop ρ π : full_path π → (length ρ ≤ 3)%nat →
  (∃ i, i ∈ seqZ 0 512 ∧ (ρ ++ [i]) `prefix_of` π) ↔ ρ `prefix_of` π.
Proof.
  intros [Hl Hi] Hr. split.
  - intros (i & _ & k & ->). exists ([i] ++ k). by rewrite app_assoc.
  - intros [k ->]. destruct k as [|i k]; [rewrite app_nil_r in Hl; lia|]. exists i. split.
    + apply Forall_app in Hi as [_ Hi]. apply Forall_cons in Hi as [Hi _]. apply elem_of_seqZ. lia.
    + exists k. by rewrite <- app_assoc.
Qed.

Lemma prefix_full ρ π : full_path π → length ρ = 4%nat → ρ `prefix_of` π → π = ρ.
Proof.
  intros [Hl _] Hr [k ->]. rewrite length_app in Hl. destruct k; [by rewrite app_nil_r|simpl in Hl; lia].
Qed.

Section Search.
Context (root frame pf : Z).
Hypothesis Hf : frame_ok frame.

Lemma search_pages m l i4 i3 i2 q3 q2 q1 : good m root l → 0 ≤ i4 < 512 → 0 ≤ i3 < 512 → 0 ≤ i2 < 512 →
  walks m root [i4] = Some q3 → walks m root [i4; i3] = Some q2 → walks m root [i4; i3; i2] = Some q1 →
  runs (first_of (seqZ 0 512) (take_free_page i4 i3 i2 (root, i4) (q3, i3) (q2, i2) q1 frame pf)) m
    (found root frame pf (prefix [i4; i3; i2]) l 0 m).
Proof.
  intros Hg B4 B3 B2 H3 H2 H1. eapply runs_mono.
  - apply (first_of_found root frame pf (λ i1, prefix [i4; i3; i2; i1]) l 0 m). intros i1 Hi1. apply elem_of_seqZ in Hi1.
    assert (Hfull : full_path [i4; i3; i2; i1]) by (split; [done|repeat constructor; lia]).
    unfold take_free_page. destruct (first_page i4 i3 i2 i1) eqn:Hfp.
    + apply runs_ret. split; [done|]. intros π Hπ Hpre [_ Hz]. apply prefix_full in Hpre; [|done..]. subst π.
      by apply not_first_page in Hz; rewrite Hfp in Hz.
    + apply not_first_page in Hfp.
      destruct (level_cases m root l [i4; i3; i2] q1 i1 Hg H1) as (e & E & He & Hc & _ & Hu); [lia|simpl; lia|].
      eapply runs_step; [exact E|]. cbv beta. rewrite Hc. destruct (Z.testbit e 0) eqn:Hp.
      * apply runs_ret. split; [done|]. intros π Hπ Hpre [Hm _]. apply prefix_full in Hpre; [|done..]. subst π.
        pose proof (leaf_maps m root [i4; i3; i2] q1 i1 H1 e eq_refl He Hp) as Hm'. cbn [app] in Hm'. congruence.
      * destruct (path_page_at i4 i3 i2 i1) as [Hpath Hok]; [lia..|].
        destruct (take_page m root l i4 i3 i2 i1 q3 q2 q1 Hg H3 H2 H1 (proj2 Hfull) frame pf Hf) as ([[] m'] & Et & Hg' & Htk).
        exists (Some (page_at i4 i3 i2 i1), m'). split.
        -- revert Et. unfold mbind, PM_bind. destruct (point_leaf _ _ m) as [[[] ma]|]; [|done].
           destruct (assign_all _ _ _ _ _ ma) as [[[] mb]|]; [|done]. intros ->. unfold lift, Page_new, is_aligned_to.
           destruct Hok as [_ ->]. done.
        -- exists l. rewrite Hpath. split_and!; try done. by split; [apply (Hu eq_refl [])|].
  - intros r m'. apply found_pages. intros π Hπ. by apply (prefix_loop [i4; i3; i2]); [|simpl; lia].
Qed.

Lemma search_2 m l i4 i3 q3 q2 : good m root l → (1 ≤ length l)%nat → 0 ≤ i4 < 512 → 0 ≤ i3 < 512 →
  walks m root [i4] = Some q3 → walks m root [i4; i3] = Some q2 →
  runs (first_of (seqZ 0 512) (search_level_2 i4 i3 (root, i4) (q3, i3) q2 frame pf)) m
    (found root frame pf (prefix [i4; i3]) l 1 m).
Proof.
  intros Hg Hl B4 B3 H3 H2. eapply runs_mono.
  - apply (first_of_found root frame pf (λ i2, prefix [i4; i3; i2]) l 1 m). intros i2 Hi2. apply elem_of_seqZ in Hi2.
    unfold search_level_2. destruct (ensure_cases m root l [i4; i3] q2 i2 Hg H2) as
      [[E Hn]|[(q1 & E & El & H1)|(m1 & l1 & q1 & E & El & H1 & Hg1 & Hx & Ht & Hz)]]; [lia|by intros ->; simpl in Hl; lia|simpl; lia|..];
      (eapply runs_step; [exact E|]); cbv beta iota.
    + apply runs_ret. split; [done|]. intros π [Hπ _] [k ->] [Hm _].
      apply (Hn k); [|exact Hm]. intros ->. simpl in Hπ. lia.
    + eapply runs_step; [exact El|]. eapply runs_mono; [by apply (search_pages m l i4 i3 i2 q3 q2 q1); [..|lia| | |]|].
      intros r m'. apply found_more. lia.
    + eapply runs_step; [exact El|]. pose proof (ext_walks _ _ _ Hx) as Hk.
      eapply runs_mono; [apply (search_pages m1 l1 i4 i3 i2 q3 q2 q1); try done; try lia; by apply Hk; [simpl; lia|]|].
      intros r m'. apply (found_new root frame pf _ l l1 0 m m1 r m' [i4; i3; i2; 1]); try done.
      * split; [done|repeat constructor; lia].
      * by exists [1].
      * split; [by apply (Hz 1 []); lia|done].
  - intros r m'. apply found_pages. intros π Hπ. by apply (prefix_loop [i4; i3]); [|simpl; lia].
Qed.

Lemma search_3 m l i4 q3 : good m root l → (2 ≤ length l)%nat → 0 ≤ i4 < 512 → walks m root [i4] = Some q3 →
  runs (first_of (seqZ 0 512) (search_level_3 i4 (root, i4) q3 frame pf)) m (found root frame pf (prefix [i4]) l 2 m).
Proof.
  intros Hg Hl B4 H3. eapply runs_mono.
  - apply (first_of_found root frame pf (λ i3, prefix [i4; i3]) l 2 m). intros i3 Hi3. apply elem_of_seqZ in Hi3.
    unfold search_level_3. destruct (ensure_cases m root l [i4] q3 i3 Hg H3) as
      [[E Hn]|[(q2 & E & El & H2)|(m1 & l1 & q2 & E & El & H2 & Hg1 & Hx & Ht & Hz)]]; [lia|by intros ->; simpl in Hl; lia|simpl; lia|..];
      (eapply runs_step; [exact E|]); cbv beta iota.
    + apply runs_ret. split; [done|]. intros π [Hπ _] [k ->] [Hm _].
      apply (Hn k); [|exact Hm]. intros ->. simpl in Hπ. lia.
    + eapply runs_step; [exact El|]. eapply runs_mono; [by apply (search_2 m l i4 i3 q3 q2); [|lia..| |]|].
      intros r m'. apply found_more. lia.
    + eapply runs_step; [exact El|]. pose proof (ext_walks _ _ _ Hx) as Hk. destruct Ht as [Hlen Hsuf].
      eapply runs_mono; [apply (search_2 m1 l1 i4 i3 q3 q2); try done; try lia; by apply Hk; [simpl; lia|]|].
      intros r m'. apply (found_new root frame pf _ l l1 1 m m1 r m' [i4; i3; 0; 1]); try done.
      * split; [done|repeat constructor; lia].
      * by exists [0; 1].
      * split; [by apply (Hz 0 [1]); lia|done].
  - intros r m'. apply found_pages. intros π Hπ. by apply (prefix_loop [i4]); [|simpl; lia].
Qed.

Lemma search_4 m l lo hi : good m root l → (3 ≤ length l)%nat → 0 ≤ lo → hi ≤ 512 →
  runs (first_of (seqZ lo (hi - lo)) (search_level_4 root frame pf)) m
    (found root frame pf (λ π, ∃ i4, lo ≤ i4 < hi ∧ [i4] `prefix_of` π) l 3 m).
Proof.
  intros Hg Hl Hlo Hhi. eapply runs_mono.
  - apply (first_of_found root frame pf (λ i4, prefix [i4]) l 3 m). intros i4 Hi4. apply elem_of_seqZ in Hi4.
    unfold search_level_4. destruct (ensure_top_cases m root l i4 Hg) as
      [(q3 & E & El & H3)|(m1 & l1 & q3 & E & El & H3 & Hg1 & Hx & Ht & Hz)]; [lia|by intros ->; simpl in Hl; lia|..];
      (eapply runs_step; [exact E|]); (eapply runs_step; [exact El|]).
    + eapply runs_mono; [by apply (search_3 m l i4 q3); [|lia..|]|]. intros r m'. apply found_more. lia.
    + destruct Ht as [Hlen Hsuf]. eapply runs_mono; [by apply (search_3 m1 l1 i4 q3); [|lia..|]|].
      intros r m'. apply (found_new root frame pf _ l l1 2 m m1 r m' [i4; 0; 0; 1]); try done.
      * split; [done|repeat constructor; lia].
      * by exists [0; 0; 1].
      * split; [by apply (Hz 0 [0; 1]); lia|done].
  - intros r m'. apply found_pages. intros π Hπ. split; intros (i & Hi & Hp); exists i; (split; [|done]).
    + apply elem_of_seqZ in Hi. lia.
    + apply elem_of_seqZ. lia.
Qed.
End Search.

Lemma map_any_inner_spec m root l lo hi frame pf : good m root l → (3 ≤ length l)%nat → 0 ≤ lo → hi ≤ 512 → frame_ok frame →
  (∃ π, full_path π ∧ free m root π ∧ ∃ i4, lo ≤ i4 < hi ∧ [i4] `prefix_of` π) →
  runs (map_any_inner root lo hi frame pf) m (λ page m',
    lo ≤ pte_index 4 page < hi ∧ page_ok page ∧ free m root (path page) ∧
    (∃ l', good m' root l' ∧ took l l' 3) ∧ takes root (path page) (leaf frame pf) m m').
Proof.
  intros Hg Hl Hlo Hhi Hf (π & Hπ & Hfree & Hi). unfold map_any_inner, expect.
  eapply runs_bind; [by apply (search_4 root frame pf Hf m l lo hi)|]. intros [page|] m' Hr.
  - apply runs_ret. destruct Hr as (l' & (i4 & Hi4 & k & Hk) & Hok & Hfr & Hg' & Ht & Htk).
    split_and!; try done; [..|by exists l'].
    all: injection Hk as Hk _; lia.
  - destruct Hr as [_ Hn]. exfalso. by apply (Hn π).
Qed.

(** ** Claims *)

Definition root_of (m : machine) (target : MapTarget) : Z :=
  match target with CurrentAddressSpace => offset m + cr3 m | CustomAddressSpace page_table => page_table end.

Lemma target_step m target : cr3_ok m → target_table target m = Ret (root_of m target, m).
Proof. intros Hc. destruct target; [by apply current_step|done]. Qed.

Definition free_in (m : machine) (root lo hi : Z) : Prop :=
  ∃ π, full_path π ∧ free m root π ∧ ∃ i4, lo ≤ i4 < hi ∧ [i4] `prefix_of` π.

Lemma map_any_spec target m l lo hi frame pf (root := root_of m target) : cr3_ok m → good m root l → (3 ≤ length l)%nat → 0 ≤ lo → hi ≤ 512 →
  frame_ok frame → free_in m root lo hi →
  runs (map_impl target (Any frame lo hi) pf) m (λ r m', ∃ page, r = inl (mkMapResult page frame) ∧
    lo ≤ pte_index 4 page < hi ∧ page_ok page ∧ free m root (path page) ∧
    (∃ l', good m' root l' ∧ took l l' 3) ∧ takes root (path page) (leaf frame pf) m m').
Proof.
  intros Hc Hg Hl Hlo Hhi Hf Hfree. unfold map_impl. eapply runs_step; [by apply target_step|]. fold root.
  eapply runs_bind; [by apply (map_any_inner_spec m root l lo hi)|]. intros page m' H. apply runs_ret. by exists page.
Qed.

(** [MemoryManager::map] with [Map::Any]: while some page of the range of
    top-level entries is free, apart from the page at address 0, and three
    frames are left, a page that was free is mapped to the frame with the
    given rights.  It is whole, canonical and within the range, and no other
    page changes. *)
Theorem map_any_takes_a_free_page target m l lo hi frame pf (root := root_of m target) :
  cr3_ok m → good m root l → (3 ≤ length l)%nat → 0 ≤ lo → hi ≤ 512 → frame_ok frame → free_in m root lo hi →
  runs (map_impl target (Any frame lo hi) pf) m (λ r m', ∃ page, r = inl (mkMapResult page frame) ∧
    lo ≤ pte_index 4 page < hi ∧ page_ok page ∧ free m root (path page) ∧
    (∃ l', good m' root l' ∧ took l l' 3) ∧
    ∀ π, full_path π → maps m' root π = if decide (π = path page) then Some (Mapped 1 (leaf frame pf)) else maps m root π).
Proof.
  intros Hc Hg Hl Hlo Hhi Hf Hfree. eapply runs_mono; [by apply (map_any_spec target m l lo hi frame pf)|].
  intros r m' (page & ? & ? & ? & ? & ? & Ht). exists page. split_and!; try done; try lia. apply Ht.
Qed.

(** The closure of [map_temporary] may add tables and must leave pages alone. *)
Definition keeps_pages (root : Z) (f : MapResult → PM unit) : Prop :=
  ∀ r m l, good m root l → runs (f r) m (λ _ m', (∃ l', good m' root l') ∧ extends root m m').

(** [MemoryManager::map_temporary] at a free address leaves every page as
    it was, whatever tables it added, and flushes the TLB once when the
    address space is the current one. *)
Theorem map_temporary_restores target m l lo hi frame pf f (root := root_of m target) :
  cr3_ok m → good m root l → (3 ≤ length l)%nat → 0 ≤ lo → hi ≤ 512 → frame_ok frame → free_in m root lo hi →
  keeps_pages root f →
  runs (map_temporary target (Any frame lo hi) pf f) m (λ r m', r = inl tt ∧ (∃ l', good m' root l') ∧
    (∀ π, full_path π → maps m' root π = maps m root π) ∧
    tlb_flushes m' = tlb_flushes m + (if root =? offset m + cr3 m then 1 else 0)).
Proof.
  intros Hc Hg Hl Hlo Hhi Hf Hfree Hk. unfold map_temporary.
  eapply runs_bind; [by apply (map_any_spec target m l lo hi frame pf)|]. fold root.
  intros r m1 (page & -> & _ & Hok & [Hun _] & (l1 & Hg1 & _) & Ht).
  eapply runs_bind; [by apply (Hk _ m1 l1)|]. intros [] m2 [(l2 & Hg2) Hx]. cbn [result_page].
  pose proof (takes_extends _ _ _ _ _ _ Ht Hx) as [Ho Hcr Hfl _ Hm].
  assert (Hc2 : cr3_ok m2) by (unfold cr3_ok in *; by rewrite Ho, Hcr).
  assert (Hroot : root_of m2 target = root) by (unfold root, root_of; by rewrite Ho, Hcr).
  assert (Hpage : maps m2 root (path page) = Some (Mapped 1 (leaf frame pf))) by (rewrite (Hm _ (path_full page)); by rewrite decide_True).
  unfold unmap. eapply runs_step; [by apply target_step|]. rewrite Hroot. destruct (page_ok_canonical _ Hok) as [Hcan _].
  eapply runs_mono; [apply (unmap_inner_spec m2 root l2 page); try done; [|apply Hok]|].
  { intros level e He. rewrite Hpage in He. simplify_eq. apply Hok. }
  intros r m' [Hg' Hout]. unfold unmap_outcome in Hout. rewrite Hpage in Hout. destruct Hout as (-> & _ & _ & Hm' & Hfl').
  split; [done|]. split; [by exists l2|]. split; [|by rewrite Hfl', Hfl, Ho, Hcr].
  intros π Hπ. rewrite (Hm' π Hπ). case_decide as Hpre.
  - assert (π = path page) as -> by (apply (prefix_full (path page) π) in Hpre; done). by rewrite Hun.
  - rewrite (Hm π Hπ). rewrite decide_False; [done|]. intros ->. by apply Hpre.
Qed.

Lemma boot_free size lo hi : 0 ≤ lo < hi → hi ≤ 512 → free_in (boot_machine size) boot_root lo hi.
Proof.
  intros Hlo Hhi. assert (Hfull : full_path [lo; 0; 0; 1]) by (split; [done|]; repeat constructor; lia).
  exists [lo; 0; 0; 1]. split; [done|]. split; [by split; [apply boot_maps|]|]. exists lo. split; [lia|]. by exists [0; 0; 1].
Qed.

Lemma map_any_takes_a_free_page_witness :
  runs (map_impl CurrentAddressSpace (Any 0x5000 0 256) Flags.WRITABLE) sample_machine (λ r m',
    ∃ page, r = inl (mkMapResult page 0x5000) ∧ page_ok page ∧
      maps m' boot_root (path page) = Some (Mapped 1 (leaf 0x5000 Flags.WRITABLE))).
Proof.
  eapply runs_mono; [apply (map_any_takes_a_free_page CurrentAddressSpace sample_machine sample_frames 0 256 0x5000 Flags.WRITABLE)|].
  - by vm_compute.
  - apply sample_good.
  - vm_compute. lia.
  - lia.
  - lia.
  - by vm_compute.
  - by apply boot_free.
  - intros r m' (page & -> & _ & Hok & _ & _ & Hm). exists page. split; [done|]. split; [done|].
    etrans; [apply (Hm _ (path_full page))|]. by rewrite decide_True.
Defined.

Lemma map_temporary_restores_witness :
  runs (map_temporary CurrentAddressSpace (Any 0x5000 0 256) Flags.WRITABLE (λ _, mret tt)) sample_machine (λ r m',
    r = inl tt ∧ tlb_flushes m' = 1).
Proof.
  eapply runs_mono; [apply (map_temporary_restores CurrentAddressSpace sample_machine sample_frames 0 256 0x5000 Flags.WRITABLE)|].
  - by vm_compute.
  - apply sample_good.
  - vm_compute. lia.
  - lia.
  - lia.
  - by vm_compute.
  - by apply boot_free.
  - intros r m l Hg. apply runs_ret. split; [by exists l|done].
  - intros r m' (-> & _ & _ & ->). done.
Defined.
