(* ===== verification/PageRun.v ===== *)
(** * Mapping a run of frames at free addresses

    [map_any_contiguous] looks for as many free pages in a row as there are
    frames and maps them one by one.  Pages are counted in the order of their
    indices. *)

From S2P Require Import Prelude Bits Frames PageTable PageWalk PageMap PageAddr PageSpace PageAny.

(** ** Counting pages *)

Definition PAGES : Z := 2 ^ 36.
Definition idx (k : Z) : Z * Z * Z * Z := (k / 134217728, k / 262144 mod 512, k / 512 mod 512, k mod 512).
Definition path_of (k : Z) : list Z := [k / 134217728; k / 262144 mod 512; k / 512 mod 512; k mod 512].
Definition nth_page (k : Z) : Z := page_at (k / 134217728) (k / 262144 mod 512) (k / 512 mod 512) (k mod 512).
Definition count (i4 i3 i2 i1 : Z) : Z := ((i4 * 512 + i3) * 512 + i2) * 512 + i1.

(** The digits of a number in base 512. *)
Lemma digits k : 0 ≤ k < PAGES → indices (path_of k) ∧
  k = count (k / 134217728) (k / 262144 mod 512) (k / 512 mod 512) (k mod 512).
Proof.
  intros Hk. unfold path_of, count, PAGES in *. change (2 ^ 36) with 68719476736 in *.
  change 134217728 with (512 * 512 * 512). change 262144 with (512 * 512). rewrite <- !Z.div_div by lia.
  pose proof (Z.div_mod k 512). pose proof (Z.mod_pos_bound k 512). set (a := k / 512) in *.
  pose proof (Z.div_mod a 512). pose proof (Z.mod_pos_bound a 512). set (b := a / 512) in *.
  pose proof (Z.div_mod b 512). pose proof (Z.mod_pos_bound b 512). set (c := b / 512) in *.
  clearbody c b a. split; [repeat constructor|]; lia.
Qed.

Lemma path_of_full k : 0 ≤ k < PAGES → full_path (path_of k).
Proof. intros Hk. by split; [|apply digits]. Qed.

(** The digits are the only ones. *)
Lemma count_digits k i4 i3 i2 i1 : k = count i4 i3 i2 i1 → indices [i4; i3; i2; i1] →
  k / 134217728 = i4 ∧ k / 262144 mod 512 = i3 ∧ k / 512 mod 512 = i2 ∧ k mod 512 = i1.
Proof.
  intros -> Hi. unfold indices in Hi. rewrite !Forall_cons in Hi. destruct Hi as (? & ? & ? & ? & _).
  unfold count. set (b := i4 * 512 + i3). set (a := b * 512 + i2). set (k := a * 512 + i1).
  assert (Ea : k / 512 = a) by (symmetry; apply (Z.div_unique_pos _ _ _ i1); lia).
  assert (Eb : a / 512 = b) by (symmetry; apply (Z.div_unique_pos _ _ _ i2); lia).
  assert (Ec : b / 512 = i4) by (symmetry; apply (Z.div_unique_pos _ _ _ i3); lia).
  change 134217728 with (512 * 512 * 512). change 262144 with (512 * 512). rewrite <- !Z.div_div, Ea, Eb, Ec by lia.
  split_and!; [done|..]; symmetry; [apply (Z.mod_unique_pos _ _ i4)|apply (Z.mod_unique_pos _ _ b)|apply (Z.mod_unique_pos _ _ a)]; lia.
Qed.

Lemma path_of_count i4 i3 i2 i1 : indices [i4; i3; i2; i1] → path_of (count i4 i3 i2 i1) = [i4; i3; i2; i1].
Proof. intros Hi. destruct (count_digits _ _ _ _ _ eq_refl Hi) as (H4 & H3 & H2 & H1). unfold path_of. by rewrite H4, H3, H2, H1. Qed.

Lemma idx_count i4 i3 i2 i1 : indices [i4; i3; i2; i1] → idx (count i4 i3 i2 i1) = (i4, i3, i2, i1).
Proof. intros Hi. destruct (count_digits _ _ _ _ _ eq_refl Hi) as (H4 & H3 & H2 & H1). unfold idx. by rewrite H4, H3, H2, H1. Qed.

Lemma path_nth_page k : 0 ≤ k < PAGES → path (nth_page k) = path_of k ∧ page_ok (nth_page k).
Proof.
  intros Hk. destruct (digits k Hk) as [Hi _]. unfold indices, path_of in Hi. rewrite !Forall_cons in Hi.
  destruct Hi as (H4 & H3 & H2 & H1 & _). exact (path_page_at _ _ _ _ H4 H3 H2 H1).
Qed.

Lemma path_of_inj j k : 0 ≤ j < PAGES → 0 ≤ k < PAGES → path_of j = path_of k → j = k.
Proof.
  intros Hj Hk E. destruct (digits j Hj) as [_ ->], (digits k Hk) as [_ ->]. unfold path_of in E.
  injection E as -> -> -> ->. done.
Qed.

Lemma next_idx k : 0 ≤ k → k + 1 < PAGES → next_indices (idx k) = Ret (idx (k + 1)).
Proof.
  intros H0 H1. assert (Hk : 0 ≤ k < PAGES) by lia. destruct (digits k Hk) as [Hi E]. unfold idx, path_of in *.
  assert (HP : PAGES = count 511 511 511 511 + 1) by done.
  set (i4 := k / 134217728) in *. set (i3 := k / 262144 mod 512) in *. set (i2 := k / 512 mod 512) in *. set (i1 := k mod 512) in *.
  clearbody i4 i3 i2 i1. unfold indices in Hi. rewrite !Forall_cons in Hi. destruct Hi as (? & ? & ? & ? & _).
  assert (Hd : ∀ a b c d, k + 1 = count a b c d → indices [a; b; c; d] →
    ((k + 1) / 134217728, (k + 1) / 262144 mod 512, (k + 1) / 512 mod 512, (k + 1) mod 512) = (a, b, c, d)).
  { intros a b c d Hc Hi. by destruct (count_digits _ _ _ _ _ Hc Hi) as (-> & -> & -> & ->). }
  unfold next_indices, count in *.
  destruct (Z.ltb_spec (i1 + 1) 512); [rewrite (Hd i4 i3 i2 (i1 + 1)); [done|lia|repeat constructor; lia]|].
  destruct (Z.ltb_spec (i2 + 1) 512); [rewrite (Hd i4 i3 (i2 + 1) 0); [done|lia|repeat constructor; lia]|].
  destruct (Z.ltb_spec (i3 + 1) 512); [rewrite (Hd i4 (i3 + 1) 0 0); [done|lia|repeat constructor; lia]|].
  destruct (Z.ltb_spec (i4 + 1) 512); [rewrite (Hd (i4 + 1) 0 0 0); [done|lia|repeat constructor; lia]|lia].
Qed.

(** ** The search for a run *)

Section Scan.
Context (m0 : machine) (root : Z) (l0 : list Z) (n lo hi : Z).
Hypothesis Hn : 0 < n.
Hypothesis Hlo : 0 ≤ lo.
Hypothesis Hhi : hi ≤ PAGES.

Definition free_at (j : Z) : Prop := free m0 root (path_of j).
Definition tabled (m : machine) (j : Z) : Prop := ∃ q, walks m root (take 3 (path_of j)) = Some q.

(** The machine after [F] frames were spent on tables. *)
Definition grown (F : Z) (l : list Z) (m : machine) : Prop :=
  good m root l ∧ extends root m0 m ∧ Z.of_nat (length l0) - F ≤ Z.of_nat (length l) ∧ l `suffix_of` l0.

(** The pages before [pos] have been looked at: the sequence is the longest
    run of free pages that ends there, and no [n + 1] in a row were free. *)
Record scanned (F pos : Z) (s : sequence) (m : machine) : Prop := {
  sc_grown : ∃ l, grown F l m;
  sc_length : 0 ≤ sequence_length s ≤ n;
  sc_start : 0 < sequence_length s → sequence_start s = Some (idx (pos - sequence_length s)) ∧ lo ≤ pos - sequence_length s;
  sc_run : ∀ j, pos - sequence_length s ≤ j < pos → free_at j ∧ tabled m j;
  sc_longest : ∀ a, lo ≤ a ≤ pos → (∀ j, a ≤ j < pos → free_at j) → pos - a ≤ sequence_length s;
  sc_none : ∀ a, lo ≤ a → a + n < pos → ¬ ∀ j, a ≤ j ≤ a + n → free_at j
}.

(** A run has been found, and a page of the range follows it. *)
Definition hit (F : Z) (s : sequence) (m : machine) : Prop :=
  ∃ l k, grown F l m ∧ lo ≤ k ∧ k + n < hi ∧ sequence_start s = Some (idx k) ∧
    ∀ j, k ≤ j < k + n → free_at j ∧ tabled m j.

Definition progress (F F' pos : Z) (m : machine) (r : sequence + sequence) (m' : machine) : Prop :=
  match r with inl s => scanned F pos s m' ∧ extends root m m' | inr s => hit F' s m' end.

Lemma grown_more F F' l m : F ≤ F' → grown F l m → grown F' l m.
Proof. intros HF (? & ? & ? & ?). by split_and!; [..|lia|]. Qed.

Lemma hit_more F F' s m : F ≤ F' → hit F s m → hit F' s m.
Proof. intros HF (l & k & Hg & H). exists l, k. split; [by eapply grown_more|done]. Qed.

Lemma scanned_more F F' pos s m : F ≤ F' → scanned F pos s m → scanned F' pos s m.
Proof. intros HF [[l Hg] ? ? ? ? ?]. constructor; try done. exists l. by eapply grown_more. Qed.

(** New tables change nothing of what was seen. *)
Lemma scanned_extends F F' pos s m m' l' : scanned F pos s m → extends root m m' → grown F' l' m' → scanned F' pos s m'.
Proof.
  intros [_ ? ? Hrun ? ?] Hx Hg. constructor; try done; [by exists l'|]. intros j Hj. destruct (Hrun j Hj) as [Hf [q Hq]].
  split; [done|]. exists q. apply (ext_walks _ _ _ Hx); [|done]. rewrite length_take. lia.
Qed.

(** Pages that are not free end the run. *)
Lemma scanned_skip F pos pos' s m : scanned F pos s m → pos < pos' →
  (∀ j, pos ≤ j < pos' → ¬ free_at j) → scanned F pos' (reset s) m.
Proof.
  intros Hs Hp Hnf. assert (Hr : sequence_length (reset s) = 0).
  { unfold reset. pose proof (sc_length _ _ _ _ Hs). by destruct (Z.ltb_spec 0 (sequence_length s)); [|simpl; lia]. }
  constructor; rewrite ?Hr; [apply Hs|lia|lia|lia|..].
  - intros a Ha Hall. destruct (decide (a = pos')); [lia|]. exfalso. apply (Hnf (pos' - 1)); [lia|]. apply Hall. lia.
  - intros a Ha Han Hall. destruct (decide (a + n < pos)); [by apply (sc_none _ _ _ _ Hs a)|].
    apply (Hnf (a + n)); [lia|]. apply Hall. lia.
Qed.

(** A free page makes it longer. *)
Lemma scanned_free F pos s m : scanned F pos s m → sequence_length s < n → lo ≤ pos → free_at pos → tabled m pos →
  scanned F (pos + 1) (mkSequence (if sequence_length s =? 0 then Some (idx pos) else sequence_start s) (sequence_length s + 1)) m.
Proof.
  intros Hs Hl Hp Hf Ht. pose proof (sc_length _ _ _ _ Hs). constructor; cbn [sequence_length sequence_start]; [apply Hs|lia|..].
  - intros _. replace (pos + 1 - (sequence_length s + 1)) with (pos - sequence_length s) by lia.
    destruct (Z.eqb_spec (sequence_length s) 0) as [->|]; [by rewrite Z.sub_0_r|]. apply Hs. lia.
  - intros j Hj. destruct (decide (j = pos)) as [->|]; [done|]. apply (sc_run _ _ _ _ Hs). lia.
  - intros a Ha Hall. destruct (decide (a = pos + 1)); [lia|].
    assert (pos - a ≤ sequence_length s); [|lia]. apply (sc_longest _ _ _ _ Hs); [lia|]. intros j Hj. apply Hall. lia.
  - intros a Ha Han Hall. destruct (decide (a + n = pos)) as [<-|].
    + assert (a + n - a ≤ sequence_length s); [|lia]. apply (sc_longest _ _ _ _ Hs); [lia|]. intros j Hj. apply Hall. lia.
    + apply (sc_none _ _ _ _ Hs a); [done|lia|done].
Qed.

(** The page at address 0 is passed over. *)
Lemma scanned_zero F s m : scanned F 0 s m → scanned F 1 s m.
Proof.
  intros Hs. assert (Hz : ¬ free_at 0) by (intros [_ Hz]; by apply Hz).
  assert (E : sequence_length s = 0).
  { destruct (decide (0 < sequence_length s)) as [Hl|]; [destruct (sc_start _ _ _ _ Hs Hl); lia|]. pose proof (sc_length _ _ _ _ Hs). lia. }
  assert (Hr : reset s = s) by (by unfold reset; rewrite E). rewrite <- Hr.
  apply (scanned_skip F 0); [done|lia|]. intros j Hj. by replace j with 0 by lia.
Qed.

Lemma scan_of_spec (I : Z → sequence → machine → Prop) (H : sequence → machine → Prop) body c : 0 ≤ c → ∀ a s m,
  (∀ i s m, a ≤ i < a + c → I i s m →
    runs (body i s) m (λ r m', match r with inl s' => I (i + 1) s' m' | inr s' => H s' m' end)) →
  I a s m → runs (scan_of (seqZ a c) body s) m (λ r m', match r with inl s' => I (a + c) s' m' | inr s' => H s' m' end).
Proof.
  intros Hc. pattern c. apply natlike_ind; [..|done]; clear c Hc.
  - intros a s m _ HI. apply runs_ret. by rewrite Z.add_0_r.
  - intros c Hc IH a s m Hb HI. rewrite seqZ_cons by lia. cbn [scan_of]. eapply runs_bind; [apply (Hb a s m); [lia|done]|].
    intros [s'|s'] m' Hr; [|by apply runs_ret]. replace (Z.pred (Z.succ c)) with c by lia.
    replace (a + Z.succ c) with (Z.succ a + c) by lia. apply IH; [|by rewrite <- Z.add_1_r]. intros i ? ? Hi. apply Hb. lia.
Qed.

Lemma progress_trans F F' pos m m1 r m' : extends root m m1 → progress F F' pos m1 r m' → progress F F' pos m r m'.
Proof. intros Hx. destruct r; [|done]. intros [Hs Hx']. split; [done|]. by etrans. Qed.

Lemma progress_more F F1 F' F1' pos m r m' : F ≤ F1 → F' ≤ F1' → progress F F' pos m r m' → progress F1 F1' pos m r m'.
Proof.
  intros H1 H2. destruct r; [|by apply hit_more]. intros [Hs Hx]. by split; [eapply scanned_more|].
Qed.

(** One page. *)
Lemma scan_page_spec F s m i4 i3 i2 i1 q1 : indices [i4; i3; i2; i1] → walks m root [i4; i3; i2] = Some q1 →
  lo ≤ count i4 i3 i2 i1 < hi → scanned F (count i4 i3 i2 i1) s m →
  runs (scan_page n i4 i3 i2 q1 i1 s) m (progress F F (count i4 i3 i2 i1 + 1) m).
Proof.
  intros Hi Hw Hpos Hs. pose proof (path_of_count _ _ _ _ Hi) as Hp. pose proof (idx_count _ _ _ _ Hi) as Hx.
  unfold scan_page. destruct (first_page i4 i3 i2 i1) eqn:Hfp.
  { apply runs_ret. split; [|done]. unfold first_page in Hfp. rewrite !andb_true_iff, !Z.eqb_eq in Hfp.
    destruct Hfp as [[[-> ->] ->] ->]. by apply scanned_zero. }
  set (pos := count i4 i3 i2 i1) in *. clearbody pos. apply not_first_page in Hfp.
  destruct (Z.leb_spec n (sequence_length s)).
  { apply runs_ret. destruct (sc_grown _ _ _ _ Hs) as [l Hg]. pose proof (sc_length _ _ _ _ Hs).
    assert (E : sequence_length s = n) by lia. destruct (sc_start _ _ _ _ Hs) as [Hst Hk]; [lia|]. rewrite E in *.
    exists l, (pos - n). split_and!; try done; [lia|]. intros j Hj. apply (sc_run _ _ _ _ Hs). lia. }
  destruct (sc_grown _ _ _ _ Hs) as (l & Hg & Hext & _).
  assert (Hi1 : 0 ≤ i1 < 512) by (unfold indices in Hi; rewrite !Forall_cons in Hi; tauto).
  destruct (level_cases m root l [i4; i3; i2] q1 i1 Hg Hw) as (e & E & He & Hc & _ & Hu); [done|simpl; lia|].
  assert (Hfull : full_path (path_of pos)) by (by rewrite Hp).
  eapply runs_step; [exact E|]. cbv beta. rewrite Hc. destruct (Z.testbit e 0) eqn:Hpr; apply runs_ret; (split; [|done]).
  - apply (scanned_skip F pos); [done|lia|]. intros j Hj [Hm _]. replace j with pos in Hm by lia.
    rewrite <- (ext_maps _ _ _ Hext) in Hm by done. rewrite Hp in Hm.
    pose proof (leaf_maps m root [i4; i3; i2] q1 i1 Hw e eq_refl He Hpr) as Hm'. cbn [app] in Hm'. congruence.
  - rewrite <- Hx. apply scanned_free; [done|lia|lia|..].
    + split; [|by rewrite Hp]. rewrite <- (ext_maps _ _ _ Hext) by done. rewrite Hp. exact (Hu eq_refl []).
    + exists q1. by rewrite Hp.
Qed.

Lemma scan_pages_spec F s m i4 i3 i2 q1 : 0 ≤ i4 < 512 → 0 ≤ i3 < 512 → 0 ≤ i2 < 512 →
  walks m root [i4; i3; i2] = Some q1 → lo ≤ count i4 i3 i2 0 → count i4 i3 (i2 + 1) 0 ≤ hi → scanned F (count i4 i3 i2 0) s m →
  runs (scan_of (seqZ 0 512) (scan_page n i4 i3 i2 q1) s) m (progress F F (count i4 i3 (i2 + 1) 0) m).
Proof.
  intros B4 B3 B2 Hw H1 H2 Hs.
  replace (count i4 i3 (i2 + 1) 0) with (count i4 i3 i2 (0 + 512)) in * by (unfold count; lia).
  apply (scan_of_spec (λ i1 s' m', scanned F (count i4 i3 i2 i1) s' m' ∧ extends root m m') (hit F)); [lia|..|done].
  intros i1 s' m' Hi1 [Hs' Hx]. eapply runs_mono.
  - apply (scan_page_spec F s' m' i4 i3 i2 i1 q1); [repeat constructor; lia|by apply (ext_walks _ _ _ Hx); [simpl; lia|]|unfold count in *; lia|done].
  - intros r m2 Hr. apply (progress_trans _ _ _ m) in Hr; [|done]. unfold progress in Hr.
    by replace (count i4 i3 i2 (i1 + 1)) with (count i4 i3 i2 i1 + 1) by (unfold count; lia).
Qed.

Lemma grown_nonempty F l m : grown F l m → F < Z.of_nat (length l0) → l ≠ [].
Proof. intros (_ & _ & Hl & _) HF ->. simpl in Hl. lia. Qed.

Lemma grown_step F l l' m m' : grown F l m → good m' root l' → extends root m m' → took l l' 1 → grown (F + 1) l' m'.
Proof.
  intros (_ & Hx & Hl & Hsuf) Hg Hx' [Hlen Hsuf']. split_and!; [done|by etrans|lia|by etrans].
Qed.

(** Pages below an entry for a huge page are not free. *)
Lemma huge_not_free F l m ρ pos size : grown F l m → 0 ≤ pos → pos + size ≤ PAGES →
  (∀ rest, rest ≠ [] → maps m root (ρ ++ rest) ≠ Some Unmapped) →
  (∀ j, pos ≤ j < pos + size → ∃ rest, rest ≠ [] ∧ path_of j = ρ ++ rest) → ∀ j, pos ≤ j < pos + size → ¬ free_at j.
Proof.
  intros (_ & Hx & _) H0 HP Hm Hpath j Hj [Hf _]. destruct (Hpath j Hj) as (rest & Hr & E).
  rewrite <- (ext_maps _ _ _ Hx) in Hf by (apply path_of_full; lia). rewrite E in Hf. by apply (Hm rest Hr).
Qed.

Lemma scan_level_2_spec F s m i4 i3 i2 q2 : 0 ≤ i4 < 512 → 0 ≤ i3 < 512 → 0 ≤ i2 < 512 → F < Z.of_nat (length l0) →
  walks m root [i4; i3] = Some q2 → lo ≤ count i4 i3 i2 0 → count i4 i3 (i2 + 1) 0 ≤ hi → scanned F (count i4 i3 i2 0) s m →
  runs (scan_level_2 n i4 i3 q2 i2 s) m (progress (F + 1) (F + 1) (count i4 i3 (i2 + 1) 0) m).
Proof.
  intros B4 B3 B2 HF Hw H1 H2 Hs. destruct (sc_grown _ _ _ _ Hs) as (l & Hgr). pose proof Hgr as (Hg & Hx0 & _).
  unfold scan_level_2. destruct (ensure_cases m root l [i4; i3] q2 i2 Hg Hw) as
    [[E Hh]|[(q1 & E & El & Hw1)|(m1 & l1 & q1 & E & El & Hw1 & Hg1 & Hx & Ht & _)]];
    [lia|by eapply grown_nonempty|simpl; lia|..]; (eapply runs_step; [exact E|]); cbv beta iota.
  - apply runs_ret. split; [|done]. apply (scanned_more F); [lia|]. apply (scanned_skip F (count i4 i3 i2 0)); [done|unfold count; lia|].
    replace (count i4 i3 (i2 + 1) 0) with (count i4 i3 i2 0 + 512) in * by (unfold count; lia).
    apply (huge_not_free F l m [i4; i3; i2]); [done|lia|lia|..].
    + intros rest Hr. by apply (Hh rest).
    + intros j Hj. exists [j - count i4 i3 i2 0]. split; [done|].
      replace j with (count i4 i3 i2 (j - count i4 i3 i2 0)) at 1 by (unfold count; lia). apply path_of_count. repeat constructor; lia.
  - eapply runs_step; [exact El|]. eapply runs_mono; [by apply (scan_pages_spec F)|]. intros r m'. apply progress_more; lia.
  - eapply runs_step; [exact El|]. eapply runs_mono; [apply (scan_pages_spec (F + 1)); try done|].
    + eapply scanned_extends; [exact Hs|exact Hx|]. by eapply grown_step.
    + intros r m'. by apply progress_trans.
Qed.

Lemma scan_level_3_spec F s m i4 i3 q3 : 0 ≤ i4 < 512 → 0 ≤ i3 < 512 → F + 513 ≤ Z.of_nat (length l0) →
  walks m root [i4] = Some q3 → lo ≤ count i4 i3 0 0 → count i4 (i3 + 1) 0 0 ≤ hi → scanned F (count i4 i3 0 0) s m →
  runs (scan_level_3 n i4 q3 i3 s) m (progress (F + 513) (F + 513) (count i4 (i3 + 1) 0 0) m).
Proof.
  intros B4 B3 HF Hw H1 H2 Hs. destruct (sc_grown _ _ _ _ Hs) as (l & Hgr). pose proof Hgr as (Hg & Hx0 & _).
  assert (Hloop : ∀ F1 m1 q2, F1 ≤ F + 1 → walks m1 root [i4; i3] = Some q2 → scanned F1 (count i4 i3 0 0) s m1 →
    runs (scan_of (seqZ 0 512) (scan_level_2 n i4 i3 q2) s) m1 (progress (F + 513) (F + 513) (count i4 (i3 + 1) 0 0) m1)).
  { intros F1 m1 q2 HF1 Hw2 Hs1. replace (count i4 (i3 + 1) 0 0) with (count i4 i3 (0 + 512) 0) by (unfold count; lia).
    replace (F + 513) with (F + 1 + (0 + 512)) by lia.
    apply (scan_of_spec (λ i2 s' m', scanned (F + 1 + i2) (count i4 i3 i2 0) s' m' ∧ extends root m1 m') (hit (F + 1 + (0 + 512)))); [lia|..].
    - intros i2 s' m' Hi2 [Hs' Hx]. eapply runs_mono.
      + apply (scan_level_2_spec (F + 1 + i2) s' m' i4 i3 i2 q2); try done; [lia..| |unfold count in *; lia|unfold count in *; lia].
        by apply (ext_walks _ _ _ Hx); [simpl; lia|].
      + intros r m2 Hr. apply (progress_trans _ _ _ m1) in Hr; [|done]. rewrite Z.add_assoc. destruct r; [done|].
        eapply hit_more; [|exact Hr]. lia.
    - split; [|done]. eapply scanned_more; [|exact Hs1]. lia. }
  unfold scan_level_3. destruct (ensure_cases m root l [i4] q3 i3 Hg Hw) as
    [[E Hh]|[(q2 & E & El & Hw1)|(m1 & l1 & q2 & E & El & Hw1 & Hg1 & Hx & Ht & _)]];
    [lia|exact (grown_nonempty F l m Hgr ltac:(lia))|simpl; lia|..]; (eapply runs_step; [exact E|]); cbv beta iota.
  - apply runs_ret. split; [|done]. apply (scanned_more F); [lia|]. apply (scanned_skip F (count i4 i3 0 0)); [done|unfold count; lia|].
    replace (count i4 (i3 + 1) 0 0) with (count i4 i3 0 0 + 262144) in * by (unfold count; lia).
    apply (huge_not_free F l m [i4; i3]); [done|lia|lia|..].
    + intros rest Hr. by apply (Hh rest).
    + intros j Hj. set (k := j - count i4 i3 0 0). assert (Hk : 0 ≤ k < 262144) by lia.
      pose proof (Z.div_mod k 512). pose proof (Z.mod_pos_bound k 512).
      exists [k / 512; k mod 512]. split; [done|]. replace j with (count i4 i3 (k / 512) (k mod 512)) by (unfold count in *; lia).
      apply path_of_count. repeat constructor; lia.
  - eapply runs_step; [exact El|]. by apply (Hloop F); [lia|..].
  - eapply runs_step; [exact El|]. eapply runs_mono; [apply (Hloop (F + 1)); [lia|done|]|].
    + eapply scanned_extends; [exact Hs|exact Hx|]. by eapply grown_step.
    + intros r m'. by apply progress_trans.
Qed.

Lemma scan_level_4_spec F s m i4 : 0 ≤ i4 < 512 → F + 262657 ≤ Z.of_nat (length l0) →
  lo ≤ count i4 0 0 0 → count (i4 + 1) 0 0 0 ≤ hi → scanned F (count i4 0 0 0) s m →
  runs (scan_level_4 n root i4 s) m (progress (F + 262657) (F + 262657) (count (i4 + 1) 0 0 0) m).
Proof.
  intros B4 HF H1 H2 Hs. destruct (sc_grown _ _ _ _ Hs) as (l & Hgr). pose proof Hgr as (Hg & Hx0 & _).
  assert (Hloop : ∀ F1 m1 q3, F1 ≤ F + 1 → walks m1 root [i4] = Some q3 → scanned F1 (count i4 0 0 0) s m1 →
    runs (scan_of (seqZ 0 512) (scan_level_3 n i4 q3) s) m1 (progress (F + 262657) (F + 262657) (count (i4 + 1) 0 0 0) m1)).
  { intros F1 m1 q3 HF1 Hw2 Hs1. replace (count (i4 + 1) 0 0 0) with (count i4 (0 + 512) 0 0) by (unfold count; lia).
    replace (F + 262657) with (F + 1 + 513 * (0 + 512)) by lia.
    apply (scan_of_spec (λ i3 s' m', scanned (F + 1 + 513 * i3) (count i4 i3 0 0) s' m' ∧ extends root m1 m') (hit (F + 1 + 513 * (0 + 512)))); [lia|..].
    - intros i3 s' m' Hi3 [Hs' Hx]. eapply runs_mono.
      + apply (scan_level_3_spec (F + 1 + 513 * i3) s' m' i4 i3 q3); try done; [lia..| |unfold count in *; lia|unfold count in *; lia].
        by apply (ext_walks _ _ _ Hx); [simpl; lia|].
      + intros r m2 Hr. apply (progress_trans _ _ _ m1) in Hr; [|done].
        replace (F + 1 + 513 * (i3 + 1)) with (F + 1 + 513 * i3 + 513) by lia. destruct r; [done|]. eapply hit_more; [|exact Hr]. lia.
    - split; [|done]. eapply scanned_more; [|exact Hs1]. lia. }
  unfold scan_level_4. destruct (ensure_top_cases m root l i4 Hg) as
    [(q3 & E & El & Hw1)|(m1 & l1 & q3 & E & El & Hw1 & Hg1 & Hx & Ht & _)];
    [lia|exact (grown_nonempty F l m Hgr ltac:(lia))|..]; (eapply runs_step; [exact E|]); (eapply runs_step; [exact El|]).
  - by apply (Hloop F); [lia|..].
  - eapply runs_mono; [apply (Hloop (F + 1)); [lia|done|]|].
    + eapply scanned_extends; [exact Hs|exact Hx|]. by eapply grown_step.
    + intros r m'. by apply progress_trans.
Qed.
End Scan.

(** ** Placing the frames *)

Lemma lower_walk m root l ρ q i p : good m root l → (length ρ ≤ 2)%nat → 0 ≤ i < 512 → walks m root ρ = Some q →
  walks m root (ρ ++ [i]) = Some p → lower_table (q, i) m = Ret (p, m).
Proof.
  intros Hg Hl Hi Hw Hn. destruct (walk_entry _ _ _ _ _ _ Hw Hn) as (e & He & Hk).
  destruct (level_down m root l ρ q i Hg Hw e Hl He Hk) as (p' & E & Hn'). congruence.
Qed.

Lemma walk_prefix m root ρ ρ' p : walks m root (ρ ++ ρ') = Some p → ∃ q, walks m root ρ = Some q.
Proof. rewrite walk_app. destruct (walks m root ρ) as [q|]; [by exists q|done]. Qed.

Lemma place_frame_spec m root l k frame pf : good m root l → 0 ≤ k < PAGES → frame_ok frame → tabled root m k →
  runs (place_frame root frame pf (idx k)) m (λ _ m', good m' root l ∧ takes root (path_of k) (leaf frame pf) m m').
Proof.
  intros Hg Hk Hf [q1 H1]. destruct (digits k Hk) as [Hi _]. unfold path_of, idx in *.
  set (i4 := k / 134217728) in *. set (i3 := k / 262144 mod 512) in *. set (i2 := k / 512 mod 512) in *. set (i1 := k mod 512) in *.
  clearbody i4 i3 i2 i1. pose proof Hi as Hb. unfold indices in Hb. rewrite !Forall_cons in Hb. destruct Hb as (B4 & B3 & B2 & B1 & _).
  cbn [take] in H1. destruct (walk_prefix m root [i4] [i3; i2] q1 H1) as [q3 H3].
  destruct (walk_prefix m root [i4; i3] [i2] q1 H1) as [q2 H2]. unfold place_frame.
  eapply runs_step; [by apply (lower_walk m root l [] root i4 q3 Hg); [simpl; lia|..]|]. cbv beta.
  eapply runs_step; [by apply (lower_walk m root l [i4] q3 i3 q2 Hg); [simpl; lia|..]|]. cbv beta.
  eapply runs_step; [by apply (lower_walk m root l [i4; i3] q2 i2 q1 Hg); [simpl; lia|..]|]. cbv beta.
  by apply (take_page m root l i4 i3 i2 i1 q3 q2 q1).
Qed.

(** The pages from the [k]th on are mapped to the frames from [f] on. *)
Record placed (root pf k f c : Z) (m m' : machine) : Prop := {
  pl_offset : offset m' = offset m;
  pl_cr3 : cr3 m' = cr3 m;
  pl_flushes : tlb_flushes m' = tlb_flushes m;
  pl_walks : ∀ ρ p, (length ρ ≤ 3)%nat → walks m root ρ = Some p → walks m' root ρ = Some p;
  pl_maps : ∀ j, 0 ≤ j < PAGES → maps m' root (path_of j) =
    if decide (k ≤ j < k + c) then Some (Mapped 1 (leaf (f + (j - k) * FRAME_SIZE) pf)) else maps m root (path_of j)
}.

Lemma placed_none root pf k f m : placed root pf k f 0 m m.
Proof. constructor; try done. intros j Hj. rewrite decide_False by lia. done. Qed.

Lemma placed_cons root pf k f c m m1 m2 : 0 ≤ c → 0 ≤ k < PAGES → takes root (path_of k) (leaf f pf) m m1 →
  placed root pf (k + 1) (f + FRAME_SIZE) c m1 m2 → placed root pf k f (c + 1) m m2.
Proof.
  intros Hc Hk Ht Hp. destruct Ht as [? ? ? ? Htm], Hp as [? ? ? ? Hpm]. constructor; [congruence..|auto|]. intros j Hj. rewrite Hpm by done.
  destruct (decide (j = k)) as [->|Hne].
  - rewrite decide_False, decide_True, Htm, decide_True by (done || lia || by apply path_of_full).
    by rewrite Z.sub_diag, Z.mul_0_l, Z.add_0_r.
  - destruct (decide (k + 1 ≤ j < k + 1 + c)).
    + rewrite decide_True by lia. do 3 f_equal. lia.
    + rewrite decide_False, Htm by (lia || by apply path_of_full). rewrite decide_False; [done|].
      intros E. by apply path_of_inj in E.
Qed.

(** The ends of the run as the loop records them. *)
Lemma place_frames_spec root l pf n e steps : ∀ m k f a b, good m root l → 0 ≤ k → k + Z.of_nat steps < PAGES →
  Z.of_nat steps ≤ n → 0 ≤ f → f mod FRAME_SIZE = 0 → f + Z.of_nat steps * FRAME_SIZE = FrameRange.end_ e → FrameRange.end_ e < 2 ^ 52 →
  (∀ j, k ≤ j < k + Z.of_nat steps → tabled root m j) →
  runs (place_frames root pf n steps (FrameRange.mkIter e f) (idx k) a b) m (λ r m',
    good m' root l ∧ placed root pf k f (Z.of_nat steps) m m' ∧
    r = (if decide (0 < Z.of_nat steps ∧ Z.of_nat steps = n) then nth_page k else a,
         if decide (0 < Z.of_nat steps) then nth_page (k + Z.of_nat steps - 1) else b)).
Proof.
  induction steps as [|steps IH]; intros m k f a b Hg Hk HP Hn Hf Hal He Hmax Ht; cbn [place_frames].
  { apply runs_ret. split_and!; [done|apply placed_none|]. by rewrite !decide_False by lia. }
  assert (Hframe : frame_ok f) by (split; [unfold FRAME_SIZE in *; lia|done]).
  eapply runs_lift.
  { unfold FrameRange.next. cbn [FrameRange.current FrameRange.frame_range].
    destruct (Z.ltb_spec f (FrameRange.end_ e)) as [_|]; [|unfold FRAME_SIZE in *; lia]. rewrite (aligned_frame f Hal).
    cbn [mbind res_bind]. rewrite add_chk_ret by (unfold FRAME_SIZE in *; lia). reflexivity. }
  eapply runs_step; [reflexivity|].
  eapply runs_bind; [apply (place_frame_spec m root l k f pf Hg); [lia|done|apply Ht; lia]|]. intros _ m1 [Hg1 Htk].
  eapply runs_mono; [|intros r m' H; exact H].
  change (idx k) with (k / 134217728, k / 262144 mod 512, k / 512 mod 512, k mod 512). cbv beta iota zeta.
  eapply runs_lift; [apply (next_idx k); lia|]. eapply runs_mono.
  - apply (IH m1 (k + 1) (f + FRAME_SIZE)); [done|lia..|unfold FRAME_SIZE in *; lia|unfold FRAME_SIZE in *; mlia|unfold FRAME_SIZE in *; lia|done|].
    intros j Hj. destruct (Ht j) as [q Hq]; [lia|]. exists q. apply (tk_walks _ _ _ _ _ Htk); [|done]. rewrite length_take. lia.
  - intros r m' (Hg' & Hpl & ->). split_and!; [done|..].
    + replace (Z.of_nat (S steps)) with (Z.of_nat steps + 1) by lia. eapply placed_cons; [lia|lia|exact Htk|exact Hpl].
    + fold (nth_page k). rewrite (decide_False (P := 0 < Z.of_nat steps ∧ Z.of_nat steps = n)) by lia. f_equal.
      * destruct (Z.eqb_spec (Z.of_nat (S steps)) n); [by rewrite decide_True by lia|by rewrite decide_False by lia].
      * rewrite (decide_True (P := 0 < Z.of_nat (S steps))) by lia. destruct (decide (0 < Z.of_nat steps)).
        -- f_equal. lia.
        -- assert (steps = 0%nat) as -> by lia. change (Z.of_nat 1 =? 1) with true. cbv iota. f_equal. lia.
Qed.

(** ** The whole operation *)

Lemma nth_page_lt j k : 0 ≤ j → j < k → k < PAGES → nth_page j < nth_page k.
Proof.
  intros Hj Hlt Hk. assert (Hs : ∀ x, 0 ≤ x < PAGES → nth_page x = sign_extend (x * 2 ^ 12)).
  { intros x Hx. destruct (digits x Hx) as [Hi E]. unfold indices, path_of in Hi. rewrite !Forall_cons in Hi.
    destruct Hi as (? & ? & ? & ? & _). unfold nth_page. rewrite page_at_eq by done. f_equal. rewrite E at 5. unfold count. lia. }
  rewrite !Hs, !sign_extend_eq by lia. unfold PAGES in Hk. rewrite !Z.mod_small by lia.
  destruct (Z.ltb_spec (j * 2 ^ 12) (2 ^ 47)), (Z.ltb_spec (k * 2 ^ 12) (2 ^ 47)); lia.
Qed.

Lemma extends_placed root pf k f c m m1 m2 : extends root m m1 → placed root pf k f c m1 m2 → placed root pf k f c m m2.
Proof.
  intros Hx Hp. destruct Hx as [? ? ? ? Hxm], Hp as [? ? ? ? Hpm]. constructor; [congruence..|auto|]. intros j Hj.
  rewrite Hpm by done. case_decide; [done|]. by apply Hxm, path_of_full.
Qed.

(** [n + 1] free pages in a row. *)
Definition free_run (m : machine) (root lo hi n : Z) : Prop :=
  ∃ a, count lo 0 0 0 ≤ a ∧ a + n < count hi 0 0 0 ∧ ∀ j, a ≤ j ≤ a + n → free m root (path_of j).

Lemma scan_spec m root l lo hi n : good m root l → 0 < n → 0 ≤ lo → hi ≤ 512 → 262657 * (hi - lo) ≤ Z.of_nat (length l) →
  free_run m root lo hi n →
  runs (scan_of (seqZ lo (hi - lo)) (scan_level_4 n root) no_sequence) m (λ r m',
    hit m root l n (count lo 0 0 0) (count hi 0 0 0) (262657 * (hi - lo)) (match r with inl s => s | inr s => s end) m').
Proof.
  intros Hg Hn Hlo Hhi Hl (a & Ha & Han & Hfree). set (lo' := count lo 0 0 0) in *. set (hi' := count hi 0 0 0) in *.
  assert (Hhi' : hi' ≤ PAGES) by (unfold hi', count, PAGES; lia).
  assert (Hlt : lo < hi) by (unfold hi', lo', count in *; lia).
  eapply runs_mono.
  - apply (scan_of_spec (λ i4 s m', scanned m root l n lo' (262657 * (i4 - lo)) (count i4 0 0 0) s m')
      (λ s m', hit m root l n lo' hi' (262657 * (hi - lo)) s m')); [lia|..].
    + intros i4 s m1 Hi4 Hs. eapply runs_mono.
      * apply (scan_level_4_spec m root l n lo' hi' Hn ltac:(unfold lo', count; lia) Hhi' (262657 * (i4 - lo)) s m1 i4);
          [lia|lia|unfold lo', count in *; lia|unfold hi', count in *; lia|done].
      * intros [s'|s'] m2 Hr.
        -- destruct Hr as [Hr _]. by replace (262657 * (i4 + 1 - lo)) with (262657 * (i4 - lo) + 262657) by lia.
        -- eapply hit_more; [|exact Hr]. lia.
    + rewrite Z.sub_diag, Z.mul_0_r. constructor; cbn [sequence_length sequence_start no_sequence]; [|lia..| |].
      * exists l. split_and!; [done|done|lia|done].
      * intros x Hx _. change (count lo 0 0 0) with lo' in Hx |- *. lia.
      * intros x Hx Hxn. change (count lo 0 0 0) with lo' in Hxn. lia.
  - intros [s|s] m' Hr; [|done]. replace (lo + (hi - lo)) with hi in Hr by lia. exfalso.
    by apply (sc_none _ _ _ _ _ _ _ _ _ Hr a).
Qed.

Lemma map_any_contiguous_spec m root l lo hi r pf n : good m root l → 0 ≤ lo → hi ≤ 512 →
  0 ≤ FrameRange.start r → FrameRange.start r mod FRAME_SIZE = 0 → FrameRange.end_ r < 2 ^ 52 →
  FrameRange.end_ r = FrameRange.start r + n * FRAME_SIZE → 0 < n →
  262657 * (hi - lo) ≤ Z.of_nat (length l) → free_run m root lo hi n →
  ∃ k m' l', map_any_contiguous (CustomAddressSpace root) lo hi r pf m = (pr ← PageRange.new (nth_page k) (nth_page (k + n - 1)); Ret (pr, m')) ∧
    count lo 0 0 0 ≤ k ∧ k + n < count hi 0 0 0 ∧ (∀ j, k ≤ j < k + n → free m root (path_of j)) ∧
    good m' root l' ∧ placed root pf k (FrameRange.start r) n m m'.
Proof.
  intros Hg Hlo Hhi Hs Hal Hmax He Hn Hl Hrun.
  assert (Hlt : 0 ≤ count lo 0 0 0) by (unfold count; lia). assert (Hhi' : count hi 0 0 0 ≤ PAGES) by (unfold count, PAGES; lia).
  destruct (scan_spec m root l lo hi n Hg Hn Hlo Hhi Hl Hrun) as ([s m1] & Esc & l1 & k & (Hg1 & Hx & _) & Hk & Hkn & Hst & Hfree).
  destruct (place_frames_spec root l1 pf n r (Z.to_nat n) m1 k (FrameRange.start r) 0 0 Hg1) as ([ab m2] & Epl & Hg2 & Hpl & Hab);
    rewrite ?Z2Nat.id by lia; try (lia || done).
  { intros j Hj. apply Hfree. lia. }
  rewrite Z2Nat.id in * by lia. exists k, m2, l1. split_and!; [|done|done|by intros j Hj; apply Hfree|done|by eapply extends_placed].
  unfold map_any_contiguous, target_table. rewrite (bind_step _ _ _ root m) by done.
  rewrite (lift_step _ _ _ n).
  2:{ unfold FrameRange.n. rewrite sub_chk_ret by (unfold FRAME_SIZE in *; lia). cbn [mbind res_bind]. f_equal.
      rewrite He. unfold FRAME_SIZE. mlia. }
  rewrite (bind_step _ _ _ _ _ Esc). cbv beta zeta. rewrite Hst. rewrite (bind_step _ _ _ (idx k) m1) by done.
  rewrite (lift_step _ _ _ (FrameRange.mkIter r (FrameRange.start r))).
  2:{ unfold FrameRange.iter, is_aligned_to. assert (HE : FrameRange.end_ r mod FRAME_SIZE = 0) by (unfold FRAME_SIZE in *; mlia).
      by rewrite Hal, HE. }
  rewrite (bind_step _ _ _ _ _ Epl), Hab. rewrite !decide_True by lia. reflexivity.
Qed.

(** ** Claims *)

(** With a single frame [map_any_contiguous] maps the page it found and
    then panics, because the range of pages it builds starts and ends at
    that page. *)
Theorem map_any_contiguous_one_frame m root l lo hi r pf : good m root l → 0 ≤ lo → hi ≤ 512 →
  0 ≤ FrameRange.start r → FrameRange.start r mod FRAME_SIZE = 0 → FrameRange.end_ r < 2 ^ 52 →
  FrameRange.end_ r = FrameRange.start r + FRAME_SIZE →
  262657 * (hi - lo) ≤ Z.of_nat (length l) → free_run m root lo hi 1 →
  map_any_contiguous (CustomAddressSpace root) lo hi r pf m = Crash Panic.
Proof.
  intros Hg Hlo Hhi Hs Hal Hmax He Hl Hrun.
  destruct (map_any_contiguous_spec m root l lo hi r pf 1) as (k & m' & l' & E & Hk & Hkn & _); try (done || lia).
  assert (Hb : 0 ≤ k ∧ k + 1 < PAGES) by (unfold count, PAGES in *; lia).
  rewrite E. replace (k + 1 - 1) with k by lia. unfold PageRange.new, is_aligned_to.
  destruct (path_nth_page k) as [_ [_ ->]]; [lia|]. by rewrite Z.ltb_irrefl.
Qed.

(** C25: [MemoryManager::map_any_contiguous], when one more page than there are
    frames is free in a row in the range of top-level entries and there are free
    frames for every table of the range, 262657 for each top-level entry.  With two frames or more it picks pages in a row that were
    all free, maps them to the frames in order and changes no other page; the
    range it returns runs from the first of them to the last, so the last page
    lies outside it.  With a single frame it panics. *)
Theorem map_any_contiguous_maps_a_free_run m root l lo hi r pf n : good m root l → 0 ≤ lo → hi ≤ 512 →
  0 ≤ FrameRange.start r → FrameRange.start r mod FRAME_SIZE = 0 → FrameRange.end_ r < 2 ^ 52 →
  FrameRange.end_ r = FrameRange.start r + n * FRAME_SIZE → 1 ≤ n →
  262657 * (hi - lo) ≤ Z.of_nat (length l) → free_run m root lo hi n →
  if n =? 1 then map_any_contiguous (CustomAddressSpace root) lo hi r pf m = Crash Panic else
  runs (map_any_contiguous (CustomAddressSpace root) lo hi r pf) m (λ pr m', ∃ k l',
    pr = PageRange.mkRange (nth_page k) (nth_page (k + n - 1)) ∧ count lo 0 0 0 ≤ k ∧ k + n < count hi 0 0 0 ∧
    (∀ j, k ≤ j < k + n → free m root (path_of j)) ∧ good m' root l' ∧ placed root pf k (FrameRange.start r) n m m').
Proof.
  intros Hg Hlo Hhi Hs Hal Hmax He Hn Hl Hrun. destruct (Z.eqb_spec n 1) as [->|].
  { eapply map_any_contiguous_one_frame; try done; lia. }
  destruct (map_any_contiguous_spec m root l lo hi r pf n) as (k & m' & l' & E & Hk & Hkn & Hfree & Hg' & Hpl); try (done || lia).
  exists (PageRange.mkRange (nth_page k) (nth_page (k + n - 1)), m'). split; [|by exists k, l'].
  assert (Hb : 0 ≤ k ∧ k + n < PAGES) by (unfold count, PAGES in *; lia).
  rewrite E. unfold PageRange.new, is_aligned_to.
  destruct (path_nth_page k) as [_ [_ ->]]; [lia|]. destruct (path_nth_page (k + n - 1)) as [_ [_ ->]]; [lia|].
  pose proof (nth_page_lt k (k + n - 1) ltac:(lia) ltac:(lia) ltac:(lia)). by rewrite (proj2 (Z.ltb_lt _ _)) by lia.
Qed.

Lemma boot_run size lo hi n : 0 ≤ lo → hi ≤ 512 → 0 ≤ n < 512 → lo < hi → free_run (boot_machine size) boot_root lo hi n.
Proof.
  intros Hlo Hhi Hn Hlt. exists (count lo 0 0 0 + 1). unfold count, PAGES in *. split; [lia|]. split; [lia|].
  intros j Hj. split; [apply boot_maps, path_of_full; unfold PAGES; lia|].
  intros E. change [0; 0; 0; 0] with (path_of 0) in E. apply path_of_inj in E; unfold PAGES; lia.
Qed.

Lemma map_any_contiguous_maps_a_free_run_witness :
  runs (map_any_contiguous (CustomAddressSpace boot_root) 0 1 (FrameRange.mkRange 0x5000 0x9000) Flags.WRITABLE) (boot_machine 0x50000000)
    (λ pr m', ∃ k, PageRange.start pr = nth_page k ∧ PageRange.end_ pr = nth_page (k + 3) ∧
      maps m' boot_root (path_of (k + 3)) = Some (Mapped 1 (leaf 0x8000 Flags.WRITABLE))).
Proof.
  eapply runs_mono; [apply (map_any_contiguous_maps_a_free_run (boot_machine 0x50000000) boot_root (boot_frames 0x50000000) 0 1
    (FrameRange.mkRange 0x5000 0x9000) Flags.WRITABLE 4)|].
  - by apply boot_good.
  - lia.
  - lia.
  - cbn [FrameRange.start]. lia.
  - reflexivity.
  - cbn [FrameRange.end_]. lia.
  - reflexivity.
  - lia.
  - rewrite length_boot by (done || lia). by vm_compute.
  - apply boot_run; lia.
  - intros pr m' (k & l' & -> & Hk & Hkn & _ & _ & Hpl). exists k. split; [done|]. split; [by replace (k + 4 - 1) with (k + 3) by lia|].
    unfold count in *. rewrite (pl_maps _ _ _ _ _ _ _ Hpl) by (unfold PAGES; lia). rewrite decide_True by lia.
    by replace (k + 3 - k) with 3 by lia.
Defined.

Lemma map_any_contiguous_one_frame_witness :
  map_any_contiguous (CustomAddressSpace boot_root) 0 1 (FrameRange.mkRange 0x5000 0x6000) 0 (boot_machine 0x50000000) = Crash Panic.
Proof.
  apply (map_any_contiguous_one_frame _ boot_root (boot_frames 0x50000000)).
  - by apply boot_good.
  - lia.
  - lia.
  - cbn [FrameRange.start]. lia.
  - reflexivity.
  - cbn [FrameRange.end_]. lia.
  - reflexivity.
  - rewrite length_boot by (done || lia). by vm_compute.
  - apply boot_run; lia.
Defined.
