(* ===== verification/FloatRound.v ===== *)
(** * Rounding to a float

    An integer too wide for the mantissa is rounded to within half a unit of
    its last place; dividing by a power of two is exact. *)

From S2P Require Import Prelude Float.

Definition f32_div : f32 → f32 → f32 := SFdiv 24 128.

Lemma digits_upper p : Z.pos p < 2 ^ Z.pos (digits2_pos p).
Proof.
  induction p as [p IH|p IH|]; cbn [digits2_pos]; [..|done]; rewrite Pos2Z.inj_succ, Z.pow_succ_r by lia; lia.
Qed.

Lemma digits_unique p d : 2 ^ (d - 1) ≤ Z.pos p < 2 ^ d → 0 < d → Z.pos (digits2_pos p) = d.
Proof.
  intros [Hl Hu] Hd. pose proof (digits_lower p) as Hl'. pose proof (digits_upper p) as Hu'. set (k := Z.pos (digits2_pos p)) in *.
  assert (0 < k) by lia.
  destruct (Z.lt_trichotomy k d) as [Hlt|[->|Hgt]]; [|done|].
  - pose proof (Z.pow_le_mono_r 2 k (d - 1)). lia.
  - pose proof (Z.pow_le_mono_r 2 d (k - 1)). lia.
Qed.

(** [k] shifts to the right: the remainder is known by its top bit and
    whether anything is below it. *)
Definition shifted (n k : Z) (r : shr_record) : Prop :=
  ∃ rest, n = shr_m r * 2 ^ k + rest ∧ 0 ≤ rest < 2 ^ k ∧ 0 ≤ shr_m r ∧
    (if shr_r r then 2 ^ (k - 1) ≤ rest else rest < 2 ^ (k - 1)) ∧
    (if shr_s r then rest ≠ 0 ∧ rest ≠ 2 ^ (k - 1) else rest = 0 ∨ rest = 2 ^ (k - 1)).

Lemma shifted_step n k r : 0 < k → shifted n k r → shifted n (k + 1) (shr_1 r).
Proof.
  intros Hk (rest & Hn & Hr & Hm & Hb & Hs). destruct r as [m r s]. cbn [shr_m shr_r shr_s] in *.
  set (b := if Z.odd m then 1 else 0).
  assert (Hodd : m = 2 * (m / 2) + b) by (unfold b; rewrite (Z.div_mod m 2) at 1 by lia; rewrite Zmod_odd; by destruct (Z.odd m)).
  assert (Hshr : shr_1 {| shr_m := m; shr_r := r; shr_s := s |} = {| shr_m := m / 2; shr_r := Z.odd m; shr_s := r || s |}).
  { destruct m as [|[p|p|]|p]; [done| | |done|lia]; cbn [shr_1 Z.odd]; f_equal.
    - replace (Z.pos p~1) with (Z.pos p * 2 + 1) by lia. rewrite Z.div_add_l by lia. change (1 / 2) with 0. lia.
    - replace (Z.pos p~0) with (Z.pos p * 2) by lia. by rewrite Z.div_mul. }
  rewrite Hshr. assert (Hp : 2 ^ (k + 1) = 2 * 2 ^ k) by (rewrite Z.pow_add_r by lia; lia).
  assert (Hp' : 2 ^ k = 2 * 2 ^ (k - 1)) by (rewrite <- Z.pow_succ_r by lia; f_equal; lia).
  assert (0 < 2 ^ (k - 1)) by (apply Z.pow_pos_nonneg; lia).
  exists (b * 2 ^ k + rest). cbn [shr_m shr_r shr_s]. replace (k + 1 - 1) with k by lia. rewrite Hp.
  split; [rewrite Hn, Hodd at 1; ring|].
  split; [unfold b; destruct (Z.odd m); lia|]. split; [apply Z.div_pos; lia|].
  split; [unfold b; destruct (Z.odd m); lia|]. unfold b. destruct r, s, (Z.odd m); cbn [orb]; lia.
Qed.

Lemma shifted_first n : 0 ≤ n → shifted n 1 (shr_1 {| shr_m := n; shr_r := false; shr_s := false |}).
Proof.
  intros Hn. destruct n as [|[p|p|]|p]; cbn [shr_1]; [exists 0|exists 1|exists 0|exists 1|lia]; cbn [shr_m shr_r shr_s]; rewrite ?Z.pow_1_r; simpl; lia.
Qed.

Lemma iter_pos_iter {A} (f : A → A) k x : iter_pos f k x = Pos.iter f x k.
Proof.
  revert x. induction k as [k IH|k IH|]; intros x; cbn [iter_pos Pos.iter]; rewrite ?IH; [|done..].
  by rewrite !Pos.iter_swap.
Qed.

Lemma shifted_many n k : 0 ≤ n → shifted n (Z.pos k) (iter_pos shr_1 k {| shr_m := n; shr_r := false; shr_s := false |}).
Proof.
  intros Hn. rewrite iter_pos_iter. induction k as [|k IH] using Pos.peano_ind; [by apply shifted_first|].
  rewrite Pos.iter_succ, Pos2Z.inj_succ, <- Z.add_1_r. by apply shifted_step.
Qed.

Section Round.
Context (prec emax : Z) (Hprec : 1 < prec) (Hemax : prec < emax).

(** An even mantissa one bit too wide loses nothing. *)
Lemma round_one_wide m e : Z.pos (digits2_pos m) = prec → emin prec emax ≤ e + 1 ≤ emax - prec →
  binary_round_aux prec emax false (Z.pos m~0) e loc_Exact = S754_finite false m (e + 1).
Proof.
  intros Hd He. unfold binary_round_aux, shr_fexp. cbn [Zdigits2 shr_record_of_loc digits2_pos]. rewrite Pos2Z.inj_succ, Hd.
  replace (fexp prec emax (Z.succ prec + e) - e) with 1 by (unfold fexp; lia).
  cbn [shr iter_pos shr_1 orb shr_m loc_of_shr_record round_nearest_even Zdigits2]. rewrite Hd.
  replace (fexp prec emax (prec + (e + 1)) - (e + 1)) with 0 by (unfold fexp; lia). cbn [shr shr_m].
  destruct (Z.leb_spec (e + 1) (emax - prec)); [done|lia].
Qed.

(** The mantissa after rounding, which may have become a power of two. *)
Lemma round_finish x e : 2 ^ (prec - 1) ≤ x ≤ 2 ^ prec → 0 ≤ e < emax - prec →
  ∃ m' e', match shr_m (shr_fexp prec emax x e loc_Exact).1 with
    | Z0 => S754_zero false
    | Z.pos m => if (shr_fexp prec emax x e loc_Exact).2 <=? emax - prec
                 then S754_finite false m (shr_fexp prec emax x e loc_Exact).2 else S754_infinity false
    | Z.neg _ => S754_nan
    end = S754_finite false m' e' ∧ e ≤ e' ≤ e + 1 ∧ Z.pos (digits2_pos m') = prec ∧ Z.pos m' * 2 ^ e' = x * 2 ^ e.
Proof.
  intros [Hlo Hhi] He. assert (0 < 2 ^ (prec - 1)) by (apply Z.pow_pos_nonneg; lia).
  assert (Hp : 2 ^ prec = 2 * 2 ^ (prec - 1)) by (rewrite <- Z.pow_succ_r by lia; f_equal; lia).
  destruct x as [|m|m]; [lia| |lia]. unfold shr_fexp. cbn [Zdigits2 shr_record_of_loc].
  destruct (Z.lt_ge_cases (Z.pos m) (2 ^ prec)).
  - assert (Hd : Z.pos (digits2_pos m) = prec) by (apply digits_unique; lia). rewrite Hd.
    replace (fexp prec emax (prec + e) - e) with 0 by (unfold fexp, emin; lia). cbn [shr fst snd shr_m].
    destruct (Z.leb_spec e (emax - prec)); [|lia]. exists m, e. split; [done|]. split; [lia|]. done.
  - assert (Hd : Z.pos (digits2_pos m) = prec + 1).
    { apply digits_unique; [|lia]. replace (prec + 1 - 1) with prec by lia. rewrite Z.pow_add_r by lia. lia. }
    rewrite Hd. replace (fexp prec emax (prec + 1 + e) - e) with 1 by (unfold fexp, emin; lia).
    destruct m as [p|p|]; [lia| |lia]. cbn [shr iter_pos fst snd shr_1 shr_m].
    destruct (Z.leb_spec (e + 1) (emax - prec)); [|lia]. exists p, (e + 1). split; [done|]. split; [lia|].
    cbn [digits2_pos] in Hd. split; [lia|]. rewrite Z.pow_add_r by lia. lia.
Qed.

Lemma round_near m : 2 ^ prec ≤ Z.pos m < 2 ^ (emax - 2) →
  ∃ m' e, binary_normalize prec emax (Z.pos m) 0 false = S754_finite false m' e ∧ 0 < e ∧
    Z.pos (digits2_pos m') = prec ∧ 2 ^ prec * Z.abs (Z.pos m' * 2 ^ e - Z.pos m) ≤ Z.pos m.
Proof.
  intros [Hlo Hhi]. cbn [binary_normalize]. unfold binary_round. set (d := Z.pos (digits2_pos m)).
  pose proof (digits_lower m) as Hl. pose proof (digits_upper m) as Hu. fold d in Hl, Hu.
  assert (Hd : prec < d).
  { destruct (Z.lt_ge_cases prec d); [done|]. pose proof (Z.pow_le_mono_r 2 d prec ltac:(lia)). lia. }
  assert (Hd' : d < emax).
  { destruct (Z.lt_ge_cases d emax); [done|]. pose proof (Z.pow_le_mono_r 2 (emax - 2) (d - 1) ltac:(lia)). lia. }
  rewrite Z.add_0_r. replace (fexp prec emax d) with (d - prec) by (unfold fexp, emin; lia).
  unfold shl_align. rewrite Z.sub_0_r. destruct (d - prec) as [|k|k] eqn:Ek; [lia| |lia].
  unfold binary_round_aux. unfold shr_fexp at 1. cbn [Zdigits2 shr_record_of_loc]. fold d. rewrite Z.add_0_r.
  replace (fexp prec emax d - 0) with (Z.pos k) by (unfold fexp, emin; lia). cbn [shr].
  destruct (shifted_many (Z.pos m) k ltac:(lia)) as (rest & Hn & Hr & Hm & Hb & Hs).
  set (r := iter_pos shr_1 k _) in *. clearbody r. rewrite Z.add_0_l.
  set (x := round_nearest_even (shr_m r) (loc_of_shr_record r)).
  assert (Hk : 2 ^ Z.pos k = 2 * 2 ^ (Z.pos k - 1)) by (rewrite <- Z.pow_succ_r by lia; f_equal; lia).
  assert (0 < 2 ^ (Z.pos k - 1)) by (apply Z.pow_pos_nonneg; lia).
  assert (Hx : (x = shr_m r ∧ rest ≤ 2 ^ (Z.pos k - 1)) ∨ (x = shr_m r + 1 ∧ 2 ^ (Z.pos k - 1) ≤ rest)).
  { unfold x. destruct r as [m1 [] []]; cbn [shr_m shr_r shr_s loc_of_shr_record round_nearest_even] in *; try lia.
    destruct (Z.even m1); lia. }
  assert (Hdk : 2 ^ d = 2 ^ prec * 2 ^ Z.pos k) by (rewrite <- Z.pow_add_r by lia; f_equal; lia).
  assert (Hdk' : 2 ^ (d - 1) = 2 ^ (prec - 1) * 2 ^ Z.pos k) by (rewrite <- Z.pow_add_r by lia; f_equal; lia).
  assert (Hr1 : 2 ^ (prec - 1) ≤ shr_m r < 2 ^ prec).
  { split; [apply Zlt_succ_le|]; apply (Z.mul_lt_mono_pos_r (2 ^ Z.pos k)); lia. }
  destruct (round_finish x (Z.pos k)) as (m' & e' & E & He & Hdig & Hv); [lia|lia|].
  exists m', e'. destruct (shr_fexp prec emax x (Z.pos k) loc_Exact) as [mrs e''] eqn:Ef. cbn [fst snd] in E.
  split; [exact E|]. split; [lia|]. split; [done|]. rewrite Hv.
  assert (Hp : 2 ^ prec = 2 * 2 ^ (prec - 1)) by (rewrite <- Z.pow_succ_r by lia; f_equal; lia).
  assert (Hab : Z.abs (x * 2 ^ Z.pos k - Z.pos m) ≤ 2 ^ (Z.pos k - 1)) by (rewrite Hn; destruct Hx as [[-> ?]|[-> ?]]; lia).
  etrans; [apply Z.mul_le_mono_nonneg_l; [lia|exact Hab]|].
  replace (2 ^ prec * 2 ^ (Z.pos k - 1)) with (2 ^ (d - 1)) by (rewrite <- Z.pow_add_r by lia; f_equal; lia). lia.
Qed.
End Round.

(** ** Dividing by a power of two *)

Lemma f32_div_power m e k : Z.pos (digits2_pos m) = 24 → -100 ≤ e ≤ 70 → -30 ≤ k ≤ 30 →
  f32_div (S754_finite false m e) (S754_finite false 8388608 (k - 23)) = S754_finite false m (e - k).
Proof.
  intros Hd He Hk. unfold f32_div, SFdiv, SFdiv_core_binary. cbn [xorb Zdigits2]. rewrite Hd.
  change (Z.pos (digits2_pos 8388608)) with 24.
  replace (Z.min (fexp 24 128 (24 + e - (24 + (k - 23)))) (e - (k - 23))) with (e - k - 1) by (unfold fexp, emin; lia).
  replace (e - (k - 23) - (e - k - 1)) with 24 by lia. cbv iota.
  assert (Hq : Z.div_eucl (Z.shiftl (Z.pos m) 24) 8388608 = (Z.pos m~0, 0)).
  { rewrite Z.shiftl_mul_pow2 by lia. replace (Z.pos m * 2 ^ 24) with (Z.pos m~0 * 8388608) by lia.
    pose proof (Z.div_mul (Z.pos m~0) 8388608 ltac:(lia)) as Hdiv. pose proof (Z.mod_mul (Z.pos m~0) 8388608 ltac:(lia)) as Hmod.
    unfold Z.div, Z.modulo in Hdiv, Hmod. destruct (Z.div_eucl _ _). congruence. }
  rewrite Hq. change (new_location 8388608 0) with loc_Exact. rewrite round_one_wide by first [done | lia | unfold emin; lia].
  f_equal. lia.
Qed.

(** ** Rounding up to whole pages *)

(** The number of pages of 4096 bytes a number of bytes converted to [f32]
    takes: [v] is the value of the float. *)
Lemma pages_of n max ceilf : 0 < n < U64 → 2 ^ 53 ≤ max → (∀ m e, ceilf (S754_finite false m e) = float_ceil 24 128 (S754_finite false m e)) →
  let pages := f32_to_uint max (ceilf (f32_div (f32_of n) (f32_of 4096))) in
  ∃ v, 2 ^ 24 * Z.abs (v - n) ≤ n ∧ 4096 * (pages - 1) < v ≤ 4096 * pages ∧ (n < 2 ^ 24 → v = n).
Proof.
  intros Hn Hmax Hc pages. destruct n as [|p|p]; [lia| |lia].
  assert (Hf : ∃ m e, f32_of (Z.pos p) = S754_finite false m e ∧ Z.pos (digits2_pos m) = 24 ∧ -30 ≤ e ≤ 41 ∧
    ∃ v, 2 ^ 24 * Z.abs (v - Z.pos p) ≤ Z.pos p ∧ Z.pos m * 2 ^ (e + 30) = v * 2 ^ 30 ∧ (Z.pos p < 2 ^ 24 → v = Z.pos p)).
  { destruct (Z.lt_ge_cases (Z.pos p) (2 ^ 24)).
    - destruct (normalize_form 24 128 ltac:(lia) ltac:(lia) p) as (m & e & E & He & Hv & Hd); [lia|]. exists m, e.
      pose proof (digits_upper m) as Hu. rewrite Hd in Hu.
      assert (-24 < e).
      { destruct (Z.lt_ge_cases (-24) e); [done|]. pose proof (Z.pow_le_mono_r 2 24 (- e) ltac:(lia)). nia. }
      split; [exact E|]. split; [done|]. split; [lia|]. exists (Z.pos p). split; [rewrite Z.sub_diag; lia|]. split; [|done].
      rewrite Hv, <- Z.mul_assoc, <- Z.pow_add_r by lia. do 2 f_equal. lia.
    - destruct (round_near 24 128 ltac:(lia) ltac:(lia) p) as (m & e & E & He & Hd & Hv); [lia|]. exists m, e.
      pose proof (digits_lower m) as Hlo. rewrite Hd in Hlo.
      assert (e ≤ 41).
      { destruct (Z.le_gt_cases e 41); [done|]. pose proof (Z.pow_le_mono_r 2 42 e ltac:(lia)). nia. }
      split; [exact E|]. split; [done|]. split; [lia|]. exists (Z.pos m * 2 ^ e). split; [done|]. split; [|lia].
      rewrite Z.pow_add_r by lia. ring. }
  destruct Hf as (m & e & E & Hd & He & v & Hv & Hmv & Hex). exists v. split; [done|]. split; [|done].
  unfold pages. rewrite E. change (f32_of 4096) with (S754_finite false 8388608 (12 - 23)). rewrite f32_div_power, Hc by lia.
  pose proof (digits_upper m) as Hu. rewrite Hd in Hu. pose proof (digits_lower m) as Hl. rewrite Hd in Hl.
  cbn [float_ceil]. destruct (Z.leb_spec 0 (e - 12)) as [He'|He'].
  - unfold f32_to_uint. cbn [f64_to_uint]. destruct (Z.leb_spec 0 (e - 12)); [|lia].
    assert (Hv' : v = 4096 * (Z.pos m * 2 ^ (e - 12))).
    { assert (Ep : 2 ^ (e + 30) = 2 ^ (e - 12) * 2 ^ 12 * 2 ^ 30) by (rewrite <- !Z.pow_add_r by lia; f_equal; lia). rewrite Ep in Hmv. lia. }
    rewrite Z.min_r; lia.
  - set (c := - (Z.neg m / 2 ^ (- (e - 12)))).
    assert (Hc' : (c - 1) * 2 ^ (12 - e) < Z.pos m ≤ c * 2 ^ (12 - e)).
    { unfold c. replace (- (e - 12)) with (12 - e) by lia. pose proof (Z.div_mod (Z.neg m) (2 ^ (12 - e)) ltac:(apply Z.pow_nonzero; lia)).
      pose proof (Z.mod_pos_bound (Z.neg m) (2 ^ (12 - e)) ltac:(apply Z.pow_pos_nonneg; lia)). lia. }
    assert (Hp : 1 < 2 ^ (12 - e)) by (apply Z.pow_gt_1; lia).
    assert (Hc0 : 0 ≤ c < 2 ^ 24) by nia. unfold f32_to_uint. rewrite normalize_exact by lia.
    assert (Ep : 2 ^ (e + 30) * 2 ^ (12 - e) = 2 ^ 30 * 4096) by (change 4096 with (2 ^ 12); rewrite <- !Z.pow_add_r by lia; f_equal; lia).
    assert (0 < 2 ^ (e + 30)) by (apply Z.pow_pos_nonneg; lia). nia.
Qed.
