(* ===== verification/Heap.v ===== *)
(** * The kernel heap

    [subsystem/allocator.rs]: mapping the initial heap and growing it.  The
    free list is the [linked_list_allocator] crate and rounding up is [libm];
    both are parameters. *)

From S2P Require Import Prelude Bits Float FloatRound Frames PageTable PageWalk PageMap PageAddr PageSpace PageAny.

Definition HEAP_START : Z := 0xffffffff82220000.
Definition INITIAL_HEAP_SIZE : Z := 64 * 1024 * 1024.

Class HeapOps (H : Type) := {
  heap_init : Z → Z → H;
  heap_free : H → Z;
  heap_extend : Z → H → H;
  allocate_first_fit : Z → Z → H → option Z * H;
  heap_deallocate : Z → Z → Z → H → H
}.

(** A new heap of whole pages is free as a whole, and the whole pages it is
    extended by are free.  (The crate promises nothing of small or unaligned
    extensions.) *)
Class HeapLaws (H : Type) `{HeapOps H} : Prop := {
  init_free b s : b mod PAGE_SIZE = 0 → 0 < s → s mod PAGE_SIZE = 0 → heap_free (heap_init b s) = s;
  extend_free by_ h : 0 < by_ → by_ mod PAGE_SIZE = 0 → heap_free (heap_extend by_ h) = heap_free h + by_
}.

Class CeilF := ceilf : f32 → f32.
Class CeilFLaw `{CeilF} : Prop := ceilf_law m e : ceilf (S754_finite false m e) = float_ceil 24 128 (S754_finite false m e).

Definition round_to_next_power_of_two (n : Z) : res Z :=
  if n =? 0 then Ret 1 else
  n ← sub_chk U64 n 1;
  let n := Z.lor n (Z.shiftr n 1) in
  let n := Z.lor n (Z.shiftr n 2) in
  let n := Z.lor n (Z.shiftr n 4) in
  let n := Z.lor n (Z.shiftr n 8) in
  let n := Z.lor n (Z.shiftr n 16) in
  let n := Z.lor n (Z.shiftr n 32) in
  add_chk U64 n 1.

Section Heap.
Context {H : Type} `{HeapOps H} `{CeilF}.

Record KernelHeapAllocatorInner := mkHeap { heap : H; currently_allocated_pages : Z }.

(** The page of the heap with the given number. *)
Definition heap_page (k : Z) : PM Z :=
  o ← lift (mul_chk U64 k PAGE_SIZE);
  a ← lift (add_chk U64 HEAP_START o);
  lift (Page_new a).

Fixpoint map_initial (ks : list Z) : PM (unit + MemoryError) :=
  match ks with
  | [] => mret (inl tt)
  | k :: ks =>
      page ← heap_page k;
      frame ← expect allocate_frame;
      r ← map_impl CurrentAddressSpace (Exact page frame) Flags.WRITABLE;
      match r with inl _ => map_initial ks | inr e => mret (inr e) end
  end.

(** [initialize_heap], with the allocator it sets up. *)
Definition initialize_heap : PM (KernelHeapAllocatorInner + MemoryError) :=
  r ← map_initial (seqZ 0 (INITIAL_HEAP_SIZE / PAGE_SIZE));
  match r with
  | inl _ => mret (inl (mkHeap (heap_init HEAP_START INITIAL_HEAP_SIZE) (INITIAL_HEAP_SIZE / PAGE_SIZE)))
  | inr e => mret (inr e)
  end.

(** The loop over the frames the request needs. *)
Fixpoint map_minimal (pages : Z) (ks : list Z) : PM unit :=
  match ks with
  | [] => mret tt
  | i :: ks =>
      k ← lift (add_chk U64 pages i);
      page ← heap_page k;
      frame ← expect allocate_frame;
      r ← map_impl CurrentAddressSpace (Exact page frame) Flags.WRITABLE;
      match r with inl _ => map_minimal pages ks | inr _ => lift (Crash Panic) end
  end.

(** The loop over the frames beyond those, which gives up at an error. *)
Fixpoint map_extra (pages : Z) (ks : list Z) : PM unit :=
  match ks with
  | [] => mret tt
  | i :: ks =>
      k ← lift (add_chk U64 pages i);
      page ← heap_page k;
      frame ← allocate_frame;
      match frame with
      | Some frame =>
          r ← map_impl CurrentAddressSpace (Exact page frame) Flags.WRITABLE;
          match r with inl _ => map_extra pages ks | inr _ => mret tt end
      | None => mret tt
      end
  end.

Definition minimal_frames (remaining_bytes : Z) : Z :=
  f32_to_uint (U64 - 1) (ceilf (f32_div (f32_of remaining_bytes) (f32_of 4096))).

Definition optimal_frames (minimal : Z) : res Z :=
  m ← add_chk U64 minimal 1;
  p ← round_to_next_power_of_two m;
  Ret (Z.max p 16).

Definition grow (size : Z) (inner : KernelHeapAllocatorInner) : PM KernelHeapAllocatorInner :=
  let minimal := minimal_frames (size - heap_free (heap inner)) in
  optimal ← lift (optimal_frames minimal);
  lift (rassert (minimal <=? optimal));;
  map_minimal (currently_allocated_pages inner) (seqZ 0 minimal);;
  map_extra (currently_allocated_pages inner) (seqZ minimal (optimal - minimal));;
  pages ← lift (add_chk U64 (currently_allocated_pages inner) optimal);
  bytes ← lift (mul_chk U64 optimal PAGE_SIZE);
  mret (mkHeap (heap_extend bytes (heap inner)) pages).

(** [alloc]; the null pointer is [0]. *)
Definition alloc (size align : Z) (inner : KernelHeapAllocatorInner) : PM (Z * KernelHeapAllocatorInner) :=
  inner ← (if heap_free (heap inner) <? size then grow size inner else mret inner);
  let (r, h) := allocate_first_fit size align (heap inner) in
  mret (match r with Some p => p | None => 0 end, mkHeap h (currently_allocated_pages inner)).

Definition dealloc (ptr size align : Z) (inner : KernelHeapAllocatorInner) : KernelHeapAllocatorInner :=
  if ptr =? 0 then inner else mkHeap (heap_deallocate ptr size align (heap inner)) (currently_allocated_pages inner).
End Heap.
Arguments KernelHeapAllocatorInner : clear implicits.

(** ** The next power of two *)

(** Every bit of [y] is set that has a set bit of [x] at most [w - 1] above. *)
Definition smeared (x w y : Z) : Prop :=
  ∀ i, 0 ≤ i → Z.testbit y i = true ↔ ∃ j, i ≤ j < i + w ∧ Z.testbit x j = true.

Lemma smeared_step x w y : 0 < w → smeared x w y → smeared x (2 * w) (Z.lor y (Z.shiftr y w)).
Proof.
  intros Hw Hs i Hi. rewrite Z.lor_spec, orb_true_iff, Z.shiftr_spec by lia. rewrite (Hs i), (Hs (i + w)) by lia. split.
  - intros [(j & ? & ?)|(j & ? & ?)]; exists j; (split; [lia|done]).
  - intros (j & Hj & Ht). destruct (Z.lt_ge_cases j (i + w)); [left|right]; exists j; (split; [lia|done]).
Qed.

Lemma smeared_all x y : 0 < x < U64 → smeared x 64 y → 0 ≤ y → y = Z.ones (Z.log2 x + 1).
Proof.
  intros Hx Hs Hy. apply Z.bits_inj'. intros i Hi. pose proof (Z.log2_nonneg x).
  assert (Hl : Z.log2 x < 64) by (apply Z.log2_lt_pow2; lia).
  destruct (Z.lt_ge_cases i (Z.log2 x + 1)).
  - rewrite Z.ones_spec_low by lia. apply Hs; [done|]. exists (Z.log2 x). split; [lia|]. apply Z.bit_log2. lia.
  - rewrite Z.ones_spec_high by lia. apply not_true_is_false. rewrite (Hs i Hi). intros (j & Hj & Ht).
    rewrite Z.bits_above_log2 in Ht by lia. done.
Qed.

Lemma round_up_spec n : 0 ≤ n < U64 →
  round_to_next_power_of_two n = if n <=? 2 ^ 63 then Ret (2 ^ Z.log2_up n) else Crash Panic.
Proof.
  intros Hn. unfold round_to_next_power_of_two. destruct (Z.eqb_spec n 0) as [->|Hn0]; [done|].
  rewrite sub_chk_ret by lia. cbn [mbind res_bind]. destruct (decide (n = 1)) as [->|Hn1]; [done|].
  set (x := n - 1). assert (Hx : 0 < x < U64) by lia. cbv zeta.
  match goal with |- add_chk _ ?y 1 = _ => assert (Hy : y = Z.ones (Z.log2 x + 1)) end.
  { apply smeared_all; [done| |].
    - do 6 (apply smeared_step with (w := 32) || apply smeared_step with (w := 16) || apply smeared_step with (w := 8)
        || apply smeared_step with (w := 4) || apply smeared_step with (w := 2) || apply smeared_step with (w := 1); [lia|]).
      intros i Hi. split; [intros; exists i; split; [lia|done]|]. intros (j & Hj & Ht). by replace i with j by lia.
    - repeat (rewrite Z.lor_nonneg || rewrite Z.shiftr_nonneg || split); lia. }
  rewrite Hy, Z.ones_equiv. assert (Hl : Z.log2_up n = Z.log2 x + 1) by (rewrite Z.log2_up_eqn by lia; unfold x; rewrite Z.sub_1_r; lia).
  pose proof (Z.log2_nonneg x).
  destruct (Z.leb_spec n (2 ^ 63)) as [Hle|Hgt].
  - assert (Z.log2 x < 63) by (apply Z.log2_lt_pow2; lia). pose proof (Z.pow_le_mono_r 2 (Z.log2 x + 1) 63 ltac:(lia)).
    pose proof (Z.pow_pos_nonneg 2 (Z.log2 x + 1)). rewrite add_chk_ret by lia. rewrite Hl. f_equal. lia.
  - assert (63 ≤ Z.log2 x) by (apply Z.log2_le_pow2; lia). assert (Z.log2 x < 64) by (apply Z.log2_lt_pow2; lia).
    replace (Z.log2 x + 1) with 64 by lia. done.
Qed.

(** ** Growth is enough *)

Section Sizes.
Context `{CeilF} `{!CeilFLaw}.

(** Below 64 GiB the frames added hold what is missing, although the
    number of bytes is rounded to a mantissa of 24 bits. *)
Lemma growth_covers remaining : 0 < remaining < 2 ^ 36 →
  ∃ optimal, optimal_frames (minimal_frames remaining) = Ret optimal ∧
    0 < minimal_frames remaining ∧ minimal_frames remaining ≤ optimal ∧ remaining ≤ optimal * PAGE_SIZE ∧
    optimal ≤ Z.max 16 (remaining / 1024 + 4).
Proof.
  intros Hr. destruct (pages_of remaining (U64 - 1) ceilf) as (v & Hv & Hm & _); [lia|lia|apply ceilf_law|].
  unfold minimal_frames. set (minimal := f32_to_uint _ _) in *. clearbody minimal.
  assert (Hmin : 0 < minimal ≤ 2 ^ 26) by lia. unfold optimal_frames. rewrite add_chk_ret by lia. cbn [mbind res_bind].
  rewrite round_up_spec by lia. destruct (Z.leb_spec (minimal + 1) (2 ^ 63)); [|lia]. cbn [mbind res_bind].
  eexists. split; [reflexivity|]. set (e := Z.log2_up (minimal + 1)).
  destruct (Z.log2_up_spec (minimal + 1)) as [Hlo Hhi]; [lia|]. fold e in Hlo, Hhi.
  assert (He : 0 ≤ e) by apply Z.log2_up_nonneg.
  assert (Hup : 2 ^ e ≤ 2 * minimal).
  { destruct e as [|e'|e']; [simpl in *; lia| |lia]. replace (Z.pos e') with (Z.succ (Z.pred (Z.pos e'))) by lia.
    rewrite Z.pow_succ_r by lia. lia. }
  unfold PAGE_SIZE. split; [lia|]. split; [lia|]. split; [lia|]. mlia.
Qed.
End Sizes.

(** ** Mapping the pages *)

Definition heap_addr (k : Z) : Z := HEAP_START + k * PAGE_SIZE.
Definition HEAP_PAGES : Z := (U64 - HEAP_START) / PAGE_SIZE.

Lemma heap_addr_ok k : 0 ≤ k < HEAP_PAGES → page_ok (heap_addr k) ∧ ∀ m, heap_page k m = Ret (heap_addr k, m).
Proof.
  intros Hk. change HEAP_PAGES with 515552 in Hk. unfold heap_addr, HEAP_START, PAGE_SIZE in *.
  set (a := 0xffffffff82220000 + k * 4096).
  assert (Ha : a mod 2 ^ 48 = a - (U64 - 2 ^ 48)) by (symmetry; apply (Z.mod_unique_pos _ _ 65535); lia).
  assert (Hal : a mod 4096 = 0) by (unfold a; mlia).
  split.
  - split; [|done]. rewrite sign_extend_eq, Ha. destruct (Z.ltb_spec (a - (U64 - 2 ^ 48)) (2 ^ 47)); lia.
  - intros m. unfold heap_page. rewrite (lift_step _ _ _ (k * 4096)) by (apply mul_chk_ret; lia).
    rewrite (lift_step _ _ _ a) by (apply add_chk_ret; unfold a, HEAP_START in *; lia).
    unfold lift, Page_new, is_aligned_to, PAGE_SIZE. by rewrite Hal.
Qed.

Lemma heap_addr_inj j k : 0 ≤ j < HEAP_PAGES → 0 ≤ k < HEAP_PAGES → path (heap_addr j) = path (heap_addr k) → j = k.
Proof.
  intros Hj Hk E. apply path_inj in E; [|by apply heap_addr_ok..]. unfold heap_addr, PAGE_SIZE in E. lia.
Qed.

(** From [m] to [m'] the pages of the heap from the [a]th on were mapped to
    the frames [fs], each taken from the pool, and no other page changed. *)
Record mapped_run (root a : Z) (fs l l' : list Z) (m m' : machine) : Prop := {
  mr_offset : offset m' = offset m;
  mr_cr3 : cr3 m' = cr3 m;
  mr_good : good m' root l';
  mr_suffix : l' `suffix_of` l;
  mr_length : (length l ≤ 4 * length fs + length l')%nat;
  mr_nodup : NoDup fs;
  mr_taken : ∀ f, f ∈ fs → f ∈ l ∧ f ∉ l';
  mr_new : ∀ i f, fs !! i = Some f → maps m' root (path (heap_addr (a + Z.of_nat i))) = Some (Mapped 1 (leaf f Flags.WRITABLE));
  mr_old : ∀ π, full_path π → (∀ i, (i < length fs)%nat → π ≠ path (heap_addr (a + Z.of_nat i))) → maps m' root π = maps m root π
}.

Lemma mapped_none root a l m : good m root l → mapped_run root a [] l l m m.
Proof. intros Hg. constructor; try done; [by apply NoDup_nil_2|]. intros f Hf. by apply not_elem_of_nil in Hf. Qed.

Lemma mapped_app root a fs fs' l l1 l2 m m1 m2 : 0 ≤ a → a + Z.of_nat (length fs + length fs') ≤ HEAP_PAGES →
  mapped_run root a fs l l1 m m1 → mapped_run root (a + Z.of_nat (length fs)) fs' l1 l2 m1 m2 → mapped_run root a (fs ++ fs') l l2 m m2.
Proof.
  intros Ha Hmax [] []. constructor; [congruence|congruence|done|by etrans|rewrite length_app; lia|..].
  - apply NoDup_app. split; [done|]. split; [|done]. intros f Hf Hf'. by destruct (mr_taken0 f Hf), (mr_taken1 f Hf').
  - intros f [Hf|Hf]%elem_of_app.
    + destruct (mr_taken0 f Hf) as [? Hn]. split; [done|]. intros Hl2. apply Hn. by eapply suffix_elem.
    + destruct (mr_taken1 f Hf) as [Hl ?]. split; [by eapply suffix_elem|done].
  - intros i f [Hi|[Hge Hi]]%lookup_app_Some.
    + pose proof (lookup_lt_Some _ _ _ Hi). rewrite mr_old1; [by apply mr_new0|apply path_full|].
      intros j Hj E. apply heap_addr_inj in E; lia.
    + apply mr_new1 in Hi. rewrite <- Hi. do 3 f_equal. lia.
  - intros π Hπ Hn. rewrite length_app in Hn. rewrite mr_old1, mr_old0; try done.
    + intros i Hi. apply Hn. lia.
    + intros i Hi E. apply (Hn (length fs + i)%nat); [lia|]. rewrite E. do 2 f_equal. lia.
Qed.

Section Mapping.
Context (root : Z).

(** One page. *)
Lemma map_one_spec m k f l : good m root (f :: l) → root = offset m + cr3 m → cr3_ok m → (3 ≤ length l)%nat → 0 ≤ k < HEAP_PAGES →
  maps m root (path (heap_addr k)) = Some Unmapped →
  ∃ m1, allocate_frame m = Ret (Some f, m1) ∧
    runs (map_impl CurrentAddressSpace (Exact (heap_addr k) f) Flags.WRITABLE) m1 (λ r m', r = inl (mkMapResult (heap_addr k) f) ∧
      ∃ l', mapped_run root k [f] (f :: l) l' m m').
Proof.
  intros Hg Hroot Hc Hl Hk Hun. destruct (heap_addr_ok k Hk) as [Hok _].
  destruct (allocate_and_map_spec m root f l (heap_addr k) Hg Hroot Hc Hl Hok Hun) as (m1 & E & Hrun). exists m1. split; [done|].
  eapply runs_mono; [exact Hrun|]. intros r m' (-> & Ho & Hcr & l' & Hg' & [Hlen Hsuf] & Hm). split; [done|].
  pose proof (pool_nodup _ _ (good_pool _ _ _ Hg)) as Hnd. apply NoDup_cons in Hnd as [Hnf _].
  exists l'. constructor; [done|done|done|by apply suffix_cons_r|simpl; lia|apply NoDup_singleton|..].
  - intros g ->%list_elem_of_singleton. split; [by left|]. intros Hin. apply Hnf. by eapply suffix_elem.
  - intros i g Hi. destruct i as [|i]; [|done]. injection Hi as <-. change (Z.of_nat 0) with 0. rewrite Z.add_0_r, (Hm _ (path_full _)). by rewrite decide_True.
  - intros π Hπ Hn. rewrite (Hm π Hπ). rewrite decide_False; [done|].
    intros ->. apply (Hn 0%nat); [cbn [length]; lia|]. change (Z.of_nat 0) with 0. by rewrite Z.add_0_r.
Qed.

(** The pages from the [a]th on that are not mapped yet. *)
Definition room (m : machine) (a n : Z) : Prop := ∀ k, a ≤ k < a + n → maps m root (path (heap_addr k)) = Some Unmapped.

Lemma room_after a b n fs l l' m m' : 0 ≤ a → b = a + Z.of_nat (length fs) → b + n ≤ HEAP_PAGES → 0 ≤ n →
  mapped_run root a fs l l' m m' → room m a (Z.of_nat (length fs) + n) → room m' b n.
Proof.
  intros Ha -> Hb Hn Hr Hroom k Hk. rewrite (mr_old _ _ _ _ _ _ _ Hr); [apply Hroom; lia|apply path_full|].
  intros i Hi E. apply heap_addr_inj in E; lia.
Qed.

Lemma mapped_keeps a fs l l' m m' : mapped_run root a fs l l' m m' → root = offset m + cr3 m → cr3_ok m →
  root = offset m' + cr3 m' ∧ cr3_ok m'.
Proof. intros [Ho Hcr] -> Hc. unfold cr3_ok in *. by rewrite Ho, Hcr. Qed.

(** The outcome of a loop over [n] pages. *)
Definition mapped {A} (ok : A) (a n : Z) (l : list Z) (m : machine) (r : A) (m' : machine) : Prop :=
  r = ok ∧ ∃ fs l', Z.of_nat (length fs) = n ∧ mapped_run root a fs l l' m m'.

(** What a loop needs at its start. *)
Record ready (a n : Z) (l : list Z) (m : machine) : Prop := {
  rd_good : good m root l;
  rd_root : root = offset m + cr3 m;
  rd_cr3 : cr3_ok m;
  rd_range : 0 ≤ a ∧ 0 ≤ n ∧ a + n ≤ HEAP_PAGES;
  rd_frames : 4 * n ≤ Z.of_nat (length l);
  rd_room : room m a n
}.

(** One round of a loop: the page and frame it takes, and the state left for
    the other rounds. *)
Lemma ready_step {A} (ok : A) (rest : MapResult + MemoryError → PM A) a n l m : 0 ≤ n → ready a (n + 1) l m →
  (∀ l1 m1, ready (a + 1) n l1 m1 → runs (rest (inl (mkMapResult (heap_addr a) (hd 0 l)))) m1 (mapped ok (a + 1) n l1 m1)) →
  heap_page a m = Ret (heap_addr a, m) ∧ ∃ f m1, allocate_frame m = Ret (Some f, m1) ∧
    runs (map_impl CurrentAddressSpace (Exact (heap_addr a) f) Flags.WRITABLE ≫= rest) m1 (mapped ok a (n + 1) l m).
Proof.
  intros Hn [Hg Hroot Hc Hr Hl Hroom] Hrest. destruct (heap_addr_ok a) as [_ Hp]; [lia|]. split; [done|].
  destruct l as [|f l]; [simpl in Hl; lia|]. destruct (map_one_spec m a f l Hg Hroot Hc) as (m1 & E & Hrun); [simpl in Hl; lia|lia|apply Hroom; lia|].
  exists f, m1. split; [done|]. eapply runs_bind; [exact Hrun|]. intros r m2 (-> & l2 & Hm). cbn [hd] in Hrest.
  eapply runs_mono; [apply (Hrest l2 m2)|].
  - destruct (mapped_keeps _ _ _ _ _ _ Hm Hroot Hc). constructor; [apply Hm|done|done|lia|..].
    + pose proof (mr_length _ _ _ _ _ _ _ Hm) as Hlen. cbn [length] in *. lia.
    + eapply (room_after a (a + 1) n [f]); [lia|done|lia|done|exact Hm|]. cbn [length]. by rewrite Z.add_comm.
  - intros r m3 (-> & fs & l3 & Hfs & Hm'). split; [done|]. exists (f :: fs), l3. split; [cbn [length]; lia|].
    apply (mapped_app root a [f] fs _ l2 _ _ m2); [lia|cbn [length]; lia|done|done].
Qed.

Lemma map_initial_spec n : 0 ≤ n → ∀ a l m, ready a n l m → runs (map_initial (seqZ a n)) m (mapped (inl tt) a n l m).
Proof.
  intros Hn. pattern n. apply natlike_ind; [..|done]; clear n Hn.
  - intros a l m Hr. apply runs_ret. split; [done|]. exists [], l. split; [done|]. apply mapped_none, Hr.
  - intros n Hn IH a l m Hr. rewrite seqZ_cons by lia. replace (Z.pred (Z.succ n)) with n by lia. rewrite <- Z.add_1_r in *.
    destruct (ready_step (inl tt) (λ r, match r with inl _ => map_initial (seqZ (Z.succ a) n) | inr e => mret (inr e) end) a n l m Hn Hr)
      as (Ep & f & m1 & Ea & Hrun); [intros l1 m1 Hr1; rewrite <- Z.add_1_r; by apply IH|].
    cbn [map_initial]. eapply runs_step; [exact Ep|]. eapply runs_step; [unfold expect; by rewrite (bind_step _ _ _ _ _ Ea)|]. exact Hrun.
Qed.

Lemma map_minimal_spec pages n : 0 ≤ n → ∀ i l m, ready (pages + i) n l m → runs (map_minimal pages (seqZ i n)) m (mapped tt (pages + i) n l m).
Proof.
  intros Hn. pattern n. apply natlike_ind; [..|done]; clear n Hn.
  - intros i l m Hr. apply runs_ret. split; [done|]. exists [], l. split; [done|]. apply mapped_none, Hr.
  - intros n Hn IH i l m Hr. rewrite seqZ_cons by lia. replace (Z.pred (Z.succ n)) with n by lia. rewrite <- Z.add_1_r in *.
    destruct (ready_step tt (λ r, match r with inl _ => map_minimal pages (seqZ (Z.succ i) n) | inr _ => lift (Crash Panic) end) (pages + i) n l m Hn Hr)
      as (Ep & f & m1 & Ea & Hrun); [intros l1 m1 Hr1; rewrite <- Z.add_assoc, Z.add_1_r in *; by apply IH|].
    pose proof (rd_range _ _ _ _ Hr) as Hb. change HEAP_PAGES with 515552 in Hb.
    cbn [map_minimal]. eapply runs_lift; [apply add_chk_ret; lia|]. eapply runs_step; [exact Ep|].
    eapply runs_step; [unfold expect; by rewrite (bind_step _ _ _ _ _ Ea)|]. exact Hrun.
Qed.

Lemma map_extra_spec pages n : 0 ≤ n → ∀ i l m, ready (pages + i) n l m → runs (map_extra pages (seqZ i n)) m (mapped tt (pages + i) n l m).
Proof.
  intros Hn. pattern n. apply natlike_ind; [..|done]; clear n Hn.
  - intros i l m Hr. apply runs_ret. split; [done|]. exists [], l. split; [done|]. apply mapped_none, Hr.
  - intros n Hn IH i l m Hr. rewrite seqZ_cons by lia. replace (Z.pred (Z.succ n)) with n by lia. rewrite <- Z.add_1_r in *.
    destruct (ready_step tt (λ r, match r with inl _ => map_extra pages (seqZ (Z.succ i) n) | inr _ => mret tt end) (pages + i) n l m Hn Hr)
      as (Ep & f & m1 & Ea & Hrun); [intros l1 m1 Hr1; rewrite <- Z.add_assoc, Z.add_1_r in *; by apply IH|].
    pose proof (rd_range _ _ _ _ Hr) as Hb. change HEAP_PAGES with 515552 in Hb.
    cbn [map_extra]. eapply runs_lift; [apply add_chk_ret; lia|]. eapply runs_step; [exact Ep|]. eapply runs_step; [exact Ea|]. exact Hrun.
Qed.
End Mapping.

(** ** Claims *)

(** Every page of the heap is mapped, writable, to a frame of its own, which
    is not in the pool any more. *)
Definition heap_ok {H} (root : Z) (l : list Z) (m : machine) (inner : KernelHeapAllocatorInner H) : Prop :=
  good m root l ∧ ∃ fs, NoDup fs ∧ Z.of_nat (length fs) = currently_allocated_pages inner ∧ (∀ f, f ∈ fs → f ∉ l) ∧
    ∀ i f, fs !! i = Some f → maps m root (path (heap_addr (Z.of_nat i))) = Some (Mapped 1 (leaf f Flags.WRITABLE)).

Lemma heap_ok_grows {H} root l l' m m' (inner inner' : KernelHeapAllocatorInner H) gs : heap_ok root l m inner →
  mapped_run root (currently_allocated_pages inner) gs l l' m m' →
  currently_allocated_pages inner' = currently_allocated_pages inner + Z.of_nat (length gs) →
  currently_allocated_pages inner' ≤ HEAP_PAGES → heap_ok root l' m' inner'.
Proof.
  intros (Hg & fs & Hnd & Hlen & Hout & Hmap) Hr Hp Hmax. split; [apply Hr|]. exists (fs ++ gs). split_and!.
  - apply NoDup_app. split; [done|]. split; [|apply Hr]. intros f Hf Hf'. apply (Hout f Hf). by apply (mr_taken _ _ _ _ _ _ _ Hr).
  - rewrite length_app, Hp. lia.
  - intros f [Hf|Hf]%elem_of_app; [|by apply (mr_taken _ _ _ _ _ _ _ Hr)].
    intros Hl. apply (Hout f Hf). eapply suffix_elem; [apply Hr|done].
  - intros i f [Hi|[Hge Hi]]%lookup_app_Some.
    + pose proof (lookup_lt_Some _ _ _ Hi). rewrite (mr_old _ _ _ _ _ _ _ Hr); [by apply Hmap|apply path_full|].
      intros j Hj E. apply heap_addr_inj in E; lia.
    + apply (mr_new _ _ _ _ _ _ _ Hr) in Hi. rewrite <- Hi. do 3 f_equal. lia.
Qed.

Section Claims.
Context {H : Type} `{HeapOps H} `{!HeapLaws H} `{CeilF} `{!CeilFLaw}.

(** [initialize_heap]: with the pages of the initial heap unmapped and
    four frames for each, it succeeds; the 64 MiB are mapped writable, page
    by page to frames of their own, all of it is free, and no other page of
    the address space changes. *)
Theorem initialize_heap_maps root l m : ready root 0 (INITIAL_HEAP_SIZE / PAGE_SIZE) l m →
  runs initialize_heap m (λ r m', ∃ (inner : KernelHeapAllocatorInner H) l', r = inl inner ∧ heap_ok root l' m' inner ∧
    heap_free (heap inner) = INITIAL_HEAP_SIZE ∧ currently_allocated_pages inner * PAGE_SIZE = INITIAL_HEAP_SIZE ∧
    ∀ π, full_path π → (∀ k, 0 ≤ k < currently_allocated_pages inner → π ≠ path (heap_addr k)) → maps m' root π = maps m root π).
Proof.
  intros Hr. unfold initialize_heap. eapply runs_bind; [by apply (map_initial_spec root (INITIAL_HEAP_SIZE / PAGE_SIZE) ltac:(by vm_compute) 0 l)|].
  intros r m' (-> & fs & l' & Hlen & Hm). apply runs_ret. eexists _, l'. split; [done|]. cbn [heap currently_allocated_pages].
  split; [|split; [by apply init_free|split; [done|]]].
  - set (inner0 := mkHeap (heap_init HEAP_START INITIAL_HEAP_SIZE) 0). apply (heap_ok_grows root l l' m m' inner0 _ fs); [|done|cbn [currently_allocated_pages inner0]; lia|by vm_compute].
    split; [apply Hr|]. exists []. split; [apply NoDup_nil_2|]. split; [done|]. split; [|done]. intros f Hf. by apply not_elem_of_nil in Hf.
  - intros π Hπ Hn. apply Hm; [done|]. intros i Hi. apply Hn. lia.
Qed.

(** C26: [alloc] with too little free: as long as the pages after the heap are
    unmapped, four frames are left for each page it adds and less than 64 GiB are
    missing, it maps these pages, writable and to frames of their own, and the
    free list it then asks holds at least the size requested in total.  The heap
    stays mapped as a whole, and no other page changes.  (With fewer frames see
    [heap_extended_past_frames].) *)
Theorem alloc_grows_enough root l m (inner : KernelHeapAllocatorInner H) size align optimal :
  heap_ok root l m inner → heap_free (heap inner) < size → size - heap_free (heap inner) < 2 ^ 36 →
  optimal_frames (minimal_frames (size - heap_free (heap inner))) = Ret optimal → ready root (currently_allocated_pages inner) optimal l m →
  runs (alloc size align inner) m (λ '(p, inner') m', ∃ h l', size ≤ heap_free h ∧
    (p, heap inner') = (let (r, h') := allocate_first_fit size align h in (match r with Some p => p | None => 0 end, h')) ∧
    heap_ok root l' m' inner' ∧ currently_allocated_pages inner' = currently_allocated_pages inner + optimal ∧
    ∀ π, full_path π → (∀ k, 0 ≤ k < currently_allocated_pages inner' → π ≠ path (heap_addr k)) → maps m' root π = maps m root π).
Proof.
  intros Hok Hfree Hmax Hopt Hr. unfold alloc. rewrite (proj2 (Z.ltb_lt _ _)) by done.
  set (remaining := size - heap_free (heap inner)) in *. set (pages := currently_allocated_pages inner) in *.
  destruct (growth_covers remaining) as (o & Eo & Hpos & Hle & Hcov & _); [unfold remaining; lia|]. rewrite Hopt in Eo. injection Eo as <-.
  set (minimal := minimal_frames remaining) in *. pose proof Hr as [Hg Hroot Hc Hb Hl Hroom].
  assert (Hb' : pages + optimal ≤ 515552) by apply Hb.
  eapply (runs_bind _ _ _ (λ inner' m', ∃ gs l', Z.of_nat (length gs) = optimal ∧ mapped_run root pages gs l l' m m' ∧
    inner' = mkHeap (heap_extend (optimal * PAGE_SIZE) (heap inner)) (pages + optimal))).
  - unfold grow. fold remaining minimal pages. eapply runs_lift; [exact Hopt|].
    apply runs_lift with tt; [unfold rassert; by rewrite (proj2 (Z.leb_le _ _)) by done|].
    eapply runs_bind; [apply (map_minimal_spec root pages minimal ltac:(lia) 0 l)|].
    { rewrite Z.add_0_r. constructor; try done; [lia..|]. intros k Hk. apply Hroom. lia. }
    intros _ m1 (_ & fs & l1 & Hfs & Hm1). rewrite Z.add_0_r in Hm1. destruct (mapped_keeps _ _ _ _ _ _ _ Hm1 Hroot Hc) as [Hroot1 Hc1].
    pose proof (mr_length _ _ _ _ _ _ _ Hm1) as Hlen1.
    eapply runs_bind; [apply (map_extra_spec root pages (optimal - minimal) ltac:(lia) minimal l1)|].
    { constructor; [apply Hm1|done|done|lia|lia|]. eapply (room_after root pages _ _ fs); [lia|by rewrite Hfs|lia|lia|exact Hm1|].
      by replace (Z.of_nat (length fs) + (optimal - minimal)) with optimal by lia. }
    intros _ m2 (_ & gs & l2 & Hgs & Hm2). eapply runs_lift; [apply add_chk_ret; lia|].
    eapply runs_lift; [apply mul_chk_ret; unfold PAGE_SIZE; lia|]. apply runs_ret. exists (fs ++ gs), l2.
    split; [rewrite length_app; lia|]. split; [|done]. eapply mapped_app; [lia| |exact Hm1|by rewrite Hfs].
    change HEAP_PAGES with 515552. lia.
  - intros inner' m' (gs & l' & Hgs & Hm & ->). cbn [heap currently_allocated_pages].
    destruct (allocate_first_fit size align _) as [r h'] eqn:Ef. apply runs_ret.
    exists (heap_extend (optimal * PAGE_SIZE) (heap inner)), l'. rewrite Ef. cbn [heap currently_allocated_pages].
    split; [rewrite extend_free by (unfold PAGE_SIZE; lia || apply Z_mod_mult); unfold remaining in *; lia|]. split; [done|].
    split; [|split; [done|]].
    + eapply (heap_ok_grows root l l' m m' inner); [done|exact Hm|cbn [currently_allocated_pages]; fold pages; lia|cbn [currently_allocated_pages]; lia].
    + intros π Hπ Hn. apply Hm; [done|]. intros i Hi. apply Hn. lia.
Qed.
End Claims.

(** ** An instance: a heap that only counts *)

#[local] Instance count_heap : HeapOps Z := {|
  heap_init _ size := size;
  heap_free h := h;
  heap_extend by_ h := h + by_;
  allocate_first_fit size _ h := if size <=? h then (Some HEAP_START, h - size) else (None, h);
  heap_deallocate _ size _ h := h + size
|}.
#[local] Instance count_heap_laws : HeapLaws Z.
Proof. by constructor. Qed.
#[local] Instance spec_ceilf : CeilF := float_ceil 24 128.
#[local] Instance spec_ceilf_law : CeilFLaw.
Proof. done. Qed.

Lemma boot_ready size a n : 0 ≤ size < 2 ^ 40 → size mod FRAME_SIZE = 0 → 0 ≤ a → 0 ≤ n → a + n ≤ HEAP_PAGES → 4 * n ≤ size / FRAME_SIZE →
  ready boot_root a n (boot_frames size) (boot_machine size).
Proof.
  intros Hs Hm Ha Hn Hmax Hf. constructor; [by apply boot_good|done|by vm_compute|done|by rewrite length_boot by (done || lia)|].
  intros k Hk. apply boot_maps, path_full.
Qed.

Lemma initialize_heap_maps_witness : runs initialize_heap (boot_machine 0x10000000) (λ r m', ∃ inner : KernelHeapAllocatorInner Z,
  r = inl inner ∧ currently_allocated_pages inner = 16384).
Proof.
  eapply runs_mono; [apply (initialize_heap_maps boot_root (boot_frames 0x10000000) (boot_machine 0x10000000))|].
  - apply boot_ready; try done; by vm_compute.
  - intros r m' (inner & l' & -> & _ & _ & Hp & _). exists inner. split; [done|]. unfold PAGE_SIZE, INITIAL_HEAP_SIZE in Hp. lia.
Defined.

Lemma alloc_grows_enough_witness : runs (alloc 100000 8 (mkHeap 0 0)) (boot_machine 0x100000) (λ '(p, inner) m', p = HEAP_START ∧ currently_allocated_pages inner = 32).
Proof.
  eapply runs_mono; [apply (alloc_grows_enough boot_root (boot_frames 0x100000) (boot_machine 0x100000) (mkHeap 0 0) 100000 8 32)|].
  - split; [by apply boot_good|]. exists []. split; [apply NoDup_nil_2|]. split; [done|]. split; [|done]. intros f Hf. by apply not_elem_of_nil in Hf.
  - by vm_compute.
  - by vm_compute.
  - by vm_compute.
  - apply boot_ready; try done; by vm_compute.
  - intros [p inner] m' (h & l' & Hh & E & _ & -> & _). cbn [allocate_first_fit heap_free count_heap] in *.
    rewrite (proj2 (Z.leb_le _ _)) in E by done. by injection E as -> _.
Defined.

(** When frames run out after the pages a request needs, [alloc] stops
    mapping but extends the heap, and its count of pages, as if it had not:
    the free list then holds memory that is not mapped. *)
Theorem heap_extended_past_frames :
  returns (alloc 1 1 (mkHeap 0 0) (boot_machine 0x4000)) (λ '(_, inner, m'),
    currently_allocated_pages inner = 16 ∧ heap inner = 16 * PAGE_SIZE - 1 ∧
    maps m' boot_root (path (heap_addr 0)) ≠ Some Unmapped ∧ maps m' boot_root (path (heap_addr 1)) = Some Unmapped).
Proof. eexists. split; [vm_compute; reflexivity|]. by vm_compute. Qed.
