(* ===== verification/NetTables.v ===== *)
(** * Routes, interfaces and the expiring cache

    [kernel/src/driver/net/mod.rs]: IPv4 prefixes and the routing table with
    longest-prefix match, the table of interfaces, and the cache with a time
    to live that ARP keeps its answers in. *)

From stdpp Require Import sorting.
From S2P Require Import Prelude Bits Time TcpTypes TcpChecksum.

(** ** Addresses *)

Abbreviation MacAddress := (list Z) (only parsing).
Definition mac_broadcast : MacAddress := replicate 6 255.

Definition unspecified : Ipv4Addr := (0, 0, 0, 0).
Definition broadcast : Ipv4Addr := (255, 255, 255, 255).

(** [u32::from] and [Ipv4Addr::from]. *)
Definition ip_to_u32 (ip : Ipv4Addr) : Z :=
  let '(a, b, c, d) := ip in
  Z.lor (Z.lor (Z.lor (Z.shiftl a 24) (Z.shiftl b 16)) (Z.shiftl c 8)) d.
Definition ip_from_u32 (x : Z) : Ipv4Addr :=
  (Z.shiftr x 24 mod U8, Z.shiftr x 16 mod U8, Z.shiftr x 8 mod U8, x mod U8).

(** ** Prefixes *)

Record Ipv4Prefix := mkPrefix { prefix_address : Ipv4Addr; mask_len : Z }.
#[global] Instance Ipv4Prefix_eq_dec : EqDecision Ipv4Prefix.
Proof. solve_decision. Defined.
#[global] Program Instance Ipv4Prefix_countable : Countable Ipv4Prefix :=
  inj_countable' (λ p, (prefix_address p, mask_len p)) (λ '(a, n), mkPrefix a n) _.
Next Obligation. by intros []. Qed.

Definition prefix_new (address : Ipv4Addr) (len : Z) : res Ipv4Prefix :=
  rassert (len <=? 32);; Ret (mkPrefix address len).

(** [u32::MAX << (32 - n)] panics when the subtraction underflows. *)
Definition mask_u32 (p : Ipv4Prefix) : res Z :=
  if mask_len p =? 0 then Ret 0 else
  if mask_len p =? 32 then Ret (U32 - 1) else
  s ← sub_chk U32 32 (mask_len p);
  Ret (Z.shiftl (U32 - 1) s mod U32).

Definition prefix_contains (p : Ipv4Prefix) (ip : Ipv4Addr) : res bool :=
  m ← mask_u32 p;
  Ret (Z.land (ip_to_u32 (prefix_address p)) m =? Z.land (ip_to_u32 ip) m).

(** ** The routing table *)

Inductive NextHop := Direct | Gateway (gateway_ip : Ipv4Addr).
#[global] Instance NextHop_eq_dec : EqDecision NextHop.
Proof. solve_decision. Defined.

Section Routes.
Context {V : Type}.

Record RouteEntry := mkRoute { route_prefix : Ipv4Prefix; route_interface : Z; route_data : V }.

Definition insert_for_interface (prefix : Ipv4Prefix) (interface_id : Z) (data : V) (entries : list RouteEntry)
  : list RouteEntry :=
  let entries := filter (λ e, route_prefix e ≠ prefix ∨ route_interface e ≠ interface_id) entries in
  let entry := mkRoute prefix interface_id data in
  let pos := match list_find (λ e, mask_len (route_prefix e) < mask_len prefix) entries with
             | Some (i, _) => i
             | None => length entries
             end in
  take pos entries ++ entry :: drop pos entries.

Fixpoint lookup_entry (ip : Ipv4Addr) (entries : list RouteEntry) : res (option RouteEntry) :=
  match entries with
  | [] => Ret None
  | e :: entries =>
      c ← prefix_contains (route_prefix e) ip;
      if (c : bool) then Ret (Some e) else lookup_entry ip entries
  end.

(** [lookup] of the source. *)
Definition route_lookup (ip : Ipv4Addr) (entries : list RouteEntry) : res (option V) :=
  e ← lookup_entry ip entries; Ret (option_map route_data e).

Definition lookup_with_interface (ip : Ipv4Addr) (entries : list RouteEntry) : res (option (Z * V)) :=
  e ← lookup_entry ip entries; Ret (option_map (λ e, (route_interface e, route_data e)) e).
End Routes.
Arguments RouteEntry : clear implicits.

Definition hop_address (target_ip : Ipv4Addr) (next_hop : NextHop) : Ipv4Addr :=
  match next_hop with Direct => target_ip | Gateway gateway_ip => gateway_ip end.

Definition resolve_next_hop (target_ip : Ipv4Addr) (entries : list (RouteEntry NextHop)) : res (option Ipv4Addr) :=
  h ← route_lookup target_ip entries; Ret (option_map (hop_address target_ip) h).

Definition resolve_next_hop_with_interface (target_ip : Ipv4Addr) (entries : list (RouteEntry NextHop))
  : res (option (Z * Ipv4Addr)) :=
  h ← lookup_with_interface target_ip entries;
  Ret (option_map (λ '(interface_id, next_hop), (interface_id, hop_address target_ip next_hop)) h).

(** ** Interfaces *)

Definition MAX_NETWORK_INTERFACES : Z := 64.

(** [nic] says whether a card is attached. *)
Record NetworkInterface := mkInterface {
  interface_id : Z;
  local_mac_address : MacAddress;
  local_internet_address : option Ipv4Addr;
  nic : bool
}.
#[global] Instance NetworkInterface_eta : Eta NetworkInterface := λ r,
  mkInterface (interface_id r) (local_mac_address r) (local_internet_address r) (nic r).

Record NetworkInterfaceTable := mkInterfaces { interfaces : list NetworkInterface; occupied : Z }.
#[global] Instance NetworkInterfaceTable_eta : Eta NetworkInterfaceTable := λ r, mkInterfaces (interfaces r) (occupied r).

Definition interfaces_new (default : NetworkInterface) : NetworkInterfaceTable :=
  mkInterfaces (replicate (Z.to_nat MAX_NETWORK_INTERFACES) default) 0.

Definition insert_interface (interface : NetworkInterface) (t : NetworkInterfaceTable)
  : res (option Z * NetworkInterfaceTable) :=
  let free_mask := wnot 64 (occupied t) in
  if free_mask =? 0 then Ret (None, t) else
  let index := ctz 64 free_mask in
  entries ← store (interfaces t) index (interface <| interface_id := index |>);
  Ret (Some index, mkInterfaces entries (Z.lor (occupied t) (bit index))).

Definition is_occupied_at (t : NetworkInterfaceTable) (index : Z) : bool :=
  negb (Z.land (occupied t) (bit index) =? 0).

(** What [for_each_occupied] and [for_each_nic] call their argument on. *)
Definition occupied_interfaces (t : NetworkInterfaceTable) : res (list (Z * NetworkInterface)) :=
  foldr (λ i rest, e ← index (interfaces t) i; l ← rest; Ret ((i, e) :: l)) (Ret [])
    (filter (λ i, is_occupied_at t i = true) (seqZ 0 MAX_NETWORK_INTERFACES)).
Definition attached_nics (t : NetworkInterfaceTable) : res (list Z) :=
  l ← occupied_interfaces t; Ret ((filter (λ p, nic p.2 = true) l).*1).

Definition get_interface (id : Z) (t : NetworkInterfaceTable) : res (option NetworkInterface) :=
  if MAX_NETWORK_INTERFACES <=? id then Ret None else
  if is_occupied_at t id then e ← index (interfaces t) id; Ret (Some e) else Ret None.

Definition update_interface (id : Z) (f : NetworkInterface → NetworkInterface) (t : NetworkInterfaceTable)
  : res (bool * NetworkInterfaceTable) :=
  if MAX_NETWORK_INTERFACES <=? id then Ret (false, t) else
  if is_occupied_at t id then
    e ← index (interfaces t) id;
    entries ← store (interfaces t) id (f e);
    Ret (true, t <| interfaces := entries |>)
  else Ret (false, t).

(** ** The cache *)

Section Cache.
Context {K V : Type} `{EqDecision K}.

Record CacheEntry := mkCache {
  is_occupied : bool;
  cache_key : K;
  cache_value : V;
  expires_at : option Instant;
  last_access_at : option Instant
}.
#[global] Instance CacheEntry_eta : Eta CacheEntry := λ r,
  mkCache (is_occupied r) (cache_key r) (cache_value r) (expires_at r) (last_access_at r).

Definition cache_empty (k : K) (v : V) : CacheEntry := mkCache false k v None None.
Definition cache_new (n : nat) (k : K) (v : V) : list CacheEntry := replicate n (cache_empty k v).

Definition is_expired (now : Instant) (e : CacheEntry) : bool :=
  match expires_at e with Some t => t <=? now | None => true end.

Definition vacate (e : CacheEntry) : CacheEntry :=
  e <| is_occupied := false |> <| expires_at := None |> <| last_access_at := None |>.

Definition holds (k : K) (e : CacheEntry) : Prop := is_occupied e = true ∧ cache_key e = k.
#[global] Instance holds_dec k e : Decision (holds k e).
Proof. unfold holds. apply _. Defined.

Fixpoint cache_lookup (now : Instant) (k : K) (entries : list CacheEntry) : option V * list CacheEntry :=
  match entries with
  | [] => (None, [])
  | e :: rest =>
      if decide (holds k e) then
        if is_expired now e then (None, vacate e :: rest)
        else (Some (cache_value e), e <| last_access_at := Some now |> :: rest)
      else let '(r, rest) := cache_lookup now k rest in (r, e :: rest)
  end.

Definition is_older (a b : option Instant) : bool :=
  match a, b with
  | None, Some _ => true
  | Some x, Some y => x <? y
  | _, None => false
  end.

(** The loop over [1..N] that looks for the least recently used entry. *)
Fixpoint lru_from (i : nat) (rest : list CacheEntry) (best : nat) (access : option Instant) : nat :=
  match rest with
  | [] => best
  | e :: rest =>
      if is_older (last_access_at e) access then lru_from (S i) rest i (last_access_at e)
      else lru_from (S i) rest best access
  end.
Definition lru_index (entries : list CacheEntry) : nat :=
  match entries with [] => 0 | e :: rest => lru_from 1 rest 0 (last_access_at e) end.

(** A cache of capacity 0 panics when it evicts. *)
Definition insert_with_ttl (now : Instant) (k : K) (v : V) (ttl : Duration) (entries : list CacheEntry)
  : res (list CacheEntry) :=
  let expires := Some (instant_add now ttl) in
  match list_find (holds k) entries with
  | Some (i, e) =>
      Ret (<[i := e <| cache_value := v |> <| expires_at := expires |> <| last_access_at := Some now |>]> entries)
  | None =>
      let entry := mkCache true k v expires (Some now) in
      match list_find (λ e, is_occupied e = false ∨ is_expired now e = true) entries with
      | Some (i, _) => Ret (<[i := entry]> entries)
      | None => store entries (Z.of_nat (lru_index entries)) entry
      end
  end.

Definition purge_expired (now : Instant) (entries : list CacheEntry) : list CacheEntry :=
  (λ e, if is_occupied e && is_expired now e then vacate e else e) <$> entries.

Definition cache_len (now : Instant) (entries : list CacheEntry) : Z :=
  zlen (filter (λ e, is_occupied e = true ∧ is_expired now e = false) entries).
End Cache.
Arguments CacheEntry : clear implicits.

(** ** Prefixes match on their leading bits *)

Lemma lor_shiftl_add x y k : 0 ≤ k → 0 ≤ y < 2 ^ k → Z.lor (Z.shiftl x k) y = x * 2 ^ k + y.
Proof.
  intros Hk Hy. rewrite Z.shiftl_mul_pow2, <- Z.add_lor_land by lia.
  assert (Z.land (x * 2 ^ k) y = 0) as ->; [|lia].
  apply Z.bits_inj'. intros i Hi. rewrite Z.land_spec, Z.bits_0. destruct (Z.lt_ge_cases i k).
  - by rewrite Z.mul_pow2_bits_low by lia.
  - by rewrite (word_high_bit k y), andb_false_r by done.
Qed.

Lemma ip_to_u32_eq a b c d : u8 a → u8 b → u8 c → u8 d → ip_to_u32 (a, b, c, d) = from_be32 a b c d.
Proof.
  intros. unfold ip_to_u32, from_be32. ints.
  assert (E : Z.lor (Z.shiftl a 24) (Z.shiftl b 16) = Z.shiftl (a * 2 ^ 8 + b) 16).
  { rewrite lor_shiftl_add by (rewrite ?Z.shiftl_mul_pow2; lia). rewrite !Z.shiftl_mul_pow2 by lia. lia. }
  rewrite E. assert (E' : Z.lor (Z.shiftl (a * 2 ^ 8 + b) 16) (Z.shiftl c 8) = Z.shiftl ((a * 2 ^ 8 + b) * 2 ^ 8 + c) 8).
  { rewrite lor_shiftl_add by (rewrite ?Z.shiftl_mul_pow2; lia). rewrite !Z.shiftl_mul_pow2 by lia. lia. }
  rewrite E', lor_shiftl_add by lia. lia.
Qed.

Lemma ip_word ip : ip_ok ip → word 32 (ip_to_u32 ip).
Proof.
  destruct ip as [[[a b] c] d]. unfold ip_ok, octets, bytes. rewrite !Forall_cons. intros (? & ? & ? & ? & _).
  rewrite ip_to_u32_eq by done. unfold word, from_be32. ints. lia.
Qed.

Lemma ip_u32_roundtrip ip : ip_ok ip → ip_from_u32 (ip_to_u32 ip) = ip.
Proof.
  destruct ip as [[[a b] c] d]. unfold ip_ok, octets, bytes. rewrite !Forall_cons. intros (? & ? & ? & ? & _).
  rewrite ip_to_u32_eq by done. unfold ip_from_u32, from_be32. rewrite !Z.shiftr_div_pow2 by lia.
  repeat f_equal; mlia.
Qed.

(** The first [mask_len] bits agree. *)
Definition matches (p : Ipv4Prefix) (ip : Ipv4Addr) : Prop :=
  Z.shiftr (ip_to_u32 (prefix_address p)) (32 - mask_len p) = Z.shiftr (ip_to_u32 ip) (32 - mask_len p).
#[global] Instance matches_dec p ip : Decision (matches p ip).
Proof. unfold matches. apply _. Defined.

Definition prefix_ok (p : Ipv4Prefix) : Prop := ip_ok (prefix_address p) ∧ 0 ≤ mask_len p ≤ 32.

Lemma mask_u32_eq p : 0 ≤ mask_len p ≤ 32 → mask_u32 p = Ret (mask (32 - mask_len p) (mask_len p)).
Proof.
  intros Hm. unfold mask_u32. destruct (Z.eqb_spec (mask_len p) 0) as [->|]; [done|].
  destruct (Z.eqb_spec (mask_len p) 32) as [->|]; [done|]. rewrite sub_chk_ret by lia. cbn [mbind res_bind]. f_equal.
  change (U32 - 1) with (Z.ones 32). change U32 with (2 ^ 32). apply Z.bits_inj'. intros i Hi.
  rewrite testbit_mask by lia. destruct (Z.lt_ge_cases i 32).
  - rewrite Z.mod_pow2_bits_low, Z.shiftl_spec by lia. destruct (Z.leb_spec (32 - mask_len p) i).
    + rewrite testbit_ones by lia. destruct (Z.ltb_spec (i - (32 - mask_len p)) 32), (Z.ltb_spec i (32 - mask_len p + mask_len p)); simpl; lia.
    + by rewrite Z.testbit_neg_r by lia.
  - rewrite Z.mod_pow2_bits_high by lia. destruct (Z.ltb_spec i (32 - mask_len p + mask_len p)); [lia|]. by rewrite andb_false_r.
Qed.

Lemma land_mask_shiftr x y k n : word (k + n) x → word (k + n) y → 0 ≤ k → 0 ≤ n →
  (Z.land x (mask k n) =? Z.land y (mask k n)) = bool_decide (Z.shiftr x k = Z.shiftr y k).
Proof.
  intros Hx Hy Hk Hn. apply eq_bool_prop_intro. rewrite bool_decide_spec, Is_true_true, Z.eqb_eq. split; intros E.
  - apply Z.bits_inj'. intros i Hi. rewrite !Z.shiftr_spec by lia. destruct (Z.lt_ge_cases i n).
    + assert (Hb : Z.testbit (Z.land x (mask k n)) (i + k) = Z.testbit (Z.land y (mask k n)) (i + k)) by by rewrite E.
      rewrite !Z.land_spec, testbit_mask in Hb by lia.
      rewrite (proj2 (Z.leb_le _ _)), (proj2 (Z.ltb_lt _ _)) in Hb by lia. by rewrite !andb_true_r in Hb.
    + by rewrite !(word_high_bit (k + n)) by (done || lia).
  - apply Z.bits_inj'. intros i Hi. rewrite !Z.land_spec, testbit_mask by lia. destruct (Z.leb_spec k i); [|by rewrite !andb_false_r].
    assert (Hb : Z.testbit (Z.shiftr x k) (i - k) = Z.testbit (Z.shiftr y k) (i - k)) by by rewrite E.
    rewrite !Z.shiftr_spec in Hb by lia. by replace (i - k + k) with i in Hb by lia; rewrite Hb.
Qed.

Lemma prefix_contains_spec p ip : prefix_ok p → ip_ok ip → prefix_contains p ip = Ret (bool_decide (matches p ip)).
Proof.
  intros [Ha Hm] Hip. unfold prefix_contains. rewrite mask_u32_eq by done. cbn [mbind res_bind]. f_equal.
  apply land_mask_shiftr; try lia; replace (32 - mask_len p + mask_len p) with 32 by lia; by apply ip_word.
Qed.

(** ** The table is a map with longest-prefix match *)

Section RouteSpec.
Context {V : Type}.
Implicit Types (e : RouteEntry V) (entries : list (RouteEntry V)) (spec : gmap (Ipv4Prefix * Z) V).

Definition longer e e' : Prop := mask_len (route_prefix e') ≤ mask_len (route_prefix e).

Record routes_ok entries spec : Prop := {
  ro_sorted : StronglySorted longer entries;
  ro_prefix : Forall (λ e, prefix_ok (route_prefix e)) entries;
  ro_spec : ∀ p i v, mkRoute p i v ∈ entries ↔ spec !! (p, i) = Some v
}.

Lemma sorted_insert e entries pos : StronglySorted longer entries →
  Forall (λ e', longer e' e) (take pos entries) → Forall (λ e', longer e e') (drop pos entries) →
  StronglySorted longer (take pos entries ++ e :: drop pos entries).
Proof.
  intros Hs Hl Hr. rewrite <- (take_drop pos entries) in Hs. apply StronglySorted_app in Hs as (Hm & Ht & Hd).
  apply StronglySorted_app. split; [|split; [done|by constructor]].
  intros x y Hx [->|Hy]%elem_of_cons; [by rewrite Forall_forall in Hl; apply Hl|by apply Hm].
Qed.

(** The position the entry goes to. *)
Lemma insert_position_routes p entries : StronglySorted longer entries →
  let pos := match list_find (λ e, mask_len (route_prefix e) < mask_len p) entries with Some (i, _) => i | None => length entries end in
  Forall (λ e, mask_len p ≤ mask_len (route_prefix e)) (take pos entries) ∧
  Forall (λ e, mask_len (route_prefix e) ≤ mask_len p) (drop pos entries).
Proof.
  intros Hs. cbv zeta. destruct (list_find _ entries) as [[i x]|] eqn:E.
  - apply list_find_Some in E as (Hi & Hx & Hb). split.
    + apply Forall_lookup. intros j y Hj. apply lookup_take_Some in Hj as [Hj Hlt]. specialize (Hb j y Hj Hlt). lia.
    + rewrite <- (take_drop_middle _ _ _ Hi) in Hs. apply StronglySorted_app in Hs as (_ & _ & Hs).
      apply StronglySorted_inv in Hs as [_ Hs]. rewrite (drop_S _ _ _ Hi). constructor; [lia|].
      eapply Forall_impl; [exact Hs|]. unfold longer. intros. lia.
  - rewrite take_ge, drop_ge by lia. split; [|constructor]. apply list_find_None in E.
    eapply Forall_impl; [exact E|]. simpl. intros. lia.
Qed.

Lemma sorted_filter (P : RouteEntry V → Prop) `{∀ e, Decision (P e)} entries : StronglySorted longer entries →
  StronglySorted longer (filter P entries).
Proof.
  induction 1 as [|e entries Hs IH Hf]; [constructor|]. rewrite filter_cons. case_decide; [|done]. constructor; [done|].
  apply Forall_forall. intros x [_ Hx]%list_elem_of_filter. rewrite Forall_forall in Hf. by apply Hf.
Qed.

Lemma insert_route_ok entries spec p i v : routes_ok entries spec → prefix_ok p →
  routes_ok (insert_for_interface p i v entries) (<[(p, i) := v]> spec).
Proof.
  intros [Hs Hp Hm] Hok. unfold insert_for_interface. set (kept := filter _ entries).
  assert (Hsk : StronglySorted longer kept) by by apply sorted_filter.
  destruct (insert_position_routes p kept Hsk) as [Hl Hr]. set (pos := match list_find _ kept with Some (i, _) => i | None => _ end) in *.
  assert (Hin : ∀ e, e ∈ take pos kept ++ mkRoute p i v :: drop pos kept ↔ e = mkRoute p i v ∨ e ∈ kept).
  { intros e. rewrite <- (take_drop pos kept) at 3. rewrite !elem_of_app, elem_of_cons. tauto. }
  constructor.
  - apply sorted_insert; [done|exact Hl|exact Hr].
  - apply Forall_forall. intros e He. apply Hin in He as [->|He]; [done|].
    apply list_elem_of_filter in He as [_ He]. rewrite Forall_forall in Hp. by apply Hp.
  - intros q j w. rewrite Hin. unfold kept. rewrite list_elem_of_filter, Hm. cbn [route_prefix route_interface].
    destruct (decide ((p, i) = (q, j))) as [E|Hne].
    + injection E as -> ->. rewrite lookup_insert_eq. split; [intros [E|[[?|?] _]]; [by injection E as ->|done..]|].
      intros E. injection E as ->. by left.
    + rewrite lookup_insert_ne by done. split; [intros [E|[_ ?]]; [by simplify_eq|done]|].
      intros Hw. right. split; [|done]. destruct (decide (q = p)) as [->|]; [right; congruence|by left].
Qed.

Lemma lookup_entry_spec entries spec ip : routes_ok entries spec → ip_ok ip →
  returns (lookup_entry ip entries) (λ r,
    match r with
    | Some e => spec !! (route_prefix e, route_interface e) = Some (route_data e) ∧ matches (route_prefix e) ip ∧
        ∀ p i v, spec !! (p, i) = Some v → matches p ip → mask_len p ≤ mask_len (route_prefix e)
    | None => ∀ p i v, spec !! (p, i) = Some v → ¬ matches p ip
    end).
Proof.
  intros [Hs Hp Hm] Hip.
  assert (Hfind : returns (lookup_entry ip entries) (λ r, match r with
    | Some e => e ∈ entries ∧ matches (route_prefix e) ip ∧ ∀ e', e' ∈ entries → matches (route_prefix e') ip → longer e e'
    | None => ∀ e', e' ∈ entries → ¬ matches (route_prefix e') ip end)).
  { clear Hm spec. induction Hs as [|e entries Hs IH Hf]; cbn [lookup_entry].
    - apply returns_ret. intros e' He. by apply not_elem_of_nil in He.
    - apply Forall_cons in Hp as [He Hp]. rewrite prefix_contains_spec by done. cbn [mbind res_bind]. case_bool_decide as Hc.
      + apply returns_ret. split; [by left|]. split; [done|]. intros e' [->|He']%elem_of_cons _; [unfold longer; lia|].
        rewrite Forall_forall in Hf. by apply Hf.
      + eapply returns_mono; [by apply IH|]. intros [x|].
        * intros (Hx & Hc' & Hmax). split; [by right|]. split; [done|]. intros e' [->|He']%elem_of_cons; [done|by apply Hmax].
        * intros Hn e' [->|He']%elem_of_cons; [done|by apply Hn]. }
  eapply returns_mono; [exact Hfind|]. intros [[p i v]|].
  - intros (He & Hc & Hmax). split; [by apply Hm|]. split; [done|]. intros q j w Hq Hcq. apply Hm in Hq. exact (Hmax _ Hq Hcq).
  - intros Hn p i v Hq. apply Hm in Hq. exact (Hn _ Hq).
Qed.
End RouteSpec.

(** ** The cache answers with the last value inserted *)

Section CacheSpec.
Context {K V : Type} `{Countable K}.
Implicit Types (e : CacheEntry K V) (entries : list (CacheEntry K V)) (m : gmap K (V * Instant)).

(** [m] has, for every key ever inserted, its last value and expiry. *)
Record cache_ok (now : Instant) m entries : Prop := {
  co_entry : ∀ i e, entries !! i = Some e → is_occupied e = true →
    ∃ t, m !! cache_key e = Some (cache_value e, t) ∧ expires_at e = Some t;
  co_unique : ∀ i j e e', entries !! i = Some e → entries !! j = Some e' →
    is_occupied e = true → is_occupied e' = true → cache_key e = cache_key e' → i = j;
  co_kept : (size m ≤ length entries)%nat → ∀ k v t, m !! k = Some (v, t) → now < t → ∃ i e, entries !! i = Some e ∧ holds k e
}.

Lemma cache_ok_later now now' m entries : now ≤ now' → cache_ok now m entries → cache_ok now' m entries.
Proof. intros Hn [He Hu Hk]. constructor; [done..|]. intros Hs k v t Hm Ht. apply (Hk Hs k v t Hm). lia. Qed.

Lemma cache_new_ok n k v now : cache_ok now ∅ (cache_new n k v).
Proof.
  constructor.
  - intros i e Hi Ho. apply lookup_replicate in Hi as [-> _]. done.
  - intros i j e e' Hi _ Ho. apply lookup_replicate in Hi as [-> _]. done.
  - intros _ k' v' t Hm. by rewrite lookup_empty in Hm.
Qed.

(** Changing one entry, where the new one is vacant or has the old key. *)
Lemma cache_ok_alter now m entries i e e' : cache_ok now m entries → entries !! i = Some e → is_occupied e = true →
  cache_key e' = cache_key e →
  (is_occupied e' = true → cache_value e' = cache_value e ∧ expires_at e' = expires_at e) →
  (is_occupied e' = false → is_expired now e = true) → cache_ok now m (<[i := e']> entries).
Proof.
  intros [He Hu Hk] Hi Ho Hkey Hsame Hgone.
  assert (Hcase : ∀ j x, <[i := e']> entries !! j = Some x → (j = i ∧ x = e') ∨ (j ≠ i ∧ entries !! j = Some x)).
  { intros j x Hj. destruct (decide (j = i)) as [->|]; [left|right].
    - rewrite list_lookup_insert_eq in Hj by (by eapply lookup_lt_Some). by simplify_eq.
    - by rewrite list_lookup_insert_ne in Hj. }
  constructor.
  - intros j x Hj Hx. apply Hcase in Hj as [[-> ->]|[_ Hj]]; [|by eapply He].
    destruct (Hsame Hx) as [-> ->]. rewrite Hkey. by eapply He.
  - intros j j' x x' Hj Hj' Hx Hx' E. apply Hcase in Hj as [[-> ->]|[Hne Hj]], Hj' as [[-> ->]|[Hne' Hj']]; [done|..|by eapply Hu].
    + rewrite Hkey in E. by eapply Hu.
    + rewrite Hkey in E. by eapply Hu.
  - rewrite length_insert. intros Hs k v t Hm Ht. destruct (Hk Hs k v t Hm Ht) as (j & x & Hj & Hx & Hxk).
    destruct (decide (j = i)) as [->|].
    + simplify_eq. destruct (is_occupied e') eqn:Eo.
      * exists i, e'. rewrite list_lookup_insert_eq by (by eapply lookup_lt_Some). done.
      * exfalso. destruct (He _ _ Hi Ho) as (t' & Hm' & Ht'). specialize (Hgone eq_refl). unfold is_expired in Hgone.
        rewrite Ht' in Hgone. rewrite Hm in Hm'. simplify_eq. apply Z.leb_le in Hgone. lia.
    + exists j, x. by rewrite list_lookup_insert_ne.
Qed.

(** What [cache_lookup] does: it finds the entry and touches it. *)
Lemma cache_lookup_find now k entries : cache_lookup now k entries =
  match list_find (holds k) entries with
  | Some (i, e) =>
      if is_expired now e then (None, <[i := vacate e]> entries)
      else (Some (cache_value e), <[i := e <| last_access_at := Some now |>]> entries)
  | None => (None, entries)
  end.
Proof.
  induction entries as [|e entries IH]; [done|]. cbn [cache_lookup list_find]. case_decide as Hh.
  - by destruct (is_expired now e).
  - rewrite IH. destruct (list_find (holds k) entries) as [[i x]|]; [|done]. simpl. by destruct (is_expired now x).
Qed.

Lemma cache_lookup_spec now m entries k : cache_ok now m entries →
  let '(r, entries') := cache_lookup now k entries in
  cache_ok now m entries' ∧ length entries' = length entries ∧
  (∀ v, r = Some v → ∃ t, m !! k = Some (v, t) ∧ now < t) ∧
  ((size m ≤ length entries)%nat → ∀ v t, m !! k = Some (v, t) → now < t → r = Some v).
Proof.
  intros Hok. rewrite cache_lookup_find. destruct (list_find (holds k) entries) as [[i e]|] eqn:E.
  - apply list_find_Some in E as (Hi & [Ho Hk] & _). destruct (co_entry _ _ _ Hok _ _ Hi Ho) as (t & Hm & Ht).
    rewrite Hk in Hm. destruct (is_expired now e) eqn:Hx; rewrite length_insert.
    + split; [apply (cache_ok_alter now m entries i e); [done..|intros Hv; by change (false = true) in Hv|done]|]. split; [done|]. split; [done|].
      intros _ v' t' Hm' Ht'. rewrite Hm in Hm'. simplify_eq. unfold is_expired in Hx. rewrite Ht in Hx. apply Z.leb_le in Hx. lia.
    + split; [apply (cache_ok_alter now m entries i e); [done..|intros Hv; change (is_occupied e = false) in Hv; congruence]|]. split; [done|].
      unfold is_expired in Hx. rewrite Ht in Hx. apply Z.leb_gt in Hx. split.
      * intros v [= <-]. by exists t.
      * intros _ v' t' Hm' _. rewrite Hm in Hm'. by simplify_eq.
  - apply list_find_None in E. split; [done|]. split; [done|]. split; [done|]. intros Hs v t Hm Ht.
    destruct (co_kept _ _ _ Hok Hs k v t Hm Ht) as (i & e & Hi & Hh). rewrite Forall_lookup in E. by destruct (E i e Hi).
Qed.

Lemma size_insert_le m k x : (size m ≤ size (<[k := x]> m))%nat.
Proof. rewrite map_size_insert. destruct (m !! k); simpl; lia. Qed.

(** Putting an entry in the place of one that is not needed any more. *)
Lemma cache_ok_put now m entries i e e' t : cache_ok now m entries → entries !! i = Some e → is_occupied e' = true →
  expires_at e' = Some t → (∀ j x, entries !! j = Some x → holds (cache_key e') x → j = i) →
  ((size (<[cache_key e' := (cache_value e', t)]> m) ≤ length entries)%nat → is_occupied e = true →
    cache_key e ≠ cache_key e' → is_expired now e = true) →
  cache_ok now (<[cache_key e' := (cache_value e', t)]> m) (<[i := e']> entries).
Proof.
  intros [He Hu Hk] Hi Ho Ht Honly Hfree. pose proof (lookup_lt_Some _ _ _ Hi) as Hlt.
  assert (Hcase : ∀ j x, <[i := e']> entries !! j = Some x → is_occupied x = true →
    (j = i ∧ x = e') ∨ (j ≠ i ∧ entries !! j = Some x ∧ cache_key x ≠ cache_key e')).
  { intros j x Hj Hx. destruct (decide (j = i)) as [->|Hne]; [left|right].
    - rewrite list_lookup_insert_eq in Hj by done. by simplify_eq.
    - rewrite list_lookup_insert_ne in Hj by done. split_and!; [done..|]. intros E. by apply Hne, (Honly j x). }
  constructor.
  - intros j x Hj Hx. apply (Hcase j x Hj) in Hx as Hc. destruct Hc as [[-> ->]|(Hne & Hj' & Hkey)].
    + exists t. by rewrite lookup_insert_eq.
    + destruct (He _ _ Hj' Hx) as (t' & Hm & Ht'). exists t'. by rewrite lookup_insert_ne.
  - intros j j' x x' Hj Hj' Hx Hx' E. destruct (Hcase j x Hj Hx) as [[-> ->]|(Hne & Hj1 & Hkey)], (Hcase j' x' Hj' Hx') as [[-> ->]|(Hne' & Hj1' & Hkey')];
      [done|congruence..|by eapply Hu].
  - rewrite length_insert. intros Hs k v t' Hm Hlt'. destruct (decide (k = cache_key e')) as [->|Hne].
    { exists i, e'. by rewrite list_lookup_insert_eq. }
    rewrite lookup_insert_ne in Hm by done. pose proof (size_insert_le m (cache_key e') (cache_value e', t)).
    destruct (Hk ltac:(lia) k v t' Hm Hlt') as (j & x & Hj & Hx & Hxk). destruct (decide (j = i)) as [->|].
    + simplify_eq. exfalso. specialize (Hfree Hs Hx Hne). destruct (He _ _ Hi Hx) as (t1 & Hm1 & Ht1). rewrite Hm in Hm1. simplify_eq.
      unfold is_expired in Hfree. rewrite Ht1 in Hfree. apply Z.leb_le in Hfree. lia.
    + exists j, x. by rewrite list_lookup_insert_ne.
Qed.

(** A cache whose entries are all live holds as many keys as it has entries. *)
Lemma cache_full now m entries k x : cache_ok now m entries → Forall (λ e, is_occupied e = true) entries →
  Forall (λ e, ¬ holds k e) entries → (length entries < size (<[k := x]> m))%nat.
Proof.
  intros [He Hu _] Ho Hn. set (keys := k :: (cache_key <$> entries)).
  assert (Hnd : NoDup keys).
  { constructor.
    - intros (e & -> & Hin)%list_elem_of_fmap. rewrite Forall_forall in Ho, Hn. by apply (Hn e Hin); split; [apply Ho|].
    - apply NoDup_alt. intros i j y Hi Hj. apply list_lookup_fmap_Some in Hi as (e & -> & Hi), Hj as (e' & E & Hj).
      rewrite Forall_lookup in Ho. eapply Hu; [exact Hi|exact Hj|by eapply Ho..|done]. }
  assert (Hsub : (list_to_set keys : gset K) ⊆ dom (<[k := x]> m)).
  { intros y Hy%elem_of_list_to_set. apply elem_of_dom. apply elem_of_cons in Hy as [->|(e & -> & Hin)%list_elem_of_fmap].
    - by rewrite lookup_insert_eq.
    - destruct (decide (k = cache_key e)) as [->|]; [by rewrite lookup_insert_eq|]. rewrite lookup_insert_ne by done.
      apply list_elem_of_lookup_1 in Hin as [i Hi]. rewrite Forall_lookup in Ho. destruct (He i e Hi (Ho i e Hi)) as (t & -> & _). done. }
  apply subseteq_size in Hsub. rewrite size_list_to_set, size_dom in Hsub by done. unfold keys in Hsub. cbn [length] in Hsub.
  rewrite length_fmap in Hsub. lia.
Qed.

Lemma lru_from_bound rest : ∀ i best access, (best < i + length rest)%nat → (lru_from (V := V) (K := K) i rest best access < i + length rest)%nat.
Proof.
  induction rest as [|e rest IH]; intros i best access Hb; cbn [lru_from length] in *; [done|].
  destruct (is_older _ _); [pose proof (IH (S i) i (last_access_at e))|pose proof (IH (S i) best access)]; lia.
Qed.

Lemma insert_cache_spec now m entries k v ttl : cache_ok now m entries → entries ≠ [] →
  returns (insert_with_ttl now k v ttl entries) (λ entries',
    cache_ok now (<[k := (v, instant_add now ttl)]> m) entries' ∧ length entries' = length entries).
Proof.
  intros Hok Hne. unfold insert_with_ttl. set (t := instant_add now ttl). destruct (list_find (holds k) entries) as [[i e]|] eqn:E.
  - apply list_find_Some in E as (Hi & [Ho Hk] & _). apply returns_ret. rewrite length_insert. split; [|done].
    set (e' := e <| cache_value := v |> <| expires_at := Some t |> <| last_access_at := Some now |>).
    assert (Ek : cache_key e' = k) by exact Hk. assert (Ev : cache_value e' = v) by done. rewrite <- Ek at 1. rewrite <- Ev at 1.
    eapply (cache_ok_put now m entries i e); [done|done|exact Ho|done| |].
    + intros j x Hj [Hx Hxk]. by apply (co_unique _ _ _ Hok j i x e).
    + intros _ _ Hc. rewrite Ek in Hc. done.
  - apply list_find_None in E.
    assert (Honly : ∀ j x (i : nat), entries !! j = Some x → holds k x → j = i).
    { intros j x i Hj Hx. rewrite Forall_lookup in E. by destruct (E j x Hj). }
    destruct (list_find _ entries) as [[i e]|] eqn:E2.
    + apply list_find_Some in E2 as (Hi & Hfree & _). apply returns_ret. rewrite length_insert. split; [|done].
      apply (cache_ok_put now m entries i e (mkCache true k v (Some t) (Some now)) t); try done; [by intros j x; apply Honly|].
      intros _ Ho _. destruct Hfree as [Hf|Hf]; [by rewrite Ho in Hf|done].
    + apply list_find_None in E2. assert (Hb : (lru_index entries < length entries)%nat).
      { destruct entries as [|e rest]; [done|]. unfold lru_index. cbn [length]. pose proof (lru_from_bound rest 1 0 (last_access_at e)). lia. }
      rewrite store_as_insert by (unfold zlen; lia). apply returns_ret. rewrite length_insert, Nat2Z.id. split; [|done].
      destruct (lookup_lt_is_Some_2 entries _ Hb) as [e Hi].
      apply (cache_ok_put now m entries _ e (mkCache true k v (Some t) (Some now)) t); try done; [by intros j x; apply Honly|].
      intros Hs _ _. exfalso. pose proof (cache_full now m entries k (v, t) Hok) as Hfull. cbn [cache_key cache_value] in Hs.
      assert (length entries < size (<[k:=(v, t)]> m))%nat; [apply Hfull; [|done]|lia].
      eapply Forall_impl; [exact E2|]. intros x Hx. destruct (is_occupied x) eqn:Ex; [done|]. destruct Hx. by left.
Qed.

Lemma purge_spec now m entries : cache_ok now m entries → cache_ok now m (purge_expired now entries) ∧
  length (purge_expired now entries) = length entries.
Proof.
  intros [He Hu Hk]. unfold purge_expired. rewrite length_fmap. split; [|done].
  set (f := λ e : CacheEntry K V, if is_occupied e && is_expired now e then vacate e else e).
  assert (Hf : ∀ i e, (f <$> entries) !! i = Some e → is_occupied e = true → entries !! i = Some e).
  { intros i e Hi Ho. apply list_lookup_fmap_Some in Hi as (x & -> & Hi). unfold f in *. destruct (is_occupied x && is_expired now x) eqn:E; [discriminate Ho|done]. }
  constructor.
  - intros i e Hi Ho. by eapply He; [apply Hf|].
  - intros i j e e' Hi Hj Ho Ho'. by eapply Hu; [apply Hf..| |].
  - rewrite length_fmap. intros Hs k v t Hm Ht. destruct (Hk Hs k v t Hm Ht) as (i & e & Hi & Ho & Hke).
    exists i, e. split; [|done]. rewrite list_lookup_fmap, Hi. cbn [fmap option_fmap option_map]. f_equal. unfold f. rewrite Ho. cbn [andb].
    destruct (He i e Hi Ho) as (t' & Hm' & Ht'). subst k. rewrite Hm in Hm'. simplify_eq. unfold is_expired. rewrite Ht'.
    by rewrite (proj2 (Z.leb_gt _ _)).
Qed.

(** *** Histories *)

Inductive cache_op := CInsert (k : K) (v : V) (ttl : Duration) | CLookup (k : K) | CPurge.

(** The operations of a history with the time of each, and the answers. *)
Fixpoint cache_run (ops : list (Instant * cache_op)) (entries : list (CacheEntry K V))
  : res (list (option V) * list (CacheEntry K V)) :=
  match ops with
  | [] => Ret ([], entries)
  | (now, CInsert k v ttl) :: ops => entries ← insert_with_ttl now k v ttl entries; cache_run ops entries
  | (now, CLookup k) :: ops =>
      let '(r, entries) := cache_lookup now k entries in
      '(rs, entries) ← cache_run ops entries; Ret (r :: rs, entries)
  | (now, CPurge) :: ops => cache_run ops (purge_expired now entries)
  end.

(** The answers a cache of [n] entries may give, after insertions of [m]. *)
Fixpoint answers (n : nat) m (ops : list (Instant * cache_op)) (rs : list (option V)) : Prop :=
  match ops, rs with
  | [], [] => True
  | (now, CInsert k v ttl) :: ops, rs => answers n (<[k := (v, instant_add now ttl)]> m) ops rs
  | (now, CLookup k) :: ops, r :: rs =>
      (∀ v, r = Some v → ∃ t, m !! k = Some (v, t) ∧ now < t) ∧
      ((size m ≤ n)%nat → ∀ v t, m !! k = Some (v, t) → now < t → r = Some v) ∧ answers n m ops rs
  | (_, CPurge) :: ops, rs => answers n m ops rs
  | _, _ => False
  end.

Lemma cache_run_spec ops : ∀ now m entries, cache_ok now m entries → entries ≠ [] → StronglySorted Z.le (now :: ops.*1) →
  returns (cache_run ops entries) (λ '(rs, _), answers (length entries) m ops rs).
Proof.
  induction ops as [|[t o] ops IH]; intros now m entries Hok Hne Hs; cbn [cache_run answers]; [by apply returns_ret|].
  apply StronglySorted_inv in Hs as [Hs Hle]. cbn [fmap list_fmap fst] in *. apply Forall_cons in Hle as [Hle _].
  apply (cache_ok_later now t) in Hok; [|done]. destruct o as [k v ttl|k|].
  - destruct (insert_cache_spec t m entries k v ttl Hok Hne) as (entries' & -> & Hok' & Hlen). rewrite ret_bind, <- Hlen.
    apply (IH t); [done| |done]. intros ->. by destruct entries.
  - pose proof (cache_lookup_spec t m entries k Hok) as Hl. destruct (cache_lookup t k entries) as [r entries'].
    destruct Hl as (Hok' & Hlen & Hsafe & Hlive). destruct (IH t m entries' Hok') as ([rs c] & -> & Ha); [intros ->; by destruct entries|done|].
    rewrite ret_bind. apply returns_ret. rewrite Hlen in Ha. done.
  - destruct (purge_spec t m entries Hok) as [Hok' Hlen]. rewrite <- Hlen. apply (IH t); [done| |done]. intros E. by rewrite E in Hlen; destruct entries.
Qed.
End CacheSpec.
Arguments cache_op : clear implicits.

(** ** Interfaces *)

Section Interfaces.
Implicit Types t : NetworkInterfaceTable.

Definition interfaces_ok t : Prop := zlen (interfaces t) = 64 ∧ word 64 (occupied t).

Lemma occupied_bit t i : 0 ≤ i < 64 → interfaces_ok t → is_occupied_at t i = Z.testbit (occupied t) i.
Proof.
  intros Hi [_ Hw]. unfold is_occupied_at.
  assert (E : Z.land (occupied t) (bit i) = if Z.testbit (occupied t) i then bit i else 0).
  { apply Z.bits_inj'. intros j Hj. rewrite Z.land_spec, testbit_bit by lia. destruct (Z.eqb_spec j i) as [->|].
    - destruct (Z.testbit (occupied t) i); [rewrite testbit_bit, Z.eqb_refl by lia|rewrite Z.bits_0]; done.
    - rewrite andb_false_r. destruct (Z.testbit (occupied t) i); [rewrite testbit_bit by lia; lia|by rewrite Z.bits_0]. }
  rewrite E. destruct (Z.testbit (occupied t) i); [|done]. unfold bit. rewrite Z.shiftl_1_l.
  pose proof (Z.pow_pos_nonneg 2 i). destruct (Z.eqb_spec (2 ^ i) 0); [lia|done].
Qed.

Lemma interface_at t i : 0 ≤ i < 64 → interfaces_ok t →
  get_interface i t = Ret (if Z.testbit (occupied t) i then interfaces t !! Z.to_nat i else None).
Proof.
  intros Hi Hok. unfold get_interface, MAX_NETWORK_INTERFACES. rewrite (proj2 (Z.leb_gt _ _)), occupied_bit by (done || lia).
  destruct (Z.testbit _ _); [|done]. unfold index. rewrite (proj2 (Z.ltb_ge _ _)) by lia. destruct Hok as [Hz _]. unfold zlen in Hz.
  destruct (lookup_lt_is_Some_2 (interfaces t) (Z.to_nat i)) as [x ->]; [lia|done].
Qed.

(** Inserting hands out the lowest free id, or [None] when all are taken. *)
Lemma insert_interface_spec t x : interfaces_ok t →
  returns (insert_interface x t) (λ '(r, t'), interfaces_ok t' ∧
    match r with
    | Some id => 0 ≤ id < 64 ∧ Z.testbit (occupied t) id = false ∧ (∀ j, 0 ≤ j < id → Z.testbit (occupied t) j = true) ∧
        interfaces t' = <[Z.to_nat id := x <| interface_id := id |>]> (interfaces t) ∧ occupied t' = Z.lor (occupied t) (bit id)
    | None => t' = t ∧ ∀ j, 0 ≤ j < 64 → Z.testbit (occupied t) j = true
    end).
Proof.
  intros [Hz Hw]. unfold insert_interface. destruct (Z.eqb_spec (wnot 64 (occupied t)) 0) as [E|E].
  - apply returns_ret. split; [done|]. split; [done|]. intros j Hj.
    assert (Hb : Z.testbit (wnot 64 (occupied t)) j = false) by (by rewrite E, Z.bits_0).
    rewrite testbit_wnot in Hb by lia. by destruct (Z.testbit (occupied t) j).
  - pose proof (word_wnot 64 _ ltac:(lia) Hw) as Hwn. destruct (ctz_set 64 _ Hwn E) as [Hset Hlt].
    pose proof (ctz_bound 64 (wnot 64 (occupied t))) as Hb. pose proof (ctz_below 64 (wnot 64 (occupied t))) as Hbelow.
    set (id := ctz 64 _) in *. change (Z.of_nat 64) with 64 in *. rewrite store_as_insert by lia. cbn [mbind res_bind]. apply returns_ret.
    split; [split; cbn [interfaces occupied]|].
    + rewrite zlen_insert. done.
    + apply word_lor; [lia|done|apply word_bit; lia].
    + split; [lia|]. rewrite testbit_wnot in Hset by lia. split; [by destruct (Z.testbit (occupied t) id)|]. split; [|done].
      intros j Hj. specialize (Hbelow j Hj). rewrite testbit_wnot in Hbelow by lia. by destruct (Z.testbit (occupied t) j).
Qed.
End Interfaces.

(** ** Contracts *)

Section Contracts.
Definition add_route {V} (entries : list (RouteEntry V)) (r : Ipv4Prefix * Z * V) : list (RouteEntry V) :=
  let '(p, i, v) := r in insert_for_interface p i v entries.
Definition add_spec {V} (spec : gmap (Ipv4Prefix * Z) V) (r : Ipv4Prefix * Z * V) : gmap (Ipv4Prefix * Z) V :=
  let '(p, i, v) := r in <[(p, i) := v]> spec.

Lemma add_routes_ok {V} (rs : list (Ipv4Prefix * Z * V)) : ∀ entries spec, routes_ok entries spec →
  Forall (λ r, prefix_ok r.1.1) rs → routes_ok (foldl add_route entries rs) (foldl add_spec spec rs).
Proof.
  induction rs as [|[[p i] v] rs IH]; intros entries spec Hok Hp; [done|]. apply Forall_cons in Hp as [Hp Hps].
  cbn [foldl add_route add_spec]. apply IH; [by apply insert_route_ok|done].
Qed.

Lemma routes_empty {V} : routes_ok (V := V) [] ∅.
Proof. constructor; [constructor..|]. intros p i v. rewrite lookup_empty. split; [intros E; by apply not_elem_of_nil in E|done]. Qed.

(** C4: A routing table answers like a finite map from prefix and interface
    to route, the last insertion winning: a lookup never panics, it returns a
    route of that map that matches the address and no matching route has a
    longer prefix, and it returns nothing only if no route matches. *)
Theorem routes_refine_longest_prefix {V} (rs : list (Ipv4Prefix * Z * V)) ip :
  Forall (λ r, prefix_ok r.1.1) rs → ip_ok ip →
  let spec := foldl add_spec ∅ rs in
  returns (lookup_with_interface ip (foldl add_route [] rs)) (λ r,
    match r with
    | Some (i, v) => ∃ p, spec !! (p, i) = Some v ∧ matches p ip ∧
        ∀ p' i' v', spec !! (p', i') = Some v' → matches p' ip → mask_len p' ≤ mask_len p
    | None => ∀ p i v, spec !! (p, i) = Some v → ¬ matches p ip
    end).
Proof.
  intros Hp Hip spec. pose proof (add_routes_ok rs [] ∅ routes_empty Hp) as Hok.
  unfold lookup_with_interface. destruct (lookup_entry_spec _ _ ip Hok Hip) as (r & -> & Hr). cbn [mbind res_bind]. apply returns_ret.
  destruct r as [e|]; cbn [option_map]; [|exact Hr]. destruct Hr as (Hin & Hm & Hmax). eauto.
Qed.

(** The on-link route of a lease and its default route. *)
Lemma routes_refine_longest_prefix_witness :
  let rs := [(mkPrefix (0, 0, 0, 0) 0, 0, Gateway (10, 0, 2, 2)); (mkPrefix (10, 0, 2, 15) 24, 0, Direct)] in
  returns (lookup_with_interface (10, 0, 2, 7) (foldl add_route [] rs)) (λ r,
    r = Some (0, Direct) ∧
    match r with
    | Some (i, v) => ∃ p, foldl add_spec ∅ rs !! (p, i) = Some v ∧ matches p (10, 0, 2, 7) ∧
        ∀ p' i' v', foldl add_spec ∅ rs !! (p', i') = Some v' → matches p' (10, 0, 2, 7) → mask_len p' ≤ mask_len p
    | None => ∀ p i v, foldl add_spec ∅ rs !! (p, i) = Some v → ¬ matches p (10, 0, 2, 7)
    end).
Proof.
  intros rs. pose proof (routes_refine_longest_prefix rs (10, 0, 2, 7)) as H. cbv zeta in H.
  destruct H as (r & E & Hr).
  - repeat constructor; vm_compute; done.
  - repeat constructor; vm_compute; done.
  - exists r. split; [exact E|]. split; [|exact Hr].
    assert (E' : lookup_with_interface (10, 0, 2, 7) (foldl add_route [] rs) = Ret (Some (0, Direct))) by (vm_compute; done). congruence.
Defined.

(** A cache of [n] entries answers every lookup of a history of timed
    insertions, lookups and purges as a map with expiry times would: an answer
    is always the value last inserted for that key, and not past its time to
    live; as long as no more than [n] different keys were inserted, every such
    value is found. No operation panics. *)
Theorem cache_answers_last_insert {K V} `{Countable K} (n : nat) (k0 : K) (v0 : V) start (ops : list (Instant * cache_op K V)) :
  (0 < n)%nat → StronglySorted Z.le (start :: ops.*1) →
  returns (cache_run ops (cache_new n k0 v0)) (λ '(rs, _), answers n ∅ ops rs).
Proof.
  intros Hn Hs. pose proof (cache_run_spec ops start ∅ (cache_new n k0 v0)) as Hc. unfold cache_new at 4 in Hc. rewrite length_replicate in Hc.
  apply Hc; [by apply cache_new_ok| |done]. destruct n; [lia|]. by intros [=].
Qed.

(** Two entries hold two of the three addresses; the evicted one is not found. *)
Lemma cache_answers_last_insert_witness :
  let ops := [(0, CInsert 1 11 5); (1, CInsert 2 12 9); (2, CLookup 1); (3, CInsert 3 13 9); (4, CLookup 2); (4, CLookup 1); (5, CLookup 1); (9, CPurge); (9, CLookup 3)] in
  returns (cache_run (K := Z) (V := Z) ops (cache_new 2 0 0)) (λ '(rs, _), rs = [Some 11; None; Some 11; None; Some 13] ∧ answers 2 ∅ ops rs).
Proof.
  intros ops. destruct (cache_answers_last_insert 2 0 0 0 ops) as ([rs c] & E & Ha).
  - lia.
  - repeat constructor; simpl; lia.
  - exists (rs, c). split; [exact E|]. split; [|exact Ha]. vm_compute in E. congruence.
Defined.

(** An interface that was inserted is found under the id it was given, which no other one had. *)
Lemma insert_get_interface t x id : interfaces_ok t → 0 ≤ id < 64 →
  returns (insert_interface x t) (λ '(r, t'),
    returns (get_interface id t') (λ i,
      if decide (r = Some id) then get_interface id t = Ret None ∧ i = Some (x <| interface_id := id |>)
      else get_interface id t = Ret i)).
Proof.
  intros Hok Hid. destruct (insert_interface_spec t x Hok) as ([r t'] & -> & Hok' & Hr). apply returns_ret.
  rewrite !interface_at by done. apply returns_ret. destruct r as [j|].
  - destruct Hr as (Hj & Hfree & _ & -> & ->). rewrite Z.lor_spec, testbit_bit by lia. destruct (decide _) as [E|Hne].
    + injection E as ->. rewrite Hfree, Z.eqb_refl. split; [done|]. cbn [orb]. destruct Hok as [Hz _]. unfold zlen in Hz. rewrite list_lookup_insert_eq by lia. done.
    + assert (id ≠ j) by congruence. rewrite (proj2 (Z.eqb_neq _ _)), orb_false_r by done. by rewrite list_lookup_insert_ne by lia.
  - destruct Hr as [-> _]. by rewrite decide_False.
Qed.
End Contracts.
