(* ===== verification/NetHdr.v ===== *)
(** * Headers on the wire

    The packed headers of [kernel/src/driver/net/proto]: Ethernet
    ([ethernet.rs]), ARP ([arp.rs]), IPv4 ([ip.rs]), ICMP ([icmp.rs]) and UDP
    ([udp.rs]), their bytes ([as_bytes]) and how they are read back
    ([read_from_prefix]), the numbers of the protocols, and the checksums of
    IPv4, ICMP and UDP with their one's-complement specification. *)

From S2P Require Import Prelude Bits Time TcpTypes TcpChecksum NetWorld NetTables.

(** ** Protocol numbers *)

Module Ether.
Inductive EtherType :=
| Cdp | Stp | Ipv4 | Arp | WakeOnLan | ReverseArp | AppleTalk | Aarp | Vlan | Slpp | Vlacp | Ipx | Qnx
| Ipv6 | EthernetFlowControl | SlowProtocols | CobraNet | MplsUnicast | MplsMulticast | PPPoEDiscovery
| PPPoESession | HomePlugMME | EapOverLan | Profinet | HyperScsi | ATAoE | EtherCAT | QinQ | Powerlink
| Lldp | SercosIII | HomePlugGreenPhy | MediaRedundancy | MacSec | ProviderBackbone | Ptp | NcSi | Prp
| Cfm | FCoE | FCoEInit | RoCE | TTEthernet | IEEE1905_1 | Hsr | ConfigTest | Qinq9100 | RedundancyTag.

(** [as u16]. *)
Definition code (t : EtherType) : Z :=
  match t with
  | Cdp => 8192 | Stp => 66 | Ipv4 => 2048 | Arp => 2054 | WakeOnLan => 2114 | ReverseArp => 32821
  | AppleTalk => 32923 | Aarp => 33011 | Vlan => 33024 | Slpp => 33026 | Vlacp => 33027 | Ipx => 33079
  | Qnx => 33284 | Ipv6 => 34525 | EthernetFlowControl => 34824 | SlowProtocols => 34825
  | CobraNet => 34841 | MplsUnicast => 34887 | MplsMulticast => 34888 | PPPoEDiscovery => 34915
  | PPPoESession => 34916 | HomePlugMME => 34939 | EapOverLan => 34958 | Profinet => 34962
  | HyperScsi => 34970 | ATAoE => 34978 | EtherCAT => 34980 | QinQ => 34984 | Powerlink => 34987
  | Lldp => 35020 | SercosIII => 35021 | HomePlugGreenPhy => 35041 | MediaRedundancy => 35043
  | MacSec => 35045 | ProviderBackbone => 35047 | Ptp => 35063 | NcSi => 35064 | Prp => 35067
  | Cfm => 35074 | FCoE => 35078 | FCoEInit => 35092 | RoCE => 35093 | TTEthernet => 35101
  | IEEE1905_1 => 35130 | Hsr => 35119 | ConfigTest => 36864 | Qinq9100 => 37120 | RedundancyTag => 61889
  end.

Definition try_from (value : Z) : option EtherType :=
  if value =? 2048 then Some Ipv4 else if value =? 2054 then Some Arp else
  if value =? 2114 then Some WakeOnLan else if value =? 8192 then Some Cdp else
  if value =? 32821 then Some ReverseArp else if value =? 32923 then Some AppleTalk else
  if value =? 33011 then Some Aarp else if value =? 33024 then Some Vlan else
  if value =? 33026 then Some Slpp else if value =? 33027 then Some Vlacp else
  if value =? 33079 then Some Ipx else if value =? 33284 then Some Qnx else
  if value =? 34525 then Some Ipv6 else if value =? 34824 then Some EthernetFlowControl else
  if value =? 34825 then Some SlowProtocols else if value =? 34841 then Some CobraNet else
  if value =? 34887 then Some MplsUnicast else if value =? 34888 then Some MplsMulticast else
  if value =? 34915 then Some PPPoEDiscovery else if value =? 34916 then Some PPPoESession else
  if value =? 34939 then Some HomePlugMME else if value =? 34958 then Some EapOverLan else
  if value =? 34962 then Some Profinet else if value =? 34970 then Some HyperScsi else
  if value =? 34978 then Some ATAoE else if value =? 34980 then Some EtherCAT else
  if value =? 34984 then Some QinQ else if value =? 34987 then Some Powerlink else
  if value =? 35020 then Some Lldp else if value =? 35021 then Some SercosIII else
  if value =? 35041 then Some HomePlugGreenPhy else if value =? 35043 then Some MediaRedundancy else
  if value =? 35045 then Some MacSec else if value =? 35047 then Some ProviderBackbone else
  if value =? 35063 then Some Ptp else if value =? 35064 then Some NcSi else
  if value =? 35067 then Some Prp else if value =? 35074 then Some Cfm else
  if value =? 35078 then Some FCoE else if value =? 35092 then Some FCoEInit else
  if value =? 35093 then Some RoCE else if value =? 35101 then Some TTEthernet else
  if value =? 35130 then Some IEEE1905_1 else if value =? 35119 then Some Hsr else
  if value =? 36864 then Some ConfigTest else if value =? 37120 then Some Qinq9100 else
  if value =? 61889 then Some RedundancyTag else
  None.

Lemma try_from_code v t : try_from v = Some t → code t = v.
Proof.
  unfold try_from. repeat (match goal with |- context [?a =? ?b] => destruct (Z.eqb_spec a b) as [->|_] end; [by intros [= <-]|]). done.
Qed.

(** [Stp] is only found by its LLC header. *)
Lemma code_try_from t : t ≠ Stp → try_from (code t) = Some t.
Proof. by destruct t. Qed.
End Ether.

Inductive IpProtocol := Icmp | Igmp | Tcp | Cbt | Egp | Igp | Udp | Eigrp | Ospf.
Definition protocol_code (p : IpProtocol) : Z :=
  match p with
  | Icmp => 1 | Igmp => 2 | Tcp => 6 | Cbt => 7 | Egp => 8 | Igp => 9 | Udp => 17 | Eigrp => 88 | Ospf => 89
  end.

(** ** Headers *)

Definition mac_ok (m : MacAddress) : Prop := zlen m = 6 ∧ bytes m.

Module Eth.
Record EthernetFrameHeader := mk {
  destination_mac : MacAddress;
  source_mac : MacAddress;
  ether_type : Z
}.

Definition as_bytes (h : EthernetFrameHeader) : list Z :=
  destination_mac h ++ source_mac h ++ be16 (ether_type h).

Definition read (b : list Z) : option EthernetFrameHeader :=
  match b with
  | d0 :: d1 :: d2 :: d3 :: d4 :: d5 :: s0 :: s1 :: s2 :: s3 :: s4 :: s5 :: t0 :: t1 :: _ =>
      Some (mk [d0; d1; d2; d3; d4; d5] [s0; s1; s2; s3; s4; s5] (from_be16 t0 t1))
  | _ => None
  end.

Definition size : Z := 14.
End Eth.

Module Arp.
Inductive ArpOperation := Request | Reply | RarpRequest | RarpReply.

Definition op_code (o : ArpOperation) : Z :=
  match o with Request => 1 | Reply => 2 | RarpRequest => 3 | RarpReply => 4 end.

(** [From<u16>], which panics on any other value. *)
Definition op_from (value : Z) : res ArpOperation :=
  if value =? 1 then Ret Request else if value =? 2 then Ret Reply else
  if value =? 3 then Ret RarpRequest else if value =? 4 then Ret RarpReply else Crash Panic.

Record ArpFrameHeader := mk {
  hardware_type : Z;
  protocol_type : Z;
  hardware_length : Z;
  protocol_length : Z;
  operation : Z;
  sender_mac : MacAddress;
  sender_ip : Ipv4Addr;
  target_mac : MacAddress;
  target_ip : Ipv4Addr
}.

Definition as_bytes (h : ArpFrameHeader) : list Z :=
  be16 (hardware_type h) ++ be16 (protocol_type h) ++ [hardware_length h; protocol_length h] ++
  be16 (operation h) ++ sender_mac h ++ octets (sender_ip h) ++ target_mac h ++ octets (target_ip h).

Definition read (b : list Z) : option ArpFrameHeader :=
  match b with
  | h0 :: h1 :: p0 :: p1 :: hl :: pl :: o0 :: o1 :: s0 :: s1 :: s2 :: s3 :: s4 :: s5 :: i0 :: i1 :: i2 :: i3 ::
    t0 :: t1 :: t2 :: t3 :: t4 :: t5 :: j0 :: j1 :: j2 :: j3 :: _ =>
      Some (mk (from_be16 h0 h1) (from_be16 p0 p1) hl pl (from_be16 o0 o1)
              [s0; s1; s2; s3; s4; s5] (i0, i1, i2, i3) [t0; t1; t2; t3; t4; t5] (j0, j1, j2, j3))
  | _ => None
  end.

Definition size : Z := 28.
End Arp.

Module Ip.
Record Ipv4PacketHeader := mk {
  version_ihl : Z;
  tos : Z;
  total_length : Z;
  identification : Z;
  flags_fragment_offset : Z;
  ttl : Z;
  protocol_byte : Z;
  checksum : Z;
  source_ip : Ipv4Addr;
  target_ip : Ipv4Addr
}.
#[global] Instance eta_Ipv4PacketHeader : Eta Ipv4PacketHeader := λ r,
  mk (version_ihl r) (tos r) (total_length r) (identification r) (flags_fragment_offset r) (ttl r)
    (protocol_byte r) (checksum r) (source_ip r) (target_ip r).

Definition as_bytes (h : Ipv4PacketHeader) : list Z :=
  [version_ihl h; tos h] ++ be16 (total_length h) ++ be16 (identification h) ++ be16 (flags_fragment_offset h) ++
  [ttl h; protocol_byte h] ++ be16 (checksum h) ++ octets (source_ip h) ++ octets (target_ip h).

Definition read (b : list Z) : option Ipv4PacketHeader :=
  match b with
  | v :: t :: l0 :: l1 :: i0 :: i1 :: f0 :: f1 :: ttl :: p :: c0 :: c1 :: s0 :: s1 :: s2 :: s3 :: d0 :: d1 :: d2 :: d3 :: _ =>
      Some (mk v t (from_be16 l0 l1) (from_be16 i0 i1) (from_be16 f0 f1) ttl p (from_be16 c0 c1) (s0, s1, s2, s3) (d0, d1, d2, d3))
  | _ => None
  end.

Definition size : Z := 20.

(** [(self.version_ihl & 0x0F) * 4], at most 60. *)
Definition header_length (h : Ipv4PacketHeader) : Z := Z.land (version_ihl h) 15 * 4.

Definition protocol (h : Ipv4PacketHeader) : option IpProtocol :=
  let p := protocol_byte h in
  if p =? 1 then Some Icmp else if p =? 2 then Some Igmp else if p =? 6 then Some Tcp else
  if p =? 7 then Some Cbt else if p =? 8 then Some Egp else if p =? 9 then Some Igp else
  if p =? 17 then Some Udp else if p =? 88 then Some Eigrp else if p =? 89 then Some Ospf else None.
End Ip.

Module Ping.
Inductive IcmpMessageType :=
| EchoReply | DestinationUnreachable | SourceQuench | Redirect | EchoRequest | TimeExceeded | ParameterProblem
| TimestampRequest | TimestampReply | InfoRequest | InfoReply.

Inductive IcmpDestinationUnreachableCode := Network | Host | Protocol | Port.

Definition from_u8 (code : Z) : option IcmpDestinationUnreachableCode :=
  if code =? 0 then Some Network else if code =? 1 then Some Host else
  if code =? 2 then Some Protocol else if code =? 3 then Some Port else None.

Definition to_tcp_error (c : IcmpDestinationUnreachableCode) : TcpError :=
  match c with Port => ConnectionRefused | Network | Host | Protocol => NoRoute end.

Record IcmpPacketHeader := mk {
  message_byte : Z;
  code : Z;
  checksum : Z;
  identifier : Z;
  sequence_number : Z
}.
#[global] Instance eta_IcmpPacketHeader : Eta IcmpPacketHeader := λ r,
  mk (message_byte r) (code r) (checksum r) (identifier r) (sequence_number r).

Definition as_bytes (h : IcmpPacketHeader) : list Z :=
  [message_byte h; code h] ++ be16 (checksum h) ++ be16 (identifier h) ++ be16 (sequence_number h).

Definition read (b : list Z) : option IcmpPacketHeader :=
  match b with
  | t :: c :: c0 :: c1 :: i0 :: i1 :: s0 :: s1 :: _ => Some (mk t c (from_be16 c0 c1) (from_be16 i0 i1) (from_be16 s0 s1))
  | _ => None
  end.

Definition size : Z := 8.

Definition message_type (h : IcmpPacketHeader) : option IcmpMessageType :=
  let t := message_byte h in
  if t =? 0 then Some EchoReply else if t =? 3 then Some DestinationUnreachable else
  if t =? 4 then Some SourceQuench else if t =? 5 then Some Redirect else if t =? 8 then Some EchoRequest else
  if t =? 11 then Some TimeExceeded else if t =? 12 then Some ParameterProblem else
  if t =? 13 then Some TimestampRequest else if t =? 14 then Some TimestampReply else
  if t =? 15 then Some InfoRequest else if t =? 16 then Some InfoReply else None.
End Ping.

Module Dgram.
Record UdpDatagramHeader := mk {
  source_port : Z;
  destination_port : Z;
  dgram_length : Z;
  checksum : Z
}.
#[global] Instance eta_UdpDatagramHeader : Eta UdpDatagramHeader := λ r,
  mk (source_port r) (destination_port r) (dgram_length r) (checksum r).

Definition as_bytes (h : UdpDatagramHeader) : list Z :=
  be16 (source_port h) ++ be16 (destination_port h) ++ be16 (dgram_length h) ++ be16 (checksum h).

Definition read (b : list Z) : option UdpDatagramHeader :=
  match b with
  | s0 :: s1 :: d0 :: d1 :: l0 :: l1 :: c0 :: c1 :: _ =>
      Some (mk (from_be16 s0 s1) (from_be16 d0 d1) (from_be16 l0 l1) (from_be16 c0 c1))
  | _ => None
  end.

Definition size : Z := 8.
End Dgram.

(** [PacketBuffer::consume_header]: it unwraps, so a short payload panics. *)
Definition consume_header {H} (size : Z) (read : list Z → option H) (p : Pkt.PacketBuffer) : res (H * Pkt.PacketBuffer) :=
  remaining ← Pkt.payload p;
  match read remaining with
  | Some header => Ret (header, p <| Pkt.payload_start := Pkt.payload_start p + size |>)
  | None => Crash Panic
  end.

(** ** Checksums *)

Definition fold_carries (sum : Z) : res Z := sum ← while_loop fold_step 16 sum; Ret (65535 - sum mod U16).

(** [ip.rs]: the loop indexes [bytes[i + 1]]. *)
Fixpoint ip_words (sum : Z) (b : list Z) : res Z :=
  match b with
  | [] => Ret sum
  | [_] => Crash Panic
  | hi :: lo :: b => ip_words (add_u16_be sum hi lo) b
  end.
Definition calculate_header_checksum (h : Ip.Ipv4PacketHeader) : res Z :=
  sum ← ip_words 0 (Ip.as_bytes h);
  fold_carries sum.

(** [icmp.rs]: the pairs and the byte that is left. *)
Fixpoint icmp_chunks (sum : Z) (b : list Z) : Z * list Z :=
  match b with
  | c0 :: c1 :: b => icmp_chunks (wadd sum (Z.lor (Z.shiftl c0 8) c1)) b
  | remainder => (sum, remainder)
  end.
Definition calculate_icmp_checksum (data : list Z) : res Z :=
  let '(sum, remainder) := icmp_chunks 0 data in
  let sum := match remainder with [last] => wadd sum (Z.shiftl last 8) | _ => sum end in
  fold_carries sum.

(** [udp.rs]. *)
Definition udp_step (b : list Z) (s : Z * Z) : res ((Z * Z) + (Z * Z)) :=
  let '(i, sum) := s in
  if i + 1 <? zlen b then
    hi ← index b i;
    lo ← index b (i + 1);
    Ret (inl (i + 2, add_u16_be sum hi lo))
  else Ret (inr (i, sum)).

Definition calculate_udp_checksum (src_ip dst_ip : Ipv4Addr) (protocol : IpProtocol) (udp_len : Z) (header_and_data : list Z)
  : res Z :=
  let '(s0, s1, s2, s3) := src_ip in
  let '(d0, d1, d2, d3) := dst_ip in
  let sum := add_u16_be 0 s0 s1 in
  let sum := add_u16_be sum s2 s3 in
  let sum := add_u16_be sum d0 d1 in
  let sum := add_u16_be sum d2 d3 in
  let sum := add_u16_be sum 0 (protocol_code protocol) in
  let sum := wadd sum udp_len in
  '(i, sum) ← while_loop (udp_step header_and_data) (Pos.of_succ_nat (length header_and_data)) (0, sum);
  sum ← (if i <? zlen header_and_data then hi ← index header_and_data i; Ret (add_u16_be sum hi 0) else Ret sum);
  result ← fold_carries sum;
  Ret (if result =? 0 then 65535 else result).

(** ** Reading back what was written *)

Lemma mac_cases m : mac_ok m → ∃ a b c d e f, m = [a; b; c; d; e; f].
Proof.
  intros [Hz _]. unfold zlen in Hz. do 6 (destruct m as [|? m]; [simpl in Hz; lia|]).
  destruct m; [eauto 10|]. simpl in Hz. lia.
Qed.

Lemma zlen_octets ip : zlen (octets ip) = 4.
Proof. by destruct ip as [[[a b] c] d]. Qed.

Section RoundTrips.
Record eth_ok (h : Eth.EthernetFrameHeader) : Prop := {
  eth_dst : mac_ok (Eth.destination_mac h);
  eth_src : mac_ok (Eth.source_mac h);
  eth_type : u16 (Eth.ether_type h)
}.

Lemma eth_read_bytes h rest : eth_ok h → Eth.read (Eth.as_bytes h ++ rest) = Some h.
Proof.
  destruct h as [d s t]. intros [Hd Hs Ht]. cbn in Hd, Hs, Ht.
  apply mac_cases in Hd as (? & ? & ? & ? & ? & ? & ->). apply mac_cases in Hs as (? & ? & ? & ? & ? & ? & ->).
  unfold Eth.as_bytes, Eth.read, be16. cbn [Eth.destination_mac Eth.source_mac Eth.ether_type app]. by rewrite from_to_be16.
Qed.

Lemma zlen_eth h : eth_ok h → zlen (Eth.as_bytes h) = Eth.size.
Proof. intros [[Hd _] [Hs _] _]. unfold Eth.as_bytes. rewrite !zlen_app, Hd, Hs. done. Qed.

Record arp_ok (h : Arp.ArpFrameHeader) : Prop := {
  arp_hw : u16 (Arp.hardware_type h);
  arp_proto : u16 (Arp.protocol_type h);
  arp_op : u16 (Arp.operation h);
  arp_smac : mac_ok (Arp.sender_mac h);
  arp_tmac : mac_ok (Arp.target_mac h)
}.

Lemma arp_read_bytes h rest : arp_ok h → Arp.read (Arp.as_bytes h ++ rest) = Some h.
Proof.
  destruct h as [hw pt hl pl o sm [[[? ?] ?] ?] tm [[[? ?] ?] ?]]. intros [Hhw Hpt Ho Hs Ht]. cbn in Hhw, Hpt, Ho, Hs, Ht.
  apply mac_cases in Hs as (? & ? & ? & ? & ? & ? & ->). apply mac_cases in Ht as (? & ? & ? & ? & ? & ? & ->).
  unfold Arp.as_bytes, Arp.read, be16. cbn [octets app Arp.hardware_type Arp.protocol_type Arp.hardware_length Arp.protocol_length Arp.operation Arp.sender_mac Arp.sender_ip Arp.target_mac Arp.target_ip].
  by rewrite !from_to_be16.
Qed.

Lemma zlen_arp h : arp_ok h → zlen (Arp.as_bytes h) = Arp.size.
Proof. intros [_ _ _ [Hs _] [Ht _]]. unfold Arp.as_bytes. rewrite !zlen_app, Hs, Ht, !zlen_octets. done. Qed.

Record iph_ok (h : Ip.Ipv4PacketHeader) : Prop := {
  iph_version : u8 (Ip.version_ihl h);
  iph_tos : u8 (Ip.tos h);
  iph_length : u16 (Ip.total_length h);
  iph_ident : u16 (Ip.identification h);
  iph_flags : u16 (Ip.flags_fragment_offset h);
  iph_ttl : u8 (Ip.ttl h);
  iph_proto : u8 (Ip.protocol_byte h);
  iph_checksum : u16 (Ip.checksum h);
  iph_src : ip_ok (Ip.source_ip h);
  iph_dst : ip_ok (Ip.target_ip h)
}.

Lemma ip_read_bytes h rest : iph_ok h → Ip.read (Ip.as_bytes h ++ rest) = Some h.
Proof.
  destruct h as [v t l i f tt p c [[[? ?] ?] ?] [[[? ?] ?] ?]]. intros [_ _ Hl Hi Hf _ _ Hc _ _]. cbn in Hl, Hi, Hf, Hc.
  unfold Ip.as_bytes, Ip.read, be16. cbn [octets app Ip.version_ihl Ip.tos Ip.total_length Ip.identification Ip.flags_fragment_offset Ip.ttl Ip.protocol_byte Ip.checksum Ip.source_ip Ip.target_ip].
  by rewrite !from_to_be16.
Qed.

Lemma zlen_ip h : zlen (Ip.as_bytes h) = Ip.size.
Proof. unfold Ip.as_bytes. rewrite !zlen_app, !zlen_octets. done. Qed.

Lemma ip_bytes h : iph_ok h → bytes (Ip.as_bytes h).
Proof.
  intros []. unfold Ip.as_bytes, bytes. rewrite !Forall_app. repeat split; try apply be16_bytes; try done; (repeat apply Forall_cons_2; [done..|apply Forall_nil_2]).
Qed.

Record ping_ok (h : Ping.IcmpPacketHeader) : Prop := {
  ping_type : u8 (Ping.message_byte h);
  ping_code : u8 (Ping.code h);
  ping_checksum : u16 (Ping.checksum h);
  ping_ident : u16 (Ping.identifier h);
  ping_seq : u16 (Ping.sequence_number h)
}.

Lemma ping_read_bytes h rest : ping_ok h → Ping.read (Ping.as_bytes h ++ rest) = Some h.
Proof.
  destruct h. intros [_ _ Hc Hi Hs]. cbn in Hc, Hi, Hs. unfold Ping.as_bytes, Ping.read, be16.
  cbn [app Ping.message_byte Ping.code Ping.checksum Ping.identifier Ping.sequence_number]. by rewrite !from_to_be16.
Qed.

Record dgram_ok (h : Dgram.UdpDatagramHeader) : Prop := {
  dgram_source : u16 (Dgram.source_port h);
  dgram_dest : u16 (Dgram.destination_port h);
  dgram_len : u16 (Dgram.dgram_length h);
  dgram_checksum : u16 (Dgram.checksum h)
}.

Lemma dgram_read_bytes h rest : dgram_ok h → Dgram.read (Dgram.as_bytes h ++ rest) = Some h.
Proof.
  destruct h. intros [Hs Hd Hl Hc]. cbn in Hs, Hd, Hl, Hc. unfold Dgram.as_bytes, Dgram.read, be16.
  cbn [app Dgram.source_port Dgram.destination_port Dgram.dgram_length Dgram.checksum]. by rewrite !from_to_be16.
Qed.

Lemma zlen_dgram h : zlen (Dgram.as_bytes h) = Dgram.size.
Proof. done. Qed.

Lemma consume_header_spec {H} size (read : list Z → option H) p hb rest h :
  Pkt.wf p → Pkt.contents p = hb ++ rest → zlen hb = size → read (hb ++ rest) = Some h →
  returns (consume_header size read p) (λ '(h', p'), h' = h ∧ Pkt.wf p' ∧ Pkt.contents p' = rest).
Proof.
  intros Hw Hc Hz Hr. pose proof (Pkt.zlen_contents p Hw) as Hlen. rewrite Hc, zlen_app, Hz in Hlen.
  pose proof (zlen_nonneg rest). pose proof (zlen_nonneg hb). unfold consume_header. rewrite Pkt.payload_ret by done.
  rewrite ret_bind, Hc, Hr. apply returns_ret. split; [done|]. destruct Hw as [? ? ?]. split; [constructor; rsimp; lia|].
  unfold Pkt.contents in *. rsimp. unfold ztake, zdrop in *. rewrite Z2Nat.inj_add, <- drop_drop by lia.
  assert (Hd : rest = drop (Z.to_nat size) (hb ++ rest)) by (rewrite drop_app_length'; [done|unfold zlen in *; lia]).
  rewrite Hd, <- Hc, take_drop_commute. f_equal. f_equal. lia.
Qed.
End RoundTrips.

(** ** The checksums are the Internet checksum *)

Section Checksums.
Definition inet_checksum (l : list Z) : Z := 65535 - ones_norm (word_sum l).

(** What a receiver checks: the sum over everything, checksum included. *)
Definition checksum_valid (l : list Z) : Prop := ones_norm (word_sum l) = 65535.

Definition udp_pseudo (src dst : Ipv4Addr) (len : Z) : list Z := octets src ++ octets dst ++ [0; 17] ++ be16 len.

Lemma fold_carries_spec sum : u32 sum → fold_carries sum = Ret (65535 - ones_norm sum).
Proof.
  intros Hs. unfold fold_carries. destruct (fold_loop sum Hs) as (s & -> & -> & Hr). by rewrite ret_bind, Z.mod_small by lia.
Qed.

Lemma inet_checksum_u16 l : u16 (inet_checksum l).
Proof. unfold inet_checksum, ones_norm. destruct (_ =? 0); mlia. Qed.

Lemma add_u16_be_small sum hi lo : 0 ≤ sum → sum + from_be16 hi lo < U32 → u8 hi → u8 lo →
  add_u16_be sum hi lo = sum + from_be16 hi lo.
Proof. intros. unfold add_u16_be, wadd. rewrite Z.mod_small; [done|]. unfold from_be16 in *. ints. lia. Qed.

Lemma word_sum_cons a b l : word_sum (a :: b :: l) = from_be16 a b + word_sum l.
Proof. done. Qed.

(** An even number of words in front adds its own sum. *)
Lemma word_sum_app l1 l2 : Nat.Even (length l1) → word_sum (l1 ++ l2) = word_sum l1 + word_sum l2.
Proof.
  induction l1 as [|a|a b l IH] using pair_list_ind; intros He; [done| |].
  - by apply Nat.Even_succ in He; apply Nat.odd_spec in He.
  - cbn [app]. rewrite !word_sum_cons, IH; [lia|]. cbn [length] in He. by apply Nat.Even_succ_succ.
Qed.

Lemma ip_words_spec l : ∀ sum, bytes l → Nat.Even (length l) → 0 ≤ sum → sum + word_sum l < U32 →
  ip_words sum l = Ret (sum + word_sum l).
Proof.
  induction l as [|a|a b l IH] using pair_list_ind; intros sum Hb He Hs Hlt.
  - cbn. f_equal. unfold word_sum. simpl. lia.
  - by apply Nat.Even_succ in He; apply Nat.odd_spec in He.
  - unfold bytes in Hb. rewrite !Forall_cons in Hb. destruct Hb as (Ha & Hb & Hl). rewrite word_sum_cons in *. cbn [ip_words].
    pose proof (word_sum_bound l Hl) as [Hw _].
    rewrite add_u16_be_small by (done || lia). rewrite IH; [f_equal; lia|done| | |lia].
    + by apply Nat.Even_succ_succ.
    + unfold from_be16. ints. lia.
Qed.

Lemma icmp_chunks_spec l : ∀ sum, bytes l → 0 ≤ sum → sum + word_sum l < U32 →
  let '(s, r) := icmp_chunks sum l in
  match r with [last] => wadd s (Z.shiftl last 8) | _ => s end = sum + word_sum l.
Proof.
  induction l as [|a|a b l IH] using pair_list_ind; intros sum Hb Hs Hlt.
  - cbn. unfold word_sum. simpl. lia.
  - apply Forall_cons in Hb as [Ha _]. unfold word_sum in *. cbn [icmp_chunks words foldr] in *. rewrite Z.shiftl_mul_pow2 by lia.
    unfold wadd, from_be16 in *. ints. rewrite Z.mod_small; lia.
  - unfold bytes in Hb. rewrite !Forall_cons in Hb. destruct Hb as (Ha & Hb & Hl). rewrite word_sum_cons in *. cbn [icmp_chunks].
    pose proof (word_sum_bound l Hl) as [Hw _].
    assert (E : wadd sum (Z.lor (Z.shiftl a 8) b) = sum + from_be16 a b).
    { rewrite lor_shiftl_add by (ints; lia). unfold wadd, from_be16 in *. ints. rewrite Z.mod_small; lia. }
    rewrite E. specialize (IH (sum + from_be16 a b) Hl). destruct (icmp_chunks _ l) as [s r]. rewrite IH; [lia| |lia].
    unfold from_be16. ints. lia.
Qed.

Lemma udp_step_pair b s : udp_step b s = pair_step [] b s.
Proof.
  destruct s as [i sum]. unfold udp_step, pair_step, get. rewrite zlen_nil, Z.add_0_l, !Z.sub_0_r.
  destruct (Z.ltb_spec (i + 1) (zlen b)); [|done].
  destruct (Z.ltb_spec i 0), (Z.ltb_spec (i + 1) 0); try done; unfold index; rewrite ?lookup_nil; repeat (case_match; try done; try lia).
Qed.

Lemma ip_checksum_spec h : iph_ok h → calculate_header_checksum h = Ret (inet_checksum (Ip.as_bytes h)).
Proof.
  intros Hok. pose proof (ip_bytes h Hok) as Hb. pose proof (word_sum_bound _ Hb) as Hw. rewrite zlen_ip in Hw. unfold Ip.size in Hw.
  unfold calculate_header_checksum. rewrite ip_words_spec; [|done| |lia|lia].
  - rewrite ret_bind, fold_carries_spec by (ints; lia). by rewrite Z.add_0_l.
  - pose proof (zlen_ip h) as Hz. unfold zlen, Ip.size in Hz. exists 10%nat. lia.
Qed.

Lemma icmp_checksum_spec data : bytes data → zlen data < U16 → calculate_icmp_checksum data = Ret (inet_checksum data).
Proof.
  intros Hb Hz. pose proof (word_sum_bound _ Hb) as Hw. unfold calculate_icmp_checksum.
  pose proof (icmp_chunks_spec data 0 Hb ltac:(lia) ltac:(lia)) as Hc. destruct (icmp_chunks 0 data) as [s r]. rewrite Hc.
  rewrite fold_carries_spec by (ints; lia). by rewrite Z.add_0_l.
Qed.

Lemma while_loop_ext {S R} (f g : S → res (S + R)) : (∀ s, f s = g s) → ∀ p s, while_loop f p s = while_loop g p s.
Proof.
  intros Hfg p s. unfold while_loop. enough (E : ∀ s, iterate f p s = iterate g p s) by by rewrite E. clear s.
  induction p as [p IH|p IH|]; intros s; cbn [iterate].
  - rewrite Hfg. destruct (g s) as [[s'|r]|e]; cbn [mbind res_bind]; [|done..]. rewrite IH.
    destruct (iterate g p s') as [[s''|r]|e]; cbn [mbind res_bind]; [apply IH|done..].
  - rewrite IH. destruct (iterate g p s) as [[s'|r]|e]; cbn [mbind res_bind]; [apply IH|done..].
  - apply Hfg.
Qed.

Lemma udp_checksum_spec src dst len b : ip_ok src → ip_ok dst → bytes b → u16 len → zlen b < U16 →
  calculate_udp_checksum src dst Udp len b =
  Ret (let c := 65535 - ones_norm (word_sum (udp_pseudo src dst len ++ b)) in if c =? 0 then 65535 else c).
Proof.
  intros Hs Hd Hb Hu Hlen. destruct src as [[[s0 s1] s2] s3], dst as [[[d0 d1] d2] d3]. unfold calculate_udp_checksum. cbv zeta.
  pose proof (word_sum_bound b Hb) as HW. pose proof (zlen_nonneg b).
  unfold ip_ok, octets, bytes in Hs, Hd. rewrite !Forall_cons in Hs, Hd. destruct_and!.
  set (P := word_sum (udp_pseudo (s0, s1, s2, s3) (d0, d1, d2, d3) len)).
  assert (HP : P = from_be16 s0 s1 + (from_be16 s2 s3 + (from_be16 d0 d1 + (from_be16 d2 d3 + (from_be16 0 17 + len))))).
  { unfold P, udp_pseudo, be16, word_sum. cbn [octets app words foldr]. rewrite from_to_be16 by done. lia. }
  assert (Hsum : wadd (add_u16_be (add_u16_be (add_u16_be (add_u16_be (add_u16_be 0 s0 s1) s2 s3) d0 d1) d2 d3) 0 (protocol_code Udp)) len = P).
  { unfold add_u16_be. cbn [protocol_code]. rewrite !wadd_assoc. unfold wadd, from_be16 in *. ints. rewrite Z.mod_small by lia. lia. }
  rewrite Hsum, (word_sum_app (udp_pseudo _ _ _)) by by exists 6%nat. fold P. unfold from_be16 in HP. ints.
  rewrite (while_loop_ext _ _ (udp_step_pair b)).
  destruct (pair_loop [] b P (P + word_sum b)) as ([i s] & E & Hs0 & Hi & Hil & HT); [constructor|done|lia|done|lia|].
  cbn [app length Nat.add] in *. rewrite E, ret_bind.
  match goal with |- mbind _ ?m = _ => assert (Hm : m = Ret (P + word_sum b)) end.
  { destruct (Z.ltb_spec i (zlen b)).
    - rewrite index_ret, ret_bind by lia. rewrite word_sum_tail in HT by lia. f_equal. pose proof (byte_at_u8 b i Hb) as Hi8.
      rewrite add_u16_be_small; [lia|lia|lia|done|ints; lia].
    - f_equal. unfold zdrop in HT. rewrite drop_ge in HT by (unfold zlen in *; lia). unfold word_sum in HT. simpl in HT. unfold word_sum. lia. }
  rewrite Hm, ret_bind, fold_carries_spec by (ints; lia). done.
Qed.

(** The header checksum the code fills in is the one receivers accept. *)
Lemma ip_checksum_valid h c : iph_ok h → 0 < Ip.version_ihl h → calculate_header_checksum (h <| Ip.checksum := 0 |>) = Ret c →
  checksum_valid (Ip.as_bytes (h <| Ip.checksum := c |>)).
Proof.
  intros Hok Hv E. assert (H0 : iph_ok (h <| Ip.checksum := 0 |>)) by (destruct Hok; constructor; rsimp; try done; ints; lia).
  rewrite ip_checksum_spec in E by done. injection E as <-. set (l := Ip.as_bytes (h <| Ip.checksum := 0 |>)).
  assert (Hw : word_sum (Ip.as_bytes (h <| Ip.checksum := inet_checksum l |>)) = word_sum l + inet_checksum l).
  { pose proof (inet_checksum_u16 l). generalize dependent (inet_checksum l). intros c Hc. subst l. unfold Ip.as_bytes, be16. rsimp.
    destruct (Ip.source_ip h) as [[[? ?] ?] ?], (Ip.target_ip h) as [[[? ?] ?] ?]. unfold word_sum. cbn [octets app words foldr].
    rewrite (from_to_be16 c), (from_to_be16 0) by (done || (ints; lia)). lia. }
  unfold checksum_valid. rewrite Hw. apply ones_norm_complement.
  pose proof (ip_bytes _ H0) as Hb. fold l in Hb. assert (Hl : ∃ t, l = Ip.version_ihl h :: Ip.tos h :: t) by (eexists; reflexivity).
  destruct Hl as [t El]. rewrite El in *. unfold bytes in Hb. rewrite !Forall_cons in Hb. destruct Hb as (? & ? & Ht).
  rewrite word_sum_cons. pose proof (word_sum_bound t Ht). unfold from_be16. ints. lia.
Qed.
End Checksums.
