(* ===== verification/UdpSockets.v ===== *)
(** * UDP sockets

    The socket part of [kernel/src/driver/net/proto/udp.rs]: receive buffers,
    the table of sockets and bound ports, and the operations on them.  A
    socket's [Arc] is an index in [arcs]; the table maps handles to it. *)

From S2P Require Import Prelude TcpTypes TcpChecksum.

(** ** Receive buffers *)

Record ReceivedDatagram := mkDatagram {
  src_addr : Ipv4Addr;
  src_port : Z;
  dgram_data : list Z
}.

Record UdpRecvBuffer := mkRecv {
  recv_queue : list ReceivedDatagram;
  wake : Event;
  capacity : Z;
  recv_closed : bool
}.
#[global] Instance eta_UdpRecvBuffer : Eta UdpRecvBuffer := λ r,
  mkRecv (recv_queue r) (wake r) (capacity r) (recv_closed r).

Definition recv_new (capacity : Z) : UdpRecvBuffer := mkRecv [] event_new capacity false.

(** [true] is [Ok]. *)
Definition recv_push (d : ReceivedDatagram) (b : UdpRecvBuffer) : bool * UdpRecvBuffer :=
  if capacity b <=? zlen (recv_queue b) then (false, b) else
  (true, b <| recv_queue := recv_queue b ++ [d] |> <| wake := event_notify (wake b) |>).

Definition try_pop (b : UdpRecvBuffer) : option ReceivedDatagram * UdpRecvBuffer :=
  match recv_queue b with
  | [] => (None, b)
  | d :: q => (Some d, b <| recv_queue := q |>)
  end.

Definition recv_close (b : UdpRecvBuffer) : UdpRecvBuffer :=
  b <| recv_closed := true |> <| wake := event_notify (wake b) |>.

(** ** The table *)

Record UdpSocketState := mkSocketState {
  local_port : Z;
  remote_addr : option (Ipv4Addr * Z);
  recv_buf : UdpRecvBuffer
}.
#[global] Instance eta_UdpSocketState : Eta UdpSocketState := λ r, mkSocketState (local_port r) (remote_addr r) (recv_buf r).

Record SocketTable := mkSockets {
  sockets : gmap Z nat;
  bound_ports : gmap Z Z;
  next_ephemeral : Z;
  arcs : list UdpSocketState
}.
#[global] Instance eta_SocketTable : Eta SocketTable := λ r,
  mkSockets (sockets r) (bound_ports r) (next_ephemeral r) (arcs r).

Definition table_new : SocketTable := mkSockets ∅ ∅ 49152 [].

Definition next_handle (handle : Z) : Z := let h := (handle + 1) mod U16 in if h =? 0 then 1 else h.

(** [insert_unbound], with the allocation of the [Arc]; the loop visits each
    of the 65535 handles once before it comes back to the first. *)
Definition insert_unbound (s : UdpSocketState) (t : SocketTable) : res (Z * SocketTable) :=
  handle ← while_loop (λ handle, match sockets t !! handle with
                                 | Some _ => Ret (inl (next_handle handle))
                                 | None => Ret (inr handle)
                                 end) 65536 1;
  Ret (handle, t <| sockets := <[handle := length (arcs t)]> (sockets t) |> <| arcs := arcs t ++ [s] |>).

(** [handle.0 as u16]. *)
Definition get_arc (handle : Z) (t : SocketTable) : option nat := sockets t !! (handle mod U16).

Definition get_socket (handle : Z) (t : SocketTable) : option (nat * UdpSocketState) :=
  l ← get_arc handle t; s ← arcs t !! l; Some (l, s).

Definition set_socket (l : nat) (s : UdpSocketState) (t : SocketTable) : SocketTable := t <| arcs := <[l := s]> (arcs t) |>.

Definition register_port (port handle : Z) (t : SocketTable) : SocketTable :=
  t <| bound_ports := <[port := handle]> (bound_ports t) |>.
Definition unregister_port (port : Z) (t : SocketTable) : SocketTable := t <| bound_ports := delete port (bound_ports t) |>.
Definition port_in_use (port : Z) (t : SocketTable) : bool := bool_decide (is_Some (bound_ports t !! port)).

Definition remove_socket (handle : Z) (t : SocketTable) : option nat * SocketTable :=
  match get_socket handle t with
  | Some (l, s) =>
      let t := t <| sockets := delete (handle mod U16) (sockets t) |> in
      (Some l, if local_port s =? 0 then t else unregister_port (local_port s) t)
  | None => (None, t)
  end.

Definition get_port (handle : Z) (t : SocketTable) : option Z := '(_, s) ← get_socket handle t; Some (local_port s).

(** [0..(u16::MAX - 49152)]: 16383 attempts. *)
Fixpoint alloc_from (n : nat) (t : SocketTable) : option Z * SocketTable :=
  match n with
  | O => (None, t)
  | S n =>
      let port := next_ephemeral t in
      let next := (port + 1) mod U16 in
      let t := t <| next_ephemeral := if next <? 49152 then 49152 else next |> in
      if port_in_use port t then alloc_from n t else (Some port, t)
  end.
Definition alloc_ephemeral (t : SocketTable) : option Z * SocketTable := alloc_from (Z.to_nat (65535 - 49152)) t.

Definition find_by_port (port : Z) (t : SocketTable) : option nat :=
  handle ← bound_ports t !! port; sockets t !! (handle mod U16).

(** ** Operations; [None] is [Err(())] *)

Definition socket_create (t : SocketTable) : res (Z * SocketTable) :=
  insert_unbound (mkSocketState 0 None (recv_new 4096)) t.

Definition socket_bind (handle port : Z) (t : SocketTable) : option unit * SocketTable :=
  let '(chosen, t) :=
    if port =? 0 then alloc_ephemeral t
    else (if port_in_use port t then None else Some port, t) in
  match chosen with
  | None => (None, t)
  | Some port =>
      match get_socket handle t with
      | None => (None, t)
      | Some (l, s) => (Some tt, register_port port handle (set_socket l (s <| local_port := port |>) t))
      end
  end.

Definition socket_connect (handle : Z) (addr : Ipv4Addr) (port : Z) (t : SocketTable) : option unit * SocketTable :=
  match get_socket handle t with
  | None => (None, t)
  | Some (l, s) =>
      if local_port s =? 0 then
        match alloc_ephemeral t with
        | (None, t) => (None, t)
        | (Some p, t) =>
            (Some tt, set_socket l (s <| local_port := p |> <| remote_addr := Some (addr, port) |>) (register_port p handle t))
        end
      else (Some tt, set_socket l (s <| remote_addr := Some (addr, port) |>) t)
  end.

Definition socket_close (handle : Z) (t : SocketTable) : SocketTable :=
  let t := match get_port handle t with Some port => unregister_port port t | None => t end in
  match remove_socket handle t with
  | (Some l, t) =>
      match arcs t !! l with
      | Some s => set_socket l (s <| recv_buf := recv_close (recv_buf s) |>) t
      | None => t
      end
  | (None, t) => t
  end.

Definition dispatch_to_socket (dst_port : Z) (src : Ipv4Addr) (sport : Z) (payload : list Z) (t : SocketTable) : SocketTable :=
  match find_by_port dst_port t with
  | None => t
  | Some l =>
      match arcs t !! l with
      | Some s => set_socket l (s <| recv_buf := (recv_push (mkDatagram src sport payload) (recv_buf s)).2 |>) t
      | None => t
      end
  end.

(** One round of the loop of [socket_recv_from] on the [Arc] the call holds. *)
Inductive recv_round := Received (data : list Z) (src : Ipv4Addr) (port : Z) | Closed | Blocks.

Definition recv_step (l : nat) (buf_len : Z) (t : SocketTable) : recv_round * SocketTable :=
  match arcs t !! l with
  | None => (Closed, t)
  | Some s =>
      match try_pop (recv_buf s) with
      | (Some d, b) => (Received (ztake (Z.min (zlen (dgram_data d)) buf_len) (dgram_data d)) (src_addr d) (src_port d),
                        set_socket l (s <| recv_buf := b |>) t)
      | (None, _) => (if recv_closed (recv_buf s) then Closed else Blocks, t)
      end
  end.

(** ** The index of ports agrees with the sockets *)

Section Invariant.
Implicit Types (t : SocketTable) (s : UdpSocketState).

(** The socket [s], at [l], is open under [h]. *)
Definition open_at t (h : Z) (l : nat) s : Prop := sockets t !! h = Some l ∧ arcs t !! l = Some s.

(** The port of an open socket is indexed under its handle.  (A port that is
    indexed need not be one of an open socket: binding a bound socket leaves the
    old port behind.) *)
Record udp_ok t : Prop := {
  uo_handle : ∀ h l, sockets t !! h = Some l → 1 ≤ h < U16 ∧ is_Some (arcs t !! l);
  uo_arc : ∀ h h' l, sockets t !! h = Some l → sockets t !! h' = Some l → h = h';
  uo_port : ∀ h l s, open_at t h l s → local_port s ≠ 0 → ∃ h', bound_ports t !! local_port s = Some h' ∧ h' mod U16 = h;
  uo_ephemeral : 49152 ≤ next_ephemeral t < U16;
  uo_room : ∀ l s, arcs t !! l = Some s → zlen (recv_queue (recv_buf s)) ≤ capacity (recv_buf s)
}.

Lemma udp_new_ok : udp_ok table_new.
Proof.
  constructor; unfold open_at; cbn; [by intros h l; rewrite lookup_empty|by intros h h' l; rewrite lookup_empty| |lia|done].
  intros h l s [Hl _]. by rewrite lookup_empty in Hl.
Qed.

Lemma get_socket_open t h l s : get_socket h t = Some (l, s) ↔ open_at t (h mod U16) l s.
Proof.
  unfold get_socket, get_arc, open_at.
  destruct (sockets t !! (h mod U16)) as [l'|]; cbn; [|split; [done|by intros [? _]]].
  destruct (arcs t !! l') as [s'|] eqn:E; cbn; split; [by intros [= <- <-]|intros [[= <-] ?]; congruence|done|intros [[= <-] ?]; congruence].
Qed.

(** Two open sockets never hold the same port. *)
Lemma ports_exclusive t h h' l l' s s' : udp_ok t → open_at t h l s → open_at t h' l' s' →
  local_port s = local_port s' → local_port s ≠ 0 → h = h'.
Proof.
  intros Hok Ho Ho' E Hp. destruct (uo_port t Hok _ _ _ Ho Hp) as (x & E1 & <-).
  destruct (uo_port t Hok _ _ _ Ho' ltac:(congruence)) as (y & E2 & <-). rewrite E in E1. congruence.
Qed.

Lemma find_by_port_spec t h l s : udp_ok t → open_at t h l s → local_port s ≠ 0 → find_by_port (local_port s) t = Some l.
Proof.
  intros Hok Ho Hp. unfold find_by_port. destruct (uo_port t Hok _ _ _ Ho Hp) as (x & -> & E). cbn. rewrite E. apply Ho.
Qed.

Lemma set_socket_arcs l s' s t : arcs t !! l = Some s →
  ∀ l', arcs (set_socket l s' t) !! l' = if decide (l' = l) then Some s' else arcs t !! l'.
Proof.
  intros Hl l'. unfold set_socket. rsimp. destruct (decide (l' = l)) as [->|].
  - rewrite list_lookup_insert_eq; [done|by eapply lookup_lt_Some].
  - by rewrite list_lookup_insert_ne.
Qed.

(** What changes when the state of one [Arc] is replaced, its port kept. *)
Lemma set_socket_ok t l s s' : udp_ok t → arcs t !! l = Some s → local_port s' = local_port s →
  zlen (recv_queue (recv_buf s')) ≤ capacity (recv_buf s') → udp_ok (set_socket l s' t).
Proof.
  intros Hok Hl Hp Hroom. pose proof (set_socket_arcs l s' s t Hl) as Ha. constructor; try (unfold set_socket; rsimp; apply Hok).
  - intros h l' Hs. rewrite Ha. destruct (uo_handle t Hok h l' Hs) as [? ?]. split; [done|]. by case_decide.
  - intros h l' x [Hs Hx]. rewrite Ha in Hx. change (bound_ports (set_socket l s' t)) with (bound_ports t). change (sockets (set_socket l s' t)) with (sockets t) in Hs.
    case_decide; [subst l'; injection Hx as <-; rewrite Hp; by apply (uo_port t Hok h l s)|by apply (uo_port t Hok h l' x)].
  - intros l' x. rewrite Ha. case_decide; [by intros [= <-]|apply Hok].
Qed.

(** A socket takes a free port. *)
Lemma take_port_ok t h l s s' p : udp_ok t → open_at t (h mod U16) l s → p ≠ 0 → bound_ports t !! p = None →
  local_port s' = p → recv_buf s' = recv_buf s → udp_ok (register_port p h (set_socket l s' t)).
Proof.
  intros Hok [Hs Hl] Hp Hfree Hp' Hbuf. pose proof (set_socket_arcs l s' s t Hl) as Ha.
  change (arcs (set_socket l s' t)) with (arcs (register_port p h (set_socket l s' t))) in Ha.
  constructor; try (unfold register_port, set_socket; rsimp; apply Hok).
  - intros h' l' Hs'. rewrite Ha. destruct (uo_handle t Hok h' l' Hs'). split; [done|]. by case_decide.
  - intros h' l' x [Hs' Hx] Hx0. rewrite Ha in Hx. change (sockets (register_port p h (set_socket l s' t))) with (sockets t) in Hs'.
    unfold register_port, set_socket. rsimp. case_decide as E.
    + subst l'. injection Hx as <-. rewrite Hp', lookup_insert_eq. exists h. split; [done|]. by apply (uo_arc t Hok _ _ l).
    + destruct (uo_port t Hok h' l' x) as (y & Ey & Hy); [by split|done|]. exists y. rewrite lookup_insert_ne by congruence. done.
  - intros l' x. rewrite Ha. case_decide; [intros [= <-]; rewrite Hbuf; by apply (uo_room t Hok l)|apply Hok].
Qed.

Lemma alloc_from_spec n : ∀ t, udp_ok t →
  let '(r, t') := alloc_from n t in
  (∃ e, t' = t <| next_ephemeral := e |>) ∧ udp_ok t' ∧
  match r with Some p => 49152 ≤ p < U16 ∧ bound_ports t !! p = None | None => True end.
Proof.
  induction n as [|n IH]; intros t Hok; cbn [alloc_from].
  { split; [exists (next_ephemeral t); by destruct t|done]. }
  set (e := if (next_ephemeral t + 1) mod U16 <? 49152 then 49152 else (next_ephemeral t + 1) mod U16).
  pose proof (uo_ephemeral t Hok) as He. assert (Hok' : udp_ok (t <| next_ephemeral := e |>)).
  { destruct Hok. constructor; try done. rsimp. unfold e. destruct (Z.ltb_spec ((next_ephemeral t + 1) mod U16) 49152); mlia. }
  unfold port_in_use. rsimp. case_bool_decide as Hu.
  - specialize (IH _ Hok'). destruct (alloc_from n _) as [r t']. destruct IH as ([e' ->] & Hok'' & Hr).
    split; [by exists e'|]. split; [done|]. destruct r; [|done]. exact Hr.
  - split; [by eexists|]. split; [done|]. split; [lia|]. by apply eq_None_not_Some.
Qed.

Lemma next_handle_step h f : 1 ≤ h < f → f < U16 → next_handle h = h + 1.
Proof. intros. unfold next_handle. rewrite Z.mod_small by lia. by destruct (Z.eqb_spec (h + 1) 0); [lia|]. Qed.

Lemma unused_handle t n x h : 1 ≤ x < U16 → while_loop (λ handle, match sockets t !! handle with
    | Some _ => Ret (inl (next_handle handle)) | None => Ret (inr handle) end) n x = Ret h → 1 ≤ h < U16 ∧ sockets t !! h = None.
Proof.
  intros Hx E%while_loop_runs. revert Hx. induction E as [y r E|y y' r E _ IH]; intros Hy.
  - destruct (sockets t !! y) eqn:Es; [done|]. injection E as <-. done.
  - apply IH. destruct (sockets t !! y); [|done]. injection E as <-. unfold next_handle. destruct (Z.eqb_spec ((y + 1) mod U16) 0); mlia.
Qed.

(** Whenever a handle is found, the new socket is open under it. *)
Lemma insert_unbound_ok t s h t' : udp_ok t → local_port s = 0 → zlen (recv_queue (recv_buf s)) ≤ capacity (recv_buf s) →
  insert_unbound s t = Ret (h, t') → udp_ok t' ∧ open_at t' h (length (arcs t)) s.
Proof.
  intros Hok Hp Hroom. unfold insert_unbound. destruct (while_loop _ _ _) as [h'|] eqn:Eh; [|done]. rewrite ret_bind. intros [= <- <-].
  apply unused_handle in Eh as [Hh Hnone]; [|lia]. set (t' := t <| sockets := _ |> <| arcs := _ |>).
  assert (Hat : ∀ x l, sockets t' !! x = Some l → x = h' ∧ l = length (arcs t) ∧ arcs t' !! l = Some s ∨ x ≠ h' ∧ sockets t !! x = Some l ∧ arcs t' !! l = arcs t !! l).
  { intros x l. unfold t'. rsimp. destruct (decide (x = h')) as [->|Hne].
    - rewrite lookup_insert_eq. intros [= <-]. left. by rewrite lookup_app_r, Nat.sub_diag by lia.
    - rewrite lookup_insert_ne by done. intros Hl. right. destruct (uo_handle t Hok _ _ Hl) as [_ [y Hy]].
      by rewrite lookup_app_l by (by eapply lookup_lt_Some). }
  assert (Hold : ∀ x l, sockets t !! x = Some l → (l < length (arcs t))%nat).
  { intros x l Hl. destruct (uo_handle t Hok _ _ Hl) as [_ [y Hy]]. by eapply lookup_lt_Some. }
  split; [|split; [unfold t'; rsimp; by rewrite lookup_insert_eq|unfold t'; rsimp; by rewrite lookup_app_r, Nat.sub_diag by lia]].
  constructor; [| | |apply Hok|].
  - intros x l [(-> & _ & ->)|(_ & Hl & ->)]%Hat; [by split; [lia|]|by apply Hok].
  - intros x y l [(-> & -> & _)|(_ & Hx & _)]%Hat [(-> & Hy & _)|(_ & Hy & _)]%Hat; [done|apply Hold in Hy; lia|apply Hold in Hx; lia|].
    by apply (uo_arc t Hok x y l).
  - intros x l y [Hl Hy] Hy0. change (bound_ports t') with (bound_ports t). destruct (Hat x l Hl) as [(_ & _ & E)|(_ & Hl' & E)]; [congruence|].
    apply (uo_port t Hok x l); [split; congruence|done].
  - intros l x. unfold t'. rsimp. rewrite lookup_app. destruct (arcs t !! l) as [y|] eqn:E; [intros [= <-]; by apply (uo_room t Hok l)|].
    intros Hx. apply list_lookup_singleton_Some in Hx as [_ <-]. done.
Qed.

Lemma udp_bind_ok t h p : udp_ok t → udp_ok (socket_bind h p t).2.
Proof.
  intros Hok. unfold socket_bind. destruct (Z.eqb_spec p 0) as [->|Hp].
  - pose proof (alloc_from_spec (Z.to_nat (65535 - 49152)) t Hok) as Ha. unfold alloc_ephemeral.
    destruct (alloc_from _ t) as [[p|] t']; [|apply Ha]. destruct Ha as ([e ->] & Hok' & Hp & Hfree).
    destruct (get_socket h _) as [[l s]|] eqn:E; [|done]. apply get_socket_open in E. cbn [snd].
    eapply take_port_ok; try done. lia.
  - unfold port_in_use. case_bool_decide as Hu; [done|]. apply eq_None_not_Some in Hu.
    destruct (get_socket h t) as [[l s]|] eqn:E; [|done]. apply get_socket_open in E. cbn [snd].
    by eapply take_port_ok.
Qed.

Lemma udp_connect_ok t h a p : udp_ok t → udp_ok (socket_connect h a p t).2.
Proof.
  intros Hok. unfold socket_connect. destruct (get_socket h t) as [[l s]|] eqn:E; [|done]. apply get_socket_open in E.
  destruct (Z.eqb_spec (local_port s) 0) as [E0|].
  - pose proof (alloc_from_spec (Z.to_nat (65535 - 49152)) t Hok) as Ha. unfold alloc_ephemeral.
    destruct (alloc_from _ t) as [[q|] t']; [|apply Ha]. destruct Ha as ([e ->] & Hok' & Hq & Hfree). cbn [snd].
    exact (take_port_ok (t <| next_ephemeral := e |>) h l s (s <| local_port := q |> <| remote_addr := Some (a, p) |>) q Hok' E ltac:(lia) Hfree eq_refl eq_refl).
  - cbn [snd]. apply (set_socket_ok t l s); try done; [apply E|]. apply (uo_room t Hok l s), E.
Qed.

Lemma udp_close_ok t h : udp_ok t → udp_ok (socket_close h t).
Proof.
  intros Hok. unfold socket_close, get_port. destruct (get_socket h t) as [[l s]|] eqn:E.
  - pose proof E as Ho. apply get_socket_open in Ho. cbn.
    assert (Er : remove_socket h (unregister_port (local_port s) t) =
      (Some l, t <| bound_ports := delete (local_port s) (bound_ports t) |> <| sockets := delete (h mod U16) (sockets t) |>)).
    { unfold remove_socket. change (get_socket h (unregister_port (local_port s) t)) with (get_socket h t). rewrite E.
      f_equal. unfold unregister_port. destruct (Z.eqb_spec (local_port s) 0); [by destruct t|]. destruct t. rsimp. by rewrite delete_delete_eq. }
    rewrite Er. pose proof Ho as [Hs Hl]. rsimp. rewrite Hl.
    set (t1 := t <| bound_ports := _ |> <| sockets := _ |>). assert (Hok1 : udp_ok t1).
    { constructor; unfold open_at, t1; rsimp; try apply Hok.
      - intros h' l' [_ Hs']%lookup_delete_Some. by apply Hok.
      - intros h1 h2 l' [_ H1]%lookup_delete_Some [_ H2]%lookup_delete_Some. by apply (uo_arc t Hok h1 h2 l').
      - intros h' l' x [[Hne Hs']%lookup_delete_Some Hx] Hx0. destruct (uo_port t Hok h' l' x) as (y & Ey & Hy); [by split|done|].
        exists y. split; [|done]. apply lookup_delete_Some. split; [|done]. intros Eq. apply Hne.
        eapply (ports_exclusive t); [done|by split|by split|done|congruence]. }
    apply (set_socket_ok t1 l s); try done. by apply (uo_room t Hok l s).
  - cbn. unfold remove_socket. by rewrite E.
Qed.
End Invariant.

(** ** Histories *)

Section Histories.
Implicit Types (t : SocketTable) (s : UdpSocketState).
#[local] Opaque insert_unbound.

Definition queued (d : ReceivedDatagram) s : UdpSocketState := s <| recv_buf := (recv_push d (recv_buf s)).2 |>.

Lemma dispatch_ok t p src sport payload : udp_ok t → udp_ok (dispatch_to_socket p src sport payload t).
Proof.
  intros Hok. unfold dispatch_to_socket. destruct (find_by_port p t) as [l|]; [|done]. destruct (arcs t !! l) as [s|] eqn:Hl; [|done].
  apply (set_socket_ok t l s); [done|done|done|]. pose proof (uo_room t Hok l s Hl) as Hr. unfold recv_push.
  destruct (Z.leb_spec (capacity (recv_buf s)) (zlen (recv_queue (recv_buf s)))); cbn [snd]; rsimp; [exact Hr|].
  rewrite zlen_app, zlen_cons, zlen_nil. lia.
Qed.

(** A datagram for the port of an open socket. *)
Lemma dispatch_spec t src sport payload h l s : udp_ok t → open_at t h l s → local_port s ≠ 0 →
  let t' := dispatch_to_socket (local_port s) src sport payload t in
  open_at t' h l (queued (mkDatagram src sport payload) s) ∧ ∀ h' l' s', h' ≠ h → open_at t h' l' s' → open_at t' h' l' s'.
Proof.
  intros Hok Ho Hp. cbv zeta. unfold dispatch_to_socket. rewrite (find_by_port_spec t h l s Hok Ho Hp). destruct Ho as [Hs Hl]. rewrite Hl.
  unfold open_at. setoid_rewrite (set_socket_arcs l _ s t Hl). split; [split; [done|by rewrite decide_True]|].
  intros h' l' s' Hne [Hs' Hl']. split; [done|]. rewrite decide_False; [done|]. intros ->. by apply Hne, (uo_arc t Hok _ _ l).
Qed.

(** A reader only touches the queue of the [Arc] it holds. *)
Lemma recv_step_ok t l n : udp_ok t → udp_ok (recv_step l n t).2.
Proof.
  intros Hok. unfold recv_step. destruct (arcs t !! l) as [s|] eqn:El; [|done]. unfold try_pop.
  destruct (recv_queue (recv_buf s)) as [|d q] eqn:Eq; [done|]. cbn [snd].
  pose proof (uo_room t Hok l s El) as Hr. rewrite Eq, zlen_cons in Hr. apply (set_socket_ok t l s); try done. rsimp. lia.
Qed.

(** Calls of the driver's interface, in any order and on any handle, and
    arrivals.  A call that creates a socket must find a handle: with all in use
    it never returns. *)
Inductive udp_step : SocketTable → SocketTable → Prop :=
| step_create t t' h : socket_create t = Ret (h, t') → udp_step t t'
| step_bind t h p : udp_step t (socket_bind h p t).2
| step_connect t h a p : udp_step t (socket_connect h a p t).2
| step_close t h : udp_step t (socket_close h t)
| step_deliver t p a sp data : udp_step t (dispatch_to_socket p a sp data t)
| step_recv t l n : udp_step t (recv_step l n t).2.

Lemma udp_step_ok t t' : udp_step t t' → udp_ok t → udp_ok t'.
Proof.
  destruct 1 as [t t' h E|t h p|t h a p|t h|t p a sp d|t l n]; intros Hok.
  - by eapply insert_unbound_ok in E as [? _].
  - by apply udp_bind_ok.
  - by apply udp_connect_ok.
  - by apply udp_close_ok.
  - by apply dispatch_ok.
  - by apply recv_step_ok.
Qed.

Lemma udp_reachable_ok t : rtc udp_step table_new t → udp_ok t.
Proof. intros Hr. pose proof udp_new_ok as Hok. induction Hr; eauto using udp_step_ok. Qed.

(** C14: After any sequence of socket calls and arrivals: no two open sockets
    share a port, and a datagram that arrives for the port of an open socket is
    appended, if there is room, to the queue of that socket and changes no other
    open socket.  (For a port that no open socket holds see
    [rebound_port_outlives_socket].) *)
Theorem udp_delivers_to_port_owner t p src sport payload : rtc udp_step table_new t → p ≠ 0 →
  (∀ h h' l l' s s', open_at t h l s → open_at t h' l' s' → local_port s = p → local_port s' = p → h = h') ∧
  ∀ h l s, open_at t h l s → local_port s = p →
    let t' := dispatch_to_socket p src sport payload t in
    open_at t' h l
      (if zlen (recv_queue (recv_buf s)) <? capacity (recv_buf s)
       then s <| recv_buf; recv_queue := recv_queue (recv_buf s) ++ [mkDatagram src sport payload] |>
              <| recv_buf; wake := event_notify (wake (recv_buf s)) |>
       else s) ∧
    ∀ h' l' s', h' ≠ h → open_at t h' l' s' → open_at t' h' l' s'.
Proof.
  intros Hr Hp. pose proof (udp_reachable_ok t Hr) as Hok. split.
  - intros h h' l l' s s' Ho Ho' E E'. apply (ports_exclusive t h h' l l' s s'); congruence || done.
  - intros h l s Ho <-. destruct (dispatch_spec t src sport payload h l s Hok Ho Hp) as [Hd Ht]. split; [|exact Ht].
    unfold queued, recv_push in Hd. rewrite Z.leb_antisym in Hd.
    destruct (zlen (recv_queue (recv_buf s)) <? capacity (recv_buf s)); cbn [negb snd] in Hd; [exact Hd|].
    destruct s as [? ? []]. exact Hd.
Qed.

(** Two sockets on ports 68 and 53. *)
Definition created (t : SocketTable) : SocketTable := match socket_create t with Ret (_, t) => t | _ => t end.
Definition one_socket : SocketTable := created table_new.
Definition one_bound : SocketTable := (socket_bind 1 68 one_socket).2.
Definition one_more : SocketTable := created one_bound.
Definition two_sockets : SocketTable := (socket_bind 2 53 one_more).2.

Lemma two_sockets_reachable : rtc udp_step table_new two_sockets.
Proof.
  apply rtc_l with one_socket; [|apply rtc_l with one_bound; [|apply rtc_l with one_more; [|apply rtc_once]]].
  - apply (step_create _ _ 1). vm_compute. reflexivity.
  - apply (step_bind one_socket 1 68).
  - apply (step_create _ _ 2). vm_compute. reflexivity.
  - apply (step_bind one_more 2 53).
Qed.

Lemma udp_delivers_to_port_owner_witness :
  ∃ s, open_at two_sockets 2 1%nat s ∧ open_at (dispatch_to_socket 53 (10, 0, 2, 3) 53 [7; 8] two_sockets) 2 1%nat
    (s <| recv_buf; recv_queue := recv_queue (recv_buf s) ++ [mkDatagram (10, 0, 2, 3) 53 [7; 8]] |>
       <| recv_buf; wake := event_notify (wake (recv_buf s)) |>).
Proof.
  destruct (udp_delivers_to_port_owner two_sockets 53 (10, 0, 2, 3) 53 [7; 8]) as [_ Hd].
  - apply two_sockets_reachable.
  - lia.
  - exists (mkSocketState 53 None (recv_new 4096)).
    assert (Ho : open_at two_sockets 2 1%nat (mkSocketState 53 None (recv_new 4096))) by (split; vm_compute; reflexivity).
    split; [exact Ho|]. exact (proj1 (Hd _ _ _ Ho eq_refl)).
Defined.

(** A socket that is bound twice keeps its first port in the index when it is
    closed: a datagram for that port then reaches a socket that was created
    later, reuses the handle, and never bound any port. *)
Theorem rebound_port_outlives_socket :
  let t := created (socket_close 1 (socket_bind 1 6000 (socket_bind 1 5000 (created table_new)).2).2) in
  ∃ s s', open_at t 1 1%nat s ∧ local_port s = 0 ∧
    open_at (dispatch_to_socket 5000 (10, 0, 2, 3) 53 [7; 8] t) 1 1%nat s' ∧ recv_queue (recv_buf s') = [mkDatagram (10, 0, 2, 3) 53 [7; 8]].
Proof.
  intros t. exists (mkSocketState 0 None (recv_new 4096)), (queued (mkDatagram (10, 0, 2, 3) 53 [7; 8]) (mkSocketState 0 None (recv_new 4096))).
  split; [split; vm_compute; reflexivity|]. split; [reflexivity|]. split; [split; vm_compute; reflexivity|]. reflexivity.
Qed.
End Histories.
