(* ===== verification/NetHost.v ===== *)
(** * The network stack of a host

    Ethernet, ARP, IPv4, ICMP and UDP of [kernel/src/driver/net/proto], and
    the receive worker of [rx_process_thread.rs], over one state: interfaces,
    routes, the ARP cache and its waiters, the UDP sockets, the frames given
    to the cards and what is handed up to TCP.

    A thread that blocks in [OneshotGate::wait] leaves the processor to the
    receive worker: [wait] is a parameter of the handlers, which is what the
    worker does in the meantime for an application thread, and a deadlock for
    the worker itself. *)

From S2P Require Import Prelude Bits Time TcpTypes TcpChecksum NetWorld NetTables NetHdr UdpSockets.

Abbreviation ArpKey := (Z * Ipv4Addr)%type.

(** What [TcpDriver::process_data] is called with. *)
Record tcp_packet := mkTcpIn {
  in_sender : Ipv4Addr;
  in_target : Ipv4Addr;
  in_bytes : list Z;
  in_nic : Z;
  in_ecn : Z
}.

(** [readings_of n] is the n-th reading of the clock; [incoming] are the frames the
    cards have yet to deliver. *)
Record Host := mkHost {
  ifs : NetworkInterfaceTable;
  routes : list (RouteEntry NextHop);
  arp_cache : list (CacheEntry ArpKey MacAddress);
  wait_queue : gmap ArpKey nat;
  gates : list OneshotGate;
  udp : SocketTable;
  tcp_in : list tcp_packet;
  tcp_aborts : list (Tuple.ConnectionTuple * TcpError);
  sent : list (Z * list Z);
  readings_of : nat → Instant;
  ticks : nat;
  irqs_enabled : bool;
  incoming : list (Z * list Z)
}.
#[global] Instance eta_Host : Eta Host := λ r,
  mkHost (ifs r) (routes r) (arp_cache r) (wait_queue r) (gates r) (udp r) (tcp_in r) (tcp_aborts r) (sent r)
    (readings_of r) (ticks r) (irqs_enabled r) (incoming r).

(** ** The monad *)

Definition HM (A : Type) : Type := Host → res (A * Host).
#[global] Instance HM_ret : MRet HM := λ A a h, Ret (a, h).
#[global] Instance HM_bind : MBind HM := λ A B f m h, match m h with Ret (a, h) => f a h | Crash e => Crash e end.

Definition hlift {A} (r : res A) : HM A := λ h, match r with Ret a => Ret (a, h) | Crash e => Crash e end.
Definition hget {A} (f : Host → A) : HM A := λ h, Ret (f h, h).
Definition hset (f : Host → Host) : HM unit := λ h, Ret (tt, f h).
Definition hnow : HM Instant := λ h, Ret (readings_of h (ticks h), h <| ticks := S (ticks h) |>).

(** [Option::unwrap]. *)
Definition unwrap {A} (o : option A) : res A := match o with Some a => Ret a | None => Crash Panic end.

Definition interface (nic : Z) : HM (option NetworkInterface) := t ← hget ifs; hlift (get_interface nic t).

(** ** The ARP cache *)

Definition ARP_RESOLVE_TIMEOUT : Duration := secs 3.
Definition ARP_TTL : Duration := secs 30.

Definition arp_lookup (key : ArpKey) : HM (option MacAddress) :=
  now ← hnow; h ← hget id;
  let '(r, c) := cache_lookup now key (arp_cache h) in
  hset (λ h, h <| arp_cache := c |>);; mret r.

Definition arp_insert (key : ArpKey) (mac : MacAddress) : HM unit :=
  now ← hnow; h ← hget id;
  c ← hlift (insert_with_ttl now key mac ARP_TTL (arp_cache h));
  hset (λ h, h <| arp_cache := c |>).

Definition arp_entries : list (CacheEntry ArpKey MacAddress) := cache_new 128 (0, unspecified) (zeros 6).

Definition learn_from_ip_rx (nic : Z) (ip : Ipv4Addr) (mac : MacAddress) : HM unit :=
  if decide (ip = unspecified ∨ ip = broadcast) then mret tt else
  arp_insert (nic, ip) mac;;
  r ← hget routes;
  hop ← hlift (resolve_next_hop ip r);
  match hop with
  | Some next_hop =>
      if decide (next_hop ≠ ip ∧ next_hop ≠ unspecified ∧ next_hop ≠ broadcast) then arp_insert (nic, next_hop) mac
      else mret tt
  | None => mret tt
  end.

(** ** Ethernet *)

Definition send_frame (source destination : MacAddress) (protocol : Ether.EtherType) (buffer : Pkt.PacketBuffer) (nic : Z) : HM unit :=
  buffer ← hlift (Pkt.prepend_bytes (Eth.as_bytes (Eth.mk destination source (Ether.code protocol))) buffer);
  frame ← hlift (Pkt.frame buffer);
  i ← interface nic;
  match i with
  | Some i => if NetTables.nic i then hset (λ h, h <| sent := sent h ++ [(nic, frame)] |>) else mret tt
  | None => mret tt
  end.

Definition identify_protocol (buffer : Pkt.PacketBuffer) (h : Eth.EthernetFrameHeader) : res (option Ether.EtherType) :=
  match Ether.try_from (Eth.ether_type h) with
  | Some et => Ret (Some et)
  | None =>
      payload ← Pkt.payload buffer;
      if zlen payload <? 3 then Ret None else
      dsap ← index payload 0;
      ssap ← index payload 1;
      control ← index payload 2;
      if (dsap =? 170) && (ssap =? 170) && (control =? 3) && (8 <=? zlen payload) then
        a ← index payload 6;
        b ← index payload 7;
        Ret (Ether.try_from (from_be16 a b))
      else if (dsap =? 66) && (ssap =? 66) && (control =? 3) then Ret (Some Ether.Stp) else Ret None
  end.

(** A buffer of the stack: [[0u8; DEFAULT_HEADER_RESERVE + n]]. *)
Definition transmit_buffer (n : Z) : res Pkt.PacketBuffer :=
  Pkt.for_transmit (zeros (Pkt.DEFAULT_HEADER_RESERVE + n)) Pkt.DEFAULT_HEADER_RESERVE.

(** ** ARP requests *)

Definition arp_packet (op : Arp.ArpOperation) (i : NetworkInterface) (target_mac : MacAddress) (target_ip : Ipv4Addr) : Arp.ArpFrameHeader :=
  Arp.mk 1 2048 6 4 (Arp.op_code op) (local_mac_address i) (default unspecified (local_internet_address i)) target_mac target_ip.

(** [entry(key).or_insert_with(..).clone()]. *)
Definition gate_for (key : ArpKey) : HM nat := λ h,
  match wait_queue h !! key with
  | Some g => Ret (g, h)
  | None =>
      let g := length (gates h) in
      Ret (g, h <| wait_queue := <[key := g]> (wait_queue h) |> <| gates := gates h ++ [gate_new] |>)
  end.

Definition gate_is_open (g : nat) (h : Host) : bool := match gates h !! g with Some x => gate_flag x | None => false end.

Section Stack.
Variable wait : nat → HM unit.

(** One round of the loop that waits for a reply. *)
Definition arp_round (key : ArpKey) (g : nat) (deadline : Instant) (h : Host) : res (Host + unit * Host) :=
  '(now, h) ← hnow h;
  if deadline <=? now then Ret (inr (tt, h)) else
  '(r, h) ← arp_lookup key h;
  if bool_decide (is_Some r) || gate_is_open g h then Ret (inr (tt, h)) else
  '(_, h) ← wait g h; Ret (inl h).

(** Once [wait] has returned the gate is open, so the loop ends in its second
    round at the latest. *)
Definition send_arp_request (target_ip : Ipv4Addr) (nic_id : Z) : HM unit :=
  let key := (nic_id, target_ip) in
  g ← gate_for key;
  i ← interface nic_id;
  i ← hlift (unwrap i);
  buffer ← hlift (transmit_buffer 64);
  buffer ← hlift (Pkt.prepend_bytes (Arp.as_bytes (arp_packet Arp.Request i (zeros 6) target_ip)) buffer);
  send_frame (local_mac_address i) mac_broadcast Ether.Arp buffer (interface_id i);;
  now ← hnow;
  (λ h, while_loop (arp_round key g (instant_add now ARP_RESOLVE_TIMEOUT)) 3 h);;
  hset (λ h, h <| wait_queue := delete key (wait_queue h) |>).

Definition get_mac_address (ip : Ipv4Addr) (nic : Z) : HM (option MacAddress) :=
  r ← arp_lookup (nic, ip);
  match r with
  | Some mac => mret (Some mac)
  | None =>
      enabled ← hget irqs_enabled;
      if (enabled : bool) then
        send_arp_request ip nic;;
        arp_lookup (nic, ip)
      else mret None
  end.

Definition send_arp_reply (header : Arp.ArpFrameHeader) (nic : Z) : HM unit :=
  i ← interface nic;
  i ← hlift (unwrap i);
  buffer ← hlift (transmit_buffer 64);
  buffer ← hlift (Pkt.prepend_bytes (Arp.as_bytes (arp_packet Arp.Reply i (Arp.sender_mac header) (Arp.sender_ip header))) buffer);
  send_frame (local_mac_address i) (Arp.sender_mac header) Ether.Arp buffer (interface_id i).

(** [wait_queue.remove(&key)] and [gate.open()]. *)
Definition open_waiters (key : ArpKey) (h : Host) : Host :=
  match wait_queue h !! key with
  | Some g => h <| wait_queue := delete key (wait_queue h) |> <| gates := alter gate_open g (gates h) |>
  | None => h
  end.

(** [false] is [Err(())]. *)
Definition arp_process_data (buffer : Pkt.PacketBuffer) (nic : Z) : HM bool :=
  '(header, _) ← hlift (consume_header Arp.size Arp.read buffer);
  op ← hlift (Arp.op_from (Arp.operation header));
  match op with
  | Arp.Request =>
      arp_insert (nic, Arp.sender_ip header) (Arp.sender_mac header);;
      i ← interface nic;
      match i with
      | None => mret false
      | Some i =>
          (if decide (local_internet_address i = Some (Arp.target_ip header)) then send_arp_reply header nic else mret tt);;
          mret true
      end
  | Arp.Reply =>
      let key := (nic, Arp.sender_ip header) in
      arp_insert key (Arp.sender_mac header);;
      hset (open_waiters key);;
      mret true
  | _ => mret true
  end.

(** ** IPv4 *)

Definition ip_header (protocol : IpProtocol) (total_length tos : Z) (source target : Ipv4Addr) : Ip.Ipv4PacketHeader :=
  Ip.mk (Z.lor (Z.shiftl 4 4) (Ip.size / 4)) tos (total_length mod U16) 0 0 64 (protocol_code protocol) 0 source target.

Definition send_packet (protocol : IpProtocol) (buffer : Pkt.PacketBuffer) (destination : Ipv4Addr) (nic tos : Z)
  : HM (bool * Pkt.PacketBuffer) :=
  payload ← hlift (Pkt.payload buffer);
  i ← interface nic;
  match i with
  | None => mret (false, buffer)
  | Some i =>
      let header := ip_header protocol (Ip.size + zlen payload) tos (default unspecified (local_internet_address i)) destination in
      c ← hlift (calculate_header_checksum header);
      buffer ← hlift (Pkt.prepend_bytes (Ip.as_bytes (header <| Ip.checksum := c |>)) buffer);
      dest_mac ←
        (if decide (destination = broadcast) then mret (Some mac_broadcast) else
         r ← hget routes;
         hop ← hlift (resolve_next_hop destination r);
         match hop with
         | None => mret None
         | Some next_hop => get_mac_address next_hop (interface_id i)
         end);
      match dest_mac with
      | None => mret (false, buffer)
      | Some mac => send_frame (local_mac_address i) mac Ether.Ipv4 buffer (interface_id i);; mret (true, buffer)
      end
  end.

(** ** ICMP *)

Definition send_echo_reply (request : Ping.IcmpPacketHeader) (payload : list Z) (sender_ip : Ipv4Addr) (nic : Z) : HM unit :=
  buffer ← hlift (transmit_buffer Pkt.SLOT_SIZE);
  let reply := request <| Ping.message_byte := 0 |> <| Ping.checksum := 0 |> in
  buffer ← hlift (Pkt.append_data (Ping.as_bytes reply) buffer);
  buffer ← hlift (Pkt.append_data payload buffer);
  bs ← hlift (Pkt.payload buffer);
  c ← hlift (calculate_icmp_checksum bs);
  s ← hlift (store_slice (Pkt.storage buffer) (Pkt.payload_start buffer + 2) (be16 c));
  send_packet Icmp (buffer <| Pkt.storage := s |>) sender_ip nic 0;;
  mret tt.

(** The connection an error message quotes. *)
Definition parse_quoted_tcp_tuple (payload : list Z) : res (option Tuple.ConnectionTuple) :=
  match Ip.read payload with
  | None => Ret None
  | Some h =>
      let ihl := Ip.header_length h in
      if (zlen payload <? ihl + 4) || negb (Ip.protocol_byte h =? protocol_code Tcp) then Ret None else
      tcp ← slice payload ihl (zlen payload);
      a ← index tcp 0; b ← index tcp 1; c ← index tcp 2; d ← index tcp 3;
      Ret (Some (Tuple.mkTuple (Ip.source_ip h) (from_be16 a b) (Ip.target_ip h) (from_be16 c d)))
  end.

Definition handle_destination_unreachable (header : Ping.IcmpPacketHeader) (payload : list Z) : HM unit :=
  match Ping.from_u8 (Ping.code header) with
  | None => mret tt
  | Some code =>
      tuple ← hlift (parse_quoted_tcp_tuple payload);
      match tuple with
      | None => mret tt
      | Some tuple => hset (λ h, h <| tcp_aborts := tcp_aborts h ++ [(tuple, Ping.to_tcp_error code)] |>)
      end
  end.

Definition icmp_process_data (buffer : Pkt.PacketBuffer) (sender_ip : Ipv4Addr) (nic : Z) : HM bool :=
  '(header, buffer) ← hlift (consume_header Ping.size Ping.read buffer);
  match Ping.message_type header with
  | Some Ping.EchoRequest => payload ← hlift (Pkt.payload buffer); send_echo_reply header payload sender_ip nic;; mret true
  | Some Ping.DestinationUnreachable => payload ← hlift (Pkt.payload buffer); handle_destination_unreachable header payload;; mret true
  | _ => mret true
  end.

(** ** UDP *)

Definition udp_send (src_port dst_port : Z) (dst : Ipv4Addr) (data : list Z) (nic : Z) : HM unit :=
  buffer ← hlift (transmit_buffer Pkt.SLOT_SIZE);
  len ← hlift (add_chk U16 (zlen data mod U16) 8);
  let header := Dgram.mk src_port dst_port len 0 in
  buffer ← hlift (Pkt.append_data data buffer);
  buffer ← hlift (Pkt.prepend_bytes (Dgram.as_bytes header) buffer);
  i ← interface nic;
  let src_ip := default unspecified (i ≫= local_internet_address) in
  bs ← hlift (Pkt.payload buffer);
  c ← hlift (calculate_udp_checksum src_ip dst Udp len bs);
  s ← hlift (store_slice (Pkt.storage buffer) (Pkt.payload_start buffer + 6) (be16 c));
  send_packet Udp (buffer <| Pkt.storage := s |>) dst nic 0;;
  mret tt.

Definition send_datagram (s : Sock.Socket) (data : list Z) : HM unit :=
  udp_send (Sock.local_port s) (Sock.remote_port s) (Sock.remote_address s) data (Sock.nic s).

Definition do_send (local_port : Z) (remote_addr : Ipv4Addr) (remote_port : Z) (data : list Z) : HM Z :=
  udp_send local_port remote_port remote_addr data 0;; mret (zlen data).

(** [None] is [Err(())]. *)
Definition socket_send (handle : Z) (data : list Z) : HM (option Z) :=
  t ← hget udp;
  match get_socket handle t with
  | Some (_, s) =>
      match remote_addr s with
      | Some (addr, port) => n ← do_send (local_port s) addr port data; mret (Some n)
      | None => mret None
      end
  | None => mret None
  end.

Definition socket_send_to (handle : Z) (data : list Z) (addr : Ipv4Addr) (port : Z) : HM (option Z) :=
  t ← hget udp;
  match get_port handle t with
  | Some p => if p =? 0 then mret None else n ← do_send p addr port data; mret (Some n)
  | None => mret None
  end.

Definition udp_process_data (sender_ip : Ipv4Addr) (buffer : Pkt.PacketBuffer) : HM bool :=
  '(header, buffer) ← hlift (consume_header Dgram.size Dgram.read buffer);
  payload ← hlift (Pkt.payload buffer);
  hset (λ h, h <| udp := dispatch_to_socket (Dgram.destination_port header) sender_ip (Dgram.source_port header) payload (udp h) |>);;
  mret true.

(** ** Dispatch *)

Definition ip_process_data (buffer : Pkt.PacketBuffer) (nic : Z) : HM bool :=
  '(header, buffer) ← hlift (consume_header Ip.size Ip.read buffer);
  if negb (Z.shiftr (Ip.version_ihl header) 4 =? 4) then mret false else
  if negb (Z.land (Ip.flags_fragment_offset header) 8191 =? 0) then mret false else
  let buffer := Pkt.trim_payload (sat_sub (Ip.total_length header) (Ip.header_length header)) buffer in
  match Ip.protocol header with
  | Some Udp => udp_process_data (Ip.source_ip header) buffer;; mret true
  | Some Icmp => icmp_process_data buffer (Ip.source_ip header) nic;; mret true
  | Some Tcp =>
      bs ← hlift (Pkt.frame buffer);
      hset (λ h, h <| tcp_in := tcp_in h ++ [mkTcpIn (Ip.source_ip header) (Ip.target_ip header) bs nic (Z.land (Ip.tos header) 3)] |>);;
      mret true
  | _ => mret true
  end.

Definition eth_process_data (buffer : Pkt.PacketBuffer) (nic : Z) : HM bool :=
  '(header, buffer) ← hlift (consume_header Eth.size Eth.read buffer);
  et ← hlift (identify_protocol buffer header);
  match et with
  | Some Ether.Ipv4 =>
      payload ← hlift (Pkt.payload buffer);
      match Ip.read payload with
      | Some ip => learn_from_ip_rx nic (Ip.source_ip ip) (Eth.source_mac header)
      | None => mret tt
      end;;
      ip_process_data buffer nic;;
      mret true
  | Some Ether.Arp => arp_process_data buffer nic;; mret true
  | _ => mret true
  end.
End Stack.

(** ** The receive worker *)

(** [enqueue_frame] and the worker's round: the slot the frame is copied to. *)
Definition rx_slot (frame : list Z) : Pkt.PacketBuffer :=
  Pkt.from_received_slot (zeros Pkt.DEFAULT_HEADER_RESERVE ++ frame ++ zeros (Pkt.SLOT_SIZE - zlen frame)) Pkt.DEFAULT_HEADER_RESERVE (zlen frame).

(** Nobody else processes frames, so a gate that is closed stays closed. *)
Definition rx_wait (g : nat) : HM unit := λ h, if gate_is_open g h then Ret (tt, h) else Crash Deadlock.

Definition rx_frame (nic : Z) (frame : list Z) : HM unit :=
  if (zlen frame =? 0) || (Pkt.SLOT_SIZE <? zlen frame) then mret tt else
  eth_process_data rx_wait (rx_slot frame) nic;; mret tt.

(** While an application thread waits, the worker handles what arrives. *)
Fixpoint drain_until_open (g : nat) (frames : list (Z * list Z)) (h : Host) : res (unit * Host) :=
  if gate_is_open g h then Ret (tt, h <| incoming := frames |>) else
  match frames with
  | [] => Crash Deadlock
  | (nic, frame) :: frames => '(_, h) ← rx_frame nic frame h; drain_until_open g frames h
  end.
Definition app_wait (g : nat) : HM unit := λ h, drain_until_open g (incoming h) h.

(** [socket_recv_from] on an application thread, on the [Arc] it cloned. *)
Fixpoint recv_until (l : nat) (buf_len : Z) (frames : list (Z * list Z)) (h : Host) : res (option (list Z * Ipv4Addr * Z) * Host) :=
  match recv_step l buf_len (udp h) with
  | (Received data src port, t) => Ret (Some (data, src, port), h <| udp := t |> <| incoming := frames |>)
  | (Closed, _) => Ret (None, h <| incoming := frames |>)
  | (Blocks, _) =>
      match frames with
      | [] => Crash Deadlock
      | (nic, frame) :: frames => '(_, h) ← rx_frame nic frame h; recv_until l buf_len frames h
      end
  end.
Definition socket_recv_from (handle buf_len : Z) : HM (option (list Z * Ipv4Addr * Z)) := λ h,
  match get_arc handle (udp h) with
  | Some l => recv_until l buf_len (incoming h) h
  | None => Ret (None, h)
  end.
