(* ===== verification/NetDeliver.v ===== *)
(** * What one host sends, another receives

    Frames built by the stack of [NetHost] and taken apart by it: an ARP
    exchange, an echo, and a datagram from the sender's call to the receiver's
    read. *)

From S2P Require Import Prelude Bits Time TcpTypes TcpChecksum NetWorld NetTables NetHdr UdpSockets NetHost.

(** ** Running the monad *)

Lemma hbind_run {A B} (m : HM A) (f : A → HM B) h a h' : m h = Ret (a, h') → (m ≫= f) h = f a h'.
Proof. intros E. unfold mbind, HM_bind. by rewrite E. Qed.

Lemma hbind_lift {A B} (r : res A) (f : A → HM B) h a : r = Ret a → (hlift r ≫= f) h = f a h.
Proof. intros ->. done. Qed.

Lemma hbind_crash {A B} (m : HM A) (f : A → HM B) h e : m h = Crash e → (m ≫= f) h = Crash e.
Proof. intros E. unfold mbind, HM_bind. by rewrite E. Qed.

Lemma hbind_get {A B} (g : Host → A) (f : A → HM B) h : (hget g ≫= f) h = f (g h) h.
Proof. done. Qed.

Lemma hbind_set {B} (g : Host → Host) (f : unit → HM B) h : (hset g ≫= f) h = f tt (g h).
Proof. done. Qed.

(** ** Sending *)

Section Sending.
Implicit Types (h : Host) (i : NetworkInterface).

(** The interface [nic] has a card, and its addresses are well formed. *)
Record attached h (nic : Z) i : Prop := {
  at_get : get_interface nic (ifs h) = Ret (Some i);
  at_card : NetTables.nic i = true;
  at_id : interface_id i = nic;
  at_mac : mac_ok (local_mac_address i);
  at_ip : ∀ ip, local_internet_address i = Some ip → ip_ok ip
}.

Definition put_frame (nic : Z) (f : list Z) h : Host := h <| sent := sent h ++ [(nic, f)] |>.

Lemma interface_run h nic i : attached h nic i → interface nic h = Ret (Some i, h).
Proof. intros [Hg _ _ _ _]. unfold interface. rewrite hbind_get. unfold hlift. by rewrite Hg. Qed.

Lemma ether_code_u16 t : u16 (Ether.code t).
Proof. destruct t; ints; cbn; lia. Qed.

Definition eth_header (src dst : MacAddress) (t : Ether.EtherType) : Eth.EthernetFrameHeader := Eth.mk dst src (Ether.code t).

Lemma eth_header_ok src dst t : mac_ok src → mac_ok dst → eth_ok (eth_header src dst t).
Proof. intros. constructor; [done|done|apply ether_code_u16]. Qed.

Lemma send_frame_spec h nic i src dst t p : attached h nic i → mac_ok src → mac_ok dst → Pkt.wf p →
  Pkt.buffer_start p + Eth.size ≤ Pkt.payload_start p →
  send_frame src dst t p nic h = Ret (tt, put_frame nic (Eth.as_bytes (eth_header src dst t) ++ Pkt.contents p) h).
Proof.
  intros Ha Hs Hd Hw Hroom. pose proof (zlen_eth _ (eth_header_ok src dst t Hs Hd)) as Hz. unfold send_frame.
  destruct (Pkt.prepend_bytes_spec (Eth.as_bytes (eth_header src dst t)) p Hw) as (p' & Ep & Hw' & Hc & _); [lia|].
  fold (eth_header src dst t). rewrite (hbind_lift _ _ _ _ Ep). unfold Pkt.frame. rewrite (hbind_lift _ _ _ _ (Pkt.payload_ret p' Hw')).
  rewrite (hbind_run _ _ _ _ _ (interface_run h nic i Ha)), (at_card _ _ _ Ha), Hc. done.
Qed.

(** The header of a packet, with its checksum. *)
Definition ip_sum (hd : Ip.Ipv4PacketHeader) : Ip.Ipv4PacketHeader := hd <| Ip.checksum := inet_checksum (Ip.as_bytes hd) |>.

Lemma ip_header_ok proto len tos src dst : u8 tos → ip_ok src → ip_ok dst → iph_ok (ip_header proto len tos src dst).
Proof.
  intros. constructor; cbn; try done; ints; try lia.
  - mlia.
  - destruct proto; cbn; lia.
Qed.

Lemma ip_sum_ok hd : iph_ok hd → iph_ok (ip_sum hd).
Proof. intros []. constructor; unfold ip_sum; rsimp; try done. apply inet_checksum_u16. Qed.

Definition local_ip i : Ipv4Addr := default unspecified (local_internet_address i).

Lemma local_ip_ok h nic i : attached h nic i → ip_ok (local_ip i).
Proof.
  intros Ha. unfold local_ip. destruct (local_internet_address i) as [ip|] eqn:E; cbn; [by eapply at_ip|].
  unfold ip_ok, octets, unspecified, bytes. repeat apply Forall_cons_2; [ints; lia..|apply Forall_nil_2].
Qed.

(** The packet that carries [payload]. *)
Definition ip_packet (proto : IpProtocol) i (dst : Ipv4Addr) (tos : Z) (payload : list Z) : list Z :=
  Ip.as_bytes (ip_sum (ip_header proto (Ip.size + zlen payload) tos (local_ip i) dst)) ++ payload.

(** Finding the address to send to: [broadcast], or the next hop's through ARP. *)
Definition resolves (wait : nat → HM unit) h (nic : Z) (dst : Ipv4Addr) (mac : MacAddress) (h' : Host) : Prop :=
  (dst = broadcast ∧ mac = mac_broadcast ∧ h' = h) ∨
  (dst ≠ broadcast ∧ ∃ hop, resolve_next_hop dst (routes h) = Ret (Some hop) ∧ get_mac_address wait hop nic h = Ret (Some mac, h')).

Lemma send_packet_spec wait h h' nic i proto p dst tos mac : attached h nic i → attached h' nic i → resolves wait h nic dst mac h' →
  mac_ok mac → ip_ok dst → u8 tos → Pkt.wf p → Pkt.buffer_start p + Eth.size + Ip.size ≤ Pkt.payload_start p →
  returns (send_packet wait proto p dst nic tos h) (λ '((r, _), h''), r = true ∧
    h'' = put_frame nic (Eth.as_bytes (eth_header (local_mac_address i) mac Ether.Ipv4) ++ ip_packet proto i dst tos (Pkt.contents p)) h').
Proof.
  intros Ha Ha' Hres Hmac Hdst Htos Hw Hroom. unfold send_packet.
  rewrite (hbind_lift _ _ _ _ (Pkt.payload_ret p Hw)), (hbind_run _ _ _ _ _ (interface_run h nic i Ha)).
  cbv beta iota zeta. fold (local_ip i). set (hd := ip_header _ _ _ _ _).
  assert (Hok : iph_ok hd) by (apply ip_header_ok; [done|by eapply local_ip_ok|done]).
  rewrite (hbind_lift _ _ _ _ (ip_checksum_spec hd Hok)). fold (ip_sum hd).
  destruct (Pkt.prepend_bytes_spec (Ip.as_bytes (ip_sum hd)) p Hw) as (p' & Ep & Hw' & Hc & Hb & Hst & _); [rewrite zlen_ip; unfold Eth.size in *; lia|].
  rewrite (hbind_lift _ _ _ _ Ep), (at_id _ _ _ Ha).
  assert (Hm : ∀ f : option MacAddress → HM (bool * Pkt.PacketBuffer), ((if decide (dst = broadcast) then mret (Some mac_broadcast)
      else r ← hget routes; hop ← hlift (resolve_next_hop dst r);
           match hop with Some next_hop => get_mac_address wait next_hop nic | None => mret None end) ≫= f) h = f (Some mac) h').
  { intros f. apply hbind_run. destruct Hres as [(-> & -> & ->)|(Hne & hop & Hr & Hg)]; [by rewrite decide_True|].
    rewrite decide_False by done. rewrite hbind_get, (hbind_lift _ _ _ _ Hr). exact Hg. }
  rewrite Hm. rewrite (hbind_run _ _ _ _ _ (send_frame_spec h' nic i _ mac Ether.Ipv4 p' Ha' (at_mac _ _ _ Ha) Hmac Hw' ltac:(rewrite Hb, Hst, zlen_ip; lia))).
  apply returns_ret. split; [done|]. by rewrite Hc.
Qed.

Lemma transmit_buffer_spec n : 0 ≤ n → returns (transmit_buffer n) (λ p, Pkt.wf p ∧ Pkt.contents p = [] ∧ Pkt.buffer_start p = 0 ∧
  Pkt.payload_start p = 96 ∧ Pkt.payload_end p = 96 ∧ Pkt.buffer_end p = 96 + n).
Proof.
  intros Hn. unfold transmit_buffer, Pkt.DEFAULT_HEADER_RESERVE.
  assert (Hz : zlen (zeros (96 + n)) = 96 + n) by (unfold zeros, zlen; rewrite length_replicate; lia).
  eapply returns_mono; [apply Pkt.for_transmit_spec; lia|]. cbv beta. intros p. by rewrite Hz.
Qed.

(** Overwriting bytes of the payload in place. *)
Lemma patch_payload p a old new b k : Pkt.wf p → Pkt.contents p = a ++ old ++ b → zlen a = k → zlen new = zlen old →
  returns (store_slice (Pkt.storage p) (Pkt.payload_start p + k) new) (λ s,
    Pkt.wf (p <| Pkt.storage := s |>) ∧ Pkt.contents (p <| Pkt.storage := s |>) = a ++ new ++ b).
Proof.
  intros Hw Hc Hk Hn. pose proof (Pkt.zlen_contents p Hw) as Hz. rewrite Hc, !zlen_app in Hz.
  pose proof (zlen_nonneg a). pose proof (zlen_nonneg b). pose proof (zlen_nonneg old). pose proof Hw as [? ? ?].
  rewrite store_slice_ret by lia. apply returns_ret. set (s := splice _ _ _).
  assert (Hs : zlen s = zlen (Pkt.storage p)) by (apply zlen_splice; lia).
  assert (Hw' : Pkt.wf (p <| Pkt.storage := s |>)) by (constructor; rsimp; lia). split; [done|].
  apply byte_list_eq; rewrite Pkt.zlen_contents by done; rsimp; [rewrite !zlen_app; lia|].
  intros j Hj. rewrite Pkt.byte_at_contents by (done || (rsimp; lia)). rsimp. unfold s. rewrite byte_at_splice by lia.
  pose proof (Pkt.byte_at_contents p j Hw ltac:(lia)) as Hb. rewrite Hc in Hb.
  rewrite !byte_at_app in * by lia. destruct (Z.ltb_spec j (zlen a)).
  - destruct (Z.leb_spec (Pkt.payload_start p + k) (Pkt.payload_start p + j)); [lia|]. done.
  - rewrite !byte_at_app in * by lia. rewrite Hn. destruct (Z.leb_spec (Pkt.payload_start p + k) (Pkt.payload_start p + j)); [|lia].
    destruct (Z.ltb_spec (j - zlen a) (zlen old)), (Z.ltb_spec (Pkt.payload_start p + j) (Pkt.payload_start p + k + zlen old)); try lia; cbn [andb].
    + f_equal. lia.
    + done.
Qed.

(** The datagram that carries [data], with its checksum. *)
Definition udp_sum (src dst : Ipv4Addr) (sport dport : Z) (data : list Z) : Z :=
  let c := 65535 - ones_norm (word_sum (udp_pseudo src dst (8 + zlen data) ++ Dgram.as_bytes (Dgram.mk sport dport (8 + zlen data) 0) ++ data)) in
  if c =? 0 then 65535 else c.
Definition datagram (src dst : Ipv4Addr) (sport dport : Z) (data : list Z) : list Z :=
  Dgram.as_bytes (Dgram.mk sport dport (8 + zlen data) (udp_sum src dst sport dport data)) ++ data.

Definition udp_frame i (mac : MacAddress) (dst : Ipv4Addr) (sport dport : Z) (data : list Z) : list Z :=
  Eth.as_bytes (eth_header (local_mac_address i) mac Ether.Ipv4) ++ ip_packet Udp i dst 0 (datagram (local_ip i) dst sport dport data).

Lemma udp_sum_u16 src dst sport dport data : u16 (udp_sum src dst sport dport data).
Proof. unfold udp_sum, ones_norm. repeat case_match; mlia. Qed.

Lemma udp_send_spec wait h h' nic i sport dport dst data mac : attached h nic i → attached h' nic i → resolves wait h nic dst mac h' →
  mac_ok mac → ip_ok dst → u16 sport → u16 dport → bytes data → zlen data ≤ Pkt.SLOT_SIZE →
  udp_send wait sport dport dst data nic h = Ret (tt, put_frame nic (udp_frame i mac dst sport dport data) h').
Proof.
  intros Ha Ha' Hres Hmac Hdst Hsp Hdp Hdata Hlen. unfold Pkt.SLOT_SIZE in *. pose proof (zlen_nonneg data). unfold udp_send.
  destruct (transmit_buffer_spec 1522) as (p & Ep & Hw & Hc & Hb & Hs & He & Hend); [lia|]. rewrite (hbind_lift _ _ _ _ Ep).
  rewrite (Z.mod_small (zlen data)), (hbind_lift _ _ _ _ (add_chk_ret U16 (zlen data) 8 ltac:(lia))) by lia. cbv beta iota zeta.
  destruct (Pkt.append_data_spec data p Hw) as (p1 & Ep1 & Hw1 & Hc1 & Hb1 & Hs1 & He1 & Hend1); [lia|]. rewrite (hbind_lift _ _ _ _ Ep1).
  rewrite Hc in Hc1. cbn [app] in Hc1. set (hd := Dgram.mk sport dport (zlen data + 8) 0).
  destruct (Pkt.prepend_bytes_spec (Dgram.as_bytes hd) p1 Hw1) as (p2 & Ep2 & Hw2 & Hc2 & Hb2 & Hs2 & _); [rewrite zlen_dgram; unfold Dgram.size; lia|].
  rewrite (hbind_lift _ _ _ _ Ep2), (hbind_run _ _ _ _ _ (interface_run h nic i Ha)).
  rewrite (hbind_lift _ _ _ _ (Pkt.payload_ret p2 Hw2)). cbn [mbind option_bind]. fold (local_ip i). rewrite Hc1 in Hc2.
  assert (Hbs : bytes (Pkt.contents p2)).
  { rewrite Hc2. apply Forall_app_2; [|done]. unfold Dgram.as_bytes. repeat apply Forall_app_2; apply be16_bytes. }
  rewrite (hbind_lift _ _ _ _ (udp_checksum_spec (local_ip i) dst (zlen data + 8) (Pkt.contents p2) ltac:(by eapply local_ip_ok) Hdst Hbs
    ltac:(ints; lia) ltac:(rewrite Hc2, zlen_app, zlen_dgram; unfold Dgram.size; lia))).
  assert (Ec : (let c := 65535 - ones_norm (word_sum (udp_pseudo (local_ip i) dst (zlen data + 8) ++ Pkt.contents p2)) in if c =? 0 then 65535 else c)
    = udp_sum (local_ip i) dst sport dport data).
  { unfold udp_sum. rewrite Hc2. unfold hd. by rewrite (Z.add_comm 8). }
  rewrite Ec. set (c := udp_sum _ _ _ _ _).
  destruct (patch_payload p2 (be16 sport ++ be16 dport ++ be16 (zlen data + 8)) (be16 0) (be16 c) data 6 Hw2) as (s & Es & Hw3 & Hc3); [|done|done|].
  { rewrite Hc2. unfold Dgram.as_bytes, hd. cbn [Dgram.source_port Dgram.destination_port Dgram.dgram_length Dgram.checksum]. by rewrite <- !app_assoc. }
  rewrite (hbind_lift _ _ _ _ Es).
  destruct (send_packet_spec wait h h' nic i Udp (p2 <| Pkt.storage := s |>) dst 0 mac Ha Ha' Hres Hmac Hdst ltac:(ints; lia) Hw3) as ([[r p3] h3] & E3 & -> & ->).
  { rsimp. unfold Eth.size, Ip.size. rewrite zlen_dgram in Hs2. unfold Dgram.size in Hs2. lia. }
  rewrite (hbind_run _ _ _ _ _ E3). unfold mret, HM_ret, udp_frame. do 4 f_equal.
  rewrite Hc3. unfold datagram, Dgram.as_bytes. fold c. cbn [Dgram.source_port Dgram.destination_port Dgram.dgram_length Dgram.checksum].
  by rewrite <- !app_assoc, (Z.add_comm 8).
Qed.
End Sending.

(** ** Receiving *)

Section Receiving.
Implicit Types (h : Host).

(** The cache has room for an entry and the routes are sorted. *)
Record host_ok h : Prop := {
  ho_cache : arp_cache h ≠ [];
  ho_routes : ∃ spec, routes_ok (routes h) spec
}.

(** Only the cache and the clock have moved. *)
Definition learned h h' : Prop := ∃ c n, c ≠ [] ∧ h' = h <| arp_cache := c |> <| ticks := n |>.

Lemma learned_refl h : host_ok h → learned h h.
Proof. intros [Hc _]. exists (arp_cache h), (ticks h). split; [done|]. by destruct h. Qed.

Lemma learned_trans h1 h2 h3 : learned h1 h2 → learned h2 h3 → learned h1 h3.
Proof. intros (c & n & _ & ->) (c' & n' & Hc & ->). exists c', n'. split; [done|]. by destruct h1. Qed.

Lemma learned_ok h h' : learned h h' → host_ok h → host_ok h'.
Proof. intros (c & n & Hc & ->) [_ Hr]. by constructor. Qed.

Lemma insert_with_ttl_total {K V} `{EqDecision K} now (k : K) (v : V) ttl entries : entries ≠ [] →
  returns (insert_with_ttl now k v ttl entries) (λ entries', entries' ≠ []).
Proof.
  intros Hne. assert (Hi : ∀ i x, <[i:=x]> entries ≠ []) by (intros i x E; apply (f_equal length) in E; rewrite length_insert in E; by destruct entries).
  unfold insert_with_ttl. destruct (list_find (holds k) entries) as [[i e]|]; [by apply returns_ret|].
  destruct (list_find _ entries) as [[i e]|]; [by apply returns_ret|]. rewrite store_as_insert; [by apply returns_ret|].
  destruct entries as [|e rest]; [done|]. unfold lru_index, zlen. cbn [length]. pose proof (lru_from_bound rest 1 0 (last_access_at e)). lia.
Qed.

Lemma arp_insert_run key mac h : host_ok h → returns (arp_insert key mac h) (λ '(_, h'), learned h h').
Proof.
  intros [Hc _]. unfold arp_insert, hnow. unfold mbind at 1, HM_bind at 1. rewrite hbind_get. cbn [id]. rsimp.
  destruct (insert_with_ttl_total (readings_of h (ticks h)) key mac ARP_TTL (arp_cache h) Hc) as (c & E & Hne).
  rewrite (hbind_lift _ _ _ _ E). apply returns_ret. exists c, (S (ticks h)). split; [done|]. by destruct h.
Qed.

Lemma learn_run nic ip mac h : host_ok h → ip_ok ip → returns (learn_from_ip_rx nic ip mac h) (λ '(_, h'), learned h h').
Proof.
  intros Hok Hip. unfold learn_from_ip_rx. case_decide; [apply returns_ret; by apply learned_refl|].
  destruct (arp_insert_run (nic, ip) mac h Hok) as ([[] h1] & E1 & H1). rewrite (hbind_run _ _ _ _ _ E1), hbind_get.
  pose proof (learned_ok _ _ H1 Hok) as Hok1. destruct (ho_routes _ Hok1) as [spec Hs].
  assert (Hr : ∃ o, resolve_next_hop ip (routes h1) = Ret o).
  { unfold resolve_next_hop, route_lookup. destruct (lookup_entry_spec _ _ ip Hs Hip) as (r & -> & _). cbn. eauto. }
  destruct Hr as [o Eo]. rewrite (hbind_lift _ _ _ _ Eo). destruct o as [hop|]; [|by apply returns_ret].
  case_decide; [|by apply returns_ret]. destruct (arp_insert_run (nic, hop) mac h1 Hok1) as ([[] h2] & E2 & H2). rewrite E2.
  apply returns_ret. by eapply learned_trans.
Qed.

Lemma rx_slot_spec frame : zlen frame ≤ Pkt.SLOT_SIZE → Pkt.wf (rx_slot frame) ∧ Pkt.contents (rx_slot frame) = frame.
Proof.
  intros Hl. pose proof (zlen_nonneg frame). unfold rx_slot, Pkt.from_received_slot, Pkt.DEFAULT_HEADER_RESERVE, Pkt.SLOT_SIZE in *.
  assert (Hz : ∀ n, 0 ≤ n → zlen (zeros n) = n) by (intros n Hn; unfold zeros, zlen; rewrite length_replicate; lia). split.
  - constructor; cbn [Pkt.buffer_start Pkt.payload_start Pkt.payload_end Pkt.buffer_end Pkt.storage]; rewrite ?zlen_app, ?Hz by lia; lia.
  - unfold Pkt.contents. cbn [Pkt.payload_start Pkt.payload_end Pkt.storage]. unfold zdrop, ztake.
    rewrite drop_app_length' by reflexivity. rewrite take_app_length'; [done|]. unfold zlen. lia.
Qed.

Lemma trim_exact p n : Pkt.wf p → zlen (Pkt.contents p) = n → Pkt.trim_payload n p = p.
Proof.
  intros Hw Hz. rewrite Pkt.zlen_contents in Hz by done. unfold Pkt.trim_payload. by rewrite (proj2 (Z.ltb_ge _ _)) by lia.
Qed.

(** A frame with an IPv4 packet of the stack's own making is learned from and
    handed to the protocol it is for, trimmed to nothing else. *)
Lemma rx_ip_frame nic i dmac dst tos proto payload h : host_ok h → mac_ok (local_mac_address i) → mac_ok dmac → ip_ok (local_ip i) → ip_ok dst → u8 tos →
  zlen payload ≤ Pkt.SLOT_SIZE - Eth.size - Ip.size →
  ∃ h1 p hd, learned h h1 ∧ learn_from_ip_rx nic (local_ip i) (local_mac_address i) h = Ret (tt, h1) ∧ Pkt.wf p ∧ Pkt.contents p = payload ∧ Ip.source_ip hd = local_ip i ∧ Ip.target_ip hd = dst ∧ Ip.tos hd = tos ∧
  rx_frame nic (Eth.as_bytes (eth_header (local_mac_address i) dmac Ether.Ipv4) ++ ip_packet proto i dst tos payload) h =
  (match proto with
   | Udp => udp_process_data (Ip.source_ip hd) p;; mret tt
   | Icmp => icmp_process_data rx_wait p (Ip.source_ip hd) nic;; mret tt
   | Tcp => hset (λ h, h <| tcp_in := tcp_in h ++ [mkTcpIn (Ip.source_ip hd) (Ip.target_ip hd) payload nic (Z.land (Ip.tos hd) 3)] |>);; mret tt
   | _ => mret tt
   end) h1.
Proof.
  intros Hok Hmac Hdmac Hsrc Hdst Htos Hlen. pose proof (zlen_nonneg payload). unfold Pkt.SLOT_SIZE, Eth.size, Ip.size in *.
  set (eh := eth_header _ _ _). set (ih := ip_sum (ip_header proto (Ip.size + zlen payload) tos (local_ip i) dst)).
  assert (Heh : eth_ok eh) by by apply eth_header_ok.
  assert (Hih : iph_ok ih) by (by apply ip_sum_ok, ip_header_ok).
  unfold ip_packet. fold ih. set (f := Eth.as_bytes eh ++ Ip.as_bytes ih ++ payload).
  assert (Hf : zlen f = 34 + zlen payload) by (unfold f; rewrite !zlen_app, zlen_ip, zlen_eth by done; unfold Eth.size, Ip.size; lia).
  unfold rx_frame, Pkt.SLOT_SIZE. rewrite Hf. destruct (Z.eqb_spec (34 + zlen payload) 0), (Z.ltb_spec 1522 (34 + zlen payload)); try lia. cbn [orb].
  destruct (rx_slot_spec f) as [Hw Hc]; [unfold Pkt.SLOT_SIZE; lia|]. unfold eth_process_data.
  destruct (consume_header_spec Eth.size Eth.read (rx_slot f) (Eth.as_bytes eh) (Ip.as_bytes ih ++ payload) eh Hw Hc (zlen_eth _ Heh) (eth_read_bytes _ _ Heh))
    as ([eh' p1] & E1 & -> & Hw1 & Hc1).
  destruct (consume_header_spec Ip.size Ip.read p1 (Ip.as_bytes ih) payload ih Hw1 Hc1 (zlen_ip _) (ip_read_bytes _ _ Hih))
    as ([ih' p2] & E2 & -> & Hw2 & Hc2).
  destruct (learn_run nic (local_ip i) (local_mac_address i) h Hok Hsrc) as ([[] h1] & E3 & Hl).
  exists h1, p2, ih. do 7 (split; [done|]).
  assert (Eid : identify_protocol p1 eh = Ret (Some Ether.Ipv4)) by reflexivity.
  unfold mbind at 1, HM_bind at 1. rewrite (hbind_lift _ _ _ _ E1), (hbind_lift _ _ _ _ Eid), (hbind_lift _ _ _ _ (Pkt.payload_ret p1 Hw1)).
  rewrite Hc1, (ip_read_bytes ih payload Hih). change (Ip.source_ip ih) with (local_ip i). change (Eth.source_mac eh) with (local_mac_address i).
  rewrite (hbind_run _ _ _ _ _ E3). unfold ip_process_data. unfold mbind at 1, HM_bind at 1. rewrite (hbind_lift _ _ _ _ E2).
  change (Z.shiftr (Ip.version_ihl ih) 4) with 4. change (Z.land (Ip.flags_fragment_offset ih) 8191) with 0. cbn [Z.eqb negb Pos.eqb].
  assert (Et : Pkt.trim_payload (sat_sub (Ip.total_length ih) (Ip.header_length ih)) p2 = p2).
  { apply trim_exact; [done|]. rewrite Hc2. change (Ip.header_length ih) with 20. change (Ip.total_length ih) with ((20 + zlen payload) mod U16).
    rewrite Z.mod_small by lia. unfold sat_sub. lia. }
  rewrite Et. assert (Ep : Ip.protocol ih = Some proto) by (by destruct proto). rewrite Ep.
  change (Ip.source_ip ih) with (local_ip i).
  destruct proto; try done.
  - destruct (icmp_process_data rx_wait p2 (local_ip i) nic h1) as [[b h2]|] eqn:E; [by rewrite !(hbind_run _ _ _ _ _ E)|by rewrite !(hbind_crash _ _ _ _ E)].
  - unfold Pkt.frame. rewrite (hbind_lift _ _ _ _ (Pkt.payload_ret p2 Hw2)), Hc2. done.
  - destruct (udp_process_data (local_ip i) p2 h1) as [[b h2]|] eqn:E; [by rewrite !(hbind_run _ _ _ _ _ E)|by rewrite !(hbind_crash _ _ _ _ E)].
Qed.
End Receiving.

(** ** Datagrams *)

Section Datagrams.
Implicit Types (a b : Host) (i : NetworkInterface).

Lemma zlen_datagram src dst sport dport data : zlen (datagram src dst sport dport data) = 8 + zlen data.
Proof. unfold datagram. rewrite zlen_app, zlen_dgram. done. Qed.

Lemma rx_udp_frame nic i dmac dst sport dport data b : host_ok b → mac_ok (local_mac_address i) → mac_ok dmac → ip_ok (local_ip i) → ip_ok dst →
  u16 sport → u16 dport → zlen data ≤ 1480 →
  returns (rx_frame nic (udp_frame i dmac dst sport dport data) b) (λ '(_, b'),
    ∃ b1, learned b b1 ∧ b' = b1 <| udp := dispatch_to_socket dport (local_ip i) sport data (udp b) |>).
Proof.
  intros Hok Hm Hd Hs Hdst Hsp Hdp Hlen. unfold udp_frame. pose proof (zlen_nonneg data).
  destruct (rx_ip_frame nic i dmac dst 0 Udp (datagram (local_ip i) dst sport dport data) b) as (b1 & p & hd & Hl & _ & Hw & Hc & Esrc & _ & _ & E); try done.
  { rewrite zlen_datagram. unfold Pkt.SLOT_SIZE, Eth.size, Ip.size. lia. }
  rewrite E. rewrite Esrc. clear E. unfold udp_process_data. unfold mbind at 1, HM_bind at 1.
  unfold datagram in Hc. set (dh := Dgram.mk _ _ _ _) in Hc.
  destruct (consume_header_spec Dgram.size Dgram.read p (Dgram.as_bytes dh) data dh Hw Hc (zlen_dgram _)) as ([dh' p1] & E1 & -> & Hw1 & Hc1).
  { apply dgram_read_bytes. constructor; unfold dh; cbn [Dgram.source_port Dgram.destination_port Dgram.dgram_length Dgram.checksum]; [done|done|ints; lia|apply udp_sum_u16]. }
  rewrite (hbind_lift _ _ _ _ E1), (hbind_lift _ _ _ _ (Pkt.payload_ret p1 Hw1)), hbind_set, Hc1. apply returns_ret.
  exists b1. split; [done|]. destruct Hl as (c & n & _ & ->). done.
Qed.

(** The frame arrives at a reader that is blocked on the socket. *)
Lemma recv_udp_frame nic i dmac dst sport dport data b h l s n rest : host_ok b → udp_ok (udp b) → mac_ok (local_mac_address i) → mac_ok dmac →
  ip_ok (local_ip i) → ip_ok dst → u16 sport → u16 dport → zlen data ≤ 1480 →
  u16 h → dport ≠ 0 → open_at (udp b) h l s → local_port s = dport → recv_queue (recv_buf s) = [] → recv_closed (recv_buf s) = false →
  0 < capacity (recv_buf s) → zlen data ≤ n → incoming b = (nic, udp_frame i dmac dst sport dport data) :: rest →
  returns (socket_recv_from h n b) (λ '(r, b'), r = Some (data, local_ip i, sport) ∧ incoming b' = rest).
Proof.
  intros Hok Hu Hm Hd Hs Hdst Hsp Hdp Hlen Hh Hp0 Ho Hp Hq Hcl Hcap Hn Hin. unfold socket_recv_from, get_arc.
  pose proof Ho as [Hskt Harc]. rewrite Z.mod_small, Hskt, Hin by done. cbn [recv_until].
  assert (E0 : recv_step l n (udp b) = (Blocks, udp b)) by (unfold recv_step, try_pop; by rewrite Harc, Hq, Hcl).
  rewrite E0. destruct (rx_udp_frame nic i dmac dst sport dport data b) as ([[] b'] & E & b1 & Hl & ->); try done. rewrite E. cbn [mbind res_bind].
  destruct (dispatch_spec (udp b) (local_ip i) sport data h l s Hu Ho ltac:(congruence)) as [[_ Hd1] _]. rewrite Hp in Hd1. set (t := dispatch_to_socket _ _ _ _ _) in *.
  assert (E1 : ∃ t', recv_step l n t = (Received data (local_ip i) sport, t')).
  { unfold recv_step. rewrite Hd1. unfold queued, recv_push, try_pop. rewrite Hq. change (zlen []) with 0.
    rewrite (proj2 (Z.leb_gt _ _)) by lia. rsimp. cbn [snd app]. rsimp. cbn [dgram_data src_addr src_port].
    eexists. rewrite ztake_all; [done|]. lia. }
  destruct E1 as [t' E1]. destruct rest as [|[nic' f'] rest]; cbn [recv_until]; rsimp; rewrite E1; apply returns_ret; done.
Qed.

(** C3: A datagram sent by one host reaches the application of another: if the
    sender can resolve where to send, its call reports the length and gives one
    frame to the card; when that frame is the next to arrive at a host where a
    thread reads from a socket bound to the destination port, the read returns
    exactly the data, with the sender's address and port. *)
Theorem udp_datagram_reaches_reader wait a a' i mac dst sport dport data nic b h l s n rest :
  attached a 0 i → attached a' 0 i → resolves wait a 0 dst mac a' → mac_ok mac → ip_ok dst → u16 sport → u16 dport → dport ≠ 0 → bytes data → zlen data ≤ 1480 →
  host_ok b → rtc udp_step table_new (udp b) → u16 h → open_at (udp b) h l s → local_port s = dport →
  recv_queue (recv_buf s) = [] → recv_closed (recv_buf s) = false → 0 < capacity (recv_buf s) → zlen data ≤ n →
  returns (do_send wait sport dst dport data a) (λ '(len, a''), len = zlen data ∧
    ∃ frame, a'' = put_frame 0 frame a' ∧
    returns (socket_recv_from h n (b <| incoming := (nic, frame) :: rest |>)) (λ '(r, b'), r = Some (data, local_ip i, sport) ∧ incoming b' = rest)).
Proof.
  intros Ha Ha' Hres Hmac Hdst Hsp Hdp Hdp0 Hdata Hlen Hok Hr Hh Ho Hp Hq Hcl Hcap Hn. unfold do_send.
  rewrite (hbind_run _ _ _ _ _ (udp_send_spec wait a a' 0 i sport dport dst data mac Ha Ha' Hres Hmac Hdst Hsp Hdp Hdata ltac:(unfold Pkt.SLOT_SIZE; lia))).
  apply returns_ret. split; [done|]. eexists. split; [done|]. set (b' := b <| incoming := _ |>).
  apply (recv_udp_frame nic i mac dst sport dport data b' h l s n rest); try done.
  - destruct Hok. by constructor.
  - by apply (udp_reachable_ok (udp b)).
  - apply (at_mac _ _ _ Ha).
  - by eapply local_ip_ok.
Qed.

(** Both checksums of the frame are the ones receivers accept. *)
Lemma udp_frame_checksums i dst sport dport data : ip_ok (local_ip i) → ip_ok dst → u16 sport → u16 dport → bytes data → zlen data ≤ 1480 →
  checksum_valid (Ip.as_bytes (ip_sum (ip_header Udp (28 + zlen data) 0 (local_ip i) dst))) ∧
  checksum_valid (udp_pseudo (local_ip i) dst (8 + zlen data) ++ datagram (local_ip i) dst sport dport data).
Proof.
  intros Hs Hd Hsp Hdp Hb Hlen. pose proof (zlen_nonneg data). split.
  - set (hd := ip_header _ _ _ _ _). assert (Hok : iph_ok hd) by (apply ip_header_ok; try done; ints; lia).
    apply (ip_checksum_valid hd); [done|vm_compute; reflexivity|]. replace (hd <| Ip.checksum := 0 |>) with hd by reflexivity. by apply ip_checksum_spec.
  - unfold checksum_valid, datagram. set (c := udp_sum _ _ _ _ _). set (ps := udp_pseudo _ _ _).
    assert (Hps : Nat.Even (length ps)) by (by exists 6%nat; unfold ps, udp_pseudo; destruct (local_ip i) as [[[? ?] ?] ?], dst as [[[? ?] ?] ?]).
    set (W := word_sum (ps ++ Dgram.as_bytes (Dgram.mk sport dport (8 + zlen data) 0) ++ data)).
    assert (Ew : word_sum (ps ++ Dgram.as_bytes (Dgram.mk sport dport (8 + zlen data) c) ++ data) = W + c).
    { unfold W. rewrite !(word_sum_app ps) by done. unfold Dgram.as_bytes, be16. cbn [app Dgram.source_port Dgram.destination_port Dgram.dgram_length Dgram.checksum].
      rewrite !word_sum_cons, (from_to_be16 c), (from_to_be16 0) by (apply udp_sum_u16 || (ints; lia)). lia. }
    assert (HW : 0 < W).
    { unfold W. rewrite word_sum_app by done. pose proof (word_sum_bound (Dgram.as_bytes (Dgram.mk sport dport (8 + zlen data) 0) ++ data)) as [Hr _].
      { apply Forall_app_2; [|done]. unfold Dgram.as_bytes. repeat apply Forall_app_2; apply be16_bytes. }
      unfold ps, udp_pseudo, be16. destruct (local_ip i) as [[[? ?] ?] ?], dst as [[[? ?] ?] ?]. unfold ip_ok, octets, bytes in Hs, Hd.
      rewrite !Forall_cons in Hs, Hd. destruct_and!. cbn [octets app]. rewrite !word_sum_cons. unfold word_sum at 1. cbn [words foldr].
      rewrite from_to_be16 by (ints; lia). unfold from_be16. ints. lia. }
    rewrite Ew. unfold c, udp_sum. fold W. change (udp_pseudo (local_ip i) dst (8 + zlen data)) with ps. fold W.
    destruct (Z.eqb_spec (65535 - ones_norm W) 0) as [E|E].
    + unfold ones_norm in *. destruct (Z.eqb_spec W 0), (Z.eqb_spec (W + 65535) 0); try lia. mlia.
    + apply ones_norm_complement; lia.
Qed.
End Datagrams.

(** ** Two hosts on a link *)

Section Example.
Definition mac_a : MacAddress := [82; 84; 0; 0; 0; 1].
Definition mac_b : MacAddress := [82; 84; 0; 0; 0; 2].
Definition card (mac : MacAddress) (ip : Ipv4Addr) : NetworkInterface := mkInterface 0 mac (Some ip) true.
Definition one_card (mac : MacAddress) (ip : Ipv4Addr) : NetworkInterfaceTable :=
  match insert_interface (card mac ip) (interfaces_new (mkInterface 0 (zeros 6) None false)) with
  | Ret (_, t) => t
  | _ => interfaces_new (card mac ip)
  end.
Definition on_link : list (RouteEntry NextHop) := insert_for_interface (mkPrefix (10, 0, 2, 0) 24) 0 Direct [].
Definition host (mac : MacAddress) (ip : Ipv4Addr) (sockets : SocketTable) : Host :=
  mkHost (one_card mac ip) on_link arp_entries ∅ [] sockets [] [] [] (λ n, Z.of_nat n) 0 true [].

Definition host_a : Host := host mac_a (10, 0, 2, 15) table_new.
Definition host_b : Host := host mac_b (10, 0, 2, 7) two_sockets.

(** After it has learned the other's address. *)
Definition host_a1 : Host := match arp_insert (0, (10, 0, 2, 7)) mac_b host_a with Ret (_, h) => h | _ => host_a end.
Definition host_a2 : Host := match get_mac_address app_wait (10, 0, 2, 7) 0 host_a1 with Ret (_, h) => h | _ => host_a end.

Lemma attached_host mac ip sockets h : mac_ok mac → ip_ok ip → ifs h = ifs (host mac ip sockets) → attached h 0 (card mac ip).
Proof.
  intros Hm Hi E. constructor; [rewrite E; vm_compute; reflexivity|done|done|done|]. by intros ? [= <-].
Qed.

Lemma byte_list l : forallb (λ x, (0 <=? x) && (x <? U8)) l = true → bytes l.
Proof.
  intros Hl. apply Forall_forall. intros x Hx. apply list_elem_of_In in Hx. rewrite forallb_forall in Hl. specialize (Hl x Hx). ints. lia.
Qed.

Lemma routes_on_link : ∃ spec, routes_ok on_link spec.
Proof. eexists. apply insert_route_ok; [apply routes_empty|]. split; [by apply byte_list|cbn; lia]. Qed.

Lemma udp_datagram_reaches_reader_witness :
  returns (do_send app_wait 4000 (10, 0, 2, 7) 53 [1; 2; 3] host_a1) (λ '(len, a''), len = 3 ∧
    ∃ frame, a'' = put_frame 0 frame host_a2 ∧
    returns (socket_recv_from 2 512 (host_b <| incoming := [(0, frame)] |>)) (λ '(r, b'), r = Some ([1; 2; 3], (10, 0, 2, 15), 4000) ∧ incoming b' = [])).
Proof.
  apply (udp_datagram_reaches_reader app_wait host_a1 host_a2 (card mac_a (10, 0, 2, 15)) mac_b (10, 0, 2, 7) 4000 53 [1; 2; 3] 0 host_b 2 1
    (mkSocketState 53 None (recv_new 4096)) 512 []).
  - apply (attached_host mac_a (10, 0, 2, 15) table_new); [split; [done|by apply byte_list]|by apply byte_list|vm_compute; reflexivity].
  - apply (attached_host mac_a (10, 0, 2, 15) table_new); [split; [done|by apply byte_list]|by apply byte_list|vm_compute; reflexivity].
  - right. split; [done|]. exists (10, 0, 2, 7). split; [vm_compute; reflexivity|]. vm_compute. reflexivity.
  - split; [done|by apply byte_list].
  - by apply byte_list.
  - ints; lia.
  - ints; lia.
  - lia.
  - by apply byte_list.
  - vm_compute. discriminate.
  - constructor; [done|apply routes_on_link].
  - apply two_sockets_reachable.
  - ints; lia.
  - split; vm_compute; reflexivity.
  - reflexivity.
  - reflexivity.
  - reflexivity.
  - vm_compute. reflexivity.
  - vm_compute. discriminate.
Defined.
End Example.
