(* ===== verification/NetArp.v ===== *)
(** * Resolving an address, and answering an echo

    An ARP exchange between two hosts of [NetHost]: the request, the reply and
    the wake-up of the thread that waits; what happens when no reply comes; and
    the receive worker's answer to an echo request. *)

From S2P Require Import Prelude Bits Time TcpTypes TcpChecksum NetWorld NetTables NetHdr UdpSockets NetHost NetDeliver.

(** ** The cache, before and after *)

Section CacheFacts.
Context {K V : Type} `{EqDecision K}.
Implicit Types (entries : list (CacheEntry K V)).

Definition absent (k : K) entries : Prop := Forall (λ e, ¬ holds k e) entries.

Lemma lookup_absent now k entries : absent k entries → cache_lookup now k entries = (None, entries).
Proof.
  intros Ha. rewrite cache_lookup_find. destruct (list_find (holds k) entries) as [[i e]|] eqn:E; [|done].
  apply list_find_Some in E as (Hi & Hh & _). unfold absent in Ha. rewrite Forall_lookup in Ha. by destruct (Ha i e Hi).
Qed.

(** The cache answers [v] for [k] until [t]. *)
Definition cached (k : K) (v : V) (t : Instant) entries : Prop :=
  ∃ i e, list_find (holds k) entries = Some (i, e) ∧ cache_value e = v ∧ expires_at e = Some t.

Lemma insert_cached now k v ttl entries entries' : insert_with_ttl now k v ttl entries = Ret entries' → cached k v (instant_add now ttl) entries'.
Proof.
  unfold insert_with_ttl. cbv zeta. intros E. assert (Hput : ∃ i e, (i < length entries)%nat ∧ entries' = <[i := e]> entries ∧
    holds k e ∧ cache_value e = v ∧ expires_at e = Some (instant_add now ttl) ∧ ∀ j y, (j < i)%nat → entries !! j = Some y → ¬ holds k y).
  { destruct (list_find (holds k) entries) as [[i e]|] eqn:Ef.
    { apply list_find_Some in Ef as (Hi & Hh & Hb). injection E as <-. eexists i, _. split; [by eapply lookup_lt_Some|]. split; [done|].
      split; [exact Hh|]. split; [done|]. split; [done|]. eauto. }
    apply list_find_None in Ef. rewrite Forall_lookup in Ef. destruct (list_find _ entries) as [[i e]|] eqn:Ef2.
    - apply list_find_Some in Ef2 as (Hi & _). injection E as <-. eexists i, _. split; [by eapply lookup_lt_Some|]. split; [done|]. split; [done|]. eauto.
    - destruct entries as [|e rest]; [done|]. rewrite store_as_insert, Nat2Z.id in E.
      + injection E as <-. eexists _, _. split; [|split; [done|]; split; [done|]; eauto].
        unfold lru_index; cbn [length]; pose proof (lru_from_bound rest 1 0 (last_access_at e)); lia.
      + unfold lru_index, zlen; cbn [length]; pose proof (lru_from_bound rest 1 0 (last_access_at e)); lia. }
  destruct Hput as (i & e & Hi & -> & Hh & Hv & Ht & Hb). exists i, e. split; [|done].
  apply list_find_Some. split; [by apply list_lookup_insert_eq|]. split; [done|]. intros j y Hj Hlt.
  rewrite list_lookup_insert_ne in Hj by lia. eauto.
Qed.

Lemma lookup_cached now k v t entries : cached k v t entries → now < t →
  (cache_lookup now k entries).1 = Some v ∧ cached k v t (cache_lookup now k entries).2.
Proof.
  intros (i & e & Ef & Hv & Ht) Hn. rewrite cache_lookup_find, Ef. unfold is_expired. rewrite Ht, (proj2 (Z.leb_gt _ _)) by done.
  cbn [fst snd]. split; [by rewrite Hv|]. apply list_find_Some in Ef as (Hi & Hh & Hb). exists i, (e <| last_access_at := Some now |>). split; [|done].
  apply list_find_Some. split; [apply list_lookup_insert_eq; by eapply lookup_lt_Some|]. split; [exact Hh|]. intros j y Hj Hlt.
  rewrite list_lookup_insert_ne in Hj by lia. by apply (Hb j).
Qed.
End CacheFacts.

(** ** ARP packets *)

Section Arp.
Implicit Types (a b h : Host) (i : NetworkInterface).

Definition arp_frame (op : Arp.ArpOperation) i (dmac tmac : MacAddress) (tip : Ipv4Addr) : list Z :=
  Eth.as_bytes (eth_header (local_mac_address i) dmac Ether.Arp) ++ Arp.as_bytes (arp_packet op i tmac tip).

Lemma arp_packet_ok op i tmac tip : mac_ok (local_mac_address i) → mac_ok tmac → arp_ok (arp_packet op i tmac tip).
Proof. intros. constructor; cbn; try done; [ints; lia..|destruct op; ints; cbn; lia]. Qed.

Lemma mac_broadcast_ok : mac_ok mac_broadcast.
Proof. split; [done|by apply byte_list]. Qed.

Lemma mac_zero_ok : mac_ok (zeros 6).
Proof. split; [done|by apply byte_list]. Qed.

(** The tail of both senders. *)
Lemma send_arp_packet op i dmac tmac tip nic h : attached h nic i → mac_ok dmac → mac_ok tmac →
  ∀ B (f : unit → HM B),
  (buffer ← hlift (transmit_buffer 64);
   buffer ← hlift (Pkt.prepend_bytes (Arp.as_bytes (arp_packet op i tmac tip)) buffer);
   send_frame (local_mac_address i) dmac Ether.Arp buffer nic ≫= f) h = f tt (put_frame nic (arp_frame op i dmac tmac tip) h).
Proof.
  intros Ha Hd Ht B f. pose proof (zlen_arp _ (arp_packet_ok op i tmac tip (at_mac _ _ _ Ha) Ht)) as Hz. unfold Arp.size in Hz.
  destruct (transmit_buffer_spec 64) as (p & Ep & Hw & Hc & Hb & Hs & He & Hend); [lia|]. rewrite (hbind_lift _ _ _ _ Ep).
  destruct (Pkt.prepend_bytes_spec (Arp.as_bytes (arp_packet op i tmac tip)) p Hw) as (p1 & Ep1 & Hw1 & Hc1 & Hb1 & Hs1 & _); [lia|].
  rewrite (hbind_lift _ _ _ _ Ep1).
  rewrite (hbind_run _ _ _ _ _ (send_frame_spec h nic i _ dmac Ether.Arp p1 Ha (at_mac _ _ _ Ha) Hd Hw1 ltac:(unfold Eth.size; lia))).
  by rewrite Hc1, Hc, app_nil_r.
Qed.

Lemma send_arp_reply_spec hd nic i h : attached h nic i → mac_ok (Arp.sender_mac hd) →
  send_arp_reply hd nic h = Ret (tt, put_frame nic (arp_frame Arp.Reply i (Arp.sender_mac hd) (Arp.sender_mac hd) (Arp.sender_ip hd)) h).
Proof.
  intros Ha Hm. unfold send_arp_reply. rewrite (hbind_run _ _ _ _ _ (interface_run h nic i Ha)). cbn [unwrap]. rewrite (hbind_lift (Ret i) _ _ i eq_refl), (at_id _ _ _ Ha).
  pose proof (send_arp_packet Arp.Reply i (Arp.sender_mac hd) (Arp.sender_mac hd) (Arp.sender_ip hd) nic h Ha Hm Hm unit (λ _, mret tt)) as E.
  revert E. unfold mbind, HM_bind, hlift. destruct (transmit_buffer 64) as [p|]; [|done]. destruct (Pkt.prepend_bytes _ p) as [p1|]; [|done].
  destruct (send_frame _ _ _ p1 nic h) as [[[] h']|]; done.
Qed.

(** An ARP frame of the stack's own making reaches the ARP handler. *)
Lemma rx_arp_frame nic op i dmac tmac tip h : mac_ok (local_mac_address i) → mac_ok dmac → mac_ok tmac →
  ∃ p, Pkt.wf p ∧ Pkt.contents p = Arp.as_bytes (arp_packet op i tmac tip) ∧
  rx_frame nic (arp_frame op i dmac tmac tip) h = (arp_process_data p nic;; mret tt) h.
Proof.
  intros Hm Hd Ht. set (eh := eth_header (local_mac_address i) dmac Ether.Arp). assert (Heh : eth_ok eh) by by apply eth_header_ok.
  set (f := arp_frame op i dmac tmac tip). assert (Hf : zlen f = 42).
  { unfold f, arp_frame. rewrite zlen_app, zlen_eth, zlen_arp by (by apply arp_packet_ok || done). done. }
  destruct (rx_slot_spec f) as [Hw Hc]; [rewrite Hf; done|].
  destruct (consume_header_spec Eth.size Eth.read (rx_slot f) (Eth.as_bytes eh) (Arp.as_bytes (arp_packet op i tmac tip)) eh Hw Hc (zlen_eth _ Heh) (eth_read_bytes _ _ Heh))
    as ([eh' p1] & E1 & -> & Hw1 & Hc1).
  exists p1. split; [done|]. split; [done|]. unfold rx_frame. rewrite Hf. cbn [Z.eqb orb]. change (Pkt.SLOT_SIZE <? 42) with false. cbn [orb].
  unfold eth_process_data. unfold mbind at 1, HM_bind at 1. rewrite (hbind_lift _ _ _ _ E1).
  assert (Eid : identify_protocol p1 eh = Ret (Some Ether.Arp)) by reflexivity. rewrite (hbind_lift _ _ _ _ Eid).
  destruct (arp_process_data p1 nic h) as [[r h1]|] eqn:E; [by rewrite !(hbind_run _ _ _ _ _ E)|by rewrite !(hbind_crash _ _ _ _ E)].
Qed.

Lemma arp_consume op i tmac tip p : Pkt.wf p → Pkt.contents p = Arp.as_bytes (arp_packet op i tmac tip) → mac_ok (local_mac_address i) → mac_ok tmac →
  ∃ p', consume_header Arp.size Arp.read p = Ret (arp_packet op i tmac tip, p').
Proof.
  intros Hw Hc Hm Ht. pose proof (arp_packet_ok op i tmac tip Hm Ht) as Hok. rewrite <- (app_nil_r (Arp.as_bytes _)) in Hc.
  destruct (consume_header_spec Arp.size Arp.read p _ [] _ Hw Hc (zlen_arp _ Hok) (arp_read_bytes _ _ Hok)) as ([hd p'] & E & -> & _). eauto.
Qed.

(** The host that has the address answers a request and learns the asker's. *)
Lemma answer_request nic ia ib b : attached b nic ib → host_ok b → mac_ok (local_mac_address ia) → local_internet_address ib = Some (local_ip ib) →
  returns (rx_frame nic (arp_frame Arp.Request ia mac_broadcast (zeros 6) (local_ip ib)) b) (λ '(_, b'),
    ∃ b1, learned b b1 ∧ b' = put_frame nic (arp_frame Arp.Reply ib (local_mac_address ia) (local_mac_address ia) (local_ip ia)) b1).
Proof.
  intros Hat Hok Hm Hip. destruct (rx_arp_frame nic Arp.Request ia mac_broadcast (zeros 6) (local_ip ib) b Hm mac_broadcast_ok mac_zero_ok) as (p & Hw & Hc & ->).
  destruct (arp_consume _ _ _ _ p Hw Hc Hm mac_zero_ok) as [p' Ec]. unfold arp_process_data. unfold mbind at 1, HM_bind at 1.
  rewrite (hbind_lift _ _ _ _ Ec). set (hd := arp_packet _ _ _ _). rewrite (hbind_lift (Arp.op_from (Arp.operation hd)) _ _ Arp.Request eq_refl).
  destruct (arp_insert_run (nic, Arp.sender_ip hd) (Arp.sender_mac hd) b Hok) as ([[] b1] & E1 & Hl). rewrite (hbind_run _ _ _ _ _ E1).
  assert (Hat1 : attached b1 nic ib) by (destruct Hl as (c & n & _ & ->); destruct Hat; by constructor).
  rewrite (hbind_run _ _ _ _ _ (interface_run b1 nic ib Hat1)). rewrite Hip, decide_True by done.
  rewrite (hbind_run _ _ _ _ _ (send_arp_reply_spec hd nic ib b1 Hat1 Hm)). apply returns_ret. by exists b1.
Qed.

Lemma receive_reply nic ib dmac tmac tip a : host_ok a → mac_ok (local_mac_address ib) → mac_ok dmac → mac_ok tmac →
  ∃ c, insert_with_ttl (readings_of a (ticks a)) (nic, local_ip ib) (local_mac_address ib) ARP_TTL (arp_cache a) = Ret c ∧
  rx_frame nic (arp_frame Arp.Reply ib dmac tmac tip) a =
    Ret (tt, open_waiters (nic, local_ip ib) (a <| arp_cache := c |> <| ticks := S (ticks a) |>)).
Proof.
  intros Hok Hm Hd Ht. destruct (rx_arp_frame nic Arp.Reply ib dmac tmac tip a Hm Hd Ht) as (p & Hw & Hc & ->).
  destruct (arp_consume _ _ _ _ p Hw Hc Hm Ht) as [p' Ec]. unfold arp_process_data. unfold mbind at 1, HM_bind at 1.
  rewrite (hbind_lift _ _ _ _ Ec). set (hd := arp_packet _ _ _ _). rewrite (hbind_lift (Arp.op_from (Arp.operation hd)) _ _ Arp.Reply eq_refl).
  destruct (insert_with_ttl_total (readings_of a (ticks a)) (nic, local_ip ib) (local_mac_address ib) ARP_TTL (arp_cache a) (ho_cache a Hok)) as (c & E & _).
  exists c. split; [done|]. assert (Ei : arp_insert (nic, local_ip ib) (local_mac_address ib) a = Ret (tt, a <| arp_cache := c |> <| ticks := S (ticks a) |>)).
  { unfold arp_insert, hnow. unfold mbind at 1, HM_bind at 1. rewrite hbind_get. cbn [id]. rsimp. rewrite (hbind_lift _ _ _ _ E). unfold hset. by destruct a. }
  change (Arp.sender_ip hd) with (local_ip ib). change (Arp.sender_mac hd) with (local_mac_address ib).
  by rewrite (hbind_run _ _ _ _ _ Ei), hbind_set.
Qed.

(** The clock moves forwards, and by less than the time allowed for a reply
    while the next readings are taken. *)
Definition timely (a : Host) : Prop := ∀ u v : nat, (ticks a ≤ u ≤ v)%nat → (v ≤ ticks a + 8)%nat →
  0 ≤ readings_of a u ≤ readings_of a v ∧ readings_of a v < instant_add (readings_of a u) ARP_RESOLVE_TIMEOUT.

Lemma arp_lookup_run key h : arp_lookup key h =
  let '(r, c) := cache_lookup (readings_of h (ticks h)) key (arp_cache h) in Ret (r, h <| ticks := S (ticks h) |> <| arp_cache := c |>).
Proof. unfold arp_lookup, hnow. unfold mbind at 1, HM_bind at 1. rewrite hbind_get. cbn [id]. rsimp. by destruct (cache_lookup _ _ _). Qed.

Lemma gate_open_after key g h x : wait_queue h !! key = Some g → gates h !! g = Some x → gate_is_open g (open_waiters key h) = true.
Proof. intros Hq Hg. unfold open_waiters, gate_is_open. rewrite Hq. rsimp. rewrite list_lookup_alter_eq, Hg. done. Qed.

Lemma drain_open g frames h : gate_is_open g h = true → drain_until_open g frames h = Ret (tt, h <| incoming := frames |>).
Proof. intros Ho. destruct frames as [|[? ?] ?]; cbn [drain_until_open]; by rewrite Ho. Qed.

(** The wait of an application thread ends when the reply is the next frame. *)
Lemma wait_for_reply nic ib dmac tmac tip a g rest : host_ok a → mac_ok (local_mac_address ib) → mac_ok dmac → mac_ok tmac →
  wait_queue a !! (nic, local_ip ib) = Some g → gates a !! g = Some gate_new →
  incoming a = (nic, arp_frame Arp.Reply ib dmac tmac tip) :: rest →
  ∃ c, insert_with_ttl (readings_of a (ticks a)) (nic, local_ip ib) (local_mac_address ib) ARP_TTL (arp_cache a) = Ret c ∧
  app_wait g a = Ret (tt, (open_waiters (nic, local_ip ib) (a <| arp_cache := c |> <| ticks := S (ticks a) |>)) <| incoming := rest |>) ∧
  gate_is_open g (open_waiters (nic, local_ip ib) (a <| arp_cache := c |> <| ticks := S (ticks a) |>)) = true.
Proof.
  intros Hok Hm Hd Ht Hq Hg Hin. destruct (receive_reply nic ib dmac tmac tip a Hok Hm Hd Ht) as (c & Ec & E). exists c. split; [done|].
  set (a1 := a <| arp_cache := c |> <| ticks := S (ticks a) |>) in *.
  assert (Ho : gate_is_open g (open_waiters (nic, local_ip ib) a1) = true) by (by eapply (gate_open_after _ _ a1)). split; [|done].
  unfold app_wait. rewrite Hin. cbn [drain_until_open]. unfold gate_is_open at 1. rewrite Hg. cbn [gate_flag gate_new].
  rewrite E. cbn [mbind res_bind]. by rewrite drain_open.
Qed.

(** A while loop whose body goes on once and then stops. *)
Lemma while_twice {S R} (body : S → res (S + R)) s s' r : body s = Ret (inl s') → body s' = Ret (inr r) → while_loop body 3 s = Ret r.
Proof. intros E1 E2. unfold while_loop. cbn [iterate]. by rewrite E1, E2. Qed.

Lemma while_crash {S R} (body : S → res (S + R)) s e : body s = Crash e → while_loop body 3 s = Crash e.
Proof. intros E. unfold while_loop. cbn [iterate]. by rewrite !E. Qed.

(** With the gate open, a round of the loop ends it, and what is cached stays so. *)
Lemma arp_round_open wait key mac t g deadline h : gate_is_open g h = true → cached key mac t (arp_cache h) → readings_of h (S (ticks h)) < t →
  ∃ c n, arp_round wait key g deadline h = Ret (inr (tt, h <| ticks := (ticks h + n)%nat |> <| arp_cache := c |>)) ∧ cached key mac t c ∧ (1 ≤ n ≤ 2)%nat.
Proof.
  intros Ho Hc Ht. unfold arp_round, hnow. cbn [mbind res_bind]. destruct (deadline <=? readings_of h (ticks h)).
  - exists (arp_cache h), 1%nat. rewrite Nat.add_1_r. split; [|split; [done|lia]]. by destruct h.
  - rewrite arp_lookup_run. rsimp. destruct (lookup_cached _ _ _ _ _ Hc Ht) as [Hl Hc'].
    destruct (cache_lookup _ _ _) as [r c]. cbn [fst snd] in *. subst r. cbn [mbind res_bind]. rewrite bool_decide_true by done. cbn [orb].
    exists c, 2%nat. split; [|split; [done|lia]]. destruct h. cbn. by rewrite Nat.add_comm.
Qed.

Lemma ttl_later x y : 0 ≤ x → y < instant_add x ARP_RESOLVE_TIMEOUT → y < instant_add x ARP_TTL.
Proof. unfold instant_add, sat_add, ARP_RESOLVE_TIMEOUT, ARP_TTL, secs. lia. Qed.

(** The loop of [send_arp_request]: it waits once, and the reply ends it. *)
Lemma request_loop nic ib dmac tmac tip a g t0 rest : host_ok a → mac_ok (local_mac_address ib) → mac_ok dmac → mac_ok tmac →
  absent (nic, local_ip ib) (arp_cache a) → wait_queue a !! (nic, local_ip ib) = Some g → gates a !! g = Some gate_new →
  incoming a = (nic, arp_frame Arp.Reply ib dmac tmac tip) :: rest → readings_of a (ticks a) < instant_add t0 ARP_RESOLVE_TIMEOUT →
  0 ≤ readings_of a (S (S (ticks a))) →
  (∀ v, (v ≤ 6)%nat → readings_of a (ticks a + v)%nat < instant_add (readings_of a (S (S (ticks a)))) ARP_RESOLVE_TIMEOUT) →
  ∃ a' t, while_loop (arp_round app_wait (nic, local_ip ib) g (instant_add t0 ARP_RESOLVE_TIMEOUT)) 3 a = Ret (tt, a') ∧
    cached (nic, local_ip ib) (local_mac_address ib) t (arp_cache a') ∧ readings_of a' (ticks a') < t ∧
    sent a' = sent a ∧ incoming a' = rest.
Proof.
  intros Hok Hm Hd Htm Ha Hq Hg Hin Ht0 Hpos Ht. set (key := (nic, local_ip ib)) in *.
  set (a1 := a <| ticks := S (S (ticks a)) |>). assert (Hok1 : host_ok a1) by (destruct Hok; by constructor).
  destruct (wait_for_reply nic ib dmac tmac tip a1 g rest Hok1 Hm Hd Htm Hq Hg Hin) as (c & Ec & Ew & Ho). fold key in Ew, Ho.
  set (a2 := open_waiters key (a1 <| arp_cache := c |> <| ticks := S (ticks a1) |>)) in *.
  assert (Ha2 : ticks a2 = S (S (S (ticks a))) ∧ readings_of a2 = readings_of a ∧ arp_cache a2 = c ∧ sent a2 = sent a).
  { unfold a2, open_waiters. rsimp. change (wait_queue a1 !! key) with (wait_queue a !! key). rewrite Hq. done. }
  destruct Ha2 as (Etk & Erd & Ecc & Esn). pose proof (insert_cached _ _ _ _ _ _ Ec) as Hcc. set (t := instant_add _ ARP_TTL) in Hcc.
  assert (E1 : arp_round app_wait key g (instant_add t0 ARP_RESOLVE_TIMEOUT) a = Ret (inl (a2 <| incoming := rest |>))).
  { unfold arp_round, hnow. cbn [mbind res_bind]. rewrite (proj2 (Z.leb_gt _ _)) by done. rewrite arp_lookup_run. rsimp. rewrite lookup_absent by done.
    cbn [mbind res_bind]. rewrite bool_decide_false by (by intros [? ?]). cbn [orb].
    assert (Eg : gate_is_open g (a <| ticks := S (ticks a) |> <| ticks := S (S (ticks a)) |> <| arp_cache := arp_cache a |>) = false) by (unfold gate_is_open; rsimp; by rewrite Hg).
    assert (Es : a <| ticks := S (ticks a) |> <| ticks := S (S (ticks a)) |> <| arp_cache := arp_cache a |> = a1) by (by destruct a).
    rsimp_all. rewrite Es in *. by rewrite Eg, Ew. }
  assert (Hlt : ∀ v, (v ≤ 6)%nat → readings_of a (ticks a + v)%nat < t) by (intros v Hv; apply ttl_later; [done|by apply Ht]).
  destruct (arp_round_open app_wait key (local_mac_address ib) t g (instant_add t0 ARP_RESOLVE_TIMEOUT) (a2 <| incoming := rest |>)) as (c' & n & E2 & Hc' & Hn); rsimp.
  { exact Ho. } { by rewrite Ecc. }
  { rewrite Erd, Etk. specialize (Hlt 4%nat ltac:(lia)). by replace (S (S (S (S (ticks a))))) with (ticks a + 4)%nat by lia. }
  eexists _, t. split; [by eapply while_twice|]. rsimp. split; [done|]. split; [|done].
  rewrite Erd, Etk. specialize (Hlt (3 + n)%nat ltac:(lia)). by replace (S (S (S (ticks a))) + n)%nat with (ticks a + (3 + n))%nat by lia.
Qed.

Lemma timely_lt a u v : timely a → (ticks a ≤ u ≤ v)%nat → (v ≤ ticks a + 8)%nat → 0 ≤ readings_of a u ∧ readings_of a v < instant_add (readings_of a u) ARP_RESOLVE_TIMEOUT.
Proof. intros Ht Hu Hv. destruct (Ht u v Hu Hv). lia. Qed.

(** Up to the loop: the gate is registered and the request is sent. *)
Lemma request_sent wait a nic i ip : attached a nic i → wait_queue a !! (nic, ip) = None →
  let g := length (gates a) in
  let a1 := put_frame nic (arp_frame Arp.Request i mac_broadcast (zeros 6) ip)
              (a <| wait_queue := <[(nic, ip) := g]> (wait_queue a) |> <| gates := gates a ++ [gate_new] |>) in
  send_arp_request wait ip nic a =
  ((λ h, while_loop (arp_round wait (nic, ip) g (instant_add (readings_of a (ticks a)) ARP_RESOLVE_TIMEOUT)) 3 h);;
   hset (λ h, h <| wait_queue := delete (nic, ip) (wait_queue h) |>)) (a1 <| ticks := S (ticks a) |>).
Proof.
  intros Ha Hq g a1. unfold send_arp_request. set (a0 := a <| wait_queue := _ |> <| gates := _ |>) in a1.
  assert (Eg : gate_for (nic, ip) a = Ret (g, a0)) by (unfold gate_for; by rewrite Hq). rewrite (hbind_run _ _ _ _ _ Eg).
  assert (Ha0 : attached a0 nic i) by (destruct Ha; by constructor).
  rewrite (hbind_run _ _ _ _ _ (interface_run a0 nic i Ha0)). cbn [unwrap]. rewrite (hbind_lift (Ret i) _ _ i eq_refl), (at_id _ _ _ Ha0).
  by rewrite (send_arp_packet Arp.Request i mac_broadcast (zeros 6) ip nic a0 Ha0 mac_broadcast_ok mac_zero_ok).
Qed.

(** An ARP frame for Ethernet and IPv4 as RFC 826 lays it out: destination,
    source and type of the Ethernet header, then the packet. *)
Definition rfc826_frame (dst src : MacAddress) (op : Z) (sha : MacAddress) (spa : Ipv4Addr) (tha : MacAddress) (tpa : Ipv4Addr) : list Z :=
  dst ++ src ++ [8; 6] ++ [0; 1; 8; 0; 6; 4; 0; op] ++ sha ++ octets spa ++ tha ++ octets tpa.

Lemma arp_frame_rfc826 op i dmac tmac tip :
  arp_frame op i dmac tmac tip = rfc826_frame dmac (local_mac_address i) (Arp.op_code op) (local_mac_address i) (local_ip i) tmac tip.
Proof. unfold arp_frame, rfc826_frame, Eth.as_bytes, Arp.as_bytes. cbn. rewrite <- !app_assoc. by destruct op. Qed.

(** C12: Resolving an address on the link that is not cached and that no other
    thread waits for, with interrupts enabled: the thread sends one request for
    it, to the broadcast address, and waits; the host that has the address
    answers that request with one frame to the asker; when the answer is the
    next frame to arrive, within the time limit, the thread is woken and gets
    that host's hardware address. *)
Theorem arp_exchange_resolves nic nicb ia ib a b rest :
  let request := rfc826_frame (replicate 6 255) (local_mac_address ia) 1 (local_mac_address ia) (local_ip ia) (replicate 6 0) (local_ip ib) in
  let reply := rfc826_frame (local_mac_address ia) (local_mac_address ib) 2 (local_mac_address ib) (local_ip ib) (local_mac_address ia) (local_ip ia) in
  attached a nic ia → host_ok a → irqs_enabled a = true → timely a → absent (nic, local_ip ib) (arp_cache a) → wait_queue a !! (nic, local_ip ib) = None →
  attached b nicb ib → host_ok b → local_internet_address ib = Some (local_ip ib) →
  returns (rx_frame nicb request b) (λ '(_, b'), sent b' = sent b ++ [(nicb, reply)]) ∧
  returns (get_mac_address app_wait (local_ip ib) nic (a <| incoming := (nic, reply) :: rest |>)) (λ '(r, a'),
    r = Some (local_mac_address ib) ∧ sent a' = sent a ++ [(nic, request)] ∧ incoming a' = rest).
Proof.
  intros request reply Hata Hoka Hirq Ht Habs Hq Hatb Hokb Hip. pose proof (at_mac _ _ _ Hata) as Hma. pose proof (at_mac _ _ _ Hatb) as Hmb.
  assert (request = arp_frame Arp.Request ia mac_broadcast (zeros 6) (local_ip ib)) as -> by (by rewrite arp_frame_rfc826).
  assert (reply = arp_frame Arp.Reply ib (local_mac_address ia) (local_mac_address ia) (local_ip ia)) as -> by (by rewrite arp_frame_rfc826).
  split. { eapply returns_mono; [by apply answer_request|]. intros [[] b'] (b1 & (c & n & _ & ->) & ->). done. }
  set (a0 := a <| incoming := _ |>). unfold get_mac_address.
  assert (E0 : arp_lookup (nic, local_ip ib) a0 = Ret (None, a0 <| ticks := S (ticks a) |>)) by (rewrite arp_lookup_run, lookup_absent by done; by destruct a).
  rewrite (hbind_run _ _ _ _ _ E0), hbind_get. change (irqs_enabled (a0 <| ticks := S (ticks a) |>)) with (irqs_enabled a). rewrite Hirq.
  set (a1 := a0 <| ticks := S (ticks a) |>). assert (Hat1 : attached a1 nic ia) by (destruct Hata; by constructor).
  pose proof (request_sent app_wait a1 nic ia (local_ip ib) Hat1 Hq) as Er. cbv zeta in Er. unfold mbind at 1, HM_bind at 1. rewrite Er. clear Er.
  set (a2 := (put_frame _ _ _) <| ticks := _ |>). set (g := length (gates a1)).
  destruct (request_loop nic ib (local_mac_address ia) (local_mac_address ia) (local_ip ia) a2 g (readings_of a (S (ticks a))) rest) as (a3 & t & El & Hc & Hlt & Hs & Hin); try done.
  - destruct Hoka. by constructor.
  - unfold a2, put_frame. rsimp. by rewrite lookup_insert_eq.
  - unfold a2, put_frame. rsimp. by rewrite lookup_app_r, Nat.sub_diag by lia.
  - apply (timely_lt a (S (ticks a)) (S (S (ticks a))) Ht); lia.
  - apply (timely_lt a (S (S (S (S (ticks a))))) (S (S (S (S (ticks a))))) Ht); lia.
  - intros v Hv. change (readings_of a2) with (readings_of a). change (ticks a2) with (S (S (ticks a))).
    destruct (Ht (S (S (ticks a)) + v)%nat (ticks a + 8)%nat ltac:(lia) ltac:(lia)) as [? _].
    destruct (Ht (S (S (S (S (ticks a))))) (ticks a + 8)%nat ltac:(lia) ltac:(lia)) as [_ ?]. lia.
  - rewrite (hbind_run _ _ _ _ _ El). unfold hset. rewrite arp_lookup_run. rsimp. destruct (lookup_cached _ _ _ _ _ Hc Hlt) as [Hv _].
    destruct (cache_lookup _ _ _) as [r c]. cbn [fst] in Hv. apply returns_ret. by rewrite Hv.
Qed.

Lemma arp_exchange_resolves_witness :
  let request := rfc826_frame (replicate 6 255) mac_a 1 mac_a (10, 0, 2, 15) (replicate 6 0) (10, 0, 2, 7) in
  let reply := rfc826_frame mac_a mac_b 2 mac_b (10, 0, 2, 7) mac_a (10, 0, 2, 15) in
  returns (rx_frame 0 request host_b) (λ '(_, b'), sent b' = [] ++ [(0, reply)]) ∧
  returns (get_mac_address app_wait (10, 0, 2, 7) 0 (host_a <| incoming := [(0, reply)] |>)) (λ '(r, a'),
    r = Some mac_b ∧ sent a' = [] ++ [(0, request)] ∧ incoming a' = []).
Proof.
  apply (arp_exchange_resolves 0 0 (card mac_a (10, 0, 2, 15)) (card mac_b (10, 0, 2, 7)) host_a host_b []).
  - apply (attached_host mac_a (10, 0, 2, 15) table_new); [split; [done|by apply byte_list]|by apply byte_list|vm_compute; reflexivity].
  - constructor; [done|apply routes_on_link].
  - reflexivity.
  - intros u v Hu Hv. unfold instant_add, sat_add, ARP_RESOLVE_TIMEOUT, secs. cbn [readings_of host_a host] in *. unfold host_a, host in *. cbn [ticks] in *. lia.
  - unfold absent. apply Forall_replicate. by intros [? _].
  - reflexivity.
  - apply (attached_host mac_b (10, 0, 2, 7) two_sockets); [split; [done|by apply byte_list]|by apply byte_list|vm_compute; reflexivity].
  - constructor; [done|apply routes_on_link].
  - reflexivity.
Defined.

(** C39: The time limit of a resolution has no effect: if no frame arrives any
    more, the thread that sent the request never returns, whatever the clock
    shows later. *)
Theorem unanswered_request_blocks_forever nic i ip a : attached a nic i → irqs_enabled a = true → absent (nic, ip) (arp_cache a) →
  wait_queue a !! (nic, ip) = None → incoming a = [] → readings_of a (S (S (ticks a))) < instant_add (readings_of a (S (ticks a))) ARP_RESOLVE_TIMEOUT →
  get_mac_address app_wait ip nic a = Crash Deadlock.
Proof.
  intros Hat Hirq Habs Hq Hin Ht. unfold get_mac_address.
  assert (E0 : arp_lookup (nic, ip) a = Ret (None, a <| ticks := S (ticks a) |>)) by (rewrite arp_lookup_run, lookup_absent by done; by destruct a).
  rewrite (hbind_run _ _ _ _ _ E0), hbind_get. change (irqs_enabled (a <| ticks := S (ticks a) |>)) with (irqs_enabled a). rewrite Hirq.
  set (a1 := a <| ticks := S (ticks a) |>). assert (Hat1 : attached a1 nic i) by (destruct Hat; by constructor).
  pose proof (request_sent app_wait a1 nic i ip Hat1 Hq) as Er. cbv zeta in Er. unfold mbind at 1, HM_bind at 1. rewrite Er. clear Er.
  set (a2 := (put_frame _ _ _) <| ticks := _ |>). set (g := length (gates a1)).
  assert (El : while_loop (arp_round app_wait (nic, ip) g (instant_add (readings_of a (S (ticks a))) ARP_RESOLVE_TIMEOUT)) 3 a2 = Crash Deadlock).
  { apply while_crash. unfold arp_round, hnow. cbn [mbind res_bind].
    change (readings_of a2 (ticks a2)) with (readings_of a (S (S (ticks a)))). rewrite (proj2 (Z.leb_gt _ _)) by done.
    rewrite arp_lookup_run, lookup_absent by done. cbn [mbind res_bind]. rewrite bool_decide_false by (by intros [? ?]). cbn [orb].
    set (a3 := a2 <| ticks := _ |> <| ticks := _ |> <| arp_cache := _ |>).
    assert (Eg : gate_is_open g a3 = false) by (unfold gate_is_open, a3, a2, put_frame; rsimp; by rewrite lookup_app_r, Nat.sub_diag by lia).
    assert (Ew : app_wait g a3 = Crash Deadlock). { unfold app_wait. change (incoming a3) with (incoming a). rewrite Hin. cbn [drain_until_open]. by rewrite Eg. }
    by rewrite Eg, Ew. }
  by rewrite (hbind_crash _ _ _ _ El).
Qed.

Lemma unanswered_request_blocks_forever_witness : get_mac_address app_wait (10, 0, 2, 7) 0 host_a = Crash Deadlock.
Proof.
  apply (unanswered_request_blocks_forever 0 (card mac_a (10, 0, 2, 15)) (10, 0, 2, 7) host_a).
  - apply (attached_host mac_a (10, 0, 2, 15) table_new); [split; [done|by apply byte_list]|by apply byte_list|vm_compute; reflexivity].
  - reflexivity.
  - unfold absent. apply Forall_replicate. by intros [? _].
  - reflexivity.
  - reflexivity.
  - vm_compute. reflexivity.
Defined.
End Arp.
