(* ===== verification/NetEcho.v ===== *)
(** * Echo requests

    The receive worker answers an echo request without waiting for ARP, since
    it has just learned where the answer goes; and the frames that stop it. *)

From S2P Require Import Prelude Bits Time TcpTypes TcpChecksum NetWorld NetTables NetHdr UdpSockets NetHost NetDeliver NetArp.

Section Echo.
Implicit Types (b h : Host) (i : NetworkInterface).

Lemma arp_insert_caches key mac h : host_ok h → returns (arp_insert key mac h) (λ '(_, h'), learned h h' ∧ ticks h' = S (ticks h) ∧
  cached key mac (instant_add (readings_of h (ticks h)) ARP_TTL) (arp_cache h')).
Proof.
  intros [Hc _]. unfold arp_insert, hnow. unfold mbind at 1, HM_bind at 1. rewrite hbind_get. cbn [id]. rsimp.
  destruct (insert_with_ttl_total (readings_of h (ticks h)) key mac ARP_TTL (arp_cache h) Hc) as (c & E & Hne).
  rewrite (hbind_lift _ _ _ _ E). apply returns_ret. split; [exists c, (S (ticks h)); split; [done|]; by destruct h|]. split; [done|]. by apply insert_cached in E.
Qed.

(** Where the answer to a packet goes is in the cache once it was learned from. *)
Lemma learn_caches nic ip hop mac h : host_ok h → ip_ok ip → ip ≠ unspecified → ip ≠ broadcast → resolve_next_hop ip (routes h) = Ret (Some hop) →
  hop = ip ∨ (hop ≠ unspecified ∧ hop ≠ broadcast) →
  returns (learn_from_ip_rx nic ip mac h) (λ '(_, h'), learned h h' ∧ ∃ u, (ticks h ≤ u < ticks h')%nat ∧ (ticks h' ≤ ticks h + 2)%nat ∧
    cached (nic, hop) mac (instant_add (readings_of h u) ARP_TTL) (arp_cache h')).
Proof.
  intros Hok Hip Hu Hb Hr Hhop. unfold learn_from_ip_rx. rewrite decide_False by (by intros [?|?]).
  destruct (arp_insert_caches (nic, ip) mac h Hok) as ([[] h1] & E1 & Hl1 & Ht1 & Hc1). rewrite (hbind_run _ _ _ _ _ E1), hbind_get.
  assert (Er : resolve_next_hop ip (routes h1) = Ret (Some hop)) by (destruct Hl1 as (c & n & _ & ->); done). rewrite (hbind_lift _ _ _ _ Er).
  assert (Hrd : readings_of h1 = readings_of h) by (destruct Hl1 as (c & n & _ & ->); done).
  case_decide as Hd.
  - destruct (arp_insert_caches (nic, hop) mac h1 (learned_ok _ _ Hl1 Hok)) as ([[] h2] & E2 & Hl2 & Ht2 & Hc2). rewrite E2. apply returns_ret.
    split; [by eapply learned_trans|]. exists (ticks h1). rewrite Hrd in Hc2. split; [lia|]. split; [lia|done].
  - apply returns_ret. split; [done|]. exists (ticks h). split; [lia|]. split; [lia|]. destruct Hhop as [->|[? ?]]; [done|].
    destruct (decide (hop = ip)) as [->|]; [done|]. by destruct Hd.
Qed.

(** The message with its checksum. *)
Definition ping_sum (hd : Ping.IcmpPacketHeader) (data : list Z) : Z := inet_checksum (Ping.as_bytes (hd <| Ping.checksum := 0 |>) ++ data).
Definition ping_message (hd : Ping.IcmpPacketHeader) (data : list Z) : list Z := Ping.as_bytes (hd <| Ping.checksum := ping_sum hd data |>) ++ data.

Lemma ping_bytes hd data : ping_ok hd → bytes data → bytes (Ping.as_bytes hd ++ data).
Proof.
  intros [] Hd. apply Forall_app_2; [|done]. unfold Ping.as_bytes. apply Forall_app_2; [by repeat apply Forall_cons_2|]. repeat apply Forall_app_2; apply be16_bytes.
Qed.

Lemma send_echo_reply_spec wait hd data ip nic i mac h h' : attached h nic i → attached h' nic i → resolves wait h nic ip mac h' → mac_ok mac → ip_ok ip →
  ping_ok hd → bytes data → zlen data ≤ 1514 →
  send_echo_reply wait hd data ip nic h =
  Ret (tt, put_frame nic (Eth.as_bytes (eth_header (local_mac_address i) mac Ether.Ipv4) ++ ip_packet Icmp i ip 0 (ping_message (hd <| Ping.message_byte := 0 |>) data)) h').
Proof.
  intros Ha Ha' Hres Hmac Hip Hping Hdata Hlen. pose proof (zlen_nonneg data). unfold send_echo_reply, Pkt.SLOT_SIZE.
  destruct (transmit_buffer_spec 1522) as (p & Ep & Hw & Hc & Hb & Hs & He & Hend); [lia|]. rewrite (hbind_lift _ _ _ _ Ep). cbv zeta.
  set (r := hd <| Ping.message_byte := 0 |> <| Ping.checksum := 0 |>). assert (Hr : ping_ok r) by (destruct Hping; constructor; unfold r; rsimp; try done; ints; lia).
  destruct (Pkt.append_data_spec (Ping.as_bytes r) p Hw) as (p1 & Ep1 & Hw1 & Hc1 & Hb1 & Hs1 & He1 & Hend1); [change (zlen (Ping.as_bytes r)) with 8; lia|].
  rewrite (hbind_lift _ _ _ _ Ep1). change (zlen (Ping.as_bytes r)) with 8 in He1.
  destruct (Pkt.append_data_spec data p1 Hw1) as (p2 & Ep2 & Hw2 & Hc2 & Hb2 & Hs2 & He2 & Hend2); [lia|].
  rewrite (hbind_lift _ _ _ _ Ep2), (hbind_lift _ _ _ _ (Pkt.payload_ret p2 Hw2)). rewrite Hc1, Hc in Hc2. cbn [app] in Hc2.
  assert (Hz : zlen (Pkt.contents p2) < U16) by (rewrite Hc2, zlen_app; change (zlen (Ping.as_bytes r)) with 8; lia).
  rewrite (hbind_lift _ _ _ _ (icmp_checksum_spec (Pkt.contents p2) ltac:(rewrite Hc2; by apply ping_bytes) Hz)), Hc2.
  assert (Ec : inet_checksum (Ping.as_bytes r ++ data) = ping_sum (hd <| Ping.message_byte := 0 |>) data) by reflexivity. rewrite Ec. set (c := ping_sum _ _).
  destruct (patch_payload p2 [0; Ping.code hd] (be16 0) (be16 c) (be16 (Ping.identifier hd) ++ be16 (Ping.sequence_number hd) ++ data) 2 Hw2) as (s & Es & Hw3 & Hc3); [|done|done|].
  { rewrite Hc2. reflexivity. }
  rewrite (hbind_lift _ _ _ _ Es).
  destruct (send_packet_spec wait h h' nic i Icmp (p2 <| Pkt.storage := s |>) ip 0 mac Ha Ha' Hres Hmac Hip ltac:(ints; lia) Hw3) as ([[b p3] h3] & E3 & -> & ->).
  { rsimp. unfold Eth.size, Ip.size. lia. }
  rewrite (hbind_run _ _ _ _ _ E3). unfold mret, HM_ret. by rewrite Hc3.
Qed.

Lemma ping_valid hd data : ping_ok hd → bytes data → checksum_valid (ping_message hd data).
Proof.
  intros Hok Hd. unfold checksum_valid, ping_message. set (c := ping_sum hd data). pose proof (inet_checksum_u16 (Ping.as_bytes (hd <| Ping.checksum := 0 |>) ++ data)) as Hc.
  fold (ping_sum hd data) in Hc. fold c in Hc.
  assert (Ew : word_sum (Ping.as_bytes (hd <| Ping.checksum := c |>) ++ data) = word_sum (Ping.as_bytes (hd <| Ping.checksum := 0 |>) ++ data) + c).
  { unfold Ping.as_bytes, be16. rsimp. cbn [app]. rewrite !word_sum_cons, (from_to_be16 c), (from_to_be16 0) by (done || (ints; lia)). lia. }
  rewrite Ew. unfold c, ping_sum, inet_checksum. apply ones_norm_complement. destruct Hok.
  unfold Ping.as_bytes, be16. rsimp. cbn [app]. rewrite !word_sum_cons, !from_to_be16 by (done || (ints; lia)).
  pose proof (word_sum_bound data Hd). unfold from_be16. ints. lia.
Qed.

(** The frame with an echo request from the host of [i]. *)
Definition echo_frame i (dmac : MacAddress) (dst : Ipv4Addr) (tos : Z) (hd : Ping.IcmpPacketHeader) (data : list Z) : list Z :=
  Eth.as_bytes (eth_header (local_mac_address i) dmac Ether.Ipv4) ++ ip_packet Icmp i dst tos (Ping.as_bytes hd ++ data).

(** A lookup of what is cached and not expired needs no request. *)
Lemma get_mac_cached wait nic hop mac t h : cached (nic, hop) mac t (arp_cache h) → readings_of h (ticks h) < t →
  ∃ h', get_mac_address wait hop nic h = Ret (Some mac, h') ∧ ifs h' = ifs h ∧ sent h' = sent h.
Proof.
  intros Hc Ht. unfold get_mac_address. pose proof (arp_lookup_run (nic, hop) h) as E. destruct (lookup_cached _ _ _ _ _ Hc Ht) as [Hv _].
  destruct (cache_lookup _ _ _) as [r c]. cbn [fst] in Hv. subst r. rewrite (hbind_run _ _ _ _ _ E). eexists. split; [done|]. done.
Qed.

(** C16: The receive worker answers an echo request of up to 1480 bytes at once,
    without waiting on ARP: one frame to the sender's hardware address, with the
    same identifier, sequence number and data, type 0 and a valid checksum.  The
    sender's address is neither 0.0.0.0 nor the broadcast address (see
    [echo_from_unspecified_stops_worker]) and there is a route to it, whose next
    hop is not such an address either. *)
Theorem echo_request_is_answered nic ia ib dmac dst tos hd data hop b :
  host_ok b → attached b nic ib → timely b → mac_ok (local_mac_address ia) → mac_ok dmac → ip_ok dst → u8 tos → ip_ok (local_ip ia) →
  local_ip ia ≠ unspecified → local_ip ia ≠ broadcast → resolve_next_hop (local_ip ia) (routes b) = Ret (Some hop) →
  hop = local_ip ia ∨ (hop ≠ unspecified ∧ hop ≠ broadcast) →
  ping_ok hd → Ping.message_byte hd = 8 → bytes data → zlen data ≤ 1480 →
  returns (rx_frame nic (echo_frame ia dmac dst tos hd data) b) (λ '(_, b'),
    ∃ message, sent b' = sent b ++ [(nic, Eth.as_bytes (eth_header (local_mac_address ib) (local_mac_address ia) Ether.Ipv4) ++ ip_packet Icmp ib (local_ip ia) 0 message)] ∧
    message = ping_message (hd <| Ping.message_byte := 0 |>) data ∧ checksum_valid message).
Proof.
  intros Hok Hat Ht Hma Hd Hdst Htos Hip Hu Hbc Hr Hhop Hping H8 Hdata Hlen. unfold echo_frame.
  destruct (rx_ip_frame nic ia dmac dst tos Icmp (Ping.as_bytes hd ++ data) b) as (b1 & p & ih & Hl & El & Hw & Hc & Esrc & _ & _ & E); try done.
  { rewrite zlen_app. change (zlen (Ping.as_bytes hd)) with 8. unfold Pkt.SLOT_SIZE, Eth.size, Ip.size. lia. }
  rewrite E, Esrc. clear E. destruct (learn_caches nic (local_ip ia) hop (local_mac_address ia) b Hok Hip Hu Hbc Hr Hhop) as ([[] b1'] & El' & _ & u & Hu1 & Hu2 & Hcc).
  rewrite El in El'. injection El' as <-. assert (Hsame : ifs b1 = ifs b ∧ routes b1 = routes b ∧ readings_of b1 = readings_of b ∧ sent b1 = sent b) by (destruct Hl as (c & n & _ & ->); done).
  destruct Hsame as (Eif & Ert & Erd & Esn).
  assert (Hlt : readings_of b1 (ticks b1) < instant_add (readings_of b u) ARP_TTL) by (rewrite Erd; apply ttl_later; apply (timely_lt b u (ticks b1) Ht); lia).
  destruct (get_mac_cached rx_wait nic hop _ _ b1 Hcc Hlt) as (b2 & Eg & Eif2 & Esn2).
  assert (Hat1 : attached b1 nic ib) by (destruct Hat; constructor; try done; by rewrite Eif).
  assert (Hat2 : attached b2 nic ib) by (destruct Hat1; constructor; try done; by rewrite Eif2).
  assert (Hres : resolves rx_wait b1 nic (local_ip ia) (local_mac_address ia) b2) by (right; split; [done|]; exists hop; by rewrite Ert).
  unfold icmp_process_data. unfold mbind at 1, HM_bind at 1.
  destruct (consume_header_spec Ping.size Ping.read p (Ping.as_bytes hd) data hd Hw Hc eq_refl (ping_read_bytes _ _ Hping)) as ([hd' p1] & E1 & -> & Hw1 & Hc1).
  rewrite (hbind_lift _ _ _ _ E1). assert (Em : Ping.message_type hd = Some Ping.EchoRequest) by (unfold Ping.message_type; by rewrite H8). rewrite Em.
  rewrite (hbind_lift _ _ _ _ (Pkt.payload_ret p1 Hw1)), Hc1.
  rewrite (hbind_run _ _ _ _ _ (send_echo_reply_spec rx_wait hd data (local_ip ia) nic ib (local_mac_address ia) b1 b2 Hat1 Hat2 Hres Hma Hip Hping Hdata ltac:(lia))).
  apply returns_ret. eexists. split; [unfold put_frame; rsimp; by rewrite Esn2, Esn|]. split; [done|].
  apply ping_valid; [destruct Hping; constructor; rsimp; try done; ints; lia|done].
Qed.

Lemma echo_request_is_answered_witness :
  returns (rx_frame 0 (echo_frame (card mac_a (10, 0, 2, 15)) mac_b (10, 0, 2, 7) 0 (Ping.mk 8 0 0 7 1) [97; 98; 99]) host_b) (λ '(_, b'),
    ∃ message, sent b' = sent host_b ++ [(0, Eth.as_bytes (eth_header mac_b mac_a Ether.Ipv4) ++ ip_packet Icmp (card mac_b (10, 0, 2, 7)) (10, 0, 2, 15) 0 message)] ∧
    message = ping_message (Ping.mk 0 0 0 7 1) [97; 98; 99] ∧ checksum_valid message).
Proof.
  apply (echo_request_is_answered 0 (card mac_a (10, 0, 2, 15)) (card mac_b (10, 0, 2, 7)) mac_b (10, 0, 2, 7) 0 (Ping.mk 8 0 0 7 1) [97; 98; 99] (10, 0, 2, 15) host_b).
  - constructor; [done|apply routes_on_link].
  - apply (attached_host mac_b (10, 0, 2, 7) two_sockets); [split; [done|by apply byte_list]|by apply byte_list|vm_compute; reflexivity].
  - intros u v Hu Hv. unfold instant_add, sat_add, ARP_RESOLVE_TIMEOUT, secs. cbn [readings_of host_b host] in *. unfold host_b, host in *. cbn [ticks] in *. lia.
  - split; [done|by apply byte_list].
  - split; [done|by apply byte_list].
  - by apply byte_list.
  - ints; lia.
  - by apply byte_list.
  - done.
  - done.
  - vm_compute. reflexivity.
  - by left.
  - constructor; ints; cbn; lia.
  - reflexivity.
  - by apply byte_list.
  - vm_compute. discriminate.
Defined.

(** An echo request that claims to come from 0.0.0.0 is not learned from: with
    a default route to a gateway that is not cached, the worker waits for an
    ARP reply that only the worker could receive. *)
Theorem echo_from_unspecified_stops_worker :
  let b := host_b <| routes := insert_for_interface (mkPrefix unspecified 0) 0 (Gateway (10, 0, 2, 2)) on_link |> in
  rx_frame 0 (echo_frame (card mac_a unspecified) mac_b (10, 0, 2, 7) 0 (Ping.mk 8 0 0 7 1) []) b = Crash Deadlock.
Proof. vm_compute. reflexivity. Qed.

(** A frame with an LLC/SNAP header for ARP is parsed with that header still in
    front, whose type field is taken for the operation: the kernel panics. *)
Theorem snap_arp_frame_panics :
  rx_frame 0 (mac_broadcast ++ mac_a ++ [0; 36] ++ [170; 170; 3; 0; 0; 0; 8; 6] ++ Arp.as_bytes (arp_packet Arp.Request (card mac_a (10, 0, 2, 15)) (zeros 6) (10, 0, 2, 7))) host_b = Crash Panic.
Proof. vm_compute. reflexivity. Qed.

(** So does a frame too short for the header it announces. *)
Theorem short_frame_panics : rx_frame 0 (mac_broadcast ++ mac_a ++ [8; 0; 69]) host_b = Crash Panic.
Proof. vm_compute. reflexivity. Qed.
End Echo.
