(* ===== verification/RxThread.v ===== *)
(** * The receive worker and the cards' interrupts

    [kernel/src/driver/net/rx_process_thread.rs] against [OneshotGate] and
    [Event] of [kernel/src/subsystem/scheduler.rs]: every step of the worker
    between two points where another processor or an interrupt can act, and
    the steps of [enqueue_frame] and [wake_for_vmbus]. *)

From stdpp Require Import relations.
From S2P Require Import Prelude TcpTypes NetWorld.

Definition RX_SLOTS : Z := 128.

(** [interface_id] and the frame in the slot. *)
Definition RxSlot : Type := Z * list Z.

(** Where the worker is. *)
Inductive worker :=
| Pop                        (** about to pop the queue *)
| Process (slot : RxSlot)    (** in [process_data] *)
| Rearm                      (** about to reset the gate *)
| CheckQueue | CheckGate     (** the two tests after the reset *)
| TestFlag                   (** in [wait], about to load the flag *)
| Register                   (** the flag was down; about to call [wait_on] *)
| Yield.                     (** in [yield_to_scheduler] *)

(** [opens]: calls of [open] that were begun and have not taken effect.
    [accepted] and [processed]: the frames queued and handled so far. *)
Record RxState := mkRx {
  rx_queue : list RxSlot;
  wake_gate : OneshotGate;
  at_ : worker;
  opens : nat;
  accepted : list RxSlot;
  processed : list RxSlot
}.
#[global] Instance eta_RxState : Eta RxState := λ r,
  mkRx (rx_queue r) (wake_gate r) (at_ r) (opens r) (accepted r) (processed r).

Definition rx_new : RxState := mkRx [] gate_new Pop 0 [] [].

(** The worker's thread. *)
Definition WORKER : Z := 0.

Definition push_slot (slot : RxSlot) (s : RxState) : RxState :=
  if (zlen slot.2 =? 0) || (Pkt.SLOT_SIZE <? zlen slot.2) then s else
  let s := s <| opens := S (opens s) |> in
  if RX_SLOTS <=? zlen (rx_queue s) then s
  else s <| rx_queue := rx_queue s ++ [slot] |> <| accepted := accepted s ++ [slot] |>.

Definition wake_for_vmbus (s : RxState) : RxState := s <| opens := S (opens s) |>.

Definition do_open (s : RxState) : RxState := s <| opens := pred (opens s) |> <| wake_gate := gate_open (wake_gate s) |>.

(** [Event::wait_on]. *)
Definition wait_on (thread : Z) (g : OneshotGate) : OneshotGate :=
  g <| gate_event; waiting_threads := waiting_threads (gate_event g) ++ [thread] |>.

(** A sleeping thread is not scheduled until a notification made it run. *)
Definition asleep (s : RxState) : bool :=
  match at_ s with Yield => bool_decide (WORKER ∈ waiting_threads (gate_event (wake_gate s))) | _ => false end.

Definition worker_step (s : RxState) : RxState :=
  match at_ s with
  | Pop =>
      match rx_queue s with
      | slot :: q => s <| rx_queue := q |> <| at_ := Process slot |>
      | [] => s <| at_ := Rearm |>
      end
  | Process slot => s <| processed := processed s ++ [slot] |> <| at_ := Pop |>
  | Rearm => s <| wake_gate := gate_reset (wake_gate s) |> <| at_ := CheckQueue |>
  | CheckQueue => s <| at_ := match rx_queue s with [] => CheckGate | _ => Pop end |>
  | CheckGate => s <| at_ := if gate_flag (wake_gate s) then Pop else TestFlag |>
  | TestFlag => s <| at_ := if gate_flag (wake_gate s) then Pop else Register |>
  | Register => s <| wake_gate := wait_on WORKER (wake_gate s) |> <| at_ := Yield |>
  | Yield => if asleep s then s else s <| at_ := TestFlag |>
  end.

Inductive rx_step : RxState → RxState → Prop :=
| rx_work s : rx_step s (worker_step s)
| rx_push s slot : rx_step s (push_slot slot s)
| rx_wake s : rx_step s (wake_for_vmbus s)
| rx_open s : (0 < opens s)%nat → rx_step s (do_open s).

(** The same, when no [open] falls between the worker's test of the flag and
    its registration as a waiter. *)
Inductive timely_step : RxState → RxState → Prop :=
| timely s s' : rx_step s s' → ¬ (at_ s = Register ∧ (opens s' < opens s)%nat) → timely_step s s'.

(** The slot in the worker's hands. *)
Definition in_hand (s : RxState) : list RxSlot := match at_ s with Process slot => [slot] | _ => [] end.

Lemma push_slot_at slot s : at_ (push_slot slot s) = at_ s ∧ wake_gate (push_slot slot s) = wake_gate s ∧ processed (push_slot slot s) = processed s.
Proof. unfold push_slot. destruct (_ || _); [done|]. by destruct (RX_SLOTS <=? _). Qed.

(** ** Frames are handled once and in order *)

Record frames_kept (s : RxState) : Prop := {
  fk_order : accepted s = processed s ++ in_hand s ++ rx_queue s;
  fk_room : zlen (rx_queue s) ≤ RX_SLOTS
}.

Lemma rx_step_frames s s' : rx_step s s' → frames_kept s → frames_kept s'.
Proof.
  destruct 1 as [s|s slot|s|s Ho]; intros [Hord Hroom].
  - unfold worker_step, in_hand in *. destruct (at_ s) eqn:Ea.
    + destruct (rx_queue s) as [|slot q] eqn:Eq; constructor; unfold in_hand; rsimp; cbn [app] in *; rewrite ?Eq; try done.
      rewrite zlen_cons in Hroom. lia.
    + constructor; unfold in_hand; rsimp; [|done]. by rewrite <- app_assoc.
    + by constructor; unfold in_hand; rsimp.
    + by constructor; unfold in_hand; rsimp; destruct (rx_queue s).
    + by constructor; unfold in_hand; rsimp; destruct (gate_flag (wake_gate s)).
    + by constructor; unfold in_hand; rsimp; destruct (gate_flag (wake_gate s)).
    + by constructor; unfold in_hand; rsimp.
    + destruct (asleep s); constructor; unfold in_hand; rsimp; rewrite ?Ea; done.
  - unfold push_slot. destruct (_ || _); [by constructor|]. cbv zeta. rsimp.
    destruct (Z.leb_spec RX_SLOTS (zlen (rx_queue s))); constructor; unfold in_hand in *; rsimp; try done.
    + by rewrite Hord, <- !app_assoc.
    + rewrite zlen_app, zlen_cons, zlen_nil. lia.
  - by constructor.
  - by constructor.
Qed.

Lemma rx_reachable_frames s : rtc rx_step rx_new s → frames_kept s.
Proof.
  intros Hr. assert (H0 : frames_kept rx_new) by (constructor; [done|vm_compute; discriminate]). induction Hr; eauto using rx_step_frames.
Qed.

(** ** No frame waits for a sleeping worker *)

Definition stranded (s : RxState) : Prop := rx_queue s ≠ [] ∧ asleep s = true ∧ opens s = O.

Definition is_waiting (s : RxState) : Prop := WORKER ∈ waiting_threads (gate_event (wake_gate s)).

(** What the worker relies on at each point. *)
Definition armed (s : RxState) : Prop :=
  match at_ s with
  | CheckGate | TestFlag => ¬ is_waiting s ∧ (rx_queue s ≠ [] → gate_flag (wake_gate s) = true ∨ (0 < opens s)%nat)
  | Register => ¬ is_waiting s ∧ (rx_queue s ≠ [] → (0 < opens s)%nat)
  | Yield => (is_waiting s → rx_queue s ≠ [] → (0 < opens s)%nat) ∧ (¬ is_waiting s → gate_flag (wake_gate s) = true)
  | _ => ¬ is_waiting s
  end.

Lemma opened_not_waiting s : ¬ is_waiting (do_open s).
Proof. unfold is_waiting, do_open, gate_open, event_notify. rsimp. apply not_elem_of_nil. Qed.

Lemma worker_step_armed s : armed s → armed (worker_step s).
Proof.
  unfold armed at 1. intros Ha. unfold worker_step. destruct (at_ s) eqn:E.
  - destruct (rx_queue s); unfold armed, is_waiting in *; rsimp; done.
  - unfold armed, is_waiting in *; rsimp; done.
  - unfold armed, is_waiting in *. rsimp. done.
  - destruct (rx_queue s) eqn:Eq; unfold armed, is_waiting in *; rsimp; [|done]. split; [done|]. by rewrite Eq.
  - destruct Ha as [Hw Hq]. destruct (gate_flag (wake_gate s)) eqn:Ef; unfold armed, is_waiting in *; rsimp; [done|]. by rewrite Ef.
  - destruct Ha as [Hw Hq]. destruct (gate_flag (wake_gate s)) eqn:Ef; unfold armed, is_waiting in *; rsimp; [done|].
    split; [done|]. intros Hne. by destruct (Hq Hne).
  - destruct Ha as [Hw Hq]. unfold armed, is_waiting in *. rsimp. split; [done|]. intros Hn. destruct Hn. unfold wait_on. rsimp. apply elem_of_app. right. by left.
  - destruct Ha as [Hw Hn]. unfold asleep. rewrite E. case_bool_decide as Hwait; unfold armed; rsimp; rewrite ?E.
    + done.
    + unfold is_waiting in *. rsimp. split; [done|]. auto.
Qed.

Lemma push_slot_armed slot s : armed s → armed (push_slot slot s).
Proof.
  intros Ha. destruct (push_slot_at slot s) as (Ea & Eg & _). assert (Ho : rx_queue (push_slot slot s) = rx_queue s ∨ (0 < opens (push_slot slot s))%nat).
  { unfold push_slot. destruct (_ || _); [by left|]. destruct (RX_SLOTS <=? _); right; rsimp; lia. }
  assert (Hm : (0 < opens s)%nat → (0 < opens (push_slot slot s))%nat).
  { unfold push_slot. destruct (_ || _); [done|]. destruct (RX_SLOTS <=? _); rsimp; lia. }
  unfold armed, is_waiting in *. rewrite Ea, Eg. destruct (at_ s); try done.
  all: destruct Ha as [Ha1 Ha2]; split; [try done|try done].
  - intros Hq. destruct Ho as [Ho|Ho]; [|by right]. rewrite Ho in Hq. destruct (Ha2 Hq); [by left|right; auto].
  - intros Hq. destruct Ho as [Ho|Ho]; [|by right]. rewrite Ho in Hq. destruct (Ha2 Hq); [by left|right; auto].
  - intros Hq. destruct Ho as [Ho|Ho]; [|done]. rewrite Ho in Hq. auto.
  - intros Hw Hq. destruct Ho as [Ho|Ho]; [|done]. rewrite Ho in Hq. auto.
Qed.

Lemma timely_step_armed s s' : timely_step s s' → armed s → armed s'.
Proof.
  intros [s0 s1 Hs Hn] Ha. clear s s'. destruct Hs as [s|s slot|s|s Ho].
  - by apply worker_step_armed.
  - by apply push_slot_armed.
  - unfold armed, wake_for_vmbus, is_waiting in *. rsimp. destruct (at_ s); try done.
    all: destruct Ha as [Ha1 Ha2]; split; [try done|try done]; intros; try (right; lia); lia.
  - pose proof (opened_not_waiting s) as Hw. assert (Hf : gate_flag (wake_gate (do_open s)) = true) by done.
    unfold armed. change (at_ (do_open s)) with (at_ s). destruct (at_ s) eqn:E; try done.
    + split; [done|]. by left.
    + split; [done|]. by left.
    + exfalso. apply Hn. split; [done|]. unfold do_open. rsimp. lia.
Qed.

Lemma armed_not_stranded s : armed s → ¬ stranded s.
Proof.
  intros Ha (Hq & Hs & Ho). unfold asleep in Hs. unfold armed in Ha. destruct (at_ s); try done. apply bool_decide_eq_true in Hs.
  destruct Ha as [Ha _]. specialize (Ha Hs Hq). lia.
Qed.

(** C13: The receive worker against the interrupts.  In every interleaving the
    queue stays within its 128 slots and the frames accepted are handled once
    each, in their order; and unless an [open] falls between the test of the
    flag in [OneshotGate::wait] and the registration of the waiter, the worker
    never sleeps while a frame is queued and no wake-up is under way. *)
Theorem rx_worker_handles_frames s :
  (rtc rx_step rx_new s → accepted s = processed s ++ in_hand s ++ rx_queue s ∧ zlen (rx_queue s) ≤ RX_SLOTS) ∧
  (rtc timely_step rx_new s → ¬ stranded s).
Proof.
  split.
  - intros Hr. by destruct (rx_reachable_frames s Hr).
  - intros Hr. apply armed_not_stranded. assert (H0 : armed rx_new) by (unfold armed, is_waiting; cbn; apply not_elem_of_nil).
    induction Hr; eauto using timely_step_armed.
Qed.

(** A frame is queued while the worker is on its way to sleep. *)
Definition busy_state : RxState := worker_step (push_slot (0, [1]) (worker_step rx_new)).

Lemma rx_worker_handles_frames_witness :
  (accepted busy_state = [(0, [1])] ∧ accepted busy_state = processed busy_state ++ in_hand busy_state ++ rx_queue busy_state ∧ zlen (rx_queue busy_state) ≤ RX_SLOTS) ∧
  ¬ stranded busy_state.
Proof.
  destruct (rx_worker_handles_frames busy_state) as [H1 H2]. split.
  - split; [reflexivity|]. apply H1. eapply rtc_r; [eapply rtc_r; [apply rtc_once, rx_work|apply rx_push]|apply rx_work].
  - apply H2. eapply rtc_r; [eapply rtc_r; [apply rtc_once; constructor; [apply rx_work|by intros [? _]]|constructor; [apply rx_push|by intros [? _]]]|constructor; [apply rx_work|by intros [? _]]].
Defined.

Definition stranded_state : RxState :=
  worker_step (do_open (push_slot (0, [1]) (worker_step (worker_step (worker_step (worker_step (worker_step rx_new))))))).

(** The window is real: a frame that arrives in it stays in the queue while the
    worker sleeps with the gate open, and nothing but another arrival or
    [wake_for_vmbus] changes that. *)
Theorem open_before_registration_is_lost :
  rtc rx_step rx_new stranded_state ∧ stranded stranded_state ∧ gate_flag (wake_gate stranded_state) = true ∧ worker_step stranded_state = stranded_state.
Proof.
  split.
  - unfold stranded_state. repeat (eapply rtc_r; [|first [apply rx_work|apply rx_open; vm_compute; lia|apply rx_push]]). apply rtc_refl.
  - split; [|done]. split; [done|]. split; done.
Qed.
