(* ===== verification/Dns.v ===== *)
(** * The DNS resolver

    [kernel/src/driver/net/proto/dns.rs]: questions and records on the wire,
    the matching of responses to pending queries, the cache, and the blocking
    lookup.  Names are UTF-8 byte strings.  The UDP socket is a parameter:
    what [socket_send_to] does with a packet, and what arrives. *)

From S2P Require Import Prelude Bits Time Utf8 TcpTypes TcpChecksum NetTables.

Definition DNS_SERVER_PORT : Z := 53.
Definition DNS_RESOLVE_TIMEOUT : Duration := secs 5.
Definition DNS_QUERY_ATTEMPT_TIMEOUT : Duration := ms 1500.
Definition DNS_QUERY_RETRIES : nat := 3.
Definition DNS_RECV_BUFFER_SIZE : Z := 512.
Definition CNAME_HINT_TTL : Duration := secs 60.

(** ** Messages *)

Record DnsFrameHeader := mkDnsHeader {
  transaction_id : Z;
  dns_flags : Z;
  number_of_questions : Z;
  number_of_answers : Z;
  number_of_authority_records : Z;
  number_of_additional_records : Z
}.

Definition dns_header_bytes (h : DnsFrameHeader) : list Z :=
  be16 (transaction_id h) ++ be16 (dns_flags h) ++ be16 (number_of_questions h) ++ be16 (number_of_answers h) ++
  be16 (number_of_authority_records h) ++ be16 (number_of_additional_records h).

(** [read_from_prefix]: the header and what follows it. *)
Definition dns_header_read (b : list Z) : option (DnsFrameHeader * list Z) :=
  match b with
  | i0 :: i1 :: f0 :: f1 :: q0 :: q1 :: a0 :: a1 :: n0 :: n1 :: x0 :: x1 :: rest =>
      Some (mkDnsHeader (from_be16 i0 i1) (from_be16 f0 f1) (from_be16 q0 q1) (from_be16 a0 a1) (from_be16 n0 n1) (from_be16 x0 x1), rest)
  | _ => None
  end.

Definition is_response (h : DnsFrameHeader) : bool := negb (Z.land (dns_flags h) 32768 =? 0).
Definition response_code (h : DnsFrameHeader) : Z := Z.land (dns_flags h) 15.

Inductive DnsRecordType := RecA | RecNs | RecCname | RecMx | RecAaaa.
Definition record_code (t : DnsRecordType) : Z := match t with RecA => 1 | RecNs => 2 | RecCname => 5 | RecMx => 15 | RecAaaa => 28 end.
Definition record_try_from (value : Z) : option DnsRecordType :=
  if value =? 1 then Some RecA else if value =? 2 then Some RecNs else if value =? 5 then Some RecCname else
  if value =? 15 then Some RecMx else if value =? 28 then Some RecAaaa else None.

#[global] Instance DnsRecordType_eq_dec : EqDecision DnsRecordType.
Proof. solve_decision. Defined.
#[global] Program Instance DnsRecordType_countable : Countable DnsRecordType :=
  inj_countable record_code record_try_from _.
Next Obligation. by intros []. Qed.

Definition CLASS_IN : Z := 1.

(** [DnsQuestion::to_bytes], of class IN. *)
Definition label_bytes (label : list Z) : res (list Z) :=
  rassert (zlen label <? 64);; Ret ((zlen label mod U8) :: label).

Fixpoint labels_bytes (labels : list (list Z)) : res (list Z) :=
  match labels with
  | [] => Ret []
  | l :: labels => b ← label_bytes l; rest ← labels_bytes labels; Ret (b ++ rest)
  end.

Definition question_bytes (domain_name : list Z) (record_type : DnsRecordType) : res (list Z) :=
  b ← labels_bytes (split 46 domain_name);
  Ret (b ++ [0] ++ be16 (record_code record_type) ++ be16 CLASS_IN).

(** [labels.join(".")]. *)
Fixpoint join (sep : Z) (labels : list (list Z)) : list Z :=
  match labels with
  | [] => []
  | [l] => l
  | l :: labels => l ++ sep :: join sep labels
  end.

(** The variables of the loop of [parse_name]. *)
Record name_state := mkName {
  labels : list (list Z);
  cursor : Z;
  end_cursor : option Z;
  jumps : Z
}.

(** One round; [jumped] of the source is [end_cursor] being set. *)
Definition name_step (payload : list Z) (s : name_state) : res (name_state + option (list (list Z) * Z)) :=
  if zlen payload <=? cursor s then Ret (inr (Some (labels s, default (cursor s) (end_cursor s)))) else
  byte ← index payload (cursor s);
  if byte =? 0 then Ret (inr (Some (labels s, default (cursor s + 1) (end_cursor s)))) else
  if Z.land byte 192 =? 192 then
    if zlen payload <=? cursor s + 1 then Ret (inr None) else
    low ← index payload (cursor s + 1);
    let pointer := Z.lor (Z.shiftl (Z.land byte 63) 8) low in
    let e := match end_cursor s with Some e => e | None => cursor s + 2 end in
    j ← add_chk U8 (jumps s) 1;
    if 5 <? j then Ret (inr None) else Ret (inl (mkName (labels s) pointer (Some e) j))
  else
    let c := cursor s + 1 in
    if zlen payload <? c + byte then Ret (inr None) else
    b ← slice payload c (c + byte);
    match from_utf8 b with
    | None => Ret (inr None)
    | Some label => Ret (inl (mkName (labels s ++ [label]) (c + byte) (end_cursor s) (jumps s)))
    end.

(** Between two jumps the cursor only moves forwards, and there are at most
    five jumps. *)
Definition name_bound (payload : list Z) : positive := Pos.of_succ_nat (6 * (length payload + 1)).

Definition parse_name (payload : list Z) (offset : Z) : res (option (list Z * Z)) :=
  r ← while_loop (name_step payload) (name_bound payload) (mkName [] offset None 0);
  Ret (option_map (λ '(ls, c), (join 46 ls, c)) r).

Record DnsResourceRecord := mkRecord {
  rec_name : list Z;
  rec_type : DnsRecordType;
  rec_ttl : Z;
  rec_data : list Z
}.

(** [DnsResourceRecord::parse]; the class is always IN. *)
Definition parse_record (payload : list Z) (start_offset : Z) : res (option (DnsResourceRecord * Z)) :=
  n ← parse_name payload start_offset;
  match n with
  | None => Ret None
  | Some (name, c) =>
      if zlen payload <? c + 10 then Ret None else
      t0 ← index payload c; t1 ← index payload (c + 1);
      match record_try_from (from_be16 t0 t1) with
      | None => Ret None
      | Some ty =>
          c0 ← index payload (c + 2); c1 ← index payload (c + 3);
          if negb (from_be16 c0 c1 =? CLASS_IN) then Ret None else
          l0 ← index payload (c + 4); l1 ← index payload (c + 5); l2 ← index payload (c + 6); l3 ← index payload (c + 7);
          r0 ← index payload (c + 8); r1 ← index payload (c + 9);
          let rd_length := from_be16 r0 r1 in
          let c := c + 10 in
          if zlen payload <? c + rd_length then Ret None else
          data ← slice payload c (c + rd_length);
          Ret (Some (mkRecord name ty (from_be32 l0 l1 l2 l3) data, c + rd_length))
      end
  end.

(** ** The driver *)

Record PendingQuery := mkPending { pq_name : list Z; pq_type : DnsRecordType; pq_gate : nat }.
Record DnsCacheEntry := mkAnswer { ans_addresses : list Ipv4Addr; ans_expires : Instant }.
Record CnameHint := mkHint { hint_target : list Z; hint_expires : Instant }.

Abbreviation name_key := (list Z * DnsRecordType)%type.

(** [dns_gates] are the gates of the queries; [dns_sent] the packets given to
    the socket; [dns_arriving] the datagrams the worker has yet to receive;
    [dns_clock n] the n-th reading of the clock. *)
Record Dns := mkDns {
  dns_socket : bool;
  dns_servers : list Ipv4Addr;
  pending : gmap Z PendingQuery;
  dns_cache : gmap name_key DnsCacheEntry;
  cname_hints : gmap name_key CnameHint;
  next_transaction : Z;
  dns_gates : list OneshotGate;
  dns_sent : list (Ipv4Addr * list Z);
  dns_arriving : list (list Z);
  dns_clock : nat → Instant;
  dns_ticks : nat
}.
#[global] Instance eta_Dns : Eta Dns := λ r,
  mkDns (dns_socket r) (dns_servers r) (pending r) (dns_cache r) (cname_hints r) (next_transaction r) (dns_gates r)
    (dns_sent r) (dns_arriving r) (dns_clock r) (dns_ticks r).

Definition dns_new (clock : nat → Instant) : Dns := mkDns false [] ∅ ∅ ∅ 4096 [] [] [] clock 0.

(** [initialize]; [bound] is whether the socket could be bound. *)
Definition initialize (bound : bool) (d : Dns) : res Dns := if bound then Ret (d <| dns_socket := true |>) else Crash Panic.

Definition configure (servers : list Ipv4Addr) (d : Dns) : Dns := if decide (servers = []) then d else d <| dns_servers := servers |>.

Definition dns_now (d : Dns) : Instant * Dns := (dns_clock d (dns_ticks d), d <| dns_ticks := S (dns_ticks d) |>).
Definition open_gate (g : nat) (d : Dns) : Dns := d <| dns_gates := alter gate_open g (dns_gates d) |>.
Definition dns_gate_is_open (g : nat) (d : Dns) : bool := match dns_gates d !! g with Some x => gate_flag x | None => false end.

Definition fail_pending (id : Z) (d : Dns) : Dns :=
  match pending d !! id with
  | Some q => open_gate (pq_gate q) (d <| pending := delete id (pending d) |>)
  | None => d
  end.

(** What the answers of a response say. *)
Record answers_seen := mkSeen { seen_addresses : list Ipv4Addr; seen_ttl : Z; seen_target : option (list Z) }.

Definition see_record (r : DnsResourceRecord) (s : answers_seen) : res answers_seen :=
  match rec_type r, rec_data r with
  | RecA, [a; b; c; d] => Ret (mkSeen (seen_addresses s ++ [(a, b, c, d)]) (Z.min (seen_ttl s) (rec_ttl r)) (seen_target s))
  | RecCname, data =>
      t ← parse_name data 0;
      Ret (match t with Some (target, _) => mkSeen (seen_addresses s) (seen_ttl s) (Some target) | None => s end)
  | _, _ => Ret s
  end.

Fixpoint read_answers (n : nat) (payload : list Z) (c : Z) (s : answers_seen) : res answers_seen :=
  match n with
  | O => Ret s
  | S n =>
      r ← parse_record payload c;
      match r with
      | None => Ret s
      | Some (rec, next) => s ← see_record rec s; read_answers n payload next s
      end
  end.

(** [receive_and_process_one] on the bytes that are in the buffer. *)
Definition process_response (bytes : list Z) (d : Dns) : res Dns :=
  match dns_header_read bytes with
  | None => Ret d
  | Some (header, payload) =>
      if negb (is_response header) then Ret d else
      if negb (response_code header =? 0) then Ret (fail_pending (transaction_id header) d) else
      q ← parse_name payload 0;
      match q with
      | None => Ret d
      | Some (question_name, c) =>
          match pending d !! transaction_id header with
          | None => Ret d
          | Some request =>
              let d := d <| pending := delete (transaction_id header) (pending d) |> in
              if decide (pq_name request ≠ question_name) then Ret (open_gate (pq_gate request) d) else
              s ← read_answers (Z.to_nat (number_of_answers header)) payload (c + 4) (mkSeen [] (U32 - 1) None);
              let key := (pq_name request, pq_type request) in
              match seen_addresses s with
              | [] =>
                  let d := match seen_target s with
                           | Some target =>
                               let '(now, d) := dns_now d in
                               d <| cname_hints := <[key := mkHint target (instant_add now CNAME_HINT_TTL)]> (cname_hints d) |>
                           | None => d
                           end in
                  Ret (open_gate (pq_gate request) d)
              | addresses =>
                  let '(now, d) := dns_now d in
                  Ret (open_gate (pq_gate request)
                    (d <| dns_cache := <[key := mkAnswer addresses (instant_add now (secs (Z.max (seen_ttl s) 1)))]> (dns_cache d) |>))
              end
          end
      end
  end.

(** The worker's buffer takes the first 512 bytes of a datagram;
    [socket_recv_from] drops the others. *)
Definition receive_and_process_one (datagram : list Z) (d : Dns) : res Dns :=
  process_response (ztake DNS_RECV_BUFFER_SIZE datagram) d.

(** [send_query]; [false] is [Err(())]. *)
Definition query_bytes (domain_name : list Z) (record_type : DnsRecordType) (id : Z) : res (list Z) :=
  q ← question_bytes domain_name record_type;
  Ret (dns_header_bytes (mkDnsHeader id 256 1 0 0 0) ++ q).

Definition send_query (domain_name : list Z) (record_type : DnsRecordType) (id : Z) (server : Ipv4Addr) (d : Dns) : res (bool * Dns) :=
  packet ← query_bytes domain_name record_type id;
  if dns_socket d then Ret (true, d <| dns_sent := dns_sent d ++ [(server, packet)] |>) else Ret (false, d).

(** The entry for [key], if it is valid and has addresses. *)
Definition cached_answer (key : name_key) (d : Dns) : option (list Ipv4Addr) * Dns :=
  match dns_cache d !! key with
  | None => (None, d)
  | Some e =>
      let '(now, d) := dns_now d in
      (if (now <? ans_expires e) && bool_decide (ans_addresses e ≠ []) then Some (ans_addresses e) else None, d)
  end.

(** While the caller is blocked in [gate.wait()], the worker receives. *)
Fixpoint dns_drain (g : nat) (datagrams : list (list Z)) (d : Dns) : res Dns :=
  if dns_gate_is_open g d then Ret (d <| dns_arriving := datagrams |>) else
  match datagrams with
  | [] => Crash Deadlock
  | b :: datagrams => d ← receive_and_process_one b d; dns_drain g datagrams d
  end.
Definition dns_wait (g : nat) (d : Dns) : res Dns := dns_drain g (dns_arriving d) d.

(** A round of [wait_for_result_until]; the inner option is the early return. *)
Definition result_round (g : nat) (key : name_key) (deadline : Instant) (d : Dns) : res (Dns + option (list Ipv4Addr) * Dns) :=
  let '(now, d) := dns_now d in
  if deadline <=? now then let '(r, d) := cached_answer key d in Ret (inr (r, d)) else
  match cached_answer key d with
  | (Some a, d) => Ret (inr (Some a, d))
  | (None, d) =>
      if dns_gate_is_open g d then let '(r, d) := cached_answer key d in Ret (inr (r, d)) else
      d ← dns_wait g d; Ret (inl d)
  end.

Definition wait_for_result_until (g : nat) (key : name_key) (deadline : Instant) (d : Dns) : res (option (list Ipv4Addr) * Dns) :=
  while_loop (result_round g key deadline) 3 d.

Fixpoint attempts (n : nat) (name : list Z) (ty : DnsRecordType) (id : Z) (server : Ipv4Addr) (g : nat) (overall : Instant) (d : Dns)
  : res (option (list Ipv4Addr) * Dns) :=
  match n with
  | O => Ret (None, d)
  | S n =>
      '(sent, d) ← send_query name ty id server d;
      if negb sent then Ret (None, d) else
      let '(now, d) := dns_now d in
      '(result, d) ← wait_for_result_until g (name, ty) (Z.min (instant_add now DNS_QUERY_ATTEMPT_TIMEOUT) overall) d;
      match result with
      | Some a => Ret (Some a, d)
      | None =>
          if dns_gate_is_open g d then Ret (None, d) else
          let '(now, d) := dns_now d in
          if overall <=? now then Ret (None, d) else attempts n name ty id server g overall d
      end
  end.

Definition resolve_once (name : list Z) (ty : DnsRecordType) (d : Dns) : res (option (list Ipv4Addr) * Dns) :=
  match dns_servers d with
  | [] => Ret (None, d)
  | server :: _ =>
      let id := next_transaction d in
      let g := length (dns_gates d) in
      let d := d <| next_transaction := (id + 1) mod U16 |> <| dns_gates := dns_gates d ++ [gate_new] |>
                 <| pending := <[id := mkPending name ty g]> (pending d) |> in
      let '(now, d) := dns_now d in
      '(result, d) ← attempts DNS_QUERY_RETRIES name ty id server g (instant_add now DNS_RESOLVE_TIMEOUT) d;
      Ret (result, d <| pending := delete id (pending d) |>)
  end.

Fixpoint resolve_hops (n : nat) (name : list Z) (ty : DnsRecordType) (d : Dns) : res (option (list Ipv4Addr) * Dns) :=
  match n with
  | O => Ret (None, d)
  | S n =>
      match cached_answer (name, ty) d with
      | (Some a, d) => Ret (Some a, d)
      | (None, d) =>
          '(r, d) ← resolve_once name ty d;
          if decide (default [] r ≠ []) then Ret (r, d) else
          match cname_hints d !! (name, ty) with
          | None => Ret (None, d)
          | Some hint =>
              let d := d <| cname_hints := delete (name, ty) (cname_hints d) |> in
              let '(now, d) := dns_now d in
              if now <? hint_expires hint then resolve_hops n (hint_target hint) ty d else Ret (None, d)
          end
      end
  end.
Definition resolve (name : list Z) (ty : DnsRecordType) (d : Dns) : res (option (list Ipv4Addr) * Dns) := resolve_hops 8 name ty d.
Definition resolve_a (name : list Z) (d : Dns) : res (option (list Ipv4Addr) * Dns) := resolve name RecA d.
