(* ===== verification/DnsProofs.v ===== *)
(** * What the DNS resolver guarantees

    Parsing of names ends on every input and inverts the encoding of
    questions; a response changes the cache only under the pending query it
    answers; and a lookup returns the addresses of the response to its query. *)

From S2P Require Import Prelude Bits Time Utf8 TcpTypes TcpChecksum NetTables Dns.

(** ** Names *)

Lemma slice_bytes l i j b : bytes l → slice l i j = Ret b → bytes b.
Proof. intros Hl. unfold slice. destruct (_ && _); [|done]. intros [= <-]. unfold ztake, zdrop. by apply Forall_take, Forall_drop. Qed.

Section Names.
Implicit Types (payload : list Z) (s : name_state).

Lemma name_step_total payload s : bytes payload → 0 ≤ cursor s → 0 ≤ jumps s ≤ 5 →
  returns (name_step payload s) (λ r, match r with
    | inl s' => 0 ≤ cursor s' ∧ 0 ≤ jumps s' ≤ 5 ∧
        0 ≤ (5 - jumps s') * (zlen payload + 1) + Z.max 0 (zlen payload - cursor s') <
        (5 - jumps s) * (zlen payload + 1) + Z.max 0 (zlen payload - cursor s)
    | inr _ => True
    end).
Proof.
  intros Hb Hc Hj. pose proof (zlen_nonneg payload). unfold name_step. destruct (Z.leb_spec (zlen payload) (cursor s)); [by apply returns_ret|].
  rewrite (index_ret payload (cursor s)), ret_bind by lia. pose proof (byte_at_u8 payload (cursor s) Hb) as Hbyte. set (x := byte_at payload (cursor s)) in *. ints.
  destruct (Z.eqb_spec x 0); [by apply returns_ret|]. destruct (Z.eqb_spec (Z.land x 192) 192).
  - destruct (Z.leb_spec (zlen payload) (cursor s + 1)); [by apply returns_ret|]. rewrite (index_ret payload (cursor s + 1)), ret_bind by lia.
    rewrite add_chk_ret, ret_bind by lia. destruct (Z.ltb_spec 5 (jumps s + 1)); [by apply returns_ret|]. apply returns_ret. cbn [cursor jumps].
    pose proof (byte_at_u8 payload (cursor s + 1) Hb). set (y := byte_at payload (cursor s + 1)) in *.
    assert (0 ≤ Z.lor (Z.shiftl (Z.land x 63) 8) y). { apply Z.lor_nonneg. split; [apply Z.shiftl_nonneg, Z.land_nonneg; lia|ints; lia]. }
    split; [done|]. split; [lia|]. nia.
  - cbv zeta. destruct (Z.ltb_spec (zlen payload) (cursor s + 1 + x)); [by apply returns_ret|]. rewrite slice_ret, ret_bind by lia.
    destruct (from_utf8 _); apply returns_ret; [|done]. cbn [cursor jumps].
    assert (0 ≤ (5 - jumps s) * (zlen payload + 1)) by nia. lia.
Qed.

(** Whatever the bytes, parsing a name ends without a panic. *)
Lemma parse_name_total payload offset : bytes payload → 0 ≤ offset → returns (parse_name payload offset) (λ r, ∀ n c, r = Some (n, c) → 0 ≤ c).
Proof.
  intros Hb Ho. unfold parse_name.
  assert (Hl : returns (while_loop (name_step payload) (name_bound payload) (mkName [] offset None 0)) (λ r, ∀ ls c, r = Some (ls, c) → 0 ≤ c)).
  2: { destruct Hl as (r & -> & Hr). rewrite ret_bind. apply returns_ret. intros n c. destruct r as [[ls c']|]; cbn; [|done]. intros [= _ <-]. by eapply Hr. }
  apply while_loop_total with (I := λ s, 0 ≤ cursor s ∧ 0 ≤ jumps s ≤ 5 ∧ (∀ e, end_cursor s = Some e → 0 ≤ e))
    (m := λ s, (5 - jumps s) * (zlen payload + 1) + Z.max 0 (zlen payload - cursor s)).
  - intros s (Hc & Hj & He) _. pose proof (name_step_total payload s Hb Hc Hj) as (r & Er & Hr). rewrite Er. apply returns_ret.
    unfold name_step in Er. pose proof (zlen_nonneg payload).
    destruct (zlen payload <=? cursor s); [injection Er as <-; intros ? c [= _ <-]; destruct (end_cursor s); cbn; eauto|].
    apply bind_ret_inv in Er as (x & _ & Er). destruct (x =? 0); [injection Er as <-; intros ? c [= _ <-]; destruct (end_cursor s); cbn; [eauto|lia]|].
    destruct (_ =? 192).
    + destruct (_ <=? _); [by injection Er as <-|]. apply bind_ret_inv in Er as (y & _ & Er). apply bind_ret_inv in Er as (j & _ & Er).
      destruct (5 <? j); injection Er as <-; [done|]. cbn [end_cursor] in *. destruct Hr as (? & ? & ?). split; [|done]. split; [done|]. split; [done|].
      intros e [= <-]. destruct (end_cursor s); [eauto|lia].
    + cbv zeta in Er. destruct (_ <? _); [by injection Er as <-|]. apply bind_ret_inv in Er as (b & _ & Er).
      destruct (from_utf8 b); injection Er as <-; [|done]. destruct Hr as (? & ? & ?). done.
  - cbn. done.
  - cbn [jumps cursor]. unfold name_bound, zlen. lia.
Qed.

(** ** Encoding and parsing *)

Definition label_ok (l : list Z) : Prop := 0 < zlen l < 64 ∧ from_utf8 l = Some l.
Definition enc (ls : list (list Z)) : list Z := ls ≫= λ l, zlen l :: l.

Lemma labels_bytes_enc ls : Forall label_ok ls → labels_bytes ls = Ret (enc ls).
Proof.
  induction 1 as [|l ls [Hl _] _ IH]; [done|]. cbn [labels_bytes]. unfold label_bytes, rassert. rewrite (proj2 (Z.ltb_lt _ _)) by lia.
  rewrite ret_bind, ret_bind, IH, ret_bind, Z.mod_small by lia. done.
Qed.

Lemma small_not_pointer x : 0 ≤ x < 64 → (Z.land x 192 =? 192) = false.
Proof.
  intros Hx. assert (E : Z.land x 192 = 0); [|by rewrite E]. change 192 with (mask 6 2). apply Z.bits_inj'. intros i Hi.
  rewrite Z.land_spec, testbit_mask, Z.bits_0 by lia. destruct (Z.leb_spec 6 i); [|by rewrite andb_false_r]. by rewrite (word_high_bit 6 x i).
Qed.

Lemma name_runs payload ls post : ∀ pre acc, Forall label_ok ls → payload = pre ++ enc ls ++ 0 :: post →
  loop_runs (name_step payload) (mkName acc (zlen pre) None 0) (Some (acc ++ ls, zlen pre + zlen (enc ls) + 1)).
Proof.
  induction ls as [|l ls IH]; intros pre acc Hls E; pose proof (zlen_nonneg pre); pose proof (zlen_nonneg post).
  - apply loop_exit. unfold name_step. cbn [cursor labels end_cursor]. rewrite app_nil_r. cbn [enc mbind list_bind app] in *.
    rewrite (proj2 (Z.leb_gt _ _)) by (rewrite E, zlen_app, zlen_cons; lia). rewrite E, index_app_mid, ret_bind. cbn [Z.eqb default]. rewrite zlen_nil. do 4 f_equal. lia.
  - apply Forall_cons in Hls as [[Hl Hu] Hls]. pose proof (zlen_nonneg (enc ls)). assert (Ee : enc (l :: ls) = (zlen l :: l) ++ enc ls) by done.
    rewrite Ee in *. apply loop_round with (mkName (acc ++ [l]) (zlen (pre ++ zlen l :: l)) None 0).
    + unfold name_step. cbn [cursor labels end_cursor jumps]. rewrite (proj2 (Z.leb_gt _ _)) by (rewrite E, !zlen_app, !zlen_cons; lia).
      rewrite E. cbn [app]. rewrite index_app_mid, ret_bind. destruct (Z.eqb_spec (zlen l) 0); [lia|]. rewrite small_not_pointer by lia. cbv zeta.
      rewrite (proj2 (Z.ltb_ge _ _)) by (rewrite !zlen_app, !zlen_cons, !zlen_app, !zlen_cons; lia).
      replace (pre ++ zlen l :: (l ++ enc ls) ++ 0 :: post) with ((pre ++ [zlen l]) ++ l ++ (enc ls ++ 0 :: post)) by (rewrite <- !app_assoc; done).
      replace (zlen pre + 1) with (zlen (pre ++ [zlen l])) by (rewrite zlen_app, zlen_cons, zlen_nil; lia). rewrite slice_app_mid, ret_bind, Hu.
      do 3 f_equal. rewrite !zlen_app, !zlen_cons, zlen_nil. lia.
    + specialize (IH (pre ++ zlen l :: l) (acc ++ [l]) Hls). rewrite <- !app_assoc in IH. specialize (IH ltac:(rewrite E; by rewrite <- !app_assoc)).
      cbn [app] in IH. replace (zlen pre + zlen ((zlen l :: l) ++ enc ls) + 1) with (zlen (pre ++ zlen l :: l) + zlen (enc ls) + 1); [exact IH|].
      rewrite !zlen_app, !zlen_cons. lia.
Qed.

Lemma parse_encoded pre ls post : bytes (pre ++ enc ls ++ 0 :: post) → Forall label_ok ls →
  parse_name (pre ++ enc ls ++ 0 :: post) (zlen pre) = Ret (Some (join 46 ls, zlen pre + zlen (enc ls) + 1)).
Proof.
  intros Hb Hls. set (payload := pre ++ enc ls ++ 0 :: post) in *. pose proof (name_runs payload ls post pre [] Hls eq_refl) as Hr. cbn [app] in Hr.
  pose proof (parse_name_total payload (zlen pre) Hb (zlen_nonneg pre)) as (r & Er & _). unfold parse_name in *.
  destruct (while_loop (name_step payload) (name_bound payload) (mkName [] (zlen pre) None 0)) as [x|] eqn:Ew; [|done].
  rewrite (while_loop_eval _ _ _ _ (λ _, True) ltac:(rewrite Ew; by apply returns_ret) Hr) in Ew. by injection Ew as <-.
Qed.

Lemma join_split_at sep (s : list Z) : ∀ acc, join sep (split_at_char sep acc s) = acc ++ s.
Proof.
  induction s as [|b s IH]; intros acc; cbn [split_at_char]; [by rewrite app_nil_r|]. destruct (Z.eqb_spec b sep) as [->|].
  - pose proof (IH []) as IH'. cbn [app] in IH'. destruct (split_at_char sep [] s) as [|x xs] eqn:E; [by destruct s; cbn in E; [|destruct (_ =? _)]|].
    change (join sep (acc :: x :: xs)) with (acc ++ sep :: join sep (x :: xs)). by rewrite IH'.
  - rewrite IH. by rewrite <- app_assoc.
Qed.

Lemma join_split sep (s : list Z) : join sep (split sep s) = s.
Proof. apply (join_split_at sep s []). Qed.

(** A name of labels of 1 to 63 bytes. *)
Definition name_ok (name : list Z) : Prop := Forall label_ok (split 46 name) ∧ bytes name.

Lemma split_bytes sep (s : list Z) : ∀ acc, bytes acc → bytes s → Forall bytes (split_at_char sep acc s).
Proof.
  induction s as [|b s IH]; intros acc Ha Hs; cbn [split_at_char]; [by repeat constructor|]. apply Forall_cons in Hs as [Hb Hs].
  destruct (b =? sep); [constructor; [done|]; apply IH; [constructor|done]|]. apply IH; [|done]. apply Forall_app_2; [done|]. by apply Forall_cons_2; [|constructor].
Qed.

Lemma enc_bytes name : name_ok name → bytes (enc (split 46 name)).
Proof.
  intros [Hl Hb]. pose proof (split_bytes 46 name [] ltac:(constructor) Hb) as Hs. fold (split 46 name) in Hs. revert Hl Hs. generalize (split 46 name).
  induction l as [|x l IH]; intros Hl Hs; [constructor|]. apply Forall_cons in Hl as [[Hx _] Hl]. apply Forall_cons in Hs as [Hxb Hs].
  unfold enc. cbn [mbind list_bind]. apply Forall_app_2; [apply Forall_cons_2; [ints; lia|done]|]. by apply IH.
Qed.

Lemma question_bytes_enc name ty : name_ok name → question_bytes name ty = Ret (enc (split 46 name) ++ [0] ++ be16 (record_code ty) ++ be16 CLASS_IN).
Proof. intros [Hl _]. unfold question_bytes. by rewrite labels_bytes_enc. Qed.
End Names.

(** ** Records *)

Section Records.
Implicit Types (payload : list Z).

Lemma index_app_at (a l : list Z) k : 0 ≤ k → index (a ++ l) (zlen a + k) = index l k.
Proof.
  intros Hk. unfold index. pose proof (zlen_nonneg a). rewrite !(proj2 (Z.ltb_ge _ _)) by lia.
  rewrite lookup_app_r by (unfold zlen; lia).
  by replace (Z.to_nat (zlen a + k) - length a)%nat with (Z.to_nat k) by (unfold zlen; lia).
Qed.

Lemma zlen_be16 x : zlen (be16 x) = 2.
Proof. done. Qed.

Lemma zlen_be32 x : zlen (be32 x) = 4.
Proof. done. Qed.

Lemma parse_record_total payload c : bytes payload → 0 ≤ c →
  returns (parse_record payload c) (λ r, ∀ rec next, r = Some (rec, next) → 0 ≤ next ∧ bytes (rec_data rec)).
Proof.
  intros Hb Hc. unfold parse_record. destruct (parse_name_total payload c Hb Hc) as (r & -> & Hr). rewrite ret_bind.
  destruct r as [[name e]|]; [|by apply returns_ret]. specialize (Hr name e eq_refl).
  destruct (Z.ltb_spec (zlen payload) (e + 10)); [by apply returns_ret|]. rewrite (index_ret payload e), ret_bind, (index_ret payload (e + 1)), ret_bind by lia.
  destruct (record_try_from _) as [ty|]; [|by apply returns_ret].
  rewrite (index_ret payload (e + 2)), ret_bind, (index_ret payload (e + 3)), ret_bind by lia. destruct (negb _); [by apply returns_ret|].
  rewrite (index_ret payload (e + 4)), ret_bind, (index_ret payload (e + 5)), ret_bind, (index_ret payload (e + 6)), ret_bind, (index_ret payload (e + 7)), ret_bind by lia.
  rewrite (index_ret payload (e + 8)), ret_bind, (index_ret payload (e + 9)), ret_bind by lia. cbv zeta. set (rd := from_be16 _ _).
  assert (0 ≤ rd). { pose proof (byte_at_u8 payload (e + 8) Hb). pose proof (byte_at_u8 payload (e + 9) Hb). unfold rd, from_be16. ints. lia. }
  destruct (Z.ltb_spec (zlen payload) (e + 10 + rd)); [by apply returns_ret|].
  destruct (slice payload (e + 10) (e + 10 + rd)) as [data|] eqn:Es; [|rewrite slice_ret in Es by lia; done].
  rewrite ret_bind. apply returns_ret. intros rec next [= <- <-]. split; [lia|]. by eapply slice_bytes.
Qed.

Lemma see_record_total rec s : bytes (rec_data rec) → returns (see_record rec s) (λ _, True).
Proof.
  intros Hb. assert (Hp : returns (parse_name (rec_data rec) 0) (λ _, True)) by (eapply returns_mono; [by apply parse_name_total|done]).
  unfold see_record. destruct (rec_type rec); try by apply returns_ret.
  - by repeat (case_match; try by apply returns_ret).
  - destruct Hp as (t & -> & _). by apply returns_ret.
Qed.

Lemma read_answers_total n payload : bytes payload → ∀ c s, 0 ≤ c → returns (read_answers n payload c s) (λ _, True).
Proof.
  intros Hb. induction n as [|n IH]; intros c s Hc; cbn [read_answers]; [by apply returns_ret|].
  destruct (parse_record_total payload c Hb Hc) as (r & -> & Hr). rewrite ret_bind. destruct r as [[rec next]|]; [|by apply returns_ret].
  destruct (Hr rec next eq_refl) as [Hn Hd]. destruct (see_record_total rec s Hd) as (s' & -> & _). rewrite ret_bind. by apply IH.
Qed.

(** An A record as servers send it, its name written out. *)
Definition record_bytes (ls : list (list Z)) (ttl : Z) (ip : Ipv4Addr) : list Z :=
  enc ls ++ [0] ++ be16 1 ++ be16 CLASS_IN ++ be32 ttl ++ be16 4 ++ octets ip.

Lemma parse_answer pre ls ttl ip post : Forall label_ok ls → u32 ttl → bytes (pre ++ record_bytes ls ttl ip ++ post) →
  parse_record (pre ++ record_bytes ls ttl ip ++ post) (zlen pre) =
  Ret (Some (mkRecord (join 46 ls) RecA ttl (octets ip), zlen (pre ++ record_bytes ls ttl ip))).
Proof.
  intros Hls Ht Hb. destruct ip as [[[a b] c] d]. set (tail := be16 1 ++ be16 CLASS_IN ++ be32 ttl ++ be16 4 ++ [a; b; c; d] ++ post).
  assert (E : pre ++ record_bytes ls ttl (a, b, c, d) ++ post = pre ++ enc ls ++ 0 :: tail) by (unfold record_bytes, tail; rewrite <- !app_assoc; done).
  rewrite E in *. unfold parse_record. rewrite parse_encoded, ret_bind by done. set (P := pre ++ enc ls ++ [0]).
  assert (E2 : pre ++ enc ls ++ 0 :: tail = P ++ tail) by (unfold P; rewrite <- !app_assoc; done). rewrite E2.
  replace (zlen pre + zlen (enc ls) + 1) with (zlen P) by (unfold P; rewrite !zlen_app, zlen_cons, zlen_nil; lia).
  pose proof (zlen_nonneg P). pose proof (zlen_nonneg post). assert (Hz : zlen tail = 14 + zlen post) by (unfold tail; rewrite !zlen_app, !zlen_be16, zlen_be32; change (zlen [a; b; c; d]) with 4; lia).
  rewrite (proj2 (Z.ltb_ge _ _)) by (rewrite zlen_app; lia).
  assert (I : ∀ k x, 0 ≤ k → index tail k = Ret x → index (P ++ tail) (zlen P + k) = Ret x) by (intros k x Hk <-; by apply index_app_at).
  rewrite <- (Z.add_0_r (zlen P)) at 1. rewrite (I 0 0), ret_bind, (I 1 1), ret_bind by (lia || reflexivity). change (record_try_from (from_be16 0 1)) with (Some RecA). cbv iota.
  rewrite (I 2 0), ret_bind, (I 3 1), ret_bind by (lia || reflexivity). change (negb (from_be16 0 1 =? CLASS_IN)) with false. cbv iota.
  rewrite (I 4 (ttl / 16777216 mod U8)), ret_bind, (I 5 (ttl / U16 mod U8)), ret_bind, (I 6 (ttl / U8 mod U8)), ret_bind, (I 7 (ttl mod U8)), ret_bind by (lia || reflexivity).
  rewrite (I 8 0), ret_bind, (I 9 4), ret_bind by (lia || reflexivity). rewrite from_to_be32 by done. cbv zeta.
  change (from_be16 0 4) with 4. rewrite (proj2 (Z.ltb_ge _ _)) by (rewrite zlen_app; lia). set (Q := P ++ be16 1 ++ be16 CLASS_IN ++ be32 ttl ++ be16 4).
  assert (HQ : zlen Q = zlen P + 10) by (unfold Q; rewrite !zlen_app, !zlen_be16, zlen_be32; lia).
  replace (P ++ tail) with (Q ++ [a; b; c; d] ++ post) by (unfold Q, tail; by rewrite <- !app_assoc). rewrite <- HQ.
  replace (zlen Q + 4) with (zlen Q + zlen [a; b; c; d]) by done. rewrite slice_app_mid, ret_bind. do 3 f_equal.
  rewrite <- zlen_app. f_equal. unfold Q, P, record_bytes. cbn [octets]. by rewrite <- !app_assoc.
Qed.
End Records.

(** ** Responses *)

Section Responses.
Implicit Types (d : Dns).

(** The response [b] answers the query [q] that is pending under its id. *)
Definition answers_query (b : list Z) d (q : PendingQuery) : Prop :=
  ∃ header payload c, dns_header_read b = Some (header, payload) ∧ is_response header = true ∧ response_code header = 0 ∧
    pending d !! transaction_id header = Some q ∧ parse_name payload 0 = Ret (Some (pq_name q, c)).

Lemma header_read_bytes b header payload : bytes b → dns_header_read b = Some (header, payload) → bytes payload.
Proof.
  unfold dns_header_read, bytes. do 12 (destruct b as [|? b]; [done|]). rewrite !Forall_cons. intros Hb [= _ <-]. tauto.
Qed.

(** Any datagram whatsoever is handled without a panic, and changes what is
    cached for a name only if it is a response without error, its id is that of
    a pending query and the question it repeats is that query's name; the entry
    changed is that query's. *)
Theorem dns_cache_only_from_answers b d : bytes b →
  returns (process_response b d) (λ d', ∀ key, dns_cache d' !! key ≠ dns_cache d !! key →
    ∃ q, answers_query b d q ∧ key = (pq_name q, pq_type q)).
Proof.
  intros Hb. unfold process_response. destruct (dns_header_read b) as [[header payload]|] eqn:Eh; [|apply returns_ret; intros key []; done].
  pose proof (header_read_bytes b header payload Hb Eh) as Hp. destruct (is_response header) eqn:Er; cbn [negb]; [|apply returns_ret; intros key []; done].
  destruct (Z.eqb_spec (response_code header) 0) as [Ec|]; cbn [negb]; [|apply returns_ret; unfold fail_pending; intros key []; by destruct (pending d !! _)].
  destruct (parse_name_total payload 0 Hp ltac:(lia)) as (r & Ep & Hr). rewrite Ep, ret_bind. destruct r as [[name c]|]; [|apply returns_ret; intros key []; done].
  specialize (Hr name c eq_refl). destruct (pending d !! transaction_id header) as [q|] eqn:Eq; [|apply returns_ret; intros key []; done].
  case_decide as Hn; [apply returns_ret; intros key []; done|].
  destruct (read_answers_total (Z.to_nat (number_of_answers header)) payload Hp (c + 4) (mkSeen [] (U32 - 1) None) ltac:(lia)) as (s & -> & _). rewrite ret_bind.
  destruct (seen_addresses s) as [|x l]; apply returns_ret; intros key Hne.
  - destruct Hne. by destruct (seen_target s).
  - exists q. split; [by exists header, payload, c; rewrite Hn|]. unfold open_gate in Hne. rsimp_all. apply dec_stable. intros Hk. apply Hne. by rewrite lookup_insert_ne.
Qed.

(** The addresses of the answers, the shortest time to live among them. *)
Lemma read_answers_spec ls answers : ∀ pre post s, Forall label_ok ls → Forall (λ a, u32 a.1) answers →
  bytes (pre ++ (answers ≫= λ a, record_bytes ls a.1 a.2) ++ post) →
  read_answers (length answers) (pre ++ (answers ≫= λ a, record_bytes ls a.1 a.2) ++ post) (zlen pre) s =
  Ret (mkSeen (seen_addresses s ++ answers.*2) (foldl Z.min (seen_ttl s) answers.*1) (seen_target s)).
Proof.
  induction answers as [|[ttl ip] answers IH]; intros pre post s Hls Ha Hb; cbn [read_answers length].
  - cbn. rewrite app_nil_r. by destruct s.
  - apply Forall_cons in Ha as [Ht Ha]. cbn [mbind list_bind fst snd] in *. rewrite <- app_assoc in *.
    rewrite parse_answer, ret_bind by done. destruct ip as [[[a b] c] e]. unfold see_record. cbn [rec_type rec_data octets rec_ttl]. rewrite ret_bind.
    rewrite app_assoc in *. rewrite IH by done. cbn [seen_addresses seen_ttl seen_target fmap list_fmap fst snd foldl]. by rewrite <- app_assoc.
Qed.

(** A response that repeats the question and lists addresses for it. *)
Definition response_bytes (id flags : Z) (name : list Z) (ty : DnsRecordType) (answers : list (Z * Ipv4Addr)) : list Z :=
  dns_header_bytes (mkDnsHeader id flags 1 (zlen answers) 0 0) ++
  (enc (split 46 name) ++ [0] ++ be16 (record_code ty) ++ be16 CLASS_IN) ++ (answers ≫= λ a, record_bytes (split 46 name) a.1 a.2).

Lemma record_bytes_bytes name ttl ip : name_ok name → ip_ok ip → bytes (record_bytes (split 46 name) ttl ip).
Proof.
  intros Hn Hip. unfold record_bytes. apply Forall_app_2; [by apply enc_bytes|]. apply Forall_app_2; [apply Forall_cons_2; [ints; lia|constructor]|].
  repeat apply Forall_app_2; try apply be16_bytes; [apply be32_bytes|done].
Qed.

Lemma process_answer id flags name ty answers d g t : name_ok name → u16 id → u16 flags → Z.land flags 32768 ≠ 0 → Z.land flags 15 = 0 →
  answers ≠ [] → zlen answers < U16 → Forall (λ a, u32 a.1 ∧ ip_ok a.2) answers → pending d !! id = Some (mkPending name t g) →
  process_response (response_bytes id flags name ty answers) d =
  Ret (open_gate g ((d <| pending := delete id (pending d) |> <| dns_ticks := S (dns_ticks d) |>)
    <| dns_cache := <[(name, t) := mkAnswer answers.*2 (instant_add (dns_clock d (dns_ticks d)) (secs (Z.max (foldl Z.min (U32 - 1) answers.*1) 1)))]> (dns_cache d) |>)).
Proof.
  intros Hn Hid Hfl Hqr Hrc Hne Hlen Ha Hp. set (ls := split 46 name). set (q := enc ls ++ [0] ++ be16 (record_code ty) ++ be16 CLASS_IN).
  set (ans := answers ≫= λ a, record_bytes ls a.1 a.2). pose proof (zlen_nonneg answers).
  assert (Er : dns_header_read (response_bytes id flags name ty answers) = Some (mkDnsHeader id flags 1 (zlen answers) 0 0, q ++ ans)).
  { unfold response_bytes, dns_header_bytes, be16. cbn [app transaction_id dns_flags number_of_questions number_of_answers number_of_authority_records number_of_additional_records].
    unfold dns_header_read. rewrite !from_to_be16 by (done || (ints; lia)). done. }
  unfold process_response. rewrite Er. unfold is_response, response_code. cbn [dns_flags transaction_id number_of_answers].
  rewrite (proj2 (Z.eqb_neq _ _)) by done. rewrite Hrc. cbn [negb Z.eqb].
  assert (Hbq : bytes (enc ls)) by by apply enc_bytes.
  assert (Hans : bytes ans). { apply Forall_bind. eapply Forall_impl; [exact Ha|]. intros a [_ Hip]. by apply record_bytes_bytes. }
  assert (Hq : bytes q). { unfold q. apply Forall_app_2; [done|]. apply Forall_app_2; [apply Forall_cons_2; [ints; lia|constructor]|]. apply Forall_app_2; apply be16_bytes. }
  assert (Hqa : bytes (q ++ ans)) by by apply Forall_app_2.
  assert (Eq : q ++ ans = [] ++ enc ls ++ 0 :: (be16 (record_code ty) ++ be16 CLASS_IN ++ ans)) by (unfold q; rewrite <- !app_assoc; done).
  rewrite Eq in Hqa. pose proof (parse_encoded [] ls _ Hqa (proj1 Hn)) as Epn. rewrite <- Eq in Epn, Hqa. change (zlen (@nil Z)) with 0 in Epn. assert (Ej : join 46 ls = name) by apply join_split. rewrite Ej in Epn.
  rewrite Epn, ret_bind, Hp. cbn [pq_name pq_type pq_gate]. rewrite decide_False by (by intros []).
  replace (0 + zlen (enc ls) + 1 + 4) with (zlen q) by (unfold q; rewrite !zlen_app, !zlen_be16; change (zlen [0]) with 1; lia).
  pose proof (read_answers_spec ls answers q [] (mkSeen [] (U32 - 1) None) (proj1 Hn)) as Eans. rewrite app_nil_r in Eans. fold ans in Eans.
  unfold zlen at 1. rewrite Nat2Z.id, Eans, ret_bind; [|eapply Forall_impl; [exact Ha|]; by intros a [? _]|done].
  cbn [seen_addresses app seen_ttl]. destruct answers as [|[t0 ip0] answers]; [done|]. cbn [fmap list_fmap snd fst]. by destruct d.
Qed.
End Responses.

(** ** A lookup *)

Section Lookup.
Implicit Types (d : Dns).

Definition tick d (n : nat) : Dns := d <| dns_ticks := (dns_ticks d + n)%nat |>.

(** The clock moves forwards, and by less than a second in the readings of one
    lookup. *)
Definition dns_timely d : Prop := ∀ u v : nat, (dns_ticks d ≤ u ≤ v)%nat → (v ≤ dns_ticks d + 8)%nat →
  0 ≤ dns_clock d u ≤ dns_clock d v ∧ dns_clock d v < instant_add (dns_clock d u) (secs 1).

Lemma cached_answer_hit key d a e : dns_cache d !! key = Some (mkAnswer a e) → a ≠ [] → dns_clock d (dns_ticks d) < e →
  cached_answer key d = (Some a, d <| dns_ticks := S (dns_ticks d) |>).
Proof.
  intros Hc Ha He. unfold cached_answer, dns_now. rewrite Hc. cbn [ans_expires ans_addresses]. by rewrite (proj2 (Z.ltb_lt _ _)), bool_decide_true by done.
Qed.

(** With the answer cached, waiting for it ends. *)
Lemma result_round_hit g key deadline d a e : dns_cache d !! key = Some (mkAnswer a e) → a ≠ [] → dns_clock d (S (dns_ticks d)) < e →
  result_round g key deadline d = Ret (inr (Some a, d <| dns_ticks := S (S (dns_ticks d)) |>)).
Proof.
  intros Hc Ha He. unfold result_round, dns_now. set (d1 := d <| dns_ticks := S (dns_ticks d) |>).
  rewrite (cached_answer_hit key d1 a e Hc Ha He). destruct (deadline <=? _); by destruct d.
Qed.

(** Waiting, with the response the next datagram to arrive. *)
Lemma wait_gets_answer id flags name answers d g deadline rest : name_ok name → u16 id → u16 flags → Z.land flags 32768 ≠ 0 → Z.land flags 15 = 0 →
  answers ≠ [] → zlen answers < U16 → Forall (λ a, u32 a.1 ∧ ip_ok a.2) answers → pending d !! id = Some (mkPending name RecA g) →
  dns_gates d !! g = Some gate_new → dns_cache d !! (name, RecA) = None → zlen (response_bytes id flags name RecA answers) ≤ 512 → dns_arriving d = response_bytes id flags name RecA answers :: rest →
  dns_clock d (dns_ticks d) < deadline → dns_clock d (3 + dns_ticks d)%nat < instant_add (dns_clock d (1 + dns_ticks d)%nat) (secs 1) →
  ∃ d', wait_for_result_until g (name, RecA) deadline d = Ret (Some answers.*2, d') ∧ dns_sent d' = dns_sent d ∧ dns_arriving d' = rest ∧
    pending d' = delete id (pending d) ∧ is_Some (dns_cache d' !! (name, RecA)).
Proof.
  intros Hn Hid Hfl Hqr Hrc Hne Hlen Ha Hp Hg Hc H512 Hin Hd Hx. set (d1 := d <| dns_ticks := S (dns_ticks d) |>).
  pose proof (process_answer id flags name RecA answers d1 g RecA Hn Hid Hfl Hqr Hrc Hne Hlen Ha Hp) as Ep. set (e := instant_add _ _) in Ep. set (d2 := open_gate _ _) in Ep.
  assert (Ho : dns_gate_is_open g d2 = true). { unfold dns_gate_is_open, d2, open_gate. rsimp. by rewrite list_lookup_alter_eq, (Hg : dns_gates d1 !! g = _). }
  assert (E1 : result_round g (name, RecA) deadline d = Ret (inl (d2 <| dns_arriving := rest |>))).
  { unfold result_round, dns_now. rewrite (proj2 (Z.leb_gt _ _)) by done. fold d1.
    assert (Ec : cached_answer (name, RecA) d1 = (None, d1)) by (unfold cached_answer; change (dns_cache d1) with (dns_cache d); by rewrite Hc). rewrite Ec.
    assert (Eg : dns_gate_is_open g d1 = false) by (unfold dns_gate_is_open; change (dns_gates d1) with (dns_gates d); by rewrite Hg). rewrite Eg.
    unfold dns_wait. change (dns_arriving d1) with (dns_arriving d). rewrite Hin. cbn [dns_drain]. rewrite Eg. unfold receive_and_process_one. rewrite ztake_all, Ep by exact H512. cbn [mbind res_bind].
    assert (Edr : ∀ l, dns_drain g l d2 = Ret (d2 <| dns_arriving := l |>)) by (intros [|? ?]; cbn [dns_drain]; by rewrite Ho). by rewrite Edr. }
  assert (Hcc : dns_cache (d2 <| dns_arriving := rest |>) !! (name, RecA) = Some (mkAnswer answers.*2 e)) by (unfold d2, open_gate; rsimp; by rewrite lookup_insert_eq).
  assert (Hne' : answers.*2 ≠ []) by (by destruct answers).
  assert (He : dns_clock d (3 + dns_ticks d)%nat < e).
  { eapply Z.lt_le_trans; [exact Hx|]. unfold e, instant_add, sat_add, secs. change (dns_clock d1 (dns_ticks d1)) with (dns_clock d (1 + dns_ticks d)%nat). lia. }
  pose proof (result_round_hit g (name, RecA) deadline _ _ _ Hcc Hne' He) as E2.
  eexists. split; [unfold wait_for_result_until, while_loop; cbn [iterate]; rewrite E1, E2; reflexivity|]. rsimp. unfold d2, open_gate. rsimp. rewrite lookup_insert_eq. eauto.
Qed.

(** C15: A lookup of a name that is not cached sends one query to the first
    server; if the next datagram is a response to it that repeats the question
    and lists addresses for the name, the lookup returns exactly these, in
    order, and caches them.  The response has A records only, each with its name
    written out (the resolver misreads compressed names, see
    [compressed_answer_ignored]), and fits into the buffer of 512 bytes; the
    lookup takes less than a second. *)
Theorem dns_lookup_returns_answer name answers flags d server servers rest :
  name_ok name → dns_socket d = true → dns_servers d = server :: servers → dns_cache d !! (name, RecA) = None → u16 (next_transaction d) →
  u16 flags → Z.land flags 32768 ≠ 0 → Z.land flags 15 = 0 → answers ≠ [] → zlen answers < U16 → Forall (λ a, u32 a.1 ∧ ip_ok a.2) answers → dns_timely d →
  zlen (response_bytes (next_transaction d) flags name RecA answers) ≤ 512 →
  dns_arriving d = response_bytes (next_transaction d) flags name RecA answers :: rest →
  returns (resolve_a name d) (λ '(r, d'), r = Some answers.*2 ∧ dns_arriving d' = rest ∧ is_Some (dns_cache d' !! (name, RecA)) ∧
    ∃ packet, query_bytes name RecA (next_transaction d) = Ret packet ∧ dns_sent d' = dns_sent d ++ [(server, packet)]).
Proof.
  intros Hn Hs Hsv Hc Hid Hfl Hqr Hrc Hne Hlen Ha Ht H512 Hin. unfold resolve_a, resolve. cbn [resolve_hops].
  assert (Ec : cached_answer (name, RecA) d = (None, d)) by (unfold cached_answer; by rewrite Hc). rewrite Ec. unfold resolve_once. rewrite Hsv.
  set (id := next_transaction d) in *. set (g := length (dns_gates d)). set (d1 := d <| next_transaction := _ |> <| dns_gates := _ |> <| pending := _ |>).
  unfold dns_now. set (d2 := d1 <| dns_ticks := S (dns_ticks d1) |>). unfold DNS_QUERY_RETRIES. cbn [attempts]. unfold send_query, query_bytes.
  rewrite question_bytes_enc, !ret_bind by done. set (packet := dns_header_bytes _ ++ _). change (dns_socket d2) with (dns_socket d). rewrite Hs, !ret_bind. cbn [negb].
  unfold dns_now. set (d3 := d2 <| dns_sent := _ |> <| dns_ticks := _ |>). set (deadline := Z.min _ _).
  assert (Hlt : ∀ u v : nat, (dns_ticks d ≤ u ≤ v)%nat → (v ≤ dns_ticks d + 8)%nat → dns_clock d v < instant_add (dns_clock d u) (secs 1)) by (intros u v Hu Hv; by apply (Ht u v)).
  destruct (wait_gets_answer id flags name answers d3 g deadline rest) as (d4 & Ew & Hsent & Harr & _ & Hcache); try done.
  - unfold d3, d2, d1. rsimp. by rewrite lookup_insert_eq.
  - unfold d3, d2, d1. rsimp. unfold g. by rewrite lookup_app_r, Nat.sub_diag by lia.
  - assert (Hdl : deadline = Z.min (instant_add (dns_clock d (S (dns_ticks d))) DNS_QUERY_ATTEMPT_TIMEOUT) (instant_add (dns_clock d (dns_ticks d)) DNS_RESOLVE_TIMEOUT)) by reflexivity.
    rewrite Hdl. pose proof (Hlt (dns_ticks d) (S (S (dns_ticks d))) ltac:(lia) ltac:(lia)) as H1. pose proof (Hlt (S (dns_ticks d)) (S (S (dns_ticks d))) ltac:(lia) ltac:(lia)) as H2.
    change (dns_clock d3 (dns_ticks d3)) with (dns_clock d (S (S (dns_ticks d)))). clear - H1 H2. unfold instant_add, sat_add, DNS_QUERY_ATTEMPT_TIMEOUT, DNS_RESOLVE_TIMEOUT, secs, ms in *. lia.
  - apply (Hlt (S (S (S (dns_ticks d)))) (S (S (S (S (S (dns_ticks d))))))); lia.
  - rewrite Ew. cbn [mbind res_bind]. rewrite decide_True by (by destruct answers). apply returns_ret. rsimp. split; [done|]. split; [done|]. split; [done|].
    exists packet. split; [done|]. by rewrite Hsent.
Qed.
End Lookup.

(** ** A resolver for evaluation *)

(** The name [moose.io], a resolver with one server and a clock that advances a
    millisecond per reading, and the response to its first query. *)
Definition moose_io : list Z := [109; 111; 111; 115; 101; 46; 105; 111].
Definition example_answer : list (Z * Ipv4Addr) := [(300, (10, 0, 0, 7)); (60, (10, 0, 0, 8))].
Definition example_resolver (arriving : list (list Z)) : Dns :=
  mkDns true [(10, 0, 2, 3)] ∅ ∅ ∅ 4096 [] [] arriving (λ k, ms (Z.of_nat k)) 0.
Definition example_response : list Z := response_bytes 4096 33152 moose_io RecA example_answer.

Lemma moose_io_ok : name_ok moose_io.
Proof. split; repeat constructor; ints; cbn; lia. Qed.

Lemma example_timely arriving : dns_timely (example_resolver arriving).
Proof. intros u v Hu Hv. cbn in *. unfold instant_add, sat_add, secs, ms in *. ints. lia. Qed.

Lemma example_answer_ok : Forall (λ a, u32 a.1 ∧ ip_ok a.2) example_answer.
Proof. repeat constructor; ints; cbn; lia. Qed.

Lemma dns_lookup_returns_answer_witness :
  returns (resolve_a moose_io (example_resolver [example_response])) (λ '(r, d'), r = Some example_answer.*2 ∧ dns_arriving d' = [] ∧
    is_Some (dns_cache d' !! (moose_io, RecA)) ∧ ∃ packet, query_bytes moose_io RecA 4096 = Ret packet ∧ dns_sent d' = [((10, 0, 2, 3), packet)]).
Proof.
  apply (dns_lookup_returns_answer moose_io example_answer 33152 (example_resolver [example_response]) (10, 0, 2, 3) [] []); try reflexivity; try discriminate.
  - exact moose_io_ok.
  - ints; cbn; lia.
  - ints; lia.
  - exact example_answer_ok.
  - apply example_timely.
Defined.

Lemma dns_cache_only_from_answers_witness : bytes example_response ∧
  returns (process_response example_response (example_resolver [])) (λ d', ∀ key, dns_cache d' !! key ≠ dns_cache (example_resolver []) !! key →
    ∃ q, answers_query example_response (example_resolver []) q ∧ key = (pq_name q, pq_type q)).
Proof.
  assert (Hb : bytes example_response) by (apply (bool_decide_unpack (bytes example_response)); vm_compute; exact I).
  split; [exact Hb|exact (dns_cache_only_from_answers _ _ Hb)].
Defined.

(** The response servers actually send: the name of the answer is a pointer to
    offset 12 of the message, where the question begins. The resolver takes the
    offset from the end of the header, finds no name there, and the lookup that
    waited for the answer gets none. *)
Definition www_google_com : list Z := [119; 119; 119; 46; 103; 111; 111; 103; 108; 101; 46; 99; 111; 109].
Definition compressed_response : list Z :=
  dns_header_bytes (mkDnsHeader 4096 33152 1 1 0 0) ++ enc (split 46 www_google_com) ++ [0; 0; 1; 0; 1] ++
  [192; 12; 0; 1; 0; 1; 0; 0; 1; 44; 0; 4; 142; 250; 186; 36].

Lemma compressed_answer_ignored :
  returns (resolve_a www_google_com (example_resolver [compressed_response])) (λ '(r, d'), r = None ∧ dns_cache d' = ∅).
Proof. eexists. split; [vm_compute; reflexivity|]. by split. Qed.
