(* ===== verification/Dhcp.v ===== *)
(** * The DHCP client

    [kernel/src/driver/net/proto/dhcp.rs]: frames and options on the wire, the
    sessions of the interfaces, the handlers of offers and acknowledgements and
    what they install, and the thread that renews a lease.  Frames go to and
    come from the UDP socket of port 68; the [Arc]s that the copies of a
    session share are an index into [shared]. *)

From S2P Require Import Prelude Bits Time TcpTypes NetTables Dns.

(** ** Messages and options *)

Definition MAGIC_COOKIE : list Z := [99; 130; 83; 99].
Definition OPTIONS_SIZE : Z := 312.
Definition FIXED_SIZE : Z := 236.

Inductive DhcpMessageType := Discover | Offer | Request | Decline | Ack | Nak | Release | Inform.
#[global] Instance message_type_eq_dec : EqDecision DhcpMessageType.
Proof. solve_decision. Defined.
Definition message_code (t : DhcpMessageType) : Z :=
  match t with Discover => 1 | Offer => 2 | Request => 3 | Decline => 4 | Ack => 5 | Nak => 6 | Release => 7 | Inform => 8 end.
Definition message_try_from (value : Z) : option DhcpMessageType :=
  if value =? 1 then Some Discover else if value =? 2 then Some Offer else if value =? 3 then Some Request else
  if value =? 4 then Some Decline else if value =? 5 then Some Ack else if value =? 6 then Some Nak else
  if value =? 7 then Some Release else if value =? 8 then Some Inform else None.

Inductive DhcpOptionCode :=
| Pad | SubnetMask | Router | DnsServer | HostName | DomainName | NetBiosOverTcpIpNodeType | RequestedIpAddress
| IpAddressLeaseTime | OptionOverload | MessageType | ServerIdentifier | ParameterRequestList | Message
| MaximumDhcpMessageSize | RenewalTimeValue | RebindingTimeValue | VendorClassIdentifier | ClientIdentifier | End_.
#[global] Instance option_code_eq_dec : EqDecision DhcpOptionCode.
Proof. solve_decision. Defined.
Definition option_code (c : DhcpOptionCode) : Z :=
  match c with
  | Pad => 0 | SubnetMask => 1 | Router => 3 | DnsServer => 6 | HostName => 12 | DomainName => 15
  | NetBiosOverTcpIpNodeType => 46 | RequestedIpAddress => 50 | IpAddressLeaseTime => 51 | OptionOverload => 52
  | MessageType => 53 | ServerIdentifier => 54 | ParameterRequestList => 55 | Message => 56
  | MaximumDhcpMessageSize => 57 | RenewalTimeValue => 58 | RebindingTimeValue => 59 | VendorClassIdentifier => 60
  | ClientIdentifier => 61 | End_ => 255
  end.
(** [From<u8>]: an unknown code panics. *)
Definition option_from (code : Z) : res DhcpOptionCode :=
  match code with
  | 0 => Ret Pad | 1 => Ret SubnetMask | 3 => Ret Router | 6 => Ret DnsServer | 12 => Ret HostName | 15 => Ret DomainName
  | 46 => Ret NetBiosOverTcpIpNodeType | 50 => Ret RequestedIpAddress | 51 => Ret IpAddressLeaseTime | 52 => Ret OptionOverload
  | 53 => Ret MessageType | 54 => Ret ServerIdentifier | 55 => Ret ParameterRequestList | 56 => Ret Message
  | 57 => Ret MaximumDhcpMessageSize | 58 => Ret RenewalTimeValue | 59 => Ret RebindingTimeValue
  | 60 => Ret VendorClassIdentifier | 61 => Ret ClientIdentifier | 255 => Ret End_
  | _ => Crash Panic
  end.

Record DhcpOption := mkOption { opt_code : DhcpOptionCode; opt_data : list Z }.

(** [DhcpOptionsWriter]: the buffer and the position. *)
Definition writer_new (buffer : list Z) : res (list Z * Z) :=
  b ← store_slice buffer 0 MAGIC_COOKIE; Ret (b, 4).
Definition add_option (o : DhcpOption) (w : list Z * Z) : res (list Z * Z) :=
  let '(b, position) := w in
  b ← store b position (option_code (opt_code o));
  b ← store b (position + 1) (zlen (opt_data o) mod U8);
  b ← store_slice b (position + 2) (opt_data o);
  Ret (b, position + (2 + zlen (opt_data o))).
Definition finish (w : list Z * Z) : res (list Z) := let '(b, position) := w in store b position (option_code End_).

Fixpoint add_options (os : list DhcpOption) (w : list Z * Z) : res (list Z * Z) :=
  match os with [] => Ret w | o :: os => w ← add_option o w; add_options os w end.

(** One round of the loop of [DhcpOptionsParser::parse]. *)
Definition option_round (buffer : list Z) (s : Z * list DhcpOption) : res (Z * list DhcpOption + list DhcpOption) :=
  let '(position, options) := s in
  if zlen buffer <=? position then Ret (inr options) else
  b ← index buffer position;
  code ← option_from b;
  match code with
  | End_ => Ret (inr options)
  | Pad => Ret (inl (position + 1, options))
  | _ =>
      if zlen buffer <=? position + 1 then Ret (inr options) else
      length ← index buffer (position + 1);
      let data_start := position + 2 in
      let data_end := data_start + length in
      if zlen buffer <? data_end then Ret (inr options) else
      data ← slice buffer data_start data_end;
      Ret (inl (data_end, options ++ [mkOption code data]))
  end.

Definition parse_options (buffer : list Z) : res (list DhcpOption) :=
  if (zlen buffer <? 4) || bool_decide (ztake 4 buffer ≠ MAGIC_COOKIE) then Ret [] else
  while_loop (option_round buffer) (Pos.of_succ_nat (length buffer)) (4, []).

Definition find_option (c : DhcpOptionCode) (os : list DhcpOption) : option DhcpOption :=
  snd <$> list_find (λ o, opt_code o = c) os.
Definition message_type (os : list DhcpOption) : option DhcpMessageType :=
  o ← find_option MessageType os; b ← head (opt_data o); message_try_from b.

(** ** Frames *)

Record DhcpFixedHeader := mkFixed {
  operation : Z;
  hardware_type : Z;
  hardware_address_length : Z;
  hops : Z;
  dhcp_xid : Z;
  seconds : Z;
  dhcp_flags : Z;
  client_ip_addr : Ipv4Addr;
  your_ip_addr : Ipv4Addr;
  next_server_ip : Ipv4Addr;
  relay_agent_ip : Ipv4Addr;
  hardware_address : MacAddress;
  hardware_address_padding : list Z;
  host_name : list Z;
  file_name : list Z
}.

Definition fixed_bytes (h : DhcpFixedHeader) : list Z :=
  [operation h; hardware_type h; hardware_address_length h; hops h] ++ be32 (dhcp_xid h) ++ be16 (seconds h) ++ be16 (dhcp_flags h) ++
  octets (client_ip_addr h) ++ octets (your_ip_addr h) ++ octets (next_server_ip h) ++ octets (relay_agent_ip h) ++
  hardware_address h ++ hardware_address_padding h ++ host_name h ++ file_name h.

Definition ip_at (b : list Z) (i : Z) : Ipv4Addr := (byte_at b i, byte_at b (i + 1), byte_at b (i + 2), byte_at b (i + 3)).
(** [read_from_prefix]. *)
Definition fixed_read (b : list Z) : option (DhcpFixedHeader * list Z) :=
  if zlen b <? FIXED_SIZE then None else
  Some (mkFixed (byte_at b 0) (byte_at b 1) (byte_at b 2) (byte_at b 3)
          (from_be32 (byte_at b 4) (byte_at b 5) (byte_at b 6) (byte_at b 7)) (from_be16 (byte_at b 8) (byte_at b 9))
          (from_be16 (byte_at b 10) (byte_at b 11)) (ip_at b 12) (ip_at b 16) (ip_at b 20) (ip_at b 24)
          (field b 28 6) (field b 34 10) (field b 44 64) (field b 108 128),
        zdrop FIXED_SIZE b).

(** A [DhcpFrameHeader] of the client with these options. *)
Definition client_frame (flags xid : Z) (client your : Ipv4Addr) (mac : MacAddress) (os : list DhcpOption) : res (list Z) :=
  w ← writer_new (zeros OPTIONS_SIZE);
  w ← add_options os w;
  options ← finish w;
  Ret (fixed_bytes (mkFixed 1 1 6 0 xid 0 flags client your unspecified unspecified mac (zeros 10) (zeros 64) (zeros 128)) ++ options).

Definition client_identifier (mac : MacAddress) : DhcpOption := mkOption ClientIdentifier (1 :: mac).
Definition parameter_request_list : DhcpOption :=
  mkOption ParameterRequestList [option_code SubnetMask; option_code Router; option_code DnsServer; option_code DomainName].

(** ** Leases *)

Record DhcpLease := mkLease {
  internet_address : Ipv4Addr;
  subnet_mask : Ipv4Addr;
  default_gateway : Ipv4Addr;
  lease_dns : list Ipv4Addr;
  lease_time_seconds : Z;
  renewal_time_seconds : option Z;
  rebinding_time_seconds : option Z;
  server_identifier : option Ipv4Addr
}.
#[global] Instance eta_lease : Eta DhcpLease := λ l,
  mkLease (internet_address l) (subnet_mask l) (default_gateway l) (lease_dns l) (lease_time_seconds l) (renewal_time_seconds l)
    (rebinding_time_seconds l) (server_identifier l).

(** The first four bytes of an option, if it has them. *)
Definition ip_data (d : list Z) : option Ipv4Addr := match d with a :: b :: c :: e :: _ => Some (a, b, c, e) | _ => None end.
Definition int_data (d : list Z) : option Z := match d with a :: b :: c :: e :: _ => Some (from_be32 a b c e) | _ => None end.
(** [as_chunks::<4>().0]. *)
Fixpoint ip_chunks (d : list Z) : list Ipv4Addr :=
  match d with a :: b :: c :: e :: d => (a, b, c, e) :: ip_chunks d | _ => [] end.

Definition see_option (l : DhcpLease) (o : DhcpOption) : DhcpLease :=
  match opt_code o with
  | SubnetMask => match ip_data (opt_data o) with Some ip => l <| subnet_mask := ip |> | None => l end
  | Router => match ip_data (opt_data o) with Some ip => l <| default_gateway := ip |> | None => l end
  | DnsServer => l <| lease_dns := ip_chunks (opt_data o) |>
  | IpAddressLeaseTime => match int_data (opt_data o) with Some x => l <| lease_time_seconds := x |> | None => l end
  | RenewalTimeValue => match int_data (opt_data o) with Some x => l <| renewal_time_seconds := Some x |> | None => l end
  | RebindingTimeValue => match int_data (opt_data o) with Some x => l <| rebinding_time_seconds := Some x |> | None => l end
  | ServerIdentifier => match ip_data (opt_data o) with Some ip => l <| server_identifier := Some ip |> | None => l end
  | _ => l
  end.

Definition parse_lease_from_options (header : DhcpFixedHeader) (options : list DhcpOption) : DhcpLease :=
  foldl see_option (mkLease (your_ip_addr header) (255, 255, 255, 0) unspecified [] 3600 None None None) options.

(** T1 and T2: the server's values, or half and seven eighths of the lease. *)
Definition lease_timers (l : DhcpLease) : Duration * Duration :=
  (secs (default (Z.max 1 (lease_time_seconds l / 2)) (renewal_time_seconds l)),
   secs (default (Z.max 1 (lease_time_seconds l * 7 / 8)) (rebinding_time_seconds l))).

(** ** The driver *)

(** What the copies of one session share. *)
Record DhcpShared := mkShared { completion : OneshotGate; acquisition_complete : bool; timer_spawned : bool }.
#[global] Instance eta_shared : Eta DhcpShared := λ s, mkShared (completion s) (acquisition_complete s) (timer_spawned s).

Record DhcpSession := mkSession {
  session_interface : Z;
  session_mac : MacAddress;
  last_message : DhcpMessageType;
  session_xid : Z;
  session_lease : option DhcpLease;
  session_shared : nat
}.
#[global] Instance eta_session : Eta DhcpSession := λ s,
  mkSession (session_interface s) (session_mac s) (last_message s) (session_xid s) (session_lease s) (session_shared s).

(** The driver, and what of the network subsystem it changes: interfaces,
    routes, resolver and the event that threads waiting for an address block on.
    [dhcp_sent] is what was sent to port 67, [timers] the interfaces whose lease
    timer was started. *)
Record Dhcp := mkDhcp {
  dhcp_socket : bool;
  sessions : gmap (list Z) DhcpSession;
  xid_counter : Z;
  shared : list DhcpShared;
  dhcp_sent : list (Ipv4Addr * list Z);
  dhcp_interfaces : NetworkInterfaceTable;
  dhcp_routes : list (RouteEntry NextHop);
  resolver : Dns;
  interface_address_ready : Event;
  timers : list Z
}.
#[global] Instance eta_dhcp : Eta Dhcp := λ d,
  mkDhcp (dhcp_socket d) (sessions d) (xid_counter d) (shared d) (dhcp_sent d) (dhcp_interfaces d) (dhcp_routes d) (resolver d)
    (interface_address_ready d) (timers d).

Definition dhcp_new (t : NetworkInterfaceTable) (rs : list (RouteEntry NextHop)) (r : Dns) : Dhcp :=
  mkDhcp false ∅ 305419896 [] [] t rs r event_new [].

(** [initialize]; [bound] is whether port 68 could be bound. *)
Definition dhcp_initialize (bound : bool) (d : Dhcp) : res Dhcp := if bound then Ret (d <| dhcp_socket := true |>) else Crash Panic.

Definition next_xid (d : Dhcp) : Z * Dhcp := (xid_counter d, d <| xid_counter := (xid_counter d + 1) mod U32 |>).

(** [socket_send_to] to port 67; [false] is [Err(())]. *)
Definition dhcp_send (target : Ipv4Addr) (payload : list Z) (d : Dhcp) : bool * Dhcp :=
  if dhcp_socket d then (true, d <| dhcp_sent := dhcp_sent d ++ [(target, payload)] |>) else (false, d).
Definition send_udp_broadcast (payload : list Z) (d : Dhcp) : bool * Dhcp := dhcp_send broadcast payload d.

Definition send_discover (mac : MacAddress) (xid : Z) (d : Dhcp) : res (bool * Dhcp) :=
  f ← client_frame 32768 xid unspecified unspecified mac
        [mkOption MessageType [message_code Discover]; client_identifier mac; parameter_request_list];
  Ret (send_udp_broadcast f d).

Definition send_request (mac : MacAddress) (xid : Z) (lease : DhcpLease) (offered : Ipv4Addr) (offer_options : list DhcpOption) (d : Dhcp)
  : res (bool * Dhcp) :=
  let server := default (default_gateway lease) (o ← find_option ServerIdentifier offer_options; ip_data (opt_data o)) in
  f ← client_frame 32768 xid unspecified offered mac
        [mkOption MessageType [message_code Request]; client_identifier mac; mkOption RequestedIpAddress (octets (internet_address lease));
         mkOption ServerIdentifier (octets server); parameter_request_list];
  Ret (send_udp_broadcast f d).

Definition send_renew_request (mac : MacAddress) (xid : Z) (lease : DhcpLease) (server : Ipv4Addr) (d : Dhcp) : res (bool * Dhcp) :=
  f ← client_frame 0 xid (internet_address lease) unspecified mac
        [mkOption MessageType [message_code Request]; mkOption ServerIdentifier (octets server); client_identifier mac];
  Ret (dhcp_send server f d).

Definition send_rebind_request (mac : MacAddress) (xid : Z) (lease : DhcpLease) (d : Dhcp) : res (bool * Dhcp) :=
  f ← client_frame 32768 xid (internet_address lease) unspecified mac
        [mkOption MessageType [message_code Request]; client_identifier mac];
  Ret (send_udp_broadcast f d).

Definition put_session (s : DhcpSession) (d : Dhcp) : Dhcp := d <| sessions := <[session_mac s := s]> (sessions d) |>.

Definition begin_lease_acquisition (interface_id : Z) (mac : MacAddress) (d : Dhcp) : res Dhcp :=
  match sessions d !! mac with
  | Some _ => Ret d
  | None =>
      let '(xid, d) := next_xid d in
      let s := mkSession interface_id mac Discover xid None (length (shared d)) in
      let d := put_session s (d <| shared := shared d ++ [mkShared gate_new false false] |>) in
      '(sent, d) ← send_discover mac xid d;
      Ret (if (sent : bool) then d else d <| sessions := delete mac (sessions d) |>)
  end.

Fixpoint begin_discovery (l : list (Z * NetworkInterface)) (d : Dhcp) : res Dhcp :=
  match l with
  | [] => Ret d
  | (id, i) :: l =>
      d ← (if nic i && bool_decide (local_internet_address i = None) then begin_lease_acquisition id (local_mac_address i) d else Ret d);
      begin_discovery l d
  end.
Definition begin_discovery_for_all_nics (d : Dhcp) : res Dhcp :=
  l ← occupied_interfaces (dhcp_interfaces d); begin_discovery l d.

(** ** Installing a lease *)

Definition count_ones (x : Z) : Z := zlen (filter (λ b, Z.testbit x b = true) (seqZ 0 32)).

Definition install_routes (interface_id : Z) (lease : DhcpLease) (d : Dhcp) : res Dhcp :=
  let prefix_length := count_ones (ip_to_u32 (subnet_mask lease)) in
  let network := ip_from_u32 (Z.land (ip_to_u32 (internet_address lease)) (ip_to_u32 (subnet_mask lease))) in
  local ← prefix_new network prefix_length;
  host ← prefix_new (internet_address lease) 32;
  all ← prefix_new unspecified 0;
  Ret (d <| dhcp_routes := insert_for_interface all interface_id (Gateway (default_gateway lease))
              (insert_for_interface host interface_id Direct (insert_for_interface local interface_id Direct (dhcp_routes d))) |>).

Definition update_interface_address (interface_id : Z) (ip : Ipv4Addr) (d : Dhcp) : res Dhcp :=
  '(_, t) ← update_interface interface_id (λ i, i <| local_internet_address := Some ip |>) (dhcp_interfaces d);
  Ret (d <| dhcp_interfaces := t |> <| interface_address_ready := event_notify (interface_address_ready d) |>).

Definition update_lease_timers (mac : MacAddress) (lease : DhcpLease) (d : Dhcp) : Dhcp :=
  let '(t1, t2) := lease_timers lease in
  let server_id := default (default_gateway lease) (server_identifier lease) in
  match sessions d !! mac with
  | None => d
  | Some s =>
      let lease2 := (default lease (session_lease s)) <| renewal_time_seconds := Some (t1 / secs 1 mod U32) |>
                      <| rebinding_time_seconds := Some (t2 / secs 1 mod U32) |> <| server_identifier := Some server_id |> in
      d <| sessions := <[mac := s <| session_lease := Some lease2 |>]> (sessions d) |>
  end.

(** Whether [spawn_kernel_thread] gives a thread of this priority. *)
Definition HIGHEST_THREAD_PRIORITY : Z := 15.
Definition can_spawn (priority : Z) : bool := priority <=? HIGHEST_THREAD_PRIORITY.

Definition ensure_lease_timer (interface_id : Z) (mac : MacAddress) (lease : DhcpLease) (arc : nat) (d : Dhcp) : res Dhcp :=
  if lease_time_seconds lease =? 0 then Ret d else
  let d := update_lease_timers mac lease d in
  match shared d !! arc with
  | Some f => if timer_spawned f then Ret d else
      let d := d <| shared := <[arc := f <| timer_spawned := true |>]> (shared d) |> in
      if can_spawn 9 then Ret (d <| timers := timers d ++ [interface_id] |>) else Crash Panic
  | None => Ret d
  end.

(** ** Receiving *)

Definition handle_offer (header : DhcpFixedHeader) (options : list DhcpOption) (s : DhcpSession) (d : Dhcp) : res Dhcp :=
  if decide (last_message s ≠ Discover) then Ret d else
  if negb (dhcp_xid header =? session_xid s) then Ret d else
  let lease := parse_lease_from_options header options in
  let d := put_session (s <| last_message := Request |> <| session_lease := Some lease |>) d in
  '(_, d) ← send_request (session_mac s) (session_xid s) lease (your_ip_addr header) options d;
  Ret d.

(** The lease of an acknowledgement, on the one of the session. *)
Definition ack_lease (lease : DhcpLease) (a : DhcpLease) : DhcpLease :=
  lease <| subnet_mask := subnet_mask a |> <| default_gateway := default_gateway a |> <| lease_dns := lease_dns a |>
    <| lease_time_seconds := lease_time_seconds a |> <| renewal_time_seconds := renewal_time_seconds a |>
    <| rebinding_time_seconds := rebinding_time_seconds a |>
    <| server_identifier := match server_identifier a with Some x => Some x | None => server_identifier lease end |>.

Definition handle_ack (header : DhcpFixedHeader) (options : list DhcpOption) (s : DhcpSession) (d : Dhcp) : res Dhcp :=
  if decide (last_message s ≠ Request) then Ret d else
  if negb (dhcp_xid header =? session_xid s) then Ret d else
  match session_lease s with
  | None => Ret d
  | Some lease =>
      let lease := ack_lease lease (parse_lease_from_options header options) in
      let d := put_session (s <| last_message := Ack |> <| session_lease := Some lease |>) d in
      d ← install_routes (session_interface s) lease d;
      d ← update_interface_address (session_interface s) (internet_address lease) d;
      let d := if decide (lease_dns lease = []) then d else d <| resolver := configure (lease_dns lease) (resolver d) |> in
      let d := match shared d !! session_shared s with
               | Some f => if acquisition_complete f then d else
                   d <| shared := <[session_shared s := f <| acquisition_complete := true |> <| completion := gate_open (completion f) |>]> (shared d) |>
               | None => d
               end in
      ensure_lease_timer (session_interface s) (session_mac s) lease (session_shared s) d
  end.

(** [receive_and_process_one] on the bytes [socket_recv_from] returned. *)
Definition dhcp_receive (bytes : list Z) (d : Dhcp) : res Dhcp :=
  match fixed_read bytes with
  | None => Ret d
  | Some (header, rest) =>
      options ← parse_options rest;
      match sessions d !! hardware_address header with
      | None => Ret d
      | Some s =>
          match message_type options with
          | Some Offer => handle_offer header options s d
          | Some Ack => handle_ack header options s d
          | _ => Ret d
          end
      end
  end.

(** ** Renewing

    The steps of the lease timer between its sleeps.  [timer_begin] takes the
    session and lease the rest of the round works with. *)
Definition timer_begin (interface_id : Z) (d : Dhcp) : option (DhcpSession * DhcpLease) :=
  s ← snd <$> list_find (λ s, session_interface s = interface_id) (map_to_list (sessions d)).*2;
  l ← session_lease s;
  Some (s, l).

Definition request_again (interface_id xid : Z) (s : DhcpSession) (lease : DhcpLease) (d : Dhcp) : Dhcp :=
  put_session (mkSession interface_id (session_mac s) Request xid (Some lease) (session_shared s)) d.

(** At T1. *)
Definition timer_renew (interface_id : Z) (s : DhcpSession) (lease : DhcpLease) (d : Dhcp) : res Dhcp :=
  let server_id := default (default_gateway lease) (server_identifier lease) in
  let '(xid, d) := next_xid d in
  '(_, d) ← send_renew_request (session_mac s) xid lease server_id (request_again interface_id xid s lease d);
  Ret d.

(** At T2. *)
Definition timer_rebind (interface_id : Z) (s : DhcpSession) (lease : DhcpLease) (d : Dhcp) : res Dhcp :=
  let '(xid, d) := next_xid d in
  '(_, d) ← send_rebind_request (session_mac s) xid lease (request_again interface_id xid s lease d);
  Ret d.
