(* ===== verification/DhcpProofs.v ===== *)
(** * What the DHCP client guarantees

    Options written are the options read; an exchange with a server leaves the
    interface configured by the server's acknowledgement; and nothing else
    configures it. *)

From S2P Require Import Prelude Bits Time TcpTypes TcpChecksum NetTables NetHdr Dns Dhcp.

(** ** Options *)

Section Options.

Definition enc_option (o : DhcpOption) : list Z := option_code (opt_code o) :: zlen (opt_data o) :: opt_data o.
Definition enc_options (os : list DhcpOption) : list Z := os ≫= enc_option.
(** An option with a value. *)
Definition option_ok (o : DhcpOption) : Prop := opt_code o ≠ Pad ∧ opt_code o ≠ End_ ∧ zlen (opt_data o) ≤ 255.

Lemma option_from_code c : option_from (option_code c) = Ret c.
Proof. by destruct c. Qed.

Lemma enc_options_cons o os : enc_options (o :: os) = enc_option o ++ enc_options os.
Proof. done. Qed.
Lemma enc_options_app os os' : enc_options (os ++ os') = enc_options os ++ enc_options os'.
Proof. apply bind_app. Qed.
Lemma zlen_enc o : zlen (enc_option o) = 2 + zlen (opt_data o).
Proof. unfold enc_option. rewrite !zlen_cons. lia. Qed.

Lemma add_option_spec o pre rest : option_ok o → zlen (enc_option o) ≤ zlen rest →
  add_option o (pre ++ rest, zlen pre) = Ret (pre ++ enc_option o ++ zdrop (zlen (enc_option o)) rest, zlen pre + zlen (enc_option o)).
Proof.
  intros (_ & _ & Hl) Hr. rewrite zlen_enc in *. pose proof (zlen_nonneg (opt_data o)). unfold add_option.
  destruct rest as [|x [|y rest]]; [rewrite zlen_nil in Hr; lia|rewrite zlen_cons, zlen_nil in Hr; lia|]. rewrite !zlen_cons in Hr.
  rewrite store_mid, ret_bind. set (c := option_code (opt_code o)).
  replace (zlen pre + 1) with (zlen (pre ++ [c])) by (by rewrite zlen_app). replace (pre ++ c :: y :: rest) with ((pre ++ [c]) ++ y :: rest) by (by rewrite <- app_assoc).
  rewrite store_mid, ret_bind. ints. rewrite Z.mod_small by lia. set (n := zlen (opt_data o)) in *.
  replace (zlen pre + 2) with (zlen (pre ++ [c; n])) by (by rewrite zlen_app). replace ((pre ++ [c]) ++ n :: rest) with ((pre ++ [c; n]) ++ rest) by (by rewrite <- !app_assoc).
  rewrite store_slice_mid, ret_bind by (unfold n in *; lia). unfold enc_option. fold c n. rewrite <- app_assoc. cbn [app]. do 3 f_equal. do 3 f_equal. fold n.
  unfold zdrop. replace (Z.to_nat (2 + n)) with (S (S (Z.to_nat n))) by lia. done.
Qed.

Lemma add_options_spec os : ∀ pre rest, Forall option_ok os → zlen (enc_options os) ≤ zlen rest →
  add_options os (pre ++ rest, zlen pre) = Ret (pre ++ enc_options os ++ zdrop (zlen (enc_options os)) rest, zlen (pre ++ enc_options os)).
Proof.
  induction os as [|o os IH]; intros pre rest Ho Hl; cbn [add_options]; [by rewrite app_nil_r, zdrop_0|].
  apply Forall_cons in Ho as [Ho Hos]. rewrite enc_options_cons, zlen_app in Hl. pose proof (zlen_nonneg (enc_options os)). pose proof (zlen_nonneg (enc_option o)).
  rewrite add_option_spec, ret_bind by (done || lia). rewrite <- zlen_app, app_assoc.
  rewrite IH by (done || (rewrite zlen_zdrop; lia)). rewrite enc_options_cons, <- !app_assoc. do 3 f_equal. f_equal.
  rewrite zlen_app. unfold zdrop. rewrite drop_drop. do 2 f_equal. lia.
Qed.

(** The options area a frame is sent with. *)
Definition options_area (os : list DhcpOption) : list Z :=
  MAGIC_COOKIE ++ enc_options os ++ [255] ++ zeros (OPTIONS_SIZE - 5 - zlen (enc_options os)).

Lemma zdrop_zeros n k : 0 ≤ k ≤ n → zdrop k (zeros n) = zeros (n - k).
Proof. intros Hk. unfold zdrop, zeros. rewrite drop_replicate. f_equal. lia. Qed.

Lemma client_frame_spec flags xid client your mac os : Forall option_ok os → 5 + zlen (enc_options os) ≤ OPTIONS_SIZE →
  client_frame flags xid client your mac os = Ret (fixed_bytes (mkFixed 1 1 6 0 xid 0 flags client your unspecified unspecified mac (zeros 10) (zeros 64) (zeros 128)) ++ options_area os).
Proof.
  intros Ho Hl. unfold client_frame. change (writer_new (zeros OPTIONS_SIZE)) with (Ret (MAGIC_COOKIE ++ zeros 308, 4) : res (list Z * Z)). rewrite ret_bind.
  change 4 with (zlen MAGIC_COOKIE) at 1. pose proof (zlen_nonneg (enc_options os)). unfold OPTIONS_SIZE in *.
  rewrite add_options_spec, ret_bind by (done || (rewrite zlen_zeros; lia)). rewrite zdrop_zeros by lia. unfold finish.
  replace (zeros (308 - zlen (enc_options os))) with (0 :: zeros (307 - zlen (enc_options os))).
  2:{ unfold zeros. replace (Z.to_nat (308 - zlen (enc_options os))) with (S (Z.to_nat (307 - zlen (enc_options os)))) by lia. done. }
  rewrite app_assoc, store_mid, ret_bind, <- app_assoc. done.
Qed.

(** One round, in front of the options [todo]. *)
Lemma parse_round b done' todo rest : zlen b = 4 + zlen (enc_options done') + zlen (enc_options todo) + 1 + zlen rest → Forall option_ok (done' ++ todo) →
  b = MAGIC_COOKIE ++ enc_options done' ++ enc_options todo ++ 255 :: rest →
  returns (option_round b (4 + zlen (enc_options done'), done')) (λ r, match r with
    | inl (pos', done'') => (∃ todo', done' ++ todo = done'' ++ todo' ∧ pos' = 4 + zlen (enc_options done'')) ∧
        0 ≤ zlen b - pos' < zlen b - (4 + zlen (enc_options done'))
    | inr r => r = done' ++ todo end).
Proof.
  intros Hz Ho Hb. set (pre := MAGIC_COOKIE ++ enc_options done'). assert (Hp : 4 + zlen (enc_options done') = zlen pre) by (unfold pre; by rewrite zlen_app).
  pose proof (zlen_nonneg (enc_options done')). pose proof (zlen_nonneg (enc_options todo)). pose proof (zlen_nonneg rest). rewrite Hp.
  unfold option_round. rewrite (proj2 (Z.leb_gt _ _)) by lia. rewrite app_assoc in Hb. fold pre in Hb. destruct todo as [|o todo].
  - cbn [enc_options mbind list_bind app] in Hb. rewrite Hb, index_app_mid, ret_bind. cbn [option_from mbind res_bind]. apply returns_ret. by rewrite app_nil_r.
  - apply Forall_app in Ho as [_ Ho]. apply Forall_cons in Ho as [(Hpad & Hend & Hl) Ho]. rewrite enc_options_cons, zlen_app, zlen_enc in Hz.
    rewrite enc_options_cons in Hb. unfold enc_option in Hb. rewrite <- app_assoc in Hb. cbn [app] in Hb. set (tail := enc_options todo ++ 255 :: rest) in *.
    pose proof (zlen_nonneg (opt_data o)). pose proof (zlen_nonneg (enc_options todo)).
    assert (E0 : index b (zlen pre) = Ret (option_code (opt_code o))) by (rewrite Hb; apply index_app_mid).
    assert (E1 : index b (zlen pre + 1) = Ret (zlen (opt_data o))).
    { replace (zlen pre + 1) with (zlen (pre ++ [option_code (opt_code o)])) by (by rewrite zlen_app).
      pose proof (index_app_mid (pre ++ [option_code (opt_code o)]) (opt_data o ++ tail) (zlen (opt_data o))) as E. by rewrite <- app_assoc in E; rewrite Hb. }
    rewrite E0, ret_bind, option_from_code, ret_bind, (proj2 (Z.leb_gt _ _)), E1, ret_bind, (proj2 (Z.ltb_ge _ _)) by lia.
    assert (E2 : slice b (zlen pre + 2) (zlen pre + 2 + zlen (opt_data o)) = Ret (opt_data o)).
    { replace (zlen pre + 2) with (zlen (pre ++ [option_code (opt_code o); zlen (opt_data o)])) by (by rewrite zlen_app).
      pose proof (slice_app_mid (pre ++ [option_code (opt_code o); zlen (opt_data o)]) (opt_data o) tail) as E. by rewrite <- app_assoc in E; rewrite Hb. }
    rewrite E2, ret_bind. assert (Hres : returns (Ret (inl (zlen pre + 2 + zlen (opt_data o), done' ++ [mkOption (opt_code o) (opt_data o)]))
        : res (Z * list DhcpOption + list DhcpOption)) (λ r, match r with
      | inl (pos', done'') => (∃ todo', done' ++ o :: todo = done'' ++ todo' ∧ pos' = 4 + zlen (enc_options done'')) ∧ 0 ≤ zlen b - pos' < zlen b - zlen pre
      | inr r => r = done' ++ o :: todo end)); [|by destruct (opt_code o)].
    apply returns_ret. destruct o as [c data]. cbn [opt_code opt_data] in *. split; [|lia]. exists todo. split; [by rewrite <- app_assoc|].
    rewrite enc_options_app, zlen_app, enc_options_cons, zlen_app, zlen_enc. cbn [opt_data]. change (zlen (enc_options [])) with 0. lia.
Qed.

(** The parser reads back what was written, up to the end option. *)
Lemma parse_enc os rest : Forall option_ok os → parse_options (MAGIC_COOKIE ++ enc_options os ++ 255 :: rest) = Ret os.
Proof.
  intros Ho. set (b := MAGIC_COOKIE ++ enc_options os ++ 255 :: rest). unfold parse_options.
  assert (Hb : 5 + zlen (enc_options os) + zlen rest = zlen b) by (unfold b; rewrite !zlen_app, zlen_cons; change (zlen MAGIC_COOKIE) with 4; lia).
  pose proof (zlen_nonneg (enc_options os)). pose proof (zlen_nonneg rest).
  rewrite (proj2 (Z.ltb_ge _ _)) by lia. rewrite bool_decide_false by (intros Hn; apply Hn; done). cbn [orb].
  assert (Hr : returns (while_loop (option_round b) (Pos.of_succ_nat (length b)) (4, [])) (λ r, r = os)); [|by destruct Hr as (r & -> & ->)].
  apply (while_loop_total (option_round b) (λ '(pos, done), ∃ todo, os = done ++ todo ∧ pos = 4 + zlen (enc_options done)) (λ '(pos, _), zlen b - pos)).
  - intros [pos done'] (todo & Eos & ->) _. rewrite Eos in Ho. eapply returns_mono; [apply (parse_round b done' todo rest); [|done|]|].
    + rewrite <- Hb, Eos, enc_options_app, zlen_app. lia.
    + unfold b. by rewrite Eos, enc_options_app, <- app_assoc.
    + intros [[pos' done'']|r]; rewrite Eos; done.
  - by exists os.
  - unfold zlen in *. lia.
Qed.
End Options.

(** ** Frames *)

Section Frames.

Record fixed_ok (h : DhcpFixedHeader) : Prop := {
  fo_xid : u32 (dhcp_xid h);
  fo_ints : u16 (seconds h) ∧ u16 (dhcp_flags h);
  fo_mac : zlen (hardware_address h) = 6;
  fo_pad : zlen (hardware_address_padding h) = 10 ∧ zlen (host_name h) = 64 ∧ zlen (file_name h) = 128
}.

Lemma field_at pre (a rest : list Z) : field (pre ++ a ++ rest) (zlen pre) (zlen a) = a.
Proof. unfold field, zdrop, ztake, zlen. rewrite !Nat2Z.id, drop_app_length, take_app_length. done. Qed.

Lemma zlen_fixed h : fixed_ok h → zlen (fixed_bytes h) = FIXED_SIZE.
Proof.
  intros [_ _ Hm (Hp & Hh & Hf)]. unfold fixed_bytes, octets. destruct (client_ip_addr h) as [[[? ?] ?] ?], (your_ip_addr h) as [[[? ?] ?] ?], (next_server_ip h) as [[[? ?] ?] ?], (relay_agent_ip h) as [[[? ?] ?] ?].
  rewrite !zlen_app, Hm, Hp, Hh, Hf. done.
Qed.

Lemma fixed_read_bytes h rest : fixed_ok h → fixed_read (fixed_bytes h ++ rest) = Some (h, rest).
Proof.
  intros Hok. pose proof (zlen_fixed h Hok) as Hz. destruct Hok as [Hx [Hs Hfl] Hm (Hp & Hh & Hf)]. unfold fixed_read. pose proof (zlen_nonneg rest).
  rewrite (proj2 (Z.ltb_ge _ _)) by (rewrite zlen_app; lia). f_equal. f_equal.
  2:{ unfold zdrop. rewrite <- Hz. unfold zlen. by rewrite Nat2Z.id, drop_app_length. }
  destruct h as [op ht hl hp xid se fl ci yi ni ri mac pad hn fn]. cbn in Hx, Hs, Hfl, Hm, Hp, Hh, Hf. 
  destruct ci as [[[c1 c2] c3] c4], yi as [[[y1 y2] y3] y4], ni as [[[n1 n2] n3] n4], ri as [[[r1 r2] r3] r4].
  set (pre := [op; ht; hl; hp] ++ be32 xid ++ be16 se ++ be16 fl ++ [c1; c2; c3; c4] ++ [y1; y2; y3; y4] ++ [n1; n2; n3; n4] ++ [r1; r2; r3; r4]).
  assert (E : fixed_bytes (mkFixed op ht hl hp xid se fl (c1, c2, c3, c4) (y1, y2, y3, y4) (n1, n2, n3, n4) (r1, r2, r3, r4) mac pad hn fn) ++ rest = pre ++ mac ++ pad ++ hn ++ fn ++ rest)
    by (unfold fixed_bytes, pre; cbn [app octets operation hardware_type hardware_address_length hops dhcp_xid seconds dhcp_flags client_ip_addr your_ip_addr next_server_ip relay_agent_ip hardware_address hardware_address_padding host_name file_name be32 be16]; by rewrite <- !app_assoc).
  rewrite E. f_equal; try done.
  - by apply from_to_be32.
  - by apply from_to_be16.
  - by apply from_to_be16.
  - rewrite <- Hm. apply (field_at pre).
  - rewrite <- Hp. replace 34 with (zlen (pre ++ mac)) by (rewrite zlen_app, Hm; done). rewrite app_assoc. apply field_at.
  - rewrite <- Hh. replace 44 with (zlen (pre ++ mac ++ pad)) by (rewrite !zlen_app, Hm, Hp; done).
    replace (pre ++ mac ++ pad ++ hn ++ fn ++ rest) with ((pre ++ mac ++ pad) ++ hn ++ fn ++ rest) by (by rewrite <- !app_assoc). apply field_at.
  - rewrite <- Hf. replace 108 with (zlen (pre ++ mac ++ pad ++ hn)) by (rewrite !zlen_app, Hm, Hp, Hh; done).
    replace (pre ++ mac ++ pad ++ hn ++ fn ++ rest) with ((pre ++ mac ++ pad ++ hn) ++ fn ++ rest) by (by rewrite <- !app_assoc). apply field_at.
Qed.
End Frames.

(** ** The routes of a lease *)

Section LeaseRoutes.

Definition same_network (m a b : Ipv4Addr) : Prop := Z.land (ip_to_u32 a) (ip_to_u32 m) = Z.land (ip_to_u32 b) (ip_to_u32 m).
#[global] Instance same_network_dec m a b : Decision (same_network m a b).
Proof. unfold same_network. apply _. Defined.

(** The mask of a prefix of [n] bits. *)
Definition mask_of (n : Z) (m : Ipv4Addr) : Prop := ip_to_u32 m = mask (32 - n) n.

Lemma count_ones_mask n : 0 ≤ n ≤ 32 → count_ones (mask (32 - n) n) = n.
Proof.
  intros Hn. replace n with (Z.of_nat (Z.to_nat n)) by lia. assert (Hk : (Z.to_nat n < 33)%nat) by lia. revert Hk. generalize (Z.to_nat n). clear n Hn. intros k Hk.
  do 33 (destruct k as [|k]; [vm_compute; reflexivity|]). lia.
Qed.

Lemma ip_from_u32_word x : word 32 x → ip_ok (ip_from_u32 x) ∧ ip_to_u32 (ip_from_u32 x) = x.
Proof.
  intros Hx. unfold ip_from_u32. assert (Hb : ∀ y, u8 (y mod U8)) by (intros y; ints; apply Z.mod_pos_bound; lia). split; [repeat constructor; apply Hb|].
  rewrite ip_to_u32_eq by apply Hb. unfold word in Hx. unfold from_be32. rewrite !Z.shiftr_div_pow2 by lia. mlia.
Qed.

Lemma local_matches n m a ip : 0 ≤ n ≤ 32 → mask_of n m → ip_ok a → ip_ok ip →
  let p := mkPrefix (ip_from_u32 (Z.land (ip_to_u32 a) (ip_to_u32 m))) n in
  prefix_ok p ∧ (matches p ip ↔ same_network m a ip).
Proof.
  intros Hn Hm Ha Hip p. assert (Hw : word 32 (Z.land (ip_to_u32 a) (ip_to_u32 m))) by (apply word_land; [lia|by apply ip_word]).
  destruct (ip_from_u32_word _ Hw) as [Hok Heq]. assert (Hp : prefix_ok p) by done. split; [done|].
  unfold matches. cbn [p prefix_address mask_len]. rewrite Heq, Hm. unfold same_network. rewrite Hm.
  pose proof (land_mask_shiftr (Z.land (ip_to_u32 a) (mask (32 - n) n)) (ip_to_u32 ip) (32 - n) n) as E.
  replace (32 - n + n) with 32 in E by lia. rewrite <- Z.land_assoc, Z.land_diag in E.
  assert (Hb : (Z.land (ip_to_u32 a) (mask (32 - n) n) =? Z.land (ip_to_u32 ip) (mask (32 - n) n)) =
    bool_decide (Z.shiftr (Z.land (ip_to_u32 a) (mask (32 - n) n)) (32 - n) = Z.shiftr (ip_to_u32 ip) (32 - n))) by (apply E; [by rewrite <- Hm|by apply ip_word|lia|lia]).
  case_bool_decide as Hc; [apply Z.eqb_eq in Hb|apply Z.eqb_neq in Hb]; tauto.
Qed.

Lemma all_matches ip : ip_ok ip → matches (mkPrefix unspecified 0) ip.
Proof.
  intros Hip. unfold matches. cbn [prefix_address mask_len]. pose proof (ip_word ip Hip) as Hw. rewrite !Z.shiftr_div_pow2 by lia.
  change (ip_to_u32 unspecified) with 0. unfold word in Hw. rewrite !Z.div_small by lia. done.
Qed.

Lemma host_matches a ip : ip_ok a → ip_ok ip → matches (mkPrefix a 32) ip → ip = a.
Proof.
  intros Ha Hip. unfold matches. cbn [prefix_address mask_len]. change (32 - 32) with 0. rewrite !Z.shiftr_0_r. intros E.
  by rewrite <- (ip_u32_roundtrip ip Hip), <- (ip_u32_roundtrip a Ha), E.
Qed.

(** Addresses of the lease's network are reached directly, others through its
    gateway. *)
Lemma lease_routes id lease d n : 1 ≤ n ≤ 32 → mask_of n (subnet_mask lease) → ip_ok (internet_address lease) → dhcp_routes d = [] →
  ∃ rs, install_routes id lease d = Ret (d <| dhcp_routes := rs |>) ∧
    ∀ ip, ip_ok ip → resolve_next_hop_with_interface ip rs =
      Ret (Some (id, if decide (same_network (subnet_mask lease) (internet_address lease) ip) then ip else default_gateway lease)).
Proof.
  intros Hn Hm Ha Hd. set (a := internet_address lease) in *. set (m := subnet_mask lease) in *. unfold install_routes. fold a m.
  assert (Hc : count_ones (ip_to_u32 m) = n) by (rewrite Hm; apply count_ones_mask; lia). rewrite Hc. unfold prefix_new.
  rewrite (proj2 (Z.leb_le n 32)) by lia. cbn [rassert Z.leb Z.compare Pos.compare Pos.compare_cont]. cbn [mbind res_bind].
  set (local := mkPrefix _ n). eexists. split; [done|]. intros ip Hip.
  destruct (local_matches n m a ip ltac:(lia) Hm Ha Hip) as [Hlp Hlm]. fold local in Hlp, Hlm.
  set (rs := [(local, id, Direct); (mkPrefix a 32, id, Direct); (mkPrefix unspecified 0, id, Gateway (default_gateway lease))]).
  rewrite Hd. change (insert_for_interface _ _ _ _) with (foldl add_route [] rs).
  pose proof (add_routes_ok rs [] ∅ routes_empty) as Hok.
  assert (Hpo : Forall (λ r, prefix_ok r.1.1) rs) 
    by (constructor; [done|]; constructor; [split; [done|cbn; lia]|]; constructor; [split; [repeat constructor; ints; lia|cbn; lia]|constructor]).
  destruct (lookup_entry_spec _ _ ip (Hok Hpo) Hip) as (r & Er & Hr). unfold resolve_next_hop_with_interface, lookup_with_interface. rewrite Er. cbn [mbind res_bind].
  assert (Hspec : ∀ p i v, foldl add_spec ∅ rs !! (p, i) = Some v → i = id ∧ ((p = mkPrefix unspecified 0 ∧ v = Gateway (default_gateway lease)) ∨ (p = mkPrefix a 32 ∧ v = Direct) ∨ (p = local ∧ v = Direct))).
  { intros p i v. cbn [rs foldl add_spec]. rewrite !lookup_insert_Some, lookup_empty. intros [[[= -> ->] <-]|[_ [[[= -> ->] <-]|[_ [[[= -> ->] <-]|[_ [=]]]]]]]; tauto. }
  assert (Hall : foldl add_spec ∅ rs !! (mkPrefix unspecified 0, id) = Some (Gateway (default_gateway lease))) by (cbn [rs foldl add_spec]; by rewrite lookup_insert_eq).
  assert (Hloc : foldl add_spec ∅ rs !! (local, id) = Some Direct).
  { cbn [rs foldl add_spec]. rewrite lookup_insert_ne by (intros [= _ E]; lia). destruct (decide (local = mkPrefix a 32)) as [-> |Hne]; [by rewrite lookup_insert_eq|].
    rewrite lookup_insert_ne by congruence. by rewrite lookup_insert_eq. }
  destruct r as [e|]; [|by destruct (Hr _ _ _ Hall); apply all_matches]. destruct Hr as (He & Hem & Hmax). cbn [option_map]. destruct e as [p i v]. cbn [route_prefix route_interface route_data] in *.
  destruct (Hspec p i v He) as [-> Hp]. do 3 f_equal. destruct (decide (same_network m a ip)) as [Hs|Hs].
  - specialize (Hmax _ _ _ Hloc (proj2 Hlm Hs)). destruct Hp as [[-> _]|[[_ ->]|[_ ->]]]; [cbn in Hmax; lia|done|done].
  - destruct Hp as [[_ ->]|[[-> _]|[-> _]]]; [done| |by destruct Hs; apply Hlm]. apply host_matches in Hem as ->; [|done|done]. by destruct Hs.
Qed.
End LeaseRoutes.

(** ** An exchange *)

Section Exchange.

(** A frame from a server. *)
Definition server_frame (h : DhcpFixedHeader) (os : list DhcpOption) (rest : list Z) : list Z :=
  fixed_bytes h ++ MAGIC_COOKIE ++ enc_options os ++ 255 :: rest.

Lemma receive_frame h os rest d : fixed_ok h → Forall option_ok os →
  dhcp_receive (server_frame h os rest) d =
  match sessions d !! hardware_address h with
  | None => Ret d
  | Some s => match message_type os with
              | Some Offer => handle_offer h os s d
              | Some Ack => handle_ack h os s d
              | _ => Ret d
              end
  end.
Proof. intros Hh Ho. unfold dhcp_receive, server_frame. by rewrite fixed_read_bytes, parse_enc, ret_bind. Qed.

Lemma update_interface_spec t id f i : interfaces_ok t → 0 ≤ id < 64 → get_interface id t = Ret (Some i) →
  ∃ t', update_interface id f t = Ret (true, t') ∧ interfaces_ok t' ∧ get_interface id t' = Ret (Some (f i)) ∧
    ∀ j, 0 ≤ j < 64 → j ≠ id → get_interface j t' = get_interface j t.
Proof.
  intros Hok Hid Hg. pose proof Hok as [Hz Hw]. rewrite interface_at in Hg by done.
  destruct (Z.testbit (occupied t) id) eqn:Eb; [|done]. injection Hg as Hg. unfold update_interface, MAX_NETWORK_INTERFACES.
  rewrite (proj2 (Z.leb_gt 64 id)), occupied_bit, Eb by (done || lia). unfold index. rewrite (proj2 (Z.ltb_ge _ _)), Hg, ret_bind by lia.
  rewrite store_as_insert, ret_bind by lia. eexists. split; [done|]. assert (Hok' : interfaces_ok (t <| interfaces := <[Z.to_nat id := f i]> (interfaces t) |>)) by (split; rsimp; [by rewrite zlen_insert|done]).
  split; [done|]. split; [|intros j Hj Hne]; rewrite !interface_at by done; rsimp.
  - rewrite Eb. unfold zlen in Hz. by rewrite list_lookup_insert_eq by lia.
  - by rewrite list_lookup_insert_ne by lia.
Qed.

Lemma mac_six (m : list Z) : zlen m = 6 → ∃ a b c d e f, m = [a; b; c; d; e; f].
Proof.
  intros Hz. unfold zlen in Hz. do 6 (destruct m as [|? m]; [simpl in Hz; lia|]). destruct m; [eauto 10|]. simpl in Hz. lia.
Qed.

Definition discover_options (mac : list Z) : list DhcpOption := [mkOption MessageType [1]; client_identifier mac; parameter_request_list].
Definition request_options (mac : list Z) (ip server : Ipv4Addr) : list DhcpOption :=
  [mkOption MessageType [3]; client_identifier mac; mkOption RequestedIpAddress (octets ip); mkOption ServerIdentifier (octets server); parameter_request_list].
Definition client_header (flags xid : Z) (client your : Ipv4Addr) (mac : list Z) : DhcpFixedHeader :=
  mkFixed 1 1 6 0 xid 0 flags client your unspecified unspecified mac (zeros 10) (zeros 64) (zeros 128).
Definition discover_frame (xid : Z) (mac : list Z) : list Z := fixed_bytes (client_header 32768 xid unspecified unspecified mac) ++ options_area (discover_options mac).
Definition request_frame (xid : Z) (mac : list Z) (ip server : Ipv4Addr) : list Z :=
  fixed_bytes (client_header 32768 xid unspecified ip mac) ++ options_area (request_options mac ip server).

Lemma discover_frame_spec xid mac d : zlen mac = 6 → dhcp_socket d = true →
  send_discover mac xid d = Ret (true, d <| dhcp_sent := dhcp_sent d ++ [(broadcast, discover_frame xid mac)] |>).
Proof.
  intros Hm Hs. unfold send_discover. destruct (mac_six mac Hm) as (a & b & c & e & f & g & ->).
  rewrite (client_frame_spec 32768 xid unspecified unspecified _ (discover_options [a; b; c; e; f; g])).
  - rewrite ret_bind. unfold send_udp_broadcast, dhcp_send. by rewrite Hs.
  - repeat constructor; cbn; (done || lia).
  - done.
Qed.

Lemma request_frame_spec xid mac lease offered os d : zlen mac = 6 → dhcp_socket d = true →
  let server := default (default_gateway lease) (o ← find_option ServerIdentifier os; ip_data (opt_data o)) in
  internet_address lease = offered →
  send_request mac xid lease offered os d = Ret (true, d <| dhcp_sent := dhcp_sent d ++ [(broadcast, request_frame xid mac offered server)] |>).
Proof.
  intros Hm Hs server Hi. unfold send_request. fold server. rewrite Hi. destruct (mac_six mac Hm) as (a & b & c & e & f & g & ->).
  destruct offered as [[[o1 o2] o3] o4]. destruct server as [[[s1 s2] s3] s4].
  rewrite (client_frame_spec 32768 xid unspecified _ _ (request_options [a; b; c; e; f; g] (o1, o2, o3, o4) (s1, s2, s3, s4))).
  - rewrite ret_bind. unfold send_udp_broadcast, dhcp_send. by rewrite Hs.
  - repeat constructor; cbn; (done || lia).
  - done.
Qed.

(** What a frame of the client says, as its receiver reads it. *)
Lemma client_frame_read flags xid client your mac os : u32 xid → u16 flags → zlen mac = 6 → Forall option_ok os → 5 + zlen (enc_options os) ≤ OPTIONS_SIZE →
  fixed_read (fixed_bytes (client_header flags xid client your mac) ++ options_area os) = Some (client_header flags xid client your mac, options_area os) ∧
  parse_options (options_area os) = Ret os.
Proof.
  intros Hx Hf Hm Ho Hl. split; [apply fixed_read_bytes; constructor; [done|by split|done|done]|]. unfold options_area. by apply parse_enc.
Qed.

Lemma begin_spec id mac d : zlen mac = 6 → dhcp_socket d = true → sessions d !! mac = None →
  let xid := xid_counter d in
  begin_lease_acquisition id mac d = Ret (d <| xid_counter := (xid + 1) mod U32 |> <| shared := shared d ++ [mkShared gate_new false false] |>
    <| sessions := <[mac := mkSession id mac Discover xid None (length (shared d))]> (sessions d) |>
    <| dhcp_sent := dhcp_sent d ++ [(broadcast, discover_frame xid mac)] |>).
Proof. intros Hm Hs Hn xid. unfold begin_lease_acquisition, next_xid. rewrite Hn, discover_frame_spec by done. cbn [mbind res_bind]. done. Qed.

Lemma lease_address h os : internet_address (parse_lease_from_options h os) = your_ip_addr h.
Proof.
  unfold parse_lease_from_options. set (l0 := mkLease _ _ _ _ _ _ _ _). change (your_ip_addr h) with (internet_address l0). clearbody l0. revert l0.
  induction os as [|o os IH]; intros l0; [done|]. cbn [foldl]. rewrite IH. unfold see_option. destruct (opt_code o); try done; by destruct (ip_data _) || by destruct (int_data _) || done.
Qed.

Lemma offer_spec h os s d : zlen (session_mac s) = 6 → dhcp_socket d = true → last_message s = Discover → dhcp_xid h = session_xid s →
  let lease := parse_lease_from_options h os in
  let server := default (default_gateway lease) (o ← find_option ServerIdentifier os; ip_data (opt_data o)) in
  handle_offer h os s d = Ret (d <| sessions := <[session_mac s := s <| last_message := Request |> <| session_lease := Some lease |>]> (sessions d) |>
    <| dhcp_sent := dhcp_sent d ++ [(broadcast, request_frame (session_xid s) (session_mac s) (your_ip_addr h) server)] |>).
Proof.
  intros Hm Hs Hl Hx lease server. unfold handle_offer. rewrite decide_False by (rewrite Hl; tauto). rewrite Hx, Z.eqb_refl. cbn [negb].
  fold lease. unfold put_session. pose proof (lease_address h os) as Hi. fold lease in Hi.
  rewrite request_frame_spec by done. cbn [mbind res_bind]. done.
Qed.

(** What an acknowledgement leaves behind for interface [id] and its lease. *)
Record configured (d d' : Dhcp) (id : Z) (i : NetworkInterface) (lease : DhcpLease) (arc : nat) : Prop := {
  cf_address : get_interface id (dhcp_interfaces d') = Ret (Some (i <| local_internet_address := Some (internet_address lease) |>));
  cf_others : ∀ j, 0 ≤ j < 64 → j ≠ id → get_interface j (dhcp_interfaces d') = get_interface j (dhcp_interfaces d);
  cf_routes : ∀ ip, ip_ok ip → resolve_next_hop_with_interface ip (dhcp_routes d') =
    Ret (Some (id, if decide (same_network (subnet_mask lease) (internet_address lease) ip) then ip else default_gateway lease));
  cf_resolver : dns_servers (resolver d') = if decide (lease_dns lease = []) then dns_servers (resolver d) else lease_dns lease;
  cf_session : ∃ s, sessions d' !! local_mac_address i = Some s ∧ last_message s = Ack ∧ is_Some (session_lease s);
  cf_woken : interface_address_ready d' = event_notify (interface_address_ready d);
  cf_complete : ∃ f, shared d' !! arc = Some f ∧ gate_flag (completion f) = true;
  cf_timers : timers d' = timers d ++ [id]
}.

Lemma timer_spec id mac lease arc f d : lease_time_seconds lease ≠ 0 → shared d !! arc = Some f → timer_spawned f = false →
  ∃ ss, ensure_lease_timer id mac lease arc d =
      Ret (d <| sessions := ss |> <| shared := <[arc := f <| timer_spawned := true |>]> (shared d) |> <| timers := timers d ++ [id] |>) ∧
    ∀ s, sessions d !! mac = Some s → ∃ l, ss !! mac = Some (s <| session_lease := Some l |>).
Proof.
  intros Hl Hf Ht. unfold ensure_lease_timer. rewrite (proj2 (Z.eqb_neq _ _)) by done. unfold update_lease_timers.
  destruct (lease_timers lease) as [t1 t2]. destruct (sessions d !! mac) as [s|] eqn:Es.
  - rsimp. rewrite Hf, Ht. eexists. split; [done|]. intros s' [= <-]. rewrite lookup_insert_eq. eauto.
  - rewrite Hf, Ht. exists (sessions d). split; [by destruct d|]. intros s' Hs'. congruence.
Qed.

Lemma ack_spec h os s d offer i n f : last_message s = Request → dhcp_xid h = session_xid s → session_lease s = Some offer →
  session_mac s = local_mac_address i → interfaces_ok (dhcp_interfaces d) → 0 ≤ session_interface s < 64 →
  get_interface (session_interface s) (dhcp_interfaces d) = Ret (Some i) → dhcp_routes d = [] →
  shared d !! session_shared s = Some f → acquisition_complete f = false → timer_spawned f = false →
  let lease := ack_lease offer (parse_lease_from_options h os) in
  1 ≤ n ≤ 32 → mask_of n (subnet_mask lease) → ip_ok (internet_address lease) → lease_time_seconds lease ≠ 0 →
  ∃ d', handle_ack h os s d = Ret d' ∧ dhcp_sent d' = dhcp_sent d ∧ configured d d' (session_interface s) i lease (session_shared s).
Proof.
  intros Hl Hx Hle Hmac Hi Hid Hg Hr Hf Hac Hts lease Hn Hm Ha Ht. unfold handle_ack. rewrite decide_False by (rewrite Hl; tauto). rewrite Hx, Z.eqb_refl. cbn [negb].
  rewrite Hle. fold lease. set (id := session_interface s) in *. unfold put_session. set (s' := s <| last_message := Ack |> <| session_lease := Some lease |>).
  set (d1 := d <| sessions := _ |>). destruct (lease_routes id lease d1 n Hn Hm Ha Hr) as (rs & Ers & Hrs). rewrite Ers, ret_bind. unfold update_interface_address.
  destruct (update_interface_spec (dhcp_interfaces d) id (λ i, i <| local_internet_address := Some (internet_address lease) |>) i Hi Hid Hg) as (t & Et & _ & Hgt & Hot).
  change (dhcp_interfaces (d1 <| dhcp_routes := rs |>)) with (dhcp_interfaces d). rewrite Et. cbn [mbind res_bind].
  set (d2 := d1 <| dhcp_routes := rs |> <| dhcp_interfaces := t |> <| interface_address_ready := _ |>).
  set (d3 := if decide (lease_dns lease = []) then d2 else _).
  assert (E3 : d3 = d2 <| resolver := if decide (lease_dns lease = []) then resolver d else configure (lease_dns lease) (resolver d) |>) by (unfold d3; destruct (decide _); by destruct d).
  clearbody d3. subst d3. rsimp. change (shared d2) with (shared d). rewrite Hf, Hac. set (f' := f <| acquisition_complete := true |> <| completion := _ |>).
  set (d4 := d2 <| resolver := _ |> <| shared := _ |>). assert (Hsh : shared d4 !! session_shared s = Some f') by (unfold d4; rsimp; rewrite list_lookup_insert_eq; [done|by eapply lookup_lt_Some]).
  destruct (timer_spec id (session_mac s) lease (session_shared s) f' d4 Ht Hsh Hts) as (ss & -> & Hss). eexists. split; [done|]. split; [done|].
  assert (Hs4 : sessions d4 !! session_mac s = Some s') by (unfold d4, d2, d1; rsimp; by rewrite lookup_insert_eq). destruct (Hss _ Hs4) as [l Hl'].
  constructor; rsimp.
  - exact Hgt.
  - exact Hot.
  - exact Hrs.
  - unfold d4. rsimp. destruct (decide (lease_dns lease = [])) as [|Hne]; [done|]. unfold configure. by rewrite decide_False.
  - rewrite <- Hmac. eexists. split; [exact Hl'|]. unfold s'. by rsimp.
  - done.
  - exists (f' <| timer_spawned := true |>). rewrite list_lookup_insert_eq by (eapply lookup_lt_Some; exact Hsh). done.
  - done.
Qed.

(** A server's answer to the client with this address and transaction. *)
Record answers_client (mac : list Z) (xid : Z) (ty : DhcpMessageType) (h : DhcpFixedHeader) (os : list DhcpOption) : Prop := {
  ac_header : fixed_ok h;
  ac_options : Forall option_ok os;
  ac_mac : hardware_address h = mac;
  ac_xid : dhcp_xid h = xid;
  ac_type : message_type os = Some ty
}.

(** C10: The exchange of four messages, on a machine that has no routes yet.  A
    client without a session broadcasts a discover; when a server offers an
    address, it broadcasts a request for that address to that server; when the
    server acknowledges, with a contiguous mask that is not empty and a lease
    that is not zero, the interface has the address, addresses of its network
    are reached directly and all others through the gateway, the resolver has
    the servers of the lease, the threads blocked until an interface has an
    address are made runnable, and the lease timer is started. *)
Theorem dhcp_exchange_configures_interface d id i h1 os1 r1 h2 os2 r2 n :
  let mac := local_mac_address i in
  let xid := xid_counter d in
  let lease := ack_lease (parse_lease_from_options h1 os1) (parse_lease_from_options h2 os2) in
  dhcp_socket d = true → sessions d !! mac = None → zlen mac = 6 → u32 xid → dhcp_routes d = [] →
  interfaces_ok (dhcp_interfaces d) → 0 ≤ id < 64 → get_interface id (dhcp_interfaces d) = Ret (Some i) →
  answers_client mac xid Offer h1 os1 → answers_client mac xid Ack h2 os2 →
  1 ≤ n ≤ 32 → mask_of n (subnet_mask lease) → ip_ok (your_ip_addr h1) → lease_time_seconds lease ≠ 0 →
  ∃ d1 d2 d3 request hr area os,
    begin_lease_acquisition id mac d = Ret d1 ∧ dhcp_receive (server_frame h1 os1 r1) d1 = Ret d2 ∧ dhcp_receive (server_frame h2 os2 r2) d2 = Ret d3 ∧
    configured d d3 id i lease (length (shared d)) ∧ internet_address lease = your_ip_addr h1 ∧
    dhcp_sent d3 = dhcp_sent d ++ [(broadcast, discover_frame xid mac); (broadcast, request)] ∧
    fixed_read request = Some (hr, area) ∧ dhcp_xid hr = xid ∧ hardware_address hr = mac ∧ parse_options area = Ret os ∧
    message_type os = Some Request ∧ find_option RequestedIpAddress os = Some (mkOption RequestedIpAddress (octets (your_ip_addr h1))) ∧
    ∀ server, (o ← find_option ServerIdentifier os1; ip_data (opt_data o)) = Some server → find_option ServerIdentifier os = Some (mkOption ServerIdentifier (octets server)).
Proof.
  intros mac xid lease Hs Hn Hm Hx Hr Hi Hid Hg [Hf1 Ho1 Hm1 Hx1 Ht1] [Hf2 Ho2 Hm2 Hx2 Ht2] Hmn Hmask Hip Hlt.
  rewrite begin_spec by done. fold xid. set (s0 := mkSession id mac Discover xid None (length (shared d))). set (d1 := d <| xid_counter := _ |> <| shared := _ |> <| sessions := _ |> <| dhcp_sent := _ |>).
  assert (Hs0 : sessions d1 !! mac = Some s0) by (unfold d1; rsimp; by rewrite lookup_insert_eq).
  pose proof (offer_spec h1 os1 s0 d1 Hm Hs eq_refl Hx1) as Eo. cbv zeta in Eo. set (s1 := s0 <| last_message := Request |> <| session_lease := Some (parse_lease_from_options h1 os1) |>) in Eo. set (server := default _ _) in Eo.
  match type of Eo with _ = Ret ?x => set (d2 := x) in Eo end.
  assert (Hs1 : sessions d2 !! mac = Some s1) by (unfold d2; rsimp; by rewrite lookup_insert_eq).
  destruct (ack_spec h2 os2 s1 d2 (parse_lease_from_options h1 os1) i n (mkShared gate_new false false)) as (d3 & E3 & Hsent & Hconf); try done.
  { change (session_shared s1) with (length (shared d)). change (shared d2) with (shared d ++ [mkShared gate_new false false]). by rewrite lookup_app_r, Nat.sub_diag by lia. }
  { unfold ack_lease. rsimp. by rewrite lease_address. }
  assert (Ho : Forall option_ok (request_options mac (your_ip_addr h1) server)).
  { unfold request_options, client_identifier. destruct (mac_six mac Hm) as (? & ? & ? & ? & ? & ? & ->). destruct (your_ip_addr h1) as [[[? ?] ?] ?], server as [[[? ?] ?] ?]. repeat constructor; cbn; (done || lia). }
  assert (Hfit : 5 + zlen (enc_options (request_options mac (your_ip_addr h1) server)) ≤ OPTIONS_SIZE).
  { unfold request_options, client_identifier. destruct (mac_six mac Hm) as (? & ? & ? & ? & ? & ? & ->). destruct (your_ip_addr h1) as [[[? ?] ?] ?], server as [[[? ?] ?] ?]. done. }
  destruct (client_frame_read 32768 xid unspecified (your_ip_addr h1) mac _ Hx ltac:(ints; lia) Hm Ho Hfit) as [Hread Hparse].
  eexists d1, d2, d3, (request_frame xid mac (your_ip_addr h1) server), _, _, _. split; [done|].
  split; [by rewrite receive_frame, Hm1, Hs0, Ht1 by done|]. split; [by rewrite receive_frame, Hm2, Hs1, Ht2 by done|].
  split; [destruct Hconf; by constructor|]. split; [unfold lease, ack_lease; rsimp; apply lease_address|].
  split; [rewrite Hsent; unfold d2, d1; rsimp; by rewrite <- app_assoc|]. split; [exact Hread|]. split; [done|]. split; [done|]. split; [exact Hparse|].
  split; [done|]. split; [done|]. intros sv Hsv. unfold server. by rewrite Hsv.
Qed.
End Exchange.

(** ** Any datagram in any state *)

Section Safety.
Implicit Types d : Dhcp.

Definition session_ok (mac : list Z) (s : DhcpSession) : Prop :=
  session_mac s = mac ∧ zlen mac = 6 ∧ 0 ≤ session_interface s < 64 ∧ (last_message s = Discover ∨ is_Some (session_lease s)).

Record dhcp_ok d : Prop := {
  do_sessions : map_Forall session_ok (sessions d);
  do_interfaces : interfaces_ok (dhcp_interfaces d);
  do_macs : Forall (λ i, zlen (local_mac_address i) = 6) (interfaces (dhcp_interfaces d))
}.

(** States the driver can get into: sessions are begun for interfaces, datagrams
    of any content are received, and the timer of a lease, which works with the
    session as it once was, renews and rebinds. *)
Inductive reachable (start : Dhcp) : Dhcp → Prop :=
| reach_start : reachable start start
| reach_begin d d' id i : reachable start d → 0 ≤ id → get_interface id (dhcp_interfaces d) = Ret (Some i) →
    begin_lease_acquisition id (local_mac_address i) d = Ret d' → reachable start d'
| reach_receive d d' b : reachable start d → bytes b → dhcp_receive b d = Ret d' → reachable start d'
| reach_renew d0 d d' id s lease : reachable start d0 → timer_begin id d0 = Some (s, lease) → reachable start d →
    timer_renew id s lease d = Ret d' → reachable start d'
| reach_rebind d0 d d' id s lease : reachable start d0 → timer_begin id d0 = Some (s, lease) → reachable start d →
    timer_rebind id s lease d = Ret d' → reachable start d'.

(** The parser ends on every input; what stops it is an unknown code. *)
Lemma option_round_progress b pos os : bytes b → 0 ≤ pos → match option_round b (pos, os) with
  | Ret (inl (pos', _)) => pos < pos' ≤ zlen b
  | Ret (inr _) => True
  | Crash e => e = Panic
  end.
Proof.
  intros Hb Hp. unfold option_round. destruct (Z.leb_spec (zlen b) pos); [done|]. rewrite (index_ret b pos), ret_bind by lia.
  destruct (option_from (byte_at b pos)) as [c|e] eqn:Ec; cbn [mbind res_bind].
  2:{ unfold option_from in Ec. repeat case_match; congruence. }
  assert (Hdata : match (if zlen b <=? pos + 1 then Ret (inr os) else length ← index b (pos + 1);
      if zlen b <? pos + 2 + length then Ret (inr os) else data ← slice b (pos + 2) (pos + 2 + length);
      Ret (inl (pos + 2 + length, os ++ [mkOption c data]))) : res (Z * list DhcpOption + list DhcpOption) with
    | Ret (inl (pos', _)) => pos < pos' ≤ zlen b | Ret (inr _) => True | Crash e => e = Panic end).
  { destruct (Z.leb_spec (zlen b) (pos + 1)); [done|]. rewrite index_ret, ret_bind by lia.
    assert (Hl : u8 (byte_at b (pos + 1))). { unfold byte_at. destruct (b !! Z.to_nat (pos + 1)) eqn:E; cbn; [by eapply Forall_lookup_1 in Hb|ints; lia]. }
    destruct (Z.ltb_spec (zlen b) (pos + 2 + byte_at b (pos + 1))); [done|]. unfold u8 in Hl. rewrite slice_ret, ret_bind by lia. lia. }
  destruct c; try exact Hdata; try done. lia.
Qed.

Lemma parse_options_ends b : bytes b → match parse_options b with Ret _ => True | Crash e => e = Panic end.
Proof.
  intros Hb. unfold parse_options. destruct (_ || _) eqn:E; [done|]. apply orb_false_iff in E as [E _]. apply Z.ltb_ge in E.
  apply (while_loop_stops (option_round b) (λ '(pos, _), 0 ≤ pos) (λ '(pos, _), zlen b - pos)).
  - intros [pos os] Hpos _. pose proof (option_round_progress b pos os Hb Hpos) as Hr. destruct (option_round b (pos, os)) as [[[pos' os']|]|]; [lia|done|done].
  - lia.
  - unfold zlen in *. lia.
Qed.

(** Routes, interfaces and resolver are as before. *)
Definition same_config d d' : Prop :=
  dhcp_interfaces d' = dhcp_interfaces d ∧ dhcp_routes d' = dhcp_routes d ∧ resolver d' = resolver d.

Lemma dhcp_ok_sessions d d' : dhcp_ok d → dhcp_interfaces d' = dhcp_interfaces d → map_Forall session_ok (sessions d') → dhcp_ok d'.
Proof. intros [Hs Hi Hm] E Hs'. constructor; [done|by rewrite E..]. Qed.

Lemma dhcp_ok_put d s : dhcp_ok d → session_ok (session_mac s) s → map_Forall session_ok (<[session_mac s := s]> (sessions d)).
Proof. intros [Hs _ _] Ho. by apply map_Forall_insert_2. Qed.

Lemma dhcp_send_spec target f d : ∃ ok out, dhcp_send target f d = (ok, d <| dhcp_sent := out |>).
Proof. unfold dhcp_send. destruct (dhcp_socket d); [by eexists _, _|]. exists false, (dhcp_sent d). by destruct d. Qed.

Lemma client_frame_returns flags xid client your mac os : zlen mac = 6 → Forall option_ok os → 5 + zlen (enc_options os) ≤ OPTIONS_SIZE →
  ∃ f, client_frame flags xid client your mac os = Ret f.
Proof. intros Hm Ho Hl. eexists. by apply client_frame_spec. Qed.

(** Discharges the side conditions of the client's fixed option lists. *)
Ltac fixed_options := repeat match goal with ip : Ipv4Addr |- _ => destruct ip as [[[? ?] ?] ?] end; repeat constructor; cbn; (done || lia).

Lemma handle_offer_safe h os s d : dhcp_ok d → session_ok (session_mac s) s → returns (handle_offer h os s d) (λ d', dhcp_ok d' ∧ same_config d d').
Proof.
  intros Hok Hs. unfold handle_offer. destruct (decide _); [by apply returns_ret|]. destruct (negb _); [by apply returns_ret|].
  set (s' := s <| last_message := Request |> <| session_lease := _ |>). unfold send_request. set (lease := parse_lease_from_options h os). set (server := default _ _).
  destruct Hs as (_ & Hm & Hid & _). assert (Hf : ∃ f, client_frame 32768 (session_xid s) unspecified (your_ip_addr h) (session_mac s) (request_options (session_mac s) (internet_address lease) server) = Ret f).
  { generalize (internet_address lease). clearbody server. intros ip. destruct (mac_six _ Hm) as (? & ? & ? & ? & ? & ? & E). rewrite E.
    apply client_frame_returns; [done| |by destruct ip as [[[? ?] ?] ?], server as [[[? ?] ?] ?]]. fixed_options. }
  destruct Hf as [f Hf]. unfold request_options in Hf. change [3] with [message_code Request] in Hf. rewrite Hf. cbn [mbind res_bind].
  unfold send_udp_broadcast. destruct (dhcp_send_spec broadcast f (put_session s' d)) as (ok & out & ->). apply returns_ret. split; [|done].
  eapply dhcp_ok_sessions; [exact Hok|done|]. rsimp. unfold put_session. rsimp. apply (dhcp_ok_put d s' Hok). unfold session_ok, s'. rsimp. eauto.
Qed.

Lemma count_ones_bound x : 0 ≤ count_ones x ≤ 32.
Proof.
  unfold count_ones. assert (Hl : (length (filter (λ b, Z.testbit x b = true) (seqZ 0 32)) ≤ 32)%nat) by (etransitivity; [apply length_filter|by rewrite length_seqZ]). unfold zlen. lia.
Qed.

Lemma install_routes_returns id lease d : ∃ rs, install_routes id lease d = Ret (d <| dhcp_routes := rs |>).
Proof. unfold install_routes, prefix_new. rewrite (proj2 (Z.leb_le (count_ones _) 32)) by apply count_ones_bound. cbn [rassert mbind res_bind]. eauto. Qed.

Lemma update_interface_ok t id f : interfaces_ok t → 0 ≤ id < 64 → ∃ r t', update_interface id f t = Ret (r, t') ∧ interfaces_ok t' ∧
  ∀ P, Forall P (interfaces t) → (∀ i, P i → P (f i)) → Forall P (interfaces t').
Proof.
  intros Hok Hid. pose proof Hok as [Hz Hw]. unfold update_interface, MAX_NETWORK_INTERFACES. rewrite (proj2 (Z.leb_gt 64 id)) by lia.
  destruct (is_occupied_at t id); [|by eexists _, _]. unfold index. rewrite (proj2 (Z.ltb_ge _ _)) by lia. unfold zlen in Hz.
  destruct (lookup_lt_is_Some_2 (interfaces t) (Z.to_nat id)) as [i Ei]; [lia|]. rewrite Ei, ret_bind, store_as_insert, ret_bind by (unfold zlen; lia).
  eexists _, _. split; [done|]. split; [split; rsimp; [by rewrite zlen_insert|done]|]. intros P HP Hf. rsimp. apply Forall_insert; [done|].
  apply Hf. by eapply Forall_lookup_1.
Qed.

Lemma ensure_timer_ok id mac lease arc d : dhcp_ok d → returns (ensure_lease_timer id mac lease arc d) (λ d', dhcp_ok d' ∧ same_config d d').
Proof.
  intros Hok. unfold ensure_lease_timer. destruct (_ =? _); [by apply returns_ret|].
  assert (Hu : dhcp_ok (update_lease_timers mac lease d) ∧ same_config d (update_lease_timers mac lease d)).
  { unfold update_lease_timers. destruct (lease_timers lease) as [t1 t2]. destruct (sessions d !! mac) as [s|] eqn:Es; [|done]. split; [|done].
    eapply dhcp_ok_sessions; [exact Hok|done|]. rsimp. pose proof (do_sessions d Hok mac s Es) as (Hm & H6 & Hi & Hl).
    apply map_Forall_insert_2; [|exact (do_sessions d Hok)]. unfold session_ok. rsimp. eauto. }
  set (d1 := update_lease_timers mac lease d) in *. destruct Hu as [Hu Hsame]. destruct (shared d1 !! arc) as [f|]; [|by apply returns_ret]. destruct (timer_spawned f); [by apply returns_ret|].
  change (can_spawn 9) with true. apply returns_ret. split; [eapply dhcp_ok_sessions; [exact Hu|done|exact (do_sessions d1 Hu)]|exact Hsame].
Qed.

(** What an acknowledgement must be to change the configuration. *)
Definition acknowledges (h : DhcpFixedHeader) (s : DhcpSession) d d' : Prop :=
  last_message s = Request ∧ dhcp_xid h = session_xid s ∧ ∃ offer r, session_lease s = Some offer ∧
    update_interface (session_interface s) (λ i, i <| local_internet_address := Some (internet_address offer) |>) (dhcp_interfaces d) = Ret (r, dhcp_interfaces d').

Lemma handle_ack_safe h os s d : dhcp_ok d → session_ok (session_mac s) s →
  returns (handle_ack h os s d) (λ d', dhcp_ok d' ∧ (same_config d d' ∨ acknowledges h s d d')).
Proof.
  intros Hok (_ & Hm & Hid & _). unfold handle_ack. destruct (decide _) as [|Hl]; [apply returns_ret; split; [done|by left]|].
  destruct (Z.eqb_spec (dhcp_xid h) (session_xid s)) as [Hx|]; cbn [negb]; [|apply returns_ret; split; [done|by left]].
  destruct (session_lease s) as [offer|] eqn:El; [|apply returns_ret; split; [done|by left]]. set (lease := ack_lease offer _).
  assert (Ha : internet_address lease = internet_address offer) by (unfold lease, ack_lease; by rsimp).
  set (s' := s <| last_message := Ack |> <| session_lease := Some lease |>). destruct (install_routes_returns (session_interface s) lease (put_session s' d)) as [rs ->]. rewrite ret_bind.
  destruct (update_interface_ok (dhcp_interfaces d) (session_interface s) (λ i, i <| local_internet_address := Some (internet_address lease) |>) (do_interfaces d Hok) Hid) as (r & t & Et & Hti & Htm).
  unfold update_interface_address. change (dhcp_interfaces ((put_session s' d) <| dhcp_routes := rs |>)) with (dhcp_interfaces d). rewrite Et. cbn [mbind res_bind].
  set (d2 := (put_session s' d) <| dhcp_routes := rs |> <| dhcp_interfaces := t |> <| interface_address_ready := _ |>). set (d3 := if decide (lease_dns lease = []) then d2 else _).
  assert (H3 : sessions d3 = sessions d2 ∧ dhcp_interfaces d3 = t) by (unfold d3; by destruct (decide _)). destruct H3 as [Hs3 Hi3]. clearbody d3.
  set (d4 := match shared d3 !! session_shared s with Some f => _ | None => _ end).
  assert (H4 : sessions d4 = sessions d2 ∧ dhcp_interfaces d4 = t) by (unfold d4; destruct (shared d3 !! session_shared s) as [f|]; [|done]; by destruct (acquisition_complete f)).
  destruct H4 as [Hs4 Hi4]. clearbody d4. assert (Hok4 : dhcp_ok d4).
  { constructor; [|by rewrite Hi4|rewrite Hi4; apply Htm; [exact (do_macs d Hok)|done]]. rewrite Hs4. unfold d2, put_session. rsimp. apply (dhcp_ok_put d s' Hok).
    unfold session_ok, s'. rsimp. eauto. }
  destruct (ensure_timer_ok (session_interface s) (session_mac s) lease (session_shared s) d4 Hok4) as (d5 & -> & Hok5 & Hi5 & _). apply returns_ret. split; [exact Hok5|right].
  split; [by apply dec_stable|]. split; [done|]. exists offer, r. split; [done|]. by rewrite Hi5, Hi4, <- Ha, Et.
Qed.

Lemma fixed_read_mac b h rest : fixed_read b = Some (h, rest) → bytes b → zlen (hardware_address h) = 6 ∧ bytes rest.
Proof.
  unfold fixed_read. destruct (Z.ltb_spec (zlen b) FIXED_SIZE) as [|Hl]; [done|]. unfold FIXED_SIZE in *. intros [= <- <-] Hb. cbn [hardware_address].
  split; [unfold field; rewrite zlen_ztake; [done|rewrite zlen_zdrop; lia]|by apply Forall_drop].
Qed.

(** Receiving any bytes in a good state. *)
Lemma dhcp_receive_safe b d : bytes b → dhcp_ok d →
  match dhcp_receive b d with
  | Ret d' => dhcp_ok d' ∧ (same_config d d' ∨ ∃ h rest os s, fixed_read b = Some (h, rest) ∧ parse_options rest = Ret os ∧
      message_type os = Some Ack ∧ sessions d !! hardware_address h = Some s ∧ acknowledges h s d d')
  | Crash e => e = Panic ∧ ∃ h rest, fixed_read b = Some (h, rest) ∧ parse_options rest = Crash Panic
  end.
Proof.
  intros Hb Hok. unfold dhcp_receive. destruct (fixed_read b) as [[h rest]|] eqn:Ef; [|by split; [|left]]. destruct (fixed_read_mac b h rest Ef Hb) as [_ Hrb].
  pose proof (parse_options_ends rest Hrb) as Hp. destruct (parse_options rest) as [os|e] eqn:Ep; cbn [mbind res_bind]; [|subst e; eauto].
  destruct (sessions d !! hardware_address h) as [s|] eqn:Es; [|by split; [|left]]. pose proof (do_sessions d Hok _ s Es) as Hs. assert (Hs' : session_ok (session_mac s) s) by (destruct Hs as [E Hs]; by rewrite E).
  destruct (message_type os) as [[]|] eqn:Et; try (by split; [|left]).
  - destruct (handle_offer_safe h os s d Hok Hs') as (d' & -> & Hd & Hc). by split; [|left].
  - destruct (handle_ack_safe h os s d Hok Hs') as (d' & -> & Hd & Hc). split; [done|]. destruct Hc as [Hc|Hc]; [by left|right]. exists h, rest, os, s. done.
Qed.

Lemma begin_ok id i d d' : dhcp_ok d → 0 ≤ id → get_interface id (dhcp_interfaces d) = Ret (Some i) →
  begin_lease_acquisition id (local_mac_address i) d = Ret d' → dhcp_ok d'.
Proof.
  intros Hok Hid Hg. unfold begin_lease_acquisition. destruct (sessions d !! local_mac_address i) eqn:Es; [by intros [= <-]|]. unfold next_xid.
  assert (H64 : id < 64) by (unfold get_interface, MAX_NETWORK_INTERFACES in Hg; destruct (Z.leb_spec 64 id); [done|lia]).
  rewrite interface_at in Hg by (lia || exact (do_interfaces d Hok)). destruct (Z.testbit _ _); [|done]. injection Hg as Hg.
  assert (Hm : zlen (local_mac_address i) = 6) by (by eapply (Forall_lookup_1 _ _ _ _ (do_macs d Hok)) in Hg).
  unfold send_discover. destruct (client_frame_returns 32768 (xid_counter d) unspecified unspecified (local_mac_address i) (discover_options (local_mac_address i))) as [f Hf].
  { done. } { destruct (mac_six _ Hm) as (? & ? & ? & ? & ? & ? & ->). fixed_options. } { by destruct (mac_six _ Hm) as (? & ? & ? & ? & ? & ? & ->). }
  unfold discover_options in Hf. change [1] with [message_code Discover] in Hf. rewrite Hf. cbn [mbind res_bind]. set (d1 := put_session _ _). unfold send_udp_broadcast. destruct (dhcp_send_spec broadcast f d1) as (ok & out & ->).
  intros [= <-]. assert (Hs1 : map_Forall session_ok (sessions d1)).
  { unfold d1, put_session. rsimp. apply map_Forall_insert_2; [|exact (do_sessions d Hok)]. unfold session_ok. cbn. split; [done|]. split; [done|]. split; [lia|by left]. }
  destruct ok; (eapply dhcp_ok_sessions; [exact Hok|done|]); rsimp; [exact Hs1|by apply map_Forall_delete].
Qed.

Lemma timer_session d id s lease : dhcp_ok d → timer_begin id d = Some (s, lease) → session_interface s = id ∧ zlen (session_mac s) = 6 ∧ 0 ≤ id < 64.
Proof.
  intros Hok. unfold timer_begin. destruct (list_find _ _) as [[k s']|] eqn:Ef; cbn; [|done]. apply list_find_Some in Ef as (Ek & Hid & _).
  destruct (session_lease s'); cbn; [|done]. intros [= <- <-]. apply list_elem_of_lookup_2 in Ek. apply list_elem_of_fmap in Ek as ([mac x] & -> & Hx). cbn in *.
  apply elem_of_map_to_list in Hx. destruct (do_sessions d Hok mac x Hx) as (Hm & H6 & Hi & _). rewrite Hm. subst id. done.
Qed.

Lemma request_again_ok id xid s lease d : dhcp_ok d → zlen (session_mac s) = 6 → 0 ≤ id < 64 → dhcp_ok (request_again id xid s lease d).
Proof.
  intros Hok Hm Hid. eapply dhcp_ok_sessions; [exact Hok|done|]. unfold request_again, put_session. rsimp. apply map_Forall_insert_2; [|exact (do_sessions d Hok)].
  unfold session_ok. cbn. eauto.
Qed.

Lemma dhcp_ok_xid d n : dhcp_ok d → dhcp_ok (d <| xid_counter := n |>).
Proof. intros Hok. eapply dhcp_ok_sessions; [exact Hok|done|exact (do_sessions d Hok)]. Qed.
Lemma dhcp_ok_out d out : dhcp_ok d → dhcp_ok (d <| dhcp_sent := out |>).
Proof. intros Hok. eapply dhcp_ok_sessions; [exact Hok|done|exact (do_sessions d Hok)]. Qed.

Lemma timer_renew_ok id s lease d d' : dhcp_ok d → zlen (session_mac s) = 6 → 0 ≤ id < 64 → timer_renew id s lease d = Ret d' → dhcp_ok d'.
Proof.
  intros Hok Hm Hid. unfold timer_renew, next_xid, send_renew_request. set (d1 := request_again _ _ _ _ _).
  assert (H1 : dhcp_ok d1) by (apply request_again_ok; [by apply dhcp_ok_xid|done|done]). destruct (client_frame _ _ _ _ _ _) as [f|]; cbn [mbind res_bind]; [|done].
  destruct (dhcp_send_spec (default (default_gateway lease) (server_identifier lease)) f d1) as (ok & out & ->). intros [= <-]. by apply dhcp_ok_out.
Qed.

Lemma timer_rebind_ok id s lease d d' : dhcp_ok d → zlen (session_mac s) = 6 → 0 ≤ id < 64 → timer_rebind id s lease d = Ret d' → dhcp_ok d'.
Proof.
  intros Hok Hm Hid. unfold timer_rebind, next_xid, send_rebind_request. set (d1 := request_again _ _ _ _ _).
  assert (H1 : dhcp_ok d1) by (apply request_again_ok; [by apply dhcp_ok_xid|done|done]). destruct (client_frame _ _ _ _ _ _) as [f|]; cbn [mbind res_bind]; [|done].
  unfold send_udp_broadcast. destruct (dhcp_send_spec broadcast f d1) as (ok & out & ->). intros [= <-]. by apply dhcp_ok_out.
Qed.

Lemma reachable_ok start d : dhcp_ok start → reachable start d → dhcp_ok d.
Proof.
  intros Hst. induction 1 as [|d d' id i Hr IH Hid Hg Hb|d d' b Hr IH Hby Hrec|d0 d d' id s lease Hr0 IH0 Ht Hr IH Hren|d0 d d' id s lease Hr0 IH0 Ht Hr IH Hreb].
  - done.
  - by eapply begin_ok.
  - pose proof (dhcp_receive_safe b d Hby IH) as Hs. rewrite Hrec in Hs. tauto.
  - destruct (timer_session d0 id s lease IH0 Ht) as (_ & Hm & Hid). by eapply timer_renew_ok.
  - destruct (timer_session d0 id s lease IH0 Ht) as (_ & Hm & Hid). by eapply timer_rebind_ok.
Qed.

(** C11: Only the server's acknowledgement configures the machine.  In every
    state the driver can reach, any datagram is handled, unless it has an option
    with an unknown code, on which the parser panics; and routes, interface and
    resolver stay as they are unless it is an acknowledgement that answers, with
    its transaction, the session's pending request, in which case the interface
    gets the address of the lease that the session was offered. *)
Theorem dhcp_only_acknowledgement_configures t rs r d b : interfaces_ok t → Forall (λ i, zlen (local_mac_address i) = 6) (interfaces t) →
  reachable ((dhcp_new t rs r) <| dhcp_socket := true |>) d → bytes b →
  match dhcp_receive b d with
  | Ret d' => same_config d d' ∨ ∃ h rest os s, fixed_read b = Some (h, rest) ∧ parse_options rest = Ret os ∧
      message_type os = Some Ack ∧ sessions d !! hardware_address h = Some s ∧ acknowledges h s d d'
  | Crash e => e = Panic ∧ ∃ h rest, fixed_read b = Some (h, rest) ∧ parse_options rest = Crash Panic
  end.
Proof.
  intros Ht Hm Hr Hb. assert (Hok : dhcp_ok d) by (eapply reachable_ok; [|exact Hr]; constructor; [apply map_Forall_empty|done|done]).
  pose proof (dhcp_receive_safe b d Hb Hok) as Hs. destruct (dhcp_receive b d) as [d'|e]; [by destruct Hs|exact Hs].
Qed.
End Safety.

(** ** An exchange to evaluate *)

Section ExampleExchange.
Definition client_mac : list Z := [2; 0; 0; 0; 0; 1].
Definition one_card : NetworkInterfaceTable :=
  let none := mkInterface 0 (zeros 6) None false in
  mkInterfaces (mkInterface 0 client_mac None true :: replicate 63 none) 1.
Definition client : Dhcp := (dhcp_new one_card [] (dns_new (λ _, 0))) <| dhcp_socket := true |>.

Definition server_header (your : Ipv4Addr) : DhcpFixedHeader :=
  mkFixed 2 1 6 0 305419896 0 0 unspecified your (10, 0, 2, 2) unspecified client_mac (zeros 10) (zeros 64) (zeros 128).
Definition lease_options (ty : Z) : list DhcpOption :=
  [mkOption MessageType [ty]; mkOption SubnetMask [255; 255; 255; 0]; mkOption Router [10; 0; 2; 2]; mkOption DnsServer [10; 0; 2; 3];
   mkOption IpAddressLeaseTime [0; 1; 81; 128]; mkOption ServerIdentifier [10; 0; 2; 2]].

Lemma one_card_ok : interfaces_ok one_card ∧ Forall (λ i, zlen (local_mac_address i) = 6) (interfaces one_card).
Proof. split; [split; [done|unfold word; cbn; lia]|]. repeat constructor. Qed.

Lemma server_answers ty code : message_try_from code = Some ty → answers_client client_mac 305419896 ty (server_header (10, 0, 2, 15)) (lease_options code).
Proof.
  intros Ht. constructor; [|repeat constructor; cbn; (done || lia)|done|done|done].
  constructor; [ints; cbn; lia|ints; cbn; lia|done|done].
Qed.

Lemma dhcp_exchange_configures_interface_witness :
  ∃ d1 d2 d3, begin_lease_acquisition 0 client_mac client = Ret d1 ∧
    dhcp_receive (server_frame (server_header (10, 0, 2, 15)) (lease_options 2) []) d1 = Ret d2 ∧
    dhcp_receive (server_frame (server_header (10, 0, 2, 15)) (lease_options 5) []) d2 = Ret d3 ∧
    resolve_next_hop_with_interface (10, 0, 2, 77) (dhcp_routes d3) = Ret (Some (0, (10, 0, 2, 77))) ∧
    resolve_next_hop_with_interface (1, 1, 1, 1) (dhcp_routes d3) = Ret (Some (0, (10, 0, 2, 2))).
Proof.
  destruct (dhcp_exchange_configures_interface client 0 (mkInterface 0 client_mac None true) (server_header (10, 0, 2, 15)) (lease_options 2) []
    (server_header (10, 0, 2, 15)) (lease_options 5) [] 24) as (d1 & d2 & d3 & request & hr & area & os & E1 & E2 & E3 & [_ _ Hr _ _ _ _ _] & _).
  - reflexivity.
  - reflexivity.
  - reflexivity.
  - split; [vm_compute; discriminate|vm_compute; reflexivity].
  - reflexivity.
  - apply one_card_ok.
  - lia.
  - vm_compute; reflexivity.
  - by apply server_answers.
  - by apply server_answers.
  - lia.
  - vm_compute; reflexivity.
  - repeat constructor; ints; lia.
  - vm_compute; discriminate.
  - exists d1, d2, d3. split; [exact E1|]. split; [exact E2|]. split; [exact E3|].
    split; [rewrite Hr by (repeat constructor; ints; lia); vm_compute; reflexivity|rewrite Hr by (repeat constructor; ints; lia); vm_compute; reflexivity].
Defined.

Lemma dhcp_only_acknowledgement_configures_witness :
  match dhcp_receive (server_frame (server_header (10, 0, 2, 15)) (lease_options 5) []) client with
  | Ret d' => same_config client d'
  | Crash _ => False
  end.
Proof.
  pose proof (dhcp_only_acknowledgement_configures one_card [] (dns_new (λ _, 0)) client (server_frame (server_header (10, 0, 2, 15)) (lease_options 5) [])
    (proj1 one_card_ok) (proj2 one_card_ok) (reach_start _)) as Hs.
  assert (Hb : bytes (server_frame (server_header (10, 0, 2, 15)) (lease_options 5) [])) by (apply (bool_decide_unpack (bytes _)); vm_compute; exact I).
  specialize (Hs Hb). assert (E : dhcp_receive (server_frame (server_header (10, 0, 2, 15)) (lease_options 5) []) client = Ret client) by (vm_compute; reflexivity).
  rewrite E in *. destruct Hs as [Hs|(h & rest & os & s & _ & _ & _ & Hs & _)]; [exact Hs|]. change (sessions client) with (∅ : gmap (list Z) DhcpSession) in Hs. by rewrite lookup_empty in Hs.
Defined.

(** An option that the enumeration does not list, as the broadcast address
    (28) that servers send, stops the kernel. *)
Lemma unknown_option_panics :
  dhcp_receive (fixed_bytes (server_header (10, 0, 2, 15)) ++ MAGIC_COOKIE ++ [53; 1; 2; 28; 4; 10; 0; 2; 255; 255]) client = Crash Panic.
Proof. vm_compute. reflexivity. Qed.

(** An acknowledgement that does not repeat mask and gateway resets them. *)
Lemma sparse_ack_resets_lease offer h : let l := ack_lease offer (parse_lease_from_options h [mkOption MessageType [5]]) in
  subnet_mask l = (255, 255, 255, 0) ∧ default_gateway l = unspecified ∧ lease_dns l = [].
Proof. done. Qed.

(** The rebinding at T2 puts the lease of the beginning of the round back, also
    when the renewal at T1 was acknowledged with another. *)
Lemma rebind_restores_old_lease id s lease d d' : timer_rebind id s lease d = Ret d' →
  sessions d' !! session_mac s = Some (mkSession id (session_mac s) Request (xid_counter d) (Some lease) (session_shared s)).
Proof.
  unfold timer_rebind, next_xid, send_rebind_request. destruct (client_frame _ _ _ _ _ _) as [f|]; cbn [mbind res_bind]; [|done]. unfold send_udp_broadcast.
  set (d1 := request_again _ _ _ _ _). destruct (dhcp_send_spec broadcast f d1) as (ok & out & ->). intros [= <-]. unfold d1, request_again, put_session. rsimp. by rewrite lookup_insert_eq.
Qed.
End ExampleExchange.
