(* ===== verification/VmBus.v ===== *)
(** * VMBus channels

    [kernel/src/driver/hv/hyperv/ring_buffer.rs] and [channel.rs], with the
    packet headers and the event flags of [hyperv/mod.rs].  The memory of a
    ring is its three header words and its data pages; the host sees the same
    memory.  Reading or writing outside the data pages is [OutOfBounds]. *)

From S2P Require Import Prelude Bits Circular.

Definition HYPERV_PAGE_SIZE : Z := 4096.

(** ** Rings *)

Record HyperVSingleRingBuffer := mkRing {
  write_offset : Z;
  read_offset : Z;
  interrupt_mask : Z;
  ring_data : list Z
}.
#[global] Instance eta_ring : Eta HyperVSingleRingBuffer := λ r,
  mkRing (write_offset r) (read_offset r) (interrupt_mask r) (ring_data r).

Definition ring_buffer_data_size (r : HyperVSingleRingBuffer) : Z := zlen (ring_data r).

Definition is_empty (r : HyperVSingleRingBuffer) : bool := read_offset r =? write_offset r.

Definition get_available_write_space (r : HyperVSingleRingBuffer) : res Z :=
  if read_offset r <=? write_offset r
  then sub_chk U64 (ring_buffer_data_size r) (write_offset r - read_offset r)
  else Ret (read_offset r - write_offset r).

Definition advance_read_index (read_bytes : Z) (r : HyperVSingleRingBuffer) : res HyperVSingleRingBuffer :=
  n ← add_chk U32 (read_offset r) read_bytes;
  n ← rem_chk n (ring_buffer_data_size r mod U32);
  Ret (r <| read_offset := n |>).

(** [HyperVDoubledRingBuffer::has_enough_space_to_send] and [send], on its TX
    ring. *)
Definition has_enough_space_to_send (len : Z) (tx : HyperVSingleRingBuffer) : res bool :=
  s ← get_available_write_space tx; Ret (len <? s mod U32).

Definition send (data : list Z) (offset : Z) (tx : HyperVSingleRingBuffer) : res (Z * HyperVSingleRingBuffer) :=
  let len := zlen data in
  bytes_to_end ← sub_chk U64 (ring_buffer_data_size tx) offset;
  d ← (if len <=? bytes_to_end then copy_raw (ring_data tx) offset data
       else d ← copy_raw (ring_data tx) offset (ztake bytes_to_end data);
            copy_raw d 0 (zdrop bytes_to_end data));
  o ← rem_chk (offset + len) (ring_buffer_data_size tx);
  Ret (o mod U32, tx <| ring_data := d |>).

Definition update_tx_writer_index (index : Z) (tx : HyperVSingleRingBuffer) : HyperVSingleRingBuffer := tx <| write_offset := index |>.
Definition should_signal_host (tx : HyperVSingleRingBuffer) : bool := interrupt_mask tx =? 0.

(** ** Packets *)

Inductive VmBusPacketType :=
| Invalid | Synch | AddXferPageSet | RemoveXferPageSet | EstablishGpadl | TeardownGpadl | DataInband
| DataUsingXferPages | DataUsingGpadl | DataUsingGpaDirect | CancelRequest | Completion
| DataUsingAdditionalPacket | AdditionalData.
#[global] Instance packet_type_eq_dec : EqDecision VmBusPacketType.
Proof. solve_decision. Defined.

Definition packet_types : list VmBusPacketType :=
  [Invalid; Synch; AddXferPageSet; RemoveXferPageSet; EstablishGpadl; TeardownGpadl; DataInband; DataUsingXferPages;
   DataUsingGpadl; DataUsingGpaDirect; CancelRequest; Completion; DataUsingAdditionalPacket; AdditionalData].
Definition packet_code (t : VmBusPacketType) : Z :=
  match t with
  | Invalid => 0 | Synch => 1 | AddXferPageSet => 2 | RemoveXferPageSet => 3 | EstablishGpadl => 4 | TeardownGpadl => 5
  | DataInband => 6 | DataUsingXferPages => 7 | DataUsingGpadl => 8 | DataUsingGpaDirect => 9 | CancelRequest => 10
  | Completion => 11 | DataUsingAdditionalPacket => 12 | AdditionalData => 13
  end.
(** [From<u64>]: [unreachable!()] for other values. *)
Definition packet_from (value : Z) : res VmBusPacketType := index packet_types value.

Record VmBusNormalPacketHeader := mkPacket {
  packet_type : Z;
  header_len_qword : Z;
  packet_len_qword : Z;
  packet_flags : Z;
  xid : Z
}.
#[global] Instance eta_packet : Eta VmBusNormalPacketHeader := λ h,
  mkPacket (packet_type h) (header_len_qword h) (packet_len_qword h) (packet_flags h) (xid h).

Definition packet_bytes (h : VmBusNormalPacketHeader) : list Z :=
  le16 (packet_type h) ++ le16 (header_len_qword h) ++ le16 (packet_len_qword h) ++ le16 (packet_flags h) ++ le64 (xid h).
Definition packet_read (b : list Z) : VmBusNormalPacketHeader :=
  mkPacket (from_le16 (field b 0 2)) (from_le16 (field b 2 2)) (from_le16 (field b 4 2)) (from_le16 (field b 6 2)) (from_le64 (field b 8 8)).
Definition NORMAL_HEADER_SIZE : Z := 16.
Definition XFER_HEADER_SIZE : Z := 104.
Definition FOOTER_SIZE : Z := 8.

(** The header the receiver is handed: a transfer page header keeps the bytes
    behind its embedded normal header. *)
Inductive VmBusPacketHeader :=
| Packet (header : VmBusNormalPacketHeader)
| Xfer (header : VmBusNormalPacketHeader) (rest : list Z).

Definition footer_bytes (first_byte_of_packet : Z) : list Z := le32 0 ++ le32 first_byte_of_packet.

(** A read through a raw pointer. *)
Definition read_raw (l : list Z) (i n : Z) : res (list Z) :=
  if (0 <=? i) && (0 <=? n) && (i + n <=? zlen l) then Ret (field l i n) else Crash OutOfBounds.

(** ** Sending *)

(** [send_raw]: [extra] is what follows the normal header in the memory of the
    header object; [data] is [None] for a null pointer.  The result is whether
    the host is signalled. *)
Definition send_raw (header : VmBusNormalPacketHeader) (extra : list Z) (data : option (list Z)) (len : Z) (tx : HyperVSingleRingBuffer)
  : res (bool * HyperVSingleRingBuffer) :=
  header_len ← mul_chk U16 (header_len_qword header) 8;
  let padding_complement := Z.land (8 - Z.land len 7) 7 in
  let tx_len := header_len + len + padding_complement + FOOTER_SIZE in
  enough ← has_enough_space_to_send (tx_len mod U32) tx;
  if negb enough then Crash Panic else
  let header := header <| packet_len_qword := ((tx_len - FOOTER_SIZE) / 8) mod U16 |> in
  let start := write_offset tx in
  hb ← read_raw (packet_bytes header ++ extra) 0 header_len;
  '(o, tx) ← send hb start tx;
  '(o, tx) ← (match data with
              | Some d => db ← read_raw d 0 len; send db o tx
              | None => Ret (o, tx)
              end);
  '(o, tx) ← send (zeros padding_complement) o tx;
  '(o, tx) ← send (footer_bytes start) o tx;
  let tx := update_tx_writer_index o tx in
  Ret (should_signal_host tx, tx).

Definition send_packet (data : option (list Z)) (len id : Z) (completion_requested : bool) (ty : VmBusPacketType) (tx : HyperVSingleRingBuffer)
  : res (bool * HyperVSingleRingBuffer) :=
  send_raw (mkPacket (packet_code ty) (NORMAL_HEADER_SIZE / 8) 0 (if completion_requested then 1 else 0) id) [] data len tx.

(** [send_data_packet]; [translate] is the address translation of the current
    address space.  The buffer is at [addr] and has [buffer_len] bytes. *)
Definition pfn_count (addr buffer_len : Z) : res Z :=
  e ← add_chk U64 addr buffer_len;
  e ← sub_chk U64 e 1;
  n ← sub_chk U64 (e / HYPERV_PAGE_SIZE) (addr / HYPERV_PAGE_SIZE);
  add_chk U64 n 1.

Fixpoint pfn_list (translate : Z → option Z) (addr : Z) (n : nat) : res (list Z) :=
  match n with
  | O => Ret []
  | S n =>
      match translate addr with
      | None => Crash Panic
      | Some p => rest ← pfn_list translate (addr + HYPERV_PAGE_SIZE) n; Ret (p / HYPERV_PAGE_SIZE :: rest)
      end
  end.

(** What follows the normal header of a GPA direct packet: reserved word, range
    count, the range and the page frame numbers. *)
Definition gpa_extra (addr buffer_len : Z) (pfns : list Z) : list Z :=
  le32 0 ++ le32 1 ++ le32 (buffer_len mod U32) ++ le32 (Z.land addr (HYPERV_PAGE_SIZE - 1)) ++ (pfns ≫= le64).
Definition GPA_HEADER_SIZE : Z := 32.

Definition send_data_packet (translate : Z → option Z) (inband : list Z) (id addr buffer_len : Z) (tx : HyperVSingleRingBuffer)
  : res (bool * HyperVSingleRingBuffer) :=
  n ← pfn_count addr buffer_len;
  let needed_len := GPA_HEADER_SIZE + n * 8 in
  let header := mkPacket (packet_code DataUsingGpaDirect) ((needed_len / 8) mod U16) 0 1 id in
  pfns ← pfn_list translate addr (Z.to_nat n);
  send_raw header (gpa_extra addr buffer_len pfns) (Some inband) (zlen inband) tx.

(** ** Receiving *)

Definition has_data_to_process (rx : HyperVSingleRingBuffer) : bool := negb (is_empty rx).
Definition enable_interrupts (rx : HyperVSingleRingBuffer) : HyperVSingleRingBuffer := rx <| interrupt_mask := 0 |>.
Definition disable_interrupts (rx : HyperVSingleRingBuffer) : HyperVSingleRingBuffer := rx <| interrupt_mask := 1 |>.

Record VmBusPacketGuard := mkGuard { guard_header : VmBusPacketHeader; guard_data : list Z; consumed_len : Z }.

Definition read (rx : HyperVSingleRingBuffer) : res (option VmBusPacketGuard) :=
  if negb (has_data_to_process rx) then Ret None else
  let offset := read_offset rx in
  hb ← read_raw (ring_data rx) offset NORMAL_HEADER_SIZE;
  let header := packet_read hb in
  let header_size := header_len_qword header * 8 in
  ty ← packet_from (packet_type header);
  packet_header ← (if decide (ty = DataUsingXferPages)
                   then b ← read_raw (ring_data rx) offset XFER_HEADER_SIZE; Ret (Xfer header (zdrop NORMAL_HEADER_SIZE b))
                   else Ret (Packet header));
  data_len ← sub_chk U64 (packet_len_qword header * 8) header_size;
  data ← read_raw (ring_data rx) (offset + header_size) data_len;
  Ret (Some (mkGuard packet_header data (packet_len_qword header * 8 + FOOTER_SIZE))).

(** [Drop for VmBusPacketGuard]. *)
Definition drop_guard (g : VmBusPacketGuard) (rx : HyperVSingleRingBuffer) : res HyperVSingleRingBuffer :=
  advance_read_index (consumed_len g mod U32) rx.

(** ** Event flags

    [handle_siefp_irq]: the channels whose drivers are looked up, in order, for
    the 64-bit words of flags of the VMBus interrupt source. *)
Definition flag_round (chunk_idx : Z) (s : Z * list Z) : res (Z * list Z + list Z) :=
  let '(value, channels) := s in
  if value =? 0 then Ret (inr channels) else
  let bit_idx := ctz 64 value in
  Ret (inl (Z.land value (wnot 64 (bit bit_idx)), channels ++ [(chunk_idx * 8 + bit_idx) mod U32])).

Fixpoint handle_siefp_irq (chunk_idx : Z) (flags : list Z) : res (list Z) :=
  match flags with
  | [] => Ret []
  | value :: flags =>
      here ← while_loop (flag_round chunk_idx) 65 (value, []);
      rest ← handle_siefp_irq (chunk_idx + 1) flags;
      Ret (here ++ rest)
  end.
