(* ===== verification/VmBusQueue.v ===== *)
(** * A VMBus ring is a queue of packets

    What [send_raw] writes and [read] takes: the ring that one end of a channel
    sends on and the other receives from behaves as a queue of packets, with
    the exact conditions under which an end stops. *)

From S2P Require Import Prelude Bits Circular VmBus.

(** ** The bytes a ring holds *)

Section Bytes.
Implicit Types r tx rx : HyperVSingleRingBuffer.

Record ring_ok r : Prop := {
  ro_size : 0 < ring_buffer_data_size r ≤ 524288;
  ro_size8 : ring_buffer_data_size r mod 8 = 0;
  ro_write : 0 ≤ write_offset r < ring_buffer_data_size r;
  ro_read : 0 ≤ read_offset r < ring_buffer_data_size r;
  ro_write8 : write_offset r mod 8 = 0;
  ro_read8 : read_offset r mod 8 = 0
}.

Definition used r : Z := (write_offset r - read_offset r) mod ring_buffer_data_size r.
Definition held r : list Z := ring (ring_data r) (ring_buffer_data_size r) (read_offset r) (used r).

Lemma used_range r : ring_ok r → 0 ≤ used r < ring_buffer_data_size r.
Proof. intros []. unfold used. apply Z.mod_pos_bound. lia. Qed.

Lemma write_at_end r : ring_ok r → write_offset r = (read_offset r + used r) mod ring_buffer_data_size r.
Proof.
  intros []. unfold used. rewrite Zplus_mod_idemp_r. replace (_ + _) with (write_offset r) by lia. by rewrite Z.mod_small.
Qed.

Lemma used_zero r : ring_ok r → used r = 0 ↔ is_empty r = true.
Proof.
  intros []. unfold used, is_empty. rewrite Z.eqb_eq, mod_between by lia. destruct (Z.leb_spec (read_offset r) (write_offset r)); lia.
Qed.

Lemma available_ret r : ring_ok r → get_available_write_space r = Ret (ring_buffer_data_size r - used r).
Proof.
  intros []. unfold get_available_write_space, used. rewrite mod_between by lia. ints.
  destruct (Z.leb_spec (read_offset r) (write_offset r)); [rewrite sub_chk_ret by lia; done|]. f_equal. lia.
Qed.

(** ** Writing *)

Lemma send_wraps data off tx : 0 < ring_buffer_data_size tx ≤ 524288 → 0 ≤ off < ring_buffer_data_size tx → zlen data ≤ ring_buffer_data_size tx →
  ∃ d, send data off tx = Ret ((off + zlen data) mod ring_buffer_data_size tx, tx <| ring_data := d |>) ∧
    zlen d = ring_buffer_data_size tx ∧ wrapped (ring_buffer_data_size tx) off data (ring_data tx) d.
Proof.
  intros Hc Ho Hl. unfold send. cbv zeta. set (cap := ring_buffer_data_size tx) in *. pose proof (zlen_nonneg data).
  assert (Hcap : zlen (ring_data tx) = cap) by done. ints. rewrite sub_chk_ret, ret_bind by lia.
  assert (Hm : ((off + zlen data) mod cap) mod 4294967296 = (off + zlen data) mod cap)
    by (apply Z.mod_small; pose proof (Z.mod_pos_bound (off + zlen data) cap ltac:(lia)); lia).
  destruct (Z.leb_spec (zlen data) (cap - off)) as [Hw|Hw].
  - rewrite copy_raw_ret, ret_bind, rem_chk_ret, ret_bind, Hm by lia. eexists. split; [done|]. split; [by rewrite zlen_splice by lia|].
    intros j Hj. rewrite mod_between, byte_at_splice by lia. destruct (Z.leb_spec off j); cbn [andb].
    + replace (j <? off + zlen data) with (j - off <? zlen data) by (destruct (Z.ltb_spec j (off + zlen data)), (Z.ltb_spec (j - off) (zlen data)); lia). done.
    + destruct (Z.ltb_spec (j - off + cap) (zlen data)); [lia|done].
  - assert (H1 : zlen (ztake (cap - off) data) = cap - off) by (apply zlen_ztake; lia).
    assert (H2 : zlen (zdrop (cap - off) data) = zlen data - (cap - off)) by (apply zlen_zdrop; lia).
    assert (H3 : zlen (splice (ring_data tx) off (ztake (cap - off) data)) = cap) by (rewrite zlen_splice; lia).
    rewrite copy_raw_ret, ret_bind, copy_raw_ret, ret_bind, rem_chk_ret, ret_bind, Hm by lia. eexists. split; [done|]. split; [by rewrite zlen_splice by lia|].
    intros j Hj. rewrite mod_between, !byte_at_splice, H1, H2 by lia. destruct (Z.leb_spec 0 j); [|lia]. cbn [andb].
    destruct (Z.ltb_spec j (0 + (zlen data - (cap - off)))), (Z.leb_spec off j); cbn [andb]; try lia.
    + destruct (Z.ltb_spec (j - off + cap) (zlen data)); [|lia]. rewrite byte_at_zdrop by lia. f_equal. lia.
    + destruct (Z.ltb_spec j (off + (cap - off))), (Z.ltb_spec (j - off) (zlen data)); try lia. by rewrite byte_at_ztake by lia.
    + destruct (Z.ltb_spec (j - off + cap) (zlen data)); [lia|done].
Qed.

(** Written behind the [n] bytes from [i] on, [data] follows them. *)
Lemma send_appends data i n tx : 0 < ring_buffer_data_size tx ≤ 524288 → 0 ≤ n → n + zlen data ≤ ring_buffer_data_size tx →
  ∃ d, send data ((i + n) mod ring_buffer_data_size tx) tx =
      Ret ((i + (n + zlen data)) mod ring_buffer_data_size tx, tx <| ring_data := d |>) ∧ zlen d = ring_buffer_data_size tx ∧
    ring d (ring_buffer_data_size tx) i (n + zlen data) = ring (ring_data tx) (ring_buffer_data_size tx) i n ++ data.
Proof.
  intros Hc Hn Hl. pose proof (Z.mod_pos_bound (i + n) (ring_buffer_data_size tx) ltac:(lia)).
  destruct (send_wraps data ((i + n) mod ring_buffer_data_size tx) tx) as (d & E & Hd & Hw); [lia..|].
  exists d. split; [|split; [done|by apply ring_append; [lia..|]]]. rewrite E. do 2 f_equal. rewrite <- mod_dist by lia. f_equal. lia.
Qed.

Definition padding (len : Z) : Z := Z.land (8 - Z.land len 7) 7.

Lemma padding_mod len : padding len = (8 - len mod 8) mod 8.
Proof. unfold padding. change 7 with (Z.ones 3). by rewrite !Z.land_ones by lia. Qed.

Lemma padding_range len : 0 ≤ padding len < 8 ∧ (len + padding len) mod 8 = 0.
Proof. rewrite padding_mod. pose proof (Z.mod_pos_bound len 8 ltac:(lia)). pose proof (Z.mod_pos_bound (8 - len mod 8) 8 ltac:(lia)). split; [lia|]. rewrite Zplus_mod_idemp_r. replace (len + (8 - len mod 8)) with ((len / 8 + 1) * 8); [by rewrite Z.mod_mul|]. pose proof (Z.div_mod len 8). lia. Qed.

(** The bytes of a packet that starts at [start]. *)
Definition wire (header : VmBusNormalPacketHeader) (extra data : list Z) (start : Z) : list Z :=
  packet_bytes header ++ extra ++ data ++ zeros (padding (zlen data)) ++ footer_bytes start.

Lemma zlen_packet h : zlen (packet_bytes h) = 16.
Proof. done. Qed.

Definition tx_len (extra data : list Z) : Z := 16 + zlen extra + zlen data + padding (zlen data) + FOOTER_SIZE.

Lemma zlen_wire h extra data start : zlen (wire h extra data start) = tx_len extra data.
Proof.
  unfold wire, tx_len. pose proof (padding_range (zlen data)). rewrite !zlen_app, zlen_packet, zlen_zeros by lia.
  change (zlen (footer_bytes start)) with FOOTER_SIZE. lia.
Qed.

(** The header as it is sent, with the length of the packet. *)
Definition sent_header (header : VmBusNormalPacketHeader) (extra data : list Z) : VmBusNormalPacketHeader :=
  header <| packet_len_qword := (16 + zlen extra + zlen data + padding (zlen data)) / 8 |>.

Lemma read_raw_all l : read_raw l 0 (zlen l) = Ret l.
Proof.
  unfold read_raw, field. pose proof (zlen_nonneg l). rewrite (proj2 (Z.leb_le 0 (zlen l))), Z.add_0_l, !Z.leb_refl by done. cbn [andb].
  by rewrite zdrop_0, ztake_all by lia.
Qed.

Lemma enough_space r n : ring_ok r → 0 ≤ n → has_enough_space_to_send n r = Ret (n <? ring_buffer_data_size r - used r).
Proof.
  intros Hr Hn. pose proof (used_range r Hr). pose proof (ro_size r Hr). unfold has_enough_space_to_send. rewrite available_ret, ret_bind by done.
  do 2 f_equal. apply Z.mod_small. ints. lia.
Qed.

(** Four writes in a row. *)
Lemma send_four {B} (k : Z * HyperVSingleRingBuffer → res B) a b c e i n tx : 0 < ring_buffer_data_size tx ≤ 524288 → 0 ≤ n → n + zlen (a ++ b ++ c ++ e) ≤ ring_buffer_data_size tx →
  ∃ d, ('(o, tx) ← send a ((i + n) mod ring_buffer_data_size tx) tx; '(o, tx) ← send b o tx; '(o, tx) ← send c o tx; send e o tx ≫= k) =
      k ((i + (n + zlen (a ++ b ++ c ++ e))) mod ring_buffer_data_size tx, tx <| ring_data := d |>) ∧ zlen d = ring_buffer_data_size tx ∧
    ring d (ring_buffer_data_size tx) i (n + zlen (a ++ b ++ c ++ e)) = ring (ring_data tx) (ring_buffer_data_size tx) i n ++ a ++ b ++ c ++ e.
Proof.
  intros Hc Hn. rewrite !zlen_app. intros Hl. pose proof (zlen_nonneg a). pose proof (zlen_nonneg b). pose proof (zlen_nonneg c). pose proof (zlen_nonneg e).
  set (cap := ring_buffer_data_size tx) in *.
  destruct (send_appends a i n tx) as (d1 & E1 & L1 & R1); [fold cap; lia..|]. fold cap in E1, L1, R1. rewrite E1, ret_bind.
  destruct (send_appends b i (n + zlen a) (tx <| ring_data := d1 |>)) as (d2 & E2 & L2 & R2); [unfold ring_buffer_data_size; rsimp; lia..|].
  unfold ring_buffer_data_size in E2, L2, R2. rsimp_all. rewrite L1 in E2, L2, R2. rewrite E2, ret_bind.
  destruct (send_appends c i (n + zlen a + zlen b) (tx <| ring_data := d2 |>)) as (d3 & E3 & L3 & R3); [unfold ring_buffer_data_size; rsimp; lia..|].
  unfold ring_buffer_data_size in E3, L3, R3. rsimp_all. rewrite L2 in E3, L3, R3.
  replace (tx <| ring_data := d1 |> <| ring_data := d2 |>) with (tx <| ring_data := d2 |>) by (by destruct tx). rewrite E3, ret_bind.
  destruct (send_appends e i (n + zlen a + zlen b + zlen c) (tx <| ring_data := d3 |>)) as (d4 & E4 & L4 & R4); [unfold ring_buffer_data_size; rsimp; lia..|].
  unfold ring_buffer_data_size in E4, L4, R4. rsimp_all. rewrite L3 in E4, L4, R4.
  replace (tx <| ring_data := d2 |> <| ring_data := d3 |>) with (tx <| ring_data := d3 |>) by (by destruct tx). exists d4.
  replace (n + (zlen a + (zlen b + (zlen c + zlen e)))) with (n + zlen a + zlen b + zlen c + zlen e) by lia.
  rewrite E4, ret_bind, R4, R3, R2, R1, <- !app_assoc. split; [by destruct tx|]. done.
Qed.

Lemma mod8_mod x c : 0 < c → c mod 8 = 0 → (x mod c) mod 8 = x mod 8.
Proof. intros Hc H8. apply Z.mod_mod_divide. by apply Z.mod_divide. Qed.

(** The ring after its bytes were extended by a packet. *)
Lemma grown tx n d h extra data : ring_ok tx → n = tx_len extra data → n < ring_buffer_data_size tx - used tx → zlen d = ring_buffer_data_size tx →
  (16 + zlen extra) mod 8 = 0 →
  ring d (ring_buffer_data_size tx) (read_offset tx) (used tx + n) = held tx ++ wire h extra data (write_offset tx) →
  let tx' := update_tx_writer_index ((read_offset tx + (used tx + n)) mod ring_buffer_data_size tx) (tx <| ring_data := d |>) in
  ring_ok tx' ∧ used tx' = used tx + n ∧ held tx' = held tx ++ wire h extra data (write_offset tx) ∧
  ring_buffer_data_size tx' = ring_buffer_data_size tx ∧ read_offset tx' = read_offset tx ∧ interrupt_mask tx' = interrupt_mask tx.
Proof.
  intros Hr -> Hf Hd Hx Hb. pose proof (used_range tx Hr) as Hu. pose proof Hr as [Hs Hs8 Hw Hrd Hw8 Hr8]. pose proof (zlen_nonneg extra). pose proof (zlen_nonneg data).
  destruct (padding_range (zlen data)) as [Hp Hp8]. set (n := tx_len extra data) in *. set (cap := ring_buffer_data_size tx) in *. cbv zeta. set (tx' := update_tx_writer_index _ _).
  assert (Hc : ring_buffer_data_size tx' = cap) by done. assert (Hw' : write_offset tx' = (read_offset tx + (used tx + n)) mod cap) by done.
  assert (Hn : 0 ≤ n) by (unfold n, tx_len, FOOTER_SIZE; lia).
  assert (Hu' : used tx' = used tx + n).
  { unfold used at 1. rewrite Hc, Hw'. change (read_offset tx') with (read_offset tx). rewrite Zminus_mod_idemp_l.
    replace (_ + _ - _) with (used tx + n) by lia. apply Z.mod_small. lia. }
  split; [|split; [done|split; [|done]]].
  - pose proof (Z.mod_pos_bound (read_offset tx + (used tx + n)) cap ltac:(lia)). constructor; rewrite ?Hc, ?Hw'; try done.
    rewrite mod8_mod by lia. replace (read_offset tx + (used tx + n)) with (read_offset tx + used tx + n) by lia.
    rewrite Zplus_mod, <- (mod8_mod (read_offset tx + used tx) cap) by lia. unfold cap. rewrite <- (write_at_end tx Hr), Hw8.
    rewrite Z.add_0_l, Z.mod_mod by lia. unfold n, tx_len, FOOTER_SIZE. replace (_ + 8) with ((16 + zlen extra) + (zlen data + padding (zlen data)) + 1 * 8) by lia.
    rewrite Z_mod_plus_full, Zplus_mod, Hx, Hp8. done.
  - unfold held at 1. rewrite Hu', Hc. exact Hb.
Qed.

(** With room for it, a packet is appended to what the ring holds; without,
    [send_raw] panics. *)
Lemma send_raw_spec header extra data tx : ring_ok tx → header_len_qword header * 8 = 16 + zlen extra → 16 + zlen extra < U16 → zlen data < 2 ^ 31 →
  if tx_len extra data <? ring_buffer_data_size tx - used tx
  then ∃ tx', send_raw header extra (Some data) (zlen data) tx = Ret (should_signal_host tx, tx') ∧
         ring_ok tx' ∧ used tx' = used tx + tx_len extra data ∧ held tx' = held tx ++ wire (sent_header header extra data) extra data (write_offset tx) ∧
         ring_buffer_data_size tx' = ring_buffer_data_size tx ∧ read_offset tx' = read_offset tx ∧ interrupt_mask tx' = interrupt_mask tx
  else send_raw header extra (Some data) (zlen data) tx = Crash Panic.
Proof.
  intros Hr Hh Hx Hd. pose proof (used_range tx Hr) as Hu. pose proof (zlen_nonneg extra). pose proof (zlen_nonneg data). destruct (padding_range (zlen data)) as [Hp Hp8].
  pose proof Hr as [Hs Hs8 Hw Hrd Hw8 Hr8]. unfold send_raw. fold (padding (zlen data)). ints. rewrite mul_chk_ret, ret_bind, Hh by lia. cbv zeta.
  change (16 + zlen extra + zlen data + padding (zlen data) + FOOTER_SIZE) with (tx_len extra data).
  assert (Hn : 0 ≤ tx_len extra data < 4294967296) by (unfold tx_len, FOOTER_SIZE; lia). rewrite (Z.mod_small (tx_len extra data) 4294967296) by done.
  rewrite enough_space, ret_bind by (done || lia). destruct (Z.ltb_spec (tx_len extra data) (ring_buffer_data_size tx - used tx)) as [Hf|Hf]; cbn [negb]; [|done].
  assert (Eh : header <| packet_len_qword := ((tx_len extra data - FOOTER_SIZE) / 8) mod 65536 |> = sent_header header extra data).
  { unfold sent_header. rewrite Z.mod_small; [unfold tx_len; do 2 f_equal; by rewrite Z.add_simpl_r|].
    split; [apply Z.div_pos; unfold tx_len, FOOTER_SIZE; lia|]. apply Z.div_lt_upper_bound; unfold FOOTER_SIZE; lia. }
  rewrite Eh. assert (Ez : 16 + zlen extra = zlen (packet_bytes (sent_header header extra data) ++ extra)) by (by rewrite zlen_app, zlen_packet).
  set (hb := packet_bytes (sent_header header extra data) ++ extra) in *. set (fb := footer_bytes (write_offset tx)).
  assert (Hlen : zlen (hb ++ data ++ zeros (padding (zlen data)) ++ fb) = tx_len extra data).
  { rewrite !zlen_app, <- Ez, zlen_zeros by lia. change (zlen fb) with FOOTER_SIZE. unfold tx_len. lia. }
  destruct (send_four (λ '(o, t), Ret (should_signal_host (update_tx_writer_index o t), update_tx_writer_index o t)) hb data (zeros (padding (zlen data))) fb
    (read_offset tx) (used tx) tx) as (d & E & Ld & Rd); [done|lia|lia|]. rewrite Hlen in E, Rd. rewrite <- (write_at_end tx Hr) in E.
  rewrite Ez, (read_raw_all hb), (read_raw_all data), ret_bind.
  exists (update_tx_writer_index ((read_offset tx + (used tx + tx_len extra data)) mod ring_buffer_data_size tx) (tx <| ring_data := d |>)).
  split; [exact E|]. apply (grown tx (tx_len extra data) d (sent_header header extra data) extra data); try done. by rewrite <- Hh, Z.mod_mul by lia.
Qed.
End Bytes.

(** ** Reading *)

Section Reading.
Implicit Types r rx : HyperVSingleRingBuffer.

(** A packet as it is in the ring, other than one with transfer pages. *)
Record packet_ok (h : VmBusNormalPacketHeader) (extra data : list Z) : Prop := {
  po_type : 0 ≤ packet_type h < 14 ∧ packet_type h ≠ 7;
  po_header : header_len_qword h * 8 = 16 + zlen extra;
  po_len : packet_len_qword h * 8 = 16 + zlen extra + zlen data + padding (zlen data);
  po_ints : u16 (header_len_qword h) ∧ u16 (packet_len_qword h) ∧ u16 (packet_flags h) ∧ 0 ≤ xid h < U64
}.

Lemma from_le64_le64 x rest : 0 ≤ x < U64 → from_le64 (ztake 8 (le64 x ++ rest)) = x.
Proof.
  intros Hx. change (ztake 8 (le64 x ++ rest)) with (le64 x). unfold from_le64. change (zdrop 4 (le64 x)) with (le32 (x / U32)).
  assert (Hr : ∀ y, u32 y → from_le32 (le32 y) = y) by (intros y Hy; exact (from_le32_le32 y [] Hy)).
  change (from_le32 (le64 x)) with (from_le32 (le32 (x mod U32))). ints.
  rewrite !Hr; [|split; [apply Z.div_pos; lia|apply Z.div_lt_upper_bound; lia]|apply Z.mod_pos_bound; lia]. pose proof (Z.div_mod x 4294967296). lia.
Qed.

Lemma packet_read_bytes h extra data rest : packet_ok h extra data → packet_read (ztake 16 (packet_bytes h ++ rest)) = h.
Proof.
  intros [[Ht _] _ _ (H1 & H2 & H3 & H4)]. destruct h as [t hl pl fl x]. cbn [packet_type header_len_qword packet_len_qword packet_flags xid] in *.
  unfold packet_read. change (ztake 16 (packet_bytes (mkPacket t hl pl fl x) ++ rest)) with (packet_bytes (mkPacket t hl pl fl x)).
  f_equal; [by apply (from_le16_le16 t); ints; lia|by apply from_le16_le16..|]. by apply (from_le64_le64 x []).
Qed.

Lemma field_held rx n : ring_ok rx → 0 ≤ n ≤ used rx → read_offset rx + n ≤ ring_buffer_data_size rx →
  field (ring_data rx) (read_offset rx) n = ztake n (held rx).
Proof.
  intros Hr Hn Hf. pose proof (used_range rx Hr). pose proof Hr as [Hs _ _ Hrd _ _]. unfold field, held.
  replace (used rx) with (n + (used rx - n)) by lia. rewrite ring_split by lia. rewrite ring_flat by (done || lia).
  unfold ztake at 2. rewrite take_app_length'; [done|]. assert (E : zlen (ztake n (zdrop (read_offset rx) (ring_data rx))) = n); [|unfold zlen in E; lia].
  apply zlen_ztake. rewrite zlen_zdrop; unfold ring_buffer_data_size in *; lia.
Qed.

Lemma read_raw_in l i n : 0 ≤ i → 0 ≤ n → i + n ≤ zlen l → read_raw l i n = Ret (field l i n).
Proof. intros Hi Hn Hl. unfold read_raw. rewrite !(proj2 (Z.leb_le _ _)) by lia. done. Qed.
Lemma read_raw_out l i n : zlen l < i + n → read_raw l i n = Crash OutOfBounds.
Proof. intros Hl. unfold read_raw. rewrite (proj2 (Z.leb_gt (i + n) _)), andb_false_r by lia. done. Qed.

Lemma field_app_skip (a b rest : list Z) : field (a ++ b ++ rest) (zlen a) (zlen b) = b.
Proof. unfold field, zdrop, ztake, zlen. rewrite !Nat2Z.id, drop_app_length, take_app_length. done. Qed.

Lemma field_field l i j n m : 0 ≤ i → 0 ≤ j → 0 ≤ n → j + n ≤ m → field l (i + j) n = field (field l i m) j n.
Proof.
  intros Hi Hj Hn Hm. unfold field, zdrop, ztake. rewrite skipn_firstn_comm, take_take, drop_drop. f_equal; [lia|]. f_equal. lia.
Qed.

Lemma packet_from_code k : 0 ≤ k < 14 → ∃ ty, packet_from k = Ret ty ∧ packet_code ty = k.
Proof.
  intros Hk. replace k with (Z.of_nat (Z.to_nat k)) by lia. assert (Hn : (Z.to_nat k < 14)%nat) by lia. revert Hn. generalize (Z.to_nat k). clear k Hk. intros n Hn.
  do 14 (destruct n as [|n]; [by eexists|]). lia.
Qed.

(** The next packet is handed out with its payload and padding, if it does not
    run past the end of the ring; if it does, the access leaves the ring. *)
Lemma read_packet_spec rx h extra data start rest : ring_ok rx → packet_ok h extra data → held rx = wire h extra data start ++ rest →
  read rx = if read_offset rx + packet_len_qword h * 8 <=? ring_buffer_data_size rx
            then Ret (Some (mkGuard (Packet h) (data ++ zeros (padding (zlen data))) (tx_len extra data)))
            else Crash OutOfBounds.
Proof.
  intros Hr Hp Hh. pose proof (used_range rx Hr) as Hu. pose proof Hr as [Hs _ _ Hrd _ _]. destruct (padding_range (zlen data)) as [Hpad _].
  pose proof (zlen_nonneg extra). pose proof (zlen_nonneg data). pose proof (zlen_nonneg rest). pose proof Hp as [[Ht Ht7] Hhl Hpl Hi]. unfold read.
  assert (Hused : used rx = tx_len extra data + zlen rest).
  { pose proof (f_equal zlen Hh) as E. unfold held in E. rewrite zlen_ring, zlen_app, zlen_wire in E by lia. done. }
  assert (Htx : tx_len extra data = packet_len_qword h * 8 + 8) by (unfold tx_len, FOOTER_SIZE; lia).
  assert (He : is_empty rx = false). { destruct (is_empty rx) eqn:E; [|done]. apply (used_zero rx Hr) in E. lia. }
  unfold has_data_to_process. rewrite He. cbn [negb]. change NORMAL_HEADER_SIZE with 16.
  set (body := packet_bytes h ++ extra ++ data ++ zeros (padding (zlen data))).
  assert (Hbody : zlen body = packet_len_qword h * 8) by (unfold body; rewrite !zlen_app, zlen_packet, zlen_zeros by lia; lia).
  assert (Hh' : held rx = body ++ footer_bytes start ++ rest) by (rewrite Hh; unfold wire, body; by rewrite <- !app_assoc).
  destruct (Z.leb_spec (read_offset rx + 16) (ring_buffer_data_size rx)) as [H16|H16].
  2:{ rewrite (read_raw_out _ _ 16) by (unfold ring_buffer_data_size in *; lia). rewrite (proj2 (Z.leb_gt _ _)) by lia. done. }
  rewrite (read_raw_in _ _ 16), ret_bind by (unfold ring_buffer_data_size in *; lia). rewrite field_held by (done || lia).
  assert (E16 : packet_read (ztake 16 (held rx)) = h) by (rewrite Hh'; unfold body; rewrite <- !app_assoc; by eapply packet_read_bytes). rewrite E16.
  assert (Ety : ∃ ty, packet_from (packet_type h) = Ret ty ∧ ty ≠ DataUsingXferPages).
  { destruct (packet_from_code (packet_type h) Ht) as (ty & E & Hc). exists ty. split; [done|]. intros ->. apply Ht7. by rewrite <- Hc. }
  destruct Ety as (ty & Ety & Hne). rewrite Ety, ret_bind, decide_False, ret_bind, sub_chk_ret, ret_bind by (done || (ints; destruct Hi as (? & ? & _); lia)).
  destruct (Z.leb_spec (read_offset rx + packet_len_qword h * 8) (ring_buffer_data_size rx)) as [Hin|Hout].
  2:{ by rewrite read_raw_out by (unfold ring_buffer_data_size in *; lia). }
  rewrite read_raw_in, ret_bind by (unfold ring_buffer_data_size in *; lia). rewrite (field_field _ _ _ _ (packet_len_qword h * 8)), field_held by (done || lia).
  rewrite Hh', <- Hbody. unfold ztake at 1. replace (Z.to_nat (zlen body)) with (length body) by (unfold zlen; lia). rewrite take_app_length.
  do 3 f_equal; [|rewrite Htx, Hbody; done]. set (b := data ++ zeros (padding (zlen data))).
  pose proof (field_app_skip (packet_bytes h ++ extra) b []) as E. rewrite app_nil_r, zlen_app, zlen_packet in E.
  replace (zlen body - header_len_qword h * 8) with (zlen b); [rewrite Hhl; unfold body; fold b; by rewrite app_assoc|].
  unfold b. rewrite zlen_app, zlen_zeros by lia. lia.
Qed.

(** Dropping its guard takes the packet out. *)
Lemma drop_spec rx h extra data start rest g : ring_ok rx → held rx = wire h extra data start ++ rest → consumed_len g = tx_len extra data →
  (16 + zlen extra) mod 8 = 0 →
  ∃ rx', drop_guard g rx = Ret rx' ∧ ring_ok rx' ∧ read_offset rx' = (read_offset rx + tx_len extra data) mod ring_buffer_data_size rx ∧
    held rx' = rest ∧ used rx' = used rx - tx_len extra data ∧
    ring_buffer_data_size rx' = ring_buffer_data_size rx ∧ interrupt_mask rx' = interrupt_mask rx.
Proof.
  intros Hr Hh Hg Hx. pose proof (used_range rx Hr) as Hu. pose proof Hr as [Hs Hs8 Hw Hrd Hw8 Hr8]. destruct (padding_range (zlen data)) as [Hpad Hp8].
  pose proof (zlen_nonneg extra). pose proof (zlen_nonneg data). pose proof (zlen_nonneg rest). set (n := tx_len extra data) in *. set (cap := ring_buffer_data_size rx) in *.
  assert (Hused : used rx = n + zlen rest). { pose proof (f_equal zlen Hh) as E. unfold held in E. rewrite zlen_ring, zlen_app, zlen_wire in E by lia. done. }
  assert (Hn : 0 ≤ n) by (unfold n, tx_len, FOOTER_SIZE; lia).
  unfold drop_guard, advance_read_index. rewrite Hg. ints. fold cap. rewrite (Z.mod_small n), (Z.mod_small cap), add_chk_ret, ret_bind, rem_chk_ret, ret_bind by lia.
  set (rx' := rx <| read_offset := _ |>). exists rx'. split; [done|]. pose proof (Z.mod_pos_bound (read_offset rx + n) cap ltac:(lia)) as Hm.
  assert (Hu' : used rx' = used rx - n).
  { unfold used at 1. change (ring_buffer_data_size rx') with cap. change (write_offset rx') with (write_offset rx).
    change (read_offset rx') with ((read_offset rx + n) mod cap). rewrite (write_at_end rx Hr). fold cap. rewrite <- Zminus_mod.
    replace (_ - _) with (used rx - n) by lia. apply Z.mod_small. lia. }
  split; [|split; [done|split; [|done]]].
  - constructor; try done. change (read_offset rx') with ((read_offset rx + n) mod cap). rewrite mod8_mod by lia.
    rewrite Zplus_mod, Hr8, Z.add_0_l, Z.mod_mod by lia. unfold n, tx_len, FOOTER_SIZE.
    replace (_ + 8) with ((16 + zlen extra) + (zlen data + padding (zlen data)) + 1 * 8) by lia. by rewrite Z_mod_plus_full, Zplus_mod, Hx, Hp8.
  - unfold held at 1. rewrite Hu'. change (ring_buffer_data_size rx') with cap. change (ring_data rx') with (ring_data rx). change (read_offset rx') with ((read_offset rx + n) mod cap).
    unfold held in Hh. fold cap in Hh. replace (used rx) with (n + (used rx - n)) in Hh by lia. rewrite ring_split in Hh by lia.
    apply app_inj_1 in Hh as [_ Hh]; [done|]. assert (E : zlen (ring (ring_data rx) cap (read_offset rx) n) = zlen (wire h extra data start)) by (by rewrite zlen_ring, zlen_wire by lia).
    unfold zlen in E. lia.
Qed.
End Reading.

(** ** A ring between two ends *)

Section Queue.
Implicit Types r : HyperVSingleRingBuffer.

Inductive channel_op :=
| Send (ty : VmBusPacketType) (completion_requested : bool) (id : Z) (payload : list Z)
| Recv.
Inductive channel_out :=
| Sent (signalled : bool)
| Received (packet : option (VmBusPacketHeader * list Z)).

Definition op_ok (o : channel_op) : Prop :=
  match o with Send ty _ id payload => ty ≠ DataUsingXferPages ∧ 0 ≤ id < U64 ∧ zlen payload < 2 ^ 31 | Recv => True end.

(** One end sends, the other reads and drops the guard. *)
Definition channel_step (o : channel_op) r : res (channel_out * HyperVSingleRingBuffer) :=
  match o with
  | Send ty c id payload => '(s, r) ← send_packet (Some payload) (zlen payload) id c ty r; Ret (Sent s, r)
  | Recv =>
      g ← read r;
      match g with
      | None => Ret (Received None, r)
      | Some g => r ← drop_guard g r; Ret (Received (Some (guard_header g, guard_data g)), r)
      end
  end.
Fixpoint channel_run (os : list channel_op) r : res (list channel_out) :=
  match os with
  | [] => Ret []
  | o :: os => '(x, r) ← channel_step o r; xs ← channel_run os r; Ret (x :: xs)
  end.

(** The specification: a queue of packets, the position of the first in a ring
    of [cap] bytes, and nothing else. *)
Record message := mkMessage { msg_type : VmBusPacketType; msg_completion : bool; msg_id : Z; msg_payload : list Z }.
Definition msg_size (m : message) : Z := tx_len [] (msg_payload m).
Definition msg_header (m : message) : VmBusNormalPacketHeader :=
  mkPacket (packet_code (msg_type m)) 2 ((16 + zlen (msg_payload m) + padding (zlen (msg_payload m))) / 8) (if msg_completion m then 1 else 0) (msg_id m).
Definition total (ms : list message) : Z := foldr (λ m n, msg_size m + n) 0 ms.

Definition queue_step (cap : Z) (signal : bool) (o : channel_op) (s : Z * list message) : res (channel_out * (Z * list message)) :=
  let '(pos, ms) := s in
  match o with
  | Send ty c id payload =>
      let m := mkMessage ty c id payload in
      if msg_size m <? cap - total ms then Ret (Sent signal, (pos, ms ++ [m])) else Crash Panic
  | Recv =>
      match ms with
      | [] => Ret (Received None, (pos, ms))
      | m :: ms =>
          if pos + (msg_size m - FOOTER_SIZE) <=? cap
          then Ret (Received (Some (Packet (msg_header m), msg_payload m ++ zeros (padding (zlen (msg_payload m))))), ((pos + msg_size m) mod cap, ms))
          else Crash OutOfBounds
      end
  end.
Fixpoint queue_run (cap : Z) (signal : bool) (os : list channel_op) (s : Z * list message) : res (list channel_out) :=
  match os with
  | [] => Ret []
  | o :: os => '(x, s) ← queue_step cap signal o s; xs ← queue_run cap signal os s; Ret (x :: xs)
  end.

(** The bytes of a queue whose first packet starts at [pos]. *)
Fixpoint queue_bytes (cap pos : Z) (ms : list message) : list Z :=
  match ms with
  | [] => []
  | m :: ms => wire (msg_header m) [] (msg_payload m) pos ++ queue_bytes cap ((pos + msg_size m) mod cap) ms
  end.

Record holds_queue r (pos : Z) (ms : list message) : Prop := {
  hq_ok : ring_ok r;
  hq_pos : read_offset r = pos;
  hq_bytes : held r = queue_bytes (ring_buffer_data_size r) pos ms;
  hq_used : used r = total ms;
  hq_packets : Forall (λ m, packet_ok (msg_header m) [] (msg_payload m)) ms
}.

Lemma total_app ms m : total (ms ++ [m]) = total ms + msg_size m.
Proof. induction ms as [|m' ms IH]; cbn [app total foldr] in *; [lia|]. unfold total in IH. rewrite IH. unfold total. lia. Qed.

Lemma queue_bytes_app cap ms m : 0 < cap → ∀ pos, 0 ≤ pos < cap →
  queue_bytes cap pos (ms ++ [m]) = queue_bytes cap pos ms ++ wire (msg_header m) [] (msg_payload m) ((pos + total ms) mod cap).
Proof.
  intros Hc. induction ms as [|m' ms IH]; intros pos Hp; cbn [app queue_bytes].
  - rewrite app_nil_r. cbn [total foldr]. by rewrite Z.add_0_r, Z.mod_small.
  - rewrite IH by (apply Z.mod_pos_bound; lia). rewrite <- app_assoc. do 3 f_equal. change (total (m' :: ms)) with (msg_size m' + total ms).
    rewrite <- mod_dist by lia. f_equal. lia.
Qed.

Lemma code_range ty : 0 ≤ packet_code ty < 14.
Proof. destruct ty; cbn; lia. Qed.

Lemma msg_packet_ok m : msg_type m ≠ DataUsingXferPages → 0 ≤ msg_id m < U64 → msg_size m < 524288 → packet_ok (msg_header m) [] (msg_payload m).
Proof.
  destruct m as [ty c id payload]. cbn [msg_type msg_id msg_payload msg_size]. unfold msg_header, msg_size, tx_len, FOOTER_SIZE. cbn [msg_type msg_completion msg_id msg_payload].
  intros Hty Hid Hs. destruct (padding_range (zlen payload)) as [Hp Hp8]. pose proof (zlen_nonneg payload). rewrite zlen_nil in Hs.
  assert (H8 : (16 + zlen payload + padding (zlen payload)) mod 8 = 0) by (rewrite <- Z.add_assoc, Zplus_mod, Hp8; done).
  pose proof (Z.div_mod (16 + zlen payload + padding (zlen payload)) 8 ltac:(lia)) as Hd.
  constructor; cbn [packet_type header_len_qword packet_len_qword packet_flags xid]; rewrite ?zlen_nil; [|lia|lia|].
  - pose proof (code_range ty). split; [lia|]. by destruct ty.
  - ints. split; [lia|]. split; [lia|]. split; [destruct c; lia|lia].
Qed.

Lemma send_step r pos ms ty c id payload : holds_queue r pos ms → op_ok (Send ty c id payload) →
  match queue_step (ring_buffer_data_size r) (should_signal_host r) (Send ty c id payload) (pos, ms) with
  | Ret (x, (pos', ms')) => ∃ r', channel_step (Send ty c id payload) r = Ret (x, r') ∧ holds_queue r' pos' ms' ∧
      ring_buffer_data_size r' = ring_buffer_data_size r ∧ interrupt_mask r' = interrupt_mask r
  | Crash e => channel_step (Send ty c id payload) r = Crash e
  end.
Proof.
  intros [Hok Hpos Hb Hu Hm] (Hty & Hid & Hl). cbn [queue_step channel_step]. unfold send_packet. set (m := mkMessage ty c id payload).
  pose proof (send_raw_spec (mkPacket (packet_code ty) (NORMAL_HEADER_SIZE / 8) 0 (if c then 1 else 0) id) [] payload r Hok eq_refl eq_refl Hl) as Hs.
  fold (msg_size m) in Hs. change (tx_len [] payload) with (msg_size m) in Hs. rewrite <- Hu.
  destruct (Z.ltb_spec (msg_size m) (ring_buffer_data_size r - used r)) as [Hf|Hf]; [|by rewrite Hs].
  destruct Hs as (r' & E & Hok' & Hu' & Hh' & Hc & Hr & Hi). rewrite E. cbn [mbind res_bind]. eexists. split; [done|]. split; [|done].
  pose proof (ro_size r Hok). pose proof (used_range r Hok). pose proof (ro_read r Hok).
  constructor; [done|by rewrite Hr|..].
  - rewrite Hh', Hc, Hb, queue_bytes_app by lia. f_equal. by rewrite (write_at_end r Hok), Hpos, Hu.
  - rewrite Hu', total_app. lia.
  - apply Forall_app_2; [done|]. apply Forall_cons_2; [|constructor]. apply (msg_packet_ok m); [done|done|lia].
Qed.

Lemma recv_step r pos ms : holds_queue r pos ms →
  match queue_step (ring_buffer_data_size r) (should_signal_host r) Recv (pos, ms) with
  | Ret (x, (pos', ms')) => ∃ r', channel_step Recv r = Ret (x, r') ∧ holds_queue r' pos' ms' ∧
      ring_buffer_data_size r' = ring_buffer_data_size r ∧ interrupt_mask r' = interrupt_mask r
  | Crash e => channel_step Recv r = Crash e
  end.
Proof.
  intros Hq. pose proof Hq as [Hok Hpos Hb Hu Hm]. cbn [queue_step channel_step]. destruct ms as [|m ms].
  - exists r. split; [|done]. unfold read, has_data_to_process. by rewrite (proj1 (used_zero r Hok) Hu).
  - apply Forall_cons in Hm as [Hp Hm]. cbn [queue_bytes] in Hb. rewrite (read_packet_spec r _ _ _ _ _ Hok Hp Hb), Hpos.
    replace (msg_size m - FOOTER_SIZE) with (packet_len_qword (msg_header m) * 8) by (rewrite (po_len _ _ _ Hp); unfold msg_size, tx_len; lia).
    destruct (_ <=? _); [|done]. cbn [mbind res_bind].
    destruct (drop_spec r _ _ _ _ _ (mkGuard (Packet (msg_header m)) (msg_payload m ++ zeros (padding (zlen (msg_payload m)))) (tx_len [] (msg_payload m))) Hok Hb eq_refl eq_refl)
      as (r' & E & Hok' & Hr & Hh' & Hu' & Hc & Hi).
    rewrite E. cbn [mbind res_bind]. eexists. split; [done|]. split; [|done]. rewrite Hpos in Hr. constructor; [done|done| | |done].
    + by rewrite Hh', Hc.
    + rewrite Hu', Hu. cbn [total foldr]. unfold total, msg_size. lia.
Qed.

Lemma channel_queue os : ∀ r pos ms, holds_queue r pos ms → Forall op_ok os →
  channel_run os r = queue_run (ring_buffer_data_size r) (should_signal_host r) os (pos, ms).
Proof.
  induction os as [|o os IH]; intros r pos ms Hq Ho; [done|]. apply Forall_cons in Ho as [Ho Hos]. cbn [channel_run queue_run].
  assert (Hstep : match queue_step (ring_buffer_data_size r) (should_signal_host r) o (pos, ms) with
    | Ret (x, (pos', ms')) => ∃ r', channel_step o r = Ret (x, r') ∧ holds_queue r' pos' ms' ∧
        ring_buffer_data_size r' = ring_buffer_data_size r ∧ interrupt_mask r' = interrupt_mask r
    | Crash e => channel_step o r = Crash e end) by (destruct o; [by apply send_step|by apply recv_step]).
  destruct (queue_step _ _ _ _) as [[x [pos' ms']]|e]; [|by rewrite Hstep]. destruct Hstep as (r' & E & Hq' & Hc & Hi).
  rewrite E. cbn [mbind res_bind]. rewrite (IH r' pos' ms' Hq' Hos), Hc. unfold should_signal_host. by rewrite Hi.
Qed.

(** C7: A ring between two ends of a channel is a queue of packets.  From an
    empty ring, any sequence of sends by one end and reads by the other gives
    exactly the results of the queue: packets come out once each and in order,
    with their header and their payload, padded to eight bytes; a send panics
    exactly when the packet does not leave a byte of the ring free, and a read
    leaves the ring exactly when the packet runs past the end of the buffer. *)
Theorem vmbus_ring_is_packet_queue os r : ring_ok r → is_empty r = true → Forall op_ok os →
  channel_run os r = queue_run (ring_buffer_data_size r) (should_signal_host r) os (read_offset r, []).
Proof.
  intros Hr He Ho. apply channel_queue; [|done]. pose proof (proj2 (used_zero r Hr) He) as Hu. constructor; [done|done| |done|constructor].
  unfold held. by rewrite Hu.
Qed.
End Queue.

Definition small_ring : HyperVSingleRingBuffer := mkRing 0 0 0 (zeros 64).

(** Two packets of 32 bytes do not fit; the third packet starts at 48 and runs
    past the end. *)
Lemma vmbus_ring_is_packet_queue_witness :
  channel_run [Send DataInband true 7 [1; 2; 3]; Recv; Send DataInband false 8 []; Recv; Recv] small_ring =
    Ret [Sent true; Received (Some (Packet (mkPacket 6 2 3 1 7), [1; 2; 3; 0; 0; 0; 0; 0]));
         Sent true; Received (Some (Packet (mkPacket 6 2 2 0 8), [])); Received None] ∧
  channel_run [Send DataInband true 7 [1]; Send DataInband true 7 [1]] small_ring = Crash Panic ∧
  channel_run [Send DataInband true 7 [1]; Recv; Send DataInband true 7 []; Recv; Send DataInband true 7 [5]; Recv] small_ring = Crash OutOfBounds.
Proof.
  assert (Hr : ring_ok small_ring) by (constructor; vm_compute; intuition discriminate).
  split; [|split]; (rewrite vmbus_ring_is_packet_queue; [vm_compute; reflexivity|exact Hr|reflexivity|
    repeat constructor; try done; ints; try lia; vm_compute; reflexivity]).
Defined.

(** ** Buffers handed over by address *)

Section Gpa.

(** The physical address the host reads for byte [k] of the buffer, from the
    bytes behind the packet header: the offset of the range and the list of
    page frame numbers. *)
Definition described (extra : list Z) (k : Z) : Z :=
  let b := from_le32 (field extra 12 4) + k in
  from_le64 (field extra (16 + 8 * (b / HYPERV_PAGE_SIZE)) 8) * HYPERV_PAGE_SIZE + b mod HYPERV_PAGE_SIZE.

Context (translate frame : Z → option Z).
Hypothesis by_pages : ∀ a, translate a = (λ f, f * HYPERV_PAGE_SIZE + a mod HYPERV_PAGE_SIZE) <$> frame (a / HYPERV_PAGE_SIZE).

Lemma pfn_list_spec n : ∀ addr, (∀ i, 0 ≤ i < Z.of_nat n → ∃ f, frame (addr / HYPERV_PAGE_SIZE + i) = Some f) →
  ∃ pfns, pfn_list translate addr n = Ret pfns ∧ length pfns = n ∧ ∀ i, (i < n)%nat → pfns !! i = frame (addr / HYPERV_PAGE_SIZE + Z.of_nat i).
Proof.
  induction n as [|n IH]; intros addr Hf; [by exists []; repeat split; [..|lia]|]. cbn [pfn_list]. destruct (Hf 0 ltac:(lia)) as [f Ef]. rewrite Z.add_0_r in Ef.
  rewrite by_pages, Ef. cbn [fmap option_fmap option_map]. assert (Hd : (addr + HYPERV_PAGE_SIZE) / HYPERV_PAGE_SIZE = addr / HYPERV_PAGE_SIZE + 1) by (unfold HYPERV_PAGE_SIZE; rewrite <- (Z.mul_1_l 4096) at 1; by rewrite Z.div_add).
  destruct (IH (addr + HYPERV_PAGE_SIZE)) as (pfns & E & Hl & Hp). { intros i Hi. rewrite Hd. destruct (Hf (i + 1) ltac:(lia)) as [f' Ef']. exists f'. rewrite <- Ef'. f_equal. lia. }
  rewrite E, ret_bind. eexists. split; [done|]. cbn [length]. split; [by rewrite Hl|]. intros [|i] Hi; cbn [lookup list_lookup].
  - rewrite Z.add_0_r, Ef. f_equal. unfold HYPERV_PAGE_SIZE. rewrite Z.div_add_l by lia. rewrite Z.div_small; [lia|]. apply Z.mod_pos_bound. lia.
  - rewrite Hp by lia. rewrite Hd. f_equal. lia.
Qed.

Lemma field_words (ws : list Z) i w rest : ws !! i = Some w → 0 ≤ w < U64 → from_le64 (field ((ws ≫= le64) ++ rest) (8 * Z.of_nat i) 8) = w.
Proof.
  revert i. induction ws as [|x ws IH]; intros [|i] Hi Hw; cbn [lookup list_lookup] in Hi; [done|done| |].
  - injection Hi as ->. cbn [mbind list_bind]. rewrite <- app_assoc. apply (from_le64_le64 w (((ws ≫= le64) ++ rest)) Hw).
  - rewrite <- (IH i Hi Hw). cbn [mbind list_bind]. unfold field, zdrop. replace (Z.to_nat (8 * Z.of_nat (S i))) with (8 + Z.to_nat (8 * Z.of_nat i))%nat by lia.
    rewrite <- app_assoc. done.
Qed.

Lemma pfn_count_ret addr len : 0 ≤ addr → 0 < len → addr + len < U64 →
  pfn_count addr len = Ret ((addr + len - 1) / HYPERV_PAGE_SIZE - addr / HYPERV_PAGE_SIZE + 1).
Proof.
  intros Ha Hl Hu. unfold pfn_count, HYPERV_PAGE_SIZE. assert (addr / 4096 ≤ (addr + len - 1) / 4096) by (apply Z.div_le_mono; lia).
  assert ((addr + len - 1) / 4096 ≤ addr + len - 1) by (apply Z.div_le_upper_bound; lia). assert (0 ≤ addr / 4096) by (apply Z.div_pos; lia).
  rewrite add_chk_ret, ret_bind, sub_chk_ret, ret_bind, sub_chk_ret, ret_bind, add_chk_ret by lia. done.
Qed.

(** The pages of the buffer, as its offset counts them. *)
Lemma buffer_page addr k : 0 ≤ addr → 0 ≤ k →
  addr / HYPERV_PAGE_SIZE + (addr mod HYPERV_PAGE_SIZE + k) / HYPERV_PAGE_SIZE = (addr + k) / HYPERV_PAGE_SIZE ∧
  (addr mod HYPERV_PAGE_SIZE + k) mod HYPERV_PAGE_SIZE = (addr + k) mod HYPERV_PAGE_SIZE.
Proof.
  intros Ha Hk. unfold HYPERV_PAGE_SIZE. pose proof (Z.div_mod addr 4096 ltac:(lia)) as Hd. split; [|by rewrite Zplus_mod_idemp_l].
  rewrite <- (Z.div_add_l (addr / 4096) 4096 _ ltac:(lia)). f_equal. lia.
Qed.

Lemma described_translates addr len pfns : 0 ≤ addr → 0 < len →
  let n := (addr + len - 1) / HYPERV_PAGE_SIZE - addr / HYPERV_PAGE_SIZE + 1 in
  (∀ i, (Z.of_nat i < n) → pfns !! i = frame (addr / HYPERV_PAGE_SIZE + Z.of_nat i)) →
  (∀ i, 0 ≤ i < n → ∃ f, frame (addr / HYPERV_PAGE_SIZE + i) = Some f ∧ 0 ≤ f < U64) →
  ∀ k, 0 ≤ k < len → translate (addr + k) = Some (described (gpa_extra addr len pfns) k).
Proof.
  intros Ha Hl n Hp Hf k Hk. destruct (buffer_page addr k Ha (proj1 Hk)) as [Hq Hm]. unfold described.
  assert (Ho : from_le32 (field (gpa_extra addr len pfns) 12 4) = addr mod HYPERV_PAGE_SIZE).
  { transitivity (from_le32 (le32 (Z.land addr (HYPERV_PAGE_SIZE - 1)))); [done|]. change (HYPERV_PAGE_SIZE - 1) with (Z.ones 12). rewrite Z.land_ones by lia.
    apply (from_le32_le32 _ []). pose proof (Z.mod_pos_bound addr HYPERV_PAGE_SIZE ltac:(done)). change (2 ^ 12) with HYPERV_PAGE_SIZE. unfold HYPERV_PAGE_SIZE in *. ints. lia. }
  rewrite Ho, Hm. set (q := (addr mod HYPERV_PAGE_SIZE + k) / HYPERV_PAGE_SIZE) in *.
  assert (Hq0 : 0 ≤ q) by (apply Z.div_pos; [pose proof (Z.mod_pos_bound addr HYPERV_PAGE_SIZE ltac:(done)); lia|done]).
  assert (Hqn : q < n). { unfold n. assert ((addr + k) / HYPERV_PAGE_SIZE ≤ (addr + len - 1) / HYPERV_PAGE_SIZE) by (apply Z.div_le_mono; [done|lia]). lia. }
  destruct (Hf q ltac:(lia)) as (f & Ef & Hf64). rewrite by_pages, <- Hq, Ef. cbn [fmap option_fmap option_map]. do 3 f_equal.
  assert (Hi : pfns !! Z.to_nat q = Some f) by (rewrite Hp by lia; rewrite Z2Nat.id by lia; exact Ef).
  rewrite <- (field_words pfns (Z.to_nat q) f [] Hi Hf64). rewrite app_nil_r, Z2Nat.id by lia. unfold field, zdrop.
  replace (Z.to_nat (16 + 8 * q)) with (16 + Z.to_nat (8 * q))%nat by lia. done.
Qed.

(** C8: A packet that hands a buffer over by address describes it: the host
    finds, in the bytes behind the packet header, for each byte of the buffer
    the physical address the page tables give for it. *)
Theorem gpa_direct_describes_buffer inband id addr len tx : 0 ≤ addr → 0 < len → addr + len < U64 →
  let n := (addr + len - 1) / HYPERV_PAGE_SIZE - addr / HYPERV_PAGE_SIZE + 1 in
  (∀ i, 0 ≤ i < n → ∃ f, frame (addr / HYPERV_PAGE_SIZE + i) = Some f ∧ 0 ≤ f < U64) → 32 + 8 * n < U16 →
  ring_ok tx → zlen inband < 2 ^ 31 → 48 + 8 * n + zlen inband ≤ ring_buffer_data_size tx - used tx →
  ∃ header extra tx', send_data_packet translate inband id addr len tx = Ret (should_signal_host tx, tx') ∧
    held tx' = held tx ++ wire header extra inband (write_offset tx) ∧ ring_ok tx' ∧ header_len_qword header * 8 = 16 + zlen extra ∧
    ∀ k, 0 ≤ k < len → translate (addr + k) = Some (described extra k).
Proof.
  intros Ha Hl Hu n Hf H16 Hr Hi Hfit. unfold send_data_packet. rewrite pfn_count_ret, ret_bind by done. fold n.
  assert (Hn : 0 < n) by (unfold n; assert (addr / HYPERV_PAGE_SIZE ≤ (addr + len - 1) / HYPERV_PAGE_SIZE) by (apply Z.div_le_mono; [done|lia]); lia).
  destruct (pfn_list_spec (Z.to_nat n) addr) as (pfns & Ep & Hpl & Hp). { intros i Hi'. destruct (Hf i ltac:(lia)) as (f & E & _). by exists f. }
  rewrite Ep, ret_bind. set (extra := gpa_extra addr len pfns). set (h := mkPacket _ _ _ _ _).
  assert (Hx : zlen extra = 16 + 8 * n).
  { unfold extra, gpa_extra. rewrite !zlen_app. change (zlen (le32 _)) with 4. assert (E : ∀ ws, zlen (ws ≫= le64) = 8 * zlen ws).
    { induction ws as [|w ws IH]; [done|]. cbn [mbind list_bind]. rewrite zlen_app, IH, zlen_cons. change (zlen (le64 w)) with 8. lia. }
    rewrite E. unfold zlen. rewrite Hpl. lia. }
  assert (Hh : header_len_qword h * 8 = 16 + zlen extra).
  { unfold h. cbn [header_len_qword]. unfold GPA_HEADER_SIZE. replace (32 + n * 8) with ((4 + n) * 8) by lia. rewrite Z.div_mul by lia. ints. rewrite Z.mod_small by lia. lia. }
  pose proof (send_raw_spec h extra inband tx Hr Hh ltac:(ints; lia) Hi) as Hs. destruct (padding_range (zlen inband)) as [Hpad _].
  rewrite (proj2 (Z.ltb_lt _ _)) in Hs by (unfold tx_len, FOOTER_SIZE; lia). destruct Hs as (tx' & E & Hok & _ & Hh' & _).
  exists (sent_header h extra inband), extra, tx'. split; [exact E|]. split; [exact Hh'|]. split; [done|]. split; [exact Hh|].
  apply described_translates; [done|done| |exact Hf]. intros i Hi'. apply Hp. lia.
Qed.
End Gpa.

(** A buffer of 200 bytes that crosses from one page to the next. *)
Lemma gpa_direct_describes_buffer_witness :
  let frame := λ p, if p <? 2 then Some (p + 700) else None in
  let translate := λ a, (λ f, f * HYPERV_PAGE_SIZE + a mod HYPERV_PAGE_SIZE) <$> frame (a / HYPERV_PAGE_SIZE) in
  let tx := mkRing 0 0 1 (zeros 128) in
  ∃ header extra tx', send_data_packet translate [1; 2; 3] 5 4000 200 tx = Ret (false, tx') ∧
    held tx' = held tx ++ wire header extra [1; 2; 3] (write_offset tx) ∧ ring_ok tx' ∧ header_len_qword header * 8 = 16 + zlen extra ∧
    ∀ k, 0 ≤ k < 200 → translate (4000 + k) = Some (described extra k).
Proof.
  intros frame translate tx. apply (gpa_direct_describes_buffer translate frame (λ a, eq_refl) [1; 2; 3] 5 4000 200 tx).
  - lia.
  - lia.
  - vm_compute; reflexivity.
  - intros i Hi. assert (Hi2 : 0 ≤ i < 2) by exact Hi. assert (Hi' : i = 0 ∨ i = 1) by lia. destruct Hi' as [-> | ->]; eexists; (split; [reflexivity|split; [vm_compute; discriminate|vm_compute; reflexivity]]).
  - vm_compute; reflexivity.
  - constructor; vm_compute; intuition discriminate.
  - vm_compute; reflexivity.
  - vm_compute; discriminate.
Defined.

(** ** Event flags *)

Section Flags.

Lemma bits_agree x y (l : list Z) : (∀ i, i ∈ l → Z.testbit x i = Z.testbit y i) → filter (λ i, Z.testbit x i = true) l = filter (λ i, Z.testbit y i = true) l.
Proof.
  induction l as [|i l IH]; intros H; [done|]. rewrite !filter_cons, (H i) by set_solver.
  rewrite IH by (intros j Hj; apply H; set_solver). done.
Qed.

Lemma no_bits_set (l : list Z) : filter (λ i, Z.testbit 0 i = true) l = [].
Proof. induction l as [|i l IH]; [done|]. rewrite filter_cons, decide_False by (by rewrite Z.bits_0). done. Qed.

(** The bits set in a word of flags, lowest first. *)
Definition set_bits (value : Z) : list Z := filter (λ b, Z.testbit value b = true) (seqZ 0 64).
Definition flagged (chunk_idx : Z) (bits : list Z) : list Z := (λ b, (chunk_idx * 8 + b) mod U32) <$> bits.

Lemma set_bits_lowest value : word 64 value → value ≠ 0 →
  set_bits value = ctz 64 value :: set_bits (Z.land value (wnot 64 (bit (ctz 64 value)))).
Proof.
  intros Hw H0. destruct (ctz_set 64 value Hw H0) as [Hset Hlt]. pose proof (ctz_bound 64 value) as [Hge _]. pose proof (ctz_below 64 value) as Hlow. set (b := ctz 64 value) in *.
  assert (Ht : ∀ i, 0 ≤ i < 64 → Z.testbit (Z.land value (wnot 64 (bit b))) i = Z.testbit value i && negb (i =? b)).
  { intros i Hi. rewrite Z.land_spec, testbit_wnot, testbit_bit by lia. done. }
  assert (Hsplit : seqZ 0 64 = seqZ 0 b ++ b :: seqZ (Z.succ b) (63 - b)).
  { replace 64 with (b + (64 - b)) by lia. rewrite seqZ_app by lia. rewrite Z.add_0_l, (seqZ_cons b) by lia. do 3 f_equal. lia. }
  assert (Hlow2 : ∀ x, (∀ i, 0 ≤ i < b → Z.testbit x i = false) → filter (λ i, Z.testbit x i = true) (seqZ 0 b) = []).
  { intros x Hx. rewrite (bits_agree x 0); [apply no_bits_set|].
    intros i Hi. apply elem_of_seqZ in Hi. by rewrite Hx, Z.bits_0 by lia. }
  unfold set_bits. rewrite Hsplit, !filter_app. rewrite !Hlow2; [|intros i Hi; rewrite Ht by lia; by rewrite Hlow|exact Hlow]. cbn [app].
  rewrite !filter_cons, decide_True by done. rewrite decide_False by (rewrite Ht, Z.eqb_refl, andb_false_r by lia; done). f_equal.
  apply bits_agree. intros i Hi. apply elem_of_seqZ in Hi. rewrite Ht by lia. rewrite (proj2 (Z.eqb_neq _ _)) by lia. by rewrite andb_true_r.
Qed.

Lemma set_bits_zero : set_bits 0 = [].
Proof. reflexivity. Qed.

Lemma flag_word chunk_idx value : word 64 value → while_loop (flag_round chunk_idx) 65 (value, []) = Ret (flagged chunk_idx (set_bits value)).
Proof.
  intros Hw. assert (Hr : returns (while_loop (flag_round chunk_idx) 65 (value, [])) (λ r, r = flagged chunk_idx (set_bits value))); [|by destruct Hr as (r & -> & ->)].
  apply (while_loop_total (flag_round chunk_idx) (λ '(v, cs), word 64 v ∧ cs ++ flagged chunk_idx (set_bits v) = flagged chunk_idx (set_bits value))
    (λ '(v, _), zlen (set_bits v))).
  - intros [v cs] [Hv Hcs] _. unfold flag_round. destruct (Z.eqb_spec v 0) as [-> |Hne].
    + apply returns_ret. by rewrite set_bits_zero, app_nil_r in Hcs.
    + apply returns_ret. rewrite (set_bits_lowest v Hv Hne) in Hcs |- *. rewrite zlen_cons. split; [|pose proof (zlen_nonneg (set_bits (Z.land v (wnot 64 (bit (ctz 64 v)))))); lia].
      split; [apply word_land; [lia|done]|]. rewrite <- Hcs, <- app_assoc. done.
  - done.
  - assert (Hl : (length (set_bits value) ≤ 64)%nat) by (unfold set_bits; etransitivity; [apply length_filter|by rewrite length_seqZ]). unfold zlen. lia.
Qed.

(** The scan ends and looks up, for every flag set, the channel [8 * word + bit],
    in order. *)
Lemma event_flags_scanned flags : ∀ chunk_idx, Forall (word 64) flags →
  handle_siefp_irq chunk_idx flags = Ret (concat (imap (λ k v, flagged (chunk_idx + Z.of_nat k) (set_bits v)) flags)).
Proof.
  induction flags as [|v flags IH]; intros c Hw; [done|]. apply Forall_cons in Hw as [Hv Hw]. cbn [handle_siefp_irq]. rewrite flag_word, ret_bind, IH, ret_bind by done.
  rewrite imap_cons. cbn [concat]. rewrite Z.add_0_r. do 3 f_equal. apply imap_ext. intros k x _. cbn. f_equal. lia.
Qed.

(** The flags are words of 64 bits: the flag of channel 64 is taken for that of
    channel 8. *)
Lemma channel_64_taken_for_8 : handle_siefp_irq 0 (<[1%nat := 1]> (replicate 32 0)) = Ret [8].
Proof. vm_compute. reflexivity. Qed.
End Flags.
