(* ===== verification/GuestPic.v ===== *)
(** * The interrupt controller of a guest's PC

    [kernel/src/driver/hv/reindeer/device/interrupt/pic.rs]: two cascaded 8259
    controllers as one device with sixteen lines.  Requests, lines in service
    and masks are words of 16 bits, the first controller in the low byte. *)

From S2P Require Import Prelude Bits.

Record PicPending := mkPicPending { irq_line : Z; pic_vector : Z }.

Record ProgrammableInterruptControllerDevice := mkPic {
  pic_irr : Z;
  pic_isr : Z;
  pic_imr : Z;
  master_base : Z;
  slave_base : Z;
  init_step_master : Z;
  init_step_slave : Z;
  read_register_select_master : Z;
  read_register_select_slave : Z
}.
#[global] Instance eta_pic : Eta ProgrammableInterruptControllerDevice := λ p,
  mkPic (pic_irr p) (pic_isr p) (pic_imr p) (master_base p) (slave_base p) (init_step_master p) (init_step_slave p)
    (read_register_select_master p) (read_register_select_slave p).

#[local] Abbreviation Pic := ProgrammableInterruptControllerDevice.
Implicit Types p q : Pic.

Definition pic_new : Pic := mkPic 0 0 0xFFFF 0 0 0 0 0 0.

Definition irq_bit (irq : Z) : res Z := rassert (irq <? 16);; Ret (bit irq).

Definition pic_raise_irq (irq : Z) p : res Pic :=
  m ← irq_bit irq; Ret (p <| pic_irr := Z.lor (pic_irr p) m |>).

(** The lowest line requested and not masked, when it is lower than every line
    in service. *)
Definition check_pending p : option Z :=
  let unmasked_irr := Z.land (pic_irr p) (wnot 16 (pic_imr p)) in
  if unmasked_irr =? 0 then None
  else
    let pending_irq := ctz 16 unmasked_irr in
    if negb (pic_isr p =? 0) && (ctz 16 (pic_isr p) <=? pending_irq) then None
    else Some pending_irq.

Definition pic_vector_of (irq : Z) p : Z :=
  if irq <? 8 then (master_base p + irq) mod U8 else (slave_base p + (irq - 8)) mod U8.

Definition accept_interrupt p : res (option (Z * Z) * Pic) :=
  match check_pending p with
  | None => Ret (None, p)
  | Some irq =>
      m ← irq_bit irq;
      let p := p <| pic_irr := Z.land (pic_irr p) (wnot 16 m) |> <| pic_isr := Z.lor (pic_isr p) m |> in
      p ← (if 8 <=? irq then c ← irq_bit 2; Ret (p <| pic_isr := Z.lor (pic_isr p) c |>) else Ret p);
      Ret (Some (irq, pic_vector_of irq p), p)
  end.

Definition handle_eoi (is_master_port : bool) p : res Pic :=
  if is_master_port then
    let master_isr := Z.land (pic_isr p) 0xFF in
    if master_isr =? 0 then Ret p
    else m ← irq_bit (ctz 8 master_isr); Ret (p <| pic_isr := Z.land (pic_isr p) (wnot 16 m) |>)
  else
    let slave_isr := Z.shiftr (pic_isr p) 8 in
    p ← (if slave_isr =? 0 then Ret p
         else m ← irq_bit (ctz 8 slave_isr + 8); Ret (p <| pic_isr := Z.land (pic_isr p) (wnot 16 m) |>));
    c ← irq_bit 2; Ret (p <| pic_isr := Z.land (pic_isr p) (wnot 16 c) |>).

Definition peek_pending p : res (option PicPending) :=
  match check_pending p with
  | None => Ret None
  | Some irq => rassert (irq <? 16);; Ret (Some (mkPicPending irq (pic_vector_of irq p)))
  end.

(** ** Registers *)

Definition read_status_register (select : Z) (is_master : bool) p : Z :=
  let reg := if select =? 0 then pic_irr p else pic_isr p in
  if is_master then Z.land reg 0xFF else Z.land (Z.shiftr reg 8) 0xFF.

Definition pic_handle_read (io_port : Z) p : Z :=
  if io_port =? 0x21 then Z.land (pic_imr p) 0xFF
  else if io_port =? 0xA1 then Z.land (Z.shiftr (pic_imr p) 8) 0xFF
  else if io_port =? 0x20 then read_status_register (read_register_select_master p) true p
  else if io_port =? 0xA0 then read_status_register (read_register_select_slave p) false p
  else 0.

Definition pic_handle_write (io_port data : Z) p : res Pic :=
  let val := data mod U8 in
  if (io_port =? 0x20) || (io_port =? 0xA0) then
    let master := io_port =? 0x20 in
    if negb (Z.land val 0x10 =? 0) then
      Ret (if master then p <| init_step_master := 1 |> else p <| init_step_slave := 1 |>)
    else if Z.land val 0x08 =? 0 then
      if negb (Z.land val 0x20 =? 0) then handle_eoi master p else Ret p
    else if negb (Z.land val 0x02 =? 0) then
      let sel := Z.land val 0x01 in
      Ret (if master then p <| read_register_select_master := sel |> else p <| read_register_select_slave := sel |>)
    else Ret p
  else if (io_port =? 0x21) || (io_port =? 0xA1) then
    let master := io_port =? 0x21 in
    let step := if master then init_step_master p else init_step_slave p in
    if step =? 1 then
      Ret (if master then p <| master_base := Z.land val 0xF8 |> <| init_step_master := 2 |>
           else p <| slave_base := Z.land val 0xF8 |> <| init_step_slave := 2 |>)
    else if (step =? 2) || (step =? 3) then
      Ret (if master then p <| init_step_master := 0 |> else p <| init_step_slave := 0 |>)
    else if step =? 0 then
      Ret (if master then p <| pic_imr := Z.lor (Z.land (pic_imr p) 0xFF00) val |>
           else p <| pic_imr := Z.lor (Z.land (pic_imr p) 0x00FF) (Z.shiftl val 8) |>)
    else Ret p
  else Ret p.

(** ** Well-formed controllers *)

Record pic_ok p : Prop := {
  pic_ok_irr : word 16 (pic_irr p);
  pic_ok_isr : word 16 (pic_isr p);
  pic_ok_imr : word 16 (pic_imr p)
}.

Definition in_service p (k : Z) : bool := Z.testbit (pic_isr p) k.
Definition requested p (k : Z) : bool := Z.testbit (pic_irr p) k && negb (Z.testbit (pic_imr p) k).

Lemma unmasked_bit p k : 0 ≤ k < 16 →
  Z.testbit (Z.land (pic_irr p) (wnot 16 (pic_imr p))) k = requested p k.
Proof. intros. unfold requested. by rewrite Z.land_spec, testbit_wnot by lia. Qed.

Lemma unmasked_word p : pic_ok p → word 16 (Z.land (pic_irr p) (wnot 16 (pic_imr p))).
Proof. intros [? ? ?]. apply word_land; [lia|assumption]. Qed.

Lemma ctz16_set x : word 16 x → x ≠ 0 → Z.testbit x (ctz 16 x) = true ∧ 0 ≤ ctz 16 x < 16.
Proof. intros Hx Hn. destruct (ctz_set 16 x Hx Hn). pose proof (ctz_bound 16 x). split; [assumption|lia]. Qed.

(** A line in service at or below the lowest one is the lowest one itself. *)
Lemma ctz16_least x k : word 16 x → 0 ≤ k → Z.testbit x k = true → ctz 16 x ≤ k.
Proof. intros Hx Hk Ht. destruct (decide (k < ctz 16 x)); [by rewrite (ctz_below 16) in Ht by lia|lia]. Qed.

Lemma nonzero_of_bit x k : Z.testbit x k = true → x ≠ 0.
Proof. intros Ht ->. by rewrite Z.testbit_0_l in Ht. Qed.

(** What the device offers is the request of highest priority, and it has
    priority over everything in service. *)
Lemma check_pending_spec p irq : pic_ok p →
  check_pending p = Some irq ↔
  0 ≤ irq < 16 ∧ requested p irq = true ∧ (∀ k, 0 ≤ k < irq → requested p k = false) ∧
  (∀ k, 0 ≤ k ≤ irq → in_service p k = false).
Proof.
  intros Hp. pose proof (unmasked_word p Hp) as Hw. pose proof (pic_ok_isr p Hp) as Hs.
  unfold check_pending, in_service. set (u := Z.land _ _) in *. split.
  - destruct (Z.eqb_spec u 0) as [|Hn]; [discriminate|]. destruct (ctz16_set u Hw Hn) as [Ht Hb].
    destruct (negb (pic_isr p =? 0) && (ctz 16 (pic_isr p) <=? ctz 16 u)) eqn:He; [discriminate|].
    intros E. assert (irq = ctz 16 u) as -> by congruence. split; [lia|]. split_and!.
    + by rewrite <- unmasked_bit by lia.
    + intros k Hk. rewrite <- unmasked_bit by lia. fold u. by apply (ctz_below 16).
    + intros k Hk. destruct (Z.testbit (pic_isr p) k) eqn:Hi; [|done].
      pose proof (ctz16_least (pic_isr p) k Hs ltac:(lia) Hi). pose proof (nonzero_of_bit _ _ Hi). lia.
  - intros (Hb & Hr & Hl & Hi). rewrite <- unmasked_bit in Hr by lia. fold u in Hr.
    destruct (Z.eqb_spec u 0) as [E|_]; [by rewrite E, Z.testbit_0_l in Hr|].
    rewrite (ctz_unique 16 u irq); [|assumption|lia|assumption|].
    2: intros k Hk; unfold u; rewrite unmasked_bit by lia; apply Hl; lia.
    destruct (negb (pic_isr p =? 0) && (ctz 16 (pic_isr p) <=? irq)) eqn:He; [|done].
    destruct (ctz16_set (pic_isr p) Hs ltac:(lia)) as [Ht ?]. rewrite Hi in Ht by lia. discriminate.
Qed.

Lemma irq_bit_ret irq : irq < 16 → irq_bit irq = Ret (bit irq).
Proof. intros. unfold irq_bit. by rewrite (proj2 (Z.ltb_lt irq 16)) by lia. Qed.

(** The lines of the second controller are announced on line 2 of the first. *)
Definition cascade (irq k : Z) : bool := (k =? irq) || ((8 <=? irq) && (k =? 2)).

Lemma accept_spec p irq : pic_ok p → check_pending p = Some irq → ∃ q,
  accept_interrupt p = Ret (Some (irq, pic_vector_of irq p), q) ∧ pic_ok q ∧
  pic_imr q = pic_imr p ∧ master_base q = master_base p ∧ slave_base q = slave_base p ∧
  (∀ k, 0 ≤ k < 16 → in_service q k = in_service p k || cascade irq k) ∧
  (∀ k, 0 ≤ k < 16 → Z.testbit (pic_irr q) k = Z.testbit (pic_irr p) k && negb (k =? irq)).
Proof.
  intros Hp Hc. pose proof (proj1 (check_pending_spec p irq Hp) Hc) as (Hb & _).
  destruct Hp as [? ? ?]. unfold accept_interrupt, cascade, in_service. rewrite Hc, (irq_bit_ret irq), ret_bind by lia.
  destruct (Z.leb_spec 8 irq); [rewrite (irq_bit_ret 2) by lia|]; rewrite ?ret_bind; cbv zeta;
  (eexists; split; [reflexivity|]); unfold pic_vector_of; rsimp;
  (split; [constructor; rsimp; auto 6 with bits lia|]; split_and!; try reflexivity);
  intros k Hk; autorewrite with bits; destruct (k =? irq), (k =? 2); simpl; autorewrite with bits; done.
Qed.

Lemma handle_eoi_master p : pic_ok p → ∃ q, handle_eoi true p = Ret q ∧ pic_ok q ∧
  q = p <| pic_isr := pic_isr q |> ∧
  ((∃ m, 0 ≤ m < 8 ∧ in_service p m = true ∧ (∀ k, 0 ≤ k < m → in_service p k = false) ∧
      ∀ k, 0 ≤ k < 16 → in_service q k = in_service p k && negb (k =? m)) ∨
   (q = p ∧ ∀ k, 0 ≤ k < 8 → in_service p k = false)).
Proof.
  intros Hp. pose proof (pic_ok_isr p Hp) as Hs. unfold handle_eoi, in_service. set (m := Z.land (pic_isr p) 0xFF).
  assert (word 8 m) as Hm by (apply word_land_r; [lia|split; [lia|reflexivity]]).
  assert (∀ k, 0 ≤ k < 8 → Z.testbit m k = Z.testbit (pic_isr p) k) as Hbit.
  { intros k ?. unfold m. change 0xFF with (Z.ones 8). rewrite Z.land_spec, testbit_ones by lia.
    rewrite (proj2 (Z.ltb_lt k 8)) by lia. apply andb_true_r. }
  destruct (Z.eqb_spec m 0) as [E|Hn].
  - exists p. split; [done|]. split; [assumption|]. split; [by destruct p|]. right. split; [done|].
    intros k ?. by rewrite <- Hbit, E, Z.testbit_0_l by lia.
  - destruct (ctz_set 8 m Hm Hn) as [Ht Hlt]. pose proof (ctz_bound 8 m). rewrite irq_bit_ret, ret_bind by lia.
    eexists. split; [reflexivity|]. split; [destruct Hp; constructor; rsimp; auto with bits lia|].
    split; [reflexivity|]. left. rsimp. exists (ctz 8 m). split; [lia|]. split; [by rewrite <- Hbit by lia|]. split.
    + intros k ?. rewrite <- Hbit by lia. by apply (ctz_below 8).
    + intros k ?. by rewrite Z.land_spec, testbit_wnot, testbit_bit by lia.
Qed.

Lemma handle_eoi_slave p s : pic_ok p → 8 ≤ s < 16 → in_service p s = true → (∀ k, 8 ≤ k < s → in_service p k = false) →
  ∃ q, handle_eoi false p = Ret q ∧ pic_ok q ∧ q = p <| pic_isr := pic_isr q |> ∧
    ∀ k, 0 ≤ k < 16 → in_service q k = in_service p k && negb (k =? s) && negb (k =? 2).
Proof.
  intros Hp Hs Hi Hl. unfold handle_eoi, in_service in *. set (h := Z.shiftr (pic_isr p) 8).
  assert (∀ k, 0 ≤ k → Z.testbit h k = Z.testbit (pic_isr p) (k + 8)) as Hbit by (intros; unfold h; by rewrite Z.shiftr_spec).
  assert (word 8 h) as Hh.
  { apply word_bits; [lia|apply Z.shiftr_nonneg, Hp|]. intros i ?. rewrite Hbit by lia.
    apply (word_high_bit 16); [apply Hp|lia]. }
  assert (Z.testbit h (s - 8) = true) as Hsb by (rewrite Hbit by lia; by replace (s - 8 + 8) with s by lia).
  destruct (Z.eqb_spec h 0) as [E|_]; [by rewrite E, Z.testbit_0_l in Hsb|].
  rewrite (ctz_unique 8 h (s - 8)); [|assumption|lia|assumption|intros; rewrite Hbit by lia; apply Hl; lia].
  rewrite (irq_bit_ret (s - 8 + 8)), !ret_bind, (irq_bit_ret 2), ret_bind by lia.
  eexists. split; [reflexivity|]. destruct Hp. split; [constructor; rsimp; auto 6 with bits lia|].
  split; [reflexivity|]. rsimp. intros k ?. rewrite !Z.land_spec, !testbit_wnot, !testbit_bit by lia.
  by replace (s - 8 + 8) with s by lia.
Qed.

(** ** Nested service

    What a handler for [irq] sends at its end, and the runs in which every
    interrupt accepted is ended this way, with devices raising lines and the
    guest changing masks in between; [l] lists the lines in the order in which
    they were accepted. *)

Definition end_of_interrupt (irq : Z) p : res Pic :=
  p ← (if 8 <=? irq then pic_handle_write 0xA0 0x20 p else Ret p);
  pic_handle_write 0x20 0x20 p.

Inductive nested : Pic → list Z → Pic → Prop :=
| nested_done p : nested p [] p
| nested_raise p irq q l r : 0 ≤ irq → pic_raise_irq irq p = Ret q → nested q l r → nested p l r
| nested_mask p port v q l r : port = 0x21 ∨ port = 0xA1 → pic_handle_write port v p = Ret q → nested q l r → nested p l r
| nested_serve p irq v q l1 q1 q2 l2 r : accept_interrupt p = Ret (Some (irq, v), q) → nested q l1 q1 →
    end_of_interrupt irq q1 = Ret q2 → nested q2 l2 r → nested p (irq :: l1 ++ l2) r.

Lemma eoi_write p : pic_handle_write 0x20 0x20 p = handle_eoi true p.
Proof. reflexivity. Qed.
Lemma eoi_write_slave p : pic_handle_write 0xA0 0x20 p = handle_eoi false p.
Proof. reflexivity. Qed.

Lemma isr_ext p q : pic_ok p → pic_ok q → (∀ k, 0 ≤ k < 16 → in_service p k = in_service q k) → pic_isr p = pic_isr q.
Proof. intros Hp Hq He. apply (word_eq 16); [lia|apply Hp|apply Hq|exact He]. Qed.

(** When nothing in service had priority over [irq], ending [irq] leaves in
    service what was before it was accepted. *)
Lemma end_of_interrupt_spec irq p q : pic_ok p → pic_ok q → 0 ≤ irq < 16 →
  (∀ k, 0 ≤ k ≤ irq → in_service p k = false) →
  (∀ k, 0 ≤ k < 16 → in_service q k = in_service p k || cascade irq k) →
  ∃ r, end_of_interrupt irq q = Ret r ∧ pic_ok r ∧ pic_isr r = pic_isr p ∧ r = q <| pic_isr := pic_isr r |>.
Proof.
  intros Hp Hq Hb Hn Hs. unfold end_of_interrupt. destruct (Z.leb_spec 8 irq).
  - rewrite eoi_write_slave.
    destruct (handle_eoi_slave q irq Hq) as (q1 & -> & H1 & E1 & S1); [lia| | |].
    1: rewrite Hs by lia; unfold cascade; by rewrite Z.eqb_refl, orb_true_r.
    1: intros k ?; rewrite Hs, Hn by lia; unfold cascade; lia.
    rewrite ret_bind, eoi_write. assert (∀ k, 0 ≤ k < 16 → in_service q1 k = in_service p k) as S1'.
    { intros k ?. rewrite S1, Hs by lia. unfold cascade. destruct (decide (k ≤ irq)); [rewrite (Hn k) by lia; lia|].
      rewrite (proj2 (Z.eqb_neq k irq)), (proj2 (Z.eqb_neq k 2)) by lia. rewrite andb_false_r. simpl. by rewrite !andb_true_r, orb_false_r. }
    destruct (handle_eoi_master q1 H1) as (q2 & -> & H2 & E2 & [(m & ? & Hm & _)|[-> _]]).
    + rewrite S1', Hn in Hm by lia. discriminate.
    + exists q1. split; [done|]. split; [assumption|]. split; [by apply isr_ext|done].
  - rewrite ret_bind, eoi_write. assert (in_service q irq = true) as Hi.
    { rewrite Hs by lia. unfold cascade. by rewrite Z.eqb_refl, orb_true_r. }
    assert (∀ k, 0 ≤ k < irq → in_service q k = false) as Hlow by (intros; rewrite Hs, Hn by lia; unfold cascade; lia).
    destruct (handle_eoi_master q Hq) as (r & -> & Hr & Er & [(m & ? & Hm & Hml & Hmr)|[_ Hz]]).
    2: by rewrite Hz in Hi by lia.
    assert (m = irq) as ->.
    { destruct (decide (m < irq)); [by rewrite Hlow in Hm by lia|]. destruct (decide (irq < m)); [by rewrite Hml in Hi by lia|lia]. }
    exists r. split; [done|]. split; [assumption|]. split; [|assumption]. apply isr_ext; [assumption..|].
    intros k ?. rewrite Hmr, Hs by lia. unfold cascade. destruct (Z.eqb_spec k irq) as [->|]; [by rewrite Hn by lia|].
    rewrite (proj2 (Z.leb_gt 8 irq)) by lia. simpl. by rewrite andb_true_r, orb_false_r.
Qed.

Lemma raise_spec irq p q : pic_ok p → 0 ≤ irq → pic_raise_irq irq p = Ret q →
  pic_ok q ∧ pic_isr q = pic_isr p ∧ irq < 16 ∧
  ∀ k, 0 ≤ k < 16 → requested q k = requested p k || (k =? irq) && negb (Z.testbit (pic_imr p) k).
Proof.
  intros [? ? ?] Hi. unfold pic_raise_irq, irq_bit. destruct (Z.ltb_spec irq 16); [|discriminate].
  cbn [rassert]. rewrite !ret_bind. intros [= <-]. split; [constructor; rsimp; auto with bits lia|].
  split; [done|]. split; [assumption|]. intros k ?. unfold requested. rsimp. rewrite Z.lor_spec, testbit_bit by lia.
  by destruct (Z.testbit (pic_irr p) k), (k =? irq), (Z.testbit (pic_imr p) k).
Qed.

Lemma mask_write_spec port v p q : pic_ok p → port = 0x21 ∨ port = 0xA1 → pic_handle_write port v p = Ret q →
  pic_ok q ∧ pic_isr q = pic_isr p ∧ pic_irr q = pic_irr p.
Proof.
  intros [H1 H2 H3] Hport H. assert (word 8 (v mod U8)) by (apply Z.mod_pos_bound; done).
  assert (∀ m, pic_ok (p <| pic_imr := m |>) ↔ word 16 m) as Hm
    by (intros m; split; [intros [? ? Hm]; exact Hm|intros Hm; constructor; [exact H1|exact H2|exact Hm]]).
  assert (word 16 (Z.shiftl (v mod U8) 8)) by (unfold word in *; rewrite Z.shiftl_mul_pow2 by lia; lia).
  assert (word 16 (v mod U8)) by (apply (word_wider 8); [lia|assumption]).
  destruct Hport as [-> | ->]; unfold pic_handle_write in H; cbn -[Z.modulo Z.land Z.lor Z.shiftl] in H;
  repeat case_match; simplify_eq; (split; [|done]); try (by constructor);
  apply Hm; auto with bits lia.
Qed.

Lemma nested_isr p l r : nested p l r → pic_ok p →
  pic_ok r ∧ pic_isr r = pic_isr p ∧ ∀ i, i ∈ l → 0 ≤ i < 16 ∧ ∀ k, 0 ≤ k ≤ i → in_service p k = false.
Proof.
  unfold in_service. induction 1 as [p|p irq q l r Hi E _ IH|p port v q l r Hport E _ IH|p irq v q l1 q1 q2 l2 r E _ IH1 E2 _ IH2]; intros Hp.
  - split; [assumption|]. split; [done|]. intros i Hi. set_solver.
  - destruct (raise_spec irq p q Hp Hi E) as (Hq & Es & _). destruct (IH Hq) as (? & ? & ?).
    split; [assumption|]. split; [congruence|by rewrite <- Es].
  - destruct (mask_write_spec port v p q Hp Hport E) as (Hq & Es & _). destruct (IH Hq) as (? & ? & ?).
    split; [assumption|]. split; [congruence|by rewrite <- Es].
  - destruct (check_pending p) as [irq'|] eqn:Hc; [|unfold accept_interrupt in E; rewrite Hc in E; discriminate].
    destruct (accept_spec p irq' Hp Hc) as (q' & E' & Hq & _ & _ & _ & Hs & _). rewrite E' in E. simplify_eq.
    apply check_pending_spec in Hc as (Hb & _ & _ & Hn); [|assumption].
    destruct (IH1 Hq) as (Hq1 & S1 & L1).
    destruct (end_of_interrupt_spec irq p q1 Hp Hq1 Hb Hn) as (r' & E3 & Hr' & S2 & _).
    { intros k ?. rewrite <- Hs by lia. unfold in_service. by rewrite S1. }
    rewrite E3 in E2. injection E2 as ->. destruct (IH2 Hr') as (Hr & S3 & L2). split; [assumption|].
    split; [congruence|]. intros i. rewrite elem_of_cons, elem_of_app. intros [->|[Hi|Hi]]; [by split| |].
    + destruct (L1 i Hi) as [Hib Hk]. split; [assumption|]. intros k ?. specialize (Hk k ltac:(lia)).
      fold (in_service q k) in Hk. rewrite Hs in Hk by lia. apply orb_false_iff in Hk as [? _]. assumption.
    + destruct (L2 i Hi) as [Hib Hk]. split; [assumption|]. intros k ?. rewrite <- S2. by apply Hk.
Qed.

(** C21: whenever every handler ends its own interrupt, runs of any depth
    return to the lines that were in service before, and an interrupt is only
    ever accepted when its line has priority over all lines in service. *)
Theorem pic_nested_service p l r : nested p l r → pic_ok p →
  pic_ok r ∧ pic_isr r = pic_isr p ∧ ∀ i, i ∈ l → 0 ≤ i < 16 ∧ ∀ k, 0 ≤ k ≤ i → in_service p k = false.
Proof. exact (nested_isr p l r). Qed.

(** The clock interrupts the handler of line 8 and ends first. *)
Definition pic_unmasked : Pic := mkPic 0 0 0 0x20 0x28 0 0 0 0.
Definition after {A} (d : A) (m : res A) : A := match m with Ret a => a | Crash _ => d end.
Definition pic_8 : Pic := after pic_new (pic_raise_irq 8 pic_unmasked).
Definition pic_8_served : Pic := snd (after (None, pic_new) (accept_interrupt pic_8)).
Definition pic_0_in_8 : Pic := after pic_new (pic_raise_irq 0 pic_8_served).
Definition pic_0_served : Pic := snd (after (None, pic_new) (accept_interrupt pic_0_in_8)).

Lemma pic_nested_service_witness :
  nested pic_unmasked [8; 0] pic_unmasked ∧ pic_ok pic_unmasked ∧ pic_isr pic_unmasked = 0.
Proof.
  assert (pic_ok pic_unmasked) as Hp by (constructor; split; vm_compute; congruence).
  assert (nested pic_unmasked [8; 0] pic_unmasked) as Hn.
  { apply (nested_raise _ 8 pic_8); [lia|reflexivity|].
    apply (nested_serve pic_8 8 0x28 pic_8_served [0] pic_8_served pic_unmasked []); [reflexivity| |reflexivity|constructor].
    apply (nested_raise _ 0 pic_0_in_8); [lia|reflexivity|].
    apply (nested_serve pic_0_in_8 0 0x20 pic_0_served [] pic_0_served pic_8_served []);
      [reflexivity|constructor|reflexivity|constructor]. }
  split; [exact Hn|]. split; [exact Hp|]. exact (proj1 (proj2 (pic_nested_service _ _ _ Hn Hp))).
Defined.

(** The lines of the second controller rank behind line 7, although they arrive
    on line 2: line 3 goes first, and line 8 waits while line 3 is served. *)
Lemma slave_ranks_last :
  check_pending (pic_unmasked <| pic_irr := 0x108 |>) = Some 3 ∧
  check_pending (pic_unmasked <| pic_irr := 0x100 |> <| pic_isr := 0x8 |>) = None.
Proof. split; reflexivity. Qed.

(** The sequence of initialization words ends one word early: the fourth one
    is stored as the mask. *)
Lemma icw4_becomes_mask icw1 icw2 icw3 icw4 p : Z.land (icw1 mod U8) 0x10 ≠ 0 →
  (p ← pic_handle_write 0x20 icw1 p; p ← pic_handle_write 0x21 icw2 p; p ← pic_handle_write 0x21 icw3 p;
   pic_handle_write 0x21 icw4 p) =
  Ret (p <| master_base := Z.land (icw2 mod U8) 0xF8 |> <| init_step_master := 0 |>
         <| pic_imr := Z.lor (Z.land (pic_imr p) 0xFF00) (icw4 mod U8) |>).
Proof.
  intros H. unfold pic_handle_write at 1. cbn -[Z.modulo Z.land Z.lor].
  rewrite (proj2 (Z.eqb_neq (Z.land (icw1 mod U8) 16) 0)) by assumption. reflexivity.
Qed.
