(* ===== verification/GuestApic.v ===== *)
(** * Local and I/O interrupt controllers of a guest

    [kernel/src/driver/hv/reindeer/device/interrupt/lapic.rs] and [io_apic.rs],
    with the time source of [guest/clock.rs].  A processor's requests and its
    vectors in service are maps of 256 bits in eight words.  The controllers
    share one another: [Irqs] holds them all, and an operation that reaches
    another device returns all of them.  A reading of the guest's time stamp
    counter is an argument. *)

From stdpp Require Import gmap.
From S2P Require Import Prelude Bits GuestPic.

#[local] Abbreviation Pic := ProgrammableInterruptControllerDevice.
Definition U128 : Z := 2 ^ 128.

(** ** Guest time *)

Record GuestClock := mkGuestClock {
  tsc_hz : Z;
  apic_bus_hz : Z;
  base_host_tsc : Z;
  base_guest_tsc : Z;
  host_tsc_hz : Z;
  tsc_scaling_supported : bool
}.
Implicit Types g : GuestClock.

(** [requested_tsc_hz] only decides on a message; [frequency] is that of the
    host's counter and [now] its reading. *)
Definition clock_new (frequency now requested_tsc_hz bus_hz : Z) (scaling : bool) : GuestClock :=
  mkGuestClock (Z.max frequency 1) (Z.max bus_hz 1) now 0 (Z.max frequency 1) scaling.

Definition needs_tsc_scaling g : bool := negb (tsc_hz g =? host_tsc_hz g) && tsc_scaling_supported g.

Definition scale_tsc g (tsc : Z) : res Z :=
  if needs_tsc_scaling g then
    let multiplier := Z.shiftl (tsc_hz g) 48 / Z.max (host_tsc_hz g) 1 in
    x ← mul_chk U128 tsc multiplier; Ret (Z.shiftr x 48 mod U64)
  else Ret tsc.

Definition host_to_guest_tsc g (host_tsc : Z) : res Z :=
  a ← scale_tsc g host_tsc; b ← scale_tsc g (base_host_tsc g);
  Ret ((base_guest_tsc g + (a - b) mod U64) mod U64).

Definition apic_timer_divider (dcr : Z) : Z :=
  match Z.land dcr 0xB with
  | 0 => 2 | 1 => 4 | 2 => 8 | 3 => 16 | 8 => 32 | 9 => 64 | 10 => 128 | 11 => 1 | _ => 16
  end.

Definition div_chk (a b : Z) : res Z := if b =? 0 then Crash Panic else Ret (a / b).

Definition lapic_ticks_elapsed g (now start_guest_tsc dcr : Z) : res Z :=
  let delta_tsc := sat_sub now start_guest_tsc in
  let divider := Z.max (apic_timer_divider dcr) 1 in
  t ← div_chk (delta_tsc * apic_bus_hz g) (tsc_hz g);
  Ret (t / divider mod U64).

Definition cpuid_leaf_15 g : res (Z * Z * Z * Z) :=
  s ← add_chk U64 (tsc_hz g) (apic_bus_hz g / 2);
  ebx ← div_chk s (apic_bus_hz g);
  Ret (1, ebx mod U32, apic_bus_hz g mod U32, 0).

(** ** Local controllers *)

Record LocalApicState := mkLapic {
  la_id : Z;
  version : Z;
  base_address : Z;
  spurious_vector : Z;
  tpr : Z;
  lvt_error : Z;
  divide_config_register : Z;
  timer_on : bool;
  initial_count : Z;
  start_guest_tsc : Z;
  irr : list Z;
  isr : list Z;
  is_enabled : bool;
  dfr : Z;
  ldr : Z;
  lvt_lint0 : Z;
  lvt_lint1 : Z;
  lvt_timer : Z;
  icr_low : Z;
  icr_high : Z
}.
#[global] Instance eta_lapic : Eta LocalApicState := λ s,
  mkLapic (la_id s) (version s) (base_address s) (spurious_vector s) (tpr s) (lvt_error s) (divide_config_register s)
    (timer_on s) (initial_count s) (start_guest_tsc s) (irr s) (isr s) (is_enabled s) (dfr s) (ldr s) (lvt_lint0 s)
    (lvt_lint1 s) (lvt_timer s) (icr_low s) (icr_high s).

Inductive DeliveredInterrupt :=
| ExtInt (irq_line vector : Z)
| Lapic (vector : Z)
| LapicLvtLint0 (lint0_vector irq_line : Z).

Record LocalApicDevice := mkLapicDevice {
  lapic_state : gmap Z LocalApicState;
  guest_clock : GuestClock;
  apic_map : gmap Z Z
}.
#[global] Instance eta_lapic_device : Eta LocalApicDevice := λ d,
  mkLapicDevice (lapic_state d) (guest_clock d) (apic_map d).

Implicit Types (s : LocalApicState) (d : LocalApicDevice).

Definition LVT_MASKED : Z := bit 16.
Definition LVT_TIMER_PERIODIC : Z := bit 17.
Definition SVR_APIC_ENABLE : Z := bit 8.
Definition ICR_DELIVERY_STATUS_MASK : Z := bit 12.

Definition lapic_device_new g : LocalApicDevice := mkLapicDevice ∅ g ∅.

Definition lapic_reset (cpu_id : Z) : LocalApicState :=
  mkLapic (cpu_id mod U32) 0x00050014 0xFEE00000 0x10 0 (bit 16) 0 false 0 0 (zeros 8) (zeros 8) false
    0xFFFFFFFF 0xFFFFFFFF 0x700 0x10000 0x10000 0 0.

Definition lapic_initialize (cpu_id : Z) d : LocalApicDevice :=
  let state := lapic_reset cpu_id in
  d <| apic_map := <[la_id state := cpu_id]> (apic_map d) |> <| lapic_state := <[cpu_id := state]> (lapic_state d) |>.

(** [state.get(&cpu_id).unwrap()]. *)
Definition lapic_of (cpu_id : Z) d : res LocalApicState :=
  match lapic_state d !! cpu_id with Some s => Ret s | None => Crash Panic end.
Definition put_lapic (cpu_id : Z) s d : LocalApicDevice := d <| lapic_state := <[cpu_id := s]> (lapic_state d) |>.

(** The loops over [(0..8).rev()]: the highest bit set of the highest of the
    first [n] words that is not zero. *)
Fixpoint highest_below (n : nat) (regs : list Z) : option Z :=
  match n with
  | O => None
  | S i =>
      let w := byte_at regs (Z.of_nat i) in
      if w =? 0 then highest_below i regs
      else Some (Z.of_nat i * 32 + (31 - leading_zeros 32 w))
  end.
Definition highest_vector (regs : list Z) : option Z := highest_below 8 regs.

(** [regs[i] |= mask] and [regs[i] &= !mask]. *)
Definition or_at (i m : Z) (regs : list Z) : res (list Z) := w ← index regs i; store regs i (Z.lor w m).
Definition clear_at (i m : Z) (regs : list Z) : res (list Z) := w ← index regs i; store regs i (Z.land w (wnot 32 m)).

Definition find_highest_pending_lapic_irq s (processor_prio isr_prio : Z) : option Z :=
  match highest_vector (irr s) with
  | None => None
  | Some pending_vec =>
      let pending_prio := Z.shiftr pending_vec 4 in
      if (processor_prio <? pending_prio) && (isr_prio <? pending_prio) then Some pending_vec else None
  end.

Definition isr_priority s : Z :=
  match highest_vector (isr s) with Some v => Z.shiftr v 4 | None => 0 end.

Definition get_pending_interrupt (cpu_id : Z) d (pic : Pic) (guest_tpr : Z) : res (option DeliveredInterrupt) :=
  state ← lapic_of cpu_id d;
  let effective_tpr := Z.max (tpr state) guest_tpr in
  let processor_prio := Z.shiftr effective_tpr 4 mod U8 in
  let isr_prio := isr_priority state in
  let from_irr := Lapic <$> find_highest_pending_lapic_irq state processor_prio isr_prio in
  if Z.land (lvt_lint0 state) LVT_MASKED =? 0 then
    let delivery_mode := Z.land (Z.shiftr (lvt_lint0 state) 8) 0x7 in
    pending ← peek_pending pic;
    match pending with
    | None => Ret from_irr
    | Some pending =>
        if delivery_mode =? 7 then Ret (Some (ExtInt (irq_line pending) (pic_vector pending)))
        else if delivery_mode =? 0 then
          let lint0_vector := Z.land (lvt_lint0 state) 0xFF in
          let lint0_prio := Z.shiftr lint0_vector 4 in
          if (16 <=? lint0_vector) && (processor_prio <? lint0_prio) && (isr_prio <? lint0_prio)
          then Ret (Some (LapicLvtLint0 lint0_vector (irq_line pending)))
          else Ret from_irr
        else Ret from_irr
    end
  else Ret from_irr.

Definition commit_interrupt (cpu_id vector : Z) d : res LocalApicDevice :=
  state ← lapic_of cpu_id d;
  let reg_idx := vector / 32 in
  let m := bit (vector mod 32) in
  r ← clear_at reg_idx m (irr state);
  i ← or_at reg_idx m (isr state);
  Ret (put_lapic cpu_id (state <| irr := r |> <| isr := i |>) d).

Definition commit_delivered_interrupt (interrupt : DeliveredInterrupt) (pic : Pic) (cpu_id : Z) d :
    res (option Z * LocalApicDevice * Pic) :=
  match interrupt with
  | ExtInt irq_line vector =>
      rassert (irq_line <? 16);;
      '(a, pic) ← accept_interrupt pic;
      Ret (match a with None => None | Some _ => Some vector end, d, pic)
  | LapicLvtLint0 lint0_vector irq_line =>
      rassert (irq_line <? 16);;
      '(a, pic) ← accept_interrupt pic;
      Ret (match a with None => None | Some _ => Some lint0_vector end, d, pic)
  | Lapic vector => d ← commit_interrupt cpu_id vector d; Ret (Some vector, d, pic)
  end.

(** The order in which a map lists its keys is its own. *)
Class KeyOrder := any_key : gmap Z LocalApicState → option Z.
Class KeyOrderSpec `{KeyOrder} : Prop := {
  any_key_some m k : any_key m = Some k → is_Some (m !! k);
  any_key_none m : any_key m = None → m = ∅
}.

Section lapic.
Context `{KeyOrder}.

Definition resolve_destination (apic_id : Z) d : option Z :=
  match apic_map d !! apic_id with
  | Some c => Some c
  | None => if decide (is_Some (lapic_state d !! apic_id)) then Some apic_id else any_key (lapic_state d)
  end.

Definition lapic_set_irq (apic_id vector : Z) d : res LocalApicDevice :=
  match resolve_destination apic_id d with
  | None => Ret d
  | Some cpu_id =>
      match lapic_state d !! cpu_id with
      | None => Ret d
      | Some state =>
          if vector <? 16 then Ret d
          else
            let reg_idx := vector / 32 in
            let m := bit (vector mod 32) in
            i ← index (isr state) reg_idx;
            r ← index (irr state) reg_idx;
            served ← (if negb (Z.land i m =? 0) && (Z.land r m =? 0) then clear_at reg_idx m (isr state) else Ret (isr state));
            ir ← or_at reg_idx m (irr state);
            Ret (put_lapic cpu_id (state <| isr := served |> <| irr := ir |>) d)
      end
  end.

Definition inject_ipi (apic_id delivery_mode vector : Z) d : res LocalApicDevice :=
  if delivery_mode =? 0 then
    if 16 <=? vector then lapic_set_irq apic_id vector d else Ret d
  else Crash Panic.

Definition dispatch_ipi (apic_id dest_shorthand delivery_mode vector : Z) d : res LocalApicDevice :=
  if (dest_shorthand =? 1) || (dest_shorthand =? 2) then inject_ipi apic_id delivery_mode vector d
  else Crash Panic.

(** [now] and [now'] are the readings for the elapsed time and for the start of
    the next period. *)
Definition check_lapic_timer (now now' cpu_id : Z) d : res LocalApicDevice :=
  state ← lapic_of cpu_id d;
  if negb (timer_on state) || (initial_count state =? 0) || (start_guest_tsc state =? 0) then Ret d
  else
    let vector := Z.land (lvt_timer state) 0xFF in
    if (vector <? 16) || negb (Z.land (lvt_timer state) LVT_MASKED =? 0) then
      Ret (put_lapic cpu_id (state <| timer_on := false |>) d)
    else
      elapsed_lapic_ticks ← lapic_ticks_elapsed (guest_clock d) now (start_guest_tsc state) (divide_config_register state);
      if initial_count state <=? elapsed_lapic_ticks then
        let state :=
          if negb (Z.land (lvt_timer state) LVT_TIMER_PERIODIC =? 0) then state <| start_guest_tsc := now' |>
          else state <| initial_count := 0 |> <| timer_on := false |> in
        lapic_set_irq cpu_id vector (put_lapic cpu_id state d)
      else Ret d.

(** ** Registers of a local controller *)

Definition REG_ID : Z := 0x20.
Definition REG_VERSION : Z := 0x30.
Definition REG_TPR : Z := 0x80.
Definition REG_EOI : Z := 0xB0.
Definition REG_LDR : Z := 0xD0.
Definition REG_DFR : Z := 0xE0.
Definition REG_SVR : Z := 0xF0.
Definition REG_ESR : Z := 0x280.
Definition REG_ICR_LOW : Z := 0x300.
Definition REG_ICR_HIGH : Z := 0x310.
Definition REG_LVT_TIMER : Z := 0x320.
Definition REG_LVT_LINT0 : Z := 0x350.
Definition REG_LVT_LINT1 : Z := 0x360.
Definition REG_LVT_ERROR : Z := 0x370.
Definition REG_INITIAL_COUNT : Z := 0x380.
Definition REG_CURRENT_COUNT : Z := 0x390.
Definition REG_DCR : Z := 0x3E0.

Definition current_count g (now : Z) s : res Z :=
  if (initial_count s =? 0) || (start_guest_tsc s =? 0) then Ret 0
  else
    elapsed ← lapic_ticks_elapsed g now (start_guest_tsc s) (divide_config_register s);
    let count := initial_count s in
    let remaining :=
      if count <=? elapsed then
        if negb (Z.land (lvt_timer s) LVT_TIMER_PERIODIC =? 0) then count - elapsed mod count else 0
      else count - elapsed in
    Ret (Z.land remaining 0xFFFFFFFF).

Definition lapic_mmio_read (now cpu_id addr : Z) d : res Z :=
  state ← lapic_of cpu_id d;
  offset ← sub_chk U64 addr (base_address state);
  if offset =? REG_ID then Ret (Z.shiftl cpu_id 24 mod U64)
  else if offset =? REG_VERSION then Ret (version state)
  else if offset =? REG_SVR then Ret (spurious_vector state)
  else if offset =? REG_TPR then Ret (tpr state)
  else if offset =? REG_DFR then Ret (dfr state)
  else if offset =? REG_LDR then Ret (ldr state)
  else if offset =? REG_LVT_LINT0 then Ret (lvt_lint0 state)
  else if offset =? REG_LVT_LINT1 then Ret (lvt_lint1 state)
  else if offset =? REG_LVT_TIMER then Ret (lvt_timer state)
  else if offset =? REG_ESR then Ret 0
  else if offset =? REG_DCR then Ret (divide_config_register state)
  else if (0x100 <=? offset) && (offset <=? 0x170) then Ret (byte_at (isr state) ((offset - 0x100) / 0x10))
  else if (0x200 <=? offset) && (offset <=? 0x270) then Ret (byte_at (irr state) ((offset - 0x200) / 0x10))
  else if offset =? REG_ICR_LOW then Ret (Z.land (icr_low state) (wnot 32 ICR_DELIVERY_STATUS_MASK))
  else if offset =? REG_ICR_HIGH then Ret (icr_high state)
  else if offset =? REG_CURRENT_COUNT then current_count (guest_clock d) now state
  else Crash Panic.

(** The write to [REG_EOI]: the highest vector in service ends, and with line
    0 in virtual wire mode the other controller is told as well. *)
Definition lapic_eoi s (pic : Pic) : res (LocalApicState * Pic) :=
  served ← (match highest_vector (isr s) with
        | Some v => clear_at (v / 32) (bit (v mod 32)) (isr s)
        | None => Ret (isr s)
        end);
  let s := s <| isr := served |> in
  if (Z.land (lvt_lint0 s) LVT_MASKED =? 0) && (Z.land (Z.shiftr (lvt_lint0 s) 8) 0x7 =? 7)
  then pic ← handle_eoi true pic; Ret (s, pic)
  else Ret (s, pic).

Definition lapic_mmio_write (now cpu_id addr value : Z) d (pic : Pic) : res (LocalApicDevice * Pic) :=
  state ← lapic_of cpu_id d;
  offset ← sub_chk U64 addr (base_address state);
  let put state := Ret (put_lapic cpu_id state d, pic) in
  let low := value mod U32 in
  if offset =? REG_SVR then
    put (state <| spurious_vector := value |> <| is_enabled := negb (Z.land value SVR_APIC_ENABLE =? 0) |>)
  else if offset =? REG_EOI then
    '(state, pic) ← lapic_eoi state pic; Ret (put_lapic cpu_id state d, pic)
  else if offset =? REG_ICR_HIGH then put (state <| icr_high := low |>)
  else if offset =? REG_ICR_LOW then
    let d := put_lapic cpu_id (state <| icr_low := Z.land low (wnot 32 ICR_DELIVERY_STATUS_MASK) |>) d in
    d ← dispatch_ipi (la_id state) (Z.land (Z.shiftr value 18) 0x03) (Z.land (Z.shiftr value 8) 0x07) (Z.land value 0xFF) d;
    Ret (d, pic)
  else if offset =? REG_LVT_ERROR then put (state <| lvt_error := Z.land low 0x100FF |>)
  else if offset =? REG_DCR then put (state <| divide_config_register := Z.land low 0xB |>)
  else if offset =? REG_INITIAL_COUNT then
    put (state <| initial_count := low |> <| start_guest_tsc := now |>
           <| timer_on := negb (low =? 0) && (Z.land (lvt_timer state) LVT_MASKED =? 0) |>)
  else if offset =? REG_LVT_TIMER then
    let state := state <| lvt_timer := low |> in
    if negb (Z.land value LVT_MASKED =? 0) || (Z.land value 0xFF <? 16) then put (state <| timer_on := false |>)
    else if negb (initial_count state =? 0) then put (state <| timer_on := true |> <| start_guest_tsc := now |>)
    else put state
  else if offset =? REG_LDR then put (state <| ldr := value |>)
  else if offset =? REG_DFR then put (state <| dfr := value |>)
  else if offset =? REG_TPR then put (state <| tpr := value |>)
  else if offset =? REG_LVT_LINT0 then put (state <| lvt_lint0 := Z.land low 0x117FF |>)
  else if offset =? REG_LVT_LINT1 then put (state <| lvt_lint1 := Z.land low 0x117FF |>)
  else if offset =? REG_ESR then Ret (d, pic)
  else Crash Panic.

End lapic.

(** ** The I/O controller *)

Record ApicRedirectionEntry := mkRedirection { lower : Z; upper : Z }.
#[global] Instance eta_redirection : Eta ApicRedirectionEntry := λ e, mkRedirection (lower e) (upper e).
Implicit Types e : ApicRedirectionEntry.

Definition entry_is_masked e : bool := negb (Z.land (lower e) (bit 16) =? 0).
Definition entry_vector e : Z := Z.land (lower e) 0xFF.
Definition delivery_mode e : Z := Z.land (Z.shiftr (lower e) 8) 0x7.
Definition destination_id e : Z := Z.shiftr (upper e) 24 mod U8.
Definition destination_mode e : bool := negb (Z.land (lower e) (bit 11) =? 0).

Record VirtualIoApic := mkIoApic {
  selected_register : Z;
  io_id : Z;
  redirection_table : list ApicRedirectionEntry;
  arb_reg : Z
}.
#[global] Instance eta_io_apic : Eta VirtualIoApic := λ a,
  mkIoApic (selected_register a) (io_id a) (redirection_table a) (arb_reg a).
Implicit Types a : VirtualIoApic.

Definition io_apic_new (id : Z) : VirtualIoApic := mkIoApic 0 id (replicate 24 (mkRedirection (bit 16) 0)) 0.

Definition is_pin_masked (pin : Z) a : res bool :=
  if zlen (redirection_table a) <=? pin then Ret true
  else e ← index (redirection_table a) pin; Ret (entry_is_masked e || (entry_vector e <? 16)).

Definition write_selected_register (value : Z) a : res VirtualIoApic :=
  let reg := selected_register a in
  if reg =? 0x00 then Ret (a <| io_id := Z.land (Z.shiftr value 24) 0x0F |>)
  else if reg =? 0x01 then Ret a
  else if reg =? 0x02 then Ret (a <| arb_reg := value |>)
  else if (0x10 <=? reg) && (reg <=? 0x3F) then
    let i := (reg - 0x10) / 2 in
    if i <? zlen (redirection_table a) then
      e ← index (redirection_table a) i;
      t ← store (redirection_table a) i
            (if negb ((reg - 0x10) mod 2 =? 0) then e <| upper := value |> else e <| lower := value |>);
      Ret (a <| redirection_table := t |>)
    else Ret a
  else Crash Panic.

Definition read_selected_register a : res Z :=
  let reg := selected_register a in
  if reg =? 0x00 then Ret (Z.shiftl (Z.land (io_id a) 0x0F) 24)
  else if reg =? 0x01 then Ret (Z.lor (Z.shiftl 23 16) 0x11)
  else if reg =? 0x02 then Ret (arb_reg a)
  else if (0x10 <=? reg) && (reg <=? 0x3F) then
    let i := (reg - 0x10) / 2 in
    if i <? zlen (redirection_table a) then
      e ← index (redirection_table a) i;
      Ret (if negb ((reg - 0x10) mod 2 =? 0) then upper e else lower e)
    else Ret 0
  else Crash Panic.

Definition io_apic_mmio_write (addr value : Z) a : res VirtualIoApic :=
  let offset := Z.land addr 0xFF in
  if offset =? 0x00 then Ret (a <| selected_register := value mod U32 |>)
  else if offset =? 0x10 then write_selected_register (value mod U32) a
  else Crash Panic.

Definition io_apic_mmio_read (addr : Z) a : res Z :=
  let offset := Z.land addr 0xFF in
  if offset =? 0x00 then Ret (selected_register a)
  else if offset =? 0x10 then read_selected_register a
  else Crash Panic.

(** ** The controllers of one guest *)

Record Irqs := mkIrqs { pic : Pic; lapics : LocalApicDevice; io_apic : VirtualIoApic }.
#[global] Instance eta_irqs : Eta Irqs := λ x, mkIrqs (pic x) (lapics x) (io_apic x).
Implicit Types x : Irqs.

Section io_apic.
Context `{KeyOrder}.

Definition io_apic_set_irq (pin : Z) (level : bool) x : res Irqs :=
  if zlen (redirection_table (io_apic x)) <=? pin then Ret x
  else
    entry ← index (redirection_table (io_apic x)) pin;
    if negb level then Ret x
    else if entry_is_masked entry then Ret x
    else
      let vector := entry_vector entry in
      if vector <? 16 then Ret x
      else
        let mode := delivery_mode entry in
        if negb (mode =? 0) && negb (mode =? 1) then Ret x
        else d ← lapic_set_irq (destination_id entry) vector (lapics x); Ret (x <| lapics := d |>).

End io_apic.
