(* ===== verification/GuestLapic.v ===== *)
(** * Local interrupt controllers: priorities

    The maps of [GuestApic] as sets of vectors, and that a local controller
    implements the promise [Sets]: it keeps every request until it is accepted,
    offers the highest, and offers nothing that does not have priority over the
    processor and over what is in service.  Its use by [run] of
    [intel/vcpu.rs], and that a guest which ends its interrupts receives every
    request, in the order of priority. *)

From stdpp Require Import gmap sorting.
From S2P Require Import Prelude Bits GuestPic GuestApic.

#[local] Abbreviation Pic := ProgrammableInterruptControllerDevice.
Implicit Types (s : LocalApicState) (d : LocalApicDevice) (x : Irqs).

(** ** Vector maps as sets *)

Definition has (regs : list Z) (v : Z) : bool := Z.testbit (byte_at regs (v / 32)) (v mod 32).
Definition bitmap (regs : list Z) : Prop := zlen regs = 8 ∧ ∀ i, 0 ≤ i < 8 → word 32 (byte_at regs i).

(** [v] is the highest vector of the map. *)
Definition highest (regs : list Z) (v : Z) : Prop :=
  0 ≤ v < 256 ∧ has regs v = true ∧ ∀ u, v < u < 256 → has regs u = false.

Lemma vector_split v : 0 ≤ v < 256 → 0 ≤ v / 32 < 8 ∧ 0 ≤ v mod 32 < 32.
Proof. intros. split; mlia. Qed.

Lemma highest_below_spec n regs : bitmap regs → (n ≤ 8)%nat →
  match highest_below n regs with
  | Some v => 0 ≤ v < 32 * Z.of_nat n ∧ has regs v = true ∧ ∀ u, v < u < 32 * Z.of_nat n → has regs u = false
  | None => ∀ u, 0 ≤ u < 32 * Z.of_nat n → has regs u = false
  end.
Proof.
  intros [Hl Hw] Hn. induction n as [|n IH]; cbn [highest_below]; [intros; lia|].
  specialize (IH ltac:(lia)). specialize (Hw (Z.of_nat n) ltac:(lia)). set (w := byte_at regs (Z.of_nat n)) in *.
  assert (∀ u, 32 * Z.of_nat n ≤ u < 32 * Z.of_nat (S n) → has regs u = Z.testbit w (u - 32 * Z.of_nat n)) as Hu.
  { intros u ?. unfold has, w. f_equal; [f_equal|]; mlia. }
  destruct (Z.eqb_spec w 0) as [E|Hz].
  - assert (∀ u, 32 * Z.of_nat n ≤ u < 32 * Z.of_nat (S n) → has regs u = false) as Hf
      by (intros; rewrite Hu, E by lia; apply Z.testbit_0_l).
    destruct (highest_below n regs) as [v|].
    + destruct IH as (? & ? & Ha). split; [lia|]. split; [assumption|]. intros u ?.
      destruct (decide (u < 32 * Z.of_nat n)); [apply Ha; lia|apply Hf; lia].
    + intros u ?. destruct (decide (u < 32 * Z.of_nat n)); [apply IH; lia|apply Hf; lia].
  - assert (31 - leading_zeros 32 w = Z.log2 w) as ->
      by (unfold leading_zeros; rewrite (proj2 (Z.eqb_neq w 0)) by assumption; lia).
    pose proof (high_bit_word 32 w ltac:(lia) Hw). split; [lia|].
    split; [rewrite Hu by lia; replace (_ - _) with (Z.log2 w) by lia; apply Z.bit_log2; unfold word in Hw; lia|].
    intros u ?. rewrite Hu by lia. apply Z.bits_above_log2; [apply Hw|lia].
Qed.

Lemma highest_vector_spec regs : bitmap regs →
  match highest_vector regs with
  | Some v => highest regs v
  | None => ∀ u, 0 ≤ u < 256 → has regs u = false
  end.
Proof. intros. exact (highest_below_spec 8 regs H ltac:(lia)). Qed.

Lemma highest_unique regs v : bitmap regs → highest regs v → highest_vector regs = Some v.
Proof.
  intros Hb (Hr & Hv & Ha). pose proof (highest_vector_spec regs Hb) as Hs. destruct (highest_vector regs) as [u|].
  - destruct Hs as (? & Hu & Hua). f_equal. destruct (decide (u < v)); [by rewrite Hua in Hv by lia|].
    destruct (decide (v < u)); [by rewrite Ha in Hu by lia|lia].
  - by rewrite Hs in Hv by lia.
Qed.

Lemma update_word (f : Z → Z) regs v : bitmap regs → 0 ≤ v < 256 → (∀ w, word 32 w → word 32 (f w)) →
  ∃ regs', (w ← index regs (v / 32); store regs (v / 32) (f w)) = Ret regs' ∧ bitmap regs' ∧
    ∀ u, 0 ≤ u < 256 → has regs' u = if u / 32 =? v / 32 then Z.testbit (f (byte_at regs (v / 32))) (u mod 32) else has regs u.
Proof.
  intros [Hl Hw] Hv Hf. destruct (vector_split v Hv) as [? ?].
  rewrite index_ret, ret_bind, store_ret by lia. eexists. split; [reflexivity|].
  assert (∀ i, 0 ≤ i < 8 → byte_at (splice regs (v / 32) [f (byte_at regs (v / 32))]) i =
    if i =? v / 32 then f (byte_at regs (v / 32)) else byte_at regs i) as Hb.
  { intros i ?. rewrite byte_at_splice by (rewrite ?zlen_cons, ?zlen_nil; lia). rewrite zlen_cons, zlen_nil.
    destruct (Z.eqb_spec i (v / 32)) as [->|].
    - rewrite (proj2 (andb_true_iff _ _)) by lia. by rewrite Z.sub_diag.
    - by rewrite (proj2 (andb_false_iff _ _)) by lia. }
  split; [split|].
  - rewrite zlen_splice by (rewrite ?zlen_cons, ?zlen_nil; lia). assumption.
  - intros i ?. rewrite Hb by lia. case_match; [by apply Hf, Hw|by apply Hw].
  - intros u ?. destruct (vector_split u) as [? ?]; [lia|]. unfold has. rewrite Hb by lia. by case_match.
Qed.

Lemma or_at_spec regs v : bitmap regs → 0 ≤ v < 256 → ∃ regs',
  or_at (v / 32) (bit (v mod 32)) regs = Ret regs' ∧ bitmap regs' ∧ ∀ u, 0 ≤ u < 256 → has regs' u = has regs u || (u =? v).
Proof.
  intros Hb Hv. destruct (vector_split v Hv) as [? ?].
  destruct (update_word (λ w, Z.lor w (bit (v mod 32))) regs v Hb Hv) as (r & E & Hr & Hh); [auto with bits lia|].
  exists r. split; [exact E|]. split; [assumption|]. intros u ?. destruct (vector_split u) as [? ?]; [lia|].
  rewrite Hh, Z.lor_spec, testbit_bit by lia. unfold has. destruct (Z.eqb_spec (u / 32) (v / 32)) as [Euv|].
  - rewrite Euv. f_equal. apply Bool.eq_iff_eq_true. rewrite !Z.eqb_eq. split; [|by intros ->]. mlia.
  - rewrite (proj2 (Z.eqb_neq u v)) by congruence. by rewrite orb_false_r.
Qed.

Lemma clear_at_spec regs v : bitmap regs → 0 ≤ v < 256 → ∃ regs',
  clear_at (v / 32) (bit (v mod 32)) regs = Ret regs' ∧ bitmap regs' ∧
  ∀ u, 0 ≤ u < 256 → has regs' u = has regs u && negb (u =? v).
Proof.
  intros Hb Hv. destruct (vector_split v Hv) as [? ?].
  destruct (update_word (λ w, Z.land w (wnot 32 (bit (v mod 32)))) regs v Hb Hv) as (r & E & Hr & Hh); [auto with bits lia|].
  exists r. split; [exact E|]. split; [assumption|]. intros u ?. destruct (vector_split u) as [? ?]; [lia|].
  rewrite Hh, Z.land_spec, testbit_wnot, testbit_bit by lia. unfold has. destruct (Z.eqb_spec (u / 32) (v / 32)) as [Euv|].
  - rewrite Euv. f_equal. f_equal. apply Bool.eq_iff_eq_true. rewrite !Z.eqb_eq. split; [|by intros ->]. mlia.
  - rewrite (proj2 (Z.eqb_neq u v)) by congruence. by rewrite andb_true_r.
Qed.

Lemma has_mask regs v : bitmap regs → 0 ≤ v < 256 →
  index regs (v / 32) = Ret (byte_at regs (v / 32)) ∧
  (Z.land (byte_at regs (v / 32)) (bit (v mod 32)) =? 0) = negb (has regs v).
Proof.
  intros [Hl Hw] Hv. destruct (vector_split v Hv) as [? ?]. split; [apply index_ret; lia|].
  unfold has. destruct (Z.testbit _ (v mod 32)) eqn:Ht; simpl.
  - apply Z.eqb_neq. apply (nonzero_of_bit _ (v mod 32)). by rewrite Z.land_spec, testbit_bit, Ht, Z.eqb_refl by lia.
  - apply Z.eqb_eq. apply (no_bits 32); [lia|apply word_land; [lia|apply Hw; lia]|]. intros i ?.
    rewrite Z.land_spec, testbit_bit by lia. destruct (Z.eqb_spec i (v mod 32)) as [->|]; [by rewrite Ht|apply andb_false_r].
Qed.

Definition vectors (regs : list Z) : gset Z := list_to_set (filter (λ v, has regs v = true) (seqZ 0 256)).

Lemma elem_of_vectors regs v : v ∈ vectors regs ↔ 0 ≤ v < 256 ∧ has regs v = true.
Proof.
  unfold vectors. rewrite elem_of_list_to_set, list_elem_of_filter, elem_of_seqZ. naive_solver lia.
Qed.

Lemma vectors_eq regs (X : gset Z) : (∀ v, v ∈ X → 0 ≤ v < 256) →
  (∀ v, 0 ≤ v < 256 → has regs v = true ↔ v ∈ X) → vectors regs = X.
Proof. intros HX Hh. apply set_eq. intros v. rewrite elem_of_vectors. naive_solver. Qed.

(** ** What a local controller promises: a set of requests and a set of vectors
    in service, always answering the highest *)

Record Sets := mkSets { requests : gset Z; serving : gset Z }.
Definition abstract s : Sets := mkSets (vectors (irr s)) (vectors (isr s)).

Definition top (X : gset Z) (v : Z) : Prop := v ∈ X ∧ ∀ u, u ∈ X → u ≤ v.
Definition class_of (v : Z) : Z := v / 16.

Definition request_spec (v : Z) (A : Sets) : Sets :=
  mkSets ({[v]} ∪ requests A) (if decide (v ∈ requests A) then serving A else serving A ∖ {[v]}).
Definition take_spec (v : Z) (A : Sets) : Sets := mkSets (requests A ∖ {[v]}) ({[v]} ∪ serving A).
Definition eoi_spec (A B : Sets) : Prop :=
  requests B = requests A ∧
  ((∃ v, top (serving A) v ∧ serving B = serving A ∖ {[v]}) ∨ (serving A = ∅ ∧ serving B = ∅)).

(** The controller may be asked to deliver [v]: the highest request, in a class
    above the processor's threshold and above everything in service. *)
Definition deliverable (threshold : Z) (A : Sets) (v : Z) : Prop :=
  top (requests A) v ∧ threshold < class_of v ∧ ∀ u, u ∈ serving A → class_of u < class_of v.

Record lapic_ok s : Prop := {
  ok_irr : bitmap (irr s);
  ok_isr : bitmap (isr s);
  ok_requests : ∀ v, v ∈ vectors (irr s) → 16 ≤ v;
  ok_serving : ∀ v, v ∈ vectors (isr s) → 16 ≤ v
}.

Lemma vectors_or regs regs' v : 0 ≤ v < 256 → (∀ u, 0 ≤ u < 256 → has regs' u = has regs u || (u =? v)) →
  vectors regs' = {[v]} ∪ vectors regs.
Proof.
  intros Hv Hh. apply vectors_eq.
  - intros u. rewrite elem_of_union, elem_of_singleton, elem_of_vectors. naive_solver.
  - intros u ?. rewrite Hh, orb_true_iff, Z.eqb_eq, elem_of_union, elem_of_singleton, elem_of_vectors by lia. naive_solver.
Qed.

Lemma vectors_clear regs regs' v : (∀ u, 0 ≤ u < 256 → has regs' u = has regs u && negb (u =? v)) →
  vectors regs' = vectors regs ∖ {[v]}.
Proof.
  intros Hh. apply vectors_eq.
  - intros u. rewrite elem_of_difference, elem_of_vectors. naive_solver.
  - intros u ?. rewrite Hh, andb_true_iff, negb_true_iff, Z.eqb_neq, elem_of_difference, elem_of_singleton, elem_of_vectors by lia.
    naive_solver.
Qed.

Lemma highest_top regs : bitmap regs →
  match highest_vector regs with Some v => top (vectors regs) v | None => vectors regs = ∅ end.
Proof.
  intros Hb. pose proof (highest_vector_spec regs Hb) as Hs. destruct (highest_vector regs) as [v|].
  - destruct Hs as (? & ? & Ha). split; [by apply elem_of_vectors|]. intros u [? Hu]%elem_of_vectors.
    destruct (decide (v < u)); [by rewrite Ha in Hu by lia|lia].
  - apply vectors_eq; [set_solver|]. intros v ?. rewrite Hs by lia. set_solver.
Qed.

Lemma top_highest regs v : bitmap regs → top (vectors regs) v → highest_vector regs = Some v.
Proof.
  intros Hb [[? Hv]%elem_of_vectors Ht]. apply highest_unique; [assumption|]. split; [assumption|]. split; [assumption|].
  intros u ?. destruct (has regs u) eqn:Hu; [|done]. assert (u ∈ vectors regs) as Hm by (apply elem_of_vectors; split; [lia|assumption]).
  specialize (Ht u Hm). lia.
Qed.

(** ** The operations implement the promise *)

Lemma lapic_of_ret cpu d s : lapic_state d !! cpu = Some s → lapic_of cpu d = Ret s.
Proof. intros E. unfold lapic_of. by rewrite E. Qed.

Lemma put_lookup cpu s d : lapic_state (put_lapic cpu s d) !! cpu = Some s.
Proof. apply lookup_insert_eq. Qed.

Lemma lapic_set_irq_spec `{KeyOrder} apic cpu v d s :
  resolve_destination apic d = Some cpu → lapic_state d !! cpu = Some s → lapic_ok s → 16 ≤ v < 256 →
  ∃ r i, let s' := s <| isr := i |> <| irr := r |> in
    lapic_set_irq apic v d = Ret (put_lapic cpu s' d) ∧ lapic_ok s' ∧ abstract s' = request_spec v (abstract s).
Proof.
  intros Hr Hs [Hi Hv Hq Hw] Hb. unfold lapic_set_irq. rewrite Hr, Hs, (proj2 (Z.ltb_ge v 16)) by lia.
  destruct (has_mask (isr s) v Hv ltac:(lia)) as [E1 M1]. destruct (has_mask (irr s) v Hi ltac:(lia)) as [E2 M2].
  cbv zeta. rewrite E1, ret_bind, E2, ret_bind, M1, M2, negb_involutive.
  destruct (or_at_spec (irr s) v Hi ltac:(lia)) as (r & Er & Hr' & Hro).
  destruct (clear_at_spec (isr s) v Hv ltac:(lia)) as (c & Ec & Hc & Hco).
  pose proof (vectors_or _ _ v ltac:(lia) Hro) as Sr. pose proof (vectors_clear _ _ v Hco) as Sc.
  rewrite Ec, Er. unfold abstract, request_spec. destruct (has (isr s) v && negb (has (irr s) v)) eqn:Hcase.
  - exists r, c. cbv zeta. rewrite !ret_bind. split; [reflexivity|]. rsimp. rewrite Sr, Sc. cbn [requests serving].
    split; [constructor; rsimp; rewrite ?Sr, ?Sc; set_solver by lia|]. rewrite decide_False; [done|].
    rewrite elem_of_vectors. destruct (has (irr s) v); [by rewrite andb_false_r in Hcase|naive_solver].
  - exists r, (isr s). cbv zeta. rewrite !ret_bind. split; [reflexivity|]. rsimp. rewrite Sr. cbn [requests serving].
    split; [constructor; rsimp; rewrite ?Sr; set_solver by lia|]. case_decide as Hd; [done|]. f_equal.
    apply set_eq. intros u. rewrite elem_of_difference, elem_of_singleton. split; [|naive_solver]. intros Hu.
    split; [assumption|]. intros ->. apply elem_of_vectors in Hu as [_ Hu]. rewrite elem_of_vectors in Hd.
    destruct (has (irr s) v); [naive_solver lia|by rewrite Hu in Hcase].
Qed.

Lemma commit_interrupt_spec cpu v d s : lapic_state d !! cpu = Some s → lapic_ok s → 16 ≤ v < 256 →
  ∃ r i, let s' := s <| irr := r |> <| isr := i |> in
    commit_interrupt cpu v d = Ret (put_lapic cpu s' d) ∧ lapic_ok s' ∧ abstract s' = take_spec v (abstract s).
Proof.
  intros Hs [Hi Hv Hq Hw] Hb. unfold commit_interrupt. rewrite (lapic_of_ret cpu d s Hs), ret_bind.
  destruct (clear_at_spec (irr s) v Hi ltac:(lia)) as (r & -> & Hr & Hro).
  destruct (or_at_spec (isr s) v Hv ltac:(lia)) as (c & Ec & Hc & Hco). cbv zeta. rewrite ret_bind, Ec, ret_bind.
  pose proof (vectors_or _ _ v ltac:(lia) Hco) as Sc. pose proof (vectors_clear _ _ v Hro) as Sr.
  exists r, c. split; [reflexivity|]. unfold abstract, take_spec. rsimp. rewrite Sr, Sc.
  split; [|done]. constructor; rsimp; rewrite ?Sr, ?Sc; set_solver by lia.
Qed.

Lemma lapic_eoi_spec s (pic : Pic) : lapic_ok s → pic_ok pic →
  ∃ i pic', let s' := s <| isr := i |> in
    lapic_eoi s pic = Ret (s', pic') ∧ lapic_ok s' ∧ eoi_spec (abstract s) (abstract s') ∧
    pic_ok pic' ∧ pic' = pic <| pic_isr := pic_isr pic' |>.
Proof.
  intros [Hi Hv Hq Hw] Hp. unfold lapic_eoi, eoi_spec, abstract. pose proof (highest_top (isr s) Hv) as Ht.
  assert (∃ pic', (∀ s', (if (Z.land (lvt_lint0 s) LVT_MASKED =? 0) && (Z.land (Z.shiftr (lvt_lint0 s) 8) 7 =? 7)
    then pic0 ← handle_eoi true pic; Ret (s', pic0) else Ret (s', pic)) = Ret (s', pic')) ∧ pic_ok pic' ∧
    pic' = pic <| pic_isr := pic_isr pic' |>) as (pic' & Ep & Hp' & Fp).
  { destruct (handle_eoi_master pic Hp) as (q & -> & ? & ? & _). destruct (_ && _); [by exists q|].
    exists pic. split; [done|]. split; [assumption|by destruct pic]. }
  destruct (highest_vector (isr s)) as [v|].
  - destruct Ht as [Hv' Htop]. pose proof (proj1 (elem_of_vectors _ _) Hv') as [? _].
    destruct (clear_at_spec (isr s) v Hv ltac:(lia)) as (c & -> & Hc & Hco). pose proof (vectors_clear _ _ v Hco) as Sc.
    exists c, pic'. rewrite ret_bind. cbv zeta. rsimp. split; [apply Ep|].
    split; [constructor; rsimp; rewrite ?Sc; set_solver by lia|]. split; [|by split]. cbn [requests serving].
    split; [done|]. left. exists v. by rewrite Sc.
  - exists (isr s), pic'. rewrite ret_bind. cbv zeta. rsimp. split; [apply Ep|]. split; [by constructor|].
    split; [|by split]. cbn [requests serving]. split; [done|]. right. by rewrite Ht.
Qed.

(** The threshold of the processor. *)
Definition threshold s (guest_tpr : Z) : Z := Z.shiftr (Z.max (tpr s) guest_tpr) 4 mod U8.

(** No line of the old controller waits. *)
Definition pic_quiet (pic : Pic) : Prop := check_pending pic = None.

Lemma isr_priority_spec s c : lapic_ok s → 0 < c →
  isr_priority s < c ↔ ∀ u, u ∈ vectors (isr s) → class_of u < c.
Proof.
  intros [_ Hv _ _] Hc. unfold isr_priority, class_of. pose proof (highest_top (isr s) Hv) as Ht.
  destruct (highest_vector (isr s)) as [v|].
  - rewrite Z.shiftr_div_pow2 by lia. change (2 ^ 4) with 16. destruct Ht as [Hin Ht]. split; [|naive_solver].
    intros Hlt u Hu. eapply Z.le_lt_trans; [|exact Hlt]. apply Z.div_le_mono; [lia|by apply Ht].
  - rewrite Ht. split; [set_solver|lia].
Qed.

Lemma find_highest_spec s t v : lapic_ok s → 0 ≤ t →
  find_highest_pending_lapic_irq s t (isr_priority s) = Some v ↔ deliverable t (abstract s) v.
Proof.
  intros Hs Ht. unfold find_highest_pending_lapic_irq, deliverable, abstract. cbn [requests serving].
  pose proof (highest_top (irr s) (ok_irr s Hs)) as Hh. assert (∀ u, Z.shiftr u 4 = class_of u) as Hc.
  { intros. unfold class_of. by rewrite Z.shiftr_div_pow2 by lia. }
  split.
  - destruct (highest_vector (irr s)) as [u|]; [|done]. rewrite Hc. intros Hif.
    destruct ((t <? class_of u) && (isr_priority s <? class_of u)) eqn:Hb; [|done].
    injection Hif as <-. apply andb_true_iff in Hb as [?%Z.ltb_lt Hi%Z.ltb_lt]. split; [assumption|].
    split; [assumption|]. apply isr_priority_spec; [assumption|lia|assumption].
  - intros (Htop & Hlt & Hsv). rewrite (top_highest _ _ (ok_irr s Hs) Htop). rewrite Hc.
    apply isr_priority_spec in Hsv; [|assumption|lia]. by rewrite (proj2 (Z.ltb_lt _ _) Hlt), (proj2 (Z.ltb_lt _ _) Hsv).
Qed.

Lemma get_pending_quiet cpu d s (pic : Pic) guest_tpr : lapic_state d !! cpu = Some s → pic_quiet pic →
  get_pending_interrupt cpu d pic guest_tpr =
  Ret (Lapic <$> find_highest_pending_lapic_irq s (threshold s guest_tpr) (isr_priority s)).
Proof.
  intros Hs Hp. unfold get_pending_interrupt, peek_pending. rewrite (lapic_of_ret cpu d s Hs), ret_bind, Hp.
  cbv zeta. rewrite ret_bind. by case_match.
Qed.

(** ** Injection before the guest runs

    The part of [run] that looks for an interrupt: [exception_pending],
    [interrupts_enabled] and [irq_blocked] are read from the control structure
    of the processor.  The result is the vector to inject and whether to ask
    for an exit when the guest can take interrupts. *)

Definition inject_pending (cpu guest_tpr : Z) (exception_pending interrupts_enabled irq_blocked : bool) x :
    res (option Z * bool * Irqs) :=
  pending ← get_pending_interrupt cpu (lapics x) (pic x) guest_tpr;
  if exception_pending then Ret (None, false, x)
  else match pending with
  | None => Ret (None, false, x)
  | Some interrupt =>
      if interrupts_enabled && negb irq_blocked then
        '(v, d, p) ← commit_delivered_interrupt interrupt (pic x) cpu (lapics x);
        Ret (v, false, x <| lapics := d |> <| pic := p |>)
      else Ret (None, true, x)
  end.

(** What a guest processor and the devices do to its controller. *)
Inductive lapic_op := Request (vector : Z) | Enter (interrupts_enabled : bool) | EndOfInterrupt.

Section ops.
Context `{KeyOrder}.
Variable (cpu : Z).

Definition guest_eoi x : res Irqs :=
  '(d, p) ← lapic_mmio_write 0 cpu (0xFEE00000 + REG_EOI) 0 (lapics x) (pic x);
  Ret (x <| lapics := d |> <| pic := p |>).

Definition lapic_step (o : lapic_op) x : res (option Z * Irqs) :=
  match o with
  | Request v => d ← lapic_set_irq cpu v (lapics x); Ret (None, x <| lapics := d |>)
  | Enter ie => '(v, _, x) ← inject_pending cpu 0 false ie false x; Ret (v, x)
  | EndOfInterrupt => x ← guest_eoi x; Ret (None, x)
  end.

Fixpoint lapic_run (os : list lapic_op) x : res (list (option Z) * Irqs) :=
  match os with
  | [] => Ret ([], x)
  | o :: os => '(v, x) ← lapic_step o x; '(vs, x) ← lapic_run os x; Ret (v :: vs, x)
  end.

End ops.

(** The same on sets. *)
Inductive sets_step (t : Z) : lapic_op → Sets → option Z → Sets → Prop :=
| sets_request v A : sets_step t (Request v) A None (if v <? 16 then A else request_spec v A)
| sets_deliver v A : deliverable t A v → sets_step t (Enter true) A (Some v) (take_spec v A)
| sets_idle ie A : (ie = true → ∀ v, ¬ deliverable t A v) → sets_step t (Enter ie) A None A
| sets_eoi A B : eoi_spec A B → sets_step t EndOfInterrupt A None B.

Inductive sets_run (t : Z) : list lapic_op → Sets → list (option Z) → Sets → Prop :=
| sets_nil A : sets_run t [] A [] A
| sets_cons o os A v B vs C : sets_step t o A v B → sets_run t os B vs C → sets_run t (o :: os) A (v :: vs) C.

(** Processor [cpu] has the state [s], and the old controller has nothing to
    deliver, whatever of it is in service. *)
Record at_cpu (cpu : Z) x s : Prop := {
  at_state : lapic_state (lapics x) !! cpu = Some s;
  at_dest : apic_map (lapics x) !! cpu = Some cpu;
  at_base : base_address s = 0xFEE00000;
  at_ok : lapic_ok s;
  at_pic : pic_ok (pic x);
  at_quiet : Z.land (pic_irr (pic x)) (wnot 16 (pic_imr (pic x))) = 0
}.

Section runs.
Context `{KeyOrder}.
Variable (cpu : Z).

Lemma at_resolve x s : at_cpu cpu x s → resolve_destination cpu (lapics x) = Some cpu.
Proof. intros [? Hd ? ? ? ?]. unfold resolve_destination. by rewrite Hd. Qed.

Lemma at_pic_quiet x s : at_cpu cpu x s → pic_quiet (pic x).
Proof. intros [? ? ? ? ? Hq]. unfold pic_quiet, check_pending. by rewrite Hq. Qed.

(** Another state for the processor, and other lines in service. *)
Lemma at_put x s s' p' : at_cpu cpu x s → base_address s' = base_address s → lapic_ok s' →
  pic_ok p' → p' = (pic x) <| pic_isr := pic_isr p' |> →
  at_cpu cpu (x <| lapics := put_lapic cpu s' (lapics x) |> <| pic := p' |>) s'.
Proof.
  intros [? ? ? ? ? Hq] Hb Hs Hp Fp. constructor; rsimp.
  - apply put_lookup.
  - assumption.
  - congruence.
  - assumption.
  - assumption.
  - rewrite Fp. exact Hq.
Qed.

Lemma at_set x s s' : at_cpu cpu x s → base_address s' = base_address s → lapic_ok s' →
  at_cpu cpu (x <| lapics := put_lapic cpu s' (lapics x) |>) s'.
Proof. intros [] ? ?. constructor; rsimp; try assumption; [apply put_lookup|congruence]. Qed.

Lemma guest_eoi_spec x s : at_cpu cpu x s → ∃ i p',
  let s' := s <| isr := i |> in
  let x' := x <| lapics := put_lapic cpu s' (lapics x) |> <| pic := p' |> in
  guest_eoi cpu x = Ret x' ∧ at_cpu cpu x' s' ∧ eoi_spec (abstract s) (abstract s').
Proof.
  intros Hx. destruct (lapic_eoi_spec s (pic x) (at_ok _ _ _ Hx) (at_pic _ _ _ Hx)) as (i & p' & E & Hs & Ha & Hp & Fp).
  exists i, p'. cbv zeta in *. split; [|split; [by apply (at_put x s)|assumption]].
  unfold guest_eoi, lapic_mmio_write. rewrite (lapic_of_ret cpu _ s (at_state _ _ _ Hx)), ret_bind.
  rewrite sub_chk_ret, ret_bind by (rewrite (at_base _ _ _ Hx); vm_compute; split; congruence).
  rewrite (at_base _ _ _ Hx). change (0xFEE00000 + REG_EOI - 0xFEE00000 =? REG_SVR) with false.
  change (0xFEE00000 + REG_EOI - 0xFEE00000 =? REG_EOI) with true. cbv iota zeta. by rewrite E.
Qed.

Lemma lapic_step_spec o x s : at_cpu cpu x s → (∀ v, o = Request v → v < 256) →
  ∃ v x' s', lapic_step cpu o x = Ret (v, x') ∧ at_cpu cpu x' s' ∧ sets_step (threshold s 0) o (abstract s) v (abstract s') ∧
    tpr s' = tpr s.
Proof.
  intros Hx Hv. pose proof (at_ok _ _ _ Hx) as Hs. assert (pic x = (pic x) <| pic_isr := pic_isr (pic x) |>) as Fx by by destruct (pic x).
  destruct o as [v|ie|].
  - destruct (Z.ltb_spec v 16) as [Hlt|Hge].
    + exists None, x, s. split; [|split; [assumption|split; [|done]]].
      * unfold lapic_step, lapic_set_irq. rewrite (at_resolve _ _ Hx), (at_state _ _ _ Hx), (proj2 (Z.ltb_lt v 16)) by lia.
        by destruct x.
      * pose proof (sets_request (threshold s 0) v (abstract s)) as Hr. by rewrite (proj2 (Z.ltb_lt v 16)) in Hr by lia.
    + destruct (lapic_set_irq_spec cpu cpu v (lapics x) s (at_resolve _ _ Hx) (at_state _ _ _ Hx) Hs) as (r & i & E & Ok & Ab);
        [specialize (Hv v eq_refl); lia|]. cbv zeta in *. set (s1 := s <| isr := i |> <| irr := r |>) in *.
      exists None, (x <| lapics := put_lapic cpu s1 (lapics x) |>), s1. split; [unfold lapic_step; rewrite E; reflexivity|].
      split; [exact (at_set x s s1 Hx eq_refl Ok)|]. split; [|done]. rewrite Ab.
      pose proof (sets_request (threshold s 0) v (abstract s)) as Hr. by rewrite (proj2 (Z.ltb_ge v 16)) in Hr by lia.
  - unfold lapic_step, inject_pending. rewrite (get_pending_quiet cpu _ s _ 0 (at_state _ _ _ Hx) (at_pic_quiet _ _ Hx)), ret_bind.
    assert (0 ≤ threshold s 0) by (apply Z.mod_pos_bound; done).
    destruct (find_highest_pending_lapic_irq s (threshold s 0) (isr_priority s)) as [v|] eqn:Ef; cbn [fmap option_fmap option_map].
    + destruct ie; cbn [andb negb].
      * apply find_highest_spec in Ef; [|assumption..]. pose proof Ef as ([Hin _] & _).
        pose proof (ok_requests s Hs v Hin). apply elem_of_vectors in Hin as [? _].
        destruct (commit_interrupt_spec cpu v (lapics x) s (at_state _ _ _ Hx) Hs) as (r & i & E & Ok & Ab); [lia|].
        cbv zeta in *. set (s1 := s <| irr := r |> <| isr := i |>) in *. cbn [commit_delivered_interrupt]. rewrite E.
        exists (Some v), (x <| lapics := put_lapic cpu s1 (lapics x) |> <| pic := pic x |>), s1. split; [reflexivity|].
        split; [exact (at_put x s s1 (pic x) Hx eq_refl Ok (at_pic _ _ _ Hx) Fx)|]. split; [|done]. rewrite Ab. by constructor.
      * exists None, x, s. split; [done|]. split; [assumption|]. split; [|done]. by constructor.
    + exists None, x, s. split; [done|]. split; [assumption|]. split; [|done]. constructor. intros _ v Hd.
      apply find_highest_spec in Hd; [congruence|assumption..].
  - destruct (guest_eoi_spec x s Hx) as (i & p' & E & Hx' & Ha). cbv zeta in *. do 3 eexists.
    split; [unfold lapic_step; rewrite E; reflexivity|]. split; [exact Hx'|]. split; [by constructor|done].
Qed.

Lemma lapic_run_spec os x s : at_cpu cpu x s → (∀ v, Request v ∈ os → v < 256) →
  ∃ vs x' s', lapic_run cpu os x = Ret (vs, x') ∧ at_cpu cpu x' s' ∧ sets_run (threshold s 0) os (abstract s) vs (abstract s').
Proof.
  revert x s. induction os as [|o os IH]; intros x s Hx Hv.
  - exists [], x, s. split; [done|]. split; [assumption|constructor].
  - destruct (lapic_step_spec o x s Hx) as (v & x1 & s1 & E & H1 & S1 & T1); [set_solver|].
    destruct (IH x1 s1 H1) as (vs & x2 & s2 & E2 & H2 & S2); [set_solver|].
    exists (v :: vs), x2, s2. cbn [lapic_run]. rewrite E, ret_bind, E2, ret_bind. split; [done|]. split; [assumption|].
    econstructor; [exact S1|]. unfold threshold in *. by rewrite T1 in S2.
Qed.

End runs.

(** ** Every request is served *)

(** A guest that takes an interrupt and ends it, [n] times. *)
Fixpoint rounds (n : nat) : list lapic_op :=
  match n with O => [] | S n => Enter true :: EndOfInterrupt :: rounds n end.

Definition injected (vs : list (option Z)) : list Z := omap id vs.

Lemma exists_top (X : gset Z) : X ≠ ∅ → ∃ v, top X v.
Proof.
  intros Hne. destruct (minimal_exists_elem_of (flip Z.le) X) as (v & Hv & Hm).
  { intros Hz. by apply Hne, leibniz_equiv. }
  exists v. split; [assumption|]. intros u Hu. destruct (decide (u ≤ v)); [assumption|]. specialize (Hm u Hu). unfold flip in Hm. lia.
Qed.

Lemma top_unique (X : gset Z) u v : top X u → top X v → u = v.
Proof. intros [Hu Tu] [Hv Tv]. specialize (Tu v Hv). specialize (Tv u Hu). lia. Qed.

Lemma rounds_drain n t A vs B : sets_run t (rounds n) A vs B → (size (requests A) ≤ n)%nat → serving A = ∅ →
  (∀ v, v ∈ requests A → t < class_of v) →
  StronglySorted Z.gt (injected vs) ∧ list_to_set (injected vs) = requests A ∧ requests B = ∅ ∧ serving B = ∅.
Proof.
  revert A vs. induction n as [|n IH]; intros A vs Hr Hsz Hsv Ht; cbn [rounds] in Hr.
  - inversion Hr; subst. assert (requests B = ∅) as E by (apply leibniz_equiv, size_empty_iff; lia).
    rewrite E. split; [constructor|]. split; [done|]. by split.
  - inversion Hr as [|? ? ? v A1 vs1 ? S1 Hr1]; subst. inversion Hr1 as [|? ? ? v2 A2 vs2 ? S2 Hr2]; subst. clear Hr Hr1.
    inversion S2 as [| | |? ? [Hq2 He2]]; subst. inversion S1 as [|v' ? Hd|? ? Hno|]; subst.
    + (* the highest request is taken and ended *)
      destruct Hd as (Htop & _). assert (requests A2 = requests A ∖ {[v']}) as Er by (by rewrite Hq2).
      assert (serving A2 = ∅) as Es.
      { cbn in He2. rewrite Hsv in He2. destruct He2 as [(u & [Hu _] & ->)|[_ ?]]; [set_solver|assumption]. }
      destruct Htop as [Hin Hmax]. assert (size (requests A2) ≤ n)%nat as Hsz2.
      { rewrite Er, size_difference by set_solver. rewrite size_singleton. lia. }
      destruct (IH A2 vs2 Hr2 Hsz2 Es) as (Hsort & Hset & ? & ?); [rewrite Er; set_solver|].
      change (injected (Some v' :: None :: vs2)) with (v' :: injected vs2). split_and!; [|rewrite Er in Hset|assumption..].
      * constructor; [assumption|]. apply Forall_forall. intros u Hu.
        assert (u ∈ requests A2) as Hu2 by (rewrite <- Hset; by apply elem_of_list_to_set).
        rewrite Er in Hu2. assert (u ≠ v') by set_solver. specialize (Hmax u ltac:(set_solver)). lia.
      * rewrite list_to_set_cons, Hset. apply set_eq. intros u. rewrite elem_of_union, elem_of_difference, elem_of_singleton.
        destruct (decide (u = v')); naive_solver.
    + (* nothing to take *)
      assert (requests A1 = ∅) as E1.
      { destruct (decide (requests A1 = ∅)) as [|Hne]; [assumption|]. destruct (exists_top _ Hne) as [v Hv].
        destruct (Hno eq_refl v). split; [assumption|]. split; [apply Ht, Hv|]. rewrite Hsv. set_solver. }
      assert (serving A2 = ∅) as Es by (destruct He2 as [(u & [Hu _] & _)|[_ ?]]; [rewrite Hsv in Hu; set_solver|assumption]).
      destruct (IH A2 vs2 Hr2) as (? & Hset & ? & ?); [rewrite Hq2, E1, size_empty; lia|assumption|rewrite Hq2; assumption|].
      change (injected (None :: None :: vs2)) with (injected vs2). rewrite <- Hq2. by split_and!.
Qed.

(** C18: for every sequence of requests, entries and ends of interrupts, the
    local controller returns, and it injects what the sets of requests and
    vectors in service prescribe. *)
Theorem lapic_refines_priority_sets `{KeyOrder} cpu os x s : at_cpu cpu x s → (∀ v, Request v ∈ os → v < 256) →
  ∃ vs x' s', lapic_run cpu os x = Ret (vs, x') ∧ at_cpu cpu x' s' ∧ sets_run (threshold s 0) os (abstract s) vs (abstract s').
Proof. exact (lapic_run_spec cpu os x s). Qed.

(** C19: a guest that takes an interrupt and ends it, as often as there are
    requests, is injected every vector requested, once, the highest first, and
    nothing is left requested or in service. *)
Theorem pending_interrupts_drain `{KeyOrder} cpu x s n : at_cpu cpu x s → serving (abstract s) = ∅ → 0 ≤ tpr s < 16 →
  (size (requests (abstract s)) ≤ n)%nat →
  ∃ vs x' s', lapic_run cpu (rounds n) x = Ret (vs, x') ∧ at_cpu cpu x' s' ∧
    StronglySorted Z.gt (injected vs) ∧ list_to_set (injected vs) = requests (abstract s) ∧
    requests (abstract s') = ∅ ∧ serving (abstract s') = ∅.
Proof.
  intros Hx Hsv Htpr Hn. destruct (lapic_run_spec cpu (rounds n) x s Hx) as (vs & x' & s' & E & Hx' & Hr).
  { intros v. clear. induction n; set_solver. }
  exists vs, x', s'. split; [assumption|]. split; [assumption|]. apply (rounds_drain n (threshold s 0)); [assumption..|].
  assert (threshold s 0 = 0) as ->.
  { unfold threshold. rewrite Z.max_l, Z.shiftr_div_pow2, Z.div_small by lia. done. }
  intros v Hv. apply (ok_requests s (at_ok _ _ _ Hx)) in Hv. unfold class_of. mlia.
Qed.

(** An interrupt for any controller reaches some processor when there is one. *)
Lemma resolve_destination_total `{KeyOrderSpec} apic d :
  (∀ a c, apic_map d !! a = Some c → is_Some (lapic_state d !! c)) → lapic_state d ≠ ∅ →
  ∃ c, resolve_destination apic d = Some c ∧ is_Some (lapic_state d !! c).
Proof.
  intros Hm Hne. unfold resolve_destination. destruct (apic_map d !! apic) as [c|] eqn:E; [by exists c; eauto|].
  case_decide; [by exists apic|]. destruct (any_key (lapic_state d)) as [k|] eqn:Ek.
  - exists k. split; [done|]. by apply any_key_some.
  - by apply any_key_none in Ek.
Qed.

(** ** Devices can always raise a pin *)

Record irqs_ok x : Prop := {
  irqs_pic : pic_ok (pic x);
  irqs_table : zlen (redirection_table (io_apic x)) = 24;
  irqs_lapics : map_Forall (λ _, lapic_ok) (lapic_state (lapics x))
}.

Lemma lapic_set_irq_total `{KeyOrder} apic v d : map_Forall (λ _, lapic_ok) (lapic_state d) → v < 256 →
  ∃ d', lapic_set_irq apic v d = Ret d' ∧ map_Forall (λ _, lapic_ok) (lapic_state d') ∧
    dom (lapic_state d') = dom (lapic_state d) ∧ apic_map d' = apic_map d.
Proof.
  intros Hd Hv. destruct (resolve_destination apic d) as [cpu|] eqn:Er.
  2: { exists d. unfold lapic_set_irq. by rewrite Er. }
  destruct (lapic_state d !! cpu) as [s|] eqn:Es.
  2: { exists d. unfold lapic_set_irq. by rewrite Er, Es. }
  destruct (decide (v < 16)).
  { exists d. unfold lapic_set_irq. by rewrite Er, Es, (proj2 (Z.ltb_lt v 16)) by lia. }
  destruct (lapic_set_irq_spec apic cpu v d s Er Es (Hd _ _ Es)) as (r & i & E & Ok & _); [lia|]. cbv zeta in *.
  eexists. split; [exact E|]. unfold put_lapic. rsimp. split; [by apply map_Forall_insert_2|].
  split; [|done]. rewrite dom_insert_L. assert (cpu ∈ dom (lapic_state d)) by by apply elem_of_dom_2 in Es. set_solver.
Qed.

Lemma io_apic_set_irq_total `{KeyOrder} pin level x : irqs_ok x → 0 ≤ pin →
  ∃ d', io_apic_set_irq pin level x = Ret (x <| lapics := d' |>) ∧ irqs_ok (x <| lapics := d' |>).
Proof.
  intros Hx Hp. pose proof Hx as [H1 H2 H3]. assert (x = x <| lapics := lapics x |>) as Hself by by destruct x.
  assert (∃ d', Ret x = Ret (x <| lapics := d' |>) ∧ irqs_ok (x <| lapics := d' |>)) as Hsame
    by (exists (lapics x); by rewrite <- Hself).
  unfold io_apic_set_irq. destruct (Z.leb_spec (zlen (redirection_table (io_apic x))) pin); [assumption|].
  destruct (lookup_lt_is_Some_2 (redirection_table (io_apic x)) (Z.to_nat pin)) as [e He]; [unfold zlen in *; lia|].
  rewrite (index_lookup _ _ e), ret_bind by assumption. destruct (negb level); [assumption|].
  destruct (entry_is_masked e); [assumption|]. cbv zeta. destruct (Z.ltb_spec (entry_vector e) 16); [assumption|].
  destruct (_ && _); [assumption|].
  destruct (lapic_set_irq_total (destination_id e) (entry_vector e) (lapics x) H3) as (d' & E & Hd & _).
  { unfold entry_vector. change 0xFF with (Z.ones 8). rewrite Z.land_ones by lia. by apply Z.mod_pos_bound. }
  exists d'. rewrite E. split; [done|]. by constructor.
Qed.

Lemma pic_raise_total irq x : irqs_ok x → 0 ≤ irq < 16 → ∃ q, pic_raise_irq irq (pic x) = Ret q ∧ irqs_ok (x <| pic := q |>).
Proof.
  intros [H1 H2 H3] Hi. unfold pic_raise_irq. rewrite irq_bit_ret, ret_bind by lia. eexists. split; [reflexivity|].
  constructor; rsimp; [|assumption..]. destruct H1. constructor; rsimp; auto with bits lia.
Qed.

(** ** Instances *)

Section samples.

(** A map that lists its keys in the order of their hashes. *)
Definition hash_order : KeyOrder := λ m, fst <$> head (map_to_list m).
Existing Instance hash_order.
Instance hash_order_spec : KeyOrderSpec.
Proof.
  split; unfold any_key, hash_order; intros m.
  - intros k. destruct (map_to_list m) as [|[k' s] l] eqn:E; [done|]. cbn. intros [= <-]. exists s.
    apply elem_of_map_to_list. rewrite E. set_solver.
  - destruct (map_to_list m) as [|kv l] eqn:E; [|done]. intros _. by apply map_to_list_empty_iff.
Qed.

Definition sample_clock : GuestClock := mkGuestClock 2400000000 24000000 0 0 2400000000 false.
Definition sample_irqs : Irqs := mkIrqs pic_new (lapic_initialize 0 (lapic_device_new sample_clock)) (io_apic_new 0).
Definition sample_requests : list lapic_op := [Request 0x31; Request 0x80; Request 0x35; Request 7].
Definition sample_pending : Irqs := snd (after ([], sample_irqs) (lapic_run 0 sample_requests sample_irqs)).
Definition sample_state : LocalApicState := after (lapic_reset 0) (lapic_of 0 (lapics sample_pending)).

Lemma bitmap_check regs : zlen regs = 8 → forallb (λ w, (0 <=? w) && (w <? 2 ^ 32)) regs = true → bitmap regs.
Proof.
  intros Hl Hf. split; [assumption|]. intros i ?. unfold byte_at. unfold zlen in Hl.
  destruct (lookup_lt_is_Some_2 regs (Z.to_nat i)) as [w Hw]; [lia|]. rewrite Hw. cbn.
  apply list_elem_of_lookup_2 in Hw. apply Is_true_true, forallb_True in Hf. rewrite Forall_forall in Hf.
  specialize (Hf w Hw). apply Is_true_true, andb_true_iff in Hf as [?%Z.leb_le ?%Z.ltb_lt]. by split.
Qed.

Lemma lapic_ok_check s : zlen (irr s) = 8 → zlen (isr s) = 8 →
  forallb (λ w, (0 <=? w) && (w <? 2 ^ 32)) (irr s ++ isr s) = true →
  bool_decide (set_Forall (λ v, 16 ≤ v) (vectors (irr s) ∪ vectors (isr s))) = true → lapic_ok s.
Proof.
  intros ? ? Hf Hs. rewrite forallb_app in Hf. apply andb_true_iff in Hf as [? ?]. apply bool_decide_eq_true in Hs.
  constructor; [by apply bitmap_check..| |]; intros v Hv; apply Hs; set_solver.
Qed.

Lemma sample_at_cpu : at_cpu 0 sample_pending sample_state.
Proof.
  constructor; [by vm_compute|by vm_compute|by vm_compute| | |by vm_compute].
  - apply lapic_ok_check; vm_compute; reflexivity.
  - constructor; split; vm_compute; congruence.
Qed.

Lemma lapic_refines_priority_sets_witness : ∃ vs x' s',
  lapic_run 0 [Enter true; Request 0x90; Enter true; EndOfInterrupt; EndOfInterrupt; Enter true] sample_pending = Ret (vs, x') ∧
  at_cpu 0 x' s' ∧
  sets_run (threshold sample_state 0) [Enter true; Request 0x90; Enter true; EndOfInterrupt; EndOfInterrupt; Enter true]
    (abstract sample_state) vs (abstract s').
Proof.
  apply (lapic_refines_priority_sets 0 _ sample_pending sample_state); [exact sample_at_cpu|].
  intros v Hv. repeat (apply elem_of_cons in Hv as [E|Hv]; [first [discriminate|injection E as ->; lia]|]).
  by apply elem_of_nil in Hv.
Defined.

Lemma pending_interrupts_drain_witness :
  (∃ vs x' s', lapic_run 0 (rounds 3) sample_pending = Ret (vs, x') ∧ at_cpu 0 x' s' ∧
    StronglySorted Z.gt (injected vs) ∧ list_to_set (injected vs) = requests (abstract sample_state) ∧
    requests (abstract s') = ∅ ∧ serving (abstract s') = ∅) ∧
  (injected ∘ fst <$> (match lapic_run 0 (rounds 3) sample_pending with Ret r => Some r | Crash _ => None end)) = Some [0x80; 0x35; 0x31].
Proof.
  split; [|vm_compute; reflexivity].
  apply (pending_interrupts_drain 0 sample_pending sample_state 3);
    [exact sample_at_cpu|vm_compute; reflexivity|vm_compute; split; congruence|vm_compute; lia].
Defined.

(** A vector requested again while it is in service leaves the vectors in
    service: its handler is interrupted by itself, and the first of the two
    ends leaves nothing in service. *)
Lemma requested_again_not_in_service :
  (fst <$> (match lapic_run 0 [Request 0x31; Enter true; Request 0x31; Enter true; EndOfInterrupt; Request 0x30; Enter true]
      sample_irqs with Ret r => Some r | Crash _ => None end)) =
  Some [None; Some 0x31; None; Some 0x31; None; None; Some 0x30].
Proof. vm_compute. reflexivity. Qed.

Lemma sample_irqs_ok : irqs_ok sample_irqs.
Proof.
  constructor.
  - constructor; split; vm_compute; congruence.
  - vm_compute. reflexivity.
  - apply map_Forall_insert_2; [|done]. apply lapic_ok_check; vm_compute; reflexivity.
Qed.

End samples.
