(* ===== verification/GuestTimers.v ===== *)
(** * Timers and small devices of a guest

    [kernel/src/driver/hv/reindeer/device/legacy]: the interval timer
    ([pit.rs]), the event timer ([hpet.rs]), the power-management timer and
    registers ([pm_timer.rs], [acpi_pm.rs]), port B ([speaker.rs]) and the
    clock chip ([rtc.rs]).  Counters are computed from readings of the guest's
    time stamp counter, which are arguments; a read of the host's clock chip is
    an argument too. *)

From stdpp Require Import gmap.
From S2P Require Import Prelude Bits GuestPic GuestApic GuestLapic.

Implicit Types (g : GuestClock) (x : Irqs).

(** ** The interval timer *)

Definition PIT_HZ : Z := 1193182.

Inductive AccessState := Lsb | Msb.

Record PitChannel := mkPitChannel {
  count : Z;
  reload_value : Z;
  mode : Z;
  access_state : AccessState;
  read_state : AccessState;
  latched_value : option Z;
  last_tsc : Z;
  last_irq_tsc : Z;
  gate_enabled : bool;
  access_mode : Z;
  irq_armed : bool
}.
#[global] Instance eta_pit_channel : Eta PitChannel := λ c,
  mkPitChannel (count c) (reload_value c) (mode c) (access_state c) (read_state c) (latched_value c) (last_tsc c)
    (last_irq_tsc c) (gate_enabled c) (access_mode c) (irq_armed c).

Record VirtualPit := mkPit { channels : list PitChannel; ioapic_timer_enabled : bool }.
#[global] Instance eta_pit : Eta VirtualPit := λ p, mkPit (channels p) (ioapic_timer_enabled p).
Implicit Types (c : PitChannel) (p : VirtualPit).

Definition channel_new : PitChannel := mkPitChannel 0 0 0 Lsb Lsb None 0 0 true 3 false.
Definition pit_new : VirtualPit := mkPit [channel_new; channel_new; channel_new] false.

(** A reload value of 0 stands for 65536. *)
Definition effective_reload c : Z := if reload_value c =? 0 then 65536 else reload_value c.

Definition get_current_count g (now : Z) c : res Z :=
  tsc_elapsed ← sub_chk U64 now (last_tsc c);
  t ← div_chk (tsc_elapsed * PIT_HZ) (tsc_hz g);
  let ticks_elapsed := t mod U64 in
  Ret ((effective_reload c - ticks_elapsed mod effective_reload c) mod U16).

Definition is_periodic (m : Z) : bool := (m =? 2) || (m =? 3).

Definition commit_reload (now : Z) c : PitChannel :=
  c <| last_tsc := now |> <| last_irq_tsc := now |> <| count := reload_value c |>
    <| irq_armed := is_periodic (mode c) || negb (reload_value c =? 0) |>.

Definition set_channel (i : Z) c p : res VirtualPit := l ← store (channels p) i c; Ret (p <| channels := l |>).

Definition fire_interval g c : Z := Z.max (tsc_hz g * effective_reload c / PIT_HZ) 1 mod U64.

Section pit.
Context `{KeyOrder}.

Definition deliver_irq0 p x : res (VirtualPit * Irqs) :=
  masked ← is_pin_masked 2 (io_apic x);
  if negb masked then
    x ← io_apic_set_irq 2 true x; x ← io_apic_set_irq 2 false x;
    Ret (p <| ioapic_timer_enabled := true |>, x)
  else if ioapic_timer_enabled p then Ret (p, x)
  else q ← pic_raise_irq 0 (pic x); Ret (p, x <| pic := q |>).

(** The channel after a check at [now], and whether an interrupt is due. *)
Definition channel_due g (now : Z) c : res (bool * PitChannel) :=
  if negb (irq_armed c) then Ret (false, c)
  else
    let interval := fire_interval g c in
    if last_irq_tsc c =? 0 then Ret (false, c <| last_irq_tsc := now |>)
    else
      let elapsed := (now - last_irq_tsc c) mod U64 in
      if elapsed <? interval then Ret (false, c)
      else if is_periodic (mode c) then
        n ← mul_chk U64 (elapsed / interval) interval;
        Ret (true, c <| last_irq_tsc := (last_irq_tsc c + n) mod U64 |>)
      else Ret (true, c <| irq_armed := false |> <| last_irq_tsc := now |>).

Definition pit_check_timer g (now : Z) p x : res (bool * VirtualPit * Irqs) :=
  c ← index (channels p) 0;
  '(due, ch) ← channel_due g now c;
  p ← set_channel 0 ch p;
  if (due : bool) then '(p, x) ← deliver_irq0 p x; Ret (true, p, x) else Ret (false, p, x).

Definition set_channel2_gate (now : Z) (enabled : bool) p : res VirtualPit :=
  c ← index (channels p) 2;
  let c := c <| gate_enabled := enabled |> in
  set_channel 2 (if enabled then c <| last_tsc := now |> else c) p.

Definition get_channel2_out g (now : Z) p : res bool :=
  c ← index (channels p) 2;
  if negb (gate_enabled c) then Ret false
  else if tsc_hz g =? 0 then Ret false
  else
    let ticks_elapsed := sat_sub now (last_tsc c) * PIT_HZ / tsc_hz g mod U64 in
    let reload := effective_reload c in
    Ret (if is_periodic (mode c) then reload / 2 <? reload - ticks_elapsed mod reload else reload <=? ticks_elapsed).

Definition write_counter (now value : Z) c : PitChannel :=
  if access_mode c =? 1 then commit_reload now (c <| reload_value := value |>)
  else if access_mode c =? 2 then commit_reload now (c <| reload_value := Z.shiftl value 8 |>)
  else match access_state c with
  | Lsb => c <| reload_value := Z.lor (Z.land (reload_value c) 0xFF00) value |> <| access_state := Msb |>
  | Msb => commit_reload now (c <| reload_value := Z.lor (Z.land (reload_value c) 0x00FF) (Z.shiftl value 8) |>
                                <| access_state := Lsb |>)
  end.

Definition write_command g (now idx value : Z) c : res PitChannel :=
  let am := Z.land (Z.shiftr value 4) 0x03 in
  if am =? 0 then
    n ← get_current_count g now c;
    Ret (c <| count := n |> <| latched_value := Some n |> <| read_state := Lsb |>)
  else
    let c := c <| mode := Z.land (Z.shiftr value 1) 0x07 |> <| access_mode := am |> <| access_state := Lsb |>
               <| read_state := Lsb |> <| irq_armed := false |> in
    Ret (if idx =? 0 then c <| last_irq_tsc := 0 |> else c).

(** [value] is a byte. *)
Definition pit_write_inner g (now port value : Z) p : res VirtualPit :=
  if (0x40 <=? port) && (port <=? 0x42) then
    c ← index (channels p) (port - 0x40); set_channel (port - 0x40) (write_counter now value c) p
  else if port =? 0x43 then
    let idx := Z.land (Z.shiftr value 6) 0x03 in
    if idx <? 3 then c ← index (channels p) idx; c ← write_command g now idx value c; set_channel idx c p
    else Ret p
  else Ret p.

Definition pit_read_inner g (now port : Z) p : res (Z * VirtualPit) :=
  if (0x40 <=? port) && (port <=? 0x42) then
    let idx := port - 0x40 in
    c ← index (channels p) idx;
    v ← (match latched_value c with Some v => Ret v | None => get_current_count g now c end);
    match read_state c with
    | Lsb => p ← set_channel idx (c <| read_state := Msb |>) p; Ret (Z.land v 0xFF, p)
    | Msb => p ← set_channel idx (c <| read_state := Lsb |> <| latched_value := None |>) p;
             Ret (Z.land (Z.shiftr v 8) 0xFF, p)
    end
  else Ret (0xFF, p).

Definition pit_io_read g (now now' addr : Z) p x : res (Z * VirtualPit * Irqs) :=
  '(v, p) ← pit_read_inner g now (addr mod U16) p;
  '(_, p, x) ← pit_check_timer g now' p x;
  Ret (v, p, x).

Definition pit_io_write g (now now' addr value width : Z) p x : res (VirtualPit * Irqs) :=
  let port := addr mod U16 in
  p ← (if (0x40 <=? port) && (port <=? 0x42) && (2 <=? width) then
         c ← index (channels p) (port - 0x40);
         set_channel (port - 0x40) (commit_reload now (c <| reload_value := value mod U16 |> <| access_state := Lsb |>)) p
       else pit_write_inner g now port (value mod U8) p);
  '(_, p, x) ← pit_check_timer g now' p x;
  Ret (p, x).

End pit.

(** ** The event timer *)

Definition HPET_MMIO_BASE : Z := 0xFED00000.
Definition HPET_HZ : Z := 10000000.
Definition NUM_TIMERS : Z := 3.
Definition GENERAL_CAPABILITIES : Z :=
  Z.lor (Z.lor (Z.lor (Z.shiftl 100000000 32) 0x80862000) (Z.shiftl (NUM_TIMERS - 1) 8)) 0x10.
Definition GENERAL_ENABLE : Z := 1.
Definition TIMER_INTERRUPT_ENABLE : Z := bit 2.
Definition TIMER_PERIODIC : Z := bit 3.
Definition TIMER_32_BIT_MODE : Z := bit 8.
Definition TIMER_ROUTE_MASK : Z := Z.shiftl 0x1F 9.
Definition TIMER_WRITABLE_MASK : Z :=
  Z.lor (Z.lor (Z.lor (Z.lor (bit 1) TIMER_INTERRUPT_ENABLE) TIMER_PERIODIC) TIMER_32_BIT_MODE) TIMER_ROUTE_MASK.

Record TimerState := mkTimer { config : Z; comparator : Z; period : Z; armed : bool }.
#[global] Instance eta_timer : Eta TimerState := λ t, mkTimer (config t) (comparator t) (period t) (armed t).

Record HpetState := mkHpet {
  general_config : Z;
  main_counter : Z;
  counter_started_at : Z;
  interrupt_status : Z;
  timers : list TimerState
}.
#[global] Instance eta_hpet : Eta HpetState := λ h,
  mkHpet (general_config h) (main_counter h) (counter_started_at h) (interrupt_status h) (timers h).
Implicit Types (t : TimerState) (h : HpetState).

Definition hpet_new (now : Z) : HpetState := mkHpet 0 0 now 0 (replicate 3 (mkTimer 0 0 0 false)).

Definition hpet_enabled (config : Z) : bool := negb (Z.land config GENERAL_ENABLE =? 0).

Definition current_counter g (now : Z) h : res Z :=
  if negb (hpet_enabled (general_config h)) then Ret (main_counter h)
  else
    let elapsed_tsc := (now - counter_started_at h) mod U64 in
    e ← div_chk (elapsed_tsc * HPET_HZ) (tsc_hz g);
    Ret ((main_counter h + e mod U64) mod U64).

Definition timer_config t : Z := Z.lor (Z.lor (Z.lor (config t) (bit 4)) (bit 5)) (Z.shiftl 0x00FFFFFF 32).

Definition decode_timer_offset (offset : Z) : option (Z * Z) :=
  if offset <? 0x100 then None
  else
    let rel := offset - 0x100 in
    if NUM_TIMERS <=? rel / 0x20 then None else Some (rel / 0x20, rel mod 0x20).

Definition read_register g (now offset : Z) h : res Z :=
  if offset =? 0x000 then Ret GENERAL_CAPABILITIES
  else if offset =? 0x010 then Ret (general_config h)
  else if offset =? 0x020 then Ret (interrupt_status h)
  else if offset =? 0x0F0 then current_counter g now h
  else match decode_timer_offset offset with
  | Some (i, reg) =>
      t ← index (timers h) i;
      Ret (if reg =? 0x00 then timer_config t else if reg =? 0x08 then comparator t else 0)
  | None => Ret 0
  end.

Definition access_mask (width : Z) : Z :=
  if width =? 1 then 0xFF else if width =? 2 then 0xFFFF else if width =? 4 then 0xFFFFFFFF
  else if width =? 8 then U64 - 1 else 0.

(** The bits of [old] outside the access and those of [value] inside. *)
Definition merge (old value m : Z) : Z := Z.lor (Z.land old (wnot 64 m)) (Z.land value m).

Definition write_timer (reg value m : Z) t : TimerState :=
  if reg =? 0x00 then t <| config := merge (config t) value (Z.land m TIMER_WRITABLE_MASK) |>
  else if reg =? 0x08 then
    let c := merge (comparator t) value m in
    let c := if negb (Z.land (config t) TIMER_32_BIT_MODE =? 0) then Z.land c 0xFFFFFFFF else c in
    t <| comparator := c |>
      <| period := if negb (Z.land (config t) TIMER_PERIODIC =? 0) then Z.max c 1 else 0 |>
      <| armed := true |>
  else t.

(** [now] is read first; [now'] by [current_counter]. *)
Definition write_register g (now now' offset value width : Z) h : res HpetState :=
  let register := Z.land offset (wnot 64 7) in
  let shift := Z.land offset 7 * 8 in
  let m := Z.shiftl (access_mask width) shift mod U64 in
  let value := Z.shiftl value shift mod U64 in
  if register =? 0x010 then
    current ← current_counter g now' h;
    let was_enabled := hpet_enabled (general_config h) in
    let new_config := merge (general_config h) value m in
    let enabled := hpet_enabled new_config in
    let h := if negb (eqb was_enabled enabled) then h <| main_counter := current |> <| counter_started_at := now |> else h in
    Ret (h <| general_config := Z.land new_config GENERAL_ENABLE |>)
  else if register =? 0x020 then
    Ret (h <| interrupt_status := Z.land (interrupt_status h) (wnot 64 (Z.land value m)) |>)
  else if register =? 0x0F0 then
    current ← current_counter g now' h;
    Ret (h <| main_counter := merge current value m |> <| counter_started_at := now |>)
  else match decode_timer_offset register with
  | Some (i, reg) =>
      t ← index (timers h) i;
      l ← store (timers h) i (write_timer reg value m t);
      Ret (h <| timers := l |>)
  | None => Ret h
  end.

Definition timer_route t : Z := Z.shiftr (Z.land (config t) TIMER_ROUTE_MASK) 9.

(** A timer that is due at [counter]. *)
Definition timer_due (counter : Z) t : bool :=
  negb (Z.land (config t) TIMER_INTERRUPT_ENABLE =? 0) && armed t && (comparator t <=? counter).

Definition timer_fire (counter : Z) t : res TimerState :=
  if negb (Z.land (config t) TIMER_PERIODIC =? 0) && negb (period t =? 0) then
    let elapsed := sat_sub counter (comparator t) in
    periods ← add_chk U64 (elapsed / period t) 1;
    Ret (t <| comparator := (comparator t + sat_mul U64 periods (period t)) mod U64 |>)
  else Ret (t <| armed := false |>).

(** The loop over the timers from [i] on; [fired] collects the routes. *)
Fixpoint check_timers (n : nat) (counter i : Z) (fired : list Z) h : res (list Z * HpetState) :=
  match n with
  | O => Ret (fired, h)
  | S n =>
      t ← index (timers h) i;
      if timer_due counter t then
        t ← timer_fire counter t;
        l ← store (timers h) i t;
        let h := h <| interrupt_status := Z.lor (interrupt_status h) (bit i) |> <| timers := l |> in
        check_timers n counter (i + 1) (fired ++ [timer_route t]) h
      else check_timers n counter (i + 1) fired h
  end.

Section hpet.
Context `{KeyOrder}.

Fixpoint raise_routes (routes : list Z) x : res Irqs :=
  match routes with
  | [] => Ret x
  | r :: routes => x ← io_apic_set_irq r true x; raise_routes routes x
  end.

Definition hpet_check_timer g (now : Z) h x : res (bool * HpetState * Irqs) :=
  if negb (hpet_enabled (general_config h)) then Ret (false, h, x)
  else
    counter ← current_counter g now h;
    '(fired, h) ← check_timers 3 counter 0 [] h;
    if zlen fired =? 0 then Ret (false, h, x)
    else x ← raise_routes fired x; Ret (true, h, x).

Definition hpet_mmio_read g (now addr width : Z) h : res Z :=
  let offset := sat_sub addr HPET_MMIO_BASE in
  let shift := Z.land offset 7 * 8 in
  v ← read_register g now (Z.land offset (wnot 64 7)) h;
  Ret (Z.land (Z.shiftr v shift) (access_mask width)).

Definition hpet_mmio_write g (now now' now'' addr value width : Z) h x : res (HpetState * Irqs) :=
  let offset := sat_sub addr HPET_MMIO_BASE in
  h ← write_register g now now' offset value width h;
  '(_, h, x) ← hpet_check_timer g now'' h x;
  Ret (h, x).

End hpet.

(** ** Smaller devices *)

Definition PM_TIMER_PORT : Z := 0x608.
Definition PM_TIMER_HZ : Z := 3579545.

Definition read_ticks g (now : Z) : res Z := t ← div_chk (now * PM_TIMER_HZ) (tsc_hz g); Ret (t mod U32).

(** [offset * 8] is a product of words of 32 bits; a shift by 32 or more yields 0. *)
Definition pm_timer_io_read g (now addr width : Z) : res Z :=
  let offset := sat_sub addr PM_TIMER_PORT mod U32 in
  ticks ← read_ticks g now;
  n ← mul_chk U32 offset 8;
  let shifted := if n <? 32 then Z.shiftr ticks n else 0 in
  Ret (if width =? 1 then Z.land shifted 0xFF else if width =? 2 then Z.land shifted 0xFFFF else shifted).

Record VirtualAcpiPm := mkAcpiPm { pm1_sts : Z; pm1_en : Z; pm1_cnt : Z }.
#[global] Instance eta_acpi_pm : Eta VirtualAcpiPm := λ a, mkAcpiPm (pm1_sts a) (pm1_en a) (pm1_cnt a).

Definition acpi_pm_new : VirtualAcpiPm := mkAcpiPm 0 0 1.

Definition acpi_pm_io_read (addr width : Z) (a : VirtualAcpiPm) : res Z :=
  match addr mod U16, width with
  | 0x600, 4 => Ret (Z.lor (pm1_sts a) (Z.shiftl (pm1_en a) 16))
  | 0x600, 2 => Ret (pm1_sts a)
  | 0x602, 2 => Ret (pm1_en a)
  | 0x604, 2 => Ret (pm1_cnt a)
  | 0x600, 1 => Ret (Z.land (pm1_sts a) 0xFF)
  | 0x601, 1 => Ret (Z.shiftr (pm1_sts a) 8)
  | 0x602, 1 => Ret (Z.land (pm1_en a) 0xFF)
  | 0x603, 1 => Ret (Z.shiftr (pm1_en a) 8)
  | 0x604, 1 => Ret (Z.land (pm1_cnt a) 0xFF)
  | 0x605, 1 => Ret (Z.shiftr (pm1_cnt a) 8)
  | _, _ => Crash Panic
  end.

(** A request to sleep stops the machine. *)
Definition set_pm1_cnt (v : Z) (a : VirtualAcpiPm) : res VirtualAcpiPm :=
  if negb (Z.land v (bit 13) =? 0) then Crash Panic else Ret (a <| pm1_cnt := v |>).

Definition acpi_pm_io_write (addr value width : Z) (a : VirtualAcpiPm) : res VirtualAcpiPm :=
  let v := value mod U16 in
  let clear m := a <| pm1_sts := Z.land (pm1_sts a) (wnot 16 m) |> in
  match addr mod U16, width with
  | 0x600, 2 => Ret (clear v)
  | 0x600, 4 => Ret ((clear v) <| pm1_en := Z.shiftr value 16 mod U16 |>)
  | 0x602, 2 => Ret (a <| pm1_en := v |>)
  | 0x604, 2 => set_pm1_cnt v a
  | 0x600, 1 => Ret (clear v)
  | 0x601, 1 => Ret (clear (Z.shiftl v 8 mod U16))
  | 0x602, 1 => Ret (a <| pm1_en := Z.lor (Z.land (pm1_en a) 0xFF00) (Z.land v 0xFF) |>)
  | 0x603, 1 => Ret (a <| pm1_en := Z.lor (Z.land (pm1_en a) 0x00FF) (Z.shiftl (Z.land v 0xFF) 8) |>)
  | 0x604, 1 => set_pm1_cnt (Z.lor (Z.land (pm1_cnt a) 0xFF00) (Z.land v 0xFF)) a
  | 0x605, 1 => set_pm1_cnt (Z.lor (Z.land (pm1_cnt a) 0x00FF) (Z.shiftl (Z.land v 0xFF) 8)) a
  | _, _ => Crash Panic
  end.

(** Port B: its byte and the interval timer. *)
Definition speaker_io_read g (now addr data : Z) p : res (Z * Z) :=
  rassert (addr =? 0x61);;
  let data := Z.lxor data (bit 4) in
  out ← get_channel2_out g now p;
  let val := Z.land data 0x1F in
  Ret (if (out : bool) then Z.lor val (bit 5) else val, data).

Definition speaker_io_write (now addr value : Z) p : res (Z * VirtualPit) :=
  rassert (addr =? 0x61);;
  p ← set_channel2_gate now (negb (Z.land value 0x01 =? 0)) p;
  Ret (value, p).

(** The clock chip: [host] reads a register of the host's chip. *)
Definition rtc_io_read (host : Z → Z) (addr port : Z) : res Z :=
  if addr =? 0x70 then Ret port
  else if addr =? 0x71 then
    let i := port mod U8 in
    Ret (if bool_decide (i ∈ [0x00; 0x02; 0x04; 0x07; 0x06; 0x08; 0x09; 0x32]) then host i
         else if bool_decide (i ∈ [0x01; 0x03; 0x05]) then 0
         else if i =? 0xA then 0x26
         else if i =? 0xB then host 0xB
         else if i =? 0xC then 0
         else if i =? 0xD then 0x80
         else 0)
  else Crash Panic.

Definition rtc_io_write (addr value port : Z) : res Z :=
  if addr =? 0x70 then Ret (Z.land value 0x7F)
  else if addr =? 0x71 then Ret port
  else Crash Panic.

(** ** The interval timer keeps its phase *)

(** Checks of one channel at the times [ts], and which of them found an
    interrupt due. *)
Fixpoint channel_checks g (ts : list Z) c : res (list bool * PitChannel) :=
  match ts with
  | [] => Ret ([], c)
  | t :: ts => '(b, c') ← channel_due g t c; '(bs, c'') ← channel_checks g ts c'; Ret (b :: bs, c'')
  end.

(** The number of periods of length [P] completed at [t] since [t0]. *)
Definition periods_at (P t0 t : Z) : Z := (t - t0) / P.

(** [ts] does not go back, starting from [t]. *)
Fixpoint advancing (t : Z) (ts : list Z) : Prop :=
  match ts with [] => True | u :: ts => t ≤ u < U64 ∧ advancing u ts end.

(** A check is due when a period was completed since the check before. *)
Fixpoint crossings (P t0 t : Z) (ts : list Z) : list bool :=
  match ts with
  | [] => []
  | u :: ts => (periods_at P t0 t <? periods_at P t0 u) :: crossings P t0 u ts
  end.

Lemma effective_reload_range c : 0 ≤ reload_value c < U16 → 1 ≤ effective_reload c ≤ 65536.
Proof. intros. unfold effective_reload. destruct (Z.eqb_spec (reload_value c) 0); lia. Qed.

Lemma fire_interval_range g c : 0 ≤ tsc_hz g < U64 → 0 ≤ reload_value c < U16 → 0 < fire_interval g c < U64.
Proof.
  intros Hg Hr. pose proof (effective_reload_range c Hr). unfold fire_interval, PIT_HZ. set (r := effective_reload c) in *.
  assert (tsc_hz g * r / 1193182 < U64).
  { apply Z.div_lt_upper_bound; [lia|]. assert (tsc_hz g * r ≤ tsc_hz g * 65536) by (apply Z.mul_le_mono_nonneg_l; lia). lia. }
  rewrite Z.mod_small; lia.
Qed.

Lemma periodic_check g (t0 k u : Z) c : irq_armed c = true → is_periodic (mode c) = true → 0 < fire_interval g c < U64 →
  0 < t0 → 0 ≤ k → last_irq_tsc c = t0 + k * fire_interval g c → last_irq_tsc c ≤ u < U64 →
  channel_due g u c = Ret (k <? periods_at (fire_interval g c) t0 u,
    c <| last_irq_tsc := t0 + periods_at (fire_interval g c) t0 u * fire_interval g c |>).
Proof.
  intros Ha Hp HP Ht0 Hk Hl Hu. unfold channel_due, periods_at. rewrite Ha, Hp. set (P := fire_interval g c) in *.
  assert (0 ≤ k * P) by nia. cbn [negb]. cbv zeta. fold P. rewrite (proj2 (Z.eqb_neq (last_irq_tsc c) 0)) by lia.
  rewrite Z.mod_small by lia. set (e := u - last_irq_tsc c).
  assert (e / P = (u - t0) / P - k) as He.
  { unfold e. rewrite Hl. replace (u - (t0 + k * P)) with (u - t0 + - k * P) by lia. rewrite Z.div_add by lia. lia. }
  destruct (Z.ltb_spec e P) as [Hlt|Hge].
  - rewrite Z.div_small in He by (unfold e in *; lia). replace ((u - t0) / P) with k by lia. rewrite Z.ltb_irrefl, <- Hl.
    by destruct c.
  - assert (1 ≤ e / P) by (apply Z.div_le_lower_bound; lia). assert (e / P * P ≤ e) by (pose proof (Z.mul_div_le e P); lia).
    rewrite mul_chk_ret, ret_bind by (unfold e in *; nia). rewrite (proj2 (Z.ltb_lt k _)) by lia.
    do 2 f_equal. rewrite Z.mod_small by (unfold e in *; nia). rewrite Hl.
    replace (t0 + (u - t0) / P * P) with (t0 + k * P + e / P * P) by (rewrite He; lia). done.
Qed.

Lemma periodic_checks g ts : ∀ (t0 t : Z) c, irq_armed c = true → is_periodic (mode c) = true →
  0 < fire_interval g c < U64 → 0 < t0 → t0 ≤ t →
  last_irq_tsc c = t0 + periods_at (fire_interval g c) t0 t * fire_interval g c → advancing t ts →
  channel_checks g ts c = Ret (crossings (fire_interval g c) t0 t ts,
    c <| last_irq_tsc := t0 + periods_at (fire_interval g c) t0 (List.last ts t) * fire_interval g c |>).
Proof.
  induction ts as [|u ts IH]; intros t0 t c Ha Hp HP Ht0 Ht Hl Hadv; cbn [channel_checks crossings].
  - cbn [List.last]. rewrite <- Hl. by destruct c.
  - destruct Hadv as [Hu Hadv]. set (P := fire_interval g c) in *.
    assert (0 ≤ periods_at P t0 t) by (apply Z.div_pos; lia).
    assert (periods_at P t0 t * P ≤ t - t0) by (unfold periods_at; pose proof (Z.mul_div_le (t - t0) P); lia).
    rewrite (periodic_check g t0 (periods_at P t0 t) u c), ret_bind by (assumption || lia). fold P.
    set (c1 := c <| last_irq_tsc := _ |>). assert (fire_interval g c1 = P) as HP1 by reflexivity.
    rewrite (IH t0 u c1), ret_bind by (rewrite ?HP1; reflexivity || assumption || lia). rewrite HP1.
    do 2 f_equal. destruct ts as [|u' ts]; [reflexivity|].
    change (List.last (u :: u' :: ts) t) with (List.last (u' :: ts) t).
    assert (∀ l a b (y : Z), List.last (y :: l) a = List.last (y :: l) b) as Hlast.
    { clear. induction l as [|z l IHl]; intros; [done|]. apply (IHl a b z). }
    by rewrite (Hlast ts u t u').
Qed.

(** ** The event timer *)

Definition timer_after (counter : Z) t : TimerState :=
  if negb (Z.land (config t) TIMER_PERIODIC =? 0) && negb (period t =? 0)
  then t <| comparator := (comparator t + sat_mul U64 (sat_sub counter (comparator t) / period t + 1) (period t)) mod U64 |>
  else t <| armed := false |>.

Lemma timer_fire_ret counter t : u64 counter → 0 ≤ comparator t → 0 ≤ period t → (period t = 1 → 0 < comparator t) →
  timer_fire counter t = Ret (timer_after counter t).
Proof.
  intros Hc Hk Hp H1. unfold timer_fire, timer_after. destruct (negb (Z.land _ _ =? 0) && negb (period t =? 0)) eqn:Hb; [|done].
  apply andb_true_iff in Hb as [_ Hb]. rewrite negb_true_iff, Z.eqb_neq in Hb. rewrite add_chk_ret; [done|].
  unfold sat_sub. assert (0 ≤ Z.max (counter - comparator t) 0 / period t) by (apply Z.div_pos; lia).
  split; [lia|]. destruct (decide (period t = 1)) as [E|].
  - rewrite E, Z.div_1_r. specialize (H1 E). ints. lia.
  - assert (Z.max (counter - comparator t) 0 / period t < U64 - 1); [|lia].
    apply Z.div_lt_upper_bound; [lia|]. ints. nia.
Qed.

(** A timer as [write_timer] leaves it. *)
Definition timer_ok t : Prop := u64 (comparator t) ∧ 0 ≤ period t < U64 ∧ (period t = 1 → 0 < comparator t).

Definition after_check (counter : Z) t : TimerState := if timer_due counter t then timer_after counter t else t.

(** The status word after the timers [l], of which the first is number [i]. *)
Fixpoint status_after (counter i status : Z) (l : list TimerState) : Z :=
  match l with
  | [] => status
  | t :: l => status_after counter (i + 1) (if timer_due counter t then Z.lor status (bit i) else status) l
  end.

Lemma timer_route_after counter t : timer_route (timer_after counter t) = timer_route t.
Proof. unfold timer_after. by destruct (_ && _). Qed.

(** The loop over the timers, as functions of the list of timers. *)
Lemma check_timers_spec counter : u64 counter → ∀ rest pre fired h, timers h = pre ++ rest → Forall timer_ok rest →
  check_timers (length rest) counter (zlen pre) fired h =
  Ret (fired ++ (timer_route <$> filter (λ t, timer_due counter t = true) rest),
       h <| interrupt_status := status_after counter (zlen pre) (interrupt_status h) rest |>
         <| timers := pre ++ (after_check counter <$> rest) |>).
Proof.
  intros Hc. induction rest as [|t rest IH]; intros pre fired h Ht Hok; cbn [check_timers length].
  - rewrite app_nil_r. cbn [fmap list_fmap status_after]. rewrite app_nil_r in *. destruct h. cbn in *. by subst.
  - apply Forall_cons in Hok as [(? & [? ?] & ?) Hok]. rewrite Ht, index_app_mid, ret_bind.
    assert (∀ t', zlen pre + 1 = zlen (pre ++ [t'])) as Hpre by (intros; rewrite zlen_app, zlen_cons, zlen_nil; lia).
    cbn [status_after fmap list_fmap]. rewrite filter_cons.
    destruct (timer_due counter t) eqn:Hd.
    + rewrite timer_fire_ret, ret_bind, store_mid, ret_bind by (assumption || (ints; lia)). cbv zeta.
      rewrite decide_True by done. set (t' := timer_after counter t).
      assert (after_check counter t = t') as -> by (unfold after_check; by rewrite Hd).
      rewrite (Hpre t'), (IH (pre ++ [t'])) by (assumption || by rewrite <- app_assoc). rsimp.
      assert (timer_route t' = timer_route t) as -> by apply timer_route_after. rewrite <- !app_assoc. cbn [fmap list_fmap app]. done.
    + assert (after_check counter t = t) as -> by (unfold after_check; by rewrite Hd).
      rewrite decide_False by done. rewrite (Hpre t), (IH (pre ++ [t])) by (assumption || by rewrite <- app_assoc).
      rewrite <- !app_assoc. done.
Qed.

(** A periodic timer that fired is armed for the first point of its period
    after the counter. *)
Lemma timer_after_next counter t : u64 counter → timer_ok t → timer_due counter t = true →
  Z.land (config t) TIMER_PERIODIC ≠ 0 → period t ≠ 0 → counter + period t < U64 →
  counter < comparator (timer_after counter t) ≤ counter + period t ∧
  (comparator (timer_after counter t) - comparator t) mod period t = 0.
Proof.
  intros Hc (Hu & Hp & _) Hd Hper Hnz Hov. unfold timer_due in Hd. apply andb_true_iff in Hd as [_ Hd%Z.leb_le].
  unfold timer_after. rewrite (proj2 (Z.eqb_neq _ 0) Hper), (proj2 (Z.eqb_neq _ 0) Hnz). cbn [negb andb]. rsimp.
  unfold sat_sub, sat_mul. rewrite Z.max_l by lia. set (e := counter - comparator t). set (q := period t) in *.
  pose proof (Z.div_mod e q Hnz). pose proof (Z.mod_pos_bound e q ltac:(lia)). ints.
  assert ((e / q + 1) * q = e - e mod q + q) as Hm by lia.
  assert (e = counter - comparator t) by reflexivity.
  rewrite Z.min_l by lia. rewrite Z.mod_small by lia. split; [lia|].
  replace (comparator t + (e / q + 1) * q - comparator t) with ((e / q + 1) * q) by lia. by apply Z.mod_mul.
Qed.

(** A comparator of 32 bits is compared with the whole counter: once the
    counter passed 2^32, the timer is due although its low word has not come
    to the comparator. *)
Lemma comparator_32_bit_due : ∃ t, Z.land (config t) TIMER_32_BIT_MODE ≠ 0 ∧ comparator t = 100 ∧
  (2 ^ 32 + 5) mod 2 ^ 32 < comparator t ∧ timer_due (2 ^ 32 + 5) t = true.
Proof. exists (mkTimer (Z.lor TIMER_32_BIT_MODE TIMER_INTERRUPT_ENABLE) 100 0 true). repeat split; vm_compute; congruence. Qed.

(** ** Counters read by the guest *)

(** The counter of a channel counts down from the reload value and starts over. *)
Lemma get_current_count_spec g now c : 0 < tsc_hz g < U64 → 0 ≤ last_tsc c ≤ now → now < U64 → 0 ≤ reload_value c < U16 →
  ∃ n, get_current_count g now c = Ret n ∧ 0 ≤ n < U16 ∧
    n = (effective_reload c - ((now - last_tsc c) * PIT_HZ / tsc_hz g) mod U64 mod effective_reload c) mod U16.
Proof.
  intros Hg Hn Hu Hr. unfold get_current_count, div_chk. rewrite sub_chk_ret, ret_bind by lia.
  rewrite (proj2 (Z.eqb_neq (tsc_hz g) 0)), ret_bind by lia. eexists. split; [reflexivity|]. split; [|done].
  by apply Z.mod_pos_bound.
Qed.

(** A latched counter is read back low byte first, and is released. *)
Lemma latched_count_round_trip g now p port c v : 0x40 ≤ port ≤ 0x42 → channels p !! Z.to_nat (port - 0x40) = Some c →
  latched_value c = Some v → read_state c = Lsb → u16 v → ∃ p' p'' c'',
    pit_read_inner g now port p = Ret (v mod U8, p') ∧ pit_read_inner g now port p' = Ret (v / U8, p'') ∧
    channels p'' !! Z.to_nat (port - 0x40) = Some c'' ∧ latched_value c'' = None ∧ read_state c'' = Lsb.
Proof.
  intros Hport Hc Hv Hr Hu. set (i := Z.to_nat (port - 0x40)) in *.
  assert (0 ≤ port - 0x40 < zlen (channels p)) as Hb by (apply lookup_lt_Some in Hc; unfold zlen; lia).
  assert (∀ p0 c0 c1, zlen (channels p0) = zlen (channels p) → channels p0 !! i = Some c0 →
    set_channel (port - 0x40) c1 p0 = Ret (p0 <| channels := <[i := c1]> (channels p0) |>)) as Hset.
  { intros p0 c0 c1 Hl _. unfold set_channel. by rewrite store_as_insert by lia. }
  assert (((0x40 <=? port) && (port <=? 0x42)) = true) as Hcond by lia.
  exists (p <| channels := <[i := c <| read_state := Msb |>]> (channels p) |>).
  exists (p <| channels := <[i := c <| read_state := Lsb |> <| latched_value := None |>]> (channels p) |>), (c <| read_state := Lsb |> <| latched_value := None |>).
  assert (v mod U8 = Z.land v 0xFF ∧ v / U8 = Z.land (Z.shiftr v 8) 0xFF) as [-> ->].
  { change 0xFF with (Z.ones 8). rewrite !Z.land_ones, Z.shiftr_div_pow2 by lia. change (2 ^ 8) with U8.
    split; [done|]. symmetry. apply Z.mod_small. ints. mlia. }
  split; [|split; [|split; [|done]]].
  - unfold pit_read_inner. rewrite Hcond, (index_lookup _ _ c), ret_bind by (assumption || lia). rewrite Hv, ret_bind, Hr.
    by rewrite (Hset p c _ eq_refl Hc).
  - unfold pit_read_inner. rewrite Hcond. rsimp.
    rewrite (index_lookup _ _ (c <| read_state := Msb |>)), ret_bind
      by (lia || (apply list_lookup_insert_eq; unfold zlen in Hb; unfold i; lia)).
    change (latched_value (c <| read_state := Msb |>)) with (latched_value c). rewrite Hv, ret_bind.
    change (read_state (c <| read_state := Msb |>)) with Msb. cbv iota. rewrite (Hset _ (c <| read_state := Msb |>)); [|rsimp; apply zlen_insert|].
    + rewrite ret_bind. rsimp. rewrite list_insert_insert_eq. done.
    + rsimp. apply list_lookup_insert_eq. unfold zlen in Hb. unfold i. lia.
  - rsimp. apply list_lookup_insert_eq. unfold zlen in Hb. unfold i. lia.
Qed.

(** ** Interrupts of the timers *)

Section timer_interrupts.
Context `{KeyOrder}.

Lemma deliver_irq0_total p x : irqs_ok x → ∃ b x', deliver_irq0 p x = Ret (p <| ioapic_timer_enabled := b |>, x') ∧ irqs_ok x'.
Proof.
  intros Hx. unfold deliver_irq0, is_pin_masked. rewrite (irqs_table x Hx). change (24 <=? 2) with false. cbv iota.
  destruct (lookup_lt_is_Some_2 (redirection_table (io_apic x)) 2) as [e He]; [pose proof (irqs_table x Hx); unfold zlen in *; lia|].
  rewrite (index_lookup _ _ e), !ret_bind by (assumption || lia). destruct (negb _).
  - destruct (io_apic_set_irq_total 2 true x Hx ltac:(lia)) as (d & -> & Hd). rewrite ret_bind.
    destruct (io_apic_set_irq_total 2 false _ Hd ltac:(lia)) as (d' & -> & Hd'). rewrite ret_bind. eauto.
  - destruct (ioapic_timer_enabled p) eqn:Ep; [exists true, x; split; [destruct p; cbn in *; by subst|assumption]|].
    destruct (pic_raise_total 0 x Hx ltac:(lia)) as (q & -> & Hq). rewrite ret_bind. exists false. eexists.
    split; [destruct p; cbn in *; subst; reflexivity|assumption].
Qed.

(** Before the guest uses the I/O controller, a tick requests line 0. *)
Lemma tick_requests_line_0 p x : irqs_ok x → is_pin_masked 2 (io_apic x) = Ret true → ioapic_timer_enabled p = false →
  Z.testbit (pic_imr (pic x)) 0 = false → ∃ x', deliver_irq0 p x = Ret (p, x') ∧ requested (pic x') 0 = true.
Proof.
  intros Hx Hm Hp Hi. unfold deliver_irq0. rewrite Hm, ret_bind, Hp. cbn [negb].
  destruct (pic_raise_irq 0 (pic x)) as [q|] eqn:E.
  2: { unfold pic_raise_irq in E. by rewrite irq_bit_ret, ret_bind in E by lia. }
  rewrite ret_bind. eexists. split; [reflexivity|]. rsimp.
  destruct (raise_spec 0 (pic x) q (irqs_pic x Hx) ltac:(lia) E) as (_ & _ & _ & Hreq).
  rewrite Hreq, Hi by lia. by rewrite orb_true_r.
Qed.

(** Checks of the timer at the times [ts], as before every entry of the guest. *)
Fixpoint pit_checks g (ts : list Z) p x : res (list bool * VirtualPit * Irqs) :=
  match ts with
  | [] => Ret ([], p, x)
  | t :: ts => '(b, p, x) ← pit_check_timer g t p x; '(bs, p, x) ← pit_checks g ts p x; Ret (b :: bs, p, x)
  end.

Lemma pit_check_channel g now p x c b c' : irqs_ok x → channels p !! 0%nat = Some c → channel_due g now c = Ret (b, c') →
  ∃ e x', pit_check_timer g now p x = Ret (b, p <| channels := <[0%nat := c']> (channels p) |> <| ioapic_timer_enabled := e |>, x') ∧
    irqs_ok x'.
Proof.
  intros Hx Hc Hd. unfold pit_check_timer. rewrite (index_lookup _ 0 c), ret_bind, Hd, ret_bind by (assumption || lia).
  unfold set_channel. rewrite store_as_insert, !ret_bind
    by (apply lookup_lt_Some in Hc; unfold zlen; lia). change (Z.to_nat 0) with 0%nat.
  destruct b; [|exists (ioapic_timer_enabled p), x; by destruct p].
  destruct (deliver_irq0_total (p <| channels := <[0%nat := c']> (channels p) |>) x Hx) as (e & x' & -> & Hx').
  rewrite ret_bind. by exists e, x'.
Qed.

Lemma pit_checks_spec g ts : ∀ p x c bs c', irqs_ok x → channels p !! 0%nat = Some c → channel_checks g ts c = Ret (bs, c') →
  ∃ p' x', pit_checks g ts p x = Ret (bs, p', x') ∧ channels p' !! 0%nat = Some c' ∧ irqs_ok x'.
Proof.
  induction ts as [|t ts IH]; intros p x c bs c' Hx Hc E; cbn [pit_checks channel_checks] in *.
  - simplify_eq. by exists p, x.
  - apply bind_ret_inv in E as ([b c1] & Ed & E). apply bind_ret_inv in E as ([bs1 c2] & Ec & E). simplify_eq.
    destruct (pit_check_channel g t p x c b c1 Hx Hc Ed) as (e & x1 & -> & Hx1). rewrite ret_bind.
    destruct (IH (p <| channels := <[0%nat := c1]> (channels p) |> <| ioapic_timer_enabled := e |>) x1 c1 bs1 c' Hx1) as (p' & x' & -> & ?);
      [rsimp; apply list_lookup_insert_eq; by apply lookup_lt_Some in Hc|assumption|].
    rewrite ret_bind. eauto.
Qed.

(** C22: however irregularly a guest is entered, the interval timer in a
    periodic mode ticks on the points that are whole periods after its start:
    a check raises the interrupt exactly when such a point was passed since the
    check before, and no delay adds up. *)
Theorem pit_keeps_phase g ts p x c : irqs_ok x → channels p !! 0%nat = Some c → irq_armed c = true → is_periodic (mode c) = true →
  0 ≤ tsc_hz g < U64 → 0 ≤ reload_value c < U16 → 0 < last_irq_tsc c → advancing (last_irq_tsc c) ts →
  ∃ p' x', let P := fire_interval g c in let t0 := last_irq_tsc c in
    pit_checks g ts p x = Ret (crossings P t0 t0 ts, p', x') ∧
    channels p' !! 0%nat = Some (c <| last_irq_tsc := t0 + periods_at P t0 (List.last ts t0) * P |>) ∧ irqs_ok x'.
Proof.
  intros Hx Hc Ha Hp Hg Hr Ht Hadv. cbv zeta. apply (pit_checks_spec g ts p x c); [assumption..|].
  apply periodic_checks; try assumption; [by apply fire_interval_range|lia|].
  unfold periods_at. rewrite Z.sub_diag, Z.div_0_l by (pose proof (fire_interval_range g c Hg Hr); lia). lia.
Qed.

Lemma raise_routes_total routes : ∀ x, irqs_ok x → Forall (λ r, 0 ≤ r) routes → ∃ x', raise_routes routes x = Ret x' ∧ irqs_ok x'.
Proof.
  induction routes as [|r routes IH]; intros x Hx Hf; cbn [raise_routes]; [by exists x|].
  apply Forall_cons in Hf as [Hr Hf]. destruct (io_apic_set_irq_total r true x Hx Hr) as (d & -> & Hd). rewrite ret_bind. by apply IH.
Qed.

Lemma timer_route_nonneg t : 0 ≤ timer_route t.
Proof. unfold timer_route. apply Z.shiftr_nonneg, Z.land_nonneg. by right. Qed.

Record hpet_ok h : Prop := { hp_timers : zlen (timers h) = NUM_TIMERS; hp_ok : Forall timer_ok (timers h) }.

(** a check of the event timer while it runs handles all three timers:
    those due, and only those, have their status bit set, their pins are raised
    in the order of their numbers, a periodic one is moved on and another one
    is disarmed. *)
Theorem hpet_fires_due_timers g now h x counter : hpet_ok h → irqs_ok x → hpet_enabled (general_config h) = true →
  current_counter g now h = Ret counter → u64 counter →
  let due := filter (λ t, timer_due counter t = true) (timers h) in
  ∃ x', raise_routes (timer_route <$> due) x = Ret x' ∧ irqs_ok x' ∧
    hpet_check_timer g now h x =
    Ret (negb (zlen due =? 0),
         h <| interrupt_status := status_after counter 0 (interrupt_status h) (timers h) |>
           <| timers := after_check counter <$> timers h |>, x').
Proof.
  intros [Hl Hok] Hx He Hc Hu. cbv zeta. destruct (raise_routes_total (timer_route <$> filter (λ t, timer_due counter t = true) (timers h)) x Hx)
    as (x' & E & Hx').
  { apply Forall_fmap, Forall_true. intros. apply timer_route_nonneg. }
  exists x'. split; [assumption|]. split; [assumption|]. unfold hpet_check_timer. rewrite He, Hc, ret_bind. cbn [negb].
  pose proof (check_timers_spec counter Hu (timers h) [] [] h eq_refl Hok) as Hs.
  assert (length (timers h) = 3%nat) as E3 by (unfold zlen, NUM_TIMERS in Hl; lia). rewrite E3 in Hs.
  change (zlen (@nil TimerState)) with 0 in Hs. cbn [app] in Hs. rewrite Hs, ret_bind.
  assert (zlen (timer_route <$> filter (λ t, timer_due counter t = true) (timers h)) =
    zlen (filter (λ t, timer_due counter t = true) (timers h))) as -> by (unfold zlen; by rewrite length_fmap).
  destruct (Z.eqb_spec (zlen (filter (λ t, timer_due counter t = true) (timers h))) 0) as [Ez|Ez]; cbn [negb].
  - apply zlen_zero_inv in Ez. rewrite Ez in E. cbn in E. by simplify_eq.
  - by rewrite E.
Qed.

End timer_interrupts.

(** ** Instances *)

Definition sample_channel : PitChannel := mkPitChannel 0 0 2 Lsb Lsb None 1000 1000 true 3 true.
Definition sample_pit : VirtualPit := mkPit [sample_channel; channel_new; channel_new] false.
Definition sample_times : list Z := [100000000; 200000000; 500000000; 500000001].

Lemma pit_keeps_phase_witness : ∃ p' x',
  pit_checks (H := hash_order) sample_clock sample_times sample_pit sample_irqs =
    Ret (crossings (fire_interval sample_clock sample_channel) 1000 1000 sample_times, p', x') ∧
  channels p' !! 0%nat = Some (sample_channel <| last_irq_tsc := 1000 +
    periods_at (fire_interval sample_clock sample_channel) 1000 (List.last sample_times 1000) * fire_interval sample_clock sample_channel |>) ∧
  irqs_ok x'.
Proof.
  apply (pit_keeps_phase (H := hash_order) sample_clock sample_times sample_pit sample_irqs sample_channel);
    [exact sample_irqs_ok|reflexivity|reflexivity|reflexivity|vm_compute; split; congruence|vm_compute; split; congruence|
     reflexivity|vm_compute; repeat split; congruence].
Defined.

Lemma sample_crossings : crossings (fire_interval sample_clock sample_channel) 1000 1000 sample_times = [false; true; true; false].
Proof. vm_compute. reflexivity. Qed.

Definition sample_hpet : HpetState :=
  mkHpet 1 0 0 0 [mkTimer (Z.lor TIMER_INTERRUPT_ENABLE TIMER_PERIODIC) 50 50 true; mkTimer TIMER_INTERRUPT_ENABLE 1000000000 0 true;
                  mkTimer TIMER_INTERRUPT_ENABLE 7 0 true].

Lemma hpet_fires_due_timers_witness :
  hpet_ok sample_hpet ∧ irqs_ok sample_irqs ∧ current_counter sample_clock 100000 sample_hpet = Ret 416 ∧
  ∃ x', raise_routes (H := hash_order) [0; 0] sample_irqs = Ret x' ∧ irqs_ok x' ∧
    hpet_check_timer (H := hash_order) sample_clock 100000 sample_hpet sample_irqs =
    Ret (true, sample_hpet <| interrupt_status := 5 |>
      <| timers := [mkTimer (Z.lor TIMER_INTERRUPT_ENABLE TIMER_PERIODIC) 450 50 true; mkTimer TIMER_INTERRUPT_ENABLE 1000000000 0 true;
                    mkTimer TIMER_INTERRUPT_ENABLE 7 0 false] |>, x').
Proof.
  assert (hpet_ok sample_hpet) as Hh.
  { constructor; [reflexivity|]. repeat constructor; vm_compute; congruence. }
  split; [exact Hh|]. split; [exact sample_irqs_ok|]. split; [vm_compute; reflexivity|].
  apply (hpet_fires_due_timers (H := hash_order) sample_clock 100000 sample_hpet sample_irqs 416 Hh sample_irqs_ok);
    [reflexivity|vm_compute; reflexivity|vm_compute; split; congruence].
Defined.
