(* ===== verification/GuestSerial.v ===== *)
(** * The serial port of a guest

    [kernel/src/driver/hv/reindeer/device/legacy/serial.rs].  What the port
    hands to the log is the list [logged]; [attached] says whether the device
    was connected to the interrupt controller. *)

From stdpp Require Import gmap.
From S2P Require Import Prelude Bits GuestPic GuestApic GuestLapic.

Implicit Types x : Irqs.

Inductive VirtualSerialPortBackingDevice := Com | Remote | Debug | NoBacking.

Definition TX_LINE_BUFFER_SIZE : Z := 1024.

Record VirtualSerialPort := mkSerial {
  base_port : Z;
  backing_device : VirtualSerialPortBackingDevice;
  serial_irq_line : Z;
  dlab : bool;
  loopback : bool;
  lcr : Z;
  mcr : Z;
  scratch : Z;
  last_byte : Z;
  ier : Z;
  thr_irq_pending : bool;
  rda_irq_pending : bool;
  rx_fifo : list Z;
  tx_line_buffer : list Z;
  tx_line_buffer_len : Z;
  attached : bool;
  logged : list (list Z)
}.
#[global] Instance eta_serial : Eta VirtualSerialPort := λ s,
  mkSerial (base_port s) (backing_device s) (serial_irq_line s) (dlab s) (loopback s) (lcr s) (mcr s) (scratch s)
    (last_byte s) (ier s) (thr_irq_pending s) (rda_irq_pending s) (rx_fifo s) (tx_line_buffer s) (tx_line_buffer_len s)
    (attached s) (logged s).
Implicit Types s : VirtualSerialPort.

Definition IER_RDA : Z := bit 0.
Definition IER_THRE : Z := bit 1.
Definition IIR_NO_INTERRUPT : Z := 0xC1.
Definition IIR_THRE : Z := 0xC2.
Definition IIR_RDA : Z := 0xC4.

Definition serial_new (port : Z) (backing : VirtualSerialPortBackingDevice) : VirtualSerialPort :=
  let irq := if (port =? 0x3F8) || (port =? 0x3E8) then 4 else if (port =? 0x2F8) || (port =? 0x2E8) then 3 else 4 in
  mkSerial port backing irq false false 0 0 0 0 0 false false [] (zeros TX_LINE_BUFFER_SIZE) 0 false [].

(** [b'\n'] is 10. *)
Definition handle_output (value : Z) s : res VirtualSerialPort :=
  match backing_device s with
  | Com | Debug | NoBacking => Ret s
  | Remote =>
      s ← (if tx_line_buffer_len s <? zlen (tx_line_buffer s) then
             b ← store (tx_line_buffer s) (tx_line_buffer_len s) value;
             Ret (s <| tx_line_buffer := b |> <| tx_line_buffer_len := tx_line_buffer_len s + 1 |>)
           else if value =? 10 then
             b ← store (tx_line_buffer s) (TX_LINE_BUFFER_SIZE - 1) value; Ret (s <| tx_line_buffer := b |>)
           else Ret s);
      if value =? 10 then
        line ← slice (tx_line_buffer s) 0 (tx_line_buffer_len s);
        Ret (s <| logged := logged s ++ [line] |> <| tx_line_buffer_len := 0 |>)
      else Ret s
  end.

Definition fifo_empty s : bool := zlen (rx_fifo s) =? 0.

Definition current_iir s : Z :=
  if negb (Z.land (ier s) IER_RDA =? 0) && rda_irq_pending s && negb (fifo_empty s) then IIR_RDA
  else if negb (Z.land (ier s) IER_THRE =? 0) && thr_irq_pending s then IIR_THRE
  else IIR_NO_INTERRUPT.

Section serial.
Context `{KeyOrder}.

Definition raise_irq_line s x : res Irqs :=
  if attached s then io_apic_set_irq (serial_irq_line s) true x else Ret x.

Definition update_irq s x : res Irqs :=
  if negb (current_iir s =? IIR_NO_INTERRUPT) then raise_irq_line s x else Ret x.

Definition inject_rx (bs : list Z) s x : res (VirtualSerialPort * Irqs) :=
  if zlen bs =? 0 then Ret (s, x)
  else
    let s := s <| rx_fifo := rx_fifo s ++ bs |> <| rda_irq_pending := true |> in
    x ← update_irq s x; Ret (s, x).

Definition serial_attach s x : res (VirtualSerialPort * Irqs) :=
  let s := s <| attached := true |> in x ← update_irq s x; Ret (s, x).

Definition read_receive_buffer s x : res (Z * VirtualSerialPort * Irqs) :=
  if dlab s then Ret (0, s, x)
  else if loopback s then Ret (last_byte s, s, x)
  else match rx_fifo s with
  | [] => Ret (0, s, x)
  | b :: rest =>
      let s := s <| rx_fifo := rest |> in
      let s := s <| rda_irq_pending := negb (fifo_empty s) |> in
      x ← update_irq s x; Ret (b, s, x)
  end.

Definition serial_io_read (addr : Z) s x : res (Z * VirtualSerialPort * Irqs) :=
  offset ← sub_chk U64 addr (base_port s);
  if offset =? 1 then Ret (if dlab s then 0 else ier s, s, x)
  else if offset =? 0 then read_receive_buffer s x
  else if offset =? 3 then Ret (lcr s, s, x)
  else if offset =? 4 then Ret (mcr s, s, x)
  else if offset =? 5 then Ret (if loopback s || negb (fifo_empty s) then Z.lor 0x60 0x01 else 0x60, s, x)
  else if offset =? 2 then
    let iir := current_iir s in
    Ret (iir, if iir =? IIR_THRE then s <| thr_irq_pending := false |> else s, x)
  else if offset =? 6 then Ret (0xB0, s, x)
  else if offset =? 7 then Ret (scratch s, s, x)
  else Crash Panic.

Definition write_transmit_buffer (value : Z) s x : res (VirtualSerialPort * Irqs) :=
  if dlab s then Ret (s, x)
  else
    let should_raise_thre := negb (thr_irq_pending s) in
    s ← (if loopback s
         then Ret (s <| last_byte := value |> <| rx_fifo := rx_fifo s ++ [value mod U8] |> <| rda_irq_pending := true |>)
         else handle_output (value mod U8) s);
    let s := s <| thr_irq_pending := true |> in
    if should_raise_thre then x ← update_irq s x; Ret (s, x) else Ret (s, x).

Definition write_interrupt_enable (value : Z) s x : res (VirtualSerialPort * Irqs) :=
  if dlab s then Ret (s, x)
  else
    let e := Z.land (value mod U8) 0x0F in
    let s := s <| ier := e |> <| thr_irq_pending := negb (Z.land e IER_THRE =? 0) |> in
    let s := if negb (Z.land e IER_RDA =? 0) && negb (fifo_empty s) then s <| rda_irq_pending := true |> else s in
    x ← update_irq s x; Ret (s, x).

Definition serial_io_write (addr value : Z) s x : res (VirtualSerialPort * Irqs) :=
  offset ← sub_chk U64 addr (base_port s);
  if offset =? 0 then write_transmit_buffer value s x
  else if offset =? 1 then write_interrupt_enable value s x
  else if offset =? 2 then Ret (s, x)
  else if offset =? 3 then Ret (s <| lcr := value mod U8 |> <| dlab := negb (Z.land value 0x80 =? 0) |>, x)
  else if offset =? 4 then Ret (s <| mcr := value mod U8 |> <| loopback := negb (Z.land value 0x10 =? 0) |>, x)
  else if offset =? 7 then Ret (s <| scratch := value mod U8 |>, x)
  else Ret (s, x).

(** ** Lines *)

Fixpoint write_bytes (bs : list Z) s x : res (VirtualSerialPort * Irqs) :=
  match bs with
  | [] => Ret (s, x)
  | b :: bs => '(s, x) ← serial_io_write (base_port s) b s x; write_bytes bs s x
  end.

End serial.

(** Output of the bytes of a line, as [handle_output] sees them. *)
Fixpoint output_bytes (bs : list Z) s : res VirtualSerialPort :=
  match bs with [] => Ret s | b :: bs => s ← handle_output b s; output_bytes bs s end.

Lemma output_bytes_app l1 l2 s : output_bytes (l1 ++ l2) s = (s' ← output_bytes l1 s; output_bytes l2 s').
Proof. revert s. induction l1 as [|b l1 IH]; intros s; [done|]. cbn [app output_bytes]. destruct (handle_output b s); [apply IH|done]. Qed.

(** The buffer holds [line], up to its size. *)
Record buffering (line : list Z) s : Prop := {
  bf_backing : backing_device s = Remote;
  bf_size : zlen (tx_line_buffer s) = TX_LINE_BUFFER_SIZE;
  bf_len : tx_line_buffer_len s = Z.min (zlen line) TX_LINE_BUFFER_SIZE;
  bf_data : ztake (tx_line_buffer_len s) (tx_line_buffer s) = ztake TX_LINE_BUFFER_SIZE line
}.

(** The line that is logged: a line too long for the buffer is cut, and its
    last byte gives way to the end of the line. *)
Definition logged_line (line : list Z) : list Z := ztake (TX_LINE_BUFFER_SIZE - 1) line ++ [10].

Lemma ztake_splice_snoc {A} (l : list A) n (b : A) : 0 ≤ n < zlen l → ztake (n + 1) (splice l n [b]) = ztake n l ++ [b].
Proof.
  intros. unfold splice. rewrite app_assoc. unfold ztake at 1. rewrite take_app_le.
  - apply take_ge. rewrite length_app. unfold ztake. rewrite length_take. cbn. unfold zlen in *. lia.
  - rewrite length_app. unfold ztake. rewrite length_take. cbn. unfold zlen in *. lia.
Qed.

Lemma output_byte line b s : buffering line s → b ≠ 10 → ∃ s', handle_output b s = Ret s' ∧ buffering (line ++ [b]) s' ∧
  s' = s <| tx_line_buffer := tx_line_buffer s' |> <| tx_line_buffer_len := tx_line_buffer_len s' |>.
Proof.
  intros [Hb Hs Hl Hd] Hne. unfold handle_output, TX_LINE_BUFFER_SIZE in *. rewrite Hb, (proj2 (Z.eqb_neq b 10)) by assumption.
  pose proof (zlen_nonneg line). destruct (Z.ltb_spec (tx_line_buffer_len s) (zlen (tx_line_buffer s))).
  - rewrite store_ret, !ret_bind by lia. eexists. split; [reflexivity|]. split; [|reflexivity]. constructor; rsimp; unfold TX_LINE_BUFFER_SIZE.
    + assumption.
    + rewrite zlen_splice; rewrite ?zlen_cons, ?zlen_nil; lia.
    + rewrite zlen_app, zlen_cons, zlen_nil. lia.
    + rewrite ztake_splice_snoc, Hd by lia. rewrite !ztake_all by (rewrite ?zlen_app, ?zlen_cons, ?zlen_nil; lia). done.
  - rewrite ret_bind. exists s. split; [done|]. split; [|by destruct s]. constructor; unfold TX_LINE_BUFFER_SIZE; try assumption.
    + rewrite zlen_app, zlen_cons, zlen_nil. lia.
    + rewrite Hd. unfold ztake. rewrite take_app_le; [done|]. unfold zlen in *. lia.
Qed.

Lemma output_plain bs : ∀ line s, buffering line s → Forall (λ b, b ≠ 10) bs → ∃ s', output_bytes bs s = Ret s' ∧
  buffering (line ++ bs) s' ∧ s' = s <| tx_line_buffer := tx_line_buffer s' |> <| tx_line_buffer_len := tx_line_buffer_len s' |>.
Proof.
  induction bs as [|b bs IH]; intros line s Hs Hf; cbn [output_bytes].
  - exists s. rewrite app_nil_r. split; [done|]. split; [assumption|by destruct s].
  - apply Forall_cons in Hf as [Hb Hf]. destruct (output_byte line b s Hs Hb) as (s1 & -> & H1 & E1). rewrite ret_bind.
    destruct (IH (line ++ [b]) s1 H1 Hf) as (s2 & -> & H2 & E2). exists s2. split; [done|].
    rewrite <- app_assoc in H2. split; [assumption|]. rewrite E2, E1. done.
Qed.

Lemma output_newline line s : buffering line s → ∃ s', handle_output 10 s = Ret s' ∧ buffering [] s' ∧
  logged s' = logged s ++ [logged_line line].
Proof.
  intros [Hb Hs Hl Hd]. unfold handle_output, logged_line, TX_LINE_BUFFER_SIZE in *. rewrite Hb. change (10 =? 10) with true. cbv iota.
  pose proof (zlen_nonneg line). destruct (Z.ltb_spec (tx_line_buffer_len s) (zlen (tx_line_buffer s))).
  - rewrite store_ret, !ret_bind by lia. rsimp.
    assert (zlen (splice (tx_line_buffer s) (tx_line_buffer_len s) [10]) = 1024) as Hz
      by (rewrite zlen_splice; rewrite ?zlen_cons, ?zlen_nil; lia).
    rewrite slice_ret, ret_bind by lia. eexists. split; [reflexivity|]. split; [constructor; rsimp; done || assumption|].
    rsimp. do 2 f_equal. rewrite Z.sub_0_r, zdrop_0, ztake_splice_snoc, Hd by lia. by rewrite !ztake_all by lia.
  - rewrite store_ret, !ret_bind by lia. rsimp.
    assert (zlen (splice (tx_line_buffer s) (1024 - 1) [10]) = 1024) as Hz
      by (rewrite zlen_splice; rewrite ?zlen_cons, ?zlen_nil; lia).
    rewrite slice_ret, ret_bind by lia. eexists. split; [reflexivity|]. split; [constructor; rsimp; done || assumption|].
    rsimp. do 2 f_equal. rewrite Z.sub_0_r, zdrop_0. replace (tx_line_buffer_len s) with (1024 - 1 + 1) in * by lia.
    rewrite ztake_splice_snoc by lia. f_equal. replace (1024 - 1 + 1) with 1024 in Hd by lia.
    assert (ztake (1024 - 1) (ztake 1024 (tx_line_buffer s)) = ztake (1024 - 1) (ztake 1024 line)) as He by by rewrite Hd.
    unfold ztake in *. rewrite !take_take in He. exact He.
Qed.

(** ** Through the registers *)

Section serial_proofs.
Context `{KeyOrder}.

Lemma update_irq_total s x : irqs_ok x → 0 ≤ serial_irq_line s → ∃ x', update_irq s x = Ret x' ∧ irqs_ok x'.
Proof.
  intros Hx Hp. unfold update_irq, raise_irq_line. destruct (negb _); [|by exists x]. destruct (attached s); [|by exists x].
  destruct (io_apic_set_irq_total (serial_irq_line s) true x Hx Hp) as (d & E & Hd). eauto.
Qed.

(** The guest talks to the data register. *)
Record plain s : Prop := {
  pl_port : 0 ≤ base_port s < U16;
  pl_irq : 0 ≤ serial_irq_line s;
  pl_dlab : dlab s = false;
  pl_loop : loopback s = false
}.

Lemma serial_write_data b s s1 x : plain s → irqs_ok x → u8 b → handle_output b s = Ret s1 →
  serial_irq_line s1 = serial_irq_line s →
  ∃ x', serial_io_write (base_port s) b s x = Ret (s1 <| thr_irq_pending := true |>, x') ∧ irqs_ok x'.
Proof.
  intros [Hp Hi Hd Hl] Hx Hb E Hirq. unfold serial_io_write. rewrite sub_chk_ret, ret_bind by lia. rewrite Z.sub_diag.
  change (0 =? 0) with true. cbv iota. unfold write_transmit_buffer. rewrite Hd, Hl. cbv zeta.
  rewrite Z.mod_small by exact Hb. rewrite E, ret_bind. destruct (negb (thr_irq_pending s)); [|by exists x].
  destruct (update_irq_total (s1 <| thr_irq_pending := true |>) x Hx) as (x' & -> & Hx'); [rsimp; by rewrite Hirq|].
  by exists x'.
Qed.

Lemma buffering_thr line s b : buffering line s → buffering line (s <| thr_irq_pending := b |>).
Proof. intros []. by constructor. Qed.
Lemma plain_thr s b : plain s → plain (s <| thr_irq_pending := b |>).
Proof. intros []. by constructor. Qed.
Lemma plain_buffer s b n : plain s → plain (s <| tx_line_buffer := b |> <| tx_line_buffer_len := n |>).
Proof. intros []. by constructor. Qed.

Lemma write_plain bs : ∀ line s x, plain s → buffering line s → irqs_ok x → Forall (λ b, u8 b ∧ b ≠ 10) bs →
  ∃ s' x', write_bytes bs s x = Ret (s', x') ∧ plain s' ∧ buffering (line ++ bs) s' ∧ irqs_ok x' ∧ logged s' = logged s.
Proof.
  induction bs as [|b bs IH]; intros line s x Hp Hb Hx Hf; cbn [write_bytes].
  - exists s, x. rewrite app_nil_r. done.
  - apply Forall_cons in Hf as [[Hu Hne] Hf]. destruct (output_byte line b s Hb Hne) as (s1 & E1 & B1 & F1).
    destruct (serial_write_data b s s1 x Hp Hx Hu E1) as (x1 & -> & Hx1); [by rewrite F1|]. rewrite ret_bind.
    destruct (IH (line ++ [b]) (s1 <| thr_irq_pending := true |>) x1) as (s2 & x2 & -> & P2 & B2 & X2 & L2); [|by apply buffering_thr|assumption..|].
    { apply plain_thr. rewrite F1. by apply plain_buffer. }
    exists s2, x2. rewrite <- app_assoc in B2. split_and!; [done|assumption..|]. rewrite L2, F1. done.
Qed.

Lemma write_line line s x : plain s → buffering [] s → irqs_ok x → Forall (λ b, u8 b ∧ b ≠ 10) line →
  ∃ s' x', write_bytes (line ++ [10]) s x = Ret (s', x') ∧ logged s' = logged s ++ [logged_line line] ∧
    buffering [] s' ∧ plain s' ∧ irqs_ok x'.
Proof.
  intros Hp Hb Hx Hf. destruct (write_plain line [] s x Hp Hb Hx Hf) as (s1 & x1 & E1 & P1 & B1 & X1 & L1).
  assert (∀ l2 l1 s x, write_bytes (l1 ++ l2) s x = ('(s', x') ← write_bytes l1 s x; write_bytes l2 s' x')) as Happ.
  { clear. intros l2 l1. induction l1 as [|b l1 IH]; intros s x; [done|]. cbn [app write_bytes].
    destruct (serial_io_write (base_port s) b s x) as [[s1 x1]|]; [apply IH|done]. }
  rewrite Happ, E1, ret_bind. cbn [write_bytes]. destruct (output_newline line s1 B1) as (s2 & E2 & B2 & L2).
  assert (serial_irq_line s2 = serial_irq_line s1 ∧ base_port s2 = base_port s1 ∧ dlab s2 = dlab s1 ∧ loopback s2 = loopback s1)
    as (Fi & Fb & Fd & Fl).
  { clear -E2 B1. unfold handle_output in E2. rewrite (bf_backing _ _ B1) in E2.
    destruct (_ <? _) in E2; apply bind_ret_inv in E2 as (t & E2 & E3); apply bind_ret_inv in E2 as (u & _ & [= <-]);
    apply bind_ret_inv in E3 as (w & _ & [= <-]); done. }
  destruct (serial_write_data 10 s1 s2 x1 P1 X1) as (x2 & -> & X2); [done|assumption|by rewrite Fi|]. rewrite ret_bind.
  exists (s2 <| thr_irq_pending := true |>), x2. split; [done|]. split; [rsimp; by rewrite L2, L1|].
  split; [by apply buffering_thr|]. split; [|assumption]. apply plain_thr. destruct P1. constructor; congruence.
Qed.

(** [n] reads of the data register. *)
Fixpoint read_bytes (n : nat) s x : res (list Z * VirtualSerialPort * Irqs) :=
  match n with
  | O => Ret ([], s, x)
  | S n => '(b, s, x) ← serial_io_read (base_port s) s x; '(bs, s, x) ← read_bytes n s x; Ret (b :: bs, s, x)
  end.

Lemma serial_read_data b rest s x : plain s → irqs_ok x → rx_fifo s = b :: rest →
  ∃ s' x', serial_io_read (base_port s) s x = Ret (b, s', x') ∧ rx_fifo s' = rest ∧ plain s' ∧ irqs_ok x'.
Proof.
  intros [Hp Hi Hd Hl] Hx E. unfold serial_io_read. rewrite sub_chk_ret, ret_bind by lia. rewrite Z.sub_diag.
  change (0 =? 1) with false. change (0 =? 0) with true. cbv iota. unfold read_receive_buffer. rewrite Hd, Hl, E. cbv zeta.
  match goal with |- context [update_irq ?s x] => destruct (update_irq_total s x Hx Hi) as (x' & -> & Hx') end.
  rewrite ret_bind. do 2 eexists. split; [reflexivity|]. split; [done|]. split; [by constructor|assumption].
Qed.

Lemma read_fifo l : ∀ s x, plain s → irqs_ok x → rx_fifo s = l →
  ∃ s' x', read_bytes (length l) s x = Ret (l, s', x') ∧ rx_fifo s' = [] ∧ plain s' ∧ irqs_ok x'.
Proof.
  induction l as [|b l IH]; intros s x Hp Hx E; cbn [read_bytes length].
  - by exists s, x.
  - destruct (serial_read_data b l s x Hp Hx E) as (s1 & x1 & -> & E1 & P1 & X1). rewrite ret_bind.
    destruct (IH s1 x1 P1 X1 E1) as (s2 & x2 & -> & ?). rewrite ret_bind. eauto.
Qed.

(** Bytes that arrive are read in their order, after those that wait. *)
Lemma input_in_order bs s x : plain s → irqs_ok x →
  ∃ s' x', ('(s, x) ← inject_rx bs s x; read_bytes (length (rx_fifo s)) s x) = Ret (rx_fifo s ++ bs, s', x') ∧
    rx_fifo s' = [] ∧ irqs_ok x'.
Proof.
  intros Hp Hx. unfold inject_rx. destruct (Z.eqb_spec (zlen bs) 0) as [E|_].
  - apply zlen_zero_inv in E as ->. rewrite ret_bind, app_nil_r.
    destruct (read_fifo (rx_fifo s) s x Hp Hx eq_refl) as (s' & x' & -> & ? & _ & ?). eauto.
  - cbv zeta. destruct (update_irq_total (s <| rx_fifo := rx_fifo s ++ bs |> <| rda_irq_pending := true |>) x Hx) as (x1 & -> & X1).
    { apply Hp. }
    rewrite !ret_bind. rsimp. destruct (read_fifo (rx_fifo s ++ bs) (s <| rx_fifo := rx_fifo s ++ bs |> <| rda_irq_pending := true |>) x1)
      as (s' & x' & -> & ? & _ & ?); [destruct Hp; by constructor|assumption|done|]. eauto.
Qed.

(** a guest that writes a line to the data register has it logged once, cut
    to the buffer if it is too long, and the port is ready for the next line. *)
Theorem serial_line_is_logged line s x : plain s → buffering [] s → irqs_ok x → Forall (λ b, u8 b ∧ b ≠ 10) line →
  ∃ s' x', write_bytes (line ++ [10]) s x = Ret (s', x') ∧ logged s' = logged s ++ [logged_line line] ∧
    buffering [] s' ∧ plain s' ∧ irqs_ok x'.
Proof. exact (write_line line s x). Qed.

(** A byte read back in loopback mode stays in the queue, and is read a second
    time when the mode ends. *)
Lemma loopback_byte_read_twice x :
  ('(s, x) ← serial_io_write (0x3F8 + 4) 0x10 (serial_new 0x3F8 NoBacking) x;
   '(s, x) ← serial_io_write 0x3F8 0x41 s x;
   '(first, s, x) ← serial_io_read 0x3F8 s x;
   '(s, x) ← serial_io_write (0x3F8 + 4) 0 s x;
   '(second, s, x) ← serial_io_read 0x3F8 s x;
   Ret (first, second)) = Ret (0x41, 0x41).
Proof. reflexivity. Qed.

End serial_proofs.

Lemma serial_line_is_logged_witness : ∃ s' x',
  write_bytes (H := hash_order) [72; 105; 10] (serial_new 0x3F8 Remote) sample_irqs = Ret (s', x') ∧
  logged s' = [] ++ [[72; 105; 10]] ∧ buffering [] s' ∧ plain s' ∧ irqs_ok x'.
Proof.
  apply (serial_line_is_logged (H := hash_order) [72; 105] (serial_new 0x3F8 Remote) sample_irqs).
  - constructor; vm_compute; done || (split; congruence).
  - constructor; vm_compute; reflexivity.
  - exact sample_irqs_ok.
  - repeat constructor; vm_compute; congruence.
Defined.
