(* ===== verification/GuestBus.v ===== *)
(** * The bus of a guest

    [kernel/src/driver/hv/reindeer/device/mod.rs]: which device answers an
    access to a port or an address.  Devices are the values of a type [D] with
    state in [S]; the trait [VirtualDevice] is a class, whose default methods
    stop the machine. *)

From stdpp Require Import gmap sorting.
From S2P Require Import Prelude.

Inductive DeviceResource :=
| IoPort (port : Z)
| IoPortRange (base size : Z)
| Mmio (base size : Z).

(** The [n]th reading of the time stamp counter during the access is [now n]. *)
Class VirtualDevice (D S : Type) := {
  get_resources : D → S → list DeviceResource;
  handle_io_read : D → (nat → Z) → Z → Z → Z → S → res (Z * S);
  handle_io_write : D → (nat → Z) → Z → Z → Z → Z → S → res S;
  handle_mmio_read : D → (nat → Z) → Z → Z → Z → S → res (Z * S);
  handle_mmio_write : D → (nat → Z) → Z → Z → Z → Z → S → res S
}.

Record MmioEntry (D : Type) := mkMmio { range_start : Z; range_last : Z; entry_device : D }.
Arguments mkMmio {D}. Arguments range_start {D}. Arguments range_last {D}. Arguments entry_device {D}.

Record SystemBus (D : Type) := mkBus { io_map : gmap Z D; mmio_map : list (MmioEntry D); devices : list D }.
Arguments mkBus {D}. Arguments io_map {D}. Arguments mmio_map {D}. Arguments devices {D}.
#[global] Instance eta_bus D : Eta (SystemBus D) := λ b, mkBus (io_map b) (mmio_map b) (devices b).

Section bus.
Context {D S : Type}.
Implicit Types (d : D) (b : SystemBus D) (s : S) (e : MmioEntry D).

Definition bus_new : SystemBus D := mkBus ∅ [] [].

(** [sort_by_key] is stable. *)
Fixpoint insert_entry e (l : list (MmioEntry D)) : list (MmioEntry D) :=
  match l with
  | [] => [e]
  | f :: l => if range_start e <? range_start f then e :: f :: l else f :: insert_entry e l
  end.
Definition sort_entries (l : list (MmioEntry D)) : list (MmioEntry D) := foldl (λ acc e, insert_entry e acc) [] l.

Definition map_mmio (base size : Z) d b : res (SystemBus D) :=
  rassert (0 <? size);;
  last ← add_chk U64 base size;
  Ret (b <| mmio_map := sort_entries (mmio_map b ++ [mkMmio base (last - 1) d]) |>).

Definition unmap_mmio (base size : Z) b : res (SystemBus D) :=
  if size =? 0 then Ret b
  else
    last ← add_chk U64 base size;
    Ret (b <| mmio_map := filter (λ e, ¬ (range_start e = base ∧ range_last e = last - 1)) (mmio_map b) |>).

(** [base..base + n], inserted one by one. *)
Definition insert_ports (base : Z) (n : nat) d (m : gmap Z D) : gmap Z D :=
  foldl (λ m p, <[p := d]> m) m (seqZ base (Z.of_nat n)).

Definition map_io_range (base size : Z) d b : res (SystemBus D) :=
  rassert (0 <? size);;
  _ ← add_chk U16 base size;
  Ret (b <| io_map := insert_ports base (Z.to_nat size) d (io_map b) |>).

Definition unmap_io_range (base size : Z) b : SystemBus D :=
  if size =? 0 then b
  else if U16 <=? base + size then b
  else b <| io_map := foldl (λ m p, delete p m) (io_map b) (seqZ base size) |>.

Definition map_resource d (r : DeviceResource) b : res (SystemBus D) :=
  match r with
  | IoPort port => Ret (b <| io_map := <[port := d]> (io_map b) |>)
  | IoPortRange base size => map_io_range base size d b
  | Mmio base size => map_mmio base size d b
  end.

Fixpoint map_resources d (rs : list DeviceResource) b : res (SystemBus D) :=
  match rs with [] => Ret b | r :: rs => b ← map_resource d r b; map_resources d rs b end.

Context `{VirtualDevice D S}.

Definition register_device d s b : res (SystemBus D) :=
  b ← map_resources d (get_resources d s) b;
  Ret (b <| devices := devices b ++ [d] |>).

Fixpoint register_all (ds : list D) s b : res (SystemBus D) :=
  match ds with [] => Ret b | d :: ds => b ← register_device d s b; register_all ds s b end.

(** Up to four base addresses of serial ports, sorted, without repetition. *)
Definition COM_BASES : list Z := [0x3F8; 0x2F8; 0x3E8; 0x2E8].
Fixpoint dedup (l : list Z) : list Z :=
  match l with
  | a :: (c :: _) as t => if a =? c then dedup t else a :: dedup t
  | _ => l
  end.
Definition resource_base (r : DeviceResource) : option Z :=
  match r with
  | IoPort port => Some port
  | IoPortRange base size => if 8 <=? size then Some base else None
  | Mmio _ _ => None
  end.
Definition uart_io_bases s b : list Z :=
  let bases := filter (λ p, p ∈ COM_BASES) (omap resource_base (devices b ≫= λ d, get_resources d s)) in
  take 4 (dedup (merge_sort Z.le bases)).

Definition between (a b p : Z) : bool := (a <=? p) && (p <=? b).

Definition is_legacy_device_port (p : Z) : bool :=
  between 0x00 0x0f p || between 0x80 0x8f p || between 0xc0 0xdf p
  || between 0x3f8 0x3ff p || between 0x2f8 0x2ff p || between 0x3e8 0x3ef p || between 0x2e8 0x2ef p
  || between 0x1f0 0x1f7 p || (p =? 0x3f6) || between 0x170 0x177 p || (p =? 0x376)
  || between 0x3bc 0x3be p || between 0x378 0x37a p || between 0x278 0x27a p || between 0x7bc 0x7be p
  || between 0x778 0x77a p || between 0x678 0x67a p
  || between 0x3f0 0x3f5 p || (p =? 0x3f7) || (p =? 0x377)
  || between 0x200 0x20f p || between 0x100 0x11f p
  || bool_decide (p ∈ [0x6a; 0x6b; 0x6d; 0x91; 0x162e; 0x162f; 0x164e; 0x164f])
  || between 0x2100 0x210f p || (p =? 0x60) || (p =? 0x64)
  || bool_decide (p ∈ [0x2e; 0x2f; 0x4e; 0x4f; 0x258; 0x259])
  || between 0x300 0x370 p || between 0x220 0x2ff p
  || bool_decide (p ∈ [0x3e0; 0x3e1; 0x3e2; 0x3e3; 0x3e4; 0x211; 0x218; 0x219; 0x21a]).

Definition reads_zero (p : Z) : bool :=
  between 0x1f0 0x1f7 p || (p =? 0x3f6) || between 0x170 0x177 p || (p =? 0x376) || (p =? 0x60) || (p =? 0x64).

Definition dispatch_io_read (now : nat → Z) (cpu port width : Z) b s : res (Z * S) :=
  match io_map b !! port with
  | Some d => handle_io_read d now cpu port width s
  | None =>
      if is_legacy_device_port port then
        if reads_zero port then Ret (0, s)
        else if width =? 1 then Ret (0xFF, s)
        else if width =? 2 then Ret (0xFFFF, s)
        else if width =? 4 then Ret (0xFFFFFFFF, s)
        else Crash Panic
      else Crash Panic
  end.

Definition dispatch_io_write (now : nat → Z) (cpu port width value : Z) b s : res S :=
  match io_map b !! port with
  | Some d => handle_io_write d now cpu port value width s
  | None => if is_legacy_device_port port then Ret s else Crash Panic
  end.

Definition entry_contains (addr : Z) e : bool := (range_start e <=? addr) && (addr <=? range_last e).
Definition find_device (addr : Z) b : option D :=
  entry_device <$> List.find (entry_contains addr) (mmio_map b).

Definition dispatch_mmio_read (now : nat → Z) (cpu addr width : Z) b s : res (option Z * S) :=
  match find_device addr b with
  | Some d => '(v, s) ← handle_mmio_read d now cpu addr width s; Ret (Some v, s)
  | None => Ret (None, s)
  end.

Definition dispatch_mmio_write (now : nat → Z) (cpu addr width value : Z) b s : res (bool * S) :=
  match find_device addr b with
  | Some d => s ← handle_mmio_write d now cpu addr value width s; Ret (true, s)
  | None => Ret (false, s)
  end.

(** ** Who answers *)

Definition claims_port (p : Z) (r : DeviceResource) : bool :=
  match r with
  | IoPort port => p =? port
  | IoPortRange base size => (base <=? p) && (p <? base + size)
  | Mmio _ _ => false
  end.
Definition claims_addr (a : Z) (r : DeviceResource) : bool :=
  match r with Mmio base size => (base <=? a) && (a <? base + size) | _ => false end.

Definition resource_ok (r : DeviceResource) : Prop :=
  match r with
  | IoPort _ => True
  | IoPortRange base size => 0 < size ∧ 0 ≤ base ∧ base + size < U16
  | Mmio base size => 0 < size ∧ 0 ≤ base ∧ base + size < U64
  end.

(** The last device registered that claims [p]. *)
Fixpoint port_owner (p : Z) (ds : list D) s : option D :=
  match ds with
  | [] => None
  | d :: ds => match port_owner p ds s with
               | Some o => Some o
               | None => if existsb (claims_port p) (get_resources d s) then Some d else None
               end
  end.

Lemma lookup_insert_ports base n d m p :
  insert_ports base n d m !! p = if (base <=? p) && (p <? base + Z.of_nat n) then Some d else m !! p.
Proof.
  unfold insert_ports. revert m. induction n as [|n IH] using nat_ind; intros m.
  - change (seqZ base (Z.of_nat 0)) with (@nil Z). cbn [foldl]. change (Z.of_nat 0) with 0. rewrite Z.add_0_r.
    destruct (Z.leb_spec base p), (Z.ltb_spec p base); done || lia.
  - rewrite seqZ_S, foldl_app, Nat2Z.inj_succ. cbn [foldl].
    destruct (decide (p = base + Z.of_nat n)) as [->|Hne].
    + rewrite lookup_insert_eq. destruct (Z.leb_spec base (base + Z.of_nat n)), (Z.ltb_spec (base + Z.of_nat n) (base + Z.succ (Z.of_nat n))); done || lia.
    + rewrite lookup_insert_ne, IH by done.
      destruct (Z.leb_spec base p), (Z.ltb_spec p (base + Z.of_nat n)), (Z.ltb_spec p (base + Z.succ (Z.of_nat n))); done || lia.
Qed.

Lemma insert_entry_perm e l : insert_entry e l ≡ₚ e :: l.
Proof.
  induction l as [|f l IH]; cbn [insert_entry]; [done|]. destruct (_ <? _); [done|]. rewrite IH. apply Permutation_swap.
Qed.

Lemma sort_entries_perm l : sort_entries l ≡ₚ l.
Proof.
  unfold sort_entries. assert (∀ acc, foldl (λ acc e, insert_entry e acc) acc l ≡ₚ acc ++ l) as Hf; [|apply (Hf [])].
  induction l as [|e l IH]; intros acc; cbn [foldl]; [by rewrite app_nil_r|]. rewrite IH, insert_entry_perm. cbn [app].
  by rewrite <- Permutation_middle.
Qed.

Definition resource_entry d (r : DeviceResource) : option (MmioEntry D) :=
  match r with Mmio base size => Some (mkMmio base (base + size - 1) d) | _ => None end.

Lemma map_resource_spec d r b : resource_ok r → ∃ b', map_resource d r b = Ret b' ∧
  (∀ p, io_map b' !! p = if claims_port p r then Some d else io_map b !! p) ∧
  mmio_map b' ≡ₚ mmio_map b ++ option_list (resource_entry d r) ∧ devices b' = devices b.
Proof.
  destruct r as [port|base size|base size]; cbn [map_resource resource_ok resource_entry claims_port option_list].
  - intros _. eexists. split; [reflexivity|]. rsimp. split; [|by rewrite app_nil_r]. intros p.
    destruct (Z.eqb_spec p port) as [->|]; [apply lookup_insert_eq|by apply lookup_insert_ne].
  - intros (? & ? & ?). unfold map_io_range. rewrite (proj2 (Z.ltb_lt 0 size)), add_chk_ret by lia. cbn [rassert]. rewrite !ret_bind.
    eexists. split; [reflexivity|]. rsimp. split; [|by rewrite app_nil_r]. intros p. rewrite lookup_insert_ports.
    by rewrite Z2Nat.id by lia.
  - intros (? & ? & ?). unfold map_mmio. rewrite (proj2 (Z.ltb_lt 0 size)), add_chk_ret by lia. cbn [rassert]. rewrite !ret_bind.
    eexists. split; [reflexivity|]. rsimp. split; [done|]. by rewrite sort_entries_perm.
Qed.

Lemma map_resources_spec d rs : ∀ b, Forall resource_ok rs → ∃ b', map_resources d rs b = Ret b' ∧
  (∀ p, io_map b' !! p = if existsb (claims_port p) rs then Some d else io_map b !! p) ∧
  mmio_map b' ≡ₚ mmio_map b ++ omap (resource_entry d) rs ∧ devices b' = devices b.
Proof.
  induction rs as [|r rs IH]; intros b Hok; cbn [map_resources existsb].
  - exists b. split; [done|]. split; [done|]. by rewrite app_nil_r.
  - apply Forall_cons in Hok as [Hr Hok]. destruct (map_resource_spec d r b Hr) as (b1 & -> & P1 & M1 & D1). rewrite ret_bind.
    destruct (IH b1 Hok) as (b2 & -> & P2 & M2 & D2). exists b2. split; [done|]. split; [|split; [|congruence]].
    + intros p. rewrite P2, P1. by destruct (claims_port p r), (existsb (claims_port p) rs).
    + rewrite M2, M1, <- app_assoc. cbn. by destruct (resource_entry d r).
Qed.

Definition device_entries s d : list (MmioEntry D) := omap (resource_entry d) (get_resources d s).

Lemma register_all_spec ds : ∀ s b, (∀ d, d ∈ ds → Forall resource_ok (get_resources d s)) → ∃ b', register_all ds s b = Ret b' ∧
  (∀ p, io_map b' !! p = match port_owner p ds s with Some o => Some o | None => io_map b !! p end) ∧
  mmio_map b' ≡ₚ mmio_map b ++ (ds ≫= device_entries s) ∧ devices b' = devices b ++ ds.
Proof.
  induction ds as [|d ds IH]; intros s b Hok; cbn [register_all port_owner].
  - exists b. cbn. rewrite !app_nil_r. done.
  - destruct (map_resources_spec d (get_resources d s) b) as (b1 & E1 & P1 & M1 & D1); [apply Hok; set_solver|].
    unfold register_device. rewrite E1, !ret_bind.
    destruct (IH s (b1 <| devices := devices b1 ++ [d] |>)) as (b2 & -> & P2 & M2 & D2); [intros; apply Hok; set_solver|].
    exists b2. split; [done|]. split; [|split].
    + intros p. rewrite P2. rsimp. rewrite P1. by destruct (port_owner p ds s), (existsb (claims_port p) (get_resources d s)).
    + rewrite M2. rsimp. rewrite M1, <- app_assoc. done.
    + rewrite D2. rsimp. by rewrite D1, <- app_assoc.
Qed.

Lemma entry_claims s d e a : e ∈ device_entries s d → entry_device e = d ∧
  (entry_contains a e = true → existsb (claims_addr a) (get_resources d s) = true).
Proof.
  unfold device_entries. rewrite list_elem_of_omap. intros (r & Hr & He). destruct r as [| |base size]; try done.
  cbn in He. injection He as <-. split; [done|]. unfold entry_contains. cbn. intros Hc. apply existsb_exists.
  exists (Mmio base size). split; [by apply list_elem_of_In|]. cbn. lia.
Qed.

Lemma claim_entry s d a : existsb (claims_addr a) (get_resources d s) = true → ∃ e, e ∈ device_entries s d ∧ entry_contains a e = true.
Proof.
  intros (r & Hr & Hc)%existsb_exists. destruct r as [| |base size]; try done. cbn in Hc.
  exists (mkMmio base (base + size - 1) d). split; [|unfold entry_contains; cbn; lia].
  unfold device_entries. apply list_elem_of_omap. exists (Mmio base size). split; [by apply list_elem_of_In|done].
Qed.

Lemma routes ds s : (∀ d, d ∈ ds → Forall resource_ok (get_resources d s)) →
  ∃ b, register_all ds s bus_new = Ret b ∧ devices b = ds ∧ (∀ p, io_map b !! p = port_owner p ds s) ∧
    (∀ a d, d ∈ ds → existsb (claims_addr a) (get_resources d s) = true →
       (∀ d', d' ∈ ds → existsb (claims_addr a) (get_resources d' s) = true → d' = d) → find_device a b = Some d) ∧
    (∀ a, (∀ d, d ∈ ds → existsb (claims_addr a) (get_resources d s) = false) → find_device a b = None).
Proof.
  intros Hok. destruct (register_all_spec ds s bus_new Hok) as (b & E & P & M & Dv). exists b. split; [done|].
  split; [done|]. split; [intros p; rewrite P; by destruct (port_owner p ds s)|]. cbn [mmio_map bus_new app] in M.
  assert (∀ e, e ∈ mmio_map b → ∃ d, d ∈ ds ∧ e ∈ device_entries s d) as Hin.
  { intros e He. rewrite M in He. apply list_elem_of_bind in He as (d & ? & ?). eauto. }
  assert (∀ a e, List.find (entry_contains a) (mmio_map b) = Some e → ∃ d, d ∈ ds ∧ entry_device e = d ∧
    existsb (claims_addr a) (get_resources d s) = true) as Hfind.
  { intros a e Hf. apply find_some in Hf as [Hf Hc]. apply list_elem_of_In in Hf. destruct (Hin e Hf) as (d & Hd & He).
    destruct (entry_claims s d e a He). eauto. }
  unfold find_device. split.
  - intros a d Hd Hc Hu. destruct (List.find (entry_contains a) (mmio_map b)) as [e|] eqn:Ef.
    + destruct (Hfind a e Ef) as (d' & Hd' & Ee & Hc'). cbn. f_equal. rewrite Ee. by apply Hu.
    + destruct (claim_entry s d a Hc) as (e & He & Hce).
      assert (e ∈ mmio_map b) as Hm by (rewrite M; apply list_elem_of_bind; eauto).
      apply list_elem_of_In in Hm. pose proof (find_none _ _ Ef e Hm). congruence.
  - intros a Hno. destruct (List.find (entry_contains a) (mmio_map b)) as [e|] eqn:Ef; [|done].
    destruct (Hfind a e Ef) as (d & Hd & _ & Hc). by rewrite (Hno d Hd) in Hc.
Qed.

(** after the devices of a guest are registered, an access to a port
    reaches the device registered last among those that claim it, and an access
    to an address reaches the device that claims it; what nobody claims has no
    device. *)
Theorem bus_routes_to_owner ds s : (∀ d, d ∈ ds → Forall resource_ok (get_resources d s)) →
  ∃ b, register_all ds s bus_new = Ret b ∧ devices b = ds ∧ (∀ p, io_map b !! p = port_owner p ds s) ∧
    (∀ a d, d ∈ ds → existsb (claims_addr a) (get_resources d s) = true →
       (∀ d', d' ∈ ds → existsb (claims_addr a) (get_resources d' s) = true → d' = d) → find_device a b = Some d) ∧
    (∀ a, (∀ d, d ∈ ds → existsb (claims_addr a) (get_resources d s) = false) → find_device a b = None).
Proof. exact (routes ds s). Qed.

End bus.
