(* ===== verification/GuestMachine.v ===== *)
(** * A guest machine: its devices on the bus, and the exits that use them

    [GuestMachineState::attach_devices] of [reindeer/guest_machine.rs] with the
    devices of [GuestPic], [GuestApic], [GuestTimers] and [GuestSerial]; the
    registers of [guest/registers.rs] and the decoding of memory accesses of
    [guest/mmio_decode.rs]; the exits for ports, memory and halting of
    [run_loop.rs], and what [run] of [intel/vcpu.rs] does with timers and
    interrupts before it enters the guest.  An instruction is what the
    disassembler says about it. *)

From stdpp Require Import gmap.
From S2P Require Import Prelude Bits GuestPic GuestApic GuestLapic GuestTimers GuestSerial GuestBus.

(** ** Devices *)

Inductive guest_device := DSerial | DRtc | DPic | DPit | DPmTimer | DAcpiPm | DHpet | DLapic | DIoApic | DSpeaker.
#[global] Instance guest_device_eq_dec : EqDecision guest_device.
Proof. solve_decision. Defined.

Record Machine := mkMachine {
  irqs : Irqs;
  pit : VirtualPit;
  hpet : HpetState;
  acpi_pm : VirtualAcpiPm;
  speaker_data : Z;
  serial : VirtualSerialPort;
  rtc_port : Z
}.
#[global] Instance eta_machine : Eta Machine := λ m,
  mkMachine (irqs m) (pit m) (hpet m) (acpi_pm m) (speaker_data m) (serial m) (rtc_port m).
Implicit Types m : Machine.

Definition clock_of m : GuestClock := guest_clock (lapics (irqs m)).

(** A read of a register of the host's clock chip. *)
Class HostRtc := host_rtc : Z → Z.

Section machine.
Context `{KeyOrder, HostRtc}.

Definition machine_resources (d : guest_device) m : list DeviceResource :=
  match d with
  | DSerial => [IoPortRange (base_port (serial m)) 8]
  | DRtc => [IoPort 0x70; IoPort 0x71]
  | DPic => [IoPortRange 0x20 2; IoPortRange 0xA0 2]
  | DPit => [IoPort 0x40; IoPort 0x41; IoPort 0x42; IoPort 0x43]
  | DPmTimer => [IoPortRange PM_TIMER_PORT 4]
  | DAcpiPm => [IoPortRange 0x600 6]
  | DHpet => [Mmio HPET_MMIO_BASE 0x400]
  | DLapic => [Mmio 0xFEE00000 0x1000]
  | DIoApic => [Mmio 0xFEC00000 0x1000]
  | DSpeaker => [IoPort 0x61]
  end.

Definition machine_io_read (d : guest_device) (now : nat → Z) (cpu addr width : Z) m : res (Z * Machine) :=
  match d with
  | DSerial => '(v, s, x) ← serial_io_read addr (serial m) (irqs m); Ret (v, m <| serial := s |> <| irqs := x |>)
  | DRtc => v ← rtc_io_read host_rtc addr (rtc_port m); Ret (v, m)
  | DPic => Ret (pic_handle_read (addr mod U16) (pic (irqs m)), m)
  | DPit => '(v, p, x) ← pit_io_read (clock_of m) (now 0%nat) (now 1%nat) addr (pit m) (irqs m);
            Ret (v, m <| pit := p |> <| irqs := x |>)
  | DPmTimer => v ← pm_timer_io_read (clock_of m) (now 0%nat) addr width; Ret (v, m)
  | DAcpiPm => v ← acpi_pm_io_read addr width (acpi_pm m); Ret (v, m)
  | DSpeaker => '(v, s) ← speaker_io_read (clock_of m) (now 0%nat) addr (speaker_data m) (pit m);
                Ret (v, m <| speaker_data := s |>)
  | DHpet | DLapic | DIoApic => Crash Panic
  end.

Definition machine_io_write (d : guest_device) (now : nat → Z) (cpu addr value width : Z) m : res Machine :=
  match d with
  | DSerial => '(s, x) ← serial_io_write addr value (serial m) (irqs m); Ret (m <| serial := s |> <| irqs := x |>)
  | DRtc => p ← rtc_io_write addr value (rtc_port m); Ret (m <| rtc_port := p |>)
  | DPic => p ← pic_handle_write (addr mod U16) value (pic (irqs m)); Ret (m <| irqs ; pic := p |>)
  | DPit => '(p, x) ← pit_io_write (clock_of m) (now 0%nat) (now 1%nat) addr value width (pit m) (irqs m);
            Ret (m <| pit := p |> <| irqs := x |>)
  | DAcpiPm => a ← acpi_pm_io_write addr value width (acpi_pm m); Ret (m <| acpi_pm := a |>)
  | DSpeaker => '(s, p) ← speaker_io_write (now 0%nat) addr value (pit m); Ret (m <| speaker_data := s |> <| pit := p |>)
  | DPmTimer | DHpet | DLapic | DIoApic => Crash Panic
  end.

Definition machine_mmio_read (d : guest_device) (now : nat → Z) (cpu addr width : Z) m : res (Z * Machine) :=
  match d with
  | DHpet => v ← hpet_mmio_read (clock_of m) (now 0%nat) addr width (hpet m); Ret (v, m)
  | DLapic => v ← lapic_mmio_read (now 0%nat) cpu addr (lapics (irqs m)); Ret (v, m)
  | DIoApic => v ← io_apic_mmio_read addr (io_apic (irqs m)); Ret (v, m)
  | _ => Crash Panic
  end.

Definition machine_mmio_write (d : guest_device) (now : nat → Z) (cpu addr value width : Z) m : res Machine :=
  match d with
  | DHpet => '(h, x) ← hpet_mmio_write (clock_of m) (now 0%nat) (now 1%nat) (now 2%nat) addr value width (hpet m) (irqs m);
             Ret (m <| hpet := h |> <| irqs := x |>)
  | DLapic => '(l, p) ← lapic_mmio_write (now 0%nat) cpu addr value (lapics (irqs m)) (pic (irqs m));
              Ret (m <| irqs := (irqs m) <| lapics := l |> <| pic := p |> |>)
  | DIoApic => a ← io_apic_mmio_write addr value (io_apic (irqs m)); Ret (m <| irqs ; io_apic := a |>)
  | _ => Crash Panic
  end.

#[global] Instance machine_devices : VirtualDevice guest_device Machine := {
  get_resources := machine_resources;
  handle_io_read := machine_io_read;
  handle_io_write := machine_io_write;
  handle_mmio_read := machine_mmio_read;
  handle_mmio_write := machine_mmio_write
}.

(** Only the serial port uses the services it is attached to. *)
Definition attach (d : guest_device) m : res Machine :=
  match d with
  | DSerial => '(s, x) ← serial_attach (serial m) (irqs m); Ret (m <| serial := s |> <| irqs := x |>)
  | _ => Ret m
  end.

Fixpoint attach_options (ds : list guest_device) (b : SystemBus guest_device) m : res (SystemBus guest_device * Machine) :=
  match ds with
  | [] => Ret (b, m)
  | d :: ds => m ← attach d m; b ← register_device d m b; attach_options ds b m
  end.

Definition platform_devices : list guest_device := [DPic; DPit; DPmTimer; DAcpiPm; DHpet; DLapic; DIoApic; DSpeaker].

(** The state of the devices at their creation, and the bus they are on;
    [host_hz] and [tsc] are the host's counter, [now] the first reading of the
    guest's. *)
Definition machine_new (host_hz tsc bus_hz now : Z) (com : VirtualSerialPort) : Machine :=
  let g := clock_new host_hz tsc host_hz bus_hz false in
  mkMachine (mkIrqs pic_new (lapic_device_new g) (io_apic_new 0)) pit_new (hpet_new now) acpi_pm_new 0 com 0.

Definition attach_devices (options : list guest_device) m : res (SystemBus guest_device * Machine) :=
  '(b, m) ← attach_options options bus_new m;
  b ← register_all platform_devices m b;
  Ret (b, m).

(** ** Entering and leaving the guest *)

Definition check_timers_of (cpu : Z) (now : nat → Z) m : res Machine :=
  '(_, p, x) ← pit_check_timer (clock_of m) (now 0%nat) (pit m) (irqs m);
  '(_, h, x) ← hpet_check_timer (clock_of m) (now 1%nat) (hpet m) x;
  l ← check_lapic_timer (now 2%nat) (now 3%nat) cpu (lapics x);
  Ret (m <| pit := p |> <| hpet := h |> <| irqs := x <| lapics := l |> |>).

Definition vcpu_entry (cpu lapic_tpr : Z) (exception_pending interrupts_enabled irq_blocked : bool) (now : nat → Z) m :
    res (option Z * bool * Machine) :=
  m ← check_timers_of cpu now m;
  '(v, window, x) ← inject_pending cpu lapic_tpr exception_pending interrupts_enabled irq_blocked (irqs m);
  Ret (v, window, m <| irqs := x |>).

Definition handle_hlt (cpu rip : Z) (now : nat → Z) m : res (Z * Machine) :=
  '(_, p, x) ← pit_check_timer (clock_of m) (now 0%nat) (pit m) (irqs m);
  l ← check_lapic_timer (now 1%nat) (now 2%nat) cpu (lapics x);
  Ret ((rip + 1) mod U64, m <| pit := p |> <| irqs := x <| lapics := l |> |>).

End machine.

(** ** Registers *)

Inductive Gpr := RAX | RCX | RDX | RBX | RSP | RBP | RSI | RDI | R8 | R9 | R10 | R11 | R12 | R13 | R14 | R15.
#[global] Instance gpr_eq_dec : EqDecision Gpr.
Proof. solve_decision. Defined.

(** The names of the disassembler: a register in its 64, 32, 16 and 8 low bits,
    the four bytes above the lowest, and all others. *)
Inductive Register := Reg64 (g : Gpr) | Reg32 (g : Gpr) | Reg16 (g : Gpr) | Reg8 (g : Gpr) | AH | CH | DH | BH | OtherRegister.

Definition RegisterState : Type := Gpr → Z.
Implicit Types r : RegisterState.

Definition gpr_index (g : Gpr) : Z :=
  match g with
  | RAX => 0 | RCX => 1 | RDX => 2 | RBX => 3 | RSP => 4 | RBP => 5 | RSI => 6 | RDI => 7
  | R8 => 8 | R9 => 9 | R10 => 10 | R11 => 11 | R12 => 12 | R13 => 13 | R14 => 14 | R15 => 15
  end.

Definition reg_info (reg : Register) : Z * Z :=
  match reg with
  | Reg64 g => (gpr_index g, 8) | Reg32 g => (gpr_index g, 4) | Reg16 g => (gpr_index g, 2) | Reg8 g => (gpr_index g, 1)
  | AH => (0, 1) | CH => (1, 1) | DH => (2, 1) | BH => (3, 1)
  | OtherRegister => (0xFF, 0)
  end.

(** Index 4 is unreachable, like those above 15. *)
Definition indexed_gprs : list (option Gpr) :=
  [Some RAX; Some RCX; Some RDX; Some RBX; None; Some RBP; Some RSI; Some RDI; Some R8; Some R9; Some R10; Some R11;
   Some R12; Some R13; Some R14; Some R15].

Definition register_get (i : Z) (reg : Register) r : res Z :=
  g ← index indexed_gprs i;
  match g with
  | None => Crash Panic
  | Some g =>
      let val := r g in
      Ret (match reg with AH | CH | DH | BH => Z.land (Z.shiftr val 8) 0xFF | _ => val end)
  end.

Definition put (g : Gpr) (v : Z) r : RegisterState := λ g', if decide (g' = g) then v else r g'.
Definition put_high (g : Gpr) (v : Z) r : RegisterState :=
  put g (Z.lor (Z.land (r g) (wnot 64 0xFF00)) (Z.shiftl (Z.land v 0xFF) 8)) r.

Definition register_set (reg : Register) (value : Z) r : RegisterState :=
  match reg with
  | Reg64 g => put g value r
  | Reg32 g => put g (Z.land value 0xFFFFFFFF) r
  | Reg16 g => put g (Z.lor (Z.land (r g) (wnot 64 0xFFFF)) (Z.land value 0xFFFF)) r
  | Reg8 g => put g (Z.lor (Z.land (r g) (wnot 64 0xFF)) (Z.land value 0xFF)) r
  | AH => put_high RAX value r
  | CH => put_high RCX value r
  | DH => put_high RDX value r
  | BH => put_high RBX value r
  | OtherRegister => r
  end.

Definition set_register_by_len (val len : Z) r : RegisterState :=
  match len with
  | 1 => put RAX (Z.lor (Z.land (r RAX) (wnot 64 0xFF)) (val mod U8)) r
  | 2 => put RAX (Z.lor (Z.land (r RAX) (wnot 64 0xFFFF)) (val mod U16)) r
  | 4 => put RAX (val mod U32) r
  | 8 => put RAX val r
  | _ => r
  end.

(** ** Memory operands *)

Inductive OpKind := KRegister | KMemory | KImmediate8 | KImmediate16 | KImmediate32 | KImmediate64 | KOther.
Inductive MemorySize := UInt8 | Int8 | UInt16 | Int16 | UInt32 | Int32 | UInt64 | Int64 | OtherSize.

(** What the disassembler says; [immediate] is the operand zero-extended. *)
Record Instruction := mkInstruction {
  memory_size : MemorySize;
  op0_kind : OpKind;
  op0_register : Register;
  op1_kind : OpKind;
  op1_register : Register;
  immediate : Z;
  instruction_len : Z
}.

Record DecodedMmioAccess := mkDecoded {
  access_length : Z;
  access_data : option Z;
  access_register : option Register;
  instruction_length : Z
}.

Definition memory_access_length (s : MemorySize) : res Z :=
  match s with
  | UInt8 | Int8 => Ret 1 | UInt16 | Int16 => Ret 2 | UInt32 | Int32 => Ret 4 | UInt64 | Int64 => Ret 8
  | OtherSize => Crash Panic
  end.

Definition decode_mmio_access (i : Instruction) (is_read is_write : bool) r : res DecodedMmioAccess :=
  len ← memory_access_length (memory_size i);
  '(data, reg) ←
    (if is_read then
       match op0_kind i with KRegister => Ret (None, Some (op0_register i)) | _ => Crash Panic end
     else if is_write then
       match op1_kind i with
       | KRegister => v ← register_get (reg_info (op1_register i)).1 (op1_register i) r; Ret (Some v, Some (op1_register i))
       | KImmediate8 | KImmediate16 | KImmediate32 | KImmediate64 => Ret (Some (immediate i), None)
       | _ => Crash Panic
       end
     else Ret (None, None));
  Ret (mkDecoded len data reg (instruction_len i)).

Definition unwrap {A} (o : option A) : res A := match o with Some a => Ret a | None => Crash Panic end.

Section exits.
Context `{KeyOrder, HostRtc} (b : SystemBus guest_device).

Definition handle_io (now : nat → Z) (cpu port : Z) (write : bool) (len data : Z) r m : res (RegisterState * Machine) :=
  if port =? 0x80 then Ret (r, m)
  else if (port =? 0xF0) || (port =? 0xF1) then Ret (if write then r else set_register_by_len 0 len r, m)
  else if write then m ← dispatch_io_write now cpu port len data b m; Ret (r, m)
  else '(v, m) ← dispatch_io_read now cpu port len b m; Ret (set_register_by_len v len r, m).

Definition unclaimed_value (len : Z) : Z :=
  if len =? 1 then 0xFF else if len =? 2 then 0xFFFF else if len =? 4 then 0xFFFFFFFF else U64 - 1.

Definition handle_slat_violation (now : nat → Z) (cpu gpa : Z) (data_read data_write : bool) (len : Z)
    (register : option Register) (data : option Z) (ilen rip : Z) r m : res (Z * RegisterState * Machine) :=
  '(r, m) ←
    (if data_read then
       reg ← unwrap register;
       '(v, m) ← dispatch_mmio_read now cpu gpa len b m;
       Ret (register_set reg (default (unclaimed_value len) v) r, m)
     else if data_write then
       v ← unwrap data;
       '(_, m) ← dispatch_mmio_write now cpu gpa len v b m;
       Ret (r, m)
     else Ret (r, m));
  rip ← add_chk U64 rip ilen;
  Ret (rip, r, m).

(** A faulting instruction, decoded and carried out. *)
Definition emulate_access (now : nat → Z) (cpu gpa : Z) (i : Instruction) (is_read is_write : bool) (rip : Z) r m :
    res (Z * RegisterState * Machine) :=
  a ← decode_mmio_access i is_read is_write r;
  handle_slat_violation now cpu gpa is_read is_write (access_length a mod U8) (access_register a) (access_data a)
    (instruction_length a) rip r m.

End exits.

(** ** Registers keep what an access does not cover *)

(** The low [w] bits of [old] replaced. *)
Lemma replace_low w old v : 0 ≤ w ≤ 64 → word 64 old →
  Z.lor (Z.land old (wnot 64 (Z.ones w))) (Z.land v (Z.ones w)) = old / 2 ^ w * 2 ^ w + v mod 2 ^ w.
Proof.
  intros Hw Hold. rewrite <- Z.land_ones, <- Z.shiftl_mul_pow2, <- Z.shiftr_div_pow2 by lia.
  rewrite Z.add_nocarry_lxor.
  - apply Z.bits_inj'. intros i Hi. rewrite Z.lor_spec, Z.lxor_spec, !Z.land_spec, Z.shiftl_spec, testbit_ones by lia.
    destruct (decide (i < 64)).
    + rewrite testbit_wnot, testbit_ones by lia. destruct (Z.ltb_spec i w).
      * rewrite (Z.testbit_neg_r _ (i - w)) by lia. rewrite andb_false_r, andb_true_r. by destruct (Z.testbit v i).
      * rewrite Z.shiftr_spec by lia. replace (i - w + w) with i by lia. rewrite andb_true_r, !andb_false_r, orb_false_r.
        by destruct (Z.testbit old i).
    + rewrite Z.shiftr_spec by lia. replace (i - w + w) with i by lia. rewrite (word_high_bit 64 old) by (assumption || lia).
      rewrite (proj2 (Z.ltb_ge i w)) by lia. by rewrite andb_false_r.
  - apply Z.bits_inj'. intros i Hi. rewrite !Z.land_spec, Z.testbit_0_l, Z.shiftl_spec, testbit_ones by lia.
    destruct (Z.ltb_spec i w); [by rewrite (Z.testbit_neg_r _ (i - w)) by lia|by rewrite !andb_false_r].
Qed.

(** A write of 32 bits clears the upper half, narrower ones keep the rest, and
    no write touches another register. *)
Lemma register_set_spec g value r : word 64 (r g) →
  (register_set (Reg64 g) value r) g = value ∧
  (register_set (Reg32 g) value r) g = value mod 2 ^ 32 ∧
  (register_set (Reg16 g) value r) g = r g / 2 ^ 16 * 2 ^ 16 + value mod 2 ^ 16 ∧
  (register_set (Reg8 g) value r) g = r g / 2 ^ 8 * 2 ^ 8 + value mod 2 ^ 8 ∧
  ∀ g' reg, reg ∈ [Reg64 g; Reg32 g; Reg16 g; Reg8 g] → g' ≠ g → (register_set reg value r) g' = r g'.
Proof.
  intros Hr. unfold register_set, put. change 0xFFFFFFFF with (Z.ones 32). change 0xFFFF with (Z.ones 16). change 0xFF with (Z.ones 8).
  rewrite !decide_True by done. rewrite !replace_low, Z.land_ones by (assumption || lia). split_and!; try done.
  intros g' reg Hreg Hne. repeat (apply elem_of_cons in Hreg as [->|Hreg]; [by rewrite decide_False|]). by apply elem_of_nil in Hreg.
Qed.

(** A store of a narrow register passes the whole register on, and a store of
    the stack pointer stops the machine. *)
Lemma narrow_store_passes_register i r : memory_size i = UInt16 → op1_kind i = KRegister → op1_register i = Reg16 RAX →
  decode_mmio_access i false true r = Ret (mkDecoded 2 (Some (r RAX)) (Some (Reg16 RAX)) (instruction_len i)).
Proof. intros H1 H2 H3. unfold decode_mmio_access. by rewrite H1, H2, H3. Qed.

Lemma stack_pointer_store_panics i r : memory_size i = UInt64 → op1_kind i = KRegister → op1_register i = Reg64 RSP →
  decode_mmio_access i false true r = Crash Panic.
Proof. intros H1 H2 H3. unfold decode_mmio_access. by rewrite H1, H2, H3. Qed.

(** ** The bus of a guest with a serial port and a clock chip *)

Section attached.
Context `{KeyOrder, HostRtc}.

Definition all_devices : list guest_device := [DSerial; DRtc] ++ platform_devices.

Lemma all_devices_all d : d ∈ all_devices.
Proof. destruct d; apply (bool_decide_unpack _); vm_compute; exact I. Qed.

Definition machine_ok m : Prop := irqs_ok (irqs m) ∧ 0 ≤ serial_irq_line (serial m) ∧ 0 < base_port (serial m) ∧ base_port (serial m) + 8 < U16.

Lemma register_all_app ds1 ds2 m (b : SystemBus guest_device) :
  register_all (ds1 ++ ds2) m b = (b ← register_all ds1 m b; register_all ds2 m b).
Proof. revert b. induction ds1 as [|d ds1 IH]; intros b; [done|]. cbn [app register_all]. destruct (register_device d m b); [apply IH|done]. Qed.

Definition mmio_base (d : guest_device) : option (Z * Z) :=
  match d with
  | DHpet => Some (0xFED00000, 0x400) | DLapic => Some (0xFEE00000, 0x1000) | DIoApic => Some (0xFEC00000, 0x1000)
  | _ => None
  end.

Lemma machine_claims d a m : existsb (claims_addr a) (machine_resources d m) = true ↔
  match mmio_base d with Some (base, size) => base ≤ a < base + size | None => False end.
Proof.
  destruct d; cbn [machine_resources existsb claims_addr mmio_base orb]; rewrite ?orb_false_r; try (split; [discriminate|done]);
  rewrite andb_true_iff, Z.leb_le, Z.ltb_lt; reflexivity.
Qed.

Lemma machine_claims_unique d d' a m : existsb (claims_addr a) (machine_resources d m) = true →
  existsb (claims_addr a) (machine_resources d' m) = true → d' = d.
Proof.
  rewrite !machine_claims. destruct d; cbn [mmio_base]; try done; intros Ha; destruct d'; cbn [mmio_base]; try done; lia.
Qed.

Lemma attach_devices_spec m : machine_ok m → ∃ b m', attach_devices [DSerial; DRtc] m = Ret (b, m') ∧ irqs_ok (irqs m') ∧
  (∀ p, io_map b !! p = port_owner p all_devices m') ∧
  (∀ a, 0xFEC00000 ≤ a < 0xFEC01000 → find_device a b = Some DIoApic) ∧
  (∀ a, 0xFED00000 ≤ a < 0xFED00400 → find_device a b = Some DHpet) ∧
  (∀ a, 0xFEE00000 ≤ a < 0xFEE01000 → find_device a b = Some DLapic).
Proof.
  intros (Hx & Hi & Hb1 & Hb2). set (s1 := (serial m) <| attached := true |>).
  destruct (update_irq_total s1 (irqs m) Hx Hi) as (x' & Eu & Hx').
  set (m' := m <| serial := s1 |> <| irqs := x' |>).
  destruct (routes (S := Machine) all_devices m') as (b & E & _ & Hp & Hm & _).
  { intros d _. destruct d; cbn; repeat (apply Forall_cons; split); try apply Forall_nil; try done; cbn;
    change (base_port (serial m')) with (base_port (serial m)); unfold HPET_MMIO_BASE, PM_TIMER_PORT; lia. }
  exists b, m'. split.
  { unfold attach_devices. cbn [attach_options attach]. unfold serial_attach. fold s1. rewrite Eu, !ret_bind. fold m'.
    unfold all_devices in E. rewrite register_all_app in E. cbn [register_all] in E.
    destruct (register_device DSerial m' bus_new) as [b1|]; [|done]. rewrite ret_bind in E. rewrite ?ret_bind.
    destruct (register_device DRtc m' b1) as [b2|]; [|done]. rewrite !ret_bind in E. rewrite !ret_bind. by rewrite E. }
  split; [assumption|]. split; [assumption|].
  assert (∀ d base size a, mmio_base d = Some (base, size) → base ≤ a < base + size → find_device a b = Some d) as Hfind.
  { intros d base size a Hd Ha. apply Hm; [apply all_devices_all|apply machine_claims; by rewrite Hd|].
    intros d' _ Hc. apply (machine_claims_unique d d' a m'); [apply machine_claims; by rewrite Hd|exact Hc]. }
  split_and!; intros a Ha; [apply (Hfind DIoApic 0xFEC00000 0x1000)|apply (Hfind DHpet 0xFED00000 0x400)|
    apply (Hfind DLapic 0xFEE00000 0x1000)]; done || lia.
Qed.

(** ** From a pin to the guest *)

(** The guest writes the two halves of the entry of [pin]: vector [v], fixed
    delivery, processor [cpu]. *)
Definition program_pin (b : SystemBus guest_device) (now : nat → Z) (pin v cpu : Z) m : res Machine :=
  '(_, m) ← dispatch_mmio_write now 0 0xFEC00000 4 (0x10 + 2 * pin) b m;
  '(_, m) ← dispatch_mmio_write now 0 0xFEC00010 4 v b m;
  '(_, m) ← dispatch_mmio_write now 0 0xFEC00000 4 (0x10 + 2 * pin + 1) b m;
  '(_, m) ← dispatch_mmio_write now 0 0xFEC00010 4 (Z.shiftl cpu 24) b m;
  Ret m.

Definition set_io_apic (a : VirtualIoApic) m : Machine := m <| irqs ; io_apic := a |>.

Lemma io_apic_access (b : SystemBus guest_device) now addr value a m : find_device addr b = Some DIoApic →
  io_apic_mmio_write addr value (io_apic (irqs m)) = Ret a →
  dispatch_mmio_write now 0 addr 4 value b m = Ret (true, set_io_apic a m).
Proof.
  intros Hf E. unfold dispatch_mmio_write. rewrite Hf. cbn [handle_mmio_write machine_devices machine_mmio_write]. by rewrite E.
Qed.

(** Selecting a register and writing half of an entry. *)
Lemma write_entry_half (b : SystemBus guest_device) now pin (high : bool) value m e : (∀ a, 0xFEC00000 ≤ a < 0xFEC01000 → find_device a b = Some DIoApic) →
  0 ≤ pin < 24 → u32 value → redirection_table (io_apic (irqs m)) !! Z.to_nat pin = Some e →
  ∃ a, ('(_, m) ← dispatch_mmio_write now 0 0xFEC00000 4 (0x10 + 2 * pin + Z.b2z high) b m;
        dispatch_mmio_write now 0 0xFEC00010 4 value b m) = Ret (true, set_io_apic a m) ∧
    redirection_table a = <[Z.to_nat pin := if high then e <| upper := value |> else e <| lower := value |>]> (redirection_table (io_apic (irqs m))).
Proof.
  intros Hf Hp Hv He. set (reg := 0x10 + 2 * pin + Z.b2z high). assert (0x10 ≤ reg ≤ 0x3F) by (unfold reg; destruct high; simpl; lia).
  set (a1 := (io_apic (irqs m)) <| selected_register := reg |>).
  assert (0 ≤ pin < zlen (redirection_table (io_apic (irqs m)))) as Hb by (apply lookup_lt_Some in He; unfold zlen; lia).
  rewrite (io_apic_access b now 0xFEC00000 reg a1 m).
  2: apply Hf; lia.
  2: { unfold io_apic_mmio_write. change (Z.land 0xFEC00000 0xFF =? 0) with true. cbv iota. rewrite Z.mod_small by lia. done. }
  rewrite ret_bind. eexists. split.
  - rewrite (io_apic_access b now 0xFEC00010 value (a1 <| redirection_table := <[Z.to_nat pin := if high then e <| upper := value |> else e <| lower := value |>]>
      (redirection_table (io_apic (irqs m))) |>)); [reflexivity|apply Hf; lia|].
    unfold io_apic_mmio_write. change (Z.land 0xFEC00010 0xFF =? 0) with false. change (Z.land 0xFEC00010 0xFF =? 0x10) with true. cbv iota.
    change (io_apic (irqs (set_io_apic a1 m))) with a1. unfold write_selected_register. change (selected_register a1) with reg.
    change (redirection_table a1) with (redirection_table (io_apic (irqs m))).
    rewrite (proj2 (Z.eqb_neq reg 0)), (proj2 (Z.eqb_neq reg 1)), (proj2 (Z.eqb_neq reg 2)) by lia.
    rewrite (proj2 (andb_true_iff _ _)) by lia. rewrite (Z.mod_small value) by exact Hv. cbv zeta.
    assert ((reg - 0x10) / 2 = pin) as -> by (unfold reg; destruct high; cbn [Z.b2z]; mlia).
    assert (negb ((reg - 0x10) mod 2 =? 0) = high) as -> by (unfold reg; destruct high; cbn [Z.b2z]; mlia).
    rewrite (proj2 (Z.ltb_lt _ _)) by lia. rewrite (index_lookup _ _ e), ret_bind by (assumption || lia).
    by rewrite store_as_insert, ret_bind by lia.
  - reflexivity.
Qed.

Lemma program_pin_spec (b : SystemBus guest_device) now pin v cpu m : (∀ a, 0xFEC00000 ≤ a < 0xFEC01000 → find_device a b = Some DIoApic) →
  0 ≤ pin < 24 → zlen (redirection_table (io_apic (irqs m))) = 24 → u32 v → 0 ≤ cpu < 256 →
  ∃ a, program_pin b now pin v cpu m = Ret (set_io_apic a m) ∧ zlen (redirection_table a) = 24 ∧
    redirection_table a !! Z.to_nat pin = Some (mkRedirection v (Z.shiftl cpu 24)).
Proof.
  intros Hf Hp Hl Hv Hc. assert (Z.to_nat pin < length (redirection_table (io_apic (irqs m))))%nat as Hlt by (unfold zlen in Hl; lia).
  destruct (lookup_lt_is_Some_2 _ _ Hlt) as [e He].
  assert (u32 (Z.shiftl cpu 24)) as Hu by (rewrite Z.shiftl_mul_pow2 by lia; ints; lia).
  destruct (write_entry_half b now pin false v m e Hf Hp Hv He) as (a1 & E1 & T1). cbn [Z.b2z] in E1. rewrite Z.add_0_r in E1.
  destruct (write_entry_half b now pin true (Z.shiftl cpu 24) (set_io_apic a1 m) (e <| lower := v |>) Hf Hp Hu) as (a2 & E2 & T2).
  { change (io_apic (irqs (set_io_apic a1 m))) with a1. rewrite T1. by apply list_lookup_insert_eq. }
  change (io_apic (irqs (set_io_apic a1 m))) with a1 in T2. exists a2. split.
  - unfold program_pin. destruct (dispatch_mmio_write now 0 0xFEC00000 4 (0x10 + 2 * pin) b m) as [[? m1]|]; [|done].
    rewrite ret_bind in E1. rewrite ret_bind, E1, ret_bind. cbn [Z.b2z] in E2.
    destruct (dispatch_mmio_write now 0 0xFEC00000 4 (0x10 + 2 * pin + 1) b (set_io_apic a1 m)) as [[? m2]|]; [|done].
    rewrite ret_bind in E2. rewrite ret_bind, E2, ret_bind. done.
  - rewrite T2, T1, !zlen_insert. split; [done|]. rewrite list_lookup_insert_eq by (rewrite length_insert; exact Hlt).
    by destruct e.
Qed.

(** No timer of the machine is due. *)
Record timers_quiet (cpu : Z) m : Prop := {
  tq_pit : ∃ c, channels (pit m) !! 0%nat = Some c ∧ irq_armed c = false;
  tq_hpet : hpet_enabled (general_config (hpet m)) = false;
  tq_lapic : ∀ s, lapic_state (lapics (irqs m)) !! cpu = Some s → timer_on s = false
}.

Lemma check_timers_quiet cpu now m s : timers_quiet cpu m → lapic_state (lapics (irqs m)) !! cpu = Some s →
  check_timers_of cpu now m = Ret m.
Proof.
  intros [(c & Hc & Ha) Hh Hl] Hs. unfold check_timers_of, pit_check_timer.
  rewrite (index_lookup _ 0 c), ret_bind by (assumption || lia). unfold channel_due. rewrite Ha. cbn [negb]. rewrite ret_bind.
  unfold set_channel. rewrite store_as_insert, !ret_bind by (apply lookup_lt_Some in Hc; unfold zlen; lia).
  change (Z.to_nat 0) with 0%nat. rewrite list_insert_id by assumption.
  unfold hpet_check_timer. rewrite Hh. cbn [negb]. rewrite ret_bind. unfold check_lapic_timer.
  rewrite (lapic_of_ret cpu _ s Hs), ret_bind, (Hl s Hs). cbn [negb orb]. rewrite ret_bind.
  destruct m as [[? ? ?] [? ?] ? ? ? ? ?]. done.
Qed.

Lemma pin_request cpu pin v x s e : at_cpu cpu x s → redirection_table (io_apic x) !! Z.to_nat pin = Some e → 0 ≤ pin →
  e = mkRedirection v (Z.shiftl cpu 24) → 16 ≤ v < 256 → 0 ≤ cpu < 256 →
  ∃ q i, let s' := s <| isr := i |> <| irr := q |> in let x' := x <| lapics := put_lapic cpu s' (lapics x) |> in
    io_apic_set_irq pin true x = Ret x' ∧ at_cpu cpu x' s' ∧ abstract s' = request_spec v (abstract s).
Proof.
  intros Hx He Hp -> Hv Hc. destruct (lapic_set_irq_spec cpu cpu v (lapics x) s (at_resolve cpu x s Hx) (at_state _ _ _ Hx) (at_ok _ _ _ Hx) Hv)
    as (q & i & E & Ok & Ab). exists q, i. cbv zeta in *. set (s1 := s <| isr := i |> <| irr := q |>) in *.
  split; [|split; [exact (at_set cpu x s s1 Hx eq_refl Ok)|assumption]].
  unfold io_apic_set_irq. rewrite (proj2 (Z.leb_gt _ _)) by (apply lookup_lt_Some in He; unfold zlen; lia).
  rewrite (index_lookup _ _ _ Hp He), ret_bind. cbn [negb].
  assert (entry_is_masked (mkRedirection v (Z.shiftl cpu 24)) = false) as ->.
  { unfold entry_is_masked. cbn [lower]. rewrite negb_false_iff, Z.eqb_eq. apply Z.bits_inj'. intros k Hk.
    rewrite Z.land_spec, testbit_bit, Z.testbit_0_l by lia. destruct (Z.eqb_spec k 16) as [->|]; [|apply andb_false_r].
    rewrite (word_high_bit 8 v) by (unfold word; lia). done. }
  assert (entry_vector (mkRedirection v (Z.shiftl cpu 24)) = v) as ->.
  { unfold entry_vector. cbn [lower]. change 0xFF with (Z.ones 8). rewrite Z.land_ones, Z.mod_small by lia. done. }
  assert (delivery_mode (mkRedirection v (Z.shiftl cpu 24)) = 0) as ->.
  { unfold delivery_mode. cbn [lower]. rewrite Z.shiftr_div_pow2, Z.div_small by lia. done. }
  assert (destination_id (mkRedirection v (Z.shiftl cpu 24)) = cpu) as ->.
  { unfold destination_id. cbn [upper]. rewrite Z.shiftl_mul_pow2, Z.shiftr_div_pow2, Z.div_mul, Z.mod_small by lia. done. }
  cbv zeta. rewrite (proj2 (Z.ltb_ge v 16)) by lia. cbn [Z.eqb negb andb]. by rewrite E.
Qed.

Lemma inject_deliverable cpu x s v : at_cpu cpu x s → deliverable (threshold s 0) (abstract s) v →
  ∃ x' s', inject_pending cpu 0 false true false x = Ret (Some v, false, x') ∧ at_cpu cpu x' s' ∧ abstract s' = take_spec v (abstract s).
Proof.
  intros Hx Hd. pose proof (at_ok _ _ _ Hx) as Hs. pose proof Hd as ([Hin _] & _).
  pose proof (ok_requests s Hs v Hin). apply elem_of_vectors in Hin as [? _].
  unfold inject_pending. rewrite (get_pending_quiet cpu _ s _ 0 (at_state _ _ _ Hx) (at_pic_quiet cpu x s Hx)), ret_bind.
  apply find_highest_spec in Hd; [|assumption|apply Z.mod_pos_bound; done]. rewrite Hd. cbn [fmap option_fmap option_map andb negb].
  destruct (commit_interrupt_spec cpu v (lapics x) s (at_state _ _ _ Hx) Hs) as (q & i & E & Ok & Ab); [lia|].
  cbv zeta in *. set (s1 := s <| irr := q |> <| isr := i |>) in *. cbn [commit_delivered_interrupt]. rewrite E, !ret_bind.
  exists (x <| lapics := put_lapic cpu s1 (lapics x) |> <| pic := pic x |>), s1. split; [done|]. split; [|assumption].
  apply (at_put cpu x s s1 (pic x) Hx eq_refl Ok (at_pic _ _ _ Hx)). by destruct (pic x).
Qed.

Lemma at_cpu_io_apic cpu a m s : at_cpu cpu (irqs m) s → at_cpu cpu (irqs (set_io_apic a m)) s.
Proof. intros []. by constructor. Qed.

(** C17: once the guest has programmed a pin of the I/O controller through the
    bus, a device that raises the pin has its vector injected at the next entry
    of the processor named in the entry, when the vector has priority; it is in
    service from then on. *)
Theorem device_interrupt_reaches_guest m0 m0' (b : SystemBus guest_device) now pin v cpu m s :
  machine_ok m0 → attach_devices [DSerial; DRtc] m0 = Ret (b, m0') →
  0 ≤ pin < 24 → 16 ≤ v < 256 → 0 ≤ cpu < 256 → zlen (redirection_table (io_apic (irqs m))) = 24 →
  at_cpu cpu (irqs m) s → timers_quiet cpu m → deliverable (threshold s 0) (request_spec v (abstract s)) v →
  ∃ m1 x2 m3 s3, program_pin b now pin v cpu m = Ret m1 ∧ io_apic_set_irq pin true (irqs m1) = Ret x2 ∧
    vcpu_entry cpu 0 false true false now (m1 <| irqs := x2 |>) = Ret (Some v, false, m3) ∧
    at_cpu cpu (irqs m3) s3 ∧ abstract s3 = take_spec v (request_spec v (abstract s)).
Proof.
  intros Hm0 Hat Hp Hv Hc Hl Hx Hq Hd. destruct (attach_devices_spec m0 Hm0) as (b' & m' & E0 & _ & _ & Hf & _).
  rewrite E0 in Hat. injection Hat as -> _.
  destruct (program_pin_spec b now pin v cpu m Hf Hp Hl) as (a & E1 & _ & He); [ints; lia|assumption|].
  apply (at_cpu_io_apic cpu a) in Hx.
  destruct (pin_request cpu pin v _ s _ Hx He ltac:(lia) eq_refl Hv Hc) as (q & i & E2 & H2 & A2). cbv zeta in *.
  set (s1 := s <| isr := i |> <| irr := q |>) in *. set (x2 := (irqs (set_io_apic a m)) <| lapics := _ |>) in *.
  rewrite <- A2 in Hd. destruct (inject_deliverable cpu x2 s1 v H2 Hd) as (x3 & s3 & E3 & H3 & A3).
  exists (set_io_apic a m), x2, (m <| irqs := x3 |>), s3. split; [assumption|]. split; [assumption|].
  split; [|split; [exact H3|congruence]]. unfold vcpu_entry. rewrite (check_timers_quiet cpu now _ s1).
  - rewrite ret_bind. change (irqs ((set_io_apic a m) <| irqs := x2 |>)) with x2. by rewrite E3.
  - destruct Hq as [Hq1 Hq2 Hq3]. constructor; [exact Hq1|exact Hq2|]. intros s0 Hs0.
    change (lapic_state (put_lapic cpu s1 (lapics (irqs m))) !! cpu = Some s0) in Hs0. rewrite put_lookup in Hs0. injection Hs0 as <-.
    apply (Hq3 s). exact (at_state _ _ _ Hx).
  - exact (at_state _ _ _ H2).
Qed.

End attached.

(** ** Instances *)

#[local] Instance sample_order : KeyOrder := hash_order.
#[local] Instance sample_rtc : HostRtc := λ _, 0.

Definition sample_machine : Machine :=
  mkMachine sample_irqs pit_new (hpet_new 0) acpi_pm_new 0 (serial_new 0x3F8 NoBacking) 0.
Definition sample_bus : SystemBus guest_device := fst (after (bus_new, sample_machine) (attach_devices [DSerial; DRtc] sample_machine)).
Definition sample_attached : Machine := snd (after (bus_new, sample_machine) (attach_devices [DSerial; DRtc] sample_machine)).

Lemma sample_irqs_at : at_cpu 0 sample_irqs (lapic_reset 0).
Proof.
  constructor; [by vm_compute|by vm_compute|by vm_compute| | |by vm_compute].
  - apply lapic_ok_check; vm_compute; reflexivity.
  - constructor; split; vm_compute; congruence.
Qed.

Lemma device_interrupt_reaches_guest_witness : ∃ m1 x2 m3 s3,
  program_pin sample_bus (λ _, 0) 4 0x34 0 sample_machine = Ret m1 ∧ io_apic_set_irq 4 true (irqs m1) = Ret x2 ∧
  vcpu_entry 0 0 false true false (λ _, 0) (m1 <| irqs := x2 |>) = Ret (Some 0x34, false, m3) ∧
  at_cpu 0 (irqs m3) s3 ∧ abstract s3 = take_spec 0x34 (request_spec 0x34 (abstract (lapic_reset 0))).
Proof.
  apply (device_interrupt_reaches_guest sample_machine sample_attached sample_bus (λ _, 0) 4 0x34 0 sample_machine (lapic_reset 0)).
  - split; [exact sample_irqs_ok|]. vm_compute. repeat split; congruence.
  - vm_compute. reflexivity.
  - lia.
  - lia.
  - lia.
  - vm_compute. reflexivity.
  - exact sample_irqs_at.
  - constructor; [exists channel_new; split; reflexivity|reflexivity|].
    intros s Hs. assert (lapic_state (lapics (irqs sample_machine)) !! 0 = Some (lapic_reset 0)) as E by by vm_compute.
    rewrite E in Hs. by injection Hs as <-.
  - assert (abstract (lapic_reset 0) = mkSets ∅ ∅) as -> by (vm_compute; reflexivity).
    split; [split; [set_solver|intros u; cbn; set_solver by lia]|]. split; [vm_compute; reflexivity|]. intros u. cbn.
    rewrite decide_False by set_solver. set_solver.
Defined.

Lemma bus_routes_to_owner_witness :
  (∀ d, d ∈ all_devices → Forall resource_ok (get_resources d sample_machine)) ∧
  ∃ b, register_all all_devices sample_machine bus_new = Ret b ∧ devices b = all_devices ∧
    (∀ p, io_map b !! p = port_owner p all_devices sample_machine) ∧
    (∀ a d, d ∈ all_devices → existsb (claims_addr a) (get_resources d sample_machine) = true →
       (∀ d', d' ∈ all_devices → existsb (claims_addr a) (get_resources d' sample_machine) = true → d' = d) → find_device a b = Some d) ∧
    (∀ a, (∀ d, d ∈ all_devices → existsb (claims_addr a) (get_resources d sample_machine) = false) → find_device a b = None).
Proof.
  assert (∀ d, d ∈ all_devices → Forall resource_ok (get_resources d sample_machine)) as Hok.
  { intros d _. destruct d; cbn; repeat (apply Forall_cons; split); try apply Forall_nil; try done; cbn;
    unfold HPET_MMIO_BASE, PM_TIMER_PORT; lia. }
  split; [exact Hok|]. exact (bus_routes_to_owner all_devices sample_machine Hok).
Defined.
