(* ===== verification/GuestMemory.v ===== *)
(** * Memory of a guest

    [kernel/src/driver/hv/reindeer/intel/ept.rs]: the tables that take a
    guest's physical pages to frames of the host; and [guest/paging.rs]: the
    walk over the guest's own tables.  The tables of a guest lie in frames of
    the memory manager, each mapped at its own address in the kernel's address
    space; they are named by that address and looked at through [PageWalk]. *)

From stdpp Require Import gmap.
From S2P Require Import Prelude Bits Frames PageTable PageWalk PageMap PageAddr PageSpace.

(** ** Entries *)

Definition ept_address (e : Z) : Z := Z.land e 0xFFFFFFFFFFFFF000.

(** [EptFlags]: read, write, execute, the memory type write-back, and bit 6. *)
Definition EPT_READ : Z := bit 0.
Definition EPT_WRITE : Z := bit 1.
Definition EPT_EXECUTE : Z := bit 2.
Definition EPT_WRITE_BACK : Z := Z.shiftl 6 3.
Definition EPT_IGNORE : Z := bit 6.
Definition EPT_ALL : Z := Z.lor (Z.lor (Z.lor (Z.lor EPT_READ EPT_WRITE) EPT_EXECUTE) EPT_WRITE_BACK) EPT_IGNORE.

Definition ept_flags (e : Z) : Z := Z.land (Z.land e 0xFFF) EPT_ALL.
Definition ept_set_address (a e : Z) : res Z :=
  rassert (Z.land a 0xFFF =? 0);; Ret (Z.lor (Z.land a 0x000FFFFFFFFFF000) (ept_flags e)).
Definition ept_set_flags (f e : Z) : Z := Z.lor (ept_address e) f.
Definition ept_readable (e : Z) : bool := contains (ept_flags e) EPT_READ.

Inductive MemoryAccessRights := Read | Write | Execute | ReadWrite | ReadExecute | ReadWriteExecute.

Definition rights_flags (a : MemoryAccessRights) : Z :=
  match a with
  | Read => EPT_READ
  | Write | ReadWrite => Z.lor EPT_READ EPT_WRITE
  | Execute | ReadExecute => Z.lor EPT_READ EPT_EXECUTE
  | ReadWriteExecute => Z.lor (Z.lor EPT_READ EPT_WRITE) EPT_EXECUTE
  end.

(** ** Tables *)

(** [host] is what the memory manager works on; [ept_tables] the memory used as
    tables of the guest. *)
Record IntelEpt := mkEpt { eptp : Z; ept_tables : gmap Z (list Z); host : machine }.
#[global] Instance eta_ept : Eta IntelEpt := λ E, mkEpt (eptp E) (ept_tables E) (host E).
Implicit Types E : IntelEpt.

Definition ept_load (p i : Z) E : res Z :=
  match ept_tables E !! p with None => Crash OutOfBounds | Some t => index t i end.
Definition ept_store (p i e : Z) E : res IntelEpt :=
  match ept_tables E !! p with
  | None => Crash OutOfBounds
  | Some t => t' ← store t i e; Ret (E <| ept_tables := <[p := t']> (ept_tables E) |>)
  end.

(** A frame for a table, mapped at its own address. *)
Definition table_frame : PM Z :=
  frame ← expect allocate_frame;
  page ← PageTable.lift (Page_new frame);
  phys ← PageTable.lift (Frame_new frame);
  r ← map_impl CurrentAddressSpace (Exact page phys) Flags.WRITABLE;
  match r with inl _ => mret frame | inr _ => PageTable.lift (Crash Panic) end.

(** [IntelEpt::new], which leaves in the table what its frame [held]. *)
Definition ept_new (held : Z → list Z) (m : machine) : res IntelEpt :=
  '(frame, m) ← table_frame m; Ret (mkEpt frame {[ frame := held frame ]} m).

(** The parent entry is the one at index [i] of the table [p]. *)
Definition ept_allocate_lower_level_page_table (p i : Z) E : res IntelEpt :=
  '(frame, m) ← table_frame (host E);
  let E := E <| host := m |> <| ept_tables := <[frame := zeros 512]> (ept_tables E) |> in
  e ← ept_load p i E;
  e ← ept_set_address frame e;
  ept_store p i (ept_set_flags (Z.lor (Z.lor EPT_READ EPT_WRITE) EPT_EXECUTE) e) E.

(** One level down, with a new table when there is none. *)
Definition ept_descend (p i : Z) E : res (Z * IntelEpt) :=
  e ← ept_load p i E;
  E ← (if ept_readable e then Ret E else ept_allocate_lower_level_page_table p i E);
  e ← ept_load p i E;
  Ret (ept_address e, E).

Definition ept_map (gpa hpa : Z) (access_rights : MemoryAccessRights) E : res IntelEpt :=
  '(l3, E) ← ept_descend (eptp E) (pte_index 4 gpa) E;
  '(l2, E) ← ept_descend l3 (pte_index 3 gpa) E;
  '(l1, E) ← ept_descend l2 (pte_index 2 gpa) E;
  e ← ept_load l1 (pte_index 1 gpa) E;
  e ← ept_set_address hpa e;
  ept_store l1 (pte_index 1 gpa) (ept_set_flags (Z.lor (rights_flags access_rights) EPT_WRITE_BACK) e) E.

Fixpoint ept_map_contiguous (n : nat) (i gpa hpa : Z) (access_rights : MemoryAccessRights) E : res IntelEpt :=
  match n with
  | O => Ret E
  | S n =>
      g ← add_chk U64 gpa (i * FRAME_SIZE);
      h ← add_chk U64 hpa (i * FRAME_SIZE);
      E ← ept_map g h access_rights E;
      ept_map_contiguous n (i + 1) gpa hpa access_rights E
  end.

(** An entry of a translation: [None] when it is not readable. *)
Definition ept_follow (p i : Z) E : res (option Z) :=
  e ← ept_load p i E; Ret (if ept_readable e then Some (ept_address e) else None).

Definition ept_translate (gpa : Z) E : res (option Z) :=
  l3 ← ept_follow (eptp E) (pte_index 4 gpa) E;
  match l3 with None => Ret None | Some l3 =>
  l2 ← ept_follow l3 (pte_index 3 gpa) E;
  match l2 with None => Ret None | Some l2 =>
  l1 ← ept_follow l2 (pte_index 2 gpa) E;
  match l1 with None => Ret None | Some l1 =>
  page ← ept_follow l1 (pte_index 1 gpa) E;
  match page with None => Ret None | Some page =>
  a ← add_chk U64 page (Z.land gpa 0xFFF); Ret (Some a)
  end end end end.

(** ** The walk of the guest *)

Section guest_walk.
(** [slat] is a translation of guest addresses to host addresses; [word64] and
    [word32] read the host's memory. *)
Context (slat : Z → option Z) (word64 word32 : Z → Z).

Definition read_gpa (gpa : Z) : option Z := hpa ← slat gpa; Some (word64 hpa).

Definition translate_long_mode (guest_va guest_cr3 : Z) : option Z :=
  let pml4_idx := Z.land (Z.shiftr guest_va 39) 0x1FF in
  let pdpt_idx := Z.land (Z.shiftr guest_va 30) 0x1FF in
  let pd_idx := Z.land (Z.shiftr guest_va 21) 0x1FF in
  let pt_idx := Z.land (Z.shiftr guest_va 12) 0x1FF in
  let offset := Z.land guest_va 0xFFF in
  pml4_entry ← read_gpa (Z.land guest_cr3 (wnot 64 0xFFF) + pml4_idx * 8);
  if Z.land pml4_entry 1 =? 0 then None else
  pdpt_entry ← read_gpa (Z.land pml4_entry 0x000FFFFFFFFFF000 + pdpt_idx * 8);
  if Z.land pdpt_entry 1 =? 0 then None else
  if negb (Z.land pdpt_entry 0x80 =? 0) then Some (Z.land pdpt_entry (wnot 64 0x3FFFFFFF) + Z.land guest_va 0x3FFFFFFF) else
  pd_entry ← read_gpa (Z.land pdpt_entry 0x000FFFFFFFFFF000 + pd_idx * 8);
  if Z.land pd_entry 1 =? 0 then None else
  if negb (Z.land pd_entry 0x80 =? 0) then Some (Z.land pd_entry (wnot 64 0x1FFFFF) + Z.land guest_va 0x1FFFFF) else
  pt_entry ← read_gpa (Z.land pd_entry 0x000FFFFFFFFFF000 + pt_idx * 8);
  if Z.land pt_entry 1 =? 0 then None else
  Some (Z.land pt_entry 0x000FFFFFFFFFF000 + offset).

Definition translate_protected_mode (gva cr3 : Z) : option Z :=
  pd_hva ← slat (Z.land cr3 (wnot 32 0xFFF));
  if pd_hva =? 0 then None else
  let pde := word32 (pd_hva + 4 * Z.shiftr gva 22) in
  if Z.land pde 1 =? 0 then None else
  if negb (Z.land pde (bit 7) =? 0) then Some (Z.lor (Z.land pde 0xFFC00000) (Z.land gva 0x003FFFFF)) else
  pt_hva ← slat (Z.land pde (wnot 64 0xFFF));
  if pt_hva =? 0 then None else
  let pte := word32 (pt_hva + 4 * Z.land (Z.shiftr gva 12) 0x3FF) in
  if Z.land pte 1 =? 0 then None else
  Some (Z.lor (Z.land pte (wnot 64 0xFFF)) (Z.land gva 0xFFF)).

Definition translate_instruction_gpa (address cr0 cr3 bitness : Z) : option Z :=
  if bitness =? 64 then translate_long_mode address cr3
  else if negb (Z.land cr0 (bit 31) =? 0) then translate_protected_mode (address mod U32) (cr3 mod U32)
  else Some address.

(** A large page that may not be executed has its address with bit 63 set. *)
Lemma nx_large_page_address va cr3 pml4 : read_gpa (Z.land cr3 (wnot 64 0xFFF) + Z.land (Z.shiftr va 39) 0x1FF * 8) = Some pml4 →
  Z.land pml4 1 ≠ 0 → read_gpa (Z.land pml4 0x000FFFFFFFFFF000 + Z.land (Z.shiftr va 30) 0x1FF * 8) = Some 0x8000000040000083 →
  translate_long_mode va cr3 = Some (0x8000000040000000 + Z.land va 0x3FFFFFFF).
Proof.
  intros H1 H2 H3. unfold translate_long_mode. cbv zeta. rewrite H1. cbn [mbind option_bind]. rewrite (proj2 (Z.eqb_neq _ 0) H2), H3. reflexivity.
Qed.
End guest_walk.

(** ** What the tables mean *)

(** An entry as this code writes it: an address below 2^52 and known flags; in
    particular no entry is taken for a large page. *)
Definition ept_entry_ok (e : Z) : Prop := word 52 e ∧ Z.testbit e 7 = false.

(** The kernel's address space. *)
Definition kernel_maps (m : machine) (π : list Z) : option mapping := maps m (offset m + cr3 m) π.

(** The frames [l] are free, and so are the pages at their addresses. *)
Record table_frames (m : machine) (l : list Z) : Prop := {
  tf_good : good m (offset m + cr3 m) l;
  tf_cr3 : cr3_ok m;
  tf_free : ∀ f, f ∈ l → f < 2 ^ 47 ∧ kernel_maps m (path f) = Some Unmapped
}.

Record ept_ok E (l : list Z) : Prop := {
  ept_space : space 0 (ept_tables E) (eptp E);
  ept_entries : ∀ p t, ept_tables E !! p = Some t → Forall ept_entry_ok t;
  ept_frames : table_frames (host E) l;
  ept_reach : ∀ p, is_Some (ept_tables E !! p) → kernel_maps (host E) (path p) = Some (Mapped 1 (leaf p Flags.WRITABLE))
}.

Lemma ept_all_mask : EPT_ALL = Z.lor (mask 0 3) (mask 4 3).
Proof. reflexivity. Qed.

Lemma testbit_ept_flags e i : 0 ≤ i → Z.testbit (ept_flags e) i = Z.testbit e i && ((i <? 3) || ((4 <=? i) && (i <? 7))).
Proof.
  intros. unfold ept_flags. rewrite ept_all_mask. change 0xFFF with (mask 0 12). rewrite !Z.land_spec, Z.lor_spec, !testbit_mask by lia.
  destruct (Z.testbit e i); [|done]. simpl. bit_cases.
Qed.

Lemma testbit_ept_address e i : 0 ≤ i → Z.testbit (ept_address e) i = Z.testbit e i && ((12 <=? i) && (i <? 64)).
Proof. intros. unfold ept_address. change 0xFFFFFFFFFFFFF000 with (mask 12 52). by rewrite Z.land_spec, testbit_mask by lia. Qed.

Lemma ept_readable_bit e : ept_readable e = Z.testbit e 0.
Proof. unfold ept_readable, EPT_READ. rewrite contains_bit by lia. rewrite testbit_ept_flags by lia. by rewrite andb_true_r. Qed.

Lemma ept_address_eq e : word 52 e → ept_address e = address e.
Proof.
  intros He. apply Z.bits_inj'. intros i Hi. rewrite testbit_ept_address, testbit_address by lia.
  destruct (decide (i < 52)); [|by rewrite (word_high_bit 52 e) by (assumption || lia)]. bit_cases.
Qed.

Lemma ept_links level e : ept_entry_ok e → links level e = ept_readable e.
Proof. intros [_ H7]. unfold links, huge_at. rewrite H7, andb_false_r, ept_readable_bit. apply andb_true_r. Qed.

(** The entry written for the frame [a] with flags [f]. *)
Definition ept_entry (a f : Z) : Z := Z.lor a f.

(** Flags without a memory type of large pages. *)
Definition ept_flag_word (f : Z) : Prop := word 7 f.

Lemma ept_written a f e : frame_ok a → ept_flag_word f → ept_entry_ok e →
  (e' ← ept_set_address a e; Ret (ept_set_flags f e')) = Ret (ept_entry a f).
Proof.
  intros Ha Hf He. unfold ept_set_address. rewrite (proj2 (Z.eqb_eq _ 0)). 2: { destruct Ha. change 0xFFF with 4095. by rewrite frame_low_bits. }
  cbn [rassert]. rewrite !ret_bind. f_equal. unfold ept_set_flags, ept_entry. f_equal.
  apply Z.bits_inj'. intros i Hi. rewrite testbit_ept_address, Z.lor_spec, testbit_ept_flags, Z.land_spec by lia.
  change 0x000FFFFFFFFFF000 with (mask 12 40). rewrite testbit_mask by lia.
  destruct (decide (12 ≤ i < 52)).
  - bit_cases.
  - rewrite (frame_bit a i) by (assumption || lia). bit_cases.
Qed.

Lemma ept_entry_frame a f : frame_ok a → ept_flag_word f →
  ept_entry_ok (ept_entry a f) ∧ ept_address (ept_entry a f) = a ∧ Z.testbit (ept_entry a f) 0 = Z.testbit f 0.
Proof.
  intros Ha Hf. unfold ept_entry. assert (word 52 a) as Hw by (destruct Ha; done).
  assert (word 52 f) as Hw2 by (apply (word_wider 7); [lia|assumption]). split_and!.
  - split; [by apply word_lor; [lia|..]|]. rewrite Z.lor_spec, (frame_bit a 7), (word_high_bit 7 f) by (assumption || lia). done.
  - apply Z.bits_inj'. intros i Hi. rewrite testbit_ept_address, Z.lor_spec by lia. destruct (decide (12 ≤ i < 52)).
    + rewrite (word_high_bit 7 f) by (assumption || lia). bit_cases.
    + rewrite (frame_bit a i) by (assumption || lia). destruct (decide (i < 12)); [bit_cases|].
      rewrite (word_high_bit 7 f) by (assumption || lia). done.
  - by rewrite Z.lor_spec, (frame_bit a 0) by (assumption || lia).
Qed.

Lemma ept_load_ok E l ρ p i : ept_ok E l → walk 0 (ept_tables E) 4 (eptp E) ρ = Some p → (length ρ ≤ 3)%nat → 0 ≤ i < 512 →
  ∃ e, entry (ept_tables E) p i = Some e ∧ ept_load p i E = Ret e ∧ ept_entry_ok e.
Proof.
  intros Hok Hw Hl Hi. destruct (space_table _ _ _ (ept_space E l Hok) ρ p Hw Hl) as (_ & t & Ht & Hlen & _).
  destruct (lookup_lt_is_Some_2 t (Z.to_nat i)) as [e He]; [lia|]. exists e. unfold entry, ept_load. rewrite Ht.
  rewrite (proj2 (Z.ltb_ge i 0)) by lia. split; [exact He|]. split; [by apply index_lookup; [lia|]|].
  pose proof (ept_entries E l Hok p t Ht) as Hf. rewrite Forall_forall in Hf. apply Hf. by apply list_elem_of_lookup_2 in He.
Qed.

Lemma ept_store_put E p i e e' : entry (ept_tables E) p i = Some e →
  ept_store p i e' E = Ret (E <| ept_tables := put (ept_tables E) p i e' |>).
Proof.
  unfold entry, ept_store, put. intros He. destruct (Z.ltb_spec i 0); [done|].
  destruct (ept_tables E !! p) as [t|] eqn:Ht; [|done]. cbn [mbind option_bind] in He.
  rewrite store_as_insert by (apply lookup_lt_Some in He; unfold zlen; lia). rewrite ret_bind.
  assert (alter (λ t, <[Z.to_nat i := e']> t) p (ept_tables E) = <[p := <[Z.to_nat i := e']> t]> (ept_tables E)) as ->; [|done].
  apply map_eq. intros q. destruct (decide (q = p)) as [->|]; [by rewrite lookup_insert_eq, lookup_alter_eq, Ht|].
  by rewrite lookup_insert_ne, lookup_alter_ne by done.
Qed.

Lemma put_entries (T : gmap Z (list Z)) p i e' : (∀ q t, T !! q = Some t → Forall ept_entry_ok t) → ept_entry_ok e' →
  ∀ q t, put T p i e' !! q = Some t → Forall ept_entry_ok t.
Proof.
  intros HT He q t. unfold put. destruct (decide (q = p)) as [->|Hne].
  - rewrite lookup_alter_eq. destruct (T !! p) as [u|] eqn:Hu; [|done]. cbn. intros [= <-]. apply Forall_insert; [by apply (HT p)|assumption].
  - rewrite lookup_alter_ne by done. apply HT.
Qed.

Lemma put_some (T : gmap Z (list Z)) p i e q : is_Some (put T p i e !! q) → is_Some (T !! q).
Proof. intros H. destruct (T !! q) eqn:E; [done|]. assert (Hn : put T p i e !! q = None) by (by apply put_dom). rewrite Hn in H. by destruct H. Qed.

(** What a step of [ept_map] leaves as it was. *)
Record ept_extends E E' : Prop := {
  ee_root : eptp E' = eptp E;
  ee_resolve : ∀ π, length π = 4%nat → indices π →
    resolve 0 (ept_tables E') 4 (eptp E) π = resolve 0 (ept_tables E) 4 (eptp E) π;
  ee_kernel : ∀ π, full_path π → kernel_maps (host E) π ≠ Some Unmapped → kernel_maps (host E') π = kernel_maps (host E) π
}.

(** ** Frames for tables *)

Lemma low_page f : 0 ≤ f < 2 ^ 47 → f mod 4096 = 0 → page_ok f.
Proof.
  intros Hf Hm. split; [|done]. rewrite sign_extend_eq, Z.mod_small by (change (2 ^ 48) with (2 ^ 47 * 2); lia). by rewrite (proj2 (Z.ltb_lt _ _)) by lia.
Qed.

Lemma frame_page m l f : table_frames m l → f ∈ l → frame_ok f ∧ page_ok f.
Proof.
  intros Ht Hf. destruct (pool_frame _ _ f (good_pool _ _ _ (tf_good _ _ Ht)) Hf) as [Hok _]. split; [done|]. destruct Hok as [Hr Ha].
  apply low_page; [|done]. split; [lia|]. by apply (tf_free _ _ Ht).
Qed.

(** A frame is taken and mapped at its address; no other page changes. *)
Lemma table_frame_spec m f l : table_frames m (f :: l) → (3 ≤ length l)%nat →
  ∃ m' l', table_frame m = Ret (f, m') ∧ table_frames m' l' ∧ (length l ≤ 3 + length l')%nat ∧
    ∀ π, full_path π → kernel_maps m' π = if decide (π = path f) then Some (Mapped 1 (leaf f Flags.WRITABLE)) else kernel_maps m π.
Proof.
  intros Ht Hl. destruct (frame_page m (f :: l) f Ht ltac:(left)) as [Hf Hp]. destruct (tf_free _ _ Ht f ltac:(left)) as [_ Hun].
  destruct (allocate_and_map_spec m (offset m + cr3 m) f l f (tf_good _ _ Ht) eq_refl (tf_cr3 _ _ Ht) Hl Hp Hun) as (m1 & Ea & [r m'] & Em & -> & Ho & Hc & l' & Hg & [Hlen Hsuf] & Hm).
  exists m', l'. unfold kernel_maps in *. rewrite Ho in Hm. rewrite Ho, Hc. split; [|split; [|split; [done|exact Hm]]].
  - unfold table_frame, expect. rewrite (bind_step _ _ _ f m1) by by rewrite (bind_step _ _ _ _ _ Ea).
    rewrite (lift_step _ _ _ f) by (apply (aligned_frame f), Hf). rewrite (lift_step _ _ _ f) by (apply aligned_frame, Hf). by rewrite (bind_step _ _ _ _ _ Em).
  - pose proof (pool_nodup _ _ (good_pool _ _ _ (tf_good _ _ Ht))) as Hnd. apply NoDup_cons in Hnd as [Hnf _].
    pose proof (tf_cr3 _ _ Ht) as Hcr. constructor; [by rewrite Ho, Hc|unfold cr3_ok in *; by rewrite Ho, Hc|]. intros g Hin. unfold kernel_maps. rewrite Ho, Hc.
    assert (Hgl : g ∈ f :: l) by (right; by eapply suffix_elem). destruct (tf_free _ _ Ht g Hgl) as [Hlt Hgu]. split; [done|].
    rewrite (Hm (path g) (path_full g)). rewrite decide_False; [exact Hgu|]. intros E. apply path_inj in E; [|by apply (frame_page m (f :: l))|done].
    subst g. apply Hnf. by eapply suffix_elem.
Qed.

(** A frame at hand is no table of the guest. *)
Lemma frame_no_table E l f : ept_ok E l → f ∈ l → ept_tables E !! f = None.
Proof.
  intros Hok Hf. destruct (ept_tables E !! f) eqn:Et; [|done]. pose proof (ept_reach E l Hok f ltac:(by eexists)) as Hr.
  destruct (tf_free _ _ (ept_frames E l Hok) f Hf) as [_ Hu]. congruence.
Qed.

Lemma zeros_entries : Forall ept_entry_ok (zeros 512).
Proof. apply Forall_replicate. split; [split; [lia|done]|done]. Qed.

Lemma ept_allocate_spec E l ρ q j e : ept_ok E l → walk 0 (ept_tables E) 4 (eptp E) ρ = Some q → (length ρ ≤ 2)%nat →
  entry (ept_tables E) q j = Some e → ept_entry_ok e → Z.testbit e 0 = false → (4 ≤ length l)%nat →
  ∃ f E' l', ept_allocate_lower_level_page_table q j E = Ret E' ∧ ept_ok E' l' ∧ ept_extends E E' ∧ (length l ≤ 4 + length l')%nat ∧ frame_ok f ∧
    entry (ept_tables E') q j = Some (ept_entry f 7) ∧ walk 0 (ept_tables E') 4 (eptp E') (ρ ++ [j]) = Some f.
Proof.
  intros Hok Hw Hl He Heo Habs Hlen. destruct l as [|f l]; [simpl in Hlen; lia|]. simpl in Hlen.
  pose proof (frame_no_table E _ f Hok ltac:(left)) as Hnone. destruct (frame_page _ _ f (ept_frames _ _ Hok) ltac:(left)) as [Hfo Hpo].
  destruct (table_frame_spec (host E) f l (ept_frames _ _ Hok) ltac:(lia)) as (m' & l' & Et & Htf & Hll & Hmaps).
  destruct (tf_free _ _ (ept_frames _ _ Hok) f ltac:(left)) as [_ Hun].
  pose proof (ept_space E _ Hok) as Hsp. destruct (ept_entry_frame f 7 Hfo) as (Eo & Ea & Eb); [split; [lia|done]|].
  assert (address (ept_entry f 7) + 0 = f) as Haddr by (rewrite Z.add_0_r, <- ept_address_eq by apply Eo; exact Ea).
  assert (links (4 - length ρ) (ept_entry f 7) = true) as Hlink by (by rewrite ept_links, ept_readable_bit, Eb).
  assert (0 ≤ f < U64) as Hr by (destruct Hfo; lia).
  assert (word 64 (ept_entry f 7)) as Hw64 by (apply (word_wider 52); [lia|apply Eo]).
  set (T1 := <[f := zeros 512]> (ept_tables E)). set (T' := put T1 q j (ept_entry f 7)).
  assert (entry T1 q j = Some e) as He1.
  { unfold T1, entry. rewrite lookup_insert_ne; [exact He|]. intros <-. unfold entry in He. rewrite Hnone in He. by destruct (j <? 0). }
  set (E1 := E <| host := m' |> <| ept_tables := T1 |>).
  assert (Erun : ept_allocate_lower_level_page_table q j E = Ret (E1 <| ept_tables := T' |>)).
  { unfold ept_allocate_lower_level_page_table. rewrite Et, ret_bind. cbv zeta. fold T1. fold E1.
    assert (ept_load q j E1 = Ret e) as ->.
    { unfold ept_load. change (ept_tables E1) with T1. unfold entry in He1. destruct (Z.ltb_spec j 0); [done|].
      destruct (T1 !! q) as [t|]; [|done]. by apply index_lookup. }
    rewrite ret_bind. pose proof (ept_written f 7 e Hfo ltac:(split; [lia|done]) Heo) as Hwr.
    destruct (ept_set_address f e) as [e1|]; [|done]. rewrite ret_bind in Hwr. rewrite ret_bind. injection Hwr as Hwr.
    change (Z.lor (Z.lor EPT_READ EPT_WRITE) EPT_EXECUTE) with 7. rewrite Hwr. by rewrite (ept_store_put E1 q j e) by exact He1. }
  assert (Hreach : ∀ p, is_Some (ept_tables E !! p) → path p ≠ path f).
  { intros p Hp E2. pose proof (ept_reach E _ Hok p Hp) as Hm. rewrite E2 in Hm. congruence. }
  exists f, (E1 <| ept_tables := T' |>), l'. split; [done|]. split; [|split; [|split; [simpl; lia|split; [done|split]]]].
  - constructor; rsimp; change (eptp E1) with (eptp E); change (host E1) with m'; [| |done|].
    + by eapply (space_new 0 (ept_tables E) (eptp E) ρ q j e (ept_entry f 7) f).
    + apply put_entries; [|exact Eo]. intros p t. unfold T1. destruct (decide (p = f)) as [->|].
      * rewrite lookup_insert_eq. intros [= <-]. apply zeros_entries.
      * rewrite lookup_insert_ne by done. apply (ept_entries E _ Hok).
    + intros p Hp%put_some. rewrite (Hmaps _ (path_full p)). unfold T1 in Hp. destruct (decide (p = f)) as [->|Hne]; [by rewrite decide_True|].
      rewrite lookup_insert_ne in Hp by done. rewrite decide_False by by apply Hreach. by apply (ept_reach E _ Hok).
  - constructor; [done| |]; [intros π Hπ Hi; by eapply (resolve_new 0 (ept_tables E) (eptp E) ρ q j e (ept_entry f 7) f)|].
    intros π Hπ Hne. change (host _) with m' at 1. rewrite (Hmaps π Hπ). rewrite decide_False; [done|]. intros ->. done.
  - rsimp. apply (entry_put_eq _ _ _ e). exact He1.
  - rsimp. change (eptp E1) with (eptp E). unfold T', T1.
    erewrite (walk_new 0 (ept_tables E) (eptp E) ρ q j e (ept_entry f 7) f); try eassumption; [by rewrite decide_True|].
    rewrite length_app. simpl. lia.
Qed.

Lemma ept_extends_refl E : ept_extends E E.
Proof. done. Qed.

Lemma ept_extends_trans E1 E2 E3 : ept_extends E1 E2 → ept_extends E2 E3 → ept_extends E1 E3.
Proof.
  intros [R1 V1 K1] [R2 V2 K2]. constructor; [congruence| |].
  - intros π Hπ Hi. rewrite <- (V1 π Hπ Hi). rewrite R1 in V2. by apply V2.
  - intros π Hπ Hne. pose proof (K1 π Hπ Hne) as E. rewrite <- E in Hne |- *. by apply K2.
Qed.

Lemma ept_descend_spec E l ρ q j : ept_ok E l → walk 0 (ept_tables E) 4 (eptp E) ρ = Some q → (length ρ ≤ 2)%nat → 0 ≤ j < 512 →
  (4 ≤ length l)%nat → ∃ q' E' l', ept_descend q j E = Ret (q', E') ∧ ept_ok E' l' ∧ ept_extends E E' ∧ (length l ≤ 4 + length l')%nat ∧
    walk 0 (ept_tables E') 4 (eptp E') (ρ ++ [j]) = Some q'.
Proof.
  intros Hok Hw Hl Hj Hlen. destruct (ept_load_ok E l ρ q j Hok Hw ltac:(lia) Hj) as (e & He & El & Heo).
  unfold ept_descend. rewrite El, ret_bind, ept_readable_bit. destruct (Z.testbit e 0) eqn:H0.
  - rewrite ret_bind, El, ret_bind. exists (ept_address e), E, l. split; [done|]. split; [assumption|]. split; [apply ept_extends_refl|]. split; [lia|].
    rewrite (walk_snoc 0 _ _ ρ q j e Hw ltac:(lia) He), ept_links, ept_readable_bit, H0 by assumption.
    by rewrite Z.add_0_r, ept_address_eq by apply Heo.
  - destruct (ept_allocate_spec E l ρ q j e Hok Hw Hl He Heo H0 Hlen) as (f & E' & l' & -> & Hok' & Hx & Hll & Hfo & He' & Hw'). rewrite ret_bind.
    destruct (ept_entry_frame f 7 Hfo) as (_ & Ea & _); [split; [lia|done]|].
    assert (ept_load q j E' = Ret (ept_entry f 7)) as ->.
    { unfold ept_load. unfold entry in He'. destruct (Z.ltb_spec j 0); [done|]. destruct (ept_tables E' !! q) as [t|]; [|done].
      by apply index_lookup. }
    rewrite ret_bind, Ea. by exists f, E', l'.
Qed.

Lemma ept_leaf_spec E l ρ q j hpa f : ept_ok E l → walk 0 (ept_tables E) 4 (eptp E) ρ = Some q → length ρ = 3%nat → 0 ≤ j < 512 →
  frame_ok hpa → ept_flag_word f → Z.testbit f 0 = true →
  ∃ E', (e ← ept_load q j E; e ← ept_set_address hpa e; ept_store q j (ept_set_flags f e) E) = Ret E' ∧ ept_ok E' l ∧
    eptp E' = eptp E ∧ host E' = host E ∧
    ∀ π, length π = 4%nat → resolve 0 (ept_tables E') 4 (eptp E) π =
      if decide (π = ρ ++ [j]) then Some (Mapped 1 (ept_entry hpa f)) else resolve 0 (ept_tables E) 4 (eptp E) π.
Proof.
  intros Hok Hw Hl Hj Hh Hf H0. destruct (ept_load_ok E l ρ q j Hok Hw ltac:(lia) Hj) as (e & He & -> & Heo).
  destruct (ept_entry_frame hpa f Hh Hf) as (Eo & _ & Eb). pose proof (ept_space E l Hok) as Hsp.
  rewrite ret_bind. pose proof (ept_written hpa f e Hh Hf Heo) as Hwr. destruct (ept_set_address hpa e) as [e1|]; [|done].
  rewrite ret_bind in Hwr. injection Hwr as Hwr. rewrite ret_bind, Hwr, (ept_store_put E q j e _ He).
  eexists. split; [reflexivity|]. split; [|split; [done|split; [done|]]].
  - constructor; rsimp.
    + apply space_change; [assumption|apply (word_wider 52); [lia|apply Eo]|].
      intros π Hπ. apply (walk_leaf 0 _ _ ρ q j e); (assumption || lia).
    + apply put_entries; [apply (ept_entries E l Hok)|exact Eo].
    + apply (ept_frames E l Hok).
    + intros p Hp%put_some. by apply (ept_reach E l Hok).
  - intros π Hπ. rsimp. rewrite (resolve_leaf 0 (ept_tables E) (eptp E) ρ q j e (ept_entry hpa f)) by (assumption || lia).
    by rewrite Eb, H0.
Qed.

Lemma ept_flag_word_rights a : ept_flag_word (Z.lor (rights_flags a) EPT_WRITE_BACK) ∧
  Z.testbit (Z.lor (rights_flags a) EPT_WRITE_BACK) 0 = true.
Proof. destruct a; (split; [split; [done|reflexivity]|reflexivity]). Qed.

Lemma ept_map_spec gpa hpa a E l : ept_ok E l → frame_ok hpa → (12 ≤ length l)%nat →
  ∃ E' l', ept_map gpa hpa a E = Ret E' ∧ ept_ok E' l' ∧ eptp E' = eptp E ∧ (length l ≤ 12 + length l')%nat ∧
    (∀ π, full_path π → kernel_maps (host E) π ≠ Some Unmapped → kernel_maps (host E') π = kernel_maps (host E) π) ∧
    ∀ π, length π = 4%nat → indices π → resolve 0 (ept_tables E') 4 (eptp E) π =
      if decide (π = path gpa) then Some (Mapped 1 (ept_entry hpa (Z.lor (rights_flags a) EPT_WRITE_BACK)))
      else resolve 0 (ept_tables E) 4 (eptp E) π.
Proof.
  intros H0 Hh Hf. unfold ept_map. pose proof (pte_index_range 4 gpa) as I4. pose proof (pte_index_range 3 gpa) as I3.
  pose proof (pte_index_range 2 gpa) as I2. pose proof (pte_index_range 1 gpa) as I1.
  destruct (ept_descend_spec E l [] (eptp E) (pte_index 4 gpa) H0 eq_refl ltac:(simpl; lia) ltac:(assumption) ltac:(lia))
    as (l3 & E1 & f1 & -> & H1 & X1 & F1 & W1). rewrite ret_bind.
  destruct (ept_descend_spec E1 f1 [pte_index 4 gpa] l3 (pte_index 3 gpa) H1 W1 ltac:(simpl; lia) ltac:(assumption) ltac:(lia))
    as (l2 & E2 & f2 & -> & H2 & X2 & F2 & W2). rewrite ret_bind.
  destruct (ept_descend_spec E2 f2 _ l2 (pte_index 2 gpa) H2 W2 ltac:(simpl; lia) ltac:(assumption) ltac:(lia))
    as (l1 & E3 & f3 & -> & H3 & X3 & F3 & W3). rewrite ret_bind.
  destruct (ept_extends_trans _ _ _ (ept_extends_trans _ _ _ X1 X2) X3) as [RE V K].
  destruct (ept_flag_word_rights a) as [Hfw Hb].
  destruct (ept_leaf_spec E3 f3 _ l1 (pte_index 1 gpa) hpa _ H3 W3 eq_refl ltac:(assumption) Hh Hfw Hb) as (E4 & -> & H4 & R4 & Hh4 & V4).
  exists E4, f3. split; [done|]. split; [assumption|]. split; [congruence|]. split; [lia|]. split; [by rewrite Hh4|].
  intros π Hπ Hi. rewrite <- RE, (V4 π Hπ), RE. change (([pte_index 4 gpa] ++ [pte_index 3 gpa]) ++ [pte_index 2 gpa]) with [pte_index 4 gpa; pte_index 3 gpa; pte_index 2 gpa] in *.
  destruct (decide (π = path gpa)) as [Hp|Hp].
  - rewrite decide_True by exact Hp. done.
  - rewrite decide_False by exact Hp. by apply V.
Qed.

(** Translation reads off the mapping of the page. *)
Lemma ept_follow_ok E l ρ p i : ept_ok E l → walk 0 (ept_tables E) 4 (eptp E) ρ = Some p → (length ρ ≤ 3)%nat → 0 ≤ i < 512 →
  ∃ e, entry (ept_tables E) p i = Some e ∧ ept_entry_ok e ∧
    ept_follow p i E = Ret (if Z.testbit e 0 then Some (address e) else None).
Proof.
  intros Hok Hw Hl Hi. destruct (ept_load_ok E l ρ p i Hok Hw Hl Hi) as (e & He & El & Heo). exists e. split; [assumption|].
  split; [assumption|]. unfold ept_follow. by rewrite El, ret_bind, ept_readable_bit, ept_address_eq by apply Heo.
Qed.

Lemma resolve_snoc E ρ p i e π : walk 0 (ept_tables E) 4 (eptp E) ρ = Some p → (length ρ ≤ 3)%nat →
  entry (ept_tables E) p i = Some e → ept_entry_ok e →
  resolve 0 (ept_tables E) 4 (eptp E) (ρ ++ i :: π) =
  if Z.testbit e 0 then match π with [] => Some (Mapped (4 - length ρ) e) | _ => resolve 0 (ept_tables E) 4 (eptp E) ((ρ ++ [i]) ++ π) end
  else Some Unmapped.
Proof.
  intros Hw Hl He Heo. rewrite (resolve_app 0 _ _ _ _ _ p Hw) by done. cbn [resolve]. rewrite He.
  destruct (Z.testbit e 0) eqn:H0; [|done]. destruct π as [|k π]; [done|].
  assert (huge_at (4 - length ρ) e = false) as -> by (unfold huge_at; by rewrite (proj2 Heo), andb_false_r).
  assert (walk 0 (ept_tables E) 4 (eptp E) (ρ ++ [i]) = Some (address e + 0)) as Hw'.
  { rewrite (walk_snoc 0 _ _ ρ p i e Hw Hl He), ept_links, ept_readable_bit, H0 by assumption. done. }
  rewrite (resolve_app 0 _ _ _ _ _ _ Hw') by done. rewrite length_app.
  by replace (4 - length ρ - 1)%nat with (4 - (length ρ + length [i]))%nat by (simpl; lia).
Qed.

Definition host_address (gpa : Z) (x : option mapping) : res (option Z) :=
  match x with
  | Some (Mapped _ e) => Ret (Some (address e + gpa mod 4096))
  | Some Unmapped => Ret None
  | None => Crash OutOfBounds
  end.

Lemma address_bound e : word 52 e → 0 ≤ address e < 2 ^ 52.
Proof.
  intros He. rewrite <- ept_address_eq by assumption. unfold ept_address. apply (word_land 52); [lia|assumption].
Qed.

Lemma ept_translate_resolve gpa E l : ept_ok E l →
  ept_translate gpa E = host_address gpa (resolve 0 (ept_tables E) 4 (eptp E) (path gpa)).
Proof.
  intros Hok. unfold ept_translate, path. pose proof (pte_index_range 4 gpa) as I4. pose proof (pte_index_range 3 gpa) as I3.
  pose proof (pte_index_range 2 gpa) as I2. pose proof (pte_index_range 1 gpa) as I1.
  assert (∀ ρ p i e, walk 0 (ept_tables E) 4 (eptp E) ρ = Some p → (length ρ ≤ 3)%nat → entry (ept_tables E) p i = Some e → ept_entry_ok e →
    Z.testbit e 0 = true → walk 0 (ept_tables E) 4 (eptp E) (ρ ++ [i]) = Some (address e)) as Hstep.
  { intros ρ p i e Hw Hl He Heo H0. rewrite (walk_snoc 0 _ _ ρ p i e Hw Hl He), ept_links, ept_readable_bit, H0, Z.add_0_r by assumption. done. }
  destruct (ept_follow_ok E l [] (eptp E) _ Hok eq_refl ltac:(simpl; lia) I4) as (e4 & G4 & O4 & ->). rewrite ret_bind.
  change [pte_index 4 gpa; pte_index 3 gpa; pte_index 2 gpa; pte_index 1 gpa] with ([] ++ pte_index 4 gpa :: [pte_index 3 gpa; pte_index 2 gpa; pte_index 1 gpa]).
  rewrite (resolve_snoc E [] (eptp E) _ e4 _ eq_refl ltac:(simpl; lia) G4 O4). destruct (Z.testbit e4 0) eqn:B4; [|done].
  pose proof (Hstep [] _ _ _ eq_refl ltac:(simpl; lia) G4 O4 B4) as W3.
  destruct (ept_follow_ok E l _ _ _ Hok W3 ltac:(simpl; lia) I3) as (e3 & G3 & O3 & ->). rewrite ret_bind.
  rewrite (resolve_snoc E _ _ _ e3 _ W3 ltac:(simpl; lia) G3 O3). destruct (Z.testbit e3 0) eqn:B3; [|done].
  pose proof (Hstep _ _ _ _ W3 ltac:(simpl; lia) G3 O3 B3) as W2.
  destruct (ept_follow_ok E l _ _ _ Hok W2 ltac:(simpl; lia) I2) as (e2 & G2 & O2 & ->). rewrite ret_bind.
  rewrite (resolve_snoc E _ _ _ e2 _ W2 ltac:(simpl; lia) G2 O2). destruct (Z.testbit e2 0) eqn:B2; [|done].
  pose proof (Hstep _ _ _ _ W2 ltac:(simpl; lia) G2 O2 B2) as W1.
  destruct (ept_follow_ok E l _ _ _ Hok W1 ltac:(simpl; lia) I1) as (e1 & G1 & O1 & ->). rewrite ret_bind.
  rewrite (resolve_snoc E _ _ _ e1 _ W1 ltac:(simpl; lia) G1 O1). destruct (Z.testbit e1 0) eqn:B1; [|done].
  cbn [host_address]. change 0xFFF with (Z.ones 12). rewrite Z.land_ones by lia. change (2 ^ 12) with 4096.
  pose proof (address_bound e1 (proj1 O1)). pose proof (Z.mod_pos_bound gpa 4096 ltac:(lia)).
  by rewrite add_chk_ret, ret_bind by lia.
Qed.

(** What mapping guest pages does not touch: pages the kernel has mapped. *)
Definition keeps_kernel E E' : Prop :=
  ∀ π, full_path π → kernel_maps (host E) π ≠ Some Unmapped → kernel_maps (host E') π = kernel_maps (host E) π.

(** Mapping a guest page makes exactly its addresses translate to the host
    frame, with their offset kept; every other guest address translates as
    before. *)
Lemma ept_map_translates gpa hpa a E l : ept_ok E l → frame_ok hpa → (12 ≤ length l)%nat →
  ∃ E' l', ept_map gpa hpa a E = Ret E' ∧ ept_ok E' l' ∧ (length l ≤ 12 + length l')%nat ∧ keeps_kernel E E' ∧ ∀ g,
    ept_translate g E' = if decide (path g = path gpa) then Ret (Some (hpa + g mod 4096)) else ept_translate g E.
Proof.
  intros Hok Hh Hf. destruct (ept_map_spec gpa hpa a E l Hok Hh Hf) as (E' & l' & Em & Hok' & Hr & Hn & K & V). exists E', l'.
  do 4 (split; [assumption|]). intros g. destruct (path_full g) as [Hl Hi].
  rewrite (ept_translate_resolve g E' l' Hok'), (ept_translate_resolve g E l Hok), Hr, (V (path g) Hl Hi).
  destruct (decide (path g = path gpa)); [|done]. cbn [host_address].
  destruct (ept_flag_word_rights a) as [Hfw _]. destruct (ept_entry_frame hpa _ Hh Hfw) as (Eo & Ea & _).
  by rewrite <- ept_address_eq, Ea by apply Eo.
Qed.

(** Below 2^48 the indices of an address are those of its page. *)
Lemma path_page g g' : 0 ≤ g < 2 ^ 48 → 0 ≤ g' < 2 ^ 48 → path g = path g' ↔ g / 4096 = g' / 4096.
Proof.
  intros Hg Hg'. unfold path. rewrite !pte_index_eq by lia.
  change (2 ^ (12 + 9 * (4 - 1))) with 549755813888. change (2 ^ (12 + 9 * (3 - 1))) with 1073741824.
  change (2 ^ (12 + 9 * (2 - 1))) with 2097152. change (2 ^ (12 + 9 * (1 - 1))) with 4096.
  change (2 ^ 48) with 281474976710656 in *. split.
  - intros [=]. mlia.
  - intros Hq. assert (∀ k, 0 < k → g / (4096 * k) = g' / (4096 * k)) as Hk by (intros k Hk; by rewrite <- !Z.div_div, Hq by lia).
    change 549755813888 with (4096 * 134217728). change 1073741824 with (4096 * 262144). change 2097152 with (4096 * 512).
    by rewrite !Hk, Hq by lia.
Qed.

Ltac split_ranges :=
  repeat match goal with
  | |- context [?a <=? ?b] => destruct (Z.leb_spec a b)
  | |- context [?a <? ?b] => destruct (Z.ltb_spec a b)
  end; cbn [andb]; try (reflexivity || lia).

(** The guest addresses of the pages [i] up to [i + n] of a range at [gpa]. *)
Definition in_pages (gpa i n g : Z) : bool := (gpa + i * 4096 <=? g) && (g <? gpa + (i + n) * 4096).

Lemma ept_map_contiguous_spec n : ∀ i gpa hpa a E l, ept_ok E l → frame_ok hpa → frame_ok gpa → 0 ≤ i →
  gpa + (i + Z.of_nat n) * 4096 ≤ 2 ^ 48 → hpa + (i + Z.of_nat n) * 4096 ≤ 2 ^ 52 → (12 * n ≤ length l)%nat →
  ∃ E' l', ept_map_contiguous n i gpa hpa a E = Ret E' ∧ ept_ok E' l' ∧ keeps_kernel E E' ∧ ∀ g, 0 ≤ g < 2 ^ 48 →
    ept_translate g E' = if in_pages gpa i (Z.of_nat n) g then Ret (Some (hpa + (g - gpa))) else ept_translate g E.
Proof.
  induction n as [|n IH]; intros i gpa hpa a E l Hok Hh Hg Hi Bg Bh Hf.
  - exists E, l. split; [done|]. split; [assumption|]. split; [done|]. intros g Hr. unfold in_pages.
    split_ranges.
  - cbn [ept_map_contiguous]. unfold FRAME_SIZE. pose proof Hh as [Rh Ah]. pose proof Hg as [Rg Ag]. unfold FRAME_SIZE in Ah, Ag.
    rewrite !add_chk_ret, !ret_bind by lia.
    destruct (ept_map_translates (gpa + i * 4096) (hpa + i * 4096) a E l Hok) as (E1 & l1 & -> & Hok1 & F1 & K1 & V1); [|lia|].
    { split; [lia|]. unfold FRAME_SIZE. mlia. }
    rewrite ret_bind. destruct (IH (i + 1) gpa hpa a E1 l1) as (E2 & l2 & -> & Hok2 & K2 & V2); try (assumption || lia).
    exists E2, l2. split; [done|]. split; [assumption|].
    split; [intros π Hπ Hne; pose proof (K1 π Hπ Hne) as E0; rewrite <- E0 in Hne |- *; by apply K2|]. intros g Hr. rewrite (V2 g Hr), (V1 g). unfold in_pages.
    pose proof (path_page g (gpa + i * 4096) Hr ltac:(lia)) as HP.
    assert ((gpa + i * 4096) / 4096 = gpa / 4096 + i ∧ gpa = gpa / 4096 * 4096) as [Eq Eg] by mlia. rewrite Eq in HP.
    destruct (decide (path g = path (gpa + i * 4096))) as [Hp|Hp].
    + apply HP in Hp. assert (gpa + i * 4096 ≤ g < gpa + (i + 1) * 4096) as Hin by mlia.
      split_ranges. do 2 f_equal. mlia.
    + assert (¬ (gpa + i * 4096 ≤ g < gpa + (i + 1) * 4096)) as Hin by (intros ?; apply Hp, HP; mlia). split_ranges.
Qed.

(** C20: mapping a range of guest pages to a range of host frames, with twelve
    frames at hand for each page, returns with tables in which exactly the
    addresses of the range translate to the host range, with their offset kept;
    every other guest address translates as before.  The tables stay well formed,
    each in a frame of its own that is mapped at its own address, and no page
    that the kernel had mapped changes.  The frames at hand lie below 2^47 and
    the pages at their addresses are unmapped before. *)
Theorem guest_range_translates n gpa hpa a E l : ept_ok E l → frame_ok hpa → frame_ok gpa →
  gpa + Z.of_nat n * 4096 ≤ 2 ^ 48 → hpa + Z.of_nat n * 4096 ≤ 2 ^ 52 → (12 * n ≤ length l)%nat →
  ∃ E' l', ept_map_contiguous n 0 gpa hpa a E = Ret E' ∧ ept_ok E' l' ∧ keeps_kernel E E' ∧ ∀ g, 0 ≤ g < 2 ^ 48 →
    ept_translate g E' = if (gpa <=? g) && (g <? gpa + Z.of_nat n * 4096) then Ret (Some (hpa + (g - gpa))) else ept_translate g E.
Proof.
  intros Hok Hh Hg Bg Bh Hf. destruct (ept_map_contiguous_spec n 0 gpa hpa a E l) as (E' & l' & Em & Hok' & K & V); try (assumption || lia).
  exists E', l'. do 3 (split; [assumption|]). intros g Hr. rewrite (V g Hr). unfold in_pages. by rewrite Z.mul_0_l, Z.add_0_r, Z.add_0_l.
Qed.

(** A new guest whose top-level table happens to be clear translates nothing. *)
Lemma ept_new_spec held m f l : table_frames m (f :: l) → (3 ≤ length l)%nat → held f = zeros 512 →
  ∃ E l', ept_new held m = Ret E ∧ ept_ok E l' ∧ (length l ≤ 3 + length l')%nat ∧ ∀ g, ept_translate g E = Ret None.
Proof.
  intros Ht Hl Hz. destruct (table_frame_spec m f l Ht Hl) as (m' & l' & Et & Ht' & Hll & Hm). unfold ept_new. rewrite Et, ret_bind, Hz.
  eexists _, l'. split; [done|]. destruct (frame_page m _ f Ht ltac:(left)) as [[Hf _] _]. split; [|split; [done|]].
  - constructor; cbn [ept_tables eptp host].
    + apply space_empty; [lia|apply lookup_singleton_eq].
    + intros p t [_ <-]%lookup_singleton_Some. apply zeros_entries.
    + done.
    + intros p [t [<- _]%lookup_singleton_Some]. rewrite (Hm _ (path_full f)). by rewrite decide_True.
  - intros g. unfold ept_translate, ept_follow, ept_load. cbn [ept_tables eptp]. rewrite lookup_singleton_eq. cbv beta iota.
    pose proof (pte_index_range 4 g) as Hi. rewrite (index_lookup _ _ 0); [done|lia|]. unfold zeros. apply lookup_replicate. split; [done|lia].
Qed.

Lemma boot_table_frames : table_frames (boot_machine 0x40000) (boot_frames 0x40000).
Proof.
  constructor; [by apply boot_good|by vm_compute|]. intros f Hf. split; [|apply boot_maps, path_full].
  pose proof (length_boot 0x40000 ltac:(lia) eq_refl) as Hlen. apply list_elem_of_lookup_1 in Hf as [k Hk]. pose proof (lookup_lt_Some _ _ _ Hk) as Hlt.
  apply lookup_region in Hk as [-> _]. change (0x40000 / FRAME_SIZE) with 64 in Hlen. unfold FRAME_SIZE. lia.
Qed.

(** Two pages of a new guest: an address of the second is found, one behind it
    is not. *)
Lemma guest_range_translates_witness : ∃ E E', ept_new (λ _, zeros 512) (boot_machine 0x40000) = Ret E ∧
  ept_map_contiguous 2 0 0x7fe000 0x80000000 ReadWriteExecute E = Ret E' ∧
  ept_translate 0x7ff123 E' = Ret (Some 0x80001123) ∧ ept_translate 0x800000 E' = Ret None.
Proof.
  pose proof (length_boot 0x40000 ltac:(lia) eq_refl) as Hlen. change (0x40000 / FRAME_SIZE) with 64 in Hlen.
  pose proof boot_table_frames as Ht. destruct (boot_frames 0x40000) as [|f l]; [done|]. simpl in Hlen.
  destruct (ept_new_spec (λ _, zeros 512) _ f l Ht ltac:(lia) eq_refl) as (E & l' & En & Hok & Hl & Hnone).
  destruct (guest_range_translates 2 0x7fe000 0x80000000 ReadWriteExecute E l' Hok) as (E' & l2 & Em & _ & _ & V);
    [by split; [lia|]|by split; [lia|]|lia|lia|lia|].
  exists E, E'. split; [exact En|]. split; [exact Em|]. rewrite !V by lia. split; [by vm_compute|]. exact (Hnone 0x800000).
Defined.
